(* ===== verification/_CoqProject ===== *)
-Q . S2P
Prelude.v
ResultCode.v
ThreadQueueList.v
HandleTable.v
MemoryMap.v
ResourceLimit.v
IntervalSet.v
MemoryRegion.v
Memory.v
MemoryAccess.v
Cro.v
CroMemory.v
CroLists.v
CroTables.v
CroDemo.v
VmManager.v
CoreTiming.v
KernelState.v
Thread.v
Scheduler.v
Reschedule.v
WaitObject.v
WaitInvariant.v
Wakeup.v
SyncObjects.v
ThreadLife.v
Process.v
Ipc.v
Sessions.v
WaitSync.v
SvcMemory.v
SvcObjects.v
SvcThreads.v
IpcSpec.v
Release.v
Suspend.v
Resume.v
StopThread.v
Calls.v
KernelSteps.v
SyncSpecs.v
HleIpc.v
IpcHelpers.v
HelperSpec.v
ServiceManager.v
HleSpec.v
LdrRo.v
ArmSupp.v
ArmState.v
ArmOperands.v
ArmDecode.v
ArmThumb.v
ArmTrans.v
ArmData.v
ArmMedia.v
ArmSystem.v
ArmMachine.v
VfpHelper.v
VfpPack.v
VfpSingle.v
VfpDouble.v
VfpInstr.v
VfpDivide.v
VfpSqrt.v
VfpNumber.v
VfpRound.v
VfpCorrect.v
VfpOps.v
ArmLoop.v
ArmSteady.v
VfpKeeps.v
ArmKeeps.v
Cheats.v
ArmDemo.v
ArmUser.v
ArmCode.v
ArmBudget.v
ArmShift.v
ArmFlags.v
ArmModes.v
