(* ===== verification/Prelude.v ===== *)
(** * The HLE kernel and the ARM processor of emuThreeDS

    A model of the kernel that the emulator puts in place of the console's, of the
    interpreter that runs the guest's code, of the loader of modules and of the cheat
    codes, under src/emuThreeDS/citra_core/ (paths below are relative to it): the
    scheduler, the objects threads wait for, handles, messages, the memory of processes,
    the supervisor calls; the decoder, the translation and every instruction of the ARM
    processor. The other services and the hosts are outside; where the program calls them
    they are classes of operations.

    ** Parts, bottom to top

    - [Prelude]: machine integers as wrapped [Z] ([u32], [s64], ...), field updates of
      records, the state-and-error monad [M] every operation is written in ([Ret], or
      [Crash] with the reason: a failed assertion, undefined behaviour, a null or
      invalid pointer, missing fuel), its total ([wp]) and partial ([wlp]) specifications
      with their rules, and the steady operations (those that keep a preorder).
    - [ResultCode] (core/hle/result.h, core/hle/kernel/errors.h), [ThreadQueueList]
      (common/thread_queue_list.h), [HandleTable], [ResourceLimit], [MemoryMap]
      (core/memory.h), [IntervalSet] (the interface of boost::icl::interval_set, a class
      with laws, and an instance), [MemoryRegion] (core/hle/kernel/memory.cpp: the
      allocator of FCRAM): the containers, one state each.
    - [Memory] and [MemoryAccess] (core/memory.cpp): page tables, marks of cached pages,
      reads, writes and block transfers. Host memory is blocks of bytes; the rasterizer,
      memory-mapped devices and hardware registers are the class [Devices], the addresses
      of host buffers the class [Host].
    - [VmManager] (core/hle/kernel/vm_manager.cpp): the areas of an address space, over
      the page table of [Memory].
    - [CoreTiming] (core/core_timing.cpp): the timers of the cores, and their events. The
      callbacks of events run on the whole world [W], which holds the timers, so that a
      callback can schedule.
    - [KernelState] (core/hle/kernel/kernel.h and the headers of the objects): the record
      [KernelSystem]. An object is its address, an [oid]; [objects] maps addresses to
      fields; lists of pointers, aliasing and sharing are therefore as in the code.
    - [Thread] (core/hle/kernel/thread.cpp): states, priorities, ready queues, context
      switches. [WaitObject] (wait_object.cpp and the virtual functions of its
      subclasses), [SyncObjects] (mutex.cpp, semaphore.cpp, event.cpp, timer.cpp,
      address_arbiter.cpp), [ThreadLife] (creation, time-out and end of a thread, and
      arbitration), [Process] (process.cpp, shared_memory.cpp), [Ipc] (core/hle/ipc.h,
      core/hle/kernel/ipc.cpp), [Sessions] (client_port.cpp ... server_session.cpp).
    - [HleIpc] (core/hle/kernel/hle_ipc.cpp and the part of server_session.cpp that calls
      it), [IpcHelpers] (core/hle/ipc_helpers.h), [ServiceManager] (core/hle/service/
      service.cpp, sm/sm.cpp, sm/srv.cpp): requests to the services the emulator
      implements. Contexts and services are objects of the host: a part of the devices'
      state, reached through the class [HleIpc.Holds].
    - [WaitSync], [SvcMemory], [SvcObjects], [SvcThreads]: the supervisor calls of
      core/hle/kernel/svc.cpp. A call is a function of its arguments that gives its result
      code and its output parameters, where it sets them.

    - [ArmSupp] (core/arm/skyeye_common/armsupp.h and .cpp: bit fields, addition with
      carry, saturation), [ArmState] (armstate.h and .cpp: the record [ARMul_State] of a
      core, its banks of registers, coprocessor 15, the exclusive monitor), [ArmOperands]
      (conditions, shifter operands and addressing modes of
      core/arm/dyncom/arm_dyncom_interpreter.cpp), [ArmDecode] (arm_dyncom_dec.cpp: the
      table of encodings), [ArmThumb] (arm_dyncom_thumb.cpp), [ArmTrans]
      (arm_dyncom_trans.cpp: one translator for each instruction, over a buffer of
      translated instructions [TransCache]).
    - [ArmData], [ArmMedia], [ArmSystem], on what the end of [ArmTrans] says of how handlers
      run: the handlers that touch only the core, on [ARMul_State]; [ArmMachine]: those that access memory or call the kernel, on the
      record [Machine] of core, memory, translation buffer and the rest of the world. A
      handler ends with [next]: where the labels of InterpreterMainLoop go from it.
      [ArmLoop]: translation of blocks, dispatch, the main loop and the class ARM_DynCom
      (arm_dyncom.cpp).
    - [VfpHelper] (core/arm/skyeye_common/vfp/vfp_helper.h, vfp.cpp, asm_vfp.h: registers,
      the status word, 128-bit arithmetic, unpacked numbers), [VfpPack] (normalising and
      rounding), [VfpSingle], [VfpDouble] (vfpsingle.cpp, vfpdouble.cpp: the operations and
      the loop over short vectors), [VfpInstr] (vfpinstr.cpp: the handlers): the
      floating-point unit. Its registers are fields of [ARMul_State]; its translators are
      among those of [ArmTrans].

    - [Cro] (core/hle/service/ldr_ro/cro_helper.cpp and .h): modules, which are files in the
      memory of a process, and everything done to them: offsets become addresses and back,
      relocations, symbols, linking, the lists of modules. It is written over the class
      [ProcessMemory] of reads and writes, and proved against the class [FlatMemory] of
      [CroMemory]: memory is an array of bytes. [CroMemory.system_flat] keeps that promise
      for the memory system of [Memory], where the addresses are pages of RAM.
      [LdrRo] (core/hle/service/ldr_ro/ldr_ro.cpp): the service "ldr:ro", over the kernel.
    - [Cheats] (core/cheats/gateway_cheat.cpp and cheats.cpp): the codes, their language over
      the memory of [MemoryAccess], the text of cheats and their files, the engine.

    Operations keep their names; where several classes share one, the class comes first
    ([Mutex_Release], [Timer_Set]). Calls, guards and assertions are in the order of the
    code, which matters where one of them can fail.

    ** Theorems

    - Containers: [ThreadQueueList] refines the chained ready queue by a list of levels, for
      all sequences of calls; [HandleTable] (no stale handle is taken for
      another object), [MemoryRegion] (the allocators give what they say and the books
      balance).
    - Memory: RAM is a flat array of bytes across page boundaries and cached pages
      ([MemoryAccess]); the areas of an address space partition it and agree with the
      page table after every operation, and the effect of each operation is that of a map
      from pages to their attributes ([VmManager]).
    - Time: [CoreTiming.Advance] ends and runs exactly the events that are due, in order.
    - Scheduling: [Scheduler] has the invariant [sched_ok] of queues and cores and
      [Reschedule] which thread comes next.
    - Waiting: [WaitInvariant] has the invariant [kernel_ok]: with [sched_ok], the lists of
      waiting threads agree with what the threads wait for, and objects refer to what they
      should. Both invariants read a state through a projection ([sched_eq], [erase]) that
      leaves out what they do not mention, so that most updates keep them by a few
      lemmas; [calm] is the preorder of states in which no ready thread stops being ready
      and no object changes its class. [Wakeup], [Release], [Suspend], [Resume],
      [StopThread] keep them, operation by operation; [SyncSpecs] states what each
      operation does, on every branch.
    - The whole: [Calls] and [KernelSteps] follow the supervisor calls from
      their handles to the result: from a valid kernel no step fails and every state that
      is reached is valid.
    - Messages: [IpcSpec], descriptors read back, the translation stays in its bounds;
      [HelperSpec], a parser reads from a request what a builder wrote; [HleSpec], clients
      that sleep until their request is done.

    - The processor: [ArmShift], operands are those of a reference on integers; [ArmFlags],
      after a comparison the conditions say how the integers compare, and long
      multiplications are those of integers; [ArmSupp], saturation; [ArmModes], the banks of
      registers refine one map for each mode, and an exclusive store succeeds exactly on the
      reserved granule.
    - The machine: [ArmSteady] and [ArmKeeps] show once and for all what no handler does,
      by a relation [tame] that is threaded through all of them ([all_tame]); from it come
      [ArmUser] (code in user mode stays there and cannot write what is privileged),
      [ArmCode] (every pointer into the translation buffer that the main loop follows is
      the start of a translated instruction), and [ArmBudget] (a time slice ends, and is
      charged for what it ran).

    - Floating point: [VfpRound] says, for any format, what the correctly rounded result of
      an exact one is (known by how it compares with every number and every midpoint), that
      rounding a significand with a sticky bit gives it, and that both rounding functions of
      the code do so; [VfpPack], [VfpDivide] and [VfpSqrt] bound the estimates of the code
      and show that its loops end; [VfpNumber], the value of a word and its unpacked form;
      the end of [VfpRound] and [VfpCorrect], sums, products, quotients and roots before rounding;
      [VfpOps], the instructions: correct rounding of sums, products and quotients of finite
      numbers in both precisions and of the root in single precision, in all four modes and
      with denormals, and examples of where the code departs from IEEE 754. [VfpKeeps]
      carries the handlers through the relation [tame].
    - Modules: [CroLists], the two lists of modules are doubly linked lists in memory, and to
      the program two sequences: registering appends, unregistering removes, wherever the
      module is, and nothing else in memory changes. [CroTables], a header that is accepted
      has its offsets within the file and is given back bit for bit by the reverse
      operation; the search in the tree of names finds the symbol of a name, if there is
      one; a symbol is taken from the first module that exports it, in the order in which
      they were registered; a batch of relocations writes the address to each of its places
      and marks the batch, and nothing else. [LdrRo], which buffers are accepted.
      [CroDemo] applies these theorems to three pages of the memory system.
    - Cheats: [Cheats], loops run their block as often as the code makes them, a patch
      copies the words behind it, a cheat that does not mix D2 and conditions comes to its
      end, one that does may not, and cheats survive the file.

    What the kernel calls is assumed through classes: [Hooks] (services that receive
    requests, wake up and are notified) with the law [HooksOk] that they leave the kernel
    valid and the calling thread alone, [Services], [Emulator], [Devices], [Buffers]. The
    witnesses run the definitions on a small kernel ([Wakeup.demo_kernel]).

    ** Loops

    A loop of the code that is not over a list takes fuel: the length of the chain of
    levels in the ready queue; the number of areas in loops over an address space; the
    pages of a block; the words of a message ([translate_loop_spec]: more fuel changes
    nothing); the number of waiting threads in [wakeup_loop]; each theorem on them proves
    that the loop does not run out of it. The fuel of [CoreTiming.Advance] is an argument,
    because callbacks may schedule for ever; the theorem has a bound in terms of the events
    that are due. The rescheduling loop has one turn for every thread of the queue.

    The main loop of the processor goes through at most two labels for each instruction of
    its budget ([main_loop_budget]: fuel 2n+2); the translation of a block through the at
    most 2048 instructions of a page ([translate_loop_fuelled]).

    The loops that correct an estimate take a turn for each unit it can be off:
    [estimate_loop] 5 (the first digit of a quotient is at most 4 too large),
    [double_quotient_loop] 4 (the quotient, 2), [single_sqrt_loop] 8 (the root, 3),
    [double_sqrt_loop] 32 (the root of a double, 22): [VfpDivide] and [VfpSqrt].

    The loops over modules follow pointers in the memory of the guest, so their fuel is an
    argument: it is enough if it exceeds the number of modules, the height of the tree, the
    length of the batch; on memory that is no list or tree the code may not return.

    The fuel of a cheat is an argument, because a cheat may not end; [enough_fuel] is the
    measure of its first line: what is left of the lines, of the rounds of the loop (fewer
    than 2^33 each), and of the loops.

    ** Not modelled

    - Reference counts: objects stay in the table when their last reference is gone; what
      the destructors of sessions do are operations of their own, those of other objects
      (shared memory, processes, resource limits) are left out.
    - Starting a process: [CreateProcess], [Process::Run] and the loading of code sets,
      the shared and configuration pages, shared memory for applets.
    - The register wrapper and the table of calls (svc_wrapper.h, [CallSVC]); Break,
      OutputDebugString, KernelSetState and the invalidation of instruction caches, whose
      effects are on the host; save states, logging, tracing and recording.
    - The host's floating point in the conversions of core_timing.h other than those the
      kernel uses, and the calendar.
    - The recompiler (dynarmic), a submodule; breakpoints and the debugger.
    - The hashes of modules (VerifyHash, LoadCRR and UnloadCRR are stubs in the code too),
      and what is read from a module only to be logged while it is linked.
    - The locks of the list of cheats, and reading and writing host files: a cheat file is
      its contents; the numbers of a line that cannot be parsed are a parameter.
    - The other services behind their framework, GPU, audio, loaders, file systems and
      frontend: each a system of its own, which the kernel meets only through the classes
      above. *)

From stdpp Require Export base gmap list strings option numbers sorting.
From Stdlib Require Export ZArith Lia.

#[export] Set Default Goal Selector "!".
#[export] Set Warnings "-clear-no-such-hyp".
Open Scope Z_scope.

(** ** Machine integers

    An integer of the source is a [Z] in the range of its type; arithmetic that
    may leave the range is wrapped where the source's conversion happens. *)

Definition u8 (z : Z) : Z := z mod 256.
Definition u16 (z : Z) : Z := z mod 65536.
Definition u32 (z : Z) : Z := z mod 4294967296.
Definition u64 (z : Z) : Z := z mod 18446744073709551616.
Definition s32 (z : Z) : Z := (z + 2147483648) mod 4294967296 - 2147483648.
Definition s64 (z : Z) : Z :=
  (z + 9223372036854775808) mod 18446744073709551616 - 9223372036854775808.

(** [is_u32 z]: [z] is a value of type [u32]. *)
Definition is_u16 (z : Z) : Prop := 0 <= z < 65536.
Definition is_u32 (z : Z) : Prop := 0 <= z < 4294967296.
Definition is_u64 (z : Z) : Prop := 0 <= z < 18446744073709551616.
Definition is_s32 (z : Z) : Prop := -2147483648 <= z < 2147483648.
Definition is_s64 (z : Z) : Prop := -9223372036854775808 <= z < 9223372036854775808.

Create HintDb word.
Create Rewrite HintDb word_rw.

(** [word] decides linear goals over wrapped words. *)
Ltac word :=
  unfold u8, u16, u32, u64, s32, s64, is_u16, is_u32, is_u64, is_s32, is_s64 in *;
  Z.to_euclidean_division_equations; lia.

Lemma u16_small z : is_u16 z -> u16 z = z.
Proof. word. Qed.
Lemma u32_small z : is_u32 z -> u32 z = z.
Proof. word. Qed.
Lemma u64_small z : is_u64 z -> u64 z = z.
Proof. word. Qed.
Lemma s32_small z : is_s32 z -> s32 z = z.
Proof. word. Qed.
Lemma s64_small z : is_s64 z -> s64 z = z.
Proof. word. Qed.
Lemma u16_range z : is_u16 (u16 z).
Proof. word. Qed.
Lemma u32_range z : is_u32 (u32 z).
Proof. word. Qed.

#[export] Hint Rewrite u16_small u32_small u64_small s32_small s64_small using (word || done) : word_rw.
#[export] Hint Resolve u16_range u32_range : word.

(** ** Record updates

    [r <| f := v |>] is [r] with the field [f] set to [v]. A record type
    declares how it is rebuilt from its fields once ([Eta]); the setter of a
    field is then read off that term. *)

Class Eta (R : Type) := eta_of : R -> R.
Class Setter {R E : Type} (g : R -> E) := set_field : (E -> E) -> R -> R.
Arguments set_field {R E} g {_} _ _.

Ltac find_setter :=
  match goal with
  | |- @Setter ?R ?E ?g =>
      let inst := constr:(_ : Eta R) in
      let e := eval hnf in inst in
      exact (fun (f : E -> E) (r : R) =>
        ltac:(let b := eval cbv beta in (e r) in
              let p := eval pattern (g r) in b in
              match p with
              | ?F _ => let t := eval cbv beta in (F (f (g r))) in exact t
              end))
  end.
#[export] Hint Extern 0 (Setter _) => find_setter : typeclass_instances.

Declare Scope record_update_scope.
Notation "r <| f := v |>" := (set_field f (fun _ => v) r)
  (at level 1, left associativity, f at level 0, v at level 200) : record_update_scope.
Notation "r <| f ::= h |>" := (set_field f h r)
  (at level 1, left associativity, f at level 0, h at level 200) : record_update_scope.
Open Scope record_update_scope.

(** ** Effects

    A member function that reads and writes state of type [S] is an [M S A].
    [Crash] ends the emulation: a failed [ASSERT], a behaviour C++ leaves
    undefined, or (for loops run on fuel) fuel that was not enough. *)

Inductive failure := AssertFailed | UndefinedBehaviour | OutOfFuel.
Inductive outcome (A : Type) := Ret (a : A) | Crash (f : failure).
Arguments Ret {A} _.
Arguments Crash {A} _.

#[export] Instance failure_eq_dec : EqDecision failure.
Proof. solve_decision. Defined.

Definition M (S A : Type) : Type := S -> outcome (A * S).

#[export] Instance M_ret S : MRet (M S) := fun A a s => Ret (a, s).
#[export] Instance M_bind S : MBind (M S) := fun A B k m s =>
  match m s with
  | Ret (a, s') => k a s'
  | Crash f => Crash f
  end.

Definition crash {S A} (f : failure) : M S A := fun _ => Crash f.
Definition get {S} : M S S := fun s => Ret (s, s).
Definition gets {S A} (f : S -> A) : M S A := fun s => Ret (f s, s).
Definition modify {S} (f : S -> S) : M S unit := fun s => Ret (tt, f s).
(** [ASSERT(b)] and [ASSERT_MSG(b, ...)]. *)
Definition ASSERT {S} (b : bool) : M S unit := if b then mret tt else crash AssertFailed.
(** Dereferencing a pointer or an iterator; [None] is null or [end()]. *)
Definition deref {S A} (o : option A) : M S A :=
  match o with Some a => mret a | None => crash UndefinedBehaviour end.

(** [for (x : l) body] *)
Fixpoint for_each {S A} (l : list A) (body : A -> M S unit) : M S unit :=
  match l with
  | [] => mret tt
  | x :: l' => body x ;; for_each l' body
  end.

(** Running a computation on a part of the state. *)
Definition zoom {S T A} (g : S -> T) (p : T -> S -> S) (m : M T A) : M S A := fun s =>
  match m (g s) with
  | Ret (a, t) => Ret (a, p t s)
  | Crash f => Crash f
  end.

(** *** Total correctness: [wp m Q s] says that [m], started in [s], does not
    crash and ends with a result and a state in [Q]. *)
Definition wp {S A} (m : M S A) (Q : A -> S -> Prop) (s : S) : Prop :=
  match m s with
  | Ret (a, s') => Q a s'
  | Crash _ => False
  end.

(** Partial correctness: [wlp] allows a crash. *)
Definition wlp {S A} (m : M S A) (Q : A -> S -> Prop) (s : S) : Prop :=
  match m s with
  | Ret (a, s') => Q a s'
  | Crash _ => True
  end.

Section Wp.
Context {S A B : Type}.
Implicit Types (s : S) (m : M S A).

Lemma wp_ret (a : A) (Q : A -> S -> Prop) s : Q a s -> wp (mret a) Q s.
Proof. done. Qed.
Lemma wp_bind m (k : A -> M S B) (Q : B -> S -> Prop) s :
  wp m (fun a => wp (k a) Q) s -> wp (m ≫= k) Q s.
Proof. unfold wp, mbind, M_bind. by destruct (m s) as [[a s']|]. Qed.
Lemma wp_unbind m (k : A -> M S B) (Q : B -> S -> Prop) s :
  wp (m ≫= k) Q s -> wp m (fun a => wp (k a) Q) s.
Proof. unfold wp, mbind, M_bind. by destruct (m s) as [[a s']|]. Qed.
Lemma wp_mono m (P Q : A -> S -> Prop) s :
  wp m P s -> (forall a s', P a s' -> Q a s') -> wp m Q s.
Proof. unfold wp. destruct (m s) as [[a s']|]; eauto. Qed.
Lemma wp_get (Q : S -> S -> Prop) s : Q s s -> wp get Q s.
Proof. done. Qed.
Lemma wp_gets (f : S -> A) (Q : A -> S -> Prop) s : Q (f s) s -> wp (gets f) Q s.
Proof. done. Qed.
Lemma wp_modify (f : S -> S) (Q : unit -> S -> Prop) s : Q tt (f s) -> wp (modify f) Q s.
Proof. done. Qed.
Lemma wp_assert b (Q : unit -> S -> Prop) s : b = true -> Q tt s -> wp (ASSERT b) Q s.
Proof. by intros ->. Qed.
Lemma wp_deref (o : option A) a (Q : A -> S -> Prop) s :
  o = Some a -> Q a s -> wp (deref o) Q s.
Proof. by intros ->. Qed.
Lemma wp_inv m (Q : A -> S -> Prop) s :
  wp m Q s -> exists a s', m s = Ret (a, s') /\ Q a s'.
Proof. unfold wp. destruct (m s) as [[a s']|]; [eauto | done]. Qed.
Lemma wp_intro m (Q : A -> S -> Prop) s a s' : m s = Ret (a, s') -> Q a s' -> wp m Q s.
Proof. unfold wp. by intros ->. Qed.

Lemma wlp_ret (a : A) (Q : A -> S -> Prop) s : Q a s -> wlp (mret a) Q s.
Proof. done. Qed.
Lemma wlp_bind m (k : A -> M S B) (Q : B -> S -> Prop) s :
  wlp m (fun a => wlp (k a) Q) s -> wlp (m ≫= k) Q s.
Proof. unfold wlp, mbind, M_bind. by destruct (m s) as [[a s']|]. Qed.
Lemma wlp_mono m (P Q : A -> S -> Prop) s :
  wlp m P s -> (forall a s', P a s' -> Q a s') -> wlp m Q s.
Proof. unfold wlp. destruct (m s) as [[a s']|]; eauto. Qed.
Lemma wp_wlp m (Q : A -> S -> Prop) s : wp m Q s -> wlp m Q s.
Proof. unfold wp, wlp. by destruct (m s) as [[a s']|]. Qed.
Lemma wp_wlp_and m (Q R : A -> S -> Prop) s : wp m Q s -> wlp m R s -> wp m (fun a s' => Q a s' /\ R a s') s.
Proof. unfold wp, wlp. by destruct (m s) as [[a s']|]. Qed.
Lemma wlp_assert b (Q : unit -> S -> Prop) s : (b = true -> Q tt s) -> wlp (ASSERT b) Q s.
Proof. intros H. destruct b; cbn; [by apply H | done]. Qed.
Lemma wlp_deref (o : option A) (Q : A -> S -> Prop) s :
  (forall a, o = Some a -> Q a s) -> wlp (deref o) Q s.
Proof. intros H. destruct o; cbn; [by apply H | done]. Qed.
Lemma wlp_crash f (Q : A -> S -> Prop) s : wlp (crash f) Q s.
Proof. done. Qed.
End Wp.

(** A property every step keeps is kept by the loop. *)
Lemma wlp_for_each {S A} (I : S -> Prop) (l : list A) (body : A -> M S unit) s :
  I s ->
  (forall x s', x ∈ l -> I s' -> wlp (body x) (fun _ => I) s') ->
  wlp (for_each l body) (fun _ => I) s.
Proof.
  revert s. induction l as [|x l IH]; intros s Hs Hb; [done|]; cbn.
  apply wlp_bind. eapply wlp_mono; [apply Hb; [constructor | done]|].
  intros [] s' Hs'. apply IH; [done|]. intros y s'' Hy. apply Hb. by constructor.
Qed.
Lemma wp_for_each {S A} (I : S -> Prop) (l : list A) (body : A -> M S unit) s :
  I s ->
  (forall x s', x ∈ l -> I s' -> wp (body x) (fun _ => I) s') ->
  wp (for_each l body) (fun _ => I) s.
Proof.
  revert s. induction l as [|x l IH]; intros s Hs Hb; [done|]; cbn.
  apply wp_bind. eapply wp_mono; [apply Hb; [constructor | done]|].
  intros [] s' Hs'. apply IH; [done|]. intros y s'' Hy. apply Hb. by constructor.
Qed.

(** Code that relates the states before and after by a preorder, if it returns. *)
Section Steady.
Context {S : Type} (R : S -> S -> Prop) `{!PreOrder R}.
Definition steady {A} (m : M S A) : Prop := forall s, wlp m (fun _ s' => R s s') s.
Lemma steady_bind {A B} (m : M S A) (f : A -> M S B) : steady m -> (forall a, steady (f a)) -> steady (m ≫= f).
Proof.
  intros Hm Hf s. apply wlp_bind. eapply wlp_mono; [apply Hm|]. cbn beta. intros a s1 H1. eapply wlp_mono; [apply Hf|]. cbn beta. intros _ s2 H2. by etrans.
Qed.
Lemma steady_ret {A} (a : A) : steady (mret a).
Proof. intros s. change (R s s). done. Qed.
Lemma steady_get : steady get.
Proof. intros s. change (R s s). done. Qed.
Lemma steady_deref {A} (o : option A) : steady (deref o).
Proof. intros s. destruct o; [change (R s s)|]; done. Qed.
Lemma steady_assert b : steady (ASSERT b).
Proof. intros s. destruct b; [change (R s s)|]; done. Qed.
Lemma steady_crash {A} f : steady (A := A) (crash f).
Proof. done. Qed.
Lemma steady_modify f : (forall s, R s (f s)) -> steady (modify f).
Proof. intros H s. apply H. Qed.
Lemma steady_case {A} (b : bool) (m m' : M S A) : steady m -> steady m' -> steady (if b then m else m').
Proof. by destruct b. Qed.
Lemma steady_for_each {A} (l : list A) body : (forall x, steady (body x)) -> steady (for_each l body).
Proof. intros Hb. induction l as [|x l IH]; [apply steady_ret|]. apply steady_bind; [apply Hb|]. by intros _. Qed.
Lemma wlp_steady {A} (m : M S A) s0 s (Q : A -> S -> Prop) : steady m -> R s0 s -> (forall a s', R s0 s' -> Q a s') -> wlp m Q s.
Proof. intros Hm Hf HQ. eapply wlp_mono; [apply Hm|]. cbn beta. intros a s' H. apply HQ. by etrans. Qed.
Lemma wp_steady_and {A} (m : M S A) s (P Q : A -> S -> Prop) : steady m -> wp m P s -> (forall a s', P a s' -> R s s' -> Q a s') -> wp m Q s.
Proof. intros Hs Hm HQ. eapply wp_mono; [apply wp_wlp_and; [exact Hm|apply Hs]|]. cbn beta. intros a s' [H1 H2]. by apply HQ. Qed.
End Steady.
Create HintDb steady.
(** One rule of [steady]; the hints of the database are tried first. *)
Ltac steady_step := first
  [ solve [eauto 2 with steady] | apply steady_ret; exact _ | apply steady_get; exact _ | apply steady_deref; exact _ | apply steady_assert; exact _
  | apply steady_crash | apply steady_case | apply steady_for_each; [exact _|intros ?] | apply steady_bind; [exact _| |intros ?] ].

(** [wp_step] and [wlp_step] run one instruction of the goal. *)
Ltac wp_step :=
  lazymatch goal with
  | |- wp (mbind _ _) _ _ => apply wp_bind
  | |- wp (mret _) _ _ => apply wp_ret
  | |- wp get _ _ => apply wp_get
  | |- wp (gets _) _ _ => apply wp_gets
  | |- wp (modify _) _ _ => apply wp_modify
  | |- wp (ASSERT _) _ _ => apply wp_assert
  | |- wlp (mbind _ _) _ _ => apply wlp_bind
  | |- wlp (mret _) _ _ => apply wlp_ret
  | |- wlp get _ _ => red; cbn beta iota
  | |- wlp (gets _) _ _ => red; cbn beta iota
  | |- wlp (modify _) _ _ => red; cbn beta iota
  | |- wlp (ASSERT _) _ _ => apply wlp_assert; intros ?
  | |- wlp (deref _) _ _ => apply wlp_deref; intros ? ?
  | |- wlp (crash _) _ _ => apply wlp_crash
  end.

(** ** Generic lemmas *)

Lemma bool_decide_reflect (P : Prop) `{Decision P} : bool_decide P = true <-> P.
Proof. by rewrite bool_decide_eq_true. Qed.

(** [case_bool] splits on the integer comparisons of the goal. *)
Ltac case_bool :=
  match goal with
  | |- context [Z.ltb ?a ?b] => destruct (Z.ltb_spec a b)
  | |- context [Z.leb ?a ?b] => destruct (Z.leb_spec a b)
  | |- context [Z.eqb ?a ?b] => destruct (Z.eqb_spec a b)
  | |- context [Z.geb ?a ?b] => rewrite (Z.geb_leb a b)
  | |- context [Z.gtb ?a ?b] => rewrite (Z.gtb_ltb a b)
  | |- context [bool_decide ?P] => destruct (decide P) as [?|?];
      [rewrite (bool_decide_eq_true_2 P) by assumption
      |rewrite (bool_decide_eq_false_2 P) by assumption]
  end.

(** [case_dec P] splits on [P] where the goal decides it. *)
Ltac case_dec P :=
  destruct (decide P) as [?|?];
  [rewrite ?(bool_decide_eq_true_2 P) by assumption|rewrite ?(bool_decide_eq_false_2 P) by assumption].

(** [case_eq_dec x y] splits on [x = y], and rewrites the tests that depend on it. *)
Ltac case_eq_dec x y :=
  destruct (decide (x = y)) as [->|?];
  repeat match goal with
  | |- context [bool_decide ?P] =>
      first [rewrite (bool_decide_eq_true_2 P) by done | rewrite (bool_decide_eq_false_2 P) by congruence]
  end.

Section Lists.
Context {A : Type}.
Implicit Types (l : list A).

Lemma lookup_insert_cases l i j x y :
  <[i := x]> l !! j = Some y ->
  (i = j /\ y = x /\ (j < length l)%nat) \/ (i <> j /\ l !! j = Some y).
Proof.
  intros H. destruct (decide (i = j)) as [->|]; [left | right].
  - pose proof (lookup_lt_Some _ _ _ H) as Hlt. rewrite length_insert in Hlt.
    rewrite list_lookup_insert_eq in H by done. by simplify_eq.
  - by rewrite list_lookup_insert_ne in H.
Qed.
End Lists.

(** Half-open ranges as the code tests them. *)
Lemma in_range_true a b i : a <= i < b -> (a <=? i) && (i <? b) = true.
Proof. intros. apply andb_true_iff. lia. Qed.
Lemma in_range_false a b i : i < a \/ b <= i -> (a <=? i) && (i <? b) = false.
Proof. intros. apply andb_false_iff. lia. Qed.
Lemma in_range_spec a b i : (a <=? i) && (i <? b) = true <-> a <= i < b.
Proof. rewrite andb_true_iff. lia. Qed.
