(* ===== verification/ResultCode.v ===== *)
(** Result codes of the HLE kernel: the bit fields of [ResultCode]
    (src/.../core/hle/result.h), the value-or-error type [ResultVal] with its
    two cascading macros, and the kernel's error constants
    (src/.../core/hle/kernel/errors.h). *)

From S2P Require Import Prelude.

(** ** [BitField<position, bits, u32>] on a [u32] storage (common/bit_field.h). *)

(** [mask = ((u32)~0 >> (32 - bits)) << position] *)
Definition BitField_mask (position bits : Z) : Z :=
  u32 (Z.shiftl (Z.shiftr 0xFFFFFFFF (32 - bits)) position).
Definition FormatValue (position bits value : Z) : Z :=
  Z.land (u32 (Z.shiftl value position)) (BitField_mask position bits).
Definition ExtractValue (position bits storage : Z) : Z :=
  Z.shiftr (Z.land storage (BitField_mask position bits)) position.

Module ErrorDescription.
Definition Success := 0.
Definition NotAuthorized := 1002.
Definition InvalidEnumValue := 1005.
Definition InvalidCombination := 1006.
Definition MisalignedAddress := 1009.
Definition MisalignedSize := 1010.
Definition OutOfMemory := 1011.
Definition NotImplemented := 1012.
Definition InvalidAddress := 1013.
Definition InvalidPointer := 1014.
Definition InvalidHandle := 1015.
Definition NotFound := 1018.
Definition AlreadyExists := 1020.
Definition OutOfRange := 1021.
Definition Timeout := 1022.
Definition InvalidResultValue := 1023.
End ErrorDescription.

Module ErrorModule.
Definition Kernel := 1.
Definition OS := 6.
Definition SRV := 25.
Definition FND := 36.
End ErrorModule.

Module ErrorSummary.
Definition WouldBlock := 2.
Definition OutOfResource := 3.
Definition NotFound := 4.
Definition InvalidState := 5.
Definition InvalidArgument := 7.
Definition WrongArgument := 8.
Definition Canceled := 9.
Definition StatusChanged := 10.
End ErrorSummary.

Module ErrorLevel.
Definition Info := 1.
Definition Status := 25.
Definition Temporary := 26.
Definition Permanent := 27.
Definition Usage := 28.
End ErrorLevel.

Module ErrCodes.
Definition OutOfHandles := 19.
Definition SessionClosedByRemote := 26.
Definition PortNameTooLong := 30.
Definition WrongLockingThread := 31.
Definition NoPendingSessions := 35.
Definition WrongPermission := 46.
Definition InvalidBufferDescriptor := 48.
Definition MaxConnectionsReached := 52.
End ErrCodes.

(** ** [union ResultCode]: a code is its raw [u32]. *)

Definition result_code := Z.

Definition ResultCode (description module summary level : Z) : result_code :=
  Z.lor (Z.lor (FormatValue 0 10 description) (FormatValue 10 8 module))
        (Z.lor (FormatValue 21 6 summary) (FormatValue 27 5 level)).

Definition description (raw : result_code) : Z := ExtractValue 0 10 raw.
Definition module_of (raw : result_code) : Z := ExtractValue 10 8 raw.
Definition summary (raw : result_code) : Z := ExtractValue 21 6 raw.
Definition level (raw : result_code) : Z := ExtractValue 27 5 raw.

Definition IsSuccess (raw : result_code) : bool := ExtractValue 31 1 raw =? 0.
Definition IsError (raw : result_code) : bool := ExtractValue 31 1 raw =? 1.

Definition RESULT_SUCCESS : result_code := 0.

(** ** The kernel's codes. *)

Definition ERR_OUT_OF_HANDLES : result_code :=
  ResultCode ErrCodes.OutOfHandles ErrorModule.Kernel ErrorSummary.OutOfResource ErrorLevel.Permanent.
Definition ERR_SESSION_CLOSED_BY_REMOTE : result_code :=
  ResultCode ErrCodes.SessionClosedByRemote ErrorModule.OS ErrorSummary.Canceled ErrorLevel.Status.
Definition ERR_PORT_NAME_TOO_LONG : result_code :=
  ResultCode ErrCodes.PortNameTooLong ErrorModule.OS ErrorSummary.InvalidArgument ErrorLevel.Usage.
Definition ERR_WRONG_PERMISSION : result_code :=
  ResultCode ErrCodes.WrongPermission ErrorModule.OS ErrorSummary.WrongArgument ErrorLevel.Permanent.
Definition ERR_INVALID_BUFFER_DESCRIPTOR : result_code :=
  ResultCode ErrCodes.InvalidBufferDescriptor ErrorModule.OS ErrorSummary.WrongArgument ErrorLevel.Permanent.
Definition ERR_MAX_CONNECTIONS_REACHED : result_code :=
  ResultCode ErrCodes.MaxConnectionsReached ErrorModule.OS ErrorSummary.WouldBlock ErrorLevel.Temporary.
Definition ERR_NOT_AUTHORIZED : result_code :=
  ResultCode ErrorDescription.NotAuthorized ErrorModule.OS ErrorSummary.WrongArgument ErrorLevel.Permanent.
Definition ERR_INVALID_ENUM_VALUE : result_code :=
  ResultCode ErrorDescription.InvalidEnumValue ErrorModule.Kernel ErrorSummary.InvalidArgument ErrorLevel.Permanent.
Definition ERR_INVALID_ENUM_VALUE_FND : result_code :=
  ResultCode ErrorDescription.InvalidEnumValue ErrorModule.FND ErrorSummary.InvalidArgument ErrorLevel.Permanent.
Definition ERR_INVALID_COMBINATION : result_code :=
  ResultCode ErrorDescription.InvalidCombination ErrorModule.OS ErrorSummary.InvalidArgument ErrorLevel.Usage.
Definition ERR_INVALID_COMBINATION_KERNEL : result_code :=
  ResultCode ErrorDescription.InvalidCombination ErrorModule.Kernel ErrorSummary.WrongArgument ErrorLevel.Permanent.
Definition ERR_MISALIGNED_ADDRESS : result_code :=
  ResultCode ErrorDescription.MisalignedAddress ErrorModule.OS ErrorSummary.InvalidArgument ErrorLevel.Usage.
Definition ERR_MISALIGNED_SIZE : result_code :=
  ResultCode ErrorDescription.MisalignedSize ErrorModule.OS ErrorSummary.InvalidArgument ErrorLevel.Usage.
Definition ERR_OUT_OF_MEMORY : result_code :=
  ResultCode ErrorDescription.OutOfMemory ErrorModule.Kernel ErrorSummary.OutOfResource ErrorLevel.Permanent.
Definition ERR_OUT_OF_HEAP_MEMORY : result_code :=
  ResultCode ErrorDescription.OutOfMemory ErrorModule.OS ErrorSummary.OutOfResource ErrorLevel.Status.
Definition ERR_NOT_IMPLEMENTED : result_code :=
  ResultCode ErrorDescription.NotImplemented ErrorModule.OS ErrorSummary.InvalidArgument ErrorLevel.Usage.
Definition ERR_INVALID_ADDRESS : result_code :=
  ResultCode ErrorDescription.InvalidAddress ErrorModule.OS ErrorSummary.InvalidArgument ErrorLevel.Usage.
Definition ERR_INVALID_ADDRESS_STATE : result_code :=
  ResultCode ErrorDescription.InvalidAddress ErrorModule.OS ErrorSummary.InvalidState ErrorLevel.Usage.
Definition ERR_INVALID_POINTER : result_code :=
  ResultCode ErrorDescription.InvalidPointer ErrorModule.Kernel ErrorSummary.InvalidArgument ErrorLevel.Permanent.
Definition ERR_INVALID_HANDLE : result_code :=
  ResultCode ErrorDescription.InvalidHandle ErrorModule.Kernel ErrorSummary.InvalidArgument ErrorLevel.Permanent.
Definition ERR_INVALID_HANDLE_OS : result_code :=
  ResultCode ErrorDescription.InvalidHandle ErrorModule.OS ErrorSummary.WrongArgument ErrorLevel.Permanent.
Definition ERR_NOT_FOUND : result_code :=
  ResultCode ErrorDescription.NotFound ErrorModule.Kernel ErrorSummary.NotFound ErrorLevel.Permanent.
Definition ERR_OUT_OF_RANGE : result_code :=
  ResultCode ErrorDescription.OutOfRange ErrorModule.OS ErrorSummary.InvalidArgument ErrorLevel.Usage.
Definition ERR_OUT_OF_RANGE_KERNEL : result_code :=
  ResultCode ErrorDescription.OutOfRange ErrorModule.Kernel ErrorSummary.InvalidArgument ErrorLevel.Permanent.
Definition RESULT_TIMEOUT : result_code :=
  ResultCode ErrorDescription.Timeout ErrorModule.OS ErrorSummary.StatusChanged ErrorLevel.Info.
Definition ERR_NO_PENDING_SESSIONS : result_code :=
  ResultCode ErrCodes.NoPendingSessions ErrorModule.OS ErrorSummary.WouldBlock ErrorLevel.Permanent.

(** ** [ResultVal<T>]: a value, or an error code and no value. *)

Inductive ResultVal (A : Type) := Success (a : A) | Failure (code : result_code).
Arguments Success {A} _.
Arguments Failure {A} _.

(** [ResultVal::Code()] *)
Definition Code {A} (r : ResultVal A) : result_code :=
  match r with Success _ => RESULT_SUCCESS | Failure c => c end.
Definition Succeeded {A} (r : ResultVal A) : bool :=
  match r with Success _ => true | Failure _ => false end.
(** [ResultVal::Unwrap()]: asserts success. *)
Definition Unwrap {S A} (r : ResultVal A) : M S A :=
  match r with Success a => mret a | Failure _ => crash AssertFailed end.

(** [CASCADE_RESULT(x, m)] in a function that returns a [ResultVal]. *)
Notation "'CASCADE_RESULT' x ':=' m ';' k" :=
  (m ≫= fun r => match r with Success x => k | Failure c => mret (Failure c) end)
  (at level 10, x pattern, m at level 100, k at level 200, only parsing).
(** The same in a function that returns a [ResultCode]. *)
Notation "'CASCADE_TO_CODE' x ':=' m ';' k" :=
  (m ≫= fun r => match r with Success x => k | Failure c => mret c end)
  (at level 10, x pattern, m at level 100, k at level 200, only parsing).
(** [CASCADE_CODE(m)] in a function that returns a [ResultCode]. *)
Notation "'CASCADE_CODE' m ';' k" :=
  (m ≫= fun c => if IsError c then mret c else k)
  (at level 10, m at level 100, k at level 200, only parsing).

(** ** Theorems *)

Lemma BitField_mask_ones position bits :
  0 <= position -> 0 < bits -> position + bits <= 32 ->
  BitField_mask position bits = Z.shiftl (Z.ones bits) position.
Proof.
  intros Hp Hb Hle. unfold BitField_mask, u32.
  replace (Z.shiftr 0xFFFFFFFF (32 - bits)) with (Z.ones bits).
  2: { replace 0xFFFFFFFF with (Z.ones 32) by done.
       rewrite Z.ones_equiv, Z.shiftr_div_pow2, Z.ones_equiv by lia.
       replace (2 ^ 32) with (2 ^ bits * 2 ^ (32 - bits)) by (rewrite <- Z.pow_add_r by lia; f_equal; lia).
       pose proof (Z.pow_pos_nonneg 2 (32 - bits)). pose proof (Z.pow_pos_nonneg 2 bits).
       replace (Z.pred (2 ^ bits * 2 ^ (32 - bits)))
         with ((2 ^ bits - 1) * 2 ^ (32 - bits) + (2 ^ (32 - bits) - 1)) by lia.
       rewrite Z.div_add_l by lia. rewrite Z.div_small by lia. lia. }
  apply Z.mod_small. rewrite Z.shiftl_mul_pow2, Z.ones_equiv by lia.
  pose proof (Z.pow_pos_nonneg 2 position). pose proof (Z.pow_pos_nonneg 2 bits).
  assert (2 ^ bits * 2 ^ position <= 2 ^ 32).
  { rewrite <- Z.pow_add_r by lia. apply Z.pow_le_mono_r; lia. }
  change (2 ^ 32) with 4294967296 in *. nia.
Qed.

Lemma mask_testbit position bits i :
  0 <= position -> 0 < bits -> position + bits <= 32 -> 0 <= i ->
  Z.testbit (BitField_mask position bits) i = (position <=? i) && (i <? position + bits).
Proof.
  intros. rewrite BitField_mask_ones by done. rewrite Z.shiftl_spec by lia.
  repeat case_bool; cbn; try lia; try (rewrite Z.testbit_neg_r by lia; done).
  - apply Z.ones_spec_low. lia.
  - apply Z.ones_spec_high. lia.
Qed.

Lemma FormatValue_testbit position bits v i :
  0 <= position -> 0 < bits -> position + bits <= 32 -> 0 <= i ->
  Z.testbit (FormatValue position bits v) i =
  (position <=? i) && (i <? position + bits) && Z.testbit v (i - position).
Proof.
  intros. unfold FormatValue, u32. rewrite Z.land_spec, mask_testbit by done.
  destruct (Z.leb_spec position i); cbn; [|by rewrite andb_false_r].
  destruct (Z.ltb_spec i (position + bits)); cbn; [|by rewrite andb_false_r].
  change 4294967296 with (2 ^ 32). rewrite Z.mod_pow2_bits_low by lia.
  rewrite Z.shiftl_spec by lia. by rewrite andb_true_r.
Qed.

Lemma ExtractValue_testbit position bits s i :
  0 <= position -> 0 < bits -> position + bits <= 32 -> 0 <= i ->
  Z.testbit (ExtractValue position bits s) i = (i <? bits) && Z.testbit s (i + position).
Proof.
  intros. unfold ExtractValue. rewrite Z.shiftr_spec, Z.land_spec, mask_testbit by lia.
  repeat case_bool; cbn; try lia; by rewrite ?andb_true_r, ?andb_false_r.
Qed.

(** Two fields that do not overlap do not disturb each other. *)
Lemma ExtractValue_lor position bits a b :
  ExtractValue position bits (Z.lor a b) =
  Z.lor (ExtractValue position bits a) (ExtractValue position bits b).
Proof. unfold ExtractValue. by rewrite Z.land_lor_distr_l, Z.shiftr_lor. Qed.

Lemma Extract_Format_same position bits v :
  0 <= position -> 0 < bits -> position + bits <= 32 -> 0 <= v < 2 ^ bits ->
  ExtractValue position bits (FormatValue position bits v) = v.
Proof.
  intros. apply Z.bits_inj'. intros i Hi.
  rewrite ExtractValue_testbit, FormatValue_testbit by lia.
  replace (i + position - position) with i by lia.
  repeat case_bool; cbn; try lia; [done|].
  symmetry. rewrite <- (Z.mod_small v (2 ^ bits)) by lia. apply Z.mod_pow2_bits_high. lia.
Qed.

Lemma Extract_Format_disjoint p b p' b' v :
  0 <= p -> 0 < b -> p + b <= 32 -> 0 <= p' -> 0 < b' -> p' + b' <= 32 ->
  (p + b <= p' \/ p' + b' <= p) ->
  ExtractValue p b (FormatValue p' b' v) = 0.
Proof.
  intros. apply Z.bits_inj'. intros i Hi.
  rewrite ExtractValue_testbit, FormatValue_testbit, Z.bits_0 by lia.
  repeat case_bool; cbn; try lia; done.
Qed.

Ltac solve_field :=
  unfold description, module_of, summary, level, ResultCode;
  rewrite !ExtractValue_lor;
  repeat first [ rewrite Extract_Format_same by (cbn; lia)
               | rewrite Extract_Format_disjoint by lia ];
  rewrite ?Z.lor_0_r, ?Z.lor_0_l; reflexivity.

(** The four fields of a result code built from in-range values read back
    unchanged, and the code is an error exactly when its level is 16 or more. *)
Theorem ResultCode_fields d m s l :
  0 <= d < 1024 -> 0 <= m < 256 -> 0 <= s < 64 -> 0 <= l < 32 ->
  description (ResultCode d m s l) = d /\ module_of (ResultCode d m s l) = m /\
  summary (ResultCode d m s l) = s /\ level (ResultCode d m s l) = l /\
  IsError (ResultCode d m s l) = (16 <=? l).
Proof.
  intros Hd Hm Hs Hl. repeat split; [solve_field..|].
  unfold IsError, ResultCode. rewrite !ExtractValue_lor.
  rewrite !(Extract_Format_disjoint 31 1) by lia. rewrite !Z.lor_0_l.
  assert (l ∈ seqZ 0 32) as Hin by (apply elem_of_seqZ; lia).
  revert l Hin Hl. apply (proj1 (Forall_forall (fun l => 0 <= l < 32 ->
    (ExtractValue 31 1 (FormatValue 27 5 l) =? 1) = (16 <=? l)) (seqZ 0 32))).
  repeat constructor.
Qed.
Lemma ResultCode_fields_witness :
  description ERR_INVALID_HANDLE = 1015 /\ IsError ERR_INVALID_HANDLE = true.
Proof.
  destruct (ResultCode_fields 1015 1 7 27) as (H1 & _ & _ & _ & H2); [lia..|].
  split; [exact H1 | exact H2].
Defined.
