(* ===== verification/ThreadQueueList.v ===== *)
(** [Common::ThreadQueueList] (src/.../common/thread_queue_list.h): the ready
    queue of the scheduler. One deque per priority level; the levels that were
    ever used are linked through [next_nonempty] in increasing order, so that a
    scan skips the levels that never held a thread. *)

From S2P Require Import Prelude.

Section ThreadQueueList.
  (** [T], the thread identifiers, compared by [==]. *)
Context {T : Type} `{EqDecision T}.

(** A [Queue*]: null, the tag [UnlinkedTag()], or the address of [queues[i]]. *)
Inductive qptr := PNull | PUnlinked | PQueue (i : nat).

Record Queue := mkQueue { next_nonempty : qptr; data : list T }.
Record tql := mkTql { first : qptr; queues : list Queue }.

#[export] Instance eta_Queue : Eta Queue := fun q => mkQueue (next_nonempty q) (data q).
#[export] Instance eta_tql : Eta tql := fun q => mkTql (first q) (queues q).

#[export] Instance qptr_eq_dec : EqDecision qptr.
Proof. solve_decision. Defined.

(** [Queue()]: the default member initializers. *)
Definition new_Queue : Queue := mkQueue PUnlinked [].
(** [ThreadQueueList<T, N>()] *)
Definition new_ThreadQueueList (N : nat) : tql := mkTql PNull (replicate N new_Queue).

(** [queues[i]]; the index is in range at every call the kernel makes. *)
Definition queue_at (q : tql) (i : nat) : outcome Queue :=
  match queues q !! i with Some c => Ret c | None => Crash UndefinedBehaviour end.
Definition set_queue (i : nat) (c : Queue) (q : tql) : tql := q <| queues ::= <[i := c]> |>.

(** The level that holds [uid], for debugging; [-1] as an [unsigned]. *)
Fixpoint contains_from (uid : T) (qs : list Queue) (i : Z) : Z :=
  match qs with
  | [] => u32 (-1)
  | c :: qs' => if bool_decide (uid ∈ data c) then i else contains_from uid qs' (i + 1)
  end.
Definition contains (uid : T) (q : tql) : Z := contains_from uid (queues q) 0.

(** [get_first]: walks the chain; every visited level costs one unit of fuel and
    the chain has at most as many levels as there are queues. *)
Fixpoint get_first_loop (fuel : nat) (q : tql) (cur : qptr) : outcome (option T) :=
  match fuel with
  | O => Crash OutOfFuel
  | S fuel' =>
    match cur with
    | PNull => Ret None
    | PUnlinked => Crash UndefinedBehaviour
    | PQueue i =>
      match queues q !! i with
      | None => Crash UndefinedBehaviour
      | Some c =>
        match data c with
        | x :: _ => Ret (Some x)
        | [] => get_first_loop fuel' q (next_nonempty c)
        end
      end
    end
  end.
Definition chain_fuel (q : tql) : nat := S (length (queues q)).
Definition get_first (q : tql) : outcome (option T) := get_first_loop (chain_fuel q) q (first q).

Fixpoint pop_first_loop (fuel : nat) (cur : qptr) : M tql (option T) := fun q =>
  match fuel with
  | O => Crash OutOfFuel
  | S fuel' =>
    match cur with
    | PNull => Ret (None, q)
    | PUnlinked => Crash UndefinedBehaviour
    | PQueue i =>
      match queues q !! i with
      | None => Crash UndefinedBehaviour
      | Some c =>
        match data c with
        | x :: rest => Ret (Some x, set_queue i (mkQueue (next_nonempty c) rest) q)
        | [] => pop_first_loop fuel' (next_nonempty c) q
        end
      end
    end
  end.
Definition pop_first : M tql (option T) := fun q =>
  pop_first_loop (chain_fuel q) (first q) q.

(** [pop_first_better]: [while (cur < stop)] compares addresses of elements of
    [queues]; a null [cur] compares below every element, so the body would
    dereference it. *)
Fixpoint pop_first_better_loop (fuel : nat) (stop : nat) (cur : qptr) : M tql (option T) := fun q =>
  match fuel with
  | O => Crash OutOfFuel
  | S fuel' =>
    match cur with
    | PNull | PUnlinked => Crash UndefinedBehaviour
    | PQueue i =>
      if bool_decide (i < stop)%nat then
        match queues q !! i with
        | None => Crash UndefinedBehaviour
        | Some c =>
          match data c with
          | x :: rest => Ret (Some x, set_queue i (mkQueue (next_nonempty c) rest) q)
          | [] => pop_first_better_loop fuel' stop (next_nonempty c) q
          end
        end
      else Ret (None, q)
    end
  end.
Definition pop_first_better (priority : nat) : M tql (option T) := fun q =>
  pop_first_better_loop (chain_fuel q) priority (first q) q.

(** The operations that touch one level. *)
Definition update_data (priority : nat) (f : list T -> list T) : M tql unit := fun q =>
  match queues q !! priority with
  | None => Crash UndefinedBehaviour
  | Some c => Ret (tt, set_queue priority (mkQueue (next_nonempty c) (f (data c))) q)
  end.
Definition push_front (priority : nat) (x : T) : M tql unit := update_data priority (cons x).
Definition push_back (priority : nat) (x : T) : M tql unit := update_data priority (fun d => d ++ [x]).
Definition remove (priority : nat) (x : T) : M tql unit :=
  update_data priority (filter (fun y => y <> x)).
Definition rotate (priority : nat) : M tql unit :=
  update_data priority (fun d => match d with x :: ((_ :: _) as rest) => rest ++ [x] | _ => d end).
Definition empty (priority : nat) (q : tql) : outcome bool :=
  match queues q !! priority with
  | None => Crash UndefinedBehaviour
  | Some c => Ret (bool_decide (data c = []))
  end.
Definition clear : M tql unit := modify (fun q => new_ThreadQueueList (length (queues q))).

(** [link]: the search [for (int i = priority - 1; i >= 0; --i)] for the nearest
    used level below; the new level is linked after it, or becomes the first. *)
Fixpoint link_from (priority i : nat) (q : tql) : tql :=
  match i with
  | O =>
    match queues q !! priority with
    | Some c => set_queue priority (mkQueue (first q) (data c)) q <| first := PQueue priority |>
    | None => q
    end
  | S i' =>
    match queues q !! i', queues q !! priority with
    | Some below, Some c =>
      if bool_decide (next_nonempty below = PUnlinked) then link_from priority i' q
      else set_queue i' (mkQueue (PQueue priority) (data below))
             (set_queue priority (mkQueue (next_nonempty below) (data c)) q)
    | _, _ => q
    end
  end.
Definition link (priority : nat) (q : tql) : tql := link_from priority priority q.
Definition prepare (priority : nat) : M tql unit := fun q =>
  match queues q !! priority with
  | None => Crash UndefinedBehaviour
  | Some c => Ret (tt, if bool_decide (next_nonempty c = PUnlinked) then link priority q else q)
  end.

Definition move (x : T) (old_priority new_priority : nat) : M tql unit :=
  remove old_priority x ;; prepare new_priority ;; push_back new_priority x.

(** ** What the container promises

    [level_data q i] is the deque of level [i]. The chain that starts at [first]
    visits exactly the linked levels, in increasing order, and a level that was
    never linked holds no thread. *)

Definition level_data (q : tql) (i : nat) : list T :=
  match queues q !! i with Some c => data c | None => [] end.
Definition linked (q : tql) (i : nat) : Prop :=
  exists c, queues q !! i = Some c /\ next_nonempty c <> PUnlinked.

Fixpoint is_chain (qs : list Queue) (p : qptr) (l : list nat) : Prop :=
  match l with
  | [] => p = PNull
  | i :: l' => p = PQueue i /\ exists c, qs !! i = Some c /\ is_chain qs (next_nonempty c) l'
  end.

Record wf (q : tql) (l : list nat) : Prop := {
  wf_chain : is_chain (queues q) (first q) l;
  wf_sorted : StronglySorted lt l;
  wf_linked : forall i, i ∈ l <-> linked q i;
  wf_empty : forall i, ~ linked q i -> level_data q i = [];
}.
Definition valid (q : tql) : Prop := exists l, wf q l.

(** The first nonempty level of a chain, with its front element. *)
Fixpoint scan (q : tql) (l : list nat) : option (nat * T) :=
  match l with
  | [] => None
  | i :: l' => match level_data q i with x :: _ => Some (i, x) | [] => scan q l' end
  end.

(** [pop_at i q] is [q] without the front of level [i]. *)
Definition pop_at (i : nat) (q : tql) : tql :=
  match queues q !! i with
  | Some c => set_queue i (mkQueue (next_nonempty c) (tail (data c))) q
  | None => q
  end.

(** Only level [i] changes, by [f]. *)
Definition only_level (i : nat) (f : list T -> list T) (q q' : tql) : Prop :=
  forall j, level_data q' j = if bool_decide (i = j) then f (level_data q j) else level_data q j.

(** The abstract container: level [i] holds the best entry. *)
Definition best (q : tql) (i : nat) (x : T) : Prop :=
  (exists rest, level_data q i = x :: rest) /\ forall j, (j < i)%nat -> level_data q j = [].

(** A client step: what the scheduler calls, each on a level it has prepared. *)
Inductive op := OpPrepare (i : nat) | OpPushFront (i : nat) (x : T) | OpPushBack (i : nat) (x : T)
  | OpPopFirst | OpPopBetter (i : nat) | OpRemove (i : nat) (x : T) | OpMove (x : T) (i j : nat)
  | OpRotate (i : nat) | OpClear.
Definition exec (o : op) : M tql unit :=
  match o with
  | OpPrepare i => prepare i
  | OpPushFront i x => push_front i x
  | OpPushBack i x => push_back i x
  | OpPopFirst => pop_first ;; mret tt
  | OpPopBetter i => pop_first_better i ;; mret tt
  | OpRemove i x => remove i x
  | OpMove x i j => move x i j
  | OpRotate i => rotate i
  | OpClear => clear
  end.
Definition allowed (o : op) (q : tql) : Prop :=
  match o with
  | OpPrepare i | OpRemove i _ => (i < length (queues q))%nat
  | OpMove _ i j => (i < length (queues q))%nat /\ (j < length (queues q))%nat
  | OpPushFront i _ | OpPushBack i _ | OpPopBetter i | OpRotate i => linked q i
  | OpPopFirst | OpClear => True
  end.


(** ** Lemmas *)

Create HintDb tql.

Lemma queues_set_queue i c q : queues (set_queue i c q) = <[i := c]> (queues q).
Proof. done. Qed.
Lemma first_set_queue i c q : first (set_queue i c q) = first q.
Proof. done. Qed.

Lemma level_data_set_queue i j c q :
  (i < length (queues q))%nat ->
  level_data (set_queue i c q) j = if bool_decide (i = j) then data c else level_data q j.
Proof.
  intros Hlt. unfold level_data. rewrite queues_set_queue. case_bool.
  - subst j. by rewrite list_lookup_insert_eq.
  - by rewrite list_lookup_insert_ne.
Qed.

Lemma linked_set_queue i j c q :
  (i < length (queues q))%nat ->
  linked (set_queue i c q) j <->
  if bool_decide (i = j) then next_nonempty c <> PUnlinked else linked q j.
Proof.
  intros Hlt. unfold linked. rewrite queues_set_queue. case_bool.
  - subst j. rewrite list_lookup_insert_eq by done. naive_solver.
  - by rewrite list_lookup_insert_ne.
Qed.

Lemma is_chain_set qs p l i c :
  i ∉ l -> is_chain qs p l -> is_chain (<[i := c]> qs) p l.
Proof.
  revert p. induction l as [|j l IH]; intros p Hi; cbn; [done|].
  intros [-> (c' & Hj & Hl)]. split; [done|]. exists c'.
  rewrite list_lookup_insert_ne by set_solver. split; [done|]. apply IH; [set_solver | done].
Qed.

(** Changing only the data of a level does not disturb the chain. *)
Lemma is_chain_set_data qs p l i c d :
  qs !! i = Some c -> is_chain qs p l ->
  is_chain (<[i := mkQueue (next_nonempty c) d]> qs) p l.
Proof.
  revert p. induction l as [|j l IH]; intros p Hc; cbn; [done|].
  intros [-> (c' & Hj & Hl)]. split; [done|].
  destruct (decide (i = j)) as [->|].
  - exists (mkQueue (next_nonempty c) d). simplify_eq.
    rewrite list_lookup_insert_eq by (by eapply lookup_lt_Some). eauto.
  - exists c'. rewrite list_lookup_insert_ne by done. eauto.
Qed.

Lemma is_chain_link qs p l1 i l2 c prio d :
  is_chain qs p (l1 ++ i :: l2) -> qs !! i = Some c ->
  prio ∉ l1 ++ i :: l2 -> (prio < length qs)%nat -> NoDup (l1 ++ i :: l2) ->
  is_chain (<[i := mkQueue (PQueue prio) (data c)]> (<[prio := mkQueue (next_nonempty c) d]> qs))
    p (l1 ++ i :: prio :: l2).
Proof.
  revert p. induction l1 as [|j l1 IH]; intros p; cbn.
  - intros [-> (c' & Hj & Hl)] Hc Hprio Hlt Hnd. simplify_eq. split; [done|].
    pose proof (lookup_lt_Some _ _ _ Hj).
    eexists. rewrite list_lookup_insert_eq by (by rewrite length_insert). split; [done|].
    cbn. split; [done|]. eexists. rewrite list_lookup_insert_ne by set_solver.
    rewrite list_lookup_insert_eq by done. split; [done|]. cbn.
    apply NoDup_cons in Hnd as [? ?].
    apply is_chain_set; [set_solver|]. apply is_chain_set; [set_solver|done].
  - intros [-> (c' & Hj & Hl)] Hc Hprio Hlt Hnd. split; [done|]. exists c'.
    apply NoDup_cons in Hnd as [Hni Hnd].
    rewrite list_lookup_insert_ne by set_solver.
    rewrite list_lookup_insert_ne by set_solver. split; [done|].
    apply IH; [done..|set_solver|done|done].
Qed.

Lemma is_chain_lookup qs p l i : is_chain qs p l -> i ∈ l -> exists c, qs !! i = Some c.
Proof.
  revert p. induction l as [|j l IH]; intros p; cbn; [set_solver|].
  intros [_ (c & Hj & Hl)] [->|?]%elem_of_cons; eauto.
Qed.

Lemma StronglySorted_lt_NoDup (l : list nat) : StronglySorted lt l -> NoDup l.
Proof.
  induction 1 as [|i l Hs IH Hall]; constructor; [|done].
  intros Hin. rewrite Forall_forall in Hall. apply Hall in Hin. lia.
Qed.

Lemma StronglySorted_lt_app (l1 l2 : list nat) :
  StronglySorted lt l1 -> StronglySorted lt l2 ->
  (forall a b, a ∈ l1 -> b ∈ l2 -> (a < b)%nat) -> StronglySorted lt (l1 ++ l2).
Proof.
  induction 1 as [|i l Hs IH Hall]; cbn; intros H2 Hlt; [done|]. constructor.
  - apply IH; [done|]. intros a b Ha Hb. apply Hlt; [by apply elem_of_cons; right | done].
  - apply Forall_app. split; [done|]. apply Forall_forall. intros b Hb.
    apply Hlt; [by apply elem_of_cons; left | done].
Qed.

Lemma StronglySorted_lt_app_inv (l1 l2 : list nat) :
  StronglySorted lt (l1 ++ l2) ->
  StronglySorted lt l1 /\ StronglySorted lt l2 /\ (forall a b, a ∈ l1 -> b ∈ l2 -> (a < b)%nat).
Proof.
  induction l1 as [|i l1 IH]; cbn; intros H.
  - split; [constructor|]. split; [done|]. set_solver.
  - inversion H as [|? ? Hs Hall]; subst. destruct (IH Hs) as (H1 & H2 & H3).
    apply Forall_app in Hall as [Ha Hb]. rewrite Forall_forall in Hb.
    split; [by constructor|]. split; [done|].
    intros a b [->|?]%elem_of_cons ?; [by apply Hb | by apply H3].
Qed.

Lemma sorted_length_bound (n : nat) (l : list nat) :
  StronglySorted lt l -> (forall i, i ∈ l -> (i < n)%nat) -> (length l <= n)%nat.
Proof.
  intros Hs Hb. replace n with (length (seq 0 n)) by apply length_seq.
  apply submseteq_length.
  apply NoDup_submseteq; [by apply StronglySorted_lt_NoDup|].
  intros i Hi. apply elem_of_seq. specialize (Hb i Hi). lia.
Qed.

Lemma wf_length q l : wf q l -> (length l < chain_fuel q)%nat.
Proof.
  intros [Hc Hs Hl He]. unfold chain_fuel.
  enough (length l <= length (queues q))%nat by lia.
  apply sorted_length_bound; [done|]. intros i Hi.
  destruct (is_chain_lookup _ _ _ _ Hc Hi) as [c Hq]. by eapply lookup_lt_Some.
Qed.

Lemma get_first_loop_scan q fuel p l :
  is_chain (queues q) p l -> (length l < fuel)%nat ->
  get_first_loop fuel q p = Ret (snd <$> scan q l).
Proof.
  revert fuel p. induction l as [|i l IH]; intros [|fuel] p; cbn; [lia| |lia|].
  - by intros -> _.
  - intros [-> (c & Hc & Hl)] Hlen. unfold level_data. rewrite Hc.
    destruct (data c); [|done]. apply IH; [done | lia].
Qed.

Lemma pop_first_loop_scan q fuel p l :
  is_chain (queues q) p l -> (length l < fuel)%nat ->
  pop_first_loop fuel p q =
  Ret (match scan q l with Some (i, x) => (Some x, pop_at i q) | None => (None, q) end).
Proof.
  revert fuel p. induction l as [|i l IH]; intros [|fuel] p; cbn; [lia| |lia|].
  - by intros -> _.
  - intros [-> (c & Hc & Hl)] Hlen. unfold level_data. rewrite Hc.
    destruct (data c) eqn:Hd; [|unfold pop_at; by rewrite Hc, Hd].
    apply IH; [done | lia].
Qed.

Lemma pop_first_better_loop_scan q fuel p l1 l2 stop :
  is_chain (queues q) p (l1 ++ l2) -> (length (l1 ++ l2) < fuel)%nat ->
  (forall i, i ∈ l1 -> (i < stop)%nat) -> (forall i, i ∈ l2 -> (stop <= i)%nat) ->
  pop_first_better_loop fuel stop p q =
  match scan q l1 with
  | Some (i, x) => Ret (Some x, pop_at i q)
  | None => match l2 with [] => Crash UndefinedBehaviour | _ => Ret (None, q) end
  end.
Proof.
  revert fuel p. induction l1 as [|i l1 IH]; intros [|fuel] p; cbn; intros Hch Hlen H1 H2; [lia| |lia|].
  - destruct l2 as [|j l2]; cbn in Hch; [by rewrite Hch|].
    destruct Hch as [-> _]. rewrite bool_decide_eq_false_2; [done|].
    specialize (H2 j). apply Nat.nlt_ge, H2. set_solver.
  - destruct Hch as [-> (c & Hc & Hl)].
    rewrite bool_decide_eq_true_2 by (apply H1; set_solver).
    unfold level_data. rewrite Hc.
    destruct (data c) eqn:Hd; [|unfold pop_at; by rewrite Hc, Hd].
    apply IH; [done|lia|set_solver|done].
Qed.

Lemma scan_Some q l i x :
  StronglySorted lt l -> scan q l = Some (i, x) ->
  i ∈ l /\ (exists rest, level_data q i = x :: rest) /\
  (forall j, j ∈ l -> (j < i)%nat -> level_data q j = []).
Proof.
  induction 1 as [|k l Hs IH Hall]; cbn; [done|]. rewrite Forall_forall in Hall.
  destruct (level_data q k) as [|y d] eqn:Hk.
  - intros (Hin & Hd & Hlt)%IH. split; [set_solver|]. split; [done|].
    intros j [->|?]%elem_of_cons ?; eauto.
  - intros [= -> ->]. split; [set_solver|]. split; [eauto|].
    intros j [->|Hj]%elem_of_cons Hlt; [lia|]. specialize (Hall j Hj). lia.
Qed.

Lemma scan_None q l : scan q l = None <-> forall i, i ∈ l -> level_data q i = [].
Proof.
  induction l as [|k l IH]; cbn; [set_solver|].
  destruct (level_data q k) as [|y d] eqn:Hk.
  - rewrite IH. set_solver.
  - split; [done|]. intros H. specialize (H k). rewrite Hk in H. set_solver.
Qed.

Lemma wf_set_data q l i c d :
  wf q l -> queues q !! i = Some c -> (next_nonempty c = PUnlinked -> d = []) ->
  wf (set_queue i (mkQueue (next_nonempty c) d) q) l.
Proof.
  intros [Hc Hs Hl He] Hi Hd. pose proof (lookup_lt_Some _ _ _ Hi).
  split; [by apply is_chain_set_data|done| |].
  - intros j. rewrite linked_set_queue, Hl by done. case_bool; [|done]. subst j. cbn.
    unfold linked. rewrite Hi. naive_solver.
  - intros j. rewrite linked_set_queue, level_data_set_queue by done. case_bool; [|apply He].
    cbn. intros Hnl. apply Hd. by destruct (decide (next_nonempty c = PUnlinked)).
Qed.

Lemma level_data_pop_at q i j :
  level_data (pop_at i q) j = if bool_decide (i = j) then tail (level_data q j) else level_data q j.
Proof.
  unfold pop_at. destruct (queues q !! i) as [c|] eqn:Hi.
  - rewrite level_data_set_queue by (by eapply lookup_lt_Some). case_bool; [|done].
    subst j. unfold level_data. by rewrite Hi.
  - case_bool; [|done]. subst j. unfold level_data. by rewrite Hi.
Qed.

Lemma wf_pop_at q l i : wf q l -> wf (pop_at i q) l.
Proof.
  intros Hwf. unfold pop_at. destruct (queues q !! i) as [c|] eqn:Hi; [|done].
  apply wf_set_data; [done..|]. intros Hu. destruct Hwf as [_ _ _ He].
  specialize (He i). unfold level_data in He. rewrite Hi in He. rewrite He; [done|].
  unfold linked. rewrite Hi. naive_solver.
Qed.

(** An unlinked level is at its default value. *)
Lemma not_linked_in_range q i c : queues q !! i = Some c -> ~ linked q i -> next_nonempty c = PUnlinked.
Proof.
  intros Hi Hn. destruct (decide (next_nonempty c = PUnlinked)); [done|].
  exfalso. apply Hn. by exists c.
Qed.

(** Linking a level below every other one. *)
Lemma wf_link_first q l c prio :
  wf q l -> queues q !! prio = Some c -> data c = [] -> (forall j, j ∈ l -> (prio < j)%nat) ->
  wf (set_queue prio (mkQueue (first q) (data c)) q <| first := PQueue prio |>) (prio :: l).
Proof.
  intros [Hch Hs Hl He] Hc Hd Hall. pose proof (lookup_lt_Some _ _ _ Hc) as Hlt.
  assert (Hf : first q <> PUnlinked).
  { destruct l; cbn in Hch; [by rewrite Hch | by destruct Hch as [-> _]]. }
  assert (Hlk : forall j, linked (set_queue prio (mkQueue (first q) (data c)) q) j <-> j = prio \/ linked q j).
  { intros j. rewrite linked_set_queue by done. case_bool; cbn; [subst; tauto | naive_solver]. }
  split.
  - cbn. split; [done|]. eexists. rewrite list_lookup_insert_eq by done. split; [done|]. cbn.
    apply is_chain_set; [|done]. intros Hin%Hall. lia.
  - constructor; [done|]. apply Forall_forall. auto.
  - intros j. rewrite elem_of_cons, Hl. symmetry. apply Hlk.
  - intros j Hj. unfold level_data. cbn. destruct (decide (prio = j)) as [->|].
    + by rewrite list_lookup_insert_eq.
    + rewrite list_lookup_insert_ne by done. apply He. intros Hlj. apply Hj. apply Hlk. auto.
Qed.

(** Linking a level after the nearest linked one below it. *)
Lemma linked_link_after q below c i prio j :
  queues q !! i = Some below -> queues q !! prio = Some c -> next_nonempty below <> PUnlinked ->
  i <> prio ->
  linked (set_queue i (mkQueue (PQueue prio) (data below))
           (set_queue prio (mkQueue (next_nonempty below) (data c)) q)) j <-> j = prio \/ linked q j.
Proof.
  intros Hb Hc Hn Hne. rewrite linked_set_queue by (cbn; rewrite length_insert; by eapply lookup_lt_Some).
  case_bool; cbn.
  - subst j. split; [|done]. intros _. right. by exists below.
  - rewrite linked_set_queue by (by eapply lookup_lt_Some).
    case_bool; cbn; [subst j; tauto | naive_solver].
Qed.

Lemma level_data_link_after q below c i prio j n1 n2 :
  queues q !! i = Some below -> queues q !! prio = Some c ->
  level_data (set_queue i (mkQueue n1 (data below)) (set_queue prio (mkQueue n2 (data c)) q)) j
  = level_data q j.
Proof.
  intros Hb Hc. rewrite level_data_set_queue by (cbn; rewrite length_insert; by eapply lookup_lt_Some).
  rewrite level_data_set_queue by (by eapply lookup_lt_Some). unfold level_data.
  repeat case_bool; cbn; subst; by rewrite ?Hb, ?Hc.
Qed.

Lemma wf_link_after q l1 i l2 below c prio :
  wf q (l1 ++ i :: l2) -> queues q !! i = Some below -> queues q !! prio = Some c ->
  next_nonempty below <> PUnlinked ->
  (i < prio)%nat -> (forall j, j ∈ l2 -> (prio < j)%nat) -> prio ∉ l1 ++ i :: l2 ->
  wf (set_queue i (mkQueue (PQueue prio) (data below))
       (set_queue prio (mkQueue (next_nonempty below) (data c)) q)) (l1 ++ i :: prio :: l2).
Proof.
  intros [Hch Hs Hl He] Hb Hc Hn Hlt Hgt Hni.
  destruct (StronglySorted_lt_app_inv _ _ Hs) as (Hs1 & Hs2 & H12).
  inversion Hs2 as [|? ? Hs2' Hall]; subst. rewrite Forall_forall in Hall.
  split.
  - apply is_chain_link; [done..|by eapply lookup_lt_Some|by apply StronglySorted_lt_NoDup].
  - apply StronglySorted_lt_app; [done| |].
    + constructor; [constructor; [done | by apply Forall_forall]|].
      apply Forall_forall. intros b [->|Hb']%elem_of_cons; [lia | by apply Hall].
    + intros a b Ha [->|[->|Hb']%elem_of_cons]%elem_of_cons; [apply H12; set_solver| |apply H12; set_solver].
      assert (a < i)%nat by (apply H12; set_solver). lia.
  - intros j. rewrite linked_link_after by (done || lia). rewrite <- Hl. set_solver.
  - intros j Hj. rewrite level_data_link_after by done. apply He. intros Hlj. apply Hj.
    apply linked_link_after; [done..|lia|auto].
Qed.

(** [link]: the chain gains the level, in order, and no deque changes. *)
Lemma link_from_wf q l c prio i :
  wf q l -> queues q !! prio = Some c -> ~ linked q prio -> (i <= prio)%nat ->
  (forall j, (i <= j < prio)%nat -> ~ linked q j) ->
  exists l', wf (link_from prio i q) l' /\ (forall j, j ∈ l' <-> j = prio \/ j ∈ l) /\
    (forall j, level_data (link_from prio i q) j = level_data q j) /\
    length (queues (link_from prio i q)) = length (queues q).
Proof.
  intros Hwf Hc Hn. pose proof (lookup_lt_Some _ _ _ Hc) as Hlt.
  assert (Hd : data c = []).
  { pose proof (wf_empty _ _ Hwf prio Hn) as He. unfold level_data in He. by rewrite Hc in He. }
  assert (Habove : forall j, linked q j -> (forall k, (i <= k < prio)%nat -> ~ linked q k) ->
    (i <= j)%nat -> (prio < j)%nat).
  { intros j Hj Hk Hij. destruct (decide (j = prio)) as [->|]; [done|].
    destruct (decide (j < prio)%nat); [exfalso; apply (Hk j); [lia | done] | lia]. }
  induction i as [|i IH]; intros Hle Hgap; cbn; rewrite Hc.
  - exists (prio :: l). split; [|split; [set_solver|]].
    + apply wf_link_first; [done..|]. intros j Hj%(wf_linked _ _ Hwf). apply Habove; [done..|lia].
    + split; [|cbn; by rewrite length_insert].
      intros j. unfold level_data. cbn. destruct (decide (prio = j)) as [<-|].
      * by rewrite list_lookup_insert_eq, Hc.
      * by rewrite list_lookup_insert_ne.
  - destruct (queues q !! i) as [below|] eqn:Hb; [|apply lookup_ge_None in Hb; lia].
    case_bool.
    { assert (Hni : ~ linked q i) by (intros (c' & Hc' & ?); simplify_eq).
      apply IH; [|lia|].
      - intros j Hj Hk Hij. destruct (decide (j = i)) as [->|]; [done | apply Habove; [done|auto with lia|lia]].
      - intros j Hj. destruct (decide (j = i)) as [->|]; [done | apply Hgap; lia]. }
    assert (Hli : i ∈ l) by (apply (wf_linked _ _ Hwf); by exists below).
    apply list_elem_of_split in Hli as (l1 & l2 & ->).
    exists (l1 ++ i :: prio :: l2). split; [|split; [set_solver|]].
    + apply wf_link_after; [done..|lia| |by rewrite (wf_linked _ _ Hwf)].
      intros j Hj. apply Habove; [apply (wf_linked _ _ Hwf); set_solver|done|].
      destruct (StronglySorted_lt_app_inv l1 (i :: l2)) as (_ & Hs2 & _); [apply Hwf|].
      inversion Hs2 as [|? ? ? Hall]; subst. rewrite Forall_forall in Hall.
      specialize (Hall j Hj). lia.
    + split; [|cbn; by rewrite !length_insert]. intros j. by apply level_data_link_after.
Qed.

Lemma wp_prepare i q :
  valid q -> (i < length (queues q))%nat ->
  wp (prepare i) (fun _ q' => valid q' /\ linked q' i /\
    (forall j, linked q j -> linked q' j) /\ (forall j, level_data q' j = level_data q j) /\
    length (queues q') = length (queues q)) q.
Proof.
  intros [l Hwf] Hlt. unfold wp, prepare. destruct (queues q !! i) as [c|] eqn:Hc.
  2: { apply lookup_ge_None in Hc. lia. }
  case_bool.
  - destruct (link_from_wf q l c i i) as (l' & Hwf' & Hlk & Hd & Hlen); [done|done| |lia|lia|].
    { intros (c' & Hc' & ?). simplify_eq. }
    split; [by exists l'|]. split; [apply (wf_linked _ _ Hwf'), Hlk; auto|]. split; [|done].
    intros j Hj%(wf_linked _ _ Hwf). apply (wf_linked _ _ Hwf'), Hlk. auto.
  - split; [by exists l|]. split; [by exists c|]. done.
Qed.

Lemma wp_update_data i f q :
  valid q -> linked q i ->
  wp (update_data i f) (fun _ q' => valid q' /\ (forall j, linked q j <-> linked q' j) /\
    only_level i f q q' /\ length (queues q') = length (queues q)) q.
Proof.
  intros [l Hwf] (c & Hc & Hn). unfold wp, update_data. rewrite Hc.
  pose proof (lookup_lt_Some _ _ _ Hc).
  split; [exists l; by apply wf_set_data|]. split.
  - intros j. rewrite linked_set_queue by done. case_bool; [|done]. subst. unfold linked. naive_solver.
  - split; [|cbn; by rewrite length_insert].
    intros j. rewrite level_data_set_queue by done. case_bool; [|done].
    subst. unfold level_data. by rewrite Hc.
Qed.

(** Removal needs no linked level: an unlinked one is empty. *)
Lemma wp_remove i x q :
  valid q -> (i < length (queues q))%nat ->
  wp (remove i x) (fun _ q' => valid q' /\ (forall j, linked q j <-> linked q' j) /\
    only_level i (filter (fun y => y <> x)) q q' /\ length (queues q') = length (queues q)) q.
Proof.
  intros [l Hwf] Hlt. destruct (queues q !! i) as [c|] eqn:Hc.
  2: { apply lookup_ge_None in Hc. lia. }
  destruct (decide (next_nonempty c = PUnlinked)) as [Hu|Hu].
  - assert (Hd : data c = []).
    { destruct Hwf as [_ _ _ He]. specialize (He i). unfold level_data in He. rewrite Hc in He.
      apply He. intros (c' & Hc' & ?). simplify_eq. }
    unfold wp, remove, update_data. rewrite Hc, Hd. cbn.
    split; [exists l; by apply wf_set_data|]. split.
    + intros j. rewrite linked_set_queue by done. case_bool; [|done]. subst. unfold linked. naive_solver.
    + split; [|by rewrite length_insert].
      intros j. rewrite level_data_set_queue by done. case_bool; [|done].
      subst. unfold level_data. by rewrite Hc, Hd.
  - apply wp_update_data; [by exists l | by exists c].
Qed.

Lemma wp_pop_first_scan q l :
  wf q l -> pop_first q =
  Ret (match scan q l with Some (i, x) => (Some x, pop_at i q) | None => (None, q) end).
Proof. intros Hwf. apply pop_first_loop_scan; [apply Hwf | by apply wf_length]. Qed.

Lemma linked_pop_at q i j : linked (pop_at i q) j <-> linked q j.
Proof.
  unfold pop_at. destruct (queues q !! i) as [c|] eqn:Hc; [|done].
  rewrite linked_set_queue by (by eapply lookup_lt_Some). case_bool; [|done].
  subst. unfold linked. naive_solver.
Qed.

Lemma length_pop_at q i : length (queues (pop_at i q)) = length (queues q).
Proof. unfold pop_at. destruct (queues q !! i); cbn; [by rewrite length_insert | done]. Qed.

Lemma not_in_chain_empty q l i : wf q l -> i ∉ l -> level_data q i = [].
Proof. intros [_ _ Hl He] Hi. apply He. by rewrite <- Hl. Qed.

Lemma scan_best q l i x : wf q l -> scan q l = Some (i, x) -> best q i x /\ linked q i.
Proof.
  intros Hwf Hsc. destruct (scan_Some q l i x) as (Hin & Hd & Hlt); [apply Hwf|done|].
  split; [|by apply Hwf]. split; [done|]. intros j Hj.
  destruct (decide (j ∈ l)); [by apply Hlt | by eapply not_in_chain_empty].
Qed.

Lemma scan_all_empty q l : wf q l -> scan q l = None -> forall i, level_data q i = [].
Proof.
  intros Hwf Hsc i. rewrite scan_None in Hsc.
  destruct (decide (i ∈ l)); [auto | by eapply not_in_chain_empty].
Qed.

Lemma chain_split (p : nat) (l : list nat) :
  StronglySorted lt l ->
  exists l1 l2, l = l1 ++ l2 /\ (forall i, i ∈ l1 -> (i < p)%nat) /\ (forall i, i ∈ l2 -> (p <= i)%nat).
Proof.
  induction 1 as [|k l Hs (l1 & l2 & -> & H1 & H2) Hall].
  - exists [], []. set_solver.
  - destruct (decide (k < p)%nat).
    + exists (k :: l1), l2. split; [done|]. split; [|done]. intros i [->|?]%elem_of_cons; auto.
    + exists [], (k :: l1 ++ l2). split; [done|]. split; [set_solver|].
      rewrite Forall_forall in Hall. intros i [->|Hi]%elem_of_cons; [lia|].
      specialize (Hall i Hi). lia.
Qed.

Lemma pop_first_better_scan q l p :
  wf q l -> exists l1 l2, l = l1 ++ l2 /\
  (forall i, i ∈ l1 -> (i < p)%nat) /\ (forall i, i ∈ l2 -> (p <= i)%nat) /\
  pop_first_better p q =
  match scan q l1 with
  | Some (i, x) => Ret (Some x, pop_at i q)
  | None => match l2 with [] => Crash UndefinedBehaviour | _ => Ret (None, q) end
  end.
Proof.
  intros Hwf. destruct (chain_split p l) as (l1 & l2 & -> & H1 & H2); [apply Hwf|].
  exists l1, l2. do 3 (split; [done|]).
  apply pop_first_better_loop_scan; [apply Hwf | by apply wf_length | done..].
Qed.

Lemma scan_prefix_best q l1 l2 i x :
  wf q (l1 ++ l2) -> (forall a b, a ∈ l1 -> b ∈ l2 -> (a < b)%nat) ->
  scan q l1 = Some (i, x) -> best q i x /\ i ∈ l1.
Proof.
  intros Hwf H12 Hsc.
  destruct (StronglySorted_lt_app_inv l1 l2) as (Hs1 & _ & _); [apply Hwf|].
  destruct (scan_Some q l1 i x Hs1 Hsc) as (Hin & Hd & Hlt).
  split; [|done]. split; [done|]. intros j Hj.
  destruct (decide (j ∈ l1 ++ l2)) as [[?|Hj2]%elem_of_app|]; [by apply Hlt| |by eapply not_in_chain_empty].
  specialize (H12 i j Hin Hj2). lia.
Qed.

(** ** Properties *)

(** What the pops do, for the clients of the container. *)
Definition same_levels (q q' : tql) : Prop := (forall j, linked q j <-> linked q' j) /\ length (queues q') = length (queues q).

Lemma wp_pop_first q :
  valid q ->
  wp pop_first (fun r q' => valid q' /\ same_levels q q' /\
    match r with
    | Some x => exists i, best q i x /\ only_level i (@tail T) q q'
    | None => (forall i, level_data q i = []) /\ q' = q
    end) q.
Proof.
  intros [l Hwf]. unfold wp. rewrite (wp_pop_first_scan q l) by done.
  destruct (scan q l) as [[i x]|] eqn:Hsc.
  - split; [exists l; by apply wf_pop_at|]. split; [split; [intros j; by rewrite linked_pop_at|apply length_pop_at]|]. exists i.
    split; [by eapply scan_best|]. intros j. apply level_data_pop_at.
  - split; [by exists l|]. split; [done|]. split; [by eapply scan_all_empty | done].
Qed.
Lemma wp_pop_first_better q p :
  valid q -> linked q p ->
  wp (pop_first_better p) (fun r q' => valid q' /\ same_levels q q' /\
    match r with
    | Some x => exists i, (i < p)%nat /\ best q i x /\ only_level i (@tail T) q q'
    | None => (forall i, (i < p)%nat -> level_data q i = []) /\ q' = q
    end) q.
Proof.
  intros [l Hwf] Hp. destruct (pop_first_better_scan q l p Hwf) as (l1 & l2 & -> & H1 & H2 & Heq).
  unfold wp. rewrite Heq. destruct (scan q l1) as [[i x]|] eqn:Hsc.
  - destruct (scan_prefix_best q l1 l2 i x Hwf) as [Hb Hi]; [|done|].
    { intros a b Ha%H1 Hb%H2. lia. }
    split; [eexists; by apply wf_pop_at|]. split; [split; [intros j; by rewrite linked_pop_at|apply length_pop_at]|].
    exists i. split; [by apply H1|].
    split; [done|]. intros j. apply level_data_pop_at.
  - destruct l2 as [|k l2].
    { apply (wf_linked _ _ Hwf) in Hp. rewrite app_nil_r in Hp. apply H1 in Hp. lia. }
    split; [by eexists|]. split; [done|]. split; [|done]. intros i Hi. rewrite scan_None in Hsc.
    destruct (decide (i ∈ l1 ++ k :: l2)) as [[?|Hin%H2]%elem_of_app|];
      [by apply Hsc|lia|by eapply not_in_chain_empty].
Qed.
Lemma wp_move q x i j :
  valid q -> (i < length (queues q))%nat -> (j < length (queues q))%nat ->
  wp (move x i j) (fun _ q' => valid q' /\ linked q' j /\
    (forall k, linked q k -> linked q' k) /\ length (queues q') = length (queues q) /\
    forall k, level_data q' k =
      (if bool_decide (i = k) then filter (fun y => y <> x) (level_data q k) else level_data q k) ++
      (if bool_decide (j = k) then [x] else [])) q.
Proof.
  intros Hv Hi Hj. unfold move. apply wp_bind.
  eapply wp_mono; [by apply wp_remove|]. intros [] q1 (Hv1 & Hl1 & Ho1 & Hn1). cbn. apply wp_bind.
  eapply wp_mono; [apply wp_prepare; [done | by rewrite Hn1]|].
  intros [] q2 (Hv2 & Hj2 & Hl2 & Hd2 & Hn2). cbn.
  eapply wp_mono; [by apply wp_update_data|]. intros [] q3 (Hv3 & Hl3 & Ho3 & Hn3). cbn.
  split; [done|]. split; [by apply Hl3|]. split; [by intros k Hk; apply Hl3, Hl2, Hl1|]. split; [congruence|].
  intros k. rewrite Ho3, Hd2, Ho1. repeat case_bool; by rewrite ?app_nil_r.
Qed.

(** [pop_first] on a valid queue ends (its walk along the chain never runs
    out of levels), and returns the oldest entry of the highest-priority level
    that is not empty, removing just that entry; it returns nothing exactly when
    every level is empty. *)
Theorem pop_first_spec q :
  valid q ->
  wp pop_first (fun r q' => valid q' /\
    match r with
    | Some x => exists i, best q i x /\ only_level i (@tail T) q q'
    | None => (forall i, level_data q i = []) /\ q' = q
    end) q.
Proof. intros Hv. eapply wp_mono; [by apply wp_pop_first|]. by intros r q' (? & _ & ?). Qed.

(** [pop_first_better p], when level [p] was prepared, returns the oldest
    entry of the best nonempty level strictly better than [p], or nothing when
    all the levels better than [p] are empty; it never crashes. *)
Theorem pop_first_better_spec q p :
  valid q -> linked q p ->
  wp (pop_first_better p) (fun r q' => valid q' /\
    match r with
    | Some x => exists i, (i < p)%nat /\ best q i x /\ only_level i (@tail T) q q'
    | None => (forall i, (i < p)%nat -> level_data q i = []) /\ q' = q
    end) q.
Proof. intros Hv Hp. eapply wp_mono; [by apply wp_pop_first_better|]. by intros r q' (? & _ & ?). Qed.

(** [pop_first_better p] dereferences a null pointer exactly when no level
    from [p] on was ever prepared and no level holds an entry: the loop's test
    [cur < stop] does not stop it at the end of the chain. *)
Theorem pop_first_better_null q p :
  valid q ->
  pop_first_better p q = Crash UndefinedBehaviour <->
  (forall i, linked q i -> (i < p)%nat) /\ (forall i, level_data q i = []).
Proof.
  intros [l Hwf]. destruct (pop_first_better_scan q l p Hwf) as (l1 & l2 & -> & H1 & H2 & ->).
  destruct (scan q l1) as [[i x]|] eqn:Hsc.
  - split; [done|]. intros [_ He]. destruct (StronglySorted_lt_app_inv l1 l2) as (Hs1 & _); [apply Hwf|].
    destruct (scan_Some q l1 i x Hs1 Hsc) as (_ & [rest Hd] & _). by rewrite He in Hd.
  - destruct l2 as [|k l2].
    + split; [|done]. intros _. rewrite app_nil_r in Hwf. split.
      * intros i Hi%(wf_linked _ _ Hwf). by apply H1.
      * by eapply scan_all_empty.
    + split; [done|]. intros [Hl _].
      assert (Hk : linked q k) by (apply (wf_linked _ _ Hwf); set_solver).
      specialize (Hl k Hk). specialize (H2 k). set_solver by lia.
Qed.

(** [move] takes every occurrence of an entry out of its old level and appends
    it once to the new one, links the new level, and leaves the other entries of
    every level in their order. *)
Theorem move_spec q x i j :
  valid q -> (i < length (queues q))%nat -> (j < length (queues q))%nat ->
  wp (move x i j) (fun _ q' => valid q' /\ linked q' j /\
    (forall k, linked q k -> linked q' k) /\
    forall k, level_data q' k =
      (if bool_decide (i = k) then filter (fun y => y <> x) (level_data q k) else level_data q k) ++
      (if bool_decide (j = k) then [x] else [])) q.
Proof. intros Hv Hi Hj. eapply wp_mono; [by apply wp_move|]. by intros r q' (? & ? & ? & _ & ?). Qed.

Lemma new_ThreadQueueList_valid N : valid (new_ThreadQueueList N).
Proof.
  exists []. split; cbn; [done|constructor| |].
  - intros i. split; [set_solver|]. intros (c & [-> _]%lookup_replicate & ?). done.
  - intros i _. unfold level_data. cbn. destruct (replicate N new_Queue !! i) eqn:E; [|done].
    by apply lookup_replicate in E as [-> _].
Qed.

(** C40: every operation the scheduler makes keeps the container valid (a strictly
    increasing chain that visits exactly the prepared levels, with every entry on
    a prepared level) and never crashes, when it is called on a prepared level. *)
Theorem ops_valid o q :
  valid q -> allowed o q -> wp (exec o) (fun _ q' => valid q') q.
Proof.
  intros Hv Ha. destruct o; cbn in Ha |- *.
  - eapply wp_mono; [by apply wp_prepare | naive_solver].
  - eapply wp_mono; [by apply wp_update_data | naive_solver].
  - eapply wp_mono; [by apply wp_update_data | naive_solver].
  - destruct Hv as [l Hwf]. apply wp_bind. unfold wp. rewrite (wp_pop_first_scan q l) by done.
    destruct (scan q l) as [[i x]|]; cbn; exists l; [by apply wf_pop_at | done].
  - destruct Hv as [l Hwf]. destruct (pop_first_better_scan q l i Hwf) as (l1 & l2 & -> & H1 & H2 & Heq).
    apply wp_bind. unfold wp. rewrite Heq. destruct (scan q l1) as [[k x]|]; cbn.
    + eexists. by apply wf_pop_at.
    + destruct l2; [|by eexists].
      apply (wf_linked _ _ Hwf) in Ha. rewrite app_nil_r in Ha. apply H1 in Ha. lia.
  - eapply wp_mono; [by apply wp_remove | naive_solver].
  - destruct Ha. unfold move. apply wp_bind.
    eapply wp_mono; [by apply wp_remove|]. intros [] q1 (Hv1 & Hl1 & Ho1 & Hn1). cbn. apply wp_bind.
    eapply wp_mono; [apply wp_prepare; [done | by rewrite Hn1]|].
    intros [] q2 (Hv2 & Hj2 & Hl2 & Hd2 & Hn2). cbn.
    eapply wp_mono; [by apply wp_update_data | naive_solver].
  - eapply wp_mono; [by apply wp_update_data | naive_solver].
  - exact (new_ThreadQueueList_valid _).
Qed.

End ThreadQueueList.
Arguments Queue : clear implicits.
Arguments tql : clear implicits.

Definition sample_queue : outcome (unit * tql Z) :=
  (prepare 3 ;; prepare 1 ;; push_back 3 30 ;; push_back 1 10 ;; push_back 1 11) (new_ThreadQueueList 4).

Definition sample : tql Z :=
  match sample_queue with Ret (_, q) => q | Crash _ => new_ThreadQueueList 4 end.

Lemma sample_queue_valid : valid sample.
Proof.
  exists [1%nat; 3%nat]. split; vm_compute.
  - split; [done|]. eexists; split; [done|]. split; [done|]. eexists; split; done.
  - repeat constructor.
  - intros i. split.
    + intros [->|[->|[]%elem_of_nil]%elem_of_cons]%elem_of_cons; eexists; split; done.
    + intros (c & Hc & Hn). do 4 (destruct i as [|i]; [try set_solver; simplify_eq/=; done|]). done.
  - intros i Hn. do 4 (destruct i as [|i];
      [first [done | exfalso; apply Hn; eexists; split; done]|]). done.
Qed.

Lemma pop_first_spec_witness :
  valid sample /\ wp pop_first (fun r q' => valid q' /\
    match r with
    | Some x => exists i, best sample i x /\ only_level i (@tail Z) sample q'
    | None => (forall i, level_data sample i = []) /\ q' = sample
    end) sample.
Proof. split; [exact sample_queue_valid | exact (pop_first_spec sample sample_queue_valid)]. Defined.

Lemma sample_linked_3 : linked sample 3.
Proof. eexists. vm_compute. split; [reflexivity | discriminate]. Qed.

Lemma pop_first_better_spec_witness :
  wp (pop_first_better 3) (fun r q' => valid q' /\
    match r with
    | Some x => exists i, (i < 3)%nat /\ best sample i x /\ only_level i (@tail Z) sample q'
    | None => (forall i, (i < 3)%nat -> level_data sample i = []) /\ q' = sample
    end) sample.
Proof. exact (pop_first_better_spec sample 3 sample_queue_valid sample_linked_3). Defined.

Lemma pop_first_better_null_witness :
  pop_first_better 2 (new_ThreadQueueList (T := Z) 4) = Crash UndefinedBehaviour.
Proof.
  apply (pop_first_better_null (new_ThreadQueueList (T := Z) 4) 2 (new_ThreadQueueList_valid 4)).
  split.
  - intros i (c & [-> _]%lookup_replicate & Hn). by destruct Hn.
  - intros i. do 4 (destruct i as [|i]; [reflexivity|]). reflexivity.
Defined.

Lemma move_spec_witness :
  wp (move 30 3 1) (fun _ q' => level_data q' 1 = [10; 11; 30] /\ level_data q' 3 = []) sample.
Proof.
  eapply wp_mono; [apply (move_spec sample 30 3 1 sample_queue_valid); vm_compute; lia|].
  intros [] q' (_ & _ & _ & H). split; rewrite H; reflexivity.
Defined.

Lemma ops_valid_witness : wp (exec (OpPopBetter 3)) (fun _ q' => valid q') sample.
Proof. exact (ops_valid (OpPopBetter 3) sample sample_queue_valid sample_linked_3). Defined.

(** * The queue as a map

    An abstract ready queue, and that the chained container of
    src/.../common/thread_queue_list.h implements it: whatever is called, in any
    order, the results are those of a list of levels. *)

Section QueueSpec.
Context {T : Type} `{EqDecision T}.
Implicit Types (q : tql T) (x : T).

(** ** The abstract queue *)

(** A level is [None] until it is prepared. *)
Abbreviation levels := (list (option (list T))).
Implicit Types (a : levels).
Definition spec_prepare (i : nat) a : levels := alter (fun l => Some (default [] l)) i a.
Definition spec_update (i : nat) (f : list T -> list T) a : levels := alter (fmap f) i a.
Fixpoint spec_pop a : option T * levels :=
  match a with
  | [] => (None, [])
  | Some (x :: rest) :: a' => (Some x, Some rest :: a')
  | l :: a' => let r := spec_pop a' in (r.1, l :: r.2)
  end.
Definition spec_pop_better (p : nat) a : option T * levels := let r := spec_pop (firstn p a) in (r.1, r.2 ++ skipn p a).
Definition spec_exec (o : op) a : option T * levels :=
  match o with
  | OpPrepare i => (None, spec_prepare i a)
  | OpPushFront i x => (None, spec_update i (cons x) a)
  | OpPushBack i x => (None, spec_update i (fun d => d ++ [x]) a)
  | OpPopFirst => spec_pop a
  | OpPopBetter p => spec_pop_better p a
  | OpRemove i x => (None, spec_update i (filter (fun y => y <> x)) a)
  | OpMove x i j => (None, spec_update j (fun d => d ++ [x]) (spec_prepare j (spec_update i (filter (fun y => y <> x)) a)))
  | OpRotate i => (None, spec_update i (fun d => match d with x :: ((_ :: _) as rest) => rest ++ [x] | _ => d end) a)
  | OpClear => (None, replicate (length a) None)
  end.
(** Entries are only put on levels that were prepared. *)
Definition prepared (i : nat) a : bool := match a !! i with Some (Some _) => true | _ => false end.
Definition spec_allowed (o : op (T := T)) a : bool :=
  match o with
  | OpPrepare i | OpRemove i _ => bool_decide (i < length a)%nat
  | OpMove _ i j => bool_decide (i < length a)%nat && bool_decide (j < length a)%nat
  | OpPushFront i _ | OpPushBack i _ | OpPopBetter i | OpRotate i => prepared i a
  | OpPopFirst | OpClear => true
  end.

(** ** The abstraction *)

Definition level_of_queue (c : Queue T) : option (list T) := if bool_decide (next_nonempty c = PUnlinked) then None else Some (data c).
Definition abs q : levels := level_of_queue <$> queues q.
Lemma abs_some q i d : abs q !! i = Some (Some d) <-> linked q i /\ level_data q i = d.
Proof.
  unfold abs, linked, level_data. rewrite list_lookup_fmap. destruct (queues q !! i) as [c|]; cbn; [|split; [done|by intros [(c & ? & _) _]]].
  unfold level_of_queue. case_bool; split.
  - done.
  - by intros [(c' & [= <-] & Hn) _].
  - intros [= <-]. split; [by exists c|done].
  - by intros [_ <-].
Qed.
Lemma abs_length q : length (abs q) = length (queues q).
Proof. apply length_fmap. Qed.
Lemma abs_eq q a : length a = length (queues q) -> (forall i d, a !! i = Some (Some d) <-> linked q i /\ level_data q i = d) -> abs q = a.
Proof.
  intros Hl Ha. apply list_eq_same_length with (n := length (queues q)); [by symmetry|apply abs_length|].
  intros i l l' Hi Hli Hli'. destruct l as [d|].
  - apply abs_some, Ha in Hli. congruence.
  - destruct l' as [d|]; [|done]. apply Ha, abs_some in Hli'. congruence.
Qed.
Lemma abs_prepared q i : prepared i (abs q) = true <-> linked q i.
Proof.
  unfold prepared. split.
  - destruct (abs q !! i) as [[d|]|] eqn:E; try done. intros _. by apply abs_some in E as [? _].
  - intros Hl. by rewrite (proj2 (abs_some q i _) (conj Hl eq_refl)).
Qed.
Lemma abs_prepare q q' i : (i < length (queues q))%nat -> linked q' i -> (forall j, linked q' j -> linked q j \/ j = i) ->
  (forall j, linked q j -> linked q' j) -> (forall j, level_data q' j = level_data q j) -> (~ linked q i -> level_data q i = []) ->
  length (queues q') = length (queues q) -> abs q' = spec_prepare i (abs q).
Proof.
  intros Hi Hl Hb Hm Hd He Hlen. apply abs_eq; [unfold spec_prepare; by rewrite length_alter, abs_length|]. intros j d. unfold spec_prepare.
  destruct (decide (j = i)) as [->|Hne].
  - rewrite list_lookup_alter_eq, Hd. destruct (abs q !! i) as [[e|]|] eqn:E; cbn.
    + apply abs_some in E as [E <-]. split; [by intros [= <-]|intros [_ <-]; done].
    + assert (Hn : ~ linked q i) by (intros H; rewrite (proj2 (abs_some q i _) (conj H eq_refl)) in E; done). rewrite He by done. naive_solver.
    + apply lookup_ge_None in E. rewrite abs_length in E. lia.
  - rewrite list_lookup_alter_ne, abs_some, Hd by done. split; intros [H1 H2]; (split; [|done]); [by apply Hm|]. by destruct (Hb j H1).
Qed.
Lemma abs_update q q' i f : (forall j, linked q j <-> linked q' j) -> only_level i f q q' -> length (queues q') = length (queues q) ->
  abs q' = spec_update i f (abs q).
Proof.
  intros Hl Ho Hlen. apply abs_eq; [unfold spec_update; by rewrite length_alter, abs_length|]. intros j d. unfold spec_update. rewrite <- Hl, Ho.
  destruct (decide (j = i)) as [->|Hne].
  - rewrite list_lookup_alter_eq, bool_decide_eq_true_2 by done. destruct (abs q !! i) as [[e|]|] eqn:E; cbn.
    + apply abs_some in E as [E <-]. naive_solver.
    + split; [done|]. intros [H _]. by rewrite (proj2 (abs_some q i _) (conj H eq_refl)) in E.
    + split; [done|]. intros [H _]. by rewrite (proj2 (abs_some q i _) (conj H eq_refl)) in E.
  - rewrite list_lookup_alter_ne, bool_decide_eq_false_2 by congruence. apply abs_some.
Qed.

(** ** Popping *)

Lemma spec_pop_at a i x rest : a !! i = Some (Some (x :: rest)) -> (forall j, (j < i)%nat -> forall y l, a !! j <> Some (Some (y :: l))) ->
  spec_pop a = (Some x, spec_update i (@tail T) a).
Proof.
  unfold spec_update. revert i. induction a as [|l a IH]; intros [|i] Hi Hj; [done|done| |].
  - cbn in Hi. injection Hi as ->. done.
  - cbn in Hi. cbn [spec_pop]. assert (Hrec : spec_pop a = (Some x, alter (fmap (@tail T)) i a)).
    { apply IH; [done|]. intros j Hlt. apply (Hj (S j)). lia. }
    rewrite Hrec. cbn. destruct l as [[|y l]|]; [done| |done]. exfalso. apply (Hj O ltac:(lia) y l). done.
Qed.
Lemma spec_pop_none a : (forall j y l, a !! j <> Some (Some (y :: l))) -> spec_pop a = (None, a).
Proof.
  induction a as [|l a IH]; intros Hj; [done|]. cbn [spec_pop]. rewrite IH by (intros j; apply (Hj (S j))). cbn.
  destruct l as [[|y l]|]; [done| |done]. by destruct (Hj O y l).
Qed.
Lemma nonempty_linked q i x l : valid q -> level_data q i = x :: l -> linked q i.
Proof.
  intros [ls Hwf] Hd. unfold level_data, linked in *. destruct (queues q !! i) as [c|] eqn:E; [|done]. exists c. split; [done|]. intros Hu.
  pose proof (wf_empty _ _ Hwf i) as He. unfold level_data in He. rewrite E in He. rewrite He in Hd; [done|].
  unfold linked. rewrite E. by intros (c' & [= <-] & ?).
Qed.
Lemma abs_best q i x : valid q -> best q i x -> exists rest, abs q !! i = Some (Some (x :: rest)) /\
  forall j, (j < i)%nat -> forall y l, abs q !! j <> Some (Some (y :: l)).
Proof.
  intros Hv [[rest Hd] Hb]. exists rest. split; [apply abs_some; split; [by eapply nonempty_linked|done]|].
  intros j Hj y l [_ Hl]%abs_some. by rewrite Hb in Hl.
Qed.
Lemma spec_better_at a p i x rest : (i < p)%nat -> a !! i = Some (Some (x :: rest)) -> (forall j, (j < i)%nat -> forall y l, a !! j <> Some (Some (y :: l))) ->
  spec_pop_better p a = (Some x, spec_update i (@tail T) a).
Proof.
  intros Hp Hi Hj. unfold spec_pop_better. rewrite (spec_pop_at _ i x rest).
  - cbn. f_equal. pose proof (lookup_lt_Some _ _ _ Hi). unfold spec_update. rewrite <- (firstn_skipn p a) at 3.
    rewrite alter_app_l; [done|]. rewrite length_take. lia.
  - by rewrite lookup_take_lt.
  - intros j Hlt. rewrite lookup_take_lt by lia. by apply Hj.
Qed.
Lemma spec_better_none a p : (forall j, (j < p)%nat -> forall y l, a !! j <> Some (Some (y :: l))) -> spec_pop_better p a = (None, a).
Proof.
  intros Hj. unfold spec_pop_better. rewrite spec_pop_none; [cbn; by rewrite firstn_skipn|].
  intros j y l. destruct (decide (j < p)%nat); [rewrite lookup_take_lt by done; by apply Hj|]. rewrite lookup_take_ge by lia. done.
Qed.

(** ** Each operation *)

Lemma wp_prepare_only i q : valid q -> (i < length (queues q))%nat -> wp (prepare i) (fun _ q' => forall j, linked q' j -> linked q j \/ j = i) q.
Proof.
  intros [l Hwf] Hlt. unfold wp, prepare. destruct (queues q !! i) as [c|] eqn:Hc; [|by apply lookup_ge_None in Hc; lia].
  case_bool; [|by left]. destruct (link_from_wf q l c i i) as (l' & Hwf' & Hlk & _); [done|done| |lia|lia|].
  { intros (c' & Hc' & ?). simplify_eq. }
  intros j Hj%(wf_linked _ _ Hwf'). apply Hlk in Hj as [->|Hj]; [by right|left; by apply (wf_linked _ _ Hwf)].
Qed.
Lemma refines_prepare i q : valid q -> (i < length (queues q))%nat -> wp (prepare i) (fun _ q' => valid q' /\ linked q' i /\ abs q' = spec_prepare i (abs q)) q.
Proof.
  intros Hv Hi. eapply wp_mono; [apply wp_wlp_and; [by apply wp_prepare|by apply wp_wlp, wp_prepare_only]|].
  cbn beta. intros _ q' ((Hv' & Hl & Hm & Hd & Hlen) & Hb). split; [done|]. split; [done|]. apply abs_prepare; try done.
  destruct Hv as [l Hwf]. apply Hwf.
Qed.
Lemma refines_update i f q : valid q -> linked q i -> wp (update_data i f) (fun _ q' => valid q' /\ abs q' = spec_update i f (abs q)) q.
Proof.
  intros Hv Hl. eapply wp_mono; [by apply wp_update_data|]. cbn beta. intros _ q' (Hv' & Hk & Ho & Hlen). split; [done|]. by apply abs_update.
Qed.
Lemma refines_remove i x q : valid q -> (i < length (queues q))%nat ->
  wp (remove i x) (fun _ q' => valid q' /\ length (queues q') = length (queues q) /\ abs q' = spec_update i (filter (fun y => y <> x)) (abs q)) q.
Proof.
  intros Hv Hl. eapply wp_mono; [by apply wp_remove|]. cbn beta. intros _ q' (Hv' & Hk & Ho & Hlen). split; [done|]. split; [done|]. by apply abs_update.
Qed.
Lemma refines_pop q : valid q -> wp pop_first (fun r q' => valid q' /\ spec_pop (abs q) = (r, abs q')) q.
Proof.
  intros Hv. eapply wp_mono; [by apply wp_pop_first|]. cbn beta. intros r q' (Hv' & [Hl Hlen] & Hr). split; [done|]. destruct r as [x|].
  - destruct Hr as (i & Hb & Ho). destruct (abs_best q i x Hv Hb) as (rest & Hi & Hj). rewrite (spec_pop_at _ i x rest) by done.
    f_equal. symmetry. by apply abs_update.
  - destruct Hr as [He ->]. apply spec_pop_none. intros j y l [_ Hd]%abs_some. by rewrite He in Hd.
Qed.
Lemma refines_pop_better p q : valid q -> linked q p -> wp (pop_first_better p) (fun r q' => valid q' /\ spec_pop_better p (abs q) = (r, abs q')) q.
Proof.
  intros Hv Hp. eapply wp_mono; [by apply wp_pop_first_better|]. cbn beta. intros r q' (Hv' & [Hl Hlen] & Hr). split; [done|]. destruct r as [x|].
  - destruct Hr as (i & Hi & Hb & Ho). destruct (abs_best q i x Hv Hb) as (rest & Ha & Hj). rewrite (spec_better_at _ p i x rest) by done.
    f_equal. symmetry. by apply abs_update.
  - destruct Hr as [He ->]. apply spec_better_none. intros j Hj y l [_ Hd]%abs_some. by rewrite He in Hd.
Qed.
(** An operation with its result *)
Definition exec_out (o : op (T := T)) : M (tql T) (option T) :=
  match o with OpPopFirst => pop_first | OpPopBetter p => pop_first_better p | _ => exec o;; mret None end.
Lemma refines_op o q : valid q -> spec_allowed o (abs q) = true -> wp (exec_out o) (fun r q' => valid q' /\ spec_exec o (abs q) = (r, abs q')) q.
Proof.
  intros Hv Ha. destruct o; cbn [exec_out exec spec_exec spec_allowed] in *; rewrite ?bool_decide_eq_true, ?abs_length, ?abs_prepared in Ha.
  - wp_step. eapply wp_mono; [by apply refines_prepare|]. cbn beta. intros _ q' (? & _ & E). wp_step. by rewrite E.
  - wp_step. eapply wp_mono; [by apply refines_update|]. cbn beta. intros _ q' (? & E). wp_step. by rewrite E.
  - wp_step. eapply wp_mono; [by apply refines_update|]. cbn beta. intros _ q' (? & E). wp_step. by rewrite E.
  - by apply refines_pop.
  - by apply refines_pop_better.
  - wp_step. eapply wp_mono; [by apply refines_remove|]. cbn beta. intros _ q' (? & _ & E). wp_step. by rewrite E.
  - apply andb_true_iff in Ha as [Hi%bool_decide_eq_true Hj%bool_decide_eq_true]. unfold move. do 2 wp_step.
    eapply wp_mono; [by apply refines_remove|]. cbn beta. intros _ q1 (H1 & L1 & E1). wp_step.
    eapply wp_mono; [apply refines_prepare; [done|congruence]|]. cbn beta. intros _ q2 (H2 & L2 & E2).
    eapply wp_mono; [by apply refines_update|]. cbn beta. intros _ q3 (? & E3). wp_step. by rewrite E3, E2, E1.
  - wp_step. eapply wp_mono; [by apply refines_update|]. cbn beta. intros _ q' (? & E). wp_step. by rewrite E.
  - wp_step. unfold clear. do 2 wp_step. split; [apply new_ThreadQueueList_valid|]. f_equal. unfold abs. cbn. by rewrite length_fmap, fmap_replicate.
Qed.

(** ** Sequences *)

Fixpoint exec_all (os : list (op (T := T))) : M (tql T) (list (option T)) :=
  match os with [] => mret [] | o :: os' => r ← exec_out o; rs ← exec_all os'; mret (r :: rs) end.
Fixpoint spec_all (os : list (op (T := T))) a : list (option T) * levels :=
  match os with [] => ([], a) | o :: os' => let r := spec_exec o a in let rs := spec_all os' r.2 in (r.1 :: rs.1, rs.2) end.
Fixpoint spec_allows (os : list (op (T := T))) a : bool :=
  match os with [] => true | o :: os' => spec_allowed o a && spec_allows os' (spec_exec o a).2 end.
Lemma refines_all os q : valid q -> spec_allows os (abs q) = true -> wp (exec_all os) (fun rs q' => valid q' /\ spec_all os (abs q) = (rs, abs q')) q.
Proof.
  revert q. induction os as [|o os IH]; intros q Hv Ha; cbn [exec_all spec_all spec_allows] in *; [by wp_step|].
  apply andb_true_iff in Ha as [H1 H2]. wp_step. eapply wp_mono; [by apply refines_op|]. cbn beta. intros r q1 (Hv1 & E1). rewrite E1 in H2 |- *.
  wp_step. eapply wp_mono; [by apply IH|]. cbn beta. intros rs q2 (Hv2 & E2). wp_step. cbn in E2 |- *. by rewrite E2.
Qed.
End QueueSpec.


