(* ===== verification/HandleTable.v ===== *)
(** [Kernel::HandleTable] (src/.../core/hle/kernel/handle_table.{h,cpp}): the
    per-process table from 32-bit handles to kernel objects. A handle is a slot
    (bits 15 and up) and the generation the slot had when the handle was made;
    the generations of free slots form the linked list of free slots. *)

From S2P Require Import Prelude ResultCode.

(** A [shared_ptr<Object>] is the identity of the object it owns. *)
Definition oid := Z.
Definition Handle := Z.

(** [enum KernelHandle] *)
Definition CurrentThread : Handle := 0xFFFF8000.
Definition CurrentProcess : Handle := 0xFFFF8001.

Definition MAX_COUNT : nat := Z.to_nat 4096.

Definition GetSlot (handle : Handle) : Z := u16 (Z.shiftr handle 15).
Definition GetGeneration (handle : Handle) : Z := u16 (Z.land handle 0x7FFF).

Record HandleTable := mkHandleTable {
  objects : list (option oid);
  generations : list Z;
  next_generation : Z;
  next_free_slot : Z;
}.
#[export] Instance eta_HandleTable : Eta HandleTable := fun t =>
  mkHandleTable (objects t) (generations t) (next_generation t) (next_free_slot t).

(** Loop [for (u16 i = 0; i < MAX_COUNT; ++i)] of [Clear]: it rewrites both
    arrays; [next_generation] keeps its value. *)
Definition Clear : M HandleTable unit := modify (fun t =>
  t <| generations := (fun i => u16 (i + 1)) <$> seqZ 0 (Z.of_nat MAX_COUNT) |>
    <| objects := replicate MAX_COUNT None |>
    <| next_free_slot := 0 |>).

(** [HandleTable::HandleTable]: [next_generation = 1; Clear();] *)
Definition new_HandleTable : HandleTable :=
  mkHandleTable (replicate MAX_COUNT None) ((fun i => u16 (i + 1)) <$> seqZ 0 (Z.of_nat MAX_COUNT)) 1 0.

Definition Create (obj : oid) : M HandleTable (ResultVal Handle) := fun t =>
  let slot := next_free_slot t in
  if Z.of_nat (length (generations t)) <=? slot then Ret (Failure ERR_OUT_OF_HANDLES, t)
  else
    match generations t !! Z.to_nat slot with
    | None => Crash UndefinedBehaviour
    | Some next_free =>
      let generation := next_generation t in
      let ng := u16 (generation + 1) in
      let ng := if Z.shiftl 1 15 <=? ng then 1 else ng in
      let handle := u32 (Z.lor generation (Z.shiftl slot 15)) in
      Ret (Success handle,
           t <| next_free_slot := next_free |>
             <| next_generation := ng |>
             <| generations ::= <[Z.to_nat slot := generation]> |>
             <| objects ::= <[Z.to_nat slot := Some obj]> |>)
    end.

(** [slot < MAX_COUNT && objects[slot] != nullptr && generations[slot] == generation] *)
Definition IsValid (handle : Handle) (t : HandleTable) : bool :=
  let slot := GetSlot handle in
  let generation := GetGeneration handle in
  (slot <? Z.of_nat MAX_COUNT) &&
  match objects t !! Z.to_nat slot with Some (Some _) => true | _ => false end &&
  match generations t !! Z.to_nat slot with Some g => g =? generation | None => false end.

(** [GetGeneric]: the two pseudo handles name the running thread and process of
    the kernel the table belongs to. *)
Definition GetGeneric (current_thread current_process : option oid) (handle : Handle)
    (t : HandleTable) : option oid :=
  if handle =? CurrentThread then current_thread
  else if handle =? CurrentProcess then current_process
  else if negb (IsValid handle t) then None
  else match objects t !! Z.to_nat (GetSlot handle) with Some o => o | None => None end.

Definition Duplicate (current_thread current_process : option oid) (handle : Handle)
    : M HandleTable (ResultVal Handle) := fun t =>
  match GetGeneric current_thread current_process handle t with
  | None => Ret (Failure ERR_INVALID_HANDLE, t)
  | Some object => Create object t
  end.

Definition Close (handle : Handle) : M HandleTable result_code := fun t =>
  if negb (IsValid handle t) then Ret (ERR_INVALID_HANDLE, t)
  else
    let slot := GetSlot handle in
    Ret (RESULT_SUCCESS,
         t <| objects ::= <[Z.to_nat slot := None]> |>
           <| generations ::= <[Z.to_nat slot := next_free_slot t]> |>
           <| next_free_slot := slot |>).

(** ** Well-formedness: [free] lists the free slots in the order they are reused. *)

Fixpoint free_chain (gens : list Z) (p : Z) (free : list Z) : Prop :=
  match free with
  | [] => p = 4096
  | s :: free' => p = s /\ exists p', gens !! Z.to_nat s = Some p' /\ free_chain gens p' free'
  end.

Record wf (t : HandleTable) (free : list Z) : Prop := {
  wf_objects : length (objects t) = MAX_COUNT;
  wf_generations : length (generations t) = MAX_COUNT;
  wf_chain : free_chain (generations t) (next_free_slot t) free;
  wf_nodup : NoDup free;
  wf_free : forall s, s ∈ free <-> 0 <= s < 4096 /\ objects t !! Z.to_nat s = Some None;
  wf_next : 1 <= next_generation t < 32768;
  wf_live : forall s o g, objects t !! s = Some (Some o) -> generations t !! s = Some g -> 1 <= g < 32768;
}.
Definition valid (t : HandleTable) : Prop := exists free, wf t free.

(** The object a handle made by [Create] denotes. *)
Definition lookup_handle (h : Handle) (t : HandleTable) : option oid := GetGeneric None None h t.

(** What a process can do to its table; the second argument counts the handles made. *)
Inductive step (t : HandleTable) : Z -> HandleTable -> Prop :=
| step_create o h t' : Create o t = Ret (Success h, t') -> step t 1 t'
| step_create_fail o c t' : Create o t = Ret (Failure c, t') -> step t 0 t'
| step_duplicate ct cp h h' t' : Duplicate ct cp h t = Ret (Success h', t') -> step t 1 t'
| step_duplicate_fail ct cp h c t' : Duplicate ct cp h t = Ret (Failure c, t') -> step t 0 t'
| step_close h c t' : Close h t = Ret (c, t') -> step t 0 t'.
Inductive steps : HandleTable -> Z -> HandleTable -> Prop :=
| steps_refl t : steps t 0 t
| steps_step t n t' m t'' : step t n t' -> steps t' m t'' -> steps t (n + m) t''.

(** ** Lemmas *)

Lemma MAX_COUNT_Z : Z.of_nat MAX_COUNT = 4096.
Proof. unfold MAX_COUNT. lia. Qed.
#[global] Opaque MAX_COUNT.

Lemma handle_sum g s : 0 <= g < 32768 -> 0 <= s -> Z.lor g (Z.shiftl s 15) = g + s * 32768.
Proof.
  intros Hg Hs. rewrite Z.shiftl_mul_pow2 by lia. change (2 ^ 15) with 32768.
  rewrite Z.add_nocarry_lor; [done|].
  apply Z.bits_inj'. intros n Hn. rewrite Z.land_spec, Z.bits_0.
  destruct (Z.ltb_spec n 15).
  - change 32768 with (2 ^ 15). rewrite Z.mul_pow2_bits_low by lia. by rewrite andb_false_r.
  - rewrite <- (Z.mod_small g (2 ^ 15)) by lia. by rewrite Z.mod_pow2_bits_high by lia.
Qed.

Lemma GetSlot_sum h : is_u32 h -> GetSlot h = (h / 32768) mod 65536.
Proof. intros. unfold GetSlot, u16. by rewrite Z.shiftr_div_pow2 by lia. Qed.
Lemma GetGeneration_mod h : GetGeneration h = h mod 32768.
Proof.
  unfold GetGeneration, u16. change 0x7FFF with (Z.ones 15). rewrite Z.land_ones by lia.
  change (2 ^ 15) with 32768. apply Z.mod_small. pose proof (Z.mod_pos_bound h 32768). lia.
Qed.

(** The handle made for slot [s] at generation [g] decodes to them. *)
Definition make_handle (g s : Z) : Handle := u32 (Z.lor g (Z.shiftl s 15)).
Lemma make_handle_eq g s : 0 <= g < 32768 -> 0 <= s < 4096 -> make_handle g s = g + s * 32768.
Proof. intros. unfold make_handle. rewrite handle_sum by lia. apply u32_small. word. Qed.
Lemma GetSlot_make g s : 0 <= g < 32768 -> 0 <= s < 4096 -> GetSlot (make_handle g s) = s.
Proof. intros. rewrite make_handle_eq by lia. rewrite GetSlot_sum by word. word. Qed.
Lemma GetGeneration_make g s : 0 <= g < 32768 -> 0 <= s < 4096 -> GetGeneration (make_handle g s) = g.
Proof. intros. rewrite make_handle_eq, GetGeneration_mod by lia. word. Qed.
Lemma make_handle_not_pseudo g s : 0 <= g < 32768 -> 0 <= s < 4096 ->
  make_handle g s <> CurrentThread /\ make_handle g s <> CurrentProcess.
Proof. intros. rewrite make_handle_eq by lia. unfold CurrentThread, CurrentProcess. lia. Qed.

Lemma IsValid_spec h t :
  IsValid h t = true <->
  GetSlot h < 4096 /\ (exists o, objects t !! Z.to_nat (GetSlot h) = Some (Some o)) /\
  generations t !! Z.to_nat (GetSlot h) = Some (GetGeneration h).
Proof.
  unfold IsValid. rewrite MAX_COUNT_Z, !andb_true_iff, Z.ltb_lt.
  destruct (objects t !! _) as [[o|]|]; destruct (generations t !! _) as [g|]; rewrite ?Z.eqb_eq; naive_solver.
Qed.

Lemma GetSlot_nonneg h : 0 <= GetSlot h.
Proof. unfold GetSlot. word. Qed.

(** Two arrays updated at one slot. *)
Lemma lookup_slot_insert {A} (l : list A) i j x :
  length l = MAX_COUNT -> 0 <= i < 4096 -> 0 <= j ->
  <[Z.to_nat i := x]> l !! Z.to_nat j = if bool_decide (i = j) then Some x else l !! Z.to_nat j.
Proof.
  intros Hl Hi Hj. pose proof MAX_COUNT_Z. case_bool.
  - subst. apply list_lookup_insert_eq. lia.
  - apply list_lookup_insert_ne. lia.
Qed.

Lemma free_chain_insert gens p free s g :
  s ∉ free -> 0 <= s -> (forall x, x ∈ free -> 0 <= x) ->
  free_chain gens p free -> free_chain (<[Z.to_nat s := g]> gens) p free.
Proof.
  revert p. induction free as [|x free IH]; intros p Hs H0 Hpos; cbn; [done|].
  intros [-> (p' & Hx & Hch)]. split; [done|]. exists p'.
  assert (0 <= x) by (apply Hpos; set_solver).
  rewrite list_lookup_insert_ne by (intros ?%Z2Nat.inj; set_solver).
  split; [done|]. apply IH; set_solver.
Qed.

Lemma wf_free_head t s free :
  wf t (s :: free) -> 0 <= s < 4096 /\ next_free_slot t = s /\ objects t !! Z.to_nat s = Some None /\
  exists p, generations t !! Z.to_nat s = Some p /\ free_chain (generations t) p free.
Proof.
  intros Hwf. destruct (wf_chain _ _ Hwf) as [Hn Hp].
  assert (Hs : s ∈ s :: free) by set_solver.
  apply (wf_free _ _ Hwf) in Hs as [??]. auto.
Qed.

Definition created (t : HandleTable) (s p : Z) (o : oid) : HandleTable :=
  mkHandleTable (<[Z.to_nat s := Some o]> (objects t)) (<[Z.to_nat s := next_generation t]> (generations t))
    (next_generation t mod 32767 + 1) p.

Lemma next_generation_step g :
  1 <= g < 32768 -> (let ng := u16 (g + 1) in if Z.shiftl 1 15 <=? ng then 1 else ng) = g mod 32767 + 1.
Proof.
  intros. cbn zeta. change (Z.shiftl 1 15) with 32768. rewrite u16_small by word.
  case_bool; word.
Qed.

Lemma Create_some t s free o :
  wf t (s :: free) ->
  exists p, Create o t = Ret (Success (make_handle (next_generation t) s), created t s p o) /\
    wf (created t s p o) free.
Proof.
  intros Hwf. destruct (wf_free_head _ _ _ Hwf) as (Hs & Hn & Ho & p & Hp & Hch).
  exists p. unfold Create. rewrite Hn.
  pose proof (wf_generations _ _ Hwf) as Hlg. pose proof (wf_objects _ _ Hwf) as Hlo. pose proof MAX_COUNT_Z.
  destruct (Z.leb_spec (Z.of_nat (length (generations t))) s) as [Hge|_]; [rewrite Hlg in Hge; lia|].
  rewrite Hp. pose proof (next_generation_step _ (wf_next _ _ Hwf)) as Hng. cbn zeta in Hng. rewrite Hng.
  split; [done|]. pose proof (wf_nodup _ _ Hwf) as [Hnin Hnd]%NoDup_cons.
  assert (Hpos : forall x, x ∈ s :: free -> 0 <= x) by (intros x Hx; apply (wf_free _ _ Hwf) in Hx; lia).
  split; cbn.
  - by rewrite length_insert.
  - by rewrite length_insert.
  - apply free_chain_insert; [done|lia| |done]. intros x Hx. apply Hpos. by constructor.
  - done.
  - intros x. pose proof (wf_free _ _ Hwf x) as Hf. split.
    + intros Hx. assert (x ∈ s :: free) as [Hb Hxo]%Hf by by (by constructor). split; [done|].
      rewrite lookup_slot_insert by (done || lia). case_bool; [by subst|done].
    + intros [Hb Hxo]. rewrite lookup_slot_insert in Hxo by (done || lia).
      destruct (decide (s = x)) as [->|]; [by rewrite bool_decide_eq_true_2 in Hxo|].
      rewrite bool_decide_eq_false_2 in Hxo by done.
      assert (x ∈ s :: free) as [->|?]%elem_of_cons by (by apply Hf); done.
  - pose proof (wf_next _ _ Hwf). word.
  - intros i o' g' Hio Hig.
    apply lookup_insert_cases in Hio as [(<- & _ & _)|(Hne & Hio)];
      apply lookup_insert_cases in Hig as [(? & -> & _)|(Hne' & Hig)]; try congruence.
    + apply Hwf.
    + by eapply wf_live.
Qed.

Lemma Create_none t o : wf t [] -> Create o t = Ret (Failure ERR_OUT_OF_HANDLES, t).
Proof.
  intros Hwf. unfold Create. pose proof (wf_chain _ _ Hwf) as Hc. cbn in Hc. rewrite Hc.
  rewrite (wf_generations _ _ Hwf), MAX_COUNT_Z. done.
Qed.

Definition closed (t : HandleTable) (s : Z) : HandleTable :=
  mkHandleTable (<[Z.to_nat s := None]> (objects t)) (<[Z.to_nat s := next_free_slot t]> (generations t))
    (next_generation t) s.

Lemma Close_some t free h :
  wf t free -> IsValid h t = true ->
  Close h t = Ret (RESULT_SUCCESS, closed t (GetSlot h)) /\ wf (closed t (GetSlot h)) (GetSlot h :: free).
Proof.
  intros Hwf Hv. unfold Close. rewrite Hv. split; [done|].
  apply IsValid_spec in Hv as (Hs & [o Ho] & Hg). set (s := GetSlot h) in *.
  pose proof (GetSlot_nonneg h) as H0. fold s in H0.
  pose proof (wf_objects _ _ Hwf) as Hlo. pose proof (wf_generations _ _ Hwf) as Hlg. pose proof MAX_COUNT_Z.
  assert (Hnin : s ∉ free) by (intros [_ Hx]%(wf_free _ _ Hwf); congruence).
  assert (Hpos : forall x, x ∈ free -> 0 <= x) by (intros x Hx; apply (wf_free _ _ Hwf) in Hx; lia).
  split; cbn.
  - by rewrite length_insert.
  - by rewrite length_insert.
  - split; [done|]. exists (next_free_slot t). rewrite lookup_slot_insert by (done || lia).
    rewrite bool_decide_eq_true_2 by done. split; [done|]. apply free_chain_insert; [done..|apply Hwf].
  - constructor; [done|apply Hwf].
  - intros x. rewrite elem_of_cons, (wf_free _ _ Hwf). split.
    + intros [->|[Hb Hx]]; (split; [lia|]); rewrite lookup_slot_insert by (done || lia); by case_bool.
    + intros [Hb Hx]. rewrite lookup_slot_insert in Hx by (done || lia).
      destruct (decide (s = x)) as [->|]; [auto|]. rewrite bool_decide_eq_false_2 in Hx by done. auto.
  - apply Hwf.
  - intros i o' g' Hio Hig.
    apply lookup_insert_cases in Hio as [(<- & ? & _)|(Hne & Hio)]; [done|].
    apply lookup_insert_cases in Hig as [(? & -> & _)|(Hne' & Hig)]; [done|].
    by eapply wf_live.
Qed.

Lemma new_HandleTable_wf : wf new_HandleTable (seqZ 0 4096).
Proof.
  pose proof MAX_COUNT_Z as HM.
  assert (Hg : forall s, 0 <= s < 4096 -> generations new_HandleTable !! Z.to_nat s = Some (s + 1)).
  { intros s Hs. cbn. rewrite list_lookup_fmap, HM.
    rewrite (proj2 (lookup_seqZ 0 4096 (Z.to_nat s) s)) by lia. cbn. f_equal. apply u16_small. word. }
  split; cbn.
  - apply length_replicate.
  - rewrite length_fmap, length_seqZ. lia.
  - assert (Hch : forall n p, (0 <= p) -> Z.of_nat n + p = 4096 ->
      free_chain (generations new_HandleTable) p (seqZ p (Z.of_nat n))).
    { induction n as [|n IH]; intros p Hp Hn.
      { rewrite seqZ_nil by lia. cbn [free_chain]. lia. }
      rewrite seqZ_cons by lia. cbn [free_chain]. split; [done|].
      exists (p + 1). split; [apply Hg; lia|].
      replace (Z.pred (Z.of_nat (S n))) with (Z.of_nat n) by lia.
      replace (Z.succ p) with (p + 1) by lia. apply IH; lia. }
    pose proof (Hch MAX_COUNT 0) as H0. rewrite MAX_COUNT_Z in H0. apply H0; lia.
  - apply NoDup_seqZ.
  - intros s. rewrite elem_of_seqZ. split.
    + intros Hs. split; [lia|]. apply lookup_replicate_2. lia.
    + intros [Hs _]. lia.
  - lia.
  - intros s o g [? _]%lookup_replicate. done.
Qed.

Lemma valid_cases t : valid t -> wf t [] \/ exists s free, wf t (s :: free).
Proof. intros [[|s free] Hwf]; eauto. Qed.

Lemma wf_valid t free : wf t free -> valid t.
Proof. by exists free. Qed.

(** How the three outcomes of a step change the table. *)
Lemma step_cases t n t' :
  valid t -> step t n t' ->
  valid t' /\
  (n = 0 /\ t' = t \/
   n = 1 /\ (exists s p o, 0 <= s < 4096 /\ t' = created t s p o) \/
   n = 0 /\ (exists s, 0 <= s < 4096 /\ t' = closed t s)).
Proof.
  assert (Hcreate : forall o r t1, valid t -> Create o t = Ret (r, t1) ->
    match r with Success _ => valid t1 /\ exists s p o, 0 <= s < 4096 /\ t1 = created t s p o | Failure _ => t1 = t end).
  { intros o r t1 [Hwf|(s & free & Hwf)]%valid_cases Hc.
    - rewrite (Create_none _ o Hwf) in Hc. by simplify_eq.
    - destruct (Create_some _ _ _ o Hwf) as (p & Heq & Hwf'). rewrite Heq in Hc. simplify_eq.
      split; [by eapply wf_valid|]. exists s, p, o. split; [|done]. by apply wf_free_head in Hwf as [? _]. }
  assert (Hdup : forall ct cp h r t1, valid t -> Duplicate ct cp h t = Ret (r, t1) ->
    match r with Success _ => valid t1 /\ exists s p o, 0 <= s < 4096 /\ t1 = created t s p o | Failure _ => t1 = t end).
  { intros ct cp h r t1 Hv. unfold Duplicate. case_match; [by apply Hcreate|]. intros. by simplify_eq. }
  intros Hv Hs. destruct Hs as [? ? ? Hc|? ? ? Hc|? ? ? ? ? Hc|? ? ? ? ? Hc|h c t' Hc].
  - destruct (Hcreate _ _ _ Hv Hc). auto 10.
  - assert (t' = t) as -> by exact (Hcreate _ _ _ Hv Hc). split; [done|]. by left.
  - destruct (Hdup _ _ _ _ _ Hv Hc). auto 10.
  - assert (t' = t) as -> by exact (Hdup _ _ _ _ _ Hv Hc). split; [done|]. by left.
  - destruct (IsValid h t) eqn:Hh; [|unfold Close in Hc; rewrite Hh in Hc; cbn in Hc; assert (t' = t) as -> by congruence; split; [done|by left]].
    destruct Hv as [free Hwf]. destruct (Close_some _ _ _ Hwf Hh) as [Heq Hwf']. rewrite Heq in Hc. simplify_eq.
    split; [by eapply wf_valid|]. right; right. split; [done|]. exists (GetSlot h). split; [|done].
    apply IsValid_spec in Hh as [? _]. pose proof (GetSlot_nonneg h). lia.
Qed.

Lemma GetGeneric_make ct cp g s t :
  0 <= g < 32768 -> 0 <= s < 4096 ->
  GetGeneric ct cp (make_handle g s) t =
    match objects t !! Z.to_nat s with
    | Some (Some o) => if bool_decide (generations t !! Z.to_nat s = Some g) then Some o else None
    | _ => None
    end.
Proof.
  intros Hg Hs. unfold GetGeneric. destruct (make_handle_not_pseudo g s Hg Hs) as [Ht Hp].
  rewrite (proj2 (Z.eqb_neq _ _) Ht), (proj2 (Z.eqb_neq _ _) Hp).
  unfold IsValid. rewrite GetSlot_make, GetGeneration_make, MAX_COUNT_Z by lia.
  rewrite (proj2 (Z.ltb_lt _ _)) by lia.
  destruct (objects t !! Z.to_nat s) as [[o|]|], (generations t !! Z.to_nat s) as [x|]; try done.
  cbn. destruct (Z.eqb_spec x g) as [->|Hne]; cbn; [by rewrite bool_decide_eq_true_2|].
  rewrite bool_decide_eq_false_2; congruence.
Qed.

(** Between the creation of a handle with generation [g] and the [k]-th later
    creation, the handle's slot is empty, has another generation, or holds [o]. *)
Definition owns (g s k : Z) (o : oid) (t : HandleTable) : Prop :=
  next_generation t = (g + k) mod 32767 + 1 /\
  forall o', objects t !! Z.to_nat s = Some (Some o') -> generations t !! Z.to_nat s = Some g -> o' = o.

Lemma owns_step g s k o t n t' :
  1 <= g < 32768 -> 0 <= s < 4096 -> 0 <= k -> k + n < 32767 ->
  valid t -> owns g s k o t -> step t n t' -> valid t' /\ 0 <= n /\ owns g s (k + n) o t'.
Proof.
  intros Hg Hs Hk Hn Hv [Hng Ho] Hst. destruct Hv as [free Hwf].
  pose proof (wf_objects _ _ Hwf) as Hlo. pose proof (wf_generations _ _ Hwf) as Hlg.
  assert (Hv : valid t) by (by eapply wf_valid).
  destruct (step_cases _ _ _ Hv Hst) as [Hv' [[-> ->]|[(-> & s' & p & o' & Hs' & ->)|(-> & s' & Hs' & ->)]]];
    (split; [done|]; split; [lia|]); rewrite ?Z.add_0_r; [done|..]; unfold owns; cbn.
  - split; [rewrite Hng; word|]. intros o1. rewrite !lookup_slot_insert by (assumption || lia).
    case_bool; [|apply Ho]. intros _ [= Heq]. exfalso. rewrite Heq in Hng. clear -Hng Hg Hk Hn. word.
  - split; [done|]. intros o1. rewrite !lookup_slot_insert by (assumption || lia).
    case_bool; [done|apply Ho].
Qed.

Lemma owns_steps g s o t n t' :
  steps t n t' -> forall k, 1 <= g < 32768 -> 0 <= s < 4096 -> 0 <= k -> k + n < 32767 ->
  valid t -> owns g s k o t -> valid t' /\ owns g s (k + n) o t'.
Proof.
  assert (Hpos : forall t n t', steps t n t' -> 0 <= n).
  { induction 1 as [|? n1 ? m ? Hst]; [lia|]. destruct Hst; lia. }
  induction 1 as [t|t n t1 m t2 Hst Hsts IH]; intros k Hg Hs Hk Hlt Hv Ho; [by rewrite Z.add_0_r|].
  pose proof (Hpos _ _ _ Hsts).
  destruct (owns_step g s k o t n t1) as (Hv1 & Hn & Ho1); [done..|lia|done|done|done|].
  rewrite Z.add_assoc. apply IH; (done || lia).
Qed.

Lemma owns_created t s free p o :
  wf t (s :: free) -> owns (next_generation t) s 0 o (created t s p o).
Proof.
  intros Hwf. destruct (wf_free_head _ _ _ Hwf) as (Hs & _).
  split; [by rewrite Z.add_0_r|]. cbn [objects generations created]. intros o'. rewrite lookup_slot_insert by (solve [lia | by apply Hwf]). case_bool; congruence.
Qed.

(** A create and a close of the head of the free list, [n] times. *)
Lemma churn n t s free (o : oid) :
  wf t (s :: free) -> exists t', steps t (Z.of_nat n) t' /\ wf t' (s :: free) /\
    next_generation t' = (next_generation t - 1 + Z.of_nat n) mod 32767 + 1.
Proof.
  revert t. induction n as [|n IH]; intros t Hwf.
  { exists t. pose proof (wf_next _ _ Hwf). change (Z.of_nat 0) with 0. split; [apply steps_refl|split; [done|word]]. }
  destruct (Create_some _ _ _ o Hwf) as (p & Hc & Hwf1).
  destruct (wf_free_head _ _ _ Hwf) as (Hs & _ & Ho & _). pose proof (wf_next _ _ Hwf) as Hng.
  set (h := make_handle (next_generation t) s) in *.
  assert (Hh : IsValid h (created t s p o) = true).
  { apply IsValid_spec. unfold h. rewrite GetSlot_make, GetGeneration_make by lia. split; [lia|]. cbn.
    rewrite !lookup_slot_insert by (solve [lia | by apply Hwf]). rewrite bool_decide_eq_true_2 by done. eauto. }
  destruct (Close_some _ _ _ Hwf1 Hh) as [Hcl Hwf2]. unfold h in Hcl, Hwf2. rewrite GetSlot_make in Hcl, Hwf2 by lia.
  destruct (IH _ Hwf2) as (t' & Hsteps & Hwf' & Hn). exists t'. split.
  - replace (Z.of_nat (S n)) with (1 + (0 + Z.of_nat n)) by lia.
    econstructor; [by eapply step_create|]. econstructor; [by eapply step_close|done].
  - split; [done|]. rewrite Hn. cbn [next_generation closed created]. word.
Qed.

Lemma steps_app t n t1 m t2 : steps t n t1 -> steps t1 m t2 -> steps t (n + m) t2.
Proof.
  induction 1 as [|? ? ? ? ? ? ? IH]; intros H2; [done|].
  rewrite <- Z.add_assoc. econstructor; [done|by apply IH].
Qed.

(** ** Correctness *)

(** Creating a handle in a valid table either returns ERR_OUT_OF_HANDLES and
    changes nothing, exactly when all 4096 slots hold an object, or returns a
    handle below 2^27 (so never one of the two pseudo handles) that was not valid
    before, that now denotes the object, and that leaves what every valid handle
    denotes as it was. *)
Theorem Create_spec (t : HandleTable) (o : oid) (H : valid t) :
  wp (Create o) (fun r t' =>
    valid t' /\
    match r with
    | Failure c => c = ERR_OUT_OF_HANDLES /\ t' = t /\ (forall s, (s < MAX_COUNT)%nat -> exists o', objects t !! s = Some (Some o'))
    | Success h =>
        0 <= h < 2 ^ 27 /\ (exists s, (s < MAX_COUNT)%nat /\ objects t !! s = Some None) /\
        IsValid h t = false /\
        forall ct cp, GetGeneric ct cp h t' = Some o /\
          (forall h', IsValid h' t = true -> GetGeneric ct cp h' t' = GetGeneric ct cp h' t)
    end) t.
Proof.
  pose proof MAX_COUNT_Z. apply valid_cases in H as [Hwf|(s & free & Hwf)].
  - eapply wp_intro; [by apply Create_none|]. split; [by eapply wf_valid|]. repeat split.
    intros s Hs. destruct (lookup_lt_is_Some_2 (objects t) s) as [[o'|] Ho]; [by rewrite (wf_objects _ _ Hwf)|eauto|].
    assert (Z.of_nat s ∈ []) as []%not_elem_of_nil.
    apply (wf_free _ _ Hwf). rewrite Nat2Z.id. split; [lia|done].
  - destruct (Create_some _ _ _ o Hwf) as (p & Hc & Hwf'). eapply wp_intro; [done|].
    destruct (wf_free_head _ _ _ Hwf) as (Hs & _ & Ho & _). pose proof (wf_next _ _ Hwf).
    pose proof (wf_objects _ _ Hwf) as Hlo. pose proof (wf_generations _ _ Hwf) as Hlg.
    split; [by eapply wf_valid|]. split; [rewrite make_handle_eq by lia; lia|].
    split; [exists (Z.to_nat s); split; [lia|done]|]. split.
    { apply not_true_is_false. intros (_ & [o' Ho'] & _)%IsValid_spec.
      rewrite GetSlot_make in Ho' by lia. congruence. }
    intros ct cp. split.
    { rewrite GetGeneric_make by lia. cbn. rewrite !lookup_slot_insert by (assumption || lia).
      rewrite bool_decide_eq_true_2 by done. by rewrite bool_decide_eq_true_2. }
    intros h' Hh'. unfold GetGeneric. destruct (h' =? CurrentThread), (h' =? CurrentProcess); [done..|].
    pose proof (GetSlot_nonneg h'). apply IsValid_spec in Hh' as Hx. destruct Hx as (Hlt & [o' Ho'] & Hg').
    assert (Hne : s <> GetSlot h') by congruence.
    unfold IsValid. cbn. rewrite !lookup_slot_insert by (assumption || lia). by rewrite bool_decide_eq_false_2.
Qed.

(** Closing a valid handle frees it and leaves what the handles of the other
    slots denote as it was; closing any other handle changes nothing and returns
    ERR_INVALID_HANDLE. *)
Theorem Close_spec (t : HandleTable) (h : Handle) (H : valid t) :
  wp (Close h) (fun c t' =>
    valid t' /\
    if IsValid h t then
      c = RESULT_SUCCESS /\ IsValid h t' = false /\
      forall ct cp h', GetSlot h' <> GetSlot h -> GetGeneric ct cp h' t' = GetGeneric ct cp h' t
    else c = ERR_INVALID_HANDLE /\ t' = t) t.
Proof.
  destruct (IsValid h t) eqn:Hv.
  - destruct H as [free Hwf]. destruct (Close_some _ _ _ Hwf Hv) as [Hc Hwf']. eapply wp_intro; [done|].
    pose proof (wf_objects _ _ Hwf) as Hlo. pose proof (wf_generations _ _ Hwf) as Hlg.
    apply IsValid_spec in Hv as (Hs & _). pose proof (GetSlot_nonneg h).
    split; [by eapply wf_valid|]. split; [done|]. split.
    + apply not_true_is_false. intros (_ & [o' Ho'] & _)%IsValid_spec. cbn in Ho'.
      rewrite lookup_slot_insert, bool_decide_eq_true_2 in Ho' by (assumption || lia). done.
    + intros ct cp h' Hne. pose proof (GetSlot_nonneg h').
      unfold GetGeneric, IsValid. cbn. rewrite !lookup_slot_insert by (assumption || lia).
      by rewrite bool_decide_eq_false_2 by congruence.
  - unfold wp, Close. rewrite Hv. done.
Qed.

(** C36: a handle never comes to denote another object while fewer than 32767
    handles are made after it, whatever the table's users create, duplicate and
    close; and the bound is exact: one more creation can make the same handle
    denote any other object. *)
Theorem no_handle_reuse (t t1 : HandleTable) (o : oid) (h : Handle)
    (H : valid t) (Hc : Create o t = Ret (Success h, t1)) :
  (forall n t2, steps t1 n t2 -> n < 32767 ->
     valid t2 /\ (GetGeneric None None h t2 = None \/ GetGeneric None None h t2 = Some o)) /\
  (forall o', exists t2, steps t1 32767 t2 /\ GetGeneric None None h t2 = Some o').
Proof.
  apply valid_cases in H as [Hwf|(s & free & Hwf)]; [by rewrite (Create_none _ o Hwf) in Hc|].
  destruct (Create_some _ _ _ o Hwf) as (p & Heq & Hwf1). rewrite Heq in Hc. simplify_eq.
  destruct (wf_free_head _ _ _ Hwf) as (Hs & _ & Ho & _). pose proof (wf_next _ _ Hwf) as Hng. split.
  - intros n t2 Hst Hn.
    destruct (owns_steps (next_generation t) s o _ n t2 Hst 0) as [Hv2 [_ Ho2]];
      [lia..|by eapply wf_valid|by eapply owns_created|].
    split; [done|]. rewrite GetGeneric_make by lia.
    destruct (objects t2 !! Z.to_nat s) as [[o2|]|] eqn:Ho2'; [|auto..].
    case_bool; [right; f_equal; auto|auto].
  - intros o'. set (h := make_handle (next_generation t) s).
    assert (Hh : IsValid h (created t s p o) = true).
    { apply IsValid_spec. unfold h. rewrite GetSlot_make, GetGeneration_make by lia. split; [lia|]. cbn.
      rewrite !lookup_slot_insert by (solve [lia | by apply Hwf]). rewrite bool_decide_eq_true_2 by done. eauto. }
    destruct (Close_some _ _ _ Hwf1 Hh) as [Hcl Hwf2]. unfold h in Hcl, Hwf2. rewrite GetSlot_make in Hcl, Hwf2 by lia.
    destruct (churn (Z.to_nat 32766) _ _ _ 0 Hwf2) as (t3 & Hst & Hwf3 & Hg3).
    rewrite Z2Nat.id in Hst, Hg3 by lia. cbn [next_generation closed created] in Hg3.
    assert (Hg3' : next_generation t3 = next_generation t) by (clear -Hg3 Hng; word).
    destruct (Create_some _ _ _ o' Hwf3) as (p3 & Hc3 & Hwf4).
    exists (created t3 s p3 o'). split.
    + replace 32767 with (0 + (32766 + (1 + 0))) by lia.
      econstructor; [by eapply step_close|]. eapply steps_app; [done|].
      econstructor; [by eapply step_create|constructor].
    + unfold h. rewrite GetGeneric_make by lia. cbn. rewrite !lookup_slot_insert by (solve [lia | by apply Hwf3]).
      rewrite bool_decide_eq_true_2 by done. rewrite Hg3'. by rewrite bool_decide_eq_true_2.
Qed.

(** Bit 31 of a handle is not looked at: in every table a handle and the same
    handle with its top bit set are valid together (except where the latter is a
    pseudo handle, they denote the same object), although the handle's layout
    gives the slot all the bits from 15 up. *)
Theorem handle_alias (t : HandleTable) (h : Handle) (H : 0 <= h < 2 ^ 31) :
  IsValid (h + 2 ^ 31) t = IsValid h t /\
  (h <> 0x7FFF8000 -> h <> 0x7FFF8001 ->
   forall ct cp, GetGeneric ct cp (h + 2 ^ 31) t = GetGeneric ct cp h t).
Proof.
  assert (Hs : GetSlot (h + 2 ^ 31) = GetSlot h) by (rewrite !GetSlot_sum by word; word).
  assert (Hg : GetGeneration (h + 2 ^ 31) = GetGeneration h) by (rewrite !GetGeneration_mod; word).
  assert (Hv : IsValid (h + 2 ^ 31) t = IsValid h t) by (unfold IsValid; by rewrite Hs, Hg).
  split; [done|]. intros Ht Hp ct cp. unfold GetGeneric, CurrentThread, CurrentProcess. rewrite Hv, Hs.
  do 4 (case_bool; [lia|]). done.
Qed.

(** ** The theorems at work on a fresh table *)

Lemma new_valid : valid new_HandleTable.
Proof. eapply wf_valid, new_HandleTable_wf. Qed.

Lemma Create_new o : exists t, Create o new_HandleTable = Ret (Success 1, t).
Proof.
  pose proof new_HandleTable_wf as Hwf. rewrite seqZ_cons in Hwf by lia.
  destruct (Create_some new_HandleTable 0 _ o Hwf) as (p & Hc & _).
  exists (created new_HandleTable 0 p o). rewrite Hc.
  rewrite make_handle_eq; cbn [next_generation new_HandleTable]; [done|lia..].
Qed.

Lemma Create_spec_witness : valid new_HandleTable /\
  wp (Create 7) (fun r t' => forall h, r = Success h -> GetGeneric None None h t' = Some 7) new_HandleTable.
Proof.
  split; [apply new_valid|]. eapply wp_mono; [apply (Create_spec new_HandleTable 7 new_valid)|].
  intros r t' [_ Hr] h ->. destruct Hr as (_ & _ & _ & Hr). apply (Hr None None).
Defined.

Lemma Close_spec_witness : valid new_HandleTable /\
  wp (Close 1) (fun c t' => c = ERR_INVALID_HANDLE /\ t' = new_HandleTable) new_HandleTable.
Proof.
  split; [apply new_valid|]. eapply wp_mono; [apply (Close_spec new_HandleTable 1 new_valid)|].
  intros c t' [_ Hr]. exact Hr.
Defined.

Lemma no_handle_reuse_witness : exists t1, Create 7 new_HandleTable = Ret (Success 1, t1) /\
  exists t2, steps t1 32767 t2 /\ GetGeneric None None 1 t2 = Some 8.
Proof.
  destruct (Create_new 7) as [t1 Hc]. exists t1. split; [exact Hc|].
  destruct (no_handle_reuse new_HandleTable t1 7 1 new_valid Hc) as [_ Hr]. exact (Hr 8).
Defined.

Lemma handle_alias_witness : 0 <= 1 < 2 ^ 31 /\ IsValid (1 + 2 ^ 31) new_HandleTable = IsValid 1 new_HandleTable.
Proof. split; [lia|]. apply (handle_alias new_HandleTable 1). lia. Defined.
