(* ===== verification/ResourceLimit.v ===== *)
(** [Kernel::ResourceLimit] and [Kernel::ResourceLimitList]
    (src/.../core/hle/kernel/resource_limit.{h,cpp}). *)

From S2P Require Import Prelude.

(** [enum class ResourceLimitCategory : u8] *)
Inductive ResourceLimitCategory := APPLICATION | SYS_APPLET | LIB_APPLET | OTHER.
#[export] Instance ResourceLimitCategory_eq_dec : EqDecision ResourceLimitCategory.
Proof. solve_decision. Defined.
Definition category_index (c : ResourceLimitCategory) : nat :=
  match c with APPLICATION => 0 | SYS_APPLET => 1 | LIB_APPLET => 2 | OTHER => 3 end.

(** [enum ResourceTypes] *)
Module ResourceTypes.
Definition PRIORITY : Z := 0.
Definition COMMIT : Z := 1.
Definition THREAD : Z := 2.
Definition EVENT : Z := 3.
Definition MUTEX : Z := 4.
Definition SEMAPHORE : Z := 5.
Definition TIMER : Z := 6.
Definition SHARED_MEMORY : Z := 7.
Definition ADDRESS_ARBITER : Z := 8.
Definition CPU_TIME : Z := 9.
End ResourceTypes.

Record ResourceLimit := mkResourceLimit {
  name : string;
  max_priority : Z;
  max_commit : Z;
  max_threads : Z;
  max_events : Z;
  max_mutexes : Z;
  max_semaphores : Z;
  max_timers : Z;
  max_shared_mems : Z;
  max_address_arbiters : Z;
  max_cpu_time : Z;
  current_commit : Z;
  current_threads : Z;
  current_events : Z;
  current_mutexes : Z;
  current_semaphores : Z;
  current_timers : Z;
  current_shared_mems : Z;
  current_address_arbiters : Z;
  current_cpu_time : Z;
}.
#[export] Instance eta_ResourceLimit : Eta ResourceLimit := fun r =>
  mkResourceLimit (name r) (max_priority r) (max_commit r) (max_threads r) (max_events r)
    (max_mutexes r) (max_semaphores r) (max_timers r) (max_shared_mems r) (max_address_arbiters r)
    (max_cpu_time r) (current_commit r) (current_threads r) (current_events r) (current_mutexes r)
    (current_semaphores r) (current_timers r) (current_shared_mems r) (current_address_arbiters r)
    (current_cpu_time r).

(** [ResourceLimit::Create]: every limit and every use starts at 0. *)
Definition new_ResourceLimit (n : string) : ResourceLimit :=
  mkResourceLimit n 0 0 0 0 0 0 0 0 0 0 0 0 0 0 0 0 0 0 0.

(** [s32 GetCurrentResourceValue(u32)]; an unknown resource (PRIORITY among
    them) is logged and has the value 0. *)
Definition GetCurrentResourceValue (resource : Z) (r : ResourceLimit) : Z :=
  if resource =? ResourceTypes.COMMIT then current_commit r
  else if resource =? ResourceTypes.THREAD then current_threads r
  else if resource =? ResourceTypes.EVENT then current_events r
  else if resource =? ResourceTypes.MUTEX then current_mutexes r
  else if resource =? ResourceTypes.SEMAPHORE then current_semaphores r
  else if resource =? ResourceTypes.TIMER then current_timers r
  else if resource =? ResourceTypes.SHARED_MEMORY then current_shared_mems r
  else if resource =? ResourceTypes.ADDRESS_ARBITER then current_address_arbiters r
  else if resource =? ResourceTypes.CPU_TIME then current_cpu_time r
  else 0.

(** [u32 GetMaxResourceValue(u32)]: the s32 fields are converted to u32. *)
Definition GetMaxResourceValue (resource : Z) (r : ResourceLimit) : Z :=
  if resource =? ResourceTypes.PRIORITY then u32 (max_priority r)
  else if resource =? ResourceTypes.COMMIT then u32 (max_commit r)
  else if resource =? ResourceTypes.THREAD then u32 (max_threads r)
  else if resource =? ResourceTypes.EVENT then u32 (max_events r)
  else if resource =? ResourceTypes.MUTEX then u32 (max_mutexes r)
  else if resource =? ResourceTypes.SEMAPHORE then u32 (max_semaphores r)
  else if resource =? ResourceTypes.TIMER then u32 (max_timers r)
  else if resource =? ResourceTypes.SHARED_MEMORY then u32 (max_shared_mems r)
  else if resource =? ResourceTypes.ADDRESS_ARBITER then u32 (max_address_arbiters r)
  else if resource =? ResourceTypes.CPU_TIME then u32 (max_cpu_time r)
  else 0.

(** [ResourceLimitList::ResourceLimitList]: the array of the four limits. *)
Definition new_ResourceLimitList (is_new_3ds : bool) : list ResourceLimit :=
  [ (new_ResourceLimit "Applications")
      <| max_priority := 0x18 |>
      <| max_commit := if is_new_3ds then 0x7C00000 else 0x4000000 |>
      <| max_threads := 0x20 |>
      <| max_events := 0x20 |>
      <| max_mutexes := 0x20 |>
      <| max_semaphores := 0x8 |>
      <| max_timers := 0x8 |>
      <| max_shared_mems := 0x10 |>
      <| max_address_arbiters := 0x2 |>
      <| max_cpu_time := 0x0 |>;
    (new_ResourceLimit "System Applets")
      <| max_priority := 0x4 |>
      <| max_commit := if is_new_3ds then 0x5E06000 else 0x2606000 |>
      <| max_threads := if is_new_3ds then 0x1D else 0xE |>
      <| max_events := if is_new_3ds then 0xB else 0x8 |>
      <| max_mutexes := 0x8 |>
      <| max_semaphores := 0x4 |>
      <| max_timers := 0x4 |>
      <| max_shared_mems := 0x8 |>
      <| max_address_arbiters := 0x3 |>
      <| max_cpu_time := 0x2710 |>;
    (new_ResourceLimit "Library Applets")
      <| max_priority := 0x4 |>
      <| max_commit := 0x602000 |>
      <| max_threads := 0xE |>
      <| max_events := 0x8 |>
      <| max_mutexes := 0x8 |>
      <| max_semaphores := 0x4 |>
      <| max_timers := 0x4 |>
      <| max_shared_mems := 0x8 |>
      <| max_address_arbiters := 0x1 |>
      <| max_cpu_time := 0x2710 |>;
    (new_ResourceLimit "Others")
      <| max_priority := 0x4 |>
      <| max_commit := if is_new_3ds then 0x2182000 else 0x1682000 |>
      <| max_threads := if is_new_3ds then 0xE1 else 0xCA |>
      <| max_events := if is_new_3ds then 0x108 else 0xF8 |>
      <| max_mutexes := if is_new_3ds then 0x25 else 0x23 |>
      <| max_semaphores := if is_new_3ds then 0x43 else 0x40 |>
      <| max_timers := if is_new_3ds then 0x2C else 0x2B |>
      <| max_shared_mems := if is_new_3ds then 0x1F else 0x1E |>
      <| max_address_arbiters := if is_new_3ds then 0x2D else 0x2B |>
      <| max_cpu_time := 0x3E8 |> ].

(** [ResourceLimitList::GetForCategory]: the index of the limit; the switch
    covers the whole enumeration. *)
Definition GetForCategory (category : ResourceLimitCategory) (limits : list ResourceLimit)
    : option ResourceLimit := limits !! category_index category.
