(* ===== verification/IntervalSet.v ===== *)
(** The interface of [boost::icl::interval_set<u32>], which src/ does not hold:
    what the kernel's allocator relies on, as a class of operations with laws,
    and an instance (sorted lists of right-open intervals) for concrete runs. *)

From S2P Require Import Prelude.

(** A right-open interval [lower, upper). *)
Definition Interval : Type := Z * Z.

(** The points of a list of intervals. *)
Definition points (l : list Interval) : gset Z :=
  list_to_set (l ≫= fun i => seqZ i.1 (i.2 - i.1)).
#[global] Arguments points : simpl never.
(** The number of points, the intervals being disjoint. *)
Fixpoint total (l : list Interval) : Z :=
  match l with [] => 0 | i :: l' => (i.2 - i.1) + total l' end.

(** Ascending, non-empty, and apart: the joined form [interval_set] iterates over. *)
Fixpoint joined (l : list Interval) : Prop :=
  match l with
  | [] => True
  | i :: l' => i.1 < i.2 /\ (forall j, j ∈ l' -> i.2 < j.1) /\ joined l'
  end.

Class IntervalSetOps (IS : Type) := {
  is_empty : IS;
  is_list : IS -> list Interval;         (* begin() .. end() *)
  is_add : IS -> Interval -> IS;         (* s += i *)
  is_sub : IS -> Interval -> IS;         (* s -= i *)
  is_diff : IS -> IS -> IS;              (* s -= t *)
  is_contains : IS -> Interval -> bool;  (* contains(s, i) *)
  is_intersects : IS -> Interval -> bool (* intersects(s, i) *)
}.

Definition is_points `{IntervalSetOps IS} (s : IS) : gset Z := points (is_list s).

Class IntervalSetLaws (IS : Type) `{IntervalSetOps IS} := {
  is_joined s : joined (is_list s);
  is_list_empty : is_list is_empty = [];
  elem_of_is_add s i x : x ∈ is_points (is_add s i) <-> x ∈ is_points s \/ i.1 <= x < i.2;
  elem_of_is_sub s i x : x ∈ is_points (is_sub s i) <-> x ∈ is_points s /\ ~ i.1 <= x < i.2;
  elem_of_is_diff s t x : x ∈ is_points (is_diff s t) <-> x ∈ is_points s /\ x ∉ is_points t;
  is_contains_spec s i : is_contains s i = true <-> forall x, i.1 <= x < i.2 -> x ∈ is_points s;
  is_intersects_spec s i : is_intersects s i = true <-> exists x, i.1 <= x < i.2 /\ x ∈ is_points s;
}.

(** ** Lists of intervals *)

Lemma elem_of_points l x : x ∈ points l <-> exists i, i ∈ l /\ i.1 <= x < i.2.
Proof.
  unfold points. rewrite elem_of_list_to_set, list_elem_of_bind.
  split.
  - intros (i & Hx & Hi). exists i. apply elem_of_seqZ in Hx || apply elem_of_seqZ in Hi. solve [split; [done|lia]].
  - intros (i & Hi & Hx). exists i. rewrite elem_of_seqZ. solve [split; [done|lia] | split; [lia|done]].
Qed.
Lemma points_nil : points [] = ∅.
Proof. done. Qed.
Lemma points_cons i l : points (i :: l) = points [i] ∪ points l.
Proof. apply set_eq. intros x. rewrite elem_of_union, !elem_of_points. set_solver. Qed.
Lemma elem_of_points_single i x : x ∈ points [i] <-> i.1 <= x < i.2.
Proof. rewrite elem_of_points. set_solver. Qed.

Lemma size_points_single i : i.1 <= i.2 -> Z.of_nat (size (points [i])) = i.2 - i.1.
Proof.
  intros Hi. unfold points. cbn [mbind list_bind]. rewrite app_nil_r.
  rewrite size_list_to_set by apply NoDup_seqZ. rewrite length_seqZ. lia.
Qed.

Lemma joined_cons i l : joined (i :: l) -> i.1 < i.2 /\ joined l /\ points [i] ## points l.
Proof.
  intros (Hi & Hl & Hj). split; [done|]. split; [done|]. intros x.
  rewrite elem_of_points_single, elem_of_points. intros Hx (j & Hjl & Hxj). apply Hl in Hjl. lia.
Qed.

Lemma size_points l : joined l -> Z.of_nat (size (points l)) = total l.
Proof.
  induction l as [|i l IH]; intros Hj; [done|].
  apply joined_cons in Hj as (Hi & Hj & Hd). rewrite points_cons, size_union by done.
  cbn [total]. rewrite <- IH by done. rewrite Nat2Z.inj_add, size_points_single by lia. lia.
Qed.

Lemma total_nonneg l : joined l -> 0 <= total l.
Proof. intros H. rewrite <- size_points by done. lia. Qed.

Lemma joined_elem l i : joined l -> i ∈ l -> i.1 < i.2.
Proof.
  induction l as [|j l IH]; [by intros _ ?%not_elem_of_nil|].
  intros (Hj & _ & Hl) [->|Hi]%elem_of_cons; [done|by apply IH].
Qed.
Lemma total_app l k : total (l ++ k) = total l + total k.
Proof. induction l as [|i l IH]; cbn [app total]; lia. Qed.
Lemma points_app l k : points (l ++ k) = points l ∪ points k.
Proof. apply set_eq. intros x. rewrite elem_of_union, !elem_of_points. set_solver. Qed.
Lemma joined_app_inv l k :
  joined (l ++ k) -> joined l /\ joined k /\ (forall i j, i ∈ l -> j ∈ k -> i.2 < j.1).
Proof.
  induction l as [|i l IH]; [cbn; set_solver|]. intros (Hi & Hil & Hl).
  apply IH in Hl as (Hl & Hk & Hlk). split; [|split; [done|]].
  - split; [done|]. split; [|done]. intros j Hj. apply Hil. set_solver.
  - intros a b [->|Ha]%elem_of_cons Hb; [apply Hil; set_solver|by apply Hlk].
Qed.

(** A run of consecutive points of a joined list lies within one interval. *)
Lemma joined_run l a b :
  joined l -> a < b -> (forall x, a <= x < b -> x ∈ points l) ->
  exists i, i ∈ l /\ i.1 <= a /\ b <= i.2.
Proof.
  induction l as [|i l IH]; intros Hj Hab Hrun; [destruct (not_elem_of_empty (C:=gset Z) a); apply (Hrun a); lia|].
  pose proof Hj as (Hi & Hl & Hj').
  destruct (decide (a < i.2)) as [Ha|Ha].
  - exists i. split; [by constructor|]. split.
    + destruct (decide (i.1 <= a)); [done|]. exfalso.
      destruct (proj1 (elem_of_points (i :: l) a)) as (j & [->|Hjl]%elem_of_cons & Hx); [apply Hrun; lia|lia|].
      apply Hl in Hjl. lia.
    + destruct (decide (b <= i.2)); [done|]. exfalso.
      destruct (proj1 (elem_of_points (i :: l) i.2)) as (j & [->|Hjl]%elem_of_cons & Hx); [apply Hrun; lia|lia|].
      apply Hl in Hjl. lia.
  - destruct IH as (j & Hjl & Hjb); [done|done| |exists j; split; [by constructor|done]].
    intros x Hx. destruct (proj1 (elem_of_points (i :: l) x)) as (j & [->|Hjl]%elem_of_cons & Hxj); [by apply Hrun|lia|].
    apply elem_of_points. eauto.
Qed.

(** ** Facts about every interval set *)

Section Facts.
Context `{IntervalSetLaws IS}.
Implicit Types (s t : IS) (i : Interval).

Lemma is_points_empty : is_points is_empty = ∅.
Proof. unfold is_points. by rewrite is_list_empty. Qed.
Lemma is_points_add s i : is_points (is_add s i) = is_points s ∪ points [i].
Proof. apply set_eq. intros x. by rewrite elem_of_is_add, elem_of_union, elem_of_points_single. Qed.
Lemma is_points_sub s i : is_points (is_sub s i) = is_points s ∖ points [i].
Proof. apply set_eq. intros x. by rewrite elem_of_is_sub, elem_of_difference, elem_of_points_single. Qed.
Lemma is_points_diff s t : is_points (is_diff s t) = is_points s ∖ is_points t.
Proof. apply set_eq. intros x. by rewrite elem_of_is_diff, elem_of_difference. Qed.
Lemma is_contains_subseteq s i : is_contains s i = true <-> points [i] ⊆ is_points s.
Proof.
  rewrite is_contains_spec. split; intros Hs x; [rewrite elem_of_points_single; apply Hs|].
  intros Hx. apply Hs. by rewrite elem_of_points_single.
Qed.
Lemma is_intersects_false s i : is_intersects s i = false <-> points [i] ## is_points s.
Proof.
  rewrite <- not_true_iff_false, is_intersects_spec. split.
  - intros Hn x Hx%elem_of_points_single Hs. apply Hn. eauto.
  - intros Hd (x & Hx & Hs). apply (Hd x); [by apply elem_of_points_single|done].
Qed.
Lemma size_is_points s : Z.of_nat (size (is_points s)) = total (is_list s).
Proof. apply size_points, is_joined. Qed.
End Facts.

Create Rewrite HintDb ivset.
#[export] Hint Rewrite @is_points_empty @is_points_add @is_points_sub @is_points_diff using typeclasses eauto : ivset.

(** ** An instance: sorted lists *)

Module SortedList.
Fixpoint add (s : list Interval) (i : Interval) : list Interval :=
  match s with
  | [] => [i]
  | j :: s' =>
      if j.2 <? i.1 then j :: add s' i
      else if i.2 <? j.1 then i :: s
      else add s' (Z.min j.1 i.1, Z.max j.2 i.2)
  end.
Definition cut (i j : Interval) : list Interval :=
  filter (fun k : Interval => k.1 < k.2) [(j.1, Z.min j.2 i.1); (Z.max j.1 i.2, j.2)].
Definition sub (s : list Interval) (i : Interval) : list Interval :=
  if i.1 <? i.2 then s ≫= cut i else s.
Definition meets (i j : Interval) : bool := Z.max i.1 j.1 <? Z.min i.2 j.2.

Lemma add_above s i a : a < i.1 -> (forall j, j ∈ s -> a < j.1) -> forall k, k ∈ add s i -> a < k.1.
Proof.
  revert i. induction s as [|j s IH]; intros i Hi Hs k; cbn; [set_solver|].
  assert (a < j.1) by (apply Hs; by constructor).
  assert (forall j', j' ∈ s -> a < j'.1) by (intros; apply Hs; by constructor).
  repeat case_bool.
  - intros [->|Hk]%elem_of_cons; [done|]. by apply (IH i).
  - intros [->|Hk]%elem_of_cons; [done|]. by apply Hs.
  - apply IH; [cbn; lia|done].
Qed.

Lemma add_joined s i : i.1 < i.2 -> joined s -> joined (add s i).
Proof.
  revert i. induction s as [|j s IH]; intros i Hi Hj; cbn; [set_solver|].
  pose proof Hj as (Hlt & Hl & Hj'). repeat case_bool.
  - cbn. split; [done|]. split; [intros k; by apply add_above|by apply IH].
  - split; [done|]. split; [|done].
    intros k [->|Hk]%elem_of_cons; [done|]. apply Hl in Hk. lia.
  - apply IH; [cbn; lia|done].
Qed.

Lemma elem_of_add s i x : i.1 < i.2 -> joined s ->
  x ∈ points (add s i) <-> x ∈ points s \/ i.1 <= x < i.2.
Proof.
  revert i. induction s as [|j s IH]; intros i Hi Hj; cbn.
  { rewrite elem_of_points_single. set_solver. }
  pose proof Hj as (Hlt & Hl & Hj'). repeat case_bool.
  - rewrite (points_cons j), (points_cons j s), !elem_of_union, IH by done. tauto.
  - rewrite (points_cons i), elem_of_union, elem_of_points_single. tauto.
  - rewrite IH by (done || cbn; lia). rewrite (points_cons j s), elem_of_union, elem_of_points_single. cbn.
    assert (Z.min j.1 i.1 <= x < Z.max j.2 i.2 <-> j.1 <= x < j.2 \/ i.1 <= x < i.2) by lia. tauto.
Qed.

Lemma elem_of_cut i j x : x ∈ points (cut i j) <-> j.1 <= x < j.2 /\ (x < i.1 \/ i.2 <= x).
Proof.
  rewrite elem_of_points. unfold cut. split.
  - intros (k & Hk & Hx). apply list_elem_of_filter in Hk as [_ Hk].
    repeat (apply elem_of_cons in Hk as [->|Hk]; [cbn in Hx; lia|]). by apply not_elem_of_nil in Hk.
  - intros [Hj [Hx|Hx]]; [exists (j.1, Z.min j.2 i.1)|exists (Z.max j.1 i.2, j.2)];
      rewrite list_elem_of_filter; cbn; split; try lia; (split; [lia|]); set_solver.
Qed.

Lemma points_bind (f : Interval -> list Interval) s x :
  x ∈ points (s ≫= f) <-> exists j, j ∈ s /\ x ∈ points (f j).
Proof.
  rewrite elem_of_points. setoid_rewrite list_elem_of_bind. setoid_rewrite elem_of_points. naive_solver.
Qed.

Lemma elem_of_sub s i x : x ∈ points (sub s i) <-> x ∈ points s /\ ~ i.1 <= x < i.2.
Proof.
  unfold sub. case_bool; [|split; [intros; split; [done|lia]|tauto]].
  rewrite points_bind, elem_of_points. setoid_rewrite elem_of_cut. split.
  - intros (j & Hj & Hx & Hi). split; [eauto|lia].
  - intros [(j & Hj & Hx) Hi]. exists j. split; [done|lia].
Qed.

Lemma joined_app l k : joined l -> joined k -> (forall i j, i ∈ l -> j ∈ k -> i.2 < j.1) -> joined (l ++ k).
Proof.
  induction l as [|i l IH]; intros Hl Hk Hlk; [done|]. destruct Hl as (Hi & Hil & Hl). cbn.
  split; [done|]. split.
  - intros j [?|?]%elem_of_app; [by apply Hil|]. apply Hlk; [by constructor|done].
  - apply IH; [done..|]. intros; apply Hlk; [by constructor|done].
Qed.

Lemma cut_bounds i j k : k ∈ cut i j -> j.1 <= k.1 /\ k.2 <= j.2 /\ k.1 < k.2.
Proof.
  unfold cut. intros [Hk Hin]%list_elem_of_filter.
  repeat (apply elem_of_cons in Hin as [->|Hin]; [cbn in *; lia|]). by apply not_elem_of_nil in Hin.
Qed.

Lemma sub_joined s i : joined s -> joined (sub s i).
Proof.
  unfold sub. case_bool; [|done]. induction s as [|j s IH]; intros Hj; [done|].
  destruct Hj as (Hlt & Hl & Hj). cbn [mbind list_bind]. apply joined_app; [|by apply IH|].
  - unfold cut. rewrite !filter_cons, filter_nil. cbn. repeat case_decide; cbn; repeat split; try (done || lia || set_solver).
    intros k ->%list_elem_of_singleton. cbn. lia.
  - intros k k' Hk (j' & Hk' & Hj')%list_elem_of_bind. apply cut_bounds in Hk, Hk'. apply Hl in Hj'. lia.
Qed.

(** The joined lists. *)
Definition t : Type := { s : list Interval | joined s }.

Definition add_t (s : t) (i : Interval) : t :=
  match decide (i.1 < i.2) with
  | left Hi => exist joined (add (`s) i) (add_joined (`s) i Hi (proj2_sig s))
  | right _ => s
  end.
Definition sub_t (s : t) (i : Interval) : t := exist joined (sub (`s) i) (sub_joined (`s) i (proj2_sig s)).
Definition diff_t (s u : t) : t := foldr (fun i s => sub_t s i) s (`u).

#[global] Instance ops : IntervalSetOps t := {
  is_empty := exist joined [] I;
  is_list s := `s;
  is_add := add_t;
  is_sub := sub_t;
  is_diff := diff_t;
  is_contains s i := negb (i.1 <? i.2) || existsb (fun j : Interval => (j.1 <=? i.1) && (i.2 <=? j.2)) (`s);
  is_intersects s i := existsb (meets i) (`s);
}.

#[global] Instance laws : IntervalSetLaws t.
Proof.
  split; unfold is_points; cbn [is_list is_empty is_add is_sub is_diff is_contains is_intersects ops].
  - intros s. apply (proj2_sig s).
  - done.
  - intros s i x. unfold add_t. case_decide; cbn; [apply elem_of_add; [done|apply (proj2_sig s)]|].
    split; [auto|intros [?|?]; [done|lia]].
  - intros s i x. apply elem_of_sub.
  - intros s [u Hu] x. unfold diff_t. cbn. clear Hu. induction u as [|i u IH]; cbn; [set_solver|].
    rewrite elem_of_sub, IH, (points_cons i u), elem_of_union, elem_of_points_single. tauto.
  - intros [s Hs] i. cbn. rewrite orb_true_iff, negb_true_iff, existsb_exists, Z.ltb_ge. split.
    + intros [Hi|(j & Hj%list_elem_of_In & Hb)] x Hx; [lia|].
      rewrite andb_true_iff, !Z.leb_le in Hb. apply elem_of_points. exists j. split; [done|lia].
    + intros Hx. destruct (decide (i.2 <= i.1)); [auto|right].
      destruct (joined_run s i.1 i.2) as (j & Hj & Hb); [done|lia|done|].
      exists j. rewrite <- list_elem_of_In, andb_true_iff, !Z.leb_le. auto.
  - intros [s Hs] i. cbn. rewrite existsb_exists. setoid_rewrite <- list_elem_of_In. unfold meets. split.
    + intros (j & Hj & Hm%Z.ltb_lt). exists (Z.max i.1 j.1). split; [lia|]. apply elem_of_points. exists j. split; [done|lia].
    + intros (x & Hx & (j & Hj & Hxj)%elem_of_points). exists j. split; [done|]. apply Z.ltb_lt. lia.
Qed.
End SortedList.
