(* ===== verification/MemoryRegion.v ===== *)
(** [Kernel::MemoryRegionInfo] and the memory layout
    (src/.../core/hle/kernel/memory.{h,cpp}): the allocator of one region of
    FCRAM, and how [KernelSystem::MemoryInit] divides FCRAM into three of them. *)

From S2P Require Import Prelude MemoryMap IntervalSet.

Section Allocator.
Context `{IntervalSetLaws IS}.

Record MemoryRegionInfo := mkMemoryRegionInfo {
  base : Z;
  size_of : Z;
  used : Z;
  free_blocks : IS;
  is_locked : bool;
}.
#[export] Instance eta_MemoryRegionInfo : Eta MemoryRegionInfo := fun r =>
  mkMemoryRegionInfo (base r) (size_of r) (used r) (free_blocks r) (is_locked r).

Definition assert_unlocked : M MemoryRegionInfo unit := r ← get; ASSERT (negb (is_locked r)).

Definition Reset (b sz : Z) : M MemoryRegionInfo unit :=
  assert_unlocked;;
  modify (fun r => r <| base := b |> <| size_of := sz |> <| used := 0 |>
                     <| free_blocks := is_add is_empty (b, u32 (b + sz)) |>).

(** The loop of [HeapAllocate] over the free blocks from the highest: the blocks
    taken and what is still missing. The intervals of the set are right-open, so
    the assertion on their bounds holds. *)
Fixpoint heap_loop (blocks : list Interval) (result : IS) (rest : Z) : IS * Z :=
  match blocks with
  | [] => (result, rest)
  | i :: blocks' =>
      if rest <=? u32 (i.2 - i.1) then (is_add result (u32 (i.2 - rest), i.2), 0)
      else heap_loop blocks' (is_add result i) (u32 (rest - (i.2 - i.1)))
  end.

Definition HeapAllocate (sz : Z) : M MemoryRegionInfo IS :=
  assert_unlocked;;
  r ← get;
  let '(result, rest) := heap_loop (reverse (is_list (free_blocks r))) is_empty sz in
  if negb (rest =? 0) then mret is_empty
  else
    modify (fun r => r <| free_blocks ::= fun s => is_diff s result |> <| used ::= fun u => u32 (u + sz) |>);;
    mret result.

(** [bool LinearAllocate(u32 offset, u32 size)] *)
Definition LinearAllocateAt (offset sz : Z) : M MemoryRegionInfo bool :=
  assert_unlocked;;
  r ← get;
  let interval := (offset, u32 (offset + sz)) in
  if negb (is_contains (free_blocks r) interval) then mret false
  else
    modify (fun r => r <| free_blocks ::= fun s => is_sub s interval |> <| used ::= fun u => u32 (u + sz) |>);;
    mret true.

(** [std::optional<u32> LinearAllocate(u32 size)]: the loop returns at the first
    block, from the lowest, that is large enough. *)
Definition LinearAllocate (sz : Z) : M MemoryRegionInfo (option Z) :=
  assert_unlocked;;
  r ← get;
  match find (fun i : Interval => sz <=? u32 (i.2 - i.1)) (is_list (free_blocks r)) with
  | Some i =>
      let allocated := (i.1, u32 (i.1 + sz)) in
      modify (fun r => r <| free_blocks ::= fun s => is_sub s allocated |> <| used ::= fun u => u32 (u + sz) |>);;
      mret (Some allocated.1)
  | None => mret None
  end.

Definition RLinearAllocate (sz : Z) : M MemoryRegionInfo (option Z) :=
  assert_unlocked;;
  r ← get;
  match find (fun i : Interval => sz <=? u32 (i.2 - i.1)) (reverse (is_list (free_blocks r))) with
  | Some i =>
      let allocated := (u32 (i.2 - sz), i.2) in
      modify (fun r => r <| free_blocks ::= fun s => is_sub s allocated |> <| used ::= fun u => u32 (u + sz) |>);;
      mret (Some allocated.1)
  | None => mret None
  end.

Definition Free (offset sz : Z) : M MemoryRegionInfo unit :=
  r ← get;
  if is_locked r then mret tt
  else
    let interval := (offset, u32 (offset + sz)) in
    ASSERT (negb (is_intersects (free_blocks r) interval));;
    modify (fun r => r <| free_blocks ::= fun s => is_add s interval |> <| used ::= fun u => u32 (u - sz) |>).

Definition Unlock : M MemoryRegionInfo unit := modify (fun r => r <| is_locked := false |>).

(** ** The layout of FCRAM *)

(** [memory_region_sizes]: APPLICATION, SYSTEM and BASE for each memory type. *)
Definition memory_region_sizes : list (list Z) :=
  [ [0x04000000; 0x02C00000; 0x01400000];
    [0; 0; 0];
    [0x06000000; 0x00C00000; 0x01400000];
    [0x05000000; 0x01C00000; 0x01400000];
    [0x04800000; 0x02400000; 0x01400000];
    [0x02000000; 0x04C00000; 0x01400000];
    [0x07C00000; 0x06400000; 0x02000000];
    [0x0B200000; 0x02E00000; 0x02000000] ].
(** [MemoryMode::N3DSMode] *)
Definition Mode6 : Z := 1.
Definition Mode7 : Z := 2.
Definition Mode6_2 : Z := 3.

(** The memory type used for the layout and the one reported to the guest. *)
Definition select_mem_type (is_new_3ds : bool) (mem_type n3ds_mode : Z) : Z * Z :=
  if is_new_3ds then
    if (n3ds_mode =? Mode6) || (n3ds_mode =? Mode6_2) then (6, 6)
    else if n3ds_mode =? Mode7 then (7, 7)
    else (6, mem_type)
  else (mem_type, mem_type).

(** What [MemoryInit] writes to the configuration page. *)
Record ConfigMemSizes := mkConfigMemSizes {
  app_mem_type : Z;
  app_mem_alloc : Z;
  sys_mem_alloc : Z;
  base_mem_alloc : Z;
}.

(** [for (int i = 0; i < 3; ++i)]: resets the regions in sequence from [b]. *)
Fixpoint reset_regions (b : Z) (sizes : list Z) (regions : list MemoryRegionInfo)
    : outcome (Z * list MemoryRegionInfo) :=
  match sizes, regions with
  | sz :: sizes', r :: regions' =>
      match Reset b sz r with
      | Crash f => Crash f
      | Ret (_, r') =>
          match reset_regions (u32 (b + size_of r')) sizes' regions' with
          | Crash f => Crash f
          | Ret (b', rs) => Ret (b', r' :: rs)
          end
      end
  | _, _ => Ret (b, regions)
  end.

Definition MemoryInit (is_new_3ds : bool) (mem_type n3ds_mode : Z)
    : M (list MemoryRegionInfo) ConfigMemSizes :=
  ASSERT (negb (mem_type =? 1));;
  let '(mem_type, reported_mem_type) := select_mem_type is_new_3ds mem_type n3ds_mode in
  sizes ← deref (memory_region_sizes !! Z.to_nat mem_type);
  base ← (fun regions => reset_regions 0 sizes regions);
  ASSERT (base =? (if is_new_3ds then FCRAM_N3DS_SIZE else FCRAM_SIZE));;
  reported ← deref (memory_region_sizes !! Z.to_nat reported_mem_type);
  regions ← get;
  app ← deref (reported !! 0%nat);
  sys ← deref (regions !! 1%nat);
  bas ← deref (regions !! 2%nat);
  mret (mkConfigMemSizes reported_mem_type app (size_of sys) (size_of bas)).

(** [enum class MemoryRegion : u16] (the flags of a process) *)
Definition MemoryRegion_APPLICATION : Z := 1.
Definition MemoryRegion_SYSTEM : Z := 2.
Definition MemoryRegion_BASE : Z := 3.

(** [KernelSystem::GetMemoryRegion]: the index of the region. *)
Definition GetMemoryRegion {S} (region : Z) : M S nat :=
  if region =? MemoryRegion_APPLICATION then mret 0%nat
  else if region =? MemoryRegion_SYSTEM then mret 1%nat
  else if region =? MemoryRegion_BASE then mret 2%nat
  else crash AssertFailed.

(** ** Invariant *)

Definition free_points (r : MemoryRegionInfo) : gset Z := is_points (free_blocks r).
Definition region_points (r : MemoryRegionInfo) : gset Z := points [(base r, base r + size_of r)].
Definition free_size (r : MemoryRegionInfo) : Z := Z.of_nat (size (free_points r)).

Record valid (r : MemoryRegionInfo) : Prop := {
  valid_base : 0 <= base r;
  valid_size : 0 <= size_of r;
  valid_end : base r + size_of r < 2 ^ 32;
  valid_free : free_points r ⊆ region_points r;
  valid_used : used r = size_of r - free_size r;
  valid_unlocked : is_locked r = false;
}.

(** What the holders of memory own: [A] is the set of allocated points, given
    back by [Free] only in part or in whole. *)
Inductive history : MemoryRegionInfo -> gset Z -> Prop :=
| history_reset b sz r r' :
    0 <= b -> 0 <= sz -> b + sz < 2 ^ 32 -> Reset b sz r = Ret (tt, r') -> history r' ∅
| history_heap r A sz blocks r' :
    history r A -> is_u32 sz -> HeapAllocate sz r = Ret (blocks, r') -> history r' (A ∪ is_points blocks)
| history_at r A offset sz r' :
    history r A -> 0 <= offset -> 0 <= sz -> offset + sz < 2 ^ 32 ->
    LinearAllocateAt offset sz r = Ret (true, r') -> history r' (A ∪ points [(offset, offset + sz)])
| history_linear r A sz a r' :
    history r A -> is_u32 sz -> LinearAllocate sz r = Ret (Some a, r') -> history r' (A ∪ points [(a, a + sz)])
| history_rlinear r A sz a r' :
    history r A -> is_u32 sz -> RLinearAllocate sz r = Ret (Some a, r') -> history r' (A ∪ points [(a, a + sz)])
| history_free r A offset sz r' :
    history r A -> 0 <= offset -> 0 <= sz -> offset + sz < 2 ^ 32 -> points [(offset, offset + sz)] ⊆ A ->
    Free offset sz r = Ret (tt, r') -> history r' (A ∖ points [(offset, offset + sz)]).

(** ** Lemmas *)

Lemma valid_block r i :
  valid r -> i ∈ is_list (free_blocks r) -> base r <= i.1 /\ i.1 < i.2 /\ i.2 <= base r + size_of r.
Proof.
  intros Hv Hi. pose proof (joined_elem _ _ (is_joined _) Hi) as Hlt.
  assert (Hin : forall x, i.1 <= x < i.2 -> base r <= x < base r + size_of r).
  { intros x Hx. apply (elem_of_points_single (base r, base r + size_of r)).
    apply (valid_free _ Hv). apply elem_of_points. eauto. }
  pose proof (Hin i.1). pose proof (Hin (i.2 - 1)). lia.
Qed.

Lemma free_size_total r : free_size r = total (is_list (free_blocks r)).
Proof. apply size_is_points. Qed.

Lemma size_region r : valid r -> Z.of_nat (size (region_points r)) = size_of r.
Proof. intros Hv. pose proof (valid_size _ Hv). unfold region_points. rewrite size_points_single; cbn; lia. Qed.

Lemma free_size_le r : valid r -> 0 <= free_size r <= size_of r.
Proof.
  intros Hv. rewrite <- (size_region r Hv). unfold free_size.
  pose proof (subseteq_size _ _ (valid_free _ Hv)). lia.
Qed.

(** Taking the points [P] out of the free blocks, and giving them back. *)
Definition take (s : IS) (sz : Z) (r : MemoryRegionInfo) : MemoryRegionInfo :=
  r <| free_blocks := s |> <| used := u32 (used r + sz) |>.
Definition give (s : IS) (sz : Z) (r : MemoryRegionInfo) : MemoryRegionInfo :=
  r <| free_blocks := s |> <| used := u32 (used r - sz) |>.

Lemma take_valid r s sz P :
  valid r -> P ⊆ free_points r -> is_points s = free_points r ∖ P -> sz = Z.of_nat (size P) ->
  valid (take s sz r) /\ used (take s sz r) = used r + sz /\ free_size (take s sz r) = free_size r - sz.
Proof.
  intros Hv HP Hs ->.
  assert (Hf : free_size (take s (Z.of_nat (size P)) r) = free_size r - Z.of_nat (size P)).
  { unfold free_size, free_points, take; cbn. rewrite Hs. fold (free_points r).
    pose proof (subseteq_size _ _ HP). rewrite size_difference by done. lia. }
  pose proof (free_size_le _ Hv) as Hle. pose proof Hv as [Hb Hsz He Hsub Hu Hl].
  pose proof (subseteq_size _ _ HP) as HsP. unfold free_size in Hle, Hu.
  assert (Hused : used (take s (Z.of_nat (size P)) r) = used r + Z.of_nat (size P)).
  { cbn. apply u32_small. unfold is_u32. lia. }
  split; [|done]. split; [done..| | |done].
  - unfold free_points at 1. cbn [free_blocks take]. change (free_blocks (take s _ r)) with s. rewrite Hs.
    unfold region_points in *; cbn. set_solver.
  - rewrite Hused, Hf. unfold free_size. cbn. lia.
Qed.

Lemma give_valid r s sz P :
  valid r -> P ## free_points r -> P ⊆ region_points r -> is_points s = free_points r ∪ P ->
  sz = Z.of_nat (size P) ->
  valid (give s sz r) /\ used (give s sz r) = used r - sz /\ free_size (give s sz r) = free_size r + sz.
Proof.
  intros Hv Hd HP Hs ->.
  assert (Hf : free_size (give s (Z.of_nat (size P)) r) = free_size r + Z.of_nat (size P)).
  { unfold free_size, free_points, give; cbn. rewrite Hs. fold (free_points r). rewrite size_union by done. lia. }
  assert (Hle : free_size r + Z.of_nat (size P) <= size_of r).
  { rewrite <- (size_region r Hv). unfold free_size. rewrite <- Nat2Z.inj_add, <- size_union by done.
    apply inj_le, subseteq_size. pose proof (valid_free _ Hv). set_solver. }
  pose proof Hv as [Hb Hsz He Hsub Hu Hl]. unfold free_size in *.
  assert (Hused : used (give s (Z.of_nat (size P)) r) = used r - Z.of_nat (size P)).
  { cbn. apply u32_small. unfold is_u32. lia. }
  split; [|done]. split; [done..| | |done].
  - change (is_points s ⊆ region_points r). rewrite Hs. set_solver.
  - rewrite Hused. unfold free_size. rewrite Hf. cbn. lia.
Qed.

(** The loop of [HeapAllocate] takes the [rest] highest points. *)
Definition top_part (P F : gset Z) : Prop := P ⊆ F /\ forall x y, x ∈ P -> y ∈ F ∖ P -> y < x.

Lemma heap_loop_spec l acc rest :
  joined l -> (forall i, i ∈ l -> 0 <= i.1 /\ i.2 < 2 ^ 32) -> is_u32 rest ->
  let '(res, rest') := heap_loop (reverse l) acc rest in
  if rest <=? total l
  then rest' = 0 /\ exists P, is_points res = is_points acc ∪ P /\ top_part P (points l) /\ Z.of_nat (size P) = rest
  else rest' = rest - total l.
Proof.
  revert acc rest. induction l as [|i l IH] using rev_ind; intros acc rest Hj Hb Hr.
  { cbn. case_bool; [|lia]. assert (rest = 0) as -> by (unfold is_u32 in Hr; lia). split; [done|].
    exists ∅. rewrite points_nil, size_empty. split; [set_solver|]. split; [|done]. unfold top_part. set_solver. }
  apply joined_app_inv in Hj as (Hj & [Hi _] & Hli). rewrite reverse_snoc. cbn [heap_loop].
  assert (Hbi : 0 <= i.1 /\ i.2 < 2 ^ 32) by (apply Hb; set_solver).
  rewrite total_app. cbn [total]. pose proof (total_nonneg _ Hj). unfold is_u32 in Hr.
  assert (Hlt : forall x, x ∈ points l -> x < i.1).
  { intros x (j & Hjl & Hx)%elem_of_points. pose proof (Hli j i Hjl ltac:(by constructor)). lia. }
  rewrite u32_small by (unfold is_u32; lia). destruct (Z.leb_spec rest (i.2 - i.1)).
  - rewrite (proj2 (Z.leb_le _ _)) by lia. split; [done|].
    rewrite u32_small by (unfold is_u32; lia).
    exists (points [(i.2 - rest, i.2)]). rewrite is_points_add, size_points_single by (cbn; lia).
    split; [done|]. split; [|cbn; lia]. split.
    + intros x Hx%elem_of_points_single. rewrite points_app, elem_of_union, elem_of_points_single. cbn in Hx. lia.
    + intros x y Hx%elem_of_points_single. rewrite points_app, elem_of_difference, elem_of_union, !elem_of_points_single.
      cbn in *. intros [[Hy|Hy] Hn]; [apply Hlt in Hy|]; lia.
  - rewrite u32_small by (unfold is_u32; lia).
    specialize (IH (is_add acc i) (rest - (i.2 - i.1)) Hj). destruct (heap_loop _ _ _) as [res rest'].
    assert (Heq : (rest - (i.2 - i.1) <=? total l) = (rest <=? total l + (i.2 - i.1 + 0))).
    { apply eq_true_iff_eq. rewrite !Z.leb_le. lia. }
    rewrite Heq in IH. case_bool.
    + destruct IH as (-> & P & HP & [Hsub Htop] & Hsz); [set_solver|unfold is_u32; lia|]. split; [done|].
      assert (Hd : points [i] ## P).
      { intros x Hx%elem_of_points_single HxP. apply Hsub, Hlt in HxP. lia. }
      exists (points [i] ∪ P). rewrite HP, is_points_add, size_union by done. rewrite Nat2Z.inj_add, size_points_single by lia.
      split; [set_solver|]. split; [|lia]. rewrite points_app. split; [set_solver|].
      intros x y [Hx|Hx]%elem_of_union; [|set_solver].
      apply elem_of_points_single in Hx. intros [[Hy|Hy]%elem_of_union Hn]%elem_of_difference; [apply Hlt in Hy; lia|set_solver].
    + rewrite IH; [lia|set_solver|unfold is_u32; lia].
Qed.

(** [find] stops at the first element. *)
Lemma find_split {A} (f : A -> bool) l x :
  find f l = Some x -> exists l1 l2, l = l1 ++ x :: l2 /\ f x = true /\ forall y, y ∈ l1 -> f y = false.
Proof.
  induction l as [|y l IH]; cbn; [done|]. destruct (f y) eqn:Hy.
  - intros [= ->]. exists [], l. set_solver.
  - intros (l1 & l2 & -> & Hx & Hl1)%IH. exists (y :: l1), l2. set_solver.
Qed.
Lemma find_none_iff {A} (f : A -> bool) l : find f l = None -> forall x, x ∈ l -> f x = false.
Proof. intros Hf x Hx%list_elem_of_In. by eapply find_none. Qed.

(** The operations on a valid region, as equations. *)
Lemma HeapAllocate_cases r sz :
  valid r -> is_u32 sz ->
  (sz <= free_size r /\ exists blocks s,
     HeapAllocate sz r = Ret (blocks, take s sz r) /\ is_points s = free_points r ∖ is_points blocks /\
     top_part (is_points blocks) (free_points r) /\ Z.of_nat (size (is_points blocks)) = sz) \/
  (free_size r < sz /\ HeapAllocate sz r = Ret (is_empty, r)).
Proof.
  intros Hv Hsz. unfold HeapAllocate, assert_unlocked. unfold mbind, M_bind, get.
  rewrite (valid_unlocked _ Hv). cbn.
  pose proof (heap_loop_spec (is_list (free_blocks r)) is_empty sz (is_joined _)) as Hloop.
  destruct (heap_loop _ _ _) as [res rest]. rewrite (free_size_total r).
  assert (Hb : forall i, i ∈ is_list (free_blocks r) -> 0 <= i.1 /\ i.2 < 2 ^ 32).
  { intros i Hi. apply valid_block in Hi; [|done]. pose proof Hv as []. lia. }
  specialize (Hloop Hb Hsz). destruct (Z.leb_spec sz (total (is_list (free_blocks r)))).
  - destruct Hloop as (-> & P & HP & Htop & Hsize). left. split; [done|].
    rewrite is_points_empty in HP. exists res, (is_diff (free_blocks r) res). split; [done|].
    rewrite is_points_diff. replace (is_points res) with P by set_solver. done.
  - right. split; [done|]. rewrite Hloop. by case_bool; [lia|].
Qed.

Lemma LinearAllocateAt_cases r a sz :
  valid r -> 0 <= a -> 0 <= sz -> a + sz < 2 ^ 32 ->
  (points [(a, a + sz)] ⊆ free_points r /\ exists s,
     LinearAllocateAt a sz r = Ret (true, take s sz r) /\ is_points s = free_points r ∖ points [(a, a + sz)]) \/
  (~ points [(a, a + sz)] ⊆ free_points r /\ LinearAllocateAt a sz r = Ret (false, r)).
Proof.
  intros Hv Ha Hsz He. unfold LinearAllocateAt, assert_unlocked, mbind, M_bind, get.
  rewrite (valid_unlocked _ Hv). cbn. rewrite u32_small by (unfold is_u32; lia).
  destruct (is_contains _ _) eqn:Hc; cbn; [left|right].
  - apply is_contains_subseteq in Hc. split; [done|]. eexists. split; [done|]. apply is_points_sub.
  - split; [|done]. unfold free_points. rewrite <- is_contains_subseteq, Hc. done.
Qed.

(** Both searches: the block found is free, and every free run is in a block
    before which the search stops. *)
Lemma LinearAllocate_cases r sz :
  valid r -> is_u32 sz ->
  (exists a s, LinearAllocate sz r = Ret (Some a, take s sz r) /\
     points [(a, a + sz)] ⊆ free_points r /\ base r <= a /\ a + sz <= base r + size_of r /\
     is_points s = free_points r ∖ points [(a, a + sz)] /\
     forall b, 0 < sz -> points [(b, b + sz)] ⊆ free_points r -> a <= b) \/
  (LinearAllocate sz r = Ret (None, r) /\ forall b, 0 < sz -> ~ points [(b, b + sz)] ⊆ free_points r).
Proof.
  intros Hv Hsz. unfold LinearAllocate, assert_unlocked, mbind, M_bind, get.
  rewrite (valid_unlocked _ Hv). cbn. set (l := is_list (free_blocks r)).
  assert (Hrun : forall b, 0 < sz -> points [(b, b + sz)] ⊆ free_points r ->
    exists j, j ∈ l /\ j.1 <= b /\ (sz <=? u32 (j.2 - j.1)) = true).
  { intros b Hpos Hb. destruct (joined_run l b (b + sz)) as (j & Hj & Hjb); [apply is_joined|lia| |].
    { intros x Hx. apply Hb, elem_of_points_single. done. }
    exists j. split; [done|]. split; [lia|]. apply valid_block in Hj; [|done].
    pose proof Hv as []. rewrite u32_small by (unfold is_u32; lia). apply Z.leb_le. lia. }
  destruct (find (fun i : Interval => sz <=? u32 (i.2 - i.1)) l) as [i|] eqn:Hf.
  - left. apply find_split in Hf as (l1 & l2 & Hl & Hi & Hl1).
    assert (Hil : i ∈ l) by (rewrite Hl; set_solver).
    pose proof (valid_block _ _ Hv Hil) as Hbi. pose proof Hv as [Hb0 Hs0 He0 _ _ _]. unfold is_u32 in Hsz.
    rewrite u32_small in Hi by (unfold is_u32; lia). apply Z.leb_le in Hi.
    exists i.1. eexists. split; [done|]. rewrite u32_small by (unfold is_u32; lia). split.
    { intros x Hx%elem_of_points_single. apply elem_of_points. exists i. cbn in Hx. split; [done|lia]. }
    split; [lia|]. split; [lia|]. split; [apply is_points_sub|].
    intros b Hpos Hb. destruct (Hrun b Hpos Hb) as (j & Hj & Hjb & Hok).
    rewrite Hl in Hj. apply elem_of_app in Hj as [Hj|[->|Hj]%elem_of_cons]; [by rewrite Hl1 in Hok|done|].
    pose proof (is_joined (free_blocks r)) as Hjo. fold l in Hjo. rewrite Hl in Hjo.
    apply joined_app_inv in Hjo as (_ & (? & Hlt & _) & _). apply Hlt in Hj. lia.
  - right. split; [done|]. intros b Hpos Hb. destruct (Hrun b Hpos Hb) as (j & Hj & _ & Hok).
    by rewrite (find_none_iff _ _ Hf _ Hj) in Hok.
Qed.

Lemma RLinearAllocate_cases r sz :
  valid r -> is_u32 sz ->
  (exists a s, RLinearAllocate sz r = Ret (Some a, take s sz r) /\
     points [(a, a + sz)] ⊆ free_points r /\ base r <= a /\ a + sz <= base r + size_of r /\
     is_points s = free_points r ∖ points [(a, a + sz)] /\
     forall b, 0 < sz -> points [(b, b + sz)] ⊆ free_points r -> b <= a) \/
  (RLinearAllocate sz r = Ret (None, r) /\ forall b, 0 < sz -> ~ points [(b, b + sz)] ⊆ free_points r).
Proof.
  intros Hv Hsz. unfold RLinearAllocate, assert_unlocked, mbind, M_bind, get.
  rewrite (valid_unlocked _ Hv). cbn. set (l := is_list (free_blocks r)).
  assert (Hrun : forall b, 0 < sz -> points [(b, b + sz)] ⊆ free_points r ->
    exists j, j ∈ reverse l /\ b + sz <= j.2 /\ (sz <=? u32 (j.2 - j.1)) = true).
  { intros b Hpos Hb. destruct (joined_run l b (b + sz)) as (j & Hj & Hjb); [apply is_joined|lia| |].
    { intros x Hx. apply Hb, elem_of_points_single. done. }
    exists j. rewrite elem_of_reverse. split; [done|]. split; [lia|]. apply valid_block in Hj; [|done].
    pose proof Hv as []. rewrite u32_small by (unfold is_u32; lia). apply Z.leb_le. lia. }
  destruct (find (fun i : Interval => sz <=? u32 (i.2 - i.1)) (reverse l)) as [i|] eqn:Hf.
  - left. apply find_split in Hf as (l1 & l2 & Hl & Hi & Hl1).
    assert (Hil : i ∈ l) by (rewrite <- elem_of_reverse, Hl; set_solver).
    pose proof (valid_block _ _ Hv Hil) as Hbi. pose proof Hv as [Hb0 Hs0 He0 _ _ _]. unfold is_u32 in Hsz.
    rewrite u32_small in Hi by (unfold is_u32; lia). apply Z.leb_le in Hi.
    rewrite u32_small by (unfold is_u32; lia).
    exists (i.2 - sz). eexists. split; [done|]. replace (i.2 - sz + sz) with i.2 by lia. split.
    { intros x Hx%elem_of_points_single. apply elem_of_points. exists i. cbn in Hx. split; [done|lia]. }
    split; [lia|]. split; [lia|]. split; [apply is_points_sub|].
    intros b Hpos Hb. destruct (Hrun b Hpos Hb) as (j & Hj & Hjb & Hok).
    rewrite Hl in Hj. apply elem_of_app in Hj as [Hj|[->|Hj]%elem_of_cons]; [by rewrite Hl1 in Hok|lia|].
    pose proof (is_joined (free_blocks r)) as Hjo. fold l in Hjo.
    rewrite <- (reverse_involutive l), Hl, reverse_app, reverse_cons in Hjo.
    apply joined_app_inv in Hjo as (Hjo & _ & _). apply joined_app_inv in Hjo as (_ & _ & Hlt).
    specialize (Hlt j i). rewrite elem_of_reverse in Hlt. specialize (Hlt Hj ltac:(by constructor)). lia.
  - right. split; [done|]. intros b Hpos Hb. destruct (Hrun b Hpos Hb) as (j & Hj & _ & Hok).
    by rewrite (find_none_iff _ _ Hf _ Hj) in Hok.
Qed.

Lemma Free_cases r a sz :
  valid r -> 0 <= a -> 0 <= sz -> a + sz < 2 ^ 32 -> points [(a, a + sz)] ## free_points r ->
  exists s, Free a sz r = Ret (tt, give s sz r) /\ is_points s = free_points r ∪ points [(a, a + sz)].
Proof.
  intros Hv Ha Hsz He Hd. unfold Free, mbind, M_bind, get. cbn.
  rewrite (valid_unlocked _ Hv), u32_small by (unfold is_u32; lia).
  rewrite (proj2 (is_intersects_false (free_blocks r) (a, a + sz)) Hd).
  eexists. split; [done|]. apply is_points_add.
Qed.

Lemma Reset_valid b sz r r' :
  0 <= b -> 0 <= sz -> b + sz < 2 ^ 32 -> Reset b sz r = Ret (tt, r') ->
  valid r' /\ base r' = b /\ size_of r' = sz /\ used r' = 0 /\ free_points r' = region_points r'.
Proof.
  intros Hb Hsz He. unfold Reset, assert_unlocked, mbind, M_bind, get. cbn.
  destruct (is_locked r) eqn:Hl; cbn; [done|]. intros [= <-].
  rewrite u32_small by (unfold is_u32; lia).
  match goal with |- valid ?x /\ _ => set (r' := x) end.
  assert (Hf : free_points r' = region_points r').
  { unfold free_points, r'; cbn. rewrite is_points_add, is_points_empty. by rewrite union_empty_l_L. }
  split; [|done]. split; cbn; try lia; [by rewrite Hf| |done].
  unfold free_size. rewrite Hf. unfold region_points. rewrite size_points_single; cbn; lia.
Qed.

(** Allocated and free points partition the region, and [used] counts the former. *)
Record accounts (r : MemoryRegionInfo) (A : gset Z) : Prop := {
  accounts_valid : valid r;
  accounts_disjoint : A ## free_points r;
  accounts_cover : A ∪ free_points r = region_points r;
  accounts_used : used r = Z.of_nat (size A);
}.

Lemma accounts_take r A s sz P :
  accounts r A -> P ⊆ free_points r -> is_points s = free_points r ∖ P -> sz = Z.of_nat (size P) ->
  accounts (take s sz r) (A ∪ P).
Proof.
  intros [Hv Hd Hc Hu] HP Hs Hsz. destruct (take_valid r s sz P) as (Hv' & Hu' & _); [done..|].
  assert (Hf : free_points (take s sz r) = free_points r ∖ P) by exact Hs.
  split; [done| | |].
  - rewrite Hf. set_solver.
  - rewrite Hf. change (region_points (take s sz r)) with (region_points r). rewrite <- Hc.
    apply set_eq. intros x. destruct (decide (x ∈ P)); set_solver.
  - rewrite Hu', Hu, Hsz, size_union by set_solver. lia.
Qed.

Lemma accounts_give r A s sz P :
  accounts r A -> P ⊆ A -> is_points s = free_points r ∪ P -> sz = Z.of_nat (size P) ->
  accounts (give s sz r) (A ∖ P).
Proof.
  intros [Hv Hd Hc Hu] HP Hs Hsz.
  destruct (give_valid r s sz P) as (Hv' & Hu' & _); [done|set_solver|set_solver|done..|].
  assert (Hf : free_points (give s sz r) = free_points r ∪ P) by exact Hs.
  split; [done| | |].
  - rewrite Hf. set_solver.
  - rewrite Hf. change (region_points (give s sz r)) with (region_points r). rewrite <- Hc.
    apply set_eq. intros x. destruct (decide (x ∈ P)); set_solver.
  - rewrite Hu', Hu, Hsz, size_difference by done. pose proof (subseteq_size _ _ HP). lia.
Qed.

Lemma size_range a sz : 0 <= sz -> sz = Z.of_nat (size (points [(a, a + sz)])).
Proof. intros. rewrite size_points_single; cbn; lia. Qed.

Lemma history_accounts r A : history r A -> accounts r A.
Proof.
  induction 1 as [b sz r r' Hb Hs He Hr|r A sz bl r' _ IH Hsz Hr|r A a sz r' _ IH Ha Hsz He Hr
    |r A sz a r' _ IH Hsz Hr|r A sz a r' _ IH Hsz Hr|r A a sz r' _ IH Ha Hsz He Hsub Hr].
  - apply Reset_valid in Hr as (Hv & _ & _ & Hu & Hf); [|done..].
    split; [done|apply disjoint_empty_l|by rewrite union_empty_l_L|by rewrite Hu, size_empty].
  - destruct (HeapAllocate_cases r sz) as [(_ & bl' & s & Heq & Hp & [Ht _] & Hn)|[_ Heq]]; [apply IH|done| |];
      rewrite Heq in Hr; simplify_eq.
    + by eapply accounts_take.
    + rewrite is_points_empty, union_empty_r_L. done.
  - destruct (LinearAllocateAt_cases r a sz) as [(Ht & s & Heq & Hp)|[_ Heq]]; [apply IH|done..| |];
      rewrite Heq in Hr; simplify_eq. eapply accounts_take; [done..|by apply size_range].
  - pose proof Hsz as [? _]. destruct (LinearAllocate_cases r sz) as [(a' & s & Heq & Ht & _ & _ & Hp & _)|[Heq _]];
      [apply IH|done| |]; rewrite Heq in Hr; simplify_eq. eapply accounts_take; [done..|by apply size_range].
  - pose proof Hsz as [? _]. destruct (RLinearAllocate_cases r sz) as [(a' & s & Heq & Ht & _ & _ & Hp & _)|[Heq _]];
      [apply IH|done| |]; rewrite Heq in Hr; simplify_eq. eapply accounts_take; [done..|by apply size_range].
  - destruct (Free_cases r a sz) as (s & Heq & Hp); [apply IH|done..| |].
    { intros x Hx Hf. apply (accounts_disjoint _ _ IH x); [by apply Hsub|done]. }
    rewrite Heq in Hr. simplify_eq. eapply accounts_give; [done..|by apply size_range].
Qed.

(** *** [MemoryInit] *)

Lemma Reset_run b sz r :
  is_locked r = false -> 0 <= b -> 0 <= sz -> b + sz < 2 ^ 32 ->
  exists r', Reset b sz r = Ret (tt, r') /\ valid r' /\ base r' = b /\ size_of r' = sz /\ free_points r' = region_points r'.
Proof.
  intros Hr Hb Hs He. destruct (Reset b sz r) as [[[] r']|f] eqn:Heq.
  - exists r'. destruct (Reset_valid b sz r r') as (? & ? & ? & _ & ?); auto.
  - unfold Reset, assert_unlocked, mbind, M_bind, get in Heq. by rewrite Hr in Heq.
Qed.

(** Three regions, valid and entirely free, of sizes [x], [y] and [z], in sequence. *)
Definition laid_out (x y z : Z) (regions : list MemoryRegionInfo) : Prop :=
  exists a s b, regions = [a; s; b] /\ base a = 0 /\ base s = x /\ base b = x + y /\
    size_of a = x /\ size_of s = y /\ size_of b = z /\
    Forall (fun r => valid r /\ free_points r = region_points r) regions.

Lemma reset_regions_run x y z r0 r1 r2 :
  is_locked r0 = false /\ is_locked r1 = false /\ is_locked r2 = false ->
  0 <= x -> 0 <= y -> 0 <= z -> x + y + z < 2 ^ 32 ->
  exists regions, reset_regions 0 [x; y; z] [r0; r1; r2] = Ret (x + y + z, regions) /\ laid_out x y z regions.
Proof.
  intros (Hl0 & Hl1 & Hl2) Hx Hy Hz Hs. cbn [reset_regions].
  destruct (Reset_run 0 x r0) as (a & -> & Ha & Hba & Hsa & Hfa); [done|lia..|].
  rewrite Hsa, Z.add_0_l, (u32_small x) by (unfold is_u32; lia).
  destruct (Reset_run x y r1) as (s & -> & Hs1 & Hbs & Hss & Hfs); [done|lia..|].
  rewrite Hss, (u32_small (x + y)) by (unfold is_u32; lia).
  destruct (Reset_run (x + y) z r2) as (b & -> & Hb & Hbb & Hsb & Hfb); [done|lia..|].
  rewrite Hsb, (u32_small (x + y + z)) by (unfold is_u32; lia).
  eexists. split; [done|]. exists a, s, b. repeat (split; [done|]).
  by repeat (apply Forall_cons; split; [done|]).
Qed.

Lemma MemoryInit_run is_new_3ds mem_type n3ds_mode t rep x y z app rest r0 r1 r2 :
  mem_type <> 1 -> select_mem_type is_new_3ds mem_type n3ds_mode = (t, rep) ->
  memory_region_sizes !! Z.to_nat t = Some [x; y; z] -> memory_region_sizes !! Z.to_nat rep = Some (app :: rest) ->
  is_locked r0 = false /\ is_locked r1 = false /\ is_locked r2 = false ->
  0 <= x -> 0 <= y -> 0 <= z -> x + y + z < 2 ^ 32 ->
  exists regions, laid_out x y z regions /\
    MemoryInit is_new_3ds mem_type n3ds_mode [r0; r1; r2] =
    if x + y + z =? (if is_new_3ds then FCRAM_N3DS_SIZE else FCRAM_SIZE)
    then Ret (mkConfigMemSizes rep app y z, regions) else Crash AssertFailed.
Proof.
  intros Hne Hsel Ht Hrep Hl Hx Hy Hz Hs.
  destruct (reset_regions_run x y z r0 r1 r2) as (regions & Hreset & Hout); [done..|].
  exists regions. split; [done|]. unfold MemoryInit. rewrite (proj2 (Z.eqb_neq _ _) Hne), Hsel.
  unfold mbind, M_bind. cbn [negb ASSERT mret M_ret]. rewrite Ht. cbn [deref mret M_ret]. rewrite Hreset.
  destruct (x + y + z =? _); cbn [ASSERT crash]; [|done]. unfold mret, M_ret. rewrite Hrep. unfold get.
  destruct Hout as (a & s & b & -> & _ & _ & _ & _ & <- & <- & _). done.
Qed.

Lemma MemoryInit_bad is_new_3ds mem_type n3ds_mode t rep regions :
  select_mem_type is_new_3ds mem_type n3ds_mode = (t, rep) ->
  memory_region_sizes !! Z.to_nat t = None \/ memory_region_sizes !! Z.to_nat rep = None ->
  exists f, MemoryInit is_new_3ds mem_type n3ds_mode regions = Crash f.
Proof.
  intros Hsel Hbad. unfold MemoryInit. rewrite Hsel. unfold mbind, M_bind.
  destruct (ASSERT _ regions) as [[[] rs]|f]; [|eauto].
  destruct (memory_region_sizes !! Z.to_nat t) as [sizes|]; [|cbn; eauto]. cbn [deref mret M_ret].
  destruct (reset_regions 0 sizes rs) as [[b' rs']|f]; [|eauto].
  destruct (ASSERT _ rs') as [[[] rs'']|f]; [|eauto].
  destruct Hbad as [?| ->]; [done|]. cbn. eauto.
Qed.

Definition mode_known (n3ds_mode : Z) : bool := (n3ds_mode =? Mode6) || (n3ds_mode =? Mode7) || (n3ds_mode =? Mode6_2).

(** The types in the table, one by one. *)
Lemma mem_type_cases mem_type :
  is_u32 mem_type -> mem_type <> 1 ->
  mem_type = 0 \/ mem_type = 2 \/ mem_type = 3 \/ mem_type = 4 \/ mem_type = 5 \/ mem_type = 6 \/ mem_type = 7 \/
  (8 <= mem_type /\ memory_region_sizes !! Z.to_nat mem_type = None).
Proof.
  unfold is_u32. intros. destruct (decide (mem_type < 8)); [lia|]. do 7 right. split; [lia|].
  apply lookup_ge_None_2. cbn. lia.
Qed.

(** The regions lie one after the other over all of FCRAM, valid and free, and
    the configuration page holds their sizes, [same] telling whether the reported
    APPLICATION size is the region's. *)
Definition covers_fcram (is_new_3ds same : bool) (cfg : ConfigMemSizes) (regions : list MemoryRegionInfo) : Prop :=
  exists a s b, regions = [a; s; b] /\ base a = 0 /\ base s = size_of a /\ base b = base s + size_of s /\
    base b + size_of b = (if is_new_3ds then FCRAM_N3DS_SIZE else FCRAM_SIZE) /\
    Forall (fun r => valid r /\ free_points r = region_points r) regions /\
    sys_mem_alloc cfg = size_of s /\ base_mem_alloc cfg = size_of b /\
    (same = true -> app_mem_alloc cfg = size_of a).
Definition init_post (is_new_3ds supported same : bool) (out : outcome (ConfigMemSizes * list MemoryRegionInfo)) : Prop :=
  match out with
  | Ret (cfg, regions) => supported = true /\ covers_fcram is_new_3ds same cfg regions
  | Crash _ => supported = false
  end.

Lemma init_post_run is_new_3ds mem_type n3ds_mode t rep x y z app rest r0 r1 r2 supported same :
  mem_type <> 1 -> select_mem_type is_new_3ds mem_type n3ds_mode = (t, rep) ->
  is_locked r0 = false /\ is_locked r1 = false /\ is_locked r2 = false ->
  memory_region_sizes !! Z.to_nat t = Some [x; y; z] -> memory_region_sizes !! Z.to_nat rep = Some (app :: rest) ->
  (0 <=? x) && (0 <=? y) && (0 <=? z) && (x + y + z <? 2 ^ 32) = true ->
  supported = (x + y + z =? (if is_new_3ds then FCRAM_N3DS_SIZE else FCRAM_SIZE)) ->
  implb same (app =? x) = true ->
  init_post is_new_3ds supported same (MemoryInit is_new_3ds mem_type n3ds_mode [r0; r1; r2]).
Proof.
  intros Hne Hsel Hl Ht Hrep Hb -> Hsame. rewrite !andb_true_iff, !Z.leb_le, Z.ltb_lt in Hb.
  destruct (MemoryInit_run _ _ _ t rep x y z app rest r0 r1 r2 Hne Hsel Ht Hrep Hl)
    as (regions & (a & s & b & -> & Ha & Hs & Hb' & Hsa & Hss & Hsb & Hall) & ->); [lia..|].
  destruct (Z.eqb_spec (x + y + z) (if is_new_3ds then FCRAM_N3DS_SIZE else FCRAM_SIZE)) as [Hsum|]; [|done].
  split; [done|]. exists a, s, b. cbn. rewrite Hsa, Hss, Hsb, Hs, Hb', Hsum. repeat (split; [done|]).
  intros ->. cbn in Hsame. lia.
Qed.
Lemma init_post_bad is_new_3ds mem_type n3ds_mode t rep regions same :
  select_mem_type is_new_3ds mem_type n3ds_mode = (t, rep) ->
  memory_region_sizes !! Z.to_nat t = None \/ memory_region_sizes !! Z.to_nat rep = None ->
  init_post is_new_3ds false same (MemoryInit is_new_3ds mem_type n3ds_mode regions).
Proof. intros Hsel Hbad. by destruct (MemoryInit_bad _ _ _ t rep regions Hsel Hbad) as [f ->]. Qed.

(** ** Correctness *)

(** A heap allocation succeeds exactly when enough points are free, whatever
    their fragmentation; it takes the highest free points and counts them as
    used; otherwise it returns the empty set and changes nothing. *)
Theorem HeapAllocate_spec (r : MemoryRegionInfo) (sz : Z) (Hv : valid r) (Hsz : is_u32 sz) :
  wp (HeapAllocate sz) (fun blocks r' =>
    valid r' /\
    if sz <=? free_size r then
      Z.of_nat (size (is_points blocks)) = sz /\ is_points blocks ⊆ free_points r /\
      (forall x y, x ∈ is_points blocks -> y ∈ free_points r' -> y < x) /\
      free_points r' = free_points r ∖ is_points blocks /\ used r' = used r + sz
    else is_points blocks = ∅ /\ r' = r) r.
Proof.
  destruct (HeapAllocate_cases r sz Hv Hsz) as [(Hle & bl & s & Heq & Hp & [Hsub Htop] & Hn)|[Hlt Heq]];
    (eapply wp_intro; [exact Heq|]).
  - rewrite (proj2 (Z.leb_le _ _)) by done.
    destruct (take_valid r s sz (is_points bl)) as (Hv' & Hu' & _); [done..|].
    split; [done|]. split; [done|]. split; [done|]. split; [|done].
    intros x y Hx Hy. apply Htop; [done|]. change (y ∈ is_points s) in Hy. by rewrite Hp in Hy.
  - rewrite (proj2 (Z.leb_gt _ _)) by done. split; [done|]. by rewrite is_points_empty.
Qed.

(** The two linear allocators find a run of [sz] consecutive free points if
    there is one, the first the lowest such run and the second the highest, take
    exactly that run, and change nothing if there is none. *)
Theorem LinearAllocate_spec (r : MemoryRegionInfo) (sz : Z) (Hv : valid r) (Hsz : 0 < sz < 2 ^ 32) :
  let run a := points [(a, a + sz)] in
  wp (LinearAllocate sz) (fun res r' =>
    match res with
    | Some a => run a ⊆ free_points r /\ (forall b, run b ⊆ free_points r -> a <= b) /\
        valid r' /\ free_points r' = free_points r ∖ run a /\ used r' = used r + sz
    | None => r' = r /\ forall b, ~ run b ⊆ free_points r
    end) r /\
  wp (RLinearAllocate sz) (fun res r' =>
    match res with
    | Some a => run a ⊆ free_points r /\ (forall b, run b ⊆ free_points r -> b <= a) /\
        valid r' /\ free_points r' = free_points r ∖ run a /\ used r' = used r + sz
    | None => r' = r /\ forall b, ~ run b ⊆ free_points r
    end) r.
Proof.
  assert (Hsz' : is_u32 sz) by (unfold is_u32; lia). pose proof (size_range) as Hsize. split.
  - destruct (LinearAllocate_cases r sz Hv Hsz') as [(a & s & Heq & Ht & _ & _ & Hp & Hb)|[Heq Hb]];
      (eapply wp_intro; [exact Heq|]).
    + destruct (take_valid r s sz (points [(a, a + sz)])) as (Hv' & Hu' & _); [done..|apply Hsize; lia|].
      repeat split; [done| |apply Hv'..|done|done]. intros b. apply Hb. lia.
    + split; [done|]. intros b. apply Hb. lia.
  - destruct (RLinearAllocate_cases r sz Hv Hsz') as [(a & s & Heq & Ht & _ & _ & Hp & Hb)|[Heq Hb]];
      (eapply wp_intro; [exact Heq|]).
    + destruct (take_valid r s sz (points [(a, a + sz)])) as (Hv' & Hu' & _); [done..|apply Hsize; lia|].
      repeat split; [done| |apply Hv'..|done|done]. intros b. apply Hb. lia.
    + split; [done|]. intros b. apply Hb. lia.
Qed.

(** C33: however memory of a region was allocated and freed since its reset, the
    allocated points [A] and the free points partition the region, [used] is
    their number, no allocation hands out a point of [A] again, and freeing part
    of [A] never fails its assertion. *)
Theorem allocator_accounts (r : MemoryRegionInfo) (A : gset Z) (Hh : history r A) :
  A ## free_points r /\ A ∪ free_points r = region_points r /\ used r = Z.of_nat (size A) /\
  (forall sz, is_u32 sz -> wp (HeapAllocate sz) (fun blocks _ => is_points blocks ## A) r) /\
  (forall sz, is_u32 sz ->
     wp (LinearAllocate sz) (fun res _ => forall a, res = Some a -> points [(a, a + sz)] ## A) r /\
     wp (RLinearAllocate sz) (fun res _ => forall a, res = Some a -> points [(a, a + sz)] ## A) r) /\
  (forall a sz, 0 <= a -> 0 <= sz -> a + sz < 2 ^ 32 -> points [(a, a + sz)] ⊆ A ->
     wp (Free a sz) (fun _ r' => history r' (A ∖ points [(a, a + sz)])) r).
Proof.
  apply history_accounts in Hh as Hacc. destruct Hacc as [Hv Hd Hc Hu].
  split; [done|]. split; [done|]. split; [done|]. split; [|split].
  - intros sz Hsz. destruct (HeapAllocate_cases r sz Hv Hsz) as [(_ & bl & s & Heq & _ & [Hsub _] & _)|[_ Heq]];
      (eapply wp_intro; [exact Heq|]); [|rewrite is_points_empty]; intros x Hx Hy; [by apply (Hd x); auto|set_solver].
  - intros sz Hsz. split.
    + destruct (LinearAllocate_cases r sz Hv Hsz) as [(a & s & Heq & Ht & _)|[Heq _]]; (eapply wp_intro; [exact Heq|]); [|done].
      intros b [= <-] x Hx Hy. apply (Hd x); auto.
    + destruct (RLinearAllocate_cases r sz Hv Hsz) as [(a & s & Heq & Ht & _)|[Heq _]]; (eapply wp_intro; [exact Heq|]); [|done].
      intros b [= <-] x Hx Hy. apply (Hd x); auto.
  - intros a sz Ha Hsz He Hsub.
    destruct (Free_cases r a sz Hv Ha Hsz He) as (s & Heq & _); [intros x Hx Hf; apply (Hd x); auto|].
    eapply wp_intro; [exact Heq|]. by eapply history_free.
Qed.

(** [MemoryInit] succeeds exactly on the memory types the console has; it
    then resets the three regions to valid, entirely free regions that lie one
    after the other and cover all of FCRAM, and reports their sizes (the
    APPLICATION size of the reported type). *)
Theorem MemoryInit_spec (is_new_3ds : bool) (mem_type n3ds_mode : Z) (r0 r1 r2 : MemoryRegionInfo)
    (Hm : is_u32 mem_type)
    (Hl : is_locked r0 = false /\ is_locked r1 = false /\ is_locked r2 = false) :
  init_post is_new_3ds
    (negb (mem_type =? 1) && if is_new_3ds then mode_known n3ds_mode || (mem_type <? 8) else mem_type <? 6)
    (negb is_new_3ds || mode_known n3ds_mode || (mem_type =? 6))
    (MemoryInit is_new_3ds mem_type n3ds_mode [r0; r1; r2]).
Proof.
  destruct (Z.eqb_spec mem_type 1) as [->|Hne]; [done|]. cbn [negb andb].
  destruct (select_mem_type is_new_3ds mem_type n3ds_mode) as [t rep] eqn:Hsel.
  pose proof (mem_type_cases mem_type Hm Hne) as Hcases. pose proof Hsel as Hsel'.
  destruct is_new_3ds; cbn [negb orb].
  - unfold select_mem_type in Hsel'. destruct (mode_known n3ds_mode) eqn:Hk; cbn [orb].
    + assert ((t, rep) = (6, 6) \/ (t, rep) = (7, 7)) as [[= -> ->]|[= -> ->]];
        [|by eapply init_post_run..].
      unfold mode_known in Hk. rewrite <- Hsel'. destruct (n3ds_mode =? Mode6), (n3ds_mode =? Mode7), (n3ds_mode =? Mode6_2); first [done|by left|by right].
    + assert ((t, rep) = (6, mem_type)) as [= -> ->].
      { unfold mode_known in Hk. rewrite <- Hsel'. by destruct (n3ds_mode =? Mode6), (n3ds_mode =? Mode7), (n3ds_mode =? Mode6_2). }
      destruct Hcases as [->|[->|[->|[->|[->|[->|[->|[Hge Hnone]]]]]]]]; [by eapply init_post_run..|].
      rewrite (proj2 (Z.ltb_ge _ _)) by done. eapply init_post_bad; eauto.
  - simplify_eq/=. destruct Hcases as [->|[->|[->|[->|[->|[->|[->|[Hge Hnone]]]]]]]]; [by eapply init_post_run..|].
    rewrite (proj2 (Z.ltb_ge _ _)) by lia. eapply init_post_bad; eauto.
Qed.
End Allocator.
Arguments MemoryRegionInfo IS : clear implicits.

(** ** The theorems at work on sorted lists *)

Definition sample_region : MemoryRegionInfo SortedList.t :=
  mkMemoryRegionInfo 0 0x10 0 (is_add is_empty (0, 0x10)) false.

Lemma sample_region_valid : valid sample_region.
Proof. split; cbn; (lia || done). Qed.

Lemma HeapAllocate_spec_witness : valid sample_region /\ is_u32 4 /\
  wp (HeapAllocate 4) (fun blocks r' => used r' = 4) sample_region.
Proof.
  split; [exact sample_region_valid|]. split; [unfold is_u32; lia|].
  assert (Hs : is_u32 4) by (unfold is_u32; lia).
  eapply wp_mono; [apply (HeapAllocate_spec sample_region 4 sample_region_valid Hs)|].
  intros bl r' [_ Hr]. change (free_size sample_region) with 16 in Hr. cbn in Hr. apply Hr.
Defined.

Lemma LinearAllocate_spec_witness : valid sample_region /\
  wp (LinearAllocate 4) (fun res r' => forall a, res = Some a -> used r' = 4) sample_region.
Proof.
  split; [exact sample_region_valid|]. assert (Hs : 0 < 4 < 2 ^ 32) by lia.
  eapply wp_mono; [apply (proj1 (LinearAllocate_spec sample_region 4 sample_region_valid Hs))|].
  intros res r' Hr a ->. apply Hr.
Defined.

Lemma allocator_accounts_witness : exists r, history r (∅ ∪ points [(0, 0 + 4)]) /\
  wp (Free 0 4) (fun _ r' => history r' ((∅ ∪ points [(0, 0 + 4)]) ∖ points [(0, 0 + 4)])) r.
Proof.
  assert (Hh : exists r, history (IS:=SortedList.t) r (∅ ∪ points [(0, 0 + 4)])).
  { assert (Hreset : history sample_region ∅).
    { apply (history_reset 0 0x10 sample_region); [lia..|reflexivity]. }
    eexists. apply (history_linear sample_region ∅ 4 0 _ Hreset); [unfold is_u32; lia|].
    vm_compute. reflexivity. }
  destruct Hh as [r Hh]. exists r. split; [exact Hh|].
  apply (allocator_accounts r _ Hh); [lia..|set_solver].
Defined.

Lemma MemoryInit_spec_witness :
  is_u32 0 /\ is_locked sample_region = false /\
  init_post false true true (MemoryInit false 0 0 [sample_region; sample_region; sample_region]).
Proof.
  assert (Hm : is_u32 0) by (unfold is_u32; lia). split; [exact Hm|]. split; [reflexivity|].
  apply (MemoryInit_spec false 0 0 sample_region sample_region sample_region Hm). repeat split; reflexivity.
Defined.
