(* ===== verification/Memory.v ===== *)
(** [Memory::MemorySystem] (src/.../core/memory.{h,cpp}, common/memory_ref.h):
    references into host memory, page tables, the marks of pages the rasterizer
    caches, and every access to guest memory. *)

From S2P Require Import Prelude MemoryMap.

(** ** Host memory (common/memory_ref.h) *)

(** [BackingMem]: the four memories of the system and the buffers. *)
Inductive backing := FcramMem | VramMem | DspMem | N3dsExtraRamMem | BufferMem (id : Z).
#[export] Instance backing_eq_dec : EqDecision backing.
Proof. solve_decision. Defined.

(** Where the host's allocator puts a backing memory, and how large the buffers are. *)
Class Host := { host_ptr : backing -> Z; buffer_size : Z -> Z }.

Section MemoryRef.
Context `{Host}.

(** [MemorySystem::Impl::GetSize] and [BufferMem::GetSize] *)
Definition backing_size (b : backing) : Z :=
  match b with
  | FcramMem => FCRAM_N3DS_SIZE
  | VramMem => VRAM_SIZE
  | DspMem => DSP_RAM_SIZE
  | N3dsExtraRamMem => N3DS_EXTRA_RAM_SIZE
  | BufferMem id => buffer_size id
  end.

(** A [MemoryRef]: null, or a backing memory and an offset into it. *)
Definition MemoryRef : Type := option (backing * Z).

Definition GetPtr (r : MemoryRef) : Z := match r with Some (b, o) => host_ptr b + o | None => 0 end.
Definition GetSize (r : MemoryRef) : Z := match r with Some (b, o) => backing_size b - o | None => 0 end.

(** [MemoryRef(backing_mem, offset)]: [ASSERT(offset <= backing_mem->GetSize())] *)
Definition make_ref {S} (b : backing) (offset : Z) : M S MemoryRef :=
  ASSERT (offset <=? backing_size b);; mret (Some (b, offset)).

(** [operator+=] and [operator+]: [ASSERT(offset_by < csize)] *)
Definition ref_add {S} (r : MemoryRef) (offset_by : Z) : M S MemoryRef :=
  ASSERT (offset_by <? GetSize r);;
  match r with
  | Some (b, o) => mret (Some (b, o + offset_by))
  | None => mret None
  end.

(** The host's allocator hands out memory that is not at address 0, and no two
    allocations overlap or touch (it keeps its own words between them). *)
Record host_laws : Prop := {
  host_positive b : 0 < host_ptr b;
  host_apart b c : b <> c -> host_ptr b + backing_size b < host_ptr c \/ host_ptr c + backing_size c < host_ptr b;
  buffer_size_nonneg i : 0 <= buffer_size i;
}.
End MemoryRef.

(** ** Little-endian bytes, which [memcpy] moves between memory and integers *)

Fixpoint le_decode (l : list Z) : Z := match l with [] => 0 | b :: l' => b + 256 * le_decode l' end.
Fixpoint le_encode (n : nat) (z : Z) : list Z :=
  match n with O => [] | S n' => z mod 256 :: le_encode n' (z / 256) end.

(** ** Devices: the rasterizer, the MMIO handlers and the registers of [HW::Read]
    and [HW::Write], behind the virtual interfaces the code calls them through. *)

(** [FlushMode] *)
Inductive FlushMode := Flush | Invalidate | FlushAndInvalidate.
#[export] Instance FlushMode_eq_dec : EqDecision FlushMode.
Proof. solve_decision. Defined.

(** What the rasterizer is told. *)
Inductive RasterizerCommand := FlushRegion (mode : FlushMode) (start size : Z) | ClearAll (flush : bool).
#[export] Instance RasterizerCommand_eq_dec : EqDecision RasterizerCommand.
Proof. solve_decision. Defined.

Definition contents_t : Type := backing -> Z -> Z.

Class Devices (D : Type) := {
  rasterize : RasterizerCommand -> contents_t -> contents_t;
  mmio_valid : Z -> VAddr -> D -> bool * D;
  mmio_read : Z -> nat -> VAddr -> D -> Z * D;
  mmio_read_block : Z -> VAddr -> nat -> D -> list Z * D;
  mmio_write : Z -> nat -> VAddr -> Z -> D -> D;
  mmio_write_block : Z -> VAddr -> list Z -> D -> D;
  hw_read : nat -> VAddr -> D -> Z * D;
  hw_write : nat -> VAddr -> Z -> D -> D;
}.

(** ** Page tables *)

(** [enum class PageType] *)
Inductive PageType := Unmapped | MemoryPage | RasterizerCachedMemory | Special.
#[export] Instance PageType_eq_dec : EqDecision PageType.
Proof. solve_decision. Defined.

Record SpecialRegion := mkSpecialRegion { region_base : VAddr; region_size : Z; handler : option Z }.

(** The arrays over all pages are maps: a page they do not hold has the value
    [PageTable::Clear] fills them with. *)
Record PageTable := mkPageTable {
  pointers : gmap Z (backing * Z);
  special_regions : list SpecialRegion;
  attributes : gmap Z PageType;
}.
#[export] Instance eta_PageTable : Eta PageTable := fun p =>
  mkPageTable (pointers p) (special_regions p) (attributes p).

Definition pointer_at (i : Z) (pt : PageTable) : MemoryRef := pointers pt !! i.
Definition attribute_at (i : Z) (pt : PageTable) : PageType := default Unmapped (attributes pt !! i).

Definition set_pointer (i : Z) (r : MemoryRef) (pt : PageTable) : PageTable :=
  pt <| pointers ::= fun m => match r with Some x => <[i := x]> m | None => delete i m end |>.
Definition set_attribute (i : Z) (t : PageType) (pt : PageTable) : PageTable :=
  pt <| attributes ::= fun m => match t with Unmapped => delete i m | _ => <[i := t]> m end |>.

(** [PageTable::Clear]: the special regions stay. *)
Definition Clear (pt : PageTable) : PageTable := pt <| pointers := ∅ |> <| attributes := ∅ |>.
Definition new_PageTable : PageTable := mkPageTable ∅ [] ∅.

(** ** [RasterizerCacheMarker] *)

(** The four arrays of flags. *)
Inductive marker_area := vram_flags | linear_heap_flags | new_linear_heap_flags | plugin_fb_flags.
#[export] Instance marker_area_eq_dec : EqDecision marker_area.
Proof. solve_decision. Defined.
#[export] Instance marker_area_countable : Countable marker_area.
Proof.
  refine (inj_countable' (fun a => match a with vram_flags => 0 | linear_heap_flags => 1 |
    new_linear_heap_flags => 2 | plugin_fb_flags => 3 end)
    (fun z => if z =? 0 then vram_flags else if z =? 1 then linear_heap_flags
      else if z =? 2 then new_linear_heap_flags else plugin_fb_flags) _).
  by intros [].
Defined.
Definition CacheMarker : Type := gset (marker_area * Z).

(** [RasterizerCacheMarker::At] *)
Definition At (addr : VAddr) : option (marker_area * Z) :=
  if (VRAM_VADDR <=? addr) && (addr <? VRAM_VADDR_END) then
    Some (vram_flags, (addr - VRAM_VADDR) / CITRA_PAGE_SIZE)
  else if (LINEAR_HEAP_VADDR <=? addr) && (addr <? LINEAR_HEAP_VADDR_END) then
    Some (linear_heap_flags, (addr - LINEAR_HEAP_VADDR) / CITRA_PAGE_SIZE)
  else if (NEW_LINEAR_HEAP_VADDR <=? addr) && (addr <? NEW_LINEAR_HEAP_VADDR_END) then
    Some (new_linear_heap_flags, (addr - NEW_LINEAR_HEAP_VADDR) / CITRA_PAGE_SIZE)
  else if (PLUGIN_3GX_FB_VADDR <=? addr) && (addr <? PLUGIN_3GX_FB_VADDR_END) then
    Some (plugin_fb_flags, (addr - PLUGIN_3GX_FB_VADDR) / CITRA_PAGE_SIZE)
  else None.

(** [RasterizerCacheMarker::Mark] and [RasterizerCacheMarker::IsCached] *)
Definition Mark (addr : VAddr) (cached : bool) (m : CacheMarker) : CacheMarker :=
  match At addr with
  | Some p => if cached then {[p]} ∪ m else m ∖ {[p]}
  | None => m
  end.
Definition IsCached (addr : VAddr) (m : CacheMarker) : bool :=
  match At addr with Some p => bool_decide (p ∈ m) | None => false end.

(** ** The memory system *)

Section MemorySystem.
Context `{Host} `{Devices D}.

(** [page_tables] are the page tables the shared pointers of processes and of
    this class point to, by identity; [renderer] tells whether
    [VideoCore::g_renderer] exists; [plugin_fb_addr] is the static of PLG_LDR. *)
Record MemorySystem := mkMemorySystem {
  contents : contents_t;
  page_tables : gmap Z PageTable;
  current_page_table : option Z;
  cache_marker : CacheMarker;
  page_table_list : list Z;
  renderer : bool;
  plugin_fb_addr : PAddr;
  rasterizer_log : list RasterizerCommand;
  devices : D;
}.
#[export] Instance eta_MemorySystem : Eta MemorySystem := fun s =>
  mkMemorySystem (contents s) (page_tables s) (current_page_table s) (cache_marker s) (page_table_list s)
    (renderer s) (plugin_fb_addr s) (rasterizer_log s) (devices s).
Abbreviation M := (M MemorySystem).

Definition get_table (pt : Z) : M PageTable := s ← get; deref (page_tables s !! pt).
Definition set_table (pt : Z) (f : PageTable -> PageTable) : M unit :=
  modify (fun s => s <| page_tables ::= fun m => match m !! pt with Some t => <[pt := f t]> m | None => m end |>).

(** [memcpy] out of and into host memory; leaving the allocation is undefined. *)
Definition load (r : MemoryRef) (offset : Z) (n : nat) : M (list Z) :=
  '(b, o) ← deref r;
  if (0 <=? o + offset) && (o + offset + Z.of_nat n <=? backing_size b)
  then gets (fun s => (fun i => contents s b i) <$> seqZ (o + offset) (Z.of_nat n))
  else crash UndefinedBehaviour.
Definition store_bytes (b : backing) (o : Z) (data : list Z) (c : contents_t) : contents_t := fun b' i =>
  if bool_decide (b' = b) && (o <=? i) && (i <? o + Z.of_nat (length data))
  then default 0 (data !! Z.to_nat (i - o)) else c b' i.
Definition store (r : MemoryRef) (offset : Z) (data : list Z) : M unit :=
  '(b, o) ← deref r;
  if (0 <=? o + offset) && (o + offset + Z.of_nat (length data) <=? backing_size b)
  then modify (fun s => s <| contents ::= store_bytes b (o + offset) data |>)
  else crash UndefinedBehaviour.

Definition device {A} (f : D -> A * D) : M A := fun s =>
  let '(a, d) := f (devices s) in Ret (a, s <| devices := d |>).

(** *** Calls to the rasterizer *)

Definition rasterizer_call (c : RasterizerCommand) : M unit :=
  modify (fun s => s <| contents ::= rasterize c |> <| rasterizer_log ::= fun l => l ++ [c] |>).
Definition RasterizerFlushRegion (start size : Z) : M unit :=
  s ← get; if renderer s then rasterizer_call (FlushRegion Flush start size) else mret tt.
Definition RasterizerInvalidateRegion (start size : Z) : M unit :=
  s ← get; if renderer s then rasterizer_call (FlushRegion Invalidate start size) else mret tt.
Definition RasterizerFlushAndInvalidateRegion (start size : Z) : M unit :=
  s ← get; if renderer s then rasterizer_call (FlushRegion FlushAndInvalidate start size) else mret tt.
Definition RasterizerClearAll (flush : bool) : M unit :=
  s ← get; if renderer s then rasterizer_call (ClearAll flush) else mret tt.

(** [CheckRegion], the lambda of [RasterizerFlushVirtualRegion] *)
Definition CheckRegion (start endv : VAddr) (mode : FlushMode) (region_start region_end : VAddr)
    (paddr_region_start : PAddr) : M unit :=
  if (region_end <=? start) || (endv <=? region_start) then mret tt
  else
    let overlap_start := Z.max start region_start in
    let overlap_end := Z.min endv region_end in
    let physical_start := u32 (paddr_region_start + (overlap_start - region_start)) in
    let overlap_size := u32 (overlap_end - overlap_start) in
    rasterizer_call (FlushRegion mode physical_start overlap_size).

Definition RasterizerFlushVirtualRegion (start : VAddr) (size : Z) (mode : FlushMode) : M unit :=
  s ← get;
  if negb (renderer s) then mret tt
  else
    let endv := u32 (start + size) in
    CheckRegion start endv mode LINEAR_HEAP_VADDR LINEAR_HEAP_VADDR_END FCRAM_PADDR;;
    CheckRegion start endv mode NEW_LINEAR_HEAP_VADDR NEW_LINEAR_HEAP_VADDR_END FCRAM_PADDR;;
    CheckRegion start endv mode VRAM_VADDR VRAM_VADDR_END VRAM_PADDR;;
    s ← get;
    if negb (plugin_fb_addr s =? 0)
    then CheckRegion start endv mode PLUGIN_3GX_FB_VADDR PLUGIN_3GX_FB_VADDR_END (plugin_fb_addr s)
    else mret tt.

(** *** Mapping *)

(** The loop of [MapPages], [n] pages from page [base]. *)
Fixpoint map_pages_loop (pt : Z) (n : nat) (base : Z) (memory : MemoryRef) (type : PageType) : M unit :=
  match n with
  | O => mret tt
  | S n' =>
      ASSERT (base <? PAGE_TABLE_NUM_ENTRIES);;
      set_table pt (fun t => set_pointer base memory (set_attribute base type t));;
      s ← get;
      (if bool_decide (type = MemoryPage) && IsCached (u32 (base * CITRA_PAGE_SIZE)) (cache_marker s)
       then set_table pt (fun t => set_pointer base None (set_attribute base RasterizerCachedMemory t))
       else mret tt);;
      memory ← (if negb (GetPtr memory =? 0) && (CITRA_PAGE_SIZE <? GetSize memory)
                then ref_add memory CITRA_PAGE_SIZE else mret memory);
      map_pages_loop pt n' (u32 (base + 1)) memory type
  end.

Definition MapPages (pt : Z) (base size : Z) (memory : MemoryRef) (type : PageType) : M unit :=
  RasterizerFlushVirtualRegion (u32 (Z.shiftl base CITRA_PAGE_BITS)) (u32 (size * CITRA_PAGE_SIZE)) FlushAndInvalidate;;
  map_pages_loop pt (Z.to_nat size) base memory type.

Definition assert_aligned (base size : Z) : M unit :=
  ASSERT (Z.land size CITRA_PAGE_MASK =? 0);; ASSERT (Z.land base CITRA_PAGE_MASK =? 0).

Definition MapMemoryRegion (pt : Z) (base size : Z) (target : MemoryRef) : M unit :=
  assert_aligned base size;;
  MapPages pt (base / CITRA_PAGE_SIZE) (size / CITRA_PAGE_SIZE) target MemoryPage.

Definition MapIoRegion (pt : Z) (base size : Z) (mmio_handler : option Z) : M unit :=
  assert_aligned base size;;
  MapPages pt (base / CITRA_PAGE_SIZE) (size / CITRA_PAGE_SIZE) None Special;;
  set_table pt (fun t => t <| special_regions ::= fun l => l ++ [mkSpecialRegion base size mmio_handler] |>).

Definition UnmapRegion (pt : Z) (base size : Z) : M unit :=
  assert_aligned base size;;
  MapPages pt (base / CITRA_PAGE_SIZE) (size / CITRA_PAGE_SIZE) None Unmapped.

Definition SetCurrentPageTable (pt : option Z) : M unit := modify (fun s => s <| current_page_table := pt |>).
Definition GetCurrentPageTable : M (option Z) := gets current_page_table.
Definition RegisterPageTable (pt : Z) : M unit := modify (fun s => s <| page_table_list ::= fun l => l ++ [pt] |>).
(** [std::find] and [erase]: the first occurrence. *)
Fixpoint erase_first (pt : Z) (l : list Z) : list Z :=
  match l with [] => [] | x :: l' => if x =? pt then l' else x :: erase_first pt l' end.
Definition UnregisterPageTable (pt : Z) : M unit := modify (fun s => s <| page_table_list ::= erase_first pt |>).

(** *** Finding the memory behind an address *)

Definition GetPointerForRasterizerCache (addr : VAddr) : M MemoryRef :=
  if (LINEAR_HEAP_VADDR <=? addr) && (addr <? LINEAR_HEAP_VADDR_END) then make_ref FcramMem (addr - LINEAR_HEAP_VADDR)
  else if (NEW_LINEAR_HEAP_VADDR <=? addr) && (addr <? NEW_LINEAR_HEAP_VADDR_END) then
    make_ref FcramMem (addr - NEW_LINEAR_HEAP_VADDR)
  else if (VRAM_VADDR <=? addr) && (addr <? VRAM_VADDR_END) then make_ref VramMem (addr - VRAM_VADDR)
  else if (PLUGIN_3GX_FB_VADDR <=? addr) && (addr <? PLUGIN_3GX_FB_VADDR_END) then
    s ← get; make_ref FcramMem (u32 (addr - PLUGIN_3GX_FB_VADDR + plugin_fb_addr s - FCRAM_PADDR))
  else crash AssertFailed.

Definition memory_areas : list (PAddr * Z * backing) :=
  [ (VRAM_PADDR, VRAM_SIZE, VramMem);
    (DSP_RAM_PADDR, DSP_RAM_SIZE, DspMem);
    (FCRAM_PADDR, FCRAM_N3DS_SIZE, FcramMem);
    (N3DS_EXTRA_RAM_PADDR, N3DS_EXTRA_RAM_SIZE, N3dsExtraRamMem) ].

(** The end of an area is inclusive: the caller can pass an open right bound. *)
Definition GetPhysicalRef (address : PAddr) : M MemoryRef :=
  match find (fun a : PAddr * Z * backing => (a.1.1 <=? address) && (address <=? a.1.1 + a.1.2)) memory_areas with
  | None => mret None
  | Some (first, _, target_mem) =>
      let offset_into_region := address - first in
      if backing_size target_mem <? offset_into_region then mret None else make_ref target_mem offset_into_region
  end.
Definition IsValidPhysicalAddress (paddr : PAddr) : M bool := r ← GetPhysicalRef paddr; mret (negb (GetPtr r =? 0)).

Definition GetFCRAMRef (offset : Z) : M MemoryRef :=
  ASSERT (offset <=? FCRAM_N3DS_SIZE);; make_ref FcramMem offset.
(** [GetFCRAMPointer]: a pointer into [impl->fcram]. *)
Definition GetFCRAMPointer (offset : Z) : M MemoryRef :=
  ASSERT (offset <=? FCRAM_N3DS_SIZE);; mret (Some (FcramMem, offset)).
(** [GetFCRAMOffset]: of a host pointer, which must be into FCRAM. *)
Definition GetFCRAMOffset (pointer : Z) : M Z :=
  ASSERT ((host_ptr FcramMem <=? pointer) && (pointer <=? host_ptr FcramMem + FCRAM_N3DS_SIZE));;
  mret (u32 (pointer - host_ptr FcramMem)).

Definition PhysicalToVirtualAddressForRasterizer (plugin_fb : PAddr) (addr : PAddr) : list VAddr :=
  if (VRAM_PADDR <=? addr) && (addr <? VRAM_PADDR_END) then [u32 (addr - VRAM_PADDR + VRAM_VADDR)]
  else if (plugin_fb <=? addr) && (addr <? u32 (plugin_fb + PLUGIN_3GX_FB_SIZE)) then
    [u32 (addr - plugin_fb + PLUGIN_3GX_FB_VADDR)]
  else if (FCRAM_PADDR <=? addr) && (addr <? FCRAM_PADDR_END) then
    [u32 (addr - FCRAM_PADDR + LINEAR_HEAP_VADDR); u32 (addr - FCRAM_PADDR + NEW_LINEAR_HEAP_VADDR)]
  else if (FCRAM_PADDR_END <=? addr) && (addr <? FCRAM_N3DS_PADDR_END) then
    [u32 (addr - FCRAM_PADDR + NEW_LINEAR_HEAP_VADDR)]
  else [].

(** [GetMMIOHandler]: the first special region that holds the address. *)
Definition GetMMIOHandler (t : PageTable) (vaddr : VAddr) : M (option Z) :=
  match find (fun r => (region_base r <=? vaddr) && (vaddr <? u32 (region_base r + region_size r))) (special_regions t) with
  | Some r => mret (handler r)
  | None => crash AssertFailed
  end.

(** *** Marking pages as cached by the rasterizer *)

(** The body of the loop over [page_table_list] *)
Definition mark_page (vaddr : VAddr) (cached : bool) (pt : Z) : M unit :=
  let i := Z.shiftr vaddr CITRA_PAGE_BITS in
  t ← get_table pt;
  if cached then
    match attribute_at i t with
    | Unmapped => mret tt
    | MemoryPage => set_table pt (fun t => set_pointer i None (set_attribute i RasterizerCachedMemory t))
    | _ => crash AssertFailed
    end
  else
    match attribute_at i t with
    | Unmapped => mret tt
    | RasterizerCachedMemory =>
        set_table pt (set_attribute i MemoryPage);;
        r ← GetPointerForRasterizerCache (Z.land vaddr (Z.lnot CITRA_PAGE_MASK));
        set_table pt (set_pointer i r)
    | _ => crash AssertFailed
    end.

(** The pages of the loop [for (unsigned i = 0; i < num_pages; ++i, paddr += CITRA_PAGE_SIZE)] *)
Fixpoint mark_pages (n : nat) (paddr : PAddr) (cached : bool) : M unit :=
  match n with
  | O => mret tt
  | S n' =>
      s ← get;
      for_each (PhysicalToVirtualAddressForRasterizer (plugin_fb_addr s) paddr) (fun vaddr =>
        modify (fun s => s <| cache_marker ::= Mark vaddr cached |>);;
        s ← get;
        for_each (page_table_list s) (mark_page vaddr cached));;
      mark_pages n' (u32 (paddr + CITRA_PAGE_SIZE)) cached
  end.

Definition RasterizerMarkRegionCached (start : PAddr) (size : Z) (cached : bool) : M unit :=
  if start =? 0 then mret tt
  else
    let num_pages := u32 (Z.shiftr (u32 (start + size - 1)) CITRA_PAGE_BITS - Z.shiftr start CITRA_PAGE_BITS + 1) in
    mark_pages (Z.to_nat num_pages) start cached.

(** ** Invariants *)

(** Two states that differ in host memory, devices and the log only. *)
Record same_tables (s s' : MemorySystem) : Prop := {
  same_page_tables : page_tables s' = page_tables s;
  same_current : current_page_table s' = current_page_table s;
  same_marker : cache_marker s' = cache_marker s;
  same_list : page_table_list s' = page_table_list s;
  same_renderer : renderer s' = renderer s;
  same_plugin_fb : plugin_fb_addr s' = plugin_fb_addr s;
}.

(** The memory of page [k] of a mapping, and what [MapPages] leaves in the arrays. *)
Definition page_ref (memory : MemoryRef) (k : Z) : MemoryRef :=
  match memory with Some (b, o) => Some (b, o + k * CITRA_PAGE_SIZE) | None => None end.
Definition mapped_cached (cm : CacheMarker) (type : PageType) (i : Z) : bool :=
  bool_decide (type = MemoryPage) && IsCached (u32 (i * CITRA_PAGE_SIZE)) cm.
Definition mapped_attribute (cm : CacheMarker) (type : PageType) (i : Z) : PageType :=
  if mapped_cached cm type i then RasterizerCachedMemory else type.
Definition mapped_pointer (cm : CacheMarker) (type : PageType) (memory : MemoryRef) (k i : Z) : MemoryRef :=
  if mapped_cached cm type i then None else page_ref memory k.
(** [memory] is null or backs [n] whole pages. *)
Definition backs (memory : MemoryRef) (n : Z) : Prop :=
  match memory with Some (b, o) => 0 <= o /\ o + n * CITRA_PAGE_SIZE <= backing_size b | None => True end.

(** The documented rule of the two arrays (a pointer is non-null exactly on pages
    of type Memory), and their agreement with the marks of the cache. *)
Record table_wf (cm : CacheMarker) (t : PageTable) : Prop := {
  wf_pointer i : pointer_at i t <> None <-> attribute_at i t = MemoryPage;
  wf_uncached i : 0 <= i < PAGE_TABLE_NUM_ENTRIES ->
    attribute_at i t = MemoryPage -> IsCached (i * CITRA_PAGE_SIZE) cm = false;
  wf_cached i : 0 <= i < PAGE_TABLE_NUM_ENTRIES ->
    attribute_at i t = RasterizerCachedMemory -> IsCached (i * CITRA_PAGE_SIZE) cm = true;
}.

(** The memory the rasterizer's pages stand for ([GetPointerForRasterizerCache]). *)
Definition cache_ref (plugin_fb : PAddr) (addr : VAddr) : MemoryRef :=
  if (LINEAR_HEAP_VADDR <=? addr) && (addr <? LINEAR_HEAP_VADDR_END) then Some (FcramMem, addr - LINEAR_HEAP_VADDR)
  else if (NEW_LINEAR_HEAP_VADDR <=? addr) && (addr <? NEW_LINEAR_HEAP_VADDR_END) then
    Some (FcramMem, addr - NEW_LINEAR_HEAP_VADDR)
  else if (VRAM_VADDR <=? addr) && (addr <? VRAM_VADDR_END) then Some (VramMem, addr - VRAM_VADDR)
  else if (PLUGIN_3GX_FB_VADDR <=? addr) && (addr <? PLUGIN_3GX_FB_VADDR_END) then
    Some (FcramMem, u32 (addr - PLUGIN_3GX_FB_VADDR + plugin_fb - FCRAM_PADDR))
  else None.
(** The memory a page reads and writes, whether it is cached or not. *)
Definition effective_ref (plugin_fb : PAddr) (i : Z) (t : PageTable) : MemoryRef :=
  match attribute_at i t with
  | MemoryPage => pointer_at i t
  | RasterizerCachedMemory => cache_ref plugin_fb (i * CITRA_PAGE_SIZE)
  | _ => None
  end.

(** ** Lemmas *)

Lemma attribute_at_set i j ty t :
  attribute_at j (set_attribute i ty t) = if bool_decide (i = j) then ty else attribute_at j t.
Proof.
  unfold attribute_at, set_attribute. cbn. case_bool; subst.
  - destruct ty; by rewrite ?lookup_delete_eq, ?lookup_insert_eq.
  - destruct ty; by rewrite ?lookup_delete_ne, ?lookup_insert_ne.
Qed.
Lemma attribute_at_set_pointer i j r t : attribute_at j (set_pointer i r t) = attribute_at j t.
Proof. done. Qed.
Lemma pointer_at_set i j r t :
  pointer_at j (set_pointer i r t) = if bool_decide (i = j) then r else pointer_at j t.
Proof.
  unfold pointer_at, set_pointer. cbn. case_bool; subst.
  - destruct r as [x|]; by rewrite ?lookup_delete_eq, ?lookup_insert_eq.
  - destruct r as [x|]; by rewrite ?lookup_delete_ne, ?lookup_insert_ne.
Qed.
Lemma pointer_at_set_attribute i j ty t : pointer_at j (set_attribute i ty t) = pointer_at j t.
Proof. done. Qed.

Lemma same_tables_refl s : same_tables s s.
Proof. done. Qed.
Lemma same_tables_trans s1 s2 s3 : same_tables s1 s2 -> same_tables s2 s3 -> same_tables s1 s3.
Proof. intros [] []; split; congruence. Qed.

(** A preorder every command of the rasterizer is in holds over a flush. *)
Definition commanded (c : RasterizerCommand) (s : MemorySystem) : MemorySystem :=
  s <| contents ::= rasterize c |> <| rasterizer_log ::= fun l => l ++ [c] |>.
Lemma wp_flush_rel (R : MemorySystem -> MemorySystem -> Prop) `{!PreOrder R} start size mode Q s :
  (forall c s', R s' (commanded c s')) -> (forall s', R s s' -> Q tt s') ->
  wp (RasterizerFlushVirtualRegion start size mode) Q s.
Proof.
  intros HR HQ.
  assert (Hcheck : forall start e mode rs re ps Q s, (forall s', R s s' -> Q tt s') -> wp (CheckRegion start e mode rs re ps) Q s).
  { intros st e m rs re ps Q' s' HQ'. unfold CheckRegion. case_match; [by apply HQ'|]. apply HQ', HR. }
  unfold RasterizerFlushVirtualRegion. wp_step. wp_step. destruct (renderer s); cbn [negb]; [|by apply HQ].
  do 3 (wp_step; apply Hcheck; intros ? ?). wp_step. wp_step.
  assert (Hs : forall s', R s'1 s' -> R s s') by (intros; do 3 (etrans; [eassumption|]); done).
  case_match; [apply Hcheck; auto|]. by apply HQ, Hs.
Qed.
#[export] Instance same_tables_preorder : PreOrder same_tables.
Proof. split; [intros s; apply same_tables_refl|intros s1 s2 s3; apply same_tables_trans]. Qed.
Lemma wp_RasterizerFlushVirtualRegion start size mode Q s :
  (forall s', same_tables s s' -> Q tt s') -> wp (RasterizerFlushVirtualRegion start size mode) Q s.
Proof. apply (wp_flush_rel same_tables). done. Qed.

Lemma wp_get_table pt t Q s : page_tables s !! pt = Some t -> Q t s -> wp (get_table pt) Q s.
Proof. intros Ht HQ. unfold get_table. do 2 wp_step. by apply (wp_deref _ t). Qed.
Lemma wp_set_table pt f t Q s :
  page_tables s !! pt = Some t ->
  Q tt (s <| page_tables := <[pt := f t]> (page_tables s) |>) -> wp (set_table pt f) Q s.
Proof.
  intros Ht HQ. unfold set_table. wp_step. unfold set_field in *; cbn in *. by rewrite Ht.
Qed.

(** The loop of [MapPages] fills the pages of the range and touches nothing else. *)
Lemma map_pages_loop_spec (Hh : host_laws) pt ty n base memory t s :
  page_tables s !! pt = Some t -> 0 <= base -> base + Z.of_nat n <= PAGE_TABLE_NUM_ENTRIES ->
  backs memory (Z.of_nat n) ->
  wp (map_pages_loop pt n base memory ty) (fun _ s' => exists t',
    s' = s <| page_tables := <[pt := t']> (page_tables s) |> /\ special_regions t' = special_regions t /\
    (forall i, attribute_at i t' =
       if (base <=? i) && (i <? base + Z.of_nat n) then mapped_attribute (cache_marker s) ty i else attribute_at i t) /\
    (forall i, pointer_at i t' =
       if (base <=? i) && (i <? base + Z.of_nat n)
       then mapped_pointer (cache_marker s) ty memory (i - base) i else pointer_at i t)) s.
Proof.
  revert base memory t s. induction n as [|n IH]; intros base memory t s Ht Hb He Hm; cbn [map_pages_loop].
  { apply wp_ret. exists t. split; [destruct s; unfold set_field; cbn in *; by rewrite insert_id|].
    split; [done|]. split; intros i; by rewrite in_range_false by lia. }
  wp_step. wp_step; [apply Z.ltb_lt; lia|]. wp_step. apply (wp_set_table _ _ t); [done|].
  set (s1 := s <| page_tables := _ |>). set (t1 := set_pointer base memory (set_attribute base ty t)) in *.
  wp_step. wp_step. wp_step.
  change (cache_marker s1) with (cache_marker s). fold (mapped_cached (cache_marker s) ty base).
  set (t2 := set_pointer base (mapped_pointer (cache_marker s) ty memory 0 base)
    (set_attribute base (mapped_attribute (cache_marker s) ty base) t)).
  apply (wp_mono _ (fun _ s2 => s2 = s <| page_tables := <[pt := if mapped_cached (cache_marker s) ty base
     then set_pointer base None (set_attribute base RasterizerCachedMemory t1) else t1]> (page_tables s) |>)).
  { destruct (mapped_cached _ _ _); [|done].
    apply (wp_set_table _ _ t1); [apply lookup_insert_eq|]. unfold s1, set_field; cbn. by rewrite insert_insert_eq. }
  intros [] s2 ->. set (t3 := if mapped_cached _ _ _ then _ else _).
  assert (Hattr : forall i, attribute_at i t3 = attribute_at i t2).
  { intros i. unfold t3, t2, t1, mapped_attribute. destruct (mapped_cached _ _ _);
      repeat rewrite ?attribute_at_set_pointer, ?attribute_at_set; by repeat case_bool. }
  assert (Hptr : forall i, pointer_at i t3 = pointer_at i t2).
  { intros i. unfold t3, t2, t1, mapped_pointer. destruct (mapped_cached _ _ _);
      repeat rewrite ?pointer_at_set, ?pointer_at_set_attribute; repeat case_bool; try done.
    destruct memory as [[b o]|]; [|done]. cbn. by rewrite Z.add_0_r. }
  assert (Hspec : special_regions t3 = special_regions t).
  { unfold t3, t1. by destruct (mapped_cached _ _ _). }
  clearbody t3. clear s1 t1. wp_step.
  apply (wp_mono _ (fun m s' => s' = s <| page_tables := <[pt := t3]> (page_tables s) |> /\
    (n = O \/ m = page_ref memory 1))).
  { destruct memory as [[b o]|]; cbn [GetPtr GetSize backs] in *.
    - pose proof (host_positive Hh b). rewrite (proj2 (Z.eqb_neq _ _)) by lia. cbn [negb andb].
      unfold CITRA_PAGE_SIZE in *. case_bool; [|apply wp_ret; split; [done|left; lia]].
      unfold ref_add. wp_step. wp_step; [apply Z.ltb_lt; done|]. apply wp_ret. split; [done|right; done].
    - apply wp_ret. split; [done|by right]. }
  intros m s2 [-> Hm'].
  rewrite u32_small by page_lia.
  destruct Hm' as [->|Hm'].
  { apply wp_ret. exists t3. split; [done|]. split; [done|]. split; intros i; [rewrite Hattr|rewrite Hptr].
    - unfold t2. rewrite attribute_at_set_pointer, attribute_at_set.
      destruct (decide (base = i)) as [->|Hne]; [rewrite bool_decide_eq_true_2 by done|rewrite bool_decide_eq_false_2 by done].
      + by rewrite in_range_true by lia.
      + by rewrite in_range_false by lia.
    - unfold t2. rewrite pointer_at_set, pointer_at_set_attribute.
      destruct (decide (base = i)) as [->|Hne]; [rewrite bool_decide_eq_true_2 by done|rewrite bool_decide_eq_false_2 by done].
      + by rewrite in_range_true, Z.sub_diag by lia.
      + by rewrite in_range_false by lia. }
  eapply wp_mono; [eapply (IH (base + 1) m t3); cbn|].
  - apply lookup_insert_eq.
  - lia.
  - lia.
  - subst m. destruct memory as [[b o]|]; cbn in *; [|done]. unfold CITRA_PAGE_SIZE in *. lia.
  - cbn. intros [] s' (t' & -> & Hsp & Ha & Hp). exists t'. split; [unfold set_field; cbn; by rewrite insert_insert_eq|].
    split; [by rewrite Hsp|].
    assert (Hif : forall i, (base <=? i) && (i <? base + Z.of_nat (S n)) =
      bool_decide (base = i) || ((base + 1 <=? i) && (i <? base + 1 + Z.of_nat n))).
    { intros i. apply eq_true_iff_eq. rewrite orb_true_iff, !andb_true_iff, bool_decide_eq_true. rewrite !Z.leb_le, !Z.ltb_lt. lia. }
    split; intros i; rewrite Hif; [rewrite Ha, Hattr|rewrite Hp, Hptr]; unfold t2.
    + rewrite attribute_at_set_pointer, attribute_at_set. case_dec (base = i); subst; cbn [orb]; [|done].
      by rewrite in_range_false by lia.
    + rewrite pointer_at_set, pointer_at_set_attribute. case_dec (base = i); subst; cbn [orb].
      * rewrite in_range_false by lia. by rewrite Z.sub_diag.
      * case_match; [|done]. unfold mapped_pointer. case_match; [done|].
        destruct memory as [[b o]|]; [|done]. cbn. f_equal. f_equal. lia.
Qed.

(** [s'] is [s] with the table [t'] for [pt], up to host memory, devices and the log. *)
Record remapped (pt : Z) (t' : PageTable) (s s' : MemorySystem) : Prop := {
  remapped_tables : page_tables s' = <[pt := t']> (page_tables s);
  remapped_current : current_page_table s' = current_page_table s;
  remapped_marker : cache_marker s' = cache_marker s;
  remapped_list : page_table_list s' = page_table_list s;
  remapped_renderer : renderer s' = renderer s;
  remapped_plugin_fb : plugin_fb_addr s' = plugin_fb_addr s;
}.
(** Pages [base, base + n) of [t'] have the given type and memory, the others are as in [t]. *)
Record pages_mapped (cm : CacheMarker) (ty : PageType) (memory : MemoryRef) (base n : Z) (t t' : PageTable) : Prop := {
  pages_attribute i : attribute_at i t' =
    if (base <=? i) && (i <? base + n) then mapped_attribute cm ty i else attribute_at i t;
  pages_pointer i : pointer_at i t' =
    if (base <=? i) && (i <? base + n) then mapped_pointer cm ty memory (i - base) i else pointer_at i t;
}.

Lemma MapPages_spec (Hh : host_laws) pt ty n base memory t s :
  page_tables s !! pt = Some t -> 0 <= base -> 0 <= n -> base + n <= PAGE_TABLE_NUM_ENTRIES -> backs memory n ->
  wp (MapPages pt base n memory ty) (fun _ s' => exists t', remapped pt t' s s' /\
    pages_mapped (cache_marker s) ty memory base n t t' /\ special_regions t' = special_regions t) s.
Proof.
  intros Ht Hb Hn He Hm. unfold MapPages. wp_step. apply wp_RasterizerFlushVirtualRegion. intros s1 [Hs1 Hs2 Hs3 Hs4 Hs5 Hs6].
  eapply wp_mono; [apply (map_pages_loop_spec Hh pt ty (Z.to_nat n) base memory t); rewrite ?Z2Nat.id by lia; try done; by rewrite Hs1|].
  cbn beta. rewrite Z2Nat.id by lia.
  intros [] s' (t' & -> & Hsp & Ha & Hp). exists t'. rewrite Hs3 in Ha, Hp. split; [|done].
  split; cbn; congruence.
Qed.

Lemma pages_mapped_wf cm ty memory base n t t' :
  0 <= base -> base + n <= PAGE_TABLE_NUM_ENTRIES -> ty <> RasterizerCachedMemory ->
  (memory <> None <-> ty = MemoryPage) -> table_wf cm t -> pages_mapped cm ty memory base n t t' -> table_wf cm t'.
Proof.
  intros Hb He Hty Hm [Hw1 Hw2 Hw3] [Ha Hp].
  assert (Hpage : forall i, base <= i < base + n -> u32 (i * CITRA_PAGE_SIZE) = i * CITRA_PAGE_SIZE).
  { intros i Hi. apply u32_small. page_lia. }
  unfold mapped_attribute, mapped_pointer, mapped_cached in *.
  split; intros i; rewrite Ha; rewrite ?Hp; destruct ((base <=? i) && (i <? base + n)) eqn:Hi; auto.
  - destruct (decide (ty = MemoryPage)) as [->|Hne].
    + rewrite bool_decide_eq_true_2 by done. cbn. destruct (IsCached _ _); [done|].
      destruct memory as [[b o]|]; [done|]. destruct Hm. naive_solver.
    + rewrite bool_decide_eq_false_2 by done. cbn [andb].
      assert (memory = None) as -> by (destruct memory; [exfalso; apply Hne, Hm; done|done]).
      cbn. split; [done|by intros].
  - intros Hir. apply in_range_spec in Hi. rewrite Hpage by done.
    case_dec (ty = MemoryPage); destruct (IsCached _ _); done.
  - intros Hir. apply in_range_spec in Hi. rewrite Hpage by done.
    destruct (bool_decide (ty = MemoryPage)), (IsCached _ _); done.
Qed.

Lemma aligned_land z : Z.land z CITRA_PAGE_MASK = z mod CITRA_PAGE_SIZE.
Proof. unfold CITRA_PAGE_MASK, CITRA_PAGE_SIZE. change (0x1000 - 1) with (Z.ones 12). by rewrite Z.land_ones by lia. Qed.
Lemma wp_assert_aligned base size Q s :
  base mod CITRA_PAGE_SIZE = 0 -> size mod CITRA_PAGE_SIZE = 0 -> Q tt s -> wp (assert_aligned base size) Q s.
Proof. intros Hb Hs HQ. unfold assert_aligned. rewrite !aligned_land, Hb, Hs. done. Qed.

(** A region of whole pages of the address space. *)
Definition page_region (base size : Z) : Prop :=
  0 <= base /\ 0 <= size /\ base + size <= 2 ^ 32 /\ base mod CITRA_PAGE_SIZE = 0 /\ size mod CITRA_PAGE_SIZE = 0.
Lemma page_region_pages base size :
  page_region base size -> 0 <= base / CITRA_PAGE_SIZE /\ 0 <= size / CITRA_PAGE_SIZE /\
  base / CITRA_PAGE_SIZE + size / CITRA_PAGE_SIZE <= PAGE_TABLE_NUM_ENTRIES.
Proof.
  unfold page_region. rewrite PAGE_TABLE_NUM_ENTRIES_eq. unfold CITRA_PAGE_SIZE. intros.
  Z.to_euclidean_division_equations. lia.
Qed.

Lemma MapMemoryRegion_spec (Hh : host_laws) pt base size target t s :
  page_tables s !! pt = Some t -> page_region base size -> backs target (size / CITRA_PAGE_SIZE) ->
  wp (MapMemoryRegion pt base size target) (fun _ s' => exists t', remapped pt t' s s' /\
    pages_mapped (cache_marker s) MemoryPage target (base / CITRA_PAGE_SIZE) (size / CITRA_PAGE_SIZE) t t' /\
    special_regions t' = special_regions t) s.
Proof.
  intros Ht Hr Hb. destruct (page_region_pages _ _ Hr) as (? & ? & ?). unfold MapMemoryRegion. wp_step.
  apply wp_assert_aligned; [apply Hr..|]. by apply MapPages_spec.
Qed.
Lemma UnmapRegion_spec (Hh : host_laws) pt base size t s :
  page_tables s !! pt = Some t -> page_region base size ->
  wp (UnmapRegion pt base size) (fun _ s' => exists t', remapped pt t' s s' /\
    pages_mapped (cache_marker s) Unmapped None (base / CITRA_PAGE_SIZE) (size / CITRA_PAGE_SIZE) t t' /\
    special_regions t' = special_regions t) s.
Proof.
  intros Ht Hr. destruct (page_region_pages _ _ Hr) as (? & ? & ?). unfold UnmapRegion. wp_step.
  apply wp_assert_aligned; [apply Hr..|]. by apply MapPages_spec.
Qed.
Lemma MapIoRegion_spec (Hh : host_laws) pt base size h t s :
  page_tables s !! pt = Some t -> page_region base size ->
  wp (MapIoRegion pt base size h) (fun _ s' => exists t', remapped pt t' s s' /\
    pages_mapped (cache_marker s) Special None (base / CITRA_PAGE_SIZE) (size / CITRA_PAGE_SIZE) t t' /\
    special_regions t' = special_regions t ++ [mkSpecialRegion base size h]) s.
Proof.
  intros Ht Hr. destruct (page_region_pages _ _ Hr) as (? & ? & ?). unfold MapIoRegion. wp_step.
  apply wp_assert_aligned; [apply Hr..|]. wp_step. eapply wp_mono; [by eapply MapPages_spec|].
  cbn beta. intros [] s1 (t1 & Hre & [Ha Hp] & Hsp). pose proof Hre as [Hre1 Hre2 Hre3 Hre4 Hre5 Hre6].
  apply (wp_set_table _ _ t1); [rewrite Hre1; apply lookup_insert_eq|].
  exists (t1 <| special_regions ::= fun l => l ++ [mkSpecialRegion base size h] |>). split; [|split].
  - split; cbn; try done. by rewrite Hre1, insert_insert_eq.
  - by split.
  - cbn. by rewrite Hsp.
Qed.

(** *** Marking *)

Lemma At_page addr : is_u32 addr -> At (addr / CITRA_PAGE_SIZE * CITRA_PAGE_SIZE) = At addr.
Proof.
  unfold is_u32, At. intros Ha.
  unfold VRAM_VADDR, VRAM_VADDR_END, VRAM_SIZE, LINEAR_HEAP_VADDR, LINEAR_HEAP_VADDR_END, LINEAR_HEAP_SIZE,
    NEW_LINEAR_HEAP_VADDR, NEW_LINEAR_HEAP_VADDR_END, NEW_LINEAR_HEAP_SIZE, PLUGIN_3GX_FB_VADDR,
    PLUGIN_3GX_FB_VADDR_END, PLUGIN_3GX_FB_SIZE, VRAM_VADDR, CITRA_PAGE_SIZE.
  assert (Hr : forall lo hi, lo mod 4096 = 0 -> hi mod 4096 = 0 ->
    (lo <=? addr / 4096 * 4096) && (addr / 4096 * 4096 <? hi) = (lo <=? addr) && (addr <? hi)).
  { intros lo hi Hlo Hhi. apply eq_true_iff_eq. rewrite !in_range_spec. clear -Hlo Hhi.
    Z.to_euclidean_division_equations. lia. }
  assert (Hd : forall lo, lo mod 4096 = 0 -> (addr / 4096 * 4096 - lo) / 4096 = (addr - lo) / 4096).
  { intros lo Hlo. clear -Hlo. Z.to_euclidean_division_equations. lia. }
  rewrite !Hr by done. by rewrite !Hd by done.
Qed.

(** The reference of the cache is inside its memory. *)
Definition cache_ref_ok (plugin_fb : PAddr) (addr : VAddr) : bool :=
  match cache_ref plugin_fb addr with Some (b, o) => o <=? backing_size b | None => false end.

Lemma wp_GetPointerForRasterizerCache addr Q s :
  cache_ref_ok (plugin_fb_addr s) addr = true -> Q (cache_ref (plugin_fb_addr s) addr) s ->
  wp (GetPointerForRasterizerCache addr) Q s.
Proof.
  unfold cache_ref_ok, cache_ref, GetPointerForRasterizerCache, make_ref. intros Hok HQ.
  do 4 (case_match; [repeat wp_step; done|]). done.
Qed.

(** What [mark_page] does to a table whose page is not in the wanted state yet. *)
Definition marked (plugin_fb : PAddr) (cached : bool) (i : Z) (t : PageTable) : PageTable :=
  match attribute_at i t with
  | Unmapped => t
  | _ => if cached then set_pointer i None (set_attribute i RasterizerCachedMemory t)
         else set_pointer i (cache_ref plugin_fb (i * CITRA_PAGE_SIZE)) (set_attribute i MemoryPage t)
  end.
Definition markable (cached : bool) (i : Z) (t : PageTable) : Prop :=
  attribute_at i t = Unmapped \/ attribute_at i t = if cached then MemoryPage else RasterizerCachedMemory.

Lemma page_base vaddr : is_u32 vaddr ->
  Z.land vaddr (Z.lnot CITRA_PAGE_MASK) = Z.shiftr vaddr CITRA_PAGE_BITS * CITRA_PAGE_SIZE.
Proof.
  intros _. unfold CITRA_PAGE_MASK, CITRA_PAGE_BITS, CITRA_PAGE_SIZE. change (0x1000 - 1) with (Z.ones 12).
  rewrite <- Z.ldiff_land, Z.ldiff_ones_r by lia. by rewrite Z.shiftl_mul_pow2 by lia.
Qed.
Lemma page_of_div vaddr : Z.shiftr vaddr CITRA_PAGE_BITS = vaddr / CITRA_PAGE_SIZE.
Proof. unfold CITRA_PAGE_BITS, CITRA_PAGE_SIZE. by rewrite Z.shiftr_div_pow2. Qed.

Lemma wp_mark_page vaddr cached pt t Q s :
  is_u32 vaddr -> page_tables s !! pt = Some t -> markable cached (vaddr / CITRA_PAGE_SIZE) t ->
  cache_ref_ok (plugin_fb_addr s) (vaddr / CITRA_PAGE_SIZE * CITRA_PAGE_SIZE) = true ->
  Q tt (s <| page_tables := <[pt := marked (plugin_fb_addr s) cached (vaddr / CITRA_PAGE_SIZE) t]> (page_tables s) |>) ->
  wp (mark_page vaddr cached pt) Q s.
Proof.
  intros Hv Ht Hm Hok. unfold mark_page, marked. rewrite page_base, page_of_div by done.
  set (i := vaddr / CITRA_PAGE_SIZE) in *. intros HQ. wp_step. apply (wp_get_table _ t); [done|].
  assert (Hid : s <| page_tables := <[pt := t]> (page_tables s) |> = s).
  { destruct s; unfold set_field; cbn in *. by rewrite insert_id. }
  destruct Hm as [Hm|Hm]; rewrite Hm in HQ |- *.
  - rewrite Hid in HQ. by destruct cached.
  - destruct cached; [by apply (wp_set_table _ _ t)|]. wp_step. apply (wp_set_table _ _ t); [done|].
    wp_step. apply wp_GetPointerForRasterizerCache; [done|].
    apply (wp_set_table _ _ (set_attribute i MemoryPage t)); [apply lookup_insert_eq|].
    unfold set_field in *; cbn in *. by rewrite insert_insert_eq.
Qed.

(** All tables of the list, each once. *)
Lemma wp_mark_tables vaddr cached l s (Q : unit -> MemorySystem -> Prop) :
  is_u32 vaddr -> NoDup l ->
  cache_ref_ok (plugin_fb_addr s) (vaddr / CITRA_PAGE_SIZE * CITRA_PAGE_SIZE) = true ->
  (forall pt, pt ∈ l -> exists t, page_tables s !! pt = Some t /\ markable cached (vaddr / CITRA_PAGE_SIZE) t) ->
  (forall m, (forall pt, m !! pt = if bool_decide (pt ∈ l)
      then marked (plugin_fb_addr s) cached (vaddr / CITRA_PAGE_SIZE) <$> page_tables s !! pt else page_tables s !! pt) ->
    Q tt (s <| page_tables := m |>)) ->
  wp (for_each l (mark_page vaddr cached)) Q s.
Proof.
  intros Hv. revert s. induction l as [|pt l IH]; intros s Hnd Hok Hl HQ; cbn.
  { apply wp_ret. replace s with (s <| page_tables := page_tables s |>) at 1 by (by destruct s).
    apply HQ. intros pt. by rewrite bool_decide_eq_false_2 by set_solver. }
  apply NoDup_cons in Hnd as [Hni Hnd]. destruct (Hl pt) as (t & Ht & Hm); [set_solver|].
  wp_step. apply (wp_mark_page _ _ _ t); [done..|]. apply IH; [done..| |].
  - intros pt' Hpt'. cbn. rewrite lookup_insert_ne by set_solver. apply Hl. set_solver.
  - cbn. intros m Hlook. unfold set_field; cbn. apply HQ. intros pt'. rewrite Hlook. cbn.
    destruct (decide (pt = pt')) as [<-|Hne].
    + rewrite bool_decide_eq_false_2, bool_decide_eq_true_2 by set_solver. by rewrite lookup_insert_eq, Ht.
    + rewrite lookup_insert_ne by done. erewrite bool_decide_ext; [done|]. set_solver.
Qed.

Lemma IsCached_Mark addr addr' cached cm :
  IsCached addr' (Mark addr cached cm) =
  if bool_decide (At addr = At addr' /\ At addr <> None) then cached else IsCached addr' cm.
Proof.
  unfold IsCached, Mark. destruct (At addr) as [p|]; [|by rewrite bool_decide_eq_false_2 by naive_solver].
  destruct (At addr') as [q|]; [|rewrite bool_decide_eq_false_2 by naive_solver; by destruct cached].
  destruct (decide (p = q)) as [->|Hne].
  - rewrite (bool_decide_eq_true_2 (Some q = Some q /\ _)) by done.
    destruct cached; [apply bool_decide_eq_true_2|apply bool_decide_eq_false_2]; set_solver.
  - rewrite (bool_decide_eq_false_2 (Some p = Some q /\ _)) by naive_solver.
    destruct cached; apply bool_decide_ext; set_solver.
Qed.

(** The flags of two pages agree only if the pages do. *)
Lemma At_inj i j : At (i * CITRA_PAGE_SIZE) <> None -> At (i * CITRA_PAGE_SIZE) = At (j * CITRA_PAGE_SIZE) -> i = j.
Proof.
  unfold At, VRAM_VADDR, VRAM_VADDR_END, VRAM_SIZE, LINEAR_HEAP_VADDR, LINEAR_HEAP_VADDR_END, LINEAR_HEAP_SIZE,
    NEW_LINEAR_HEAP_VADDR, NEW_LINEAR_HEAP_VADDR_END, NEW_LINEAR_HEAP_SIZE, PLUGIN_3GX_FB_VADDR,
    PLUGIN_3GX_FB_VADDR_END, PLUGIN_3GX_FB_SIZE, VRAM_VADDR, CITRA_PAGE_SIZE.
  repeat case_match; intros ? Heq; simplify_eq; clear -Heq; Z.to_euclidean_division_equations; lia.
Qed.

(** A page of the rasterizer's areas maps the memory the area stands for. *)
Definition linear_mapped (plugin_fb : PAddr) (t : PageTable) : Prop :=
  forall i, 0 <= i < PAGE_TABLE_NUM_ENTRIES -> attribute_at i t = MemoryPage -> At (i * CITRA_PAGE_SIZE) <> None ->
  pointer_at i t = cache_ref plugin_fb (i * CITRA_PAGE_SIZE).
(** The registered page tables agree with the marks. *)
Record marking_wf (s : MemorySystem) : Prop := {
  marking_nodup : NoDup (page_table_list s);
  marking_tables pt : pt ∈ page_table_list s -> exists t, page_tables s !! pt = Some t /\
    table_wf (cache_marker s) t /\ linear_mapped (plugin_fb_addr s) t;
}.
(** What marking keeps of the registered tables. *)
Definition same_memory (s s' : MemorySystem) : Prop :=
  page_table_list s' = page_table_list s /\ plugin_fb_addr s' = plugin_fb_addr s /\
  current_page_table s' = current_page_table s /\ renderer s' = renderer s /\
  forall pt t, pt ∈ page_table_list s -> page_tables s !! pt = Some t ->
    exists t', page_tables s' !! pt = Some t' /\ special_regions t' = special_regions t /\
      forall i, 0 <= i < PAGE_TABLE_NUM_ENTRIES ->
        effective_ref (plugin_fb_addr s) i t' = effective_ref (plugin_fb_addr s) i t /\
        (attribute_at i t' = Special <-> attribute_at i t = Special).
(** [vaddr] can be given the mark [cached]: it is in an area, it does not have the
    mark, and no registered table maps a device there. *)
Definition can_mark (cached : bool) (s : MemorySystem) (vaddr : VAddr) : Prop :=
  is_u32 vaddr /\ At vaddr <> None /\
  cache_ref_ok (plugin_fb_addr s) (vaddr / CITRA_PAGE_SIZE * CITRA_PAGE_SIZE) = true /\
  IsCached vaddr (cache_marker s) = negb cached /\
  (forall pt t, pt ∈ page_table_list s -> page_tables s !! pt = Some t ->
     attribute_at (vaddr / CITRA_PAGE_SIZE) t <> Special).

Lemma same_memory_refl s : same_memory s s.
Proof. repeat split; try done. intros pt t _ Ht. exists t. done. Qed.
Lemma same_memory_trans s1 s2 s3 : same_memory s1 s2 -> same_memory s2 s3 -> same_memory s1 s3.
Proof.
  intros (Hl & Hf & Hc & Hr & Ht) (Hl' & Hf' & Hc' & Hr' & Ht').
  repeat split; [congruence..|]. intros pt t Hpt Hlook.
  destruct (Ht pt t Hpt Hlook) as (t' & Hlook' & Hsp & Hi). rewrite Hl, Hf in Ht'.
  destruct (Ht' pt t' Hpt Hlook') as (t'' & Hlook'' & Hsp' & Hi'). exists t''.
  split; [done|]. split; [congruence|]. intros i Hir. destruct (Hi i Hir), (Hi' i Hir). split; [congruence|tauto].
Qed.

Lemma marked_at fb cached i j t :
  attribute_at j (marked fb cached i t) =
    (if bool_decide (i = j) && negb (bool_decide (attribute_at i t = Unmapped))
     then if cached then RasterizerCachedMemory else MemoryPage else attribute_at j t) /\
  pointer_at j (marked fb cached i t) =
    (if bool_decide (i = j) && negb (bool_decide (attribute_at i t = Unmapped))
     then if cached then None else cache_ref fb (i * CITRA_PAGE_SIZE) else pointer_at j t) /\
  special_regions (marked fb cached i t) = special_regions t.
Proof.
  unfold marked. destruct (attribute_at i t) eqn:Ha, cached;
    rewrite ?attribute_at_set_pointer, ?attribute_at_set, ?pointer_at_set, ?pointer_at_set_attribute;
    by case_dec (i = j).
Qed.

Lemma cache_ref_some fb i : cache_ref_ok fb i = true -> cache_ref fb i <> None.
Proof. unfold cache_ref_ok. by destruct (cache_ref fb i) as [[]|]. Qed.

(** Marking one page in a well-formed table. *)
Lemma marked_wf cm fb cached vaddr t :
  let i := vaddr / CITRA_PAGE_SIZE in
  is_u32 vaddr -> At vaddr <> None -> cache_ref_ok fb (i * CITRA_PAGE_SIZE) = true ->
  table_wf cm t -> linear_mapped fb t -> IsCached vaddr cm = negb cached -> attribute_at i t <> Special ->
  markable cached i t /\ table_wf (Mark vaddr cached cm) (marked fb cached i t) /\
  linear_mapped fb (marked fb cached i t) /\
  forall j, effective_ref fb j (marked fb cached i t) = effective_ref fb j t.
Proof.
  intros i Hv HAt Hok [Hw1 Hw2 Hw3] Hlin Hc Hsp.
  assert (Hi : 0 <= i < PAGE_TABLE_NUM_ENTRIES).
  { unfold i. rewrite PAGE_TABLE_NUM_ENTRIES_eq. unfold is_u32, CITRA_PAGE_SIZE in *. Z.to_euclidean_division_equations. lia. }
  assert (HAti : At (i * CITRA_PAGE_SIZE) = At vaddr) by (by apply At_page).
  assert (Hci : IsCached (i * CITRA_PAGE_SIZE) cm = negb cached) by (rewrite <- Hc; unfold IsCached; by rewrite HAti).
  assert (Hmark : markable cached i t).
  { unfold markable. specialize (Hw2 i Hi). specialize (Hw3 i Hi). rewrite Hci in Hw2, Hw3.
    destruct (attribute_at i t), cached; try tauto; cbn in *; intuition congruence. }
  split; [done|].
  assert (HIs : forall j, IsCached (j * CITRA_PAGE_SIZE) (Mark vaddr cached cm) =
    if bool_decide (i = j) then cached else IsCached (j * CITRA_PAGE_SIZE) cm).
  { intros j. rewrite IsCached_Mark. rewrite <- HAti in HAt |- *.
    case_dec (i = j); [subst j; by rewrite bool_decide_eq_true_2|].
    rewrite bool_decide_eq_false_2; [done|]. intros [Heq Hne]. by apply At_inj in Heq. }
  split; [|split].
  - split; intros j; destruct (marked_at fb cached i j t) as (-> & Hp & _); rewrite ?Hp, ?HIs.
    + case_dec (i = j); cbn [andb]; [|apply Hw1]. subst j.
      case_dec (attribute_at i t = Unmapped); cbn [negb]; [apply Hw1|].
      destruct cached; [done|]. split; [done|]. intros _. by apply cache_ref_some.
    + intros Hj. case_dec (i = j); cbn [andb]; [|by apply Hw2]. subst j.
      case_dec (attribute_at i t = Unmapped); cbn [negb]; [congruence|]. by destruct cached.
    + intros Hj. case_dec (i = j); cbn [andb]; [|by apply Hw3]. subst j.
      case_dec (attribute_at i t = Unmapped); cbn [negb]; [congruence|]. by destruct cached.
  - intros j Hj. destruct (marked_at fb cached i j t) as (-> & -> & _).
    case_dec (i = j); cbn [andb]; [|by apply Hlin]. subst j.
    case_dec (attribute_at i t = Unmapped); cbn [negb]; [by apply Hlin|]. by destruct cached.
  - intros j. unfold effective_ref. destruct (marked_at fb cached i j t) as (-> & -> & _).
    case_dec (i = j); cbn [andb]; [|done]. subst j.
    case_dec (attribute_at i t = Unmapped); cbn [negb]; [done|].
    destruct Hmark as [?|Hm]; [done|]. rewrite Hm. destruct cached; [|done]. symmetry.
    apply Hlin; [done|done|congruence].
Qed.

(** The body of the loop over the addresses of a page. *)
Lemma wp_mark_vaddr vaddr cached s :
  marking_wf s -> can_mark cached s vaddr ->
  wp (modify (fun s => s <| cache_marker ::= Mark vaddr cached |>);;
      s ← get; for_each (page_table_list s) (mark_page vaddr cached))
    (fun _ s' => marking_wf s' /\ same_memory s s' /\ cache_marker s' = Mark vaddr cached (cache_marker s)) s.
Proof.
  intros [Hnd Htab] (Hv & HAt & Hok & Hc & Hsp). repeat wp_step. cbn.
  assert (Hm : forall pt t, pt ∈ page_table_list s -> page_tables s !! pt = Some t ->
    markable cached (vaddr / CITRA_PAGE_SIZE) t /\
    table_wf (Mark vaddr cached (cache_marker s)) (marked (plugin_fb_addr s) cached (vaddr / CITRA_PAGE_SIZE) t) /\
    linear_mapped (plugin_fb_addr s) (marked (plugin_fb_addr s) cached (vaddr / CITRA_PAGE_SIZE) t) /\
    forall j, effective_ref (plugin_fb_addr s) j (marked (plugin_fb_addr s) cached (vaddr / CITRA_PAGE_SIZE) t) =
      effective_ref (plugin_fb_addr s) j t).
  { intros pt t Hpt Ht. destruct (Htab pt Hpt) as (t' & Ht' & Hwf & Hlin). simplify_eq.
    apply marked_wf; [done..|]. by eapply Hsp. }
  apply wp_mark_tables; [done|done|done| |].
  { intros pt Hpt. destruct (Htab pt Hpt) as (t & Ht & _). exists t. split; [done|]. by eapply Hm. }
  cbn. intros m Hlook. split; [|split; [|done]].
  - split; cbn; [done|]. intros pt Hpt. destruct (Htab pt Hpt) as (t & Ht & _).
    destruct (Hm pt t Hpt Ht) as (_ & ? & ? & _). rewrite Hlook, bool_decide_eq_true_2, Ht by done. eauto.
  - repeat (split; [done|]). cbn. intros pt t Hpt Ht. destruct (Hm pt t Hpt Ht) as (_ & _ & _ & He).
    rewrite Hlook, bool_decide_eq_true_2, Ht by done. eexists. split; [done|].
    destruct (marked_at (plugin_fb_addr s) cached (vaddr / CITRA_PAGE_SIZE) 0 t) as (_ & _ & ->). split; [done|].
    intros i Hi. split; [apply He|]. destruct (marked_at (plugin_fb_addr s) cached (vaddr / CITRA_PAGE_SIZE) i t) as (-> & _ & _).
    case_dec (vaddr / CITRA_PAGE_SIZE = i); [subst i|done].
    case_dec (attribute_at (vaddr / CITRA_PAGE_SIZE) t = Unmapped); cbn [andb negb]; [done|].
    specialize (Hsp pt t Hpt Ht). by destruct cached.
Qed.

Lemma can_mark_step cached s s' v w :
  can_mark cached s w -> can_mark cached s v -> At v <> At w -> same_memory s s' ->
  (forall pt, pt ∈ page_table_list s -> is_Some (page_tables s !! pt)) ->
  cache_marker s' = Mark v cached (cache_marker s) -> can_mark cached s' w.
Proof.
  intros (Hw & HAt & Hok & Hc & Hsp) _ Hne (Hl & Hf & _ & _ & Ht) Hex Hcm.
  split; [done|]. split; [done|]. rewrite Hf, Hcm, IsCached_Mark, Hl. split; [done|]. split.
  - by rewrite bool_decide_eq_false_2 by naive_solver.
  - intros pt t' Hpt Hlook. destruct (Hex pt Hpt) as [t Htt]. destruct (Ht pt t Hpt Htt) as (t'' & Hlook' & _ & Hi).
    simplify_eq. destruct (Hi (w / CITRA_PAGE_SIZE)) as [_ Hiff].
    { rewrite PAGE_TABLE_NUM_ENTRIES_eq. unfold is_u32, CITRA_PAGE_SIZE in *. Z.to_euclidean_division_equations. lia. }
    rewrite Hiff. by eapply Hsp.
Qed.

(** Any list of addresses on different pages. *)
Definition mark_vaddrs (vs : list VAddr) (cached : bool) : M unit :=
  for_each vs (fun vaddr => modify (fun s => s <| cache_marker ::= Mark vaddr cached |>);;
    s ← get; for_each (page_table_list s) (mark_page vaddr cached)).
Lemma wp_mark_vaddrs vs cached s :
  marking_wf s -> Forall (can_mark cached s) vs -> NoDup (At <$> vs) ->
  wp (mark_vaddrs vs cached) (fun _ s' => marking_wf s' /\ same_memory s s' /\
    cache_marker s' = foldl (fun cm v => Mark v cached cm) (cache_marker s) vs /\
    forall w, can_mark cached s w -> At w ∉ At <$> vs -> can_mark cached s' w) s.
Proof.
  revert s. induction vs as [|v vs IH]; intros s Hwf Hcan Hnd; cbn [mark_vaddrs for_each].
  { apply wp_ret. split; [done|]. split; [apply same_memory_refl|done]. }
  apply Forall_cons in Hcan as [Hv Hcan]. apply NoDup_cons in Hnd as [Hni Hnd].
  wp_step. eapply wp_mono; [by apply wp_mark_vaddr|]. cbn beta. intros [] s1 (Hwf1 & Hsame1 & Hcm1).
  assert (Hstep : forall w, can_mark cached s w -> At v <> At w -> can_mark cached s1 w).
  { intros w Hw Hne. apply (can_mark_step cached s s1 v w); [done..| |done].
    intros pt Hpt. destruct (marking_tables _ Hwf pt Hpt) as (t & -> & _). done. }
  eapply wp_mono; [apply IH; [done| |done]|].
  - rewrite Forall_forall in Hcan |- *. intros w Hw. apply Hstep; [by apply Hcan|].
    intros Heq. apply Hni. rewrite Heq. by apply list_elem_of_fmap_2.
  - cbn beta. intros [] s2 (Hwf2 & Hsame2 & Hcm2 & Hw2). split; [done|]. split; [by eapply same_memory_trans|].
    split; [by rewrite Hcm2, Hcm1|]. intros w Hw Hnw. rewrite fmap_cons, not_elem_of_cons in Hnw. destruct Hnw as [Hnv Hnw].
    apply Hw2; [apply Hstep; [done|congruence]|done].
Qed.

Lemma mark_vaddrs_app l k cached s :
  mark_vaddrs (l ++ k) cached s =
  match mark_vaddrs l cached s with Ret (_, s') => mark_vaddrs k cached s' | Crash f => Crash f end.
Proof.
  revert s. induction l as [|x l IH]; intros s; [done|]. unfold mark_vaddrs. cbn [app for_each].
  match goal with |- (?m ≫= _) s = _ => set (body := m) end.
  clearbody body. unfold mbind, M_bind. destruct (body s) as [[[] s']|]; [|done]. apply IH.
Qed.

(** The addresses [RasterizerMarkRegionCached] marks, in order. *)
Fixpoint region_vaddrs (plugin_fb : PAddr) (n : nat) (paddr : PAddr) : list VAddr :=
  match n with
  | O => []
  | S n' => PhysicalToVirtualAddressForRasterizer plugin_fb paddr ++ region_vaddrs plugin_fb n' (u32 (paddr + CITRA_PAGE_SIZE))
  end.

Lemma mark_pages_vaddrs n paddr cached s :
  marking_wf s -> Forall (can_mark cached s) (region_vaddrs (plugin_fb_addr s) n paddr) ->
  NoDup (At <$> region_vaddrs (plugin_fb_addr s) n paddr) ->
  mark_pages n paddr cached s = mark_vaddrs (region_vaddrs (plugin_fb_addr s) n paddr) cached s.
Proof.
  revert paddr s. induction n as [|n IH]; intros paddr s Hwf Hcan Hnd; [done|].
  cbn [region_vaddrs] in *. rewrite mark_vaddrs_app.
  apply Forall_app in Hcan as [Hcan1 Hcan2]. rewrite fmap_app in Hnd. apply NoDup_app in Hnd as (Hnd1 & Hd & Hnd2).
  change (mark_pages (S n) paddr cached s) with
    (match mark_vaddrs (PhysicalToVirtualAddressForRasterizer (plugin_fb_addr s) paddr) cached s with
     | Ret (_, s') => mark_pages n (u32 (paddr + CITRA_PAGE_SIZE)) cached s' | Crash f => Crash f end).
  pose proof (wp_mark_vaddrs _ _ _ Hwf Hcan1 Hnd1) as Hpost.
  apply wp_inv in Hpost as ([] & s1 & Heq & Hwf1 & (_ & Hf1 & _) & Hcm1 & Hw).
  rewrite Heq. rewrite <- Hf1. apply IH; [done| |by rewrite Hf1]. rewrite Hf1.
  rewrite Forall_forall in Hcan2 |- *. intros w Hw2. apply Hw; [by apply Hcan2|].
  intros Hin. apply (Hd (At w)); [done|]. by apply list_elem_of_fmap_2.
Qed.

Lemma IsCached_foldl vs cached w cm :
  Forall (fun v => At v <> None) vs ->
  IsCached w (foldl (fun cm v => Mark v cached cm) cm vs) =
  if bool_decide (At w ∈ At <$> vs) then cached else IsCached w cm.
Proof.
  revert cm. induction vs as [|v vs IH]; intros cm Hvs; [by rewrite bool_decide_eq_false_2 by set_solver|].
  apply Forall_cons in Hvs as [Hv Hvs]. cbn [foldl]. rewrite IH by done. rewrite fmap_cons.
  case_dec (At w ∈ At <$> vs); [by rewrite bool_decide_eq_true_2 by set_solver|].
  rewrite IsCached_Mark. apply bool_decide_ext || (case_dec (At v = At w);
    [rewrite !bool_decide_eq_true_2 by set_solver|rewrite !bool_decide_eq_false_2 by set_solver]; done).
Qed.

(** ** Correctness *)

(** Mapping, unmapping and mapping a device over a region of whole pages set
    the type and the pointer of exactly the pages of the region (a page the
    rasterizer caches keeps no pointer and is of the cached type), and keep the
    documented rule that a pointer is non-null exactly on pages of type Memory,
    with cached pages exactly where the marks say. *)
Theorem map_regions_spec (Hh : host_laws) (pt base size : Z) (target : MemoryRef) (h : option Z)
    (t : PageTable) (s : MemorySystem)
    (Ht : page_tables s !! pt = Some t) (Hr : page_region base size) (Hwf : table_wf (cache_marker s) t)
    (Htarget : target <> None) (Hb : backs target (size / CITRA_PAGE_SIZE)) :
  let first := base / CITRA_PAGE_SIZE in
  let n := size / CITRA_PAGE_SIZE in
  let post ty memory regions (_ : unit) s' := exists t', remapped pt t' s s' /\ table_wf (cache_marker s') t' /\
    pages_mapped (cache_marker s) ty memory first n t t' /\ special_regions t' = special_regions t ++ regions in
  wp (MapMemoryRegion pt base size target) (post MemoryPage target []) s /\
  wp (UnmapRegion pt base size) (post Unmapped None []) s /\
  wp (MapIoRegion pt base size h) (post Special None [mkSpecialRegion base size h]) s.
Proof.
  intros first n post. destruct (page_region_pages _ _ Hr) as (Hf & Hn & He).
  assert (Hpost : forall ty memory, ty <> RasterizerCachedMemory -> (memory <> None <-> ty = MemoryPage) ->
    forall s' t', remapped pt t' s s' -> pages_mapped (cache_marker s) ty memory first n t t' -> table_wf (cache_marker s') t').
  { intros ty memory Hty Hm s' t' Hre Hp. rewrite (remapped_marker _ _ _ _ Hre). by apply (pages_mapped_wf _ ty memory first n t t'). }
  split; [|split].
  - eapply wp_mono; [by apply (MapMemoryRegion_spec Hh pt base size target t)|]. cbn beta. intros [] s' (t' & Hre & Hp & Hsp).
    exists t'. rewrite app_nil_r. split; [done|]. split; [|done]. by eapply (Hpost MemoryPage).
  - eapply wp_mono; [by apply (UnmapRegion_spec Hh pt base size t)|]. cbn beta. intros [] s' (t' & Hre & Hp & Hsp).
    exists t'. rewrite app_nil_r. split; [done|]. split; [|done]. by eapply (Hpost Unmapped).
  - eapply wp_mono; [by apply (MapIoRegion_spec Hh pt base size h t)|]. cbn beta. intros [] s' (t' & Hre & Hp & Hsp).
    exists t'. split; [done|]. split; [|done]. by eapply (Hpost Special).
Qed.

(** Marking a region as cached, or as no longer cached, visits every page of
    the region in every registered page table without reaching an unreachable
    case when the pages are in the other state; afterwards exactly those pages
    have the mark, the tables agree with the marks again, and the memory behind
    every page of every table is the same as before: caching is transparent. *)
Theorem RasterizerMarkRegionCached_spec (start size : Z) (cached : bool) (s : MemorySystem)
    (Hstart : 0 < start) (Hsize : 0 < size) (He : start + size <= 2 ^ 32) (Hwf : marking_wf s)
    (vs : list VAddr)
    (Hvs : vs = region_vaddrs (plugin_fb_addr s)
      (Z.to_nat ((start + size - 1) / CITRA_PAGE_SIZE - start / CITRA_PAGE_SIZE + 1)) start)
    (Hcan : Forall (can_mark cached s) vs) (Hnd : NoDup (At <$> vs)) :
  wp (RasterizerMarkRegionCached start size cached) (fun _ s' =>
    marking_wf s' /\ same_memory s s' /\
    forall w, IsCached w (cache_marker s') = if bool_decide (At w ∈ At <$> vs) then cached else IsCached w (cache_marker s)) s.
Proof.
  unfold RasterizerMarkRegionCached. rewrite (proj2 (Z.eqb_neq _ _)) by lia.
  rewrite (u32_small (start + size - 1)), !page_of_div by page_lia.
  rewrite u32_small by (unfold is_u32, CITRA_PAGE_SIZE; Z.to_euclidean_division_equations; lia).
  subst vs. unfold wp. rewrite mark_pages_vaddrs by done.
  eapply (wp_mono _ _ _ _ (wp_mark_vaddrs _ _ _ Hwf Hcan Hnd)).
  cbn beta. intros [] s' (Hwf' & Hsame & Hcm & _). split; [done|]. split; [done|]. intros w. rewrite Hcm.
  apply IsCached_foldl. eapply Forall_impl; [done|]. by intros v (_ & ? & _).
Qed.

(** The special region of a device stays in the page table when its address
    range is unmapped, and the first region wins: a range that is mapped to a
    device, unmapped, and mapped to another device is still handled by the first. *)
Theorem stale_mmio_handler (Hh : host_laws) (pt base size vaddr : Z) (h1 h2 : option Z) (t : PageTable) (s : MemorySystem)
    (Ht : page_tables s !! pt = Some t) (Hr : page_region base size) (He : base + size < 2 ^ 32)
    (Hsp : special_regions t = []) (Hv : base <= vaddr < base + size) :
  wp (MapIoRegion pt base size h1;; UnmapRegion pt base size;; MapIoRegion pt base size h2;;
      t ← get_table pt; h ← GetMMIOHandler t vaddr; mret (attribute_at (vaddr / CITRA_PAGE_SIZE) t, h))
    (fun r _ => r = (Special, h1)) s.
Proof.
  wp_step. eapply wp_mono; [by eapply MapIoRegion_spec|]. cbn beta. intros [] s1 (t1 & Hre1 & _ & Hsp1).
  assert (Ht1 : page_tables s1 !! pt = Some t1) by (rewrite (remapped_tables _ _ _ _ Hre1); apply lookup_insert_eq).
  wp_step. eapply wp_mono; [by eapply UnmapRegion_spec|]. cbn beta. intros [] s2 (t2 & Hre2 & _ & Hsp2).
  assert (Ht2 : page_tables s2 !! pt = Some t2) by (rewrite (remapped_tables _ _ _ _ Hre2); apply lookup_insert_eq).
  wp_step. eapply wp_mono; [by eapply MapIoRegion_spec|]. cbn beta. intros [] s3 (t3 & Hre3 & [Ha _] & Hsp3).
  assert (Ht3 : page_tables s3 !! pt = Some t3) by (rewrite (remapped_tables _ _ _ _ Hre3); apply lookup_insert_eq).
  wp_step. apply (wp_get_table _ t3); [done|]. wp_step.
  unfold GetMMIOHandler. rewrite Hsp3, Hsp2, Hsp1, Hsp. cbn [app find region_base region_size].
  pose proof Hr as (Hb & Hs & _ & Hab & Has).
  rewrite u32_small by (unfold is_u32; lia). rewrite in_range_true by done. apply wp_ret, wp_ret.
  rewrite Ha, in_range_true; [done|]. clear -Hb Hs Hab Has Hv. unfold CITRA_PAGE_SIZE in *.
  Z.to_euclidean_division_equations. lia.
Qed.
End MemorySystem.
Arguments MemorySystem D : clear implicits.

(** ** A concrete host *)

(** The four memories in sequence, then pages for the buffers. *)
Definition demo_host : Host := {|
  host_ptr b := match b with
    | FcramMem => 0x100000000 | VramMem => 0x120000000 | DspMem => 0x130000000 | N3dsExtraRamMem => 0x140000000
    | BufferMem id => 0x200000000 + 0x2000 * (if id <? 0 then - 2 * id - 1 else 2 * id) end;
  buffer_size _ := 0x1000;
|}.
Definition demo_devices : Devices unit := {|
  rasterize _ c := c;
  mmio_valid _ _ d := (true, d);
  mmio_read _ _ _ d := (0, d);
  mmio_read_block _ _ n d := (replicate n 0, d);
  mmio_write _ _ _ _ d := d;
  mmio_write_block _ _ _ d := d;
  hw_read _ _ d := (0, d);
  hw_write _ _ _ d := d;
|}.
(** One registered process with an empty page table. *)
Definition demo_memory : MemorySystem unit :=
  mkMemorySystem (fun _ _ => 0) {[ 0 := new_PageTable ]} (Some 0) ∅ [0] true 0 [] tt.

Lemma demo_host_laws : @host_laws demo_host.
Proof.
  split.
  - intros []; cbn; try lia. case_bool; lia.
  - intros b c Hne. unfold backing_size, FCRAM_N3DS_SIZE, VRAM_SIZE, DSP_RAM_SIZE, N3DS_EXTRA_RAM_SIZE.
    destruct b as [| | | |i], c as [| | | |j]; try done; cbn; try lia; repeat case_bool; try lia;
      assert (i <> j) by congruence; lia.
  - intros i. cbn. lia.
Qed.

#[local] Existing Instance demo_host.
#[local] Existing Instance demo_devices.

Lemma demo_page_region : page_region 0x100000 0x1000.
Proof. unfold page_region, CITRA_PAGE_SIZE. repeat split; lia. Qed.
Lemma demo_table_wf : table_wf ∅ new_PageTable.
Proof. by split. Qed.

Lemma map_regions_spec_witness :
  page_region 0x100000 0x1000 /\
  wp (MapMemoryRegion 0 0x100000 0x1000 (Some (FcramMem, 0x5000)))
    (fun _ s' => exists t', page_tables s' !! 0 = Some t' /\ pointer_at 0x100 t' = Some (FcramMem, 0x5000)) demo_memory.
Proof.
  split; [exact demo_page_region|].
  assert (Htarget : Some (FcramMem, 0x5000) <> None) by done.
  assert (Hb : backs (Some (FcramMem, 0x5000)) (0x1000 / CITRA_PAGE_SIZE)) by (split; by vm_compute).
  eapply wp_mono; [apply (proj1 (map_regions_spec demo_host_laws 0 0x100000 0x1000 (Some (FcramMem, 0x5000)) None
    new_PageTable demo_memory eq_refl demo_page_region demo_table_wf Htarget Hb))|].
  cbn beta. intros [] s' (t' & Hre & _ & [_ Hp] & _). exists t'. split.
  - rewrite (remapped_tables _ _ _ _ Hre). apply lookup_insert_eq.
  - rewrite Hp. reflexivity.
Defined.

Lemma demo_marking_wf : marking_wf demo_memory.
Proof.
  split; [apply NoDup_singleton|]. intros pt ->%list_elem_of_singleton. exists new_PageTable.
  split; [done|]. split; [apply demo_table_wf|]. by intros i _.
Qed.

Lemma RasterizerMarkRegionCached_spec_witness :
  marking_wf demo_memory /\
  wp (RasterizerMarkRegionCached FCRAM_PADDR 0x1000 true)
    (fun _ s' => IsCached LINEAR_HEAP_VADDR (cache_marker s') = true) demo_memory.
Proof.
  split; [exact demo_marking_wf|].
  assert (Hcan : Forall (can_mark true demo_memory) [LINEAR_HEAP_VADDR; NEW_LINEAR_HEAP_VADDR]).
  { repeat (apply Forall_cons; split); try apply Forall_nil; try done.
    all: split; [unfold is_u32, LINEAR_HEAP_VADDR, NEW_LINEAR_HEAP_VADDR; lia|]; split; [done|]; split; [done|]; split; [done|];
      intros pt t ->%list_elem_of_singleton [= <-]; done. }
  assert (Hnd : NoDup (At <$> [LINEAR_HEAP_VADDR; NEW_LINEAR_HEAP_VADDR])).
  { cbn. apply NoDup_cons. split; [|apply NoDup_singleton]. set_solver. }
  eapply wp_mono; [apply (RasterizerMarkRegionCached_spec FCRAM_PADDR 0x1000 true demo_memory); [done|done| |exact demo_marking_wf|
    reflexivity|exact Hcan|exact Hnd]|].
  { unfold FCRAM_PADDR. lia. }
  cbn beta. intros [] s' (_ & _ & Hc). rewrite Hc. rewrite bool_decide_eq_true_2; [done|]. cbn. set_solver.
Defined.

Lemma stale_mmio_handler_witness :
  wp (MapIoRegion 0 0x100000 0x1000 (Some 1);; UnmapRegion 0 0x100000 0x1000;; MapIoRegion 0 0x100000 0x1000 (Some 2);;
      t ← get_table 0; h ← GetMMIOHandler t 0x100004; mret (attribute_at (0x100004 / CITRA_PAGE_SIZE) t, h))
    (fun r _ => r = (Special, Some 1)) demo_memory.
Proof.
  apply (stale_mmio_handler demo_host_laws 0 0x100000 0x1000 0x100004 (Some 1) (Some 2) new_PageTable);
    [reflexivity|exact demo_page_region|lia|reflexivity|lia].
Defined.
