(* ===== verification/MemoryAccess.v ===== *)
(** The accesses of [Memory::MemorySystem] (src/.../core/memory.cpp): reads and
    writes of integers, exclusive writes, and block transfers between guest
    addresses and host buffers. *)

From S2P Require Import Prelude MemoryMap Memory.

Section Access.
Context `{Host} `{Devices D}.
Abbreviation M := (M (MemorySystem D)).

(** The page table of the running core; [impl->current_page_table] is not null
    while guest code runs. *)
Definition current_table : M PageTable := s ← get; pt ← deref (current_page_table s); get_table pt.

Definition page_of (vaddr : VAddr) : Z := Z.shiftr vaddr CITRA_PAGE_BITS.
Definition offset_of (vaddr : VAddr) : Z := Z.land vaddr CITRA_PAGE_MASK.
Definition is_null (r : MemoryRef) : bool := GetPtr r =? 0.

(** [ReadMMIO<T>] and [WriteMMIO<T>], the sizes [n] being 1, 2, 4 and 8 *)
Definition ReadMMIO (n : nat) (mmio_handler : option Z) (addr : VAddr) : M Z :=
  h ← deref mmio_handler; device (mmio_read h n addr).
Definition WriteMMIO (n : nat) (mmio_handler : option Z) (addr : VAddr) (data : Z) : M unit :=
  h ← deref mmio_handler; device (fun d => (tt, mmio_write h n addr data d)).

(** [T MemorySystem::Read<T>], [sizeof(T) = n] *)
Definition Read (n : nat) (vaddr : VAddr) : M Z :=
  t ← current_table;
  let page_pointer := pointer_at (page_of vaddr) t in
  if negb (is_null page_pointer) then
    bytes ← load page_pointer (offset_of vaddr) n; mret (le_decode bytes)
  else
    let paddr := Z.land vaddr 0x7FFFFFFF in
    if Z.testbit vaddr 31 && (Z.land paddr 0xF0000000 =? FCRAM_PADDR) then
      r ← GetFCRAMPointer (paddr - FCRAM_PADDR); bytes ← load r 0 n; mret (le_decode bytes)
    else if Z.testbit vaddr 31 && (Z.land paddr 0xF0000000 =? 0x10000000) && (IO_AREA_PADDR <=? paddr) then
      device (hw_read n (u32 (paddr - IO_AREA_PADDR + 0x1EC00000)))
    else
      match attribute_at (page_of vaddr) t with
      | Unmapped => mret 0
      | MemoryPage => crash AssertFailed
      | RasterizerCachedMemory =>
          RasterizerFlushVirtualRegion vaddr (Z.of_nat n) Flush;;
          r ← GetPointerForRasterizerCache vaddr; bytes ← load r 0 n; mret (le_decode bytes)
      | Special => h ← GetMMIOHandler t vaddr; ReadMMIO n h vaddr
      end.

(** [void MemorySystem::Write<T>] *)
Definition Write (n : nat) (vaddr : VAddr) (data : Z) : M unit :=
  t ← current_table;
  let page_pointer := pointer_at (page_of vaddr) t in
  if negb (is_null page_pointer) then store page_pointer (offset_of vaddr) (le_encode n data)
  else
    let paddr := Z.land vaddr 0x7FFFFFFF in
    if Z.testbit vaddr 31 && (Z.land paddr 0xF0000000 =? FCRAM_PADDR) then
      r ← GetFCRAMPointer (paddr - FCRAM_PADDR); store r 0 (le_encode n data)
    else if Z.testbit vaddr 31 && (Z.land paddr 0xF0000000 =? 0x10000000) && (IO_AREA_PADDR <=? paddr) then
      device (fun d => (tt, hw_write n (u32 (paddr - IO_AREA_PADDR + 0x1EC00000)) data d))
    else
      match attribute_at (page_of vaddr) t with
      | Unmapped => mret tt
      | MemoryPage => crash AssertFailed
      | RasterizerCachedMemory =>
          RasterizerFlushVirtualRegion vaddr (Z.of_nat n) Invalidate;;
          r ← GetPointerForRasterizerCache vaddr; store r 0 (le_encode n data)
      | Special => h ← GetMMIOHandler t vaddr; WriteMMIO n h vaddr data
      end.

(** [AtomicCompareAndSwap(pointer, value, expected)] *)
Definition AtomicCompareAndSwap (r : MemoryRef) (offset : Z) (n : nat) (value expected : Z) : M bool :=
  bytes ← load r offset n;
  if le_decode bytes =? expected then store r offset (le_encode n value);; mret true else mret false.

(** [bool MemorySystem::WriteExclusive<T>] *)
Definition WriteExclusive (n : nat) (vaddr : VAddr) (data expected : Z) : M bool :=
  t ← current_table;
  let page_pointer := pointer_at (page_of vaddr) t in
  if negb (is_null page_pointer) then AtomicCompareAndSwap page_pointer (offset_of vaddr) n data expected
  else
    match attribute_at (page_of vaddr) t with
    | Unmapped => mret true
    | MemoryPage => crash AssertFailed
    | RasterizerCachedMemory =>
        RasterizerFlushVirtualRegion vaddr (Z.of_nat n) Invalidate;;
        r ← GetPointerForRasterizerCache vaddr; AtomicCompareAndSwap r 0 n data expected
    | Special => h ← GetMMIOHandler t vaddr; WriteMMIO n h vaddr data;; mret false
    end.

Definition Read8 := Read 1.
Definition Read16 := Read 2.
Definition Read32 := Read 4.
Definition Read64 := Read 8.
Definition Write8 := Write 1.
Definition Write16 := Write 2.
Definition Write32 := Write 4.
Definition Write64 := Write 8.
Definition WriteExclusive8 := WriteExclusive 1.
Definition WriteExclusive16 := WriteExclusive 2.
Definition WriteExclusive32 := WriteExclusive 4.
Definition WriteExclusive64 := WriteExclusive 8.

(** [IsValidVirtualAddress] for the process whose page table is [pt] *)
Definition IsValidVirtualAddress (pt : Z) (vaddr : VAddr) : M bool :=
  t ← get_table pt;
  if negb (is_null (pointer_at (page_of vaddr) t)) then mret true
  else
    match attribute_at (page_of vaddr) t with
    | RasterizerCachedMemory => mret true
    | Special =>
        h ← GetMMIOHandler t vaddr;
        match h with Some h => device (mmio_valid h vaddr) | None => mret false end
    | _ => mret false
    end.

(** [u8* GetPointer(VAddr)] *)
Definition GetPointer (vaddr : VAddr) : M MemoryRef :=
  t ← current_table;
  let page_pointer := pointer_at (page_of vaddr) t in
  if negb (is_null page_pointer) then mret ((fun p : backing * Z => (p.1, p.2 + offset_of vaddr)) <$> page_pointer)
  else if bool_decide (attribute_at (page_of vaddr) t = RasterizerCachedMemory)
  then GetPointerForRasterizerCache vaddr
  else mret None.

(** [ReadCString]: the loop runs at most [max_length] times. *)
Fixpoint ReadCString (vaddr : VAddr) (max_length : nat) : M (list Z) :=
  match max_length with
  | O => mret []
  | S n =>
      c ← Read8 vaddr;
      if c =? 0 then mret [] else rest ← ReadCString (u32 (vaddr + 1)) n; mret (c :: rest)
  end.

(** *** Block transfers

    The loops of [ReadBlockImpl], [WriteBlockImpl], [ZeroBlock] and [CopyBlock] go
    page by page: [pages] cuts [size] bytes from [addr] into its pieces, each
    with the page index, the offset in the page and the length. *)
Fixpoint pages (fuel : nat) (page_index page_offset remaining : Z) : list (Z * Z * Z) :=
  match fuel with
  | O => []
  | S fuel' =>
      if 0 <? remaining then
        let copy_amount := Z.min (CITRA_PAGE_SIZE - page_offset) remaining in
        (page_index, page_offset, copy_amount) :: pages fuel' (page_index + 1) 0 (remaining - copy_amount)
      else []
  end.
(** One iteration per page, [size / 4096 + 2] of them at most. *)
Definition page_pieces (addr size : Z) : list (Z * Z * Z) :=
  pages (Z.to_nat (size / CITRA_PAGE_SIZE) + 2) (page_of addr) (offset_of addr) size.

(** [page_table.attributes[page_index]]: past the arrays is undefined. *)
Definition attribute_index (i : Z) (t : PageTable) : M PageType :=
  if i <? PAGE_TABLE_NUM_ENTRIES then mret (attribute_at i t) else crash UndefinedBehaviour.

Definition piece_vaddr (page_index page_offset : Z) : VAddr :=
  u32 (Z.shiftl page_index CITRA_PAGE_BITS + page_offset).

(** [ReadBlockImpl<UNSAFE>] *)
Fixpoint read_pieces (unsafe : bool) (pt : Z) (l : list (Z * Z * Z)) : M (list Z) :=
  match l with
  | [] => mret []
  | (page_index, page_offset, copy_amount) :: l' =>
      let current_vaddr := piece_vaddr page_index page_offset in
      let n := Z.to_nat copy_amount in
      t ← get_table pt;
      a ← attribute_index page_index t;
      data ← match a with
        | Unmapped => mret (replicate n 0)
        | MemoryPage => load (pointer_at page_index t) page_offset n
        | Special => h ← GetMMIOHandler t current_vaddr; h ← deref h; device (mmio_read_block h current_vaddr n)
        | RasterizerCachedMemory =>
            (if unsafe then mret tt else RasterizerFlushVirtualRegion current_vaddr (u32 copy_amount) Flush);;
            r ← GetPointerForRasterizerCache current_vaddr; load r 0 n
        end;
      rest ← read_pieces unsafe pt l';
      mret (data ++ rest)
  end.
Definition ReadBlockImpl (unsafe : bool) (pt : Z) (src_addr : VAddr) (size : Z) : M (list Z) :=
  read_pieces unsafe pt (page_pieces src_addr size).
Definition ReadBlock := ReadBlockImpl false.

(** The buffer a block is written from: the bytes at a position, read when they
    are copied. It is a buffer of the host or guest memory. *)
Definition source : Type := nat -> nat -> M (list Z).
Definition host_buffer (l : list Z) : source := fun pos n => mret (take n (drop pos l)).
Definition memory_source (r : MemoryRef) (offset : Z) : source := fun pos n => load r (offset + Z.of_nat pos) n.

(** [WriteBlockImpl<UNSAFE>], the piece being written coming from [src] at [pos] *)
Fixpoint write_pieces (unsafe : bool) (pt : Z) (l : list (Z * Z * Z)) (src : source) (pos : nat) : M unit :=
  match l with
  | [] => mret tt
  | (page_index, page_offset, copy_amount) :: l' =>
      let current_vaddr := piece_vaddr page_index page_offset in
      let n := Z.to_nat copy_amount in
      t ← get_table pt;
      a ← attribute_index page_index t;
      match a with
      | Unmapped => mret tt
      | MemoryPage => data ← src pos n; store (pointer_at page_index t) page_offset data
      | Special =>
          h ← GetMMIOHandler t current_vaddr; h ← deref h;
          data ← src pos n; device (fun d => (tt, mmio_write_block h current_vaddr data d))
      | RasterizerCachedMemory =>
          (if unsafe then mret tt else RasterizerFlushVirtualRegion current_vaddr (u32 copy_amount) Invalidate);;
          r ← GetPointerForRasterizerCache current_vaddr; data ← src pos n; store r 0 data
      end;;
      write_pieces unsafe pt l' src (pos + n)
  end.
Definition WriteBlockImpl (unsafe : bool) (pt : Z) (dest_addr : VAddr) (src : source) (size : Z) : M unit :=
  write_pieces unsafe pt (page_pieces dest_addr size) src 0.
Definition WriteBlock := WriteBlockImpl false.

(** [ZeroBlock] *)
Fixpoint zero_pieces (pt : Z) (l : list (Z * Z * Z)) : M unit :=
  match l with
  | [] => mret tt
  | (page_index, page_offset, copy_amount) :: l' =>
      let current_vaddr := piece_vaddr page_index page_offset in
      let zeros := replicate (Z.to_nat copy_amount) 0 in
      t ← get_table pt;
      a ← attribute_index page_index t;
      match a with
      | Unmapped => mret tt
      | MemoryPage => store (pointer_at page_index t) page_offset zeros
      | Special =>
          h ← GetMMIOHandler t current_vaddr; h ← deref h;
          device (fun d => (tt, mmio_write_block h current_vaddr zeros d))
      | RasterizerCachedMemory =>
          RasterizerFlushVirtualRegion current_vaddr (u32 copy_amount) Invalidate;;
          r ← GetPointerForRasterizerCache current_vaddr; store r 0 zeros
      end;;
      zero_pieces pt l'
  end.
Definition ZeroBlock (pt : Z) (dest_addr : VAddr) (size : Z) : M unit := zero_pieces pt (page_pieces dest_addr size).

(** [CopyBlock]: each page of the source is written to the destination before the
    next page is looked at. *)
Fixpoint copy_pieces (dest_pt src_pt : Z) (l : list (Z * Z * Z)) (dest_addr : VAddr) : M unit :=
  match l with
  | [] => mret tt
  | (page_index, page_offset, copy_amount) :: l' =>
      let current_vaddr := piece_vaddr page_index page_offset in
      let n := Z.to_nat copy_amount in
      t ← get_table src_pt;
      a ← attribute_index page_index t;
      match a with
      | Unmapped => ZeroBlock dest_pt dest_addr copy_amount
      | MemoryPage => WriteBlock dest_pt dest_addr (memory_source (pointer_at page_index t) page_offset) copy_amount
      | Special =>
          h ← GetMMIOHandler t current_vaddr; h ← deref h;
          data ← device (mmio_read_block h current_vaddr n);
          WriteBlock dest_pt dest_addr (host_buffer data) copy_amount
      | RasterizerCachedMemory =>
          RasterizerFlushVirtualRegion current_vaddr (u32 copy_amount) Flush;;
          r ← GetPointerForRasterizerCache current_vaddr; WriteBlock dest_pt dest_addr (memory_source r 0) copy_amount
      end;;
      copy_pieces dest_pt src_pt l' (u32 (dest_addr + copy_amount))
  end.
Definition CopyBlock (dest_pt src_pt : Z) (dest_addr src_addr : VAddr) (size : Z) : M unit :=
  copy_pieces dest_pt src_pt (page_pieces src_addr size) dest_addr.

(** ** Guest memory as a flat array

    [phys t a] is the host byte behind address [a] where the page table has a
    pointer, [guest_byte] its value. *)
Definition phys (t : PageTable) (a : VAddr) : option (backing * Z) :=
  (fun p : backing * Z => (p.1, p.2 + a mod CITRA_PAGE_SIZE)) <$> pointer_at (a / CITRA_PAGE_SIZE) t.
Definition guest_byte (t : PageTable) (c : contents_t) (a : VAddr) : Z :=
  match phys t a with Some (b, i) => c b i | None => 0 end.

(** The pages of [a, a + n) are mapped to whole pages of host memory. *)
Definition ram_page (t : PageTable) (i : Z) : Prop :=
  i < PAGE_TABLE_NUM_ENTRIES /\ attribute_at i t = MemoryPage /\
  exists b o, pointer_at i t = Some (b, o) /\ 0 <= o /\ o + CITRA_PAGE_SIZE <= backing_size b.
Definition ram_range (t : PageTable) (a n : Z) : Prop :=
  forall x, a <= x < a + n -> ram_page t (x / CITRA_PAGE_SIZE).
(** No two addresses of the range share a host byte. *)
Definition injective_range (t : PageTable) (a n : Z) : Prop :=
  forall x y, a <= x < a + n -> a <= y < a + n -> phys t x = phys t y -> x = y.

(** ** Lemmas *)

Lemma phys_page t i b o k : pointer_at i t = Some (b, o) -> 0 <= k < CITRA_PAGE_SIZE ->
  phys t (i * CITRA_PAGE_SIZE + k) = Some (b, o + k).
Proof.
  unfold phys, CITRA_PAGE_SIZE. intros Hp Hk.
  replace ((i * 4096 + k) / 4096) with i by (Z.to_euclidean_division_equations; lia).
  replace ((i * 4096 + k) mod 4096) with k by (Z.to_euclidean_division_equations; lia).
  by rewrite Hp.
Qed.

Lemma wp_load b o offset n Q (s : MemorySystem D) :
  0 <= o + offset -> o + offset + Z.of_nat n <= backing_size b ->
  Q ((fun i => contents s b i) <$> seqZ (o + offset) (Z.of_nat n)) s -> wp (load (Some (b, o)) offset n) Q s.
Proof.
  intros H1 H2 HQ. unfold load. wp_step. apply (wp_deref _ (b, o)); [done|].
  rewrite (proj2 (Z.leb_le 0 _)), (proj2 (Z.leb_le _ (backing_size b))) by lia. cbn [andb]. by wp_step.
Qed.
Lemma wp_store b o offset data Q (s : MemorySystem D) :
  0 <= o + offset -> o + offset + Z.of_nat (length data) <= backing_size b ->
  Q tt (s <| contents := store_bytes b (o + offset) data (contents s) |>) -> wp (store (Some (b, o)) offset data) Q s.
Proof.
  intros H1 H2 HQ. unfold store. wp_step. apply (wp_deref _ (b, o)); [done|].
  rewrite (proj2 (Z.leb_le 0 _)), (proj2 (Z.leb_le _ (backing_size b))) by lia. cbn [andb]. by wp_step.
Qed.
Lemma wp_attribute_index i t Q (s : MemorySystem D) :
  i < PAGE_TABLE_NUM_ENTRIES -> Q (attribute_at i t) s -> wp (attribute_index i t) Q s.
Proof. intros Hi HQ. unfold attribute_index. by rewrite (proj2 (Z.ltb_lt _ _)). Qed.

Lemma fmap_seqZ_shift {A} (f g : Z -> A) a b n :
  (forall k, 0 <= k < n -> f (a + k) = g (b + k)) -> f <$> seqZ a n = g <$> seqZ b n.
Proof.
  intros Hfg. apply list_eq. intros i. rewrite !list_lookup_fmap.
  destruct (decide (Z.of_nat i < n)).
  - rewrite !lookup_seqZ_lt by done. cbn. rewrite Hfg by lia. done.
  - by rewrite !lookup_seqZ_ge by lia.
Qed.

Lemma pages_cons fuel pi po rem :
  0 < rem -> pages (S fuel) pi po rem =
  (pi, po, Z.min (CITRA_PAGE_SIZE - po) rem) :: pages fuel (pi + 1) 0 (rem - Z.min (CITRA_PAGE_SIZE - po) rem).
Proof. intros. cbn [pages]. by rewrite (proj2 (Z.ltb_lt _ _)). Qed.
Lemma pages_nil fuel pi po : pages fuel pi po 0 = [].
Proof. by destruct fuel. Qed.

(** The first page of a range of RAM. *)
Lemma ram_range_page t pi po rem :
  0 <= po < CITRA_PAGE_SIZE -> 0 < rem -> ram_range t (pi * CITRA_PAGE_SIZE + po) rem -> ram_page t pi.
Proof.
  intros Hpo Hrem Hram. specialize (Hram (pi * CITRA_PAGE_SIZE + po)).
  replace pi with ((pi * CITRA_PAGE_SIZE + po) / CITRA_PAGE_SIZE)
    by (unfold CITRA_PAGE_SIZE in *; Z.to_euclidean_division_equations; lia).
  apply Hram. lia.
Qed.

Lemma read_pieces_ram unsafe pt t (s : MemorySystem D) fuel pi po rem :
  page_tables s !! pt = Some t -> 0 <= po < CITRA_PAGE_SIZE -> 0 <= rem <= Z.of_nat fuel * CITRA_PAGE_SIZE - po ->
  ram_range t (pi * CITRA_PAGE_SIZE + po) rem ->
  wp (read_pieces unsafe pt (pages fuel pi po rem))
    (fun r s' => s' = s /\ r = guest_byte t (contents s) <$> seqZ (pi * CITRA_PAGE_SIZE + po) rem) s.
Proof.
  intros Ht. revert pi po rem. induction fuel as [|fuel IH]; intros pi po rem Hpo Hrem Hram;
    (destruct (decide (rem = 0)) as [->|Hrem0]; [rewrite pages_nil, seqZ_nil by lia; by apply wp_ret|]); [unfold CITRA_PAGE_SIZE in *; lia|].
  rewrite pages_cons by lia. set (n := Z.min (CITRA_PAGE_SIZE - po) rem).
  destruct (ram_range_page t pi po rem) as (Hnum & Ha & b & o & Hp & Ho & Hob); [done|lia|done|].
  cbn [read_pieces]. wp_step. apply (wp_get_table _ t); [done|]. wp_step. apply wp_attribute_index; [done|].
  rewrite Ha, Hp. wp_step. apply wp_load; [lia|lia|]. rewrite Z2Nat.id by lia.
  wp_step. eapply wp_mono; [apply IH; [page_lia|page_lia|]|].
  { intros x Hx. apply Hram. unfold n, CITRA_PAGE_SIZE in *. lia. }
  cbn beta. intros r s' [-> ->]. apply wp_ret. split; [done|].
  replace rem with (n + (rem - n)) at 2 by lia. rewrite seqZ_app, fmap_app by lia. f_equal.
  - apply fmap_seqZ_shift. intros k Hk. rewrite <- !Z.add_assoc. unfold guest_byte.
    by rewrite (phys_page t pi b o (po + k) Hp) by lia.
  - apply fmap_seqZ_shift. intros k Hk. f_equal. unfold n, CITRA_PAGE_SIZE in *. lia.
Qed.

Lemma store_bytes_in b o data c i : o <= i < o + Z.of_nat (length data) ->
  store_bytes b o data c b i = default 0 (data !! Z.to_nat (i - o)).
Proof. intros Hi. unfold store_bytes. rewrite bool_decide_eq_true_2 by done. cbn [andb]. by rewrite in_range_true. Qed.
Lemma store_bytes_out b o data c b' i : b' <> b \/ i < o \/ o + Z.of_nat (length data) <= i ->
  store_bytes b o data c b' i = c b' i.
Proof.
  intros Hi. unfold store_bytes. case_dec (b' = b); cbn [andb]; [|done]. by rewrite in_range_false by naive_solver.
Qed.

(** [c'] is [c] with the bytes [l] in guest memory from [a]. *)
Definition written (t : PageTable) (a : VAddr) (l : list Z) (c c' : contents_t) : Prop :=
  (forall k, (k < length l)%nat -> guest_byte t c' (a + Z.of_nat k) = default 0 (l !! k)) /\
  (forall b i, (forall k, (k < length l)%nat -> phys t (a + Z.of_nat k) <> Some (b, i)) -> c' b i = c b i).

Lemma write_pieces_ram unsafe pt t fuel pi po l pos s :
  page_tables s !! pt = Some t -> 0 <= po < CITRA_PAGE_SIZE -> (pos <= length l)%nat ->
  Z.of_nat (length l - pos) <= Z.of_nat fuel * CITRA_PAGE_SIZE - po ->
  ram_range t (pi * CITRA_PAGE_SIZE + po) (Z.of_nat (length l - pos)) ->
  injective_range t (pi * CITRA_PAGE_SIZE + po) (Z.of_nat (length l - pos)) ->
  wp (write_pieces unsafe pt (pages fuel pi po (Z.of_nat (length l - pos))) (host_buffer l) pos)
    (fun _ s' => exists c', s' = s <| contents := c' |> /\
       written t (pi * CITRA_PAGE_SIZE + po) (drop pos l) (contents s) c') s.
Proof.
  revert pi po pos s. induction fuel as [|fuel IH]; intros pi po pos s Ht Hpo Hpos Hrem Hram Hinj;
    (destruct (decide (length l - pos = 0)%nat) as [Heq|Hrem0]; [rewrite Heq, pages_nil; apply wp_ret; exists (contents s);
       split; [by destruct s|split; [intros k; rewrite length_drop; lia|done]]|]);
    [unfold CITRA_PAGE_SIZE in *; lia|].
  set (rem := Z.of_nat (length l - pos)) in *.
  rewrite pages_cons by lia. set (n := Z.min (CITRA_PAGE_SIZE - po) rem).
  destruct (ram_range_page t pi po rem) as (Hnum & Ha & b & o & Hp & Ho & Hob); [done|lia|done|].
  cbn [write_pieces]. wp_step. apply (wp_get_table _ t); [done|]. wp_step. apply wp_attribute_index; [done|].
  rewrite Ha, Hp. wp_step. unfold host_buffer at 1. wp_step. wp_step.
  set (data := take (Z.to_nat n) (drop pos l)).
  assert (Hlen : length data = Z.to_nat n) by (unfold data; rewrite length_take, length_drop; lia).
  apply wp_store; [lia|rewrite Hlen; lia|].
  replace (rem - n) with (Z.of_nat (length l - (pos + Z.to_nat n))) by lia.
  eapply wp_mono; [apply IH; [done|page_lia|lia|page_lia| |]|].
  { intros x Hx. apply Hram. unfold n, CITRA_PAGE_SIZE in *. lia. }
  { intros x y Hx Hy. apply Hinj; unfold n, CITRA_PAGE_SIZE in *; lia. }
  cbn beta. set (c1 := store_bytes b (o + po) data (contents s)). intros [] s' (c' & -> & Hin & Hout).
  exists c'. split; [done|]. unfold written in *. rewrite length_drop in *.
  assert (Hphys : forall k, (k < Z.to_nat n)%nat -> phys t (pi * CITRA_PAGE_SIZE + po + Z.of_nat k) = Some (b, o + po + Z.of_nat k)).
  { intros k Hk. rewrite <- !Z.add_assoc. apply phys_page; [done|]. unfold n in Hk. lia. }
  assert (Hnext : forall k, (k < length l - (pos + Z.to_nat n))%nat ->
    (pi + 1) * CITRA_PAGE_SIZE + 0 + Z.of_nat k = pi * CITRA_PAGE_SIZE + po + Z.of_nat (Z.to_nat n + k)).
  { intros k Hk. unfold n, CITRA_PAGE_SIZE in *. lia. }
  split.
  - intros k Hk. destruct (decide (k < Z.to_nat n)%nat) as [Hkn|Hkn].
    + unfold guest_byte. rewrite Hphys by done. rewrite Hout.
      * cbn. unfold c1. rewrite store_bytes_in by (rewrite Hlen; lia).
        replace (Z.to_nat (o + po + Z.of_nat k - (o + po))) with k by lia.
        unfold data. by rewrite lookup_take_lt by lia.
      * intros k' Hk'. rewrite Hnext by done. rewrite <- Hphys by done. intros Heq.
        apply Hinj in Heq; lia.
    + replace (pi * CITRA_PAGE_SIZE + po + Z.of_nat k)
        with ((pi + 1) * CITRA_PAGE_SIZE + 0 + Z.of_nat (k - Z.to_nat n)) by (rewrite Hnext by lia; lia).
      rewrite Hin by lia. rewrite !lookup_drop. do 2 f_equal. lia.
  - intros b' i Hni. rewrite Hout.
    + cbn. unfold c1. apply store_bytes_out. rewrite Hlen.
      destruct (decide (b' = b)) as [->|]; [right|by left].
      destruct (decide (o + po <= i < o + po + Z.of_nat (Z.to_nat n))) as [Hi|]; [|lia]. exfalso.
      apply (Hni (Z.to_nat (i - (o + po)))); [lia|]. rewrite Hphys by lia. do 2 f_equal. lia.
    + intros k Hk. rewrite Hnext by done. apply Hni. lia.
Qed.

Lemma page_pieces_fuel a n : 0 <= n -> n <= Z.of_nat (Z.to_nat (n / CITRA_PAGE_SIZE) + 2) * CITRA_PAGE_SIZE - offset_of a.
Proof.
  intros Hn. unfold offset_of. rewrite aligned_land. unfold CITRA_PAGE_SIZE.
  rewrite Nat2Z.inj_add, Z2Nat.id by (apply Z.div_pos; lia). Z.to_euclidean_division_equations. lia.
Qed.
Lemma page_of_offset a : page_of a * CITRA_PAGE_SIZE + offset_of a = a.
Proof.
  unfold page_of, offset_of. rewrite page_of_div, aligned_land. unfold CITRA_PAGE_SIZE.
  Z.to_euclidean_division_equations. lia.
Qed.
Lemma offset_of_range a : 0 <= offset_of a < CITRA_PAGE_SIZE.
Proof. unfold offset_of. rewrite aligned_land. apply Z.mod_pos_bound. done. Qed.

Lemma ReadBlock_ram unsafe pt t (s : MemorySystem D) a n :
  page_tables s !! pt = Some t -> 0 <= n -> ram_range t a n ->
  ReadBlockImpl unsafe pt a n s = Ret (guest_byte t (contents s) <$> seqZ a n, s).
Proof.
  intros Ht Hn Hram. pose proof (page_pieces_fuel a n Hn) as Hfuel.
  pose proof (read_pieces_ram unsafe pt t s (Z.to_nat (n / CITRA_PAGE_SIZE) + 2) (page_of a) (offset_of a) n Ht (offset_of_range a) (conj Hn Hfuel)) as Hr.
  rewrite page_of_offset in Hr. specialize (Hr Hram). apply wp_inv in Hr as (r & s' & Heq & -> & ->). exact Heq.
Qed.
Lemma WriteBlock_ram unsafe pt t (s : MemorySystem D) a l :
  page_tables s !! pt = Some t -> ram_range t a (Z.of_nat (length l)) -> injective_range t a (Z.of_nat (length l)) ->
  exists c', WriteBlockImpl unsafe pt a (host_buffer l) (Z.of_nat (length l)) s = Ret (tt, s <| contents := c' |>) /\
    written t a l (contents s) c'.
Proof.
  intros Ht Hram Hinj. pose proof (page_pieces_fuel a (Z.of_nat (length l)) ltac:(lia)) as Hfuel.
  pose proof (write_pieces_ram unsafe pt t (Z.to_nat (Z.of_nat (length l) / CITRA_PAGE_SIZE) + 2) (page_of a) (offset_of a) l 0 s Ht (offset_of_range a)) as Hw.
  rewrite page_of_offset, Nat.sub_0_r, drop_0 in Hw. specialize (Hw (Nat.le_0_l _) Hfuel Hram Hinj).
  apply wp_inv in Hw as ([] & s' & Heq & c' & -> & Hc). eauto.
Qed.

(** *** Integers, through the cache or not *)

Lemma le_decode_encode n z : 0 <= z < 256 ^ Z.of_nat n -> le_decode (le_encode n z) = z.
Proof.
  revert z. induction n as [|n IH]; intros z Hz; cbn [le_encode le_decode]; [cbn in Hz; lia|].
  rewrite Nat2Z.inj_succ, Z.pow_succ_r in Hz by lia.
  rewrite IH; Z.to_euclidean_division_equations; lia.
Qed.
Lemma length_le_encode n z : length (le_encode n z) = n.
Proof. revert z. induction n; intros; cbn; auto. Qed.

Lemma cache_ref_offset fb i k b o :
  is_u32 (i * CITRA_PAGE_SIZE) -> cache_ref fb (i * CITRA_PAGE_SIZE) = Some (b, o) -> 0 <= o ->
  o + CITRA_PAGE_SIZE <= backing_size b -> 0 <= k < CITRA_PAGE_SIZE ->
  cache_ref fb (i * CITRA_PAGE_SIZE + k) = Some (b, o + k) /\ i * CITRA_PAGE_SIZE + k < 2 ^ 31.
Proof.
  unfold cache_ref, VRAM_VADDR, VRAM_VADDR_END, VRAM_SIZE, LINEAR_HEAP_VADDR, LINEAR_HEAP_VADDR_END, LINEAR_HEAP_SIZE,
    NEW_LINEAR_HEAP_VADDR, NEW_LINEAR_HEAP_VADDR_END, NEW_LINEAR_HEAP_SIZE, PLUGIN_3GX_FB_VADDR,
    PLUGIN_3GX_FB_VADDR_END, PLUGIN_3GX_FB_SIZE, VRAM_VADDR, CITRA_PAGE_SIZE.
  intros Hi Hc Ho Hb Hk; revert Hc Ho Hb.
  assert (Hr : forall lo hi, lo mod 4096 = 0 -> hi mod 4096 = 0 ->
    (lo <=? i * 4096 + k) && (i * 4096 + k <? hi) = (lo <=? i * 4096) && (i * 4096 <? hi)).
  { intros lo hi Hlo Hhi. apply eq_true_iff_eq. rewrite !in_range_spec. clear -Hlo Hhi Hk.
    Z.to_euclidean_division_equations. lia. }
  unfold is_u32 in Hi. unfold LINEAR_HEAP_VADDR, NEW_LINEAR_HEAP_VADDR, VRAM_VADDR, PLUGIN_3GX_FB_VADDR. rewrite !Hr by done.
  repeat match goal with |- (if ?c then _ else _) = _ -> _ => let Hcase := fresh "Hcase" in destruct c eqn:Hcase end;
    [..|done]; intros [= <- <-] Ho Hb; repeat match goal with H : _ && _ = false |- _ => clear H end;
    match goal with H : _ && _ = true |- _ => apply in_range_spec in H end;
    (split; [do 2 f_equal|lia]); try lia.
  unfold backing_size, FCRAM_N3DS_SIZE, FCRAM_PADDR in *. clear -Hb Hk Ho. word.
Qed.

(** What the accesses use of a mapped page, cached or not. *)
Record page_access (s : MemorySystem D) (pt : Z) (t : PageTable) (vaddr : VAddr) (n : nat) (b : backing) (o : Z) : Prop := {
  access_host : host_laws;
  access_current : current_page_table s = Some pt;
  access_table : page_tables s !! pt = Some t;
  access_wf : table_wf (cache_marker s) t;
  access_vaddr : is_u32 vaddr;
  access_effective : effective_ref (plugin_fb_addr s) (vaddr / CITRA_PAGE_SIZE) t = Some (b, o);
  access_bounds : 0 <= o /\ o + CITRA_PAGE_SIZE <= backing_size b;
  access_within : vaddr mod CITRA_PAGE_SIZE + Z.of_nat n <= CITRA_PAGE_SIZE;
}.

Lemma page_access_same s s' pt t vaddr n b o :
  page_access s pt t vaddr n b o -> same_tables s s' -> page_access s' pt t vaddr n b o.
Proof. intros [] []. split; try done; congruence. Qed.

Lemma wp_current_table s pt t Q :
  current_page_table s = Some pt -> page_tables s !! pt = Some t -> Q t s -> wp current_table Q s.
Proof.
  intros Hc Ht HQ. unfold current_table. wp_step. wp_step. wp_step. apply (wp_deref _ pt); [done|]. by apply (wp_get_table _ t).
Qed.

Lemma vaddr_split vaddr : vaddr = vaddr / CITRA_PAGE_SIZE * CITRA_PAGE_SIZE + vaddr mod CITRA_PAGE_SIZE.
Proof. unfold CITRA_PAGE_SIZE. Z.to_euclidean_division_equations. lia. Qed.

(** The two ways to a page's memory. *)
Lemma page_access_cases s pt t vaddr n b o :
  page_access s pt t vaddr n b o ->
  (pointer_at (page_of vaddr) t = Some (b, o) /\ is_null (Some (b, o)) = false) \/
  (pointer_at (page_of vaddr) t = None /\ attribute_at (page_of vaddr) t = RasterizerCachedMemory /\
   Z.testbit vaddr 31 = false /\ cache_ref (plugin_fb_addr s) vaddr = Some (b, o + offset_of vaddr)).
Proof.
  intros [Hh _ _ [Hw _ _] Hv He [Ho Hb] Hn]. unfold page_of. rewrite page_of_div.
  unfold effective_ref in He. destruct (attribute_at (vaddr / CITRA_PAGE_SIZE) t) eqn:Ha; try done.
  - left. split; [done|]. unfold is_null, GetPtr. pose proof (host_positive Hh b). apply Z.eqb_neq. lia.
  - right. split; [|split; [done|]].
    + destruct (pointer_at _ t) eqn:Hp; [|done]. specialize (Hw (vaddr / CITRA_PAGE_SIZE)). rewrite Hp, Ha in Hw. by destruct Hw as [Hw _]; specialize (Hw ltac:(done)).
    + destruct (cache_ref_offset (plugin_fb_addr s) (vaddr / CITRA_PAGE_SIZE) (vaddr mod CITRA_PAGE_SIZE) b o) as [Hc Hlt];
        [|done|done|done|apply Z.mod_pos_bound; done|].
      { unfold is_u32, CITRA_PAGE_SIZE in *. Z.to_euclidean_division_equations. lia. }
      rewrite <- vaddr_split in Hc, Hlt. unfold offset_of. rewrite aligned_land. split; [|done].
      apply Z.testbit_false; [done|]. rewrite Z.div_small by (unfold is_u32 in Hv; lia). done.
Qed.

(** Bytes of host memory as [memcpy] reads them. *)
Definition bytes_at (c : contents_t) (b : backing) (o : Z) (n : nat) : list Z := (fun i => c b i) <$> seqZ o (Z.of_nat n).

Definition keeps_page (b : backing) (o : Z) (s s' : MemorySystem D) : Prop :=
  forall i, o <= i < o + CITRA_PAGE_SIZE -> contents s' b i = contents s b i.
Definition leaves_page (b : backing) (o : Z) : Prop :=
  forall cmd c i, o <= i < o + CITRA_PAGE_SIZE -> rasterize cmd c b i = c b i.
Instance flush_preorder b o : PreOrder (fun s s' => same_tables s s' /\ (leaves_page b o -> keeps_page b o s s')).
Proof.
  split; [done|]. intros s1 s2 s3 [H1 K1] [H2 K2]. split; [by etrans|]. intros Hl i Hi.
  by rewrite (K2 Hl), (K1 Hl).
Qed.
Lemma wp_flush_page start size mode b o Q (s : MemorySystem D) :
  (forall s', same_tables s s' -> (leaves_page b o -> keeps_page b o s s') -> Q tt s') ->
  wp (RasterizerFlushVirtualRegion start size mode) Q s.
Proof.
  intros HQ. apply (wp_flush_rel (fun s s' => same_tables s s' /\ (leaves_page b o -> keeps_page b o s s'))).
  - intros c s'. split; [done|]. intros Hl i Hi. by apply Hl.
  - intros s' [??]. by apply HQ.
Qed.

Lemma wp_Read s pt t vaddr n b o :
  page_access s pt t vaddr n b o ->
  wp (Read n vaddr) (fun v s' => same_tables s s' /\ (leaves_page b o -> keeps_page b o s s') /\
    v = le_decode (bytes_at (contents s') b (o + offset_of vaddr) n)) s.
Proof.
  intros Hacc. pose proof Hacc as [Hh Hc Ht Hw Hv He [Ho Hb] Hn]. rewrite <- aligned_land in Hn. fold (offset_of vaddr) in Hn.
  pose proof (offset_of_range vaddr). unfold Read. wp_step. apply (wp_current_table _ pt t); [done..|].
  destruct (page_access_cases _ _ _ _ _ _ _ Hacc) as [[-> ->]|(Hp & Ha & Hbit & Hcr)].
  - cbn [negb]. wp_step. apply wp_load; [lia|lia|]. by apply wp_ret.
  - rewrite Hp. change (is_null None) with true. cbn [negb]. rewrite Hbit, Ha. cbn [andb].
    wp_step. apply (wp_flush_page _ _ _ b o). intros s1 Hs1 Hk1. wp_step.
    apply wp_GetPointerForRasterizerCache; unfold cache_ref_ok; rewrite (same_plugin_fb _ _ Hs1), Hcr; [apply Z.leb_le; lia|].
    wp_step. apply wp_load; [lia|lia|]. rewrite Z.add_0_r. by apply wp_ret.
Qed.

Lemma wp_Write s pt t vaddr n data b o :
  page_access s pt t vaddr n b o ->
  wp (Write n vaddr data) (fun _ s' => exists s1, same_tables s s1 /\
    s' = s1 <| contents := store_bytes b (o + offset_of vaddr) (le_encode n data) (contents s1) |>) s.
Proof.
  intros Hacc. pose proof Hacc as [Hh Hc Ht Hw Hv He [Ho Hb] Hn]. rewrite <- aligned_land in Hn. fold (offset_of vaddr) in Hn.
  pose proof (offset_of_range vaddr). unfold Write. wp_step. apply (wp_current_table _ pt t); [done..|].
  destruct (page_access_cases _ _ _ _ _ _ _ Hacc) as [[-> ->]|(Hp & Ha & Hbit & Hcr)].
  - cbn [negb]. apply wp_store; rewrite ?length_le_encode; [lia|lia|]. exists s. done.
  - rewrite Hp. change (is_null None) with true. cbn [negb]. rewrite Hbit, Ha. cbn [andb].
    wp_step. apply wp_RasterizerFlushVirtualRegion. intros s1 Hs1. wp_step.
    apply wp_GetPointerForRasterizerCache; unfold cache_ref_ok; rewrite (same_plugin_fb _ _ Hs1), Hcr; [apply Z.leb_le; lia|].
    apply wp_store; rewrite ?length_le_encode; [lia|lia|]. rewrite Z.add_0_r. exists s1. done.
Qed.

(** ** Correctness *)


(** An integer that is written to an address is read back from it, whatever
    its width, whether the page is plain memory or cached by the rasterizer, when
    the access lies within the page and the rasterizer's commands leave the bytes
    behind it alone; the page tables and the marks are as before. *)
Theorem integer_roundtrip (s : MemorySystem D) (pt : Z) (t : PageTable) (vaddr : VAddr) (n : nat) (data : Z)
    (b : backing) (o : Z) (Hacc : page_access s pt t vaddr n b o) (Hdata : 0 <= data < 256 ^ Z.of_nat n)
    (Hras : leaves_page b o) :
  wp (Write n vaddr data;; Read n vaddr) (fun v s' => v = data /\ same_tables s s') s.
Proof.
  pose proof Hacc as [Hh Hc Ht Hw Hv He [Ho Hb] Hn]. rewrite <- aligned_land in Hn. fold (offset_of vaddr) in Hn.
  pose proof (offset_of_range vaddr) as Hoff.
  wp_step. eapply wp_mono; [by apply (wp_Write s pt t vaddr n data b o)|]. cbn beta. intros [] s' (s1 & Hs1 & ->).
  set (s2 := s1 <| contents := _ |>). assert (Hs2 : same_tables s s2) by (etrans; [exact Hs1|done]).
  eapply wp_mono; [apply (wp_Read s2 pt t vaddr n b o (page_access_same _ _ _ _ _ _ _ _ Hacc Hs2))|].
  cbn beta. intros v s3 (Hs3 & Hc3 & ->). split; [|by etrans].
  transitivity (le_decode (le_encode n data)); [f_equal|by apply le_decode_encode]. unfold bytes_at. apply list_eq. intros i. rewrite list_lookup_fmap.
  destruct (decide (i < n)%nat).
  - rewrite lookup_seqZ_lt by lia. cbn. rewrite (Hc3 Hras) by lia. unfold s2. cbn.
    rewrite store_bytes_in by (rewrite length_le_encode; lia).
    replace (Z.to_nat (o + offset_of vaddr + Z.of_nat i - (o + offset_of vaddr))) with i by lia.
    destruct (lookup_lt_is_Some_2 (le_encode n data) i) as [x ->]; [by rewrite length_le_encode|done].
  - rewrite lookup_seqZ_ge by lia. symmetry. apply lookup_ge_None_2. rewrite length_le_encode. lia.
Qed.
End Access.

(** ** The theorems at work: two pages of FCRAM, the second one cached *)

#[local] Existing Instance demo_host.
#[local] Existing Instance demo_devices.

Definition demo_table : PageTable :=
  mkPageTable {[ 0x100 := (FcramMem, 0x5000); 0x101 := (FcramMem, 0x9000) ]} []
    {[ 0x100 := MemoryPage; 0x101 := MemoryPage; 0x14000 := RasterizerCachedMemory ]}.
Definition demo_access : MemorySystem unit :=
  mkMemorySystem (fun _ _ => 0) {[ 0 := demo_table ]} (Some 0) (Mark LINEAR_HEAP_VADDR true ∅) [0] true 0 [] tt.


Lemma integer_roundtrip_witness :
  wp (Write 4 0x14000004 0xCAFE;; Read 4 0x14000004) (fun v _ => v = 0xCAFE) demo_access.
Proof.
  assert (Hacc : page_access demo_access 0 demo_table 0x14000004 4 FcramMem 0).
  { split; try reflexivity.
    - exact demo_host_laws.
    - split.
      + intros i. unfold pointer_at, attribute_at, demo_table. cbn [pointers attributes].
        destruct (decide (i = 0x100)) as [->|]; [done|]. destruct (decide (i = 0x101)) as [->|]; [done|].
        destruct (decide (i = 0x14000)) as [->|]; [done|].
        rewrite !lookup_insert_ne, !lookup_singleton_ne by done. done.
      + intros i Hi. unfold attribute_at, demo_table. cbn [attributes].
        destruct (decide (i = 0x100)) as [->|]; [done|]. destruct (decide (i = 0x101)) as [->|]; [done|].
        destruct (decide (i = 0x14000)) as [->|]; [done|].
        rewrite !lookup_insert_ne, !lookup_singleton_ne by done. done.
      + intros i Hi. unfold attribute_at, demo_table. cbn [attributes].
        destruct (decide (i = 0x100)) as [->|]; [done|]. destruct (decide (i = 0x101)) as [->|]; [done|].
        destruct (decide (i = 0x14000)) as [->|]; [done|].
        rewrite !lookup_insert_ne, !lookup_singleton_ne by done. done.
    - unfold is_u32. lia.
    - by split.
    - done. }
  assert (Hd : 0 <= 0xCAFE < 256 ^ Z.of_nat 4) by (cbn; lia).
  assert (Hras : leaves_page FcramMem 0) by (intros cmd c i _; reflexivity).
  eapply wp_mono; [apply (integer_roundtrip demo_access 0 demo_table 0x14000004 4 0xCAFE FcramMem 0 Hacc Hd Hras)|].
  intros v s' [-> _]. reflexivity.
Defined.
