(* ===== verification/Cro.v ===== *)
(** The loader of relocatable modules (src/.../core/hle/service/ldr_ro/cro_helper.cpp): a
    module is a file in the memory of a process, and so are the lists of modules that are
    registered; loading it turns the offsets in its tables into addresses, and linking it
    writes the addresses of symbols to the places that refer to them. *)

From S2P Require Import Prelude ResultCode MemoryMap Memory MemoryAccess.
From Stdlib Require Import Ascii.

(** ** The memory of a process, as the loader uses it *)

Class ProcessMemory (S : Type) := {
  read8 : Z -> M S Z;
  read32 : Z -> M S Z;
  write32 : Z -> Z -> M S unit;
  read_block : Z -> Z -> M S (list Z);
  write_block : Z -> list Z -> M S unit;
  read_cstring : Z -> Z -> M S (list Z);
  invalidate_cache_range : Z -> Z -> M S unit;
}.

(** ** The file *)

Definition CRO_HEADER_SIZE : Z := 0x138.
Definition CRO_HASH_SIZE : Z := 0x80.
Definition MAGIC_CRO0 : Z := 0x304F5243.
Definition MAGIC_FIXD : Z := 0x44584946.
Definition ErrorModule_RO : Z := 75.
Definition ERROR_BUFFER_TOO_SMALL : result_code := ResultCode 31 ErrorModule_RO ErrorSummary.InvalidArgument ErrorLevel.Usage.
Definition CROFormatError (description : Z) : result_code := ResultCode description ErrorModule_RO ErrorSummary.WrongArgument ErrorLevel.Permanent.

(** [enum HeaderField]: the words of the header from the address 0x80 of the module on *)
Definition Magic : Z := 0.
Definition NameOffset : Z := 1.
Definition NextCRO : Z := 2.
Definition PreviousCRO : Z := 3.
Definition FileSize : Z := 4.
Definition BssSize : Z := 5.
Definition FixedSize : Z := 6.
Definition OnUnresolvedSegmentTag : Z := 11.
Definition CodeOffset : Z := 12.
Definition CodeSize : Z := 13.
Definition DataOffset : Z := 14.
Definition DataSize : Z := 15.
Definition ModuleNameOffset : Z := 16.
Definition ModuleNameSize : Z := 17.
Definition SegmentTableOffset : Z := 18.
Definition SegmentNum : Z := 19.
Definition ExportNamedSymbolTableOffset : Z := 20.
Definition ExportNamedSymbolNum : Z := 21.
Definition ExportIndexedSymbolTableOffset : Z := 22.
Definition ExportIndexedSymbolNum : Z := 23.
Definition ExportStringsOffset : Z := 24.
Definition ExportStringsSize : Z := 25.
Definition ExportTreeTableOffset : Z := 26.
Definition ExportTreeNum : Z := 27.
Definition ImportModuleTableOffset : Z := 28.
Definition ImportModuleNum : Z := 29.
Definition ExternalRelocationTableOffset : Z := 30.
Definition ExternalRelocationNum : Z := 31.
Definition ImportNamedSymbolTableOffset : Z := 32.
Definition ImportNamedSymbolNum : Z := 33.
Definition ImportIndexedSymbolTableOffset : Z := 34.
Definition ImportIndexedSymbolNum : Z := 35.
Definition ImportAnonymousSymbolTableOffset : Z := 36.
Definition ImportAnonymousSymbolNum : Z := 37.
Definition ImportStringsOffset : Z := 38.
Definition ImportStringsSize : Z := 39.
Definition StaticAnonymousSymbolTableOffset : Z := 40.
Definition StaticAnonymousSymbolNum : Z := 41.
Definition InternalRelocationTableOffset : Z := 42.
Definition InternalRelocationNum : Z := 43.
Definition StaticRelocationTableOffset : Z := 44.
Definition StaticRelocationNum : Z := 45.
Definition Fix0Barrier : Z := 46.
Definition Fix3Barrier : Z := ExportNamedSymbolTableOffset.
Definition Fix2Barrier : Z := ImportModuleTableOffset.
Definition Fix1Barrier : Z := StaticAnonymousSymbolTableOffset.
Definition FIX_BARRIERS : list Z := [Fix0Barrier; Fix1Barrier; Fix2Barrier; Fix3Barrier].

(** [enum class SegmentType] *)
Definition SegmentType_Code : Z := 0.
Definition SegmentType_ROData : Z := 1.
Definition SegmentType_Data : Z := 2.
Definition SegmentType_BSS : Z := 3.

(** [union SegmentTag] *)
Definition segment_index (tag : Z) : Z := ExtractValue 0 4 tag.
Definition offset_into_segment (tag : Z) : Z := ExtractValue 4 28 tag.

(** The entries of the tables; the static member [TABLE_OFFSET_FIELD] says which field has
    the address of the table. *)
Class Entry (T : Type) := { TABLE_OFFSET_FIELD : Z; sizeof : Z; decode : list Z -> T; encode : T -> list Z }.
Arguments TABLE_OFFSET_FIELD T {_}. Arguments sizeof T {_}.
Definition word_at (i : nat) (l : list Z) : Z := le_decode (take 4 (drop (4 * i) l)).
Definition half_at (i : nat) (l : list Z) : Z := le_decode (take 2 (drop (2 * i) l)).
Definition byte_at (i : nat) (l : list Z) : Z := default 0 (l !! i).
Definition words (ws : list Z) : list Z := ws ≫= le_encode 4.

Record SegmentEntry := mkSegmentEntry { offset : Z; size : Z; type : Z }.
#[export] Instance segment_entry : Entry SegmentEntry := {|
  TABLE_OFFSET_FIELD := SegmentTableOffset; sizeof := 12;
  decode l := mkSegmentEntry (word_at 0 l) (word_at 1 l) (word_at 2 l); encode e := words [offset e; size e; type e] |}.
Record ExportNamedSymbolEntry := mkExportNamedSymbolEntry { exported_name_offset : Z; exported_position : Z }.
#[export] Instance export_named_entry : Entry ExportNamedSymbolEntry := {|
  TABLE_OFFSET_FIELD := ExportNamedSymbolTableOffset; sizeof := 8;
  decode l := mkExportNamedSymbolEntry (word_at 0 l) (word_at 1 l); encode e := words [exported_name_offset e; exported_position e] |}.
Record ExportIndexedSymbolEntry := mkExportIndexedSymbolEntry { indexed_position : Z }.
#[export] Instance export_indexed_entry : Entry ExportIndexedSymbolEntry := {|
  TABLE_OFFSET_FIELD := ExportIndexedSymbolTableOffset; sizeof := 4;
  decode l := mkExportIndexedSymbolEntry (word_at 0 l); encode e := words [indexed_position e] |}.
(** The union [Child] has the index in its low 15 bits and [is_end] in the highest. *)
Record ExportTreeEntry := mkExportTreeEntry { test_bit : Z; left : Z; right : Z; export_table_index : Z }.
Definition next_index (child : Z) : Z := ExtractValue 0 15 child.
Definition is_end (child : Z) : bool := negb (ExtractValue 15 1 child =? 0).
#[export] Instance export_tree_entry : Entry ExportTreeEntry := {|
  TABLE_OFFSET_FIELD := ExportTreeTableOffset; sizeof := 8;
  decode l := mkExportTreeEntry (half_at 0 l) (half_at 1 l) (half_at 2 l) (half_at 3 l);
  encode e := [test_bit e; left e; right e; export_table_index e] ≫= le_encode 2 |}.
Record ImportNamedSymbolEntry := mkImportNamedSymbolEntry { imported_name_offset : Z; named_batch : Z }.
#[export] Instance import_named_entry : Entry ImportNamedSymbolEntry := {|
  TABLE_OFFSET_FIELD := ImportNamedSymbolTableOffset; sizeof := 8;
  decode l := mkImportNamedSymbolEntry (word_at 0 l) (word_at 1 l); encode e := words [imported_name_offset e; named_batch e] |}.
Record ImportIndexedSymbolEntry := mkImportIndexedSymbolEntry { index : Z; indexed_batch : Z }.
#[export] Instance import_indexed_entry : Entry ImportIndexedSymbolEntry := {|
  TABLE_OFFSET_FIELD := ImportIndexedSymbolTableOffset; sizeof := 8;
  decode l := mkImportIndexedSymbolEntry (word_at 0 l) (word_at 1 l); encode e := words [index e; indexed_batch e] |}.
Record ImportAnonymousSymbolEntry := mkImportAnonymousSymbolEntry { anonymous_position : Z; anonymous_batch : Z }.
#[export] Instance import_anonymous_entry : Entry ImportAnonymousSymbolEntry := {|
  TABLE_OFFSET_FIELD := ImportAnonymousSymbolTableOffset; sizeof := 8;
  decode l := mkImportAnonymousSymbolEntry (word_at 0 l) (word_at 1 l); encode e := words [anonymous_position e; anonymous_batch e] |}.
Record ImportModuleEntry := mkImportModuleEntry {
  module_name_offset : Z; import_indexed_symbol_table_offset : Z; import_indexed_symbol_num : Z;
  import_anonymous_symbol_table_offset : Z; import_anonymous_symbol_num : Z }.
#[export] Instance import_module_entry : Entry ImportModuleEntry := {|
  TABLE_OFFSET_FIELD := ImportModuleTableOffset; sizeof := 20;
  decode l := mkImportModuleEntry (word_at 0 l) (word_at 1 l) (word_at 2 l) (word_at 3 l) (word_at 4 l);
  encode e := words [module_name_offset e; import_indexed_symbol_table_offset e; import_indexed_symbol_num e;
    import_anonymous_symbol_table_offset e; import_anonymous_symbol_num e] |}.
(** [RelocationEntry], with its byte of padding; [ExternalRelocationEntry] and
    [StaticRelocationEntry] differ only in their tables. *)
Record RelocationEntry := mkRelocationEntry {
  target_position : Z; relocation_type : Z; is_batch_end : Z; is_batch_resolved : Z; padding : Z; addend : Z }.
#[export] Instance eta_RelocationEntry : Eta RelocationEntry := fun e =>
  mkRelocationEntry (target_position e) (relocation_type e) (is_batch_end e) (is_batch_resolved e) (padding e) (addend e).
#[export] Instance external_relocation_entry : Entry RelocationEntry := {|
  TABLE_OFFSET_FIELD := ExternalRelocationTableOffset; sizeof := 12;
  decode l := mkRelocationEntry (word_at 0 l) (byte_at 4 l) (byte_at 5 l) (byte_at 6 l) (byte_at 7 l) (word_at 2 l);
  encode e := words [target_position e] ++ [relocation_type e; is_batch_end e; is_batch_resolved e; padding e] ++ words [addend e] |}.
Record InternalRelocationEntry := mkInternalRelocationEntry { internal_target : Z; internal_type : Z; symbol_segment : Z; internal_padding : list Z; internal_addend : Z }.
#[export] Instance internal_relocation_entry : Entry InternalRelocationEntry := {|
  TABLE_OFFSET_FIELD := InternalRelocationTableOffset; sizeof := 12;
  decode l := mkInternalRelocationEntry (word_at 0 l) (byte_at 4 l) (byte_at 5 l) (take 2 (drop 6 l)) (word_at 2 l);
  encode e := words [internal_target e] ++ [internal_type e; symbol_segment e] ++ internal_padding e ++ words [internal_addend e] |}.
Record StaticAnonymousSymbolEntry := mkStaticAnonymousSymbolEntry { static_position : Z; static_batch : Z }.
#[export] Instance static_anonymous_entry : Entry StaticAnonymousSymbolEntry := {|
  TABLE_OFFSET_FIELD := StaticAnonymousSymbolTableOffset; sizeof := 8;
  decode l := mkStaticAnonymousSymbolEntry (word_at 0 l) (word_at 1 l); encode e := words [static_position e; static_batch e] |}.
(** The sizes of the entries of the tables, from [CodeOffset] on *)
Definition ENTRY_SIZE : list Z := [1; 1; 1; sizeof SegmentEntry; sizeof ExportNamedSymbolEntry; sizeof ExportIndexedSymbolEntry; 1;
  sizeof ExportTreeEntry; sizeof ImportModuleEntry; sizeof RelocationEntry; sizeof ImportNamedSymbolEntry; sizeof ImportIndexedSymbolEntry;
  sizeof ImportAnonymousSymbolEntry; 1; sizeof StaticAnonymousSymbolEntry; sizeof InternalRelocationEntry; sizeof RelocationEntry].
(** [enum class RelocationType] *)
Module RelocationType.
Definition Nothing : Z := 0.
Definition AbsoluteAddress : Z := 2.
Definition RelativeAddress : Z := 3.
Definition ThumbBranch : Z := 10.
Definition ArmBranch : Z := 28.
Definition ModifyArmBranch : Z := 29.
Definition AbsoluteAddress2 : Z := 38.
Definition AlignedRelativeAddress : Z := 42.
End RelocationType.

(** ** [CROHelper]

    [this] is [module_address]. Loops over a table are [each_index]; the loops that end when
    memory says so take [fuel]. *)
Section CROHelper.
Context {S : Type} `{ProcessMemory S}.
Abbreviation M := (Prelude.M S).
Variable fuel : nat.
Implicit Types this : VAddr.

(** [for (u32 i = 0; i < num; ++i)] around a body that returns on errors *)
Fixpoint from_index (k : nat) (i : Z) (body : Z -> M result_code) : M result_code :=
  match k with
  | O => mret RESULT_SUCCESS
  | Datatypes.S k => CASCADE_CODE body i; from_index k (i + 1) body
  end.
Definition each_index (num : Z) (body : Z -> M result_code) : M result_code := from_index (Z.to_nat num) 0 body.

Definition Field this (field : Z) : VAddr := u32 (this + CRO_HASH_SIZE + field * 4).
Definition GetField this (field : Z) : M Z := read32 (Field this field).
Definition SetField this (field v : Z) : M unit := write32 (Field this field) v.
Definition entry_address (table : VAddr) (T : Type) `{Entry T} (i : Z) : VAddr := u32 (table + u32 (i * sizeof T)).
Definition read_entry {T} `{Entry T} (addr : VAddr) : M T := bytes ← read_block addr (sizeof T); mret (decode bytes).
Definition GetEntry {T} `{Entry T} this (i : Z) : M T := table ← GetField this (TABLE_OFFSET_FIELD T); read_entry (entry_address table T i).
Definition SetEntry {T} `{Entry T} this (i : Z) (data : T) : M unit :=
  table ← GetField this (TABLE_OFFSET_FIELD T); write_block (entry_address table T i) (encode data).
Definition ModuleName this : M (list Z) :=
  name ← GetField this ModuleNameOffset; size ← GetField this ModuleNameSize; read_cstring name size.
Definition GetFileSize this : M Z := GetField this FileSize.
Definition IsFixed this : M bool := magic ← GetField this Magic; mret (magic =? MAGIC_FIXD).
Definition GetFixedSize this : M Z := GetField this FixedSize.
Definition NextModule this : M VAddr := GetField this NextCRO.
Definition PreviousModule this : M VAddr := GetField this PreviousCRO.
Definition SetNextModule this (next : VAddr) : M unit := SetField this NextCRO next.
Definition SetPreviousModule this (previous : VAddr) : M unit := SetField this PreviousCRO previous.

Definition SegmentTagToAddress this (segment_tag : Z) : M VAddr :=
  segment_num ← GetField this SegmentNum;
  if segment_num <=? segment_index segment_tag then mret 0
  else
    entry ← GetEntry (T := SegmentEntry) this (segment_index segment_tag);
    if size entry <=? offset_into_segment segment_tag then mret 0
    else mret (u32 (offset entry + offset_into_segment segment_tag)).

(** *** Relocations *)

Definition is_absolute (t : Z) : bool := (t =? RelocationType.AbsoluteAddress) || (t =? RelocationType.AbsoluteAddress2).
(** The types that are only logged *)
Definition is_unimplemented (t : Z) : bool :=
  (t =? RelocationType.ThumbBranch) || (t =? RelocationType.ArmBranch) || (t =? RelocationType.ModifyArmBranch) || (t =? RelocationType.AlignedRelativeAddress).
Definition relocate (target v : Z) : M result_code := write32 target v ;; invalidate_cache_range target 4 ;; mret RESULT_SUCCESS.
Definition ApplyRelocation (target_address : VAddr) (t addend : Z) (symbol_address target_future_address : VAddr) : M result_code :=
  if t =? RelocationType.Nothing then mret RESULT_SUCCESS
  else if is_absolute t then relocate target_address (u32 (symbol_address + addend))
  else if t =? RelocationType.RelativeAddress then relocate target_address (u32 (symbol_address + addend - target_future_address))
  else if is_unimplemented t then mret RESULT_SUCCESS
  else mret (CROFormatError 0x22).
Definition ClearRelocation (target_address : VAddr) (t : Z) : M result_code :=
  if t =? RelocationType.Nothing then mret RESULT_SUCCESS
  else if is_absolute t || (t =? RelocationType.RelativeAddress) then relocate target_address 0
  else if is_unimplemented t then mret RESULT_SUCCESS
  else mret (CROFormatError 0x22).
(** The loop of [ApplyRelocationBatch] *)
Fixpoint batch_loop (fuel : nat) this (relocation_address symbol_address : VAddr) : M result_code :=
  match fuel with
  | O => crash OutOfFuel
  | Datatypes.S fuel =>
      relocation ← read_entry (T := RelocationEntry) relocation_address;
      relocation_target ← SegmentTagToAddress this (target_position relocation);
      if relocation_target =? 0 then mret (CROFormatError 0x12)
      else
        CASCADE_CODE ApplyRelocation relocation_target (relocation_type relocation) (addend relocation) symbol_address relocation_target;
        if negb (is_batch_end relocation =? 0) then mret RESULT_SUCCESS
        else batch_loop fuel this (u32 (relocation_address + sizeof RelocationEntry)) symbol_address
  end.
Definition ApplyRelocationBatch this (batch symbol_address : VAddr) (reset : bool) : M result_code :=
  if (symbol_address =? 0) && negb reset then mret (CROFormatError 0x10)
  else
    CASCADE_CODE batch_loop fuel this batch symbol_address;
    relocation ← read_entry (T := RelocationEntry) batch;
    write_block batch (encode (relocation <| is_batch_resolved := if reset then 0 else 1 |>)) ;;
    mret RESULT_SUCCESS.

(** *** The tree of exported names *)

Definition bit_of_name (name : list Z) (bit : Z) : bool :=
  let test_byte := Z.shiftr bit 3 in let test_bit_in_byte := Z.land bit 7 in
  if Z.of_nat (length name) <=? test_byte then false
  else Z.testbit (default 0 (name !! Z.to_nat test_byte)) test_bit_in_byte.
Fixpoint tree_loop (fuel : nat) this (name : list Z) (next : Z) : M Z :=
  match fuel with
  | O => crash OutOfFuel
  | Datatypes.S fuel =>
      entry ← GetEntry (T := ExportTreeEntry) this (next_index next);
      if is_end next then mret (export_table_index entry)
      else tree_loop fuel this name (if bit_of_name name (test_bit entry) then right entry else left entry)
  end.
Definition FindExportNamedSymbol this (name : list Z) : M VAddr :=
  tree_num ← GetField this ExportTreeNum;
  if tree_num =? 0 then mret 0
  else
    entry ← GetEntry (T := ExportTreeEntry) this 0;
    found_id ← tree_loop fuel this name (left entry);
    export_named_symbol_num ← GetField this ExportNamedSymbolNum;
    if export_named_symbol_num <=? found_id then mret 0
    else
      export_strings_size ← GetField this ExportStringsSize;
      symbol_entry ← GetEntry (T := ExportNamedSymbolEntry) this found_id;
      found ← read_cstring (exported_name_offset symbol_entry) export_strings_size;
      if negb (bool_decide (found = name)) then mret 0
      else SegmentTagToAddress this (exported_position symbol_entry).

(** *** Offsets become addresses *)

Definition OFFSET_ORDER : list Z := [CodeOffset; ModuleNameOffset; SegmentTableOffset; ExportNamedSymbolTableOffset; ExportTreeTableOffset;
  ExportIndexedSymbolTableOffset; ExportStringsOffset; ImportModuleTableOffset; ExternalRelocationTableOffset; ImportNamedSymbolTableOffset;
  ImportIndexedSymbolTableOffset; ImportAnonymousSymbolTableOffset; ImportStringsOffset; StaticAnonymousSymbolTableOffset;
  InternalRelocationTableOffset; StaticRelocationTableOffset; DataOffset; FileSize].
(** The offsets do not decrease from [prev_offset] on. *)
Fixpoint in_order this (prev_offset : Z) (fields : list Z) : M bool :=
  match fields with
  | [] => mret true
  | f :: fields => cur_offset ← GetField this f; if cur_offset <? prev_offset then mret false else in_order this cur_offset fields
  end.
(** [for (int field = CodeOffset; field < Fix0Barrier; field += 2)] *)
Definition offset_fields : list Z := (fun i => CodeOffset + 2 * i) <$> seqZ 0 17.
Definition move_field this (delta : Z) (field : Z) : M unit :=
  offset ← GetField this field; if negb (offset =? 0) then SetField this field (u32 (offset + delta)) else mret tt.
(** The tables end before [file_end]. *)
Fixpoint in_file this (file_end : Z) (fields : list (Z * Z)) : M bool :=
  match fields with
  | [] => mret true
  | (f, entry_size) :: fields =>
      o ← GetField this f; n ← GetField this (f + 1);
      if file_end <? u32 (o + n * entry_size) then mret false else in_file this file_end fields
  end.
Definition RebaseHeader this (cro_size : Z) : M result_code :=
  let error := CROFormatError 0x11 in
  magic ← GetField this Magic; if negb (magic =? MAGIC_CRO0) then mret error else
  next ← GetField this NextCRO; if negb (next =? 0) then mret error else
  previous ← GetField this PreviousCRO; if negb (previous =? 0) then mret error else
  file_size ← GetField this FileSize; if 0x10000000 <? file_size then mret error else
  bss_size ← GetField this BssSize; if 0x10000000 <? bss_size then mret error else
  fixed_size ← GetField this FixedSize; if negb (fixed_size =? 0) then mret error else
  code_offset ← GetField this CodeOffset; if code_offset <? CRO_HEADER_SIZE then mret error else
  prev_offset ← GetField this CodeOffset;
  ordered ← in_order this prev_offset (tail OFFSET_ORDER); if negb ordered then mret error else
  move_field this this NameOffset ;;
  for_each offset_fields (move_field this this) ;;
  inside ← in_file this (u32 (this + cro_size)) (zip offset_fields ENTRY_SIZE);
  mret (if negb inside then error else RESULT_SUCCESS).

(** An offset that is not zero, moved by the address of the module *)
Definition rebase this (o : Z) : Z := if o =? 0 then 0 else u32 (o + this).
(** ... is not in the part of the file it should be in, the end excluded or included. *)
Definition not_in this (o first last : Z) : bool := negb (o =? 0) && ((rebase this o <? first) || (last <=? rebase this o)).
Definition not_upto this (o first last : Z) : bool := negb (o =? 0) && ((rebase this o <? first) || (last <? rebase this o)).
Definition table_end this (T : Type) `{Entry T} (num_field : Z) (table : VAddr) : M Z := num ← GetField this num_field; mret (u32 (table + u32 (num * sizeof T))).

(** One segment; the result is the new [prev_data_segment]. *)
Definition rebase_segment this (cro_size data_segment_address data_segment_size bss_segment_address bss_segment_size prev_data_segment i : Z) : M (ResultVal Z) :=
  segment ← GetEntry (T := SegmentEntry) this i;
  let set (o prev : Z) : M (ResultVal Z) := SetEntry this i (mkSegmentEntry o (size segment) (type segment)) ;; mret (Success prev) in
  if type segment =? SegmentType_Data then
    if negb (size segment =? 0) then
      if data_segment_size <? size segment then mret (Failure ERROR_BUFFER_TOO_SMALL) else set data_segment_address (offset segment)
    else set (offset segment) prev_data_segment
  else if type segment =? SegmentType_BSS then
    if negb (size segment =? 0) then
      if bss_segment_size <? size segment then mret (Failure ERROR_BUFFER_TOO_SMALL) else set bss_segment_address prev_data_segment
    else set (offset segment) prev_data_segment
  else if negb (offset segment =? 0) then
    let o := u32 (offset segment + this) in
    if u32 (this + cro_size) <? o then mret (Failure (CROFormatError 0x19)) else set o prev_data_segment
  else set (offset segment) prev_data_segment.
Fixpoint rebase_segments (k : nat) this (cro_size data_segment_address data_segment_size bss_segment_address bss_segment_size prev_data_segment i : Z) : M (ResultVal Z) :=
  match k with
  | O => mret (Success prev_data_segment)
  | Datatypes.S k =>
      CASCADE_RESULT prev := rebase_segment this cro_size data_segment_address data_segment_size bss_segment_address bss_segment_size prev_data_segment i;
      rebase_segments k this cro_size data_segment_address data_segment_size bss_segment_address bss_segment_size prev (i + 1)
  end.
Definition RebaseSegmentTable this (cro_size data_segment_address data_segment_size bss_segment_address bss_segment_size : Z) : M (ResultVal VAddr) :=
  segment_num ← GetField this SegmentNum;
  CASCADE_RESULT prev_data_segment := rebase_segments (Z.to_nat segment_num) this cro_size data_segment_address data_segment_size bss_segment_address bss_segment_size 0 0;
  mret (Success (u32 (prev_data_segment + this))).

Definition RebaseExportNamedSymbolTable this : M result_code :=
  export_strings_offset ← GetField this ExportStringsOffset;
  export_strings_size ← GetField this ExportStringsSize;
  let export_strings_end := u32 (export_strings_offset + export_strings_size) in
  export_named_symbol_num ← GetField this ExportNamedSymbolNum;
  each_index export_named_symbol_num (fun i =>
    entry ← GetEntry (T := ExportNamedSymbolEntry) this i;
    if not_in this (exported_name_offset entry) export_strings_offset export_strings_end then mret (CROFormatError 0x11)
    else SetEntry this i (mkExportNamedSymbolEntry (rebase this (exported_name_offset entry)) (exported_position entry)) ;; mret RESULT_SUCCESS).
Definition VerifyExportTreeTable this : M result_code :=
  tree_num ← GetField this ExportTreeNum;
  each_index tree_num (fun i =>
    entry ← GetEntry (T := ExportTreeEntry) this i;
    mret (if (tree_num <=? next_index (left entry)) || (tree_num <=? next_index (right entry)) then CROFormatError 0x11 else RESULT_SUCCESS)).
Definition RebaseImportModuleTable this : M result_code :=
  import_strings_offset ← GetField this ImportStringsOffset;
  import_strings_size ← GetField this ImportStringsSize;
  let import_strings_end := u32 (import_strings_offset + import_strings_size) in
  indexed_table ← GetField this ImportIndexedSymbolTableOffset;
  index_import_table_end ← table_end this ImportIndexedSymbolEntry ImportIndexedSymbolNum indexed_table;
  anonymous_table ← GetField this ImportAnonymousSymbolTableOffset;
  offset_import_table_end ← table_end this ImportAnonymousSymbolEntry ImportAnonymousSymbolNum anonymous_table;
  module_num ← GetField this ImportModuleNum;
  each_index module_num (fun i =>
    entry ← GetEntry (T := ImportModuleEntry) this i;
    if not_in this (module_name_offset entry) import_strings_offset import_strings_end then mret (CROFormatError 0x18)
    else if not_upto this (import_indexed_symbol_table_offset entry) indexed_table index_import_table_end then mret (CROFormatError 0x18)
    else if not_upto this (import_anonymous_symbol_table_offset entry) anonymous_table offset_import_table_end then mret (CROFormatError 0x18)
    else SetEntry this i (mkImportModuleEntry (rebase this (module_name_offset entry)) (rebase this (import_indexed_symbol_table_offset entry))
           (import_indexed_symbol_num entry) (rebase this (import_anonymous_symbol_table_offset entry)) (import_anonymous_symbol_num entry)) ;; mret RESULT_SUCCESS).
Definition RebaseImportNamedSymbolTable this : M result_code :=
  import_strings_offset ← GetField this ImportStringsOffset;
  import_strings_size ← GetField this ImportStringsSize;
  let import_strings_end := u32 (import_strings_offset + import_strings_size) in
  relocations ← GetField this ExternalRelocationTableOffset;
  relocations_end ← table_end this RelocationEntry ExternalRelocationNum relocations;
  num ← GetField this ImportNamedSymbolNum;
  each_index num (fun i =>
    entry ← GetEntry (T := ImportNamedSymbolEntry) this i;
    if not_in this (imported_name_offset entry) import_strings_offset import_strings_end then mret (CROFormatError 0x1B)
    else if not_upto this (named_batch entry) relocations relocations_end then mret (CROFormatError 0x1B)
    else SetEntry this i (mkImportNamedSymbolEntry (rebase this (imported_name_offset entry)) (rebase this (named_batch entry))) ;; mret RESULT_SUCCESS).
Definition RebaseImportIndexedSymbolTable this : M result_code :=
  relocations ← GetField this ExternalRelocationTableOffset;
  relocations_end ← table_end this RelocationEntry ExternalRelocationNum relocations;
  num ← GetField this ImportIndexedSymbolNum;
  each_index num (fun i =>
    entry ← GetEntry (T := ImportIndexedSymbolEntry) this i;
    if not_upto this (indexed_batch entry) relocations relocations_end then mret (CROFormatError 0x14)
    else SetEntry this i (mkImportIndexedSymbolEntry (index entry) (rebase this (indexed_batch entry))) ;; mret RESULT_SUCCESS).
Definition RebaseImportAnonymousSymbolTable this : M result_code :=
  relocations ← GetField this ExternalRelocationTableOffset;
  relocations_end ← table_end this RelocationEntry ExternalRelocationNum relocations;
  num ← GetField this ImportAnonymousSymbolNum;
  each_index num (fun i =>
    entry ← GetEntry (T := ImportAnonymousSymbolEntry) this i;
    if not_upto this (anonymous_batch entry) relocations relocations_end then mret (CROFormatError 0x17)
    else SetEntry this i (mkImportAnonymousSymbolEntry (anonymous_position entry) (rebase this (anonymous_batch entry))) ;; mret RESULT_SUCCESS).

(** *** Relocations of the whole module *)

Definition GetOnUnresolvedAddress this : M VAddr := tag ← GetField this OnUnresolvedSegmentTag; SegmentTagToAddress this tag.
(** One relocation of [ResetExternalRelocations] and [ClearExternalRelocations], which apply
    and clear; the rest goes on with the next one, which begins a batch if this one ends one. *)
Fixpoint external_loop (k : nat) this (i : Z) (batch_begin : bool) (f : RelocationEntry -> VAddr -> M result_code) : M result_code :=
  match k with
  | O => mret RESULT_SUCCESS
  | Datatypes.S k =>
      relocation ← GetEntry (T := RelocationEntry) this i;
      relocation_target ← SegmentTagToAddress this (target_position relocation);
      if relocation_target =? 0 then mret (CROFormatError 0x12)
      else
        CASCADE_CODE f relocation relocation_target;
        (if batch_begin then SetEntry this i (relocation <| is_batch_resolved := 0 |>) else mret tt) ;;
        external_loop k this (i + 1) (negb (is_batch_end relocation =? 0)) f
  end.
Definition ResetExternalRelocations this : M result_code :=
  unresolved_symbol ← GetOnUnresolvedAddress this;
  external_relocation_num ← GetField this ExternalRelocationNum;
  relocation ← GetEntry (T := RelocationEntry) this (u32 (external_relocation_num - 1));
  if is_batch_end relocation =? 0 then mret (CROFormatError 0x12)
  else external_loop (Z.to_nat external_relocation_num) this 0 true (fun relocation target =>
    ApplyRelocation target (relocation_type relocation) (addend relocation) unresolved_symbol target).
Definition ClearExternalRelocations this : M result_code :=
  external_relocation_num ← GetField this ExternalRelocationNum;
  external_loop (Z.to_nat external_relocation_num) this 0 true (fun relocation target => ClearRelocation target (relocation_type relocation)).
Definition ApplyStaticAnonymousSymbolToCRS this (crs_address : VAddr) : M result_code :=
  relocations ← GetField this StaticRelocationTableOffset;
  relocations_end ← table_end this RelocationEntry StaticRelocationNum relocations;
  offset_export_num ← GetField this StaticAnonymousSymbolNum;
  each_index offset_export_num (fun i =>
    entry ← GetEntry (T := StaticAnonymousSymbolEntry) this i;
    let batch_address := u32 (static_batch entry + this) in
    if (batch_address <? relocations) || (relocations_end <? batch_address) then mret (CROFormatError 0x16)
    else
      symbol_address ← SegmentTagToAddress this (static_position entry);
      ApplyRelocationBatch crs_address batch_address symbol_address false).
Definition ApplyInternalRelocations this (old_data_segment_address : VAddr) : M result_code :=
  segment_num ← GetField this SegmentNum;
  internal_relocation_num ← GetField this InternalRelocationNum;
  each_index internal_relocation_num (fun i =>
    relocation ← GetEntry (T := InternalRelocationEntry) this i;
    target_addressB ← SegmentTagToAddress this (internal_target relocation);
    if target_addressB =? 0 then mret (CROFormatError 0x15)
    else
      target_segment ← GetEntry (T := SegmentEntry) this (segment_index (internal_target relocation));
      let target_address := if type target_segment =? SegmentType_Data then u32 (old_data_segment_address + offset_into_segment (internal_target relocation)) else target_addressB in
      if segment_num <=? symbol_segment relocation then mret (CROFormatError 0x15)
      else
        symbol ← GetEntry (T := SegmentEntry) this (symbol_segment relocation);
        ApplyRelocation target_address (internal_type relocation) (internal_addend relocation) (offset symbol) target_addressB).
Definition ClearInternalRelocations this : M result_code :=
  internal_relocation_num ← GetField this InternalRelocationNum;
  each_index internal_relocation_num (fun i =>
    relocation ← GetEntry (T := InternalRelocationEntry) this i;
    target_address ← SegmentTagToAddress this (internal_target relocation);
    if target_address =? 0 then mret (CROFormatError 0x15) else ClearRelocation target_address (internal_type relocation)).
Definition ClearRelocations this : M result_code := CASCADE_CODE ClearExternalRelocations this; ClearInternalRelocations this.

(** *** Addresses become offsets again *)

Definition unrebase this (o : Z) : Z := if o =? 0 then 0 else u32 (o - this).
(** [for (u32 i = 0; i < num; ++i)] around reading, changing and writing an entry *)
Definition update_table {T} `{Entry T} this (num : Z) (f : T -> T) : M unit :=
  for_each (seqZ 0 num) (fun i => entry ← GetEntry (T := T) this i; SetEntry this i (f entry)).
Definition UnrebaseImportAnonymousSymbolTable this : M unit :=
  num ← GetField this ImportAnonymousSymbolNum;
  update_table this num (fun e => mkImportAnonymousSymbolEntry (anonymous_position e) (unrebase this (anonymous_batch e))).
Definition UnrebaseImportIndexedSymbolTable this : M unit :=
  num ← GetField this ImportIndexedSymbolNum;
  update_table this num (fun e => mkImportIndexedSymbolEntry (index e) (unrebase this (indexed_batch e))).
Definition UnrebaseImportNamedSymbolTable this : M unit :=
  num ← GetField this ImportNamedSymbolNum;
  update_table this num (fun e => mkImportNamedSymbolEntry (unrebase this (imported_name_offset e)) (unrebase this (named_batch e))).
Definition UnrebaseImportModuleTable this : M unit :=
  module_num ← GetField this ImportModuleNum;
  update_table this module_num (fun e => mkImportModuleEntry (unrebase this (module_name_offset e)) (unrebase this (import_indexed_symbol_table_offset e))
    (import_indexed_symbol_num e) (unrebase this (import_anonymous_symbol_table_offset e)) (import_anonymous_symbol_num e)).
Definition UnrebaseExportNamedSymbolTable this : M unit :=
  export_named_symbol_num ← GetField this ExportNamedSymbolNum;
  update_table this export_named_symbol_num (fun e => mkExportNamedSymbolEntry (unrebase this (exported_name_offset e)) (exported_position e)).
Definition UnrebaseSegmentTable this : M unit :=
  segment_num ← GetField this SegmentNum;
  update_table this segment_num (fun e => mkSegmentEntry (if type e =? SegmentType_BSS then 0 else unrebase this (offset e)) (size e) (type e)).
Definition UnrebaseHeader this : M unit :=
  move_field this (- this) NameOffset ;; for_each offset_fields (move_field this (- this)).

(** *** Symbols *)

(** [ForEachAutoLinkCRO]; the function says whether to go on. *)
Fixpoint auto_link_loop (fuel : nat) (current : VAddr) (func : VAddr -> M (ResultVal bool)) : M result_code :=
  match fuel with
  | O => crash OutOfFuel
  | Datatypes.S fuel =>
      if current =? 0 then mret RESULT_SUCCESS
      else
        CASCADE_TO_CODE next := func current;
        if negb next then mret RESULT_SUCCESS else current ← NextModule current; auto_link_loop fuel current func
  end.
Definition ForEachAutoLinkCRO (crs_address : VAddr) (func : VAddr -> M (ResultVal bool)) : M result_code := auto_link_loop fuel crs_address func.
(** A function that goes on, or stops, unless there is an error *)
Definition then_go (next : bool) (m : M result_code) : M (ResultVal bool) := c ← m; mret (if IsError c then Failure c else Success next).

(** One symbol of [ApplyImportNamedSymbol]: the modules are asked for it in turn. *)
Definition import_symbol this (crs_address : VAddr) (import_strings_size : Z) (entry : ImportNamedSymbolEntry) : M result_code :=
  ForEachAutoLinkCRO crs_address (fun source =>
    symbol_name ← read_cstring (imported_name_offset entry) import_strings_size;
    symbol_address ← FindExportNamedSymbol source symbol_name;
    if negb (symbol_address =? 0) then then_go false (ApplyRelocationBatch this (named_batch entry) symbol_address false)
    else mret (Success true)).
Definition ApplyImportNamedSymbol this (crs_address : VAddr) : M result_code :=
  import_strings_size ← GetField this ImportStringsSize;
  symbol_import_num ← GetField this ImportNamedSymbolNum;
  each_index symbol_import_num (fun i =>
    entry ← GetEntry (T := ImportNamedSymbolEntry) this i;
    relocation_entry ← read_entry (T := RelocationEntry) (named_batch entry);
    if negb (is_batch_resolved relocation_entry =? 0) then mret RESULT_SUCCESS
    else import_symbol this crs_address import_strings_size entry).
(** The three tables of imports have their batches reset in the same way. *)
Definition reset_table {T} `{Entry T} (batch_of : T -> VAddr) this (num_field : Z) : M result_code :=
  unresolved_symbol ← GetOnUnresolvedAddress this;
  import_num ← GetField this num_field;
  each_index import_num (fun i =>
    entry ← GetEntry (T := T) this i;
    read_entry (T := RelocationEntry) (batch_of entry) ;;
    ApplyRelocationBatch this (batch_of entry) unresolved_symbol true).
Definition ResetImportNamedSymbol this : M result_code := reset_table named_batch this ImportNamedSymbolNum.
Definition ResetImportIndexedSymbol this : M result_code := reset_table indexed_batch this ImportIndexedSymbolNum.
Definition ResetImportAnonymousSymbol this : M result_code := reset_table anonymous_batch this ImportAnonymousSymbolNum.

(** [ImportModuleEntry::GetImportIndexedSymbolEntry] and [GetImportAnonymousSymbolEntry] *)
Definition GetImportIndexedSymbolEntry (e : ImportModuleEntry) (i : Z) : M ImportIndexedSymbolEntry :=
  read_entry (u32 (import_indexed_symbol_table_offset e + u32 (i * sizeof ImportIndexedSymbolEntry))).
Definition GetImportAnonymousSymbolEntry (e : ImportModuleEntry) (i : Z) : M ImportAnonymousSymbolEntry :=
  read_entry (u32 (import_anonymous_symbol_table_offset e + u32 (i * sizeof ImportAnonymousSymbolEntry))).
(** The symbols that [target] imports from [source] by [entry] *)
Definition link_module (source target : VAddr) (entry : ImportModuleEntry) : M result_code :=
  CASCADE_CODE each_index (import_indexed_symbol_num entry) (fun j =>
    im ← GetImportIndexedSymbolEntry entry j;
    ex ← GetEntry (T := ExportIndexedSymbolEntry) source (index im);
    symbol_address ← SegmentTagToAddress source (indexed_position ex);
    ApplyRelocationBatch target (indexed_batch im) symbol_address false);
  each_index (import_anonymous_symbol_num entry) (fun j =>
    im ← GetImportAnonymousSymbolEntry entry j;
    symbol_address ← SegmentTagToAddress source (anonymous_position im);
    ApplyRelocationBatch target (anonymous_batch im) symbol_address false).
Definition ApplyModuleImport this (crs_address : VAddr) : M result_code :=
  import_strings_size ← GetField this ImportStringsSize;
  import_module_num ← GetField this ImportModuleNum;
  each_index import_module_num (fun i =>
    entry ← GetEntry (T := ImportModuleEntry) this i;
    want_cro_name ← read_cstring (module_name_offset entry) import_strings_size;
    ForEachAutoLinkCRO crs_address (fun source =>
      name ← ModuleName source;
      if bool_decide (want_cro_name = name) then then_go false (link_module source this entry) else mret (Success true))).
Definition ApplyExportNamedSymbol this (target : VAddr) : M result_code :=
  target_import_strings_size ← GetField target ImportStringsSize;
  target_symbol_import_num ← GetField target ImportNamedSymbolNum;
  each_index target_symbol_import_num (fun i =>
    entry ← GetEntry (T := ImportNamedSymbolEntry) target i;
    relocation_entry ← read_entry (T := RelocationEntry) (named_batch entry);
    if negb (is_batch_resolved relocation_entry =? 0) then mret RESULT_SUCCESS
    else
      symbol_name ← read_cstring (imported_name_offset entry) target_import_strings_size;
      symbol_address ← FindExportNamedSymbol this symbol_name;
      if negb (symbol_address =? 0) then ApplyRelocationBatch target (named_batch entry) symbol_address false else mret RESULT_SUCCESS).
Definition ResetExportNamedSymbol this (target : VAddr) : M result_code :=
  unresolved_symbol ← GetOnUnresolvedAddress target;
  target_import_strings_size ← GetField target ImportStringsSize;
  target_symbol_import_num ← GetField target ImportNamedSymbolNum;
  each_index target_symbol_import_num (fun i =>
    entry ← GetEntry (T := ImportNamedSymbolEntry) target i;
    relocation_entry ← read_entry (T := RelocationEntry) (named_batch entry);
    if is_batch_resolved relocation_entry =? 0 then mret RESULT_SUCCESS
    else
      symbol_name ← read_cstring (imported_name_offset entry) target_import_strings_size;
      symbol_address ← FindExportNamedSymbol this symbol_name;
      if negb (symbol_address =? 0) then ApplyRelocationBatch target (named_batch entry) unresolved_symbol true else mret RESULT_SUCCESS).
(** The loop of [ApplyModuleExport] and [ResetModuleExport]: the entries of [target] that
    name this module *)
Definition each_import_of this (target : VAddr) (f : ImportModuleEntry -> M result_code) : M result_code :=
  module_name ← ModuleName this;
  target_import_string_size ← GetField target ImportStringsSize;
  target_import_module_num ← GetField target ImportModuleNum;
  each_index target_import_module_num (fun i =>
    entry ← GetEntry (T := ImportModuleEntry) target i;
    name ← read_cstring (module_name_offset entry) target_import_string_size;
    if negb (bool_decide (name = module_name)) then mret RESULT_SUCCESS else f entry).
Definition ApplyModuleExport this (target : VAddr) : M result_code := each_import_of this target (link_module this target).
Definition ResetModuleExport this (target : VAddr) : M result_code :=
  unresolved_symbol ← GetOnUnresolvedAddress target;
  each_import_of this target (fun entry =>
    CASCADE_CODE each_index (import_indexed_symbol_num entry) (fun j =>
      im ← GetImportIndexedSymbolEntry entry j; ApplyRelocationBatch target (indexed_batch im) unresolved_symbol true);
    each_index (import_anonymous_symbol_num entry) (fun j =>
      im ← GetImportAnonymousSymbolEntry entry j; ApplyRelocationBatch target (anonymous_batch im) unresolved_symbol true)).
Definition chars (s : String.string) : list Z := (fun c => Z.of_N (N_of_ascii c)) <$> String.list_ascii_of_string s.
Definition ApplyExitRelocations this (crs_address : VAddr) : M result_code :=
  import_strings_size ← GetField this ImportStringsSize;
  symbol_import_num ← GetField this ImportNamedSymbolNum;
  each_index symbol_import_num (fun i =>
    entry ← GetEntry (T := ImportNamedSymbolEntry) this i;
    read_entry (T := RelocationEntry) (named_batch entry) ;;
    name ← read_cstring (imported_name_offset entry) import_strings_size;
    if negb (bool_decide (name = chars "__aeabi_atexit")) then mret RESULT_SUCCESS
    else
      ForEachAutoLinkCRO crs_address (fun source =>
        symbol_address ← FindExportNamedSymbol source (chars "nnroAeabiAtexit_");
        if negb (symbol_address =? 0) then then_go false (ApplyRelocationBatch this (named_batch entry) symbol_address false)
        else mret (Success true))).

(** *** Loading, linking *)

Definition VerifyStringTableLength (address : VAddr) (size : Z) : M result_code :=
  if negb (size =? 0) then
    c ← read8 (u32 (address + size - 1)); mret (if negb (c =? 0) then CROFormatError 0x0B else RESULT_SUCCESS)
  else mret RESULT_SUCCESS.
Definition verify_strings this (offset_field size_field : Z) : M result_code :=
  o ← GetField this offset_field; n ← GetField this size_field; VerifyStringTableLength o n.
Definition Rebase this (crs_address : VAddr) (cro_size data_segment_address data_segment_size bss_segment_address bss_segment_size : Z) (is_crs : bool) : M result_code :=
  CASCADE_CODE RebaseHeader this cro_size;
  CASCADE_CODE verify_strings this ModuleNameOffset ModuleNameSize;
  CASCADE_TO_CODE prev_data_segment_address :=
    if negb is_crs then RebaseSegmentTable this cro_size data_segment_address data_segment_size bss_segment_address bss_segment_size else mret (Success 0);
  CASCADE_CODE RebaseExportNamedSymbolTable this;
  CASCADE_CODE VerifyExportTreeTable this;
  CASCADE_CODE verify_strings this ExportStringsOffset ExportStringsSize;
  CASCADE_CODE RebaseImportModuleTable this;
  CASCADE_CODE ResetExternalRelocations this;
  CASCADE_CODE RebaseImportNamedSymbolTable this;
  CASCADE_CODE RebaseImportIndexedSymbolTable this;
  CASCADE_CODE RebaseImportAnonymousSymbolTable this;
  CASCADE_CODE verify_strings this ImportStringsOffset ImportStringsSize;
  CASCADE_CODE (if negb is_crs then ApplyStaticAnonymousSymbolToCRS this crs_address else mret RESULT_SUCCESS);
  CASCADE_CODE ApplyInternalRelocations this prev_data_segment_address;
  if negb is_crs then ApplyExitRelocations this crs_address else mret RESULT_SUCCESS.
Definition Unrebase this (is_crs : bool) : M unit :=
  UnrebaseImportAnonymousSymbolTable this ;;
  UnrebaseImportIndexedSymbolTable this ;;
  UnrebaseImportNamedSymbolTable this ;;
  UnrebaseImportModuleTable this ;;
  UnrebaseExportNamedSymbolTable this ;;
  (if negb is_crs then UnrebaseSegmentTable this else mret tt) ;;
  SetNextModule this 0 ;;
  SetPreviousModule this 0 ;;
  SetField this FixedSize 0 ;;
  UnrebaseHeader this.
Definition VerifyHash (cro_size : Z) (crr : VAddr) : M result_code := mret RESULT_SUCCESS.
(** The work-around of [Link] for the .data segment, before the imports and after them, on
    errors too *)
Definition restore_data_segment this : M Z :=
  segment_num ← GetField this SegmentNum;
  if 2 <=? segment_num then
    entry ← GetEntry (T := SegmentEntry) this 2;
    ASSERT (type entry =? SegmentType_Data) ;;
    data_offset ← GetField this DataOffset;
    SetEntry this 2 (mkSegmentEntry data_offset (size entry) (type entry)) ;;
    mret (offset entry)
  else mret 0.
Definition set_data_segment this (data_segment_address : VAddr) : M unit :=
  segment_num ← GetField this SegmentNum;
  if 2 <=? segment_num then
    entry ← GetEntry (T := SegmentEntry) this 2; SetEntry this 2 (mkSegmentEntry data_segment_address (size entry) (type entry))
  else mret tt.
Definition Link this (crs_address : VAddr) (link_on_load_bug_fix : bool) : M result_code :=
  data_segment_address ← (if link_on_load_bug_fix then restore_data_segment this else mret 0);
  result ← (CASCADE_CODE ApplyImportNamedSymbol this crs_address; ApplyModuleImport this crs_address);
  (if link_on_load_bug_fix then set_data_segment this data_segment_address else mret tt) ;;
  CASCADE_CODE mret result;
  ForEachAutoLinkCRO crs_address (fun target => then_go true (CASCADE_CODE ApplyExportNamedSymbol this target; ApplyModuleExport this target)).
Definition Unlink this (crs_address : VAddr) : M result_code :=
  CASCADE_CODE ResetImportNamedSymbol this;
  CASCADE_CODE ResetImportIndexedSymbol this;
  CASCADE_CODE ResetImportAnonymousSymbol this;
  ForEachAutoLinkCRO crs_address (fun target => then_go true (CASCADE_CODE ResetExportNamedSymbol this target; ResetModuleExport this target)).

(** *** The lists of modules

    The static module has the heads: that of the modules that are linked automatically as
    its next module, that of the others as its previous one. The previous module of a head is
    the tail of its list. *)

Definition InitCRS this : M unit := SetNextModule this 0 ;; SetPreviousModule this 0.
Definition Register this (crs_address : VAddr) (auto_link : bool) : M unit :=
  head ← (if auto_link then NextModule crs_address else PreviousModule crs_address);
  (if negb (head =? 0) then
     tail ← PreviousModule head;
     next ← NextModule tail;
     ASSERT (next =? 0) ;;
     SetPreviousModule this tail ;;
     SetNextModule tail this ;;
     SetPreviousModule head this
   else
     SetPreviousModule this this ;;
     (if auto_link then SetNextModule crs_address this else SetPreviousModule crs_address this)) ;;
  SetNextModule this 0.
Definition Unregister this (crs_address : VAddr) : M unit :=
  next_head ← NextModule crs_address;
  previous_head ← PreviousModule crs_address;
  next ← NextModule this;
  previous ← PreviousModule this;
  (if (this =? next_head) || (this =? previous_head) then
     (if negb (next =? 0) then SetPreviousModule next previous else mret tt) ;;
     (if this =? previous_head then SetPreviousModule crs_address next else SetNextModule crs_address next)
   else if negb (next =? 0) then
     SetNextModule previous next ;; SetPreviousModule next previous
   else
     SetNextModule previous 0 ;;
     (* [next_head.module_address && next_head.PreviousModule() == module_address] *)
     is_tail ← (if negb (next_head =? 0) then p ← PreviousModule next_head; mret (p =? this) else mret false);
     if negb is_tail then
       is_tail ← (if negb (previous_head =? 0) then p ← PreviousModule previous_head; mret (p =? this) else mret false);
       if negb is_tail then crash AssertFailed else SetPreviousModule previous_head previous
     else SetPreviousModule next_head previous) ;;
  SetNextModule this 0 ;;
  SetPreviousModule this 0.

(** *** Giving memory back *)

Fixpoint fix_end_loop (k : nat) this (barrier field : Z) (entry_sizes : list Z) (end_ : Z) : M Z :=
  match k, entry_sizes with
  | Datatypes.S k, entry_size :: entry_sizes =>
      o ← GetField this field; n ← GetField this (field + 1);
      let end_ := Z.max end_ (u32 (o + n * entry_size)) in
      if field + 2 =? barrier then mret end_ else fix_end_loop k this barrier (field + 2) entry_sizes end_
  | _, _ => crash UndefinedBehaviour
  end.
Definition GetFixEnd this (fix_level : Z) : M Z :=
  o ← GetField this CodeOffset; n ← GetField this CodeSize;
  barrier ← deref (FIX_BARRIERS !! Z.to_nat fix_level);
  fix_end_loop 15 this barrier ModuleNameOffset (drop 2 ENTRY_SIZE) (Z.max CRO_HEADER_SIZE (u32 (o + n))).
(** [Common::AlignUp(x, CITRA_PAGE_SIZE)] and [AlignDown] on [u32] *)
Definition page_up (x : Z) : Z := let m := x mod CITRA_PAGE_SIZE in if m =? 0 then x else u32 (x - m + CITRA_PAGE_SIZE).
Definition page_down (x : Z) : Z := x - x mod CITRA_PAGE_SIZE.
Definition crop this (fix_end field : Z) : M unit := SetField this field fix_end ;; SetField this (field + 1) 0.
Definition Fix this (fix_level : Z) : M Z :=
  fix_end ← GetFixEnd this fix_level;
  (if negb (fix_level =? 0) then
     SetField this Magic MAGIC_FIXD ;;
     barrier ← deref (FIX_BARRIERS !! Z.to_nat fix_level);
     for_each (base.filter (fun f => barrier <= f) offset_fields) (crop this fix_end)
   else mret tt) ;;
  let fixed_size := u32 (page_up fix_end - this) in
  SetField this FixedSize fixed_size ;;
  mret fixed_size.
Definition IsLoaded this : M bool := magic ← GetField this Magic; mret ((magic =? MAGIC_CRO0) || (magic =? MAGIC_FIXD)).
Fixpoint executable_loop (k : nat) this (i : Z) : M (VAddr * Z) :=
  match k with
  | O => mret (0, 0)
  | Datatypes.S k =>
      entry ← GetEntry (T := SegmentEntry) this i;
      if (type entry =? SegmentType_Code) && negb (size entry =? 0) then
        let first := page_down (offset entry) in let last := page_up (u32 (offset entry + size entry)) in mret (first, u32 (last - first))
      else executable_loop k this (i + 1)
  end.
Definition GetExecutablePages this : M (VAddr * Z) := segment_num ← GetField this SegmentNum; executable_loop (Z.to_nat segment_num) this 0.
End CROHelper.
