(* ===== verification/CroMemory.v ===== *)
(** What the loader of modules relies on: the memory of a process is a flat array of bytes
    over the addresses the modules use. The memory system keeps this promise where those
    addresses are pages of RAM. *)

From S2P Require Import Prelude ResultCode MemoryMap Memory MemoryAccess Cro.

(** ** The promise *)

(** [f] with the bytes [l] from the address [a] on *)
Definition overlay (f : Z -> Z) (a : Z) (l : list Z) : Z -> Z := fun x =>
  if (a <=? x) && (x <? a + Z.of_nat (length l)) then default 0 (l !! Z.to_nat (x - a)) else f x.
Definition word (f : Z -> Z) (a : Z) : Z := le_decode (f <$> seqZ a 4).
Fixpoint cstring (f : Z -> Z) (a : Z) (k : nat) : list Z :=
  match k with O => [] | S k => if f a =? 0 then [] else f a :: cstring f (a + 1) k end.
Definition covers (dom : Z -> Prop) (a n : Z) : Prop := forall x, a <= x < a + n -> dom x.
Definition is_byte (b : Z) : Prop := 0 <= b < 256.

Class FlatMemory (S : Type) `{ProcessMemory S} (dom : Z -> Prop) := {
  good : S -> Prop;
  byte : S -> Z -> Z;
  flat_dom x : dom x -> is_u32 x;
  flat_byte s x : good s -> dom x -> is_byte (byte s x);
  flat_read8 s a : good s -> dom a -> read8 a s = Ret (byte s a, s);
  flat_read32 s a : good s -> a mod 4 = 0 -> covers dom a 4 -> read32 a s = Ret (word (byte s) a, s);
  flat_write32 s a v : good s -> a mod 4 = 0 -> covers dom a 4 ->
    wp (write32 a v) (fun _ s' => good s' /\ forall x, dom x -> byte s' x = overlay (byte s) a (le_encode 4 v) x) s;
  flat_read_block s a n : good s -> 0 <= n -> covers dom a n -> read_block a n s = Ret (byte s <$> seqZ a n, s);
  flat_write_block s a l : good s -> Forall is_byte l -> covers dom a (Z.of_nat (length l)) ->
    wp (write_block a l) (fun _ s' => good s' /\ forall x, dom x -> byte s' x = overlay (byte s) a l x) s;
  flat_cstring s a n : good s -> 0 <= n -> covers dom a n -> read_cstring a n s = Ret (cstring (byte s) a (Z.to_nat n), s);
  flat_invalidate s a n : good s -> wp (invalidate_cache_range a n) (fun _ s' => good s' /\ forall x, dom x -> byte s' x = byte s x) s;
}.

(** ** The memory system *)

Section System.
Context {D W : Type} `{Host} `{Devices D}.
(** The page table of the process, which is also the current one, and what
    [System::InvalidateCacheRange] does to the processors *)
Variables (pt : Z) (InvalidateCacheRange : Z -> Z -> W -> W).
Definition on_guest {A} (f : Prelude.M (MemorySystem D) A) : Prelude.M (MemorySystem D * W) A := zoom fst (fun m s => (m, s.2)) f.
Definition process_memory : ProcessMemory (MemorySystem D * W) := {|
  read8 a := on_guest (Read8 a);
  read32 a := on_guest (Read32 a);
  write32 a v := on_guest (Write32 a v);
  read_block a n := on_guest (ReadBlock pt a n);
  write_block a l := on_guest (WriteBlock pt a (host_buffer l) (Z.of_nat (length l)));
  read_cstring a n := on_guest (ReadCString a (Z.to_nat n));
  invalidate_cache_range a n := modify (fun s => (s.1, InvalidateCacheRange a n s.2));
|}.
#[local] Existing Instance process_memory.

Variables (t : PageTable) (dom : Z -> Prop).
Hypothesis Hhost : host_laws.
Hypothesis Hdom : forall x, dom x -> is_u32 x.
Hypothesis Hram : forall x, dom x -> ram_page t (x / CITRA_PAGE_SIZE).
Hypothesis Hinj : forall x y, dom x -> dom y -> phys t x = phys t y -> x = y.
Definition system_byte (s : MemorySystem D * W) (x : Z) : Z := guest_byte t (contents s.1) x.
Definition system_good (s : MemorySystem D * W) : Prop :=
  current_page_table s.1 = Some pt /\ page_tables s.1 !! pt = Some t /\ forall x, dom x -> is_byte (system_byte s x).

Lemma ram_covers a n : covers dom a n -> ram_range t a n.
Proof. intros Hc x Hx. by apply Hram, Hc. Qed.
Lemma injective_covers a n : covers dom a n -> injective_range t a n.
Proof. intros Hc x y Hx Hy. apply Hinj; by apply Hc. Qed.
Lemma written_overlay a l c c' x : covers dom a (Z.of_nat (length l)) -> written t a l c c' -> dom x ->
  guest_byte t c' x = overlay (guest_byte t c) a l x.
Proof.
  intros Hc [Hin Hout] Hx. unfold overlay. destruct ((a <=? x) && (x <? a + Z.of_nat (length l))) eqn:E.
  - apply in_range_spec in E. specialize (Hin (Z.to_nat (x - a))). rewrite Z2Nat.id in Hin by lia. replace (a + (x - a)) with x in Hin by lia. apply Hin. lia.
  - unfold guest_byte. destruct (phys t x) as [[b i]|] eqn:Hp; [|done]. apply Hout. intros k Hk Ek.
    assert (a + Z.of_nat k = x) by (apply Hinj; [apply Hc; lia|done|by rewrite Ek, Hp]). lia.
Qed.
Lemma overlay_bytes f a l x : Forall is_byte l -> is_byte (f x) -> is_byte (overlay f a l x).
Proof.
  intros Hl Hf. unfold overlay. destruct ((a <=? x) && (x <? a + Z.of_nat (length l))); [|done].
  destruct (l !! Z.to_nat (x - a)) as [b|] eqn:E; [|unfold is_byte; cbn; lia]. by eapply Forall_lookup_1 in Hl.
Qed.
Lemma encoded_bytes n v : Forall is_byte (le_encode n v).
Proof. revert v. induction n as [|n IH]; intros v; constructor; [apply Z.mod_pos_bound; lia|apply IH]. Qed.
Lemma current_table_good s : system_good s -> current_table s.1 = Ret (t, s.1).
Proof. intros (Hc & Ht & _). unfold current_table, mbind, M_bind, get, deref. rewrite Hc. cbn. unfold get_table, mbind, M_bind, get, deref. by rewrite Ht. Qed.
(** Within a page *)
Lemma ram_pointer x : dom x -> exists b o, pointer_at (page_of x) t = Some (b, o) /\ is_null (Some (b, o)) = false /\ 0 <= o /\ o + CITRA_PAGE_SIZE <= backing_size b.
Proof.
  intros Hx. destruct (Hram x Hx) as (_ & _ & b & o & Hp & Ho & Hb). exists b, o. unfold page_of. rewrite page_of_div. repeat split; try done.
  unfold is_null, GetPtr. apply Z.eqb_neq. pose proof (host_positive Hhost b). lia.
Qed.
Lemma page_bytes x b o k : pointer_at (page_of x) t = Some (b, o) -> 0 <= k -> offset_of x + k < CITRA_PAGE_SIZE -> phys t (x + k) = Some (b, o + (offset_of x + k)).
Proof.
  intros Hp Hk Hlt. pose proof (offset_of_range x). rewrite <- (page_of_offset x) at 1. rewrite <- Z.add_assoc. apply phys_page; [done|lia].
Qed.
Lemma Read_good s a n : system_good s -> (0 < n)%nat -> offset_of a + Z.of_nat n <= CITRA_PAGE_SIZE -> covers dom a (Z.of_nat n) ->
  Read n a s.1 = Ret (le_decode (system_byte s <$> seqZ a (Z.of_nat n)), s.1).
Proof.
  intros Hs Hn Hpage Hc. destruct (ram_pointer a) as (b & o & Hp & Hnull & Ho & Hb); [apply Hc; lia|]. pose proof (offset_of_range a).
  assert (Hw : wp (Read n a) (fun v s' => v = le_decode (system_byte s <$> seqZ a (Z.of_nat n)) /\ s' = s.1) s.1).
  { unfold Read. wp_step. eapply wp_intro; [by apply current_table_good|]. rewrite Hp, Hnull. cbn [negb]. wp_step. apply wp_load; [lia|lia|]. apply wp_ret. split; [|done].
    f_equal. apply fmap_seqZ_shift. intros k Hk. unfold system_byte, guest_byte. rewrite (page_bytes a b o k) by (done || lia). f_equal. lia. }
  apply wp_inv in Hw as (v & s' & E & -> & ->). exact E.
Qed.
Lemma Write_good s a n v : system_good s -> (0 < n)%nat -> offset_of a + Z.of_nat n <= CITRA_PAGE_SIZE -> covers dom a (Z.of_nat n) ->
  wp (Write n a v) (fun _ m => system_good (m, s.2) /\ forall x, dom x -> system_byte (m, s.2) x = overlay (system_byte s) a (le_encode n v) x) s.1.
Proof.
  intros Hs Hn Hpage Hc. destruct (ram_pointer a) as (b & o & Hp & Hnull & Ho & Hb); [apply Hc; lia|]. pose proof (offset_of_range a).
  unfold Write. wp_step. eapply wp_intro; [by apply current_table_good|]. rewrite Hp, Hnull. cbn [negb]. apply wp_store; rewrite ?length_le_encode; [lia|lia|].
  assert (Hw : forall x, dom x -> system_byte (s.1 <| contents := store_bytes b (o + offset_of a) (le_encode n v) (contents s.1) |>, s.2) x = overlay (system_byte s) a (le_encode n v) x).
  { intros x Hx. apply (written_overlay a (le_encode n v) (contents s.1)); [by rewrite length_le_encode| |done]. split; rewrite length_le_encode.
    - intros k Hk. unfold guest_byte. rewrite (page_bytes a b o (Z.of_nat k)) by (done || lia). etrans; [apply store_bytes_in; rewrite length_le_encode; lia|]. do 2 f_equal. lia.
    - intros b' i Hi. apply store_bytes_out. rewrite length_le_encode. destruct (decide (b' = b)) as [->|]; [right|by left].
      destruct (decide (o + offset_of a <= i < o + offset_of a + Z.of_nat n)) as [Hin|]; [|lia]. exfalso.
      apply (Hi (Z.to_nat (i - o - offset_of a))); [lia|]. rewrite (page_bytes a b o) by (done || lia). do 2 f_equal. lia. }
  split; [|exact Hw]. destruct Hs as (Hcur & Ht & Hbytes). repeat split; [done..| | ]; rewrite Hw by done; apply overlay_bytes; auto using encoded_bytes.
Qed.
Lemma aligned_page a : a mod 4 = 0 -> offset_of a + 4 <= CITRA_PAGE_SIZE.
Proof. unfold offset_of. rewrite aligned_land. unfold CITRA_PAGE_SIZE. intros Ha. Z.to_euclidean_division_equations. lia. Qed.
Lemma ReadCString_good s k : system_good s -> forall a, covers dom a (Z.of_nat k) -> ReadCString a k s.1 = Ret (cstring (system_byte s) a k, s.1).
Proof.
  intros Hs. induction k as [|k IH]; intros a Hc; [done|]. cbn [ReadCString cstring]. unfold mbind at 1, M_bind at 1. pose proof (offset_of_range a).
  assert (Ha : dom a) by (apply Hc; lia). unfold Read8. rewrite (Read_good s a 1) by (done || lia || (intros x Hx; apply Hc; lia)). change (Z.of_nat 1) with 1. rewrite seqZ_cons, seqZ_nil by lia.
  cbn [fmap list_fmap le_decode]. rewrite Z.mul_0_r, Z.add_0_r. destruct (system_byte s a =? 0); [done|]. unfold mbind, M_bind.
  destruct k as [|k]; [done|]. assert (Hu : u32 (a + 1) = a + 1) by (apply Z.mod_small; specialize (Hdom (a + 1) ltac:(apply Hc; lia)); exact Hdom).
  rewrite Hu, IH by (intros x Hx; apply Hc; lia). done.
Qed.
#[refine] #[local] Instance system_flat : FlatMemory (MemorySystem D * W) dom := {| good := system_good; byte := system_byte |}.
Proof.
  - exact Hdom.
  - intros s x (_ & _ & Hs) Hx. by apply Hs.
  - intros s a Hs Ha. unfold read8, process_memory, on_guest, zoom, Read8. pose proof (offset_of_range a). rewrite (Read_good s a 1) by (done || lia || (intros x Hx; by replace x with a by lia)).
    change (Z.of_nat 1) with 1. rewrite seqZ_cons, seqZ_nil by lia. cbn. rewrite Z.add_0_r. by destruct s.
  - intros s a Hs Ha Hc. unfold read32, process_memory, on_guest, zoom, Read32. rewrite (Read_good s a 4) by (done || lia || by apply aligned_page). by destruct s.
  - intros s a v Hs Ha Hc. pose proof (Write_good s a 4 v Hs ltac:(lia) (aligned_page a Ha) Hc) as Hw. apply wp_inv in Hw as ([] & m & E & Hw).
    unfold wp, write32, process_memory, on_guest, zoom, Write32. by rewrite E.
  - intros s a n (_ & Ht & _) Hn Hc. unfold read_block, process_memory, on_guest, zoom, ReadBlock. rewrite (ReadBlock_ram false pt t) by (done || by apply ram_covers). by destruct s.
  - intros s a l Hs Hl Hc. destruct (WriteBlock_ram false pt t s.1 a l) as (c' & E & Hw); [apply Hs|by apply ram_covers|by apply injective_covers|].
    unfold wp, write_block, process_memory, on_guest, zoom, WriteBlock. rewrite E.
    assert (Hb : forall x, dom x -> system_byte (s.1 <| contents := c' |>, s.2) x = overlay (system_byte s) a l x) by (intros x Hx; by apply (written_overlay a l (contents s.1))).
    split; [|exact Hb]. destruct Hs as (Hcur & Ht & Hbytes). repeat split; [done..| | ]; rewrite Hb by done; apply overlay_bytes; auto.
  - intros s a n Hs Hn Hc. unfold read_cstring, process_memory, on_guest, zoom. rewrite ReadCString_good by (done || by rewrite Z2Nat.id by done). by destruct s.
  - intros s a n Hs. by destruct s.
Defined.
End System.
