(* ===== verification/CroLists.v ===== *)
(** The lists of registered modules: in memory they are doubly linked lists, to the program
    two sequences of modules. *)

From stdpp Require Import functions.
From S2P Require Import Prelude ResultCode MemoryMap Memory MemoryAccess Cro CroMemory.

(** ** Words and fields *)

Lemma word_overlay f a v : is_u32 v -> word (overlay f a (le_encode 4 v)) a = v.
Proof.
  intros Hv. unfold word. transitivity (le_decode (le_encode 4 v)); [f_equal|by apply le_decode_encode].
  unfold overlay. rewrite length_le_encode. apply list_eq. intros i. rewrite list_lookup_fmap. destruct (decide (i < 4)%nat).
  - rewrite lookup_seqZ_lt by lia. cbn [fmap option_fmap option_map]. rewrite in_range_true by lia. replace (Z.to_nat (a + Z.of_nat i - a)) with i by lia.
    destruct (lookup_lt_is_Some_2 (le_encode 4 v) i) as [x ->]; [by rewrite length_le_encode|done].
  - rewrite lookup_seqZ_ge by lia. symmetry. apply lookup_ge_None_2. rewrite length_le_encode. lia.
Qed.
Lemma word_ext f g a : (forall x, a <= x < a + 4 -> f x = g x) -> word f a = word g a.
Proof. intros E. unfold word. f_equal. apply fmap_seqZ_shift. intros k Hk. apply E. lia. Qed.
Lemma overlay_out f a l x : x < a \/ a + Z.of_nat (length l) <= x -> overlay f a l x = f x.
Proof. intros Hx. unfold overlay. by rewrite in_range_false. Qed.

Section Fields.
Context {S : Type} `{ProcessMemory S} {dom : Z -> Prop} `{!FlatMemory S dom}.
Implicit Types s : S.

(** The header of a module is there, at the start of a page. *)
Definition has_header (m : VAddr) : Prop := m mod 4096 = 0 /\ m <> 0 /\ covers dom m CRO_HEADER_SIZE.
Definition field (s : S) (m f : Z) : Z := word (byte s) (Field m f).
Definition is_field (f : Z) : Prop := 0 <= f < Fix0Barrier.
Lemma Field_address m f : has_header m -> is_field f -> Field m f = m + CRO_HASH_SIZE + f * 4.
Proof.
  intros (Ha & Hm & Hc) Hf. unfold Field. apply Z.mod_small. pose proof (flat_dom m (Hc m ltac:(unfold CRO_HEADER_SIZE; lia))).
  pose proof (flat_dom _ (Hc (m + CRO_HASH_SIZE + f * 4) ltac:(unfold CRO_HEADER_SIZE, CRO_HASH_SIZE, is_field, Fix0Barrier in *; lia))). unfold is_u32 in *. lia.
Qed.
Lemma field_covers m f : has_header m -> is_field f -> covers dom (Field m f) 4 /\ Field m f mod 4 = 0.
Proof.
  intros Hm Hf. rewrite Field_address by done. destruct Hm as (Ha & _ & Hc). unfold is_field, CRO_HASH_SIZE, Fix0Barrier, CRO_HEADER_SIZE in *. split.
  - intros x Hx. apply Hc. lia.
  - Z.to_euclidean_division_equations. lia.
Qed.
Lemma GetField_good s m f : good s -> has_header m -> is_field f -> GetField m f s = Ret (field s m f, s).
Proof. intros Hs Hm Hf. destruct (field_covers m f Hm Hf). by apply flat_read32. Qed.
Lemma fields_apart m f m' f' : has_header m -> is_field f -> has_header m' -> is_field f' -> (m, f) <> (m', f') ->
  Field m f + 4 <= Field m' f' \/ Field m' f' + 4 <= Field m f.
Proof.
  intros Hm Hf Hm' Hf' Hne. rewrite !Field_address by done. destruct Hm as (Ha & _), Hm' as (Ha' & _). unfold is_field, CRO_HASH_SIZE, Fix0Barrier in *.
  destruct (decide (m = m')) as [<-|]; [assert (f <> f') by congruence; lia|]. Z.to_euclidean_division_equations. lia.
Qed.
(** A field is set, and nothing else. *)
Definition set_to (m f v : Z) (s s' : S) : Prop :=
  good s' /\ field s' m f = v /\ (forall m' f', has_header m' -> is_field f' -> (m', f') <> (m, f) -> field s' m' f' = field s m' f') /\
  forall x, dom x -> x < Field m f \/ Field m f + 4 <= x -> byte s' x = byte s x.
Lemma wp_SetField s m f v Q : good s -> has_header m -> is_field f -> is_u32 v -> (forall s', set_to m f v s s' -> Q tt s') -> wp (SetField m f v) Q s.
Proof.
  intros Hs Hm Hf Hv HQ. destruct (field_covers m f Hm Hf) as [Hc Ha]. eapply wp_mono; [by apply flat_write32|]. cbn beta. intros [] s' [Hs' Hb]. apply HQ. split; [done|].
  split; [|split].
  - unfold field. rewrite (word_ext _ (overlay (byte s) (Field m f) (le_encode 4 v))); [by apply word_overlay|]. intros x Hx. by apply Hb, Hc.
  - intros m' f' Hm' Hf' Hne. unfold field. apply word_ext. intros x Hx. destruct (field_covers m' f' Hm' Hf') as [Hc' _]. rewrite Hb by by apply Hc'.
    apply overlay_out. rewrite length_le_encode. destruct (fields_apart m' f' m f) as [|]; try done; lia.
  - intros x Hx Ho. rewrite Hb by done. apply overlay_out. by rewrite length_le_encode.
Qed.
Lemma wp_GetField s m f Q : good s -> has_header m -> is_field f -> Q (field s m f) s -> wp (GetField m f) Q s.
Proof. intros Hs Hm Hf HQ. eapply wp_intro; [by apply GetField_good|done]. Qed.
Lemma field_u32 s m f : good s -> has_header m -> is_field f -> is_u32 (field s m f).
Proof.
  intros Hs Hm Hf. destruct (field_covers m f Hm Hf) as [Hc _]. unfold field, word.
  assert (Hb : forall k, 0 <= k < 4 -> is_byte (byte s (Field m f + k))) by (intros k Hk; apply flat_byte; [done|apply Hc; lia]).
  rewrite !seqZ_cons, seqZ_nil by lia. cbn [fmap list_fmap le_decode]. set (a := Field m f) in *. clearbody a.
  pose proof (Hb 0 ltac:(lia)) as H0. pose proof (Hb 1 ltac:(lia)) as H1'. pose proof (Hb 2 ltac:(lia)) as H2. pose proof (Hb 3 ltac:(lia)) as H3. rewrite Z.add_0_r in H0.
  replace (Z.succ a) with (a + 1) by lia. replace (Z.succ (a + 1)) with (a + 2) by lia. replace (Z.succ (a + 2)) with (a + 3) by lia. unfold is_byte, is_u32 in *. lia.
Qed.
End Fields.

(** ** Chains of modules *)

(** The modules [l] are chained by [nx] and [pv], between [p] and [q]. *)
Fixpoint chain (nx pv : Z -> Z) (p : Z) (l : list Z) (q : Z) : Prop :=
  match l with [] => True | m :: l' => pv m = p /\ nx m = hd q l' /\ chain nx pv m l' q end.
Definition last_of (d : Z) (l : list Z) : Z := default d (last l).
Section Chains.
Implicit Types (nx pv : Z -> Z) (l : list Z).
Lemma last_of_cons d m l : last_of d (m :: l) = last_of m l.
Proof. unfold last_of. rewrite last_cons. by destruct (last l). Qed.
Lemma last_of_snoc d l m : last_of d (l ++ [m]) = m.
Proof. unfold last_of. by rewrite last_snoc. Qed.
Lemma last_of_app d l m l' : last_of d (l ++ m :: l') = last_of m l'.
Proof. revert d. induction l as [|x l IH]; intros d; [apply last_of_cons|]. cbn [app]. by rewrite last_of_cons, IH. Qed.
Lemma links_app nx pv p l l' q : chain nx pv p (l ++ l') q <-> chain nx pv p l (hd q l') /\ chain nx pv (last_of p l) l' q.
Proof.
  revert p. induction l as [|m l IH]; intros p; cbn [app chain]; [unfold last_of; cbn; tauto|]. rewrite IH, last_of_cons.
  assert (hd q (l ++ l') = hd (hd q l') l) as -> by by destruct l. tauto.
Qed.
Lemma chain_ext nx pv nx' pv' p l q : (forall m, m ∈ l -> nx' m = nx m /\ pv' m = pv m) -> chain nx pv p l q -> chain nx' pv' p l q.
Proof.
  revert p. induction l as [|m l IH]; intros p He; [done|]. cbn [chain]. destruct (He m ltac:(constructor)) as [-> ->]. intros (H1 & H2 & H3). split; [done|]. split; [done|].
  apply IH; [|done]. intros x Hx. apply He. by constructor.
Qed.
Lemma chain_first nx pv p p' h l q : h ∉ l -> chain nx pv p (h :: l) q -> chain nx (<[h := p']> pv) p' (h :: l) q.
Proof.
  cbn [chain]. intros Hh (H1 & H2 & H3). rewrite fn_lookup_insert. split; [done|]. split; [done|]. eapply chain_ext; [|exact H3].
  intros m Hm. split; [done|]. apply fn_lookup_insert_ne. by intros ->.
Qed.
Lemma chain_last nx pv p l d q q' : NoDup l -> l <> [] -> chain nx pv p l q -> chain (<[last_of d l := q']> nx) pv p l q'.
Proof.
  intros Hnd Hne. destruct (exists_last Hne) as (l' & x & ->). rewrite last_of_snoc, !links_app. cbn [chain hd]. intros (H1 & H2 & _). split; [|by rewrite fn_lookup_insert].
  eapply chain_ext; [|exact H1]. intros m Hm. split; [|done]. apply fn_lookup_insert_ne. intros ->. apply NoDup_app in Hnd as (_ & Hd & _). apply (Hd m Hm), list_elem_of_singleton. done.
Qed.
(** The last of a list is what comes before its head. *)
Definition linked nx pv l : Prop := chain nx pv (last_of 0 l) l 0.
Lemma linked_ext nx pv nx' pv' l : (forall m, m ∈ l -> nx' m = nx m /\ pv' m = pv m) -> linked nx pv l -> linked nx' pv' l.
Proof. apply chain_ext. Qed.
Lemma linked_single nx pv m : linked (<[m := 0]> nx) (<[m := m]> pv) [m].
Proof. unfold linked. cbn. by rewrite !fn_lookup_insert. Qed.
(** A module is put behind the last one. *)
Lemma linked_append nx pv h l m : NoDup (h :: l) -> m ∉ h :: l -> linked nx pv (h :: l) ->
  linked (<[m := 0]> (<[last_of h l := m]> nx)) (<[h := m]> (<[m := last_of h l]> pv)) ((h :: l) ++ [m]).
Proof.
  intros Hnd Hm Hl. unfold linked in *. rewrite last_of_snoc, last_of_cons in *. apply links_app. rewrite last_of_cons. cbn [hd]. split.
  - apply (chain_first _ _ (last_of h l)); [by apply NoDup_cons in Hnd as [? _]|]. apply (chain_last _ _ _ _ h _ m) in Hl; [|done..]. rewrite last_of_cons in Hl.
    eapply chain_ext; [|exact Hl]. intros y Hy. split; apply fn_lookup_insert_ne; congruence.
  - cbn [chain hd]. rewrite fn_lookup_insert, fn_lookup_insert_ne by (intros ->; apply Hm; constructor). by rewrite fn_lookup_insert.
Qed.
(** A module is taken out: the first one, one in the middle, the last one. *)
Lemma linked_without_first nx pv m h l : NoDup (m :: h :: l) -> linked nx pv (m :: h :: l) -> linked nx (<[h := pv m]> pv) (h :: l).
Proof.
  unfold linked. rewrite !last_of_cons. intros Hnd. apply NoDup_cons in Hnd as [Hm Hnd]. apply NoDup_cons in Hnd as [Hh Hnd]. cbn [chain hd]. intros (-> & _ & Hc).
  by apply (chain_first _ _ m _ h l 0 Hh).
Qed.
Lemma linked_without nx pv h l m h' l' : NoDup ((h :: l) ++ m :: h' :: l') -> linked nx pv ((h :: l) ++ m :: h' :: l') ->
  linked (<[pv m := h']> nx) (<[h' := pv m]> pv) ((h :: l) ++ h' :: l').
Proof.
  unfold linked. rewrite !last_of_app, last_of_cons, !links_app. intros Hnd. apply NoDup_app in Hnd as (Hnd1 & Hd & Hnd2). apply NoDup_cons in Hnd2 as [Hm Hnd2]. pose proof Hnd2 as Hnd3. apply NoDup_cons in Hnd3 as [Hh _].
  intros (H1 & H2 & H3 & H4). rewrite H2. cbn [hd] in *. set (x := last_of _ (h :: l)) in *.
  assert (Hx : x ∈ h :: l) by (subst x; destruct (exists_last (l := h :: l) ltac:(done)) as (l1 & y & ->); rewrite last_of_snoc; apply elem_of_app; right; by apply list_elem_of_singleton). split.
  - eapply chain_ext; [|apply (chain_last nx pv _ (h :: l) (last_of h' l') m h' Hnd1 ltac:(done) H1)]. fold x. intros y Hy. split; [done|].
    apply fn_lookup_insert_ne. intros <-. apply (Hd h' Hy). by right; left.
  - apply (chain_first _ _ m _ h' l' 0 Hh). eapply chain_ext; [|exact H4]. intros y Hy. split; [|done]. apply fn_lookup_insert_ne. intros <-. apply (Hd x Hx). by right.
Qed.
Lemma linked_without_last nx pv h l m : NoDup ((h :: l) ++ [m]) -> linked nx pv ((h :: l) ++ [m]) ->
  linked (<[pv m := 0]> nx) (<[h := pv m]> pv) (h :: l) /\ pv h = m.
Proof.
  unfold linked. rewrite last_of_snoc, links_app. cbn [chain hd]. intros Hnd (H1 & H2 & _ & _). apply NoDup_app in Hnd as (Hnd1 & Hd & _). pose proof Hnd1 as Hnd3. apply NoDup_cons in Hnd3 as [Hh _].
  rewrite H2, !last_of_cons. split; [|apply H1]. apply (chain_first _ _ m); [done|]. apply (chain_last nx pv m (h :: l) m m 0) in H1; [|done..]. by rewrite last_of_cons in H1.
Qed.
End Chains.

(** ** Registering *)

Section Lists.
Context {S : Type} `{ProcessMemory S} {dom : Z -> Prop} `{!FlatMemory S dom}.
Implicit Types (s : S) (nx pv : Z -> Z) (ls : bool -> list VAddr).
Abbreviation has_header := (has_header (dom := dom)).

(** The next and the previous module of each module *)
Definition view s nx pv : Prop := good s /\ forall m, has_header m -> field s m NextCRO = nx m /\ field s m PreviousCRO = pv m.
(** The two words of the modules [ms] *)
Definition pointer_of (ms : list VAddr) (x : Z) : Prop := exists m, m ∈ ms /\ Field m NextCRO <= x < Field m NextCRO + 8.
Definition outside ms s s' : Prop := forall x, dom x -> ~ pointer_of ms x -> byte s' x = byte s x.
#[export] Instance outside_preorder ms : PreOrder (outside ms).
Proof. split; [by intros s x|]. intros s1 s2 s3 H1 H2 x Hx Ho. by rewrite H2, H1. Qed.
Lemma view_refl s : good s -> view s (fun m => field s m NextCRO) (fun m => field s m PreviousCRO).
Proof. by split. Qed.
Lemma wp_SetNextModule s nx pv ms m v Q : view s nx pv -> has_header m -> m ∈ ms -> is_u32 v ->
  (forall s', view s' (<[m := v]> nx) pv -> outside ms s s' -> Q tt s') -> wp (SetNextModule m v) Q s.
Proof.
  intros [Hs Hv] Hm Hin Hu HQ. apply wp_SetField; [done..|]. intros s' (Hs' & Hf & Ho & Hb). apply HQ.
  - split; [done|]. intros m' Hm'. destruct (Hv m' Hm') as [E1 E2]. split; [|by rewrite <- E2; apply Ho]. destruct (decide (m' = m)) as [->|Hne].
    + by rewrite fn_lookup_insert.
    + rewrite fn_lookup_insert_ne, <- E1 by done. apply Ho; [done..|congruence].
  - intros x Hx Hp. apply Hb; [done|]. destruct (decide (x < Field m NextCRO)); [by left|right]. apply Z.nlt_ge. intros Hlt. apply Hp. exists m. split; [done|lia].
Qed.
Lemma wp_SetPreviousModule s nx pv ms m v Q : view s nx pv -> has_header m -> m ∈ ms -> is_u32 v ->
  (forall s', view s' nx (<[m := v]> pv) -> outside ms s s' -> Q tt s') -> wp (SetPreviousModule m v) Q s.
Proof.
  intros [Hs Hv] Hm Hin Hu HQ. apply wp_SetField; [done..|]. intros s' (Hs' & Hf & Ho & Hb). apply HQ.
  - split; [done|]. intros m' Hm'. destruct (Hv m' Hm') as [E1 E2]. split; [by rewrite <- E1; apply Ho|]. destruct (decide (m' = m)) as [->|Hne].
    + by rewrite fn_lookup_insert.
    + rewrite fn_lookup_insert_ne, <- E2 by done. apply Ho; [done..|congruence].
  - intros x Hx Hp. apply Hb; [done|]. assert (E : Field m PreviousCRO = Field m NextCRO + 4) by (rewrite !Field_address by done; unfold PreviousCRO, NextCRO; lia).
    destruct (decide (x < Field m PreviousCRO)); [by left|right]. apply Z.nlt_ge. intros Hlt. apply Hp. exists m. split; [done|lia].
Qed.
Lemma wp_NextModule s nx pv m Q : view s nx pv -> has_header m -> Q (nx m) s -> wp (NextModule m) Q s.
Proof. intros [Hs Hv] Hm HQ. apply wp_GetField; [done..|]. by destruct (Hv m Hm) as [-> _]. Qed.
Lemma wp_PreviousModule s nx pv m Q : view s nx pv -> has_header m -> Q (pv m) s -> wp (PreviousModule m) Q s.
Proof. intros [Hs Hv] Hm HQ. apply wp_GetField; [done..|]. by destruct (Hv m Hm) as [_ ->]. Qed.

(** The modules of [ls true] are registered to be linked automatically, those of [ls false]
    to be linked by hand. *)
Record registered s (crs : VAddr) ls : Prop := {
  reg_good : good s;
  reg_headers : Forall has_header (crs :: ls true ++ ls false);
  reg_nodup : NoDup (crs :: ls true ++ ls false);
  reg_auto_head : field s crs NextCRO = hd 0 (ls true);
  reg_other_head : field s crs PreviousCRO = hd 0 (ls false);
  reg_linked b : linked (fun m => field s m NextCRO) (fun m => field s m PreviousCRO) (ls b);
}.
Lemma registered_view s crs ls nx pv : view s nx pv -> Forall has_header (crs :: ls true ++ ls false) -> NoDup (crs :: ls true ++ ls false) ->
  nx crs = hd 0 (ls true) -> pv crs = hd 0 (ls false) -> (forall b, linked nx pv (ls b)) -> registered s crs ls.
Proof.
  intros [Hs Hv] Hh Hnd Hnx Hpv Hl. assert (Hhead : forall m, m ∈ crs :: ls true ++ ls false -> has_header m) by (intros m; by apply Forall_forall).
  split; [done..| | |]; [by destruct (Hv crs ltac:(apply Hhead; left)) as [-> _]|by destruct (Hv crs ltac:(apply Hhead; left)) as [_ ->]|].
  intros b. eapply linked_ext; [|apply Hl]. intros m Hm. apply Hv, Hhead. right. apply elem_of_app. destruct b; auto.
Qed.
(** Replacing one of the lists *)
Definition with_list ls (b : bool) (l : list VAddr) : bool -> list VAddr := fun b' => if Bool.eqb b' b then l else ls b'.
Lemma module_u32 m : has_header m -> is_u32 m.
Proof. intros (_ & _ & Hc). apply (flat_dom (dom := dom)). apply Hc. unfold CRO_HEADER_SIZE. lia. Qed.
Lemma list_apart crs ls b m : NoDup (crs :: ls true ++ ls false) -> m ∈ ls b -> (m ∉ ls (negb b)) /\ m <> crs.
Proof.
  intros Hnd Hm. apply NoDup_cons in Hnd as [Hc Hnd]. apply NoDup_app in Hnd as (_ & Hd & _). split.
  - intros Hn. destruct b; [by apply (Hd m)|by apply (Hd m)].
  - intros ->. apply Hc, elem_of_app. destruct b; auto.
Qed.
Lemma list_nodup crs ls b : NoDup (crs :: ls true ++ ls false) -> NoDup (ls b).
Proof. intros Hnd. apply NoDup_cons in Hnd as [_ Hnd]. apply NoDup_app in Hnd as (H1 & _ & H2). by destruct b. Qed.

Lemma linked_ends nx pv h l : linked nx pv (h :: l) -> pv h = last_of h l /\ nx (last_of h l) = 0.
Proof.
  unfold linked. rewrite last_of_cons. intros Hl. split; [apply Hl|]. destruct (exists_last (l := h :: l) ltac:(done)) as (l' & x & E). rewrite E in Hl.
  rewrite <- (last_of_cons 0), E, last_of_snoc. apply links_app in Hl as [_ Hl]. apply Hl.
Qed.
Lemma last_of_in h l : last_of h l ∈ h :: l.
Proof. destruct (exists_last (l := h :: l) ltac:(done)) as (l' & x & E). rewrite <- (last_of_cons 0), E, last_of_snoc. apply elem_of_app. right. by apply list_elem_of_singleton. Qed.
Section Steps.
Variables (crs : VAddr) (ls : bool -> list VAddr).
Hypothesis Hheaders : Forall has_header (crs :: ls true ++ ls false).
Hypothesis Hnodup : NoDup (crs :: ls true ++ ls false).
Lemma header_in m : m ∈ crs :: ls true ++ ls false -> has_header m.
Proof. by apply Forall_forall. Qed.
Lemma header_of b m : m ∈ ls b -> has_header m.
Proof. intros Hm. apply header_in. right. apply elem_of_app. destruct b; auto. Qed.
(** The head of a list *)
Definition head_of nx pv (b : bool) : Z := if b then nx crs else pv crs.
Definition set_head (b : bool) (v : Z) nx pv : (Z -> Z) * (Z -> Z) := if b then (<[crs := v]> nx, pv) else (nx, <[crs := v]> pv).
Lemma with_list_nodup b l : NoDup (crs :: l ++ ls (negb b)) -> NoDup (crs :: with_list ls b l true ++ with_list ls b l false).
Proof. unfold with_list. destruct b; cbn; [done|]. intros Hnd. apply NoDup_cons in Hnd as [H1 H2]. rewrite (Permutation_app_comm (ls true)). by constructor. Qed.
Lemma with_list_headers b l : Forall has_header (crs :: l ++ ls (negb b)) -> Forall has_header (crs :: with_list ls b l true ++ with_list ls b l false).
Proof. unfold with_list. destruct b; cbn; [done|]. intros Hnd. by rewrite (Permutation_app_comm (ls true)). Qed.
(** The list [b] becomes [l]. *)
Lemma registered_with s nx pv b l : view s nx pv -> Forall has_header (crs :: l ++ ls (negb b)) -> NoDup (crs :: l ++ ls (negb b)) ->
  head_of nx pv b = hd 0 l -> head_of nx pv (negb b) = hd 0 (ls (negb b)) -> linked nx pv l -> linked nx pv (ls (negb b)) ->
  registered s crs (with_list ls b l).
Proof.
  intros Hv Hh Hnd Hhead Hother Hl Ho. apply (registered_view s crs _ nx pv); [done|by apply with_list_headers|by apply with_list_nodup| | |].
  - unfold with_list. by destruct b.
  - unfold with_list. by destruct b.
  - intros b'. unfold with_list. destruct (Bool.eqb_spec b' b) as [->|Hne]; [done|]. by replace b' with (negb b) by (by destruct b, b').
Qed.
End Steps.
(** C20: registering a module puts it at the end of its list, behind the one that was last, and changes
    nothing but the links of the static module and of the modules of that list. *)
Theorem Register_appends s (crs m : VAddr) ls (auto_link : bool) :
  registered s crs ls -> has_header m -> m ∉ crs :: ls true ++ ls false ->
  wp (Register m crs auto_link) (fun _ s' => registered s' crs (with_list ls auto_link (ls auto_link ++ [m])) /\ outside (m :: crs :: ls auto_link) s s') s.
Proof.
  intros [Hs Hh Hnd Hah Hoh Hl'] Hm Hnew. rename auto_link into b.
  pose proof (header_in crs ls Hh) as Hin. pose proof (header_of crs ls Hh) as Hof. assert (Hcrs : has_header crs) by (apply Hin; left). pose proof (module_u32 m Hm) as Hmu.
  set (nx := fun m => field s m NextCRO) in *. set (pv := fun m => field s m PreviousCRO) in *. assert (Hv : view s nx pv) by by apply view_refl.
  assert (Hhead : head_of crs nx pv b = hd 0 (ls b)) by by destruct b. assert (Hother : head_of crs nx pv (negb b) = hd 0 (ls (negb b))) by by destruct b.
  assert (Hmb : (m ∉ ls b) /\ (m ∉ ls (negb b)) /\ m <> crs). { rewrite not_elem_of_cons, not_elem_of_app in Hnew. destruct b; tauto. } destruct Hmb as (Hmb & Hmn & Hmc).
  assert (Hnd' : NoDup (crs :: (ls b ++ [m]) ++ ls (negb b))).
  { assert (Hp : crs :: (ls b ++ [m]) ++ ls (negb b) ≡ₚ m :: crs :: ls true ++ ls false) by (destruct b; cbn; solve_Permutation). rewrite Hp. by constructor. }
  assert (Hh' : Forall has_header (crs :: (ls b ++ [m]) ++ ls (negb b))).
  { apply Forall_cons. split; [done|]. rewrite !Forall_app, Forall_singleton, !Forall_forall. eauto. }
  unfold Register. wp_step. apply (wp_mono _ (fun v s' => v = hd 0 (ls b) /\ s' = s)).
  { rewrite <- Hhead. destruct b; [by apply (wp_NextModule s nx pv)|by apply (wp_PreviousModule s nx pv)]. }
  intros head s' [-> ->]. pose proof (Hl' b) as Hl. pose proof (Hl' (negb b)) as Hlo. clearbody nx pv. set (ms := m :: crs :: ls b). destruct (ls b) as [|h l] eqn:E.
  - cbn [hd Z.eqb negb]. wp_step. wp_step. apply (wp_SetPreviousModule s nx pv ms); [done|done|by left|done|]. intros s1 Hv1 Ho1.
    apply (wp_mono _ (fun _ s' => view s' (set_head crs b m nx (<[m := m]> pv)).1 (set_head crs b m nx (<[m := m]> pv)).2 /\ outside ms s1 s')).
    { destruct b; [eapply wp_SetNextModule|eapply wp_SetPreviousModule]; eauto; by right; left. }
    intros _ s2 [Hv2 Ho2]. eapply (wp_SetNextModule _ _ _ ms); [exact Hv2|done|by left|done|]. intros s3 Hv3 Ho3. split; [|by do 2 (etrans; [eassumption|])].
    eapply (registered_with crs ls); [exact Hv3|done|done|..].
    + destruct b; cbn; rewrite ?fn_lookup_insert_ne by done; by rewrite fn_lookup_insert.
    + destruct b; cbn in *; by rewrite !fn_lookup_insert_ne by done.
    + eapply linked_ext; [|apply (linked_single nx pv m)]. intros x ->%list_elem_of_singleton. destruct b; cbn; rewrite ?fn_lookup_insert, ?fn_lookup_insert_ne by done; by rewrite ?fn_lookup_insert.
    + eapply linked_ext; [|exact Hlo]. intros x Hx. assert (x <> m) by (by intros ->). assert (x <> crs) by (intros ->; apply NoDup_cons in Hnd' as [Hn _]; apply Hn, elem_of_app; by right).
      destruct b; cbn; by rewrite !fn_lookup_insert_ne by done.
  - assert (Hhh : has_header h) by (apply (Hof b); rewrite E; left). cbn [hd]. rewrite (proj2 (Z.eqb_neq h 0)) by apply Hhh. cbn [negb].
    destruct (linked_ends nx pv h l Hl) as [Hpv Hnx]. set (tail := last_of h l) in *. assert (Htin : tail ∈ ls b) by (rewrite E; apply last_of_in). assert (Ht : has_header tail) by by apply (Hof b).
    assert (Htm : tail ∈ ms) by (subst ms; rewrite <- E; by right; right). pose proof (module_u32 tail Ht) as Htu.
    wp_step. wp_step. apply (wp_PreviousModule s nx pv); [done..|]. rewrite Hpv. wp_step. apply (wp_NextModule s nx pv); [done..|]. rewrite Hnx. wp_step. apply wp_assert; [done|].
    wp_step. apply (wp_SetPreviousModule s nx pv ms); [done|done|by left|done|]. intros s1 Hv1 Ho1.
    wp_step. eapply (wp_SetNextModule _ _ _ ms); [exact Hv1|done|done|done|]. intros s2 Hv2 Ho2.
    eapply (wp_SetPreviousModule _ _ _ ms); [exact Hv2|done|by right; right; left|done|]. intros s3 Hv3 Ho3.
    eapply (wp_SetNextModule _ _ _ ms); [exact Hv3|done|by left|done|]. intros s4 Hv4 Ho4. split; [|by do 3 (etrans; [eassumption|])].
    assert (Hcl : crs ∉ h :: l) by (intros Hc; apply NoDup_cons in Hnd' as [Hn _]; apply Hn; rewrite !elem_of_app; auto).
    assert (Hct : crs <> tail) by (intros ->; apply Hcl; by rewrite E in Htin). assert (Hch : crs <> h) by (intros ->; apply Hcl; left).
    eapply (registered_with crs ls); [exact Hv4|done|done|..].
    + cbn [app hd]. destruct b; cbn in *; by rewrite !fn_lookup_insert_ne by done.
    + destruct b; cbn in *; by rewrite !fn_lookup_insert_ne by done.
    + apply linked_append; [|done|done]. pose proof (list_nodup crs ls b Hnd) as Hx. by rewrite E in Hx.
    + eapply linked_ext; [|exact Hlo]. intros x Hx. assert (x <> m) by (by intros ->). assert (Hxl : x ∉ h :: l).
      { rewrite <- E. intros Hxb. by apply (list_apart crs ls b x Hnd) in Hxb as [Hxb _]. }
      assert (x <> h) by (intros ->; apply Hxl; left). assert (x <> tail) by (intros ->; apply Hxl; by rewrite E in Htin). by rewrite !fn_lookup_insert_ne by done.
Qed.

(** ** Unregistering *)

Lemma nil_or_cons (l : list Z) : l = [] \/ exists h q, l = h :: q.
Proof. destruct l; eauto. Qed.
Section Removal.
Variables (crs m : VAddr) (ls : bool -> list VAddr) (b : bool) (l l' : list VAddr).
Hypothesis Hheaders : Forall has_header (crs :: ls true ++ ls false).
Hypothesis Hnodup : NoDup (crs :: ls true ++ ls false).
Hypothesis Hlist : ls b = l ++ m :: l'.
Lemma removal_in x : x ∈ l ++ m :: l' -> has_header x.
Proof. rewrite <- Hlist. by apply (header_of crs). Qed.
Lemma removal_nodup : NoDup (l ++ m :: l').
Proof. rewrite <- Hlist. by apply (list_nodup crs ls). Qed.
Lemma removal_m : m ∈ ls b /\ (m ∉ l ++ l') /\ (m ∉ ls (negb b)) /\ m <> crs.
Proof.
  assert (Hm : m ∈ ls b) by (rewrite Hlist; apply elem_of_app; right; left). split; [done|]. split; [|by apply (list_apart crs)].
  pose proof removal_nodup as Hnd. rewrite <- Permutation_middle in Hnd. by apply NoDup_cons in Hnd as [? _].
Qed.
Lemma removal_rest : Forall has_header (crs :: (l ++ l') ++ ls (negb b)) /\ NoDup (crs :: (l ++ l') ++ ls (negb b)).
Proof.
  assert (Hp : crs :: ls true ++ ls false ≡ₚ m :: crs :: (l ++ l') ++ ls (negb b)).
  { transitivity (crs :: ls b ++ ls (negb b)); [destruct b; cbn; solve_Permutation|]. rewrite Hlist. solve_Permutation. }
  rewrite Hp in Hheaders, Hnodup. apply Forall_cons in Hheaders as [_ H1]. by apply NoDup_cons in Hnodup as [_ H2].
Qed.
Lemma others_apart x : x ∈ ls (negb b) -> (x ∉ l ++ m :: l') /\ x <> crs.
Proof. intros Hx. apply (list_apart crs) in Hx as [Hx1 Hx2]; [|done]. rewrite negb_involutive, Hlist in Hx1. done. Qed.
(** The links of the module are cleared at last. *)
Definition unlinked s0 s : Prop := exists nx pv, view s nx pv /\ head_of crs nx pv b = hd 0 (l ++ l') /\ head_of crs nx pv (negb b) = hd 0 (ls (negb b)) /\
  linked nx pv (l ++ l') /\ linked nx pv (ls (negb b)) /\ outside (crs :: ls b) s0 s.
Lemma unregister_ends s0 s : unlinked s0 s ->
  wp (SetNextModule m 0 ;; SetPreviousModule m 0) (fun _ s' => registered s' crs (with_list ls b (l ++ l')) /\
    field s' m NextCRO = 0 /\ field s' m PreviousCRO = 0 /\ outside (crs :: ls b) s0 s') s.
Proof.
  intros (nx & pv & Hv & Hh & Ho & Hl & Hlo & Hout). destruct removal_m as (Hm & Hml & Hmo & Hmc). assert (Hmh : has_header m) by (apply removal_in, elem_of_app; right; left).
  destruct removal_rest as [Hrh Hrn]. assert (Hms : m ∈ crs :: ls b) by by right.
  wp_step. apply (wp_SetNextModule s nx pv (crs :: ls b)); [done..|]. intros s1 Hv1 Ho1.
  eapply (wp_SetPreviousModule _ _ _ (crs :: ls b)); [exact Hv1|done..|]. intros s2 Hv2 Ho2. split; [|split; [|split]].
  - eapply (registered_with crs ls); [exact Hv2|done|done|..].
    + destruct b; cbn in *; by rewrite fn_lookup_insert_ne by done.
    + destruct b; cbn in *; by rewrite fn_lookup_insert_ne by done.
    + eapply linked_ext; [|exact Hl]. intros x Hx. rewrite !fn_lookup_insert_ne by (by intros ->). done.
    + eapply linked_ext; [|exact Hlo]. intros x Hx. rewrite !fn_lookup_insert_ne by (by intros ->). done.
  - destruct Hv2 as [_ Hv2]. destruct (Hv2 m Hmh) as [-> _]. by rewrite fn_lookup_insert.
  - destruct Hv2 as [_ Hv2]. destruct (Hv2 m Hmh) as [_ ->]. by rewrite fn_lookup_insert.
  - by do 2 (etrans; [eassumption|]).
Qed.

(** What the module to remove knows of its neighbours *)
Section Neighbours.
Variables (s : S) (nx pv : Z -> Z).
Hypothesis Hview : view s nx pv.
Hypothesis Hhead : head_of crs nx pv b = hd 0 (l ++ m :: l').
Hypothesis Hother : head_of crs nx pv (negb b) = hd 0 (ls (negb b)).
Hypothesis Hlinked : linked nx pv (l ++ m :: l').
Hypothesis Hlinked' : linked nx pv (ls (negb b)).
Lemma next_of : nx m = hd 0 l'.
Proof. unfold linked in Hlinked. apply links_app in Hlinked as [_ H']. apply H'. Qed.
Lemma previous_of : pv m = last_of (last_of m l') l.
Proof. unfold linked in Hlinked. apply links_app in Hlinked as [_ H']. rewrite last_of_app in H'. apply H'. Qed.
Lemma crs_header : has_header crs.
Proof. apply (header_in crs ls Hheaders). left. Qed.
Lemma m_header : has_header m.
Proof. apply removal_in, elem_of_app. right. left. Qed.
Lemma last_of_or x q : last_of x q = x \/ last_of x q ∈ q.
Proof. destruct q as [|y q]; [by left|]. right. rewrite last_of_cons. apply last_of_in. Qed.
Lemma previous_in : pv m ∈ l ++ m :: l'.
Proof.
  rewrite previous_of. destruct (last_of_or (last_of m l') l) as [->|Hin]; [|apply elem_of_app; by left].
  apply elem_of_app. right. apply last_of_in.
Qed.
Lemma not_other_head : m <> head_of crs nx pv (negb b).
Proof.
  rewrite Hother. destruct (ls (negb b)) as [|x q] eqn:E; [apply m_header|]. cbn. intros <-. destruct removal_m as (_ & _ & Hmo & _). apply Hmo. rewrite E. left.
Qed.
Lemma crs_apart x : x ∈ l ++ m :: l' -> x <> crs.
Proof. rewrite <- Hlist. intros Hx. by apply (list_apart crs) in Hx as [_ ?]. Qed.
(** The links of the other list are left alone. *)
Lemma others_linked nx' pv' : (forall x, x ∉ l ++ m :: l' -> x <> crs -> nx' x = nx x /\ pv' x = pv x) -> linked nx' pv' (ls (negb b)).
Proof. intros He. eapply linked_ext; [|exact Hlinked']. intros x Hx. destruct (others_apart x Hx). by apply He. Qed.
Lemma set_head_to s1 pv1 v Q : l = [] -> view s1 nx pv1 -> is_u32 v ->
  (forall s', view s' (set_head crs b v nx pv1).1 (set_head crs b v nx pv1).2 -> outside (crs :: ls b) s1 s' -> Q tt s') ->
  wp (if m =? pv crs then SetPreviousModule crs v else SetNextModule crs v) Q s1.
Proof.
  intros E Hv1 Hu HQ. pose proof not_other_head as Hno. rewrite E in Hhead. cbn in Hhead. destruct b; cbn in Hhead, Hno.
  - rewrite (proj2 (Z.eqb_neq _ _)) by done. apply (wp_SetNextModule s1 nx pv1 (crs :: ls true)); eauto using crs_header. left.
  - rewrite Hhead, Z.eqb_refl. apply (wp_SetPreviousModule s1 nx pv1 (crs :: ls false)); eauto using crs_header. left.
Qed.
Lemma head_other v nx' pv' : head_of crs nx' pv' (negb b) = head_of crs nx pv (negb b) ->
  head_of crs (set_head crs b v nx' pv').1 (set_head crs b v nx' pv').2 b = v /\
  head_of crs (set_head crs b v nx' pv').1 (set_head crs b v nx' pv').2 (negb b) = hd 0 (ls (negb b)).
Proof. rewrite Hother. destruct b; cbn; intros ->; by rewrite fn_lookup_insert. Qed.
Lemma first_removed : l = [] ->
  wp ((if negb (nx m =? 0) then SetPreviousModule (nx m) (pv m) else mret tt) ;;
      (if m =? pv crs then SetPreviousModule crs (nx m) else SetNextModule crs (nx m))) (fun _ s' => unlinked s s') s.
Proof.
  intros E. pose proof next_of as Hn. wp_step. pose proof removal_nodup as Hnd. pose proof Hlinked as Hl. rewrite E in Hl, Hnd. cbn [app] in Hl, Hnd.
  apply (wp_mono _ (fun _ s1 => exists pv1, view s1 nx pv1 /\ outside (crs :: ls b) s s1 /\ linked nx pv1 l' /\ (forall x, x ∉ l' -> pv1 x = pv x) /\ is_u32 (nx m))).
  - rewrite Hn. destruct (nil_or_cons l') as [E'|(h & q & E')].
    + rewrite E'. cbn. exists pv. by do 4 (split; [done|]).
    + rewrite E' in Hl, Hnd |- *. assert (Hh : h ∈ ls b) by (rewrite Hlist, E'; apply elem_of_app; right; right; left). pose proof (header_of crs ls Hheaders _ _ Hh) as Hhh.
      cbn [hd]. rewrite (proj2 (Z.eqb_neq h 0)) by apply Hhh. cbn [negb]. apply (wp_SetPreviousModule s nx pv (crs :: ls b)); [done|done|by right|by apply module_u32, removal_in, previous_in|].
      intros s1 Hv1 Ho1. exists (<[h := pv m]> pv). do 2 (split; [done|]). split; [by apply linked_without_first|]. split; [|by apply module_u32].
      intros x Hx. apply fn_lookup_insert_ne. intros ->. apply Hx. left.
  - intros _ s1 (pv1 & Hv1 & Ho1 & Hl1 & Hpv1 & Hu). apply (set_head_to s1 pv1); [done|done|done|]. intros s2 Hv2 Ho2.
    exists (set_head crs b (nx m) nx pv1).1, (set_head crs b (nx m) nx pv1).2. rewrite E. cbn [app].
    assert (Hc : crs ∉ l') by (intros Hc; apply (crs_apart crs); [apply elem_of_app; right; by right|done]).
    destruct (head_other (nx m) nx pv1) as [Hh1 Hh2]; [destruct b; cbn; [by apply Hpv1|done]|]. split; [done|]. split; [by rewrite Hh1|]. split; [done|].
    split; [|split; [|by etrans]].
    + eapply linked_ext; [|exact Hl1]. intros x Hx. assert (x <> crs) by (by intros ->). destruct b; cbn; by rewrite fn_lookup_insert_ne.
    + apply others_linked. intros x Hx Hxc. assert (x ∉ l') by (intros Hx'; apply Hx, elem_of_app; right; by right). destruct b; cbn; rewrite fn_lookup_insert_ne by done; auto.
Qed.
(** A module that is neither the first nor the last *)
Lemma inner_removed h q h' q' : l = h :: q -> l' = h' :: q' ->
  wp (SetNextModule (pv m) h' ;; SetPreviousModule h' (pv m)) (fun _ s' => unlinked s s') s.
Proof.
  intros E E'. pose proof (removal_in _ previous_in) as Hp. pose proof (module_u32 _ Hp) as Hpu. pose proof Hlinked as Hl. pose proof removal_nodup as Hnd. rewrite E, E' in Hl, Hnd.
  assert (Hh : h' ∈ l ++ m :: l') by (rewrite E'; apply elem_of_app; right; right; left). pose proof (removal_in _ Hh) as Hhh.
  wp_step. apply (wp_SetNextModule s nx pv (crs :: ls b)); [done|done|right; rewrite Hlist; apply previous_in|by apply module_u32|]. intros s1 Hv1 Ho1.
  eapply (wp_SetPreviousModule _ _ _ (crs :: ls b)); [exact Hv1|done|right; by rewrite Hlist|done|]. intros s2 Hv2 Ho2.
  pose proof (crs_apart _ previous_in) as Hpc. pose proof (crs_apart _ Hh) as Hhc. exists (<[pv m := h']> nx), (<[h' := pv m]> pv). split; [done|].
  split; [|split; [|split; [|split; [|by etrans]]]].
  - rewrite E in Hhead |- *. destruct b; cbn in *; by rewrite fn_lookup_insert_ne.
  - rewrite <- Hother. destruct b; cbn in *; by rewrite fn_lookup_insert_ne.
  - rewrite E, E'. by apply linked_without.
  - apply others_linked. intros x Hx _. rewrite !fn_lookup_insert_ne; [done|by intros <-|]. intros <-. apply Hx, previous_in.
Qed.
(** The last module of several *)
Lemma last_removed h q : l = h :: q -> l' = [] ->
  wp (SetNextModule (pv m) 0 ;;
      is_tail ← (if negb (nx crs =? 0) then p ← PreviousModule (nx crs); mret (p =? m) else mret false);
      if negb is_tail then
        is_tail ← (if negb (pv crs =? 0) then p ← PreviousModule (pv crs); mret (p =? m) else mret false);
        if negb is_tail then crash AssertFailed else SetPreviousModule (pv crs) (pv m)
      else SetPreviousModule (nx crs) (pv m)) (fun _ s' => unlinked s s') s.
Proof.
  intros E E'. pose proof (removal_in _ previous_in) as Hp. pose proof (module_u32 _ Hp) as Hpu. pose proof Hlinked as Hl. pose proof removal_nodup as Hnd. rewrite E, E' in Hl, Hnd.
  assert (Hh : h ∈ l ++ m :: l') by (rewrite E; left). pose proof (removal_in _ Hh) as Hhh. destruct (linked_without_last nx pv h q m Hnd Hl) as [Hl2 Hpm].
  wp_step. apply (wp_SetNextModule s nx pv (crs :: ls b)); [done|done|right; rewrite Hlist; apply previous_in|done|]. intros s1 Hv1 Ho1.
  assert (Hend : wp (SetPreviousModule h (pv m)) (fun _ s' => unlinked s s') s1).
  { eapply (wp_SetPreviousModule _ _ _ (crs :: ls b)); [exact Hv1|done|right; by rewrite Hlist|done|]. intros s2 Hv2 Ho2.
    pose proof (crs_apart _ previous_in) as Hpc. pose proof (crs_apart _ Hh) as Hhc. exists (<[pv m := 0]> nx), (<[h := pv m]> pv). split; [done|].
    split; [|split; [|split; [|split; [|by etrans]]]].
    - rewrite E in Hhead |- *. destruct b; cbn in *; by rewrite fn_lookup_insert_ne.
    - rewrite <- Hother. destruct b; cbn in *; by rewrite fn_lookup_insert_ne.
    - by rewrite E, E', app_nil_r.
    - apply others_linked. intros x Hx _. rewrite !fn_lookup_insert_ne; [done|by intros <-|]. intros <-. apply Hx, previous_in. }
  rewrite E in Hhead. cbn in Hhead. pose proof (proj2 (Z.eqb_neq h 0) (proj1 (proj2 Hhh))) as Hh0. wp_step. destruct removal_m as (_ & _ & Hmo & _). pose proof (header_of crs ls Hheaders true) as Htrue. destruct b; cbn in Hhead, Hother.
  - rewrite Hhead, Hh0. cbn [negb]. wp_step. eapply wp_PreviousModule; [exact Hv1|done|]. rewrite Hpm. apply wp_ret. by rewrite Z.eqb_refl.
  - apply (wp_mono _ (fun t s' => t = false /\ s' = s1)).
    + rewrite Hother. destruct (nil_or_cons (ls true)) as [->|(x & y & Ex)]; [done|]. assert (Hx : x ∈ ls true) by (rewrite Ex; left). pose proof (Htrue x Hx) as Hxh.
      rewrite Ex. cbn [hd]. rewrite (proj2 (Z.eqb_neq x 0)) by apply Hxh. cbn [negb]. wp_step. eapply wp_PreviousModule; [exact Hv1|done|]. apply wp_ret. split; [|done].
      cbn in Hlinked'. rewrite Ex in Hlinked'. destruct (linked_ends _ _ _ _ Hlinked') as [-> _]. apply Z.eqb_neq. intros Em. apply Hmo. cbn. rewrite Ex, <- Em. apply last_of_in.
    + intros t s' [-> ->]. cbn [negb]. rewrite Hhead, Hh0. cbn [negb]. wp_step. wp_step. eapply wp_PreviousModule; [exact Hv1|done|]. rewrite Hpm. apply wp_ret. by rewrite Z.eqb_refl.
Qed.
End Neighbours.
End Removal.
(** C16: unregistering a module takes it out of its list, wherever in the list it is, clears its links,
    and changes nothing but the links of the static module and of the modules of that list. *)
Theorem Unregister_removes s (crs m : VAddr) ls (b : bool) l l' :
  registered s crs ls -> ls b = l ++ m :: l' ->
  wp (Unregister m crs) (fun _ s' => registered s' crs (with_list ls b (l ++ l')) /\
    field s' m NextCRO = 0 /\ field s' m PreviousCRO = 0 /\ outside (crs :: ls b) s s') s.
Proof.
  intros [Hs Hh Hnd Hah Hoh Hl] Hlist. set (nx := fun m => field s m NextCRO) in *. set (pv := fun m => field s m PreviousCRO) in *. assert (Hv : view s nx pv) by by apply view_refl.
  assert (Hhead : head_of crs nx pv b = hd 0 (l ++ m :: l')) by (rewrite <- Hlist; by destruct b). assert (Hother : head_of crs nx pv (negb b) = hd 0 (ls (negb b))) by by destruct b.
  pose proof (Hl b) as Hl1. pose proof (Hl (negb b)) as Hl2. rewrite Hlist in Hl1. clear Hl Hah Hoh. clearbody nx pv. clear Hs.
  pose proof (crs_header crs ls Hh) as Hcrs. pose proof (m_header crs m ls b l l' Hh Hlist) as Hm. pose proof (next_of m l l' nx pv Hl1) as Hnext.
  pose proof (not_other_head crs m ls b l l' Hh Hnd Hlist nx pv Hother Hl2) as Hno.
  unfold Unregister. do 4 (wp_step; first [apply (wp_NextModule s nx pv)|apply (wp_PreviousModule s nx pv)]; [done..|]). wp_step.
  apply (wp_mono _ (fun _ s' => unlinked crs ls b l l' s s')); [|intros _ s'; by apply unregister_ends].
  destruct (nil_or_cons l) as [E|(h & q & E)].
  - assert ((m =? nx crs) || (m =? pv crs) = true) as ->; [|by eapply first_removed]. rewrite E in Hhead. destruct b; cbn in Hhead; rewrite Hhead, Z.eqb_refl; [done|apply orb_true_r].
  - assert ((m =? nx crs) || (m =? pv crs) = false) as ->.
    { rewrite E in Hhead. assert (m <> h). { intros <-. destruct (removal_m crs m ls b l l' Hnd Hlist) as (_ & Hml & _). apply Hml. rewrite E. left. }
      destruct b; cbn in *; apply orb_false_iff; rewrite !Z.eqb_neq, Hhead; by split. }
    destruct (nil_or_cons l') as [E'|(h' & q' & E')]; rewrite E' in Hnext; cbn [hd] in Hnext; rewrite Hnext.
    + cbn [Z.eqb negb]. by eapply last_removed.
    + rewrite (proj2 (Z.eqb_neq h' 0)); [by eapply inner_removed|].
      apply (removal_in crs m ls b l l' Hh Hlist). rewrite E'. apply elem_of_app. right. right. left.
Qed.
End Lists.
