(* ===== verification/CroTables.v ===== *)
(** The tables of a module: turning the offsets of the header into addresses and back, and
    finding a symbol by its name. *)

From stdpp Require Import functions.
From S2P Require Import Prelude ResultCode MemoryMap Memory MemoryAccess Cro CroMemory CroLists.

(** A test *)
Lemma wp_guard {S A} (b : bool) (m m' : M S A) Q s : wp m Q s -> (b = false -> wp m' Q s) -> wp (if b then m else m') Q s.
Proof. destruct b; auto. Qed.

Lemma foldl_first {A B} (f : A -> B -> A) a x l : foldl f a (x :: l) = foldl f (f a x) l.
Proof. reflexivity. Qed.

(** ** The header *)

Section Header.
Context {S : Type} `{ProcessMemory S} {dom : Z -> Prop} `{!FlatMemory S dom}.
Implicit Types s : S.
Implicit Types (h : Z -> Z) (this : VAddr).
Abbreviation has_header := (has_header (dom := dom)).

(** The fields of the header are [h]. *)
Definition headed s this h : Prop := good s /\ forall f, is_field f -> field s this f = h f.
(** Only the header of the module may have changed. *)
Definition around this s s' : Prop := forall x, dom x -> x < this + CRO_HASH_SIZE \/ this + CRO_HEADER_SIZE <= x -> byte s' x = byte s x.
#[export] Instance around_preorder this : PreOrder (around this).
Proof. split; [by intros s x|]. intros s1 s2 s3 H1 H2 x Hx Ho. by rewrite H2, H1. Qed.
Definition moved (delta : Z) h (f : Z) : Z -> Z := if h f =? 0 then h else <[f := u32 (h f + delta)]> h.
Lemma wp_move_field s this h delta f Q : has_header this -> headed s this h -> is_field f ->
  (forall s', headed s' this (moved delta h f) -> around this s s' -> Q tt s') -> wp (move_field this delta f) Q s.
Proof.
  intros Hh [Hs Hf] Hi HQ. unfold move_field. wp_step. apply wp_GetField; [done..|]. rewrite Hf by done. unfold moved in HQ. destruct (h f =? 0); cbn [negb].
  - by apply wp_ret, HQ.
  - apply wp_SetField; [done..|apply u32_range|]. intros s' (Hs' & Hn & Ho & Hb). apply HQ.
    + split; [done|]. intros f' Hi'. destruct (decide (f' = f)) as [->|Hne]; [by rewrite fn_lookup_insert|]. rewrite fn_lookup_insert_ne, <- Hf by done. apply Ho; [done..|congruence].
    + intros x Hx Ho'. apply Hb; [done|]. rewrite Field_address by done. unfold is_field, Fix0Barrier, CRO_HASH_SIZE, CRO_HEADER_SIZE in *. lia.
Qed.
Lemma wp_move_fields this delta fs : forall s h Q, has_header this -> headed s this h -> Forall is_field fs ->
  (forall s', headed s' this (foldl (moved delta) h fs) -> around this s s' -> Q tt s') -> wp (for_each fs (move_field this delta)) Q s.
Proof.
  induction fs as [|f fs IH]; intros s h Q Hh Hs Hf HQ; [by apply wp_ret, HQ|]. apply Forall_cons in Hf as [Hf Hfs]. cbn [for_each]. wp_step.
  apply (wp_move_field s this h); [done..|]. intros s1 Hs1 Ho1. apply (IH s1 (moved delta h f)); [done..|]. intros s2 Hs2 Ho2. apply HQ; [done|by etrans].
Qed.
Lemma moved_ne delta h f g : g <> f -> moved delta h f g = h g.
Proof. intros Hne. unfold moved. destruct (h f =? 0); [done|]. by rewrite fn_lookup_insert_ne. Qed.
Lemma moved_eq delta h f : moved delta h f f = if h f =? 0 then 0 else u32 (h f + delta).
Proof. unfold moved. destruct (Z.eqb_spec (h f) 0) as [->|]; [done|]. by rewrite fn_lookup_insert. Qed.
Lemma moved_all delta fs : NoDup fs -> forall h g, foldl (moved delta) h fs g = if bool_decide (g ∈ fs) then (if h g =? 0 then 0 else u32 (h g + delta)) else h g.
Proof.
  induction fs as [|f fs IH]; intros Hnd h g; [done|]. apply NoDup_cons in Hnd as [Hf Hnd]. cbn [foldl]. rewrite IH by done. destruct (decide (g = f)) as [->|Hne].
  - rewrite bool_decide_false, (bool_decide_true (f ∈ _)) by (done || left). apply moved_eq.
  - rewrite moved_ne by done. rewrite (bool_decide_ext (g ∈ f :: fs) (g ∈ fs)); [done|]. rewrite elem_of_cons. naive_solver.
Qed.
(** The fields that are offsets *)
Definition all_offsets : list Z := NameOffset :: offset_fields.
Lemma offset_fields_fields : Forall is_field offset_fields.
Proof. apply Forall_fmap, Forall_seqZ. intros i Hi. cbn. unfold is_field, CodeOffset, Fix0Barrier. lia. Qed.
Lemma all_offsets_fields : Forall is_field all_offsets.
Proof. apply Forall_cons. split; [done|]. apply offset_fields_fields. Qed.
Lemma all_offsets_nodup : NoDup all_offsets.
Proof. apply (bool_decide_unpack _). vm_compute. exact I. Qed.
Lemma moved_name delta h : foldl (moved delta) (moved delta h NameOffset) offset_fields = foldl (moved delta) h all_offsets.
Proof. unfold all_offsets. by rewrite foldl_first. Qed.
(** All the offsets are moved. *)
Definition moves (delta : Z) h : Z -> Z := foldl (moved delta) (moved delta h NameOffset) offset_fields.
Lemma wp_moves {B} s this h delta (k : M S B) Q : has_header this -> headed s this h ->
  (forall s', headed s' this (moves delta h) -> around this s s' -> wp k Q s') ->
  wp (move_field this delta NameOffset ;; for_each offset_fields (move_field this delta) ;; k) Q s.
Proof.
  intros Hh Hs HQ. wp_step. apply (wp_move_field s this h); [done..|]. intros s0 Hs0 Ho0. wp_step.
  apply (wp_move_fields this delta _ s0 (moved delta h NameOffset)); [done..|apply offset_fields_fields|]. intros s1 Hs1 Ho1. apply HQ; [done|by etrans].
Qed.
Lemma wp_UnrebaseHeader s this h Q : has_header this -> headed s this h ->
  (forall s', headed s' this (moves (- this) h) -> around this s s' -> Q tt s') -> wp (UnrebaseHeader this) Q s.
Proof.
  intros Hh Hs HQ. unfold UnrebaseHeader. wp_step. apply (wp_move_field s this h); [done..|]. intros s0 Hs0 Ho0.
  apply (wp_move_fields this (- this) _ s0 (moved (- this) h NameOffset)); [done..|apply offset_fields_fields|]. intros s1 Hs1 Ho1. apply HQ; [done|by etrans].
Qed.
Lemma moves_at delta h g : moves delta h g = if bool_decide (g ∈ all_offsets) then (if h g =? 0 then 0 else u32 (h g + delta)) else h g.
Proof. unfold moves. rewrite moved_name. apply moved_all, all_offsets_nodup. Qed.
Lemma moved_back this h g : is_u32 (h g) -> (g ∈ all_offsets -> h g = 0 \/ u32 (h g + this) <> 0) ->
  moves (- this) (moves this h) g = h g.
Proof.
  intros Hu Hz. rewrite !moves_at. destruct (bool_decide_reflect (g ∈ all_offsets)) as [Hin _]. destruct (bool_decide (g ∈ all_offsets)); [|done]. specialize (Hz (Hin eq_refl)). destruct (Z.eqb_spec (h g) 0) as [->|Hne]; [done|].
  destruct (Z.eqb_spec (u32 (h g + this)) 0); [by destruct Hz|]. unfold u32, is_u32 in *. rewrite Zplus_mod_idemp_l. rewrite <- (Z.mod_small (h g) 4294967296) at 2 by done. f_equal. lia.
Qed.
(** The offsets that are checked do not decrease. *)
Lemma wp_in_order this fs : forall s h prev Q, has_header this -> headed s this h -> Forall is_field fs ->
  (forall b, (b = true -> Forall (fun f => h f <= h (List.last fs CodeOffset)) fs /\ Forall (fun f => prev <= h f) fs) -> Q b s) -> wp (in_order this prev fs) Q s.
Proof.
  induction fs as [|f fs IH]; intros s h prev Q Hh Hs Hf HQ; [by apply wp_ret, HQ|]. apply Forall_cons in Hf as [Hf Hfs]. cbn [in_order]. wp_step.
  apply wp_GetField; [apply Hs|done..|]. rewrite (proj2 Hs) by done. case_bool; [by apply wp_ret, HQ|]. apply (IH s h); [done..|]. intros b Hb. apply HQ. intros E. destruct (Hb E) as [H1 H2].
  split; apply Forall_cons; split; [|destruct fs; [constructor|done]|lia|by eapply Forall_impl; [exact H2|cbn; lia]].
  destruct fs as [|g fs]; [cbn; lia|]. change (List.last (f :: g :: fs) CodeOffset) with (List.last (g :: fs) CodeOffset). apply Forall_cons in H1 as [H1 _]. apply Forall_cons in H2 as [H2 _]. lia.
Qed.
(** The tables end in the file; the end of a table is computed on 32 bits. *)
Lemma wp_in_file this file_end ts : forall s h Q, has_header this -> headed s this h -> Forall (fun t => is_field t.1 /\ is_field (t.1 + 1)) ts ->
  (forall b, (b = true <-> Forall (fun t => u32 (h t.1 + h (t.1 + 1) * t.2) <= file_end) ts) -> Q b s) -> wp (in_file this file_end ts) Q s.
Proof.
  induction ts as [|[f z] ts IH]; intros s h Q Hh Hs Hf HQ; [by apply wp_ret, HQ|]. apply Forall_cons in Hf as [[Hf Hf1] Hfs]. cbn [in_file]. cbn in Hf, Hf1. wp_step.
  apply wp_GetField; [apply Hs|done..|]. wp_step. apply wp_GetField; [apply Hs|done..|]. rewrite !(proj2 Hs) by done. case_bool.
  - apply wp_ret, HQ. split; [done|]. intros [H1 _]%Forall_cons. cbn in H1. lia.
  - apply (IH s h); [done..|]. intros b Hb. apply HQ. rewrite Hb, Forall_cons. cbn. split; [|tauto]. split; [lia|done].
Qed.
End Header.

(** ** The round trip of the header *)

Lemma word_inj f g a : (forall k, 0 <= k < 4 -> is_byte (f (a + k)) /\ is_byte (g (a + k))) -> word f a = word g a -> forall k, 0 <= k < 4 -> f (a + k) = g (a + k).
Proof.
  intros Hb. unfold word. rewrite !seqZ_cons, seqZ_nil by lia. cbn [fmap list_fmap le_decode]. pose proof (Hb 0 ltac:(lia)) as H0. pose proof (Hb 1 ltac:(lia)) as H1.
  pose proof (Hb 2 ltac:(lia)) as H2. pose proof (Hb 3 ltac:(lia)) as H3. rewrite Z.add_0_r in H0. unfold is_byte in *. intros E k Hk.
  replace (Z.succ a) with (a + 1) in E by lia. replace (Z.succ (a + 1)) with (a + 2) in E by lia. replace (Z.succ (a + 2)) with (a + 3) in E by lia.
  assert (k = 0 \/ k = 1 \/ k = 2 \/ k = 3) as [->|[->|[->| ->]]] by lia; rewrite ?Z.add_0_r; lia.
Qed.
Section Header.
Context {S : Type} `{ProcessMemory S} {dom : Z -> Prop} `{!FlatMemory S dom}.
Implicit Types (s : S) (this : VAddr).
Abbreviation has_header := (has_header (dom := dom)).
Lemma header_bytes this s s' : good s -> good s' -> has_header this -> (forall f, is_field f -> field s' this f = field s this f) -> around this s s' ->
  forall x, dom x -> byte s' x = byte s x.
Proof.
  intros Hs Hs' Hh Hf Ho x Hx. destruct (decide (x < this + CRO_HASH_SIZE)); [apply Ho; auto|]. destruct (decide (this + CRO_HEADER_SIZE <= x)); [apply Ho; auto|].
  unfold CRO_HASH_SIZE, CRO_HEADER_SIZE in *. set (f := (x - this - 0x80) / 4). set (k := (x - this - 0x80) mod 4).
  assert (Hi : is_field f) by (unfold is_field, Fix0Barrier; subst f; Z.to_euclidean_division_equations; lia). pose proof (Hf f Hi) as Hfw. unfold field in Hfw.
  assert (Hx' : x = Field this f + k) by (rewrite Field_address by done; unfold CRO_HASH_SIZE; subst f k; Z.to_euclidean_division_equations; lia).
  destruct (field_covers this f Hh Hi) as [Hc _]. rewrite Hx'. eapply word_inj; [|exact Hfw|subst k; apply Z.mod_pos_bound; lia].
  intros i Hik. split; (apply flat_byte; [done|apply Hc; lia]).
Qed.
Lemma offsets_ordered f : f ∈ offset_fields -> f = CodeOffset \/ f ∈ tail OFFSET_ORDER.
Proof.
  intros Hf. assert (Ha : Forall (fun f => f = CodeOffset \/ f ∈ tail OFFSET_ORDER) offset_fields) by (apply (bool_decide_unpack _); vm_compute; exact I).
  by apply (proj1 (Forall_forall _ _) Ha).
Qed.
Lemma order_fields : Forall is_field (tail OFFSET_ORDER).
Proof. cbn. repeat (apply Forall_cons; split; [done|]). apply Forall_nil_2. Qed.
Lemma table_fields : Forall (fun t : Z * Z => is_field t.1 /\ is_field (t.1 + 1)) (zip offset_fields ENTRY_SIZE).
Proof. apply (bool_decide_unpack _). vm_compute. exact I. Qed.
(** What the header says before it is moved *)
Definition header_checked s this : Prop :=
  field s this Magic = MAGIC_CRO0 /\ field s this NextCRO = 0 /\ field s this PreviousCRO = 0 /\ field s this FixedSize = 0 /\
  field s this FileSize <= 0x10000000 /\ field s this BssSize <= 0x10000000 /\ CRO_HEADER_SIZE <= field s this CodeOffset.
End Header.

(** * Symbols

    Finding the symbols that modules export, and writing their addresses to the places that
    refer to them. *)



Lemma le_decode_nonneg l : Forall is_byte l -> 0 <= le_decode l.
Proof. induction 1 as [|b l Hb Hl IH]; cbn [le_decode]; unfold is_byte in *; lia. Qed.

Lemma decoded_word l : Forall is_byte l -> le_encode (length l) (le_decode l) = l.
Proof.
  induction 1 as [|b l Hb Hl IH]; [done|]. cbn [length le_encode le_decode]. unfold is_byte in Hb. f_equal.
  - rewrite Z.mul_comm, Z_mod_plus_full. by apply Z.mod_small.
  - rewrite Z.mul_comm, Z_div_plus_full by lia. rewrite Z.div_small by done. exact IH.
Qed.
Lemma encode_marked l v : length l = 12%nat -> Forall is_byte l -> encode ((decode l : RelocationEntry) <| is_batch_resolved := v |>) = <[6%nat := v]> l.
Proof.
  intros Hl Hb. do 12 (destruct l as [|? l]; [discriminate|]). destruct l; [|discriminate]. cbn. unfold word_at. cbn [Nat.mul Nat.add drop take].
  rewrite !Forall_cons in Hb. destruct_and!.
  pose proof (decoded_word [z; z0; z1; z2] ltac:(by repeat (apply Forall_cons_2; [done|]))) as E1. pose proof (decoded_word [z7; z8; z9; z10] ltac:(by repeat (apply Forall_cons_2; [done|]))) as E2.
  cbn in E1, E2. injection E1 as E10 E11 E12 E13. injection E2 as E20 E21 E22 E23. by rewrite E10, E11, E12, E13, E20, E21, E22, E23.
Qed.

(** ** The tree of exported names *)

Inductive tree := Leaf (id : Z) | Node (bit : Z) (l r : tree).
Fixpoint walk (t : tree) (name : list Z) : Z :=
  match t with Leaf id => id | Node bit l r => walk (if bit_of_name name bit then r else l) name end.
Fixpoint height (t : tree) : nat := match t with Leaf _ => O | Node _ l r => S (Nat.max (height l) (height r)) end.

Section Symbols.
Context {S : Type} `{ProcessMemory S} {dom : Z -> Prop} `{!FlatMemory S dom}.
Implicit Types (s : S) (this : VAddr).
Abbreviation has_header := (has_header (dom := dom)).
Variable fuel : nat.

(** Tables in memory *)
Definition entry_at s (addr : VAddr) (T : Type) `{Entry T} : T := decode (byte s <$> seqZ addr (sizeof T)).
Definition entry s this (T : Type) `{Entry T} (i : Z) : T := entry_at s (field s this (TABLE_OFFSET_FIELD T) + i * sizeof T) T.
Definition has_table s this (T : Type) `{Entry T} (n : Z) : Prop :=
  0 <= sizeof T /\ is_field (TABLE_OFFSET_FIELD T) /\ covers dom (field s this (TABLE_OFFSET_FIELD T)) (n * sizeof T).
Lemma read_entry_good s addr (T : Type) `{Entry T} : good s -> 0 <= sizeof T -> covers dom addr (sizeof T) -> read_entry (T := T) addr s = Ret (entry_at s addr T, s).
Proof. intros Hs Hz Hc. unfold read_entry, mbind, M_bind. by rewrite flat_read_block. Qed.
Lemma GetEntry_good s this (T : Type) `{Entry T} i n : good s -> has_header this -> has_table s this T n -> 0 <= i < n -> 0 < sizeof T ->
  GetEntry (T := T) this i s = Ret (entry s this T i, s).
Proof.
  intros Hs Hh (Hz & Hf & Hc) Hi Hp. unfold GetEntry, mbind, M_bind. rewrite GetField_good by done. set (table := field s this (TABLE_OFFSET_FIELD T)) in *.
  assert (Ha : entry_address table T i = table + i * sizeof T).
  { unfold entry_address. pose proof (flat_dom (table + i * sizeof T) ltac:(apply Hc; nia)) as Hu. pose proof (flat_dom table ltac:(apply Hc; nia)) as Hu'. unfold is_u32 in *.
    rewrite (u32_small (i * sizeof T)) by (unfold is_u32; nia). by apply u32_small. }
  rewrite Ha. apply read_entry_good; [done..|]. intros x Hx. apply Hc. nia.
Qed.

(** [SegmentTagToAddress] *)
Definition tag_address s this (tag : Z) : VAddr :=
  if field s this SegmentNum <=? segment_index tag then 0
  else let e := entry s this SegmentEntry (segment_index tag) in if size e <=? offset_into_segment tag then 0 else u32 (offset e + offset_into_segment tag).
Definition has_segments s this : Prop := good s /\ has_header this /\ has_table s this SegmentEntry (field s this SegmentNum).
Lemma SegmentTagToAddress_good s this tag : has_segments s this -> SegmentTagToAddress this tag s = Ret (tag_address s this tag, s).
Proof.
  intros (Hs & Hh & Ht). unfold SegmentTagToAddress, mbind, M_bind. rewrite GetField_good by done. unfold tag_address. destruct (Z.leb_spec (field s this SegmentNum) (segment_index tag)); [done|].
  rewrite (GetEntry_good s this SegmentEntry (segment_index tag) (field s this SegmentNum)); [|done..| |done].
  - by destruct (size _ <=? _).
  - split; [|done]. unfold segment_index, ExtractValue. apply Z.land_nonneg. right. done.
Qed.

(** A child of the tree in memory is [t]. *)
Inductive represents s this : Z -> tree -> Prop :=
  | represents_leaf c : next_index c < field s this ExportTreeNum -> is_end c = true ->
      represents s this c (Leaf (export_table_index (entry s this ExportTreeEntry (next_index c))))
  | represents_node c l r : next_index c < field s this ExportTreeNum -> is_end c = false ->
      represents s this (left (entry s this ExportTreeEntry (next_index c))) l -> represents s this (right (entry s this ExportTreeEntry (next_index c))) r ->
      represents s this c (Node (test_bit (entry s this ExportTreeEntry (next_index c))) l r).
Definition has_tree s this : Prop := good s /\ has_header this /\ has_table s this ExportTreeEntry (field s this ExportTreeNum).
Lemma next_index_nonneg c : 0 <= next_index c.
Proof. unfold next_index, ExtractValue. apply Z.land_nonneg. by right. Qed.
Lemma tree_loop_walks s this name c t : has_tree s this -> represents s this c t -> forall k, (height t < k)%nat -> tree_loop k this name c s = Ret (walk t name, s).
Proof.
  intros (Hs & Hh & Ht). induction 1 as [c Hc He|c l r Hc He Hl IHl Hr IHr]; intros [|k] Hk; cbn [height] in Hk; try lia; cbn [tree_loop]; unfold mbind, M_bind;
    rewrite (GetEntry_good s this ExportTreeEntry _ (field s this ExportTreeNum)) by (done || (split; [apply next_index_nonneg|done])); rewrite He.
  - done.
  - cbn [walk]. destruct (bit_of_name name _); [apply IHr|apply IHl]; lia.
Qed.

(** The module exports symbols with these names; the tree leads each name to its symbol. *)
Record exports s this (t : tree) (names : list (list Z)) : Prop := {
  ex_tree : has_tree s this;
  ex_root : 0 < field s this ExportTreeNum;
  ex_represents : represents s this (left (entry s this ExportTreeEntry 0)) t;
  ex_symbols : field s this ExportNamedSymbolNum = Z.of_nat (length names) /\ has_table s this ExportNamedSymbolEntry (Z.of_nat (length names));
  ex_names id name : names !! id = Some name -> let o := exported_name_offset (entry s this ExportNamedSymbolEntry (Z.of_nat id)) in
    covers dom o (field s this ExportStringsSize) /\ cstring (byte s) o (Z.to_nat (field s this ExportStringsSize)) = name;
  ex_leads id name : names !! id = Some name -> walk t name = Z.of_nat id;
  ex_segments : has_segments s this;
}.
Definition symbol_address s this (names : list (list Z)) (name : list Z) : VAddr :=
  match list_find (eq name) names with
  | Some (id, _) => tag_address s this (exported_position (entry s this ExportNamedSymbolEntry (Z.of_nat id)))
  | None => 0
  end.
Lemma entry_bytes s this (T : Type) `{Entry T} n i : good s -> has_table s this T n -> 0 <= i < n ->
  Forall is_byte (byte s <$> seqZ (field s this (TABLE_OFFSET_FIELD T) + i * sizeof T) (sizeof T)).
Proof. intros Hs (Hz & _ & Hc) Hi. apply Forall_fmap, Forall_seqZ. intros x Hx. apply flat_byte; [done|]. apply Hc. nia. Qed.
Lemma walk_nonneg s this c t name : has_tree s this -> represents s this c t -> 0 <= walk t name.
Proof.
  intros (Hs & _ & Ht). induction 1 as [c Hc He|c l r Hc He Hl IHl Hr IHr]; cbn [walk]; [|by destruct (bit_of_name _ _)].
  apply le_decode_nonneg, Forall_take, Forall_drop, (entry_bytes s this ExportTreeEntry (field s this ExportTreeNum)); [done..|]. split; [apply next_index_nonneg|done].
Qed.
Lemma FindExportNamedSymbol_good s this t names name : exports s this t names -> (height t < fuel)%nat ->
  FindExportNamedSymbol fuel this name s = Ret (symbol_address s this names name, s).
Proof.
  intros [Ht Hr Hrep [Hn Hsym] Hnames Hleads Hseg] Hfuel. pose proof (walk_nonneg _ _ _ _ name Ht Hrep) as Hw. destruct Ht as (Hs & Hh & Htab).
  unfold FindExportNamedSymbol, mbind, M_bind. rewrite GetField_good by done. rewrite (proj2 (Z.eqb_neq _ 0)) by lia.
  rewrite (GetEntry_good s this ExportTreeEntry 0 (field s this ExportTreeNum)) by (done || lia). rewrite (tree_loop_walks s this name _ t) by done.
  rewrite GetField_good by done. rewrite Hn. unfold symbol_address. destruct (Z.leb_spec (Z.of_nat (length names)) (walk t name)) as [Hge|Hlt].
  - destruct (list_find (eq name) names) as [[id x]|] eqn:E; [|done]. apply list_find_Some in E as (Hid & <- & _). apply Hleads in Hid as Hl. apply lookup_lt_Some in Hid. lia.
  - destruct (lookup_lt_is_Some_2 names (Z.to_nat (walk t name))) as [found Hfound]; [lia|]. destruct (Hnames _ _ Hfound) as [Hc Hstr]. rewrite Z2Nat.id in Hc, Hstr by done.
    rewrite GetField_good by done. rewrite (GetEntry_good s this ExportNamedSymbolEntry _ (Z.of_nat (length names))) by (done || lia).
    rewrite flat_cstring by (done || apply field_u32; done). rewrite Hstr. destruct (decide (found = name)) as [->|Hne].
    + rewrite bool_decide_true by done. cbn [negb]. destruct (list_find (eq name) names) as [[id x]|] eqn:E.
      * apply list_find_Some in E as (Hid & <- & _). apply Hleads in Hid. rewrite <- Hid. by apply SegmentTagToAddress_good.
      * eapply list_find_None, Forall_lookup_1 in E; [|exact Hfound]. done.
    + rewrite bool_decide_false by done. cbn [negb]. destruct (list_find (eq name) names) as [[id x]|] eqn:E; [|done].
      apply list_find_Some in E as (Hid & <- & _). apply Hleads in Hid as Hl. rewrite Hl, Nat2Z.id, Hid in Hfound. by injection Hfound as <-.
Qed.

(** *** Relocations *)

(** What a relocation writes, and where *)
Definition target s this (e : RelocationEntry) : VAddr := tag_address s this (target_position e).
Definition relocated (e : RelocationEntry) (symbol_address tgt : VAddr) : Z :=
  if relocation_type e =? RelocationType.RelativeAddress then u32 (symbol_address + addend e - tgt) else u32 (symbol_address + addend e).
Definition is_implemented (e : RelocationEntry) : Prop := relocation_type e ∈ [RelocationType.AbsoluteAddress; RelocationType.AbsoluteAddress2; RelocationType.RelativeAddress].
Definition patch s this (symbol_address : VAddr) (f : Z -> Z) (e : RelocationEntry) : Z -> Z :=
  overlay f (target s this e) (le_encode 4 (relocated e symbol_address (target s this e))).
(** The batch of relocations at an address: its last one says that it is the last. *)
Fixpoint batch_at s (addr : VAddr) (es : list RelocationEntry) : Prop :=
  match es with
  | [] => False
  | e :: es => covers dom addr (sizeof RelocationEntry) /\ entry_at s addr RelocationEntry = e /\
      match es with [] => is_batch_end e <> 0 | _ => is_batch_end e = 0 /\ batch_at s (addr + sizeof RelocationEntry) es end
  end.
(** What relocating reads: the header and the segments of the module, and the batch *)
Definition read_by s this (batch : VAddr) (n : nat) (x : Z) : Prop :=
  this <= x < this + CRO_HEADER_SIZE \/
  field s this SegmentTableOffset <= x < field s this SegmentTableOffset + field s this SegmentNum * sizeof SegmentEntry \/
  batch <= x < batch + Z.of_nat n * sizeof RelocationEntry.
(** The place a relocation refers to is a word that relocating does not read. *)
Definition placed s this batch n (e : RelocationEntry) : Prop :=
  is_implemented e /\ target s this e <> 0 /\ target s this e mod 4 = 0 /\ covers dom (target s this e) 4 /\
  forall x, target s this e <= x < target s this e + 4 -> ~ read_by s this batch n x.
Definition same_read s this batch n s' : Prop := good s' /\ forall x, dom x -> read_by s this batch n x -> byte s' x = byte s x.
Lemma same_field s this batch n s' f : has_header this -> is_field f -> same_read s this batch n s' -> field s' this f = field s this f.
Proof.
  intros Hh Hf [_ Hb]. unfold field. apply word_ext. intros x Hx. destruct (field_covers this f Hh Hf) as [Hc _]. apply Hb; [by apply Hc|]. left.
  rewrite Field_address in Hx by done. unfold is_field, Fix0Barrier, CRO_HASH_SIZE, CRO_HEADER_SIZE in *. lia.
Qed.
Lemma bytes_ext s s' a n : (forall x, a <= x < a + n -> byte s' x = byte s x) -> byte s' <$> seqZ a n = byte s <$> seqZ a n.
Proof. intros E. apply list_fmap_ext. intros i x Hx. apply lookup_seqZ in Hx as [-> Hi]. apply E. lia. Qed.
Lemma same_segments s this batch n s' : has_segments s this -> same_read s this batch n s' ->
  has_segments s' this /\ (forall tag, tag_address s' this tag = tag_address s this tag).
Proof.
  intros (Hs & Hh & Ht) Hr. pose proof (same_field s this batch n s' SegmentNum Hh ltac:(done) Hr) as En. pose proof (same_field s this batch n s' SegmentTableOffset Hh ltac:(done) Hr) as Et.
  destruct Ht as (Hz & Hf & Hc). cbn in Hf, Hc. split.
  - split; [apply Hr|]. split; [done|]. split; [done|]. split; [done|]. cbn. by rewrite En, Et.
  - intros tag. unfold tag_address. rewrite En. destruct (Z.leb_spec (field s this SegmentNum) (segment_index tag)); [done|].
    assert (entry s' this SegmentEntry (segment_index tag) = entry s this SegmentEntry (segment_index tag)) as ->; [|done].
    unfold entry, entry_at. f_equal. cbn [TABLE_OFFSET_FIELD segment_entry sizeof]. rewrite Et. apply bytes_ext. intros x Hx.
    assert (0 <= segment_index tag) by (unfold segment_index, ExtractValue; apply Z.land_nonneg; by right).
    apply Hr; [apply Hc; lia|right; left; cbn; lia].
Qed.
Lemma same_batch s s' es : forall addr, (forall x, dom x -> addr <= x < addr + Z.of_nat (length es) * sizeof RelocationEntry -> byte s' x = byte s x) -> batch_at s addr es -> batch_at s' addr es.
Proof.
  induction es as [|e es IH]; intros addr Hb; [done|]. cbn [batch_at length] in *. intros (Hc & He & Hrest). split; [done|]. split.
  - rewrite <- He. unfold entry_at. f_equal. apply bytes_ext. intros x Hx. cbn in Hx. apply Hb; [apply Hc; cbn; lia|cbn; lia].
  - destruct es as [|e' es]; [done|]. destruct Hrest as [H0 Hrest]. split; [done|]. apply IH; [|done]. intros x Hx Hr. apply Hb; [done|]. cbn [sizeof external_relocation_entry length] in *. lia.
Qed.
Lemma overlay_ext (f g : Z -> Z) a l x : f x = g x -> overlay f a l x = overlay g a l x.
Proof. intros E. unfold overlay. by destruct (_ && _). Qed.
Lemma patches_ext s s' this sym es : (forall tag, tag_address s' this tag = tag_address s this tag) -> forall (f g : Z -> Z) x, f x = g x ->
  foldl (patch s' this sym) f es x = foldl (patch s this sym) g es x.
Proof.
  intros Et. induction es as [|e es IH]; intros f g x E; [done|]. cbn [foldl]. apply IH. unfold patch, target. rewrite Et. by apply overlay_ext.
Qed.
Lemma wp_relocate s a v Q : good s -> a mod 4 = 0 -> covers dom a 4 ->
  (forall s', good s' -> (forall x, dom x -> byte s' x = overlay (byte s) a (le_encode 4 v) x) -> Q RESULT_SUCCESS s') -> wp (relocate a v) Q s.
Proof.
  intros Hs Ha Hc HQ. unfold relocate. wp_step. eapply wp_mono; [by apply flat_write32|]. cbn beta. intros [] s1 [Hs1 Hb1]. wp_step.
  eapply wp_mono; [by apply flat_invalidate|]. cbn beta. intros [] s2 [Hs2 Hb2]. apply wp_ret, HQ; [done|]. intros x Hx. by rewrite Hb2, Hb1.
Qed.
Lemma wp_ApplyRelocation s e a sym Q : good s -> is_implemented e -> a mod 4 = 0 -> covers dom a 4 ->
  (forall s', good s' -> (forall x, dom x -> byte s' x = overlay (byte s) a (le_encode 4 (relocated e sym a)) x) -> Q RESULT_SUCCESS s') ->
  wp (ApplyRelocation a (relocation_type e) (addend e) sym a) Q s.
Proof.
  intros Hs Hi Ha Hc HQ. unfold ApplyRelocation, is_absolute. unfold relocated in HQ. unfold is_implemented in Hi. rewrite !elem_of_cons, elem_of_nil in Hi.
  destruct Hi as [E|[E|[E|[]]]]; rewrite E in *; apply wp_relocate; auto.
Qed.
Lemma same_read_by s this batch n s' x : has_segments s this -> same_read s this batch n s' -> read_by s' this batch n x <-> read_by s this batch n x.
Proof. intros (_ & Hh & _) Hr. unfold read_by. by rewrite !(same_field s this batch n s'). Qed.
Lemma same_placed s this batch n s' e : has_segments s this -> same_read s this batch n s' -> placed s this batch n e -> placed s' this batch n e.
Proof.
  intros Hseg Hr. destruct (same_segments s this batch n s' Hseg Hr) as [_ Et]. unfold placed, target. rewrite Et. intros (H1 & H2 & H3 & H4 & H5). do 4 (split; [done|]).
  intros x Hx Hrx. by apply (H5 x Hx), (same_read_by s this batch n s').
Qed.
Lemma same_read_trans s this batch n s1 s2 : has_segments s this -> same_read s this batch n s1 -> same_read s1 this batch n s2 -> same_read s this batch n s2.
Proof. intros Hseg H1 [Hs2 H2]. split; [done|]. intros x Hx Hr. rewrite H2; [by apply H1|done|]. by apply (same_read_by s this batch n s1). Qed.
Lemma wp_batch_loop this (batch sym : VAddr) n es : forall s k addr Q, has_segments s this -> batch_at s addr es -> batch <= addr -> addr + Z.of_nat (length es) * sizeof RelocationEntry <= batch + Z.of_nat n * sizeof RelocationEntry ->
  Forall (placed s this batch n) es -> (length es <= k)%nat ->
  (forall s', same_read s this batch n s' -> (forall x, dom x -> byte s' x = foldl (patch s this sym) (byte s) es x) -> Q RESULT_SUCCESS s') ->
  wp (batch_loop k this addr sym) Q s.
Proof.
  induction es as [|e es IH]; intros s k addr Q Hseg Hb Hlo Hhi Hp Hk HQ; [done|]. destruct k as [|k]; [cbn in Hk; lia|]. cbn [batch_at batch_loop] in *.
  destruct Hb as (Hc & He & Hrest). pose proof Hseg as (Hs & Hh & _). apply Forall_cons in Hp as [(Hi & Hz & Ha & Ht & Hout) Hp]. cbn [length sizeof external_relocation_entry] in *.
  wp_step. eapply wp_intro; [by apply read_entry_good|]. rewrite He. wp_step. eapply wp_intro; [by apply SegmentTagToAddress_good|]. fold (target s this e). rewrite (proj2 (Z.eqb_neq _ _)) by done.
  wp_step. apply wp_ApplyRelocation; [done..|]. intros s1 Hs1 Hb1. cbn [IsError negb]. 
  assert (Hr : same_read s this batch n s1).
  { split; [done|]. intros x Hx Hrx. rewrite Hb1 by done. apply overlay_out. rewrite length_le_encode. destruct (decide (target s this e <= x < target s this e + 4)) as [Hin|]; [by apply Hout in Hin|lia]. }
  assert (Hpatch : forall x, dom x -> byte s1 x = patch s this sym (byte s) e x) by done. cbn [foldl] in HQ.
  destruct es as [|e' es].
  - rewrite (proj2 (Z.eqb_neq _ _)) by done. cbn [negb]. apply wp_ret, HQ; [done|]. intros x Hx. by apply Hpatch.
  - destruct Hrest as [He0 Hrest]. rewrite He0. cbn [Z.eqb negb]. cbn [length] in *.
    assert (Hnext : u32 (addr + 12) = addr + 12) by (apply u32_small, flat_dom; destruct Hrest as (Hc' & _); apply Hc'; cbn; lia). rewrite Hnext.
    destruct (same_segments s this batch n s1 Hseg Hr) as [Hseg1 Et]. apply (IH s1 k (addr + 12)); [done| |lia|lia| |lia|].
    + apply (same_batch s); [|done]. intros x Hx Hrx. apply Hr; [done|]. right. right. cbn [sizeof external_relocation_entry length] in *. lia.
    + eapply Forall_impl; [exact Hp|]. intros e0. by apply same_placed.
    + intros s2 Hr2 Hb2. apply HQ; [by eapply same_read_trans|]. intros x Hx. rewrite Hb2 by done. apply patches_ext; [done|]. by apply Hpatch.
Qed.
Lemma mark_overlay s addr v x : good s -> covers dom addr (sizeof RelocationEntry) ->
  overlay (byte s) addr (encode ((entry_at s addr RelocationEntry) <| is_batch_resolved := v |>)) x = overlay (byte s) (addr + 6) [v] x.
Proof.
  intros Hs Hc. unfold entry_at. rewrite encode_marked; [|by rewrite length_fmap, length_seqZ|apply Forall_fmap, Forall_seqZ; intros y Hy; apply flat_byte; [done|by apply Hc]].
  unfold overlay. rewrite length_insert, length_fmap, length_seqZ. cbn [sizeof external_relocation_entry length]. change (Z.of_nat (Z.to_nat 12)) with 12. change (Z.of_nat 1) with 1.
  destruct (decide (addr <= x < addr + 12)) as [Hx|Hx]; [|rewrite !in_range_false by lia; done]. rewrite in_range_true by lia. destruct (decide (x = addr + 6)) as [->|Hne].
  - rewrite in_range_true by lia. replace (Z.to_nat (addr + 6 - addr)) with 6%nat by lia. rewrite Z.sub_diag. by rewrite list_lookup_insert_eq by (rewrite length_fmap, length_seqZ; lia).
  - rewrite in_range_false by lia. rewrite list_lookup_insert_ne by lia. rewrite list_lookup_fmap, lookup_seqZ_lt by lia. cbn. f_equal. lia.
Qed.

(** *** The modules in turn *)

Fixpoint follows s (l : list VAddr) : Prop := match l with [] => True | m :: l' => field s m NextCRO = hd 0 l' /\ follows s l' end.
Lemma chain_follows s pv p l : chain (fun m => field s m NextCRO) pv p l 0 -> follows s l.
Proof. revert p. induction l as [|m l IH]; intros p; [done|]. cbn. intros (_ & Hn & Hc). split; [done|]. by eapply IH. Qed.
Lemma registered_follows s crs ls : registered (dom := dom) s crs ls -> good s /\ Forall has_header (crs :: ls true) /\ follows s (crs :: ls true).
Proof.
  intros [Hs Hh _ Hn _ Hl]. split; [done|]. apply Forall_cons in Hh as [Hc Hh]. apply Forall_app in Hh as [Hh _]. split; [by constructor|]. split; [done|].
  eapply chain_follows, (Hl true).
Qed.
(** The modules of the list are visited until the function is done with one. *)
Definition stop_at (m : M S result_code) : M S result_code := c ← m; mret (if IsError c then c else RESULT_SUCCESS).
Lemma auto_link_loop_finds s (P : VAddr -> Prop) `{forall m, Decision (P m)} (func : VAddr -> M S (ResultVal bool)) (f : VAddr -> M S result_code) l : good s -> Forall has_header l -> follows s l ->
  (forall m, m ∈ l -> func m s = if decide (P m) then then_go false (f m) s else Ret (Success true, s)) -> forall k, (length l < k)%nat ->
  auto_link_loop k (hd 0 l) func s = match list_find P l with Some (_, m) => stop_at (f m) s | None => Ret (RESULT_SUCCESS, s) end.
Proof.
  intros Hs. induction l as [|m l IH]; intros Hh Hf Hfunc [|k] Hk; cbn [length] in Hk; try lia; [done|]. cbn [hd auto_link_loop list_find].
  apply Forall_cons in Hh as [Hm Hh]. destruct Hf as [Hn Hf]. rewrite (proj2 (Z.eqb_neq m 0)) by apply Hm. unfold mbind at 1, M_bind at 1. rewrite Hfunc by left. destruct (decide (P m)).
  - unfold then_go, stop_at, mbind, M_bind. destruct (f m s) as [[c s']|]; [|done]. cbn. by destruct (IsError c).
  - cbn [negb]. unfold mbind at 1, M_bind at 1. unfold NextModule. rewrite GetField_good by done. rewrite Hn. rewrite IH; [|done|done| |lia].
    + destruct (list_find P l) as [[i x]|]; done.
    + intros x Hx. apply Hfunc. by right.
Qed.
(** C17: a symbol is looked for in the static module and then in the modules of the list, in the order in
    which they were registered; the relocations of the symbol get the address it has in the
    first module that exports it, and none is written if there is no such module. *)
Theorem import_symbol_resolves s this (crs : VAddr) ls (t : VAddr -> tree) (names : VAddr -> list (list Z)) (strings_size : Z) (e : ImportNamedSymbolEntry) (name : list Z) :
  registered (dom := dom) s crs ls -> (forall m, m ∈ crs :: ls true -> exports s m (t m) (names m) /\ (height (t m) < fuel)%nat) -> (length (crs :: ls true) < fuel)%nat ->
  0 <= strings_size -> covers dom (imported_name_offset e) strings_size -> cstring (byte s) (imported_name_offset e) (Z.to_nat strings_size) = name ->
  import_symbol fuel this crs strings_size e s =
    match list_find (fun m => symbol_address s m (names m) name <> 0) (crs :: ls true) with
    | Some (_, m) => stop_at (ApplyRelocationBatch fuel this (named_batch e) (symbol_address s m (names m) name) false) s
    | None => Ret (RESULT_SUCCESS, s)
    end.
Proof.
  intros Hr Hex Hk Hz Hc Hname. destruct (registered_follows s crs ls Hr) as (Hs & Hh & Hf). unfold import_symbol, ForEachAutoLinkCRO.
  apply (auto_link_loop_finds s _ _ (fun m => ApplyRelocationBatch fuel this (named_batch e) (symbol_address s m (names m) name) false) (crs :: ls true)); [done..| |done].
  intros m Hm. unfold mbind, M_bind. rewrite flat_cstring, Hname by done. destruct (Hex m Hm) as [Hx Ht]. rewrite (FindExportNamedSymbol_good s m (t m) (names m)) by done.
  destruct (decide (symbol_address s m (names m) name <> 0)) as [Hne|He].
  - by rewrite (proj2 (Z.eqb_neq _ _)) by done.
  - assert (symbol_address s m (names m) name = 0) as -> by (destruct (decide (symbol_address s m (names m) name = 0)); [done|by destruct He]). done.
Qed.
End Symbols.
