(* ===== verification/CroDemo.v ===== *)
(** Three pages of the memory of a process: the memory in which the theorems on the loader of
    modules are applied. *)

From S2P Require Import Prelude ResultCode MemoryMap Memory MemoryAccess Cro CroMemory CroLists CroTables.

#[local] Existing Instance demo_host.
#[local] Existing Instance demo_devices.

Definition demo_pages : PageTable :=
  foldr (fun i t => set_pointer (0x100 + i) (Some (FcramMem, 0x5000 + i * 0x1000)) (set_attribute (0x100 + i) MemoryPage t)) new_PageTable [0; 1; 2].
Definition demo_dom (x : Z) : Prop := 0x100000 <= x < 0x103000.
(** Words at addresses; the rest is zero. *)
Definition word_byte (ws : list (Z * Z)) (x : Z) : Z :=
  match list_find (fun w => w.1 <= x < w.1 + 4) ws with Some (_, w) => (w.2 / 256 ^ (x - w.1)) mod 256 | None => 0 end.
Definition demo_system (ws : list (Z * Z)) : MemorySystem unit * unit :=
  (mkMemorySystem (fun b i => if bool_decide (b = FcramMem) then word_byte ws (i - 0x5000 + 0x100000) else 0)
    {[ 0 := demo_pages ]} (Some 0) ∅ [0] true 0 [] tt, tt).
Definition demo_invalidate (_ _ : Z) (w : unit) : unit := w.
#[export] Instance demo_process : ProcessMemory (MemorySystem unit * unit) := process_memory 0 demo_invalidate.

Lemma demo_page x : demo_dom x -> x / CITRA_PAGE_SIZE = 256 \/ x / CITRA_PAGE_SIZE = 257 \/ x / CITRA_PAGE_SIZE = 258.
Proof. unfold demo_dom, CITRA_PAGE_SIZE. intros Hx. Z.to_euclidean_division_equations. lia. Qed.
Lemma demo_phys x : demo_dom x -> phys demo_pages x = Some (FcramMem, x - 0x100000 + 0x5000).
Proof.
  intros Hx. unfold phys. pose proof (Z.div_mod x CITRA_PAGE_SIZE ltac:(done)) as E.
  assert (Hp : pointer_at (x / CITRA_PAGE_SIZE) demo_pages = Some (FcramMem, 0x5000 + (x / CITRA_PAGE_SIZE - 0x100) * CITRA_PAGE_SIZE)).
  { by destruct (demo_page x Hx) as [->|[->| ->]]. }
  rewrite Hp. unfold fmap, option_fmap, option_map, fst, snd. do 2 f_equal. unfold CITRA_PAGE_SIZE in *. lia.
Qed.
Lemma demo_u32 x : demo_dom x -> is_u32 x.
Proof. unfold demo_dom, is_u32. lia. Qed.
Lemma demo_ram x : demo_dom x -> ram_page demo_pages (x / CITRA_PAGE_SIZE).
Proof. intros [->|[->| ->]]%demo_page; (split; [done|]; split; [done|]; eexists _, _; split; [reflexivity|done]). Qed.
Lemma demo_injective x y : demo_dom x -> demo_dom y -> phys demo_pages x = phys demo_pages y -> x = y.
Proof. intros Hx Hy. rewrite !demo_phys by done. intros [= E]. lia. Qed.
#[export] Instance demo_flat : FlatMemory (MemorySystem unit * unit) demo_dom :=
  system_flat 0 demo_invalidate demo_pages demo_dom demo_host_laws demo_u32 demo_ram demo_injective.
Lemma demo_good ws : good (demo_system ws).
Proof.
  split; [done|]. split; [done|]. intros x Hx. unfold system_byte, guest_byte. rewrite demo_phys by done. cbn. unfold word_byte.
  destruct (list_find _ _) as [[i w]|]; [|done]. apply Z.mod_pos_bound. lia.
Qed.
Lemma demo_header m : m ∈ [0x100000; 0x101000; 0x102000] -> has_header (dom := demo_dom) m.
Proof. intros Hm. rewrite !elem_of_cons in Hm. destruct Hm as [->|[->|[->|Hm]]]; [..|by apply elem_of_nil in Hm]; (split; [done|]; split; [done|]; intros x Hx; unfold demo_dom, CRO_HEADER_SIZE in *; lia). Qed.

(** *** Registering *)

(** The static module, a module that is registered and one that is not *)
Definition demo_modules : MemorySystem unit * unit := demo_system [(Field 0x100000 NextCRO, 0x101000); (Field 0x101000 PreviousCRO, 0x101000)].
Definition demo_lists (b : bool) : list VAddr := if b then [0x101000] else [].
Lemma demo_registered : registered (dom := demo_dom) demo_modules 0x100000 demo_lists.
Proof.
  split.
  - apply demo_good.
  - repeat apply Forall_cons_2; [apply demo_header; set_solver..|]. apply Forall_nil_2.
  - apply (bool_decide_unpack _). vm_compute. exact I.
  - vm_compute. reflexivity.
  - vm_compute. reflexivity.
  - intros []; [|done]. cbn. split; [vm_compute; reflexivity|]. split; [vm_compute; reflexivity|done].
Qed.
Lemma Register_appends_witness : wp (Register 0x102000 0x100000 true) (fun _ s' => field s' 0x102000 PreviousCRO = 0x101000) demo_modules.
Proof.
  eapply wp_mono; [apply (Register_appends demo_modules 0x100000 0x102000 demo_lists true demo_registered)|].
  - apply demo_header. do 2 right. left.
  - apply (bool_decide_unpack _). vm_compute. exact I.
  - intros _ s' [Hr _]. destruct Hr as [_ _ _ _ _ Hl]. specialize (Hl true). destruct Hl as (_ & _ & Hp & _). exact Hp.
Defined.
(** Two modules are registered. *)
Definition demo_two : MemorySystem unit * unit := demo_system
  [(Field 0x100000 NextCRO, 0x101000); (Field 0x101000 PreviousCRO, 0x102000); (Field 0x101000 NextCRO, 0x102000); (Field 0x102000 PreviousCRO, 0x101000)].
Definition demo_two_lists (b : bool) : list VAddr := if b then [0x101000; 0x102000] else [].
Lemma demo_two_registered : registered (dom := demo_dom) demo_two 0x100000 demo_two_lists.
Proof.
  split.
  - apply demo_good.
  - repeat apply Forall_cons_2; [apply demo_header; set_solver..|]. apply Forall_nil_2.
  - apply (bool_decide_unpack _). vm_compute. exact I.
  - vm_compute. reflexivity.
  - vm_compute. reflexivity.
  - intros []; [|done]. cbn. do 4 (split; [vm_compute; reflexivity|]). done.
Qed.
Lemma Unregister_removes_witness :
  wp (Unregister 0x101000 0x100000) (fun _ s' => field s' 0x100000 NextCRO = 0x102000 /\ field s' 0x102000 PreviousCRO = 0x102000) demo_two.
Proof.
  eapply wp_mono; [apply (Unregister_removes demo_two 0x100000 0x101000 demo_two_lists true [] [0x102000] demo_two_registered eq_refl)|].
  intros _ s' ([_ _ _ Hh _ Hl] & _). split; [exact Hh|]. specialize (Hl true). apply Hl.
Defined.

(** *** The header *)

(** A header whose tables are all empty *)
Definition demo_cro : MemorySystem unit * unit := demo_system
  ((Field 0x100000 Magic, MAGIC_CRO0) :: (Field 0x100000 NameOffset, 0x140) :: (Field 0x100000 FileSize, 0x1000) :: ((fun f => (Field 0x100000 f, 0x200)) <$> offset_fields)).

(** The end of a table is computed in 32 bits: a segment table of 4 GB is accepted. *)
Definition demo_huge : MemorySystem unit * unit := demo_system
  ((Field 0x100000 Magic, MAGIC_CRO0) :: (Field 0x100000 FileSize, 0x1000) :: (Field 0x100000 SegmentNum, 0x15555556) :: ((fun f => (Field 0x100000 f, 0x200)) <$> offset_fields)).
Lemma huge_table_accepted : match RebaseHeader 0x100000 0x1000 demo_huge with Ret (c, s) => c = RESULT_SUCCESS /\ field s 0x100000 SegmentNum * 12 = 0x100000008 | Crash _ => False end.
Proof. vm_compute. by split. Qed.

(** *** Symbols *)

(** The static module exports the symbol ab, and has a batch of one relocation. *)
Definition demo_linked : MemorySystem unit * unit := demo_system
  [(Field 0x100000 ExportTreeTableOffset, 0x100200); (Field 0x100000 ExportTreeNum, 1); (0x100200, 0x80000000); (0x100204, 0x8000);
   (Field 0x100000 ExportNamedSymbolTableOffset, 0x100210); (Field 0x100000 ExportNamedSymbolNum, 1); (0x100210, 0x100220); (0x100214, 0x100);
   (Field 0x100000 ExportStringsSize, 8); (0x100220, 0x6261);
   (Field 0x100000 SegmentTableOffset, 0x100230); (Field 0x100000 SegmentNum, 1); (0x100230, 0x101000); (0x100234, 0x100);
   (0x100240, 0x200); (0x100244, 0x0102); (0x100248, 4)].
Lemma demo_no_modules : registered (dom := demo_dom) demo_linked 0x100000 (fun _ => []).
Proof.
  split; try done.
  - apply demo_good.
  - apply Forall_cons_2; [apply demo_header; left|apply Forall_nil_2].
  - apply (bool_decide_unpack _). vm_compute. exact I.
Qed.
Lemma demo_table (T : Type) `{Entry T} n base : field demo_linked 0x100000 (TABLE_OFFSET_FIELD T) = base -> 0 <= sizeof T -> is_field (TABLE_OFFSET_FIELD T) ->
  0x100000 <= base -> base + n * sizeof T <= 0x103000 -> has_table (dom := demo_dom) demo_linked 0x100000 T n.
Proof. intros E Hz Hf Hb Hs. split; [done|]. split; [done|]. rewrite E. intros x Hx. unfold demo_dom. lia. Qed.
Lemma demo_segments : has_segments (dom := demo_dom) demo_linked 0x100000.
Proof. split; [apply demo_good|]. split; [apply demo_header; left|]. by apply (demo_table SegmentEntry _ 0x100230). Qed.
Lemma demo_exports : exports (dom := demo_dom) demo_linked 0x100000 (Leaf 0) [[97; 98]].
Proof.
  split.
  - split; [apply demo_good|]. split; [apply demo_header; left|]. by apply (demo_table ExportTreeEntry _ 0x100200).
  - reflexivity.
  - assert (E : export_table_index (entry (dom := demo_dom) demo_linked 0x100000 ExportTreeEntry (next_index (left (entry (dom := demo_dom) demo_linked 0x100000 ExportTreeEntry 0)))) = 0) by (vm_compute; reflexivity).
    rewrite <- E at 2. apply represents_leaf; vm_compute; reflexivity.
  - split; [vm_compute; reflexivity|]. by apply (demo_table ExportNamedSymbolEntry _ 0x100210).
  - intros [|id] name; [|by destruct id]. intros [= <-]. split; [|vm_compute; reflexivity].
    assert (exported_name_offset (entry (dom := demo_dom) demo_linked 0x100000 ExportNamedSymbolEntry (Z.of_nat 0)) = 0x100220) as -> by (vm_compute; reflexivity).
    assert (field demo_linked 0x100000 ExportStringsSize = 8) as -> by (vm_compute; reflexivity). intros x Hx. unfold demo_dom. lia.
  - intros [|id] name; [done|by destruct id].
  - apply demo_segments.
Qed.
Definition demo_import : ImportNamedSymbolEntry := mkImportNamedSymbolEntry 0x100220 0x100240.
Lemma import_symbol_resolves_witness :
  import_symbol 3 0x100000 0x100000 8 demo_import demo_linked = stop_at (ApplyRelocationBatch 3 0x100000 0x100240 0x101010 false) demo_linked.
Proof.
  rewrite (import_symbol_resolves 3 demo_linked 0x100000 0x100000 (fun _ => []) (fun _ => Leaf 0) (fun _ => [[97; 98]]) 8 demo_import [97; 98] demo_no_modules).
  - assert (E : symbol_address (dom := demo_dom) demo_linked 0x100000 [[97; 98]] [97; 98] = 0x101010) by (vm_compute; reflexivity).
    cbn [list_find]. rewrite decide_True by (rewrite E; discriminate). rewrite E. reflexivity.
  - intros m Hm. apply list_elem_of_singleton in Hm as ->. split; [exact demo_exports|cbn; lia].
  - cbn. lia.
  - done.
  - intros x Hx. cbn in Hx. unfold demo_dom. lia.
  - vm_compute. reflexivity.
Defined.
Definition demo_relocation : RelocationEntry := mkRelocationEntry 0x200 2 1 0 0 4.
