(* ===== verification/VmManager.v ===== *)
(** [Kernel::VMManager] (src/.../core/hle/kernel/vm_manager.{h,cpp}): the map of
    virtual memory areas of a process, which covers its address space, and the
    page table kept in step with it. *)

From S2P Require Import Prelude ResultCode MemoryMap Memory.

(** [enum class VMAType] *)
Inductive VMAType := Free | BackingMemory | MMIO.
#[export] Instance VMAType_eq_dec : EqDecision VMAType.
Proof. solve_decision. Defined.

(** [enum class VMAPermission : u8], flags *)
Definition VMAPermission := Z.
Module Perm.
Definition None : VMAPermission := 0.
Definition Read : VMAPermission := 1.
Definition Write : VMAPermission := 2.
Definition Execute : VMAPermission := 4.
Definition ReadWrite : VMAPermission := Z.lor Read Write.
Definition ReadExecute : VMAPermission := Z.lor Read Execute.
Definition WriteExecute : VMAPermission := Z.lor Write Execute.
Definition ReadWriteExecute : VMAPermission := Z.lor (Z.lor Read Write) Execute.
End Perm.

(** [enum class MemoryState : u8] *)
Module MemoryState.
Inductive t := Free | Reserved | IO | Static | Code | Private | Shared | Continuous | Aliased | Alias | AliasCode | Locked.
Definition code (s : t) : Z :=
  match s with Free => 0 | Reserved => 1 | IO => 2 | Static => 3 | Code => 4 | Private => 5 | Shared => 6
  | Continuous => 7 | Aliased => 8 | Alias => 9 | AliasCode => 10 | Locked => 11 end.
End MemoryState.
#[export] Instance MemoryState_eq_dec : EqDecision MemoryState.t.
Proof. solve_decision. Defined.

Record VirtualMemoryArea := mkVMA {
  base : VAddr;
  size : Z;
  type : VMAType;
  permissions : VMAPermission;
  meminfo_state : MemoryState.t;
  backing_memory : MemoryRef;
  paddr : PAddr;
  mmio_handler : option Z;
}.
#[export] Instance eta_VirtualMemoryArea : Eta VirtualMemoryArea := fun v =>
  mkVMA (base v) (size v) (type v) (permissions v) (meminfo_state v) (backing_memory v) (paddr v) (mmio_handler v).

(** [VMManager::MAX_ADDRESS] *)
Definition MAX_ADDRESS : VAddr := 0x40000000.

(** ** [std::map<VAddr, VirtualMemoryArea>]

    The areas in the order of their keys; the key of an area is its base. An
    iterator is the key it points to, or [None] for [end()]. *)
Definition vma_map_t : Type := list VirtualMemoryArea.
Definition VMAIter : Type := option VAddr.

Definition vma_at (b : VAddr) (m : vma_map_t) : option VirtualMemoryArea := find (fun v => base v =? b) m.
Definition vma_lower_bound (a : VAddr) (m : vma_map_t) : VMAIter := base <$> find (fun v => a <=? base v) m.
Definition vma_next (b : VAddr) (m : vma_map_t) : VMAIter := base <$> find (fun v => b <? base v) m.
Definition vma_prev (b : VAddr) (m : vma_map_t) : VMAIter := base <$> find (fun v => base v <? b) (reverse m).
Definition vma_set (b : VAddr) (f : VirtualMemoryArea -> VirtualMemoryArea) (m : vma_map_t) : vma_map_t :=
  (fun v => if base v =? b then f v else v) <$> m.
Definition vma_erase (b : VAddr) (m : list VirtualMemoryArea) : list VirtualMemoryArea := filter (fun v => base v <> b) m.
(** [emplace_hint]: nothing is inserted if the key is taken. *)
Fixpoint vma_emplace (v : VirtualMemoryArea) (m : vma_map_t) : vma_map_t :=
  match m with
  | [] => [v]
  | w :: m' => if base v <? base w then v :: m else if base v =? base w then m else w :: vma_emplace v m'
  end.

Record VMManager := mkVMManager {
  vma_map : vma_map_t;
  page_table : Z;
  is_locked : bool;
}.
#[export] Instance eta_VMManager : Eta VMManager := fun x => mkVMManager (vma_map x) (page_table x) (is_locked x).

Section VMManager.
Context `{Host} `{Devices D}.

(** The manager and the memory system it refers to; [memory_changed] counts the
    calls of [PLG_LDR::OnMemoryChanged]. *)
Record VmState := mkVmState { vm : VMManager; memory : MemorySystem D; memory_changed : Z }.
#[export] Instance eta_VmState : Eta VmState := fun x => mkVmState (vm x) (memory x) (memory_changed x).
Abbreviation M := (M VmState).

Definition map_of : M vma_map_t := gets (fun s => vma_map (vm s)).
Definition update_map (f : vma_map_t -> vma_map_t) : M unit := modify (fun s => s <| vm ::= fun x => x <| vma_map ::= f |> |>).
Definition memory_op {A} (m : Prelude.M (MemorySystem D) A) : M A :=
  zoom memory (fun t s => s <| memory := t |>) m.
Definition assert_unlocked : M unit := s ← get; ASSERT (negb (is_locked (vm s))).
Definition get_vma (it : VMAIter) : M VirtualMemoryArea :=
  b ← deref it; m ← map_of; deref (vma_at b m).
Definition set_vma (b : VAddr) (f : VirtualMemoryArea -> VirtualMemoryArea) : M unit := update_map (vma_set b f).

(** [VirtualMemoryArea::CanBeMergedWith] *)
Definition CanBeMergedWith (this next : VirtualMemoryArea) : M bool :=
  ASSERT (u32 (base this + size this) =? base next);;
  mret (
    if negb (permissions this =? permissions next) || negb (bool_decide (meminfo_state this = meminfo_state next)) ||
       negb (bool_decide (type this = type next)) then false
    else if bool_decide (type this = BackingMemory) &&
      negb (GetPtr (backing_memory this) + size this =? GetPtr (backing_memory next)) then false
    else if bool_decide (type this = MMIO) && negb (u32 (paddr this + size this) =? paddr next) then false
    else true).

(** [VMManager::UpdatePageTableForVMA] *)
Definition UpdatePageTableForVMA (vma : VirtualMemoryArea) : M unit :=
  s ← get;
  let pt := page_table (vm s) in
  memory_op (match type vma with
    | Free => UnmapRegion pt (base vma) (size vma)
    | BackingMemory => MapMemoryRegion pt (base vma) (size vma) (backing_memory vma)
    | MMIO => MapIoRegion pt (base vma) (size vma) (mmio_handler vma)
    end);;
  modify (fun s => s <| memory_changed ::= fun n => n + 1 |>).

Definition initial_vma : VirtualMemoryArea := mkVMA 0 MAX_ADDRESS Free Perm.None MemoryState.Free None 0 None.

Definition Reset : M unit :=
  assert_unlocked;;
  update_map (fun _ => [initial_vma]);;
  s ← get;
  memory_op (set_table (page_table (vm s)) Memory.Clear);;
  UpdatePageTableForVMA initial_vma.

(** [VMManager::FindVMA]: [std::prev(vma_map.upper_bound(target))] *)
Definition FindVMA (target : VAddr) : M VMAIter :=
  if MAX_ADDRESS <=? target then mret None
  else m ← map_of; v ← deref (find (fun v => base v <=? target) (reverse m)); mret (Some (base v)).

(** [VMManager::SplitVMA] *)
Definition SplitVMA (vma_handle : VMAIter) (offset_in_vma : Z) : M VMAIter :=
  old_vma ← get_vma vma_handle;
  ASSERT (offset_in_vma <? size old_vma);;
  ASSERT (0 <? offset_in_vma);;
  let new_vma := old_vma <| base ::= fun b => u32 (b + offset_in_vma) |> <| size ::= fun n => n - offset_in_vma |> in
  set_vma (base old_vma) (fun v => v <| size := offset_in_vma |>);;
  new_vma ← match type new_vma with
    | Free => mret new_vma
    | BackingMemory => r ← ref_add (backing_memory new_vma) offset_in_vma; mret (new_vma <| backing_memory := r |>)
    | MMIO => mret (new_vma <| paddr ::= fun p => u32 (p + offset_in_vma) |>)
    end;
  mergeable ← CanBeMergedWith (old_vma <| size := offset_in_vma |>) new_vma;
  ASSERT mergeable;;
  update_map (vma_emplace new_vma);;
  mret (Some (base new_vma)).

(** [VMManager::MergeAdjacent] *)
Definition MergeAdjacent (iter : VMAIter) : M VMAIter :=
  this ← get_vma iter;
  m ← map_of;
  match vma_next (base this) m with
  | None => mret tt
  | Some n =>
      next_vma ← get_vma (Some n);
      mergeable ← CanBeMergedWith this next_vma;
      if (mergeable : bool) then
        set_vma (base this) (fun v => v <| size ::= fun x => u32 (x + size next_vma) |>);;
        update_map (vma_erase n)
      else mret tt
  end;;
  this ← get_vma iter;
  m ← map_of;
  match vma_prev (base this) m with
  | None => mret iter
  | Some p =>
      prev_vma ← get_vma (Some p);
      mergeable ← CanBeMergedWith prev_vma this;
      if (mergeable : bool) then
        set_vma p (fun v => v <| size ::= fun x => u32 (x + size this) |>);;
        update_map (vma_erase (base this));;
        mret (Some p)
      else mret iter
  end.

Definition assert_aligned_range (base size : Z) : M unit :=
  ASSERT (Z.land size CITRA_PAGE_MASK =? 0);; ASSERT (Z.land base CITRA_PAGE_MASK =? 0).

(** [VMManager::CarveVMA] *)
Definition CarveVMA (base_ : VAddr) (size_ : Z) : M (ResultVal VMAIter) :=
  assert_aligned_range base_ size_;;
  vma_handle ← FindVMA base_;
  match vma_handle with
  | None => mret (Failure ERR_INVALID_ADDRESS)
  | Some _ =>
      vma ← get_vma vma_handle;
      if negb (bool_decide (type vma = Free)) then mret (Failure ERR_INVALID_ADDRESS_STATE)
      else
        let start_in_vma := u32 (base_ - base vma) in
        let end_in_vma := u32 (start_in_vma + size_) in
        if size vma <? end_in_vma then mret (Failure ERR_INVALID_ADDRESS_STATE)
        else
          (if negb (end_in_vma =? size vma) then _ ← SplitVMA vma_handle end_in_vma; mret tt else mret tt);;
          vma_handle ← (if negb (start_in_vma =? 0) then SplitVMA vma_handle start_in_vma else mret vma_handle);
          mret (Success vma_handle)
  end.

(** [std::any_of(begin, end, f)] over the areas; an [end] that is not reached from
    [begin] runs past [end()]. *)
Fixpoint any_of (fuel : nat) (i i_end : VMAIter) (f : VirtualMemoryArea -> bool) : M bool :=
  if bool_decide (i = i_end) then mret false
  else
    match fuel with
    | O => crash OutOfFuel
    | S fuel' =>
        vma ← get_vma i;
        if f vma then mret true
        else m ← map_of; any_of fuel' (vma_next (base vma) m) i_end f
    end.
Definition any_of_range (i i_end : VMAIter) (f : VirtualMemoryArea -> bool) : M bool :=
  m ← map_of; any_of (S (length m)) i i_end f.

(** [VMManager::CarveVMARange] *)
Definition CarveVMARange (target : VAddr) (size_ : Z) : M (ResultVal VMAIter) :=
  assert_aligned_range target size_;;
  let target_end := u32 (target + size_) in
  ASSERT (target <=? target_end);;
  ASSERT (target_end <=? MAX_ADDRESS);;
  ASSERT (0 <? size_);;
  begin_vma ← FindVMA target;
  m ← map_of;
  found ← any_of_range begin_vma (vma_lower_bound target_end m) (fun v => bool_decide (type v = Free));
  if (found : bool) then mret (Failure ERR_INVALID_ADDRESS_STATE)
  else
    v ← get_vma begin_vma;
    begin_vma ← (if negb (target =? base v) then SplitVMA begin_vma (u32 (target - base v)) else mret begin_vma);
    end_vma ← FindVMA target_end;
    match end_vma with
    | None => mret tt
    | Some _ =>
        e ← get_vma end_vma;
        if negb (target_end =? base e) then _ ← SplitVMA end_vma (u32 (target_end - base e)); mret tt else mret tt
    end;;
    mret (Success begin_vma).

(** [VMManager::MapBackingMemory] *)
Definition MapBackingMemory (target : VAddr) (mem : MemoryRef) (size_ : Z) (state : MemoryState.t)
    : M (ResultVal VMAIter) :=
  assert_unlocked;;
  ASSERT (negb (GetPtr mem =? 0));;
  CASCADE_RESULT vma_handle := CarveVMA target size_;
  v ← get_vma vma_handle;
  ASSERT (size v =? size_);;
  let final_vma := v <| type := BackingMemory |> <| permissions := Perm.ReadWrite |> <| meminfo_state := state |>
                   <| backing_memory := mem |> in
  set_vma (base v) (fun _ => final_vma);;
  UpdatePageTableForVMA final_vma;;
  it ← MergeAdjacent vma_handle;
  mret (Success it).

(** [VMManager::MapMMIO] *)
Definition MapMMIO (target : VAddr) (paddr_ : PAddr) (size_ : Z) (state : MemoryState.t) (handler : option Z)
    : M (ResultVal VMAIter) :=
  assert_unlocked;;
  CASCADE_RESULT vma_handle := CarveVMA target size_;
  v ← get_vma vma_handle;
  ASSERT (size v =? size_);;
  let final_vma := v <| type := MMIO |> <| permissions := Perm.ReadWrite |> <| meminfo_state := state |>
                   <| paddr := paddr_ |> <| mmio_handler := handler |> in
  set_vma (base v) (fun _ => final_vma);;
  UpdatePageTableForVMA final_vma;;
  it ← MergeAdjacent vma_handle;
  mret (Success it).

(** The error of [MapBackingMemoryToBase] *)
Definition ERR_NO_FREE_ADDRESS : result_code :=
  ResultCode ErrorDescription.OutOfMemory ErrorModule.Kernel ErrorSummary.OutOfResource ErrorLevel.Permanent.

(** [VMManager::MapBackingMemoryToBase]: [vma_handle->second.base] is read before
    the test against [end()]. *)
Definition MapBackingMemoryToBase (base_ : VAddr) (region_size : Z) (mem : MemoryRef) (size_ : Z)
    (state : MemoryState.t) : M (ResultVal VAddr) :=
  assert_unlocked;;
  m ← map_of;
  v ← deref (find (fun v => bool_decide (type v = Free) &&
    (let vma_end := u32 (base v + size v) in (base_ <? vma_end) && (u32 (base_ + size_) <=? vma_end))) m);
  let target := Z.max base_ (base v) in
  if u32 (base_ + region_size) <? u32 (target + size_) then mret (Failure ERR_NO_FREE_ADDRESS)
  else
    CASCADE_RESULT _ := MapBackingMemory target mem size_ state;
    mret (Success target).

(** The loops [while (vma != end && vma->second.base < target_end)], each turn
    changing one area and going on after the area it was merged into. *)
Fixpoint range_loop (fuel : nat) (vma : VMAIter) (target_end : VAddr) (body : VMAIter -> M VMAIter) : M unit :=
  match vma with
  | None => mret tt
  | Some b =>
      if target_end <=? b then mret tt
      else
        match fuel with
        | O => crash OutOfFuel
        | S fuel' =>
            merged ← body vma;
            v ← get_vma merged;
            m ← map_of;
            range_loop fuel' (vma_next (base v) m) target_end body
        end
  end.
Definition for_range (vma : VMAIter) (target_end : VAddr) (body : VMAIter -> M VMAIter) : M unit :=
  m ← map_of; range_loop (S (length m)) vma target_end body.

(** [VMManager::ChangeMemoryState] *)
Definition ChangeMemoryState (target : VAddr) (size_ : Z) (expected_state : MemoryState.t) (expected_perms : VMAPermission)
    (new_state : MemoryState.t) (new_perms : VMAPermission) : M result_code :=
  s ← get;
  if is_locked (vm s) then mret RESULT_SUCCESS
  else
    let target_end := u32 (target + size_) in
    begin_vma ← FindVMA target;
    m ← map_of;
    let i_end := vma_lower_bound target_end m in
    match begin_vma with
    | None => mret ERR_INVALID_ADDRESS
    | Some _ =>
        mismatch ← any_of_range begin_vma i_end (fun vma =>
          negb (bool_decide (meminfo_state vma = expected_state)) ||
          negb (Z.land (permissions vma) expected_perms =? expected_perms));
        if (mismatch : bool) then mret ERR_INVALID_ADDRESS_STATE
        else
          CASCADE_TO_CODE vma := CarveVMARange target size_;
          for_range vma target_end (fun vma =>
            v ← get_vma vma;
            let v' := v <| permissions := new_perms |> <| meminfo_state := new_state |> in
            set_vma (base v) (fun _ => v');;
            UpdatePageTableForVMA v';;
            MergeAdjacent vma);;
          mret RESULT_SUCCESS
    end.

(** [VMManager::Unmap] *)
Definition Unmap (vma_handle : VMAIter) : M VMAIter :=
  assert_unlocked;;
  v ← get_vma vma_handle;
  let v' := v <| type := Free |> <| permissions := Perm.None |> <| meminfo_state := MemoryState.Free |>
              <| backing_memory := None |> <| paddr := 0 |> in
  set_vma (base v) (fun _ => v');;
  UpdatePageTableForVMA v';;
  MergeAdjacent vma_handle.

(** [VMManager::UnmapRange] *)
Definition UnmapRange (target : VAddr) (size_ : Z) : M result_code :=
  assert_unlocked;;
  CASCADE_TO_CODE vma := CarveVMARange target size_;
  let target_end := u32 (target + size_) in
  for_range vma target_end Unmap;;
  it ← FindVMA target;
  v ← get_vma it;
  ASSERT (size_ <=? size v);;
  mret RESULT_SUCCESS.

(** [VMManager::Reprotect] *)
Definition Reprotect (vma_handle : VMAIter) (new_perms : VMAPermission) : M VMAIter :=
  assert_unlocked;;
  v ← get_vma vma_handle;
  let v' := v <| permissions := new_perms |> in
  set_vma (base v) (fun _ => v');;
  UpdatePageTableForVMA v';;
  MergeAdjacent vma_handle.

(** [VMManager::ReprotectRange] *)
Definition ReprotectRange (target : VAddr) (size_ : Z) (new_perms : VMAPermission) : M result_code :=
  assert_unlocked;;
  CASCADE_TO_CODE vma := CarveVMARange target size_;
  let target_end := u32 (target + size_) in
  for_range vma target_end (fun vma => Reprotect vma new_perms);;
  mret RESULT_SUCCESS.

Definition Unlock : M unit := modify (fun s => s <| vm ::= fun x => x <| is_locked := false |> |>).

(** [VMManager::GetBackingBlocksForRange]; each turn takes at least one byte of
    another area. *)
Fixpoint backing_blocks_loop (fuel : nat) (interval_target range_end : VAddr) (acc : list (MemoryRef * Z))
    : M (ResultVal (list (MemoryRef * Z))) :=
  if interval_target =? range_end then mret (Success acc)
  else
    match fuel with
    | O => crash OutOfFuel
    | S fuel' =>
        it ← FindVMA interval_target;
        v ← get_vma it;
        if negb (bool_decide (type v = BackingMemory)) then mret (Failure ERR_INVALID_ADDRESS_STATE)
        else
          let interval_end := Z.min range_end (u32 (base v + size v)) in
          let interval_size := u32 (interval_end - interval_target) in
          r ← ref_add (backing_memory v) (u32 (interval_target - base v));
          backing_blocks_loop fuel' (u32 (interval_target + interval_size)) range_end (acc ++ [(r, interval_size)])
    end.
Definition GetBackingBlocksForRange (address : VAddr) (size_ : Z) : M (ResultVal (list (MemoryRef * Z))) :=
  m ← map_of; backing_blocks_loop (S (length m)) address (u32 (address + size_)) [].

(** ** What the map says of each address *)

(** The attributes of one address; the reference and the physical address are
    those of the address itself. *)
Record cell := mkCell { c_type : VMAType; c_perms : VMAPermission; c_state : MemoryState.t; c_ref : MemoryRef; c_paddr : PAddr }.
Definition ref_at (r : MemoryRef) (k : Z) : MemoryRef :=
  match r with Some (b, o) => Some (b, o + k) | None => None end.
Definition cell_of (v : VirtualMemoryArea) (a : VAddr) : cell :=
  mkCell (type v) (permissions v) (meminfo_state v)
    (if bool_decide (type v = BackingMemory) then ref_at (backing_memory v) (a - base v) else None)
    (if bool_decide (type v = MMIO) then u32 (paddr v + (a - base v)) else 0).
Definition covers (v : VirtualMemoryArea) (a : VAddr) : bool := (base v <=? a) && (a <? base v + size v).
Definition view (m : vma_map_t) (a : VAddr) : option cell := (fun v => cell_of v a) <$> find (fun v => covers v a) m.

(** The areas follow one another from [a] to [b]. *)
Fixpoint chain (a : VAddr) (m : vma_map_t) (b : VAddr) : Prop :=
  match m with
  | [] => a = b
  | v :: m' => base v = a /\ 0 < size v /\ chain (a + size v) m' b
  end.
Record vma_ok (v : VirtualMemoryArea) : Prop := {
  ok_base : base v mod CITRA_PAGE_SIZE = 0;
  ok_size : size v mod CITRA_PAGE_SIZE = 0;
  ok_backing : type v = BackingMemory -> exists b o, backing_memory v = Some (b, o) /\ 0 <= o /\ o + size v <= backing_size b;
  ok_free : type v = Free -> permissions v = Perm.None /\ meminfo_state v = MemoryState.Free;
}.
(** The documented invariant for free areas: no two of them are adjacent. *)
Fixpoint free_merged (m : vma_map_t) : Prop :=
  match m with
  | v :: ((w :: _) as m') => ~ (type v = Free /\ type w = Free) /\ free_merged m'
  | _ => True
  end.
Record map_wf (m : vma_map_t) : Prop := {
  wf_chain : chain 0 m MAX_ADDRESS;
  wf_areas : Forall vma_ok m;
}.
Record map_ok (m : vma_map_t) : Prop := { ok_wf : map_wf m; ok_merged : free_merged m }.

(** [mergeable v w]: what [CanBeMergedWith] returns for adjacent areas. *)
Definition mergeable (v w : VirtualMemoryArea) : bool :=
  (permissions v =? permissions w) && bool_decide (meminfo_state v = meminfo_state w) && bool_decide (type v = type w) &&
  (negb (bool_decide (type v = BackingMemory)) || (GetPtr (backing_memory v) + size v =? GetPtr (backing_memory w))) &&
  (negb (bool_decide (type v = MMIO)) || (u32 (paddr v + size v) =? paddr w)).

(** ** Lemmas on the map *)

Lemma chain_app a m1 m2 b : chain a (m1 ++ m2) b <-> exists c, chain a m1 c /\ chain c m2 b.
Proof.
  revert a. induction m1 as [|v m1 IH]; intros a; cbn.
  - split; [eauto|]. by intros (c & -> & ?).
  - rewrite IH. split; [intros (? & ? & c & ? & ?); eauto|intros (c & (? & ? & ?) & ?); eauto].
Qed.
Lemma chain_le a m b : chain a m b -> a <= b.
Proof. revert a. induction m as [|v m IH]; intros a; cbn; [lia|]. intros (? & ? & H'%IH). lia. Qed.
Lemma chain_bounds a m b v : chain a m b -> v ∈ m -> a <= base v /\ 0 < size v /\ base v + size v <= b.
Proof.
  revert a. induction m as [|w m IH]; intros a; cbn; [by intros _ ?%not_elem_of_nil|].
  intros (<- & Hs & Hc) [->|Hv]%elem_of_cons; [apply chain_le in Hc; lia|]. apply IH in Hc; [lia|done].
Qed.

(** The two sides of an area. *)
Lemma area_split a m1 v m2 b : chain a (m1 ++ v :: m2) b ->
  chain a m1 (base v) /\ 0 < size v /\ chain (base v + size v) m2 b.
Proof. intros (c & H1 & <- & Hs & H2)%chain_app. auto. Qed.
Lemma chain_left a m1 v m2 b w : chain a (m1 ++ v :: m2) b -> w ∈ m1 -> a <= base w /\ 0 < size w /\ base w + size w <= base v.
Proof. intros (H1 & _ & _)%area_split. by apply chain_bounds. Qed.
Lemma chain_right a m1 v m2 b w : chain a (m1 ++ v :: m2) b -> w ∈ m2 -> base v + size v <= base w /\ 0 < size w /\ base w + size w <= b.
Proof. intros (_ & _ & H2)%area_split. by apply chain_bounds. Qed.

Lemma find_app_none {A} (f : A -> bool) l1 l2 : (forall x, x ∈ l1 -> f x = false) -> find f (l1 ++ l2) = find f l2.
Proof.
  induction l1 as [|x l1 IH]; intros Hl; [done|]. cbn. rewrite Hl by constructor. apply IH. intros. apply Hl. by constructor.
Qed.
Lemma find_none {A} (f : A -> bool) l : (forall x, x ∈ l -> f x = false) -> find f l = None.
Proof. intros Hl. rewrite <- (app_nil_r l). by rewrite find_app_none. Qed.

Lemma filter_all {A} (P : A -> Prop) `{forall x, Decision (P x)} (l : list A) : (forall x, x ∈ l -> P x) -> filter P l = l.
Proof.
  induction l as [|x l IH]; intros Hl; [done|]. rewrite filter_cons_True by (apply Hl; constructor). f_equal. apply IH.
  intros. apply Hl. by constructor.
Qed.

Section Split.
Context (a b : VAddr) (m1 : vma_map_t) (v : VirtualMemoryArea) (m2 : vma_map_t) (Hc : chain a (m1 ++ v :: m2) b).

Lemma vma_at_mid : vma_at (base v) (m1 ++ v :: m2) = Some v.
Proof.
  unfold vma_at. rewrite find_app_none; [cbn; by rewrite Z.eqb_refl|].
  intros w Hw. apply (chain_left _ _ _ _ _ _ Hc) in Hw. lia.
Qed.
Lemma vma_set_mid f : vma_set (base v) f (m1 ++ v :: m2) = m1 ++ f v :: m2.
Proof.
  unfold vma_set. rewrite fmap_app, fmap_cons, Z.eqb_refl. f_equal; [|f_equal].
  - rewrite <- (list_fmap_id m1) at 2. apply list_fmap_ext. intros i w Hw. cbn.
    apply list_elem_of_lookup_2, (chain_left _ _ _ _ _ _ Hc) in Hw.
    by rewrite (proj2 (Z.eqb_neq _ _)) by lia.
  - rewrite <- (list_fmap_id m2) at 2. apply list_fmap_ext. intros i w Hw. cbn.
    apply list_elem_of_lookup_2, (chain_right _ _ _ _ _ _ Hc) in Hw.
    pose proof (area_split _ _ _ _ _ Hc). by rewrite (proj2 (Z.eqb_neq _ _)) by lia.
Qed.
Lemma vma_next_mid : vma_next (base v) (m1 ++ v :: m2) = base <$> head m2.
Proof.
  unfold vma_next. rewrite find_app_none by (intros w Hw; apply (chain_left _ _ _ _ _ _ Hc) in Hw; lia).
  cbn. rewrite Z.ltb_irrefl. destruct m2 as [|w m3]; [done|]. cbn.
  pose proof (area_split _ _ _ _ _ Hc) as (_ & Hs & Hw & _). by rewrite (proj2 (Z.ltb_lt _ _)) by lia.
Qed.
Lemma vma_prev_mid : vma_prev (base v) (m1 ++ v :: m2) = base <$> last m1.
Proof.
  unfold vma_prev. rewrite reverse_app, reverse_cons, <- app_assoc, find_app_none.
  2:{ intros w Hw; rewrite elem_of_reverse in Hw. pose proof (area_split _ _ _ _ _ Hc). apply (chain_right _ _ _ _ _ _ Hc) in Hw. lia. }
  cbn. rewrite Z.ltb_irrefl. destruct m1 as [|w m0 _] using rev_ind; [done|]. rewrite reverse_snoc, last_snoc. cbn.
  assert (Hw : w ∈ m0 ++ [w]) by set_solver. apply (chain_left _ _ _ _ _ _ Hc) in Hw. by rewrite (proj2 (Z.ltb_lt _ _)) by lia.
Qed.
Lemma find_le_mid x : base v <= x < base v + size v -> find (fun w => base w <=? x) (reverse (m1 ++ v :: m2)) = Some v.
Proof.
  intros Hx. rewrite reverse_app, reverse_cons, <- app_assoc, find_app_none.
  - cbn. by rewrite (proj2 (Z.leb_le _ _)) by lia.
  - intros w Hw; rewrite elem_of_reverse in Hw. apply (chain_right _ _ _ _ _ _ Hc) in Hw. lia.
Qed.
Lemma vma_erase_mid : vma_erase (base v) (m1 ++ v :: m2) = m1 ++ m2.
Proof.
  unfold vma_erase. rewrite filter_app, filter_cons_False by (intros Hn; by apply Hn). f_equal; apply filter_all; intros w Hw.
  - apply (chain_left _ _ _ _ _ _ Hc) in Hw. lia.
  - pose proof (area_split _ _ _ _ _ Hc) as (_ & ? & _). apply (chain_right _ _ _ _ _ _ Hc) in Hw. lia.
Qed.
End Split.

(** Every address is in an area. *)
Lemma chain_find a m b x : chain a m b -> a <= x < b -> exists m1 v m2, m = m1 ++ v :: m2 /\ base v <= x < base v + size v.
Proof.
  revert a. induction m as [|v m IH]; intros a; cbn; [lia|]. intros (<- & Hs & Hc) Hx.
  destruct (decide (x < base v + size v)); [exists [], v, m; split; [done|lia]|].
  destruct (IH _ Hc) as (m1 & w & m2 & -> & Hw); [lia|]. by exists (v :: m1), w, m2.
Qed.

(** *** Views *)

Lemma view_mid a m1 v m2 b x : chain a (m1 ++ v :: m2) b -> base v <= x < base v + size v ->
  view (m1 ++ v :: m2) x = Some (cell_of v x).
Proof.
  intros Hc Hx. unfold view. rewrite find_app_none.
  - cbn. unfold covers at 1. by rewrite in_range_true.
  - intros w Hw. apply (chain_left _ _ _ _ _ _ Hc) in Hw. apply in_range_false. lia.
Qed.
Lemma view_left a m1 m2 b c x : chain a m1 c -> chain c m2 b -> x < c -> view (m1 ++ m2) x = view m1 x.
Proof.
  intros H1 H2 Hx. unfold view.
  assert (H2n : forall w, w ∈ m2 -> covers w x = false).
  { intros w Hw. apply (chain_bounds _ _ _ _ H2) in Hw. apply in_range_false. lia. }
  f_equal. clear -H2n. induction m1 as [|w m1 IH]; cbn; [by apply find_none|]. by rewrite IH.
Qed.
Lemma view_right a m1 m2 b c x : chain a m1 c -> chain c m2 b -> c <= x -> view (m1 ++ m2) x = view m2 x.
Proof.
  intros H1 H2 Hx. unfold view. rewrite find_app_none; [done|].
  intros w Hw. apply (chain_bounds _ _ _ _ H1) in Hw. apply in_range_false. lia.
Qed.
Lemma view_out a m b x : chain a m b -> x < a \/ b <= x -> view m x = None.
Proof.
  intros Hc Hx. unfold view. rewrite find_none; [done|].
  intros w Hw. apply (chain_bounds _ _ _ _ Hc) in Hw. apply in_range_false. lia.
Qed.
(** Replacing a run of areas by another run over the same addresses. *)
Lemma view_replace a m1 k k' m2 b c d :
  chain a m1 c -> chain c k d -> chain c k' d -> chain d m2 b ->
  forall x, view (m1 ++ k' ++ m2) x = if (c <=? x) && (x <? d) then view k' x else view (m1 ++ k ++ m2) x.
Proof.
  intros H1 Hk Hk' H2 x. pose proof (chain_le _ _ _ Hk).
  destruct (decide (x < c)) as [Hx|Hx].
  - rewrite in_range_false by lia.
    rewrite (view_left a m1 (k' ++ m2) b c), (view_left a m1 (k ++ m2) b c); rewrite ?chain_app; eauto.
  - rewrite (view_right a m1 (k' ++ m2) b c), (view_right a m1 (k ++ m2) b c); rewrite ?chain_app; eauto; [|lia..].
    destruct (decide (x < d)) as [Hd|Hd].
    + rewrite in_range_true by lia. by apply (view_left c k' m2 b d).
    + rewrite in_range_false by lia. rewrite (view_right c k' m2 b d), (view_right c k m2 b d); eauto; lia.
Qed.
Lemma view_single v x : base v <= x < base v + size v -> view [v] x = Some (cell_of v x).
Proof. intros Hx. unfold view. cbn. unfold covers. by rewrite in_range_true. Qed.

Lemma view_replace1 a m1 v v' m2 b x : chain a (m1 ++ v :: m2) b -> base v' = base v -> size v' = size v ->
  view (m1 ++ v' :: m2) x =
  if (base v <=? x) && (x <? base v + size v) then Some (cell_of v' x) else view (m1 ++ v :: m2) x.
Proof.
  intros Hc Hb Hs. apply area_split in Hc as (H1 & Hsz & H2).
  pose proof (view_replace a m1 [v] [v'] m2 b (base v) (base v + size v) H1) as Hr. cbn [app] in Hr.
  rewrite Hr by (done || cbn; lia). destruct (_ && _) eqn:Hx; [|done]. apply in_range_spec in Hx. apply view_single. lia.
Qed.

(** *** Splitting and merging *)

Definition split_left (v : VirtualMemoryArea) (o : Z) : VirtualMemoryArea := v <| size := o |>.
Definition split_right (v : VirtualMemoryArea) (o : Z) : VirtualMemoryArea :=
  v <| base ::= fun b => b + o |> <| size ::= fun n => n - o |>
    <| backing_memory ::= fun r => if bool_decide (type v = BackingMemory) then ref_at r o else r |>
    <| paddr ::= fun p => if bool_decide (type v = MMIO) then u32 (p + o) else p |>.
Definition merge_two (v w : VirtualMemoryArea) : VirtualMemoryArea := v <| size ::= fun n => n + size w |>.

Lemma u32_add_l x y : u32 (u32 x + y) = u32 (x + y).
Proof. unfold u32. by rewrite Zplus_mod_idemp_l. Qed.
Lemma ref_at_add r x y : ref_at (ref_at r x) y = ref_at r (x + y).
Proof. destruct r as [[b o]|]; cbn; [do 2 f_equal; lia|done]. Qed.

Lemma split_right_cell v o x : cell_of (split_right v o) x = cell_of v x.
Proof.
  unfold cell_of, split_right. cbn. f_equal; case_match; try done.
  - rewrite ref_at_add. f_equal. lia.
  - rewrite u32_add_l. f_equal. lia.
Qed.
Lemma split_ok v o : vma_ok v -> 0 < o < size v -> o mod CITRA_PAGE_SIZE = 0 ->
  vma_ok (split_left v o) /\ vma_ok (split_right v o).
Proof.
  intros [Hb Hs Hbk Hf] Ho Hm. unfold CITRA_PAGE_SIZE in *.
  split; split; cbn; unfold CITRA_PAGE_SIZE; try done.
  - intros Ht. destruct (Hbk Ht) as (b & off & -> & ? & ?). exists b, off. split; [done|lia].
  - clear -Hb Hm. Z.to_euclidean_division_equations. lia.
  - clear -Hs Hm. Z.to_euclidean_division_equations. lia.
  - intros Ht. destruct (Hbk Ht) as (b & off & -> & ? & ?). rewrite bool_decide_eq_true_2 by done.
    exists b, (off + o). split; [done|lia].
Qed.

Lemma mergeable_spec v w : mergeable v w = true <->
  permissions v = permissions w /\ meminfo_state v = meminfo_state w /\ type v = type w /\
  (type v = BackingMemory -> GetPtr (backing_memory v) + size v = GetPtr (backing_memory w)) /\
  (type v = MMIO -> u32 (paddr v + size v) = paddr w).
Proof.
  unfold mergeable. rewrite !andb_true_iff, !orb_true_iff, !negb_true_iff, !Z.eqb_eq, !bool_decide_eq_true, !bool_decide_eq_false.
  destruct (type v); naive_solver.
Qed.

(** Areas that are merged say the same of each address as before. *)
Lemma mergeable_cell (Hh : host_laws) v w x :
  vma_ok v -> vma_ok w -> 0 < size v -> 0 < size w -> base v + size v = base w -> mergeable v w = true ->
  cell_of w x = cell_of (merge_two v w) x.
Proof.
  intros Hv Hw Hsv Hsw Hadj (Hp & Hs & Ht & Hb & Hm)%mergeable_spec. unfold cell_of, merge_two. cbn.
  rewrite <- Hp, <- Hs, <- Ht. f_equal; case_bool; try done.
  - destruct (ok_backing _ Hv) as (b & o & Hvb & Ho & Hob); [done|].
    destruct (ok_backing _ Hw) as (b' & o' & Hwb & Ho' & Hob'); [congruence|].
    rewrite Hvb, Hwb in *. cbn in *. specialize (Hb ltac:(done)).
    assert (b = b') as <-.
    { destruct (decide (b = b')) as [|Hne]; [done|]. destruct (host_apart Hh b b' Hne); lia. }
    do 2 f_equal. lia.
  - rewrite <- (Hm ltac:(done)), u32_add_l. f_equal. lia.
Qed.
Lemma merge_two_ok (Hh : host_laws) v w :
  vma_ok v -> vma_ok w -> 0 < size v -> 0 < size w -> base v + size v = base w -> mergeable v w = true -> vma_ok (merge_two v w).
Proof.
  intros Hv Hw Hsv Hsw Hadj (Hp & Hs & Ht & Hb & Hm)%mergeable_spec. split; cbn.
  - apply Hv.
  - pose proof (ok_size _ Hv). pose proof (ok_size _ Hw). unfold CITRA_PAGE_SIZE in *.
    Z.to_euclidean_division_equations. lia.
  - intros Htv. destruct (ok_backing _ Hv) as (b & o & Hvb & Ho & Hob); [done|].
    destruct (ok_backing _ Hw) as (b' & o' & Hwb & Ho' & Hob'); [congruence|].
    rewrite Hvb, Hwb in *. cbn in *. specialize (Hb ltac:(done)).
    assert (b = b') as <-.
    { destruct (decide (b = b')) as [|Hne]; [done|]. destruct (host_apart Hh b b' Hne); lia. }
    exists b, o. split; [done|lia].
  - apply Hv.
Qed.
Lemma mergeable_split (v : VirtualMemoryArea) o : vma_ok v -> mergeable (split_left v o) (split_right v o) = true.
Proof.
  intros Hv. apply mergeable_spec. cbn. repeat (split; [done|]). split.
  - intros Ht. destruct (ok_backing _ Hv) as (b & off & Hvb & _); [done|]. rewrite Hvb, bool_decide_eq_true_2 by done.
    cbn. lia.
  - intros Ht. by rewrite bool_decide_eq_true_2.
Qed.

(** *** The operations on a decomposed map *)

(** The state [s] with another map. *)
Definition with_map (m : vma_map_t) (s : VmState) : VmState := s <| vm ::= fun x => x <| vma_map := m |> |>.
Lemma with_map_map m s : vma_map (vm (with_map m s)) = m.
Proof. done. Qed.
Lemma with_map_with m m' s : with_map m (with_map m' s) = with_map m s.
Proof. done. Qed.
Lemma with_map_id s : with_map (vma_map (vm s)) s = s.
Proof. by destruct s as [[] ? ?]. Qed.

Lemma wp_map_of (Q : vma_map_t -> VmState -> Prop) s : Q (vma_map (vm s)) s -> wp map_of Q s.
Proof. done. Qed.
Lemma wp_update_map f (Q : unit -> VmState -> Prop) s : Q tt (with_map (f (vma_map (vm s))) s) -> wp (update_map f) Q s.
Proof. done. Qed.
Lemma wp_get_vma it v (Q : VirtualMemoryArea -> VmState -> Prop) m1 m2 a b s :
  vma_map (vm s) = m1 ++ v :: m2 -> chain a (m1 ++ v :: m2) b -> it = Some (base v) -> Q v s -> wp (get_vma it) Q s.
Proof.
  intros Hm Hc -> HQ. unfold get_vma. wp_step. apply (wp_deref _ (base v)); [done|]. wp_step. apply wp_map_of.
  rewrite Hm. apply (wp_deref _ v); [by eapply vma_at_mid|done].
Qed.
Lemma wp_set_vma f (Q : unit -> VmState -> Prop) m1 v m2 a b s :
  vma_map (vm s) = m1 ++ v :: m2 -> chain a (m1 ++ v :: m2) b -> Q tt (with_map (m1 ++ f v :: m2) s) ->
  wp (set_vma (base v) f) Q s.
Proof. intros Hm Hc HQ. apply wp_update_map. rewrite Hm. by erewrite vma_set_mid. Qed.
Lemma wp_CanBeMergedWith v w (Q : bool -> VmState -> Prop) s :
  u32 (base v + size v) = base w -> Q (mergeable v w) s -> wp (CanBeMergedWith v w) Q s.
Proof.
  intros Hadj HQ. unfold CanBeMergedWith. wp_step. wp_step; [by apply Z.eqb_eq|]. apply wp_ret.
  match goal with |- Q ?x _ => replace x with (mergeable v w) end; [done|]. unfold mergeable.
  destruct (_ =? permissions w), (bool_decide (meminfo_state v = _)), (bool_decide (type v = type w)),
    (bool_decide (type v = BackingMemory)), (_ =? GetPtr (backing_memory w)), (bool_decide (type v = MMIO)), (_ =? paddr w); done.
Qed.
Lemma MAX_ADDRESS_u32 x : 0 <= x <= MAX_ADDRESS -> u32 x = x.
Proof. unfold MAX_ADDRESS. intros. apply u32_small. unfold is_u32. lia. Qed.

Lemma wp_FindVMA target (Q : VMAIter -> VmState -> Prop) s :
  chain 0 (vma_map (vm s)) MAX_ADDRESS -> 0 <= target ->
  (MAX_ADDRESS <= target -> Q None s) ->
  (forall m1 v m2, vma_map (vm s) = m1 ++ v :: m2 -> base v <= target < base v + size v -> Q (Some (base v)) s) ->
  wp (FindVMA target) Q s.
Proof.
  intros Hc Ht HN HS. unfold FindVMA. destruct (Z.leb_spec MAX_ADDRESS target); [by apply wp_ret, HN|].
  destruct (chain_find _ _ _ target Hc) as (m1 & v & m2 & Hm & Hv); [lia|].
  wp_step. apply wp_map_of. wp_step. rewrite Hm. rewrite Hm in Hc.
  apply (wp_deref _ v); [by eapply find_le_mid|]. apply wp_ret. by eapply HS.
Qed.

Lemma chain_replace1 a m1 v v1 v2 m2 b :
  chain a (m1 ++ v :: m2) b -> base v1 = base v -> 0 < size v1 -> base v2 = base v + size v1 -> 0 < size v2 ->
  size v1 + size v2 = size v -> chain a (m1 ++ v1 :: v2 :: m2) b.
Proof.
  intros Hc Hb1 Hs1 Hb2 Hs2 Hsum. apply area_split in Hc as (Hl & Hs & Hr). apply chain_app. exists (base v). cbn.
  split; [done|]. split; [done|]. split; [done|]. split; [lia|]. split; [done|].
  replace (base v + size v1 + size v2) with (base v + size v) by lia. done.
Qed.

Lemma vma_emplace_mid a m1 w v m2 b :
  chain a (m1 ++ w :: v :: m2) b -> vma_emplace v (m1 ++ w :: m2) = m1 ++ w :: v :: m2.
Proof.
  intros Hc. assert (Hlt : forall x, x ∈ m1 ++ [w] -> base x < base v).
  { intros x Hx. assert (Hc' : chain a ((m1 ++ [w]) ++ v :: m2) b) by (by rewrite <- app_assoc).
    apply (chain_left _ _ _ _ _ _ Hc') in Hx. lia. }
  assert (Hgt : forall x, head m2 = Some x -> base v < base x).
  { intros x Hx. destruct m2 as [|y m2]; [done|]. injection Hx as ->.
    assert (Hc' : chain a ((m1 ++ [w]) ++ v :: x :: m2) b) by (by rewrite <- app_assoc).
    apply area_split in Hc' as (_ & ? & ? & _). lia. }
  clear Hc. replace (m1 ++ w :: m2) with ((m1 ++ [w]) ++ m2) by (by rewrite <- app_assoc).
  replace (m1 ++ w :: v :: m2) with ((m1 ++ [w]) ++ v :: m2) by (by rewrite <- app_assoc).
  induction (m1 ++ [w]) as [|x l IH]; cbn.
  - destruct m2 as [|y m2]; [done|]. cbn. by rewrite (proj2 (Z.ltb_lt _ _)) by (by apply Hgt).
  - assert (base x < base v) by (apply Hlt; constructor).
    rewrite (proj2 (Z.ltb_ge _ _)), (proj2 (Z.eqb_neq _ _)) by lia. rewrite IH; [done|]. intros. apply Hlt. by constructor.
Qed.

Lemma wp_SplitVMA o (Q : VMAIter -> VmState -> Prop) m1 v m2 s :
  vma_map (vm s) = m1 ++ v :: m2 -> chain 0 (m1 ++ v :: m2) MAX_ADDRESS -> vma_ok v -> 0 < o < size v ->
  Q (Some (base v + o)) (with_map (m1 ++ split_left v o :: split_right v o :: m2) s) ->
  wp (SplitVMA (Some (base v)) o) Q s.
Proof.
  intros Hm Hc Hok Ho HQ. pose proof (chain_bounds _ _ _ v Hc ltac:(set_solver)) as Hb.
  assert (Hu : u32 (base v + o) = base v + o) by (apply MAX_ADDRESS_u32; lia).
  unfold SplitVMA. wp_step. eapply wp_get_vma; [done..|]. wp_step. wp_step; [apply Z.ltb_lt; lia|].
  wp_step. wp_step; [apply Z.ltb_lt; lia|]. wp_step. eapply wp_set_vma; [done..|]. wp_step.
  apply (wp_mono _ (fun n s' => n = split_right v o /\ s' = with_map (m1 ++ split_left v o :: m2) s)).
  { unfold split_right, set_field; cbn. rewrite Hu. destruct (type v) eqn:Ht.
    - apply wp_ret. split; unfold split_left, set_field; cbn; rewrite ?Ht; done.
    - destruct (ok_backing _ Hok Ht) as (b & off & Hvb & ? & ?). cbn. rewrite Hvb.
      wp_step. unfold ref_add. wp_step. wp_step; [cbn; apply Z.ltb_lt; lia|]. apply wp_ret, wp_ret.
      split; unfold split_left, set_field; cbn; rewrite ?Ht, ?Hvb; done.
    - apply wp_ret. split; unfold split_left, set_field; cbn; rewrite ?Ht; done. }
  intros n s' [-> ->]. wp_step. apply wp_CanBeMergedWith; [exact Hu|].
  change (v <| size := o |>) with (split_left v o). rewrite mergeable_split by done.
  wp_step. wp_step; [done|]. wp_step. apply wp_update_map. rewrite with_map_map. apply wp_ret. rewrite with_map_with.
  erewrite vma_emplace_mid; [exact HQ|]. eapply chain_replace1; [done|..]; cbn; lia.
Qed.

Lemma free_mergeable v w : vma_ok v -> vma_ok w -> type v = Free -> type w = Free -> mergeable v w = true.
Proof.
  intros Hv Hw Htv Htw. destruct (ok_free _ Hv Htv), (ok_free _ Hw Htw).
  apply mergeable_spec. split; [congruence|]. split; [congruence|]. split; [congruence|]. split; congruence.
Qed.
Lemma free_merged_app m1 v m2 : free_merged (m1 ++ v :: m2) <->
  free_merged (m1 ++ [v]) /\ free_merged (v :: m2).
Proof.
  induction m1 as [|w m1 IH]; [cbn; tauto|]. destruct m1 as [|x m1]; cbn in *; tauto.
Qed.
Lemma free_merged_snoc m1 v : free_merged (m1 ++ [v]) <->
  free_merged m1 /\ forall p, last m1 = Some p -> ~ (type p = Free /\ type v = Free).
Proof.
  induction m1 as [|w m1 IH]; [cbn; split; [by split|done]|]. destruct m1 as [|x m1].
  - cbn. split; [intros [Hn _]; split; [done|]; by intros p [= <-]|intros [_ Hp]; split; [by apply Hp|done]].
  - change (free_merged ((w :: x :: m1) ++ [v])) with (~ (type w = Free /\ type x = Free) /\ free_merged ((x :: m1) ++ [v])).
    rewrite IH. cbn [free_merged]. change (last (w :: x :: m1)) with (last (x :: m1)). tauto.
Qed.
Lemma free_merged_cons v m2 : free_merged (v :: m2) <->
  free_merged m2 /\ forall w, head m2 = Some w -> ~ (type v = Free /\ type w = Free).
Proof.
  destruct m2 as [|w m2]; cbn; [split; [by split|done]|].
  split; [intros [Hn Hm]; split; [done|]; by intros ? [= <-]|intros [Hm Hw]; split; [by apply Hw|done]].
Qed.

(** What [MergeAdjacent] leaves: the area [v] of [m1 ++ v :: m2] has become a
    part of [v'] in [m1' ++ v' :: m2'], and every address says what it said. *)
Record merged_into (m1 : vma_map_t) (v : VirtualMemoryArea) (m2 m1' : vma_map_t) (v' : VirtualMemoryArea) (m2' : vma_map_t)
    : Prop := {
  merged_ok : map_ok (m1' ++ v' :: m2');
  merged_view x : view (m1' ++ v' :: m2') x = view (m1 ++ v :: m2) x;
  merged_base : base v' <= base v;
  merged_right : (base v' + size v' = base v + size v /\ m2' = m2) \/
    (exists w, m2 = w :: m2' /\ mergeable v w = true /\ base v' + size v' = base w + size w);
}.

Lemma vma_erase_at l1 x l2 :
  (forall y, y ∈ l1 -> base y <> base x) -> (forall y, y ∈ l2 -> base y <> base x) -> vma_erase (base x) (l1 ++ x :: l2) = l1 ++ l2.
Proof.
  intros H1 H2. unfold vma_erase. rewrite filter_app, filter_cons_False by (intros Hn; by apply Hn). f_equal; by apply filter_all.
Qed.
(** Extending an area over the next one and erasing that. *)
Lemma vma_absorb a m1 v w m2 b :
  chain a (m1 ++ v :: w :: m2) b -> 0 <= a -> b <= MAX_ADDRESS ->
  vma_erase (base w) (vma_set (base v) (fun v => v <| size ::= fun x => u32 (x + size w) |>) (m1 ++ v :: w :: m2)) =
  m1 ++ merge_two v w :: m2.
Proof.
  intros Hc Ha Hb. pose proof (chain_bounds _ _ _ w Hc ltac:(set_solver)) as Hbw.
  pose proof (chain_bounds _ _ _ v Hc ltac:(set_solver)) as Hbv.
  pose proof (area_split _ _ _ _ _ Hc) as (H1 & _ & Hadj & _ & H2).
  erewrite vma_set_mid by done.
  replace (v <| size ::= fun x => u32 (x + size w) |>) with (merge_two v w)
    by (unfold merge_two, set_field; cbn; by rewrite MAX_ADDRESS_u32 by lia).
  rewrite (cons_middle (merge_two v w)), app_assoc, vma_erase_at, <- app_assoc; [done| |].
  - intros y [Hy| ->%list_elem_of_singleton]%elem_of_app; [|cbn; lia]. apply (chain_bounds _ _ _ _ H1) in Hy. lia.
  - intros y Hy. apply (chain_bounds _ _ _ _ H2) in Hy. lia.
Qed.

Lemma vma_map_merge_right (Hh : host_laws) m1 v w m2 :
  map_wf (m1 ++ v :: w :: m2) -> mergeable v w = true ->
  map_wf (m1 ++ merge_two v w :: m2) /\ forall x, view (m1 ++ merge_two v w :: m2) x = view (m1 ++ v :: w :: m2) x.
Proof.
  intros [Hc Hok] Hm. rewrite !Forall_app, !Forall_cons in Hok. destruct Hok as (Hok1 & Hv & Hw & Hok2).
  pose proof (area_split _ _ _ _ _ Hc) as (H1 & Hsv & Hadj & Hsw & H2).
  assert (Hcm : chain (base v) [merge_two v w] (base w + size w)) by (cbn; lia).
  assert (Hcvw : chain (base v) [v; w] (base w + size w)) by (cbn; lia).
  split.
  - split.
    + apply chain_app. exists (base v). split; [done|]. cbn. split; [done|]. split; [lia|].
      replace (base v + (size v + size w)) with (base v + size v + size w) by lia. done.
    + rewrite !Forall_app, !Forall_cons. split; [done|]. split; [|done]. by apply merge_two_ok.
  - intros x. rewrite (view_replace 0 m1 [v; w] [merge_two v w] m2 MAX_ADDRESS (base v) (base w + size w) H1 Hcvw Hcm); [|by rewrite Hadj].
    destruct ((base v <=? x) && (x <? base w + size w)) eqn:Hx; [|done]. apply in_range_spec in Hx.
    rewrite view_single by (cbn; lia). destruct (decide (x < base v + size v)).
    + change (m1 ++ v :: w :: m2) with (m1 ++ v :: (w :: m2)). by rewrite (view_mid _ _ _ _ _ _ Hc) by lia.
    + rewrite <- mergeable_cell by done.
      replace (m1 ++ v :: w :: m2) with ((m1 ++ [v]) ++ w :: m2) in Hc |- * by (by rewrite <- app_assoc).
      by rewrite (view_mid _ _ _ _ _ _ Hc) by lia.
Qed.

Lemma wp_MergeAdjacent (Hh : host_laws) (Q : VMAIter -> VmState -> Prop) m1 v m2 s :
  vma_map (vm s) = m1 ++ v :: m2 -> map_wf (m1 ++ v :: m2) -> free_merged m1 -> free_merged m2 ->
  (forall m1' v' m2', merged_into m1 v m2 m1' v' m2' -> Q (Some (base v')) (with_map (m1' ++ v' :: m2') s)) ->
  wp (MergeAdjacent (Some (base v))) Q s.
Proof.
  intros Hm Hwf Hf1 Hf2 HQ. unfold MergeAdjacent. pose proof (wf_chain _ Hwf) as Hc.
  wp_step. eapply wp_get_vma; [done..|]. wp_step. apply wp_map_of. rewrite Hm. erewrite vma_next_mid by done.
  (* the area to the right *)
  wp_step. apply (wp_mono _ (fun _ s1 => exists v1 m2', s1 = with_map (m1 ++ v1 :: m2') s /\ map_wf (m1 ++ v1 :: m2') /\
    (forall x, view (m1 ++ v1 :: m2') x = view (m1 ++ v :: m2) x) /\ base v1 = base v /\ free_merged (v1 :: m2') /\
    ((base v1 + size v1 = base v + size v /\ m2' = m2) \/
     (exists w, m2 = w :: m2' /\ mergeable v w = true /\ base v1 + size v1 = base w + size w)))).
  { destruct m2 as [|w m2]; cbn [head fmap option_fmap option_map].
    { apply wp_ret. exists v, []. rewrite <- Hm, with_map_id. rewrite Hm. by repeat (split; [done|]); left. }
    assert (Hc' : chain 0 ((m1 ++ [v]) ++ w :: m2) MAX_ADDRESS) by (by rewrite <- app_assoc).
    pose proof (area_split _ _ _ _ _ Hc) as (_ & Hsv & Hadj & Hsw & _).
    pose proof (chain_bounds _ _ _ w Hc ltac:(set_solver)) as Hbw.
    pose proof (chain_bounds _ _ _ v Hc ltac:(set_solver)) as Hbv.
    wp_step. eapply (wp_get_vma _ w _ (m1 ++ [v]) m2); [by rewrite Hm, <- app_assoc|exact Hc'|done|].
    wp_step. apply wp_CanBeMergedWith; [rewrite MAX_ADDRESS_u32 by lia; lia|].
    destruct (mergeable v w) eqn:Hmg.
    - wp_step. apply wp_update_map, wp_update_map. rewrite with_map_map, with_map_with, Hm.
      erewrite vma_absorb by (done || lia).
      destruct (vma_map_merge_right Hh m1 v w m2 Hwf Hmg) as [Hwf' Hview].
      exists (merge_two v w), m2. split; [done|]. split; [done|]. split; [done|]. split; [done|].
      apply free_merged_cons in Hf2 as [Hf2 Hw2]. apply mergeable_spec in Hmg as Hmg'. split.
      + apply free_merged_cons. split; [done|]. intros x Hx. cbn. rewrite (proj1 (proj2 (proj2 Hmg'))). by apply Hw2.
      + right. exists w. cbn. split; [done|]. split; [done|lia].
    - apply wp_ret. exists v, (w :: m2). rewrite <- Hm, with_map_id. rewrite Hm. do 4 (split; [done|]).
      split; [|by left]. apply free_merged_cons. split; [done|]. intros x [= <-] [Htv Htw].
      pose proof (wf_areas _ Hwf) as Hok. rewrite !Forall_app, !Forall_cons in Hok. destruct Hok as (_ & Hv & Hw & _).
      by rewrite free_mergeable in Hmg. }
  clear Hm Hc. intros [] s1 (v1 & m2' & -> & Hwf1 & Hview1 & Hbase & Hfm & Hright). rewrite <- Hbase.
  pose proof (wf_chain _ Hwf1) as Hc1.
  wp_step. eapply wp_get_vma; [done..|]. wp_step. apply wp_map_of. rewrite with_map_map. erewrite vma_prev_mid by done.
  destruct m1 as [|p m0 _] using rev_ind.
  { apply wp_ret. apply HQ. split; [by split|done|lia|]. rewrite Hbase in *. done. }
  rewrite last_snoc. cbn [fmap option_fmap option_map]. apply free_merged_snoc in Hf1 as [Hf0 Hfp].
  replace ((m0 ++ [p]) ++ v1 :: m2') with (m0 ++ p :: v1 :: m2') in * by (by rewrite <- app_assoc).
  pose proof (area_split _ _ _ _ _ Hc1) as (_ & Hsp & Hadj & Hsv1 & _).
  pose proof (chain_bounds _ _ _ v1 Hc1 ltac:(set_solver)) as Hbv.
  pose proof (chain_bounds _ _ _ p Hc1 ltac:(set_solver)) as Hbp.
  wp_step. eapply (wp_get_vma _ p _ m0 (v1 :: m2')); [done|exact Hc1|done|].
  wp_step. apply wp_CanBeMergedWith; [rewrite MAX_ADDRESS_u32 by lia; lia|].
  destruct (mergeable p v1) eqn:Hmg.
  - wp_step. apply wp_update_map. wp_step. apply wp_update_map. rewrite !with_map_map, !with_map_with.
    erewrite vma_absorb by (done || lia). apply wp_ret. rewrite Hbase in *.
    destruct (vma_map_merge_right Hh m0 p v1 m2' Hwf1 Hmg) as [Hwf' Hview].
    change (base p) with (base (merge_two p v1)). apply HQ. split; [split; [done|]| |cbn; lia|].
    + apply free_merged_app. apply free_merged_cons in Hfm as [Hfm Hv1]. apply mergeable_spec in Hmg as Hmg'. split.
      * apply free_merged_snoc. done.
      * apply free_merged_cons. split; [done|]. intros x Hx. cbn. rewrite (proj1 (proj2 (proj2 Hmg'))). by apply Hv1.
    + intros x. by rewrite Hview, Hview1.
    + cbn. rewrite Z.add_assoc. replace (base p + size p) with (base v) by lia. done.
  - apply wp_ret. replace (m0 ++ p :: v1 :: m2') with ((m0 ++ [p]) ++ v1 :: m2') in * by (by rewrite <- app_assoc).
    apply HQ. split; [split; [done|]|done|lia|]; [|by rewrite Hbase in *].
    apply free_merged_app. split; [|done]. apply free_merged_snoc. split; [by apply free_merged_snoc|].
    intros x. rewrite last_snoc. intros [= <-] [Htp Htv].
    pose proof (wf_areas _ Hwf1) as Hok. rewrite !Forall_app, !Forall_cons in Hok. destruct Hok as ((_ & Hp & _) & Hv & _).
    by rewrite free_mergeable in Hmg.
Qed.

(** *** The page table follows the map *)

Definition ptype (t : VMAType) : PageType :=
  match t with Free => Unmapped | BackingMemory => MemoryPage | MMIO => Special end.
(** Page [i] of the table is mapped as its cell says. *)
Definition page_agrees (cm : CacheMarker) (c : cell) (i : Z) (t : PageTable) : Prop :=
  attribute_at i t = mapped_attribute cm (ptype (c_type c)) i /\
  pointer_at i t = if mapped_cached cm (ptype (c_type c)) i then None else c_ref c.
Definition table_agrees (s : VmState) : Prop :=
  exists t, page_tables (memory s) !! page_table (vm s) = Some t /\
    forall i c, view (vma_map (vm s)) (i * CITRA_PAGE_SIZE) = Some c -> page_agrees (cache_marker (memory s)) c i t.
(** What the operations never change. *)
Record frame (s s' : VmState) : Prop := {
  frame_table : page_table (vm s') = page_table (vm s);
  frame_locked : is_locked (vm s') = is_locked (vm s);
  frame_marker : cache_marker (memory s') = cache_marker (memory s);
  frame_current : current_page_table (memory s') = current_page_table (memory s);
  frame_list : page_table_list (memory s') = page_table_list (memory s);
  frame_others pt : pt <> page_table (vm s) -> page_tables (memory s') !! pt = page_tables (memory s) !! pt;
}.
#[export] Instance frame_preorder : PreOrder frame.
Proof.
  split; [done|]. intros s1 s2 s3 [H1 H2 H3 H4 H5 H6] [K1 K2 K3 K4 K5 K6]. split; try congruence.
  intros pt Hpt. rewrite K6 by congruence. by apply H6.
Qed.
Record vm_ok (s : VmState) : Prop := {
  vm_map : map_ok (vma_map (vm s));
  vm_table : table_agrees s;
  vm_unlocked : is_locked (vm s) = false;
}.

Lemma wp_memory_op {A} (m : Prelude.M (MemorySystem D) A) (Q : A -> VmState -> Prop) s :
  wp m (fun a t => Q a (s <| memory := t |>)) (memory s) -> wp (memory_op m) Q s.
Proof. unfold wp, memory_op, zoom. by destruct (m (memory s)) as [[a t]|]. Qed.

Lemma wp_map_pages (Hh : host_laws) pt v t ms :
  page_tables ms !! pt = Some t -> page_region (base v) (size v) -> vma_ok v ->
  wp (match type v with
      | Free => UnmapRegion pt (base v) (size v)
      | BackingMemory => MapMemoryRegion pt (base v) (size v) (backing_memory v)
      | MMIO => MapIoRegion pt (base v) (size v) (mmio_handler v)
      end) (fun _ ms' => exists t', remapped pt t' ms ms' /\
        pages_mapped (cache_marker ms) (ptype (type v))
          (if bool_decide (type v = BackingMemory) then backing_memory v else None)
          (base v / CITRA_PAGE_SIZE) (size v / CITRA_PAGE_SIZE) t t') ms.
Proof.
  intros Ht Hr Hok. destruct (type v) eqn:Hty.
  - eapply wp_mono; [by apply (UnmapRegion_spec Hh pt _ _ t)|]. cbn beta. intros [] s' (t' & ? & ? & _). exists t'. by split.
  - eapply wp_mono; [apply (MapMemoryRegion_spec Hh pt _ _ _ t); [done|done|]|].
    + destruct (ok_backing _ Hok Hty) as (b & o & -> & ? & ?). cbn. split; [done|].
      destruct Hr as (_ & _ & _ & _ & Hs). unfold CITRA_PAGE_SIZE in *. clear -H2 Hs. Z.to_euclidean_division_equations. lia.
    + cbn beta. intros [] s' (t' & ? & ? & _). exists t'. by split.
  - eapply wp_mono; [by apply (MapIoRegion_spec Hh pt _ _ _ t)|]. cbn beta. intros [] s' (t' & ? & ? & _). exists t'. by split.
Qed.

Lemma area_region a m b v : chain a m b -> 0 <= a -> b <= MAX_ADDRESS -> v ∈ m -> vma_ok v -> page_region (base v) (size v).
Proof.
  intros Hc Ha Hb Hv Hok. apply (chain_bounds _ _ _ _ Hc) in Hv. unfold MAX_ADDRESS in Hb.
  split; [lia|]. split; [lia|]. split; [lia|]. split; apply Hok.
Qed.

Lemma wp_set_update (Hh : host_laws) {B} m1 v m2 v' s (k : M B) (Q : B -> VmState -> Prop) :
  vma_map (vm s) = m1 ++ v :: m2 -> map_wf (m1 ++ v :: m2) -> base v' = base v -> size v' = size v -> vma_ok v' ->
  table_agrees s ->
  (forall s1, vma_map (vm s1) = m1 ++ v' :: m2 -> map_wf (m1 ++ v' :: m2) -> table_agrees s1 -> frame s s1 -> wp k Q s1) ->
  wp (set_vma (base v) (fun _ => v');; UpdatePageTableForVMA v';; k) Q s.
Proof.
  intros Hm Hwf Hb Hs Hok' (t & Ht & Hagree) Hk. pose proof (wf_chain _ Hwf) as Hc.
  pose proof (area_split _ _ _ _ _ Hc) as (Hc1 & Hsz & Hc2).
  assert (Hwf' : map_wf (m1 ++ v' :: m2)).
  { split; [apply chain_app; exists (base v); cbn; by rewrite Hb, Hs|].
    pose proof (wf_areas _ Hwf) as Hok. rewrite Forall_app, Forall_cons in Hok |- *. tauto. }
  wp_step. eapply wp_set_vma; [done..|]. set (s0 := with_map (m1 ++ v' :: m2) s).
  wp_step. unfold UpdatePageTableForVMA. wp_step. wp_step. wp_step. apply wp_memory_op.
  assert (Hr : page_region (base v') (size v')).
  { eapply area_region; [apply (wf_chain _ Hwf')|done|done|set_solver|done]. }
  eapply wp_mono; [apply (wp_map_pages Hh (page_table (vm s0)) v' t); done|].
  cbn beta. intros [] ms' (t' & [Hre1 Hre2 Hre3 Hre4 Hre5 Hre6] & [Ha Hp]). wp_step.
  apply Hk; [done|done| |].
  - exists t'. cbn. split; [rewrite Hre1; apply lookup_insert_eq|]. rewrite Hre3. intros i c Hview.
    destruct Hr as (_ & _ & _ & Hbm & Hsm).
    change (view (m1 ++ v' :: m2) (i * CITRA_PAGE_SIZE) = Some c) in Hview. rewrite (view_replace1 _ _ _ _ _ _ _ Hc Hb Hs) in Hview. unfold page_agrees. rewrite Ha, Hp.
    assert (Hin : (base v' / CITRA_PAGE_SIZE <=? i) && (i <? base v' / CITRA_PAGE_SIZE + size v' / CITRA_PAGE_SIZE) =
      (base v <=? i * CITRA_PAGE_SIZE) && (i * CITRA_PAGE_SIZE <? base v + size v)).
    { apply eq_true_iff_eq. rewrite !in_range_spec, <- Hb, <- Hs. clear -Hbm Hsm. unfold CITRA_PAGE_SIZE in *.
      Z.to_euclidean_division_equations. lia. }
    rewrite Hin. destruct (_ && _) eqn:Hrange; [|rewrite <- Hm in Hview; by apply Hagree].
    apply in_range_spec in Hrange. injection Hview as <-. unfold cell_of. cbn.
    split; [done|]. unfold mapped_pointer. change (memory s0) with (memory s).
    destruct (mapped_cached (cache_marker (memory s)) (ptype (type v')) i); [done|].
    case_bool; [|done]. destruct (backing_memory v') as [[b o]|]; [|done]. cbn. do 2 f_equal.
    clear -Hbm. unfold CITRA_PAGE_SIZE in *. Z.to_euclidean_division_equations. lia.
  - split; cbn; try done. intros pt Hpt. rewrite Hre1. by rewrite lookup_insert_ne.
Qed.

(** [v] becomes [v'] and is merged with its neighbours. *)
Record changed (m1 : vma_map_t) (v : VirtualMemoryArea) (m2 : vma_map_t) (v' : VirtualMemoryArea) (s s' : VmState) (it : VMAIter)
    : Prop := {
  changed_ok : map_ok (vma_map (vm s'));
  changed_table : table_agrees s';
  changed_frame : frame s s';
  changed_view x : view (vma_map (vm s')) x =
    if (base v <=? x) && (x <? base v + size v) then Some (cell_of v' x) else view (m1 ++ v :: m2) x;
  changed_at : exists m1' w m2', vma_map (vm s') = m1' ++ w :: m2' /\ it = Some (base w) /\ base w <= base v /\
    ((base w + size w = base v + size v /\ m2' = m2) \/
     (exists n, m2 = n :: m2' /\ mergeable v' n = true /\ base w + size w = base n + size n));
}.
Lemma wp_change (Hh : host_laws) {B} m1 v m2 v' s (k : VMAIter -> M B) (Q : B -> VmState -> Prop) :
  vma_map (vm s) = m1 ++ v :: m2 -> map_wf (m1 ++ v :: m2) -> free_merged m1 -> free_merged m2 ->
  base v' = base v -> size v' = size v -> vma_ok v' -> table_agrees s ->
  (forall it s1, changed m1 v m2 v' s s1 it -> wp (k it) Q s1) ->
  wp (set_vma (base v) (fun _ => v');; UpdatePageTableForVMA v';; it ← MergeAdjacent (Some (base v)); k it) Q s.
Proof.
  intros Hm Hwf Hf1 Hf2 Hb Hs Hok' Hag Hk. eapply wp_set_update; [done..|]. intros s1 Hm1 Hwf1 Hag1 Hfr. wp_step.
  rewrite <- Hb. eapply wp_MergeAdjacent; [done..|]. intros m1' w m2' [Hok Hview Hbw Hright].
  apply Hk. pose proof (wf_chain _ Hwf) as Hc. pose proof (area_split _ _ _ _ _ Hc) as (Hc1 & Hsz & Hc2). split.
  - exact Hok.
  - destruct Hag1 as (t & Ht & Hag1). exists t. split; [done|]. intros i c. rewrite with_map_map, Hview, <- Hm1. apply Hag1.
  - etrans; [exact Hfr|]. done.
  - intros x. rewrite with_map_map, Hview.
    by apply (view_replace1 _ _ _ _ _ _ _ Hc).
  - exists m1', w, m2'. split; [done|]. split; [done|]. rewrite Hb, Hs in *. split; [lia|]. done.
Qed.

Lemma wp_change' (Hh : host_laws) m1 v m2 v' s (Q : VMAIter -> VmState -> Prop) :
  vma_map (vm s) = m1 ++ v :: m2 -> map_wf (m1 ++ v :: m2) -> free_merged m1 -> free_merged m2 ->
  base v' = base v -> size v' = size v -> vma_ok v' -> table_agrees s ->
  (forall it s1, changed m1 v m2 v' s s1 it -> Q it s1) ->
  wp (set_vma (base v) (fun _ => v');; UpdatePageTableForVMA v';; MergeAdjacent (Some (base v))) Q s.
Proof.
  intros. pose proof (wp_change Hh m1 v m2 v' s mret Q) as Hw. do 8 (specialize (Hw ltac:(done))). specialize (Hw ltac:(done)).
  apply wp_unbind in Hw. apply wp_bind. eapply wp_mono; [exact Hw|]. intros [] s1 Hw1. cbn beta in Hw1.
  apply wp_unbind in Hw1. apply wp_bind. eapply wp_mono; [exact Hw1|]. intros [] s2 Hw2. cbn beta in Hw2.
  apply wp_unbind in Hw2. eapply wp_mono; [exact Hw2|]. done.
Qed.

(** *** Carving *)

Lemma split_view (Hh : host_laws) m1 v m2 o :
  map_wf (m1 ++ v :: m2) -> 0 < o < size v -> o mod CITRA_PAGE_SIZE = 0 ->
  map_wf (m1 ++ split_left v o :: split_right v o :: m2) /\
  forall x, view (m1 ++ split_left v o :: split_right v o :: m2) x = view (m1 ++ v :: m2) x.
Proof.
  intros [Hc Hok] Ho Hm. rewrite Forall_app, Forall_cons in Hok. destruct Hok as (Hok1 & Hv & Hok2).
  destruct (split_ok v o Hv Ho Hm) as [Hl Hr].
  assert (Hc' : chain 0 (m1 ++ split_left v o :: split_right v o :: m2) MAX_ADDRESS).
  { eapply chain_replace1; [done|..]; cbn; lia. }
  split; [split; [done|]; rewrite Forall_app, !Forall_cons; done|].
  intros x. pose proof (area_split _ _ _ _ _ Hc) as (H1 & Hs & H2).
  rewrite (view_replace 0 m1 [v] [split_left v o; split_right v o] m2 MAX_ADDRESS (base v) (base v + size v) H1); [|cbn; lia..|done].
  destruct (_ && _) eqn:Hx; [|done]. apply in_range_spec in Hx.
  change (v :: m2) with ([v] ++ m2). rewrite (view_mid _ _ _ _ _ _ Hc) by done.
  unfold view. cbn [find]. unfold covers. cbn [base size split_left split_right]. destruct (decide (x < base v + o)).
  - rewrite in_range_true by (cbn; lia). done.
  - rewrite in_range_false by (cbn; lia). rewrite in_range_true by (cbn; lia). cbn. by rewrite split_right_cell.
Qed.

Definition all_free (m : vma_map_t) (a b : VAddr) : Prop :=
  forall x, a <= x < b -> exists c, view m x = Some c /\ c_type c = Free.

(** Free addresses in a row are in one free area. *)
Lemma free_run m1 v m2 x e :
  map_ok (m1 ++ v :: m2) -> base v <= x < base v + size v -> x < e -> all_free (m1 ++ v :: m2) x e ->
  type v = Free /\ e <= base v + size v.
Proof.
  intros [[Hc Hok] Hf] Hx He Hall.
  assert (Hv : type v = Free).
  { destruct (Hall x) as (c & Hview & Ht); [lia|]. rewrite (view_mid _ _ _ _ _ _ Hc Hx) in Hview. by simplify_eq. }
  split; [done|]. destruct (decide (e <= base v + size v)); [done|exfalso].
  apply free_merged_app in Hf as [_ Hf]. apply free_merged_cons in Hf as [_ Hw].
  pose proof (area_split _ _ _ _ _ Hc) as (_ & Hs & Hc2).
  destruct (Hall (base v + size v)) as (c & Hview & Ht); [lia|]. destruct m2 as [|w m2].
  - cbn in Hc2. unfold view in Hview. rewrite find_none in Hview; [done|].
    intros y Hy. apply (chain_bounds _ _ _ _ Hc) in Hy. apply in_range_false. lia.
  - destruct Hc2 as (Hbw & Hsw & _). apply (Hw w); [done|]. split; [done|].
    replace (m1 ++ v :: w :: m2) with ((m1 ++ [v]) ++ w :: m2) in Hc, Hview by (by rewrite <- app_assoc).
    rewrite (view_mid _ _ _ _ _ _ Hc) in Hview by lia. by simplify_eq.
Qed.

Lemma wp_assert_aligned_range b n (Q : unit -> VmState -> Prop) s :
  b mod CITRA_PAGE_SIZE = 0 -> n mod CITRA_PAGE_SIZE = 0 -> Q tt s -> wp (assert_aligned_range b n) Q s.
Proof. intros Hb Hn HQ. unfold assert_aligned_range. rewrite !aligned_land, Hb, Hn. done. Qed.

(** A place carved out of a free area. *)
Record carved (target n : Z) (s s' : VmState) (m1 : vma_map_t) (v : VirtualMemoryArea) (m2 : vma_map_t) : Prop := {
  carved_state : s' = with_map (m1 ++ v :: m2) s;
  carved_wf : map_wf (m1 ++ v :: m2);
  carved_left : free_merged m1;
  carved_right : free_merged m2;
  carved_area : base v = target /\ size v = n /\ type v = Free;
  carved_view x : view (m1 ++ v :: m2) x = view (vma_map (vm s)) x;
}.

Lemma wp_CarveVMA (Hh : host_laws) target n (Q : ResultVal VMAIter -> VmState -> Prop) s :
  map_ok (vma_map (vm s)) -> 0 <= target -> 0 < n -> target + n < 2 ^ 32 ->
  target mod CITRA_PAGE_SIZE = 0 -> n mod CITRA_PAGE_SIZE = 0 ->
  (all_free (vma_map (vm s)) target (target + n) ->
     forall s' m1 v m2, carved target n s s' m1 v m2 -> Q (Success (Some (base v))) s') ->
  (~ all_free (vma_map (vm s)) target (target + n) ->
     Q (Failure (if MAX_ADDRESS <=? target then ERR_INVALID_ADDRESS else ERR_INVALID_ADDRESS_STATE)) s) ->
  wp (CarveVMA target n) Q s.
Proof.
  intros Hok Ht Hn He Hta Hna HS HF. pose proof (wf_chain _ (ok_wf _ Hok)) as Hc. unfold CarveVMA.
  wp_step. apply wp_assert_aligned_range; [done..|]. wp_step. apply wp_FindVMA; [done|done| |].
  { intros Hge. apply wp_ret. rewrite (proj2 (Z.leb_le _ _)) in HF by done. apply HF. intros Hall.
    destruct (Hall target) as (c & Hv & _); [lia|]. by rewrite (view_out _ _ _ _ Hc) in Hv by lia. }
  intros m1 v m2 Hm Hv. rewrite Hm in Hok, Hc, HS, HF. pose proof (chain_bounds _ _ _ v Hc ltac:(set_solver)) as Hb.
  rewrite (proj2 (Z.leb_gt _ _)) in HF by lia.
  wp_step. eapply wp_get_vma; [done..|].
  destruct (decide (type v = Free)) as [Htf|Htf]; [rewrite bool_decide_eq_true_2 by done|rewrite bool_decide_eq_false_2 by done]; cbn [negb].
  2:{ apply wp_ret, HF. intros Hall. by destruct (free_run _ _ _ target (target + n) Hok Hv ltac:(lia) Hall). }
  rewrite (u32_small (target - base v)), (u32_small (target - base v + n)) by (unfold MAX_ADDRESS, is_u32 in *; lia).
  destruct (Z.ltb_spec (size v) (target - base v + n)) as [Hlt|Hge].
  { apply wp_ret, HF. intros Hall. destruct (free_run _ _ _ target (target + n) Hok Hv ltac:(lia) Hall). lia. }
  assert (Hall : all_free (m1 ++ v :: m2) target (target + n)).
  { intros x Hx. rewrite (view_mid _ _ _ _ _ _ Hc) by lia. eexists. done. }
  specialize (HS Hall). clear HF Hall. pose proof (ok_merged _ Hok) as Hfm.
  apply free_merged_app in Hfm as [Hf1 Hf2]. apply free_merged_snoc in Hf1 as [Hf1 Hp1]. apply free_merged_cons in Hf2 as [Hf2 Hn2].
  assert (Hvok : vma_ok v) by (pose proof (wf_areas _ (ok_wf _ Hok)) as Ha; rewrite Forall_app, Forall_cons in Ha; tauto).
  assert (Hmod : forall k, (target - base v + k) mod CITRA_PAGE_SIZE = k mod CITRA_PAGE_SIZE).
  { intros k. pose proof (ok_base _ Hvok). unfold CITRA_PAGE_SIZE in *. Z.to_euclidean_division_equations. lia. }
  (* the end of the place *)
  wp_step. apply (wp_mono _ (fun _ s1 => exists w k, s1 = with_map (m1 ++ w :: k) s /\ map_wf (m1 ++ w :: k) /\ free_merged k /\
    base w = base v /\ size w = target - base v + n /\ type w = Free /\ forall x, view (m1 ++ w :: k) x = view (m1 ++ v :: m2) x)).
  { destruct (Z.eqb_spec (target - base v + n) (size v)) as [Heq|Hne]; cbn [negb].
    - apply wp_ret. exists v, m2. rewrite <- Hm, with_map_id. rewrite Hm. split; [done|]. split; [apply Hok|]. done.
    - wp_step. eapply wp_SplitVMA; [done|done|done|lia|]. apply wp_ret.
      destruct (split_view Hh m1 v m2 (target - base v + n) (ok_wf _ Hok)) as [Hwf' Hview]; [lia|by rewrite Hmod|].
      exists (split_left v (target - base v + n)), (split_right v (target - base v + n) :: m2).
      split; [done|]. split; [done|]. split; [|done]. by apply free_merged_cons. }
  intros [] s1 (w & k & -> & Hwf1 & Hfk & Hbw & Hsw & Htw & Hview1). pose proof (wf_chain _ Hwf1) as Hc1.
  (* its start *)
  destruct (Z.eqb_spec (target - base v) 0) as [Heq|Hne]; cbn [negb]; rewrite <- Hbw in *.
  - wp_step. apply wp_ret, wp_ret. apply (HS _ m1 w k). split; [done|done|done|done| |by rewrite Hm].
    split; [lia|]. split; [lia|done].
  - assert (Hwok : vma_ok w) by (pose proof (wf_areas _ Hwf1) as Ha; rewrite Forall_app, Forall_cons in Ha; tauto).
    wp_step. eapply wp_SplitVMA; [done|done|done|lia|].
    destruct (split_view Hh m1 w k (target - base w) Hwf1) as [Hwf2 Hview2]; [lia| |].
    { specialize (Hmod 0). by rewrite Z.add_0_r in Hmod. }
    apply wp_ret. change (base w + (target - base w)) with (base (split_right w (target - base w))).
    rewrite with_map_with.
    apply (HS (with_map (m1 ++ split_left w (target - base w) :: split_right w (target - base w) :: k) s)
      (m1 ++ [split_left w (target - base w)]) (split_right w (target - base w)) k).
    split; [by rewrite <- app_assoc|by rewrite <- app_assoc| |done| |].
    + apply free_merged_snoc. split; [done|]. intros p Hp [Hp' _]. by apply (Hp1 p Hp).
    + cbn. split; [lia|]. split; [lia|done].
    + intros x. rewrite <- app_assoc. cbn [app]. by rewrite Hview2, Hview1, Hm.
Qed.

Lemma view_table_agrees m s : (forall x, view m x = view (vma_map (vm s)) x) -> table_agrees s -> table_agrees (with_map m s).
Proof. intros Hview (t & Ht & Hag). exists t. split; [done|]. intros i c. rewrite with_map_map, Hview. apply Hag. Qed.

(** Both ways of mapping: the carved area gets the attributes of [v'] and is merged. *)
Lemma wp_place (Hh : host_laws) target n s s' m1 v m2 v' (Q : ResultVal VMAIter -> VmState -> Prop) :
  carved target n s s' m1 v m2 -> table_agrees s -> is_locked (vm s) = false ->
  base v' = target -> size v' = n -> vma_ok v' ->
  (forall it s2, vm_ok s2 -> frame s s2 -> (forall x, view (vma_map (vm s2)) x =
     if (target <=? x) && (x <? target + n) then Some (cell_of v' x) else view (vma_map (vm s)) x) -> Q (Success it) s2) ->
  wp (set_vma (base v) (fun _ => v');; UpdatePageTableForVMA v';; it ← MergeAdjacent (Some (base v)); mret (Success it)) Q s'.
Proof.
  intros [-> Hwf Hf1 Hf2 (Hb & Hs & _) Hview] Hag Hl Hb' Hs' Hok' HQ.
  eapply wp_change; [done..|congruence|congruence|done|by apply view_table_agrees|].
  intros it s2 [Hok2 Hag2 Hfr Hview2 _]. apply wp_ret. apply HQ.
  - split; [done|done|]. by rewrite (frame_locked _ _ Hfr).
  - transitivity (with_map (m1 ++ v :: m2) s); [by split|exact Hfr].
  - intros x. by rewrite Hview2, Hb, Hs, Hview.
Qed.

Lemma wp_assert_unlocked (Q : unit -> VmState -> Prop) s : is_locked (vm s) = false -> Q tt s -> wp assert_unlocked Q s.
Proof. intros Hl HQ. unfold assert_unlocked. wp_step. wp_step. wp_step; [by rewrite Hl|done]. Qed.

(** What mapping a place to the cells [c] gives. *)
Definition mapping_outcome (s : VmState) (target n : Z) (c : VAddr -> cell) (r : ResultVal VMAIter) (s' : VmState) : Prop :=
  (all_free (vma_map (vm s)) target (target + n) /\ (exists it, r = Success it) /\ vm_ok s' /\ frame s s' /\
   forall x, view (vma_map (vm s')) x =
     if (target <=? x) && (x <? target + n) then Some (c x) else view (vma_map (vm s)) x) \/
  (~ all_free (vma_map (vm s)) target (target + n) /\
   r = Failure (if MAX_ADDRESS <=? target then ERR_INVALID_ADDRESS else ERR_INVALID_ADDRESS_STATE) /\ s' = s).

(** The arguments of a mapping: a range of pages of the address space. *)
Record place (target n : Z) : Prop := {
  place_start : 0 <= target;
  place_size : 0 < n;
  place_end : target + n < 2 ^ 32;
  place_aligned : target mod CITRA_PAGE_SIZE = 0;
  place_pages : n mod CITRA_PAGE_SIZE = 0;
}.

Lemma wp_mapping (Hh : host_laws) target n (f : VirtualMemoryArea -> VirtualMemoryArea) c s :
  vm_ok s -> place target n ->
  (forall v, type v = Free -> vma_ok v -> base v = target -> size v = n ->
     base (f v) = target /\ size (f v) = n /\ vma_ok (f v) /\ forall x, cell_of (f v) x = c x) ->
  wp (CASCADE_RESULT vma_handle := CarveVMA target n;
      v ← get_vma vma_handle; ASSERT (size v =? n);;
      set_vma (base v) (fun _ => f v);; UpdatePageTableForVMA (f v);;
      it ← MergeAdjacent vma_handle; mret (Success it)) (mapping_outcome s target n c) s.
Proof.
  intros [Hmap Htab Hl] [] Hf. apply wp_bind. apply wp_CarveVMA; [done..| |].
  - intros Hfree s1 m1 v m2 Hc. destruct (Hc) as [-> Hwf _ _ (Hb & Hs & Ht) _]. cbn beta iota.
    assert (Hok : vma_ok v) by (pose proof (wf_areas _ Hwf) as Ha; rewrite Forall_app, Forall_cons in Ha; tauto).
    destruct (Hf v) as (Hb' & Hs' & Hok' & Hcell); [done..|].
    wp_step. eapply wp_get_vma; [done|apply (wf_chain _ Hwf)|done|].
    wp_step. wp_step; [by apply Z.eqb_eq|]. eapply wp_place; [done..|]. intros it s2 Hok2 Hfr Hview.
    left. split; [done|]. split; [by exists it|]. split; [done|]. split; [done|].
    intros x. rewrite Hview. by destruct (_ && _); [rewrite Hcell|].
  - intros Hn. cbn beta iota. apply wp_ret. by right.
Qed.

Lemma wp_MapBackingMemory (Hh : host_laws) target b o n state s :
  vm_ok s -> place target n -> 0 <= o -> o + n <= backing_size b ->
  wp (MapBackingMemory target (Some (b, o)) n state)
     (mapping_outcome s target n (fun x => mkCell BackingMemory Perm.ReadWrite state (Some (b, o + (x - target))) 0)) s.
Proof.
  intros Hok Hp Ho Hob. unfold MapBackingMemory. wp_step. apply wp_assert_unlocked; [apply Hok|].
  wp_step. wp_step. { pose proof (host_positive Hh b). cbn. apply negb_true_iff, Z.eqb_neq. lia. }
  apply (wp_mapping Hh target n (fun v => v <| type := BackingMemory |> <| permissions := Perm.ReadWrite |>
    <| meminfo_state := state |> <| backing_memory := Some (b, o) |>)); [done..|].
  intros v Ht Hv Hb Hs. split; [done|]. split; [done|]. split.
  - split; cbn; try done; [apply Hv..|]. intros _. exists b, o. rewrite Hs. done.
  - intros x. unfold cell_of. cbn. by rewrite Hb.
Qed.

(** C26: Mapping host memory at a range of pages. It succeeds exactly when
    every address of the range is free; then each address of the range refers to
    the byte of the host memory at the same distance, every other address keeps
    its attributes, no free areas are left adjacent, and the page table agrees
    with the areas again. Otherwise the error tells an address outside the
    address space from an occupied one, and nothing changes. *)
Theorem MapBackingMemory_spec (Hh : host_laws) target b o n state s :
  vm_ok s -> place target n -> 0 <= o -> o + n <= backing_size b ->
  wp (MapBackingMemory target (Some (b, o)) n state)
     (mapping_outcome s target n (fun x => mkCell BackingMemory Perm.ReadWrite state (Some (b, o + (x - target))) 0)) s.
Proof. apply (wp_MapBackingMemory Hh target b o n state s). Qed.

Lemma MapMMIO_spec (Hh : host_laws) target pa n state handler s :
  vm_ok s -> place target n ->
  wp (MapMMIO target pa n state handler)
     (mapping_outcome s target n (fun x => mkCell MMIO Perm.ReadWrite state None (u32 (pa + (x - target))))) s.
Proof.
  intros Hok Hp. unfold MapMMIO. wp_step. apply wp_assert_unlocked; [apply Hok|].
  apply (wp_mapping Hh target n (fun v => v <| type := MMIO |> <| permissions := Perm.ReadWrite |>
    <| meminfo_state := state |> <| paddr := pa |> <| mmio_handler := handler |>)); [done..|].
  intros v Ht Hv Hb Hs. split; [done|]. split; [done|]. split.
  - split; cbn; try done; apply Hv.
  - intros x. unfold cell_of. cbn. by rewrite Hb.
Qed.

(** *** Ranges of areas *)

(** No area of [k] goes over the address [e]. *)
Definition no_straddle (e : VAddr) (k : vma_map_t) : Prop := forall v, v ∈ k -> base v < e -> base v + size v <= e.
Definition in_view (m : vma_map_t) (a b : VAddr) (g : cell -> bool) : Prop :=
  exists x c, a <= x < b /\ view m x = Some c /\ g c = true.

Lemma wp_any_of e m1 k fuel g f (Q : bool -> VmState -> Prop) s p :
  vma_map (vm s) = m1 ++ k -> chain 0 m1 p -> chain p k MAX_ADDRESS -> (length k <= fuel)%nat ->
  (forall v, v ∈ m1 -> base v < e) -> (forall v x, f v = g (cell_of v x)) ->
  (forall found : bool, (found = true <-> in_view (m1 ++ k) p (Z.min e MAX_ADDRESS) g) -> Q found s) ->
  wp (any_of fuel (base <$> head k) (vma_lower_bound e (vma_map (vm s))) f) Q s.
Proof.
  intros Hm H1 H2 Hfuel Hlow Hfg HQ. revert m1 p fuel Hm H1 H2 Hfuel Hlow HQ.
  induction k as [|v k IH]; intros m1 p fuel Hm H1 H2 Hfuel Hlow HQ.
  { assert (Hlb : vma_lower_bound e (vma_map (vm s)) = None).
    { unfold vma_lower_bound. rewrite Hm, app_nil_r, find_none; [done|]. intros v Hv. specialize (Hlow v Hv). lia. }
    rewrite Hlb. cbn. cbn in H2. destruct fuel; cbn; apply wp_ret, HQ; split; [done| |done|];
      intros (x & c & Hx & _); lia. }
  destruct (H2) as (Hb & Hs & H3). pose proof (chain_le _ _ _ H3).
  assert (Hc : chain 0 (m1 ++ v :: k) MAX_ADDRESS) by (apply chain_app; eauto).
  assert (Hlb : vma_lower_bound e (vma_map (vm s)) = if e <=? base v then Some (base v) else vma_lower_bound e k).
  { unfold vma_lower_bound. rewrite Hm, find_app_none by (intros w Hw; specialize (Hlow w Hw); lia).
    cbn. by destruct (e <=? base v). }
  destruct (Z.leb_spec e (base v)) as [Hle|Hgt].
  { rewrite Hlb. cbn [head fmap option_fmap option_map].
    destruct fuel; cbn [any_of]; rewrite bool_decide_eq_true_2 by done;
      apply wp_ret, HQ; (split; [done|]); intros (x & c & Hx & _); lia. }
  assert (Hne : Some (base v) <> vma_lower_bound e (vma_map (vm s))).
  { rewrite Hlb. unfold vma_lower_bound. destruct (find _ k) as [w|] eqn:Hfind; [|done].
    apply find_some in Hfind as [Hw _]. apply list_elem_of_In in Hw. apply (chain_bounds _ _ _ _ H3) in Hw.
    cbn. intros [= Heq]. lia. }
  destruct fuel as [|fuel]; [cbn in Hfuel; lia|]. cbn [any_of head fmap option_fmap option_map].
  rewrite bool_decide_eq_false_2 by done. wp_step. eapply wp_get_vma; [done..|].
  destruct (f v) eqn:Hfv.
  - apply wp_ret, HQ. split; [|done]. intros _. exists (base v), (cell_of v (base v)).
    split; [lia|]. split; [apply (view_mid _ _ _ _ _ _ Hc); lia|]. by rewrite <- Hfg.
  - wp_step. apply wp_map_of. rewrite Hm at 1. erewrite vma_next_mid by done.
    apply (IH (m1 ++ [v]) (p + size v)).
    + by rewrite <- app_assoc.
    + apply chain_app. exists p. cbn. split; [done|]. lia.
    + done.
    + cbn in Hfuel. lia.
    + intros w [Hw| ->%list_elem_of_singleton]%elem_of_app; [by apply Hlow|done].
    + intros found Hfound. apply HQ. rewrite Hfound, <- app_assoc. cbn [app]. split; intros (x & c & Hx & Hv & Hg).
      * exists x, c. split; [lia|done].
      * exists x, c. split; [|done]. split; [|lia]. destruct (decide (p + size v <= x)); [done|].
        rewrite (view_mid _ _ _ _ _ _ Hc) in Hv by lia. injection Hv as <-. rewrite <- Hfg in Hg. congruence.
Qed.

Lemma wp_any_of_range e g f (Q : bool -> VmState -> Prop) m1 v m2 s target :
  vma_map (vm s) = m1 ++ v :: m2 -> chain 0 (m1 ++ v :: m2) MAX_ADDRESS ->
  base v <= target < base v + size v -> target < e <= MAX_ADDRESS -> (forall v x, f v = g (cell_of v x)) ->
  (forall found : bool, (found = true <-> in_view (m1 ++ v :: m2) target e g) -> Q found s) ->
  wp (any_of_range (Some (base v)) (vma_lower_bound e (vma_map (vm s))) f) Q s.
Proof.
  intros Hm Hc Hv He Hfg HQ. pose proof (area_split _ _ _ _ _ Hc) as (H1 & Hs & H2).
  unfold any_of_range. wp_step. apply wp_map_of. change (Some (base v)) with (base <$> head (v :: m2)).
  eapply wp_any_of; [done|done|done| | |done|].
  - rewrite Hm, length_app. cbn. lia.
  - intros w Hw. apply (chain_left _ _ _ _ _ _ Hc) in Hw. lia.
  - intros found Hfound. apply HQ. rewrite Hfound, Z.min_l by lia. split; intros (x & c & Hx & Hvx & Hg).
    + destruct (decide (target <= x)); [exists x, c; split; [lia|done]|].
      exists target, (cell_of v target). split; [lia|]. split; [by apply (view_mid _ _ _ _ _ _ Hc)|].
      rewrite (view_mid _ _ _ _ _ _ Hc) in Hvx by lia. injection Hvx as <-. by rewrite <- Hfg, (Hfg v x).
    + exists x, c. split; [lia|done].
Qed.

Definition is_free (c : cell) : bool := bool_decide (c_type c = Free).

(** [split_at o m1 v m2]: splitting an area that is not free keeps the map well formed. *)
Lemma split_map_ok (Hh : host_laws) m1 v m2 o :
  map_ok (m1 ++ v :: m2) -> type v <> Free -> 0 < o < size v -> o mod CITRA_PAGE_SIZE = 0 ->
  map_ok (m1 ++ split_left v o :: split_right v o :: m2).
Proof.
  intros [Hwf Hf] Ht Ho Hm. destruct (split_view Hh m1 v m2 o Hwf Ho Hm) as [Hwf' _]. split; [done|].
  apply free_merged_app in Hf as [Hf1 Hf2]. apply free_merged_snoc in Hf1 as [Hf1 _]. apply free_merged_cons in Hf2 as [Hf2 _].
  apply free_merged_app. split.
  - apply free_merged_snoc. split; [done|]. by intros p _ [_ ?].
  - cbn. split; [by intros [? _]|]. apply free_merged_cons. split; [done|]. by intros w _ [? _].
Qed.

(** The areas from [target] on are those of [k], none of which goes over [e]. *)
Record carved_range (target e : Z) (s s' : VmState) (m1 k : vma_map_t) : Prop := {
  range_state : s' = with_map (m1 ++ k) s;
  range_ok : map_ok (m1 ++ k);
  range_left : chain 0 m1 target;
  range_right : chain target k MAX_ADDRESS;
  range_boundary : no_straddle e k;
  range_view x : view (m1 ++ k) x = view (vma_map (vm s)) x;
}.

(** The second split of [CarveVMARange], at the end of the range. *)
Lemma wp_split_end (Hh : host_laws) m1 k target e s (Q : unit -> VmState -> Prop) :
  vma_map (vm s) = m1 ++ k -> map_ok (m1 ++ k) -> chain 0 m1 target -> chain target k MAX_ADDRESS ->
  target < e <= MAX_ADDRESS -> e mod CITRA_PAGE_SIZE = 0 -> ~ in_view (m1 ++ k) target e is_free ->
  (forall s' k', carved_range target e s s' m1 k' -> Q tt s') ->
  wp (end_vma ← FindVMA e;
      match end_vma with
      | None => mret tt
      | Some _ => v ← get_vma end_vma;
          if negb (e =? base v) then _ ← SplitVMA end_vma (u32 (e - base v)); mret tt else mret tt
      end) Q s.
Proof.
  intros Hm Hok H1 H2 He Hea Hnf HQ. pose proof (wf_chain _ (ok_wf _ Hok)) as Hc.
  assert (Hkeep : no_straddle e k -> Q tt s).
  { intros Hns. apply (HQ s k). split; try done; [by rewrite <- Hm, with_map_id|by rewrite Hm]. }
  assert (Hdec : forall v n2 m0, m1 ++ k = m0 ++ v :: n2 -> base v <= e < base v + size v ->
    exists k1, k = k1 ++ v :: n2 /\ m0 = m1 ++ k1).
  { intros v n2 m0 Heq Hv. apply app_eq_app in Heq as (l & [(-> & Heq)|(-> & Heq)]); [|by exists l].
    destruct l as [|w l]; [cbn in Heq; subst k; exists []; by rewrite !app_nil_r|].
    injection Heq as <- ->. exfalso.
    pose proof (chain_bounds _ _ _ v H1 ltac:(set_solver)). lia. }
  pose proof (chain_le _ _ _ H1). wp_step. apply wp_FindVMA; [by rewrite Hm|lia| |].
  { intros Hge. apply wp_ret, Hkeep. intros v Hv _. apply (chain_bounds _ _ _ _ H2) in Hv. lia. }
  intros m0 v n2 Hm' Hv. rewrite Hm in Hm'. destruct (Hdec _ _ _ Hm' Hv) as (k1 & -> & ->). clear Hdec Hm'.
  rewrite app_assoc in Hm, Hok, Hc, Hnf.
  assert (Hk1 : forall w, w ∈ k1 -> base w + size w <= base v).
  { intros w Hw. pose proof (chain_left _ _ _ _ _ _ H2 Hw). lia. }
  assert (Hn2 : forall w, w ∈ n2 -> e < base w).
  { intros w Hw. pose proof (chain_right _ _ _ _ _ _ H2 Hw). lia. }
  pose proof (chain_bounds _ _ _ v H2 ltac:(set_solver)) as Hbv.
  wp_step. eapply wp_get_vma; [done..|]. destruct (Z.eqb_spec e (base v)) as [->|Hne]; cbn [negb].
  { apply wp_ret, Hkeep. intros w Hw Hlt. apply elem_of_app in Hw as [Hw|[->|Hw]%elem_of_cons]; [by apply Hk1|lia|].
    specialize (Hn2 w Hw). lia. }
  assert (Hvok : vma_ok v) by (pose proof (wf_areas _ (ok_wf _ Hok)) as Ha; rewrite Forall_app, Forall_cons in Ha; tauto).
  assert (Ht : type v <> Free).
  { intros Ht. apply Hnf. exists (Z.max target (base v)), (cell_of v (Z.max target (base v))). split; [lia|].
    split; [apply (view_mid _ _ _ _ _ _ Hc); lia|]. unfold is_free. cbn. by rewrite Ht. }
  rewrite u32_small by (unfold is_u32, MAX_ADDRESS in *; lia).
  wp_step. eapply wp_SplitVMA; [done|done|done|lia|]. apply wp_ret.
  assert (Hmod : (e - base v) mod CITRA_PAGE_SIZE = 0).
  { pose proof (ok_base _ Hvok). unfold CITRA_PAGE_SIZE in *. Z.to_euclidean_division_equations. lia. }
  destruct (split_view Hh _ v n2 (e - base v) (ok_wf _ Hok)) as [Hwf' Hview]; [lia|done|].
  apply (HQ _ (k1 ++ split_left v (e - base v) :: split_right v (e - base v) :: n2)). split.
  - by rewrite app_assoc.
  - rewrite app_assoc. apply split_map_ok; (done || lia).
  - done.
  - eapply chain_replace1; [exact H2|..]; cbn; lia.
  - intros w Hw Hlt. apply elem_of_app in Hw as [Hw|[->|[->|Hw]%elem_of_cons]%elem_of_cons]; cbn in *; [|lia..|].
    + specialize (Hk1 w Hw). lia.
    + specialize (Hn2 w Hw). lia.
  - intros x. by rewrite app_assoc, Hview, Hm.
Qed.

Lemma wp_CarveVMARange (Hh : host_laws) target n (Q : ResultVal VMAIter -> VmState -> Prop) s :
  map_ok (vma_map (vm s)) -> place target n -> target + n <= MAX_ADDRESS ->
  (forall s' m1 k, carved_range target (target + n) s s' m1 k -> ~ in_view (vma_map (vm s)) target (target + n) is_free ->
     Q (Success (base <$> head k)) s') ->
  (in_view (vma_map (vm s)) target (target + n) is_free -> Q (Failure ERR_INVALID_ADDRESS_STATE) s) ->
  wp (CarveVMARange target n) Q s.
Proof.
  intros Hok [Ht Hn _ Hta Hna] He HS HF. pose proof (wf_chain _ (ok_wf _ Hok)) as Hc. unfold CarveVMARange.
  rewrite (MAX_ADDRESS_u32 (target + n)) by lia. wp_step. apply wp_assert_aligned_range; [done..|].
  do 2 (wp_step; wp_step; [apply Z.leb_le; lia|]). wp_step; wp_step; [apply Z.ltb_lt; lia|].
  wp_step. apply wp_FindVMA; [done|done|lia|]. intros m1 v m2 Hm Hv. wp_step. apply wp_map_of.
  wp_step. rewrite Hm in Hok, Hc, HF, HS.
  eapply (wp_any_of_range _ is_free); [exact Hm|done|exact Hv|lia|done|].
  intros [] Hfound; [by apply wp_ret, HF, Hfound|]. assert (Hnf : ~ in_view (m1 ++ v :: m2) target (target + n) is_free).
  { intros Hi. by apply Hfound in Hi. }
  clear Hfound HF. wp_step. eapply wp_get_vma; [done..|]. wp_step.
  assert (Hvok : vma_ok v) by (pose proof (wf_areas _ (ok_wf _ Hok)) as Ha; rewrite Forall_app, Forall_cons in Ha; tauto).
  pose proof (area_split _ _ _ _ _ Hc) as (H1 & Hs & H2). pose proof (chain_le _ _ _ H1). pose proof (chain_le _ _ _ H2).
  assert (Htn : (target + n) mod CITRA_PAGE_SIZE = 0).
  { unfold CITRA_PAGE_SIZE in *. Z.to_euclidean_division_equations. lia. }
  (* the split at the start *)
  apply (wp_mono _ (fun it s1 => exists n1 k, s1 = with_map (n1 ++ k) s /\ it = base <$> head k /\ map_ok (n1 ++ k) /\
    chain 0 n1 target /\ chain target k MAX_ADDRESS /\ forall x, view (n1 ++ k) x = view (m1 ++ v :: m2) x)).
  { destruct (Z.eqb_spec target (base v)) as [->|Hne]; cbn [negb].
    - apply wp_ret. exists m1, (v :: m2). rewrite <- Hm, with_map_id, Hm. by repeat (split; [done|]).
    - assert (Htv : type v <> Free).
      { intros Hf. apply Hnf. exists target, (cell_of v target). split; [lia|].
        split; [by apply (view_mid _ _ _ _ _ _ Hc)|]. unfold is_free. cbn. by rewrite Hf. }
      rewrite u32_small by (unfold is_u32, MAX_ADDRESS in *; lia). eapply wp_SplitVMA; [done|done|done|lia|].
      assert (Hmod : (target - base v) mod CITRA_PAGE_SIZE = 0).
      { pose proof (ok_base _ Hvok). unfold CITRA_PAGE_SIZE in *. Z.to_euclidean_division_equations. lia. }
      destruct (split_view Hh m1 v m2 (target - base v) (ok_wf _ Hok)) as [Hwf' Hview]; [lia|done|].
      exists (m1 ++ [split_left v (target - base v)]), (split_right v (target - base v) :: m2). rewrite <- app_assoc.
      split; [done|]. split; [done|]. split; [apply split_map_ok; (done || lia)|]. split; [|split; [|done]].
      + apply chain_app. exists (base v). cbn. split; [done|]. lia.
      + cbn. split; [lia|]. split; [lia|]. by replace (target + (size v - (target - base v))) with (base v + size v) by lia. }
  intros it s1 (n1 & k & -> & -> & Hok1 & Hn1 & Hk & Hview1). clear Hv Hc H1 H2 Hs Hvok.
  assert (Hnf1 : ~ in_view (n1 ++ k) target (target + n) is_free).
  { intros (x & c & Hx & Hvx & Hg). rewrite Hview1 in Hvx. apply Hnf. by exists x, c. }
  (* the split at the end *)
  assert (Hend : wp (end_vma ← FindVMA (target + n);
      match end_vma with
      | None => mret tt
      | Some _ => v ← get_vma end_vma;
          if negb (target + n =? base v) then _ ← SplitVMA end_vma (u32 (target + n - base v)); mret tt else mret tt
      end) (fun _ s2 => Q (Success (base <$> head k)) s2) (with_map (n1 ++ k) s)).
  { eapply (wp_split_end Hh n1 k target); [done..|lia|done|done|]. intros s2 k' [-> Hok2 H1' H2' Hns Hview2].
    assert (base <$> head k' = base <$> head k) as <-.
    { destruct k as [|w k], k' as [|w' k']; cbn in *; [done|lia..|]. f_equal. lia. }
    apply (HS _ n1 k'); [|done]. split; try done. intros x. by rewrite Hview2, with_map_map, Hview1, Hm. }
  apply wp_bind. apply wp_unbind in Hend. eapply wp_mono; [exact Hend|]. cbn beta. intros ev s2 H2. apply wp_bind.
  eapply wp_mono; [exact H2|]. intros [] s3 HQ. by apply wp_ret.
Qed.

(** *** The loops over a range *)

(** A change [f] of an area is the change [F] of its cells; an area that merges
    with a changed one is as if it had been changed. *)
Record change_law (f : VirtualMemoryArea -> VirtualMemoryArea) (F : cell -> cell) (P : cell -> Prop) : Prop := {
  change_base v : base (f v) = base v;
  change_size v : size (f v) = size v;
  change_cell v x : cell_of (f v) x = F (cell_of v x);
  change_ok v : vma_ok v -> P (cell_of v (base v)) -> vma_ok (f v);
  change_idem v n x : vma_ok v -> vma_ok n -> mergeable (f v) n = true -> F (cell_of n x) = cell_of n x;
}.

Definition range_changed (s s' : VmState) (F : cell -> cell) (a b : VAddr) : Prop :=
  vm_ok s' /\ frame s s' /\
  forall x, view (vma_map (vm s')) x = (if (a <=? x) && (x <? b) then F else id) <$> view (vma_map (vm s)) x.

Section Loop.
Context (Hh : host_laws) (f : VirtualMemoryArea -> VirtualMemoryArea) (F : cell -> cell) (P : cell -> Prop).
Context (Hlaw : change_law f F P) (body : VMAIter -> M VMAIter).
Context (Hbody : forall m1 v m2 s (Q : VMAIter -> VmState -> Prop),
  vma_map (vm s) = m1 ++ v :: m2 -> chain 0 (m1 ++ v :: m2) MAX_ADDRESS -> is_locked (vm s) = false ->
  wp (set_vma (base v) (fun _ => f v);; UpdatePageTableForVMA (f v);; MergeAdjacent (Some (base v))) Q s ->
  wp (body (Some (base v))) Q s).
Context (s0 : VmState) (target e : VAddr).
Context (HP : forall x c, target <= x < e -> view (vma_map (vm s0)) x = Some c -> P c).

Record loop_inv (p : VAddr) (m1 k : vma_map_t) (s : VmState) : Prop := {
  loop_map : vma_map (vm s) = m1 ++ k;
  loop_left : chain 0 m1 p;
  loop_right : chain p k MAX_ADDRESS;
  loop_from : target <= p;
  loop_boundary : no_straddle e k;
  loop_ok : vm_ok s;
  loop_frame : frame s0 s;
  loop_view x : view (vma_map (vm s)) x =
    (if (target <=? x) && (x <? Z.min e p) then F else id) <$> view (vma_map (vm s0)) x;
}.

(** One turn of the loop. *)
Lemma loop_step p m1 v m2 s (Q : VMAIter -> VmState -> Prop) :
  loop_inv p m1 (v :: m2) s -> base v < e ->
  (forall s' it p' n1 w n2, loop_inv p' (n1 ++ [w]) n2 s' -> (length n2 <= length m2)%nat -> it = Some (base w) -> Q it s') ->
  wp (body (Some (base v))) Q s.
Proof.
  intros [Hm H1 H2 Hp Hns [Hok Htab Hl] Hfr Hview] He HQ. pose proof (wf_chain _ (ok_wf _ Hok)) as Hc. rewrite Hm in Hok, Hc.
  eapply Hbody; [done..|]. destruct (Hlaw) as [Lb Ls Lc Lo Li].
  pose proof (ok_merged _ Hok) as Hf. apply free_merged_app in Hf as [Hf1 Hf2].
  apply free_merged_snoc in Hf1 as [Hf1 _]. apply free_merged_cons in Hf2 as [Hf2 _].
  pose proof (wf_areas _ (ok_wf _ Hok)) as Ha. rewrite Forall_app, Forall_cons in Ha. destruct Ha as (_ & Hv & Ha2).
  destruct (H2) as (Hb & Hs & H3). assert (Hve : base v + size v <= e) by (apply Hns; [constructor|done]).
  assert (Hold : forall x, p <= x -> view (m1 ++ v :: m2) x = view (vma_map (vm s0)) x).
  { intros x Hx. rewrite <- Hm, Hview, in_range_false by lia. by destruct (view _ x). }
  assert (HvP : P (cell_of v (base v))).
  { apply (HP (base v)); [lia|]. rewrite <- Hold by lia. apply (view_mid _ _ _ _ _ _ Hc). lia. }
  eapply (wp_change' Hh m1 v m2 (f v)); [done|apply Hok|done|done|by rewrite ?Lb|by rewrite ?Ls|by apply Lo|done|].
  intros it s1 [Cok Ctab Cfr Cview (n1 & w & n2 & Hm1 & -> & Hwb & Hright)].
  assert (Hok1 : vm_ok s1) by (split; [done|done|by rewrite (frame_locked _ _ Cfr)]).
  pose proof (wf_chain _ (ok_wf _ Cok)) as Hc1. rewrite Hm1 in Hc1. pose proof (area_split _ _ _ _ _ Hc1) as (G1 & Gs & G2).
  apply (HQ s1 _ (base w + size w) n1 w n2); [|destruct Hright as [[_ ->]|(n & -> & _)]; cbn; lia|done].
  split; [by rewrite <- app_assoc|apply chain_app; exists (base w); cbn; done|done| | |done|by transitivity s|].
  - destruct Hright as [[-> _]|(n & -> & _ & ->)]; [lia|]. destruct H3 as (? & ? & _). lia.
  - intros u Hu. apply Hns. destruct Hright as [[_ ->]|(n & -> & _)]; set_solver.
  - intros x. rewrite Cview, Hb. destruct (decide (p <= x < p + size v)) as [Hx|Hx].
    + rewrite in_range_true by lia. rewrite in_range_true by (destruct Hright as [[-> _]|(n & -> & _ & ->)]; [lia|]; destruct H3 as (? & ? & _); lia).
      rewrite <- Hold by lia. rewrite (view_mid _ _ _ _ _ _ Hc) by lia. cbn. by rewrite Lc.
    + rewrite in_range_false by lia. rewrite <- Hm, Hview.
      destruct (decide (target <= x < Z.min e p)) as [Hlt|Hge].
      * rewrite in_range_true by lia. rewrite in_range_true; [done|].
        destruct Hright as [[-> _]|(n & -> & _ & ->)]; [lia|]. destruct H3 as (? & ? & _). lia.
      * rewrite in_range_false by lia. destruct Hright as [[-> _]|(n & -> & Hmg & ->)]; [by rewrite in_range_false by lia|].
        destruct H3 as (Hnb & Hns' & H4). destruct (decide (base n <= x < Z.min e (base n + size n))) as [Hxn|Hxn]; [|by rewrite in_range_false by lia].
        rewrite in_range_true by lia. rewrite <- Hold by lia.
        replace (m1 ++ v :: n :: n2) with ((m1 ++ [v]) ++ n :: n2) in Hc |- * by (by rewrite <- app_assoc).
        rewrite (view_mid _ _ _ _ _ _ Hc) by lia. cbn. f_equal. symmetry. apply (Li v); [done| |done].
        apply Forall_cons in Ha2. tauto.
Qed.

Lemma wp_range_loop fuel p m1 k s (Q : unit -> VmState -> Prop) :
  loop_inv p m1 k s -> (length k <= fuel)%nat -> (forall s', range_changed s0 s' F target e -> Q tt s') -> e <= MAX_ADDRESS ->
  wp (range_loop fuel (base <$> head k) e body) Q s.
Proof.
  intros Hinv Hfuel HQ He. revert p m1 k s Hinv Hfuel. induction fuel as [|fuel IH]; intros p m1 k s Hinv Hfuel.
  all: assert (Hdone : (forall v, head k = Some v -> e <= base v) -> Q tt s).
  1,3: intros Hend; apply HQ; split; [apply Hinv|]; split; [apply Hinv|]; intros x; rewrite (loop_view _ _ _ _ Hinv);
    assert (Z.min e p = e) as ->; [|done];
    pose proof (loop_right _ _ _ _ Hinv) as Hr; destruct k as [|v k]; cbn in Hr; [lia|specialize (Hend v eq_refl); lia].
  - destruct k as [|v k]; [|cbn in Hfuel; lia]. cbn. by apply wp_ret, Hdone.
  - destruct k as [|v k]; [cbn; by apply wp_ret, Hdone|]. cbn [range_loop head fmap option_fmap option_map].
    destruct (Z.leb_spec e (base v)) as [Hle|Hlt]; [apply wp_ret, Hdone; by intros ? [= <-]|].
    wp_step. eapply loop_step; [done|done|]. intros s' it p' n1 w n2 Hinv' Hlen ->.
    pose proof (loop_map _ _ _ _ Hinv') as Hm. rewrite <- app_assoc in Hm. cbn in Hm.
    assert (Hc : chain 0 (n1 ++ w :: n2) MAX_ADDRESS) by (rewrite <- Hm; apply (loop_ok _ _ _ _ Hinv')).
    wp_step. eapply wp_get_vma; [done..|]. wp_step. apply wp_map_of. rewrite Hm. erewrite vma_next_mid by done.
    eapply IH; [done|]. cbn in Hfuel. lia.
Qed.

Lemma wp_for_range s m1 k (Q : unit -> VmState -> Prop) :
  vm_ok s0 -> carved_range target e s0 s m1 k -> (forall s', range_changed s0 s' F target e -> Q tt s') -> e <= MAX_ADDRESS ->
  wp (for_range (base <$> head k) e body) Q s.
Proof.
  intros Hok0 [-> Hok H1 H2 Hns Hview] HQ He. unfold for_range. wp_step. apply wp_map_of. rewrite with_map_map.
  eapply (wp_range_loop _ target m1 k); [|rewrite length_app; lia|done|done]. split; try done.
  - split; [done| |apply Hok0]. apply view_table_agrees; [done|apply Hok0].
  - intros x. rewrite in_range_false by lia. rewrite with_map_map, Hview. by destruct (view _ x).
Qed.
End Loop.

Definition free_cell : cell := mkCell Free Perm.None MemoryState.Free None 0.
Lemma unmap_law : change_law (fun v => v <| type := Free |> <| permissions := Perm.None |> <| meminfo_state := MemoryState.Free |>
    <| backing_memory := None |> <| paddr := 0 |>) (fun _ => free_cell) (fun _ => True).
Proof.
  split; [done..| |].
  - intros v Hv _. split; cbn; try done; apply Hv.
  - intros v n x _ Hn (_ & _ & Ht & _)%mergeable_spec. cbn in Ht. destruct (ok_free _ Hn) as [Hp Hs]; [done|].
    unfold cell_of. by rewrite <- Ht, Hp, Hs.
Qed.
Lemma reprotect_law new_perms : change_law (fun v => v <| permissions := new_perms |>) (fun c => mkCell (c_type c) new_perms (c_state c) (c_ref c) (c_paddr c))
  (fun c => c_type c <> Free).
Proof.
  split; [done..| |].
  - intros v Hv Ht. split; cbn; try done; apply Hv.
  - intros v n x _ _ (Hp & _)%mergeable_spec. cbn in Hp. unfold cell_of. cbn. by rewrite <- Hp.
Qed.
Lemma change_state_law new_perms new_state : change_law
  (fun v => v <| permissions := new_perms |> <| meminfo_state := new_state |>)
  (fun c => mkCell (c_type c) new_perms new_state (c_ref c) (c_paddr c)) (fun c => c_type c <> Free).
Proof.
  split; [done..| |].
  - intros v Hv Ht. split; cbn; try done; apply Hv.
  - intros v n x _ _ (Hp & Hs & _)%mergeable_spec. cbn in Hp, Hs. unfold cell_of. cbn. by rewrite <- Hp, <- Hs.
Qed.

Lemma not_in_view m a b g : ~ in_view m a b g <-> forall x c, a <= x < b -> view m x = Some c -> g c = false.
Proof.
  split; [intros Hn x c Hx Hv|intros Hf (x & c & Hx & Hv & Hg); by rewrite (Hf x c Hx Hv) in Hg].
  destruct (g c) eqn:Hg; [|done]. destruct Hn. by exists x, c.
Qed.
Lemma not_free_view m a b x c : ~ in_view m a b is_free -> a <= x < b -> view m x = Some c -> c_type c <> Free.
Proof. intros Hn Hx Hv. rewrite not_in_view in Hn. specialize (Hn x c Hx Hv). by apply bool_decide_eq_false in Hn. Qed.

(** What a range operation does: the change [F] on each address of the range, or
    an error and nothing. *)
Definition range_outcome (s : VmState) (target n : Z) (refused : Prop) (F : cell -> cell) (r : result_code) (s' : VmState) : Prop :=
  (~ refused /\ r = RESULT_SUCCESS /\ range_changed s s' F target (target + n)) \/
  (refused /\ r = ERR_INVALID_ADDRESS_STATE /\ s' = s).

Lemma wp_UnmapRange (Hh : host_laws) target n s :
  vm_ok s -> place target n -> target + n <= MAX_ADDRESS ->
  wp (UnmapRange target n)
     (range_outcome s target n (in_view (vma_map (vm s)) target (target + n) is_free) (fun _ => free_cell)) s.
Proof.
  intros Hok Hp He. unfold UnmapRange. wp_step. apply wp_assert_unlocked; [apply Hok|].
  pose proof (place_start _ _ Hp). pose proof (place_size _ _ Hp).
  wp_step. apply (wp_CarveVMARange Hh); [apply Hok|done|done| |].
  2:{ intros Hf. apply wp_ret. by right. }
  intros s1 m1 k Hk Hnf. cbn beta iota. wp_step. rewrite (MAX_ADDRESS_u32 (target + n)) by lia.
  eapply (wp_for_range Hh _ _ _ unmap_law Unmap); [|done|exact Hok|exact Hk| |lia].
  { intros m v m2 s2 Q Hm Hc Hl Hw. unfold Unmap. wp_step. apply wp_assert_unlocked; [done|].
    wp_step. by eapply wp_get_vma. }
  intros s2 (Hok2 & Hfr & Hview). pose proof (wf_chain _ (ok_wf _ (vm_map _ Hok2))) as Hc. wp_step.
  apply wp_FindVMA; [done|lia|lia|]. intros n1 v n2 Hm Hv. wp_step. rewrite Hm in Hc. eapply wp_get_vma; [done..|].
  wp_step. wp_step; [|apply wp_ret; by left].
  pose proof (vm_map _ Hok2) as Hmap2. rewrite Hm in Hmap2.
  destruct (free_run n1 v n2 target (target + n) Hmap2 Hv ltac:(lia)) as [_ Hend]; [|apply Z.leb_le; lia].
  intros x Hx. rewrite <- Hm. exists free_cell. rewrite Hview, in_range_true by lia. split; [|done].
  pose proof (wf_chain _ (ok_wf _ (vm_map _ Hok))) as Hc0.
  destruct (chain_find _ _ _ x Hc0) as (a1 & u & a2 & Ha & Hu); [lia|]. rewrite Ha in Hc0 |- *.
  by rewrite (view_mid _ _ _ _ _ _ Hc0).
Qed.

(** C29: Unmapping a range of pages. It is refused, without any change, exactly
    when an address of the range is free; otherwise every address of the range
    becomes free, every other address keeps its attributes, the free areas are
    merged (which the assertion that ends the function relies on), and the page
    table agrees with the areas. *)
Theorem UnmapRange_spec (Hh : host_laws) target n s :
  vm_ok s -> place target n -> target + n <= MAX_ADDRESS ->
  wp (UnmapRange target n)
     (range_outcome s target n (in_view (vma_map (vm s)) target (target + n) is_free) (fun _ => free_cell)) s.
Proof. apply (wp_UnmapRange Hh target n s). Qed.

Lemma wp_ReprotectRange (Hh : host_laws) target n new_perms s :
  vm_ok s -> place target n -> target + n <= MAX_ADDRESS ->
  wp (ReprotectRange target n new_perms)
     (range_outcome s target n (in_view (vma_map (vm s)) target (target + n) is_free)
        (fun c => mkCell (c_type c) new_perms (c_state c) (c_ref c) (c_paddr c))) s.
Proof.
  intros Hok Hp He. unfold ReprotectRange. wp_step. apply wp_assert_unlocked; [apply Hok|].
  pose proof (place_start _ _ Hp). pose proof (place_size _ _ Hp).
  wp_step. apply (wp_CarveVMARange Hh); [apply Hok|done|done| |].
  2:{ intros Hf. apply wp_ret. by right. }
  intros s1 m1 k Hk Hnf. cbn beta iota. wp_step. rewrite (MAX_ADDRESS_u32 (target + n)) by lia.
  eapply (wp_for_range Hh _ _ _ (reprotect_law new_perms)); [| |exact Hok|exact Hk| |lia].
  - intros m v m2 s2 Q Hm Hc Hl Hw. unfold Reprotect. wp_step. apply wp_assert_unlocked; [done|].
    wp_step. by eapply wp_get_vma.
  - intros x c. by apply not_free_view.
  - intros s2 Hs2. apply wp_ret. by left.
Qed.

(** Changing the permissions of a range of pages: refused without any change
    exactly when an address of the range is free; otherwise exactly the
    permissions of the addresses of the range change. *)
Theorem ReprotectRange_spec (Hh : host_laws) target n new_perms s :
  vm_ok s -> place target n -> target + n <= MAX_ADDRESS ->
  wp (ReprotectRange target n new_perms)
     (range_outcome s target n (in_view (vma_map (vm s)) target (target + n) is_free)
        (fun c => mkCell (c_type c) new_perms (c_state c) (c_ref c) (c_paddr c))) s.
Proof. apply (wp_ReprotectRange Hh target n new_perms s). Qed.

(** The addresses [ChangeMemoryState] refuses. *)
Definition state_mismatch (expected_state : MemoryState.t) (expected_perms : VMAPermission) (c : cell) : bool :=
  negb (bool_decide (c_state c = expected_state)) || negb (Z.land (c_perms c) expected_perms =? expected_perms) || is_free c.

Lemma wp_ChangeMemoryState (Hh : host_laws) target n expected_state expected_perms new_state new_perms s :
  vm_ok s -> place target n -> target + n <= MAX_ADDRESS ->
  wp (ChangeMemoryState target n expected_state expected_perms new_state new_perms)
     (range_outcome s target n (in_view (vma_map (vm s)) target (target + n) (state_mismatch expected_state expected_perms))
        (fun c => mkCell (c_type c) new_perms new_state (c_ref c) (c_paddr c))) s.
Proof.
  intros Hok Hp He. unfold ChangeMemoryState. wp_step. wp_step. rewrite (vm_unlocked _ Hok).
  pose proof (place_start _ _ Hp). pose proof (place_size _ _ Hp). rewrite (MAX_ADDRESS_u32 (target + n)) by lia.
  pose proof (wf_chain _ (ok_wf _ (vm_map _ Hok))) as Hc.
  wp_step. apply wp_FindVMA; [done|lia|lia|]. intros m1 v m2 Hm Hv. wp_step. apply wp_map_of.
  assert (Hc' := Hc). rewrite Hm in Hc'. wp_step.
  eapply (wp_any_of_range _ (fun c => negb (bool_decide (c_state c = expected_state)) || negb (Z.land (c_perms c) expected_perms =? expected_perms)));
    [exact Hm|done|exact Hv|lia|done|]. rewrite <- Hm.
  intros [] Hfound.
  { apply wp_ret. right. split; [|done]. destruct (proj1 Hfound eq_refl) as (x & c & Hx & Hvx & Hg).
    exists x, c. split; [done|]. split; [done|]. unfold state_mismatch. by rewrite Hg. }
  assert (Hmatch : ~ in_view (vma_map (vm s)) target (target + n)
    (fun c => negb (bool_decide (c_state c = expected_state)) || negb (Z.land (c_perms c) expected_perms =? expected_perms)))
    by (intros Hi; by apply Hfound in Hi).
  wp_step. apply (wp_CarveVMARange Hh); [apply Hok|done|done| |].
  2:{ intros (x & c & Hx & Hvx & Hg). apply wp_ret. right. split; [|done]. exists x, c. split; [done|]. split; [done|].
      unfold state_mismatch. by rewrite Hg, orb_true_r. }
  intros s1 n1 k Hk Hnf. cbn beta iota. wp_step.
  eapply (wp_for_range Hh _ _ _ (change_state_law new_perms new_state)); [| |exact Hok|exact Hk| |lia].
  - intros m w m0 s2 Q Hm2 Hc2 Hl Hw. wp_step. by eapply wp_get_vma.
  - intros x c. by apply not_free_view.
  - intros s2 Hs2. apply wp_ret. left. split; [|done]. intros (x & c & Hx & Hvx & Hg).
    unfold state_mismatch in Hg. apply orb_true_iff in Hg as [Hg|Hg]; [apply Hmatch|apply Hnf]; by exists x, c.
Qed.

(** Changing the state and permissions of a range of pages. It is refused,
    without any change, exactly when an address of the range is free, is in
    another state than the expected one, or lacks one of the expected
    permissions (it may have more); otherwise exactly the state and the
    permissions of the addresses of the range change. *)
Theorem ChangeMemoryState_spec (Hh : host_laws) target n expected_state expected_perms new_state new_perms s :
  vm_ok s -> place target n -> target + n <= MAX_ADDRESS ->
  wp (ChangeMemoryState target n expected_state expected_perms new_state new_perms)
     (range_outcome s target n (in_view (vma_map (vm s)) target (target + n) (state_mismatch expected_state expected_perms))
        (fun c => mkCell (c_type c) new_perms new_state (c_ref c) (c_paddr c))) s.
Proof. apply (wp_ChangeMemoryState Hh target n expected_state expected_perms new_state new_perms s). Qed.

(** The references to the bytes of some blocks, and of a range of addresses. *)
Definition refs_of (blocks : list (MemoryRef * Z)) : list MemoryRef :=
  concat ((fun '(r, n) => (fun k => ref_at r k) <$> seqZ 0 n) <$> blocks).
Definition ref_of_cell (c : option cell) : MemoryRef := match c with Some c => c_ref c | None => None end.
Definition refs_at (m : vma_map_t) (a n : Z) : list MemoryRef := (fun x => ref_of_cell (view m x)) <$> seqZ a n.
Definition is_backed (c : cell) : bool := bool_decide (c_type c = BackingMemory).

Lemma refs_of_snoc blocks r n : refs_of (blocks ++ [(r, n)]) = refs_of blocks ++ ((fun k => ref_at r k) <$> seqZ 0 n).
Proof. unfold refs_of. rewrite fmap_app, concat_app. cbn. by rewrite app_nil_r. Qed.

Lemma refs_at_area a m1 v m2 b x n :
  chain a (m1 ++ v :: m2) b -> type v = BackingMemory -> base v <= x -> x + n <= base v + size v ->
  refs_at (m1 ++ v :: m2) x n = (fun k => ref_at (ref_at (backing_memory v) (x - base v)) k) <$> seqZ 0 n.
Proof.
  intros Hc Ht Hx Hn. unfold refs_at. replace x with (x + 0) at 1 by lia. rewrite <- fmap_add_seqZ, <- list_fmap_compose.
  apply list_fmap_ext. intros i k Hk%list_elem_of_lookup_2. apply elem_of_seqZ in Hk. unfold compose.
  rewrite (view_mid _ _ _ _ _ _ Hc) by lia. cbn. rewrite bool_decide_eq_true_2 by done. rewrite ref_at_add. f_equal. lia.
Qed.

Lemma wp_backing_blocks fuel m1 k p t e acc (Q : ResultVal (list (MemoryRef * Z)) -> VmState -> Prop) s :
  vma_map (vm s) = m1 ++ k -> chain 0 m1 p -> chain p k MAX_ADDRESS -> Forall vma_ok k -> p <= t <= e -> e <= MAX_ADDRESS -> (length k <= fuel)%nat ->
  (forall blocks, (forall x, t <= x < e -> is_backed <$> view (m1 ++ k) x = Some true) ->
     refs_of blocks = refs_of acc ++ refs_at (m1 ++ k) t (e - t) -> Q (Success blocks) s) ->
  (in_view (m1 ++ k) t e (fun c => negb (is_backed c)) -> Q (Failure ERR_INVALID_ADDRESS_STATE) s) ->
  wp (backing_blocks_loop fuel t e acc) Q s.
Proof.
  intros Hm H1 H2 Ha Ht He Hfuel HS HF. revert m1 k p t acc Hm H1 H2 Ha Ht Hfuel HS HF.
  induction fuel as [|fuel IH]; intros m1 k p t acc Hm H1 H2 Ha Ht Hfuel HS HF; cbn [backing_blocks_loop];
    (destruct (Z.eqb_spec t e) as [->|Hne];
     [apply wp_ret, HS; [lia|rewrite Z.sub_diag; unfold refs_at; cbn; by rewrite app_nil_r]|]).
  { destruct k; [cbn in H2; lia|cbn in Hfuel; lia]. }
  assert (Hc : chain 0 (m1 ++ k) MAX_ADDRESS) by (apply chain_app; eauto). pose proof (chain_le _ _ _ H1).
  wp_step. apply wp_FindVMA; [by rewrite Hm|lia|lia|]. intros m0 v0 n0 Hm0 Hv0.
  destruct (chain_find _ _ _ t H2) as (k1 & v & k2 & -> & Hv); [lia|].
  assert (v0 = v) as ->.
  { rewrite Hm, app_assoc in Hm0. rewrite app_assoc in Hc.
    pose proof (find_le_mid _ _ _ _ _ Hc t Hv) as E1. rewrite Hm0 in Hc, E1.
    pose proof (find_le_mid _ _ _ _ _ Hc t Hv0) as E2. congruence. }
  clear m0 n0 Hm0 Hv0. rewrite Forall_app, Forall_cons in Ha. destruct Ha as (_ & Hvok & Ha2).
  rewrite app_assoc in Hm, Hc, HS, HF. pose proof (chain_bounds _ _ _ v Hc ltac:(set_solver)) as Hbv.
  wp_step. eapply wp_get_vma; [done..|]. destruct (decide (type v = BackingMemory)) as [Hty|Hty];
    [rewrite bool_decide_eq_true_2 by done|rewrite bool_decide_eq_false_2 by done]; cbn [negb].
  2:{ apply wp_ret, HF. exists t, (cell_of v t). split; [lia|]. split; [by apply (view_mid _ _ _ _ _ _ Hc)|].
      unfold is_backed. cbn. by rewrite bool_decide_eq_false_2. }
  rewrite (MAX_ADDRESS_u32 (base v + size v)), (MAX_ADDRESS_u32 (t - base v)), (MAX_ADDRESS_u32 (_ - t)) by lia.
  rewrite MAX_ADDRESS_u32 by lia. destruct (ok_backing _ Hvok Hty) as (b & o & Hbm & Ho & Hob).
  wp_step. unfold ref_add. rewrite Hbm. wp_step. wp_step; [cbn; apply Z.ltb_lt; lia|]. apply wp_ret.
  set (t' := Z.min e (base v + size v)). replace (t + (t' - t)) with t' by lia.
  pose proof (area_split _ _ _ _ _ H2) as (G1 & Gs & G2).
  assert (Hrefs : refs_at ((m1 ++ k1) ++ v :: k2) t (t' - t) = (fun k => ref_at (Some (b, o + (t - base v))) k) <$> seqZ 0 (t' - t)).
  { rewrite (refs_at_area _ _ _ _ _ _ _ Hc) by (done || lia). by rewrite Hbm. }
  assert (Hsplit : refs_at ((m1 ++ k1) ++ v :: k2) t (e - t) =
    refs_at ((m1 ++ k1) ++ v :: k2) t (t' - t) ++ refs_at ((m1 ++ k1) ++ v :: k2) t' (e - t')).
  { unfold refs_at. rewrite <- fmap_app. f_equal. replace (e - t) with ((t' - t) + (e - t')) by lia.
    rewrite seqZ_app by lia. do 2 f_equal. lia. }
  assert (Hthis : forall x, t <= x < t' -> is_backed <$> view ((m1 ++ k1) ++ v :: k2) x = Some true).
  { intros x Hx. rewrite (view_mid _ _ _ _ _ _ Hc) by lia. cbn. unfold is_backed. cbn. by rewrite bool_decide_eq_true_2. }
  destruct (decide (t' = e)) as [Heq|Hlt].
  { rewrite Heq in *. destruct fuel; cbn [backing_blocks_loop]; rewrite Z.eqb_refl; apply wp_ret, HS; try done;
      rewrite refs_of_snoc; by rewrite Hrefs. }
  replace ((m1 ++ k1) ++ v :: k2) with ((m1 ++ k1 ++ [v]) ++ k2) in * by (by rewrite <- !app_assoc).
  apply (IH (m1 ++ k1 ++ [v]) k2 (base v + size v)); [done| |done|done|lia| | |].
  - apply chain_app. exists p. split; [done|]. apply chain_app. exists (base v). cbn. split; [done|lia].
  - rewrite length_app in Hfuel. cbn in Hfuel. lia.
  - intros blocks Hb Heq. apply HS.
    + intros x Hx. destruct (decide (x < t')); [apply Hthis; lia|apply Hb; lia].
    + rewrite Heq, refs_of_snoc, Hsplit, Hrefs. symmetry. apply app_assoc.
  - intros (x & c & Hx & Hrest). apply HF. exists x, c. split; [lia|done].
Qed.

Lemma wp_GetBackingBlocksForRange address n s :
  vm_ok s -> 0 <= address -> 0 <= n -> address + n <= MAX_ADDRESS ->
  wp (GetBackingBlocksForRange address n) (fun r s' => s' = s /\
    if decide (Forall (fun x => is_backed <$> view (vma_map (vm s)) x = Some true) (seqZ address n))
    then exists blocks, r = Success blocks /\ refs_of blocks = refs_at (vma_map (vm s)) address n
    else r = Failure ERR_INVALID_ADDRESS_STATE) s.
Proof.
  intros Hok Ha Hn He. unfold GetBackingBlocksForRange. wp_step. apply wp_map_of. rewrite MAX_ADDRESS_u32 by lia.
  eapply (wp_backing_blocks _ [] (vma_map (vm s)) 0); [done|done|apply Hok|apply Hok|lia|done|lia| |]; cbn [app].
  - intros blocks Hb Heq. split; [done|]. case_decide as Hall; [|destruct Hall; apply Forall_forall; intros x Hx%elem_of_seqZ; apply Hb; lia].
    exists blocks. split; [done|]. rewrite Heq. cbn. by rewrite Z.add_simpl_l.
  - intros (x & c & Hx & Hv & Hg). split; [done|]. case_decide as Hall; [|done].
    rewrite Forall_forall in Hall. specialize (Hall x ltac:(apply elem_of_seqZ; lia)). rewrite Hv in Hall. cbn in Hall. injection Hall as Hall.
    by rewrite Hall in Hg.
Qed.

(** The host memory behind a range of addresses. It is given exactly when
    every address of the range is backed by memory, and the blocks, one after
    the other, are then byte for byte what the areas say of the addresses;
    nothing is changed. *)
Theorem GetBackingBlocksForRange_spec address n s :
  vm_ok s -> 0 <= address -> 0 <= n -> address + n <= MAX_ADDRESS ->
  wp (GetBackingBlocksForRange address n) (fun r s' => s' = s /\
    if decide (Forall (fun x => is_backed <$> view (vma_map (vm s)) x = Some true) (seqZ address n))
    then exists blocks, r = Success blocks /\ refs_of blocks = refs_at (vma_map (vm s)) address n
    else r = Failure ERR_INVALID_ADDRESS_STATE) s.
Proof. apply (wp_GetBackingBlocksForRange address n s). Qed.

(** Mapping at the first free address after a base: the area that is tried is
    the first free one whose end leaves room counted from the base, not from the
    start of the area. When that area starts after the base and is too small, the
    mapping fails with the state error, whatever free areas follow. *)
Theorem MapBackingMemoryToBase_first_hole (Hh : host_laws) base_ region_size b o n state m1 v m2 s :
  vm_ok s -> vma_map (vm s) = m1 ++ v :: m2 -> place base_ n -> 0 <= o -> o + n <= backing_size b ->
  (forall w, w ∈ m1 -> type w = Free -> base w + size w <= base_) ->
  type v = Free -> base_ < base v -> base_ + n <= base v + size v -> size v < n ->
  base v + n <= base_ + region_size < 2 ^ 32 -> base v + n < 2 ^ 32 ->
  wp (MapBackingMemoryToBase base_ region_size (Some (b, o)) n state)
     (fun r s' => r = Failure ERR_INVALID_ADDRESS_STATE /\ s' = s) s.
Proof.
  intros Hok Hm Hp Ho Hob Hfirst Hv Hb Hend Hsmall Hreg He. destruct (Hp) as [Ht Hn _ _ Hna].
  unfold MapBackingMemoryToBase. wp_step. apply wp_assert_unlocked; [apply Hok|]. wp_step. apply wp_map_of.
  pose proof (wf_chain _ (ok_wf _ (vm_map _ Hok))) as Hc. rewrite Hm in Hc |- *.
  pose proof (chain_bounds _ _ _ v Hc ltac:(set_solver)) as Hbv.
  assert (Hvok : vma_ok v) by (pose proof (wf_areas _ (ok_wf _ (vm_map _ Hok))) as Ha; rewrite Hm, Forall_app, Forall_cons in Ha; tauto).
  wp_step. apply (wp_deref _ v).
  { rewrite find_app_none; [cbn|].
    - rewrite bool_decide_eq_true_2 by done. rewrite (MAX_ADDRESS_u32 (base v + size v)) by lia.
      rewrite u32_small by (unfold is_u32; lia). cbn. by rewrite (proj2 (Z.ltb_lt _ _)), (proj2 (Z.leb_le _ _)) by lia.
    - intros w Hw. pose proof (chain_left _ _ _ _ _ _ Hc Hw). destruct (decide (type w = Free)) as [Hf|Hf].
      + rewrite bool_decide_eq_true_2 by done. specialize (Hfirst w Hw Hf). rewrite (MAX_ADDRESS_u32 (base w + size w)) by lia.
        cbn. by rewrite (proj2 (Z.ltb_ge _ _)) by lia.
      + by rewrite bool_decide_eq_false_2. }
  cbn zeta. rewrite (Z.max_r base_ (base v)) by lia. rewrite !u32_small by (unfold is_u32; lia).
  rewrite (proj2 (Z.ltb_ge _ _)) by lia. wp_step.
  eapply wp_mono; [apply (wp_MapBackingMemory Hh); [done| |done|done]|].
  { split; [lia|done|lia|apply Hvok|done]. }
  cbn beta. intros r s' [(Hall & _)|(_ & -> & ->)].
  - exfalso. destruct (free_run m1 v m2 (base v) (base v + n)) as [_ ?]; [pose proof (vm_map _ Hok) as Hmap; by rewrite Hm in Hmap|lia|lia|by rewrite <- Hm|lia].
  - cbn beta iota. apply wp_ret. rewrite (proj2 (Z.leb_gt _ _)) by lia. done.
Qed.

Lemma wp_alter_table pt f t (Q : unit -> MemorySystem D -> Prop) ms :
  page_tables ms !! pt = Some t -> Q tt (ms <| page_tables := <[pt := f t]> (page_tables ms) |>) -> wp (set_table pt f) Q ms.
Proof.
  intros Ht HQ. unfold set_table. wp_step. unfold set_field in *. cbn in *. by rewrite Ht.
Qed.

(** [Reset] makes the address space one free area, with a page table that
    agrees with it, whatever the areas and the table were. *)
Theorem Reset_spec (Hh : host_laws) t s :
  is_locked (vm s) = false -> page_tables (memory s) !! page_table (vm s) = Some t ->
  wp Reset (fun _ s' => vm_ok s' /\ frame s s' /\ all_free (vma_map (vm s')) 0 MAX_ADDRESS) s.
Proof.
  intros Hl Ht. unfold Reset. wp_step. apply wp_assert_unlocked; [done|]. wp_step. apply wp_update_map. wp_step. wp_step. wp_step.
  apply wp_memory_op. eapply wp_alter_table; [done|]. unfold UpdatePageTableForVMA. wp_step. wp_step. wp_step. apply wp_memory_op.
  assert (Hvok : vma_ok initial_vma) by (split; try done; intros; done).
  assert (Hc : chain 0 [initial_vma] MAX_ADDRESS) by done.
  assert (Hview : forall x c, view [initial_vma] x = Some c -> 0 <= x < MAX_ADDRESS /\ c = free_cell).
  { intros x c. destruct (decide (0 <= x < MAX_ADDRESS)) as [Hx|Hx].
    - rewrite view_single by done. by intros [= <-].
    - by rewrite (view_out _ _ _ x Hc) by lia. }
  eapply wp_mono; [eapply (wp_map_pages Hh _ initial_vma (Memory.Clear t)); [apply lookup_insert_eq| |done]|].
  { eapply area_region; [exact Hc|done|done|by constructor|done]. }
  cbn beta. intros [] ms' (t' & [R1 R2 R3 R4 R5 R6] & [Ha Hp]). wp_step. split; [split|split].
  - split; [split; [done|by constructor]|done].
  - exists t'. split; [cbn; rewrite R1; apply lookup_insert_eq|]. intros i c Hv. apply Hview in Hv as [Hx ->].
    cbn in Ha, Hp |- *. rewrite R3. unfold page_agrees. rewrite Ha, Hp.
    unfold MAX_ADDRESS, CITRA_PAGE_SIZE in *. change (0 / 4096) with 0 in *; change (1073741824 / 4096) with 262144 in *. rewrite in_range_true by lia. split; [done|]. cbn.
    unfold mapped_pointer. by destruct (mapped_cached _ _ _).
  - done.
  - split; cbn; try done. intros pt Hpt. rewrite R1. cbn. by rewrite !lookup_insert_ne.
  - intros x Hx. exists free_cell. split; [|done]. by apply (view_single initial_vma).
Qed.
End VMManager.
Arguments VmState D : clear implicits.

(** ** Examples *)

(** Every two adjacent areas that can be merged are merged: the invariant the
    declaration of [vma_map] states. *)
Fixpoint fully_merged (m : vma_map_t) (mergeable : VirtualMemoryArea -> VirtualMemoryArea -> bool) : Prop :=
  match m with
  | v :: ((w :: _) as m') => mergeable v w = false /\ fully_merged m' mergeable
  | _ => True
  end.

#[local] Existing Instance demo_host.
#[local] Existing Instance demo_devices.

Definition demo_area (b n : Z) (perms : VMAPermission) (o : Z) : VirtualMemoryArea :=
  mkVMA b n BackingMemory perms MemoryState.Private (Some (FcramMem, o)) 0 None.
Definition demo_free (b e : Z) : VirtualMemoryArea := initial_vma <| base := b |> <| size := e - b |>.
Definition demo_page (i : Z) (o : Z) (t : PageTable) : PageTable := set_pointer i (Some (FcramMem, o)) (set_attribute i MemoryPage t).

(** Two read-only pages of FCRAM, then two that can be written too. *)
Definition demo_map : vma_map_t :=
  [demo_free 0 0x100000; demo_area 0x100000 0x2000 Perm.Read 0; demo_area 0x102000 0x2000 Perm.ReadWrite 0x2000; demo_free 0x104000 MAX_ADDRESS].
Definition demo_vm : VmState unit :=
  mkVmState (mkVMManager demo_map 0 false) (demo_memory <| page_tables :=
    {[ 0 := demo_page 0x100 0 (demo_page 0x101 0x1000 (demo_page 0x102 0x2000 (demo_page 0x103 0x3000 new_PageTable))) ]} |>) 0.

Lemma demo_vm_ok : vm_ok demo_vm.
Proof.
  assert (Hc : chain 0 demo_map MAX_ADDRESS) by (cbn; unfold MAX_ADDRESS; lia).
  split; [split; [split; [done|]|]| |done].
  - repeat apply Forall_cons_2; [..|by apply Forall_nil_2]; split; cbn; try done; intros _; eexists _, _; (split; [done|]);
      unfold backing_size, FCRAM_N3DS_SIZE; lia.
  - cbn. repeat split; by intros [? ?].
  - eexists. split; [apply lookup_singleton_eq|]. intros i c Hv. unfold page_agrees, mapped_attribute, mapped_cached.
    assert (Hx : 0 <= i * CITRA_PAGE_SIZE < MAX_ADDRESS).
    { destruct (decide (0 <= i * CITRA_PAGE_SIZE < MAX_ADDRESS)) as [|Hn]; [done|].
      by rewrite (view_out 0 demo_map MAX_ADDRESS) in Hv by (done || lia). }
    unfold MAX_ADDRESS, CITRA_PAGE_SIZE in *.
    assert (i < 0x100 \/ i = 0x100 \/ i = 0x101 \/ i = 0x102 \/ i = 0x103 \/ 0x103 < i) as [Hi|[->|[->|[->|[->|Hi]]]]] by lia.
    2-5: vm_compute in Hv; injection Hv as <-; by vm_compute.
    all: assert (Hcell : c = free_cell) by
      (cbn [vm demo_vm vma_map] in Hv;
       first [change demo_map with ([] ++ demo_free 0 0x100000 :: tail demo_map) in Hv, Hc;
              rewrite (view_mid _ _ _ _ _ _ Hc) in Hv by (cbn; lia); by injection Hv as <-
             |change demo_map with ([demo_free 0 0x100000; demo_area 0x100000 0x2000 Perm.Read 0; demo_area 0x102000 0x2000 Perm.ReadWrite 0x2000] ++ [demo_free 0x104000 MAX_ADDRESS]) in Hv, Hc;
              rewrite (view_mid _ _ _ _ _ _ Hc) in Hv by (cbn; unfold MAX_ADDRESS; lia); by injection Hv as <-]);
      subst c; cbn; unfold attribute_at, pointer_at, demo_page, set_pointer, set_attribute, set_field; cbn;
      by rewrite !lookup_insert_ne by lia.
Qed.

(** The map after a run. *)
Definition map_after {A} (r : outcome (A * VmState unit)) : option (A * vma_map_t) :=
  match r with Ret (a, s) => Some (a, vma_map (vm s)) | _ => None end.

(** The range operations can leave two areas that could be merged: the loop
    goes on after the area a change was merged into, so when that swallows the
    next area of the range, the merge of that one with what follows the range is
    skipped. The map was fully merged before. *)
Theorem range_left_unmerged :
  exists (s s' : VmState unit) target n perms,
    vm_ok s /\ place target n /\ target + n <= MAX_ADDRESS /\ fully_merged (vma_map (vm s)) mergeable /\
    ReprotectRange target n perms s = Ret (RESULT_SUCCESS, s') /\ ~ fully_merged (vma_map (vm s')) mergeable.
Proof.
  pose proof (wp_inv _ _ _ (wp_ReprotectRange demo_host_laws 0x100000 0x3000 Perm.ReadWrite demo_vm demo_vm_ok
    ltac:(by split) ltac:(by unfold MAX_ADDRESS))) as (r & s' & Hrun & _).
  assert (Hmap : map_after (ReprotectRange 0x100000 0x3000 Perm.ReadWrite demo_vm) = Some (RESULT_SUCCESS,
    [demo_free 0 0x100000; demo_area 0x100000 0x3000 Perm.ReadWrite 0; demo_area 0x103000 0x1000 Perm.ReadWrite 0x3000;
     demo_free 0x104000 MAX_ADDRESS])) by (vm_compute; reflexivity).
  rewrite Hrun in Hmap. cbn in Hmap. injection Hmap as -> Hmap.
  exists demo_vm, s', 0x100000, 0x3000, Perm.ReadWrite.
  split; [exact demo_vm_ok|]. split; [by split|]. split; [by unfold MAX_ADDRESS|]. split; [by vm_compute|].
  split; [exact Hrun|]. rewrite Hmap. intros (_ & Hm & _). by vm_compute in Hm.
Qed.

Lemma demo_place : place 0x100000 0x3000.
Proof. by split. Qed.

Lemma MapBackingMemory_spec_witness :
  place 0x200000 0x3000 /\
  wp (MapBackingMemory 0x200000 (Some (FcramMem, 0x8000)) 0x3000 MemoryState.Private)
    (mapping_outcome demo_vm 0x200000 0x3000
      (fun x => mkCell BackingMemory Perm.ReadWrite MemoryState.Private (Some (FcramMem, 0x8000 + (x - 0x200000))) 0)) demo_vm.
Proof.
  split; [by split|]. apply (MapBackingMemory_spec demo_host_laws); [exact demo_vm_ok|by split|lia|].
  unfold backing_size, FCRAM_N3DS_SIZE. lia.
Defined.

Lemma UnmapRange_spec_witness :
  place 0x100000 0x3000 /\
  wp (UnmapRange 0x100000 0x3000) (range_outcome demo_vm 0x100000 0x3000
    (in_view (vma_map (vm demo_vm)) 0x100000 (0x100000 + 0x3000) is_free) (fun _ => free_cell)) demo_vm.
Proof.
  split; [exact demo_place|]. apply (UnmapRange_spec demo_host_laws); [exact demo_vm_ok|exact demo_place|unfold MAX_ADDRESS; lia].
Defined.

Lemma ReprotectRange_spec_witness :
  place 0x100000 0x3000 /\
  wp (ReprotectRange 0x100000 0x3000 Perm.ReadExecute) (range_outcome demo_vm 0x100000 0x3000
    (in_view (vma_map (vm demo_vm)) 0x100000 (0x100000 + 0x3000) is_free)
    (fun c => mkCell (c_type c) Perm.ReadExecute (c_state c) (c_ref c) (c_paddr c))) demo_vm.
Proof.
  split; [exact demo_place|]. apply (ReprotectRange_spec demo_host_laws); [exact demo_vm_ok|exact demo_place|unfold MAX_ADDRESS; lia].
Defined.

Lemma ChangeMemoryState_spec_witness :
  place 0x100000 0x3000 /\
  wp (ChangeMemoryState 0x100000 0x3000 MemoryState.Private Perm.Read MemoryState.Aliased Perm.ReadWrite)
    (range_outcome demo_vm 0x100000 0x3000
      (in_view (vma_map (vm demo_vm)) 0x100000 (0x100000 + 0x3000) (state_mismatch MemoryState.Private Perm.Read))
      (fun c => mkCell (c_type c) Perm.ReadWrite MemoryState.Aliased (c_ref c) (c_paddr c))) demo_vm.
Proof.
  split; [exact demo_place|].
  apply (ChangeMemoryState_spec demo_host_laws); [exact demo_vm_ok|exact demo_place|unfold MAX_ADDRESS; lia].
Defined.

Lemma GetBackingBlocksForRange_spec_witness :
  vm_ok demo_vm /\
  wp (GetBackingBlocksForRange 0x101ffe 4) (fun r s' => s' = demo_vm /\
    if decide (Forall (fun x => is_backed <$> view (vma_map (vm demo_vm)) x = Some true) (seqZ 0x101ffe 4))
    then exists blocks, r = Success blocks /\ refs_of blocks = refs_at (vma_map (vm demo_vm)) 0x101ffe 4
    else r = Failure ERR_INVALID_ADDRESS_STATE) demo_vm.
Proof.
  split; [exact demo_vm_ok|]. apply GetBackingBlocksForRange_spec; [exact demo_vm_ok|lia..|unfold MAX_ADDRESS; lia].
Defined.

(** One free page between mapped ones, and much free space after them. *)
Lemma MapBackingMemoryToBase_first_hole_witness :
  exists s : VmState unit, vm_ok s /\ all_free (vma_map (vm s)) 0x104000 0x106000 /\
  wp (MapBackingMemoryToBase 0x100000 0x100000 (Some (FcramMem, 0x8000)) 0x2000 MemoryState.Private)
     (fun r s' => r = Failure ERR_INVALID_ADDRESS_STATE /\ s' = s) s.
Proof.
  destruct (wp_inv _ _ _ (wp_UnmapRange demo_host_laws 0x101000 0x1000 demo_vm demo_vm_ok
    ltac:(by split) ltac:(by unfold MAX_ADDRESS))) as (r & s & Hrun & Ho).
  assert (Hmap : map_after (UnmapRange 0x101000 0x1000 demo_vm) = Some (RESULT_SUCCESS,
    [demo_free 0 0x100000; demo_area 0x100000 0x1000 Perm.Read 0; demo_free 0x101000 0x102000;
     demo_area 0x102000 0x2000 Perm.ReadWrite 0x2000; demo_free 0x104000 MAX_ADDRESS])) by (vm_compute; reflexivity).
  rewrite Hrun in Hmap. cbn in Hmap. injection Hmap as -> Hmap. destruct Ho as [(_ & _ & Hok & _)|(_ & [=] & _)].
  exists s. split; [exact Hok|]. split.
  - pose proof (wf_chain _ (ok_wf _ (vm_map _ Hok))) as Hc. rewrite Hmap in Hc |- *.
    change [demo_free 0 1048576; demo_area 1048576 4096 Perm.Read 0; demo_free 1052672 1056768; demo_area 1056768 8192 Perm.ReadWrite 8192; demo_free 1064960 MAX_ADDRESS]
      with ([demo_free 0 1048576; demo_area 1048576 4096 Perm.Read 0; demo_free 1052672 1056768; demo_area 1056768 8192 Perm.ReadWrite 8192] ++ [demo_free 1064960 MAX_ADDRESS]) in *.
    intros x Hx. exists free_cell. split; [|done]. rewrite (view_mid _ _ _ _ _ _ Hc); [done|cbn; unfold MAX_ADDRESS; lia].
  - apply (MapBackingMemoryToBase_first_hole demo_host_laws _ _ _ _ _ _
      [demo_free 0 0x100000; demo_area 0x100000 0x1000 Perm.Read 0] (demo_free 0x101000 0x102000)
      [demo_area 0x102000 0x2000 Perm.ReadWrite 0x2000; demo_free 0x104000 MAX_ADDRESS]); try (cbn; unfold backing_size, FCRAM_N3DS_SIZE; lia).
    + exact Hok.
    + exact Hmap.
    + by split.
    + intros w [->|[->|Hn%not_elem_of_nil]%elem_of_cons]%elem_of_cons; [by cbn; intros _|done|done].
    + done.
Defined.

Lemma Reset_spec_witness :
  is_locked (vm demo_vm) = false /\
  wp Reset (fun _ s' => vm_ok s' /\ frame demo_vm s' /\ all_free (vma_map (vm s')) 0 MAX_ADDRESS) demo_vm.
Proof. split; [done|]. by eapply (Reset_spec demo_host_laws). Defined.
