(* ===== verification/CoreTiming.v ===== *)
(** [Core::Timing] (src/.../core/core_timing.{h,cpp}): the timers of the cores,
    their queues of events and the slices they run the cores for, and the
    conversions between time and cycles. *)

From S2P Require Import Prelude.
From Stdlib Require Import SpecFloat.

(** ** Time and cycles *)

Definition BASE_CLOCK_RATE_ARM11 : Z := 268111856.
Definition s64_max : Z := 9223372036854775807.
Definition MAX_VALUE_TO_MULTIPLY : Z := s64_max / BASE_CLOCK_RATE_ARM11.

(** The clock rate is a [u64], so the products and quotients are those of [u64],
    converted to [s64] when they are returned. *)
Definition msToCycles (ms : Z) : Z := s64 (u64 (BASE_CLOCK_RATE_ARM11 * ms) / 1000).
Definition usToCycles_int (us : Z) : Z := s64 (u64 (BASE_CLOCK_RATE_ARM11 * us) / 1000000).
Definition usToCycles (us : Z) : Z :=
  if MAX_VALUE_TO_MULTIPLY <? Z.quot us 1000000 then s64_max
  else if MAX_VALUE_TO_MULTIPLY <? us then s64 (u64 (BASE_CLOCK_RATE_ARM11 * Z.quot us 1000000))
  else s64 (u64 (BASE_CLOCK_RATE_ARM11 * us) / 1000000).
Definition usToCycles_u64 (us : Z) : Z :=
  if MAX_VALUE_TO_MULTIPLY <? us / 1000000 then s64_max
  else if MAX_VALUE_TO_MULTIPLY <? us then s64 (u64 (BASE_CLOCK_RATE_ARM11 * s64 (us / 1000000)))
  else s64 (u64 (BASE_CLOCK_RATE_ARM11 * s64 us) / 1000000).
Definition nsToCycles_int (ns : Z) : Z := s64 (u64 (BASE_CLOCK_RATE_ARM11 * ns) / 1000000000).
Definition nsToCycles (ns : Z) : Z :=
  if MAX_VALUE_TO_MULTIPLY <? Z.quot ns 1000000000 then s64_max
  else if MAX_VALUE_TO_MULTIPLY <? ns then s64 (u64 (BASE_CLOCK_RATE_ARM11 * Z.quot ns 1000000000))
  else s64 (u64 (BASE_CLOCK_RATE_ARM11 * ns) / 1000000000).
Definition nsToCycles_u64 (ns : Z) : Z :=
  if MAX_VALUE_TO_MULTIPLY <? ns / 1000000000 then s64_max
  else if MAX_VALUE_TO_MULTIPLY <? ns then s64 (u64 (BASE_CLOCK_RATE_ARM11 * Z.quot (s64 ns) 1000000000))
  else s64 (u64 (BASE_CLOCK_RATE_ARM11 * s64 ns) / 1000000000).
Definition cyclesToNs (cycles : Z) : Z := u64 (s64 (cycles * 1000000000)) / BASE_CLOCK_RATE_ARM11.
Definition cyclesToUs (cycles : Z) : Z := s64 (u64 (s64 (cycles * 1000000)) / BASE_CLOCK_RATE_ARM11).
Definition cyclesToMs (cycles : Z) : Z := u64 (s64 (cycles * 1000)) / BASE_CLOCK_RATE_ARM11.

(** [double] and [float], as the IEEE formats of the standard library *)
Definition double_of_Z (z : Z) : spec_float := binary_normalize 53 1024 z 0 false.
Definition double_mul : spec_float -> spec_float -> spec_float := SFmul 53 1024.
Definition double_div : spec_float -> spec_float -> spec_float := SFdiv 53 1024.
Definition float_of_Z (z : Z) : spec_float := binary_normalize 24 128 z 0 false.
Definition float_mul : spec_float -> spec_float -> spec_float := SFmul 24 128.
Definition float_of_double (x : spec_float) : spec_float :=
  match x with S754_finite s m e => binary_normalize 24 128 (cond_Zopp s (Zpos m)) e s | _ => x end.
(** Conversion to an integer type: towards zero; not a number, infinities: undefined, 0 here. *)
Definition truncate (x : spec_float) : Z :=
  match x with S754_finite s m e => cond_Zopp s (Z.shiftl (Zpos m) e) | _ => 0 end.
(** The literal [0.000000001f] is the [float] nearest to 1e-9. *)
Definition nano_float : spec_float := SFdiv 24 128 (float_of_Z 1) (float_of_Z 1000000000).
Definition nsToCycles_float (ns : spec_float) : Z :=
  truncate (float_mul (float_mul (float_of_Z BASE_CLOCK_RATE_ARM11) nano_float) ns).

(** ** Events and timers *)

(** [Timing::Event]; a [TimingEventType] is identified by its name. *)
Record Event := mkEvent { time : Z; fifo_order : Z; user_data : Z; event_type : string }.
#[export] Instance Event_eq_dec : EqDecision Event.
Proof. solve_decision. Defined.
#[export] Instance eta_Event : Eta Event := fun e => mkEvent (time e) (fifo_order e) (user_data e) (event_type e).

(** [Event::operator<]: by time, then in the order of arrival *)
Definition event_lt (a b : Event) : bool :=
  (time a <? time b) || ((time a =? time b) && (fifo_order a <? fifo_order b)).
(** [Event::operator>] *)
Definition event_gt (a b : Event) : bool := event_lt b a.

Definition MAX_SLICE_LENGTH : Z := BASE_CLOCK_RATE_ARM11 / 234.

(** [Timing::Timer]. [event_queue] holds the heap's events in their order: the
    code looks at its front only, takes that away, and rebuilds it. *)
Record Timer := mkTimer {
  event_queue : list Event;
  event_fifo_id : Z;
  ts_queue : list Event;
  is_timer_sane : bool;
  slice_length : Z;
  downcount : Z;
  executed_ticks : Z;
  idled_cycles : Z;
  adjust_value_last : Z;
  adjust_value_curr_handle : Z;
  cpu_clock_scale : spec_float;
}.
#[export] Instance eta_Timer : Eta Timer := fun t =>
  mkTimer (event_queue t) (event_fifo_id t) (ts_queue t) (is_timer_sane t) (slice_length t) (downcount t)
    (executed_ticks t) (idled_cycles t) (adjust_value_last t) (adjust_value_curr_handle t) (cpu_clock_scale t).

Definition new_Timer : Timer :=
  mkTimer [] 0 [] true MAX_SLICE_LENGTH MAX_SLICE_LENGTH 0 0 0 0 (double_of_Z 1).

Module Timer.
(** [emplace_back] and [push_heap] *)
Fixpoint push_event (e : Event) (q : list Event) : list Event :=
  match q with
  | [] => [e]
  | e' :: q' => if event_lt e e' then e :: q else e' :: push_event e q'
  end.

Definition GetTicks (t : Timer) : Z :=
  let ticks := u64 (executed_ticks t) in
  if is_timer_sane t then ticks else u64 (ticks + (slice_length t - downcount t)).
Definition AddTicks (ticks : Z) : M Timer unit := modify (fun t =>
  t <| downcount := s64 (downcount t - u64 (truncate (double_mul (double_of_Z ticks) (cpu_clock_scale t)))) |>).
Definition GetIdleTicks (t : Timer) : Z := idled_cycles t.
Definition ForceExceptionCheck (cycles : Z) : M Timer unit := modify (fun t =>
  let cycles := Z.max 0 cycles in
  if cycles <? downcount t then
    t <| slice_length ::= fun n => n - (downcount t - cycles) |> <| downcount := cycles |>
  else t).
Definition add_event (e : Event) (t : Timer) : Timer :=
  t <| event_queue ::= push_event (e <| fifo_order := event_fifo_id t |>) |> <| event_fifo_id ::= fun n => u64 (n + 1) |>.
Definition MoveEvents : M Timer unit := modify (fun t =>
  (foldl (fun t e => add_event e t) t (ts_queue t)) <| ts_queue := [] |>).
Definition StartAdjust (now : Z) : M Timer Z :=
  t ← get;
  ASSERT (Z.land (adjust_value_curr_handle t) 1 =? 0);;
  modify (fun t => t <| adjust_value_last := now |> <| adjust_value_curr_handle ::= fun h => u32 (h + 1) |>);;
  t ← get; mret (adjust_value_curr_handle t).
Definition EndAdjust (now : Z) (start_adjust_handle : Z) : M Timer unit :=
  t ← get;
  ASSERT ((adjust_value_last t <=? now) && (start_adjust_handle =? adjust_value_curr_handle t));;
  AddTicks (u64 (nsToCycles_float (float_of_double (double_div (double_of_Z (now - adjust_value_last t)) (cpu_clock_scale t)))));;
  modify (fun t => t <| adjust_value_curr_handle ::= fun h => u32 (h + 1) |>).
Definition GetMaxSliceLength : M Timer Z :=
  t ← get;
  match event_queue t with
  | [] => mret MAX_SLICE_LENGTH
  | next_event :: _ => ASSERT (0 <? time next_event - executed_ticks t);; mret (time next_event - executed_ticks t)
  end.
Definition SetNextSlice (max_slice_length : Z) : M Timer unit := modify (fun t =>
  let n := match event_queue t with
           | [] => max_slice_length
           | e :: _ => s32 (Z.min (time e - executed_ticks t) max_slice_length)
           end in
  t <| slice_length := n |> <| downcount := n |>).
Definition Idle : M Timer unit := modify (fun t =>
  t <| idled_cycles ::= fun n => u64 (n + downcount t) |> <| downcount := 0 |>).
Definition GetDowncount (t : Timer) : Z := downcount t.
End Timer.

(** ** [Timing] *)

Section Timing.
(** The type of the callbacks that components register. *)
Context {C : Type}.

(** [event_types] maps a registered name to its callback, if it was given one. *)
Record Timing := mkTiming {
  event_types : gmap string (option C);
  timers : list Timer;
  current_timer : nat;
  event_queue_locked : bool;
}.
#[export] Instance eta_Timing : Eta Timing := fun t =>
  mkTiming (event_types t) (timers t) (current_timer t) (event_queue_locked t).

Definition UpdateClockSpeed (cpu_clock_percentage : Z) : M Timing unit := modify (fun t =>
  t <| timers ::= fmap (fun x => x <| cpu_clock_scale := double_div (double_of_Z 100) (double_of_Z cpu_clock_percentage) |>) |>).
(** The constructor; [timers[0]] needs a core. *)
Definition new_Timing (num_cores : nat) (cpu_clock_percentage : Z) : outcome Timing :=
  match UpdateClockSpeed cpu_clock_percentage (mkTiming ∅ (replicate num_cores new_Timer) 0 false) with
  | Ret (_, t) => if bool_decide (num_cores = O) then Crash UndefinedBehaviour else Ret t
  | Crash f => Crash f
  end.
Definition RegisterEvent (name : string) (callback : option C) : M Timing string :=
  modify (fun t => t <| event_types ::= fun m =>
    let old := default None (m !! name) in
    <[name := match callback with Some c => Some c | None => old end]> m |>);;
  mret name.

(** An operation of the timer of a core; outside [timers] it is undefined. *)
Definition on_timer {A} (core_id : nat) (m : M Timer A) : M Timing A := fun t =>
  match timers t !! core_id with
  | None => Crash UndefinedBehaviour
  | Some x => match m x with Ret (a, x') => Ret (a, t <| timers ::= <[core_id := x']> |>) | Crash f => Crash f end
  end.

Definition ScheduleEvent (cycles_into_future : Z) (type : string) (data : Z) (core_id : option nat) : M Timing unit :=
  s ← get;
  if event_queue_locked s then mret tt
  else
    let core := match core_id with None => current_timer s | Some i => i end in
    ASSERT (bool_decide (core_id = None) || bool_decide (core < length (timers s))%nat);;
    on_timer core (
      t ← get;
      let timeout := s64 (Timer.GetTicks t + cycles_into_future) in
      if bool_decide (current_timer s = core) then
        (if is_timer_sane t then mret tt else Timer.ForceExceptionCheck cycles_into_future);;
        modify (Timer.add_event (mkEvent timeout 0 data type))
      else modify (fun t => t <| ts_queue ::= fun q => q ++ [mkEvent timeout 0 data type] |>)).

Definition remove_events (f : Event -> bool) : M Timing unit :=
  s ← get;
  if event_queue_locked s then mret tt
  else modify (fun s => s <| timers ::= fmap (fun t => t <| event_queue ::= List.filter (fun e => negb (f e)) |>) |>).
Definition UnscheduleEvent (type : string) (data : Z) : M Timing unit :=
  remove_events (fun e => bool_decide (event_type e = type) && (user_data e =? data)).
Definition RemoveEvent (type : string) : M Timing unit := remove_events (fun e => bool_decide (event_type e = type)).
Definition SetCurrentTimer (core_id : nat) : M Timing unit :=
  s ← get; _ ← deref (timers s !! core_id); modify (fun s => s <| current_timer := core_id |>).
Definition GetTicks (s : Timing) : outcome Z :=
  match timers s !! current_timer s with Some t => Ret (s64 (Timer.GetTicks t)) | None => Crash UndefinedBehaviour end.
(** [std::max_element]: the first of the greatest *)
Definition GetGlobalTicks (s : Timing) : outcome Z :=
  match timers s with
  | [] => Crash UndefinedBehaviour
  | t :: l => Ret (s64 (foldl (fun m t => if m <? Timer.GetTicks t then Timer.GetTicks t else m) (Timer.GetTicks t) l))
  end.
Definition GetGlobalTimeUs (s : Timing) : outcome Z :=
  match GetGlobalTicks s with
  | Ret ticks => Ret (s64 (u64 (s64 (ticks * 1000000)) / BASE_CLOCK_RATE_ARM11))
  | Crash f => Crash f
  end.
Definition UnlockEventQueue : M Timing unit := modify (fun s => s <| event_queue_locked := false |>).

(** [Timer::Advance] of core [core_id]. The callbacks work on a state [W] that
    holds this one; the events that were taken are returned, in their order. *)
Section Advance.
Context {W : Type} (timing_of : W -> Timing) (set_timing : Timing -> W -> W) (run : C -> Z -> Z -> M W unit).
Context (core_id : nat).

Definition with_timer {A} (m : M Timer A) : M W A := zoom timing_of set_timing (on_timer core_id m).
Definition get_timer : M W Timer := with_timer get.

Fixpoint advance_loop (fuel : nat) : M W (list Event) :=
  t ← get_timer;
  match event_queue t with
  | evt :: rest =>
      if time evt <=? executed_ticks t then
        match fuel with
        | O => crash OutOfFuel
        | S fuel' =>
            with_timer (modify (fun t => t <| event_queue := rest |>));;
            w ← get;
            match default None (event_types (timing_of w) !! event_type evt) with
            | Some c => run c (user_data evt) (s32 (executed_ticks t - time evt))
            | None => mret tt
            end;;
            evts ← advance_loop fuel';
            mret (evt :: evts)
        end
      else mret []
  | [] => mret []
  end.

Definition Advance (fuel : nat) : M W (list Event) :=
  with_timer Timer.MoveEvents;;
  with_timer (modify (fun t =>
    t <| idled_cycles := 0 |> <| executed_ticks ::= fun n => n + (slice_length t - downcount t) |>
      <| slice_length := 0 |> <| downcount := 0 |> <| is_timer_sane := true |>));;
  evts ← advance_loop fuel;
  with_timer (modify (fun t => t <| is_timer_sane := false |>));;
  mret evts.
End Advance.
End Timing.
Arguments Timing C : clear implicits.

(** ** Time *)

(** [nsToCycles] of a duration: the exact cycles, rounded down, up to the
    limit of about 34 seconds that can be multiplied in 64 bits, and from there
    on the cycles of the whole seconds; it never overflows, and is less than one
    second of cycles too short. *)
Theorem nsToCycles_spec (ns : Z) (H : 0 <= ns < 2 ^ 63) :
  let exact := BASE_CLOCK_RATE_ARM11 * ns / 1000000000 in
  0 <= nsToCycles ns <= exact /\ exact < nsToCycles ns + BASE_CLOCK_RATE_ARM11 /\
  (ns <= MAX_VALUE_TO_MULTIPLY -> nsToCycles ns = exact) /\
  (MAX_VALUE_TO_MULTIPLY < ns -> nsToCycles ns = BASE_CLOCK_RATE_ARM11 * (ns / 1000000000)).
Proof.
  cbn zeta. unfold nsToCycles. rewrite Z.quot_div_nonneg by lia.
  assert (Hm : MAX_VALUE_TO_MULTIPLY = 34401209161) by reflexivity. rewrite Hm. unfold BASE_CLOCK_RATE_ARM11.
  rewrite (proj2 (Z.ltb_ge _ _)) by (Z.to_euclidean_division_equations; lia). destruct (Z.ltb_spec 34401209161 ns).
  - rewrite u64_small, s64_small by (unfold is_s64, is_u64; Z.to_euclidean_division_equations; lia).
    split; [Z.to_euclidean_division_equations; lia|]. split; [Z.to_euclidean_division_equations; lia|]. split; [lia|done].
  - rewrite u64_small by (unfold is_u64; lia). rewrite s64_small by (unfold is_s64; Z.to_euclidean_division_equations; lia).
    split; [Z.to_euclidean_division_equations; lia|]. split; [Z.to_euclidean_division_equations; lia|]. split; [done|lia].
Qed.
Lemma nsToCycles_spec_witness : 0 <= 39000 < 2 ^ 63 /\ 0 <= nsToCycles 39000 <= BASE_CLOCK_RATE_ARM11 * 39000 / 1000000000.
Proof. split; [done|]. by apply (nsToCycles_spec 39000). Defined.

(** [nsToCycles] away from the exact range. A negative duration of less than
    about 68 seconds becomes a positive one, of the order of 68 seconds, because
    the product and the quotient are unsigned; a longer duration can become
    fewer cycles than a shorter one; and one to three nanoseconds become no
    cycles at all. *)
Theorem nsToCycles_limits :
  (forall ns, -34401209161 <= ns < 0 -> 9000000000 < nsToCycles ns) /\
  (exists a b, 0 <= a < b /\ b < 2 ^ 63 /\ nsToCycles b < nsToCycles a) /\
  (forall ns, 1 <= ns <= 3 -> nsToCycles ns = 0).
Proof.
  assert (Hm : MAX_VALUE_TO_MULTIPLY = 34401209161) by reflexivity. split; [|split].
  - intros ns Hns. unfold nsToCycles. rewrite Hm. unfold BASE_CLOCK_RATE_ARM11.
    rewrite (proj2 (Z.ltb_ge _ _)) by (Z.to_euclidean_division_equations; lia).
    rewrite (proj2 (Z.ltb_ge _ _)) by lia.
    replace (u64 (268111856 * ns)) with (268111856 * ns + 18446744073709551616) by word.
    rewrite s64_small by (unfold is_s64; Z.to_euclidean_division_equations; lia). Z.to_euclidean_division_equations; lia.
  - exists 34401209161, 34401209162. split; [lia|]. split; [lia|]. reflexivity.
  - intros ns Hns. assert (ns = 1 \/ ns = 2 \/ ns = 3) as [->|[->| ->]] by lia; reflexivity.
Qed.

(** ** The order of events *)

Definition before (a b : Event) : Prop := event_lt a b = true.
Lemma before_spec a b : before a b <-> time a < time b \/ (time a = time b /\ fifo_order a < fifo_order b).
Proof. unfold before, event_lt. rewrite orb_true_iff, andb_true_iff. lia. Qed.
#[export] Instance before_trans : Transitive before.
Proof. intros a b c. rewrite !before_spec. lia. Qed.
#[export] Instance before_irrefl : Irreflexive before.
Proof. intros a. unfold complement. rewrite before_spec. lia. Qed.
Lemma before_total a b : fifo_order a <> fifo_order b -> before a b \/ before b a.
Proof. rewrite !before_spec. lia. Qed.

Definition sorted_events : list Event -> Prop := StronglySorted before.

Lemma push_event_perm e q : Timer.push_event e q ≡ₚ e :: q.
Proof.
  induction q as [|e' q IH]; cbn; [done|]. case_match; [done|]. rewrite IH. apply Permutation_swap.
Qed.
Lemma push_event_sorted e q :
  sorted_events q -> Forall (fun e' => fifo_order e' <> fifo_order e) q -> sorted_events (Timer.push_event e q).
Proof.
  induction q as [|e' q IH]; intros Hs Hf; cbn; [by repeat constructor|].
  apply StronglySorted_inv in Hs as [Hs He]. apply Forall_cons in Hf as [Hne Hf]. destruct (event_lt e e') eqn:Hlt.
  - apply SSorted_cons; [by apply SSorted_cons|]. apply Forall_cons. split; [done|].
    eapply Forall_impl; [exact He|]. intros x Hx. cbn in Hx. by transitivity e'.
  - apply SSorted_cons; [by apply IH|]. destruct (before_total e e' ltac:(done)) as [Hb|Hb]; [unfold before in Hb; congruence|].
    apply Forall_forall. intros x. rewrite push_event_perm, elem_of_cons. intros [->|Hx]; [done|].
    rewrite Forall_forall in He. by apply He.
Qed.

(** The invariant of a timer. *)
Record timer_ok (t : Timer) : Prop := {
  timer_sorted : sorted_events (event_queue t);
  timer_ids : Forall (fun e => fifo_order e < event_fifo_id t) (event_queue t);
  timer_id_range : 0 <= event_fifo_id t;
}.
(** The ids have not run out. *)
Definition ids_left (n : nat) (t : Timer) : Prop := event_fifo_id t + Z.of_nat n < 2 ^ 64.

Lemma add_event_ok e t : timer_ok t -> ids_left 1 t ->
  timer_ok (Timer.add_event e t) /\ event_fifo_id (Timer.add_event e t) = event_fifo_id t + 1 /\
  event_queue (Timer.add_event e t) ≡ₚ (e <| fifo_order := event_fifo_id t |>) :: event_queue t.
Proof.
  intros [Hs Hi Hr] Hl. unfold ids_left in Hl.
  assert (Hid : event_fifo_id (Timer.add_event e t) = event_fifo_id t + 1) by (cbn; apply u64_small; unfold is_u64; lia).
  split; [|split; [done|cbn; apply push_event_perm]]. split.
  - cbn. apply push_event_sorted; [done|]. eapply Forall_impl; [exact Hi|]. cbn. lia.
  - rewrite Hid. cbn. apply Forall_forall. intros x. rewrite push_event_perm, elem_of_cons. intros [->|Hx]; [cbn; lia|].
    rewrite Forall_forall in Hi. specialize (Hi x Hx). lia.
  - rewrite Hid. lia.
Qed.
Lemma foldl_add_event l t : timer_ok t -> ids_left (length l) t ->
  let t' := foldl (fun t e => Timer.add_event e t) t l in
  timer_ok t' /\ event_fifo_id t' = event_fifo_id t + Z.of_nat (length l) /\
  executed_ticks t' = executed_ticks t /\ slice_length t' = slice_length t /\ downcount t' = downcount t /\
  is_timer_sane t' = is_timer_sane t.
Proof.
  revert t. induction l as [|e l IH]; intros t Hok Hl; cbn -[Timer.add_event]; [split_and!; (done || lia)|].
  unfold ids_left in *. cbn [length] in Hl. destruct (add_event_ok e t Hok) as (Hok' & Hid & _); [unfold ids_left; lia|].
  destruct (IH (Timer.add_event e t) Hok') as (H1 & H2 & H3 & H4 & H5 & H6); [lia|].
  rewrite H2, H3, H4, H5, H6, Hid. repeat (split; [done|]). cbn [length]. split; [lia|done].
Qed.
Lemma sorted_filter (f : Event -> bool) l : sorted_events l -> sorted_events (List.filter f l).
Proof.
  induction 1 as [|e l Hs IH He]; cbn; [constructor|]. destruct (f e); [|done]. apply SSorted_cons; [done|].
  rewrite Forall_forall in He |- *. intros x Hx. apply list_elem_of_In, filter_In in Hx as [Hx _].
  apply He. by apply list_elem_of_In.
Qed.
Lemma sorted_le_time l : sorted_events l -> StronglySorted Z.le (time <$> l).
Proof.
  induction 1 as [|e l Hs IH He]; cbn; constructor; [done|]. apply Forall_fmap. eapply Forall_impl; [exact He|].
  intros x. rewrite before_spec. cbn. lia.
Qed.

(** ** Slices

    A core runs for [downcount] more cycles before its timer advances; no event
    of its queue may lie inside of what is left of the slice. *)
Definition slice_ok (t : Timer) : Prop :=
  is_timer_sane t = false -> forall e, e ∈ event_queue t -> executed_ticks t + slice_length t <= time e.
(** The ticks of a timer, while they are in range. *)
Definition ticks_of (t : Timer) : Z :=
  if is_timer_sane t then executed_ticks t else executed_ticks t + (slice_length t - downcount t).
Definition ticks_ok (t : Timer) : Prop := 0 <= executed_ticks t < 2 ^ 63 /\ 0 <= ticks_of t < 2 ^ 63.
Lemma GetTicks_ticks_of t : ticks_ok t -> Timer.GetTicks t = ticks_of t.
Proof.
  unfold ticks_ok, ticks_of, Timer.GetTicks. intros [H1 H2]. rewrite (u64_small (executed_ticks t)) by (unfold is_u64; lia).
  destruct (is_timer_sane t); [done|]. apply u64_small. unfold is_u64. lia.
Qed.

Section Laws.
Context {C : Type}.
Implicit Types (s : Timing C).

Lemma wp_on_timer {A} i (m : M Timer A) (Q : A -> Timing C -> Prop) s t :
  timers s !! i = Some t -> wp m (fun a t' => Q a (s <| timers ::= <[i := t']> |>)) t -> wp (on_timer i m) Q s.
Proof. unfold wp, on_timer. intros ->. by destruct (m t) as [[a t']|]. Qed.

Lemma wp_ScheduleEvent cycles type data s t :
  event_queue_locked s = false -> timers s !! current_timer s = Some t ->
  timer_ok t -> slice_ok t -> ids_left 1 t -> ticks_ok t ->
  (is_timer_sane t = false -> 0 <= cycles) -> - 2 ^ 63 <= ticks_of t + cycles < 2 ^ 63 ->
  wp (ScheduleEvent cycles type data None) (fun _ s' => exists t',
    s' = s <| timers ::= <[current_timer s := t']> |> /\ timer_ok t' /\ slice_ok t' /\ ticks_of t' = ticks_of t /\
    event_queue t' ≡ₚ mkEvent (ticks_of t + cycles) (event_fifo_id t) data type :: event_queue t /\
    event_fifo_id t' = event_fifo_id t + 1 /\ ts_queue t' = ts_queue t /\
    is_timer_sane t' = is_timer_sane t /\ executed_ticks t' = executed_ticks t) s.
Proof.
  intros Hlock Ht Hok Hslice Hids Htick Hc Hmax. unfold ScheduleEvent. wp_step. wp_step. rewrite Hlock.
  wp_step. wp_step; [done|]. eapply wp_on_timer; [done|]. wp_step. wp_step. rewrite bool_decide_eq_true_2 by done.
  rewrite (GetTicks_ticks_of _ Htick). pose proof (proj2 Htick). rewrite s64_small by (unfold is_s64; lia).
  set (ev := mkEvent _ _ _ _). wp_step.
  apply (wp_mono _ (fun _ t1 => timer_ok t1 /\ ids_left 1 t1 /\ ticks_of t1 = ticks_of t /\ event_queue t1 = event_queue t /\
    event_fifo_id t1 = event_fifo_id t /\ ts_queue t1 = ts_queue t /\ slice_ok t1 /\
    is_timer_sane t1 = is_timer_sane t /\ executed_ticks t1 = executed_ticks t /\
    (is_timer_sane t1 = false -> executed_ticks t1 + slice_length t1 <= ticks_of t + cycles))).
  - destruct (is_timer_sane t) eqn:Hsane; [apply wp_ret; split_and!; try done; congruence|]. specialize (Hc eq_refl).
    unfold Timer.ForceExceptionCheck. wp_step. rewrite Z.max_r by lia. destruct (Z.ltb_spec cycles (downcount t)).
    + split_and!; [split; apply Hok|done|unfold ticks_of; cbn; rewrite Hsane; lia|done|done|done| |done|done|].
      * intros _ e He. specialize (Hslice Hsane e He). cbn. lia.
      * unfold ticks_of. rewrite Hsane. cbn. lia.
    + split_and!; try done. unfold ticks_of. rewrite Hsane. lia.
  - intros [] t1 (Hok1 & Hids1 & Htk & Hq & Hid & Hts & Hsl & Hsane1 & Hex1 & Hend). wp_step. eexists. split; [done|].
    destruct (add_event_ok ev t1 Hok1 Hids1) as (Hok2 & Hid2 & Hperm). rewrite Hid, Hq in *.
    split; [done|]. split; [|split; [done|split; [exact Hperm|split; [exact Hid2|split; [exact Hts|done]]]]].
    intros Hs e. rewrite Hperm. intros [->|He]%elem_of_cons; [cbn in Hs |- *; by apply Hend|].
    rewrite <- Hq in He. by apply (Hsl Hs).
Qed.

(** Scheduling an event on the running core. The event enters the queue at
    its place, at the ticks of now plus the delay, with a fresh number; the
    ticks of the core do not change; and when the slice would run past the
    event it is shortened to end at it, so that no event lies inside of the
    slice. *)
Theorem ScheduleEvent_spec cycles type data s t :
  event_queue_locked s = false -> timers s !! current_timer s = Some t ->
  timer_ok t -> slice_ok t -> ids_left 1 t -> ticks_ok t ->
  (is_timer_sane t = false -> 0 <= cycles) -> - 2 ^ 63 <= ticks_of t + cycles < 2 ^ 63 ->
  wp (ScheduleEvent cycles type data None) (fun _ s' => exists t',
    s' = s <| timers ::= <[current_timer s := t']> |> /\ timer_ok t' /\ slice_ok t' /\ ticks_of t' = ticks_of t /\
    event_queue t' ≡ₚ mkEvent (ticks_of t + cycles) (event_fifo_id t) data type :: event_queue t /\
    event_fifo_id t' = event_fifo_id t + 1 /\ ts_queue t' = ts_queue t /\
    is_timer_sane t' = is_timer_sane t /\ executed_ticks t' = executed_ticks t) s.
Proof. apply (wp_ScheduleEvent cycles type data s t). Qed.

(** Removing events keeps every queue in order. *)
Lemma remove_events_spec f s :
  event_queue_locked s = false -> Forall timer_ok (timers s) ->
  wp (remove_events f) (fun _ s' => Forall timer_ok (timers s') /\
    event_queue <$> timers s' = (fun t => List.filter (fun e => negb (f e)) (event_queue t)) <$> timers s /\
    current_timer s' = current_timer s /\ event_types s' = event_types s) s.
Proof.
  intros Hl Hok. unfold remove_events. wp_step. wp_step. rewrite Hl. wp_step. cbn. split_and!; try done.
  - apply Forall_fmap. eapply Forall_impl; [exact Hok|]. intros t [Hs Hi Hr]. split; cbn; [by apply sorted_filter| |done].
    rewrite Forall_forall in Hi |- *. intros e He. apply list_elem_of_In, filter_In in He as [He _].
    apply Hi. by apply list_elem_of_In.
  - by rewrite <- list_fmap_compose.
Qed.

(** ** Advancing *)

Section AdvanceLaws.
Context {W : Type} (timing_of : W -> Timing C) (set_timing : Timing C -> W -> W).
Context (get_set : forall s w, timing_of (set_timing s w) = s).
Context (run : C -> Z -> Z -> M W unit) (core_id : nat).

Definition due (T : Z) (q : list Event) : list Event := List.filter (fun e => time e <=? T) q.
(** The timer of the core in a state. *)
Definition timer_in (w : W) (t : Timer) : Prop := timers (timing_of w) !! core_id = Some t.

(** What the callbacks are relied on for, in states that satisfy [I n] while [n]
    more of them may run: a callback that runs for the event [ev] at the ticks
    [T] does not touch the time of its timer, cancels no due event, and adds at
    most one due event, later than [ev]. [I] allows the steps of the timer
    itself: taking events out, and in from the other cores, and moving its time
    to its ticks. *)
Record callback_law (I : nat -> W -> Prop) : Prop := {
  law_timer n w t t' : I n w -> timer_in w t -> timer_ok t -> timer_ok t' -> ticks_of t' = ticks_of t ->
    event_fifo_id t' + Z.of_nat (length (ts_queue t')) = event_fifo_id t + Z.of_nat (length (ts_queue t)) ->
    I n (set_timing ((timing_of w) <| timers ::= <[core_id := t']> |>) w);
  law_run n c ev w t : I (S n) w -> timer_in w t -> timer_ok t -> is_timer_sane t = true ->
    Forall (before ev) (event_queue t) -> time ev <= executed_ticks t ->
    wp (run c (user_data ev) (s32 (executed_ticks t - time ev))) (fun _ w' => I n w' /\ exists t' added,
      timer_in w' t' /\ timer_ok t' /\ is_timer_sane t' = true /\ executed_ticks t' = executed_ticks t /\
      due (executed_ticks t) (event_queue t') ≡ₚ added ++ due (executed_ticks t) (event_queue t) /\
      (added = [] \/ exists e, added = [e] /\ time ev < time e)) w;
  law_less n w : I (S n) w -> I n w;
}.

(** The turns the loop may need. *)
Definition turns (T : Z) (q : list Event) : nat := sum_list_with (fun e => Z.to_nat (T - time e + 1)) (due T q).

Lemma due_elem T q e : e ∈ due T q <-> e ∈ q /\ time e <= T.
Proof. unfold due. rewrite list_elem_of_In, filter_In, <- list_elem_of_In. by rewrite Z.leb_le. Qed.
Lemma due_sorted_nil T e q : sorted_events (e :: q) -> T < time e -> due T (e :: q) = [].
Proof.
  intros [Hs He]%StronglySorted_inv HT. destruct (due T (e :: q)) as [|x l] eqn:Hd; [done|].
  assert (Hx : x ∈ due T (e :: q)) by (rewrite Hd; constructor). apply due_elem in Hx as [[->|Hx]%elem_of_cons Hle]; [lia|].
  rewrite Forall_forall in He. specialize (He x Hx). rewrite before_spec in He. lia.
Qed.

Lemma law_le I (Hlaw : callback_law I) n m w : I m w -> (n <= m)%nat -> I n w.
Proof. intros HI Hle. induction Hle as [|m _ IH]; [done|]. apply IH. by apply (law_less I Hlaw). Qed.
Lemma wp_with_timer {A} (m : M Timer A) (Q : A -> W -> Prop) w t :
  timer_in w t -> wp m (fun a t' => Q a (set_timing ((timing_of w) <| timers ::= <[core_id := t']> |>) w)) t ->
  wp (with_timer timing_of set_timing core_id m) Q w.
Proof.
  unfold timer_in, wp, with_timer, zoom, on_timer. intros ->. by destruct (m t) as [[a t']|].
Qed.
Lemma timer_in_set w t t' : timer_in w t -> timer_in (set_timing ((timing_of w) <| timers ::= <[core_id := t']> |>) w) t'.
Proof.
  unfold timer_in. intros Ht. rewrite get_set. cbn. apply list_lookup_insert_eq. by apply lookup_lt_Some in Ht.
Qed.

(** The run of the loop: the due events in the order of their times, among them
    all that were due at its start; none is left. *)
Lemma advance_loop_spec I (Hlaw : callback_law I) fuel : forall w t,
  I (turns (executed_ticks t) (event_queue t)) w -> timer_in w t -> timer_ok t -> is_timer_sane t = true -> (turns (executed_ticks t) (event_queue t) <= fuel)%nat ->
  wp (advance_loop timing_of set_timing run core_id fuel) (fun evts w' => exists t',
    timer_in w' t' /\ timer_ok t' /\ is_timer_sane t' = true /\ executed_ticks t' = executed_ticks t /\
    Forall (fun e => executed_ticks t < time e) (event_queue t') /\
    StronglySorted Z.le (time <$> evts) /\ Forall (fun e => time e <= executed_ticks t) evts /\
    (forall n, Forall (fun e => n <= time e) (event_queue t) -> Forall (fun e => n <= time e) evts) /\
    due (executed_ticks t) (event_queue t) ⊆+ evts) w.
Proof.
  induction fuel as [|fuel IH]; intros w t HI Ht Hok Hsane Hfuel; cbn [advance_loop].
  all: wp_step; unfold get_timer; eapply wp_with_timer; [done|]; wp_step.
  all: pose proof (law_timer I Hlaw _ w t t HI Ht Hok Hok eq_refl eq_refl) as HI0.
  all: set (w0 := set_timing _ w) in *; assert (Ht0 : timer_in w0 t) by (by eapply timer_in_set).
  all: destruct (event_queue t) as [|evt rest] eqn:Hq;
    [apply wp_ret; exists t; rewrite Hq; split_and!; (done || by constructor)|].
  all: destruct (Z.leb_spec (time evt) (executed_ticks t)) as [Hle|Hgt].
  2,4: apply wp_ret; exists t; rewrite Hq; pose proof (timer_sorted _ Hok) as Hs; rewrite Hq in Hs; split_and!; try done;
    [|by constructor|by rewrite due_sorted_nil];
    apply StronglySorted_inv in Hs as [_ He]; constructor; [done|]; eapply Forall_impl; [exact He|];
    intros x; cbn; rewrite before_spec; lia.
  { exfalso. unfold turns, due in Hfuel. cbn in Hfuel. rewrite (proj2 (Z.leb_le _ _)) in Hfuel by done. cbn in Hfuel. lia. }
  assert (Hs := timer_sorted _ Hok). assert (Hi := timer_ids _ Hok). rewrite Hq in Hs, Hi.
  apply StronglySorted_inv in Hs as [Hs He]. apply Forall_cons in Hi as [_ Hi].
  assert (Hdq : due (executed_ticks t) (evt :: rest) = evt :: due (executed_ticks t) rest).
  { unfold due. cbn. by rewrite (proj2 (Z.leb_le _ _)) by done. }
  wp_step. eapply wp_with_timer; [done|]. wp_step. set (t1 := t <| event_queue := rest |>).
  assert (Hok1 : timer_ok t1) by (split; [done|done|apply Hok]).
  pose proof (law_timer I Hlaw _ w0 t t1 HI0 Ht0 Hok Hok1 eq_refl eq_refl) as HI1. set (w1 := set_timing _ w0) in *.
  assert (Ht1 : timer_in w1 t1) by (by eapply timer_in_set).
  assert (Hturns : exists m, turns (executed_ticks t) (evt :: rest) = S m /\ forall added,
    (added = [] \/ exists e, added = [e] /\ time evt < time e) ->
    (sum_list_with (fun e => Z.to_nat (executed_ticks t - time e + 1)) added +
     sum_list_with (fun e => Z.to_nat (executed_ticks t - time e + 1)) (due (executed_ticks t) rest) <= m)%nat).
  { unfold turns. rewrite Hdq. cbn. exists (Z.to_nat (executed_ticks t - time evt) +
      sum_list_with (fun e => Z.to_nat (executed_ticks t - time e + 1)) (due (executed_ticks t) rest))%nat.
    split; [lia|]. intros added [->|(e & -> & Hlt)]; cbn; lia. }
  destruct Hturns as (m & Hm & Hless). rewrite Hm in HI1, Hfuel.
  wp_step. wp_step. wp_step.
  apply (wp_mono _ (fun _ w' => I m w' /\ exists t' added,
    timer_in w' t' /\ timer_ok t' /\ is_timer_sane t' = true /\ executed_ticks t' = executed_ticks t /\
    due (executed_ticks t) (event_queue t') ≡ₚ added ++ due (executed_ticks t) rest /\
    (added = [] \/ exists e, added = [e] /\ time evt < time e))).
  { destruct (default None _) as [c|].
    - exact (law_run I Hlaw m c evt w1 t1 HI1 Ht1 Hok1 Hsane He Hle).
    - apply wp_ret. split; [by apply (law_less I Hlaw)|]. exists t1, []. split_and!; try done. by left. }
  intros [] w2 (HI2 & t2 & added & Ht2 & Hok2 & Hsane2 & Hex2 & Hdue & Hadd). wp_step.
  assert (Hless2 : (turns (executed_ticks t2) (event_queue t2) <= m)%nat).
  { specialize (Hless added Hadd). unfold turns. rewrite Hex2.
    assert (Hsum : sum_list_with (fun e => Z.to_nat (executed_ticks t - time e + 1)) (due (executed_ticks t) (event_queue t2)) =
      (sum_list_with (fun e => Z.to_nat (executed_ticks t - time e + 1)) added +
       sum_list_with (fun e => Z.to_nat (executed_ticks t - time e + 1)) (due (executed_ticks t) rest))%nat).
    { rewrite Hdue. apply sum_list_with_app. }
    lia. }
  eapply wp_mono; [apply (IH w2 t2); [by eapply law_le|done|done|done|lia]|].
  cbn beta. rewrite Hex2. intros evts w3 (t3 & Ht3 & Hok3 & Hsane3 & Hex3 & Hrest & Hsort & Hall & Hmin & Hsub).
  apply wp_ret. exists t3. rewrite Hex3, Hdq. split_and!; try done.
  - cbn. constructor; [done|]. apply Forall_fmap. apply Hmin. apply Forall_forall. intros x Hx.
    destruct (decide (time x <= executed_ticks t)) as [Hxd|]; [|lia].
    assert (Hx' : x ∈ due (executed_ticks t) (event_queue t2)) by (by apply due_elem).
    rewrite Hdue in Hx'. apply elem_of_app in Hx' as [Hx'|[Hx' _]%due_elem].
    + destruct Hadd as [->|(e & -> & Hlt)]; [by apply not_elem_of_nil in Hx'|].
      apply list_elem_of_singleton in Hx' as ->. lia.
    + rewrite Forall_forall in He. specialize (He x Hx'). rewrite before_spec in He. lia.
  - by constructor.
  - intros n [Hn Hnr]%Forall_cons. constructor; [done|]. apply Hmin. apply Forall_forall. intros x Hx.
    destruct (decide (time x <= executed_ticks t)) as [Hxd|]; [|lia].
    assert (Hx' : x ∈ due (executed_ticks t) (event_queue t2)) by (by apply due_elem).
    rewrite Hdue in Hx'. apply elem_of_app in Hx' as [Hx'|[Hx' _]%due_elem].
    + destruct Hadd as [->|(e & -> & Hlt)]; [by apply not_elem_of_nil in Hx'|].
      apply list_elem_of_singleton in Hx' as ->. lia.
    + rewrite Forall_forall in Hnr. by apply Hnr.
  - apply submseteq_skip. rewrite Hdue in Hsub. etrans; [|exact Hsub]. apply submseteq_inserts_l. done.
Qed.

(** An event without its number. *)
Definition what (e : Event) : Z * Z * string := (time e, user_data e, event_type e).
Definition due_what (T : Z) (q : list Event) : list (Z * Z * string) := what <$> due T q.

Lemma due_perm T q q' : q ≡ₚ q' -> due T q ≡ₚ due T q'.
Proof.
  unfold due. induction 1 as [|e l l' _ IH|e e' l|l1 l2 l3 _ IH1 _ IH2]; cbn; [done| | |by rewrite IH1].
  - destruct (time e <=? T); by rewrite ?IH.
  - destruct (time e <=? T), (time e' <=? T); try done. apply Permutation_swap.
Qed.
Lemma due_what_cons T e q : due_what T (e :: q) = (if time e <=? T then [what e] else []) ++ due_what T q.
Proof. unfold due_what, due. cbn. by destruct (time e <=? T). Qed.
Lemma foldl_add_what T l t : timer_ok t -> ids_left (length l) t ->
  due_what T (event_queue (foldl (fun t e => Timer.add_event e t) t l)) ≡ₚ due_what T (event_queue t) ++ due_what T l.
Proof.
  revert t. induction l as [|e l IH]; intros t Hok Hl; cbn -[Timer.add_event due_what]; [by rewrite app_nil_r|].
  unfold ids_left in *. cbn [length] in Hl. destruct (add_event_ok e t Hok) as (Hok' & Hid & Hperm); [unfold ids_left; lia|].
  rewrite IH by (done || rewrite Hid; lia). unfold due_what at 1. rewrite (due_perm _ _ _ Hperm).
  change (what <$> due T ?q) with (due_what T q). rewrite !due_what_cons.
  change (time (e <| fifo_order := event_fifo_id t |>)) with (time e).
  change (what (e <| fifo_order := event_fifo_id t |>)) with (what e). destruct (time e <=? T); cbn; [|done].
  by rewrite Permutation_middle.
Qed.

Lemma turns_what T q : turns T q = sum_list_with (fun x => Z.to_nat (T - x.1.1 + 1)) (due_what T q).
Proof. unfold turns, due_what. induction (due T q) as [|e l IH]; cbn; [done|]. by rewrite IH. Qed.

(** C27: The boundary of two slices. [Advance] ends, whatever the callbacks
    schedule in accordance with their law; the time of the timer becomes its
    ticks; the events taken are in the order of their times and are all at or
    before the new time; every event that was due, in the queue or handed over
    by another core, is among them; and every event left is later. The next slice
    is then not empty and reaches no further than the next event. *)
Theorem Advance_spec I (Hlaw : callback_law I) w t max_slice_length :
  timer_in w t -> timer_ok t -> ids_left (length (ts_queue t)) t -> is_timer_sane t = false ->
  0 < max_slice_length < 2 ^ 31 ->
  let enough := turns (ticks_of t) (event_queue t ++ ts_queue t) in
  I enough w -> forall fuel, (enough <= fuel)%nat ->
  wp (evts ← Advance timing_of set_timing run core_id fuel;
      with_timer timing_of set_timing core_id (Timer.SetNextSlice max_slice_length);; mret evts)
     (fun evts w' => exists t', timer_in w' t' /\ timer_ok t' /\ is_timer_sane t' = false /\
       executed_ticks t' = ticks_of t /\ slice_ok t' /\
       0 < slice_length t' <= max_slice_length /\ downcount t' = slice_length t' /\
       StronglySorted Z.le (time <$> evts) /\ Forall (fun e => time e <= ticks_of t) evts /\
       due_what (ticks_of t) (event_queue t ++ ts_queue t) ⊆+ what <$> evts) w.
Proof.
  intros Ht Hok Hids Hsane Hmax enough HI fuel Hfuel. set (t1 := (foldl (fun t e => Timer.add_event e t) t (ts_queue t)) <| ts_queue := [] |>).
  destruct (foldl_add_event (ts_queue t) t Hok Hids) as (Hok1 & Hid1 & Hex1 & Hsl1 & Hdc1 & Hsane1).
  assert (Hok1' : timer_ok t1) by (split; apply Hok1). assert (Hid1' : event_fifo_id t1 + Z.of_nat (length (ts_queue t1)) =
    event_fifo_id t + Z.of_nat (length (ts_queue t))) by (cbn; rewrite Hid1; lia).
  set (t2 := t1 <| idled_cycles := 0 |> <| executed_ticks ::= fun n => n + (slice_length t1 - downcount t1) |>
      <| slice_length := 0 |> <| downcount := 0 |> <| is_timer_sane := true |>).
  assert (Hok2 : timer_ok t2) by (split; apply Hok1).
  assert (Hex2 : executed_ticks t2 = ticks_of t).
  { unfold ticks_of. rewrite Hsane. cbn. by rewrite Hex1, Hsl1, Hdc1. }
  assert (Hd : due_what (ticks_of t) (event_queue t2) ≡ₚ due_what (ticks_of t) (event_queue t ++ ts_queue t)).
  { change (event_queue t2) with (event_queue (foldl (fun t e => Timer.add_event e t) t (ts_queue t))).
    rewrite foldl_add_what by done. unfold due_what, due. by rewrite List.filter_app, fmap_app. }
  assert (Henough : turns (executed_ticks t2) (event_queue t2) = enough).
  { unfold enough. rewrite !turns_what, Hex2. by rewrite Hd. }
  assert (Htk1 : ticks_of t1 = ticks_of t) by (unfold ticks_of; cbn; by rewrite Hex1, Hsl1, Hdc1, Hsane1).
  pose proof (law_timer I Hlaw _ w t t1 HI Ht Hok Hok1' Htk1 Hid1') as HI1.
  unfold Advance. wp_step. wp_step.
  eapply wp_with_timer; [done|]. unfold Timer.MoveEvents. wp_step. set (w1 := set_timing _ w).
  assert (Ht1 : timer_in w1 t1) by (by eapply timer_in_set).
  wp_step. eapply wp_with_timer; [exact Ht1|]. wp_step. fold t2. set (w2 := set_timing _ w1).
  assert (Ht2 : timer_in w2 t2) by (by eapply timer_in_set).
  wp_step. eapply wp_mono; [apply (advance_loop_spec I Hlaw fuel w2 t2); try done|].
  { rewrite Henough. eapply (law_timer I Hlaw _ w1 t1 t2); try done. rewrite Htk1. rewrite <- Hex2. done. }
  { by rewrite Henough. }
  cbn beta. rewrite Hex2.
  intros evts w3 (t3 & Ht3 & Hok3 & Hsane3 & Hex3 & Hrest & Hsort & Hall & _ & Hsub).
  wp_step. eapply wp_with_timer; [done|]. wp_step. set (t4 := t3 <| is_timer_sane := false |>). set (w4 := set_timing _ w3).
  assert (Ht4 : timer_in w4 t4) by (by eapply timer_in_set).
  wp_step. wp_step. eapply wp_with_timer; [done|]. unfold Timer.SetNextSlice. wp_step. apply wp_ret.
  eexists. split; [by eapply timer_in_set|].
  assert (Hlen : forall e q, event_queue t4 = e :: q ->
    s32 (Z.min (time e - executed_ticks t4) max_slice_length) = Z.min (time e - executed_ticks t4) max_slice_length /\
    0 < time e - executed_ticks t4).
  { intros e q Hq. change (event_queue t3 = e :: q) in Hq. rewrite Hq in Hrest. apply Forall_cons in Hrest as [He _].
    change (executed_ticks t4) with (executed_ticks t3). rewrite Hex3. split; [|lia]. apply s32_small. unfold is_s32. lia. }
  split_and!; try done.
  - split; apply Hok3.
  - intros _ e He. cbn [event_queue set_field] in He. change (e ∈ event_queue t4) in He.
    change (executed_ticks t4 + match event_queue t4 with [] => max_slice_length
      | e :: _ => s32 (Z.min (time e - executed_ticks t4) max_slice_length) end <= time e).
    pose proof (timer_sorted _ Hok3) as Hs. change (event_queue t3) with (event_queue t4) in Hs.
    destruct (event_queue t4) as [|x q] eqn:Hq; [by apply not_elem_of_nil in He|].
    destruct (Hlen x q eq_refl) as [-> Hpos]. apply StronglySorted_inv in Hs as [_ Hs].
    apply elem_of_cons in He as [->|He]; [lia|]. rewrite Forall_forall in Hs. specialize (Hs e He).
    rewrite before_spec in Hs. lia.
  - change (0 < match event_queue t4 with [] => max_slice_length
      | e :: _ => s32 (Z.min (time e - executed_ticks t4) max_slice_length) end).
    destruct (event_queue t4) as [|x q] eqn:Hq; [lia|]. destruct (Hlen x q eq_refl) as [-> Hpos]. lia.
  - change (match event_queue t4 with [] => max_slice_length
      | e :: _ => s32 (Z.min (time e - executed_ticks t4) max_slice_length) end <= max_slice_length).
    destruct (event_queue t4) as [|x q] eqn:Hq; [lia|]. destruct (Hlen x q eq_refl) as [-> Hpos]. lia.
  - rewrite <- Hd. unfold due_what. by apply (fmap_submseteq what).
Qed.

(** Scheduling an event again for the time it was for, from its own callback,
    does not end: no fuel is enough. *)
Lemma advance_livelock (P : W -> Prop) :
  (forall w, P w -> exists t evt rest c, timer_in w t /\ event_queue t = evt :: rest /\ time evt <= executed_ticks t /\
     event_types (timing_of w) !! event_type evt = Some (Some c) /\
     wp (run c (user_data evt) (s32 (executed_ticks t - time evt))) (fun _ w' => P w')
       (set_timing ((timing_of (set_timing ((timing_of w) <| timers ::= <[core_id := t]> |>) w)) <| timers ::= <[core_id := t <| event_queue := rest |>]> |>)
          (set_timing ((timing_of w) <| timers ::= <[core_id := t]> |>) w))) ->
  forall fuel w, P w -> advance_loop timing_of set_timing run core_id fuel w = Crash OutOfFuel.
Proof.
  intros Hstep. induction fuel as [|fuel IH]; intros w HP; destruct (Hstep w HP) as (t & evt & rest & c & Ht & Hq & Hle & Hc & Hrun);
    cbn [advance_loop]; unfold get_timer, with_timer, zoom, on_timer, mbind, M_bind, get at 1;
    unfold timer_in in Ht; rewrite Ht, Hq, (proj2 (Z.leb_le _ _)) by done; [done|].
  pose proof (timer_in_set w t t Ht) as Ht0. unfold timer_in in Ht0.
  set (w0 := set_timing _ w) in *. rewrite Ht0. cbn [modify].
  set (w1 := set_timing _ w0) in *. unfold get.
  assert (Hty : event_types (timing_of w1) = event_types (timing_of w)).
  { unfold w1. rewrite get_set. cbn. unfold w0. by rewrite get_set. }
  rewrite Hty, Hc. cbn [default from_option id].
  apply wp_inv in Hrun as ([] & w2 & Hrun & HP2). rewrite Hrun. by rewrite (IH w2 HP2).
Qed.
End AdvanceLaws.
End Laws.

(** ** Examples *)

(** A world that is only its timing, whose one callback schedules its event
    again every 1000 cycles. *)
Definition demo_run (_ : unit) (data late : Z) : M (Timing unit) unit := ScheduleEvent (1000 - late) "tick" data None.
Definition demo_inv (n : nat) (s : Timing unit) : Prop :=
  event_queue_locked s = false /\ current_timer s = O /\ exists t, timers s !! O = Some t /\ 0 <= ticks_of t < 2 ^ 62 /\
  event_fifo_id t + Z.of_nat (length (ts_queue t)) + Z.of_nat n < 2 ^ 64.

Lemma s32_le x : 0 <= x -> -2147483648 <= s32 x < 2147483648 /\ s32 x <= x.
Proof. word. Qed.

Lemma demo_law : callback_law (fun s => s) (fun s (_ : Timing unit) => s) demo_run 0 demo_inv.
Proof.
  split.
  - intros n w t t' (Hl & Hc & t0 & Ht0 & Htk & Hid) Ht _ _ Htk' Hid'. unfold timer_in in Ht. assert (t0 = t) as -> by congruence.
    split; [done|]. split; [done|]. exists t'. rewrite Htk'. split; [|split; [done|lia]]. cbn. apply list_lookup_insert_eq.
    by apply lookup_lt_Some in Ht.
  - intros n c ev w t (Hl & Hc & t0 & Ht0 & Htk & Hid) Ht Hok Hsane Hbefore Hle. unfold timer_in in Ht.
    assert (t0 = t) as -> by congruence.
    assert (Hticks : ticks_of t = executed_ticks t) by (unfold ticks_of; by rewrite Hsane). rewrite Hticks in Htk.
    pose proof (s32_le (executed_ticks t - time ev) ltac:(lia)) as Hs. pose proof (timer_id_range _ Hok).
    assert (Hlen : (0 < length (timers w))%nat) by (by apply lookup_lt_Some in Ht0).
    unfold demo_run. eapply wp_mono; [apply (wp_ScheduleEvent _ _ _ w t); try done|].
    + by rewrite Hc.
    + intros Hn. congruence.
    + unfold ids_left. lia.
    + unfold ticks_ok. rewrite Hticks. lia.
    + intros Hn. congruence.
    + rewrite Hticks. lia.
    + cbn beta. rewrite Hc, Hticks. intros _ w' (t' & -> & Hok' & _ & Htk' & Hperm & Hid' & Hts & Hsane' & Hex').
      split.
      { split; [done|]. split; [done|]. exists t'. rewrite Htk', Hid', Hts. split; [by apply list_lookup_insert_eq|]. split; [done|lia]. }
      set (e' := mkEvent _ _ _ _) in Hperm. exists t', (if time e' <=? executed_ticks t then [e'] else []).
      split; [by apply list_lookup_insert_eq|]. split; [done|]. split; [congruence|]. split; [done|]. split.
      * rewrite (due_perm _ _ _ Hperm). unfold due. cbn. by destruct (_ <=? executed_ticks t).
      * destruct (_ <=? executed_ticks t); [right; exists e'; split; [done|cbn; lia]|by left].
  - intros n w (Hl & Hc & t & Ht & Htk & Hid). split; [done|]. split; [done|]. exists t. split; [done|]. split; [done|lia].
Qed.

(** A core at the end of a slice, with two events due and one event to come. *)
Definition demo_timer : Timer :=
  new_Timer <| event_queue := [mkEvent 500 0 7 "tick"; mkEvent 500 1 8 "tick"; mkEvent 9000 2 9 "tick"] |>
            <| event_fifo_id := 3 |> <| is_timer_sane := false |> <| slice_length := 600 |> <| downcount := 0 |>.
Definition demo_timing : Timing unit := mkTiming {[ "tick"%string := Some tt ]} [demo_timer] 0 false.
Lemma demo_timer_ok : timer_ok demo_timer.
Proof. split; [repeat constructor|repeat constructor; cbn; lia|done]. Qed.

Lemma Advance_spec_witness : timer_ok demo_timer /\
  exists s evts, (evts ← Advance (fun s => s) (fun s (_ : Timing unit) => s) demo_run 0 5000;
    with_timer (fun s => s) (fun s (_ : Timing unit) => s) 0 (Timer.SetNextSlice MAX_SLICE_LENGTH);; mret evts) demo_timing = Ret (evts, s) /\
    user_data <$> evts = [7; 8].
Proof.
  split; [exact demo_timer_ok|].
  pose proof (Advance_spec (fun s => s) (fun s (_ : Timing unit) => s) (fun _ _ => eq_refl) demo_run 0 demo_inv demo_law
    demo_timing demo_timer MAX_SLICE_LENGTH eq_refl demo_timer_ok ltac:(done) eq_refl ltac:(done)
    ltac:(split; [done|]; split; [done|]; exists demo_timer; split; [done|]; split; [done|]; vm_compute; done) 5000
    ltac:(apply Nat.leb_le; vm_compute; reflexivity)) as Hw.
  apply wp_inv in Hw as (evts & s & Hrun & _). exists s, evts. split; [exact Hrun|].
  assert (Hc : match (evts ← Advance (fun s => s) (fun s (_ : Timing unit) => s) demo_run 0 5000;
    with_timer (fun s => s) (fun s (_ : Timing unit) => s) 0 (Timer.SetNextSlice MAX_SLICE_LENGTH);; mret evts) demo_timing with
    | Ret (l, _) => user_data <$> l = [7; 8] | Crash _ => False end) by (vm_compute; reflexivity).
  by rewrite Hrun in Hc.
Defined.

(** A core in the middle of a slice. *)
Definition demo_running : Timer :=
  new_Timer <| event_queue := [mkEvent 9000 2 9 "tick"] |> <| event_fifo_id := 3 |> <| is_timer_sane := false |>
            <| slice_length := 600 |> <| downcount := 300 |>.
Lemma ScheduleEvent_spec_witness : slice_ok demo_running /\ exists s', ScheduleEvent 100 "tick" 5 None (mkTiming (C := unit) ∅ [demo_running] 0 false) = Ret (tt, s').
Proof.
  assert (Hslice : slice_ok demo_running).
  { intros _ e He. apply list_elem_of_singleton in He as ->. by vm_compute. }
  split; [exact Hslice|].
  pose proof (ScheduleEvent_spec 100 "tick" 5 (mkTiming (C := unit) ∅ [demo_running] 0 false) demo_running eq_refl eq_refl) as Hw.
  apply wp_inv in Hw as ([] & s' & Hrun & _); [by exists s'| |exact Hslice|done|done|done|done].
  split; [repeat constructor|repeat constructor; cbn; lia|done].
Defined.
