(* ===== verification/KernelState.v ===== *)
(** The state of [Kernel::KernelSystem] (src/.../core/hle/kernel/kernel.{h,cpp})
    and of the objects it manages, and their accessors. An object is known by its
    address, an [oid]; the tables of the kernel hold the fields of every object.
    Reference counts are not modelled: objects are never destroyed. *)

From S2P Require Import Prelude ResultCode MemoryMap ThreadQueueList HandleTable ResourceLimit IntervalSet MemoryRegion Memory VmManager CoreTiming.

(** ** Threads *)

Definition ThreadPrioHighest : Z := 0.
Definition ThreadPrioUserlandMax : Z := 24.
Definition ThreadPrioDefault : Z := 48.
Definition ThreadPrioLowest : Z := 63.

Definition ThreadProcessorIdDefault : Z := -2.
Definition ThreadProcessorIdAll : Z := -1.
Definition ThreadProcessorId0 : Z := 0.
Definition ThreadProcessorId1 : Z := 1.
Definition ThreadProcessorId2 : Z := 2.
Definition ThreadProcessorId3 : Z := 3.
Definition ThreadProcessorIdMax : Z := 4.

Inductive ThreadStatus :=
  Running | Ready | WaitArb | WaitSleep | WaitIPC | WaitSynchAny | WaitSynchAll | WaitHleEvent | Dormant | Dead.
#[export] Instance ThreadStatus_eq_dec : EqDecision ThreadStatus.
Proof. solve_decision. Defined.

Inductive ThreadWakeupReason := Signal | Timeout.
#[export] Instance ThreadWakeupReason_eq_dec : EqDecision ThreadWakeupReason.
Proof. solve_decision. Defined.

(** The classes derived from [WakeupCallback]: those of svc.cpp, the address
    arbiter's, and the ones of services. *)
Inductive WakeupCallback := SVC_SyncCallback (do_output : bool) | SVC_IPCCallback | ArbiterCallback (arbiter : oid) | OtherCallback (id : Z).

(** [DynComThreadContext] *)
Record ThreadContext := mkThreadContext {
  cpu_registers : list Z;
  cpsr : Z;
  fpu_registers : list Z;
  fpscr : Z;
  fpexc : Z;
}.
#[export] Instance eta_ThreadContext : Eta ThreadContext := fun c =>
  mkThreadContext (cpu_registers c) (cpsr c) (fpu_registers c) (fpscr c) (fpexc c).
(** [DynComThreadContext::Reset] *)
Definition reset_context : ThreadContext := mkThreadContext (replicate 16 0) 0 (replicate 64 0) 0 0.
Definition SetCpuRegister (index : nat) (value : Z) (c : ThreadContext) : ThreadContext := c <| cpu_registers ::= <[index := value]> |>.

(** [Thread] without its base class; a [flat_set] of pointers is sorted by address. *)
Record Thread := mkThread {
  context : ThreadContext;
  thread_id : Z;
  can_schedule : bool;
  status : ThreadStatus;
  entry_point : VAddr;
  stack_top : VAddr;
  nominal_priority : Z;
  current_priority : Z;
  last_running_ticks : Z;
  processor_id : Z;
  tls_address : VAddr;
  held_mutexes : list oid;
  pending_mutexes : list oid;
  owner_process : option oid;
  wait_objects : list oid;
  wait_address : VAddr;
  thread_name : string;
  wakeup_callback : option WakeupCallback;
  core_id : nat;
}.
#[export] Instance eta_Thread : Eta Thread := fun t =>
  mkThread (context t) (thread_id t) (can_schedule t) (status t) (entry_point t) (stack_top t) (nominal_priority t)
    (current_priority t) (last_running_ticks t) (processor_id t) (tls_address t) (held_mutexes t) (pending_mutexes t)
    (owner_process t) (wait_objects t) (wait_address t) (thread_name t) (wakeup_callback t) (core_id t).

(** Insertion into and removal from a sorted vector of pointers. *)
Fixpoint flat_insert (x : oid) (l : list oid) : list oid :=
  match l with
  | [] => [x]
  | y :: l' => if x <? y then x :: l else if x =? y then l else y :: flat_insert x l'
  end.
Definition flat_erase (x : oid) (l : list oid) : list oid := filter (fun y => y <> x) l.

(** ** Synchronization objects, ports and sessions *)

(** The fields of the base class [WaitObject]. *)
Record WaitObject := mkWaitObject { waiting_threads : list oid; hle_notifier : option Z }.
#[export] Instance eta_WaitObject : Eta WaitObject := fun w => mkWaitObject (waiting_threads w) (hle_notifier w).
Definition new_WaitObject : WaitObject := mkWaitObject [] None.

Inductive ResetType := OneShot | Sticky | Pulse.
#[export] Instance ResetType_eq_dec : EqDecision ResetType.
Proof. solve_decision. Defined.

Record Mutex := mkMutex { lock_count : Z; priority : Z; mutex_name : string; holding_thread : option oid }.
#[export] Instance eta_Mutex : Eta Mutex := fun m => mkMutex (lock_count m) (priority m) (mutex_name m) (holding_thread m).
Record Semaphore := mkSemaphore { max_count : Z; available_count : Z; semaphore_name : string }.
#[export] Instance eta_Semaphore : Eta Semaphore := fun s => mkSemaphore (max_count s) (available_count s) (semaphore_name s).
Record EventObject := mkEventObject { event_reset_type : ResetType; event_signaled : bool; event_name : string }.
#[export] Instance eta_EventObject : Eta EventObject := fun e => mkEventObject (event_reset_type e) (event_signaled e) (event_name e).
Record TimerObject := mkTimerObject {
  timer_reset_type : ResetType;
  initial_delay : Z;
  interval_delay : Z;
  timer_signaled : bool;
  timer_name : string;
  callback_id : Z;
}.
#[export] Instance eta_TimerObject : Eta TimerObject := fun t =>
  mkTimerObject (timer_reset_type t) (initial_delay t) (interval_delay t) (timer_signaled t) (timer_name t) (callback_id t).
Record AddressArbiter := mkAddressArbiter { arbiter_name : string; arbiter_threads : list oid }.
#[export] Instance eta_AddressArbiter : Eta AddressArbiter := fun a => mkAddressArbiter (arbiter_name a) (arbiter_threads a).

Record ServerPort := mkServerPort { server_port_name : string; pending_sessions : list oid; port_handler : option Z }.
#[export] Instance eta_ServerPort : Eta ServerPort := fun p => mkServerPort (server_port_name p) (pending_sessions p) (port_handler p).
Record ClientPort := mkClientPort { client_port_name : string; server_port : oid; max_sessions : Z; active_sessions : Z }.
#[export] Instance eta_ClientPort : Eta ClientPort := fun p =>
  mkClientPort (client_port_name p) (server_port p) (max_sessions p) (active_sessions p).
(** [Session], the parent that links both ends. *)
Record Session := mkSession { client : option oid; server : option oid; port : option oid }.
#[export] Instance eta_Session : Eta Session := fun s => mkSession (client s) (server s) (port s).
(** [MappedBufferContext]: a buffer that is mapped into the server until the reply. *)
Record MappedBufferContext := mkMappedBufferContext {
  buffer_permissions : Z;
  mapped_buffer_size : Z;
  source_address : VAddr;
  target_address : VAddr;
  mapped_buffer : MemoryRef;
  reserve_buffer : MemoryRef;
}.
Record ServerSession := mkServerSession {
  server_session_name : string;
  server_parent : oid;
  session_handler : option Z;
  pending_requesting_threads : list oid;
  currently_handling : option oid;
  mapped_buffer_context : list MappedBufferContext;
}.
#[export] Instance eta_ServerSession : Eta ServerSession := fun s =>
  mkServerSession (server_session_name s) (server_parent s) (session_handler s) (pending_requesting_threads s) (currently_handling s) (mapped_buffer_context s).
Record ClientSession := mkClientSession { client_session_name : string; client_parent : oid }.
#[export] Instance eta_ClientSession : Eta ClientSession := fun s => mkClientSession (client_session_name s) (client_parent s).

(** ** Processes *)

Inductive ProcessStatus := Created | ProcessRunning | Exited.
#[export] Instance ProcessStatus_eq_dec : EqDecision ProcessStatus.
Proof. solve_decision. Defined.

Record AddressMapping := mkAddressMapping { mapping_address : VAddr; mapping_size : Z; read_only : bool; unk_flag : bool }.
Record Segment := mkSegment { segment_offset : Z; segment_addr : VAddr; segment_size : Z }.
Record CodeSet := mkCodeSet {
  code_memory : list Z;
  segments : Segment * Segment * Segment;
  entrypoint : VAddr;
  codeset_name : string;
  program_id : Z;
}.
#[export] Instance eta_CodeSet : Eta CodeSet := fun c =>
  mkCodeSet (code_memory c) (segments c) (entrypoint c) (codeset_name c) (program_id c).

(** [Process]; [memory_region] is the index of the region, [tls_slots] the slots
    in use of each page. *)
Record Process := mkProcess {
  handle_table : HandleTable;
  codeset : oid;
  resource_limit : ResourceLimitCategory;
  svc_access_mask : list bool;
  handle_table_size : Z;
  address_mappings : list AddressMapping;
  flags : Z;
  no_thread_restrictions : bool;
  kernel_version : Z;
  ideal_processor : Z;
  process_status : ProcessStatus;
  process_id : Z;
  creation_time_ticks : Z;
  vm_manager : VMManager;
  memory_used : Z;
  memory_region : option nat;
  tls_slots : list (list bool);
}.
#[export] Instance eta_Process : Eta Process := fun p =>
  mkProcess (handle_table p) (codeset p) (resource_limit p) (svc_access_mask p) (handle_table_size p) (address_mappings p)
    (flags p) (no_thread_restrictions p) (kernel_version p) (ideal_processor p) (process_status p) (process_id p)
    (creation_time_ticks p) (vm_manager p) (memory_used p) (memory_region p) (tls_slots p).

(** [SharedMemory]; [holding_memory] are the intervals it allocated. *)
Record SharedMemory := mkSharedMemory {
  linear_heap_phys_offset : Z;
  backing_blocks : list (MemoryRef * Z);
  shared_size : Z;
  shared_permissions : Z;
  other_permissions : Z;
  shared_owner : option oid;
  base_address : VAddr;
  shared_name : string;
  holding_memory : list (Z * Z);
}.
#[export] Instance eta_SharedMemory : Eta SharedMemory := fun m =>
  mkSharedMemory (linear_heap_phys_offset m) (backing_blocks m) (shared_size m) (shared_permissions m) (other_permissions m)
    (shared_owner m) (base_address m) (shared_name m) (holding_memory m).

(** ** Objects *)

Inductive Object :=
  | OThread (t : Thread) | OMutex (m : Mutex) | OSemaphore (s : Semaphore) | OEvent (e : EventObject) | OTimer (t : TimerObject)
  | OAddressArbiter (a : AddressArbiter) | OServerPort (p : ServerPort) | OClientPort (p : ClientPort) | OSession (s : Session)
  | OServerSession (s : ServerSession) | OClientSession (s : ClientSession) | OProcess (p : Process) | OCodeSet (c : CodeSet)
  | OSharedMemory (m : SharedMemory) | OResourceLimit (c : ResourceLimitCategory).

(** [Object::IsWaitable] *)
Definition IsWaitable (o : Object) : bool :=
  match o with
  | OEvent _ | OMutex _ | OThread _ | OSemaphore _ | OTimer _ | OServerPort _ | OServerSession _ => true
  | _ => false
  end.

(** ** The kernel *)

(** The callbacks the kernel registers with the timing. *)
Inductive KernelCallback := ThreadWakeup (core : nat) | TimerFired | OtherTimed (id : Z).

(** The part of [ARM_Interface] the scheduler uses. *)
Record Cpu := mkCpu { cpu_context : ThreadContext; thread_uro : Z; cpu_page_table : option Z }.
#[export] Instance eta_Cpu : Eta Cpu := fun c => mkCpu (cpu_context c) (thread_uro c) (cpu_page_table c).

Record ThreadManager := mkThreadManager {
  cpu : Cpu;
  current_thread : option oid;
  ready_queue : tql oid;
  unscheduled_ready_queue : list oid;
  wakeup_callback_table : gmap Z oid;
  ThreadWakeupEventType : string;
  thread_list : list oid;
}.
#[export] Instance eta_ThreadManager : Eta ThreadManager := fun m =>
  mkThreadManager (cpu m) (current_thread m) (ready_queue m) (unscheduled_ready_queue m) (wakeup_callback_table m)
    (ThreadWakeupEventType m) (thread_list m).

Record TimerManager := mkTimerManager {
  timer_callback_event_type : string;
  next_timer_callback_id : Z;
  timer_callback_table : gmap Z oid;
}.
#[export] Instance eta_TimerManager : Eta TimerManager := fun m =>
  mkTimerManager (timer_callback_event_type m) (next_timer_callback_id m) (timer_callback_table m).

Section Kernel.
Context {D IS : Type}.

Record KernelSystem := mkKernelSystem {
  objects : gmap oid Object;
  wait_bases : gmap oid WaitObject;
  next_oid : oid;
  thread_managers : list ThreadManager;
  timer_manager : TimerManager;
  timing : Timing KernelCallback;
  memory : MemorySystem D;
  memory_changed : Z;
  memory_regions : list (MemoryRegionInfo IS);
  resource_limits : list ResourceLimit;
  current_cpu : nat;
  current_process : option oid;
  stored_processes : list (option oid);
  process_list : list oid;
  named_ports : gmap string oid;
  next_process_id : Z;
  next_thread_id : Z;
  next_object_id : Z;
  reschedule_pending : bool;
}.
#[export] Instance eta_KernelSystem : Eta KernelSystem := fun k =>
  mkKernelSystem (objects k) (wait_bases k) (next_oid k) (thread_managers k) (timer_manager k) (timing k) (memory k) (memory_changed k)
    (memory_regions k) (resource_limits k) (current_cpu k) (current_process k) (stored_processes k) (process_list k)
    (named_ports k) (next_process_id k) (next_thread_id k) (next_object_id k) (reschedule_pending k).
Abbreviation M := (M KernelSystem).

(** [kernel.timing] *)
Definition timing_op {A} (m : Prelude.M (Timing KernelCallback) A) : M A := zoom timing (fun t k => k <| timing := t |>) m.
(** [kernel.memory] *)
Definition memory_op {A} (m : Prelude.M (MemorySystem D) A) : M A := zoom memory (fun t k => k <| memory := t |>) m.
(** [kernel.PrepareReschedule] *)
Definition PrepareReschedule : M unit := modify (fun k => k <| reschedule_pending := true |>).
Definition GenerateObjectID : M Z := k ← get; modify (fun k => k <| next_object_id ::= fun n => u32 (n + 1) |>);; mret (next_object_id k).
Definition NewThreadId : M Z := k ← get; modify (fun k => k <| next_thread_id ::= fun n => u32 (n + 1) |>);; mret (next_thread_id k).
Definition ResetThreadIDs : M unit := modify (fun k => k <| next_thread_id := 0 |>).

(** Making an object: it takes a fresh address and an object id. *)
Definition make_shared (o : Object) : M oid :=
  _ ← GenerateObjectID;
  k ← get;
  modify (fun k => k <| objects ::= <[next_oid k := o]> |> <| next_oid ::= fun n => n + 1 |>);;
  mret (next_oid k).

(** Access through a pointer to an object of a class; anything else is undefined. *)
Definition get_object {A} (cast : Object -> option A) (o : oid) : M A :=
  k ← get; x ← deref (objects k !! o); deref (cast x).
Definition update_object {A} (cast : Object -> option A) (wrap : A -> Object) (o : oid) (f : A -> A) : M unit :=
  x ← get_object cast o; modify (fun k => k <| objects ::= <[o := wrap (f x)]> |>).

Definition as_thread (o : Object) : option Thread := match o with OThread t => Some t | _ => None end.
Definition as_mutex (o : Object) : option Mutex := match o with OMutex m => Some m | _ => None end.
Definition as_semaphore (o : Object) : option Semaphore := match o with OSemaphore s => Some s | _ => None end.
Definition as_event (o : Object) : option EventObject := match o with OEvent e => Some e | _ => None end.
Definition as_timer (o : Object) : option TimerObject := match o with OTimer t => Some t | _ => None end.
Definition as_arbiter (o : Object) : option AddressArbiter := match o with OAddressArbiter a => Some a | _ => None end.
Definition as_server_port (o : Object) : option ServerPort := match o with OServerPort p => Some p | _ => None end.
Definition as_client_port (o : Object) : option ClientPort := match o with OClientPort p => Some p | _ => None end.
Definition as_session (o : Object) : option Session := match o with OSession s => Some s | _ => None end.
Definition as_server_session (o : Object) : option ServerSession := match o with OServerSession s => Some s | _ => None end.
Definition as_client_session (o : Object) : option ClientSession := match o with OClientSession s => Some s | _ => None end.
Definition as_process (o : Object) : option Process := match o with OProcess p => Some p | _ => None end.
Definition as_codeset (o : Object) : option CodeSet := match o with OCodeSet c => Some c | _ => None end.
Definition as_shared_memory (o : Object) : option SharedMemory := match o with OSharedMemory m => Some m | _ => None end.
Definition as_wait_object (o : Object) : option Object := if IsWaitable o then Some o else None.

Definition get_thread : oid -> M Thread := get_object as_thread.
Definition update_thread : oid -> (Thread -> Thread) -> M unit := update_object as_thread OThread.
Definition get_mutex : oid -> M Mutex := get_object as_mutex.
Definition update_mutex : oid -> (Mutex -> Mutex) -> M unit := update_object as_mutex OMutex.
Definition get_process : oid -> M Process := get_object as_process.
Definition update_process : oid -> (Process -> Process) -> M unit := update_object as_process OProcess.

(** The base class part of a wait object. *)
Definition wait_base (o : oid) (k : KernelSystem) : WaitObject := default new_WaitObject (wait_bases k !! o).
Definition update_wait_base (o : oid) (f : WaitObject -> WaitObject) : M unit :=
  modify (fun k => k <| wait_bases ::= <[o := f (wait_base o k)]> |>).

(** [KernelSystem::GetThreadManager] *)
Definition manager_op {A} (core : nat) (m : Prelude.M ThreadManager A) : M A := fun k =>
  match thread_managers k !! core with
  | None => Crash UndefinedBehaviour
  | Some t => match m t with Ret (a, t') => Ret (a, k <| thread_managers ::= <[core := t']> |>) | Crash f => Crash f end
  end.
Definition get_manager (core : nat) : M ThreadManager := k ← get; deref (thread_managers k !! core).
Definition queue_op {A} (core : nat) (m : Prelude.M (tql oid) A) : M A :=
  manager_op core (zoom ready_queue (fun q t => t <| ready_queue := q |>) m).
(** [Thread::thread_manager.ready_queue], with a priority as its level *)
Definition level_of (priority : Z) : nat := Z.to_nat priority.

(** [KernelSystem::SetCurrentMemoryPageTable], [SetCurrentProcess], [SetCurrentProcessForCPU], [SetRunningCPU] *)
Definition SetCurrentMemoryPageTable (page_table : Z) : M unit :=
  memory_op (Memory.SetCurrentPageTable (Some page_table));;
  k ← get; manager_op (current_cpu k) (modify (fun t => t <| cpu ::= fun c => c <| cpu_page_table := Some page_table |> |>)).
Definition SetCurrentProcess (process : oid) : M unit :=
  modify (fun k => k <| current_process := Some process |>);;
  p ← get_process process; SetCurrentMemoryPageTable (page_table (vm_manager p)).
Definition SetCurrentProcessForCPU (process : oid) (core : nat) : M unit :=
  k ← get;
  if bool_decide (current_cpu k = core) then SetCurrentProcess process
  else
    modify (fun k => k <| stored_processes ::= <[core := Some process]> |>);;
    p ← get_process process;
    manager_op core (modify (fun t => t <| cpu ::= fun c => c <| cpu_page_table := Some (page_table (vm_manager p)) |> |>)).
Definition SetRunningCPU (core : nat) : M unit :=
  k ← get;
  match current_process k with
  | Some p => modify (fun k => k <| stored_processes ::= <[current_cpu k := Some p]> |>)
  | None => mret tt
  end;;
  modify (fun k => k <| current_cpu := core |>);;
  timing_op (SetCurrentTimer core);;
  k ← get;
  stored ← deref (stored_processes k !! core);
  match stored with Some p => SetCurrentProcess p | None => mret tt end.
Definition AddNamedPort (name : string) (port : oid) : M unit :=
  modify (fun k => k <| named_ports ::= fun m => match m !! name with Some _ => m | None => <[name := port]> m end |>).
Definition GetProcessById (id : Z) : M (option oid) :=
  k ← get;
  mret (find (fun p => match objects k !! p with Some (OProcess q) => process_id q =? id | _ => false end) (process_list k)).
End Kernel.
Arguments KernelSystem D IS : clear implicits.

(** ** Rules for the accessors *)

Section Rules.
Context {D IS : Type}.
Implicit Types (k : KernelSystem D IS).

Lemma wp_get_object {A} (cast : Object -> option A) o x a (Q : A -> KernelSystem D IS -> Prop) k :
  objects k !! o = Some x -> cast x = Some a -> Q a k -> wp (get_object cast o) Q k.
Proof. intros Hx Ha HQ. unfold get_object. wp_step. wp_step. wp_step. eapply wp_deref; [done|]. by eapply wp_deref. Qed.
Lemma wp_update_object {A} (cast : Object -> option A) wrap o x a f (Q : unit -> KernelSystem D IS -> Prop) k :
  objects k !! o = Some x -> cast x = Some a -> Q tt (k <| objects ::= <[o := wrap (f a)]> |>) -> wp (update_object cast wrap o f) Q k.
Proof. intros Hx Ha HQ. unfold update_object. wp_step. eapply wp_get_object; [done..|]. by wp_step. Qed.

Lemma steady_object (R : KernelSystem D IS -> KernelSystem D IS -> Prop) `{!PreOrder R} {A} (cast : Object -> option A) o : steady R (get_object cast o).
Proof. apply steady_bind; [done|apply steady_get, _|]. intros k. apply steady_bind; [done|by apply steady_deref|]. intros x. by apply steady_deref. Qed.

(** A thread of the kernel. *)
Definition thread_at (t : oid) (th : Thread) k : Prop := objects k !! t = Some (OThread th).
Lemma thread_at_fun t th th' k : thread_at t th k -> thread_at t th' k -> th = th'.
Proof. unfold thread_at. congruence. Qed.
Lemma wp_get_thread t th (Q : Thread -> KernelSystem D IS -> Prop) k : thread_at t th k -> Q th k -> wp (get_thread t) Q k.
Proof. intros Ht HQ. by eapply wp_get_object. Qed.
(** The state with another thread record. *)
Definition set_thread (t : oid) (th : Thread) k : KernelSystem D IS := k <| objects ::= <[t := OThread th]> |>.
Lemma wp_update_thread t th f (Q : unit -> KernelSystem D IS -> Prop) k :
  thread_at t th k -> Q tt (set_thread t (f th) k) -> wp (update_thread t f) Q k.
Proof. intros Ht HQ. by eapply wp_update_object. Qed.
Lemma thread_at_set t th u uh k : thread_at u uh (set_thread t th k) <-> (u = t /\ uh = th) \/ (u <> t /\ thread_at u uh k).
Proof.
  unfold thread_at, set_thread. cbn. destruct (decide (u = t)) as [->|Hne].
  - rewrite lookup_insert_eq. naive_solver.
  - rewrite lookup_insert_ne by done. naive_solver.
Qed.

(** The manager of a core. *)
Definition manager_at (c : nat) (m : ThreadManager) k : Prop := thread_managers k !! c = Some m.
Definition set_manager (c : nat) (m : ThreadManager) k : KernelSystem D IS := k <| thread_managers ::= <[c := m]> |>.
Lemma manager_at_fun c m m' k : manager_at c m k -> manager_at c m' k -> m = m'.
Proof. unfold manager_at. congruence. Qed.
Lemma wp_get_manager c m (Q : ThreadManager -> KernelSystem D IS -> Prop) k : manager_at c m k -> Q m k -> wp (get_manager c) Q k.
Proof. intros Hm HQ. unfold get_manager. wp_step. wp_step. by eapply wp_deref. Qed.
Lemma wp_manager_op {A} c m (f : M ThreadManager A) (Q : A -> KernelSystem D IS -> Prop) k :
  manager_at c m k -> wp f (fun a m' => Q a (set_manager c m' k)) m -> wp (manager_op c f) Q k.
Proof. unfold manager_at, wp, manager_op. intros ->. by destruct (f m) as [[a m']|]. Qed.
Lemma wp_queue_op {A} c m (f : M (tql oid) A) (Q : A -> KernelSystem D IS -> Prop) k :
  manager_at c m k -> wp f (fun a q => Q a (set_manager c (m <| ready_queue := q |>) k)) (ready_queue m) -> wp (queue_op c f) Q k.
Proof.
  intros Hm Hf. unfold queue_op. eapply wp_manager_op; [done|]. unfold wp, zoom in *. by destruct (f (ready_queue m)) as [[a q]|].
Qed.
Lemma manager_at_set c m c' m' k m0 : manager_at c m0 k ->
  manager_at c' m' (set_manager c m k) <-> (c' = c /\ m' = m) \/ (c' <> c /\ manager_at c' m' k).
Proof.
  unfold manager_at, set_manager. cbn. intros Hc%lookup_lt_Some. destruct (decide (c' = c)) as [->|Hne].
  - rewrite list_lookup_insert_eq by done. naive_solver.
  - rewrite list_lookup_insert_ne by done. naive_solver.
Qed.
End Rules.
