(* ===== verification/Thread.v ===== *)
(** Threads and their scheduling (src/.../core/hle/kernel/thread.{h,cpp}): the
    operations that move a thread between its states and the ready queue of its
    core, the priorities, and the switch of a core from a thread to the next. *)

From S2P Require Import Prelude ResultCode MemoryMap ThreadQueueList HandleTable ResourceLimit IntervalSet MemoryRegion Memory VmManager CoreTiming KernelState.

Section Thread.
Context {D IS : Type}.
Abbreviation M := (M (KernelSystem D IS)).
Implicit Types (k : KernelSystem D IS).

(** [ThreadManager::GetCurrentThread] *)
Definition GetCurrentThread (core : nat) : M (option oid) := m ← get_manager core; mret (current_thread m).
(** The timer of a core. *)
Definition timer_ticks (core : nat) : M Z :=
  k ← get; t ← deref (timers (timing k) !! core); mret (Timer.GetTicks t).

(** [ThreadManager::HaveReadyThreads] *)
Definition HaveReadyThreads (core : nat) : M bool :=
  m ← get_manager core;
  match get_first (ready_queue m) with Ret r => mret (bool_decide (r <> None)) | Crash f => crash f end.

(** [ThreadManager::WaitCurrentThread_Sleep] *)
Definition WaitCurrentThread_Sleep (core : nat) : M unit :=
  thread ← GetCurrentThread core; t ← deref thread; update_thread t (fun th => th <| status := WaitSleep |>).

(** [Thread::WakeAfterDelay] *)
Definition WakeAfterDelay (this : oid) (nanoseconds : Z) : M unit :=
  if nanoseconds =? -1 then mret tt
  else
    th ← get_thread this;
    m ← get_manager (core_id th);
    timing_op (ScheduleEvent (nsToCycles nanoseconds) (ThreadWakeupEventType m) (thread_id th) None).

(** [Thread::ResumeFromWait]; [DEBUG_ASSERT_MSG] is empty in a release build. *)
Definition ResumeFromWait (this : oid) : M unit :=
  th ← get_thread this;
  ASSERT (bool_decide (wait_objects th = []));;
  match status th with
  | Ready => ASSERT (bool_decide (wakeup_callback th = None))
  | Running | Dead => mret tt
  | WaitSynchAll | WaitSynchAny | WaitHleEvent | WaitArb | WaitSleep | WaitIPC | Dormant =>
      update_thread this (fun th => th <| wakeup_callback := None |>);;
      queue_op (core_id th) (push_back (level_of (current_priority th)) this);;
      update_thread this (fun th => th <| status := Ready |>);;
      PrepareReschedule
  end.

(** Moving a ready thread between the levels of the queue, or preparing the level. *)
Definition requeue (this : oid) (priority : Z) : M unit :=
  th ← get_thread this;
  if bool_decide (status th = Ready)
  then queue_op (core_id th) (move this (level_of (current_priority th)) (level_of priority))
  else queue_op (core_id th) (prepare (level_of priority)).

(** [Thread::SetPriority] *)
Definition SetPriority (this : oid) (priority : Z) : M unit :=
  ASSERT ((priority <=? ThreadPrioLowest) && (ThreadPrioHighest <=? priority));;
  requeue this priority;;
  update_thread this (fun th => th <| nominal_priority := priority |> <| current_priority := priority |>).

(** [Thread::BoostPriority] *)
Definition BoostPriority (this : oid) (priority : Z) : M unit :=
  requeue this priority;;
  update_thread this (fun th => th <| current_priority := priority |>).

(** [Thread::UpdatePriority] *)
Fixpoint best_priority (mutexes : list oid) (best : Z) : M Z :=
  match mutexes with
  | [] => mret best
  | m :: rest => mutex ← get_mutex m; best_priority rest (if priority mutex <? best then priority mutex else best)
  end.
Definition UpdatePriority (this : oid) : M unit :=
  th ← get_thread this;
  best ← best_priority (held_mutexes th) (nominal_priority th);
  BoostPriority this best.

(** [Thread::SetWaitSynchronizationResult], [SetWaitSynchronizationOutput] *)
Definition SetWaitSynchronizationResult (this : oid) (result : result_code) : M unit :=
  update_thread this (fun th => th <| context ::= SetCpuRegister 0 result |>).
Definition SetWaitSynchronizationOutput (this : oid) (output : Z) : M unit :=
  update_thread this (fun th => th <| context ::= SetCpuRegister 1 (u32 output) |>).

(** [Thread::GetWaitObjectIndex]: the last occurrence, -1 for none. *)
Fixpoint last_index (o : oid) (l : list oid) (i found : Z) : Z :=
  match l with
  | [] => found
  | x :: l' => last_index o l' (i + 1) (if x =? o then i else found)
  end.
Definition GetWaitObjectIndex (this object : oid) : M Z :=
  th ← get_thread this;
  ASSERT (negb (bool_decide (wait_objects th = [])));;
  mret (last_index object (wait_objects th) 0 (-1)).

(** [Thread::GetCommandBufferAddress] *)
Definition command_header_offset : Z := 0x80.
Definition GetCommandBufferAddress (this : oid) : M VAddr :=
  th ← get_thread this; mret (u32 (tls_address th + command_header_offset)).

(** ** Switching *)

(** [ThreadManager::SwitchContext]: saving the context of the previous thread, and
    loading that of the next one *)
Definition save_context (core : nat) (previous_thread : option oid) : M (option oid) :=
  match previous_thread with
  | Some p =>
      th ← get_thread p;
      ticks ← timer_ticks core;
      m ← get_manager core;
      update_thread p (fun th => th <| last_running_ticks := ticks |> <| context := cpu_context (cpu m) |>);;
      (if bool_decide (status th = Running) then
        queue_op core (push_front (level_of (current_priority th)) p);;
        update_thread p (fun th => th <| status := Ready |>)
      else mret tt);;
      mret (owner_process th)
  | None => mret None
  end.
Definition load_context (core : nat) (previous_process : option oid) (n : oid) : M unit :=
  th ← get_thread n;
  ASSERT (bool_decide (status th = Ready));;
  m ← get_manager core;
  timing_op (UnscheduleEvent (ThreadWakeupEventType m) (thread_id th));;
  manager_op core (modify (fun m => m <| current_thread := Some n |>));;
  queue_op core (remove (level_of (current_priority th)) n);;
  update_thread n (fun th => th <| status := Running |>);;
  ASSERT (bool_decide (owner_process th <> None));;
  owner ← deref (owner_process th);
  (if negb (bool_decide (previous_process = Some owner)) then SetCurrentProcessForCPU owner core else mret tt);;
  manager_op core (modify (fun m => m <| cpu ::= fun c => c <| cpu_context := context th |> <| thread_uro := tls_address th |> |>)).
Definition SwitchContext (core : nat) (new_thread : option oid) : M unit :=
  previous_thread ← GetCurrentThread core;
  previous_process ← save_context core previous_thread;
  match new_thread with
  | Some n => load_context core previous_process n
  | None => manager_op core (modify (fun m => m <| current_thread := None |>))
  end.

(** [ThreadManager::PopNextReadyThread]: both loops take entries out of the queue
    until one can be scheduled, putting the others aside. *)
Definition put_aside (core : nat) (t : oid) : M unit :=
  manager_op core (modify (fun m => m <| unscheduled_ready_queue ::= fun l => l ++ [t] |>)).
Fixpoint pop_schedulable (fuel : nat) (core : nat) (pop : Prelude.M (tql oid) (option oid)) : M (option oid) :=
  next ← queue_op core pop;
  match next with
  | None => mret None
  | Some n =>
      th ← get_thread n;
      if can_schedule th then mret (Some n)
      else
        match fuel with
        | O => crash OutOfFuel
        | S fuel' => put_aside core n;; pop_schedulable fuel' core pop
        end
  end.
(** [while (!unscheduled_ready_queue.empty())]: from the back *)
Definition push_unscheduled (core : nat) (t : oid) : M unit :=
  th ← get_thread t; queue_op core (push_back (level_of (current_priority th)) t).
Definition restore_unscheduled (core : nat) : M unit :=
  m ← get_manager core;
  for_each (reverse (unscheduled_ready_queue m)) (push_unscheduled core);;
  manager_op core (modify (fun m => m <| unscheduled_ready_queue := [] |>)).
(** Each turn takes one entry out of the queue. *)
Definition entries (q : tql oid) : nat := length (concat (data <$> queues q)).
Definition PopNextReadyThread (core : nat) : M (option oid) :=
  m ← get_manager core;
  let fuel := entries (ready_queue m) in
  current ← match current_thread m with
    | Some t => th ← get_thread t; mret (if bool_decide (status th = Running) then Some (t, current_priority th) else None)
    | None => mret None
    end;
  next ← match current with
    | Some (t, p) => n ← pop_schedulable fuel core (pop_first_better (level_of p)); mret (Some (default t n))
    | None => pop_schedulable fuel core pop_first
    end;
  restore_unscheduled core;;
  mret next.

(** [ThreadManager::Reschedule] *)
Definition Reschedule (core : nat) : M unit :=
  cur ← GetCurrentThread core;
  next ← PopNextReadyThread core;
  match cur, next with
  | None, None => mret tt
  | _, _ => SwitchContext core next
  end.

(** [GetFreeThreadLocalSlot]: the first page with a free slot, and its first free slot. *)
Fixpoint GetFreeThreadLocalSlot_from (page : nat) (tls_slots : list (list bool)) : nat * nat * bool :=
  match tls_slots with
  | [] => (0, 0, true)%nat
  | slots :: rest =>
      match list_find (fun b => b = false) slots with
      | Some (slot, _) => (page, slot, false)
      | None => GetFreeThreadLocalSlot_from (S page) rest
      end
  end.
Definition GetFreeThreadLocalSlot (tls_slots : list (list bool)) : nat * nat * bool := GetFreeThreadLocalSlot_from 0 tls_slots.

(** [USER32MODE] *)
Definition USER32MODE : Z := 16.
(** [ResetThreadContext] *)
Definition ResetThreadContext (stack_top entry_point arg : Z) : ThreadContext :=
  SetCpuRegister 13 stack_top (SetCpuRegister 15 entry_point (SetCpuRegister 0 arg reset_context))
    <| cpsr := Z.lor USER32MODE (Z.shiftl (Z.land entry_point 1) 5) |>.
End Thread.
