(* ===== verification/Scheduler.v ===== *)
(** The invariant of the scheduler, that the operations of threads keep it, and
    which thread [Reschedule] picks. The invariant speaks of a state through the
    few fields the scheduler looks at. *)

From S2P Require Import Prelude ResultCode HandleTable CoreTiming ThreadQueueList KernelState Thread.

Section Scheduler.
Context {D IS : Type}.
Implicit Types (k : KernelSystem D IS).

(** ** What the scheduler sees *)

Record tview := mkView { v_core : nat; v_status : ThreadStatus; v_cur : Z; v_nom : Z; v_can : bool; v_owner : option oid }.
Definition view_thread (th : Thread) : tview :=
  mkView (core_id th) (status th) (current_priority th) (nominal_priority th) (can_schedule th) (owner_process th).
Definition tv k (t : oid) : option tview :=
  match objects k !! t with Some (OThread th) => Some (view_thread th) | _ => None end.
Record mview := mkMView { v_queue : tql oid; v_current : option oid; v_aside : list oid }.
Definition view_manager (m : ThreadManager) : mview := mkMView (ready_queue m) (current_thread m) (unscheduled_ready_queue m).
Definition mv k (c : nat) : option mview := view_manager <$> thread_managers k !! c.
Definition is_process k (o : oid) : Prop := exists p, objects k !! o = Some (OProcess p).

(** States the scheduler cannot tell apart. *)
Record sched_eq k k' : Prop := {
  eq_threads t : tv k' t = tv k t;
  eq_managers c : mv k' c = mv k c;
  eq_processes o : is_process k o -> is_process k' o;
  eq_timers : length (timers (timing k')) = length (timers (timing k));
  eq_timer : current_timer (timing k') = current_timer (timing k);
  eq_stored : length (stored_processes k') = length (stored_processes k);
  eq_cpu : current_cpu k' = current_cpu k;
  eq_fresh (o : oid) : next_oid k <= o -> objects k !! o = None -> objects k' !! o = None;
  eq_oid : next_oid k' = next_oid k;
}.
#[export] Instance sched_eq_preorder : PreOrder sched_eq.
Proof.
  split; [by split|]. intros k1 k2 k3 [H1 H2 H3 H4 H5 H6 H7 H8 H9] [K1 K2 K3 K4 K5 K6 K7 K8 K9].
  split; [intros t; by rewrite K1|intros c; by rewrite K2|intros o Ho; by apply K3, H3|congruence..| |congruence]. intros o Hle Ho. apply K8; [by rewrite H9|by apply H8].
Qed.

Lemma tv_thread k t th : thread_at t th k -> tv k t = Some (view_thread th).
Proof. unfold thread_at, tv. by intros ->. Qed.
Lemma tv_inv k t v : tv k t = Some v -> exists th, thread_at t th k /\ v = view_thread th.
Proof. unfold thread_at, tv. destruct (objects k !! t) as [[]|]; try done. intros [= <-]. eauto. Qed.
Lemma mv_manager k c m : manager_at c m k -> mv k c = Some (view_manager m).
Proof. unfold manager_at, mv. by intros ->. Qed.
Lemma mv_inv k c v : mv k c = Some v -> exists m, manager_at c m k /\ v = view_manager m.
Proof. unfold manager_at, mv. destruct (thread_managers k !! c); [|done]. intros [= <-]. eauto. Qed.

(** ** The invariant *)

Definition prio_ok (p : Z) : Prop := 0 <= p <= ThreadPrioLowest.
Lemma level_of_lt p : prio_ok p -> (level_of p < 64)%nat.
Proof. unfold prio_ok, ThreadPrioLowest, level_of. lia. Qed.
Lemma level_of_inj p q : prio_ok p -> prio_ok q -> level_of p = level_of q -> p = q.
Proof. unfold prio_ok, level_of. lia. Qed.
Lemma level_of_lt_iff p q : prio_ok p -> prio_ok q -> (level_of p < level_of q)%nat <-> p < q.
Proof. unfold prio_ok, level_of. lia. Qed.

(** The thread [t] is ready on the core [c], at the level [p]. *)
Definition ready_in (T : oid -> option tview) (c : nat) (t : oid) (p : nat) : Prop :=
  exists v, T t = Some v /\ v_core v = c /\ v_status v = Ready /\ level_of (v_cur v) = p.

(** The ready queue of a core holds the ready threads of the core, each once, at
    the level of its priority; [hole] is a thread that is not in it just now. *)
Record queue_ok (T : oid -> option tview) (c : nat) (hole : option oid) (q : tql oid) : Prop := {
  queue_valid : valid q;
  queue_levels : length (queues q) = 64%nat;
  queue_entries p t : t ∈ level_data q p <-> ready_in T c t p /\ hole <> Some t;
  queue_nodup p : NoDup (level_data q p);
}.
Record manager_ok (T : oid -> option tview) (hole : nat -> option oid) (c : nat) (m : mview) : Prop := {
  manager_queue : queue_ok T c (hole c) (v_queue m);
  manager_aside : v_aside m = [];
  manager_current t : v_current m = Some t -> exists v, T t = Some v /\ v_core v = c;
}.
(** A thread is on an existing core, whose queue is prepared for its priority, has
    an owner, and only runs as the current thread of its core. *)
Record thread_ok (P : oid -> Prop) (Mv : nat -> option mview) (t : oid) (v : tview) : Prop := {
  thread_cur : prio_ok (v_cur v);
  thread_nom : prio_ok (v_nom v);
  thread_owner : exists o, v_owner v = Some o /\ P o;
  thread_core : exists m, Mv (v_core v) = Some m /\ linked (v_queue m) (level_of (v_cur v)) /\
    (v_status v = Running -> v_current m = Some t);
}.
Record sched_hole (hole : nat -> option oid) k : Prop := {
  sched_managers c m : mv k c = Some m -> manager_ok (tv k) hole c m;
  sched_threads t v : tv k t = Some v -> thread_ok (is_process k) (mv k) t v;
  sched_timers : length (timers (timing k)) = length (thread_managers k);
  sched_timer : (current_timer (timing k) < length (thread_managers k))%nat;
  sched_stored : length (stored_processes k) = length (thread_managers k);
  sched_cpu : (current_cpu k < length (thread_managers k))%nat;
  sched_fresh o : next_oid k <= o -> objects k !! o = None;
}.
Definition no_hole : nat -> option oid := fun _ => None.
Definition sched_ok : KernelSystem D IS -> Prop := sched_hole no_hole.

Lemma mv_length k k' : (forall c, mv k' c = mv k c) -> length (thread_managers k') = length (thread_managers k).
Proof.
  intros H. unfold mv in H. rewrite <- (length_fmap view_manager (thread_managers k)), <- (length_fmap view_manager).
  f_equal. apply list_eq. intros c. by rewrite !list_lookup_fmap.
Qed.
Lemma queue_ok_ext T T' c h q : (forall t, T' t = T t) -> queue_ok T c h q -> queue_ok T' c h q.
Proof.
  intros HT [H1 H2 H3 H4]. split; try done. intros p t. rewrite H3. unfold ready_in. by rewrite HT.
Qed.
Lemma sched_hole_eq hole k k' : sched_eq k k' -> sched_hole hole k -> sched_hole hole k'.
Proof.
  intros [E1 E2 E3 E4 E5 E6 E7 E8 E9] [H1 H2 H3 H4 H5 H6 H7]. pose proof (mv_length _ _ E2). split.
  - intros c m Hm. rewrite E2 in Hm. destruct (H1 c m Hm) as [G1 G2 G3]. split; [|done|].
    + by eapply queue_ok_ext.
    + intros t Ht. rewrite E1. by apply G3.
  - intros t v Hv. rewrite E1 in Hv. destruct (H2 t v Hv) as [G1 G2 (o & Ho & HP) (m & Hm & Hl & Hr)]. split; [done|done| |].
    + exists o. split; [done|]. by apply E3.
    + exists m. by rewrite E2.
  - congruence.
  - congruence.
  - congruence.
  - congruence.
  - rewrite E9. intros o Ho. apply E8; [done|by apply H7].
Qed.

(** ** Changes of one thread and its queue *)

Definition set_queue (c : nat) (q : tql oid) k : KernelSystem D IS :=
  k <| thread_managers ::= alter (fun m => m <| ready_queue := q |>) c |>.
Lemma set_queue_manager c m q k : manager_at c m k -> set_manager c (m <| ready_queue := q |>) k = set_queue c q k.
Proof.
  unfold manager_at, set_manager, set_queue, set_field. intros Hm. cbn. f_equal.
  apply list_eq. intros i. destruct (decide (i = c)) as [->|Hne].
  - rewrite list_lookup_insert_eq by (by eapply lookup_lt_Some). by rewrite list_lookup_alter_eq, Hm.
  - by rewrite list_lookup_insert_ne, list_lookup_alter_ne by done.
Qed.

Lemma set_thread_queue c m q t th th' k : manager_at c m k ->
  set_thread t th' (set_manager c (m <| ready_queue := q |>) (set_thread t th k)) = set_thread t th' (set_queue c q k).
Proof.
  intros Hm. rewrite <- (set_queue_manager _ _ _ _ Hm). unfold set_thread, set_manager, set_field. cbn. f_equal. by rewrite insert_insert_eq.
Qed.

Lemma tv_set_thread k t th u : tv (set_thread t th k) u = if bool_decide (u = t) then Some (view_thread th) else tv k u.
Proof.
  unfold tv, set_thread. cbn. case_bool; [subst; by rewrite lookup_insert_eq|by rewrite lookup_insert_ne].
Qed.
Lemma mv_set_thread k t th c : mv (set_thread t th k) c = mv k c.
Proof. done. Qed.
Lemma is_process_set_thread k t th th' o : thread_at t th' k -> is_process k o -> is_process (set_thread t th k) o.
Proof.
  unfold thread_at, is_process, set_thread. cbn. intros Ht (p & Hp). exists p. rewrite lookup_insert_ne; [done|]. congruence.
Qed.
Lemma set_thread_fresh k t th o : (exists th', thread_at t th' k) -> objects k !! o = None -> objects (set_thread t th k) !! o = None.
Proof. unfold thread_at, set_thread. cbn. intros [th' Ht] Ho. rewrite lookup_insert_ne; [done|]. congruence. Qed.
Lemma tv_set_manager k c m t : tv (set_manager c m k) t = tv k t.
Proof. done. Qed.
Lemma mv_set_manager k c m m0 c' : manager_at c m0 k ->
  mv (set_manager c m k) c' = if bool_decide (c' = c) then Some (view_manager m) else mv k c'.
Proof.
  unfold manager_at, mv, set_manager. cbn. intros Hc%lookup_lt_Some. case_bool.
  - subst. by rewrite list_lookup_insert_eq.
  - by rewrite list_lookup_insert_ne.
Qed.

(** Updates the scheduler does not see. *)
Lemma sched_eq_thread k t th th' : thread_at t th k -> view_thread th' = view_thread th -> sched_eq k (set_thread t th' k).
Proof.
  intros Ht Hv. split; try done.
  - intros u. rewrite tv_set_thread. case_bool; [|done]. subst. by rewrite (tv_thread _ _ _ Ht), Hv.
  - intros o. by eapply is_process_set_thread.
  - intros o _. apply set_thread_fresh. by exists th.
Qed.
Lemma sched_eq_manager k c m m' : manager_at c m k -> view_manager m' = view_manager m -> sched_eq k (set_manager c m' k).
Proof.
  intros Hm Hv. split; try done. intros c'. rewrite (mv_set_manager _ _ _ _ _ Hm). case_bool; [|done].
  subst. by rewrite (mv_manager _ _ _ Hm), Hv.
Qed.

(** The thread [t] of core [c] gets another record, and the queue of the core
    another content, which differs in [t] only. *)
Lemma sched_change hole hole' k t th th' c m q' :
  sched_hole hole k -> thread_at t th k -> manager_at c m k -> core_id th = c -> core_id th' = c ->
  prio_ok (current_priority th') -> prio_ok (nominal_priority th') -> owner_process th' = owner_process th ->
  (forall c', c' <> c -> hole' c' = hole c') ->
  valid q' -> length (queues q') = 64%nat ->
  (forall p u, u <> t -> (u ∈ level_data q' p <-> ready_in (tv k) c u p /\ hole' c <> Some u)) ->
  (forall p, t ∈ level_data q' p <-> status th' = Ready /\ level_of (current_priority th') = p /\ hole' c <> Some t) ->
  (forall p, NoDup (level_data q' p)) ->
  (forall p, linked (ready_queue m) p -> linked q' p) -> linked q' (level_of (current_priority th')) ->
  (status th' = Running -> current_thread m = Some t) ->
  sched_hole hole' (set_thread t th' (set_queue c q' k)).
Proof.
  intros [H1 H2 H3 H4 H5 H6 H7] Ht Hm Hc Hc' Hcur Hnom Hown Hhole Hq' Hlen Hother Hself Hnd Hmono Hlink Hrun.
  rewrite <- (set_queue_manager _ _ _ _ Hm).
  assert (Htv : forall u, tv (set_thread t th' (set_manager c (m <| ready_queue := q' |>) k)) u =
    if bool_decide (u = t) then Some (view_thread th') else tv k u) by (intros u; by rewrite tv_set_thread).
  assert (Hmv : forall c', mv (set_thread t th' (set_manager c (m <| ready_queue := q' |>) k)) c' =
    if bool_decide (c' = c) then Some (view_manager (m <| ready_queue := q' |>)) else mv k c').
  { intros c'. rewrite mv_set_thread. by apply (mv_set_manager _ _ _ m). }
  pose proof (mv_manager _ _ _ Hm) as Hmvc. pose proof (H1 c _ Hmvc) as [Q1 Q2 Q3].
  pose proof (tv_thread _ _ _ Ht) as Htvt. split.
  - intros c' m'. rewrite Hmv. case_bool.
    + subst c'. intros [= <-]. split; cbn.
      * split; [done|done| |done]. intros p u. destruct (decide (u = t)) as [->|Hne].
        -- rewrite Hself. unfold ready_in. split; [intros (? & ? & ?); split; [|done]; exists (view_thread th'); by rewrite Htv, bool_decide_eq_true_2|].
           intros ((v & Hv & ? & ? & ?) & ?). rewrite Htv, bool_decide_eq_true_2 in Hv by done. by simplify_eq.
        -- rewrite Hother by done. unfold ready_in. by rewrite Htv, bool_decide_eq_false_2.
      * done.
      * intros u Hu. rewrite Htv. case_bool; [|by apply Q3]. subst. by exists (view_thread th').
    + intros Hm'. destruct (H1 c' m' Hm') as [G1 G2 G3]. split; [|done|].
      * rewrite Hhole by done. destruct G1 as [F1 F2 F3 F4]. split; try done. intros p u. rewrite F3. unfold ready_in. rewrite Htv.
        case_bool; [|done]. subst. rewrite Htvt.
        split; (intros ((v & [= <-] & Hvc & _) & _); cbn in Hvc; congruence).
      * intros u Hu. rewrite Htv. case_bool; [|by apply G3]. subst. destruct (G3 _ Hu) as (v & Hv & Hvc).
        rewrite Htvt in Hv. injection Hv as <-. cbn in Hvc. congruence.
  - intros u v. rewrite Htv. case_bool.
    + subst u. intros [= <-]. destruct (H2 t _ Htvt) as [_ _ (o & Ho & HP) _]. split; cbn; [done|done| |].
      * exists o. split; [cbn in Ho; congruence|]. eapply is_process_set_thread; [|exact HP]. exact Ht.
      * rewrite Hmv. rewrite bool_decide_eq_true_2 by done. exists (view_manager (m <| ready_queue := q' |>)). done.
    + intros Hv. destruct (H2 u v Hv) as [G1 G2 (o & Ho & HP) (m' & Hm' & Hl & Hr)]. split; [done|done| |].
      * exists o. split; [done|]. eapply is_process_set_thread; [|exact HP]. exact Ht.
      * rewrite Hmv. case_bool; [|by exists m']. exists (view_manager (m <| ready_queue := q' |>)). split; [done|].
        assert (m' = view_manager m) as -> by congruence. split; [by apply Hmono|done].
  - cbn. rewrite length_insert. done.
  - cbn. rewrite length_insert. done.
  - cbn. rewrite length_insert. done.
  - cbn. rewrite length_insert. done.
  - intros o Ho. apply set_thread_fresh; [by exists th|by apply H7].
Qed.

(** ** Priorities and waking up *)

Lemma sched_thread hole k t th : sched_hole hole k -> thread_at t th k ->
  exists m, manager_at (core_id th) m k /\ prio_ok (current_priority th) /\ prio_ok (nominal_priority th) /\
    linked (ready_queue m) (level_of (current_priority th)) /\ valid (ready_queue m) /\ length (queues (ready_queue m)) = 64%nat /\
    (status th = Running -> current_thread m = Some t) /\
    (forall p u, u ∈ level_data (ready_queue m) p <-> ready_in (tv k) (core_id th) u p /\ hole (core_id th) <> Some u) /\
    (forall p, NoDup (level_data (ready_queue m) p)).
Proof.
  intros [H1 H2 _ _ _ _ _] Ht. destruct (H2 _ _ (tv_thread _ _ _ Ht)) as [Hcur Hnom _ (mvw & Hm & Hl & Hr)].
  apply mv_inv in Hm as (m & Hm & ->). exists m. destruct (H1 _ _ (mv_manager _ _ _ Hm)) as [[Q1 Q2 Q3 Q4] _ _].
  split_and!; try done.
Qed.
Lemma ready_in_self k t th c p : thread_at t th k -> core_id th = c ->
  ready_in (tv k) c t p <-> status th = Ready /\ level_of (current_priority th) = p.
Proof.
  intros Ht Hc. unfold ready_in. rewrite (tv_thread _ _ _ Ht). split.
  - by intros (v & [= <-] & _ & ? & ?).
  - intros [? ?]. by exists (view_thread th).
Qed.

(** [requeue] and the update of the priorities that follows it. *)
Lemma wp_requeue t th p f (Q : unit -> KernelSystem D IS -> Prop) k :
  sched_ok k -> thread_at t th k -> prio_ok p -> prio_ok (nominal_priority (f th)) ->
  view_thread (f th) = mkView (core_id th) (status th) p (nominal_priority (f th)) (can_schedule th) (owner_process th) ->
  (forall q', sched_ok (set_thread t (f th) (set_queue (core_id th) q' k)) -> Q tt (set_thread t (f th) (set_queue (core_id th) q' k))) ->
  wp (requeue t p;; update_thread t f) Q k.
Proof.
  intros Hok Ht Hp Hnom Hview HQ. injection Hview as Vc Vs Vp Vcan Vo.
  destruct (sched_thread _ _ _ _ Hok Ht) as (m & Hm & Hcur & _ & Hlink & Hv & Hlen & Hrun & He & Hnd).
  wp_step. unfold requeue. wp_step. eapply wp_get_thread; [done|].
  assert (Hfin : forall q', valid q' -> length (queues q') = 64%nat ->
    (forall j u, u <> t -> (u ∈ level_data q' j <-> u ∈ level_data (ready_queue m) j)) ->
    (forall j, t ∈ level_data q' j <-> status th = Ready /\ level_of p = j) -> (forall j, NoDup (level_data q' j)) ->
    (forall j, linked (ready_queue m) j -> linked q' j) -> linked q' (level_of p) ->
    wp (update_thread t f) Q (set_queue (core_id th) q' k)).
  { intros q' Gv Glen Go Gs Gnd Gm Gl. eapply wp_update_thread; [exact Ht|]. apply HQ.
    eapply (sched_change no_hole no_hole k t th (f th) (core_id th) m q'); try done; rewrite ?Vp, ?Vs; try done.
    - intros j u Hu. rewrite Go by done. apply He.
    - intros j. rewrite Gs. naive_solver. }
  destruct (decide (status th = Ready)) as [Hst|Hst];
    [rewrite bool_decide_eq_true_2 by done|rewrite bool_decide_eq_false_2 by done].
  - eapply wp_queue_op; [done|]. eapply wp_mono; [apply wp_move; [done|..]; rewrite Hlen; by apply level_of_lt|].
    cbn beta. intros [] q' (Gv & Gl & Gm & Glen & Gd). rewrite (set_queue_manager _ _ _ _ Hm).
    assert (Hiff : forall j u, u ∈ level_data q' j <->
      (u ∈ level_data (ready_queue m) j /\ (level_of (current_priority th) = j -> u <> t)) \/ (level_of p = j /\ u = t)).
    { intros j u. rewrite Gd, elem_of_app. case_bool; [rewrite list_elem_of_filter|]; case_bool; rewrite ?list_elem_of_singleton, ?elem_of_nil; naive_solver. }
    apply Hfin; [done|congruence| | | |done|done].
    + intros j u Hu. rewrite Hiff. naive_solver.
    + intros j. rewrite Hiff, He, (ready_in_self _ _ _ _ _ Ht eq_refl). naive_solver.
    + intros j. rewrite Gd. apply NoDup_app. split_and!.
      * by destruct (bool_decide _); [apply NoDup_filter|].
      * intros u Hu. destruct (bool_decide (level_of p = j)) eqn:Ep; [|by apply not_elem_of_nil]. intros ->%list_elem_of_singleton.
        destruct (bool_decide (level_of (current_priority th) = j)) eqn:Ec; [by apply list_elem_of_filter in Hu as [? _]|].
        apply He in Hu as [Hu _]. apply (ready_in_self _ _ _ _ _ Ht eq_refl) in Hu. apply bool_decide_eq_false in Ec. naive_solver.
      * destruct (bool_decide _); [apply NoDup_singleton|apply NoDup_nil_2].
  - eapply wp_queue_op; [done|]. eapply wp_mono; [apply wp_prepare; [done|]; rewrite Hlen; by apply level_of_lt|].
    cbn beta. intros [] q' (Gv & Gl & Gm & Gd & Glen). rewrite (set_queue_manager _ _ _ _ Hm).
    apply Hfin; [done|congruence| | | |done|done].
    + intros j u Hu. by rewrite Gd.
    + intros j. rewrite Gd, He, (ready_in_self _ _ _ _ _ Ht eq_refl). naive_solver.
    + intros j. by rewrite Gd.
Qed.

Lemma wp_SetPriority t th p (Q : unit -> KernelSystem D IS -> Prop) k :
  sched_ok k -> thread_at t th k -> prio_ok p ->
  (forall q', let k' := set_thread t (th <| nominal_priority := p |> <| current_priority := p |>) (set_queue (core_id th) q' k) in
     sched_ok k' -> Q tt k') ->
  wp (SetPriority t p) Q k.
Proof.
  intros Hok Ht Hp HQ. unfold SetPriority, ThreadPrioHighest. wp_step. wp_step; [unfold prio_ok in Hp; apply andb_true_iff; lia|].
  eapply wp_requeue; try done.
Qed.
Lemma wp_BoostPriority t th p (Q : unit -> KernelSystem D IS -> Prop) k :
  sched_ok k -> thread_at t th k -> prio_ok p ->
  (forall q', let k' := set_thread t (th <| current_priority := p |>) (set_queue (core_id th) q' k) in sched_ok k' -> Q tt k') ->
  wp (BoostPriority t p) Q k.
Proof.
  intros Hok Ht Hp HQ. pose proof (sched_thread _ _ _ _ Hok Ht) as (m & _ & _ & Hn & _). unfold BoostPriority. eapply wp_requeue; try done.
Qed.

(** The statuses from which a thread is woken up. *)
Definition waiting (st : ThreadStatus) : bool :=
  match st with Running | Ready | Dead => false | _ => true end.
Definition woken (th : Thread) : Thread := th <| wakeup_callback := None |> <| status := Ready |>.

Lemma wp_ResumeFromWait t th (Q : unit -> KernelSystem D IS -> Prop) k :
  sched_ok k -> thread_at t th k -> wait_objects th = [] -> (status th = Ready -> wakeup_callback th = None) ->
  (waiting (status th) = false -> Q tt k) ->
  (waiting (status th) = true -> forall m q',
     let k' := set_thread t (woken th) (set_queue (core_id th) q' k) <| reschedule_pending := true |> in
     manager_at (core_id th) m k -> only_level (level_of (current_priority th)) (fun l => l ++ [t]) (ready_queue m) q' ->
     sched_ok k' -> Q tt k') ->
  wp (ResumeFromWait t) Q k.
Proof.
  intros Hok Ht Hwo Hcb Hno Hyes. destruct (sched_thread _ _ _ _ Hok Ht) as (m & Hm & Hcur & Hnom & Hlink & Hv & Hlen & Hrun & He & Hnd).
  unfold ResumeFromWait. wp_step. eapply wp_get_thread; [done|]. wp_step. wp_step; [by rewrite bool_decide_eq_true_2|].
  assert (Hwake : waiting (status th) = true -> wp (update_thread t (fun th => th <| wakeup_callback := None |>);;
      queue_op (core_id th) (push_back (level_of (current_priority th)) t);;
      update_thread t (fun th => th <| status := Ready |>);; PrepareReschedule) Q k).
  { intros Hw. specialize (Hyes Hw). wp_step. eapply wp_update_thread; [done|]. wp_step.
    eapply wp_queue_op; [exact Hm|]. eapply wp_mono; [by apply wp_update_data|].
    cbn beta. intros [] q' (Gv & Gl & Go & Glen). wp_step. eapply (wp_update_thread t (th <| wakeup_callback := None |>)).
    { apply thread_at_set. by left. }
    unfold PrepareReschedule. wp_step. change (th <| wakeup_callback := None |> <| status := Ready |>) with (woken th).
    assert (Hn : ~ exists j, t ∈ level_data (ready_queue m) j).
    { intros [j Hj]. apply He in Hj as [Hj _]. apply (ready_in_self _ _ _ _ _ Ht eq_refl) in Hj as [Hj _]. by rewrite Hj in Hw. }
    rewrite (set_thread_queue _ _ _ _ _ _ _ Hm). eapply Hyes; [done|done|].
    assert (Hok' : sched_ok (set_thread t (woken th) (set_queue (core_id th) q' k))); [|destruct Hok'; by split].
    eapply (sched_change no_hole no_hole k t th (woken th) (core_id th) m q'); try done.
    - congruence.
    - intros j u Hu. rewrite Go. case_bool; [|by apply He]. rewrite elem_of_app, list_elem_of_singleton, He. naive_solver.
    - intros j. rewrite Go. case_bool; rewrite ?elem_of_app, ?list_elem_of_singleton; cbn; naive_solver.
    - intros j. rewrite Go. case_bool; [|done]. apply NoDup_app. split; [done|]. split; [|apply NoDup_singleton].
      intros u Hu ->%list_elem_of_singleton. apply Hn. by exists j.
    - intros j Hj. by apply Gl.
    - by apply Gl. }
  destruct (status th) eqn:Hst; try (by apply Hwake); [by apply wp_ret, Hno| |by apply wp_ret, Hno].
  wp_step; [by rewrite bool_decide_eq_true_2 by (by apply Hcb)|]. by apply Hno.
Qed.
End Scheduler.

(** ** A small kernel *)

(** One core, which runs the thread 10; the threads 11 and 12 are ready at a
    better priority, and 11 must not be scheduled. The thread 13 waits for the
    event 20, which is signaled. *)
Definition demo_thread (st : ThreadStatus) (p : Z) (can : bool) : Thread :=
  mkThread reset_context 1 can st 0 0 p p 0 0 0x1FF82000 [] [] (Some 1) [] 0 "t" None 0.
Definition demo_process : Process :=
  mkProcess HandleTable.new_HandleTable 0 ResourceLimit.APPLICATION [] 0 [] 0 false 0 0 Created 1 0 (VmManager.mkVMManager [] 0 false) 0 None [replicate 8 true].
Definition demo_objects : gmap oid Object :=
  {[ 1 := OProcess demo_process; 10 := OThread (demo_thread Running 50 true); 11 := OThread (demo_thread Ready 40 false);
     12 := OThread (demo_thread Ready 40 true);
     13 := OThread ((demo_thread WaitSynchAny 40 true) <| wait_objects := [20] |> <| wakeup_callback := Some (SVC_SyncCallback true) |>);
     20 := OEvent (mkEventObject OneShot true "event") ]}.
Definition demo_queue : tql oid :=
  mkTql (PQueue 40) (<[40%nat := mkQueue (PQueue 50) [11; 12]]> (<[50%nat := mkQueue PNull []]> (replicate 64 (new_Queue (T := oid))))).
Definition demo_manager : ThreadManager := mkThreadManager (mkCpu reset_context 0 None) (Some 10) demo_queue [] ∅ "wakeup" [10; 11; 12; 13].
Definition demo_kernel : KernelSystem unit unit :=
  mkKernelSystem demo_objects {[ 20 := mkWaitObject [13] None ]} 21 [demo_manager] (mkTimerManager "timer" 1 ∅) (mkTiming ∅ [new_Timer] 0 false)
    (Memory.mkMemorySystem (fun _ _ => 0) ∅ None ∅ [] false 0 [] tt) 0 [] [] 0 (Some 1) [Some 1] [1] ∅ 2 14 14 false.

Lemma demo_tv t : tv demo_kernel t =
  if bool_decide (t = 10) then Some (mkView 0 Running 50 50 true (Some 1))
  else if bool_decide (t = 11) then Some (mkView 0 Ready 40 40 false (Some 1))
  else if bool_decide (t = 12) then Some (mkView 0 Ready 40 40 true (Some 1))
  else if bool_decide (t = 13) then Some (mkView 0 WaitSynchAny 40 40 true (Some 1)) else None.
Proof.
  unfold tv, demo_kernel, demo_objects. cbn [KernelState.objects].
  destruct (decide (t = 1)) as [->|]; [done|]. rewrite lookup_insert_ne by done.
  repeat (case_bool; [subst; done|]; rewrite lookup_insert_ne by done).
  destruct (decide (t = 20)) as [->|]; [done|]. by rewrite lookup_singleton_ne.
Qed.
Lemma demo_level p : level_data demo_queue p = if bool_decide (p = 40%nat) then [11; 12] else [].
Proof.
  unfold level_data, demo_queue. cbn [queues]. case_bool; [subst; by rewrite list_lookup_insert_eq by (cbn; lia)|].
  rewrite list_lookup_insert_ne by done. destruct (decide (p = 50%nat)) as [->|]; [by rewrite list_lookup_insert_eq by (cbn; lia)|].
  rewrite list_lookup_insert_ne by done. destruct (replicate 64 _ !! p) eqn:E; [|done]. by apply lookup_replicate in E as [-> _].
Qed.
Lemma demo_linked p : linked demo_queue p <-> p = 40%nat \/ p = 50%nat.
Proof.
  unfold linked, demo_queue. cbn [queues].
  destruct (decide (p = 40%nat)) as [->|]; [rewrite list_lookup_insert_eq by (cbn; lia); naive_solver|].
  rewrite list_lookup_insert_ne by done. destruct (decide (p = 50%nat)) as [->|]; [rewrite list_lookup_insert_eq by (cbn; lia); naive_solver|].
  rewrite list_lookup_insert_ne by done. split; [|naive_solver]. intros (c & Hc & Hn). apply lookup_replicate in Hc as [-> _]. by destruct Hn.
Qed.
Lemma demo_queue_valid : valid demo_queue.
Proof.
  exists [40; 50]%nat. split.
  - cbn. split; [done|]. eexists. split; [done|]. cbn. split; [done|]. by eexists.
  - repeat constructor.
  - intros i. rewrite demo_linked. set_solver.
  - intros i Hi. rewrite demo_level. rewrite demo_linked in Hi. rewrite bool_decide_eq_false_2; [done|naive_solver].
Qed.
Lemma demo_mv c m : mv demo_kernel c = Some m -> c = 0%nat /\ m = view_manager demo_manager.
Proof. unfold mv. cbn. destruct c; cbn; [by intros [= <-]|done]. Qed.
Lemma demo_kernel_ok : sched_ok demo_kernel.
Proof.
  split.
  - intros c m [-> ->]%demo_mv. split; cbn; [|done|].
    + split; [exact demo_queue_valid|done| |].
      * intros p t. rewrite demo_level. unfold ready_in. rewrite demo_tv. unfold level_of.
        destruct (decide (p = 40%nat)) as [->|]; [rewrite bool_decide_eq_true_2 by done|rewrite bool_decide_eq_false_2 by done].
        -- rewrite !elem_of_cons, elem_of_nil. repeat case_bool; naive_solver.
        -- rewrite elem_of_nil. repeat case_bool; naive_solver.
      * intros p. rewrite demo_level. case_bool; repeat constructor; set_solver.
    + intros t [= <-]. rewrite demo_tv. by eexists.
  - intros t v. rewrite demo_tv. intros Hv.
    assert (Hp : is_process demo_kernel 1) by (by eexists).
    assert (v_core v = 0%nat /\ prio_ok (v_cur v) /\ prio_ok (v_nom v) /\ v_owner v = Some 1 /\
      (v_cur v = 40 \/ v_cur v = 50) /\ (v_status v = Running -> t = 10)) as (Hc & H1 & H2 & H3 & H4 & H5).
    { unfold prio_ok, ThreadPrioLowest. revert Hv. repeat case_bool; intros [= <-]; cbn; split_and!; (lia || naive_solver). }
    split; [done|done|by exists 1|]. rewrite Hc. exists (view_manager demo_manager). split; [done|]. split.
    + apply demo_linked. unfold level_of. destruct H4 as [-> | ->]; auto.
    + by intros ->%H5.
  - done.
  - cbn. lia.
  - done.
  - cbn. lia.
  - intros o Ho. unfold demo_kernel, demo_objects in *. cbn [KernelState.objects next_oid] in *.
    rewrite !lookup_insert_ne by lia. apply lookup_singleton_ne. lia.
Qed.
