(* ===== verification/Reschedule.v ===== *)
(** Which thread a core runs next: [PopNextReadyThread], [SwitchContext] and
    [Reschedule] (src/.../core/hle/kernel/thread.cpp). *)

From S2P Require Import Prelude ResultCode HandleTable Memory VmManager CoreTiming ThreadQueueList KernelState Thread Scheduler.

Section Reschedule.
Context {D IS : Type}.
Implicit Types (k : KernelSystem D IS).

(** ** Taking threads out of the queue *)

(** [pop] takes the best entry above the level [bound]. *)
Definition above (i : nat) (bound : option nat) : Prop := match bound with Some p => (i < p)%nat | None => True end.
Definition pop_law (pop : M (tql oid) (option oid)) (bound : option nat) : Prop :=
  forall q, valid q -> (forall p, bound = Some p -> linked q p) ->
  wp pop (fun r q' => valid q' /\ same_levels q q' /\
    match r with
    | Some x => exists i, above i bound /\ best q i x /\ only_level i (@tail _) q q'
    | None => (forall i, above i bound -> level_data q i = []) /\ q' = q
    end) q.
Lemma pop_first_law : pop_law pop_first None.
Proof.
  intros q Hq _. eapply wp_mono; [by apply wp_pop_first|]. cbn beta. intros [x|] q' (H1 & H2 & H3); split_and!; try done.
  - destruct H3 as (i & ? & ?). by exists i.
  - destruct H3 as [H3 _]. intros i _. apply H3.
  - apply H3.
Qed.
Lemma pop_first_better_law p : pop_law (pop_first_better p) (Some p).
Proof. intros q Hq Hp. apply wp_pop_first_better; [done|]. by apply Hp. Qed.

(** The level of a thread, and the threads that must not be scheduled. *)
Definition lvl (T : oid -> option tview) (t : oid) : nat := match T t with Some v => level_of (v_cur v) | None => 0 end.
Definition can_run (T : oid -> option tview) (t : oid) : Prop := exists v, T t = Some v /\ v_can v = true.
Definition barred (T : oid -> option tview) (t : oid) : Prop := exists v, T t = Some v /\ v_can v = false.
Definition running (T : oid -> option tview) (t : oid) : Prop := exists v, T t = Some v /\ v_status v = Running.

(** [q] is what is left of [q0] when the barred threads [u] are put aside. *)
Record drained (T : oid -> option tview) (q0 q : tql oid) (u : list oid) : Prop := {
  drained_valid : valid q;
  drained_levels : same_levels q0 q;
  drained_data p : level_data q0 p = filter (fun t => lvl T t = p) u ++ level_data q p;
  drained_barred : Forall (barred T) u;
}.

Lemma data_level (q : tql oid) : data <$> queues q = (fun i => level_data q i) <$> seq 0 (length (queues q)).
Proof.
  apply list_eq. intros i. rewrite !list_lookup_fmap. unfold level_data.
  destruct (queues q !! i) as [c|] eqn:Hc.
  - rewrite lookup_seq_lt by (by eapply lookup_lt_Some). cbn. by rewrite Hc.
  - apply lookup_ge_None in Hc. by rewrite lookup_seq_ge.
Qed.
Lemma entries_pop q q' i x rest :
  only_level i (@tail _) q q' -> length (queues q') = length (queues q) -> level_data q i = x :: rest -> entries q = S (entries q').
Proof.
  intros Ho Hlen Hd. unfold entries. rewrite !data_level, Hlen.
  assert (Hi : (i < length (queues q))%nat).
  { unfold level_data in Hd. destruct (queues q !! i) eqn:Hc; [|done]. by eapply lookup_lt_Some. }
  assert (Heq : forall a n, ~ (a <= i < a + n)%nat -> (fun i => level_data q' i) <$> seq a n = (fun i => level_data q i) <$> seq a n).
  { intros a n Hn. apply list_fmap_ext. intros j y Hj. apply lookup_seq in Hj as [-> ?]. rewrite Ho, bool_decide_eq_false_2; [done|lia]. }
  replace (length (queues q)) with (i + S (length (queues q) - S i))%nat by lia.
  rewrite seq_app, !fmap_app, !concat_app, !length_app. cbn. rewrite !length_app.
  rewrite (Heq 0%nat i), (Heq (S i)) by lia. rewrite Ho, bool_decide_eq_true_2, Hd by done. cbn. lia.
Qed.

Lemma drained_pop T q0 q u q' i x : drained T q0 q u -> valid q' -> same_levels q q' -> best q i x -> only_level i (@tail _) q q' ->
  lvl T x = i -> barred T x -> drained T q0 q' (u ++ [x]).
Proof.
  intros [D1 D2 D3 D4] Hv [Hl Hn] [[rest Hr] _] Ho Hx Hb. split; [done| | |].
  - destruct D2 as [E1 E2]. split; [|congruence]. intros j. by rewrite E1, Hl.
  - intros p. rewrite D3, filter_app, filter_cons, filter_nil, Ho. case_decide as Hp.
    + rewrite Hx in Hp. subst p. rewrite bool_decide_eq_true_2, Hr by done. cbn. by rewrite <- app_assoc.
    + rewrite bool_decide_eq_false_2 by congruence. by rewrite app_nil_r.
  - apply Forall_app. split; [done|]. by constructor.
Qed.

(** The queue without the thread [n] that was picked. *)
Record picked (T : oid -> option tview) (bound : option nat) (q0 : tql oid) (n : oid) (q : tql oid) (u : list oid) : Prop := {
  picked_valid : valid q;
  picked_levels : same_levels q0 q;
  picked_above : above (lvl T n) bound;
  picked_can : can_run T n;
  picked_data p : level_data q0 p = filter (fun t => lvl T t = p) u ++ (if bool_decide (lvl T n = p) then [n] else []) ++ level_data q p;
  picked_best p : (p < lvl T n)%nat -> level_data q p = [];
  picked_barred : Forall (barred T) u;
}.

Definition with_queues (m : ThreadManager) (q : tql oid) (u : list oid) : ThreadManager :=
  m <| ready_queue := q |> <| unscheduled_ready_queue := u |>.
Lemma set_manager_twice c m m' k : set_manager c m (set_manager c m' k) = set_manager c m k.
Proof. unfold set_manager, set_field. cbn. f_equal. apply list_insert_insert_eq. Qed.
Lemma manager_at_self c m m0 k : manager_at c m0 k -> manager_at c m (set_manager c m k).
Proof. intros H. eapply manager_at_set; [done|]. by left. Qed.

Lemma wp_queue_op_at {A} c m m0 q u (f : M (tql oid) A) (Q : A -> KernelSystem D IS -> Prop) k :
  manager_at c m0 k -> wp f (fun a q' => Q a (set_manager c (with_queues m q' u) k)) q ->
  wp (queue_op c f) Q (set_manager c (with_queues m q u) k).
Proof.
  intros Hm Hf. eapply wp_queue_op; [by eapply manager_at_self|]. eapply wp_mono; [exact Hf|]. cbn beta. intros a q' HQ. by rewrite set_manager_twice.
Qed.

Lemma wp_pop_schedulable fuel c pop bound m q0 q u k :
  pop_law pop bound -> (forall p, bound = Some p -> linked q0 p) -> manager_at c m k ->
  (forall p t, t ∈ level_data q0 p -> ready_in (tv k) c t p) -> drained (tv k) q0 q u -> (entries q <= fuel)%nat ->
  wp (pop_schedulable fuel c pop) (fun r k' => exists q' u', k' = set_manager c (with_queues m q' u') k /\
      match r with
      | Some n => picked (tv k) bound q0 n q' u'
      | None => drained (tv k) q0 q' u' /\ forall i, above i bound -> level_data q' i = []
      end) (set_manager c (with_queues m q u) k).
Proof.
  intros Hpop Hb Hm Hr. revert q u. induction fuel as [|fuel IH]; intros q u Hd Hf; cbn [pop_schedulable]; wp_step.
  all: eapply wp_queue_op_at; [done|]; eapply wp_mono;
    [apply Hpop; [by apply Hd|intros p Hp; apply (drained_levels _ _ _ _ Hd), Hb, Hp]|]; cbn beta;
    intros [x|] q' (Hv & Hs & Hx); [destruct Hx as (i & Hi & Hbest & Ho)|wp_step; destruct Hx as [Hx ->]; exists q, u; done].
  all: pose proof Hbest as [[rest Hrest] Hup];
    assert (Hx : ready_in (tv k) c x i) by (apply Hr; rewrite (drained_data _ _ _ _ Hd), Hrest; set_solver);
    destruct Hx as (v & Hv1 & _ & _ & Hlv);
    assert (Hlx : lvl (tv k) x = i) by (unfold lvl; by rewrite Hv1);
    destruct (tv_inv _ _ _ Hv1) as (th & Hth & ->); wp_step; eapply wp_get_thread; [exact Hth|];
    pose proof (entries_pop _ _ _ _ _ Ho (proj2 Hs) Hrest); destruct (can_schedule th) eqn:Hcan.
  1, 3: wp_step; exists q', u; split; [done|]; destruct Hd as [D1 [E1 E2] D3 D4]; destruct Hs as [Hs1 Hs2]; split;
    [done|split; [intros j; by rewrite E1, Hs1|congruence]|by rewrite Hlx|by exists (view_thread th)| | |done].
  1, 3: intros p; rewrite D3, Hlx, Ho; case_bool; [subst p; by rewrite Hrest|done].
  1, 2: intros p Hp; rewrite Ho, bool_decide_eq_false_2 by lia; apply Hup; lia.
  1: exfalso; lia.
  wp_step. unfold put_aside. eapply wp_manager_op; [by eapply manager_at_self|]. wp_step. rewrite set_manager_twice.
  apply (IH q' (u ++ [x])); [|lia]. eapply drained_pop; try done. by exists (view_thread th).
Qed.

Lemma wp_push_unscheduled_all c m u0 l q k :
  manager_at c m k -> valid q ->
  (forall t, t ∈ l -> exists v, tv k t = Some v /\ linked q (level_of (v_cur v))) ->
  wp (for_each l (push_unscheduled c)) (fun _ k' => exists q', k' = set_manager c (with_queues m q' u0) k /\
      valid q' /\ same_levels q q' /\ forall p, level_data q' p = level_data q p ++ filter (fun t => lvl (tv k) t = p) l)
    (set_manager c (with_queues m q u0) k).
Proof.
  intros Hm. revert q. induction l as [|t l IH]; intros q Hv Hl; cbn [for_each].
  { apply wp_ret. exists q. split_and!; try done. intros p. by rewrite app_nil_r. }
  destruct (Hl t) as (v & Htv & Hlink); [by constructor|]. destruct (tv_inv _ _ _ Htv) as (th & Hth & ->).
  wp_step. unfold push_unscheduled. wp_step. eapply wp_get_thread; [exact Hth|].
  eapply wp_queue_op_at; [done|]. eapply wp_mono; [by apply wp_update_data|].
  cbn beta. intros [] q1 (G1 & G2 & G3 & G4). eapply wp_mono; [apply (IH q1); [done|]|].
  { intros t' Ht'. destruct (Hl t') as (v' & ? & ?); [by constructor|]. exists v'. split; [done|]. by apply G2. }
  cbn beta. intros _ k' (q' & -> & F1 & [F2 F3] & F4). exists q'. split_and!; try done.
  - split; [intros j; by rewrite G2, F2|congruence].
  - assert (Hlt : lvl (tv k) t = level_of (current_priority th)) by (unfold lvl; by rewrite Htv).
    intros p. rewrite F4, G3, filter_cons, Hlt.
    destruct (decide (level_of (current_priority th) = p)) as [He|He].
    + rewrite bool_decide_eq_true_2 by done. by rewrite <- app_assoc.
    + by rewrite bool_decide_eq_false_2.
Qed.

(** ** [PopNextReadyThread] *)

(** The thread the core runs next: the current one when no other may run and has
    a better priority; otherwise the oldest of the best threads that may run. *)
Definition chosen (T : oid -> option tview) (q : tql oid) (current r : option oid) : Prop :=
  match r with
  | Some n =>
      (current = Some n /\ running T n /\ forall j, (j < lvl T n)%nat -> Forall (barred T) (level_data q j)) \/
      (can_run T n /\ (exists pre post, level_data q (lvl T n) = pre ++ n :: post /\ Forall (barred T) pre) /\
       (forall j, (j < lvl T n)%nat -> Forall (barred T) (level_data q j)) /\
       (forall c, current = Some c -> running T c -> (lvl T n < lvl T c)%nat))
  | None => (forall j, Forall (barred T) (level_data q j)) /\ forall c, current = Some c -> ~ running T c
  end.
(** The chosen thread, when it was taken out of the queue. *)
Definition taken (T : oid -> option tview) (q : tql oid) (current r h : option oid) : Prop :=
  (h = None /\ (r = None \/ exists n, r = Some n /\ current = Some n /\ running T n)) \/
  (h = r /\ exists n, r = Some n /\ n ∈ level_data q (lvl T n)).

Lemma sched_set_queue (h : option oid) k c m q' :
  sched_ok k -> manager_at c m k -> valid q' -> length (queues q') = 64%nat ->
  (forall p t, t ∈ level_data q' p <-> ready_in (tv k) c t p /\ h <> Some t) -> (forall p, NoDup (level_data q' p)) ->
  (forall p, linked (ready_queue m) p -> linked q' p) ->
  sched_hole (fun c' => if bool_decide (c' = c) then h else None) (set_queue c q' k).
Proof.
  intros [H1 H2 H3 H4 H5 H6 H7] Hm Hv Hlen He Hnd Hmono. rewrite <- (set_queue_manager _ _ _ _ Hm).
  pose proof (mv_manager _ _ _ Hm) as Hmvc. split.
  - intros c' m'. rewrite (mv_set_manager _ _ _ m) by done. case_bool.
    + subst. intros [= <-]. destruct (H1 c _ Hmvc) as [G1 G2 G3]. split; cbn; [|done|done].
      rewrite bool_decide_eq_true_2 by done. by split.
    + intros Hm'. destruct (H1 c' m' Hm') as [G1 G2 G3]. split; [|done|done]. by rewrite bool_decide_eq_false_2.
  - intros t v Hv'. rewrite tv_set_manager in Hv'. destruct (H2 t v Hv') as [G1 G2 G3 (m' & Hm' & Hl & Hr)]. split; [done..|].
    rewrite (mv_set_manager _ _ _ m) by done. case_bool; [|by exists m'].
    eexists. split; [done|]. assert (m' = view_manager m) as -> by congruence. split; [by apply Hmono|done].
  - cbn. by rewrite length_insert.
  - cbn. by rewrite length_insert.
  - cbn. by rewrite length_insert.
  - cbn. by rewrite length_insert.
  - exact H7.
Qed.

(** The barred threads go back behind the others of their level. *)
Lemma restored_data T q0 q q' u (n : option oid) p :
  level_data q0 p = filter (fun t => lvl T t = p) u ++ from_option (fun n => if bool_decide (lvl T n = p) then [n] else []) [] n ++ level_data q p ->
  level_data q' p = level_data q p ++ filter (fun t => lvl T t = p) (reverse u) ->
  level_data q0 p ≡ₚ from_option (fun n => if bool_decide (lvl T n = p) then [n] else []) [] n ++ level_data q' p.
Proof.
  intros -> ->. rewrite (reverse_Permutation u). rewrite (Permutation_app_comm (level_data q p)), !app_assoc.
  by rewrite (Permutation_app_comm (filter _ _)).
Qed.

Lemma barred_not_run T t : barred T t -> ~ can_run T t.
Proof. intros (v & Hv & H) (v' & Hv' & H'). congruence. Qed.
Lemma Forall_filter_keep (P Q : oid -> Prop) `{!forall x, Decision (Q x)} l : Forall P l -> Forall P (filter Q l).
Proof. rewrite !Forall_forall. intros HP x [_ Hx]%list_elem_of_filter. by apply HP. Qed.
Lemma Forall_filter_barred T q u p l : Forall (barred T) u ->
  level_data q p = filter (fun t => lvl T t = p) u ++ l -> l = [] -> Forall (barred T) (level_data q p).
Proof.
  intros Hu -> ->. rewrite app_nil_r. by apply Forall_filter_keep.
Qed.
Lemma picked_chosen T bound q0 n q u current : picked T bound q0 n q u ->
  (forall c, current = Some c -> running T c -> bound = Some (lvl T c)) -> chosen T q0 current (Some n).
Proof.
  intros [P1 P2 P3 P4 P5 P6 P7] Hb. right. split_and!; [done| | |].
  - eexists _, _. split; [rewrite P5, bool_decide_eq_true_2 by done; reflexivity|]. by apply Forall_filter_keep.
  - intros j Hj. eapply Forall_filter_barred; [done|apply P5|]. rewrite bool_decide_eq_false_2 by lia. by apply P6.
  - intros c Hc Hr. by rewrite (Hb c Hc Hr) in P3.
Qed.
Lemma drained_chosen T bound q0 q u current : drained T q0 q u -> (forall i, above i bound -> level_data q i = []) ->
  match bound with Some p => exists c, current = Some c /\ running T c /\ p = lvl T c | None => forall c, current = Some c -> ~ running T c end ->
  chosen T q0 current (match bound with Some _ => current | None => None end).
Proof.
  intros [D1 D2 D3 D4] He Hb. destruct bound as [p|].
  - destruct Hb as (c & -> & Hr & ->). left. split_and!; [done..|]. intros j Hj. eapply Forall_filter_barred; [done|apply D3|by apply He].
  - split; [|done]. intros j. eapply Forall_filter_barred; [done|apply D3|by apply He].
Qed.

Definition just (T : oid -> option tview) (h : option oid) (p : nat) : list oid :=
  from_option (fun n => if bool_decide (lvl T n = p) then [n] else []) [] h.
Lemma elem_of_just T h p t : t ∈ just T h p <-> h = Some t /\ lvl T t = p.
Proof.
  unfold just. destruct h as [n|]; cbn; [|rewrite elem_of_nil; naive_solver].
  case_bool; rewrite ?list_elem_of_singleton, ?elem_of_nil; naive_solver.
Qed.

Lemma sched_queue k c m : sched_ok k -> manager_at c m k ->
  valid (ready_queue m) /\ length (queues (ready_queue m)) = 64%nat /\ unscheduled_ready_queue m = [] /\
  (forall p t, t ∈ level_data (ready_queue m) p <-> ready_in (tv k) c t p) /\ (forall p, NoDup (level_data (ready_queue m) p)) /\
  (forall p t, t ∈ level_data (ready_queue m) p -> lvl (tv k) t = p /\ exists v, tv k t = Some v /\ linked (ready_queue m) (level_of (v_cur v))).
Proof.
  intros Hok Hm. destruct Hok as [H1 H2 _ _ _]. destruct (H1 c _ (mv_manager _ _ _ Hm)) as [[Q1 Q2 Q3 Q4] G2 G3].
  assert (Hin : forall p t, t ∈ level_data (ready_queue m) p <-> ready_in (tv k) c t p) by (intros p t; rewrite Q3; naive_solver).
  split_and!; try done. intros p t (v & Hv & Hc & _ & Hp)%Hin. split; [unfold lvl; by rewrite Hv|]. exists v. split; [done|].
  destruct (H2 t v Hv) as [_ _ _ (m' & Hm' & Hl & _)]. rewrite Hc, (mv_manager _ _ _ Hm) in Hm'. by simplify_eq.
Qed.

(** The state between the two loops. *)
Lemma wp_restore c m q u (h : option oid) (Q : unit -> KernelSystem D IS -> Prop) k :
  sched_ok k -> manager_at c m k -> valid q -> same_levels (ready_queue m) q ->
  (forall p, level_data (ready_queue m) p = filter (fun t => lvl (tv k) t = p) u ++ just (tv k) h p ++ level_data q p) ->
  (forall q', (forall p, level_data (ready_queue m) p ≡ₚ just (tv k) h p ++ level_data q' p) ->
     sched_hole (fun c' => if bool_decide (c' = c) then h else None) (set_queue c q' k) -> Q tt (set_queue c q' k)) ->
  wp (restore_unscheduled c) Q (set_manager c (with_queues m q u) k).
Proof.
  intros Hok Hm Hv [Hl Hn] Hd HQ. destruct (sched_queue _ _ _ Hok Hm) as (S1 & S2 & S3 & S4 & S5 & S6).
  unfold restore_unscheduled. wp_step. eapply wp_get_manager; [by eapply manager_at_self|]. wp_step.
  change (unscheduled_ready_queue (with_queues m q u)) with u.
  eapply wp_mono; [apply (wp_push_unscheduled_all c m u); [done..|]|].
  { intros t Ht. rewrite elem_of_reverse in Ht. destruct (S6 (lvl (tv k) t) t) as (_ & v & Hv1 & Hv2).
    - rewrite Hd, elem_of_app, list_elem_of_filter. by left.
    - exists v. split; [done|]. by apply Hl. }
  cbn beta. intros _ k' (q' & -> & F1 & [F2 F3] & F4). eapply wp_manager_op; [by eapply manager_at_self|]. wp_step.
  rewrite set_manager_twice.
  assert (Hk : set_manager c (with_queues m q' u) <| unscheduled_ready_queue := [] |> k = set_queue c q' k).
  { rewrite <- (set_queue_manager _ _ _ _ Hm). f_equal. destruct m; cbn in *. by subst. }
  rewrite Hk.
  assert (Hp : forall p, level_data (ready_queue m) p ≡ₚ just (tv k) h p ++ level_data q' p).
  { intros p. eapply restored_data; [apply Hd|apply F4]. }
  apply HQ; [done|]. apply (sched_set_queue h k c m); try done.
  - congruence.
  - intros p t. rewrite <- S4. specialize (S5 p). rewrite Hp in S5 |- *. rewrite elem_of_app, elem_of_just.
    apply NoDup_app in S5 as (_ & S5 & _). split; [intros Ht; split; [by right|]|naive_solver].
    intros ->. eapply S5; [|exact Ht]. apply elem_of_just. split; [done|]. apply S6. rewrite Hp, elem_of_app. by right.
  - intros p. specialize (S5 p). rewrite Hp in S5. by apply NoDup_app in S5 as (_ & _ & ?).
  - intros p Hp'. by apply F2, Hl.
Qed.

Record popped (c : nat) (m : ThreadManager) k (r : option oid) (q' : tql oid) (h : option oid) : Prop := {
  popped_chosen : chosen (tv k) (ready_queue m) (current_thread m) r;
  popped_taken : taken (tv k) (ready_queue m) (current_thread m) r h;
  popped_queue p : level_data (ready_queue m) p ≡ₚ just (tv k) h p ++ level_data q' p;
  popped_ok : sched_hole (fun c' => if bool_decide (c' = c) then h else None) (set_queue c q' k);
}.

Lemma wp_restore_picked c m q u bound n k : sched_ok k -> manager_at c m k -> picked (tv k) bound (ready_queue m) n q u ->
  (forall x, current_thread m = Some x -> running (tv k) x -> bound = Some (lvl (tv k) x)) ->
  wp (restore_unscheduled c) (fun _ k' => exists q' h, k' = set_queue c q' k /\ popped c m k (Some n) q' h) (set_manager c (with_queues m q u) k).
Proof.
  intros Hok Hm Hp Hb. pose proof Hp as [P1 P2 P3 P4 P5 P6 P7]. eapply (wp_restore c m q u (Some n)); try done.
  intros q2 F1 F2. exists q2, (Some n). split; [done|]. split; [by eapply picked_chosen| |done|done].
  right. split; [done|]. exists n. split; [done|]. rewrite P5, bool_decide_eq_true_2 by done. apply elem_of_app. right. by left.
Qed.
Lemma wp_restore_drained c m q u bound k : sched_ok k -> manager_at c m k -> drained (tv k) (ready_queue m) q u ->
  (forall i, above i bound -> level_data q i = []) ->
  match bound with
  | Some p => exists x, current_thread m = Some x /\ running (tv k) x /\ p = lvl (tv k) x
  | None => forall x, current_thread m = Some x -> ~ running (tv k) x
  end ->
  wp (restore_unscheduled c) (fun _ k' => exists q' h, k' = set_queue c q' k /\
    popped c m k (match bound with Some _ => current_thread m | None => None end) q' h) (set_manager c (with_queues m q u) k).
Proof.
  intros Hok Hm Hd He Hb. pose proof Hd as [D1 D2 D3 D4]. eapply (wp_restore c m q u None); try done.
  intros q2 F1 F2. exists q2, None. split; [done|]. split; [by eapply drained_chosen| |done|done].
  left. split; [done|]. destruct bound; [right|by left]. destruct Hb as (x & ? & ? & _). by exists x.
Qed.

Lemma wp_pop_all c m bound pop k : sched_ok k -> manager_at c m k -> pop_law pop bound -> (forall p, bound = Some p -> linked (ready_queue m) p) ->
  wp (pop_schedulable (entries (ready_queue m)) c pop) (fun r k' => exists q' u', k' = set_manager c (with_queues m q' u') k /\
    match r with
    | Some n => picked (tv k) bound (ready_queue m) n q' u'
    | None => drained (tv k) (ready_queue m) q' u' /\ forall i, above i bound -> level_data q' i = []
    end) k.
Proof.
  intros Hok Hm Hlaw Hb. destruct (sched_queue _ _ _ Hok Hm) as (S1 & S2 & S3 & S4 & S5 & S6).
  assert (Hself : set_manager c (with_queues m (ready_queue m) []) k = k).
  { unfold set_manager, set_field. replace (with_queues m (ready_queue m) []) with m by (destruct m; cbn in *; by subst).
    destruct k; cbn. f_equal. by apply list_insert_id. }
  rewrite <- Hself at 1. eapply wp_pop_schedulable; try done. intros p t. apply S4.
Qed.

Lemma wp_PopNextReadyThread c m k : sched_ok k -> manager_at c m k ->
  wp (PopNextReadyThread c) (fun r k' => exists q' h, k' = set_queue c q' k /\ popped c m k r q' h) k.
Proof.
  intros Hok Hm. unfold PopNextReadyThread. wp_step. eapply wp_get_manager; [done|]. wp_step.
  assert (Hnot : (forall x, current_thread m = Some x -> ~ running (tv k) x) ->
    wp (mret None) (fun current => wp (next ← match current with
      | Some (t, p) => n ← pop_schedulable (entries (ready_queue m)) c (pop_first_better (level_of p)); mret (Some (default t n))
      | None => pop_schedulable (entries (ready_queue m)) c pop_first
      end; restore_unscheduled c;; mret next) (fun r k' => exists q' h, k' = set_queue c q' k /\ popped c m k r q' h)) k).
  { intros Hn. do 2 wp_step. eapply wp_mono; [apply (wp_pop_all c m None); [done|done|apply pop_first_law|done]|].
    cbn beta. intros r k' (q' & u' & -> & Hr). wp_step. destruct r as [n|].
    - eapply wp_mono; [eapply (wp_restore_picked c m _ _ None n); [done..|intros x Hx Hx'; by destruct (Hn x)]|].
      cbn beta. intros _ k' Hk. by wp_step.
    - destruct Hr as [Hr1 Hr2]. eapply wp_mono; [by apply (wp_restore_drained c m _ _ None)|]. cbn beta. intros _ k' Hk. by wp_step. }
  destruct (current_thread m) as [t|] eqn:Hc; [|by apply Hnot].
  pose proof Hok as [H1 H2 _ _ _]. destruct (H1 c _ (mv_manager _ _ _ Hm)) as [_ _ G3]. destruct (G3 t Hc) as (v & Hv & Hvc).
  destruct (tv_inv _ _ _ Hv) as (th & Hth & ->). wp_step. eapply wp_get_thread; [done|].
  destruct (decide (status th = Running)) as [Hst|Hst];
    [rewrite bool_decide_eq_true_2 by done|rewrite bool_decide_eq_false_2 by done].
  2: { apply Hnot. intros x [= <-] (v' & Hv' & Hs). rewrite Hv in Hv'. injection Hv' as <-. by apply Hst. }
  assert (Hl : lvl (tv k) t = level_of (current_priority th)) by (unfold lvl; by rewrite Hv).
  assert (Hrun : running (tv k) t) by (by exists (view_thread th)).
  do 3 wp_step. eapply wp_mono; [apply (wp_pop_all c m (Some (level_of (current_priority th)))); [done|done| |]|].
  - apply pop_first_better_law.
  - intros p [= <-]. destruct (H2 t _ Hv) as [_ _ _ (m' & Hm' & Hlk & _)]. rewrite Hvc, (mv_manager _ _ _ Hm) in Hm'. by simplify_eq.
  - cbn beta. intros r k' (q' & u' & -> & Hr). do 2 wp_step. destruct r as [n|].
    + eapply wp_mono; [apply (wp_restore_picked c m _ _ _ n) with (1 := Hok) (2 := Hm) (3 := Hr)|].
      { intros x Hx _. rewrite Hc in Hx. injection Hx as <-. by rewrite Hl. }
      cbn beta. intros _ k' Hk. by wp_step.
    + destruct Hr as [Hr1 Hr2]. eapply wp_mono;
        [apply (wp_restore_drained c m _ _ (Some (level_of (current_priority th)))); [done..|by exists t]|].
      cbn beta. intros _ k' Hk. wp_step. by rewrite Hc in Hk.
Qed.

(** ** [SwitchContext] *)

Definition ctx k (t : oid) : option ThreadContext := match objects k !! t with Some (OThread th) => Some (context th) | _ => None end.
Definition cpu_ctx k (c : nat) : option ThreadContext := (fun m => cpu_context (cpu m)) <$> thread_managers k !! c.
(** Steps that neither the scheduler nor the contexts notice. *)
Record quiet k k' : Prop := {
  quiet_sched : sched_eq k k';
  quiet_ctx t : ctx k' t = ctx k t;
  quiet_cpu c : cpu_ctx k' c = cpu_ctx k c;
}.
#[export] Instance quiet_preorder : PreOrder quiet.
Proof.
  split; [by split|]. intros k1 k2 k3 [H1 H2 H3] [K1 K2 K3].
  split; [by etrans|intros t; by rewrite K2|intros c; by rewrite K3].
Qed.

Lemma quiet_memory_op {A} (f : M (MemorySystem D) A) (Q : A -> KernelSystem D IS -> Prop) k :
  wp f (fun a _ => forall k', quiet k k' -> Q a k') (memory k) -> wp (memory_op f) Q k.
Proof. unfold wp, memory_op, zoom. destruct (f (memory k)) as [[a m]|]; [|done]. intros H. apply H. by split. Qed.
Lemma wp_timing_op {A} (f : M (Timing KernelCallback) A) (Q : A -> KernelSystem D IS -> Prop) k :
  wp f (fun a t => Q a (k <| timing := t |>)) (timing k) -> wp (timing_op f) Q k.
Proof. unfold wp, timing_op, zoom. by destruct (f (timing k)) as [[a m]|]. Qed.
Lemma quiet_manager k c m m' : manager_at c m k -> view_manager m' = view_manager m -> cpu_context (cpu m') = cpu_context (cpu m) ->
  quiet k (set_manager c m' k).
Proof.
  intros Hm Hv Hc. split; [by eapply sched_eq_manager|done|].
  intros c'. unfold cpu_ctx, manager_at, set_manager in *. cbn. destruct (decide (c' = c)) as [->|].
  - rewrite list_lookup_insert_eq by (by eapply lookup_lt_Some). rewrite Hm. cbn. by rewrite Hc.
  - by rewrite list_lookup_insert_ne.
Qed.

Lemma wp_UnscheduleEvent type data (Q : unit -> Timing KernelCallback -> Prop) s :
  (forall s', length (timers s') = length (timers s) -> current_timer s' = current_timer s -> Q tt s') -> wp (UnscheduleEvent type data) Q s.
Proof.
  intros HQ. unfold UnscheduleEvent, remove_events. do 2 wp_step. destruct (event_queue_locked s); wp_step; apply HQ; try done.
  cbn. by rewrite length_fmap.
Qed.

Lemma wp_SetCurrentProcess p (Q : unit -> KernelSystem D IS -> Prop) k :
  is_process k p -> (current_cpu k < length (thread_managers k))%nat -> (forall k', quiet k k' -> Q tt k') -> wp (SetCurrentProcess p) Q k.
Proof.
  intros (q & Hq) Hcpu HQ. unfold SetCurrentProcess. do 2 wp_step. wp_step. eapply (wp_get_object _ _ (OProcess q) q); [exact Hq|done|].
  unfold SetCurrentMemoryPageTable. wp_step. apply quiet_memory_op. unfold Memory.SetCurrentPageTable. wp_step. intros k' Hk'. do 2 wp_step.
  destruct (mv k (current_cpu k)) as [mw|] eqn:Hmw; [|unfold mv in Hmw; destruct (lookup_lt_is_Some_2 _ _ Hcpu) as [m Hm]; by rewrite Hm in Hmw].
  assert (Hc : current_cpu k' = current_cpu k) by apply Hk'.
  assert (Hm : mv k' (current_cpu k) = Some mw) by (rewrite (eq_managers _ _ (quiet_sched _ _ Hk')); exact Hmw).
  apply mv_inv in Hm as (m & Hm & ->). rewrite Hc. eapply wp_manager_op; [done|]. wp_step. apply HQ.
  etrans; [|by eapply quiet_manager]. etrans; [|exact Hk']. by split.
Qed.
Lemma wp_SetCurrentProcessForCPU p c m (Q : unit -> KernelSystem D IS -> Prop) k hole :
  sched_hole hole k -> is_process k p -> manager_at c m k -> (forall k', quiet k k' -> Q tt k') -> wp (SetCurrentProcessForCPU p c) Q k.
Proof.
  intros [_ _ _ _ H4 H5 _] Hp Hm HQ. unfold SetCurrentProcessForCPU. do 2 wp_step. case_bool; [by apply wp_SetCurrentProcess|].
  do 2 wp_step. destruct Hp as (q & Hq). wp_step. eapply (wp_get_object _ _ (OProcess q) q); [exact Hq|done|].
  eapply wp_manager_op; [exact Hm|]. wp_step. apply HQ.
  etrans; [|by eapply quiet_manager]. split; try done. split; try done. cbn. by rewrite length_insert.
Qed.

(** The view of a thread with another status. *)
Definition with_status (st : ThreadStatus) (v : tview) : tview :=
  mkView (v_core v) st (v_cur v) (v_nom v) (v_can v) (v_owner v).
Definition is_running (T : oid -> option tview) (t : oid) : bool :=
  match T t with Some v => bool_decide (v_status v = Running) | None => false end.
(** The thread that is running when the switch happens. *)
Definition preempted (T : oid -> option tview) (current : option oid) : option oid :=
  match current with Some t => if is_running T t then Some t else None | None => None end.

Record saved (c : nat) (m : ThreadManager) k k' : Prop := {
  saved_view t : tv k' t = if bool_decide (preempted (tv k) (current_thread m) = Some t) then with_status Ready <$> tv k t else tv k t;
  saved_queue : exists q', mv k' c = Some (mkMView q' (current_thread m) (unscheduled_ready_queue m)) /\
    forall p, level_data q' p = just (tv k) (preempted (tv k) (current_thread m)) p ++ level_data (ready_queue m) p;
  saved_others c' : c' <> c -> mv k' c' = mv k c';
  saved_ctx t : ctx k' t = if bool_decide (current_thread m = Some t) then Some (cpu_context (cpu m)) else ctx k t;
  saved_cpu c' : cpu_ctx k' c' = cpu_ctx k c';
  saved_process o : is_process k o -> is_process k' o;
}.

Lemma ctx_set_thread k t th u : ctx (set_thread t th k) u = if bool_decide (u = t) then Some (context th) else ctx k u.
Proof. unfold ctx, set_thread. cbn. case_bool; [subst; by rewrite lookup_insert_eq|by rewrite lookup_insert_ne]. Qed.
Lemma cpu_ctx_set_queue k c q c' : cpu_ctx (set_queue c q k) c' = cpu_ctx k c'.
Proof.
  unfold cpu_ctx, set_queue. cbn. destruct (decide (c' = c)) as [->|].
  - rewrite list_lookup_alter_eq. by destruct (thread_managers k !! c).
  - by rewrite list_lookup_alter_ne.
Qed.
Lemma mv_set_queue k c m q c' : manager_at c m k ->
  mv (set_queue c q k) c' = if bool_decide (c' = c) then Some (mkMView q (current_thread m) (unscheduled_ready_queue m)) else mv k c'.
Proof. intros Hm. rewrite <- (set_queue_manager _ _ _ _ Hm). by rewrite (mv_set_manager _ _ _ _ _ Hm). Qed.

Lemma wp_timer_ticks c (Q : Z -> KernelSystem D IS -> Prop) k :
  (c < length (timers (timing k)))%nat -> (forall z, Q z k) -> wp (timer_ticks c) Q k.
Proof.
  intros [t Ht]%lookup_lt_is_Some_2 HQ. unfold timer_ticks. do 2 wp_step. wp_step. eapply wp_deref; [done|]. by wp_step.
Qed.

Lemma is_running_view T t v : T t = Some v -> is_running T t = bool_decide (v_status v = Running).
Proof. unfold is_running. by intros ->. Qed.

Lemma wp_save_context c m k hole : sched_hole hole k -> manager_at c m k ->
  (forall t, preempted (tv k) (current_thread m) = Some t -> hole c <> Some t) ->
  wp (save_context c (current_thread m)) (fun _ k' => saved c m k k' /\ sched_hole hole k') k.
Proof.
  intros Hok Hm Hh. unfold save_context. destruct (current_thread m) as [p|] eqn:Hcur.
  2: { wp_step. split; [|done]. split; rewrite ?Hcur; try done. exists (ready_queue m).
    rewrite (mv_manager _ _ _ Hm). unfold view_manager. by rewrite Hcur. }
  pose proof Hok as [H1 _ H3 _ _]. destruct (H1 c _ (mv_manager _ _ _ Hm)) as [_ _ G3]. destruct (G3 p Hcur) as (v & Hv & Hvc).
  destruct (tv_inv _ _ _ Hv) as (th & Hth & ->). cbn in Hvc.
  destruct (sched_thread _ _ _ _ Hok Hth) as (m' & Hm' & Hp & Hn & Hl & Hqv & Hql & _ & He & Hnd).
  rewrite Hvc in Hm', He. assert (m' = m) as -> by (by eapply manager_at_fun).
  wp_step. eapply wp_get_thread; [done|]. wp_step. apply wp_timer_ticks.
  { rewrite H3. by eapply lookup_lt_Some. }
  intros z. wp_step. eapply wp_get_manager; [done|]. wp_step. eapply wp_update_thread; [done|].
  set (th1 := th <| last_running_ticks := z |> <| context := cpu_context (cpu m) |>). wp_step.
  assert (Hpre : preempted (tv k) (current_thread m) = if bool_decide (status th = Running) then Some p else None).
  { unfold preempted. by rewrite Hcur, (is_running_view _ _ _ Hv). }
  destruct (decide (status th = Running)) as [Hst|Hst];
    [rewrite bool_decide_eq_true_2 in Hpre |- * by done|rewrite bool_decide_eq_false_2 in Hpre |- * by done]; wp_step.
  - eapply wp_queue_op; [exact Hm|]. eapply wp_mono; [by apply wp_update_data|]. cbn beta. intros [] q' (F1 & F2 & F3 & F4).
    eapply (wp_update_thread _ th1); [apply thread_at_set; by left|]. rewrite (set_thread_queue _ _ _ _ _ _ _ Hm). wp_step.
    assert (Hnot : forall j, p ∉ level_data (ready_queue m) j).
    { intros j Hj. apply He in Hj as [(v & Hv' & _ & Hs & _) _]. rewrite Hv in Hv'. injection Hv' as <-. cbn in Hs. congruence. }
    split.
    + split; rewrite ?Hpre.
      * intros t. rewrite tv_set_thread. case_eq_dec t p; [by rewrite Hv|done].
      * exists q'. rewrite mv_set_thread, (mv_set_queue _ _ _ _ _ Hm), bool_decide_eq_true_2 by done. split; [done|].
        intros j. rewrite F3. unfold just. cbn. unfold lvl. rewrite Hv. cbn. by case_bool.
      * intros c' Hc'. rewrite mv_set_thread, (mv_set_queue _ _ _ _ _ Hm). by rewrite bool_decide_eq_false_2.
      * intros t. rewrite ctx_set_thread. by case_eq_dec t p.
      * intros c'. exact (cpu_ctx_set_queue _ _ _ _).
      * intros o Ho. by eapply is_process_set_thread.
    + eapply (sched_change hole hole k p th _ c m q'); try done.
      * congruence.
      * intros j u Hu. rewrite F3. case_bool; [|by apply He]. rewrite elem_of_cons, He. naive_solver.
      * intros j. rewrite F3. rewrite <- Hcur in Hh. specialize (Hh p Hpre). specialize (Hnot j). cbn [status current_priority set_field].
        case_bool; [rewrite elem_of_cons; tauto|tauto].
      * intros j. rewrite F3. case_bool; [|done]. by constructor.
      * intros j. by rewrite F2.
      * by apply F2.
  - wp_step. assert (Hs : sched_eq k (set_thread p th1 k)) by (by eapply sched_eq_thread). split; [|by eapply sched_hole_eq].
    split; rewrite ?Hpre; try done.
    + intros t. by rewrite (eq_threads _ _ Hs).
    + exists (ready_queue m). rewrite mv_set_thread, (mv_manager _ _ _ Hm). unfold view_manager. by rewrite Hcur.
    + intros t. rewrite ctx_set_thread. by case_eq_dec t p.
    + intros o Ho. by eapply is_process_set_thread.
Qed.

Lemma sched_set_current h c m next k : sched_hole h k -> manager_at c m k ->
  (forall n, next = Some n -> exists v, tv k n = Some v /\ v_core v = c) ->
  (forall t w, tv k t = Some w -> v_core w = c -> v_status w <> Running) ->
  sched_hole h (set_manager c (m <| current_thread := next |>) k).
Proof.
  intros [H1 H2 H3 H4 H5 H6 H7] Hm Hn Hidle. pose proof (mv_manager _ _ _ Hm) as Hmvc. split.
  - intros c' m'. rewrite (mv_set_manager _ _ _ m) by done. destruct (decide (c' = c)) as [->|Hne].
    + rewrite bool_decide_eq_true_2 by done. intros [= <-]. destruct (H1 c _ Hmvc) as [G1 G2 G3]. split; [exact G1|exact G2|exact Hn].
    + rewrite bool_decide_eq_false_2 by done. intros Hm'. by apply H1.
  - intros t w Hw. rewrite tv_set_manager in Hw. destruct (H2 t w Hw) as [G1 G2 G3 (m' & Hm' & Hl & Hr)]. split; [done..|].
    rewrite (mv_set_manager _ _ _ m) by done. destruct (decide (v_core w = c)) as [Hwc|Hne].
    + rewrite bool_decide_eq_true_2 by done. eexists. split; [done|]. rewrite Hwc, Hmvc in Hm'. injection Hm' as <-. split; [exact Hl|].
      intros Hrun. by destruct (Hidle t w Hw Hwc).
    + rewrite bool_decide_eq_false_2 by done. by exists m'.
  - cbn. by rewrite length_insert.
  - cbn. by rewrite length_insert.
  - cbn. by rewrite length_insert.
  - cbn. by rewrite length_insert.
  - exact H7.
Qed.

(** What [load_context] leaves. *)
Record loaded (c : nat) (m : ThreadManager) (n : oid) k k' : Prop := {
  loaded_view t : tv k' t = if bool_decide (t = n) then with_status Running <$> tv k t else tv k t;
  loaded_queue : exists q', mv k' c = Some (mkMView q' (Some n) (unscheduled_ready_queue m)) /\
    forall p, level_data q' p = filter (fun t => t <> n) (level_data (ready_queue m) p);
  loaded_others c' : c' <> c -> mv k' c' = mv k c';
  loaded_ctx t : ctx k' t = ctx k t;
  loaded_cpu c' : cpu_ctx k' c' = if bool_decide (c' = c) then ctx k n else cpu_ctx k c';
}.

Lemma filter_Forall (P : oid -> Prop) `{!forall x, Decision (P x)} l : Forall P l -> filter P l = l.
Proof. induction 1 as [|x l Hx _ IH]; [done|]. by rewrite filter_cons, decide_True, IH. Qed.
(** Taking the next thread out of the queue to run it. *)
Lemma sched_start c m n th o k : sched_hole (fun c' => if bool_decide (c' = c) then o else None) k -> (o = None \/ o = Some n) ->
  manager_at c m k -> current_thread m = Some n -> thread_at n th k -> core_id th = c ->
  wp (remove (level_of (current_priority th)) n) (fun _ q' => linked q' (level_of (current_priority th)) /\
    (forall p, level_data q' p = filter (fun t => t <> n) (level_data (ready_queue m) p)) /\
    sched_ok (set_thread n (th <| status := Running |>) (set_queue c q' k))) (ready_queue m).
Proof.
  intros Hok Ho Hm Hcur Hth Hc. destruct (sched_thread _ _ _ _ Hok Hth) as (m' & Hm' & Hp & Hn & Hl & Hqv & Hql & _ & He & Hnd).
  rewrite Hc in Hm', He. assert (m' = m) as -> by (by eapply manager_at_fun).
  eapply wp_mono; [apply wp_remove; [done|]; rewrite Hql; by apply level_of_lt|]. cbn beta. intros [] q' (F1 & F2 & F3 & F4).
  assert (Hdata : forall j, level_data q' j = filter (fun t => t <> n) (level_data (ready_queue m) j)).
  { intros j. rewrite F3. case_bool; [done|]. symmetry. apply filter_Forall. apply Forall_forall. intros t Ht ->.
    apply He in Ht as [(v & Hv & _ & _ & Hj) _]. rewrite (tv_thread _ _ _ Hth) in Hv. injection Hv as <-. by cbn in Hj. }
  split; [by apply F2|]. split; [done|]. eapply (sched_change _ no_hole k n th _ c m q'); try done.
  - intros c' Hc'. cbn. by rewrite bool_decide_eq_false_2.
  - congruence.
  - intros j t Ht. rewrite Hdata, list_elem_of_filter, He. cbn. rewrite bool_decide_eq_true_2 by done. naive_solver.
  - intros j. rewrite Hdata, list_elem_of_filter. naive_solver.
  - intros j. rewrite Hdata. by apply NoDup_filter.
  - intros j. by rewrite F2.
  - by apply F2.
Qed.

Lemma wp_load_context c m n o k : manager_at c m k -> ready_in (tv k) c n (lvl (tv k) n) ->
  sched_hole (fun c' => if bool_decide (c' = c) then o else None) k -> (o = None \/ o = Some n) ->
  (forall t w, tv k t = Some w -> v_core w = c -> v_status w <> Running) ->
  forall prev, wp (load_context c prev n) (fun _ k' => loaded c m n k k' /\ sched_ok k') k.
Proof.
  intros Hm (v & Hv & Hc & Hst & _) Hok Ho Hidle prev. destruct (tv_inv _ _ _ Hv) as (th & Hth & ->). cbn in Hc, Hst.
  unfold load_context. wp_step. eapply wp_get_thread; [done|]. wp_step. wp_step; [by rewrite bool_decide_eq_true_2|].
  wp_step. eapply wp_get_manager; [done|]. wp_step. apply wp_timing_op. apply wp_UnscheduleEvent. intros s' Hs' Hcur'.
  set (k1 := k <| timing := s' |>). assert (Hk1 : quiet k k1) by (by split). wp_step. eapply wp_manager_op; [exact Hm|]. wp_step.
  set (m2 := m <| current_thread := Some n |>). set (k2 := set_manager c m2 k1).
  assert (Hok2 : sched_hole (fun c' => if bool_decide (c' = c) then o else None) k2).
  { eapply sched_set_current; try done; [by eapply sched_hole_eq; [apply Hk1|]|]. intros x [= <-]. by exists (view_thread th). }
  assert (Hm2 : manager_at c m2 k2) by (by eapply (manager_at_self c m2 m k1)).
  assert (Hth2 : thread_at n th k2) by done.
  wp_step. eapply wp_queue_op; [exact Hm2|]. eapply wp_mono; [by apply (sched_start c m2 n th o k2)|].
  cbn beta. intros [] q' (F1 & Hdata & Hok3). wp_step. eapply wp_update_thread; [exact Hth2|]. rewrite (set_queue_manager _ _ _ _ Hm2).
  destruct Hok as [_ H2 _ _ _ _ _]. destruct (H2 n _ Hv) as [_ _ (p & Hop & Hpp) _]. cbn in Hop.
  wp_step. rewrite Hop. wp_step; [done|]. wp_step. eapply wp_deref; [done|].
  set (k3 := set_thread n (th <| status := Running |>) (set_queue c q' k2)) in *.
  assert (Hm3 : manager_at c (m2 <| ready_queue := q' |>) k3).
  { unfold k3. rewrite <- (set_queue_manager _ _ _ _ Hm2). by eapply (manager_at_self c _ m2 k2). }
  assert (Hquiet : forall (Q : unit -> KernelSystem D IS -> Prop), (forall k', quiet k3 k' -> Q tt k') ->
    wp (if negb (bool_decide (prev = Some p)) then SetCurrentProcessForCPU p c else mret tt) Q k3).
  { intros Q HQ. destruct (negb _); [|by apply wp_ret, HQ]. eapply wp_SetCurrentProcessForCPU; [exact Hok3| |exact Hm3|done].
    eapply is_process_set_thread; [exact Hth2|exact Hpp]. }
  wp_step. apply Hquiet. intros k4 Hk4. pose proof (eq_managers _ _ (quiet_sched _ _ Hk4) c) as Hmv4. rewrite (mv_manager _ _ _ Hm3) in Hmv4.
  destruct (mv_inv _ _ _ Hmv4) as (m4 & Hm4 & Heq). eapply wp_manager_op; [exact Hm4|]. wp_step.
  set (m5 := m4 <| cpu ::= _ |>). assert (Hs5 : sched_eq k4 (set_manager c m5 k4)) by (by eapply sched_eq_manager).
  assert (Hctx : forall t, ctx k3 t = ctx k t).
  { intros t. unfold k3. rewrite ctx_set_thread. case_eq_dec t n; [|done]. unfold ctx. by rewrite Hth. }
  split; [|eapply sched_hole_eq; [exact Hs5|]; eapply sched_hole_eq; [apply Hk4|done]].
  split.
  - intros t. rewrite (eq_threads _ _ Hs5), (eq_threads _ _ (quiet_sched _ _ Hk4)). unfold k3. rewrite tv_set_thread.
    case_eq_dec t n; [by rewrite Hv|done].
  - exists q'. rewrite (eq_managers _ _ Hs5). split; [exact Hmv4|exact Hdata].
  - intros c' Hc'. rewrite (eq_managers _ _ Hs5), (eq_managers _ _ (quiet_sched _ _ Hk4)). unfold k3.
    rewrite mv_set_thread, (mv_set_queue _ _ _ _ _ Hm2), bool_decide_eq_false_2 by done. unfold k2.
    by rewrite (mv_set_manager _ _ _ m), bool_decide_eq_false_2.
  - intros t. change (ctx (set_manager c m5 k4) t) with (ctx k4 t). by rewrite (quiet_ctx _ _ Hk4).
  - intros c'. unfold cpu_ctx at 1, set_manager. cbn. case_eq_dec c' c.
    + rewrite list_lookup_insert_eq by (by eapply lookup_lt_Some). cbn. unfold ctx. by rewrite Hth.
    + rewrite list_lookup_insert_ne by done. change (cpu_ctx k4 c' = cpu_ctx k c'). rewrite (quiet_cpu _ _ Hk4).
      unfold k3. change (cpu_ctx (set_queue c q' k2) c' = cpu_ctx k c'). rewrite cpu_ctx_set_queue.
      unfold cpu_ctx, k2, set_manager. cbn. by rewrite list_lookup_insert_ne.
Qed.

(** A whole switch, from a state where [o] was taken out of the queue. *)
Record switched (c : nat) (m : ThreadManager) (next : option oid) k k' : Prop := {
  switched_view t : tv k' t =
    if bool_decide (next = Some t) then with_status Running <$> tv k t
    else if bool_decide (preempted (tv k) (current_thread m) = Some t) then with_status Ready <$> tv k t else tv k t;
  switched_queue : exists q', mv k' c = Some (mkMView q' next (unscheduled_ready_queue m)) /\
    forall p, level_data q' p =
      filter (fun t => next <> Some t) (just (tv k) (preempted (tv k) (current_thread m)) p ++ level_data (ready_queue m) p);
  switched_others c' : c' <> c -> mv k' c' = mv k c';
  switched_ctx t : ctx k' t = if bool_decide (current_thread m = Some t) then Some (cpu_context (cpu m)) else ctx k t;
  switched_cpu c' : cpu_ctx k' c' = if bool_decide (c' = c) then match next with Some n => ctx k' n | None => Some (cpu_context (cpu m)) end else cpu_ctx k c';
}.

Lemma sched_hole_ext h h' k : (forall c, h c = h' c) -> sched_hole h k -> sched_hole h' k.
Proof.
  intros Hh [H1 H2 H3 H4 H5 H6 H7]. split; try done. intros c m Hm. destruct (H1 c m Hm) as [[G1 G2 G3 G4] G5 G6]. split; [|done|done].
  split; try done. by rewrite <- Hh.
Qed.

(** What a switch needs: the next thread is ready, or it is the running one. *)
Record switchable (c : nat) (m : ThreadManager) (next o : option oid) k : Prop := {
  switchable_hole : o = None \/ exists n, o = Some n /\ next = Some n /\ ready_in (tv k) c n (lvl (tv k) n);
  switchable_next n : next = Some n -> ready_in (tv k) c n (lvl (tv k) n) \/ (current_thread m = Some n /\ is_running (tv k) n = true);
  switchable_ok : sched_hole (fun c' => if bool_decide (c' = c) then o else None) k;
}.
Lemma preempted_running k c m t h : sched_hole h k -> manager_at c m k -> preempted (tv k) (current_thread m) = Some t ->
  current_thread m = Some t /\ exists v, tv k t = Some v /\ v_core v = c /\ v_status v = Running.
Proof.
  intros [H1 _ _ _ _] Hm. unfold preempted. destruct (current_thread m) as [p|] eqn:Hp; [|done].
  destruct (H1 c _ (mv_manager _ _ _ Hm)) as [_ _ G]. destruct (G p Hp) as (v & Hv & Hc). rewrite (is_running_view _ _ _ Hv).
  case_bool; [|done]. intros [= <-]. split; [done|]. by exists v.
Qed.
Lemma running_preempted k c m t v h : sched_hole h k -> manager_at c m k -> tv k t = Some v -> v_core v = c -> v_status v = Running ->
  preempted (tv k) (current_thread m) = Some t.
Proof.
  intros [_ H2 _ _ _] Hm Hv Hc Hr. destruct (H2 t v Hv) as [_ _ _ (m' & Hm' & _ & Hcur)]. rewrite Hc, (mv_manager _ _ _ Hm) in Hm'.
  injection Hm' as <-. specialize (Hcur Hr). cbn in Hcur. unfold preempted. rewrite Hcur, (is_running_view _ _ _ Hv). by rewrite bool_decide_eq_true_2.
Qed.

Lemma wp_SwitchContext c m next o k : manager_at c m k -> switchable c m next o k ->
  wp (SwitchContext c next) (fun _ k' => switched c m next k k' /\ sched_ok k') k.
Proof.
  intros Hm [Ho Hnext Hok]. unfold SwitchContext, GetCurrentThread. do 2 wp_step. eapply wp_get_manager; [done|]. do 2 wp_step.
  eapply wp_mono; [apply (wp_save_context c m k _ Hok Hm)|].
  { intros t Ht. cbn beta. rewrite bool_decide_eq_true_2 by done. destruct (preempted_running _ _ _ _ _ Hok Hm Ht) as (_ & v & Hv & _ & Hr).
    destruct Ho as [->|(n & -> & _ & (v' & Hv' & _ & Hs & _))]; [done|]. intros [= ->]. congruence. }
  cbn beta. intros prev k1 [[S1 (q1 & Sm & Sq) S2 S3 S4 S5] Hok1]. destruct (mv_inv _ _ _ Sm) as (m1 & Hm1 & Hv1). injection Hv1 as -> Hcur1 Has1.
  assert (Hidle : forall t w, tv k1 t = Some w -> v_core w = c -> v_status w <> Running).
  { intros t w. rewrite S1. case_bool; [by destruct (tv k t) as [v|]; [intros [= <-]|]|].
    intros Hw Hc Hr. by rewrite (running_preempted _ _ _ _ _ _ Hok Hm Hw Hc Hr) in n. }
  destruct next as [n|].
  - assert (Hl : lvl (tv k1) n = lvl (tv k) n) by (unfold lvl; rewrite S1; case_bool; [|done]; by destruct (tv k n)).
    assert (Hr : ready_in (tv k1) c n (lvl (tv k1) n)).
    { rewrite Hl. unfold ready_in. rewrite S1. case_bool.
      - destruct (preempted_running _ _ _ _ _ Hok Hm e) as (_ & v & Hv & Hc & _). exists (with_status Ready v). unfold lvl. by rewrite Hv.
      - destruct (Hnext n eq_refl) as [Hr|[Hc Hr]]; [exact Hr|]. exfalso. apply n0. unfold preempted. by rewrite Hc, Hr. }
    eapply wp_mono; [apply (wp_load_context c m1 n o k1 Hm1 Hr Hok1)|]; [naive_solver|done|].
    cbn beta. intros _ k' [[L1 (q' & Lm & Lq) L2 L3 L4] Hok']. split; [|done]. split.
    + intros t. rewrite L1, S1. case_eq_dec t n; [|done]. case_bool; [|done]. by destruct (tv k n).
    + exists q'. split; [by rewrite Lm, Has1|]. intros p. rewrite Lq, Sq. apply list_filter_iff. intros t. naive_solver.
    + intros c' Hc'. by rewrite L2, S2.
    + intros t. by rewrite L3, S3.
    + intros c'. rewrite L4, L3. case_bool; [done|apply S4].
  - destruct Ho as [->|(n & _ & ? & _)]; [|done]. eapply wp_manager_op; [exact Hm1|]. wp_step.
    set (k2 := set_manager c (m1 <| current_thread := None |>) k1).
    assert (Hmv : forall c', mv k2 c' = if bool_decide (c' = c) then Some (mkMView (ready_queue m1) None (unscheduled_ready_queue m1)) else mv k1 c').
    { intros c'. unfold k2. by rewrite (mv_set_manager _ _ _ m1). }
    split.
    + split; try done.
      * exists (ready_queue m1). rewrite Hmv, bool_decide_eq_true_2 by done. split; [by rewrite Has1|]. intros p. rewrite Sq.
        symmetry. apply filter_Forall. by apply Forall_forall.
      * intros c' Hc'. by rewrite Hmv, bool_decide_eq_false_2, S2.
      * intros c'. unfold cpu_ctx at 1, k2, set_manager. cbn. case_eq_dec c' c.
        -- rewrite list_lookup_insert_eq by (by eapply lookup_lt_Some). cbn. specialize (S4 c). unfold cpu_ctx in S4.
           by rewrite Hm1, Hm in S4.
        -- rewrite list_lookup_insert_ne by done. apply S4.
    + eapply sched_hole_ext; [|eapply sched_set_current; [exact Hok1|exact Hm1|done|exact Hidle]]. intros c'. cbn. by case_bool.
Qed.

(** ** [Reschedule] *)

(** The thread that runs next, and what is left of the queue: only barred threads
    change places, to behind the others of their level. *)
Record rescheduled (c : nat) (m : ThreadManager) (next : option oid) k k' : Prop := {
  re_chosen : chosen (tv k) (ready_queue m) (current_thread m) next;
  re_view t : tv k' t =
    if bool_decide (next = Some t) then with_status Running <$> tv k t
    else if bool_decide (preempted (tv k) (current_thread m) = Some t) then with_status Ready <$> tv k t else tv k t;
  re_queue : exists q', mv k' c = Some (mkMView q' next []) /\
    forall p, exists rest, rest ≡ₚ filter (fun t => next <> Some t) (level_data (ready_queue m) p) /\
      level_data q' p = filter (fun t => next <> Some t) (just (tv k) (preempted (tv k) (current_thread m)) p) ++ rest;
  re_others c' : c' <> c -> mv k' c' = mv k c';
  re_ctx t : ctx k' t = if bool_decide (current_thread m = Some t) then Some (cpu_context (cpu m)) else ctx k t;
  re_cpu : cpu_ctx k' c = match next with Some n => ctx k' n | None => Some (cpu_context (cpu m)) end;
}.
Lemma popped_switchable c m next q h k : sched_ok k -> manager_at c m k -> popped c m k next q h ->
  switchable c (m <| ready_queue := q |>) next h (set_queue c q k).
Proof.
  intros Hok Hm [P1 P2 P3 P4]. destruct (sched_queue _ _ _ Hok Hm) as (_ & _ & _ & Q4 & _ & _). split; [| |exact P4].
  - destruct P2 as [[-> _]|(-> & n & -> & Hn)]; [by left|]. right. exists n. split_and!; [done..|]. by apply Q4.
  - intros n ->. destruct P1 as [(Hc & (v & Hv & Hr) & _)|(_ & (pre & post & Heq & _) & _)].
    + right. split; [done|]. change (is_running (tv k) n = true). rewrite (is_running_view _ _ _ Hv). by rewrite bool_decide_eq_true_2.
    + left. apply Q4. change (tv (set_queue c q k)) with (tv k). rewrite Heq. apply elem_of_app. right. by left.
Qed.
Lemma popped_rest c m next q h k p : popped c m k next q h ->
  filter (fun t => next <> Some t) (level_data q p) ≡ₚ filter (fun t => next <> Some t) (level_data (ready_queue m) p).
Proof.
  intros [_ P2 P3 _]. rewrite P3, filter_app. assert (filter (fun t => next <> Some t) (just (tv k) h p) = []) as ->; [|done].
  destruct P2 as [[-> _]|(-> & n & -> & _)]; [done|]. unfold just. cbn. case_bool; [|done].
  rewrite filter_cons, filter_nil. by rewrite decide_False by (intros H; by apply H).
Qed.
Lemma rescheduled_switch c m next q h k k' : sched_ok k -> manager_at c m k -> popped c m k next q h ->
  switched c (m <| ready_queue := q |>) next (set_queue c q k) k' -> rescheduled c m next k k'.
Proof.
  intros Hok Hm Hp [S1 (q' & S2 & S3) S4 S5 S6]. destruct (sched_queue _ _ _ Hok Hm) as (_ & _ & Q3 & _ & _ & _). split; [apply Hp|exact S1| | |exact S5|].
  - exists q'. split; [rewrite S2; cbn; by rewrite Q3|]. intros p. eexists. split; [by eapply popped_rest|]. by rewrite S3, filter_app.
  - intros c' Hc'. rewrite S4 by done. by rewrite (mv_set_queue _ _ _ _ _ Hm), bool_decide_eq_false_2.
  - rewrite S6. by rewrite bool_decide_eq_true_2.
Qed.
Lemma rescheduled_idle c m q h k : sched_ok k -> manager_at c m k -> current_thread m = None -> popped c m k None q h ->
  sched_ok (set_queue c q k) /\ rescheduled c m None k (set_queue c q k).
Proof.
  intros Hok Hm Hcur Hp. pose proof Hp as [P1 P2 P3 P4]. destruct (sched_queue _ _ _ Hok Hm) as (_ & _ & Q3 & _ & _ & _). split.
  { eapply sched_hole_ext; [|exact P4]. intros c'. cbn. case_bool; [|done]. by destruct P2 as [[-> _]|[-> _]]. }
  split; [exact P1| | | | |]; rewrite ?Hcur; try done.
  - exists q. rewrite (mv_set_queue _ _ _ _ _ Hm), bool_decide_eq_true_2 by done. split; [by rewrite Hcur, Q3|]. intros p.
    exists (level_data q p). split; [|done]. rewrite <- (popped_rest c m None q h k p Hp). rewrite filter_Forall; [done|]. by apply Forall_forall.
  - intros c' Hc'. by rewrite (mv_set_queue _ _ _ _ _ Hm), bool_decide_eq_false_2.
  - rewrite cpu_ctx_set_queue. unfold cpu_ctx. by rewrite Hm.
Qed.

Lemma wp_Reschedule c m k : sched_ok k -> manager_at c m k ->
  wp (Reschedule c) (fun _ k' => sched_ok k' /\ exists next, rescheduled c m next k k') k.
Proof.
  intros Hok Hm. unfold Reschedule, GetCurrentThread. do 2 wp_step. eapply wp_get_manager; [done|]. do 2 wp_step.
  eapply wp_mono; [by apply wp_PopNextReadyThread|]. cbn beta. intros next k1 (q1 & h & -> & Hp).
  assert (Hm1 : manager_at c (m <| ready_queue := q1 |>) (set_queue c q1 k)).
  { rewrite <- (set_queue_manager _ _ _ _ Hm). by eapply manager_at_self. }
  assert (Hswitch : wp (SwitchContext c next) (fun _ k' => sched_ok k' /\ exists next, rescheduled c m next k k') (set_queue c q1 k)).
  { eapply wp_mono; [eapply wp_SwitchContext; [exact Hm1|by apply popped_switchable]|].
    cbn beta. intros _ k' [Hk' Hok']. split; [done|]. exists next. by eapply rescheduled_switch. }
  destruct (current_thread m) as [cur|] eqn:Hcur; [exact Hswitch|]. destruct next as [n|]; [exact Hswitch|].
  wp_step. destruct (rescheduled_idle c m q1 h k Hok Hm Hcur Hp) as [H1 H2]. split; [exact H1|]. by exists None.
Qed.
End Reschedule.

(** ** Properties *)

(** C11: [Reschedule] never fails in a valid kernel state, whatever the content of
    the ready queue, and keeps the state valid. The thread that runs next is the
    oldest of the schedulable threads of the best priority; a thread that is still
    running gives way only to a strictly better priority, and then goes to the
    front of its level; the core idles only when nothing can be scheduled. No
    other thread and no other core changes, the registers of the previous thread
    are saved and those of the next are loaded. *)
Theorem Reschedule_spec {D IS} c m (k : KernelSystem D IS) : sched_ok k -> manager_at c m k ->
  wp (Reschedule c) (fun _ k' => sched_ok k' /\ exists next, rescheduled c m next k k') k.
Proof. apply wp_Reschedule. Qed.

(** What changes the scheduling, as steps. *)
Inductive sched_op := SetPriorityOp (t : oid) (p : Z) | BoostPriorityOp (t : oid) (p : Z) | ResumeOp (t : oid) | RescheduleOp (c : nat).
Definition exec_op {D IS} (o : sched_op) : M (KernelSystem D IS) unit :=
  match o with
  | SetPriorityOp t p => SetPriority t p
  | BoostPriorityOp t p => BoostPriority t p
  | ResumeOp t => ResumeFromWait t
  | RescheduleOp c => Reschedule c
  end.
Definition allowed_op {D IS} (o : sched_op) (k : KernelSystem D IS) : Prop :=
  match o with
  | SetPriorityOp t p | BoostPriorityOp t p => prio_ok p /\ exists th, thread_at t th k
  | ResumeOp t => exists th, thread_at t th k /\ wait_objects th = [] /\ (status th = Ready -> wakeup_callback th = None)
  | RescheduleOp c => exists m, manager_at c m k
  end.
(** The states the steps lead to. *)
Inductive reaches {D IS} : KernelSystem D IS -> KernelSystem D IS -> Prop :=
  | reaches_refl k : reaches k k
  | reaches_step o k1 k2 k3 : allowed_op o k1 -> exec_op o k1 = Ret (tt, k2) -> reaches k2 k3 -> reaches k1 k3.

Lemma wp_exec_op {D IS} o (k : KernelSystem D IS) : sched_ok k -> allowed_op o k -> wp (exec_op o) (fun _ k' => sched_ok k') k.
Proof.
  intros Hok. destruct o as [t p|t p|t|c]; cbn.
  - intros [Hp [th Hth]]. eapply wp_SetPriority; eauto.
  - intros [Hp [th Hth]]. eapply wp_BoostPriority; eauto.
  - intros (th & Hth & Hw & Hcb). eapply wp_ResumeFromWait; eauto.
  - intros [m Hm]. eapply wp_mono; [by eapply wp_Reschedule|]. by intros [] k' [? _].
Qed.

(** However the priorities change, threads are woken up and cores rescheduled,
    the ready queue of every core holds exactly the ready threads of the core, each
    once, at the level of its current priority, and only the current thread of a
    core is running; and no such step fails. *)
Theorem sched_steps_ok {D IS} (k k' : KernelSystem D IS) o : sched_ok k -> reaches k k' -> allowed_op o k' ->
  sched_ok k' /\ exists k'', exec_op o k' = Ret (tt, k'') /\ sched_ok k''.
Proof.
  intros Hk Hr Ho. assert (Hk' : sched_ok k').
  { clear Ho. induction Hr as [|o' k1 k2 k3 Ha He _ IH]; [done|]. apply IH.
    pose proof (wp_exec_op o' k1 Hk Ha) as Hw. unfold wp in Hw. by rewrite He in Hw. }
  split; [done|]. destruct (wp_inv _ _ _ (wp_exec_op o k' Hk' Ho)) as ([] & k'' & H1 & H2). by exists k''.
Qed.

(** ** Witnesses *)

Lemma demo_running_10 : running (tv demo_kernel) 10.
Proof. unfold running. rewrite demo_tv. by eexists. Qed.
Lemma demo_can_run_12 : can_run (tv demo_kernel) 12.
Proof. unfold can_run. rewrite demo_tv. by eexists. Qed.
Lemma demo_chosen next : chosen (tv demo_kernel) demo_queue (Some 10) next -> next = Some 12.
Proof.
  assert (H40 : ~ Forall (barred (tv demo_kernel)) (level_data demo_queue 40)).
  { rewrite demo_level. cbn. intros H. assert (Hb : barred (tv demo_kernel) 12) by (rewrite Forall_forall in H; apply H; set_solver).
    exact (barred_not_run _ _ Hb demo_can_run_12). }
  destruct next as [n|]; [|intros [H _]; by destruct (H40 (H 40%nat))].
  intros [([= <-] & _ & H)|(Hc & (pre & post & Heq & Hp) & _)].
  { destruct H40. apply H. unfold lvl. rewrite demo_tv. change (40 < 50)%nat. lia. }
  revert Heq. rewrite demo_level. case_bool; [|by destruct pre]. intros Heq. f_equal.
  destruct pre as [|x [|y pre]]; simplify_eq/=; [|done|by destruct pre].
  exfalso. destruct Hc as (v & Hv & Hc).
  assert (tv demo_kernel 11 = Some (mkView 0 Ready 40 40 false (Some 1))) as E by (by rewrite demo_tv).
  rewrite E in Hv. by injection Hv as <-.
Qed.

Lemma Reschedule_spec_witness : exists k', Reschedule 0 demo_kernel = Ret (tt, k') /\ sched_ok k' /\
  (v_current <$> mv k' 0 = Some (Some 12)) /\ v_status <$> tv k' 10 = Some Ready.
Proof.
  destruct (wp_inv _ _ _ (Reschedule_spec 0 demo_manager demo_kernel demo_kernel_ok eq_refl)) as ([] & k' & He & Hok & next & [R1 R2 (q' & R3 & _) _ _ _]).
  apply demo_chosen in R1. subst next. exists k'. split; [exact He|]. split; [exact Hok|]. rewrite R3, R2. split; [done|].
  unfold preempted. cbn. rewrite (is_running_view _ _ (mkView 0 Running 50 50 true (Some 1))) by (by rewrite demo_tv). cbn.
  by rewrite demo_tv.
Defined.

Lemma sched_steps_ok_witness : exists k', exec_op (SetPriorityOp 13 20) demo_kernel = Ret (tt, k') /\ sched_ok k'.
Proof.
  apply (sched_steps_ok demo_kernel demo_kernel (SetPriorityOp 13 20) demo_kernel_ok (reaches_refl _)).
  split; [unfold prio_ok, ThreadPrioLowest; lia|]. by eexists.
Defined.
