(* ===== verification/WaitObject.v ===== *)
(** Objects threads wait for (src/.../core/hle/kernel/wait_object.{h,cpp}, mutex.cpp,
    semaphore.cpp, event.cpp, timer.cpp and the wait parts of thread.cpp,
    server_port.cpp and server_session.cpp): waiting, acquiring and waking up. A
    virtual call is a match on the class of the object. *)

From S2P Require Import Prelude ResultCode MemoryMap ThreadQueueList HandleTable ResourceLimit IntervalSet MemoryRegion Memory VmManager CoreTiming KernelState Thread.

(** What the kernel calls back into: the IPC copy of svcReplyAndReceive, the wake-up
    callbacks of services and the notifiers they register. *)
Class Hooks (D IS : Type) := {
  ReceiveIPCRequest : forall (server_session thread : oid), M (KernelSystem D IS) result_code;
  wake_service : forall (callback : Z) (reason : ThreadWakeupReason) (thread : oid) (object : option oid), M (KernelSystem D IS) unit;
  notify : forall (notifier : Z), M (KernelSystem D IS) unit;
}.

Section WaitObject.
Context {D IS : Type} {hooks : Hooks D IS}.
Abbreviation M := (M (KernelSystem D IS)).
Implicit Types (k : KernelSystem D IS).

Definition get_any (this : oid) : M Object := k ← get; deref (objects k !! this).
Definition update_semaphore : oid -> (Semaphore -> Semaphore) -> M unit := update_object as_semaphore OSemaphore.
Definition update_event : oid -> (EventObject -> EventObject) -> M unit := update_object as_event OEvent.
Definition update_timer : oid -> (TimerObject -> TimerObject) -> M unit := update_object as_timer OTimer.
Definition update_server_session : oid -> (ServerSession -> ServerSession) -> M unit := update_object as_server_session OServerSession.

(** ** Waiting *)

(** [WaitObject::ShouldWait] of every class *)
Definition ShouldWait (this thread : oid) : M bool :=
  x ← get_any this;
  match x with
  | OThread t => mret (negb (bool_decide (status t = Dead)))
  | OMutex m => mret ((0 <? lock_count m) && negb (bool_decide (holding_thread m = Some thread)))
  | OSemaphore s => mret (available_count s <=? 0)
  | OEvent e => mret (negb (event_signaled e))
  | OTimer t => mret (negb (timer_signaled t))
  | OServerPort p => mret (bool_decide (pending_sessions p = []))
  | OServerSession s =>
      parent ← get_object as_session (server_parent s);
      if bool_decide (client parent = None) then mret false
      else mret (bool_decide (pending_requesting_threads s = []) || negb (bool_decide (currently_handling s = None)))
  | _ => crash UndefinedBehaviour
  end.

(** [Mutex::UpdatePriority] *)
Fixpoint best_waiter (waiters : list oid) (best : Z) : M Z :=
  match waiters with
  | [] => mret best
  | w :: rest => th ← get_thread w; best_waiter rest (if current_priority th <? best then current_priority th else best)
  end.
Definition Mutex_UpdatePriority (this : oid) : M unit :=
  m ← get_mutex this;
  match holding_thread m with
  | None => mret tt
  | Some holder =>
      k ← get;
      best ← best_waiter (waiting_threads (wait_base this k)) ThreadPrioLowest;
      if best =? priority m then mret tt
      else update_mutex this (fun m => m <| priority := best |>);; UpdatePriority holder
  end.

(** [Mutex::Acquire]; the [int] counter wraps. *)
Definition Mutex_Acquire (this thread : oid) : M unit :=
  w ← ShouldWait this thread;
  ASSERT (negb w);;
  m ← get_mutex this;
  (if lock_count m =? 0 then
    th ← get_thread thread;
    update_mutex this (fun m => m <| priority := current_priority th |>);;
    update_thread thread (fun th => th <| held_mutexes ::= flat_insert this |>);;
    update_mutex this (fun m => m <| holding_thread := Some thread |>);;
    UpdatePriority thread;;
    PrepareReschedule
  else mret tt);;
  update_mutex this (fun m => m <| lock_count ::= fun n => s32 (n + 1) |>).

(** [WaitObject::Acquire] of every class *)
Definition Acquire (this thread : oid) : M unit :=
  x ← get_any this;
  let available := w ← ShouldWait this thread; ASSERT (negb w) in
  match x with
  | OThread _ | OServerPort _ => available
  | OMutex _ => Mutex_Acquire this thread
  | OSemaphore s => if available_count s <=? 0 then mret tt else update_semaphore this (fun s => s <| available_count ::= fun n => n - 1 |>)
  | OEvent e =>
      available;;
      if bool_decide (event_reset_type e = OneShot) then update_event this (fun e => e <| event_signaled := false |>) else mret tt
  | OTimer t =>
      available;;
      if bool_decide (timer_reset_type t = OneShot) then update_timer this (fun t => t <| timer_signaled := false |>) else mret tt
  | OServerSession s =>
      available;;
      parent ← get_object as_session (server_parent s);
      if bool_decide (client parent = None) then mret tt
      else
        ASSERT (negb (bool_decide (pending_requesting_threads s = [])));;
        next ← deref (last (pending_requesting_threads s));
        update_server_session this (fun s =>
          s <| currently_handling := Some next |> <| pending_requesting_threads ::= @removelast _ |>)
  | _ => crash UndefinedBehaviour
  end.

(** [WaitObject::AddWaitingThread] and [RemoveWaitingThread], which [Mutex] overrides *)
Definition add_waiter (thread : oid) (l : list oid) : list oid := if bool_decide (thread ∈ l) then l else l ++ [thread].
Fixpoint remove_waiter (thread : oid) (l : list oid) : list oid :=
  match l with [] => [] | t :: l' => if bool_decide (t = thread) then l' else t :: remove_waiter thread l' end.
Definition AddWaitingThread (this thread : oid) : M unit :=
  x ← get_any this;
  update_wait_base this (fun w => w <| waiting_threads ::= add_waiter thread |>);;
  match x with
  | OMutex _ => update_thread thread (fun th => th <| pending_mutexes ::= flat_insert this |>);; Mutex_UpdatePriority this
  | _ => if IsWaitable x then mret tt else crash UndefinedBehaviour
  end.
Definition RemoveWaitingThread (this thread : oid) : M unit :=
  x ← get_any this;
  update_wait_base this (fun w => w <| waiting_threads ::= remove_waiter thread |>);;
  match x with
  | OMutex _ => update_thread thread (fun th => th <| pending_mutexes ::= flat_erase this |>);; Mutex_UpdatePriority this
  | _ => if IsWaitable x then mret tt else crash UndefinedBehaviour
  end.

(** ** Waking up *)

(** [std::none_of] over [ShouldWait] *)
Fixpoint none_should_wait (objs : list oid) (thread : oid) : M bool :=
  match objs with
  | [] => mret true
  | o :: rest => w ← ShouldWait o thread; if (w : bool) then mret false else none_should_wait rest thread
  end.
Definition sync_status (st : ThreadStatus) : bool :=
  match st with WaitSynchAny | WaitSynchAll | WaitHleEvent => true | _ => false end.
(** [WaitObject::GetHighestPriorityReadyThread] *)
Fixpoint best_candidate (this : oid) (waiters : list oid) (candidate : option oid) (candidate_priority : Z) : M (option oid) :=
  match waiters with
  | [] => mret candidate
  | t :: rest =>
      th ← get_thread t;
      ASSERT (sync_status (status th));;
      if candidate_priority <=? current_priority th then best_candidate this rest candidate candidate_priority
      else
        w ← ShouldWait this t;
        if (w : bool) then best_candidate this rest candidate candidate_priority
        else
          ready ← if bool_decide (status th = WaitSynchAll) then none_should_wait (wait_objects th) t else mret true;
          if (ready : bool) then best_candidate this rest (Some t) (current_priority th)
          else best_candidate this rest candidate candidate_priority
  end.
Definition GetHighestPriorityReadyThread (this : oid) : M (option oid) :=
  k ← get; best_candidate this (waiting_threads (wait_base this k)) None (ThreadPrioLowest + 1).

(** [WakeupCallback::WakeUp]: [SVC_SyncCallback], [SVC_IPCCallback] and
    [AddressArbiter::Callback] *)
Definition SyncCallback_WakeUp (do_output : bool) (reason : ThreadWakeupReason) (thread : oid) (object : option oid) : M unit :=
  match reason with
  | Timeout => SetWaitSynchronizationResult thread RESULT_TIMEOUT
  | Signal =>
      SetWaitSynchronizationResult thread RESULT_SUCCESS;;
      if do_output then o ← deref object; i ← GetWaitObjectIndex thread o; SetWaitSynchronizationOutput thread i else mret tt
  end.
Definition IPCCallback_WakeUp (reason : ThreadWakeupReason) (thread : oid) (object : option oid) : M unit :=
  th ← get_thread thread;
  ASSERT (bool_decide (status th = WaitSynchAny));;
  ASSERT (bool_decide (reason = Signal));;
  o ← deref object;
  x ← get_any o;
  result ← match x with OServerSession _ => ReceiveIPCRequest o thread | _ => mret RESULT_SUCCESS end;
  SetWaitSynchronizationResult thread result;;
  i ← GetWaitObjectIndex thread o; SetWaitSynchronizationOutput thread i.
Definition AddressArbiter_WakeUp (this : oid) (reason : ThreadWakeupReason) (thread : oid) : M unit :=
  ASSERT (bool_decide (reason = Timeout));;
  update_object as_arbiter OAddressArbiter this (fun a => a <| arbiter_threads ::= filter (fun t => t <> thread) |>).
Definition WakeUp (callback : WakeupCallback) (reason : ThreadWakeupReason) (thread : oid) (object : option oid) : M unit :=
  match callback with
  | SVC_SyncCallback do_output => SyncCallback_WakeUp do_output reason thread object
  | SVC_IPCCallback => IPCCallback_WakeUp reason thread object
  | ArbiterCallback arbiter => AddressArbiter_WakeUp arbiter reason thread
  | OtherCallback id => wake_service id reason thread object
  end.

(** [WaitObject::WakeupAllWaitingThreads]: the body of its loop *)
Definition invoke_callback (reason : ThreadWakeupReason) (thread : oid) (object : option oid) : M unit :=
  th ← get_thread thread;
  match wakeup_callback th with Some cb => WakeUp cb reason thread object | None => mret tt end.
Definition leave_wait_objects (thread : oid) : M unit :=
  th ← get_thread thread;
  for_each (wait_objects th) (fun o => RemoveWaitingThread o thread);;
  update_thread thread (fun th => th <| wait_objects := [] |>).
Definition wake_one (this thread : oid) : M unit :=
  th ← get_thread thread;
  (if bool_decide (status th = WaitSynchAll)
   then for_each (wait_objects th) (fun o => Acquire o thread)
   else Acquire this thread);;
  invoke_callback Signal thread (Some this);;
  leave_wait_objects thread;;
  ResumeFromWait thread.
(** Every turn takes a thread off the list of this object. *)
Fixpoint wakeup_loop (fuel : nat) (this : oid) : M unit :=
  next ← GetHighestPriorityReadyThread this;
  match next with
  | None => mret tt
  | Some thread => match fuel with O => crash OutOfFuel | S fuel' => wake_one this thread;; wakeup_loop fuel' this end
  end.
Definition WaitObject_WakeupAllWaitingThreads (this : oid) : M unit :=
  k ← get;
  wakeup_loop (List.length (waiting_threads (wait_base this k))) this;;
  k ← get;
  match hle_notifier (wait_base this k) with Some n => notify n | None => mret tt end.
(** [Event] and [Timer] override it. *)
Definition WakeupAllWaitingThreads (this : oid) : M unit :=
  WaitObject_WakeupAllWaitingThreads this;;
  x ← get_any this;
  match x with
  | OEvent e => if bool_decide (event_reset_type e = Pulse) then update_event this (fun e => e <| event_signaled := false |>) else mret tt
  | OTimer t => if bool_decide (timer_reset_type t = Pulse) then update_timer this (fun t => t <| timer_signaled := false |>) else mret tt
  | _ => mret tt
  end.
Definition SetHLENotifier (this : oid) (callback : option Z) : M unit := update_wait_base this (fun w => w <| hle_notifier := callback |>).
End WaitObject.
