(* ===== verification/WaitInvariant.v ===== *)
(** The invariant of waiting threads and that waking them up keeps it: every list of
    waiting threads agrees with what the threads wait for. *)

From S2P Require Import Prelude ResultCode HandleTable CoreTiming ThreadQueueList KernelState Thread Scheduler WaitObject.

Section WaitInvariant.
Context {D IS : Type} {hooks : Hooks D IS} {hole : option oid}.
Implicit Types (k : KernelSystem D IS).

(** ** What waiting depends on *)

(** An object without priorities, held mutexes and registers. *)
Definition erase (x : Object) : Object :=
  match x with
  | OThread th => OThread (th <| context := reset_context |> <| current_priority := 0 |> <| nominal_priority := 0 |> <| held_mutexes := [] |> <| pending_mutexes := [] |>)
  | OMutex m => OMutex (m <| priority := 0 |>)
  | _ => x
  end.
Definition W k : gmap oid Object := erase <$> objects k.
Definition waiters k (o : oid) : list oid := waiting_threads (wait_base o k).

(** [ShouldWait], read off that part. *)
Definition should_wait (w : gmap oid Object) (o t : oid) : bool :=
  match w !! o with
  | Some (OThread th) => negb (bool_decide (status th = Dead))
  | Some (OMutex m) => (0 <? lock_count m) && negb (bool_decide (holding_thread m = Some t))
  | Some (OSemaphore s) => available_count s <=? 0
  | Some (OEvent e) => negb (event_signaled e)
  | Some (OTimer t) => negb (timer_signaled t)
  | Some (OServerPort p) => bool_decide (pending_sessions p = [])
  | Some (OServerSession s) =>
      match w !! server_parent s with
      | Some (OSession p) =>
          if bool_decide (client p = None) then false
          else bool_decide (pending_requesting_threads s = []) || negb (bool_decide (currently_handling s = None))
      | _ => true
      end
  | _ => true
  end.
(** An object that can be waited for. *)
Definition waitable (w : gmap oid Object) (o : oid) : Prop :=
  exists x, w !! o = Some x /\ IsWaitable x = true /\
    match x with OServerSession s => exists p, w !! server_parent s = Some (OSession p) | _ => True end.
(** A thread that waits can be woken up now. *)
Definition thread_in (w : gmap oid Object) (t : oid) (th : Thread) : Prop := w !! t = Some (OThread th).
Definition ready_for (w : gmap oid Object) (this t : oid) : Prop :=
  should_wait w this t = false /\
  forall th, thread_in w t th -> status th = WaitSynchAll -> forall o, o ∈ wait_objects th -> should_wait w o t = false.

(** ** The invariant *)

(** The callback of a waiting thread fits the way it waits; threads that run or can
    run have none. *)
Definition callback_ok (th : Thread) : Prop :=
  match wakeup_callback th with
  | Some (ArbiterCallback _) => sync_status (status th) = false
  | Some SVC_IPCCallback => sync_status (status th) = true -> status th = WaitSynchAny
  | _ => True
  end /\
  (status th = Ready \/ status th = Running -> wakeup_callback th = None).
(** [hole] is a thread that is being stopped: it is dead, and may still be listed. *)
Record waits_ok (w : gmap oid Object) (b : oid -> list oid) : Prop := {
  waiter_ok o t : t ∈ b o -> hole <> Some t -> exists th, thread_in w t th /\ sync_status (status th) = true /\ o ∈ wait_objects th;
  waiter_in o t : t ∈ b o -> waitable w o /\ exists th, thread_in w t th;
  idle_ok t th : thread_in w t th -> hole <> Some t -> sync_status (status th) = false -> wait_objects th = [];
  waiters_nodup o : NoDup (b o);
  waited_ok t th o : thread_in w t th -> o ∈ wait_objects th -> waitable w o;
  waited_nodup t th : thread_in w t th -> status th = WaitSynchAll -> NoDup (wait_objects th);
  callbacks_ok t th : thread_in w t th -> callback_ok th;
}.
(** Objects refer to what they should: the mutexes a thread holds or waits for are
    mutexes, a held one has a priority, and its holder exists; the parent of a server
    session is a session; the handle table of a process is valid. *)
Record held_ok (o : gmap oid Object) : Prop := {
  pending_mutex t th m : o !! t = Some (OThread th) -> m ∈ pending_mutexes th -> exists mx, o !! m = Some (OMutex mx);
  held_mutex t th m : o !! t = Some (OThread th) -> m ∈ held_mutexes th -> exists mx, o !! m = Some (OMutex mx) /\ prio_ok (priority mx);
  held_by m mx t : o !! m = Some (OMutex mx) -> holding_thread mx = Some t -> exists th, o !! t = Some (OThread th);
  session_parent i s : o !! i = Some (OServerSession s) -> exists p, o !! server_parent s = Some (OSession p);
  table_valid i p : o !! i = Some (OProcess p) -> HandleTable.valid (handle_table p);
}.
Record kernel_ok k : Prop := {
  kernel_sched : sched_ok k;
  kernel_waits : waits_ok (W k) (waiters k);
  kernel_held : held_ok (objects k);
}.

(** ** Updates of one object *)

Definition set_object (o : oid) (x : Object) k : KernelSystem D IS := k <| objects ::= <[o := x]> |>.
Lemma W_set_object o x k : W (set_object o x k) = <[o := erase x]> (W k).
Proof. unfold W, set_object. cbn. by rewrite fmap_insert. Qed.
Lemma W_lookup k o x : objects k !! o = Some x -> W k !! o = Some (erase x).
Proof. intros H. unfold W. by rewrite lookup_fmap, H. Qed.
Lemma W_lookup_inv k o y : W k !! o = Some y -> exists x, objects k !! o = Some x /\ y = erase x.
Proof. unfold W. rewrite lookup_fmap. intros (x & ? & ?)%fmap_Some. by exists x. Qed.
Lemma W_set_same o x y k : objects k !! o = Some y -> erase x = erase y -> W (set_object o x k) = W k.
Proof. intros Ho He. rewrite W_set_object, He. apply insert_id. by apply W_lookup. Qed.
Lemma thread_in_at k t th : thread_in (W k) t th -> exists th', thread_at t th' k /\ OThread th = erase (OThread th').
Proof. intros (x & Hx & He)%W_lookup_inv. destruct x; try done. by eexists. Qed.
Lemma thread_at_in k t th : thread_at t th k -> exists th', thread_in (W k) t th' /\ OThread th' = erase (OThread th).
Proof. intros H. eexists. split; [apply (W_lookup _ _ _ H)|done]. Qed.
Lemma waiters_set_object o x k : waiters (set_object o x k) = waiters k.
Proof. done. Qed.

Lemma wp_update_any {A} (cast : Object -> option A) wrap o x a f (Q : unit -> KernelSystem D IS -> Prop) k :
  objects k !! o = Some x -> cast x = Some a -> Q tt (set_object o (wrap (f a)) k) -> wp (update_object cast wrap o f) Q k.
Proof. intros Hx Ha HQ. by eapply wp_update_object. Qed.
Lemma wp_get_any o x (Q : Object -> KernelSystem D IS -> Prop) k : objects k !! o = Some x -> Q x k -> wp (get_any o) Q k.
Proof. intros Hx HQ. unfold get_any. do 2 wp_step. by eapply wp_deref. Qed.

(** An object the scheduler does not know. *)
Definition unscheduled (x : Object) : bool := match x with OThread _ | OProcess _ => false | _ => true end.
Lemma sched_eq_object o x x' k : objects k !! o = Some x -> unscheduled x = true -> unscheduled x' = true -> sched_eq k (set_object o x' k).
Proof.
  intros Ho Hx Hx'. split; try done.
  - intros t. unfold tv, set_object. cbn. destruct (decide (t = o)) as [->|]; [|by rewrite lookup_insert_ne].
    rewrite lookup_insert_eq, Ho. by destruct x, x'.
  - intros p (q & Hp). exists q. unfold set_object. cbn. rewrite lookup_insert_ne; [done|]. intros ->. rewrite Ho in Hp. by injection Hp as ->.
  - intros p _ Hp. unfold set_object. cbn. rewrite lookup_insert_ne; [done|]. congruence.
Qed.

(** ** [ShouldWait] *)

Lemma wp_ShouldWait o t k : waitable (W k) o -> wp (ShouldWait o t) (fun b k' => k' = k /\ b = should_wait (W k) o t) k.
Proof.
  intros (y & (x & Ho & ->)%W_lookup_inv & Hw & Hp). unfold ShouldWait. wp_step. eapply wp_get_any; [done|].
  unfold should_wait. rewrite (W_lookup _ _ _ Ho).
  destruct x; try done. cbn. wp_step. destruct Hp as (p & (y & Hp & He)%W_lookup_inv). destruct y; try done. cbn in He. injection He as <-.
  eapply wp_get_object; [exact Hp|done|]. cbn. rewrite (W_lookup _ _ _ Hp). cbn. by case_bool; wp_step.
Qed.
Lemma wp_none_should_wait l t k : (forall o, o ∈ l -> waitable (W k) o) ->
  wp (none_should_wait l t) (fun b k' => k' = k /\ (b = true <-> forall o, o ∈ l -> should_wait (W k) o t = false)) k.
Proof.
  induction l as [|o l IH]; intros Hl; cbn [none_should_wait].
  { wp_step. split; [done|]. split; [by intros _ o ?%not_elem_of_nil|done]. }
  wp_step. eapply wp_mono; [apply wp_ShouldWait, Hl; by constructor|]. cbn beta. intros b k' [-> ->].
  destruct (should_wait (W k) o t) eqn:Hs.
  - wp_step. split; [done|]. split; [done|]. intros H. rewrite H in Hs; [done|by constructor].
  - eapply wp_mono; [apply IH; intros o' Ho'; apply Hl; by constructor|]. cbn beta. intros b k' [-> ->]. split; [done|].
    setoid_rewrite elem_of_cons. naive_solver.
Qed.

(** ** [GetHighestPriorityReadyThread] *)

Definition cur k (t : oid) : Z := match objects k !! t with Some (OThread th) => current_priority th | _ => 0 end.
Lemma cur_at k t th : thread_at t th k -> cur k t = current_priority th.
Proof. unfold cur, thread_at. by intros ->. Qed.

(** [t] is the first of the best ready threads of [l], and better than [p]. *)
Definition first_best k (this : oid) (l : list oid) (p : Z) (t : oid) : Prop :=
  ready_for (W k) this t /\ cur k t < p /\
  exists pre post, l = pre ++ t :: post /\
    (forall u, u ∈ pre -> ready_for (W k) this u -> cur k t < cur k u) /\ (forall u, u ∈ post -> ready_for (W k) this u -> cur k t <= cur k u).
Definition none_better k (this : oid) (l : list oid) (p : Z) : Prop := forall u, u ∈ l -> ready_for (W k) this u -> p <= cur k u.

Lemma first_best_skip k this l p t u : (ready_for (W k) this u -> p <= cur k u) -> first_best k this l p t -> first_best k this (u :: l) p t.
Proof.
  intros Hu (Hr & Hp & pre & post & -> & H1 & H2). split; [done|]. split; [done|]. exists (u :: pre), post. split; [done|].
  split; [|done]. intros v [->|Hv]%elem_of_cons Hrv; [|by apply H1]. specialize (Hu Hrv). lia.
Qed.
Lemma first_best_later k this l p t u : cur k u < p -> first_best k this l (cur k u) t -> first_best k this (u :: l) p t.
Proof.
  intros Hu (Hr & Hp & pre & post & -> & H1 & H2). split; [done|]. split; [lia|]. exists (u :: pre), post. split; [done|].
  split; [|done]. intros v [->|Hv]%elem_of_cons Hrv; [lia|by apply H1].
Qed.
Lemma ready_for_at k this t th : thread_at t th k ->
  ready_for (W k) this t <-> should_wait (W k) this t = false /\
    (status th = WaitSynchAll -> forall o, o ∈ wait_objects th -> should_wait (W k) o t = false).
Proof.
  intros Ht. destruct (thread_at_in _ _ _ Ht) as (th' & Hth' & He). cbn in He. injection He as ->. split.
  - intros [H1 H2]. split; [done|]. intros Hs. by apply (H2 _ Hth' Hs).
  - intros [H1 H2]. split; [done|]. intros th2 Hth2. unfold thread_in in Hth', Hth2. rewrite Hth' in Hth2. injection Hth2 as <-. exact H2.
Qed.

Lemma wp_best_candidate this l c p k : waitable (W k) this ->
  (forall t, t ∈ l -> exists th, thread_at t th k /\ sync_status (status th) = true /\ forall o, o ∈ wait_objects th -> waitable (W k) o) ->
  wp (best_candidate this l c p) (fun r k' => k' = k /\
    ((r = c /\ none_better k this l p) \/ exists t, r = Some t /\ first_best k this l p t)) k.
Proof.
  intros Hthis. revert c p. induction l as [|t l IH]; intros c p Hl; cbn [best_candidate].
  { wp_step. split; [done|]. left. split; [done|]. by intros u ?%not_elem_of_nil. }
  destruct (Hl t) as (th & Hth & Hst & Hwo); [by constructor|].
  assert (Hrest : forall t', t' ∈ l -> exists th, thread_at t' th k /\ sync_status (status th) = true /\ forall o, o ∈ wait_objects th -> waitable (W k) o)
    by (intros t' Ht'; apply Hl; by constructor).
  assert (Hskip : (ready_for (W k) this t -> p <= cur k t) -> wp (best_candidate this l c p) (fun r k' => k' = k /\
    ((r = c /\ none_better k this (t :: l) p) \/ exists t', r = Some t' /\ first_best k this (t :: l) p t')) k).
  { intros Hn. eapply wp_mono; [by apply IH|]. cbn beta. intros r k' [-> [[-> H]|(t' & -> & H)]]; (split; [done|]); [left|right].
    - split; [done|]. intros u [->|Hu]%elem_of_cons Hr; [by apply Hn|by apply H].
    - exists t'. split; [done|]. by apply first_best_skip. }
  wp_step. eapply wp_get_thread; [done|]. wp_step. wp_step; [done|]. case_bool; [by apply Hskip; rewrite (cur_at _ _ _ Hth)|].
  wp_step. eapply wp_mono; [by apply wp_ShouldWait|]. cbn beta. intros b k' [-> ->].
  destruct (should_wait (W k) this t) eqn:Hs; [apply Hskip; intros [Hr _]; congruence|]. wp_step.
  assert (Hready : wp (if bool_decide (status th = WaitSynchAll) then none_should_wait (wait_objects th) t else mret true)
    (fun b k' => k' = k /\ (b = true <-> ready_for (W k) this t)) k).
  { pose proof (ready_for_at _ this _ _ Hth) as Hra. case_bool.
    - eapply wp_mono; [by apply wp_none_should_wait|]. cbn beta. intros b k' [-> Hb]. split; [done|]. rewrite Hra, Hb. tauto.
    - wp_step. split; [done|]. rewrite Hra. tauto. }
  eapply wp_mono; [exact Hready|]. cbn beta. intros b k' [-> Hb]. destruct b.
  - assert (Hr : ready_for (W k) this t) by (by apply Hb). eapply wp_mono; [by apply IH|]. cbn beta. rewrite <- (cur_at _ _ _ Hth) in *.
    intros r k' [-> [[-> H0]|(t' & -> & H0)]]; (split; [done|]); right.
    + exists t. split; [done|]. split; [done|]. split; [lia|]. exists [], l. split; [done|]. split; [by intros u ?%not_elem_of_nil|exact H0].
    + exists t'. split; [done|]. by apply first_best_later.
  - apply Hskip. intros Hr. by apply Hb in Hr.
Qed.

Lemma wp_GetHighestPriorityReadyThread this k : kernel_ok k -> waitable (W k) this ->
  (forall t, t ∈ waiters k this -> hole <> Some t) ->
  wp (GetHighestPriorityReadyThread this) (fun r k' => k' = k /\
    match r with
    | None => forall t, t ∈ waiters k this -> ~ ready_for (W k) this t
    | Some t => first_best k this (waiters k this) (ThreadPrioLowest + 1) t
    end) k.
Proof.
  intros [Hs Hw _] Hthis Hhole. unfold GetHighestPriorityReadyThread. do 2 wp_step. fold (waiters k this).
  assert (Hl : forall t, t ∈ waiters k this -> exists th, thread_at t th k /\ sync_status (status th) = true /\ forall o, o ∈ wait_objects th -> waitable (W k) o).
  { intros t Ht. destruct (waiter_ok _ _ Hw _ _ Ht (Hhole t Ht)) as (th & Hth & H1 & _). destruct (thread_in_at _ _ _ Hth) as (th' & Hth' & He).
    cbn in He. injection He as ->. exists th'. split; [done|]. split; [exact H1|]. intros o Ho. by apply (waited_ok _ _ Hw t _ o Hth). }
  eapply wp_mono; [by apply wp_best_candidate|]. cbn beta. intros r k' [-> [[-> H]|(t & -> & H)]]; (split; [done|]); [|done].
  intros t Ht Hr. specialize (H t Ht Hr). destruct (Hl t Ht) as (th & Hth & _). destruct (sched_threads _ _ Hs t _ (tv_thread _ _ _ Hth)) as [Hp _ _ _].
  rewrite (cur_at _ _ _ Hth) in H. unfold prio_ok in Hp. cbn in Hp. lia.
Qed.

(** ** Steps that keep the invariant *)

Definition is_ready (w : gmap oid Object) (t : oid) : Prop := exists th, thread_in w t th /\ status th = Ready.
(** The class of an object. *)
Definition kind (x : Object) : nat :=
  match x with
  | OThread _ => 0 | OMutex _ => 1 | OSemaphore _ => 2 | OEvent _ => 3 | OTimer _ => 4 | OAddressArbiter _ => 5 | OServerPort _ => 6
  | OClientPort _ => 7 | OSession _ => 8 | OServerSession _ => 9 | OClientSession _ => 10 | OProcess _ => 11 | OCodeSet _ => 12
  | OSharedMemory _ => 13 | OResourceLimit _ => 14
  end.
Definition has_kind (n : nat) (w : gmap oid Object) (o : oid) : Prop := exists x, w !! o = Some x /\ kind x = n.
Definition is_mutex (w : gmap oid Object) (m : oid) : Prop := exists mx, w !! m = Some (OMutex mx).
Lemma is_mutex_kind w m : is_mutex w m <-> has_kind 1 w m.
Proof. split; [intros (mx & Hm); by exists (OMutex mx)|]. intros (x & Hx & Hk). destruct x; try done. by eexists. Qed.
Lemma object_kind k o x : objects k !! o = Some x -> has_kind (kind x) (W k) o.
Proof. intros Ho. exists (erase x). split; [by apply W_lookup|]. by destruct x. Qed.
Lemma kind_object k o n : has_kind n (W k) o -> exists x, objects k !! o = Some x /\ kind x = n.
Proof. intros (y & (x & Hx & ->)%W_lookup_inv & Hn). exists x. split; [done|]. by destruct x. Qed.
(** A slot of the thread-local storage of a process. *)
Definition has_slot (w : gmap oid Object) (p : oid) (page slot : nat) : Prop :=
  exists pr l, w !! p = Some (OProcess pr) /\ tls_slots pr !! page = Some l /\ (slot < length l)%nat.
(** What a step may do to the waiting threads: nothing but make them ready and take
    them off the lists; no thread that is ready stops being so, and the dead stay
    as they are. *)
Record calm k k' : Prop := {
  calm_kind n o : has_kind n (W k) o -> has_kind n (W k') o;
  calm_rest t th : thread_in (W k) t th -> status th = Dead \/ sync_status (status th) = true ->
    thread_in (W k') t th \/ status th <> Dead /\ is_ready (W k') t;
  calm_slots p page slot : has_slot (W k) p page slot -> has_slot (W k') p page slot;
  calm_waitable o : waitable (W k) o -> waitable (W k') o;
  calm_waiters o : waiters k' o `sublist_of` waiters k o;
  calm_ready t : is_ready (W k) t -> is_ready (W k') t;
  calm_left o t : t ∈ waiters k o -> t ∉ waiters k' o -> is_ready (W k') t;
}.
#[export] Instance calm_preorder : PreOrder calm.
Proof.
  split; [split; auto|]; [by intros o t Ht []|]. intros k1 k2 k3 [Hm Hd Hs H1 H2 H3 H4] [Km Kd Ks K1 K2 K3 K4]. split; [auto| |auto|auto| |auto|].
  - intros t th Ht Hst. destruct (Hd t th Ht Hst) as [Ht2|[? ?]]; [by apply Kd|right; auto].
  - intros o. etrans; [apply K2|apply H2].
  - intros o t Ht Hn. destruct (decide (t ∈ waiters k2 o)) as [Ht2|Ht2]; [by eapply K4|]. by eapply K3, H4.
Qed.
Lemma calm_same k k' : W k' = W k -> waiters k' = waiters k -> calm k k'.
Proof. intros HW Hw. split; rewrite ?HW; try done; [by left|intros o; by rewrite Hw|]. intros o t Ht. by rewrite Hw. Qed.

(** A step that changes priorities, registers and held mutexes only. *)
Record same_waits k k' : Prop := {
  same_ok : kernel_ok k';
  same_W : W k' = W k;
  same_waiters : waiters k' = waiters k;
}.
Lemma same_waits_trans k1 k2 k3 : same_waits k1 k2 -> same_waits k2 k3 -> same_waits k1 k3.
Proof. intros [H1 H2 H3] [K1 K2 K3]. split; [done|congruence|congruence]. Qed.
Lemma same_waits_calm k k' : same_waits k k' -> calm k k'.
Proof. intros [H1 H2 H3]. by apply calm_same. Qed.
Lemma kernel_ok_same k k' : kernel_ok k -> sched_ok k' -> W k' = W k -> waiters k' = waiters k -> held_ok (objects k') -> same_waits k k'.
Proof. intros [H1 H2 H3] Hs HW Hw Hh. split; [|done|done]. split; [done| |done]. by rewrite HW, Hw. Qed.

(** The mutexes of [th] are among those of [th'], or are fine. *)
Definition mutexes_of (o : gmap oid Object) (th th' : Thread) : Prop :=
  (forall m, m ∈ held_mutexes th -> m ∈ held_mutexes th' \/ exists mx, o !! m = Some (OMutex mx) /\ prio_ok (priority mx)) /\
  (forall m, m ∈ pending_mutexes th -> m ∈ pending_mutexes th' \/ exists mx, o !! m = Some (OMutex mx)).
Lemma mutexes_of_same o th th' : held_mutexes th = held_mutexes th' -> pending_mutexes th = pending_mutexes th' -> mutexes_of o th th'.
Proof. intros H1 H2. split; intros m; rewrite ?H1, ?H2; by left. Qed.
Lemma held_ok_insert (o : gmap oid Object) i x y : held_ok o -> o !! i = Some y ->
  match x with
  | OThread th => exists th', y = OThread th' /\ mutexes_of o th th'
  | OMutex mx => exists mx', y = OMutex mx' /\ (prio_ok (priority mx) \/ priority mx = priority mx') /\
      forall t, holding_thread mx = Some t -> holding_thread mx' = Some t \/ exists th, o !! t = Some (OThread th)
  | OServerSession s => exists s', y = OServerSession s' /\ server_parent s = server_parent s'
  | OProcess p => exists p', y = OProcess p' /\ (handle_table p = handle_table p' \/ HandleTable.valid (handle_table p))
  | OSession _ => exists s', y = OSession s'
  | _ => match y with OThread _ | OMutex _ | OSession _ => False | _ => True end
  end -> held_ok (<[i := x]> o).
Proof.
  intros [H0 H1 H2 Hp Ht] Hi Hx.
  assert (Hmx : forall m mx, o !! m = Some (OMutex mx) -> exists mx', <[i:=x]> o !! m = Some (OMutex mx') /\ (prio_ok (priority mx) -> prio_ok (priority mx'))).
  { intros m mx Hm. destruct (decide (m = i)) as [->|]; [|rewrite lookup_insert_ne by done; eauto].
    rewrite Hi in Hm. injection Hm as ->. destruct x; try (by destruct Hx); try (by destruct Hx as (? & ? & _)). destruct Hx as (mx' & [= <-] & Hpr & _).
    rewrite lookup_insert_eq. eexists. split; [done|]. destruct Hpr as [Hpr|Hpr]; [done|by rewrite Hpr]. }
  assert (Hth : forall t th, o !! t = Some (OThread th) -> exists th', <[i:=x]> o !! t = Some (OThread th')).
  { intros t th Hto. destruct (decide (t = i)) as [->|]; [|rewrite lookup_insert_ne by done; eauto].
    rewrite Hi in Hto. injection Hto as ->. destruct x; try (by destruct Hx); try (by destruct Hx as (? & ? & _)); rewrite lookup_insert_eq; eauto. }
  assert (Hses : forall s p, o !! s = Some (OSession p) -> exists p', <[i:=x]> o !! s = Some (OSession p')).
  { intros s p Hs. destruct (decide (s = i)) as [->|]; [|rewrite lookup_insert_ne by done; eauto].
    rewrite Hi in Hs. injection Hs as ->. destruct x; try (by destruct Hx); try (by destruct Hx as (? & ? & _)); rewrite lookup_insert_eq; eauto. }
  split.
  - intros t th m Hto Hm. assert (exists mx, o !! m = Some (OMutex mx)) as (mx & Hmo).
    { destruct (decide (t = i)) as [->|]; [|rewrite lookup_insert_ne in Hto by done; by eapply H0].
      rewrite lookup_insert_eq in Hto. injection Hto as ->. destruct Hx as (th' & -> & _ & Hx). destruct (Hx m Hm) as [Hm'|?]; [by eapply H0|done]. }
    destruct (Hmx m mx Hmo) as (mx' & ? & _). eauto.
  - intros t th m Hto Hm. assert (exists mx, o !! m = Some (OMutex mx) /\ prio_ok (priority mx)) as (mx & Hmo & Hpr).
    { destruct (decide (t = i)) as [->|]; [|rewrite lookup_insert_ne in Hto by done; by eapply H1].
      rewrite lookup_insert_eq in Hto. injection Hto as ->. destruct Hx as (th' & -> & Hx & _). destruct (Hx m Hm) as [Hm'|?]; [by eapply H1|done]. }
    destruct (Hmx m mx Hmo) as (mx' & ? & ?). eauto.
  - intros m mx t Hm Hto. destruct (decide (m = i)) as [->|].
    + rewrite lookup_insert_eq in Hm. injection Hm as ->. destruct Hx as (mx' & -> & _ & Hx).
      destruct (Hx t Hto) as [Ht'|[th Hth']]; [|by eapply Hth]. destruct (H2 _ _ _ Hi Ht') as [th Hth']. by eapply Hth.
    + rewrite lookup_insert_ne in Hm by done. destruct (H2 _ _ _ Hm Hto) as [th Hth']. by eapply Hth.
  - intros n s Hs. assert (exists p, o !! server_parent s = Some (OSession p)) as (p & Hpo); [|by eapply Hses].
    destruct (decide (n = i)) as [->|]; [|rewrite lookup_insert_ne in Hs by done; by eapply Hp].
    rewrite lookup_insert_eq in Hs. injection Hs as ->. destruct Hx as (s' & -> & ->). by eapply Hp.
  - intros n p Hpr. destruct (decide (n = i)) as [->|]; [|rewrite lookup_insert_ne in Hpr by done; by eapply Ht].
    rewrite lookup_insert_eq in Hpr. injection Hpr as ->. destruct Hx as (p' & -> & [-> | ?]); [by eapply Ht|done].
Qed.

(** *** Priorities *)

Lemma wp_best_priority l best k : (forall m, m ∈ l -> exists mx, objects k !! m = Some (OMutex mx) /\ prio_ok (priority mx)) -> prio_ok best ->
  wp (best_priority l best) (fun p k' => k' = k /\ prio_ok p) k.
Proof.
  revert best. induction l as [|m l IH]; intros best Hl Hb; cbn [best_priority]; [by wp_step|].
  destruct (Hl m) as (mx & Hm & Hp); [by constructor|]. wp_step. eapply wp_get_object; [exact Hm|done|].
  apply IH; [intros m' Hm'; apply Hl; by constructor|]. by case_bool.
Qed.
(** The part of the invariant that does not speak of waiting; it also holds while a
    thread enters the lists it will wait on. *)
Record base_ok k : Prop := { base_sched : sched_ok k; base_held : held_ok (objects k) }.
Lemma kernel_base k : kernel_ok k -> base_ok k.
Proof. by intros [H1 _ H3]. Qed.
Record same_base k k' : Prop := { same_base_ok : base_ok k'; same_base_W : W k' = W k; same_base_waiters : waiters k' = waiters k }.
Lemma same_base_refl k : base_ok k -> same_base k k.
Proof. by split. Qed.
Lemma same_base_trans k1 k2 k3 : same_base k1 k2 -> same_base k2 k3 -> same_base k1 k3.
Proof. intros [H1 H2 H3] [K1 K2 K3]. split; [done|congruence|congruence]. Qed.
Lemma same_base_same k k' : kernel_ok k -> same_base k k' -> same_waits k k'.
Proof. intros Hk [[H1 H2] H3 H4]. by apply kernel_ok_same. Qed.
Lemma same_waits_base k k' : same_waits k k' -> same_base k k'.
Proof. intros [H1 H2 H3]. split; [by apply kernel_base|done|done]. Qed.

Lemma base_thread k t th : base_ok k -> thread_at t th k -> prio_ok (current_priority th) /\ prio_ok (nominal_priority th).
Proof. intros Hk Ht. by destruct (sched_threads _ _ (base_sched _ Hk) t _ (tv_thread _ _ _ Ht)). Qed.
Lemma kernel_thread k t th : kernel_ok k -> thread_at t th k -> prio_ok (current_priority th) /\ prio_ok (nominal_priority th).
Proof. intros Hk%kernel_base. by apply base_thread. Qed.

(** Replacing the record of a thread by one that waits the same way. *)
Lemma same_base_thread k t th th' q c : base_ok k -> thread_at t th k ->
  erase (OThread th') = erase (OThread th) -> mutexes_of (objects k) th' th ->
  sched_ok (set_thread t th' (set_queue c q k)) -> same_base k (set_thread t th' (set_queue c q k)).
Proof.
  intros Hk Ht He Hh Hs. split; [split; [done|]|exact (W_set_same t (OThread th') (OThread th) k Ht He)|done].
  cbn. eapply held_ok_insert; [apply Hk|exact Ht|]. by exists th.
Qed.
(** Replacing another object by one that waits the same way. *)
Lemma same_base_object k o x x' : base_ok k -> objects k !! o = Some x -> unscheduled x = true -> unscheduled x' = true ->
  erase x' = erase x -> held_ok (objects (set_object o x' k)) -> same_base k (set_object o x' k).
Proof.
  intros Hk Ho Hx Hx' He Hh. split; [split; [|done]|by eapply W_set_same|done].
  eapply sched_hole_eq; [by eapply sched_eq_object|apply Hk].
Qed.
Lemma base_update_quiet t th f k (Q : unit -> KernelSystem D IS -> Prop) : base_ok k -> thread_at t th k ->
  erase (OThread (f th)) = erase (OThread th) -> current_priority (f th) = current_priority th /\ nominal_priority (f th) = nominal_priority th ->
  mutexes_of (objects k) (f th) th ->
  (same_base k (set_thread t (f th) k) -> thread_at t (f th) (set_thread t (f th) k) -> Q tt (set_thread t (f th) k)) -> wp (update_thread t f) Q k.
Proof.
  intros Hk Ht He [Hc Hnom] Hh HQ. eapply wp_update_thread; [done|]. apply HQ; [|apply thread_at_set; by left]. split; [split|by eapply (W_set_same t (OThread (f th)) (OThread th))|done].
  - eapply sched_hole_eq; [|apply Hk]. eapply sched_eq_thread; [done|]. injection He. unfold view_thread. congruence.
  - cbn. eapply held_ok_insert; [apply Hk|exact Ht|]. by exists th.
Qed.

Lemma base_UpdatePriority t th k : base_ok k -> thread_at t th k -> wp (UpdatePriority t) (fun _ k' => same_base k k') k.
Proof.
  intros Hk Ht. unfold UpdatePriority. wp_step. eapply wp_get_thread; [done|]. wp_step.
  eapply wp_mono; [apply wp_best_priority; [|by eapply base_thread]; intros m Hm; by eapply (held_mutex _ (base_held _ Hk))|].
  cbn beta. intros p k' [-> Hp]. eapply wp_BoostPriority; [apply Hk|exact Ht|exact Hp|]. cbn beta zeta. intros q' Hs.
  eapply same_base_thread; try done. by apply mutexes_of_same.
Qed.

Lemma wp_best_waiter l best k : (forall t, t ∈ l -> exists th, thread_at t th k /\ prio_ok (current_priority th)) -> prio_ok best ->
  wp (best_waiter l best) (fun p k' => k' = k /\ prio_ok p) k.
Proof.
  revert best. induction l as [|t l IH]; intros best Hl Hb; cbn [best_waiter]; [by wp_step|].
  destruct (Hl t) as (th & Ht & Hp); [by constructor|]. wp_step. eapply wp_get_thread; [done|].
  apply IH; [intros t' Ht'; apply Hl; by constructor|]. by case_bool.
Qed.
Lemma base_Mutex_UpdatePriority m mx k : base_ok k -> objects k !! m = Some (OMutex mx) ->
  (forall t, t ∈ waiters k m -> exists th, thread_at t th k) -> wp (Mutex_UpdatePriority m) (fun _ k' => same_base k k') k.
Proof.
  intros Hk Hm Hw. unfold Mutex_UpdatePriority. wp_step. eapply wp_get_object; [exact Hm|done|].
  destruct (holding_thread mx) as [h|] eqn:Hh; [|wp_step; by apply same_base_refl].
  do 2 wp_step. fold (waiters k m). wp_step. eapply wp_mono; [apply wp_best_waiter; [|unfold prio_ok, ThreadPrioLowest; lia]|].
  { intros t Ht. destruct (Hw t Ht) as [th Hth]. exists th. split; [done|]. by eapply base_thread. }
  cbn beta. intros p k' [-> Hp]. case_bool; [wp_step; by apply same_base_refl|]. wp_step.
  eapply wp_update_any; [exact Hm|done|]. set (k1 := set_object _ _ _).
  assert (H1 : same_base k k1).
  { eapply same_base_object; try done. cbn. eapply held_ok_insert; [apply Hk|exact Hm|]. exists mx. split; [done|]. split; [by left|]. by left. }
  destruct (held_by _ (base_held _ (same_base_ok _ _ H1)) m (mx <| priority := p |>) h) as [th Hth]; [cbn; by rewrite lookup_insert_eq|done|].
  eapply wp_mono; [eapply base_UpdatePriority; [apply H1|exact Hth]|]. cbn beta. intros _ k2 H2. by eapply same_base_trans.
Qed.

(** The same for the whole invariant. *)
Lemma wp_UpdatePriority t th k : kernel_ok k -> thread_at t th k -> wp (UpdatePriority t) (fun _ k' => same_waits k k') k.
Proof.
  intros Hk Ht. eapply wp_mono; [eapply base_UpdatePriority; [by apply kernel_base|exact Ht]|]. cbn beta. intros _ k'. by apply same_base_same.
Qed.
Lemma waiter_thread k o t : kernel_ok k -> t ∈ waiters k o -> exists th, thread_at t th k.
Proof. intros Hk Ht. destruct (waiter_in _ _ (kernel_waits _ Hk) _ _ Ht) as (_ & th & Hth). destruct (thread_in_at _ _ _ Hth) as (th' & Hth' & _). by exists th'. Qed.
Lemma wp_Mutex_UpdatePriority m mx k : kernel_ok k -> objects k !! m = Some (OMutex mx) -> wp (Mutex_UpdatePriority m) (fun _ k' => same_waits k k') k.
Proof.
  intros Hk Hm. eapply wp_mono; [eapply base_Mutex_UpdatePriority; [by apply kernel_base|exact Hm|]|].
  - intros t. by apply waiter_thread.
  - cbn beta. intros _ k'. by apply same_base_same.
Qed.
Lemma wp_update_quiet t th f k (Q : unit -> KernelSystem D IS -> Prop) : kernel_ok k -> thread_at t th k ->
  erase (OThread (f th)) = erase (OThread th) -> current_priority (f th) = current_priority th /\ nominal_priority (f th) = nominal_priority th ->
  mutexes_of (objects k) (f th) th ->
  (same_waits k (set_thread t (f th) k) -> thread_at t (f th) (set_thread t (f th) k) -> Q tt (set_thread t (f th) k)) -> wp (update_thread t f) Q k.
Proof. intros Hk Ht He Hc Hh HQ. eapply base_update_quiet; [by apply kernel_base|exact Ht|done..|]. intros H1 H2. apply HQ; [by apply same_base_same|done]. Qed.

(** *** Acquiring *)

Definition same_class (y y' : Object) : Prop :=
  match y, y' with
  | OThread a, OThread b => a = b
  | OMutex _, OMutex _ | OSemaphore _, OSemaphore _ | OEvent _, OEvent _ | OTimer _, OTimer _ | OServerPort _, OServerPort _
  | OAddressArbiter _, OAddressArbiter _ => True
  | OProcess a, OProcess b => length <$> tls_slots b = length <$> tls_slots a
  | OServerSession a, OServerSession b => server_parent a = server_parent b
  | _, _ => False
  end.
Section Class.
Context (w : gmap oid Object) (o : oid) (y y' : Object) (Ho : w !! o = Some y) (Hc : same_class y y').
Lemma thread_in_class t th : thread_in (<[o := y']> w) t th <-> thread_in w t th.
Proof.
  unfold thread_in. destruct (decide (t = o)) as [->|]; [|by rewrite lookup_insert_ne]. rewrite lookup_insert_eq, Ho.
  destruct y, y'; naive_solver.
Qed.
Lemma class_session p q : w !! p = Some (OSession q) <-> <[o := y']> w !! p = Some (OSession q).
Proof.
  destruct (decide (p = o)) as [->|]; [|by rewrite lookup_insert_ne]. rewrite lookup_insert_eq, Ho. destruct y, y'; naive_solver.
Qed.
Lemma kind_class n o' : has_kind n w o' -> has_kind n (<[o := y']> w) o'.
Proof.
  intros (x & Hx & Hk). unfold has_kind. destruct (decide (o' = o)) as [->|]; [|rewrite lookup_insert_ne; eauto].
  rewrite lookup_insert_eq. exists y'. split; [done|]. rewrite Ho in Hx. injection Hx as <-. rewrite <- Hk. by destruct y, y'.
Qed.
Lemma slot_class p page slot : has_slot w p page slot -> has_slot (<[o := y']> w) p page slot.
Proof.
  intros (pr & l & Hp & Hl & Hs). unfold has_slot. destruct (decide (p = o)) as [->|]; [|rewrite lookup_insert_ne; eauto].
  rewrite lookup_insert_eq. rewrite Ho in Hp. injection Hp as ->. destruct y' as [| | | | | | | | | | |pr'| | |]; try done. cbn in Hc.
  assert (Hl' : (length <$> tls_slots pr') !! page = Some (length l)) by (by rewrite Hc, list_lookup_fmap, Hl).
  rewrite list_lookup_fmap in Hl'. destruct (tls_slots pr' !! page) as [l'|] eqn:El; [|done]. injection Hl' as El'. exists pr', l'. by rewrite El'.
Qed.
Lemma waitable_class o' : waitable w o' -> waitable (<[o := y']> w) o'.
Proof.
  unfold waitable. intros (x & Hx & Hw & Hp). pose proof class_session as Hses. destruct (decide (o' = o)) as [->|Hne].
  - rewrite Ho in Hx. injection Hx as ->. rewrite lookup_insert_eq. exists y'. split; [done|]. destruct x, y'; try done. cbn in Hc.
    split; [done|]. rewrite <- Hc. destruct Hp as (p & Hp). exists p. by apply Hses.
  - rewrite lookup_insert_ne by done. exists x. split; [done|]. split; [done|]. destruct x; try done. destruct Hp as (p & Hp).
    exists p. by apply Hses.
Qed.
Lemma should_wait_class o' t : o' <> o -> waitable w o' -> should_wait (<[o := y']> w) o' t = should_wait w o' t.
Proof.
  intros Hne (x & Hx & Hw & Hp). unfold should_wait. rewrite lookup_insert_ne, Hx by done. destruct x; try done.
  destruct Hp as (p & Hp). rewrite Hp. by rewrite (proj1 (class_session _ _) Hp).
Qed.
Lemma waits_ok_class b : waits_ok w b -> waits_ok (<[o := y']> w) b.
Proof.
  intros [H1 H0 Hi H2 H3 H4 H5]. split; try done.
  - intros o' t Ht Hn. destruct (H1 o' t Ht Hn) as (th & ? & ?). exists th. by rewrite thread_in_class.
  - intros o' t Ht. destruct (H0 o' t Ht) as (Hw & th & ?). split; [by apply waitable_class|]. exists th. by rewrite thread_in_class.
  - intros t th. rewrite thread_in_class. apply Hi.
  - intros t th o' Ht Ho'. rewrite thread_in_class in Ht. apply waitable_class. by eapply H3.
  - intros t th. rewrite thread_in_class. apply H4.
  - intros t th. rewrite thread_in_class. apply H5.
Qed.
End Class.

(** [o] now has the content [y'], and nothing else changed. *)
Record acquired (o : oid) (y' : Object) k k' : Prop := {
  acquired_ok : kernel_ok k';
  acquired_waiters : waiters k' = waiters k;
  acquired_W : exists y, W k !! o = Some y /\ same_class y y' /\ W k' = <[o := y']> (W k);
}.
Lemma acquired_calm o y' k k' : acquired o y' k k' -> calm k k'.
Proof.
  intros [H1 H2 (y & Hy & Hc & HW)]. split.
  - intros n o'. rewrite HW. by eapply kind_class.
  - intros t th Ht _. left. rewrite HW. by eapply thread_in_class.
  - intros p page slot. rewrite HW. by eapply slot_class.
  - intros o'. rewrite HW. by eapply waitable_class.
  - intros o'. by rewrite H2.
  - intros t (th & Ht & Hr). exists th. split; [|done]. rewrite HW. by eapply thread_in_class.
  - intros o' t Ht. by rewrite H2.
Qed.
Lemma acquired_thread o y' k k' t th : acquired o y' k k' -> thread_in (W k) t th <-> thread_in (W k') t th.
Proof. intros [H1 H2 (y & Hy & Hc & HW)]. rewrite HW. symmetry. by eapply thread_in_class. Qed.
Lemma acquired_should_wait o y' k k' o' t : acquired o y' k k' -> o' <> o -> waitable (W k) o' -> should_wait (W k') o' t = should_wait (W k) o' t.
Proof. intros [H1 H2 (y & Hy & Hc & HW)] Hne Hw. rewrite HW. by eapply should_wait_class. Qed.
Lemma acquired_before o y k1 k2 k3 : acquired o y k1 k2 -> same_waits k2 k3 -> acquired o y k1 k3.
Proof. intros [G1 G2 (y0 & G3 & G4 & G5)] [H1 H2 H3]. split; [done|congruence|]. exists y0. rewrite H2. by split_and!. Qed.
Lemma acquired_trans o y z k1 k2 k3 : acquired o y k1 k2 -> acquired o z k2 k3 -> acquired o z k1 k3.
Proof.
  intros [G1 G2 (y0 & G3 & G4 & G5)] [H1 H2 (z0 & H3 & H4 & H5)]. split; [done|congruence|]. exists y0. split; [done|].
  rewrite G5, lookup_insert_eq in H3. injection H3 as <-. split; [destruct y0, y, z; try done; cbn in *; congruence|].
  rewrite H5, G5. apply insert_insert_eq.
Qed.
Lemma acquired_object o k x x' : kernel_ok k -> objects k !! o = Some x -> unscheduled x = true -> unscheduled x' = true ->
  same_class (erase x) (erase x') -> held_ok (objects (set_object o x' k)) -> acquired o (erase x') k (set_object o x' k).
Proof.
  intros Hk Ho Hx Hx' Hc Hh. assert (HW : W (set_object o x' k) = <[o := erase x']> (W k)) by apply W_set_object. split; [split|done|].
  - eapply sched_hole_eq; [by eapply sched_eq_object|apply Hk].
  - rewrite HW. eapply waits_ok_class; [by apply W_lookup|exact Hc|apply Hk].
  - exact Hh.
  - eexists. split; [by apply W_lookup|]. by split.
Qed.
Lemma same_waits_refl k : kernel_ok k -> same_waits k k.
Proof. by split. Qed.
Lemma acquired_refl o k x : kernel_ok k -> objects k !! o = Some x -> same_class (erase x) (erase x) -> acquired o (erase x) k k.
Proof.
  intros Hk Ho Hc. split; [done|done|]. exists (erase x). split; [by apply W_lookup|]. split; [done|]. symmetry. apply insert_id. by apply W_lookup.
Qed.
Lemma same_waits_reschedule k : kernel_ok k -> same_waits k (k <| reschedule_pending := true |>).
Proof. intros Hk. apply kernel_ok_same; try done; [|apply Hk]. eapply sched_hole_eq; [|apply Hk]. by split. Qed.

Lemma elem_of_flat_insert x m l : m ∈ flat_insert x l -> m = x \/ m ∈ l.
Proof.
  induction l as [|y l IH]; cbn; [set_solver|]. case_bool; [set_solver|]. case_bool; [set_solver|].
  rewrite !elem_of_cons. naive_solver.
Qed.

(** What [Acquire] does to the object itself. *)
Definition take (w : gmap oid Object) (t : oid) (y : Object) : Object :=
  match y with
  | OMutex m => OMutex ((if lock_count m =? 0 then m <| holding_thread := Some t |> else m) <| lock_count ::= fun n => s32 (n + 1) |>)
  | OSemaphore s => if available_count s <=? 0 then y else OSemaphore (s <| available_count ::= fun n => n - 1 |>)
  | OEvent e => if bool_decide (event_reset_type e = OneShot) then OEvent (e <| event_signaled := false |>) else y
  | OTimer e => if bool_decide (timer_reset_type e = OneShot) then OTimer (e <| timer_signaled := false |>) else y
  | OServerSession s =>
      match w !! server_parent s with
      | Some (OSession p) =>
          if bool_decide (client p = None) then y
          else OServerSession (s <| currently_handling := last (pending_requesting_threads s) |> <| pending_requesting_threads ::= @removelast _ |>)
      | _ => y
      end
  | _ => y
  end.
Definition take_at (t : oid) (w : gmap oid Object) (o : oid) : gmap oid Object :=
  match w !! o with Some y => <[o := take w t y]> w | None => w end.

(** **** Mutexes *)
Lemma mutex_of_W k o mx : W k !! o = Some (OMutex mx) -> exists mx', objects k !! o = Some (OMutex mx') /\ mx' <| priority := 0 |> = mx.
Proof. intros (x & Hx & He)%W_lookup_inv. destruct x; try done. cbn in He. injection He as ->. eauto. Qed.
Lemma acquired_mutex o k mx mx' : kernel_ok k -> objects k !! o = Some (OMutex mx) -> (prio_ok (priority mx') \/ priority mx' = priority mx) ->
  (forall t, holding_thread mx' = Some t -> holding_thread mx = Some t \/ exists th, thread_at t th k) ->
  acquired o (erase (OMutex mx')) k (set_object o (OMutex mx') k).
Proof.
  intros Hk Ho Hp Hh. eapply acquired_object; try done. cbn. eapply held_ok_insert; [apply Hk|exact Ho|]. by exists mx.
Qed.
Lemma acquired_is_mutex o k k1 mx : acquired o (OMutex mx) k k1 -> exists mx', objects k1 !! o = Some (OMutex mx') /\ mx' <| priority := 0 |> = mx.
Proof. intros [G1 G2 (y & G3 & G4 & G5)]. apply mutex_of_W. by rewrite G5, lookup_insert_eq. Qed.

(** Taking hold of a mutex that is free. *)
Lemma wp_take_hold o mx t th (Q : unit -> KernelSystem D IS -> Prop) k : kernel_ok k -> objects k !! o = Some (OMutex mx) -> thread_at t th k ->
  (forall k', acquired o (OMutex (mx <| priority := 0 |> <| holding_thread := Some t |>)) k k' -> Q tt k') ->
  wp (th ← get_thread t;
      update_mutex o (fun m => m <| priority := current_priority th |>);;
      update_thread t (fun th => th <| held_mutexes ::= flat_insert o |>);;
      update_mutex o (fun m => m <| holding_thread := Some t |>);;
      UpdatePriority t;; PrepareReschedule) Q k.
Proof.
  intros Hk Ho Ht HQ. wp_step. eapply wp_get_thread; [done|]. wp_step. destruct (kernel_thread _ _ _ Hk Ht) as [Hp _].
  eapply wp_update_any; [exact Ho|done|]. set (mx1 := mx <| priority := current_priority th |>). set (k1 := set_object _ _ _).
  assert (H1 : acquired o (erase (OMutex mx1)) k k1) by (eapply acquired_mutex; [done|exact Ho|by left|by left]).
  assert (Ho1 : objects k1 !! o = Some (OMutex mx1)) by (cbn; by rewrite lookup_insert_eq).
  assert (Ht1 : thread_at t th k1). { unfold thread_at, k1, set_object. cbn. rewrite lookup_insert_ne; [exact Ht|]. unfold thread_at in Ht. congruence. }
  wp_step. eapply wp_update_quiet; [apply H1|exact Ht1|done|done| |].
  { split; [|by left]. cbn. intros m [->|Hm]%elem_of_flat_insert; [right; eauto|by left]. }
  intros H2 Ht2. set (k2 := set_thread _ _ _) in *. assert (Ho2 : acquired o (erase (OMutex mx1)) k k2) by (by eapply acquired_before).
  destruct (acquired_is_mutex _ _ _ _ Ho2) as (mx2 & Hmx2 & E2). wp_step. eapply wp_update_any; [exact Hmx2|done|]. set (mx3 := mx2 <| holding_thread := _ |>).
  set (k3 := set_object _ _ _). assert (H3 : acquired o (erase (OMutex mx3)) k k3).
  { eapply acquired_trans; [exact Ho2|]. eapply acquired_mutex; [apply Ho2|exact Hmx2|by right|]. intros t' [= <-]. right. by eexists. }
  destruct (thread_at_in _ _ _ Ht) as (th' & Hth' & _). apply (acquired_thread _ _ _ _ _ _ H3) in Hth'.
  destruct (thread_in_at _ _ _ Hth') as (th3 & Ht3 & _).
  wp_step. eapply wp_mono; [eapply wp_UpdatePriority; [apply H3|exact Ht3]|]. cbn beta. intros _ k4 H4.
  unfold PrepareReschedule. wp_step. apply HQ.
  replace (OMutex (mx <| priority := 0 |> <| holding_thread := Some t |>)) with (erase (OMutex mx3)).
  - eapply acquired_before; [exact H3|]. eapply same_waits_trans; [exact H4|]. apply same_waits_reschedule, H4.
  - destruct mx, mx2. cbn in E2 |- *. by injection E2 as -> -> ->.
Qed.
Lemma wp_Mutex_Acquire o mx t th k : kernel_ok k -> objects k !! o = Some (OMutex mx) -> thread_at t th k ->
  should_wait (W k) o t = false -> wp (Mutex_Acquire o t) (fun _ k' => acquired o (take (W k) t (erase (OMutex mx))) k k') k.
Proof.
  intros Hk Ho Ht Hs. unfold Mutex_Acquire. wp_step.
  assert (Hwt : waitable (W k) o) by (exists (erase (OMutex mx)); split; [by apply (W_lookup k o (OMutex mx))|done]).
  eapply wp_mono; [by apply wp_ShouldWait|]. cbn beta. intros b k' [-> ->]. wp_step. wp_step; [by rewrite Hs|]. wp_step.
  eapply wp_get_object; [exact Ho|done|]. wp_step.
  assert (Hlast : forall k1 mx1, acquired o (OMutex mx1) k k1 -> priority mx1 = 0 ->
    wp (update_mutex o (fun m => m <| lock_count ::= fun n => s32 (n + 1) |>)) (fun _ k' => acquired o (OMutex (mx1 <| lock_count ::= fun n => s32 (n + 1) |>)) k k') k1).
  { intros k1 mx1 Hk1 Hp. destruct (acquired_is_mutex _ _ _ _ Hk1) as (mx2 & Hmx2 & <-). eapply wp_update_any; [exact Hmx2|done|].
    eapply acquired_trans; [exact Hk1|]. refine (acquired_mutex o k1 mx2 (mx2 <| lock_count ::= fun n => s32 (n + 1) |>) _ Hmx2 _ _); [apply Hk1|by right|by left]. }
  cbn [erase take]. change (lock_count (mx <| priority := 0 |>)) with (lock_count mx).
  case_bool.
  - eapply wp_take_hold; [done|exact Ho|exact Ht|]. intros k1 H1. by apply Hlast.
  - wp_step. apply Hlast; [|done]. by apply (acquired_refl o k (OMutex mx)).
Qed.

(** An update of an object that is neither a thread nor a mutex. *)
Lemma wp_acquire_update {A} (cast : Object -> option A) wrap o x a f k : kernel_ok k -> objects k !! o = Some x -> cast x = Some a ->
  unscheduled x = true -> unscheduled (wrap (f a)) = true -> same_class (erase x) (erase (wrap (f a))) ->
  (forall m, x <> OMutex m) -> wp (update_object cast wrap o f) (fun _ k' => acquired o (erase (wrap (f a))) k k') k.
Proof.
  intros Hk Ho Ha Hx Hw Hc Hm. eapply wp_update_any; [exact Ho|exact Ha|]. eapply acquired_object; try done.
  cbn. eapply held_ok_insert; [apply Hk|exact Ho|]. destruct x, (wrap (f a)); try done; try by destruct Hc.
  - by destruct (Hm m).
  - by eexists.
Qed.

Lemma wp_Acquire o x t th k : kernel_ok k -> waitable (W k) o -> objects k !! o = Some x -> thread_at t th k -> should_wait (W k) o t = false ->
  wp (Acquire o t) (fun _ k' => acquired o (take (W k) t (erase x)) k k') k.
Proof.
  intros Hk Hwt Ho Ht Hs. pose proof Hwt as (y & Hy & Hw & Hp). rewrite (W_lookup _ _ _ Ho) in Hy. injection Hy as <-.
  unfold Acquire. wp_step. eapply wp_get_any; [exact Ho|].
  assert (Hav : forall (Q : unit -> KernelSystem D IS -> Prop), Q tt k -> wp (w ← ShouldWait o t; ASSERT (negb w)) Q k).
  { intros Q HQ. wp_step. eapply wp_mono; [by apply wp_ShouldWait|]. cbn beta. intros b k' [-> ->]. wp_step; [by rewrite Hs|done]. }
  destruct x; try done; cbv zeta; cbn [erase take].
  - apply Hav. by apply (acquired_refl o k (OThread _)).
  - by eapply wp_Mutex_Acquire.
  - case_bool; [wp_step; by apply (acquired_refl o k (OSemaphore _))|]. by eapply (wp_acquire_update as_semaphore OSemaphore).
  - wp_step. apply Hav. case_bool; [by eapply (wp_acquire_update as_event OEvent)|wp_step; by apply (acquired_refl o k (OEvent _))].
  - wp_step. apply Hav. case_bool; [by eapply (wp_acquire_update as_timer OTimer)|wp_step; by apply (acquired_refl o k (OTimer _))].
  - apply Hav. by apply (acquired_refl o k (OServerPort _)).
  - wp_step. apply Hav. destruct Hp as (p & Hpw). rewrite Hpw. pose proof Hpw as (y & Hpo & He)%W_lookup_inv. destruct y; try done. cbn in He. injection He as <-.
    wp_step. eapply wp_get_object; [exact Hpo|done|]. case_bool; [wp_step; by apply (acquired_refl o k (OServerSession _))|].
    unfold should_wait in Hs. rewrite (W_lookup _ _ _ Ho) in Hs. cbn in Hs. rewrite (W_lookup _ _ _ Hpo) in Hs. cbn in Hs.
    rewrite bool_decide_eq_false_2 in Hs by done. apply orb_false_iff in Hs as [Hs _]. wp_step. wp_step; [by rewrite Hs|]. wp_step.
    apply bool_decide_eq_false in Hs. destruct (last (pending_requesting_threads s)) as [nx|] eqn:Hl; [|by apply last_None in Hl].
    eapply wp_deref; [done|].
    by apply (wp_acquire_update as_server_session OServerSession o (OServerSession s) s
      (fun s => s <| currently_handling := Some nx |> <| pending_requesting_threads ::= @removelast _ |>)).
Qed.

(** *** Leaving the lists *)

Lemma waits_ok_sublist w b b' : waits_ok w b -> (forall o, b' o `sublist_of` b o) -> waits_ok w b'.
Proof.
  intros [H1 H0 Hi H2 H3 H4 H5] Hb. split; try done.
  - intros o t Ht. apply H1. by eapply elem_of_sublist.
  - intros o t Ht. eapply H0. by eapply elem_of_sublist.
  - intros o. eapply sublist_NoDup; [apply H2|apply Hb].
Qed.
Lemma remove_waiter_spec t l : NoDup l -> remove_waiter t l = filter (fun u => u <> t) l.
Proof.
  induction l as [|u l IH]; intros Hl; [done|]. apply NoDup_cons in Hl as [Hu Hl]. cbn [remove_waiter]. rewrite filter_cons.
  case_eq_dec u t.
  - rewrite decide_False by (intros H; by apply H). symmetry. clear IH. induction l as [|v l IH]; [done|].
    apply NoDup_cons in Hl as [_ Hl]. rewrite not_elem_of_cons in Hu. destruct Hu as [Hu Hv]. rewrite filter_cons, decide_True by done. f_equal. by apply IH.
  - rewrite decide_True by done. f_equal. by apply IH.
Qed.

(** The state after [t] left the list of [o]. *)
Definition left k k' (o t : oid) : Prop :=
  forall o', waiters k' o' = if bool_decide (o' = o) then filter (fun u => u <> t) (waiters k o) else waiters k o'.
Lemma wp_RemoveWaitingThread o t th k : kernel_ok k -> waitable (W k) o -> thread_at t th k ->
  wp (RemoveWaitingThread o t) (fun _ k' => kernel_ok k' /\ W k' = W k /\ left k k' o t) k.
Proof.
  intros Hk (y & (x & Ho & ->)%W_lookup_inv & Hw & _) Ht. unfold RemoveWaitingThread. wp_step. eapply wp_get_any; [exact Ho|].
  unfold update_wait_base. do 2 wp_step. set (k1 := k <| wait_bases ::= _ |>).
  assert (Hl : left k k1 o t).
  { intros o'. unfold waiters, wait_base, k1. cbn. case_eq_dec o' o; [rewrite lookup_insert_eq|by rewrite lookup_insert_ne].
    cbn. apply remove_waiter_spec, (waiters_nodup _ _ (kernel_waits _ Hk) o). }
  assert (Hk1 : kernel_ok k1).
  { destruct Hk as [H1 H2 H3]. split; [eapply sched_hole_eq; [|exact H1]; by split| |exact H3].
    eapply waits_ok_sublist; [exact H2|]. intros o'. rewrite Hl. case_eq_dec o' o; [apply sublist_filter|done]. }
  assert (Hfin : forall k2, same_waits k1 k2 -> kernel_ok k2 /\ W k2 = W k /\ left k k2 o t).
  { intros k2 [S1 S2 S3]. split; [done|]. split; [by rewrite S2|]. intros o'. rewrite S3. apply Hl. }
  destruct x; try done; try (by wp_step; apply Hfin, same_waits_refl).
  wp_step. eapply wp_update_quiet; [exact Hk1|exact Ht|done|done| |].
  { split; [by left|]. cbn. intros m' [_ Hm']%list_elem_of_filter. by left. }
  intros H2 _.
  destruct (mutex_of_W (set_thread t (th <| pending_mutexes ::= flat_erase o |>) k1) o (m <| priority := 0 |>)) as (mx & Hmx & _).
  { rewrite (same_W _ _ H2). exact (W_lookup k o (OMutex m) Ho). }
  eapply wp_mono; [eapply wp_Mutex_UpdatePriority; [apply H2|exact Hmx]|]. cbn beta. intros _ k3 H3. apply Hfin. by eapply same_waits_trans.
Qed.
End WaitInvariant.
Arguments waits_ok : clear implicits.
Arguments kernel_ok {D IS} hole k.
Arguments same_waits {D IS} hole k k'.
Arguments acquired {D IS} hole o y' k k'.
