(* ===== verification/Wakeup.v ===== *)
(** Waking up the threads that wait for an object:
    [WaitObject::WakeupAllWaitingThreads] (src/.../core/hle/kernel/wait_object.cpp)
    ends, keeps the kernel valid and leaves no thread behind that could run. *)

From S2P Require Import Prelude ResultCode HandleTable CoreTiming ThreadQueueList KernelState Thread Scheduler WaitObject WaitInvariant.

(** What the kernel needs of the code it calls back: it keeps the kernel valid, does
    not make threads wait, and leaves the thread that is being woken up alone. *)
Class HooksOk {D IS} (hooks : Hooks D IS) : Prop := {
  receive_ok hole s t th k : kernel_ok hole k -> thread_at t th k ->
    wp (ReceiveIPCRequest s t) (fun _ k' => kernel_ok hole k' /\ calm k k' /\ W k' !! t = W k !! t) k;
  wake_service_ok hole id reason t th o k : kernel_ok hole k -> thread_at t th k ->
    wp (wake_service id reason t o) (fun _ k' => kernel_ok hole k' /\ calm k k' /\ W k' !! t = W k !! t) k;
  notify_ok hole n k : kernel_ok hole k -> wp (notify n) (fun _ k' => kernel_ok hole k' /\ calm k k') k;
}.

Section Wakeup.
Context {D IS : Type} {hooks : Hooks D IS} {Hhooks : HooksOk hooks} {hole : option oid}.
Implicit Types (k : KernelSystem D IS).

(** ** Acquiring everything *)

(** What is left of the objects when [t] has acquired all of [l]. *)
Lemma wp_acquire o t k : kernel_ok hole k -> waitable (W k) o -> should_wait (W k) o t = false -> (exists th, thread_in (W k) t th) ->
  wp (Acquire o t) (fun _ k' => exists y', acquired hole o y' k k' /\ W k' = take_at t (W k) o) k.
Proof.
  intros Hk Hw Hs [th Hth]. destruct (thread_in_at _ _ _ Hth) as (th' & Hth' & _). pose proof Hw as (y & (x & Hx & ->)%W_lookup_inv & _).
  eapply wp_mono; [by eapply wp_Acquire|]. cbn beta. intros _ k1 Hk1. eexists. split; [exact Hk1|].
  unfold take_at. rewrite (W_lookup _ _ _ Hx). by destruct Hk1 as [_ _ (z & _ & _ & H)].
Qed.
Lemma wp_acquire_all l t k : kernel_ok hole k -> NoDup l -> (forall o, o ∈ l -> waitable (W k) o /\ should_wait (W k) o t = false) ->
  (exists th, thread_in (W k) t th) ->
  wp (for_each l (fun o => Acquire o t)) (fun _ k' => kernel_ok hole k' /\ calm k k' /\ W k' = foldl (take_at t) (W k) l /\
    forall u th, thread_in (W k) u th <-> thread_in (W k') u th) k.
Proof.
  revert k. induction l as [|o l IH]; intros k Hk Hnd Hl Hth; cbn [for_each]; [by apply wp_ret|].
  apply NoDup_cons in Hnd as [Hno Hnd]. destruct (Hl o) as [Hw Hs]; [by constructor|].
  wp_step. eapply wp_mono; [by apply wp_acquire|]. cbn beta. intros _ k1 (y' & Hk1 & HW1). pose proof (acquired_calm _ _ _ _ Hk1) as Hc1.
  eapply wp_mono; [apply (IH k1); [apply Hk1|done| |]|].
  - intros o' Ho'. destruct (Hl o') as [Hw' Hs']; [by constructor|]. split; [by apply Hc1|].
    rewrite (acquired_should_wait _ _ _ _ _ _ Hk1); [done|by intros ->|done].
  - destruct Hth as [th Hth]. exists th. by apply (acquired_thread _ _ _ _ _ _ Hk1).
  - cbn beta. intros _ k2 (H1 & H2 & H3 & H4). split; [done|]. split; [by etrans|]. split; [by rewrite H3, HW1|].
    intros u uh. rewrite <- H4. by apply (acquired_thread _ _ _ _ _ _ Hk1).
Qed.

(** ** Callbacks *)

Lemma same_waits_at k k' t th : same_waits hole k k' -> thread_at t th k -> exists th', thread_at t th' k'.
Proof.
  intros [_ H _] Ht. destruct (thread_at_in _ _ _ Ht) as (th' & Hth' & _). rewrite <- H in Hth'.
  destruct (thread_in_at _ _ _ Hth') as (th2 & ? & _). by exists th2.
Qed.
Lemma wp_set_register t th f k (Q : unit -> KernelSystem D IS -> Prop) : kernel_ok hole k -> thread_at t th k ->
  (forall k', same_waits hole k k' -> thread_at t (th <| context ::= f |>) k' -> Q tt k') -> wp (update_thread t (fun th => th <| context ::= f |>)) Q k.
Proof. intros Hk Ht HQ. eapply wp_update_quiet; [done|exact Ht|done|done|by apply mutexes_of_same|]. intros H1 H2. by apply HQ. Qed.
Lemma wp_GetWaitObjectIndex t th o k (Q : Z -> KernelSystem D IS -> Prop) : thread_at t th k -> wait_objects th <> [] -> (forall i, Q i k) ->
  wp (GetWaitObjectIndex t o) Q k.
Proof.
  intros Ht Hw HQ. unfold GetWaitObjectIndex. wp_step. eapply wp_get_thread; [done|]. wp_step. wp_step; [by rewrite bool_decide_eq_false_2|]. by wp_step.
Qed.

(** The woken thread keeps waiting for the same objects until its callback is done. *)
Definition woke (t : oid) k k' : Prop := kernel_ok hole k' /\ calm k k' /\ W k' !! t = W k !! t.
Lemma woke_same t k k' : same_waits hole k k' -> woke t k k'.
Proof. intros H. split; [apply H|]. split; [by eapply same_waits_calm|]. by rewrite (same_W _ _ H). Qed.
Lemma woke_trans t k1 k2 k3 : woke t k1 k2 -> woke t k2 k3 -> woke t k1 k3.
Proof. intros (H1 & H2 & H3) (K1 & K2 & K3). split; [done|]. split; [by etrans|]. congruence. Qed.
Lemma woke_at t th k k' : woke t k k' -> thread_at t th k ->
  exists th', thread_at t th' k' /\ wait_objects th' = wait_objects th /\ status th' = status th /\ wakeup_callback th' = wakeup_callback th.
Proof.
  intros (_ & _ & H) Ht. destruct (thread_at_in _ _ _ Ht) as (th1 & Ht1 & He). cbn in He. injection He as ->. unfold thread_in in Ht1. rewrite <- H in Ht1.
  destruct (thread_in_at _ _ _ Ht1) as (th2 & Ht2 & He). cbn in He. injection He. intros. exists th2. by split_and!.
Qed.

Lemma wp_sync_callback do_output t th o k : kernel_ok hole k -> thread_at t th k -> o ∈ wait_objects th ->
  wp (SyncCallback_WakeUp do_output Signal t (Some o)) (fun _ k' => woke t k k') k.
Proof.
  intros Hk Ht Ho. unfold SyncCallback_WakeUp, SetWaitSynchronizationResult, SetWaitSynchronizationOutput. wp_step.
  eapply wp_set_register; [done|done|]. intros k1 H1 Ht1. destruct do_output; [|wp_step; by apply woke_same]. wp_step. eapply wp_deref; [done|]. wp_step.
  eapply wp_GetWaitObjectIndex; [exact Ht1|cbn; intros Hn; rewrite Hn in Ho; by apply not_elem_of_nil in Ho|]. intros i.
  eapply wp_set_register; [apply H1|exact Ht1|]. intros k2 H2 _. apply woke_same. by eapply same_waits_trans.
Qed.
Lemma wp_ipc_callback t th o x k : kernel_ok hole k -> thread_at t th k -> o ∈ wait_objects th -> status th = WaitSynchAny -> objects k !! o = Some x ->
  wp (IPCCallback_WakeUp Signal t (Some o)) (fun _ k' => woke t k k') k.
Proof.
  intros Hk Ht Ho Hst Hx. unfold IPCCallback_WakeUp, SetWaitSynchronizationResult, SetWaitSynchronizationOutput. wp_step.
  eapply wp_get_thread; [done|]. wp_step. wp_step; [by rewrite bool_decide_eq_true_2|]. wp_step. wp_step; [done|]. wp_step. eapply wp_deref; [done|].
  wp_step. eapply wp_get_any; [exact Hx|]. wp_step.
  assert (Hfin : forall (result : result_code) k1, woke t k k1 -> wp (update_thread t (fun th => th <| context ::= SetCpuRegister 0 result |>);;
    i ← GetWaitObjectIndex t o; update_thread t (fun th => th <| context ::= SetCpuRegister 1 (u32 i) |>)) (fun _ k' => woke t k k') k1).
  { intros result k1 H1. destruct (woke_at _ _ _ _ H1 Ht) as (th1 & Ht1 & Hw1 & _). wp_step. eapply wp_set_register; [apply H1|exact Ht1|].
    intros k2 H2 Ht2. wp_step. eapply wp_GetWaitObjectIndex; [exact Ht2|cbn; rewrite Hw1; intros Hn; rewrite Hn in Ho; by apply not_elem_of_nil in Ho|].
    intros i. eapply wp_set_register; [apply H2|exact Ht2|]. intros k3 H3 _. eapply woke_trans; [exact H1|]. apply woke_same. by eapply same_waits_trans. }
  destruct x; try (wp_step; apply Hfin; by apply woke_same, same_waits_refl).
  eapply wp_mono; [by eapply receive_ok|]. cbn beta. intros r k1 H1. by apply Hfin.
Qed.

Lemma wp_WakeUp cb t th o k : kernel_ok hole k -> thread_at t th k -> wakeup_callback th = Some cb -> sync_status (status th) = true ->
  o ∈ wait_objects th -> wp (WakeUp cb Signal t (Some o)) (fun _ k' => woke t k k') k.
Proof.
  intros Hk Ht Hcb Hst Ho. destruct (thread_at_in _ _ _ Ht) as (th1 & Ht1 & He). cbn in He. injection He as ->.
  pose proof (callbacks_ok _ _ (kernel_waits _ Hk) t _ Ht1) as [Hc _]. cbn in Hc. rewrite Hcb in Hc.
  destruct (waited_ok _ _ (kernel_waits _ Hk) t _ o Ht1 Ho) as (y & (x & Hx & _)%W_lookup_inv & _).
  destruct cb; cbn [WakeUp].
  - by eapply wp_sync_callback.
  - eapply wp_ipc_callback; try done. by apply Hc.
  - by rewrite Hc in Hst.
  - by eapply wake_service_ok.
Qed.
Lemma wp_invoke_callback t th o k : kernel_ok hole k -> thread_at t th k -> sync_status (status th) = true ->
  o ∈ wait_objects th -> wp (invoke_callback Signal t (Some o)) (fun _ k' => woke t k k') k.
Proof.
  intros Hk Ht Hst Ho. unfold invoke_callback. wp_step. eapply wp_get_thread; [done|].
  destruct (wakeup_callback th) as [cb|] eqn:Hcb; [by eapply wp_WakeUp|]. wp_step. by apply woke_same, same_waits_refl.
Qed.

(** ** Leaving the lists *)

Lemma filter_twice (P : oid -> Prop) `{!forall x, Decision (P x)} (l : list oid) : filter P (filter P l) = filter P l.
Proof. induction l as [|x l IH]; [done|]. rewrite !filter_cons. case_decide; [|done]. rewrite filter_cons, decide_True by done. by f_equal. Qed.

Lemma wp_leave_lists l t k0 k : kernel_ok hole k -> W k = W k0 -> (forall o, o ∈ l -> waitable (W k) o) -> (exists th, thread_in (W k) t th) ->
  (forall o, o ∉ l -> t ∉ waiters k o) -> (forall o, filter (fun u => u <> t) (waiters k o) = filter (fun u => u <> t) (waiters k0 o)) ->
  wp (for_each l (fun o => RemoveWaitingThread o t)) (fun _ k' => kernel_ok hole k' /\ W k' = W k0 /\
    forall o, waiters k' o = filter (fun u => u <> t) (waiters k0 o)) k.
Proof.
  revert k. induction l as [|o l IH]; intros k Hk HW Hl [th Hth] Hnot Hf; cbn [for_each].
  { wp_step. split; [done|]. split; [done|]. intros o. rewrite <- Hf. symmetry. specialize (Hnot o (not_elem_of_nil _)).
    induction (waiters k o) as [|u us IHu]; [done|]. rewrite not_elem_of_cons in Hnot. destruct Hnot as [Hu Hus].
    rewrite filter_cons, decide_True by done. f_equal. by apply IHu. }
  destruct (thread_in_at _ _ _ Hth) as (th' & Hth' & _). wp_step.
  eapply wp_mono; [eapply wp_RemoveWaitingThread; [done|apply Hl; by constructor|exact Hth']|].
  cbn beta. intros _ k1 (Hk1 & HW1 & Hl1). apply IH; [done|congruence| | | |].
  - intros o' Ho'. rewrite HW1. apply Hl. by constructor.
  - exists th. by rewrite HW1.
  - intros o' Ho'. rewrite Hl1. case_eq_dec o' o; [by rewrite list_elem_of_filter; intros [? _]|].
    apply Hnot. rewrite not_elem_of_cons. by split.
  - intros o'. rewrite Hl1. case_eq_dec o' o; [by rewrite filter_twice|done].
Qed.

(** A thread on no list may stop waiting. *)
Lemma waitable_thread w t th th' o : w !! t = Some (OThread th) -> waitable w o -> waitable (<[t := OThread th']> w) o.
Proof.
  intros Ht (x & Hx & Hi & Hp). destruct (decide (o = t)) as [->|].
  - exists (OThread th'). by rewrite lookup_insert_eq.
  - exists x. rewrite lookup_insert_ne by done. split; [done|]. split; [done|]. destruct x; try done. destruct Hp as (p & Hp).
    exists p. rewrite lookup_insert_ne; [done|]. congruence.
Qed.
Lemma waits_ok_thread w b t th th' : waits_ok hole w b -> (forall o, t ∉ b o) -> w !! t = Some (OThread th) -> wait_objects th' = [] -> callback_ok th' ->
  waits_ok hole (<[t := OThread th']> w) b.
Proof.
  intros [H1 H0 Hi H2 H3 H4 H5] Hno Ht Hw Hc.
  assert (Hin : forall u uh, thread_in (<[t := OThread th']> w) u uh -> (u = t /\ uh = th') \/ thread_in w u uh).
  { unfold thread_in. intros u uh. destruct (decide (u = t)) as [->|]; [|rewrite lookup_insert_ne by done; by right].
    rewrite lookup_insert_eq. intros [= <-]. by left. }
  split.
  - intros o u Hu Hn. destruct (H1 o u Hu Hn) as (uh & Huh & ?). exists uh. split; [|done]. unfold thread_in.
    rewrite lookup_insert_ne; [exact Huh|]. intros ->. by destruct (Hno o).
  - intros o u Hu. destruct (H0 o u Hu) as (Hwt & uh & Huh). split; [by eapply waitable_thread|]. exists uh. unfold thread_in.
    rewrite lookup_insert_ne; [exact Huh|]. intros ->. by destruct (Hno o).
  - intros u uh [[-> ->]|Hu]%Hin Hn Hs; [done|by eapply Hi].
  - done.
  - intros u uh o [[-> ->]|Hu]%Hin Ho; [rewrite Hw in Ho; by apply not_elem_of_nil in Ho|]. eapply waitable_thread; [done|by eapply H3].
  - intros u uh [[-> ->]|Hu]%Hin Hs; [rewrite Hw; constructor|by eapply H4].
  - intros u uh [[-> ->]|Hu]%Hin; [done|by eapply H5].
Qed.

(** [t] left all lists and became ready; the others may have been woken up too. *)
Record released (t : oid) k k' : Prop := {
  released_ok : kernel_ok hole k';
  released_calm : calm k k';
  released_lists o : t ∉ waiters k' o;
  released_thread : exists th, thread_at t th k' /\ status th = Ready /\ wait_objects th = [] /\ wakeup_callback th = None;
}.

(** A thread that is on no list is taken out of its waiting status. *)
Lemma wp_stop_waiting t th k : kernel_ok hole k -> thread_at t th k -> waiting (status th) = true -> (forall o, t ∉ waiters k o) ->
  wp (update_thread t (fun th => th <| wait_objects := [] |>);; ResumeFromWait t) (fun _ k' => released t k k') k.
Proof.
  intros Hk Ht Hw Hno. wp_step. eapply wp_update_thread; [done|]. set (th1 := th <| wait_objects := [] |>). set (k1 := set_thread t th1 k).
  assert (Ht1 : thread_at t th1 k1) by (apply thread_at_set; by left).
  assert (Hs1 : sched_ok k1) by (eapply sched_hole_eq; [by eapply sched_eq_thread|apply Hk]).
  eapply wp_ResumeFromWait; [exact Hs1|exact Ht1|done| | |].
  - intros Hr. cbn in Hr. by rewrite Hr in Hw.
  - cbn. by rewrite Hw.
  - intros _ m q'. cbv zeta. set (k2 := set_thread t (woken th1) _). intros Hm Hq Hs2.
    assert (HW : W k2 = <[t := erase (OThread (woken th1))]> (W k)).
    { unfold W, k2, k1, set_thread, set_queue, set_field. cbn. rewrite !fmap_insert. apply insert_insert_eq. }
    assert (Hin : W k !! t = Some (erase (OThread th))) by (by apply W_lookup).
    split.
    + split; [exact Hs2| |].
      * change (waits_ok hole (W k2) (waiters k)). rewrite HW. eapply waits_ok_thread; [apply Hk|exact Hno|exact Hin|done|done].
      * cbn. rewrite insert_insert_eq. eapply held_ok_insert; [apply Hk|exact Ht|]. exists th. split; [done|]. by apply mutexes_of_same.
    + split; try (rewrite HW); [| | | |done| |by intros o u Hu Hn; destruct (Hn Hu)].
      * intros n o (x & Hx & Hkd). unfold has_kind. destruct (decide (o = t)) as [->|]; [|rewrite lookup_insert_ne; eauto].
        rewrite lookup_insert_eq. eexists. split; [done|]. rewrite Hin in Hx. injection Hx as <-. exact Hkd.
      * intros u uh Hu Hd. unfold is_ready, thread_in in *. destruct (decide (u = t)) as [->|]; [|left; by rewrite lookup_insert_ne].
        rewrite Hin in Hu. injection Hu as <-. right. split; [cbn; intros E; by rewrite E in Hw|]. rewrite lookup_insert_eq. by eexists.
      * intros p page slot (pr & l & Hp & Hl). exists pr, l. rewrite lookup_insert_ne; [done|]. cbn in Hin. congruence.
      * intros o Ho. by eapply waitable_thread.
      * intros u (uh & Hu & Hr). destruct (decide (u = t)) as [->|]; unfold is_ready, thread_in.
        -- rewrite lookup_insert_eq. by eexists.
        -- rewrite lookup_insert_ne by done. by exists uh.
    + exact Hno.
    + exists (woken th1). split; [|done]. apply thread_at_set. by left.
Qed.

Lemma sync_waiting st : sync_status st = true -> waiting st = true.
Proof. by destruct st. Qed.
Lemma wp_leave_wait_objects t th k : kernel_ok hole k -> hole <> Some t -> thread_at t th k -> waiting (status th) = true ->
  wp (leave_wait_objects t;; ResumeFromWait t) (fun _ k' => released t k k') k.
Proof.
  intros Hk Hnh Ht Hst. destruct (thread_at_in _ _ _ Ht) as (th1 & Ht1 & He). cbn in He. injection He as ->.
  unfold leave_wait_objects.
  wp_step. wp_step. eapply wp_get_thread; [done|]. wp_step.
  eapply wp_mono; [apply (wp_leave_lists (wait_objects th) t k k Hk)|].
  - done.
  - intros o Ho. by eapply (waited_ok _ _ (kernel_waits _ Hk) t _ o Ht1).
  - by eexists.
  - intros o Ho Hin. destruct (waiter_ok _ _ (kernel_waits _ Hk) _ _ Hin Hnh) as (th2 & Ht2 & _ & Ho2).
    unfold thread_in in Ht1, Ht2. rewrite Ht1 in Ht2. injection Ht2 as <-. by destruct Ho.
  - done.
  - cbn beta. intros _ k1 (Hk1 & HW1 & Hl1). unfold thread_in in Ht1. rewrite <- HW1 in Ht1. destruct (thread_in_at _ _ _ Ht1) as (th3 & Ht3 & He3).
    assert (status th3 = status th) as Est by (cbn in He3; by injection He3). apply wp_unbind.
    eapply wp_mono; [eapply (wp_stop_waiting t th3 k1); [done|exact Ht3| |]|].
    + by rewrite Est.
    + intros o. rewrite Hl1. by rewrite list_elem_of_filter; intros [? _].
    + cbn beta. intros _ k2 [R1 [Cm Cd Cs C1 C2 C3 C4] R3 (th4 & R4 & Hr & ?)]. split; [done| |done|by exists th4]. split.
      * intros n o. rewrite <- HW1. apply Cm.
      * intros u uh Hu. apply Cd. by rewrite HW1.
      * intros p page slot. rewrite <- HW1. apply Cs.
      * intros o Ho. apply C1. by rewrite HW1.
      * intros o. etrans; [apply C2|]. rewrite Hl1. apply sublist_filter.
      * intros u Hu. apply C3. by rewrite HW1.
      * intros o u Hu Hn. destruct (decide (u = t)) as [->|Hne].
        -- destruct (thread_at_in _ _ _ R4) as (th5 & Ht5 & He5). exists th5. split; [done|]. cbn in He5. by injection He5 as ->.
        -- apply (C4 o u); [|done]. rewrite Hl1. by apply list_elem_of_filter.
Qed.

(** ** The loop *)

(** What the thread [t] acquires when it is woken up by [this]. *)
Definition wanted (w : gmap oid Object) (this t : oid) : list oid :=
  match w !! t with Some (OThread th) => if bool_decide (status th = WaitSynchAll) then wait_objects th else [this] | _ => [] end.
(** One turn: [t] acquires what it wants, its callback runs, it leaves all lists. *)
Record wakes_one (this t : oid) k k' : Prop := {
  wakes_first : first_best k this (waiters k this) (ThreadPrioLowest + 1) t;
  wakes_acquires : exists k1, kernel_ok hole k1 /\ calm k k1 /\ W k1 = foldl (take_at t) (W k) (wanted (W k) this t) /\ calm k1 k';
  wakes_released : released t k k';
}.
(** The loop: turns as long as a waiting thread can proceed. *)
Inductive woken_up (this : oid) : KernelSystem D IS -> KernelSystem D IS -> Prop :=
  | woken_none k : kernel_ok hole k -> (forall t, t ∈ waiters k this -> ~ ready_for (W k) this t) -> woken_up this k k
  | woken_one t k k1 k2 : wakes_one this t k k1 -> woken_up this k1 k2 -> woken_up this k k2.
Lemma woken_up_calm this k k' : woken_up this k k' -> kernel_ok hole k' /\ calm k k'.
Proof.
  induction 1 as [k Hk _|t k k1 k2 [_ _ [R1 R2 _ _]] _ [IH1 IH2]]; [done|]. split; [done|]. by etrans.
Qed.

Lemma wp_acquire_wanted this t th k : kernel_ok hole k -> thread_at t th k -> thread_in (W k) t (th <| context := reset_context |> <| current_priority := 0 |> <| nominal_priority := 0 |> <| held_mutexes := [] |> <| pending_mutexes := [] |>) ->
  this ∈ wait_objects th -> ready_for (W k) this t ->
  wp (if bool_decide (status th = WaitSynchAll) then for_each (wait_objects th) (fun o => Acquire o t) else Acquire this t)
    (fun _ k' => woke t k k' /\ W k' = foldl (take_at t) (W k) (wanted (W k) this t)) k.
Proof.
  intros Hk Ht Ht1 Ho [Hs Hall]. assert (Hw : forall o, o ∈ wait_objects th -> waitable (W k) o) by (intros o Ho'; by apply (waited_ok _ _ (kernel_waits _ Hk) t _ o Ht1)).
  unfold wanted. unfold thread_in in Ht1. rewrite Ht1. cbn. case_bool.
  - eapply wp_mono; [apply wp_acquire_all; [done| | |by eexists]|].
    + by apply (waited_nodup _ _ (kernel_waits _ Hk) t _ Ht1).
    + intros o Ho'. split; [by apply Hw|]. by apply (Hall _ Ht1).
    + cbn beta. intros _ k' (H1 & H2 & H3 & H4). split; [|done]. split; [done|]. split; [done|]. rewrite Ht1. by apply H4.
  - eapply wp_mono; [eapply wp_acquire; [done|by apply Hw|done|by eexists]|]. cbn beta. intros _ k' (y' & H & HW).
    split; [|done]. split; [apply H|]. split; [by eapply acquired_calm|]. rewrite Ht1. by apply (acquired_thread _ _ _ _ _ _ H).
Qed.
Lemma wp_wake_one this t k : kernel_ok hole k -> hole <> Some t -> first_best k this (waiters k this) (ThreadPrioLowest + 1) t ->
  wp (wake_one this t) (fun _ k' => wakes_one this t k k') k.
Proof.
  intros Hk Hnh Hfb. pose proof Hfb as (Hready & _ & pre & post & Heq & _).
  assert (Hin : t ∈ waiters k this) by (rewrite Heq; apply elem_of_app; right; by left).
  destruct (waiter_ok _ _ (kernel_waits _ Hk) _ _ Hin Hnh) as (th1 & Ht1 & Hst & Ho).
  destruct (thread_in_at _ _ _ Ht1) as (th & Ht & He). cbn in He. injection He as ->. cbn in Hst, Ho.
  unfold wake_one. wp_step. eapply wp_get_thread; [done|]. wp_step.
  eapply wp_mono; [by eapply wp_acquire_wanted|]. cbn beta. intros _ k1 [H1 HW1]. destruct (woke_at _ _ _ _ H1 Ht) as (th2 & Ht2 & Hw2 & Hs2 & _).
  wp_step. eapply wp_mono; [eapply wp_invoke_callback; [apply H1|exact Ht2|by rewrite Hs2|by rewrite Hw2]|].
  cbn beta. intros _ k2 H2. destruct (woke_at _ _ _ _ H2 Ht2) as (th3 & Ht3 & _ & Hs3 & _).
  eapply wp_mono; [eapply wp_leave_wait_objects; [apply H2|done|exact Ht3|apply sync_waiting; by rewrite Hs3, Hs2]|].
  cbn beta. intros _ k3 [R1 R2 R3 R4]. split; [done| |split; [done| |done|done]].
  - exists k1. split; [apply H1|]. split; [apply H1|]. split; [done|]. etrans; [apply H2|done].
  - etrans; [apply H1|]. etrans; [apply H2|done].
Qed.

Lemma sublist_shorter (l l' : list oid) t : l `sublist_of` l' -> t ∈ l' -> t ∉ l -> (length l < length l')%nat.
Proof.
  induction 1 as [|x l l' Hs IH|x l l' Hs IH]; [by intros ?%not_elem_of_nil| |]; rewrite ?elem_of_cons; cbn.
  - intros Hx Hn. assert (Hl : (length l < length l')%nat) by (apply IH; tauto). lia.
  - intros _ _. pose proof (sublist_length _ _ Hs). lia.
Qed.
Lemma wp_wakeup_loop fuel this k : kernel_ok hole k -> waitable (W k) this -> (forall t, t ∈ waiters k this -> hole <> Some t) -> (length (waiters k this) <= fuel)%nat ->
  wp (wakeup_loop fuel this) (fun _ k' => woken_up this k k') k.
Proof.
  revert k. induction fuel as [|fuel IH]; intros k Hk Hthis Hnh Hlen; cbn [wakeup_loop]; wp_step.
  all: eapply wp_mono; [by eapply wp_GetHighestPriorityReadyThread|]; cbn beta; intros r k' [-> Hr]; destruct r as [t|]; [|by wp_step; constructor].
  all: pose proof Hr as (_ & _ & pre & post & Heq & _);
    assert (Hin : t ∈ waiters k this) by (rewrite Heq; apply elem_of_app; right; by left).
  { exfalso. rewrite Heq, length_app in Hlen. cbn in Hlen. lia. }
  wp_step. eapply wp_mono; [apply wp_wake_one; [done|by apply Hnh|done]|]. cbn beta. intros _ k1 Hk1. pose proof (wakes_released _ _ _ _ Hk1) as [R1 R2 R3 R4].
  assert (Hlt : (length (waiters k1 this) < length (waiters k this))%nat).
  { eapply sublist_shorter; [apply R2|exact Hin|apply R3]. }
  eapply wp_mono; [apply IH; [done|by apply R2|intros u Hu; apply Hnh; eapply elem_of_sublist; [exact Hu|apply R2]|lia]|]. cbn beta. intros _ k2 H2. by eapply woken_one.
Qed.

(** The notifier, if there is one. *)
Lemma wp_notifier this k : kernel_ok hole k -> wp (k ← get; match hle_notifier (wait_base this k) with Some n => notify n | None => mret tt end)
  (fun _ k' => kernel_ok hole k' /\ calm k k') k.
Proof. intros Hk. do 2 wp_step. destruct (hle_notifier _); [by apply notify_ok|by wp_step]. Qed.

Lemma wp_WakeupAllWaitingThreads this k : kernel_ok hole k -> waitable (W k) this -> (forall t, t ∈ waiters k this -> hole <> Some t) ->
  wp (WakeupAllWaitingThreads this) (fun _ k' => kernel_ok hole k' /\ exists k1, woken_up this k k1 /\ calm k1 k' /\
    match objects k' !! this with
    | Some (OEvent e) => event_reset_type e = Pulse -> event_signaled e = false
    | Some (OTimer t) => timer_reset_type t = Pulse -> timer_signaled t = false
    | _ => True
    end) k.
Proof.
  intros Hk Hthis Hnh. unfold WakeupAllWaitingThreads, WaitObject_WakeupAllWaitingThreads. wp_step. do 2 wp_step. wp_step. fold (waiters k this).
  eapply wp_mono; [by apply wp_wakeup_loop|]. cbn beta. intros _ k1 H1.
  eapply wp_mono; [by apply wp_notifier, (woken_up_calm this k)|]. cbn beta. intros _ k2 [Hk2 Hc2].
  destruct (calm_waitable _ _ Hc2 this (calm_waitable _ _ (proj2 (woken_up_calm _ _ _ H1)) this Hthis)) as (y & (x & Hx & ->)%W_lookup_inv & Hw & _).
  wp_step. eapply wp_get_any; [exact Hx|].
  assert (Hno : match x with OEvent e => event_reset_type e <> Pulse | OTimer t => timer_reset_type t <> Pulse | _ => True end ->
    wp (mret tt) (fun _ k' => kernel_ok hole k' /\ exists k1, woken_up this k k1 /\ calm k1 k' /\
    match objects k' !! this with
    | Some (OEvent e) => event_reset_type e = Pulse -> event_signaled e = false
    | Some (OTimer t) => timer_reset_type t = Pulse -> timer_signaled t = false
    | _ => True
    end) k2).
  { intros Hn. wp_step. split; [done|]. exists k1. split; [done|]. split; [done|]. rewrite Hx. by destruct x. }
  destruct x; try done; try (by apply Hno).
  all: case_bool; [|by apply Hno]; eapply wp_update_any; [exact Hx|done|]; set (k3 := set_object _ _ _).
  all: assert (exists y', acquired hole this y' k2 k3) as [y' H3]
    by (eexists; eapply acquired_object; try done; cbn; eapply held_ok_insert; [apply Hk2|exact Hx|done]).
  all: split; [apply H3|]; exists k1; split; [done|]; split; [etrans; [exact Hc2|by eapply acquired_calm]|]; cbn; by rewrite lookup_insert_eq.
Qed.
End Wakeup.
Arguments woke {D IS} hole t k k'.
Arguments released {D IS} hole t k k'.
Arguments wakes_one {D IS} hole this t k k'.
Arguments woken_up {D IS} hole this k k'.

(** ** Properties *)


(** The thread woken up first is, among those that can proceed (the object is
    available to it and, if it waits for all its objects, the others are too), the
    first in the list of those with the best priority; there is none only when no
    waiting thread can proceed. *)
Theorem GetHighestPriorityReadyThread_spec {D IS} (hooks : Hooks D IS) this (k : KernelSystem D IS) :
  kernel_ok None k -> waitable (W k) this ->
  wp (GetHighestPriorityReadyThread this) (fun r k' => k' = k /\
    match r with
    | None => forall t, t ∈ waiters k this -> ~ ready_for (W k) this t
    | Some t => first_best k this (waiters k this) (ThreadPrioLowest + 1) t
    end) k.
Proof. intros Hk Hthis. by apply (wp_GetHighestPriorityReadyThread (hole := None)). Qed.

(** A thread that waits for all of its objects and names a one-shot event twice
    brings the emulator down when the event is signaled: the first acquisition
    clears the event, and the second one fails its assertion. *)
Theorem acquire_twice_fails {D IS} (hooks : Hooks D IS) o t e (k : KernelSystem D IS) :
  objects k !! o = Some (OEvent e) -> event_signaled e = true -> event_reset_type e = OneShot ->
  for_each [o; o] (fun o => Acquire o t) k = Crash AssertFailed.
Proof.
  intros Ho Hs Hr. assert (H1 : Acquire o t k = Ret (tt, set_object o (OEvent (e <| event_signaled := false |>)) k)).
  { unfold Acquire, get_any, ShouldWait, update_event, update_object, get_object, deref, get, get_any, mbind, M_bind, mret, M_ret. cbn.
    unfold get. rewrite Ho. cbn. rewrite Ho. cbn. rewrite Hs. cbn. rewrite bool_decide_eq_true_2 by done. cbn. by rewrite Ho. }
  cbn [for_each]. unfold mbind at 1, M_bind. rewrite H1. unfold mbind at 1, M_bind.
  unfold Acquire, get_any, ShouldWait, get, get_any, deref, mbind, M_bind. cbn. rewrite lookup_insert_eq. cbn. unfold deref. cbn. rewrite lookup_insert_eq. done.
Qed.

(** ** Witnesses *)

#[export] Instance demo_hooks : Hooks unit unit := {|
  ReceiveIPCRequest _ _ := mret RESULT_SUCCESS;
  wake_service _ _ _ _ := mret tt;
  notify _ := mret tt;
|}.
Lemma demo_hooks_ok : HooksOk demo_hooks.
Proof. split; intros; by apply wp_ret. Qed.

Lemma demo_waiters o : waiters demo_kernel o = if bool_decide (o = 20) then [13] else [].
Proof.
  unfold waiters, wait_base, demo_kernel. cbn [wait_bases]. case_eq_dec o 20; [by rewrite lookup_singleton_eq|by rewrite lookup_singleton_ne].
Qed.
Definition demo_waiting : Thread := (demo_thread WaitSynchAny 0 true) <| wait_objects := [20] |> <| wakeup_callback := Some (SVC_SyncCallback true) |>.
Lemma demo_waiter o t : t ∈ waiters demo_kernel o -> o = 20 /\ t = 13.
Proof. rewrite demo_waiters. case_bool; [|by intros ?%not_elem_of_nil]. subst. by intros ->%list_elem_of_singleton. Qed.
(** The other threads wait for nothing. *)
Lemma demo_thread_in t th : thread_in (W demo_kernel) t th ->
  (t = 13 /\ th = demo_waiting) \/ (t <> 13 /\ wait_objects th = [] /\ sync_status (status th) = false /\ wakeup_callback th = None).
Proof.
  intros (th' & Ht & He)%thread_in_at. cbn in He. injection He as ->. unfold thread_at, demo_kernel, demo_objects in Ht. cbn [KernelState.objects] in Ht.
  repeat (apply lookup_insert_Some in Ht as [[<- Ht]|[? Ht]]; [first [discriminate | injection Ht as <-; naive_solver]|]).
  by apply lookup_singleton_Some in Ht as [<- ?].
Qed.
Lemma demo_object o x : objects demo_kernel !! o = Some x ->
  x = OProcess demo_process \/ (exists th, x = OThread th /\ held_mutexes th = [] /\ pending_mutexes th = []) \/ exists e, x = OEvent e.
Proof.
  intros H. unfold demo_kernel, demo_objects in H. cbn [KernelState.objects] in H.
  repeat (apply lookup_insert_Some in H as [[<- <-]|[? H]]; [first [by left | right; left; by eexists | right; right; by eexists]|]).
  apply lookup_singleton_Some in H as [<- <-]. right; right. by eexists.
Qed.
Lemma demo_event : W demo_kernel !! 20 = Some (OEvent (mkEventObject OneShot true "event")).
Proof. done. Qed.
Lemma demo_event_waitable : waitable (W demo_kernel) 20.
Proof. eexists. split; [exact demo_event|done]. Qed.
Lemma demo_kernel_waits : kernel_ok None demo_kernel.
Proof.
  split; [exact demo_kernel_ok| |].
  - split.
    + intros o t Ht%demo_waiter _. destruct Ht as [-> ->]. exists demo_waiting. split; [done|]. split; [done|]. by apply list_elem_of_singleton.
    + intros o t Ht%demo_waiter. destruct Ht as [-> ->]. split; [exact demo_event_waitable|]. by exists demo_waiting.
    + intros t th [[-> ->]|(_ & -> & _)]%demo_thread_in _ Hs; done.
    + intros o. rewrite demo_waiters. case_bool; repeat constructor. by apply not_elem_of_nil.
    + intros t th o [[-> ->]|(_ & -> & _)]%demo_thread_in Ho; [|by apply not_elem_of_nil in Ho].
      apply list_elem_of_singleton in Ho as ->. exact demo_event_waitable.
    + intros t th [[-> ->]|(_ & -> & _)]%demo_thread_in; [done|constructor].
    + intros t th [[-> ->]|(_ & _ & _ & H)]%demo_thread_in; [split; [done|by intros [?|?]]|]. unfold callback_ok. by rewrite H.
  - split.
    + intros t th m Ht. destruct (demo_object _ _ Ht) as [E|[(th' & [= <-] & _ & ->)|[e E]]]; [done| |done]. by intros ?%not_elem_of_nil.
    + intros t th m Ht. destruct (demo_object _ _ Ht) as [E|[(th' & [= <-] & -> & _)|[e E]]]; [done| |done]. by intros ?%not_elem_of_nil.
    + intros m mx t Hm. by destruct (demo_object _ _ Hm) as [E|[(th' & ? & _)|[e E]]].
    + intros o s Ho. by destruct (demo_object _ _ Ho) as [E|[(th' & ? & _)|[e E]]].
    + intros o p Ho. destruct (demo_object _ _ Ho) as [E|[(th' & ? & _)|[e E]]]; [|done..]. assert (p = demo_process) as -> by congruence.
      exact HandleTable.new_valid.
Qed.

Lemma GetHighestPriorityReadyThread_spec_witness : GetHighestPriorityReadyThread 20 demo_kernel = Ret (Some 13, demo_kernel).
Proof.
  destruct (wp_inv _ _ _ (GetHighestPriorityReadyThread_spec demo_hooks 20 demo_kernel demo_kernel_waits demo_event_waitable)) as (r & k' & He & -> & Hr).
  rewrite He. destruct r as [t|].
  - destruct Hr as (_ & _ & pre & post & Heq & _). rewrite demo_waiters, bool_decide_eq_true_2 in Heq by done.
    destruct pre as [|? [|? pre]]; [by injection Heq as <- _|done..].
  - exfalso. apply (Hr 13); [rewrite demo_waiters, bool_decide_eq_true_2 by done; by apply list_elem_of_singleton|]. split; [done|].
    intros th [[_ ->]|[H _]]%demo_thread_in; done.
Defined.
Lemma demo_ready : ready_for (W demo_kernel) 20 13.
Proof. split; [done|]. intros th [[_ ->]|[H _]]%demo_thread_in; done. Qed.
Lemma acquire_twice_fails_witness : for_each [20; 20] (fun o => Acquire o 13) demo_kernel = Crash AssertFailed.
Proof. by apply (acquire_twice_fails demo_hooks 20 13 (mkEventObject OneShot true "event") demo_kernel). Defined.
