(* ===== verification/SyncObjects.v ===== *)
(** Making, signaling and releasing the objects threads wait for
    (src/.../core/hle/kernel/{mutex,semaphore,event,timer,address_arbiter}.cpp). *)

From S2P Require Import Prelude ResultCode ThreadQueueList HandleTable MemoryMap ResourceLimit IntervalSet MemoryRegion Memory MemoryAccess VmManager CoreTiming KernelState Thread WaitObject.

Section SyncObjects.
Context {D IS : Type} {hooks : Hooks D IS}.
Abbreviation M := (M (KernelSystem D IS)).
Implicit Types (k : KernelSystem D IS).

(** The current thread of the running core, which the code dereferences. *)
Definition running_thread : M oid := k ← get; t ← GetCurrentThread (current_cpu k); deref t.

(** ** Mutexes *)

(** [KernelSystem::CreateMutex] *)
Definition CreateMutex (initial_locked : bool) (name : string) : M oid :=
  mutex ← make_shared (OMutex (mkMutex 0 0 name None));
  (if initial_locked then thread ← running_thread; Acquire mutex thread else mret tt);;
  mret mutex.

(** [Mutex::Release] *)
Definition ERR_WRONG_LOCKING_THREAD : result_code :=
  ResultCode ErrCodes.WrongLockingThread ErrorModule.Kernel ErrorSummary.InvalidArgument ErrorLevel.Permanent.
Definition ERR_MUTEX_NOT_LOCKED : result_code :=
  ResultCode ErrorDescription.InvalidResultValue ErrorModule.Kernel ErrorSummary.InvalidState ErrorLevel.Permanent.
Definition Mutex_unlock (this holder : oid) : M unit :=
  update_thread holder (fun th => th <| held_mutexes ::= flat_erase this |>);;
  UpdatePriority holder;;
  update_mutex this (fun m => m <| holding_thread := None |>);;
  WakeupAllWaitingThreads this;;
  PrepareReschedule.
Definition Mutex_Release (this thread : oid) : M result_code :=
  m ← get_mutex this;
  if negb (bool_decide (holding_thread m = Some thread)) then mret ERR_WRONG_LOCKING_THREAD
  else if lock_count m <=? 0 then mret ERR_MUTEX_NOT_LOCKED
  else
    update_mutex this (fun m => m <| lock_count ::= fun n => n - 1 |>);;
    (if lock_count m - 1 =? 0 then Mutex_unlock this thread else mret tt);;
    mret RESULT_SUCCESS.

(** [ReleaseThreadMutexes] *)
Definition release_thread_mutex (mtx : oid) : M unit :=
  update_mutex mtx (fun m => m <| lock_count := 0 |>);;
  update_mutex mtx (fun m => m <| holding_thread := None |>);;
  WakeupAllWaitingThreads mtx.
Definition ReleaseThreadMutexes (thread : oid) : M unit :=
  th ← get_thread thread;
  for_each (held_mutexes th) release_thread_mutex;;
  update_thread thread (fun th => th <| held_mutexes := [] |>).

(** ** Semaphores *)

(** [KernelSystem::CreateSemaphore] *)
Definition CreateSemaphore (initial_count max_count : Z) (name : string) : M (ResultVal oid) :=
  if max_count <? initial_count then mret (Failure ERR_INVALID_COMBINATION_KERNEL)
  else semaphore ← make_shared (OSemaphore (mkSemaphore max_count initial_count name)); mret (Success semaphore).

(** [Semaphore::Release]; the difference and the sum are those of [s32]. *)
Definition get_semaphore : oid -> M Semaphore := get_object as_semaphore.
Definition Semaphore_Release (this : oid) (release_count : Z) : M (ResultVal Z) :=
  s ← get_semaphore this;
  if s32 (max_count s - available_count s) <? release_count then mret (Failure ERR_OUT_OF_RANGE_KERNEL)
  else
    update_semaphore this (fun s => s <| available_count ::= fun n => s32 (n + release_count) |>);;
    WakeupAllWaitingThreads this;;
    mret (Success (available_count s)).

(** ** Events *)

(** [KernelSystem::CreateEvent], [Event::Signal], [Event::Clear] *)
Definition CreateEvent (reset_type : ResetType) (name : string) : M oid := make_shared (OEvent (mkEventObject reset_type false name)).
Definition Event_Signal (this : oid) : M unit :=
  update_event this (fun e => e <| event_signaled := true |>);;
  WakeupAllWaitingThreads this.
Definition Event_Clear (this : oid) : M unit := update_event this (fun e => e <| event_signaled := false |>).

(** ** Timers *)

Definition get_timer_object : oid -> M TimerObject := get_object as_timer.

(** [KernelSystem::CreateTimer] *)
Definition CreateTimer (reset_type : ResetType) (name : string) : M oid :=
  modify (fun k => k <| timer_manager ::= fun m => m <| next_timer_callback_id ::= fun n => u64 (n + 1) |> |>);;
  k ← get;
  let callback_id := next_timer_callback_id (timer_manager k) in
  timer ← make_shared (OTimer (mkTimerObject reset_type 0 0 false name callback_id));
  modify (fun k => k <| timer_manager ::= fun m => m <| timer_callback_table ::= <[callback_id := timer]> |> |>);;
  mret timer.

(** [Timer::Cancel], [Timer::Clear] *)
Definition Timer_Cancel (this : oid) : M unit :=
  t ← get_timer_object this;
  k ← get;
  timing_op (UnscheduleEvent (timer_callback_event_type (timer_manager k)) (callback_id t)).
Definition Timer_Clear (this : oid) : M unit := update_timer this (fun t => t <| timer_signaled := false |>).

(** [Timer::Signal]; the delay of the interval is a [u64]. *)
Definition schedule_timer (this : oid) (cycles : Z) : M unit :=
  t ← get_timer_object this;
  k ← get;
  timing_op (ScheduleEvent cycles (timer_callback_event_type (timer_manager k)) (callback_id t) None).
Definition Timer_Signal (this : oid) (cycles_late : Z) : M unit :=
  update_timer this (fun t => t <| timer_signaled := true |>);;
  WakeupAllWaitingThreads this;;
  t ← get_timer_object this;
  if interval_delay t =? 0 then mret tt else schedule_timer this (nsToCycles_u64 (interval_delay t) - cycles_late).

(** [Timer::Set] *)
Definition Timer_Set (this : oid) (initial interval : Z) : M unit :=
  Timer_Cancel this;;
  update_timer this (fun t => t <| initial_delay := u64 initial |> <| interval_delay := u64 interval |>);;
  if initial =? 0 then Timer_Signal this 0 else schedule_timer this (nsToCycles initial).

(** [TimerManager::TimerCallback]; [at] throws for an unknown id. *)
Definition TimerCallback (callback_id cycles_late : Z) : M unit :=
  k ← get;
  timer ← deref (timer_callback_table (timer_manager k) !! callback_id);
  Timer_Signal timer cycles_late.

(** ** Address arbiters *)

Inductive ArbitrationType := ArbitrateSignal | WaitIfLessThan | DecrementAndWaitIfLessThan | WaitIfLessThanWithTimeout | DecrementAndWaitIfLessThanWithTimeout.
(** [static_cast<ArbitrationType>] of a value; [None] is the default case of the switch. *)
Definition arbitration_type (type : Z) : option ArbitrationType :=
  if type =? 0 then Some ArbitrateSignal else if type =? 1 then Some WaitIfLessThan
  else if type =? 2 then Some DecrementAndWaitIfLessThan else if type =? 3 then Some WaitIfLessThanWithTimeout
  else if type =? 4 then Some DecrementAndWaitIfLessThanWithTimeout else None.

(** [KernelSystem::CreateAddressArbiter] *)
Definition CreateAddressArbiter (name : string) : M oid := make_shared (OAddressArbiter (mkAddressArbiter name [])).
Definition get_arbiter : oid -> M AddressArbiter := get_object as_arbiter.
Definition update_arbiter : oid -> (AddressArbiter -> AddressArbiter) -> M unit := update_object as_arbiter OAddressArbiter.

(** [AddressArbiter::WaitThread] *)
Definition WaitThread (this thread : oid) (wait_address : VAddr) : M unit :=
  update_thread thread (fun th => th <| KernelState.wait_address := wait_address |>);;
  update_thread thread (fun th => th <| status := WaitArb |>);;
  update_arbiter this (fun a => a <| arbiter_threads ::= fun l => l ++ [thread] |>).

(** [std::stable_partition] by the address waited for: the others, and those that match. *)
Fixpoint partition_waiting (address : VAddr) (threads : list oid) : M (list oid * list oid) :=
  match threads with
  | [] => mret ([], [])
  | t :: rest =>
      th ← get_thread t;
      ASSERT (bool_decide (status th = WaitArb));;
      p ← partition_waiting address rest;
      mret (if wait_address th =? address then (p.1, t :: p.2) else (t :: p.1, p.2))
  end.
(** [AddressArbiter::ResumeAllThreads] *)
Definition ResumeAllThreads (this : oid) (address : VAddr) : M unit :=
  a ← get_arbiter this;
  p ← partition_waiting address (arbiter_threads a);
  update_arbiter this (fun a => a <| arbiter_threads := p.1 ++ p.2 |>);;
  for_each p.2 ResumeFromWait;;
  update_arbiter this (fun a => a <| arbiter_threads := p.1 |>).

(** [std::min_element] by current priority: the first of the least, with what is before and after it. *)
Fixpoint min_element (best : oid) (before seen rest : list oid) : M (list oid * oid * list oid) :=
  match rest with
  | [] => mret (before, best, seen)
  | t :: rest' =>
      th ← get_thread t;
      b ← get_thread best;
      if current_priority th <? current_priority b then min_element t (before ++ best :: seen) [] rest'
      else min_element best before (seen ++ [t]) rest'
  end.
(** [AddressArbiter::ResumeHighestPriorityThread] *)
Definition ResumeHighestPriorityThread (this : oid) (address : VAddr) : M (option oid) :=
  a ← get_arbiter this;
  p ← partition_waiting address (arbiter_threads a);
  update_arbiter this (fun a => a <| arbiter_threads := p.1 ++ p.2 |>);;
  match p.2 with
  | [] => mret None
  | t :: rest =>
      r ← min_element t [] [] rest;
      let '(before, thread, after) := r in
      ResumeFromWait thread;;
      update_arbiter this (fun a => a <| arbiter_threads := p.1 ++ before ++ after |>);;
      mret (Some thread)
  end.
End SyncObjects.
