(* ===== verification/ThreadLife.v ===== *)
(** The life of a thread (src/.../core/hle/kernel/thread.cpp): its creation, its
    wake-up by the timer, and its end. *)

From S2P Require Import Prelude ResultCode ThreadQueueList HandleTable MemoryMap ResourceLimit IntervalSet MemoryRegion Memory MemoryAccess VmManager CoreTiming KernelState Thread WaitObject SyncObjects.

Section ThreadLife.
Context `{Host} {D IS : Type} `{Devices D} {ops : IntervalSetOps IS} {hooks : Hooks D IS}.
Abbreviation M := (M (KernelSystem D IS)).
Implicit Types (k : KernelSystem D IS).

(** ** The parts of the kernel the creation of a thread uses *)

(** The address space of a process, with the memory system it refers to. *)
Definition vm_op {A} (process : oid) (m : Prelude.M (VmState D) A) : M A :=
  p ← get_process process;
  k ← get;
  match m (mkVmState (vm_manager p) (KernelState.memory k) (KernelState.memory_changed k)) with
  | Crash f => crash f
  | Ret (a, s) =>
      update_process process (fun p => p <| vm_manager := vm s |>);;
      modify (fun k => k <| KernelState.memory := VmManager.memory s |> <| KernelState.memory_changed := VmManager.memory_changed s |>);;
      mret a
  end.
(** A memory region of the kernel. *)
Definition region_op {A} (region : nat) (m : Prelude.M (MemoryRegionInfo IS) A) : M A := fun k =>
  match memory_regions k !! region with
  | None => Crash UndefinedBehaviour
  | Some r => match m r with Ret (a, r') => Ret (a, k <| memory_regions ::= <[region := r']> |>) | Crash f => Crash f end
  end.
(** The page table of a process. *)
Definition page_table_of (process : oid) : M Z := p ← get_process process; mret (page_table (vm_manager p)).

(** ** The end of a thread *)

(** [Thread::Stop] *)
Definition tls_page_of (tls_address : VAddr) : Z := u32 (tls_address - TLS_AREA_VADDR) / CITRA_PAGE_SIZE.
Definition tls_slot_of (tls_address : VAddr) : Z := (u32 (tls_address - TLS_AREA_VADDR) mod CITRA_PAGE_SIZE) / TLS_ENTRY_SIZE.
Definition release_tls (this : oid) : M unit :=
  th ← get_thread this;
  match owner_process th with
  | None => mret tt
  | Some process =>
      p ← get_process process;
      page ← deref (tls_slots p !! Z.to_nat (tls_page_of (tls_address th)));
      _ ← deref (page !! Z.to_nat (tls_slot_of (tls_address th)));
      update_process process (fun p =>
        p <| tls_slots ::= alter (<[Z.to_nat (tls_slot_of (tls_address th)) := false]>) (Z.to_nat (tls_page_of (tls_address th))) |>)
  end.
Definition Stop (this : oid) : M unit :=
  th ← get_thread this;
  m ← get_manager (core_id th);
  timing_op (UnscheduleEvent (ThreadWakeupEventType m) (thread_id th));;
  manager_op (core_id th) (modify (fun m => m <| wakeup_callback_table ::= delete (thread_id th) |>));;
  (if bool_decide (status th = Ready) then queue_op (core_id th) (remove (level_of (current_priority th)) this) else mret tt);;
  update_thread this (fun th => th <| status := Dead |>);;
  WakeupAllWaitingThreads this;;
  leave_wait_objects this;;
  ReleaseThreadMutexes this;;
  release_tls this.

(** [ThreadManager::ExitCurrentThread] *)
Definition ExitCurrentThread (core : nat) : M unit :=
  cur ← GetCurrentThread core;
  thread ← deref cur;
  Stop thread;;
  manager_op core (modify (fun m => m <| thread_list ::= filter (fun t => t <> thread) |>)).

(** ** The timer of a thread *)

(** [ThreadManager::ThreadWakeupCallback]; [at] throws for an unknown id. *)
Definition timeout_status (st : ThreadStatus) : bool :=
  match st with WaitSynchAny | WaitSynchAll | WaitArb | WaitHleEvent => true | _ => false end.
Definition wake_by_timeout (thread : oid) : M unit :=
  th ← get_thread thread;
  (if timeout_status (status th) then invoke_callback Timeout thread None;; leave_wait_objects thread else mret tt);;
  ResumeFromWait thread.
Definition ThreadWakeupCallback (core : nat) (thread_id cycles_late : Z) : M unit :=
  m ← get_manager core;
  thread ← deref (wakeup_callback_table m !! thread_id);
  wake_by_timeout thread.

(** ** The creation of a thread *)

Definition ERR_INVALID_ENTRY_POINT : result_code :=
  ResultCode ErrorDescription.InvalidAddress ErrorModule.Kernel ErrorSummary.InvalidArgument ErrorLevel.Permanent.

(** The thread record of [KernelSystem::CreateThread], before its context is set *)
Definition new_thread (name : string) (entry_point : VAddr) (priority : Z) (processor_id : Z) (stack_top : VAddr)
    (owner_process : oid) (thread_id ticks : Z) : Thread :=
  mkThread reset_context thread_id true Dormant entry_point stack_top priority priority ticks processor_id 0 [] []
    (Some owner_process) [] 0 name None (Z.to_nat processor_id).

(** Finding a slot for the thread-local storage, in a new page if there is none. *)
Definition add_tls_page (process : oid) : M (ResultVal nat) :=
  region ← GetMemoryRegion MemoryRegion_BASE;
  offset ← region_op region (LinearAllocate CITRA_PAGE_SIZE);
  match offset with
  | None => mret (Failure ERR_OUT_OF_MEMORY)
  | Some offset =>
      update_process process (fun p => p <| memory_used ::= fun n => u32 (n + CITRA_PAGE_SIZE) |> <| tls_slots ::= fun l => l ++ [replicate 8 false] |>);;
      p ← get_process process;
      let page := (length (tls_slots p) - 1)%nat in
      r ← memory_op (GetFCRAMRef offset);
      _ ← vm_op process (MapBackingMemory (u32 (TLS_AREA_VADDR + Z.of_nat page * CITRA_PAGE_SIZE)) r CITRA_PAGE_SIZE MemoryState.Locked);
      mret (Success page)
  end.
Definition allocate_tls (process : oid) : M (ResultVal VAddr) :=
  p ← get_process process;
  let '(page, slot, needs_allocation) := GetFreeThreadLocalSlot (tls_slots p) in
  slot_in ← if (needs_allocation : bool) then r ← add_tls_page process; mret (match r with Success page => Success (page, O) | Failure e => Failure e end)
            else mret (Success (page, slot));
  match slot_in with
  | Failure e => mret (Failure e)
  | Success (page, slot) =>
      update_process process (fun p => p <| tls_slots ::= alter (<[slot := true]>) page |>);;
      mret (Success (u32 (TLS_AREA_VADDR + Z.of_nat page * CITRA_PAGE_SIZE + Z.of_nat slot * TLS_ENTRY_SIZE)))
  end.

(** The table of the managers, which [std::vector::operator[]] does not check *)
Definition manager_index (processor_id : Z) : M nat :=
  let core := Z.to_nat (u32 processor_id) in _ ← get_manager core; mret core.

(** [KernelSystem::CreateThread]: a thread that finds no memory for its storage
    stays in the list of the core, asleep. *)
Definition CreateThread (name : string) (entry_point : VAddr) (priority arg : Z) (processor_id : Z) (stack_top : VAddr) (owner_process : oid)
    : M (ResultVal oid) :=
  if ThreadPrioLowest <? priority then mret (Failure ERR_OUT_OF_RANGE)
  else if ThreadProcessorIdMax <? processor_id then mret (Failure ERR_OUT_OF_RANGE_KERNEL)
  else
    pt ← page_table_of owner_process;
    valid ← memory_op (IsValidVirtualAddress pt entry_point);
    if negb valid then mret (Failure ERR_INVALID_ENTRY_POINT)
    else
      core ← manager_index processor_id;
      ticks ← timer_ticks core;
      thread_id ← NewThreadId;
      thread ← make_shared (OThread (new_thread name entry_point priority processor_id stack_top owner_process thread_id ticks));
      manager_op core (modify (fun m => m <| thread_list ::= fun l => l ++ [thread] |>));;
      queue_op core (prepare (level_of priority));;
      manager_op core (modify (fun m => m <| wakeup_callback_table ::= <[thread_id := thread]> |>));;
      tls ← allocate_tls owner_process;
      match tls with
      | Failure e => mret (Failure e)
      | Success tls_address =>
          update_thread thread (fun th => th <| KernelState.tls_address := tls_address |>);;
          pt ← page_table_of owner_process;
          memory_op (ZeroBlock pt tls_address TLS_ENTRY_SIZE);;
          update_thread thread (fun th => th <| context := ResetThreadContext stack_top entry_point arg |>);;
          th ← get_thread thread;
          queue_op core (push_back (level_of (current_priority th)) thread);;
          update_thread thread (fun th => th <| status := Ready |>);;
          mret (Success thread)
      end.

(** [FPSCR_DEFAULT_NAN | FPSCR_FLUSH_TO_ZERO | FPSCR_ROUND_TOZERO], and with [FPSCR_IXC] *)
Definition FPSCR_THREAD : Z := 0x03C00000.
Definition FPSCR_MAIN_THREAD : Z := Z.lor FPSCR_THREAD 0x10.
(** [SetupMainThread] *)
Definition SetupMainThread (entry_point : VAddr) (priority : Z) (owner_process : oid) : M oid :=
  p ← get_process owner_process;
  res ← CreateThread "main" entry_point priority 0 (ideal_processor p) HEAP_VADDR_END owner_process;
  thread ← Unwrap res;
  update_thread thread (fun th => th <| context ::= fun c => c <| fpscr := FPSCR_MAIN_THREAD |> |>);;
  mret thread.
End ThreadLife.

Section Arbitrate.
Context `{Host} {D IS : Type} `{Devices D} {hooks : Hooks D IS}.
Abbreviation M := (M (KernelSystem D IS)).

(** [AddressArbiter::ArbitrateAddress] *)
Definition wait_with_timeout (this thread : oid) (address : VAddr) (nanoseconds : Z) : M unit :=
  update_thread thread (fun th => th <| wakeup_callback := Some (ArbiterCallback this) |>);;
  WakeAfterDelay thread (s64 nanoseconds);;
  WaitThread this thread address.
Fixpoint resume_first (n : nat) (this : oid) (address : VAddr) : M unit :=
  match n with O => mret tt | S n' => _ ← ResumeHighestPriorityThread this address; resume_first n' this address end.
Definition ArbitrateAddress (this thread : oid) (type : Z) (address : VAddr) (value nanoseconds : Z) : M result_code :=
  match arbitration_type type with
  | None => mret ERR_INVALID_ENUM_VALUE_FND
  | Some ArbitrateSignal =>
      (if value <? 0 then ResumeAllThreads this address else resume_first (Z.to_nat value) this address);;
      mret RESULT_SUCCESS
  | Some WaitIfLessThan =>
      v ← memory_op (Read32 address);
      (if s32 v <? value then WaitThread this thread address else mret tt);;
      mret RESULT_SUCCESS
  | Some WaitIfLessThanWithTimeout =>
      v ← memory_op (Read32 address);
      (if s32 v <? value then wait_with_timeout this thread address nanoseconds else mret tt);;
      mret RESULT_TIMEOUT
  | Some DecrementAndWaitIfLessThan =>
      v ← memory_op (Read32 address);
      (if s32 v <? value then memory_op (Write32 address (u32 (s32 v - 1)));; WaitThread this thread address else mret tt);;
      mret RESULT_SUCCESS
  | Some DecrementAndWaitIfLessThanWithTimeout =>
      v ← memory_op (Read32 address);
      (if s32 v <? value then memory_op (Write32 address (u32 (s32 v - 1)));; wait_with_timeout this thread address nanoseconds else mret tt);;
      mret RESULT_TIMEOUT
  end.
End Arbitrate.
