(* ===== verification/Process.v ===== *)
(** The memory of a process and of shared blocks
    (src/.../core/hle/kernel/{process,shared_memory,memory}.cpp): allocation from a
    region and mapping, aliasing, and the descriptors of the kernel capabilities. *)

From S2P Require Import Prelude ResultCode ThreadQueueList HandleTable MemoryMap ResourceLimit IntervalSet MemoryRegion Memory MemoryAccess VmManager CoreTiming KernelState Thread WaitObject SyncObjects ThreadLife.

(** ** Capabilities *)

(** [Process::ParseKernelCaps] on the part of a process it changes. *)
Definition set_mask (mask : list bool) (index bits : Z) : list bool :=
  (* while (bits && index < size) *)
  (fix go (fuel : nat) (mask : list bool) (index : nat) (bits : Z) :=
     match fuel with
     | O => mask
     | S fuel' =>
         if negb (bits =? 0) && bool_decide (index < length mask)%nat
         then go fuel' (<[index := Z.testbit bits 0]> mask) (S index) (Z.shiftr bits 1)
         else mask
     end) 24%nat mask (Z.to_nat index) bits.
Definition is_descriptor (type mask value : Z) : bool := Z.land type mask =? value.
Fixpoint ParseKernelCaps (kernel_caps : list Z) (p : Process) : Process :=
  match kernel_caps with
  | [] => p
  | descriptor :: rest =>
      let type := Z.shiftr descriptor 20 in
      if descriptor =? 0xFFFFFFFF then ParseKernelCaps rest p
      else if is_descriptor type 0xF00 0xE00 then ParseKernelCaps rest p
      else if is_descriptor type 0xF80 0xF00 then
        ParseKernelCaps rest (p <| svc_access_mask ::= fun m => set_mask m (Z.land (Z.shiftr descriptor 24) 7 * 24) (Z.land descriptor 0xFFFFFF) |>)
      else if is_descriptor type 0xFF0 0xFE0 then ParseKernelCaps rest (p <| handle_table_size := Z.land descriptor 0x3FF |>)
      else if is_descriptor type 0xFF8 0xFF0 then ParseKernelCaps rest (p <| flags := Z.land descriptor 0xFFFF |>)
      else if is_descriptor type 0xFFE 0xFF8 then
        match rest with
        | end_desc :: rest' =>
            if is_descriptor (Z.shiftr end_desc 20) 0xFFE 0xFF8 then
              let address := u32 (Z.shiftl descriptor 12) in
              let end_address := u32 (Z.shiftl end_desc 12) in
              let mapping := mkAddressMapping address (if address <? end_address then end_address - address else 0)
                (Z.testbit descriptor 20) (Z.testbit end_desc 20) in
              ParseKernelCaps rest' (p <| address_mappings ::= fun l => l ++ [mapping] |>)
            else ParseKernelCaps rest p
        | [] => p
        end
      else if is_descriptor type 0xFFF 0xFFE then
        ParseKernelCaps rest (p <| address_mappings ::= fun l => l ++ [mkAddressMapping (u32 (Z.shiftl descriptor 12)) CITRA_PAGE_SIZE false false] |>)
      else if is_descriptor type 0xFE0 0xFC0 then ParseKernelCaps rest (p <| kernel_version := Z.land descriptor 0xFFFF |>)
      else ParseKernelCaps rest p
  end.
(** [Process::Set3dsxKernelCaps] *)
Definition Set3dsxKernelCaps (p : Process) : Process :=
  p <| svc_access_mask ::= fmap (fun _ => true) |>
    <| address_mappings := [mkAddressMapping 0x1FF50000 0x8000 true false; mkAddressMapping 0x1FF70000 0x8000 true false;
                            mkAddressMapping 0x1F000000 0x600000 false false] |>
    <| kernel_version := 0x234 |>.
(** [flags.memory_region], [flags.shared_device_mem] *)
Definition flags_memory_region (flags : Z) : Z := Z.land (Z.shiftr flags 8) 0xF.
Definition flags_shared_device_mem (flags : Z) : bool := Z.testbit flags 6.

Section Process.
Context `{Host} {D IS : Type} `{Devices D} {ops : IntervalSetOps IS} {hooks : Hooks D IS}.
Abbreviation M := (M (KernelSystem D IS)).
Implicit Types (k : KernelSystem D IS).

(** ** The linear heap *)

(** [Process::memory_region], which is dereferenced *)
Definition region_of (process : oid) : M nat := p ← get_process process; deref (memory_region p).
Definition get_region (region : nat) : M (MemoryRegionInfo IS) := k ← get; deref (memory_regions k !! region).
Definition GetLinearHeapAreaAddress (p : Process) : VAddr :=
  if kernel_version p <? 0x22C then LINEAR_HEAP_VADDR else NEW_LINEAR_HEAP_VADDR.
Definition GetLinearHeapBase (process : oid) : M VAddr :=
  p ← get_process process; r ← region_of process; i ← get_region r; mret (u32 (GetLinearHeapAreaAddress p + MemoryRegion.base i)).
Definition GetLinearHeapLimit (process : oid) : M VAddr :=
  b ← GetLinearHeapBase process; r ← region_of process; i ← get_region r; mret (u32 (b + size_of i)).

(** [memory_used] and [resource_limit->current_commit] *)
Definition charge (process : oid) (size : Z) : M unit :=
  update_process process (fun p => p <| memory_used ::= fun n => u32 (n + size) |>);;
  p ← get_process process;
  k ← get;
  _ ← deref (resource_limits k !! category_index (resource_limit p));
  modify (fun k => k <| resource_limits ::= alter (fun l => l <| current_commit ::= fun n => s32 (n + size) |>) (category_index (resource_limit p)) |>).

(** [std::fill] of a part of FCRAM *)
Definition zero_fcram (lower upper : Z) : M unit :=
  r ← memory_op (GetFCRAMPointer lower);
  _ ← memory_op (GetFCRAMPointer upper);
  memory_op (store r 0 (replicate (Z.to_nat (upper - lower)) 0)).

(** [target < first || target + size > last || target + size < target] *)
Definition out_of_range (target size first last : Z) : bool :=
  (target <? first) || (last <? u32 (target + size)) || (u32 (target + size) <? target).

(** The test that the area at [target] is free and large enough; [FindVMA] may
    return [end()], which is dereferenced. *)
Definition room_at (process : oid) (target size : Z) : M bool :=
  it ← vm_op process (FindVMA target);
  v ← vm_op process (get_vma it);
  mret (bool_decide (type v = Free) && (u32 (target + size) <=? u32 (base v + VmManager.size v))).
(** Mapping a block, and setting the permissions of the area it became part of *)
Definition map_block (process : oid) (target : VAddr) (r : MemoryRef) (size : Z) (state : MemoryState.t) (perms : VMAPermission) : M unit :=
  vma ← vm_op process (MapBackingMemory target r size state);
  it ← Unwrap vma;
  _ ← vm_op process (Reprotect it perms);
  mret tt.

(** ** Heap memory *)

(** [Process::HeapAllocate] *)
Fixpoint map_intervals (process : oid) (intervals : list Interval) (target : VAddr) (state : MemoryState.t) (perms : VMAPermission) : M unit :=
  match intervals with
  | [] => mret tt
  | i :: rest =>
      zero_fcram i.1 i.2;;
      r ← memory_op (GetFCRAMRef i.1);
      map_block process target r (u32 (i.2 - i.1)) state perms;;
      map_intervals process rest (u32 (target + u32 (i.2 - i.1))) state perms
  end.
Definition HeapAllocate (process : oid) (target : VAddr) (size : Z) (perms : VMAPermission) (state : MemoryState.t) (skip_range_check : bool)
    : M (ResultVal VAddr) :=
  if out_of_range target size HEAP_VADDR HEAP_VADDR_END && negb skip_range_check then mret (Failure ERR_INVALID_ADDRESS)
  else
    free ← room_at process target size;
    if negb free then mret (Failure ERR_INVALID_ADDRESS_STATE)
    else
      region ← region_of process;
      allocated ← region_op region (MemoryRegion.HeapAllocate size);
      if bool_decide (is_list allocated = []) then mret (Failure ERR_OUT_OF_HEAP_MEMORY)
      else
        map_intervals process (is_list allocated) target state perms;;
        charge process size;;
        mret (Success target).

(** [Process::HeapFree] *)
Definition free_block (region : nat) (b : MemoryRef * Z) : M unit :=
  offset ← memory_op (GetFCRAMOffset (GetPtr b.1)); region_op region (MemoryRegion.Free offset b.2).
Definition HeapFree (process : oid) (target : VAddr) (size : Z) : M result_code :=
  if out_of_range target size HEAP_VADDR HEAP_VADDR_END then mret ERR_INVALID_ADDRESS
  else if size =? 0 then mret RESULT_SUCCESS
  else
    CASCADE_TO_CODE backing_blocks := vm_op process (GetBackingBlocksForRange target size);
    region ← region_of process;
    for_each backing_blocks (free_block region);;
    result ← vm_op process (UnmapRange target size);
    ASSERT (IsSuccess result);;
    charge process (- size);;
    mret RESULT_SUCCESS.

(** ** Linear memory *)

(** [Process::LinearAllocate]: finding the place, and mapping it *)
Definition linear_place (process : oid) (target : VAddr) (size : Z) : M (ResultVal (Z * VAddr)) :=
  p ← get_process process;
  region ← region_of process;
  if target =? 0 then
    offset ← region_op region (MemoryRegion.LinearAllocate size);
    match offset with
    | None => mret (Failure ERR_OUT_OF_HEAP_MEMORY)
    | Some offset => mret (Success (offset, u32 (offset + GetLinearHeapAreaAddress p)))
    end
  else
    first ← GetLinearHeapBase process;
    last ← GetLinearHeapLimit process;
    if out_of_range target size first last then mret (Failure ERR_INVALID_ADDRESS)
    else
      let physical_offset := u32 (target - GetLinearHeapAreaAddress p) in
      free ← region_op region (LinearAllocateAt physical_offset size);
      if negb free then mret (Failure ERR_INVALID_ADDRESS_STATE) else mret (Success (physical_offset, target)).
Definition LinearAllocate (process : oid) (target : VAddr) (size : Z) (perms : VMAPermission) : M (ResultVal VAddr) :=
  CASCADE_RESULT place := linear_place process target size;
  r ← memory_op (GetFCRAMRef place.1);
  memory_op (store r 0 (replicate (Z.to_nat size) 0));;
  map_block process place.2 r size MemoryState.Continuous perms;;
  charge process size;;
  mret (Success place.2).

(** [Process::LinearFree] *)
Definition LinearFree (process : oid) (target : VAddr) (size : Z) : M result_code :=
  first ← GetLinearHeapBase process;
  last ← GetLinearHeapLimit process;
  if out_of_range target size first last then mret ERR_INVALID_ADDRESS
  else if size =? 0 then mret RESULT_SUCCESS
  else
    CASCADE_CODE vm_op process (UnmapRange target size);
    charge process (- size);;
    p ← get_process process;
    region ← region_of process;
    region_op region (MemoryRegion.Free (u32 (target - GetLinearHeapAreaAddress p)) size);;
    mret RESULT_SUCCESS.

(** ** Aliasing *)

(** [Process::Map] and [Process::Unmap]; the differences are those of [u32]. *)
Definition overlapping (target source size : Z) : bool := (u32 (source - target) <? size) || (u32 (target - source) <? size).
Fixpoint map_blocks (process : oid) (blocks : list (MemoryRef * Z)) (target : VAddr) (state : MemoryState.t) (perms : VMAPermission) : M unit :=
  match blocks with
  | [] => mret tt
  | (r, n) :: rest => map_block process target r n state perms;; map_blocks process rest (u32 (target + n)) state perms
  end.
Definition Map (process : oid) (target source : VAddr) (size : Z) (perms : VMAPermission) (privileged : bool) : M result_code :=
  if negb privileged && out_of_range source size HEAP_VADDR HEAP_VADDR_END then mret ERR_INVALID_ADDRESS
  else if overlapping target source size then
    if privileged then
      if source =? target then
        vm_op process (ChangeMemoryState source size MemoryState.Private Perm.ReadWrite MemoryState.AliasCode perms)
      else mret ERR_INVALID_ADDRESS
    else mret ERR_INVALID_ADDRESS_STATE
  else
    free ← room_at process target size;
    if negb free then mret ERR_INVALID_ADDRESS_STATE
    else
      let source_state := if privileged then MemoryState.Locked else MemoryState.Aliased in
      let target_state := if privileged then MemoryState.AliasCode else MemoryState.Alias in
      let source_perm := if privileged then Perm.None else Perm.ReadWrite in
      CASCADE_CODE vm_op process (ChangeMemoryState source size MemoryState.Private Perm.ReadWrite source_state source_perm);
      CASCADE_TO_CODE backing_blocks := vm_op process (GetBackingBlocksForRange source size);
      map_blocks process backing_blocks target target_state perms;;
      mret RESULT_SUCCESS.
Definition Unmap (process : oid) (target source : VAddr) (size : Z) (perms : VMAPermission) (privileged : bool) : M result_code :=
  if negb privileged && out_of_range source size HEAP_VADDR HEAP_VADDR_END then mret ERR_INVALID_ADDRESS
  else if overlapping target source size then
    if privileged then
      if source =? target then
        vm_op process (ChangeMemoryState source size MemoryState.AliasCode Perm.None MemoryState.Private perms)
      else mret ERR_INVALID_ADDRESS
    else mret ERR_INVALID_ADDRESS_STATE
  else
    let source_state := if privileged then MemoryState.Locked else MemoryState.Aliased in
    CASCADE_CODE vm_op process (UnmapRange target size);
    CASCADE_CODE vm_op process (ChangeMemoryState source size source_state Perm.None MemoryState.Private perms);
    mret RESULT_SUCCESS.

(** ** Special mappings *)

(** [KernelSystem::HandleSpecialMapping]; [GetPhysicalRef] is that of the memory system. *)
Definition memory_areas : list (VAddr * PAddr * Z) :=
  [ (VRAM_VADDR, VRAM_PADDR, VRAM_SIZE); (IO_AREA_VADDR, IO_AREA_PADDR, IO_AREA_SIZE);
    (DSP_RAM_VADDR, DSP_RAM_PADDR, DSP_RAM_SIZE); (N3DS_EXTRA_RAM_VADDR, N3DS_EXTRA_RAM_PADDR, N3DS_EXTRA_RAM_SIZE - 0x20000) ].
Definition HandleSpecialMapping (process : oid) (mapping : AddressMapping) : M unit :=
  let address := mapping_address mapping in
  let mapping_limit := u32 (address + mapping_size mapping) in
  if mapping_limit <? address then mret tt
  else
    match find (fun '(v, _, n) => (v <=? address) && (mapping_limit <=? u32 (v + n))) memory_areas with
    | None => mret tt
    | Some (vaddr_base, paddr_base, _) =>
        if paddr_base =? IO_AREA_PADDR then mret tt
        else
          r ← memory_op (GetPhysicalRef (u32 (paddr_base + u32 (address - vaddr_base))));
          map_block process address r (mapping_size mapping) (if unk_flag mapping then MemoryState.Static else MemoryState.IO)
            (if read_only mapping then Perm.Read else Perm.ReadWrite)
    end.
End Process.

(** ** Shared memory *)

Section SharedMemory.
Context `{Host} {D IS : Type} `{Devices D} {ops : IntervalSetOps IS} {hooks : Hooks D IS}.
Abbreviation M := (M (KernelSystem D IS)).

(** [MemoryPermission::DontCare], [SharedMemory::ConvertPermissions] *)
Definition DontCare : Z := Z.shiftl 1 28.
Definition ConvertPermissions (permission : Z) : VMAPermission := Z.land permission Perm.ReadWriteExecute.

Definition get_shared_memory : oid -> M SharedMemory := get_object as_shared_memory.
Definition update_shared_memory : oid -> (SharedMemory -> SharedMemory) -> M unit := update_object as_shared_memory OSharedMemory.

(** [KernelSystem::CreateSharedMemory] *)
Definition CreateSharedMemory (owner_process : option oid) (size permissions other_permissions : Z) (address : VAddr) (region : Z) (name : string)
    : M (ResultVal oid) :=
  o ← make_shared (OSharedMemory (mkSharedMemory 0 [] size permissions other_permissions owner_process 0 name []));
  if address =? 0 then
    r ← GetMemoryRegion region;
    offset ← region_op r (MemoryRegion.LinearAllocate size);
    ASSERT (bool_decide (offset <> None));;
    offset ← deref offset;
    zero_fcram offset (u32 (offset + size));;
    ref ← memory_op (GetFCRAMRef offset);
    match owner_process with
    | Some p => update_process p (fun p => p <| memory_used ::= fun n => u32 (n + size) |>)
    | None => mret tt
    end;;
    update_shared_memory o (fun m => m <| linear_heap_phys_offset := offset |> <| backing_blocks := [(ref, size)] |>
      <| holding_memory := [(offset, u32 (offset + size))] |>);;
    mret (Success o)
  else
    p ← deref owner_process;
    c ← vm_op p (ChangeMemoryState address size MemoryState.Private Perm.ReadWrite MemoryState.Locked (ConvertPermissions permissions));
    if IsError c then mret (Failure c)
    else
      found ← vm_op p (GetBackingBlocksForRange address size);
      blocks ← Unwrap found;
      update_shared_memory o (fun m => m <| backing_blocks := blocks |> <| base_address := address |>);;
      mret (Success o).

(** [SharedMemory::Map] *)
(** The checks of the permissions: an error, or none *)
Definition check_permissions (m : SharedMemory) (target_process : oid) (permissions other : Z) : option result_code :=
  let own_other_permissions := if bool_decide (shared_owner m = Some target_process) then shared_permissions m else other_permissions m in
  if (base_address m =? 0) && negb (other =? DontCare) then Some ERR_INVALID_COMBINATION
  else if negb (Z.land permissions (Z.lxor own_other_permissions 0xFFFFFFFF) =? 0) then Some ERR_INVALID_COMBINATION
  else if negb (base_address m =? 0) && (other =? DontCare) then Some ERR_INVALID_COMBINATION
  else if negb (other =? DontCare) && negb (Z.land (shared_permissions m) (Z.lxor other 0xFFFFFFFF) =? 0) then Some ERR_WRONG_PERMISSION
  else None.
Definition SharedMemory_Map (this target_process : oid) (address : VAddr) (permissions other : Z) : M result_code :=
  m ← get_shared_memory this;
  match check_permissions m target_process permissions other with
  | Some e => mret e
  | None =>
      if negb (address =? 0) && ((address <? HEAP_VADDR) || (SHARED_MEMORY_VADDR_END <=? u32 (address + shared_size m))) then mret ERR_INVALID_ADDRESS
      else
        let target := if (base_address m =? 0) && (address =? 0) then u32 (linear_heap_phys_offset m + LINEAR_HEAP_VADDR) else address in
        free ← room_at target_process target (shared_size m);
        if negb free then mret ERR_INVALID_ADDRESS_STATE
        else
          map_blocks target_process (backing_blocks m) target MemoryState.Shared (ConvertPermissions permissions);;
          mret RESULT_SUCCESS
  end.

(** [SharedMemory::Unmap] *)
Definition SharedMemory_Unmap (this target_process : oid) (address : VAddr) : M result_code :=
  m ← get_shared_memory this; vm_op target_process (UnmapRange address (shared_size m)).
End SharedMemory.
