(* ===== verification/Ipc.v ===== *)
(** Messages between processes (src/.../core/hle/ipc.h and
    core/hle/kernel/ipc.cpp): the header and descriptors of a command buffer, and
    the translation of its parameters from one process to another. *)

From S2P Require Import Prelude ResultCode ThreadQueueList HandleTable MemoryMap ResourceLimit IntervalSet MemoryRegion Memory MemoryAccess VmManager CoreTiming KernelState Thread WaitObject SyncObjects ThreadLife Process.

(** ** Headers and descriptors *)

Definition COMMAND_BUFFER_LENGTH : Z := 0x100 / 4.

(** [IPC::Header] *)
Definition translate_params_size (header : Z) : Z := ExtractValue 0 6 header.
Definition normal_params_size (header : Z) : Z := ExtractValue 6 6 header.
Definition command_id (header : Z) : Z := ExtractValue 16 16 header.
Definition MakeHeader (command_id normal_params_size translate_params_size : Z) : Z :=
  Z.lor (Z.lor (FormatValue 0 6 translate_params_size) (FormatValue 6 6 normal_params_size)) (FormatValue 16 16 command_id).

(** [IPC::DescriptorType]; a handle descriptor may have a type that is none of them. *)
Inductive DescriptorType := StaticBuffer | PXIBuffer | MappedBuffer | CopyHandle | MoveHandle | CallingPid | UnknownDescriptor.
Definition CopyHandle_value : Z := 0x00.
Definition MoveHandle_value : Z := 0x10.
Definition CallingPid_value : Z := 0x20.
Definition IsHandleDescriptor (descriptor : Z) : bool := Z.land descriptor 0xF =? 0.
Definition HandleNumberFromDesc (descriptor : Z) : Z := Z.shiftr descriptor 26 + 1.
Definition MoveHandleDesc (num_handles : Z) : Z := Z.lor MoveHandle_value (u32 (Z.shiftl (u32 (num_handles - 1)) 26)).
Definition CopyHandleDesc (num_handles : Z) : Z := Z.lor CopyHandle_value (u32 (Z.shiftl (u32 (num_handles - 1)) 26)).
Definition CallingPidDesc : Z := CallingPid_value.
Definition GetDescriptorType (descriptor : Z) : DescriptorType :=
  if IsHandleDescriptor descriptor then
    let type := Z.land descriptor 0x30 in
    if type =? CopyHandle_value then CopyHandle else if type =? MoveHandle_value then MoveHandle
    else if type =? CallingPid_value then CallingPid else UnknownDescriptor
  else if negb (Z.land descriptor 8 =? 0) then MappedBuffer
  else if negb (Z.land descriptor 4 =? 0) then PXIBuffer
  else StaticBuffer.

(** [IPC::StaticBufferDescInfo], [IPC::MappedBufferDescInfo] *)
Definition static_buffer_id (descriptor : Z) : Z := ExtractValue 10 4 descriptor.
Definition static_buffer_size (descriptor : Z) : Z := ExtractValue 14 18 descriptor.
Definition StaticBufferDesc (size buffer_id : Z) : Z :=
  Z.lor (Z.lor (FormatValue 0 4 2) (FormatValue 10 4 buffer_id)) (FormatValue 14 18 size).
Definition mapped_buffer_perms (descriptor : Z) : Z := ExtractValue 1 2 descriptor.
Definition mapped_buffer_desc_size (descriptor : Z) : Z := ExtractValue 4 28 descriptor.
Definition MappedBufferDesc (size perms : Z) : Z :=
  Z.lor (Z.lor (FormatValue 0 4 8) (FormatValue 1 2 perms)) (FormatValue 4 28 size).
Definition MappedBufferPermissions_R : Z := 1.

(** The error of a command that is too large *)
Definition CommandTooLarge : Z := 54.
Definition ERR_COMMAND_TOO_LARGE : result_code := ResultCode CommandTooLarge ErrorModule.OS ErrorSummary.InvalidState ErrorLevel.Status.

(** ** Translation *)

(** [std::make_shared<BufferMem>(size)] is the host's: a backing of that size. *)
Class Buffers (D IS : Type) := { new_buffer : forall (size : Z), M (KernelSystem D IS) MemoryRef }.

Section Ipc.
Context `{Host} {D IS : Type} `{Devices D} {ops : IntervalSetOps IS} {hooks : Hooks D IS} {buffers : Buffers D IS}.
Abbreviation M := (M (KernelSystem D IS)).
Implicit Types (k : KernelSystem D IS) (cmd_buf : list Z).

(** An operation on the handle table of a process. *)
Definition handle_op {A} (process : oid) (m : Prelude.M HandleTable A) : M A :=
  p ← get_process process;
  match m (handle_table p) with
  | Crash f => crash f
  | Ret (a, t) => update_process process (fun p => p <| handle_table := t |>);; mret a
  end.
(** [HandleTable::GetGeneric], for the thread and process that are running *)
Definition GetGeneric (process : oid) (handle : Handle) : M (option oid) :=
  p ← get_process process;
  k ← get;
  m ← get_manager (current_cpu k);
  mret (HandleTable.GetGeneric (current_thread m) (current_process k) handle (handle_table p)).

(** The words of a command: [cmd_buf] are those that were read; the rest of the
    array of 64 words is not initialised, and is not sent. *)
Definition get_word cmd_buf (i : nat) : M Z := deref (cmd_buf !! i).
Definition set_word cmd_buf (i : nat) (v : Z) : M (list Z) :=
  if bool_decide (i < length cmd_buf)%nat then mret (<[i := v]> cmd_buf)
  else if Z.of_nat i <? COMMAND_BUFFER_LENGTH then mret cmd_buf
  else crash UndefinedBehaviour.

(** [DescriptorType::CopyHandle], [DescriptorType::MoveHandle]: one handle, and all *)
Definition translate_handle (src_thread src_process dst_process : oid) (descriptor handle : Z) : M Z :=
  object ←
    if handle =? CurrentThread then mret (Some src_thread)
    else if handle =? CurrentProcess then mret (Some src_process)
    else if negb (handle =? 0) then
      o ← GetGeneric src_process handle;
      (if descriptor =? MoveHandle_value then _ ← handle_op src_process (Close handle); mret tt else mret tt);;
      mret o
    else mret None;
  match object with
  | None => mret 0
  | Some o => r ← handle_op dst_process (Create o); mret (match r with Success h => h | Failure _ => 0 end)
  end.
Fixpoint translate_handles (num_handles : nat) (src_thread src_process dst_process : oid) (descriptor : Z) (i : nat) cmd_buf : M (list Z) :=
  match num_handles with
  | O => mret cmd_buf
  | S n =>
      handle ← get_word cmd_buf i;
      v ← translate_handle src_thread src_process dst_process descriptor handle;
      cmd_buf ← set_word cmd_buf i v;
      translate_handles n src_thread src_process dst_process descriptor (S i) cmd_buf
  end.

(** [DescriptorType::StaticBuffer] *)
Definition translate_static (src_process dst_process : oid) (dst_address : VAddr) (descriptor : Z) (i : nat) cmd_buf : M (list Z) :=
  src_pt ← page_table_of src_process;
  dst_pt ← page_table_of dst_process;
  address ← get_word cmd_buf i;
  data ← memory_op (ReadBlock src_pt address (static_buffer_size descriptor));
  let static_buffer_offset := u32 (COMMAND_BUFFER_LENGTH * 4 + 8 * static_buffer_id descriptor) in
  target ← memory_op (ReadBlock dst_pt (u32 (dst_address + static_buffer_offset)) 8);
  let target_descriptor := le_decode (firstn 4 target) in
  let target_address := le_decode (skipn 4 target) in
  ASSERT (Z.of_nat (length data) <=? static_buffer_size target_descriptor);;
  memory_op (WriteBlock dst_pt target_address (host_buffer data) (Z.of_nat (length data)));;
  set_word cmd_buf i target_address.

(** [DescriptorType::MappedBuffer]: the pages a buffer lies on *)
Definition page_start_of (address : VAddr) : VAddr := address - address mod CITRA_PAGE_SIZE.
Definition AlignUp (value size : Z) : Z := value + (size - value mod size) mod size.
Definition num_pages_of (address : VAddr) (size : Z) : Z :=
  Z.shiftr (u32 (AlignUp (u32 (address - page_start_of address + size)) CITRA_PAGE_SIZE)) CITRA_PAGE_BITS.
(** the reply: the contents go back, and the buffer and its guard pages are unmapped *)
Definition same_mapping (permissions size : Z) (address : VAddr) (c : MappedBufferContext) : bool :=
  (buffer_permissions c =? permissions) && (mapped_buffer_size c =? size) && (target_address c =? address).
Fixpoint erase_mapping (f : MappedBufferContext -> bool) (l : list MappedBufferContext) : list MappedBufferContext :=
  match l with [] => [] | c :: l' => if f c then l' else c :: erase_mapping f l' end.
Definition state_at (process : oid) (address : VAddr) : M MemoryState.t :=
  it ← vm_op process (FindVMA address); v ← vm_op process (get_vma it); mret (meminfo_state v).
Definition reply_mapped (src_process dst_process : oid) (permissions size : Z) (address : VAddr) (context : list MappedBufferContext)
    : M (list MappedBufferContext) :=
  let page_start := page_start_of address in
  let num_pages := num_pages_of address size in
  found ← (match find (same_mapping permissions size address) context with Some c => mret c | None => crash AssertFailed end);
  src_pt ← page_table_of src_process;
  dst_pt ← page_table_of dst_process;
  (if negb (permissions =? MappedBufferPermissions_R)
   then memory_op (CopyBlock dst_pt src_pt (source_address found) (target_address found) size) else mret tt);;
  prev ← state_at src_process (u32 (page_start - CITRA_PAGE_SIZE));
  next ← state_at src_process (u32 (page_start + num_pages * CITRA_PAGE_SIZE));
  ASSERT (bool_decide (prev = MemoryState.Reserved) && bool_decide (next = MemoryState.Reserved));;
  result ← vm_op src_process (UnmapRange (u32 (page_start - CITRA_PAGE_SIZE)) (u32 ((num_pages + 2) * CITRA_PAGE_SIZE)));
  ASSERT (result =? RESULT_SUCCESS);;
  mret (erase_mapping (same_mapping permissions size address) context).
(** the request: a guard page, a copy of the buffer, and a guard page are mapped *)
Definition map_to_ipc_area (process : oid) (buffer : MemoryRef) (size : Z) (state : MemoryState.t) : M (ResultVal VAddr) :=
  vm_op process (MapBackingMemoryToBase IPC_MAPPING_VADDR IPC_MAPPING_SIZE buffer size state).
Definition request_mapped (src_process dst_process : oid) (permissions size : Z) (address : VAddr) (context : list MappedBufferContext)
    : M (VAddr * list MappedBufferContext) :=
  let page_offset := address - page_start_of address in
  let num_pages := num_pages_of address size in
  reserve ← new_buffer CITRA_PAGE_SIZE;
  _ ← map_to_ipc_area dst_process reserve CITRA_PAGE_SIZE MemoryState.Reserved;
  buffer ← new_buffer (num_pages * CITRA_PAGE_SIZE);
  src_pt ← page_table_of src_process;
  data ← memory_op (ReadBlock src_pt address size);
  memory_op (store buffer page_offset data);;
  r ← map_to_ipc_area dst_process buffer (u32 (num_pages * CITRA_PAGE_SIZE)) MemoryState.Shared;
  target ← Unwrap r;
  _ ← map_to_ipc_area dst_process reserve CITRA_PAGE_SIZE MemoryState.Reserved;
  mret (u32 (target + page_offset),
        context ++ [mkMappedBufferContext permissions size address (u32 (target + page_offset)) buffer reserve]).
Definition translate_mapped (src_process dst_process : oid) (reply : bool) (descriptor : Z) (i : nat) cmd_buf (context : list MappedBufferContext)
    : M (list Z * list MappedBufferContext) :=
  address ← get_word cmd_buf i;
  let size := mapped_buffer_desc_size descriptor in
  let permissions := mapped_buffer_perms descriptor in
  if size =? 0 then cmd_buf ← set_word cmd_buf i 0; mret (cmd_buf, context)
  else
    ASSERT (1 <=? num_pages_of address size);;
    if reply then context ← reply_mapped src_process dst_process permissions size address context; mret (cmd_buf, context)
    else
      r ← request_mapped src_process dst_process permissions size address context;
      cmd_buf ← set_word cmd_buf i r.1;
      mret (cmd_buf, r.2).

(** The loop over the translate parameters, each turn taking one word at least *)
Fixpoint translate_loop (fuel : nat) (src_thread src_process dst_process : oid) (dst_address : VAddr) (reply : bool)
    (i : nat) cmd_buf (context : list MappedBufferContext) : M (ResultVal (list Z) * list MappedBufferContext) :=
  if bool_decide (length cmd_buf <= i)%nat then mret (Success cmd_buf, context)
  else
    match fuel with
    | O => crash OutOfFuel
    | S fuel' =>
        let next := translate_loop fuel' src_thread src_process dst_process dst_address reply in
        descriptor ← get_word cmd_buf i;
        match GetDescriptorType descriptor with
        | CopyHandle | MoveHandle =>
            let num_handles := Z.to_nat (HandleNumberFromDesc descriptor) in
            if bool_decide (length cmd_buf < S i + num_handles)%nat then mret (Failure ERR_COMMAND_TOO_LARGE, context)
            else
              cmd_buf ← translate_handles num_handles src_thread src_process dst_process descriptor (S i) cmd_buf;
              next (S i + num_handles)%nat cmd_buf context
        | CallingPid =>
            p ← get_process src_process;
            cmd_buf ← set_word cmd_buf (S i) (process_id p);
            next (S (S i)) cmd_buf context
        | StaticBuffer =>
            cmd_buf ← translate_static src_process dst_process dst_address descriptor (S i) cmd_buf;
            next (S (S i)) cmd_buf context
        | MappedBuffer =>
            r ← translate_mapped src_process dst_process reply descriptor (S i) cmd_buf context;
            next (S (S i)) r.1 r.2
        | PXIBuffer | UnknownDescriptor => next (S i) cmd_buf context (* only logged *)
        end
    end.

(** The 32-bit words of a block of bytes, and back *)
Fixpoint words_of (n : nat) (bytes : list Z) : list Z :=
  match n with O => [] | S n' => le_decode (firstn 4 bytes) :: words_of n' (skipn 4 bytes) end.
Definition bytes_of (words : list Z) : list Z := concat (le_encode 4 <$> words).

(** [TranslateCommandBuffer] *)
Definition TranslateCommandBuffer (src_thread dst_thread : oid) (src_address dst_address : VAddr) (context : list MappedBufferContext) (reply : bool)
    : M (result_code * list MappedBufferContext) :=
  st ← get_thread src_thread;
  dt ← get_thread dst_thread;
  ASSERT (bool_decide (owner_process st <> None) && bool_decide (owner_process dt <> None));;
  src_process ← deref (owner_process st);
  dst_process ← deref (owner_process dt);
  src_pt ← page_table_of src_process;
  dst_pt ← page_table_of dst_process;
  h ← memory_op (ReadBlock src_pt src_address 4);
  let header := le_decode h in
  let untranslated_size := 1 + normal_params_size header in
  let command_size := untranslated_size + translate_params_size header in
  ASSERT (command_size <=? COMMAND_BUFFER_LENGTH);;
  b ← memory_op (ReadBlock src_pt src_address (command_size * 4));
  let cmd_buf := words_of (Z.to_nat command_size) b in
  r ← translate_loop (length cmd_buf) src_thread src_process dst_process dst_address reply (Z.to_nat untranslated_size) cmd_buf context;
  match r.1 with
  | Failure e => mret (e, r.2)
  | Success cmd_buf =>
      memory_op (WriteBlock dst_pt dst_address (host_buffer (bytes_of cmd_buf)) (command_size * 4));;
      mret (RESULT_SUCCESS, r.2)
  end.
End Ipc.
