(* ===== verification/Sessions.v ===== *)
(** Ports and sessions (src/.../core/hle/kernel/{client_port,server_port,
    client_session,server_session,session}.cpp): connecting, accepting, sending a
    request, and closing an end. *)

From S2P Require Import Prelude ResultCode ThreadQueueList HandleTable CoreTiming KernelState Thread WaitObject.

(** The handlers of services; [handle_sync_request] reads the command of the thread,
    runs the service, and writes the response if the thread still runs. *)
Class Services (D IS : Type) := {
  handle_sync_request : forall (handler : Z) (session thread : oid), M (KernelSystem D IS) unit;
  client_connected : forall (handler : Z) (session : oid), M (KernelSystem D IS) unit;
  client_disconnected : forall (handler : Z) (session : oid), M (KernelSystem D IS) unit;
}.

Section Sessions.
Context {D IS : Type} {hooks : Hooks D IS} {services : Services D IS}.
Abbreviation M := (M (KernelSystem D IS)).

Definition get_server_port : oid -> M ServerPort := get_object as_server_port.
Definition update_server_port : oid -> (ServerPort -> ServerPort) -> M unit := update_object as_server_port OServerPort.
Definition get_client_port : oid -> M ClientPort := get_object as_client_port.
Definition update_client_port : oid -> (ClientPort -> ClientPort) -> M unit := update_object as_client_port OClientPort.
Definition get_session : oid -> M Session := get_object as_session.
Definition update_session : oid -> (Session -> Session) -> M unit := update_object as_session OSession.
Definition get_server_session : oid -> M ServerSession := get_object as_server_session.
Definition get_client_session : oid -> M ClientSession := get_object as_client_session.

(** [KernelSystem::CreatePortPair] *)
Definition CreatePortPair (max_sessions : Z) (name : string) : M (oid * oid) :=
  server ← make_shared (OServerPort (mkServerPort (name ++ "_Server") [] None));
  client ← make_shared (OClientPort (mkClientPort (name ++ "_Client") server max_sessions 0));
  mret (server, client).

(** [ServerPort::Accept]: the last session that came. *)
Definition Accept (this : oid) : M (ResultVal oid) :=
  p ← get_server_port this;
  match last (pending_sessions p) with
  | None => mret (Failure ERR_NO_PENDING_SESSIONS)
  | Some session =>
      update_server_port this (fun p => p <| pending_sessions ::= @removelast _ |>);;
      mret (Success session)
  end.

(** The parent of two sessions is not a kernel object, and takes no object id. *)
Definition new_session_parent (s : Session) : M oid :=
  k ← get;
  modify (fun k => k <| objects ::= <[next_oid k := OSession s]> |> <| next_oid ::= fun n => n + 1 |>);;
  mret (next_oid k).
(** [KernelSystem::CreateSessionPair] *)
Definition CreateSessionPair (name : string) (port : option oid) : M (oid * oid) :=
  parent ← new_session_parent (mkSession None None port);
  server ← make_shared (OServerSession (mkServerSession (name ++ "_Server") parent None [] None []));
  client ← make_shared (OClientSession (mkClientSession (name ++ "_Client") parent));
  update_session parent (fun s => s <| KernelState.client := Some client |> <| KernelState.server := Some server |>);;
  mret (server, client).

(** [ClientPort::Connect] *)
Definition Connect (this : oid) : M (ResultVal oid) :=
  c ← get_client_port this;
  if max_sessions c <=? active_sessions c then mret (Failure ERR_MAX_CONNECTIONS_REACHED)
  else
    update_client_port this (fun c => c <| active_sessions ::= fun n => u32 (n + 1) |>);;
    p ← get_server_port (server_port c);
    pair ← CreateSessionPair (server_port_name p) (Some this);
    match port_handler p with
    | Some h => client_connected h pair.1
    | None => update_server_port (server_port c) (fun p => p <| pending_sessions ::= fun l => l ++ [pair.1] |>)
    end;;
    WakeupAllWaitingThreads (server_port c);;
    mret (Success pair.2).

(** [ClientPort::ConnectionClosed] *)
Definition ConnectionClosed (this : oid) : M unit :=
  c ← get_client_port this;
  ASSERT (0 <? active_sessions c);;
  update_client_port this (fun c => c <| active_sessions ::= fun n => n - 1 |>).

(** [ServerSession::HandleSyncRequest] *)
Definition IPCDelayNanoseconds : Z := 39000.
Definition HandleSyncRequest (this thread : oid) : M result_code :=
  s ← get_server_session this;
  match session_handler s with
  | Some h =>
      th ← get_thread thread;
      ASSERT (bool_decide (owner_process th <> None));;
      handle_sync_request h this thread;;
      th ← get_thread thread;
      ASSERT (bool_decide (status th = Running) || bool_decide (status th = WaitHleEvent))
  | None => mret tt
  end;;
  th ← get_thread thread;
  (if bool_decide (status th = Running) then
    update_thread thread (fun th => th <| status := WaitIPC |>);;
    match session_handler s with
    | Some _ => WakeAfterDelay thread IPCDelayNanoseconds
    | None => update_server_session this (fun s => s <| pending_requesting_threads ::= fun l => l ++ [thread] |>)
    end
  else mret tt);;
  WakeupAllWaitingThreads this;;
  mret RESULT_SUCCESS.

(** [ClientSession::SendSyncRequest] *)
Definition SendSyncRequest (this thread : oid) : M result_code :=
  c ← get_client_session this;
  s ← get_session (client_parent c);
  match server s with
  | None => mret ERR_SESSION_CLOSED_BY_REMOTE
  | Some server => HandleSyncRequest server thread
  end.

(** [ClientSession::~ClientSession] *)
Definition close_client_session (this : oid) : M unit :=
  c ← get_client_session this;
  s ← get_session (client_parent c);
  match server s with
  | Some server =>
      ss ← get_server_session server;
      match session_handler ss with Some h => client_disconnected h server | None => mret tt end;;
      update_server_session server (fun s => s <| pending_requesting_threads := [] |> <| currently_handling := None |>)
  | None => mret tt
  end;;
  update_session (client_parent c) (fun s => s <| KernelState.client := None |>);;
  match server s with
  | Some server => WakeupAllWaitingThreads server
  | None => mret tt
  end.
(** [ServerSession::~ServerSession] *)
Definition close_server_session (this : oid) : M unit :=
  ss ← get_server_session this;
  s ← get_session (server_parent ss);
  match port s with Some p => ConnectionClosed p | None => mret tt end;;
  update_session (server_parent ss) (fun s => s <| KernelState.server := None |>).
End Sessions.
