(* ===== verification/WaitSync.v ===== *)
(** The supervisor calls that wait (src/.../core/hle/kernel/svc.cpp): waiting for one
    or several objects, receiving messages, and sleeping. *)

From S2P Require Import Prelude ResultCode ThreadQueueList HandleTable MemoryMap ResourceLimit IntervalSet MemoryRegion Memory MemoryAccess VmManager CoreTiming KernelState Thread WaitObject SyncObjects ThreadLife Process Ipc Sessions.

Section WaitSync.
Context `{Host} {D IS : Type} `{Devices D} {ops : IntervalSetOps IS} {hooks : Hooks D IS} {buffers : Buffers D IS}.
Abbreviation M := (M (KernelSystem D IS)).
Implicit Types (k : KernelSystem D IS).

(** [kernel.GetCurrentProcess()], which is dereferenced *)
Definition current : M oid := k ← get; deref (current_process k).
(** [handle_table.Get<T>(handle)] of the current process *)
Definition get_handle {A} (cast : Object -> option A) (handle : Handle) : M (option oid) :=
  p ← current;
  o ← GetGeneric p handle;
  k ← get;
  mret (match o with Some o => match objects k !! o with Some x => match cast x with Some _ => Some o | None => None end | None => None end | None => None end).
(** [memory.IsValidVirtualAddress] for the current process *)
Definition valid_address (address : VAddr) : M bool :=
  p ← current; pt ← page_table_of p; memory_op (IsValidVirtualAddress pt address).

(** Suspending the running thread *)
Definition add_waiting (thread : oid) (objs : list oid) : M unit := for_each objs (fun o => AddWaitingThread o thread).

(** [SVC::WaitSynchronization1] *)
Definition wait_one (this thread : oid) (nano_seconds : Z) : M unit :=
  update_thread thread (fun th => th <| wait_objects := [this] |>);;
  AddWaitingThread this thread;;
  update_thread thread (fun th => th <| status := WaitSynchAny |>);;
  WakeAfterDelay thread nano_seconds;;
  update_thread thread (fun th => th <| wakeup_callback := Some (SVC_SyncCallback false) |>);;
  PrepareReschedule.
Definition wait_for_one (this thread : oid) (nano_seconds : Z) : M result_code :=
  w ← ShouldWait this thread;
  if (w : bool) then
    if nano_seconds =? 0 then mret RESULT_TIMEOUT
    else wait_one this thread nano_seconds;; mret RESULT_TIMEOUT
  else Acquire this thread;; mret RESULT_SUCCESS.
Definition WaitSynchronization1 (handle : Handle) (nano_seconds : Z) : M result_code :=
  object ← get_handle as_wait_object handle;
  match object with
  | None => mret ERR_INVALID_HANDLE
  | Some this => thread ← running_thread; wait_for_one this thread nano_seconds
  end.

(** Reading [n] handles and looking them up, up to the first invalid one *)
Fixpoint read_objects (n : nat) (i : Z) (handles_address : VAddr) : M (ResultVal (list oid)) :=
  match n with
  | O => mret (Success [])
  | S n' =>
      handle ← memory_op (Read32 (u32 (handles_address + i * 4)));
      object ← get_handle as_wait_object handle;
      match object with
      | None => mret (Failure ERR_INVALID_HANDLE)
      | Some o =>
          rest ← read_objects n' (i + 1) handles_address;
          mret (match rest with Success l => Success (o :: l) | Failure e => Failure e end)
      end
  end.
(** [std::find_if] of the first object that need not be waited for, with its index *)
Fixpoint first_available (i : Z) (objs : list oid) (thread : oid) : M (option (Z * oid)) :=
  match objs with
  | [] => mret None
  | o :: rest => w ← ShouldWait o thread; if (w : bool) then first_available (i + 1) rest thread else mret (Some (i, o))
  end.

(** Putting a thread to sleep until any, or all, of the objects can be acquired. *)
Definition wait_many (thread : oid) (objs : list oid) (wait_all : bool) : M unit :=
  update_thread thread (fun th => th <| status := if wait_all then WaitSynchAll else WaitSynchAny |>);;
  add_waiting thread objs;;
  update_thread thread (fun th => th <| wait_objects := objs |>).
Definition suspend (thread : oid) (objs : list oid) (wait_all : bool) (nano_seconds : Z) : M unit :=
  wait_many thread objs wait_all;;
  WakeAfterDelay thread nano_seconds;;
  update_thread thread (fun th => th <| wakeup_callback := Some (SVC_SyncCallback (negb wait_all)) |>);;
  PrepareReschedule.

(** [SVC::WaitSynchronizationN]; the result comes with the value of [*out], if it is set. *)
Definition wait_for_all (thread : oid) (objs : list oid) (nano_seconds : Z) : M (result_code * option Z) :=
  all_available ← none_should_wait objs thread;
  if (all_available : bool) then for_each objs (fun o => Acquire o thread);; mret (RESULT_SUCCESS, None)
  else if nano_seconds =? 0 then mret (RESULT_TIMEOUT, None)
  else suspend thread objs true nano_seconds;; mret (RESULT_TIMEOUT, Some (-1)).
Definition wait_for_any (thread : oid) (objs : list oid) (nano_seconds : Z) : M (result_code * option Z) :=
  r ← first_available 0 objs thread;
  match r with
  | Some (i, o) => Acquire o thread;; mret (RESULT_SUCCESS, Some i)
  | None =>
      if nano_seconds =? 0 then mret (RESULT_TIMEOUT, None)
      else suspend thread objs false nano_seconds;; mret (RESULT_TIMEOUT, Some (-1))
  end.
Definition WaitSynchronizationN (handles_address : VAddr) (handle_count : Z) (wait_all : bool) (nano_seconds : Z) : M (result_code * option Z) :=
  thread ← running_thread;
  valid ← valid_address handles_address;
  if negb valid then mret (ERR_INVALID_POINTER, None)
  else if handle_count <? 0 then mret (ERR_OUT_OF_RANGE, None)
  else
    objs ← read_objects (Z.to_nat handle_count) 0 handles_address;
    match objs with
    | Failure e => mret (e, None)
    | Success objs => if wait_all then wait_for_all thread objs nano_seconds else wait_for_any thread objs nano_seconds
    end.

(** [ReceiveIPCRequest] *)
Definition ReceiveIPCRequest (server_session thread : oid) : M result_code :=
  s ← get_server_session server_session;
  parent ← get_session (server_parent s);
  if bool_decide (client parent = None) then mret ERR_SESSION_CLOSED_BY_REMOTE
  else
    target ← GetCommandBufferAddress thread;
    source_thread ← deref (currently_handling s);
    source ← GetCommandBufferAddress source_thread;
    r ← TranslateCommandBuffer source_thread thread source target (mapped_buffer_context s) false;
    update_server_session server_session (fun s => s <| mapped_buffer_context := r.2 |>);;
    (if IsError r.1 then
      SetWaitSynchronizationResult source_thread r.1;;
      ResumeFromWait source_thread;;
      update_server_session server_session (fun s => s <| currently_handling := None |>);;
      ASSERT false
    else mret tt);;
    mret r.1.

(** [SVC::ReplyAndReceive]: the reply *)
Definition send_reply (thread : oid) (reply_target : Handle) : M (option (result_code * option Z)) :=
  session ← get_handle as_server_session reply_target;
  match session with
  | None => mret (Some (ERR_INVALID_HANDLE, None))
  | Some session =>
      s ← get_server_session session;
      update_server_session session (fun s => s <| currently_handling := None |>);;
      match currently_handling s with
      | None => mret (Some (ERR_SESSION_CLOSED_BY_REMOTE, Some (-1)))
      | Some request_thread =>
          parent ← get_session (server_parent s);
          if bool_decide (client parent = None) then mret (Some (ERR_SESSION_CLOSED_BY_REMOTE, Some (-1)))
          else
            source ← GetCommandBufferAddress thread;
            target ← GetCommandBufferAddress request_thread;
            r ← TranslateCommandBuffer thread request_thread source target (mapped_buffer_context s) true;
            update_server_session session (fun s => s <| mapped_buffer_context := r.2 |>);;
            ASSERT (IsSuccess r.1);;
            ResumeFromWait request_thread;;
            mret None
      end
  end.
(** and the next request *)
Definition receive (thread : oid) (objs : list oid) : M (result_code * option Z) :=
  r ← first_available 0 objs thread;
  match r with
  | Some (i, o) =>
      Acquire o thread;;
      x ← get_any o;
      match x with
      | OServerSession _ => r ← ReceiveIPCRequest o thread; mret (r, Some i)
      | _ => mret (RESULT_SUCCESS, Some i)
      end
  | None =>
      wait_many thread objs false;;
      update_thread thread (fun th => th <| wakeup_callback := Some SVC_IPCCallback |>);;
      PrepareReschedule;;
      mret (RESULT_SUCCESS, Some (-1))
  end.
Definition NO_COMMAND : Z := 0xFFFF.
Definition ReplyAndReceive (handles_address : VAddr) (handle_count : Z) (reply_target : Handle) : M (result_code * option Z) :=
  valid ← valid_address handles_address;
  if negb valid then mret (ERR_INVALID_POINTER, None)
  else if handle_count <? 0 then mret (ERR_OUT_OF_RANGE, None)
  else
    objs ← read_objects (Z.to_nat handle_count) 0 handles_address;
    match objs with
    | Failure e => mret (e, None)
    | Success objs =>
        thread ← running_thread;
        address ← GetCommandBufferAddress thread;
        header ← memory_op (Read32 address);
        let replies := negb (reply_target =? 0) && negb (command_id header =? NO_COMMAND) in
        failed ← if replies then send_reply thread reply_target else mret None;
        match failed with
        | Some r => mret r
        | None =>
            if handle_count =? 0 then mret (if replies then RESULT_SUCCESS else 0xE7E3FFFF, Some 0)
            else receive thread objs
        end
    end.

(** [SVC::SleepThread] *)
Definition SleepThread (nanoseconds : Z) : M unit :=
  k ← get;
  let core := current_cpu k in
  ready ← if nanoseconds =? 0 then HaveReadyThreads core else mret true;
  if negb ready then mret tt
  else
    WaitCurrentThread_Sleep core;;
    thread ← running_thread;
    WakeAfterDelay thread nanoseconds;;
    PrepareReschedule.
End WaitSync.
