(* ===== verification/SvcMemory.v ===== *)
(** The other supervisor calls (src/.../core/hle/kernel/svc.cpp): memory, threads,
    synchronization objects, ports and information. A call returns its result code
    and the values of its output parameters, where it sets them. *)

From S2P Require Import Prelude ResultCode ThreadQueueList HandleTable MemoryMap ResourceLimit IntervalSet MemoryRegion Memory MemoryAccess VmManager CoreTiming KernelState Thread WaitObject SyncObjects ThreadLife Process Ipc Sessions WaitSync.

(** [MEMOP_*] *)
Definition MEMOP_FREE : Z := 1.
Definition MEMOP_RESERVE : Z := 2.
Definition MEMOP_COMMIT : Z := 3.
Definition MEMOP_MAP : Z := 4.
Definition MEMOP_UNMAP : Z := 5.
Definition MEMOP_PROTECT : Z := 6.
Definition MEMOP_OPERATION_MASK : Z := 0xFF.
Definition MEMOP_REGION_MASK : Z := 0xF00.
Definition MEMOP_LINEAR : Z := 0x10000.

(** A value of [ResetType]; one that is not an enumerator is neither one-shot nor pulse. *)
Definition reset_type_of (reset_type : Z) : ResetType := if reset_type =? 0 then OneShot else if reset_type =? 2 then Pulse else Sticky.

(** The codes of a process or thread that is not found *)
Definition ErrorModule_OS_code (description : Z) : result_code := ResultCode description ErrorModule.OS ErrorSummary.WrongArgument ErrorLevel.Permanent.
Definition ERR_PROCESS_NOT_FOUND : result_code := ErrorModule_OS_code 24.
Definition ERR_THREAD_NOT_FOUND : result_code := ErrorModule_OS_code 25.

Section Svc.
Context `{Host} {D IS : Type} `{Devices D} {ops : IntervalSetOps IS} {hooks : Hooks D IS} {buffers : Buffers D IS} {services : Services D IS}.
Abbreviation M := (M (KernelSystem D IS)).
Implicit Types (k : KernelSystem D IS).

(** [CASCADE_RESULT( *out_handle, handle_table.Create(object))] *)
Definition return_handle (object : oid) : M (result_code * option Handle) :=
  p ← current;
  r ← handle_op p (HandleTable.Create object);
  mret (match r with Success h => (RESULT_SUCCESS, Some h) | Failure e => (e, None) end).
Definition value {A} (r : ResultVal A) : result_code * option A := match r with Success a => (RESULT_SUCCESS, Some a) | Failure e => (e, None) end.
Definition no_value {A} (m : M result_code) : M (result_code * option A) := r ← m; mret (r, None).

(** ** Memory *)

(** [SVC::ControlMemory] *)
Definition ControlMemory (addr0 addr1 size operation permissions : Z) : M (result_code * option VAddr) :=
  if negb (Z.land addr0 CITRA_PAGE_MASK =? 0) || negb (Z.land addr1 CITRA_PAGE_MASK =? 0) then mret (ERR_MISALIGNED_ADDRESS, None)
  else if negb (Z.land size CITRA_PAGE_MASK =? 0) then mret (ERR_MISALIGNED_SIZE, None)
  else
    let operation := Z.land operation (Z.lxor MEMOP_REGION_MASK 0xFFFFFFFF) in
    if negb (Z.land permissions Perm.ReadWrite =? permissions) then mret (ERR_INVALID_COMBINATION, None)
    else
      process ← current;
      let op := Z.land operation MEMOP_OPERATION_MASK in
      if op =? MEMOP_FREE then
        if (HEAP_VADDR <=? addr0) && (addr0 <? HEAP_VADDR_END) then
          r ← HeapFree process addr0 size;
          mret (if IsError r then (r, None) else (RESULT_SUCCESS, Some addr0))
        else
          first ← GetLinearHeapBase process;
          last ← GetLinearHeapLimit process;
          if (first <=? addr0) && (addr0 <? last) then
            r ← LinearFree process addr0 size;
            mret (if IsError r then (r, None) else (RESULT_SUCCESS, Some addr0))
          else mret (ERR_INVALID_ADDRESS, None)
      else if op =? MEMOP_COMMIT then
        r ← (if negb (Z.land operation MEMOP_LINEAR =? 0) then LinearAllocate process addr0 size permissions
             else HeapAllocate process addr0 size permissions MemoryState.Private false);
        mret (value r)
      else if op =? MEMOP_MAP then no_value (Map process addr0 addr1 size permissions false)
      else if op =? MEMOP_UNMAP then no_value (Unmap process addr0 addr1 size permissions false)
      else if op =? MEMOP_PROTECT then no_value (vm_op process (ReprotectRange addr0 size permissions))
      else mret (ERR_INVALID_COMBINATION, None).

(** [SVC::MapMemoryBlock], [SVC::UnmapMemoryBlock], [SVC::CreateMemoryBlock] *)
Definition known_permissions (permissions : Z) : bool := ((1 <=? permissions) && (permissions <=? 7)) || (permissions =? DontCare).
Definition MapMemoryBlock (handle : Handle) (addr permissions other : Z) : M result_code :=
  shared_memory ← get_handle as_shared_memory handle;
  match shared_memory with
  | None => mret ERR_INVALID_HANDLE
  | Some m => if known_permissions permissions then p ← current; SharedMemory_Map m p addr permissions other else mret ERR_INVALID_COMBINATION
  end.
Definition UnmapMemoryBlock (handle : Handle) (addr : VAddr) : M result_code :=
  shared_memory ← get_handle as_shared_memory handle;
  match shared_memory with
  | None => mret ERR_INVALID_HANDLE
  | Some m => p ← current; SharedMemory_Unmap m p addr
  end.
Definition VerifyPermissions (permission : Z) : bool := ((0 <=? permission) && (permission <=? 3)) || (permission =? DontCare).
Definition CreateMemoryBlock (addr size my_permission other_permission : Z) : M (result_code * option Handle) :=
  if negb (size mod CITRA_PAGE_SIZE =? 0) then mret (ERR_MISALIGNED_SIZE, None)
  else if negb (VerifyPermissions my_permission) || negb (VerifyPermissions other_permission) then mret (ERR_INVALID_COMBINATION, None)
  else if ((addr <? PROCESS_IMAGE_VADDR) || (SHARED_MEMORY_VADDR_END <? u32 (addr + size))) && negb (addr =? 0) then mret (ERR_INVALID_ADDRESS, None)
  else
    process ← current;
    p ← get_process process;
    let region := if (addr =? 0) && flags_shared_device_mem (flags p) then flags_memory_region (flags p) else MemoryRegion_BASE in
    r ← CreateSharedMemory (Some process) size my_permission other_permission addr region "Unknown";
    match r with Success m => return_handle m | Failure e => mret (e, None) end.

(** [SVC::QueryProcessMemory]: the area, extended over neighbours with the same
    permissions and state; base address, size, permissions and state *)
Definition matching (v w : VirtualMemoryArea) : bool := (permissions w =? permissions v) && bool_decide (meminfo_state w = meminfo_state v).
Fixpoint while_matching (f : VirtualMemoryArea -> bool) (last : VirtualMemoryArea) (l : list VirtualMemoryArea) : VirtualMemoryArea :=
  match l with [] => last | v :: l' => if f v then while_matching f v l' else last end.
Definition query_area (v : VirtualMemoryArea) (m : vma_map_t) : VAddr * Z :=
  let lower := while_matching (matching v) v (reverse (filter (fun w => base w < base v) m)) in
  let upper := while_matching (matching v) v (filter (fun w => base v < base w) m) in
  (base lower, u32 (base upper + VmManager.size upper - base lower)).
Definition QueryProcessMemory (process_handle : Handle) (addr : VAddr) : M (result_code * option (VAddr * Z * VMAPermission * MemoryState.t)) :=
  process ← get_handle as_process process_handle;
  match process with
  | None => mret (ERR_INVALID_HANDLE, None)
  | Some process =>
      it ← vm_op process (FindVMA addr);
      match it with
      | None => mret (ERR_INVALID_ADDRESS, None)
      | Some _ =>
          v ← vm_op process (get_vma it);
          m ← vm_op process map_of;
          mret (RESULT_SUCCESS, Some (query_area v m, permissions v, meminfo_state v))
      end
  end.
Definition QueryMemory (addr : VAddr) := QueryProcessMemory CurrentProcess addr.

(** [SVC::ConvertVaToPa] *)
Definition ConvertVaToPa (addr : VAddr) : M PAddr :=
  process ← current;
  it ← vm_op process (FindVMA addr);
  match it with
  | None => mret 0
  | Some _ =>
      v ← vm_op process (get_vma it);
      if negb (bool_decide (type v = BackingMemory)) then mret 0
      else offset ← memory_op (GetFCRAMOffset (GetPtr (backing_memory v) + addr - base v)); mret (u32 (offset + FCRAM_PADDR))
  end.

(** [SVC::MapProcessMemoryEx], [SVC::UnmapProcessMemoryEx] *)
Definition round_to_page (size : Z) : Z :=
  if negb (Z.land size 0xFFF =? 0) then u32 (Z.land size 0xFFFFF000 + CITRA_PAGE_SIZE) else size.
Definition continuous (v : VirtualMemoryArea) : bool := bool_decide (type v = BackingMemory) && bool_decide (meminfo_state v = MemoryState.Continuous).
Definition MapProcessMemoryEx (dst_process_handle : Handle) (dst_address : VAddr) (src_process_handle : Handle) (src_address : VAddr) (size : Z) : M result_code :=
  dst ← get_handle as_process dst_process_handle;
  src ← get_handle as_process src_process_handle;
  match dst, src with
  | Some dst, Some src =>
      let size := round_to_page size in
      it ← vm_op src (FindVMA src_address);
      match it with
      | None => mret ERR_INVALID_ADDRESS
      | Some _ =>
          v ← vm_op src (get_vma it);
          if negb (continuous v) then mret ERR_INVALID_ADDRESS
          else
            let offset := u32 (src_address - base v) in
            if VmManager.size v <? u32 (offset + size) then mret ERR_INVALID_ADDRESS
            else
              fcram ← memory_op (GetFCRAMPointer 0);
              ref ← memory_op (GetFCRAMRef (GetPtr (backing_memory v) + offset - GetPtr fcram));
              r ← vm_op dst (MapBackingMemory dst_address ref size MemoryState.Continuous);
              match r with
              | Failure _ => mret ERR_INVALID_ADDRESS_STATE
              | Success it => _ ← vm_op dst (Reprotect it Perm.ReadWriteExecute); mret RESULT_SUCCESS
              end
      end
  | _, _ => mret ERR_INVALID_HANDLE
  end.
Definition UnmapProcessMemoryEx (process : Handle) (dst_address : VAddr) (size : Z) : M result_code :=
  dst ← get_handle as_process process;
  match dst with
  | None => mret ERR_INVALID_HANDLE
  | Some dst =>
      let size := round_to_page size in
      it ← vm_op dst (FindVMA dst_address);
      match it with
      | None => mret ERR_INVALID_ADDRESS
      | Some _ =>
          v ← vm_op dst (get_vma it);
          if negb (continuous v) then mret ERR_INVALID_ADDRESS
          else _ ← vm_op dst (UnmapRange dst_address size); mret RESULT_SUCCESS
      end
  end.
End Svc.
