(* ===== verification/SvcObjects.v ===== *)
(** The other supervisor calls, first part (src/.../core/hle/kernel/svc.cpp): handles,
    synchronization objects, arbiters, ports, sessions and resource limits. *)

From S2P Require Import Prelude ResultCode ThreadQueueList HandleTable MemoryMap ResourceLimit IntervalSet MemoryRegion Memory MemoryAccess VmManager CoreTiming KernelState Thread WaitObject SyncObjects ThreadLife Process Ipc Sessions WaitSync SvcMemory.

(** [fmt::format] of a word as eight hexadecimal digits, [{:08x}] *)
Definition hex_digit (upper : bool) (n : Z) : Ascii.ascii :=
  Ascii.ascii_of_nat (Z.to_nat (if n <? 10 then 48 + n else (if upper then 55 else 87) + n)).
Fixpoint hex_digits (upper : bool) (n : nat) (word : Z) (rest : string) : string :=
  match n with
  | O => rest
  | S n' => hex_digits upper n' (Z.shiftr word 4) (String (hex_digit upper (Z.land word 15)) rest)
  end.
Definition hex8 (upper : bool) (word : Z) : string := hex_digits upper 8 word "".

Section SvcObjects.
Context `{Host} {D IS : Type} `{Devices D} {ops : IntervalSetOps IS} {hooks : Hooks D IS} {buffers : Buffers D IS} {services : Services D IS}.
Abbreviation M := (M (KernelSystem D IS)).
Implicit Types (k : KernelSystem D IS).

(** [system.GetRunningCore().GetReg(14)] *)
Definition link_register : M Z :=
  k ← get; m ← get_manager (current_cpu k); deref (cpu_registers (cpu_context (cpu m)) !! 14%nat).
Definition named (prefix : string) : M string := lr ← link_register; mret (prefix ++ hex8 false lr)%string.
(** A call on the object of a class a handle is for *)
Definition with_object {A B} (cast : Object -> option A) (handle : Handle) (error : result_code -> B) (body : oid -> M B) : M B :=
  o ← get_handle cast handle;
  match o with None => mret (error ERR_INVALID_HANDLE) | Some o => body o end.
Definition no_output {A} (e : result_code) : result_code * option A := (e, None).

(** ** Handles *)

(** [SVC::DuplicateHandle], [SVC::CloseHandle] *)
Definition DuplicateHandle (handle : Handle) : M (result_code * option Handle) :=
  p ← current;
  k ← get;
  m ← get_manager (current_cpu k);
  r ← handle_op p (HandleTable.Duplicate (current_thread m) (current_process k) handle);
  mret (value r).
Definition CloseHandle (handle : Handle) : M result_code := p ← current; handle_op p (HandleTable.Close handle).

(** ** Mutexes, semaphores and events *)

(** [SVC::CreateMutex], [SVC::ReleaseMutex] *)
Definition CreateMutex (initial_locked : Z) : M (result_code * option Handle) :=
  mutex ← SyncObjects.CreateMutex (negb (initial_locked =? 0)) "Unknown";
  name ← named "mutex-";
  update_mutex mutex (fun m => m <| mutex_name := name |>);;
  return_handle mutex.
Definition ReleaseMutex (handle : Handle) : M result_code :=
  with_object as_mutex handle id (fun mutex => thread ← running_thread; Mutex_Release mutex thread).

(** [SVC::CreateSemaphore], [SVC::ReleaseSemaphore] *)
Definition CreateSemaphore (initial_count max_count : Z) : M (result_code * option Handle) :=
  r ← SyncObjects.CreateSemaphore initial_count max_count "Unknown";
  match r with
  | Failure e => mret (e, None)
  | Success semaphore =>
      name ← named "semaphore-";
      update_semaphore semaphore (fun s => s <| semaphore_name := name |>);;
      return_handle semaphore
  end.
Definition ReleaseSemaphore (handle : Handle) (release_count : Z) : M (result_code * option Z) :=
  with_object as_semaphore handle no_output (fun semaphore => r ← Semaphore_Release semaphore release_count; mret (value r)).

(** [SVC::CreateEvent], [SVC::SignalEvent], [SVC::ClearEvent] *)
Definition CreateEvent (reset_type : Z) : M (result_code * option Handle) :=
  name ← named "event-";
  evt ← SyncObjects.CreateEvent (reset_type_of reset_type) name;
  return_handle evt.
Definition SignalEvent (handle : Handle) : M result_code :=
  with_object as_event handle id (fun evt => Event_Signal evt;; mret RESULT_SUCCESS).
Definition ClearEvent (handle : Handle) : M result_code :=
  with_object as_event handle id (fun evt => Event_Clear evt;; mret RESULT_SUCCESS).

(** ** Timers *)

(** [SVC::CreateTimer], [SVC::ClearTimer], [SVC::SetTimer], [SVC::CancelTimer] *)
Definition CreateTimer (reset_type : Z) : M (result_code * option Handle) :=
  name ← named "timer-";
  timer ← SyncObjects.CreateTimer (reset_type_of reset_type) name;
  return_handle timer.
Definition ClearTimer (handle : Handle) : M result_code :=
  with_object as_timer handle id (fun timer => Timer_Clear timer;; mret RESULT_SUCCESS).
Definition SetTimer (handle : Handle) (initial interval : Z) : M result_code :=
  if (initial <? 0) || (interval <? 0) then mret ERR_OUT_OF_RANGE_KERNEL
  else with_object as_timer handle id (fun timer => Timer_Set timer initial interval;; mret RESULT_SUCCESS).
Definition CancelTimer (handle : Handle) : M result_code :=
  with_object as_timer handle id (fun timer => Timer_Cancel timer;; mret RESULT_SUCCESS).

(** ** Address arbiters *)

(** [SVC::CreateAddressArbiter], [SVC::ArbitrateAddress]; the value becomes an [s32],
    the timeout a [u64]. *)
Definition CreateAddressArbiter : M (result_code * option Handle) :=
  arbiter ← SyncObjects.CreateAddressArbiter "Unknown"; return_handle arbiter.
Definition ArbitrateAddress (handle : Handle) (address type value nanoseconds : Z) : M result_code :=
  with_object as_arbiter handle id (fun arbiter =>
    thread ← running_thread;
    res ← ThreadLife.ArbitrateAddress arbiter thread type address (s32 value) (u64 nanoseconds);
    PrepareReschedule;;
    mret res).

(** ** Ports and sessions *)

(** [SVC::ConnectToPort]; a string is read as its characters. *)
Definition PortNameMaxLength : nat := 11.
Definition string_of (chars : list Z) : string := foldr (fun c s => String (Ascii.ascii_of_nat (Z.to_nat c)) s) EmptyString chars.
Definition connect (client_port : oid) : M (result_code * option Handle) :=
  r ← Connect client_port;
  match r with Failure e => mret (e, None) | Success session => return_handle session end.
Definition ConnectToPort (port_name_address : VAddr) : M (result_code * option Handle) :=
  valid ← valid_address port_name_address;
  if negb valid then mret (ERR_NOT_FOUND, None)
  else
    port_name ← memory_op (ReadCString port_name_address (S PortNameMaxLength));
    if bool_decide (PortNameMaxLength < length port_name)%nat then mret (ERR_PORT_NAME_TOO_LONG, None)
    else
      k ← get;
      match named_ports k !! string_of port_name with
      | None => mret (ERR_NOT_FOUND, None)
      | Some client_port => connect client_port
      end.
(** [SVC::SendSyncRequest]; recording requests is left out. *)
Definition SendSyncRequest (handle : Handle) : M result_code :=
  with_object as_client_session handle id (fun session =>
    PrepareReschedule;; thread ← running_thread; Sessions.SendSyncRequest session thread).
(** Two handles, one after the other *)
Definition return_handles (first second : oid) : M (result_code * option Handle * option Handle) :=
  a ← return_handle first;
  if IsError a.1 then mret (a.1, None, None) else b ← return_handle second; mret (b.1, a.2, b.2).
(** [SVC::CreatePort]: the client's handle is made first; (result, server, client) *)
Definition CreatePort (name_address : VAddr) (max_sessions : Z) : M (result_code * option Handle * option Handle) :=
  ASSERT (name_address =? 0);;
  pair ← CreatePortPair max_sessions "UnknownPort";
  r ← return_handles pair.2 pair.1;
  mret (r.1.1, r.2, r.1.2).
(** [SVC::CreateSessionToPort], [SVC::CreateSession], [SVC::AcceptSession] *)
Definition CreateSessionToPort (client_port_handle : Handle) : M (result_code * option Handle) :=
  with_object as_client_port client_port_handle no_output connect.
Definition CreateSession : M (result_code * option Handle * option Handle) :=
  pair ← CreateSessionPair "Unknown" None; return_handles pair.1 pair.2.
Definition AcceptSession (server_port_handle : Handle) : M (result_code * option Handle) :=
  with_object as_server_port server_port_handle no_output (fun server_port =>
    r ← Accept server_port;
    match r with Failure e => mret (e, None) | Success session => return_handle session end).

(** ** Resource limits *)

Definition as_resource_limit (o : Object) : option ResourceLimitCategory := match o with OResourceLimit c => Some c | _ => None end.
Definition limit_of (category : ResourceLimitCategory) : M ResourceLimit := k ← get; deref (resource_limits k !! category_index category).
(** The object of the limit of a process, one per category *)
Definition limit_object (category : ResourceLimitCategory) : M oid :=
  k ← get;
  deref (fst <$> List.find (fun p => match p.2 with OResourceLimit c => bool_decide (c = category) | _ => false end) (map_to_list (objects k))).
(** [SVC::GetResourceLimit] *)
Definition GetResourceLimit (process_handle : Handle) : M (result_code * option Handle) :=
  with_object as_process process_handle no_output (fun process =>
    p ← get_process process;
    o ← limit_object (resource_limit p);
    return_handle o).
(** [SVC::GetResourceLimitCurrentValues], [SVC::GetResourceLimitLimitValues]: each value is
    an [s64], written as a [u64]. *)
Fixpoint write_values (n : nat) (i : Z) (f : Z -> ResourceLimit -> Z) (category : ResourceLimitCategory) (values names : VAddr) : M unit :=
  match n with
  | O => mret tt
  | S n' =>
      name ← memory_op (Read32 (u32 (names + i * 4)));
      l ← limit_of category;
      memory_op (Write64 (u32 (values + i * 8)) (u64 (f name l)));;
      write_values n' (i + 1) f category values names
  end.
Definition get_values (f : Z -> ResourceLimit -> Z) (values : VAddr) (resource_limit_handle : Handle) (names : VAddr) (name_count : Z) : M result_code :=
  with_object as_resource_limit resource_limit_handle id (fun o =>
    category ← get_object as_resource_limit o;
    write_values (Z.to_nat name_count) 0 f category values names;;
    mret RESULT_SUCCESS).
Definition GetResourceLimitCurrentValues := get_values GetCurrentResourceValue.
Definition GetResourceLimitLimitValues := get_values GetMaxResourceValue.
End SvcObjects.
