(* ===== verification/SvcThreads.v ===== *)
(** The other supervisor calls, second part (src/.../core/hle/kernel/svc.cpp):
    threads, processes and information about them. *)

From S2P Require Import Prelude ResultCode ThreadQueueList HandleTable MemoryMap ResourceLimit IntervalSet MemoryRegion Memory MemoryAccess VmManager CoreTiming KernelState Thread WaitObject SyncObjects ThreadLife Process Ipc Sessions WaitSync SvcMemory SvcObjects.

(** What the calls read of the rest of the emulator: the strings the build generates,
    the counts of references, and the service of plugins. *)
Class Emulator (D IS : Type) := {
  g_build_name : string;
  g_build_version : string;
  g_build_date : string;
  g_scm_branch : string;
  g_scm_desc : string;
  use_count : oid -> KernelSystem D IS -> Z;
  OnProcessExit : oid -> M (KernelSystem D IS) unit;
  GetMemoryChangedHandle : option (M (KernelSystem D IS) (ResultVal Handle));
}.

Section SvcThreads.
Context `{Host} {D IS : Type} `{Devices D} {ops : IntervalSetOps IS} {hooks : Hooks D IS} {emulator : Emulator D IS}.
Abbreviation M := (M (KernelSystem D IS)).
Implicit Types (k : KernelSystem D IS).

(** ** Threads *)

(** [SVC::CreateThread] *)
Definition max_priority_value (process : oid) : M Z :=
  p ← get_process process; l ← limit_of (resource_limit p); mret (GetMaxResourceValue ResourceTypes.PRIORITY l).
Definition target_processor (process : oid) (processor_id : Z) : M Z :=
  if processor_id =? ThreadProcessorIdDefault then
    p ← get_process process;
    ASSERT (negb (ideal_processor p =? ThreadProcessorIdDefault));;
    mret (ideal_processor p)
  else mret processor_id.
Definition checked_processor (processor_id : Z) : option Z :=
  if (processor_id =? ThreadProcessorId0) || (processor_id =? ThreadProcessorIdAll) then Some ThreadProcessorId0
  else if (processor_id =? ThreadProcessorId1) || (processor_id =? ThreadProcessorId2) || (processor_id =? ThreadProcessorId3) then Some processor_id
  else None.
Definition CreateThread (entry_point arg stack_top priority processor_id : Z) : M (result_code * option Handle) :=
  if ThreadPrioLowest <? priority then mret (ERR_OUT_OF_RANGE, None)
  else
    process ← current;
    p ← get_process process;
    limit ← max_priority_value process;
    if (priority <? limit) && negb (no_thread_restrictions p) then mret (ERR_NOT_AUTHORIZED, None)
    else
      target ← target_processor process processor_id;
      match checked_processor target with
      | None => mret (ERR_OUT_OF_RANGE, None)
      | Some core =>
          r ← ThreadLife.CreateThread ("thread-" ++ hex8 true entry_point)%string entry_point priority arg core stack_top process;
          match r with
          | Failure e => mret (e, None)
          | Success thread =>
              update_thread thread (fun th => th <| context ::= fun c => c <| fpscr := FPSCR_THREAD |> |>);;
              r ← return_handle thread;
              (if IsError r.1 then mret tt else PrepareReschedule);;
              mret r
          end
      end.

(** [SVC::ExitThread] *)
Definition ExitThread : M unit := k ← get; ExitCurrentThread (current_cpu k);; PrepareReschedule.

(** [SVC::GetThreadPriority], [SVC::SetThreadPriority] *)
Definition GetThreadPriority (handle : Handle) : M (result_code * option Z) :=
  with_object as_thread handle no_output (fun thread => th ← get_thread thread; mret (RESULT_SUCCESS, Some (current_priority th))).
Definition change_priority (thread : oid) (priority : Z) : M result_code :=
  SetPriority thread priority;;
  UpdatePriority thread;;
  th ← get_thread thread;
  for_each (pending_mutexes th) Mutex_UpdatePriority;;
  PrepareReschedule;;
  mret RESULT_SUCCESS.
Definition SetThreadPriority (handle : Handle) (priority : Z) : M result_code :=
  if ThreadPrioLowest <? priority then mret ERR_OUT_OF_RANGE
  else with_object as_thread handle id (fun thread =>
    process ← current;
    limit ← max_priority_value process;
    if priority <? limit then mret ERR_NOT_AUTHORIZED
    else change_priority thread priority).

(** [SVC::GetProcessIdOfThread], [SVC::GetThreadId], [SVC::GetThreadInfo] *)
Definition GetProcessIdOfThread (thread_handle : Handle) : M (result_code * option Z) :=
  with_object as_thread thread_handle no_output (fun thread =>
    th ← get_thread thread;
    ASSERT (bool_decide (owner_process th <> None));;
    process ← deref (owner_process th);
    p ← get_process process;
    mret (RESULT_SUCCESS, Some (process_id p))).
Definition GetThreadId (handle : Handle) : M (result_code * option Z) :=
  with_object as_thread handle no_output (fun thread => th ← get_thread thread; mret (RESULT_SUCCESS, Some (thread_id th))).
Definition GetThreadInfo (thread_handle : Handle) (type : Z) : M (result_code * option Z) :=
  with_object as_thread thread_handle no_output (fun thread =>
    th ← get_thread thread;
    mret (if type =? 0x10000 then (RESULT_SUCCESS, Some (tls_address th)) else (ERR_INVALID_ENUM_VALUE, None))).

(** [SVC::OpenThread]: the first match, core by core *)
Definition owned_by (process : oid) (t : oid) k : bool :=
  match objects k !! t with Some (OThread th) => bool_decide (owner_process th = Some process) | _ => false end.
Definition id_of_thread (t : oid) k : Z := match objects k !! t with Some (OThread th) => thread_id th | _ => 0 end.
Definition all_threads k : list oid := concat (thread_list <$> thread_managers k).
Definition OpenThread (process_handle : Handle) (thread_id : Z) : M (result_code * option Handle) :=
  if process_handle =? 0 then mret (ERR_THREAD_NOT_FOUND, None)
  else with_object as_process process_handle no_output (fun process =>
    k ← get;
    match List.find (fun t => owned_by process t k && (id_of_thread t k =? thread_id)) (all_threads k) with
    | Some thread => return_handle thread
    | None => mret (ERR_THREAD_NOT_FOUND, None)
    end).

(** [SVC::GetSystemTick] *)
Definition GetSystemTick : M Z :=
  k ← get;
  ticks ← timer_ticks (current_cpu k);
  timing_op (on_timer (current_cpu k) (Timer.AddTicks 150));;
  mret ticks.

(** ** Processes *)

(** [SVC::ExitProcess] *)
Definition stop_other (process : oid) (current_thread : option oid) (thread : oid) : M unit :=
  th ← get_thread thread;
  if negb (bool_decide (owner_process th = Some process)) || bool_decide (Some thread = current_thread) then mret tt
  else ASSERT (sync_status (status th));; Stop thread.
Definition RemoveProcess (process : oid) : M unit := modify (fun k => k <| process_list ::= filter (fun p => p <> process) |>).
Definition ExitProcess : M unit :=
  process ← current;
  p ← get_process process;
  ASSERT (bool_decide (process_status p = ProcessRunning));;
  update_process process (fun p => p <| process_status := Exited |>);;
  k ← get;
  m ← get_manager (current_cpu k);
  for_each (thread_list m) (stop_other process (current_thread m));;
  OnProcessExit process;;
  thread ← running_thread;
  Stop thread;;
  RemoveProcess process;;
  PrepareReschedule.

(** [SVC::OpenProcess], [SVC::GetProcessId] *)
Definition OpenProcess (process_id : Z) : M (result_code * option Handle) :=
  r ← GetProcessById process_id;
  match r with None => mret (ERR_PROCESS_NOT_FOUND, None) | Some process => return_handle process end.
Definition GetProcessId (process_handle : Handle) : M (result_code * option Z) :=
  with_object as_process process_handle no_output (fun process => p ← get_process process; mret (RESULT_SUCCESS, Some (process_id p))).

(** [SVC::GetProcessList]: what it writes, and how many *)
Fixpoint write_processes (processes : list oid) (out_process_array : VAddr) (count written : Z) : M Z :=
  match processes with
  | [] => mret written
  | process :: rest =>
      if count <=? written then mret written
      else
        p ← get_process process;
        memory_op (Write32 (u32 (out_process_array + written * 4)) (process_id p));;
        write_processes rest out_process_array count (written + 1)
  end.
Definition GetProcessList (out_process_array : VAddr) (out_process_array_count : Z) : M (result_code * option Z) :=
  valid ← valid_address out_process_array;
  if negb valid then mret (ERR_INVALID_POINTER, None)
  else k ← get; written ← write_processes (process_list k) out_process_array out_process_array_count 0; mret (RESULT_SUCCESS, Some written).

(** [SVC::ControlProcess] *)
Definition SET_MMU_TO_RWX : Z := 1.
Definition GET_ON_MEMORY_CHANGE_EVENT : Z := 2.
Definition SCHEDULE_THREADS_WITHOUT_TLS_MAGIC : Z := 6.
Definition DISABLE_CREATE_THREAD_RESTRICTIONS : Z := 7.
Definition schedule_thread (process : oid) (lock tls_magic : Z) (t : oid) : M unit :=
  th ← get_thread t;
  if negb (bool_decide (owner_process th = Some process)) then mret tt
  else
    magic ← memory_op (Read32 (tls_address th));
    if magic =? tls_magic then mret tt
    else
      running ← running_thread;
      r ← get_thread running;
      if thread_id th =? thread_id r then mret tt
      else update_thread t (fun th => th <| can_schedule := (lock =? 0) |>).
(** The iterator over the areas is used after [Reprotect], which may have erased its area. *)
Fixpoint set_rwx (fuel : nat) (it : VMAIter) : Prelude.M (VmState D) unit :=
  match it with
  | None => mret tt
  | Some b =>
      match fuel with
      | O => crash OutOfFuel
      | S fuel' =>
          v ← get_vma it;
          (if negb (bool_decide (meminfo_state v = MemoryState.Free)) then _ ← Reprotect it Perm.ReadWriteExecute; mret tt else mret tt);;
          m ← map_of;
          _ ← deref (vma_at b m);
          set_rwx fuel' (vma_next b m)
      end
  end.
Definition ControlProcess (process_handle : Handle) (process_OP varg2 varg3 : Z) : M result_code :=
  with_object as_process process_handle id (fun process =>
    if process_OP =? SET_MMU_TO_RWX then
      vm_op process (m ← map_of; set_rwx (length m) (base <$> head m));; mret RESULT_SUCCESS
    else if process_OP =? GET_ON_MEMORY_CHANGE_EVENT then
      match GetMemoryChangedHandle with
      | None => mret ERR_NOT_FOUND
      | Some get_handle =>
          r ← get_handle;
          match r with
          | Failure e => mret e
          | Success out => memory_op (Write32 varg2 out);; mret RESULT_SUCCESS
          end
      end
    else if process_OP =? SCHEDULE_THREADS_WITHOUT_TLS_MAGIC then
      k ← get; for_each (all_threads k) (schedule_thread process varg2 varg3);; mret RESULT_SUCCESS
    else if process_OP =? DISABLE_CREATE_THREAD_RESTRICTIONS then
      update_process process (fun p => p <| no_thread_restrictions := (varg2 =? 1) |>);; mret RESULT_SUCCESS
    else mret ERR_NOT_IMPLEMENTED).

(** [SVC::GetHandleInfo] *)
Definition creation_ticks (x : Object) : Z := match x with OProcess p => creation_time_ticks p | _ => 0 end.
Definition GetHandleInfo (handle : Handle) (type : Z) : M (result_code * option Z) :=
  p ← current;
  o ← Ipc.GetGeneric p handle;
  match o with
  | None => mret (ERR_INVALID_HANDLE, None)
  | Some o =>
      k ← get;
      x ← get_any o;
      mret (if type =? 0 then (RESULT_SUCCESS, Some (creation_ticks x))
            else if type =? 1 then (RESULT_SUCCESS, Some (use_count o k - 1))
            else if (type =? 2) || (type =? 0x32107) then (RESULT_SUCCESS, Some 0)
            else (ERR_INVALID_ENUM_VALUE, None))
  end.

(** [CopyStringPart] into the eight bytes of [*out], whose bytes were [out] *)
Definition char_code (c : Ascii.ascii) : Z := Z.of_nat (Ascii.nat_of_ascii c).
Definition CopyStringPart (text : string) (offset : nat) (out : list Z) : list Z :=
  if bool_decide (offset < String.length text)%nat
  then firstn 7 ((char_code <$> String.list_ascii_of_string (String.substring offset 7 text)) ++ replicate 7 0) ++ [0]
  else <[0%nat := 0]> out.
(** [SVC::GetSystemInfo]; [out] is what [*out] held before the call. *)
Definition used_of (region : Z) : M Z := r ← GetMemoryRegion region; i ← get_region r; mret (used i).
Definition citra_string (param : Z) : option (string * nat) :=
  if param =? 10 then Some (g_build_name, 0%nat) else if param =? 11 then Some (g_build_version, 0%nat)
  else if param =? 20 then Some (g_build_date, 0%nat) else if param =? 21 then Some (g_build_date, 7%nat)
  else if param =? 22 then Some (g_build_date, 14%nat) else if param =? 23 then Some (g_build_date, 21%nat)
  else if param =? 30 then Some (g_scm_branch, 0%nat) else if param =? 31 then Some (g_scm_branch, 7%nat)
  else if param =? 40 then Some (g_scm_desc, 0%nat) else if param =? 41 then Some (g_scm_desc, 7%nat)
  else None.
Definition GetSystemInfo (out : list Z) (type param : Z) : M (result_code * Z) :=
  if type =? 0 then
    if param =? 0 then
      a ← used_of MemoryRegion_APPLICATION; s ← used_of MemoryRegion_SYSTEM; b ← used_of MemoryRegion_BASE;
      mret (RESULT_SUCCESS, u32 (a + s + b))
    else if param =? 1 then a ← used_of MemoryRegion_APPLICATION; mret (RESULT_SUCCESS, a)
    else if param =? 2 then s ← used_of MemoryRegion_SYSTEM; mret (RESULT_SUCCESS, s)
    else if param =? 3 then b ← used_of MemoryRegion_BASE; mret (RESULT_SUCCESS, b)
    else mret (RESULT_SUCCESS, 0)
  else if type =? 26 then mret (RESULT_SUCCESS, 5)
  else if type =? 0x10001 then
    k ← get; mret (if bool_decide (length (thread_managers k) = 4%nat) then RESULT_SUCCESS else ERR_INVALID_ENUM_VALUE, 0)
  else if type =? 0x20000 then
    if param =? 0 then mret (RESULT_SUCCESS, 1)
    else mret (RESULT_SUCCESS, match citra_string param with
                               | Some (text, offset) => s64 (le_decode (CopyStringPart text offset out))
                               | None => 0
                               end)
  else mret (RESULT_SUCCESS, 0).

(** [SVC::GetProcessInfo]; [None] leaves [*out] as it was. *)
Definition get_codeset : oid -> M CodeSet := get_object as_codeset.
Definition strncpy8 (text : string) : list Z :=
  firstn 8 ((char_code <$> String.list_ascii_of_string (String.substring 0 8 text)) ++ replicate 8 0).
Definition codeset_info (c : CodeSet) (type : Z) : option Z :=
  if type =? 0x10000 then Some (s64 (le_decode (strncpy8 (codeset_name c))))
  else if type =? 0x10001 then Some (s64 (program_id c))
  else if type =? 0x10002 then Some (segment_size (segments c).1.1)
  else if type =? 0x10003 then Some (segment_size (segments c).1.2)
  else if type =? 0x10004 then Some (segment_size (segments c).2)
  else if type =? 0x10005 then Some (segment_addr (segments c).1.1)
  else if type =? 0x10006 then Some (segment_addr (segments c).1.2)
  else if type =? 0x10007 then Some (segment_addr (segments c).2)
  else None.
Definition GetProcessInfo (process_handle : Handle) (type : Z) : M (result_code * option Z) :=
  with_object as_process process_handle no_output (fun process =>
    p ← get_process process;
    if (type =? 0) || (type =? 2) then
      mret (if negb (memory_used p mod CITRA_PAGE_SIZE =? 0) then ERR_MISALIGNED_SIZE else RESULT_SUCCESS, Some (memory_used p))
    else if (type =? 1) || ((3 <=? type) && (type <=? 8)) then mret (RESULT_SUCCESS, None)
    else if type =? 20 then mret (RESULT_SUCCESS, Some (u32 (FCRAM_PADDR - GetLinearHeapAreaAddress p)))
    else if (21 <=? type) && (type <=? 23) then mret (ERR_NOT_IMPLEMENTED, None)
    else if (0x10000 <=? type) && (type <=? 0x10007) then
      c ← get_codeset (codeset p); mret (RESULT_SUCCESS, codeset_info c type)
    else mret (ERR_INVALID_ENUM_VALUE, None)).
End SvcThreads.
