(* ===== verification/IpcSpec.v ===== *)
(** What the messages between processes promise: their headers and descriptors read
    back as they were made, and translating a message touches nothing but its
    translate parameters (src/.../core/hle/ipc.h, core/hle/kernel/ipc.cpp). *)

From S2P Require Import Prelude ResultCode HandleTable IntervalSet MemoryRegion Memory MemoryAccess VmManager KernelState Thread WaitObject SyncObjects ThreadLife Process Ipc.

(** ** Headers and descriptors *)

Lemma land_format_high n p b v : 0 <= n <= p -> 0 < b -> p + b <= 32 -> Z.land (FormatValue p b v) (Z.ones n) = 0.
Proof.
  intros. apply Z.bits_inj'. intros i Hi. rewrite Z.land_spec, FormatValue_testbit, Z.bits_0 by lia. destruct (Z.ltb_spec i n).
  - destruct (Z.leb_spec p i); [lia|done].
  - rewrite Z.ones_spec_high by lia. apply andb_false_r.
Qed.
Definition handle_desc_ok (n : Z) : bool :=
  (HandleNumberFromDesc (MoveHandleDesc n) =? n) && (HandleNumberFromDesc (CopyHandleDesc n) =? n) &&
  match GetDescriptorType (MoveHandleDesc n), GetDescriptorType (CopyHandleDesc n) with MoveHandle, CopyHandle => true | _, _ => false end.
Lemma handle_descs n : 1 <= n <= 64 -> handle_desc_ok n = true.
Proof.
  intros Hn. assert (Hf : forallb handle_desc_ok (seqZ 1 64) = true) by reflexivity. rewrite List.forallb_forall in Hf. apply Hf.
  apply list_elem_of_In, elem_of_seqZ. lia.
Qed.
Lemma static_type size id : GetDescriptorType (StaticBufferDesc size id) = StaticBuffer.
Proof.
  unfold GetDescriptorType, IsHandleDescriptor, StaticBufferDesc.
  assert (E : forall m, Z.land m (Z.ones 4) = m -> Z.land (Z.lor (Z.lor (FormatValue 0 4 2) (FormatValue 10 4 id)) (FormatValue 14 18 size)) m = Z.land 2 m).
  { intros m Hm. rewrite <- Hm, (Z.land_comm m (Z.ones 4)), !Z.land_assoc, !Z.land_lor_distr_l, (land_format_high 4 10), (land_format_high 4 14) by lia. by rewrite !Z.lor_0_r. }
  by rewrite (E 0xF), (E 8), (E 4) by reflexivity.
Qed.
Lemma mapped_type size perms : GetDescriptorType (MappedBufferDesc size perms) = MappedBuffer.
Proof.
  unfold GetDescriptorType, IsHandleDescriptor, MappedBufferDesc.
  assert (E8 : Z.land (Z.lor (Z.lor (FormatValue 0 4 8) (FormatValue 1 2 perms)) (FormatValue 4 28 size)) 8 = 8).
  { rewrite !Z.land_lor_distr_l. assert (Z.land (FormatValue 4 28 size) 8 = 0) as ->.
    { change 8 with (Z.land (Z.ones 4) 8). rewrite Z.land_assoc. by rewrite (land_format_high 4) by lia. }
    assert (Z.land (FormatValue 1 2 perms) 8 = 0) as ->; [|reflexivity]. apply Z.bits_inj'. intros i Hi.
    rewrite Z.land_spec, FormatValue_testbit, Z.bits_0 by lia. change 8 with (2 ^ 3). rewrite Z.pow2_bits_eqb by lia.
    destruct (Z.eqb_spec 3 i) as [<-|]; [done|apply andb_false_r]. }
  assert (EF : (Z.land (Z.lor (Z.lor (FormatValue 0 4 8) (FormatValue 1 2 perms)) (FormatValue 4 28 size)) 15 =? 0) = false).
  { apply Z.eqb_neq. intros H0. assert (H8 : Z.land (Z.land (Z.lor (Z.lor (FormatValue 0 4 8) (FormatValue 1 2 perms)) (FormatValue 4 28 size)) 15) 8 = 0) by (by rewrite H0).
    rewrite <- Z.land_assoc in H8. change (Z.land 15 8) with 8 in H8. by rewrite E8 in H8. }
  by rewrite EF, E8.
Qed.

(** Headers and descriptors of messages read back as they were made, for every field
    in its range, and every descriptor is of the class it was made for. *)
Theorem descriptor_roundtrip id normal translate n size buffer_id mapped_size perms :
  0 <= id < 2 ^ 16 -> 0 <= normal < 64 -> 0 <= translate < 64 -> 1 <= n <= 64 -> 0 <= size < 2 ^ 18 -> 0 <= buffer_id < 16 ->
  0 <= mapped_size < 2 ^ 28 -> 0 <= perms < 4 ->
  (let h := MakeHeader id normal translate in command_id h = id /\ normal_params_size h = normal /\ translate_params_size h = translate) /\
  (HandleNumberFromDesc (MoveHandleDesc n) = n /\ GetDescriptorType (MoveHandleDesc n) = MoveHandle) /\
  (HandleNumberFromDesc (CopyHandleDesc n) = n /\ GetDescriptorType (CopyHandleDesc n) = CopyHandle) /\
  (let d := StaticBufferDesc size buffer_id in static_buffer_size d = size /\ static_buffer_id d = buffer_id /\ GetDescriptorType d = StaticBuffer) /\
  (let d := MappedBufferDesc mapped_size perms in mapped_buffer_desc_size d = mapped_size /\ mapped_buffer_perms d = perms /\ GetDescriptorType d = MappedBuffer) /\
  GetDescriptorType CallingPidDesc = CallingPid.
Proof.
  intros Hid Hn Ht Hh Hs Hb Hm Hp. pose proof (handle_descs n Hh) as Hd. unfold handle_desc_ok in Hd.
  apply andb_true_iff in Hd as [[H1%Z.eqb_eq H2%Z.eqb_eq]%andb_true_iff H3].
  destruct (GetDescriptorType (MoveHandleDesc n)) eqn:E1; try done. destruct (GetDescriptorType (CopyHandleDesc n)) eqn:E2; try done.
  cbv zeta. rewrite static_type, mapped_type. split_and!; try done.
  all: unfold command_id, normal_params_size, translate_params_size, static_buffer_size, static_buffer_id, mapped_buffer_desc_size, mapped_buffer_perms,
    MakeHeader, StaticBufferDesc, MappedBufferDesc; try solve_field.
  rewrite !ExtractValue_lor. change (ExtractValue 1 2 (FormatValue 0 4 8)) with 0. rewrite (Extract_Format_same 1 2), (Extract_Format_disjoint 1 2 4 28) by (cbn; lia). by rewrite Z.lor_0_r.
Qed.

(** A descriptor that moves more than one handle is not the value the translation
    compares it with, so the source keeps its handles. *)
Lemma moved_handles_not_closed n : 1 < n <= 64 -> GetDescriptorType (MoveHandleDesc n) = MoveHandle /\ (MoveHandleDesc n =? MoveHandle_value) = false.
Proof.
  intros Hn. split.
  - assert (Hd : handle_desc_ok n = true) by (apply handle_descs; lia). apply andb_true_iff in Hd as [_ Hd]. by destruct (GetDescriptorType (MoveHandleDesc n)).
  - apply Z.eqb_neq. intros E. assert (Hd : handle_desc_ok n = true) by (apply handle_descs; lia). unfold handle_desc_ok in Hd. rewrite E in Hd.
    apply andb_true_iff in Hd as [[Hd%Z.eqb_eq _]%andb_true_iff _]. change (HandleNumberFromDesc MoveHandle_value) with 1 in Hd. lia.
Qed.

(** ** Translation *)

Section Translation.
Context `{Host} {D IS : Type} `{Devices D} {ops : IntervalSetOps IS} {hooks : Hooks D IS} {buffers : Buffers D IS}.
Implicit Types (k : KernelSystem D IS) (cmd_buf : list Z).

(** The same words, but for those from [i] to [j]. *)
Definition changes (i j : nat) cmd_buf cmd_buf' : Prop :=
  length cmd_buf' = length cmd_buf /\ forall n, (n < i)%nat \/ (j <= n)%nat -> cmd_buf' !! n = cmd_buf !! n.
Lemma changes_refl i j cmd_buf : changes i j cmd_buf cmd_buf.
Proof. done. Qed.
Lemma changes_trans i j i' j' a b c : changes i j a b -> changes i' j' b c -> changes (i `min` i') (j `max` j') a c.
Proof. intros [H1 H2] [K1 K2]. split; [congruence|]. intros n Hn. rewrite K2, H2 by lia. done. Qed.
Lemma changes_weaken i j i' j' a b : changes i j a b -> (i' <= i)%nat -> (j <= j')%nat -> changes i' j' a b.
Proof. intros [H1 H2] Hi Hj. split; [done|]. intros n Hn. apply H2. lia. Qed.
Lemma wlp_any {A} (m : M (KernelSystem D IS) A) (Q : A -> KernelSystem D IS -> Prop) k : (forall a k', Q a k') -> wlp m Q k.
Proof. intros HQ. unfold wlp. destruct (m k) as [[a k']|]; [apply HQ|done]. Qed.
Lemma wlp_set_word cmd_buf i v k : wlp (set_word cmd_buf i v) (fun l _ => changes i (S i) cmd_buf l) k.
Proof.
  unfold set_word. destruct (bool_decide _); [|destruct (_ <? _); [|done]]; cbn; (split; [by rewrite ?length_insert|]); [|done].
  intros n Hn. apply list_lookup_insert_ne. lia.
Qed.
Lemma wlp_translate_handles n st sp dp d i cmd_buf k :
  wlp (translate_handles n st sp dp d i cmd_buf) (fun l _ => changes i (i + n) cmd_buf l) k.
Proof.
  revert i cmd_buf k. induction n as [|n IH]; intros i cmd_buf k; cbn [translate_handles]; [by apply wlp_ret|].
  wp_step. apply wlp_any. intros handle k1. wp_step. apply wlp_any. intros v k2. wp_step. eapply wlp_mono; [apply wlp_set_word|]. cbn beta. intros l k3 Hl.
  eapply wlp_mono; [apply IH|]. cbn beta. intros l' _ Hl'. eapply changes_weaken; [by eapply changes_trans|lia|lia].
Qed.
Lemma wlp_translate_static sp dp a d i cmd_buf k : wlp (translate_static sp dp a d i cmd_buf) (fun l _ => changes i (S i) cmd_buf l) k.
Proof.
  unfold translate_static. do 5 (wp_step; apply wlp_any; intros ? ?). cbv zeta. wp_step. apply wlp_any; intros _ ?. wp_step. apply wlp_any; intros _ ?.
  apply wlp_set_word.
Qed.
Lemma wlp_translate_mapped sp dp reply d i cmd_buf context k :
  wlp (translate_mapped sp dp reply d i cmd_buf context) (fun r _ => changes i (S i) cmd_buf r.1) k.
Proof.
  unfold translate_mapped. wp_step. apply wlp_any. intros address k1. cbv zeta. destruct (_ =? 0).
  - wp_step. eapply wlp_mono; [apply wlp_set_word|]. cbn beta. intros l k2 Hl. by wp_step.
  - wp_step. apply wlp_any. intros _ k2. destruct reply; wp_step; apply wlp_any; intros r k3; [by wp_step|].
    wp_step. eapply wlp_mono; [apply wlp_set_word|]. cbn beta. intros l k4 Hl. by wp_step.
Qed.
Lemma wlp_translate_loop fuel st sp dp a reply i cmd_buf context k :
  wlp (translate_loop fuel st sp dp a reply i cmd_buf context) (fun r _ =>
    match r.1 with Success l => changes i (length cmd_buf) cmd_buf l | Failure e => e = ERR_COMMAND_TOO_LARGE end) k.
Proof.
  revert i cmd_buf context k. induction fuel as [|fuel IH]; intros i cmd_buf context k; cbn [translate_loop].
  { destruct (bool_decide _); [by apply wlp_ret|done]. }
  case_bool; [by apply wlp_ret|]. cbv zeta. wp_step. apply wlp_any. intros descriptor k1.
  assert (Hnext : forall l j ctx k2, changes i (length cmd_buf) cmd_buf l -> (i <= j)%nat ->
    wlp (translate_loop fuel st sp dp a reply j l ctx) (fun r _ =>
      match r.1 with Success l' => changes i (length cmd_buf) cmd_buf l' | Failure e => e = ERR_COMMAND_TOO_LARGE end) k2).
  { intros l j ctx k2 Hl Hj. eapply wlp_mono; [apply IH|]. cbn beta. intros [[l'|e] c'] _; cbn [fst]; [|done].
    intros Hl'. rewrite (proj1 Hl) in Hl'. eapply changes_weaken; [by eapply changes_trans|lia|lia]. }
  assert (Hone : forall l, changes (S i) (S (S i)) cmd_buf l -> changes i (length cmd_buf) cmd_buf l).
  { intros l [Hlen Hl]. split; [done|]. intros n' Hn'. destruct (decide (n' = S i)) as [->|]; [|apply Hl; lia].
    destruct Hn' as [Hn'|Hn']; [lia|]. rewrite !lookup_ge_None_2; [done|lia|lia]. }
  assert (Hhandles : wlp (if bool_decide (length cmd_buf < S i + Z.to_nat (HandleNumberFromDesc descriptor))%nat then mret (Failure ERR_COMMAND_TOO_LARGE, context)
      else cmd_buf ← translate_handles (Z.to_nat (HandleNumberFromDesc descriptor)) st sp dp descriptor (S i) cmd_buf;
           translate_loop fuel st sp dp a reply (S i + Z.to_nat (HandleNumberFromDesc descriptor)) cmd_buf context)
    (fun r _ => match r.1 with Success l => changes i (length cmd_buf) cmd_buf l | Failure e => e = ERR_COMMAND_TOO_LARGE end) k1).
  { case_bool; [by apply wlp_ret|]. wp_step. eapply wlp_mono; [apply wlp_translate_handles|]. cbn beta. intros l k2 Hl. apply Hnext; [|lia].
    eapply changes_weaken; [exact Hl|lia|lia]. }
  destruct (GetDescriptorType descriptor).
  - wp_step. eapply wlp_mono; [apply wlp_translate_static|]. cbn beta. intros l k2 Hl. apply Hnext; [by apply Hone|lia].
  - by apply Hnext; [|lia].
  - wp_step. eapply wlp_mono; [apply wlp_translate_mapped|]. cbn beta. intros [l c] k2 Hl. apply Hnext; [by apply Hone|cbn; lia].
  - exact Hhandles.
  - exact Hhandles.
  - wp_step. apply wlp_any. intros p k2. wp_step. eapply wlp_mono; [apply wlp_set_word|]. cbn beta. intros l k3 Hl. apply Hnext; [by apply Hone|lia].
  - by apply Hnext; [|lia].
Qed.

(** The process id of a descriptor that is the last word of a full message is written
    behind the buffer. *)
Lemma calling_pid_overruns cmd_buf v k : length cmd_buf = 64%nat -> set_word cmd_buf 64 v k = Crash UndefinedBehaviour.
Proof. intros Hl. unfold set_word. by rewrite bool_decide_eq_false_2 by lia. Qed.

(** *** The fuel of the loop *)

Lemma bind_ext {A B} (m : M (KernelSystem D IS) A) (f g : A -> M (KernelSystem D IS) B) (P : A -> KernelSystem D IS -> Prop) k :
  wlp m P k -> (forall a k', P a k' -> f a k' = g a k') -> (m ≫= f) k = (m ≫= g) k.
Proof. unfold wlp, mbind, M_bind. destruct (m k) as [[a k']|]; [|done]. auto. Qed.
Lemma translate_loop_fuel f1 f2 st sp dp a reply i cmd_buf context k : (length cmd_buf - i <= f1)%nat -> (length cmd_buf - i <= f2)%nat ->
  translate_loop f1 st sp dp a reply i cmd_buf context k = translate_loop f2 st sp dp a reply i cmd_buf context k.
Proof.
  revert f2 i cmd_buf context k. induction f1 as [|f1 IH]; intros [|f2] i cmd_buf context k H1 H2; cbn [translate_loop]; [done| | |].
  1,2: by rewrite bool_decide_eq_true_2 by lia.
  case_bool; [done|]. apply (bind_ext _ _ _ (fun _ _ => True)); [by apply wlp_any|]. intros descriptor k1 _.
  assert (Hnext : forall l j ctx k2, length l = length cmd_buf -> (i < j)%nat ->
    translate_loop f1 st sp dp a reply j l ctx k2 = translate_loop f2 st sp dp a reply j l ctx k2) by (intros l j ctx k2 Hl Hj; apply IH; lia).
  destruct (GetDescriptorType descriptor).
  - eapply bind_ext; [apply wlp_translate_static|]. cbn beta. intros l k2 [Hl _]. apply Hnext; [done|lia].
  - apply Hnext; [done|lia].
  - eapply bind_ext; [apply wlp_translate_mapped|]. cbn beta. intros r k2 [Hl _]. apply Hnext; [done|lia].
  - case_bool; [done|]. eapply bind_ext; [apply wlp_translate_handles|]. cbn beta. intros l k2 [Hl _]. apply Hnext; [done|lia].
  - case_bool; [done|]. eapply bind_ext; [apply wlp_translate_handles|]. cbn beta. intros l k2 [Hl _]. apply Hnext; [done|lia].
  - apply (bind_ext _ _ _ (fun _ _ => True)); [by apply wlp_any|]. intros p k2 _. eapply bind_ext; [apply wlp_set_word|]. cbn beta. intros l k3 [Hl _]. apply Hnext; [done|lia].
  - apply Hnext; [done|lia].
Qed.

End Translation.

(** ** Witnesses *)

Lemma descriptor_roundtrip_witness : command_id (MakeHeader 0x1234 3 5) = 0x1234 /\ HandleNumberFromDesc (MoveHandleDesc 3) = 3 /\ static_buffer_size (StaticBufferDesc 100 2) = 100.
Proof.
  destruct (descriptor_roundtrip 0x1234 3 5 3 100 2 5000 3) as ((H1 & _) & (H2 & _) & _ & (H3 & _) & _); [lia..|]. split; [exact H1|]. split; [exact H2|exact H3].
Defined.
