(* ===== verification/Release.v ===== *)
(** Releasing and signaling keep the kernel valid
    (src/.../core/hle/kernel/{mutex,semaphore,event,timer}.cpp): mutexes are given
    up, semaphores, events and timers are signaled, and the threads that can go on
    are woken up. *)

From S2P Require Import Prelude ResultCode HandleTable CoreTiming ThreadQueueList KernelState Thread Scheduler Reschedule WaitObject WaitInvariant Wakeup SyncObjects.

Section Release.
Context {D IS : Type} {hooks : Hooks D IS} {Hhooks : HooksOk hooks} {hole : option oid}.
Implicit Types (k : KernelSystem D IS).

(** ** Timing *)

(** Steps of the timing, which waiting does not depend on. *)
Record timed (s s' : Timing KernelCallback) : Prop := {
  timed_timers : length (timers s') = length (timers s);
  timed_current : current_timer s' = current_timer s;
}.
Lemma wp_schedule_any cycles type data s : (current_timer s < length (timers s))%nat ->
  wp (ScheduleEvent cycles type data None) (fun _ s' => timed s s') s.
Proof.
  intros [t Ht]%lookup_lt_is_Some_2. unfold ScheduleEvent. do 2 wp_step. destruct (event_queue_locked s); [by wp_step|].
  wp_step. wp_step; [done|]. rewrite bool_decide_eq_true_2 by done. unfold wp, on_timer. rewrite Ht.
  unfold mbind, M_bind, get, Timer.ForceExceptionCheck, modify, mret, M_ret. destruct (is_timer_sane t); (split; [cbn; by rewrite length_insert|done]).
Qed.
Lemma timed_sched k s : timed (timing k) s -> sched_eq k (k <| timing := s |>).
Proof. intros [H1 H2]. by split. Qed.
Lemma timed_same k s : kernel_ok hole k -> timed (timing k) s -> same_waits hole k (k <| timing := s |>).
Proof. intros Hk Hs. apply kernel_ok_same; try done; [|apply Hk]. eapply sched_hole_eq; [by apply timed_sched|apply Hk]. Qed.
Lemma wp_schedule cycles type data k (Q : unit -> KernelSystem D IS -> Prop) : kernel_ok hole k ->
  (forall k', same_waits hole k k' -> wait_bases k' = wait_bases k -> objects k' = objects k -> Q tt k') -> wp (timing_op (ScheduleEvent cycles type data None)) Q k.
Proof.
  intros Hk HQ. apply wp_timing_op. eapply wp_mono; [apply wp_schedule_any|].
  { pose proof (kernel_sched _ Hk) as [_ _ H3 H4 _ _ _]. lia. }
  cbn beta. intros [] s Hs. apply HQ; [by apply timed_same|done|done].
Qed.
Lemma wp_unschedule type data k (Q : unit -> KernelSystem D IS -> Prop) : kernel_ok hole k ->
  (forall k', same_waits hole k k' -> wait_bases k' = wait_bases k -> objects k' = objects k -> Q tt k') -> wp (timing_op (UnscheduleEvent type data)) Q k.
Proof. intros Hk HQ. apply wp_timing_op. eapply wp_UnscheduleEvent. intros s H1 H2. apply HQ; [by apply timed_same|done|done]. Qed.

(** ** Signaling *)

(** [this] was made available, which left [k0], and the threads that can go on were
    woken up. *)
Definition signaled (this : oid) (y : Object) k k' : Prop :=
  kernel_ok hole k' /\ calm k k' /\ exists k0 k1, acquired hole this y k k0 /\ woken_up hole this k0 k1 /\ calm k1 k'.
Lemma acquired_waitable o y k k' : acquired hole o y k k' -> waitable (W k) o -> waitable (W k') o.
Proof. intros H. by apply (acquired_calm _ _ _ _ H). Qed.
Lemma wp_signal this y k k0 : acquired hole this y k k0 -> waitable (W k) this -> (forall t, t ∈ waiters k this -> hole <> Some t) ->
  wp (WakeupAllWaitingThreads this) (fun _ k' => signaled this y k k') k0.
Proof.
  intros H0 Hw Hn. eapply wp_mono; [apply (wp_WakeupAllWaitingThreads (hole := hole)); [apply H0|by eapply acquired_waitable|]|].
  { intros t. rewrite (acquired_waiters _ _ _ _ H0). apply Hn. }
  cbn beta. intros _ k' (Hk' & k1 & Hw1 & Hc1 & _). split; [done|]. split.
  - etrans; [by eapply acquired_calm|]. etrans; [|done]. by apply (woken_up_calm (hole := hole) this).
  - by exists k0, k1.
Qed.
Lemma signaled_same o y k k' k2 : signaled o y k k' -> same_waits hole k' k2 -> signaled o y k k2.
Proof.
  intros (H1 & H2 & k0 & k1 & H3 & H4 & H5) Hs. split; [apply Hs|]. split; [by etrans; [|eapply same_waits_calm]|].
  exists k0, k1. split; [done|]. split; [done|]. by etrans; [|eapply same_waits_calm].
Qed.
(** No thread that could go on is left behind. *)
Lemma woken_up_none this k k' : woken_up hole this k k' -> forall u, u ∈ waiters k' this -> ~ ready_for (W k') this u.
Proof. by induction 1. Qed.
Lemma woken_up_any this k k' u uh : woken_up hole this k k' -> should_wait (W k') this u = false -> u ∈ waiters k this ->
  thread_in (W k) u uh -> status uh = WaitSynchAny -> is_ready (W k') u.
Proof.
  intros H Hs Hu Huh Hst. pose proof (woken_up_calm _ _ _ H) as [_ Hc].
  destruct (decide (u ∈ waiters k' this)) as [Hin|Hn]; [|by eapply (calm_left _ _ Hc)].
  destruct (calm_rest _ _ Hc u uh Huh) as [Huh'|[_ ?]]; [by right; rewrite Hst| |done].
  exfalso. apply (woken_up_none _ _ _ H u Hin). split; [done|]. intros th Hth Ha. unfold thread_in in *. rewrite Huh' in Hth. injection Hth as <-. congruence.
Qed.
(** If a waiting thread can go on, one that could is ready afterwards. *)
Lemma signaled_wakes e y k k' t : signaled e y k k' -> t ∈ waiters k e -> ready_for (<[e := y]> (W k)) e t ->
  exists u, u ∈ waiters k e /\ ready_for (<[e := y]> (W k)) e u /\ is_ready (W k') u.
Proof.
  intros (_ & _ & k0 & k1 & H0 & H1 & H2) Ht Hr.
  assert (HW : W k0 = <[e := y]> (W k)) by (by destruct H0 as [_ _ (y0 & _ & _ & ?)]). rewrite <- HW in Hr |- *.
  rewrite <- (acquired_waiters _ _ _ _ H0) in Ht. destruct H1 as [k2 _ Hn|u k2 k3 k4 [Hfb _ R] Hrest]; [by destruct (Hn t Ht)|].
  destruct Hfb as (Hru & _ & pre & post & Heq & _). exists u. split; [|split; [done|]].
  - rewrite <- (acquired_waiters _ _ _ _ H0), Heq. apply elem_of_app. right. by left.
  - apply H2. pose proof (woken_up_calm _ _ _ Hrest) as [_ Hc4]. apply Hc4. destruct R as [_ _ _ (th & Hth & Hst & _)].
    destruct (thread_at_in _ _ _ Hth) as (th' & Hth' & E). exists th'. split; [done|]. cbn in E. injection E as ->. done.
Qed.
Lemma object_waitable k o x : objects k !! o = Some x -> IsWaitable x = true -> (forall s, x <> OServerSession s) -> waitable (W k) o.
Proof. intros Ho Hx Hn. exists (erase x). split; [by apply W_lookup|]. destruct x; try done. by destruct (Hn s). Qed.

Lemma wait_object_waitable k o x : kernel_ok hole k -> objects k !! o = Some x -> IsWaitable x = true -> waitable (W k) o.
Proof.
  intros Hk Ho Hx. exists (erase x). split; [by apply W_lookup|]. split; [by destruct x|]. destruct x; try done. cbn.
  destruct (session_parent _ (kernel_held _ Hk) _ _ Ho) as (p & Hp). exists p. exact (W_lookup _ _ _ Hp).
Qed.

Lemma wp_Event_Signal e ev k : kernel_ok hole k -> objects k !! e = Some (OEvent ev) -> (forall t, t ∈ waiters k e -> hole <> Some t) ->
  wp (Event_Signal e) (fun _ k' => signaled e (OEvent (ev <| event_signaled := true |>)) k k') k.
Proof.
  intros Hk He Hn. unfold Event_Signal. wp_step. eapply wp_mono; [by eapply (wp_acquire_update (hole := hole) as_event OEvent e (OEvent ev))|].
  cbn beta. intros _ k0 H0. eapply wp_signal; [exact H0|by eapply object_waitable|done].
Qed.
Lemma wp_Event_Clear e ev k : kernel_ok hole k -> objects k !! e = Some (OEvent ev) ->
  wp (Event_Clear e) (fun _ k' => acquired hole e (OEvent (ev <| event_signaled := false |>)) k k') k.
Proof. intros Hk He. by eapply (wp_acquire_update (hole := hole) as_event OEvent e (OEvent ev)). Qed.
Lemma wp_Timer_Clear e tm k : kernel_ok hole k -> objects k !! e = Some (OTimer tm) ->
  wp (Timer_Clear e) (fun _ k' => acquired hole e (OTimer (tm <| timer_signaled := false |>)) k k') k.
Proof. intros Hk He. by eapply (wp_acquire_update (hole := hole) as_timer OTimer e (OTimer tm)). Qed.

(** ** Semaphores *)

Lemma wp_Semaphore_Release s sm n k : kernel_ok hole k -> objects k !! s = Some (OSemaphore sm) -> (forall t, t ∈ waiters k s -> hole <> Some t) ->
  wp (Semaphore_Release s n) (fun r k' =>
    if s32 (max_count sm - available_count sm) <? n then r = Failure ERR_OUT_OF_RANGE_KERNEL /\ k' = k
    else r = Success (available_count sm) /\ signaled s (OSemaphore (sm <| available_count ::= fun c => s32 (c + n) |>)) k k') k.
Proof.
  intros Hk Hs Hn. unfold Semaphore_Release. wp_step. eapply wp_get_object; [exact Hs|done|]. case_bool; [by wp_step|].
  wp_step. eapply wp_mono; [by eapply (wp_acquire_update (hole := hole) as_semaphore OSemaphore s (OSemaphore sm))|].
  cbn beta. intros _ k0 H0. wp_step. eapply wp_mono; [eapply wp_signal; [exact H0|by eapply object_waitable|done]|].
  cbn beta. intros _ k' Hsig. by wp_step.
Qed.

(** ** Mutexes *)

Lemma flat_erase_mutexes o th m : mutexes_of o (th <| held_mutexes ::= flat_erase m |>) th.
Proof. split; cbn; [|by left]. intros m' [_ Hm']%list_elem_of_filter. by left. Qed.
(** The mutex is given up and its next owner woken up. *)
Lemma wp_Mutex_unlock m mx t th k k0 : acquired hole m (OMutex (mx <| priority := 0 |>)) k k0 -> objects k0 !! m = Some (OMutex mx) -> thread_at t th k0 ->
  (forall u, u ∈ waiters k m -> hole <> Some u) ->
  wp (Mutex_unlock m t) (fun _ k' => signaled m (OMutex (mx <| priority := 0 |> <| holding_thread := None |>)) k k') k0.
Proof.
  intros H0 Hm Ht Hn. pose proof (acquired_ok _ _ _ _ H0) as Hk0. unfold Mutex_unlock, PrepareReschedule. wp_step.
  eapply wp_update_quiet; [exact Hk0|exact Ht|done|done|apply flat_erase_mutexes|]. intros S1 Ht1. wp_step.
  eapply wp_mono; [eapply wp_UpdatePriority; [apply S1|exact Ht1]|]. cbn beta. intros _ k2 S2.
  assert (H2 : acquired hole m (OMutex (mx <| priority := 0 |>)) k k2) by (eapply acquired_before; [exact H0|by eapply same_waits_trans]).
  destruct (acquired_is_mutex _ _ _ _ H2) as (mx2 & Hm2 & He). wp_step. eapply wp_update_any; [exact Hm2|done|]. set (k3 := set_object _ _ _).
  assert (H3 : acquired hole m (OMutex (mx <| priority := 0 |> <| holding_thread := None |>)) k k3).
  { rewrite <- He. eapply acquired_trans; [exact H2|].
    refine (acquired_mutex m k2 mx2 (mx2 <| holding_thread := None |>) _ Hm2 _ _); [apply H2|by right|done]. }
  assert (Hw : waitable (W k) m).
  { destruct H0 as [_ _ (y & Hy & Hc & _)]. exists y. split; [done|]. by destruct y. }
  wp_step. eapply wp_mono; [by eapply wp_signal|]. cbn beta. intros _ k4 H4. wp_step. eapply signaled_same; [exact H4|]. apply same_waits_reschedule, H4.
Qed.

(** What a release does, by who calls it. *)
Definition mutex_released (m t : oid) (mx : Mutex) k (r : result_code) k' : Prop :=
  if negb (bool_decide (holding_thread mx = Some t)) then r = ERR_WRONG_LOCKING_THREAD /\ k' = k
  else if lock_count mx <=? 0 then r = ERR_MUTEX_NOT_LOCKED /\ k' = k
  else r = RESULT_SUCCESS /\
    if lock_count mx =? 1 then signaled m (OMutex (mx <| lock_count := 0 |> <| priority := 0 |> <| holding_thread := None |>)) k k'
    else kernel_ok hole k' /\ k' = set_object m (OMutex (mx <| lock_count ::= fun n => n - 1 |>)) k.
Lemma wp_Mutex_Release m mx t k : kernel_ok hole k -> objects k !! m = Some (OMutex mx) -> (forall u, u ∈ waiters k m -> hole <> Some u) ->
  wp (Mutex_Release m t) (mutex_released m t mx k) k.
Proof.
  intros Hk Hm Hn. unfold Mutex_Release, mutex_released. wp_step. eapply wp_get_object; [exact Hm|done|].
  destruct (negb (bool_decide (holding_thread mx = Some t))) eqn:Hh; [by wp_step|]. apply negb_false_iff, bool_decide_eq_true in Hh.
  case_bool; [by wp_step|]. wp_step. eapply wp_update_any; [exact Hm|done|]. set (mx0 := mx <| lock_count ::= fun n => n - 1 |>). set (k0 := set_object _ _ _).
  assert (H0 : acquired hole m (erase (OMutex mx0)) k k0) by (eapply acquired_mutex; [done|exact Hm|by right|by left]).
  destruct (held_by _ (kernel_held _ Hk) m mx t Hm Hh) as [th Ht].
  assert (Ht0 : thread_at t th k0) by (unfold thread_at, k0, set_object; cbn; rewrite lookup_insert_ne; [done|congruence]).
  wp_step. destruct (Z.eqb_spec (lock_count mx - 1) 0) as [E|E].
  - rewrite (proj2 (Z.eqb_eq (lock_count mx) 1)) by lia. eapply wp_mono; [eapply (wp_Mutex_unlock m mx0); [exact H0|by cbn; rewrite lookup_insert_eq|exact Ht0|done]|].
    cbn beta. intros _ k' H'. wp_step. split; [done|]. assert (Emx : mx0 = mx <| lock_count := 0 |>) by (unfold mx0, set_field; by rewrite E). by rewrite Emx in H'.
  - rewrite (proj2 (Z.eqb_neq (lock_count mx) 1)) by lia. do 2 wp_step. split; [done|]. split; [apply H0|done].
Qed.

(** The mutexes of a thread that ends *)
Lemma wp_release_thread_mutex m k : kernel_ok hole k -> is_mutex (W k) m -> (forall o u, u ∈ waiters k o -> hole <> Some u) ->
  wp (release_thread_mutex m) (fun _ k' => kernel_ok hole k' /\ calm k k') k.
Proof.
  intros Hk (mw & (mx & Hm & _)%mutex_of_W) Hn. unfold release_thread_mutex. wp_step. eapply wp_update_any; [exact Hm|done|].
  set (mx0 := mx <| lock_count := 0 |>). set (k0 := set_object _ _ _).
  assert (H0 : acquired hole m (erase (OMutex mx0)) k k0) by (eapply acquired_mutex; [done|exact Hm|by right|by left]).
  wp_step. eapply (wp_update_any as_mutex OMutex m (OMutex mx0)); [by cbn; rewrite lookup_insert_eq|done|]. set (k1 := set_object _ _ _).
  assert (H1 : acquired hole m (erase (OMutex (mx0 <| holding_thread := None |>))) k k1).
  { eapply acquired_trans; [exact H0|]. eapply acquired_mutex; [apply H0|by cbn; rewrite lookup_insert_eq|by right|done]. }
  eapply wp_mono; [eapply wp_signal; [exact H1|by eapply object_waitable|apply Hn]|]. cbn beta. by intros _ k' (? & ? & _).
Qed.
Lemma wp_release_mutexes l k : kernel_ok hole k -> (forall m, m ∈ l -> is_mutex (W k) m) -> (forall o u, u ∈ waiters k o -> hole <> Some u) ->
  wp (for_each l release_thread_mutex) (fun _ k' => kernel_ok hole k' /\ calm k k') k.
Proof.
  intros Hk Hl Hn. apply (wp_for_each (fun k' => kernel_ok hole k' /\ calm k k')); [done|]. intros m k' Hm [Hk' Hc].
  eapply wp_mono; [apply wp_release_thread_mutex; [done|by apply is_mutex_kind, Hc, is_mutex_kind, Hl|]|].
  - intros o u Hu. apply (Hn o). eapply elem_of_sublist; [exact Hu|apply Hc].
  - cbn beta. intros _ k2 [H1 H2]. split; [done|by etrans].
Qed.

(** ** Timers *)

Lemma wp_schedule_timer e k : kernel_ok hole k -> has_kind 4 (W k) e -> forall cycles, wp (schedule_timer e cycles) (fun _ k' => same_waits hole k k') k.
Proof.
  intros Hk (x & Hx & Hkd)%kind_object cycles. destruct x as [| | | |tm| | | | | | | | | |]; try done. unfold schedule_timer, get_timer_object. wp_step.
  eapply wp_get_object; [exact Hx|done|]. do 2 wp_step. by apply wp_schedule.
Qed.
Lemma wp_Timer_Signal e tm late k : kernel_ok hole k -> objects k !! e = Some (OTimer tm) -> (forall t, t ∈ waiters k e -> hole <> Some t) ->
  wp (Timer_Signal e late) (fun _ k' => signaled e (OTimer (tm <| timer_signaled := true |>)) k k') k.
Proof.
  intros Hk He Hn. unfold Timer_Signal. wp_step. eapply wp_mono; [by eapply (wp_acquire_update (hole := hole) as_timer OTimer e (OTimer tm))|].
  cbn beta. intros _ k0 H0. wp_step. eapply wp_mono; [eapply wp_signal; [exact H0|by eapply object_waitable|done]|].
  cbn beta. intros _ k1 H1. assert (Hkd : has_kind 4 (W k1) e) by (apply H1, (object_kind _ _ _ He)).
  pose proof Hkd as (x & Hx & Hkx)%kind_object. destruct x as [| | | |tm1| | | | | | | | | |]; try done. unfold get_timer_object.
  wp_step. eapply wp_get_object; [exact Hx|done|]. case_bool; [by wp_step|].
  eapply wp_mono; [apply wp_schedule_timer; [apply H1|done]|]. cbn beta. intros _ k2 H2. by eapply signaled_same.
Qed.
Lemma wp_Timer_Cancel e tm k : kernel_ok hole k -> objects k !! e = Some (OTimer tm) ->
  wp (Timer_Cancel e) (fun _ k' => same_waits hole k k' /\ objects k' = objects k) k.
Proof.
  intros Hk He. unfold Timer_Cancel, get_timer_object. wp_step. eapply wp_get_object; [exact He|done|]. do 2 wp_step. by apply wp_unschedule.
Qed.
Lemma wp_Timer_Set e tm initial interval k : kernel_ok hole k -> objects k !! e = Some (OTimer tm) -> (forall t, t ∈ waiters k e -> hole <> Some t) ->
  wp (Timer_Set e initial interval) (fun _ k' => kernel_ok hole k' /\ calm k k') k.
Proof.
  intros Hk He Hn. unfold Timer_Set. wp_step. eapply wp_mono; [by eapply wp_Timer_Cancel|]. cbn beta. intros _ k0 [S0 E0]. wp_step.
  rewrite <- E0 in He. eapply wp_mono; [eapply (wp_acquire_update (hole := hole) as_timer OTimer e (OTimer tm)); try done; apply S0|].
  cbn beta. intros _ k1 H1. assert (Hc : calm k k1) by (etrans; [by eapply same_waits_calm|by eapply acquired_calm]). case_bool.
  - assert (has_kind 4 (W k1) e) as (x & Hx & Hkx)%kind_object by (apply Hc; rewrite <- (same_W _ _ S0); exact (object_kind _ _ _ He)).
    destruct x as [| | | |tm1| | | | | | | | | |]; try done.
    eapply wp_mono; [eapply wp_Timer_Signal; [apply H1|exact Hx|]|].
    + intros t. rewrite (acquired_waiters _ _ _ _ H1), (same_waiters _ _ S0). apply Hn.
    + cbn beta. intros _ k2 (Hk2 & Hc2 & _). split; [done|by etrans].
  - eapply wp_mono; [apply wp_schedule_timer; [apply H1|]|].
    + apply Hc. rewrite <- (same_W _ _ S0). exact (object_kind _ _ _ He).
    + cbn beta. intros _ k2 H2. split; [apply H2|]. etrans; [exact Hc|by eapply same_waits_calm].
Qed.
End Release.

(** ** Properties *)


(** ** Witnesses *)

