(* ===== verification/Suspend.v ===== *)
(** Threads that begin to wait, and that stop waiting because their time is over
    (src/.../core/hle/kernel/{svc,thread}.cpp): both keep the kernel valid. *)

From S2P Require Import Prelude ResultCode HandleTable CoreTiming ThreadQueueList KernelState Thread Scheduler Reschedule WaitObject WaitInvariant Wakeup SyncObjects Release Process Ipc Sessions WaitSync ThreadLife MemoryRegion.

Section Suspend.
Context {D IS : Type} {hooks : Hooks D IS} {Hhooks : HooksOk hooks}.
Implicit Types (k : KernelSystem D IS).

(** ** A thread that is not in a queue changes its status *)

Lemma set_queue_same k c m : manager_at c m k -> set_queue c (ready_queue m) k = k.
Proof.
  intros Hm. rewrite <- (set_queue_manager _ _ _ _ Hm). unfold set_manager, set_field. cbn. destruct m. cbn.
  rewrite list_insert_id by exact Hm. by destruct k.
Qed.
Lemma sched_set_thread k t th th' : sched_ok k -> thread_at t th k ->
  view_thread th' = mkView (core_id th) (status th') (current_priority th) (nominal_priority th) (can_schedule th) (owner_process th) ->
  status th <> Ready -> status th' <> Ready -> (status th' = Running -> status th = Running) -> sched_ok (set_thread t th' k).
Proof.
  intros Hok Ht Hv Hs Hs' Hr. destruct (sched_thread _ _ _ _ Hok Ht) as (m & Hm & Hcur & Hnom & Hlink & Hq & Hlen & Hrun & He & Hnd).
  injection Hv as Vc Vp Vn Vcan Vo. rewrite <- (set_queue_same k _ m Hm).
  eapply (sched_change no_hole no_hole k t th th' (core_id th) m (ready_queue m)); rewrite ?Vp, ?Vn, ?Vc; try done.
  - intros p. rewrite He. rewrite (ready_in_self _ _ _ _ _ Ht eq_refl). naive_solver.
  - by auto.
Qed.

(** ** Entering the lists *)

Lemma base_wait_base k o f : base_ok k -> base_ok (k <| wait_bases ::= <[o := f (wait_base o k)]> |>).
Proof. intros [H1 H2]. split; [|done]. eapply sched_hole_eq; [|exact H1]. by split. Qed.
(** [t] is on the lists of [l] now. *)
Definition added k k' (l : list oid) (t : oid) : Prop :=
  base_ok k' /\ W k' = W k /\ forall o, waiters k' o = if bool_decide (o ∈ l) then add_waiter t (waiters k o) else waiters k o.
Definition listed k : Prop := forall o u, u ∈ waiters k o -> exists th, thread_in (W k) u th.
Lemma elem_of_add_waiter u t l : u ∈ add_waiter t l <-> u = t \/ u ∈ l.
Proof. unfold add_waiter. case_bool; [naive_solver|]. rewrite elem_of_app, list_elem_of_singleton. tauto. Qed.
Lemma NoDup_add_waiter t l : NoDup l -> NoDup (add_waiter t l).
Proof.
  unfold add_waiter. case_bool; [done|]. intros Hl. apply NoDup_app. split; [done|]. split; [|apply NoDup_singleton]. by intros u Hu ->%list_elem_of_singleton.
Qed.
Lemma base_AddWaitingThread o t th k : base_ok k -> waitable (W k) o -> thread_at t th k -> listed k ->
  wp (AddWaitingThread o t) (fun _ k' => added k k' [o] t) k.
Proof.
  intros Hk (y & (x & Ho & ->)%W_lookup_inv & Hw & _) Ht Hl. unfold AddWaitingThread, update_wait_base. wp_step. eapply wp_get_any; [exact Ho|].
  wp_step. wp_step. set (k1 := k <| wait_bases ::= _ |>).
  assert (H1 : added k k1 [o] t).
  { split; [by apply base_wait_base|]. split; [done|]. intros o'. unfold waiters, wait_base, k1. cbn.
    case_eq_dec o' o; [rewrite lookup_insert_eq|rewrite lookup_insert_ne by done; by rewrite bool_decide_eq_false_2 by (by intros ?%list_elem_of_singleton)].
    by rewrite bool_decide_eq_true_2 by (by left). }
  assert (Hfin : forall k2, same_base k1 k2 -> added k k2 [o] t).
  { intros k2 [S1 S2 S3]. destruct H1 as (_ & G2 & G3). split; [done|]. split; [congruence|]. by rewrite S3. }
  destruct x; try done; try (by wp_step; apply Hfin, same_base_refl, H1).
  wp_step. eapply base_update_quiet; [apply H1|exact Ht|done|done| |].
  { split; [by left|]. cbn. intros m' [->|Hm']%elem_of_flat_insert; [right; by eexists|by left]. }
  intros S2 Ht2. set (k2 := set_thread _ _ _) in *.
  assert (Ho2 : W k2 !! o = Some (erase (OMutex m))) by (rewrite (same_base_W _ _ S2); apply (W_lookup k o (OMutex m) Ho)).
  destruct (mutex_of_W _ _ _ Ho2) as (mx & Hmx & _).
  eapply wp_mono; [eapply base_Mutex_UpdatePriority; [apply S2|exact Hmx|]|].
  - intros u. rewrite (same_base_waiters _ _ S2). destruct H1 as (_ & G2 & G3). rewrite G3. rewrite bool_decide_eq_true_2 by (by left).
    rewrite elem_of_add_waiter. intros [->|Hu]; [by eexists|]. destruct (Hl o u Hu) as (uh & Huh). rewrite <- (same_base_W _ _ S2) in *.
    assert (Hu2 : thread_in (W k2) u uh) by (rewrite (same_base_W _ _ S2); exact Huh). destruct (thread_in_at _ _ _ Hu2) as (uh2 & ? & _). by exists uh2.
  - cbn beta. intros _ k3 S3. apply Hfin. by eapply same_base_trans.
Qed.
Lemma added_listed k k' l t th : added k k' l t -> thread_in (W k) t th -> listed k -> listed k'.
Proof.
  intros (_ & H2 & H3) Ht Hl o u. rewrite H2, H3. case_bool; [|apply Hl]. intros [->|Hu]%elem_of_add_waiter; [by exists th|by eapply Hl].
Qed.
Lemma base_add_waiting l t th k : base_ok k -> (forall o, o ∈ l -> waitable (W k) o) -> thread_in (W k) t th -> listed k ->
  wp (add_waiting t l) (fun _ k' => added k k' l t) k.
Proof.
  unfold add_waiting. revert k. induction l as [|o l IH]; intros k Hk Hl Ht Hls; cbn [for_each].
  { wp_step. split; [done|]. split; [done|]. intros o. by rewrite bool_decide_eq_false_2 by apply not_elem_of_nil. }
  destruct (thread_in_at _ _ _ Ht) as (th' & Ht' & _). wp_step.
  eapply wp_mono; [eapply base_AddWaitingThread; [done|apply Hl; by left|exact Ht'|done]|]. cbn beta. intros _ k1 H1.
  pose proof H1 as (G1 & G2 & G3). eapply wp_mono; [apply IH|].
  - done.
  - intros o' Ho'. rewrite G2. apply Hl. by right.
  - by rewrite G2.
  - by eapply added_listed.
  - cbn beta. intros _ k2 (K1 & K2 & K3). split; [done|]. split; [congruence|]. intros o'. rewrite K3, G3.
    destruct (decide (o' = o)) as [->|Hne].
    + rewrite (bool_decide_eq_true_2 (o ∈ [o])) by (by left). rewrite (bool_decide_eq_true_2 (o ∈ o :: l)) by (by left).
      case_bool; [|done]. unfold add_waiter at 1. rewrite bool_decide_eq_true_2; [done|]. apply elem_of_add_waiter. by left.
    + rewrite (bool_decide_eq_false_2 (o' ∈ [o])) by (by intros ?%list_elem_of_singleton).
      assert (bool_decide (o' ∈ o :: l) = bool_decide (o' ∈ l)) as ->; [|done]. apply bool_decide_ext. rewrite elem_of_cons. naive_solver.
Qed.

(** ** A thread record is replaced *)

Lemma thread_in_insert w t th u uh : thread_in (<[t := OThread th]> w) u uh <-> (u = t /\ uh = th) \/ (u <> t /\ thread_in w u uh).
Proof.
  unfold thread_in. destruct (decide (u = t)) as [->|]; [rewrite lookup_insert_eq|rewrite lookup_insert_ne by done]; naive_solver.
Qed.
(** It waits for the same objects as before. *)
Lemma waits_ok_rethread hole w b t th th' : waits_ok hole w b -> thread_in w t th -> wait_objects th' = wait_objects th ->
  sync_status (status th') = sync_status (status th) -> (status th' = WaitSynchAll -> status th = WaitSynchAll) -> callback_ok th' ->
  waits_ok hole (<[t := OThread th']> w) b.
Proof.
  intros [H1 H0 Hi H2 H3 H4 H5] Ht Hw Hs Ha Hc. split.
  - intros o u Hu Hn. destruct (H1 o u Hu Hn) as (uh & Huh & Hsu & Ho). destruct (decide (u = t)) as [->|Hne].
    + exists th'. split; [apply thread_in_insert; by left|]. unfold thread_in in Ht, Huh. rewrite Ht in Huh. injection Huh as <-. by rewrite Hs, Hw.
    + exists uh. split; [apply thread_in_insert; by right|done].
  - intros o u Hu. destruct (H0 o u Hu) as (Hwt & uh & Huh). split; [by eapply waitable_thread|].
    destruct (decide (u = t)) as [->|Hne]; eexists; apply thread_in_insert; [by left|by right].
  - intros u uh [[-> ->]|[_ Hu]]%thread_in_insert Hn Hsu; [rewrite Hw; eapply Hi; [exact Ht|done|congruence]|by eapply Hi].
  - done.
  - intros u uh o [[-> ->]|[_ Hu]]%thread_in_insert Ho; (eapply waitable_thread; [exact Ht|]); [rewrite Hw in Ho|]; by eapply H3.
  - intros u uh [[-> ->]|[_ Hu]]%thread_in_insert Hsu; [rewrite Hw; by eapply H4; [exact Ht|auto]|by eapply H4].
  - intros u uh [[-> ->]|[_ Hu]]%thread_in_insert; [done|by eapply H5].
Qed.
(** It begins to wait for [l]. *)
Lemma waits_ok_blocked w b b' t th th' l : waits_ok None w b -> thread_in w t th -> wait_objects th = [] ->
  wait_objects th' = l -> sync_status (status th') = true -> (status th' = WaitSynchAll -> NoDup l) -> callback_ok th' ->
  (forall o, o ∈ l -> waitable w o) -> (forall o, b' o = if bool_decide (o ∈ l) then add_waiter t (b o) else b o) ->
  waits_ok None (<[t := OThread th']> w) b'.
Proof.
  intros [H1 H0 Hi H2 H3 H4 H5] Ht Hwo Hw Hs Ha Hc Hl Hb.
  assert (Hin : forall o u, u ∈ b' o -> (u = t /\ o ∈ l) \/ (u <> t /\ u ∈ b o)).
  { intros o u. rewrite Hb. assert (Hno : t ∉ b o).
    { intros Hin. destruct (H1 o t Hin) as (th2 & Hth2 & _ & Ho); [done|]. unfold thread_in in Ht, Hth2. rewrite Ht in Hth2. injection Hth2 as <-.
      rewrite Hwo in Ho. by apply not_elem_of_nil in Ho. }
    case_bool; [rewrite elem_of_add_waiter|]; destruct (decide (u = t)) as [->|]; naive_solver. }
  split.
  - intros o u [[-> Ho]|[Hne Hu]]%Hin _.
    + exists th'. split; [apply thread_in_insert; by left|]. by rewrite Hw.
    + destruct (H1 o u Hu) as (uh & Huh & ?); [done|]. exists uh. split; [apply thread_in_insert; by right|done].
  - intros o u [[-> Ho]|[Hne Hu]]%Hin.
    + split; [eapply waitable_thread; [exact Ht|by apply Hl]|]. exists th'. apply thread_in_insert. by left.
    + destruct (H0 o u Hu) as (Hwt & uh & Huh). split; [by eapply waitable_thread|]. exists uh. apply thread_in_insert. by right.
  - intros u uh [[-> ->]|[Hne Hu]]%thread_in_insert Hn Hsu; [congruence|by eapply Hi].
  - intros o. rewrite Hb. case_bool; [by apply NoDup_add_waiter|done].
  - intros u uh o [[-> ->]|[Hne Hu]]%thread_in_insert Ho; (eapply waitable_thread; [exact Ht|]); [apply Hl; congruence|by eapply H3].
  - intros u uh [[-> ->]|[Hne Hu]]%thread_in_insert Hsu; [rewrite Hw; by apply Ha|by eapply H4].
  - intros u uh [[-> ->]|[Hne Hu]]%thread_in_insert; [done|by eapply H5].
Qed.

Lemma W_set_thread t th k : W (set_thread t th k) = <[t := erase (OThread th)]> (W k).
Proof. apply (W_set_object t (OThread th)). Qed.
Lemma callback_erase th : callback_ok th -> callback_ok (th <| context := reset_context |> <| current_priority := 0 |> <| nominal_priority := 0 |> <| held_mutexes := [] |> <| pending_mutexes := [] |>).
Proof. done. Qed.
Lemma callback_at hole k t th : kernel_ok hole k -> thread_at t th k -> callback_ok th.
Proof. intros Hk Ht. apply (callbacks_ok _ _ (kernel_waits _ Hk) t _ (W_lookup _ _ _ Ht)). Qed.
Lemma idle_at hole k t th : kernel_ok hole k -> hole <> Some t -> thread_at t th k -> sync_status (status th) = false -> wait_objects th = [].
Proof. intros Hk Hn Ht Hs. apply (idle_ok _ _ (kernel_waits _ Hk) t _ (W_lookup _ _ _ Ht) Hn Hs). Qed.
Lemma kernel_set_thread hole k t th th' : kernel_ok hole k -> thread_at t th k -> sched_ok (set_thread t th' k) ->
  wait_objects th' = wait_objects th -> sync_status (status th') = sync_status (status th) -> (status th' = WaitSynchAll -> status th = WaitSynchAll) ->
  callback_ok th' -> mutexes_of (objects k) th' th -> kernel_ok hole (set_thread t th' k).
Proof.
  intros Hk Ht Hs Hw Hsy Ha Hc Hm. split; [done| |].
  - rewrite W_set_thread. eapply waits_ok_rethread; [apply Hk|exact (W_lookup _ _ _ Ht)|done..].
  - cbn. eapply held_ok_insert; [apply Hk|exact Ht|]. by exists th.
Qed.

(** ** Suspending *)

(** [t] waits for the objects [l], in the way of [th']. *)
Record suspended (t : oid) (l : list oid) (st : ThreadStatus) (cb : option WakeupCallback) k k' : Prop := {
  suspended_ok : kernel_ok None k';
  suspended_thread : exists th, thread_at t th k' /\ status th = st /\ wait_objects th = l /\ wakeup_callback th = cb;
  suspended_lists o : waiters k' o = if bool_decide (o ∈ l) then add_waiter t (waiters k o) else waiters k o;
  suspended_rest u : u <> t -> W k' !! u = W k !! u;
}.
Lemma suspended_same t l st cb k k1 k2 : suspended t l st cb k k1 -> same_waits None k1 k2 -> suspended t l st cb k k2.
Proof.
  intros [H1 (th & Ht & Hst & Hw & Hc) H3 H4] [S1 S2 S3]. split; [done| |by intros o; rewrite S3|by intros u; rewrite S2; apply H4].
  destruct (thread_at_in _ _ _ Ht) as (th' & Ht' & He). cbn in He. injection He as ->. rewrite <- S2 in Ht'.
  destruct (thread_in_at _ _ _ Ht') as (th2 & Ht2 & He). cbn in He. injection He. intros. exists th2. split; [done|]. split_and!; congruence.
Qed.
Lemma wp_WakeAfterDelay t th ns k : kernel_ok None k -> thread_at t th k -> wp (WakeAfterDelay t ns) (fun _ k' => same_waits None k k') k.
Proof.
  intros Hk Ht. unfold WakeAfterDelay. case_bool; [wp_step; by apply same_waits_refl|]. wp_step. eapply wp_get_thread; [done|].
  destruct (sched_thread _ _ _ _ (kernel_sched _ Hk) Ht) as (m & Hm & _). wp_step. eapply wp_get_manager; [exact Hm|].
  by apply (wp_schedule (hole := None)).
Qed.
(** The timer is started, the callback set, and a reschedule asked for. *)
Lemma wp_finish_suspend t l st cb ns k k1 : suspended t l st None k k1 -> sync_status st = true -> (cb = SVC_IPCCallback -> st = WaitSynchAny) ->
  (forall a, cb <> ArbiterCallback a) ->
  wp (WakeAfterDelay t ns;; update_thread t (fun th => th <| wakeup_callback := Some cb |>);; PrepareReschedule)
    (fun _ k' => suspended t l st (Some cb) k k') k1.
Proof.
  intros H1 Hst Hipc Harb. pose proof (suspended_thread _ _ _ _ _ _ H1) as (th1 & Ht1 & _). wp_step.
  eapply wp_mono; [eapply wp_WakeAfterDelay; [apply H1|exact Ht1]|]. cbn beta. intros _ k2 S2.
  pose proof (suspended_same _ _ _ _ _ _ _ H1 S2) as [K1 (th & Ht & Es & Ew & Ec) K3 K4]. wp_step. eapply wp_update_thread; [exact Ht|].
  unfold PrepareReschedule. wp_step. set (th' := th <| wakeup_callback := Some cb |>).
  assert (Hk' : kernel_ok None (set_thread t th' k2)).
  { eapply kernel_set_thread; try done; [eapply sched_hole_eq; [by eapply sched_eq_thread|apply K1]| |by apply mutexes_of_same].
    split; cbn; [|by rewrite Es; intros [E|E]; rewrite E in Hst]. rewrite Es. destruct cb; auto. by destruct (Harb arbiter). }
  eapply suspended_same; [|by apply same_waits_reschedule]. split; [done| |done|].
  - exists th'. split; [apply thread_at_set; by left|done].
  - intros u Hu. rewrite W_set_thread, lookup_insert_ne by done. by apply K4.
Qed.

(** The last update of the thread that begins to wait. *)
Lemma suspended_intro t l st k k2 th th2 th3 y : kernel_ok None k -> thread_at t th k -> status th = Running -> (forall o, o ∈ l -> waitable (W k) o) ->
  (st = WaitSynchAll -> NoDup l) -> sync_status st = true -> base_ok k2 -> W k2 = <[t := y]> (W k) ->
  (forall o, waiters k2 o = if bool_decide (o ∈ l) then add_waiter t (waiters k o) else waiters k o) -> thread_at t th2 k2 ->
  sched_ok (set_thread t th3 k2) -> status th3 = st -> wait_objects th3 = l -> wakeup_callback th3 = None -> mutexes_of (objects k2) th3 th2 ->
  suspended t l st None k (set_thread t th3 k2).
Proof.
  intros Hk Ht Hrun Hl Hnd Hsy B2 W2 L2 Ht2 Hs3 E1 E2 E3 Hm.
  assert (Hwo : wait_objects th = []) by (eapply (idle_at None); [done|done|done|by rewrite Hrun]).
  assert (HW : W (set_thread t th3 k2) = <[t := erase (OThread th3)]> (W k)) by (by rewrite W_set_thread, W2, insert_insert_eq).
  split; [split; [done| |]| |done|].
  - rewrite HW. eapply (waits_ok_blocked (W k) (waiters k) (waiters k2) t _ _ l); [apply Hk|exact (W_lookup _ _ _ Ht)|done|exact E2|cbn; by rewrite E1| | |done|done].
    + cbn. by rewrite E1.
    + unfold callback_ok. cbn. by rewrite E3.
  - cbn. eapply held_ok_insert; [apply B2|exact Ht2|]. by exists th2.
  - exists th3. split; [apply thread_at_set; by left|done].
  - intros u Hu. by rewrite HW, lookup_insert_ne.
Qed.
(** The lists are entered from a state where only the record of [t] has changed. *)
Lemma wp_enter_lists t l k th th1 (Q : unit -> KernelSystem D IS -> Prop) : kernel_ok None k -> thread_at t th k ->
  (forall o, o ∈ l -> waitable (W k) o) -> base_ok (set_thread t th1 k) ->
  (forall k2 th2, added (set_thread t th1 k) k2 l t -> thread_at t th2 k2 -> erase (OThread th1) = erase (OThread th2) -> Q tt k2) ->
  wp (add_waiting t l) Q (set_thread t th1 k).
Proof.
  intros Hk Ht Hl Hb1 HQ. set (k1 := set_thread t th1 k).
  assert (HW1 : W k1 = <[t := erase (OThread th1)]> (W k)) by apply W_set_thread.
  assert (Ht1 : W k1 !! t = Some (erase (OThread th1))) by (by rewrite HW1, lookup_insert_eq).
  eapply wp_mono; [eapply (base_add_waiting l t _ k1 Hb1); [|exact Ht1|]|].
  - intros o Ho. rewrite HW1. eapply waitable_thread; [exact (W_lookup _ _ _ Ht)|by apply Hl].
  - intros o u Hu. rewrite HW1. destruct (waiter_in _ _ (kernel_waits _ Hk) o u Hu) as (_ & uh & Huh).
    destruct (decide (u = t)) as [->|]; eexists; apply thread_in_insert; [by left|by right].
  - cbn beta. intros [] k2 Ha. destruct Ha as (B2 & W2 & L2). rewrite <- W2 in Ht1. destruct (thread_in_at _ _ _ Ht1) as (th2 & Ht2 & He). by eapply HQ.
Qed.

Lemma wp_wait_many t th l wait_all k : kernel_ok None k -> thread_at t th k -> status th = Running -> (forall o, o ∈ l -> waitable (W k) o) ->
  (wait_all = true -> NoDup l) -> wp (wait_many t l wait_all) (fun _ k' => suspended t l (if wait_all then WaitSynchAll else WaitSynchAny) None k k') k.
Proof.
  intros Hk Ht Hrun Hl Hnd. set (st := if wait_all then WaitSynchAll else WaitSynchAny).
  assert (Hst : sync_status st = true /\ st <> Ready /\ st <> Running) by (by destruct wait_all). destruct Hst as (Hsy & Hnr & Hnn).
  pose proof (callback_at _ _ _ _ Hk Ht) as [_ Hcb]. pose proof (Hcb (or_intror Hrun)) as Hcn.
  unfold wait_many. fold st. wp_step. eapply wp_update_thread; [exact Ht|]. set (th1 := th <| status := st |>). wp_step.
  eapply wp_enter_lists; [done|exact Ht|done| |].
  { split; [|cbn; eapply held_ok_insert; [apply Hk|exact Ht|]; exists th; split; [done|by apply mutexes_of_same]].
    eapply (sched_set_thread k t th th1); [apply Hk|done|done|by rewrite Hrun|done|done]. }
  intros k2 th2 (B2 & W2 & L2) Ht2 He. rewrite W_set_thread in W2. cbn in He. injection He. intros.
  eapply wp_update_thread; [exact Ht2|]. eapply suspended_intro; [done|exact Ht|done|done| |done|done|exact W2|done|exact Ht2|..].
  - intros E. apply Hnd. unfold st in E. by destruct wait_all.
  - eapply sched_hole_eq; [by eapply sched_eq_thread|apply B2].
  - cbn. congruence.
  - done.
  - cbn. congruence.
  - by apply mutexes_of_same.
Qed.
Lemma wp_wait_one o t th ns k : kernel_ok None k -> thread_at t th k -> status th = Running -> waitable (W k) o ->
  wp (wait_one o t ns) (fun _ k' => suspended t [o] WaitSynchAny (Some (SVC_SyncCallback false)) k k') k.
Proof.
  intros Hk Ht Hrun Ho. pose proof (callback_at _ _ _ _ Hk Ht) as [_ Hcb]. pose proof (Hcb (or_intror Hrun)) as Hcn.
  unfold wait_one. wp_step. eapply wp_update_thread; [exact Ht|]. set (th1 := th <| wait_objects := [o] |>).
  assert (Hadd : forall (Q : unit -> KernelSystem D IS -> Prop) k1, wp (add_waiting t [o]) Q k1 -> wp (AddWaitingThread o t) Q k1).
  { intros Q k1 H1%wp_unbind. eapply wp_mono; [exact H1|]. by intros [] k2 H2. }
  wp_step. apply Hadd. eapply wp_enter_lists; [done|exact Ht|by intros o' ->%list_elem_of_singleton| |].
  { split; [|cbn; eapply held_ok_insert; [apply Hk|exact Ht|]; exists th; split; [done|by apply mutexes_of_same]].
    eapply sched_hole_eq; [by eapply sched_eq_thread|apply Hk]. }
  intros k2 th2 (B2 & W2 & L2) Ht2 He. rewrite W_set_thread in W2. cbn in He. injection He. intros.
  wp_step. eapply wp_update_thread; [exact Ht2|]. eapply wp_finish_suspend; [|done|done|done].
  eapply suspended_intro; [done|exact Ht|done|by intros o' ->%list_elem_of_singleton|done|done|done|exact W2|done|exact Ht2|..].
  - eapply sched_set_thread; [apply B2|exact Ht2|done|cbn; congruence|done|done].
  - done.
  - cbn. congruence.
  - cbn. congruence.
  - by apply mutexes_of_same.
Qed.
Lemma wp_suspend t th l wait_all ns k : kernel_ok None k -> thread_at t th k -> status th = Running -> (forall o, o ∈ l -> waitable (W k) o) ->
  (wait_all = true -> NoDup l) ->
  wp (suspend t l wait_all ns) (fun _ k' => suspended t l (if wait_all then WaitSynchAll else WaitSynchAny) (Some (SVC_SyncCallback (negb wait_all))) k k') k.
Proof.
  intros Hk Ht Hrun Hl Hnd. unfold suspend. wp_step. eapply wp_mono; [by eapply wp_wait_many|]. cbn beta. intros _ k1 H1.
  eapply wp_finish_suspend; [exact H1|by destruct wait_all|done|done].
Qed.
End Suspend.
