(* ===== verification/Resume.v ===== *)
(** Time-outs, sleeping, priorities and switching keep the kernel valid
    (src/.../core/hle/kernel/{thread,svc}.cpp). *)

From S2P Require Import Prelude ResultCode HandleTable CoreTiming ThreadQueueList KernelState Thread Scheduler Reschedule WaitObject WaitInvariant Wakeup SyncObjects Release Process Ipc Sessions WaitSync ThreadLife MemoryRegion Suspend.

Section Resume.
Context {D IS : Type} {hooks : Hooks D IS} {Hhooks : HooksOk hooks}.
Implicit Types (k : KernelSystem D IS).

(** ** Time-outs *)

(** The callback of a thread whose time is over; a thread that waits for a request
    has no timer, and its callback asserts so. *)
Definition timeout_ok k (th : Thread) : Prop :=
  match wakeup_callback th with
  | Some SVC_IPCCallback => False
  | Some (ArbiterCallback a) => has_kind 5 (W k) a
  | _ => True
  end.
Lemma acquired_other o y t th k k' : acquired None o y k k' -> thread_at t th k -> W k' !! t = W k !! t.
Proof.
  intros H Ht. pose proof (W_lookup _ _ _ Ht) as Hw. rewrite Hw. eapply (acquired_thread _ _ _ _ t _ H). exact Hw.
Qed.
Lemma wp_timeout_callback t th k : kernel_ok None k -> thread_at t th k -> timeout_ok k th ->
  wp (invoke_callback Timeout t None) (fun _ k' => woke None t k k') k.
Proof.
  intros Hk Ht Hto. unfold invoke_callback. wp_step. eapply wp_get_thread; [done|]. unfold timeout_ok in Hto.
  destruct (wakeup_callback th) as [cb|]; [|wp_step; by apply woke_same, same_waits_refl]. destruct cb; cbn [WakeUp]; [|done| |].
  - unfold SyncCallback_WakeUp, SetWaitSynchronizationResult. eapply (wp_set_register (hole := None)); [done|exact Ht|]. intros k1 H1 _. by apply woke_same.
  - apply kind_object in Hto as (x & Hx & Hkx). destruct x as [| | | | |a| | | | | | | | |]; try done.
    unfold AddressArbiter_WakeUp. wp_step. wp_step; [done|].
    eapply wp_mono; [by eapply (wp_acquire_update (hole := None) as_arbiter OAddressArbiter arbiter (OAddressArbiter a))|].
    cbn beta. intros _ k1 H1. split; [apply H1|]. split; [by eapply acquired_calm|by eapply acquired_other].
  - by eapply (wake_service_ok (hooks := hooks)).
Qed.

(** What is left of a thread whose time is over: it is ready, or it already ran. *)
Definition timed_out (t : oid) (th : Thread) k k' : Prop :=
  kernel_ok None k' /\ calm k k' /\ (waiting (status th) = true -> released None t k k').
Lemma released_trans t k1 k2 k3 : calm k1 k2 -> released None t k2 k3 -> released None t k1 k3.
Proof. intros Hc [H1 H2 H3 H4]. split; [done|by etrans|done|done]. Qed.
Lemma wp_wake_idle t th k : kernel_ok None k -> thread_at t th k -> sync_status (status th) = false ->
  wp (ResumeFromWait t) (fun _ k' => timed_out t th k k') k.
Proof.
  intros Hk Ht Hs. assert (Hwo : wait_objects th = []) by (by eapply (idle_at None)).
  destruct (waiting (status th)) eqn:Hw.
  - assert (Hno : forall o, t ∉ waiters k o).
    { intros o Hin. destruct (waiter_ok _ _ (kernel_waits _ Hk) o t Hin) as (th2 & Hth2 & _ & Ho); [done|].
      pose proof (W_lookup _ _ _ Ht) as Hth. unfold thread_in in Hth2. rewrite Hth in Hth2. injection Hth2 as <-. cbn in Ho.
      rewrite Hwo in Ho. by apply not_elem_of_nil in Ho. }
    assert (Hid : set_thread t (th <| wait_objects := [] |>) k = k).
    { assert (th <| wait_objects := [] |> = th) as -> by (destruct th; cbn in Hwo; by rewrite Hwo).
      unfold set_thread, set_field. cbn. rewrite insert_id by exact Ht. by destruct k. }
    assert (Hst : wp (update_thread t (fun th => th <| wait_objects := [] |>);; ResumeFromWait t) (fun _ k' => released None t k k') k)
      by (by eapply (wp_stop_waiting (hole := None))).
    eapply wp_mono with (P := fun _ k' => released None t k k').
    + apply wp_unbind in Hst. unfold update_thread, update_object in Hst. apply wp_unbind in Hst. unfold wp at 1, get_object in Hst.
      unfold mbind, M_bind, get, deref, wp in Hst |- *. unfold thread_at in Ht. rewrite Ht in Hst. cbn in Hst. unfold set_thread in Hid. by rewrite Hid in Hst.
    + cbn beta. intros _ k' R. split; [apply R|]. split; [apply R|done].
  - eapply wp_ResumeFromWait; [apply Hk|exact Ht|done| | |by rewrite Hw].
    + intros Hr. apply (callback_at _ _ _ _ Hk Ht). by left.
    + intros _. split; [done|]. split; [done|by rewrite Hw].
Qed.
Lemma wp_wake_by_timeout t th k : kernel_ok None k -> thread_at t th k -> timeout_ok k th ->
  wp (wake_by_timeout t) (fun _ k' => timed_out t th k k') k.
Proof.
  intros Hk Ht Hto. unfold wake_by_timeout. wp_step. eapply wp_get_thread; [done|].
  destruct (timeout_status (status th)) eqn:Hst.
  - do 2 wp_step. eapply wp_mono; [by eapply wp_timeout_callback|]. cbn beta. intros _ k1 H1.
    destruct (woke_at _ _ _ _ H1 Ht) as (th1 & Ht1 & _ & E1 & _).
    assert (Hw : waiting (status th1) = true) by (rewrite E1; by destruct (status th)).
    pose proof (wp_leave_wait_objects (hole := None) t th1 k1 (proj1 H1) ltac:(done) Ht1 Hw) as Hl. apply wp_unbind in Hl.
    eapply wp_mono; [exact Hl|]. cbn beta. intros _ k2 H2. eapply wp_mono; [exact H2|]. cbn beta. intros _ k3 R.
    assert (released None t k k3) as R3 by (eapply released_trans; [apply H1|done]). split; [apply R3|]. split; [apply R3|done].
  - wp_step. wp_step. eapply wp_wake_idle; [done|done|]. by destruct (status th).
Qed.

(** ** Switching *)

(** Switching changes the registers, the ticks and whether a thread runs or could
    run; nothing else of any object. *)
Definition active (st : ThreadStatus) : bool := match st with Ready | Running => true | _ => false end.
Definition strip (th : Thread) : Thread :=
  th <| context := reset_context |> <| last_running_ticks := 0 |> <| status := if active (status th) then Ready else status th |>.
Definition strip_object (x : Object) : Object := match x with OThread th => OThread (strip th) | _ => x end.
Record frame k k' : Prop := {
  frame_objects : strip_object <$> objects k' = strip_object <$> objects k;
  frame_bases : wait_bases k' = wait_bases k;
}.
#[export] Instance frame_preorder : PreOrder frame.
Proof. split; [by split|]. intros k1 k2 k3 [H1 H2] [K1 K2]. split; congruence. Qed.
Abbreviation framed := (steady frame).
Lemma framed_manager_op {A} c (m : M ThreadManager A) : framed (manager_op c m).
Proof. intros k. unfold wlp, manager_op. destruct (thread_managers k !! c) as [t|]; [|done]. by destruct (m t) as [[a t']|]. Qed.
Lemma framed_timing_op {A} (m : M (Timing KernelCallback) A) : framed (timing_op m).
Proof. intros k. unfold wlp, timing_op, zoom. by destruct (m (timing k)) as [[a t']|]. Qed.
Lemma framed_memory_op {A} (m : M (Memory.MemorySystem D) A) : framed (memory_op m).
Proof. intros k. unfold wlp, memory_op, zoom. by destruct (m (memory k)) as [[a t']|]. Qed.
Lemma framed_update t f : (forall th, strip (f th) = strip th) -> framed (update_thread t f).
Proof.
  intros Hf k. unfold update_thread, update_object, get_object. do 2 apply wlp_bind. wp_step. apply wlp_bind. wp_step. wp_step.
  split; [|done]. cbn. rewrite fmap_insert. apply map_eq. intros o. destruct (decide (o = t)) as [->|]; [|by rewrite lookup_insert_ne].
  rewrite lookup_insert_eq, lookup_fmap, H. destruct a; try done. cbn in H0. injection H0 as ->. cbn. by rewrite Hf.
Qed.
Hint Resolve framed_manager_op framed_timing_op framed_memory_op : steady.
Ltac framed := repeat first
  [ apply framed_update; by intros [] | apply steady_object; exact _ | steady_step | apply steady_modify; intros ?; by split
  | match goal with |- steady _ (match ?x with _ => _ end) => destruct x end ].

Lemma framed_get_manager c : framed (get_manager c).
Proof. unfold get_manager. framed. Qed.
Lemma framed_queue_op {A} c (m : M (tql oid) A) : framed (queue_op c m).
Proof. apply framed_manager_op. Qed.
Hint Resolve framed_get_manager framed_queue_op : steady.
Lemma framed_pop fuel c pop : framed (pop_schedulable fuel c pop).
Proof. induction fuel; cbn [pop_schedulable]; unfold put_aside, get_thread; framed. Qed.
Lemma framed_Pop c : framed (PopNextReadyThread c).
Proof.
  unfold PopNextReadyThread, restore_unscheduled, push_unscheduled, get_thread. pose proof framed_pop. framed.
Qed.
Lemma framed_set_process p c : framed (SetCurrentProcessForCPU p c).
Proof. unfold SetCurrentProcessForCPU, SetCurrentProcess, SetCurrentMemoryPageTable, get_process. framed. Qed.

(** *** What a frame keeps *)

Lemma strip_lookup (w w' : gmap oid Object) o x : strip_object <$> w' = strip_object <$> w -> w !! o = Some x ->
  exists x', w' !! o = Some x' /\ strip_object x' = strip_object x.
Proof.
  intros Hw Hx. assert (H : (strip_object <$> w') !! o = Some (strip_object x)) by (by rewrite Hw, lookup_fmap, Hx).
  rewrite lookup_fmap in H. apply fmap_Some in H as (x' & ? & ?). by exists x'.
Qed.
Lemma strip_thread (w w' : gmap oid Object) t th : strip_object <$> w' = strip_object <$> w -> w !! t = Some (OThread th) ->
  exists th', w' !! t = Some (OThread th') /\ strip th' = strip th.
Proof. intros Hw Ht. destruct (strip_lookup w w' t _ Hw Ht) as (x' & Hx' & He). destruct x' as [th'| | | | | | | | | | | | | |]; try done. exists th'. split; [done|]. cbn [strip_object] in He. congruence. Qed.
(** Two records of a thread that differ as switching makes them differ. *)
Record strip_eq (th th' : Thread) : Prop := {
  strip_wait : wait_objects th' = wait_objects th;
  strip_callback : wakeup_callback th' = wakeup_callback th;
  strip_held : held_mutexes th' = held_mutexes th;
  strip_pending : pending_mutexes th' = pending_mutexes th;
  strip_active : active (status th') = active (status th);
  strip_status : active (status th) = false -> status th' = status th;
}.
Lemma strip_inv th th' : strip th' = strip th -> strip_eq th th'.
Proof.
  intros H. assert (Hs : (if active (status th') then Ready else status th') = (if active (status th) then Ready else status th)) by (by injection H).
  injection H. intros. split; try done; destruct (status th), (status th'); done.
Qed.
Lemma strip_waitable (w w' : gmap oid Object) o : strip_object <$> w' = strip_object <$> w -> waitable w o -> waitable w' o.
Proof.
  intros Hw (x & Hx & Hi & Hp). destruct (strip_lookup w w' o x Hw Hx) as (x' & Hx' & He). exists x'. split; [done|].
  destruct x, x'; try done; cbn in He; simplify_eq; (split; [done|]); try done. destruct Hp as (p & Hp).
  destruct (strip_lookup w w' _ _ Hw Hp) as (y & Hy & He). destruct y; try done. cbn in He. injection He as ->. eauto.
Qed.
Lemma waits_ok_strip (w w' : gmap oid Object) b : strip_object <$> w' = strip_object <$> w -> waits_ok None w b -> waits_ok None w' b.
Proof.
  intros Hw [H1 H0 Hi H2 H3 H4 H5]. symmetry in Hw.
  assert (Hback : forall t th', thread_in w' t th' -> exists th, thread_in w t th /\ strip_eq th th').
  { intros t th' Ht. destruct (strip_thread w' w t th' Hw Ht) as (th & ? & ?). exists th. split; [done|]. by apply strip_inv. }
  assert (Hforth : forall t th, thread_in w t th -> exists th', thread_in w' t th' /\ strip_eq th th').
  { intros t th Ht. destruct (strip_thread w w' t th (eq_sym Hw) Ht) as (th' & ? & ?). exists th'. split; [done|]. by apply strip_inv. }
  assert (Hsync : forall th th', strip_eq th th' -> sync_status (status th') = sync_status (status th) /\ (status th' = WaitSynchAll -> status th = WaitSynchAll)).
  { intros th th' [_ _ _ _ Ha Hs]. destruct (status th) eqn:E; try (rewrite Hs by done; done); destruct (status th'); done. }
  split.
  - intros o t Ht _. destruct (H1 o t Ht) as (th & Hth & Hs & Ho); [done|]. destruct (Hforth t th Hth) as (th' & Hth' & E). exists th'.
    split; [done|]. destruct (Hsync _ _ E) as [-> _]. by rewrite (strip_wait _ _ E).
  - intros o t Ht. destruct (H0 o t Ht) as (Hwt & th & Hth). split; [by eapply strip_waitable|]. destruct (Hforth t th Hth) as (th' & ? & _). eauto.
  - intros t th' Ht _ Hs. destruct (Hback t th' Ht) as (th & Hth & E). rewrite (strip_wait _ _ E). eapply Hi; [exact Hth|done|]. by rewrite <- (proj1 (Hsync _ _ E)).
  - done.
  - intros t th' o Ht Ho. destruct (Hback t th' Ht) as (th & Hth & E). rewrite (strip_wait _ _ E) in Ho. eapply strip_waitable; [done|]. by eapply H3.
  - intros t th' Ht Hs. destruct (Hback t th' Ht) as (th & Hth & E). rewrite (strip_wait _ _ E). eapply H4; [exact Hth|]. by apply (Hsync _ _ E).
  - intros t th' Ht. destruct (Hback t th' Ht) as (th & Hth & [_ Ec _ _ Ea Es]). destruct (H5 t th Hth) as [G1 G2]. unfold callback_ok. rewrite Ec.
    assert (Hact : active (status th) = true -> wakeup_callback th = None) by (intros Hac; apply G2; destruct (status th); auto; done).
    split; [|intros Hr; apply Hact; rewrite <- Ea; by destruct Hr as [-> | ->]].
    destruct (active (status th)) eqn:Hac; [by rewrite Hact|]. by rewrite Es.
Qed.
Lemma W_strip k k' : frame k k' -> strip_object <$> W k' = strip_object <$> W k.
Proof.
  intros [Ho _]. unfold W. rewrite <- !map_fmap_compose. assert (Hc : forall x, (strip_object ∘ erase) x = (erase ∘ strip_object) x) by (by intros []).
  rewrite (map_fmap_ext (strip_object ∘ erase) (erase ∘ strip_object) (objects k')), (map_fmap_ext (strip_object ∘ erase) (erase ∘ strip_object) (objects k)) by (intros; apply Hc).
  by rewrite !map_fmap_compose, Ho.
Qed.
Lemma held_ok_strip (o o' : gmap oid Object) : strip_object <$> o' = strip_object <$> o -> held_ok o -> held_ok o'.
Proof.
  intros Hw [H0 H1 H2 Hses Htab]. assert (Hm : forall m mx, o !! m = Some (OMutex mx) -> o' !! m = Some (OMutex mx)).
  { intros m mx Hmx. destruct (strip_lookup o o' m _ Hw Hmx) as (x' & Hx' & He). destruct x'; try done. cbn in He. by injection He as ->. }
  split.
  - intros t th' m Ht Hp. destruct (strip_thread o' o t th' (eq_sym Hw) Ht) as (th & Hth & E%strip_inv). rewrite <- (strip_pending _ _ E) in Hp.
    destruct (H0 t th m Hth Hp) as (mx & ?). eauto.
  - intros t th' m Ht Hp. destruct (strip_thread o' o t th' (eq_sym Hw) Ht) as (th & Hth & E%strip_inv). rewrite <- (strip_held _ _ E) in Hp.
    destruct (H1 t th m Hth Hp) as (mx & ? & ?). eauto.
  - intros m mx t Hmx Ht. destruct (strip_lookup o' o m _ (eq_sym Hw) Hmx) as (x & Hx & He). destruct x; try done. cbn in He. injection He as ->.
    destruct (H2 m mx t Hx Ht) as [th Hth]. destruct (strip_thread o o' t th Hw Hth) as (th' & ? & _). eauto.
  - intros i s Hi. destruct (strip_lookup o' o i _ (eq_sym Hw) Hi) as (x & Hx & He). destruct x; try done. cbn in He. injection He as ->.
    destruct (Hses i s Hx) as (p & Hps). destruct (strip_lookup o o' _ _ Hw Hps) as (y & Hy & He). destruct y; try done. eauto.
  - intros i p Hi. destruct (strip_lookup o' o i _ (eq_sym Hw) Hi) as (x & Hx & He). destruct x; try done. cbn in He. injection He as ->. by eapply Htab.
Qed.
Lemma kernel_ok_frame k k' : kernel_ok None k -> frame k k' -> sched_ok k' -> kernel_ok None k'.
Proof.
  intros [H1 H2 H3] Hf Hs. split; [done| |].
  - assert (waiters k' = waiters k) as -> by (unfold waiters, wait_base; by rewrite (frame_bases _ _ Hf)). eapply waits_ok_strip; [by apply W_strip|done].
  - eapply held_ok_strip; [apply Hf|done].
Qed.

(** *** Switching is framed *)

Lemma frame_active t th st k k' : frame k k' -> thread_at t th k -> active (status th) = true -> active st = true ->
  wlp (update_thread t (fun th => th <| status := st |>)) (fun _ k2 => frame k k2) k'.
Proof.
  intros Hf Ht Ha Hst. destruct (strip_thread (objects k) (objects k') t th (frame_objects _ _ Hf) Ht) as (th' & Ht' & E%strip_inv).
  unfold update_thread, update_object, get_object. do 2 apply wlp_bind. wp_step. apply wlp_bind. wp_step. wp_step.
  rewrite Ht' in H. injection H as <-. injection H0 as <-.
  red; cbn beta iota; change (frame k (set_thread t (th' <| status := st |>) k')). etrans; [exact Hf|]. split; [|done]. cbn. rewrite fmap_insert. apply map_eq. intros o.
  destruct (decide (o = t)) as [->|]; [|by rewrite lookup_insert_ne]. rewrite lookup_insert_eq, lookup_fmap, Ht'. cbn. f_equal. f_equal.
  unfold strip. cbn. rewrite Hst, (strip_active _ _ E), Ha. done.
Qed.
Lemma wlp_get_thread t k (Q : Thread -> KernelSystem D IS -> Prop) : (forall th, thread_at t th k -> Q th k) -> wlp (get_thread t) Q k.
Proof.
  intros HQ. unfold get_thread, get_object. apply wlp_bind. wp_step. apply wlp_bind. wp_step. wp_step. apply HQ.
  destruct a; try done. cbn in H0. by injection H0 as ->.
Qed.
Hint Resolve framed_Pop framed_set_process : steady.
Lemma framed_save c p : framed (save_context c p).
Proof.
  intros k. unfold save_context. destruct p as [p|]; [|apply (steady_ret _)]. apply wlp_bind. apply wlp_get_thread. intros th Ht.
  apply wlp_bind. eapply (wlp_steady frame _ k); [unfold timer_ticks; framed|done|]. intros ticks k1 F1.
  apply wlp_bind. eapply (wlp_steady frame _ k); [framed|done|]. intros m k2 F2.
  apply wlp_bind. eapply (wlp_steady frame _ k); [framed|done|]. intros _ k3 F3.
  apply wlp_bind. case_bool; [|by apply wlp_ret, wlp_ret].
  apply wlp_bind. eapply (wlp_steady frame _ k); [framed|done|]. intros _ k4 F4.
  eapply wlp_mono; [eapply frame_active; [exact F4|exact Ht|by rewrite e|done]|]. cbn beta. intros _ k5 F5. by apply wlp_ret.
Qed.
Lemma framed_load c p n : framed (load_context c p n).
Proof.
  intros k. unfold load_context. apply wlp_bind. apply wlp_get_thread. intros th Ht.
  apply wlp_bind. wp_step. apply bool_decide_eq_true in H.
  apply wlp_bind. eapply (wlp_steady frame _ k); [framed|done|]. intros m k1 F1.
  apply wlp_bind. eapply (wlp_steady frame _ k); [framed|done|]. intros _ k2 F2.
  apply wlp_bind. eapply (wlp_steady frame _ k); [framed|done|]. intros _ k3 F3.
  apply wlp_bind. eapply (wlp_steady frame _ k); [framed|done|]. intros _ k4 F4.
  apply wlp_bind. eapply wlp_mono; [eapply frame_active; [exact F4|exact Ht|by rewrite H|done]|]. cbn beta. intros _ k5 F5.
  eapply (wlp_steady frame _ k); [framed|done|]. done.
Qed.
Lemma framed_Reschedule c : framed (Reschedule c).
Proof.
  unfold Reschedule, SwitchContext, GetCurrentThread. pose proof framed_save. pose proof framed_load. framed.
Qed.

Lemma wp_kernel_Reschedule c m k : kernel_ok None k -> manager_at c m k ->
  wp (Reschedule c) (fun _ k' => (kernel_ok None k' /\ frame k k') /\ exists next, rescheduled c m next k k') k.
Proof.
  intros Hk Hm. eapply wp_mono; [apply wp_wlp_and; [by eapply wp_Reschedule; [apply Hk|]|apply framed_Reschedule]|].
  cbn beta. intros _ k' [[Hs Hr] Hf]. split; [|done]. split; [by eapply kernel_ok_frame|done].
Qed.
End Resume.
