(* ===== verification/StopThread.v ===== *)
(** Stopping a thread ([Thread::Stop], src/.../core/hle/kernel/thread.cpp): it leaves
    the scheduler and every list, its mutexes are given up, and the threads that
    wait for its end are woken up. *)

From S2P Require Import Prelude ResultCode HandleTable CoreTiming ThreadQueueList KernelState Thread Scheduler Reschedule WaitObject WaitInvariant Wakeup SyncObjects Release Process Ipc Sessions WaitSync ThreadLife MemoryRegion Suspend Resume.

Section StopThread.
Context {D IS : Type} {hooks : Hooks D IS} {Hhooks : HooksOk hooks}.
Implicit Types (k : KernelSystem D IS).

(** ** Dying *)

Definition dead (th : Thread) : Thread := th <| status := Dead |>.
Lemma wp_timer_removed {A} t th m (rest : M (KernelSystem D IS) A) k (Q : A -> KernelSystem D IS -> Prop) : kernel_ok None k -> thread_at t th k -> manager_at (core_id th) m k ->
  (forall k' m', kernel_ok None k' -> objects k' = objects k -> waiters k' = waiters k -> manager_at (core_id th) m' k' -> wp rest Q k') ->
  wp (timing_op (UnscheduleEvent (ThreadWakeupEventType m) (thread_id th));;
      manager_op (core_id th) (modify (fun m => m <| wakeup_callback_table ::= delete (thread_id th) |>));; rest) Q k.
Proof.
  intros Hk Ht Hm HQ. wp_step. apply wp_timing_op. eapply wp_UnscheduleEvent. intros s H1 H2. set (k1 := k <| timing := s |>).
  assert (H3 : same_waits None k k1) by (apply timed_same; [done|by split]).
  assert (Hm1 : manager_at (core_id th) m k1) by exact Hm. wp_step. eapply wp_manager_op; [exact Hm1|]. wp_step. eapply HQ.
  - split; [|apply H3|apply H3]. eapply sched_hole_eq; [by eapply sched_eq_manager|apply H3].
  - done.
  - done.
  - eapply manager_at_set; [exact Hm1|]. by left.
Qed.
Lemma waits_ok_dead w b t th th' : waits_ok None w b -> thread_in w t th -> wait_objects th' = wait_objects th -> wakeup_callback th' = wakeup_callback th ->
  status th' = Dead -> waits_ok (Some t) (<[t := OThread th']> w) b.
Proof.
  intros [H1 H0 Hi H2 H3 H4 H5] Ht Hw Hc Hs. split.
  - intros o u Hu Hn. destruct (H1 o u Hu) as (uh & Huh & ?); [done|]. exists uh. split; [|done]. apply thread_in_insert. right. naive_solver.
  - intros o u Hu. destruct (H0 o u Hu) as (Hwt & uh & Huh). split; [by eapply waitable_thread|].
    destruct (decide (u = t)) as [->|Hne]; eexists; apply thread_in_insert; [by left|by right].
  - intros u uh [[-> ->]|[Hne Hu]]%thread_in_insert Hn Hsu; [done|by eapply Hi].
  - done.
  - intros u uh o [[-> ->]|[_ Hu]]%thread_in_insert Ho; (eapply waitable_thread; [exact Ht|]); [rewrite Hw in Ho|]; by eapply H3.
  - intros u uh [[-> ->]|[_ Hu]]%thread_in_insert Hsu; [congruence|by eapply H4].
  - intros u uh [[-> ->]|[_ Hu]]%thread_in_insert; [|by eapply H5]. destruct (H5 t th Ht) as [G _]. split; rewrite ?Hs; [|by intros [?|?]].
    rewrite Hc. destruct (wakeup_callback th) as [[]|]; done.
Qed.
Lemma wp_kill {A} t th m (rest : M (KernelSystem D IS) A) k (Q : A -> KernelSystem D IS -> Prop) : kernel_ok None k -> thread_at t th k -> manager_at (core_id th) m k ->
  (forall k', kernel_ok (Some t) k' -> thread_at t (dead th) k' -> W k' = <[t := erase (OThread (dead th))]> (W k) -> waiters k' = waiters k -> wp rest Q k') ->
  wp ((if bool_decide (status th = Ready) then queue_op (core_id th) (remove (level_of (current_priority th)) t) else mret tt);;
      update_thread t (fun th => th <| status := Dead |>);; rest) Q k.
Proof.
  intros Hk Ht Hm HQ. destruct (sched_thread _ _ _ _ (kernel_sched _ Hk) Ht) as (m' & Hm' & Hcur & Hnom & Hlink & Hv & Hlen & Hrun & He & Hnd).
  assert (m' = m) as -> by (by eapply manager_at_fun).
  assert (Hfin : forall q', sched_ok (set_thread t (dead th) (set_queue (core_id th) q' k)) -> wp (update_thread t (fun th => th <| status := Dead |>);; rest) Q (set_queue (core_id th) q' k)).
  { intros q' Hs. wp_step. eapply wp_update_thread; [exact Ht|]. change (th <| status := Dead |>) with (dead th).
    assert (HW : W (set_thread t (dead th) (set_queue (core_id th) q' k)) = <[t := erase (OThread (dead th))]> (W k))
      by exact (W_set_thread t (dead th) (set_queue (core_id th) q' k)).
    apply HQ; [|apply thread_at_set; by left|exact HW|done]. split; [exact Hs| |].
    - rewrite HW. by eapply (waits_ok_dead _ _ t); [apply Hk|exact (W_lookup _ _ _ Ht)|..].
    - cbn. eapply held_ok_insert; [apply Hk|exact Ht|]. exists th. split; [done|]. by apply mutexes_of_same. }
  wp_step. case_bool.
  - eapply wp_queue_op; [exact Hm|]. eapply wp_mono; [apply wp_remove; [done|rewrite Hlen; by apply level_of_lt]|].
    cbn beta. intros [] q' (Gv & Gl & Go & Glen). rewrite (set_queue_manager _ _ _ _ Hm). apply Hfin.
    eapply (sched_change no_hole no_hole k t th (dead th) (core_id th) m q'); try done.
    + apply Hk.
    + congruence.
    + intros p u Hu. rewrite Go. case_bool; [|by apply He]. rewrite list_elem_of_filter, He. naive_solver.
    + intros p. rewrite Go. case_bool; [rewrite list_elem_of_filter; cbn; naive_solver|]. rewrite He, (ready_in_self _ _ _ _ _ Ht eq_refl). naive_solver.
    + intros p. rewrite Go. case_bool; [by apply NoDup_filter|done].
    + intros p. by rewrite Gl.
    + cbn. by rewrite <- Gl.
  - wp_step. rewrite <- (set_queue_same _ _ _ Hm). apply Hfin. rewrite (set_queue_same _ _ _ Hm). by eapply sched_set_thread; [apply Hk|exact Ht|..].
Qed.

(** ** Leaving the lists *)

Lemma kernel_ok_close t th k : kernel_ok (Some t) k -> (forall o, t ∉ waiters k o) -> thread_at t th k -> wait_objects th = [] -> kernel_ok None k.
Proof.
  intros [H1 [G1 G0 Gi G2 G3 G4 G5] H3] Hno Ht Hw. split; [done| |done]. split; try done.
  - intros o u Hu _. apply G1; [done|]. intros [= <-]. by destruct (Hno o).
  - intros u uh Hu _ Hs. destruct (decide (u = t)) as [->|Hne]; [|by eapply Gi; [exact Hu|naive_solver|]].
    pose proof (W_lookup _ _ _ Ht) as Hu'. unfold thread_in in Hu. rewrite Hu in Hu'. injection Hu' as ->. done.
Qed.
Lemma wp_dead_leaves t th k : kernel_ok (Some t) k -> thread_at t th k -> status th = Dead -> (forall o, o ∉ wait_objects th -> t ∉ waiters k o) ->
  wp (leave_wait_objects t) (fun _ k' => kernel_ok None k' /\ W k' = <[t := erase (OThread (th <| wait_objects := [] |>))]> (W k) /\
    forall o, waiters k' o = filter (fun u => u <> t) (waiters k o)) k.
Proof.
  intros Hk Ht Hd Hno. pose proof (W_lookup _ _ _ Ht) as Ht1. unfold leave_wait_objects. wp_step. eapply wp_get_thread; [done|]. wp_step.
  eapply wp_mono; [apply (wp_leave_lists (hole := Some t) (wait_objects th) t k k Hk)|]; [done| |by eexists|done|done|].
  { intros o Ho. by eapply (waited_ok _ _ (kernel_waits _ Hk) t _ o Ht1). }
  cbn beta. intros _ k1 (Hk1 & HW1 & Hl1). rewrite <- HW1 in Ht1. destruct (thread_in_at _ _ _ Ht1) as (th1 & Ht2 & He). cbn in He. injection He. intros.
  eapply wp_update_thread; [exact Ht2|]. set (th2 := th1 <| wait_objects := [] |>). set (k2 := set_thread t th2 k1).
  assert (Ht3 : thread_at t th2 k2) by (apply thread_at_set; by left).
  assert (HW : W k2 = <[t := erase (OThread th2)]> (W k1)) by apply W_set_thread.
  assert (Hn : forall o, t ∉ waiters k2 o) by (intros o; change (waiters k2 o) with (waiters k1 o); rewrite Hl1, list_elem_of_filter; naive_solver).
  split; [|split; [|exact Hl1]].
  - eapply kernel_ok_close; [|exact Hn|exact Ht3|done]. split.
    + eapply sched_hole_eq; [by eapply sched_eq_thread|apply Hk1].
    + rewrite HW. eapply waits_ok_thread; [apply Hk1|exact Hn|exact Ht1|done|]. exact (callback_at _ _ _ _ Hk1 Ht2).
    + cbn. eapply held_ok_insert; [apply Hk1|exact Ht2|]. exists th1. split; [done|]. by apply mutexes_of_same.
  - rewrite HW, HW1. f_equal. unfold th2. clear - He. destruct th, th1. injection He. cbn. intros. by subst.
Qed.

(** ** The end *)

Lemma sched_eq_process k p pr pr' : objects k !! p = Some (OProcess pr) -> sched_eq k (set_object p (OProcess pr') k).
Proof.
  intros Hp. split; try done.
  - intros t. unfold tv, set_object. cbn. destruct (decide (t = p)) as [->|]; [|by rewrite lookup_insert_ne]. by rewrite lookup_insert_eq, Hp.
  - intros o (q & Ho). unfold is_process, set_object. cbn. destruct (decide (o = p)) as [->|]; [rewrite lookup_insert_eq|rewrite lookup_insert_ne by done]; eauto.
  - intros o _ Ho. unfold set_object. cbn. rewrite lookup_insert_ne; [done|]. congruence.
Qed.
(** The page and the slot of the storage of a thread *)
Definition tls_page (th : Thread) : nat := Z.to_nat (tls_page_of (tls_address th)).
Definition tls_slot (th : Thread) : nat := Z.to_nat (tls_slot_of (tls_address th)).
Definition tls_allocated k (th : Thread) : Prop := forall p, owner_process th = Some p -> has_slot (W k) p (tls_page th) (tls_slot th).
Definition tls_free k (th : Thread) : Prop := forall p, owner_process th = Some p ->
  exists pr l, objects k !! p = Some (OProcess pr) /\ tls_slots pr !! tls_page th = Some l /\ l !! tls_slot th = Some false.
Lemma wp_release_tls t th k : kernel_ok None k -> thread_at t th k -> tls_allocated k th ->
  wp (release_tls t) (fun _ k' => (kernel_ok None k' /\ calm k k' /\ tls_free k' th) /\ thread_at t th k') k.
Proof.
  intros Hk Ht Hp. unfold release_tls. wp_step. eapply wp_get_thread; [done|].
  destruct (owner_process th) as [p|] eqn:Ho; [|by wp_step; split_and!; [done|done|unfold tls_free; rewrite Ho|]].
  destruct (Hp p Ho) as (pr & l & (x & Hx & He)%W_lookup_inv & Hl & Hs). destruct x; try done. injection He as <-.
  wp_step. eapply wp_get_object; [exact Hx|done|]. wp_step. eapply wp_deref; [exact Hl|]. wp_step.
  destruct (lookup_lt_is_Some_2 _ _ Hs) as [b Hb]. eapply wp_deref; [exact Hb|]. eapply wp_update_any; [exact Hx|done|].
  set (pr' := pr <| tls_slots ::= _ |>). assert (H1 : acquired None p (OProcess pr') k (set_object p (OProcess pr') k)).
  { assert (HW : W (set_object p (OProcess pr') k) = <[p := OProcess pr']> (W k)) by apply W_set_object.
    assert (Hc : same_class (OProcess pr) (OProcess pr')).
    { cbn. apply list_eq. intros i. rewrite !list_lookup_fmap. destruct (decide (i = tls_page th)) as [->|Hne].
      - unfold tls_page in Hl |- *. rewrite list_lookup_alter_eq, Hl. cbn. by rewrite length_insert.
      - rewrite list_lookup_alter_ne; [done|]. by apply not_eq_sym. }
    split; [split|done|].
    - eapply sched_hole_eq; [by eapply sched_eq_process|apply Hk].
    - rewrite HW. eapply waits_ok_class; [by apply (W_lookup k p (OProcess pr))|exact Hc|apply Hk].
    - cbn. eapply held_ok_insert; [apply Hk|exact Hx|]. exists pr. split; [done|by left].
    - exists (OProcess pr). split; [by apply (W_lookup k p (OProcess pr))|]. by split. }
  split; [|unfold thread_at; cbn; rewrite lookup_insert_ne; [exact Ht|]; unfold thread_at in Ht; congruence].
  split; [apply H1|]. split; [by eapply acquired_calm|]. intros p' Hp'. rewrite Ho in Hp'. injection Hp' as <-. exists pr', (<[tls_slot th := false]> l).
  cbn. rewrite lookup_insert_eq. split; [done|]. unfold tls_page, tls_slot in *. rewrite list_lookup_alter_eq, Hl. split; [done|]. by rewrite list_lookup_insert_eq.
Qed.

(** What is left of a thread that was stopped. *)
Record stopped (t : oid) (th : Thread) k k' : Prop := {
  stopped_ok : kernel_ok None k';
  stopped_thread : exists th', thread_at t th' k' /\ status th' = Dead /\ wait_objects th' = [] /\ held_mutexes th' = [] /\ core_id th' = core_id th;
  stopped_lists o : t ∉ waiters k' o;
  stopped_sublist o : waiters k' o `sublist_of` waiters k o;
  stopped_ready u : u <> t -> is_ready (W k) u -> is_ready (W k') u;
  stopped_joined u uh : u ∈ waiters k t -> thread_in (W k) u uh -> status uh = WaitSynchAny -> is_ready (W k') u;
  stopped_slot : tls_free k' th;
}.
(** A calm step, but for the thread [t]. *)
Record calm_but (t : oid) k k' : Prop := {
  but_waiters o : waiters k' o `sublist_of` waiters k o;
  but_ready u : u <> t -> is_ready (W k) u -> is_ready (W k') u;
  but_slots p page slot : has_slot (W k) p page slot -> has_slot (W k') p page slot;
}.
#[export] Instance calm_but_preorder t : PreOrder (calm_but t).
Proof. split; [by split|]. intros k1 k2 k3 [H1 H2 H3] [K1 K2 K3]. split; [intros o; etrans; [apply K1|apply H1]|auto|auto]. Qed.
Lemma calm_calm_but t k k' : calm k k' -> calm_but t k k'.
Proof. intros H. split; [apply H|intros u _; apply H|apply H]. Qed.
Lemma thread_calm_but t k k' th th' : W k !! t = Some (OThread th) -> W k' = <[t := OThread th']> (W k) -> (forall o, waiters k' o `sublist_of` waiters k o) ->
  calm_but t k k'.
Proof.
  intros Ht HW Hs. split; [done|..]; rewrite HW.
  - intros u Hu (uh & Huh & Hr). exists uh. split; [|done]. apply thread_in_insert. by right.
  - intros p page slot (pr & l & Hp & Hl). exists pr, l. rewrite lookup_insert_ne; [done|]. congruence.
Qed.
(** What stays of a thread when priorities, registers and mutexes change. *)
Record frozen (th th' : Thread) : Prop := {
  frozen_status : status th' = status th;
  frozen_wait : wait_objects th' = wait_objects th;
  frozen_tls : tls_address th' = tls_address th;
  frozen_owner : owner_process th' = owner_process th;
  frozen_core : core_id th' = core_id th;
}.
Lemma erase_frozen th th' : erase (OThread th) = erase (OThread th') -> frozen th th'.
Proof. cbn. intros He. injection He. intros. by split. Qed.
Lemma frozen_trans th1 th2 th3 : frozen th1 th2 -> frozen th2 th3 -> frozen th1 th3.
Proof. intros [] []. split; congruence. Qed.
Lemma frozen_at k t x : W k !! t = Some (erase (OThread x)) -> exists th, thread_at t th k /\ frozen x th.
Proof. intros (th & Ht & He)%(thread_in_at k t). exists th. split; [done|]. by apply erase_frozen. Qed.
Lemma dead_stays t th k k' : calm k k' -> thread_at t th k -> status th = Dead -> exists th', thread_at t th' k' /\ frozen th th'.
Proof. intros Hc Ht Hd. apply frozen_at. by destruct (calm_rest _ _ Hc t _ (W_lookup _ _ _ Ht)) as [H|[H _]]; [left| |]. Qed.
Lemma tls_allocated_frozen k k' th th' : frozen th th' -> (forall p page slot, has_slot (W k) p page slot -> has_slot (W k') p page slot) ->
  tls_allocated k th -> tls_allocated k' th'.
Proof. intros [_ _ E1 E2 _] Hs Ha p. rewrite E2. unfold tls_page, tls_slot. rewrite E1. intros Hp. by apply Hs, Ha. Qed.
Lemma tls_free_frozen k th th' : frozen th th' -> tls_free k th' -> tls_free k th.
Proof. intros [_ _ E1 E2 _] Hf p Hp. unfold tls_page, tls_slot. rewrite <- E1. apply Hf. congruence. Qed.
(** The threads that joined the dead one are ready. *)
Lemma woken_up_joined t th k1 k2 u uh : woken_up (Some t) t k1 k2 -> thread_at t th k1 -> status th = Dead -> u ∈ waiters k1 t ->
  thread_in (W k1) u uh -> status uh = WaitSynchAny -> is_ready (W k2) u.
Proof.
  intros Hw Ht Hd Hu Huh Hst. eapply woken_up_any; [exact Hw| |exact Hu|exact Huh|exact Hst]. pose proof (woken_up_calm _ _ _ Hw) as [_ Hc].
  destruct (dead_stays _ _ _ _ Hc Ht Hd) as (th2 & Ht2 & F2). unfold should_wait. rewrite (W_lookup _ _ _ Ht2). cbn.
  by rewrite (frozen_status _ _ F2), bool_decide_eq_true_2.
Qed.
Lemma wp_Stop t th k : kernel_ok None k -> thread_at t th k -> t ∉ waiters k t -> tls_allocated k th -> wp (Stop t) (fun _ k' => stopped t th k k') k.
Proof.
  intros Hk Ht Hself Htls. destruct (sched_thread _ _ _ _ (kernel_sched _ Hk) Ht) as (m & Hm & _).
  unfold Stop. wp_step. eapply wp_get_thread; [done|]. wp_step. eapply wp_get_manager; [exact Hm|].
  eapply wp_timer_removed; [done|exact Ht|exact Hm|]. intros k0 m0 Hk0 E0 L0 Hm0.
  assert (Ht0 : thread_at t th k0) by (unfold thread_at; by rewrite E0). assert (HW0 : W k0 = W k) by (unfold W; by rewrite E0).
  eapply wp_kill; [exact Hk0|exact Ht0|exact Hm0|]. intros k1 Hk1 Ht1 HW1 L1. rewrite L0 in L1. rewrite HW0 in HW1.
  assert (Hself1 : forall u, u ∈ waiters k1 t -> Some t <> Some u) by (rewrite L1; intros u Hu [= <-]; done).
  wp_step. eapply wp_mono; [apply (wp_WakeupAllWaitingThreads (hole := Some t)); [exact Hk1| |exact Hself1]|].
  { exists (erase (OThread (dead th))). by rewrite HW1, lookup_insert_eq. }
  cbn beta. intros _ k3 (Hk3 & k2 & Hwoken & Hc3 & _). pose proof (woken_up_calm _ _ _ Hwoken) as [_ Hc2].
  assert (B1 : calm_but t k k1) by (eapply thread_calm_but; [exact (W_lookup _ _ _ Ht)|exact HW1|by rewrite L1]).
  assert (Hc13 : calm k1 k3) by (by etrans). destruct (dead_stays _ _ _ _ Hc13 Ht1 eq_refl) as (th3 & Ht3 & F3).
  wp_step. eapply wp_mono; [eapply (wp_dead_leaves t th3); [exact Hk3|exact Ht3|by rewrite (frozen_status _ _ F3)|]|].
  { intros o Ho Hin. apply Ho. rewrite (frozen_wait _ _ F3). assert (Hin0 : t ∈ waiters k o) by (rewrite <- L1; eapply elem_of_sublist; [exact Hin|apply Hc13]).
    destruct (waiter_ok _ _ (kernel_waits _ Hk) o t Hin0) as (th' & Hth' & _ & Hw); [done|]. pose proof (W_lookup _ _ _ Ht) as Ht'.
    unfold thread_in in Hth'. rewrite Ht' in Hth'. injection Hth' as <-. exact Hw. }
  cbn beta. intros _ k4 (Hk4 & HW4 & L4). assert (B4 : calm_but t k3 k4).
  { eapply thread_calm_but; [exact (W_lookup _ _ _ Ht3)|exact HW4|]. intros o. rewrite L4. apply sublist_filter. }
  destruct (frozen_at k4 t (th3 <| wait_objects := [] |>)) as (th4 & Ht4 & F4); [by rewrite HW4, lookup_insert_eq|].
  assert (Hd4 : status th4 = Dead) by (rewrite (frozen_status _ _ F4); apply F3).
  wp_step. unfold ReleaseThreadMutexes. wp_step. eapply wp_get_thread; [exact Ht4|]. wp_step.
  eapply wp_mono; [apply (wp_release_mutexes (hole := None)); [done| |done]|].
  { intros mx Hmx. destruct (held_mutex _ (kernel_held _ Hk4) t th4 mx Ht4 Hmx) as (y & Hy & _). apply is_mutex_kind. exact (object_kind _ _ _ Hy). }
  cbn beta. intros _ k5 [Hk5 Hc5]. destruct (dead_stays _ _ _ _ Hc5 Ht4 Hd4) as (th5 & Ht5 & F5).
  eapply wp_update_quiet; [exact Hk5|exact Ht5|done|done|by split; [intros ? ?%not_elem_of_nil|by left]|]. intros H6 Ht6. set (k6 := set_thread _ _ k5) in *.
  assert (B6 : calm_but t k k6).
  { etrans; [exact B1|]. etrans; [by apply calm_calm_but|]. etrans; [exact B4|]. etrans; [by apply calm_calm_but|]. by eapply calm_calm_but, (same_waits_calm (hole := None)). }
  assert (F6 : frozen (dead th <| wait_objects := [] |>) (th5 <| held_mutexes := [] |>)).
  { destruct F3, F4, F5. cbn in *. split; cbn; congruence. }
  eapply wp_mono; [eapply wp_release_tls; [apply H6|exact Ht6|by eapply (tls_allocated_frozen k _ (dead th <| wait_objects := [] |>)); [exact F6|apply B6|]]|].
  cbn beta. intros _ k7 [(Hk7 & Hc7 & Hf7) Ht7]. assert (B7 : calm_but t k k7) by (etrans; [exact B6|by apply calm_calm_but]). split.
  - done.
  - eexists. split; [exact Ht7|]. cbn. split; [by rewrite (frozen_status _ _ F5)|]. split; [rewrite (frozen_wait _ _ F5); by rewrite (frozen_wait _ _ F4)|]. split; [done|exact (frozen_core _ _ F6)].
  - intros o Hin. assert (Hc47 : calm k4 k7) by (etrans; [exact Hc5|]; etrans; [by eapply same_waits_calm|done]).
    pose proof (elem_of_sublist _ _ _ Hin (calm_waiters _ _ Hc47 o)) as Hin4. rewrite L4, list_elem_of_filter in Hin4. by destruct Hin4.
  - apply B7.
  - apply B7.
  - intros u uh Hu Huh Hst. assert (Hne : u <> t) by (by intros ->). rewrite <- L1 in Hu.
    assert (R2 : is_ready (W k2) u).
    { eapply woken_up_joined; [exact Hwoken|exact Ht1|done|exact Hu| |exact Hst]. rewrite HW1. apply thread_in_insert. by right. }
    apply Hc7, (calm_ready k5), Hc5, B4; [by eapply same_waits_calm|done|by apply Hc3].
  - exact (tls_free_frozen k7 (dead th <| wait_objects := [] |>) _ F6 Hf7).
Qed.

(** ** A thread that waits for its own end *)

Lemma eq_preorder : PreOrder (@eq (KernelSystem D IS)).
Proof. split; congruence. Qed.
Lemma reads_ShouldWait o t : steady (@eq (KernelSystem D IS)) (ShouldWait o t).
Proof.
  pose proof eq_preorder. unfold ShouldWait, get_any. repeat first [steady_step | apply steady_object; exact _ | match goal with |- steady _ (match ?x with _ => _ end) => destruct x end].
Qed.
Lemma reads_none_should_wait l t : steady (@eq (KernelSystem D IS)) (none_should_wait l t).
Proof.
  pose proof eq_preorder. induction l; cbn [none_should_wait]; [by apply steady_ret|]. apply steady_bind; [done|apply reads_ShouldWait|]. intros []; [by apply steady_ret|done].
Qed.
(** The search for a thread to wake up fails on a thread that does not wait. *)
Lemma wlp_best_candidate_fails this l c p t th k : t ∈ l -> thread_at t th k -> sync_status (status th) = false -> wlp (best_candidate this l c p) (fun _ _ => False) k.
Proof.
  intros Hin Ht Hs. revert c p. induction l as [|u l IH]; intros c p; cbn [best_candidate]; [by apply not_elem_of_nil in Hin|].
  apply wlp_bind, wlp_get_thread. intros uh Huh. apply wlp_bind. wp_step. destruct (decide (u = t)) as [->|Hne].
  { assert (uh = th) as -> by (by eapply thread_at_fun). congruence. }
  assert (Hl : t ∈ l) by (apply elem_of_cons in Hin as [Hin|Hin]; [by destruct Hne|done]). specialize (IH Hl). case_bool; [apply IH|].
  wp_step. eapply wlp_mono; [apply reads_ShouldWait|]. cbn beta. intros b k1 <-. destruct b; [apply IH|]. wp_step.
  assert (Hr : wlp (if bool_decide (status uh = WaitSynchAll) then none_should_wait (wait_objects uh) u else mret true) (fun _ k' => k = k') k).
  { destruct (bool_decide _); [apply reads_none_should_wait|by apply wlp_ret]. }
  eapply wlp_mono; [exact Hr|]. cbn beta. intros b k1 <-. destruct b; apply IH.
Qed.
Lemma wlp_rest {A B C} (m : M (KernelSystem D IS) A) (n : M (KernelSystem D IS) B) (rest : M (KernelSystem D IS) C) P Q k :
  wp (m;; n;; mret tt) P k -> (forall k', P tt k' -> wlp rest Q k') -> wlp (m;; n;; rest) Q k.
Proof.
  intros H HQ. apply wlp_bind. apply wp_unbind in H. eapply wlp_mono; [by apply wp_wlp|]. cbn beta. intros a k1 H1. apply wlp_bind.
  apply wp_unbind in H1. eapply wlp_mono; [by apply wp_wlp|]. cbn beta. intros b k2 H2. by apply HQ.
Qed.
Lemma wlp_wakeup_fails fuel this t th k : t ∈ waiters k this -> thread_at t th k -> sync_status (status th) = false -> wlp (wakeup_loop fuel this) (fun _ _ => False) k.
Proof.
  intros Hin Ht Hs. assert (H : wlp (GetHighestPriorityReadyThread this) (fun _ _ => False) k).
  { unfold GetHighestPriorityReadyThread. wp_step. wp_step. by eapply wlp_best_candidate_fails. }
  destruct fuel; cbn [wakeup_loop]; wp_step; (eapply wlp_mono; [exact H|done]).
Qed.
(** A thread that waits for its own end cannot be stopped: it is dead before the threads
    that wait for it are looked through, itself among them. *)
Lemma Stop_self_wait_fails t th k : kernel_ok None k -> thread_at t th k -> t ∈ waiters k t -> exists f, Stop t k = Crash f.
Proof.
  intros Hk Ht Hself. destruct (sched_thread _ _ _ _ (kernel_sched _ Hk) Ht) as (m & Hm & _).
  assert (Hw : wlp (Stop t) (fun _ _ => False) k); [|unfold wlp in Hw; destruct (Stop t k) as [[a k']|f]; [done|by exists f]].
  unfold Stop. apply wlp_bind, wp_wlp. eapply wp_get_thread; [exact Ht|]. apply wlp_bind, wp_wlp. eapply wp_get_manager; [exact Hm|].
  eapply (wlp_rest _ _ _ (fun _ k0 => exists m0, kernel_ok None k0 /\ objects k0 = objects k /\ waiters k0 = waiters k /\ manager_at (core_id th) m0 k0)).
  { eapply wp_timer_removed; [done|exact Ht|exact Hm|]. intros k0 m0 H1 H2 H3 H4. wp_step. by exists m0. }
  intros k0 (m0 & Hk0 & E0 & L0 & Hm0). assert (Ht0 : thread_at t th k0) by (unfold thread_at; by rewrite E0).
  eapply (wlp_rest _ _ _ (fun _ k1 => thread_at t (dead th) k1 /\ waiters k1 = waiters k0)).
  { eapply wp_kill; [exact Hk0|exact Ht0|exact Hm0|]. intros k1 _ H2 _ H4. by wp_step. }
  intros k1 [Ht1 L1]. wp_step. unfold WakeupAllWaitingThreads, WaitObject_WakeupAllWaitingThreads. do 2 wp_step. wp_step. apply wlp_bind.
  eapply wlp_mono; [eapply wlp_wakeup_fails; [|exact Ht1|done]; by rewrite L1, L0|done].
Qed.
End StopThread.
