(* ===== verification/Calls.v ===== *)
(** The supervisor calls on the objects threads wait for keep the kernel valid
    (src/.../core/hle/kernel/svc.cpp): whatever handles and numbers a thread passes,
    the call returns, with an error or a change of the kernel that is allowed. *)

From S2P Require Import Prelude ResultCode HandleTable CoreTiming ThreadQueueList KernelState Thread Scheduler Reschedule WaitObject WaitInvariant Wakeup SyncObjects Release Process Ipc Sessions WaitSync ThreadLife MemoryRegion SvcMemory SvcObjects SvcThreads Suspend Resume StopThread.

(** The object of a class a handle is for *)
Ltac casts x := destruct x; try done; match goal with H : _ = Some _ |- _ => cbn in H; injection H as -> end.

Section Calls.
Context {D IS : Type} {hooks : Hooks D IS} {Hhooks : HooksOk hooks}.
Implicit Types (k : KernelSystem D IS).

(** ** The thread that calls *)

(** [t] is running, on the core that is executing, and there is a current process. *)
Record calling (t : oid) k : Prop := {
  calling_process : exists p, current_process k = Some p /\ is_process k p;
  calling_manager : exists m, manager_at (current_cpu k) m k /\ current_thread m = Some t;
  calling_registers : exists m lr, manager_at (current_cpu k) m k /\ cpu_registers (cpu_context (cpu m)) !! 14%nat = Some lr;
  calling_thread : exists th, thread_at t th k /\ status th = Running;
}.
Lemma wp_running_thread t k (Q : oid -> KernelSystem D IS -> Prop) : calling t k -> Q t k -> wp running_thread Q k.
Proof.
  intros [_ (m & Hm & Ht) _ _] HQ. unfold running_thread, GetCurrentThread. do 4 wp_step. eapply wp_get_manager; [exact Hm|]. wp_step. by eapply wp_deref.
Qed.
Lemma wp_current t k (Q : oid -> KernelSystem D IS -> Prop) : calling t k -> (forall p pr, objects k !! p = Some (OProcess pr) -> current_process k = Some p -> Q p k) -> wp current Q k.
Proof. intros [(p & Hp & pr & Hpr) _ _ _] HQ. unfold current. do 2 wp_step. eapply wp_deref; [exact Hp|]. by eapply HQ. Qed.

(** ** Handles *)

Lemma wp_get_handle {A} (cast : Object -> option A) h t k (Q : option oid -> KernelSystem D IS -> Prop) : calling t k -> Q None k ->
  (forall o x a, objects k !! o = Some x -> cast x = Some a -> Q (Some o) k) -> wp (get_handle cast h) Q k.
Proof.
  intros Hc Hno Hyes. unfold get_handle. wp_step. eapply wp_current; [exact Hc|]. intros p pr Hpr Hcur. wp_step. unfold Ipc.GetGeneric. wp_step.
  eapply wp_get_object; [exact Hpr|done|]. do 3 wp_step. destruct (calling_manager _ _ Hc) as (m & Hm & _). eapply wp_get_manager; [exact Hm|].
  wp_step. do 2 wp_step. destruct (HandleTable.GetGeneric _ _ h _) as [o|]; [|by wp_step]. wp_step.
  destruct (objects k !! o) as [x|] eqn:Hx; [|done]. destruct (cast x) as [a|] eqn:Ha; [|done]. by eapply Hyes.
Qed.
Lemma wp_with_object {A B} (cast : Object -> option A) h (error : result_code -> B) body t k (Q : B -> KernelSystem D IS -> Prop) : calling t k ->
  Q (error ERR_INVALID_HANDLE) k -> (forall o x a, objects k !! o = Some x -> cast x = Some a -> wp (body o) Q k) -> wp (with_object cast h error body) Q k.
Proof. intros Hc Hno Hyes. unfold with_object. wp_step. eapply wp_get_handle; [exact Hc|by wp_step|done]. Qed.

Lemma wp_Create_valid o (t : HandleTable) : HandleTable.valid t -> wp (HandleTable.Create o) (fun _ t' => HandleTable.valid t') t.
Proof.
  intros [Hwf|(s & free & Hwf)]%valid_cases; [eapply wp_intro; [by apply Create_none|by eapply wf_valid]|].
  destruct (Create_some _ _ _ o Hwf) as (p & Hc & Hwf'). eapply wp_intro; [done|]. by eapply wf_valid.
Qed.
Lemma wp_Duplicate_valid ct cp h (t : HandleTable) : HandleTable.valid t -> wp (HandleTable.Duplicate ct cp h) (fun _ t' => HandleTable.valid t') t.
Proof. intros Ht. unfold wp, HandleTable.Duplicate. destruct (HandleTable.GetGeneric ct cp h t); [by apply wp_Create_valid|done]. Qed.
Lemma wp_Close_valid h (t : HandleTable) : HandleTable.valid t -> wp (HandleTable.Close h) (fun _ t' => HandleTable.valid t') t.
Proof.
  intros [free Hwf]. destruct (IsValid h t) eqn:Hv; [|unfold wp, HandleTable.Close; rewrite Hv; by exists free].
  destruct (Close_some _ _ _ Hwf Hv) as [Hc Hwf']. eapply wp_intro; [done|]. by eapply wf_valid.
Qed.
(** The table of a process is replaced by a valid one. *)
Lemma kernel_set_process p pr pr' k : kernel_ok None k -> objects k !! p = Some (OProcess pr) -> HandleTable.valid (handle_table pr') ->
  tls_slots pr' = tls_slots pr -> acquired None p (OProcess pr') k (set_object p (OProcess pr') k).
Proof.
  intros Hk Hp Hv Ht. assert (HW : W (set_object p (OProcess pr') k) = <[p := OProcess pr']> (W k)) by apply W_set_object.
  assert (Hc : same_class (OProcess pr) (OProcess pr')) by (cbn; by rewrite Ht). split; [split|done|].
  - eapply sched_hole_eq; [by eapply sched_eq_process|apply Hk].
  - rewrite HW. eapply waits_ok_class; [by apply (W_lookup k p (OProcess pr))|exact Hc|apply Hk].
  - cbn. eapply held_ok_insert; [apply Hk|exact Hp|]. exists pr. split; [done|by right].
  - exists (OProcess pr). split; [by apply (W_lookup k p (OProcess pr))|]. by split.
Qed.
Lemma wp_handle_op {A} p pr (m : M HandleTable A) k : kernel_ok None k -> objects k !! p = Some (OProcess pr) ->
  (forall t, HandleTable.valid t -> wp m (fun _ t' => HandleTable.valid t') t) -> wp (handle_op p m) (fun _ k' => kernel_ok None k' /\ calm k k') k.
Proof.
  intros Hk Hp Hm. unfold handle_op. wp_step. eapply wp_get_object; [exact Hp|done|].
  specialize (Hm _ (table_valid _ (kernel_held _ Hk) p pr Hp)). unfold wp in Hm at 1. destruct (m (handle_table pr)) as [[a t']|]; [|done].
  wp_step. eapply wp_update_any; [exact Hp|done|]. wp_step.
  pose proof (kernel_set_process p pr (pr <| handle_table := t' |>) k Hk Hp Hm eq_refl) as H. split; [apply H|by eapply acquired_calm].
Qed.

(** ** New objects *)

(** What the calls make. *)
Definition fresh_object (x : Object) : Prop :=
  match x with OSemaphore _ | OEvent _ | OTimer _ | OAddressArbiter _ => True | OMutex m => holding_thread m = None | _ => False end.
Section Fresh.
Context (w : gmap oid Object) (n : oid) (x : Object) (Hn : w !! n = None) (Hx : fresh_object x).
Lemma fresh_lookup o y : w !! o = Some y -> <[n := x]> w !! o = Some y.
Proof. intros Ho. rewrite lookup_insert_ne; [done|]. congruence. Qed.
Lemma fresh_thread t th : thread_in (<[n := x]> w) t th <-> thread_in w t th.
Proof.
  unfold thread_in. destruct (decide (t = n)) as [->|]; [|by rewrite lookup_insert_ne]. rewrite lookup_insert_eq, Hn. by destruct x.
Qed.
Lemma fresh_waitable o : waitable w o -> waitable (<[n := x]> w) o.
Proof.
  intros (y & Hy & Hi & Hp). exists y. split; [by apply fresh_lookup|]. split; [done|]. destruct y; try done. destruct Hp as (p & Hp). exists p. by apply fresh_lookup.
Qed.
Lemma waits_ok_fresh b : waits_ok None w b -> waits_ok None (<[n := x]> w) b.
Proof.
  intros [H1 H0 Hi H2 H3 H4 H5]. split; try done.
  - intros o t Ht Hh. destruct (H1 o t Ht Hh) as (th & ? & ?). exists th. by rewrite fresh_thread.
  - intros o t Ht. destruct (H0 o t Ht) as (Hw & th & ?). split; [by apply fresh_waitable|]. exists th. by rewrite fresh_thread.
  - intros t th. rewrite fresh_thread. apply Hi.
  - intros t th o Ht Ho. rewrite fresh_thread in Ht. apply fresh_waitable. by eapply H3.
  - intros t th. rewrite fresh_thread. apply H4.
  - intros t th. rewrite fresh_thread. apply H5.
Qed.
Lemma held_ok_fresh : held_ok w -> held_ok (<[n := x]> w).
Proof.
  intros [H0 H1 H2 H3 H4]. split.
  - intros t th m Ht%fresh_thread Hm. destruct (H0 t th m Ht Hm) as (mx & Hmx). exists mx. by apply fresh_lookup.
  - intros t th m Ht%fresh_thread Hm. destruct (H1 t th m Ht Hm) as (mx & Hmx & ?). exists mx. split; [by apply fresh_lookup|done].
  - intros m mx t Hm Ht. destruct (decide (m = n)) as [->|]; [|rewrite lookup_insert_ne in Hm by done].
    + rewrite lookup_insert_eq in Hm. injection Hm as ->. cbn in Hx. congruence.
    + destruct (H2 m mx t Hm Ht) as [th Hth]. exists th. by apply fresh_lookup.
  - intros i s Hi. destruct (decide (i = n)) as [->|]; [rewrite lookup_insert_eq in Hi; by injection Hi as ->|rewrite lookup_insert_ne in Hi by done].
    destruct (H3 i s Hi) as [p Hp]. exists p. by apply fresh_lookup.
  - intros i p Hi. destruct (decide (i = n)) as [->|]; [rewrite lookup_insert_eq in Hi; by injection Hi as ->|rewrite lookup_insert_ne in Hi by done]. by eapply H4.
Qed.
End Fresh.
(** An object was made at [o], and nothing else changed. *)
Record made (o : oid) (x : Object) k k' : Prop := {
  made_ok : kernel_ok None k';
  made_calm : calm k k';
  made_fresh : objects k !! o = None;
  made_objects : objects k' = <[o := x]> (objects k);
  made_current : current_process k' = current_process k /\ current_cpu k' = current_cpu k /\ thread_managers k' = thread_managers k;
}.
Lemma wp_make_shared x k : kernel_ok None k -> fresh_object x -> wp (make_shared x) (fun o k' => made o x k k') k.
Proof.
  intros Hk Hx. unfold make_shared, GenerateObjectID. repeat wp_step. match goal with |- made _ _ _ ?k2 => set (k' := k2) end.
  assert (Hn : objects k !! next_oid k = None) by (apply (sched_fresh _ _ (kernel_sched _ Hk)); lia).
  assert (HW : W k' = <[next_oid k := erase x]> (W k)) by (unfold W, k'; cbn; by rewrite fmap_insert).
  assert (HnW : W k !! next_oid k = None) by (unfold W; by rewrite lookup_fmap, Hn).
  assert (Hxe : fresh_object (erase x)) by (by destruct x).
  assert (Hk' : kernel_ok None k').
  { split.
    - destruct (kernel_sched _ Hk) as [S1 S2 S3 S4 S5 S6 S7].
      assert (Hs : sched_ok (k <| next_oid ::= fun n => n + 1 |>)) by (split; try done; intros o Ho; apply S7; cbn in Ho; lia).
      eapply sched_hole_eq; [|exact Hs]. split; try done.
      + intros t. unfold tv. cbn. destruct (decide (t = next_oid k)) as [->|]; [rewrite lookup_insert_eq, Hn; by destruct x|by rewrite lookup_insert_ne].
      + intros p (q & Hp). exists q. cbn. rewrite lookup_insert_ne; [done|]. intros E. cbn in Hp. rewrite <- E in Hp. by rewrite Hn in Hp.
      + intros o Hle Ho. cbn in Hle |- *. rewrite lookup_insert_ne; [done|lia].
    - rewrite HW. apply waits_ok_fresh; [done|done|apply Hk].
    - cbn. apply held_ok_fresh; [done|done|apply Hk]. }
  split; [done| |done|done|done]. split; try rewrite HW; try done.
  - intros n o (y & Hy & Hkd). exists y. split; [by apply fresh_lookup|done].
  - intros t th Ht _. left. by apply fresh_thread.
  - intros p page slot (pr & l & Hp & Hl). exists pr, l. split; [by apply fresh_lookup|done].
  - by apply fresh_waitable.
  - intros t (th & Ht & Hr). exists th. split; [|done]. by apply fresh_thread.
Qed.

(** ** Signals *)

Lemma wait_no_hole k o : forall t, t ∈ waiters k o -> (None : option oid) <> Some t.
Proof. done. Qed.
Hint Resolve wait_no_hole : core.
(** A call that answers [RESULT_SUCCESS] after a change that keeps the kernel valid. *)
Lemma wp_answer {A B} (m : M (KernelSystem D IS) A) (f : A -> B) k : wp m (fun _ k' => kernel_ok None k' /\ calm k k') k -> wp (a ← m; mret (f a)) (fun _ k' => kernel_ok None k' /\ calm k k') k.
Proof. intros Hm. wp_step. eapply wp_mono; [exact Hm|]. cbn beta. intros a k' H. by wp_step. Qed.
Lemma signaled_calm o y k k' : signaled (hole := None) o y k k' -> kernel_ok None k' /\ calm k k'.
Proof. by intros (? & ? & _). Qed.
Lemma acquired_kept o y k k' : acquired None o y k k' -> kernel_ok None k' /\ calm k k'.
Proof. intros H. split; [apply H|by eapply acquired_calm]. Qed.
Lemma same_kept k k' : same_waits None k k' -> kernel_ok None k' /\ calm k k'.
Proof. intros H. split; [apply H|by eapply same_waits_calm]. Qed.

Lemma wp_SignalEvent h t k : kernel_ok None k -> calling t k -> wp (SignalEvent h) (fun _ k' => kernel_ok None k' /\ calm k k') k.
Proof.
  intros Hk Hc. eapply wp_with_object; [exact Hc|done|]. intros o x ev Hx Ha. casts x. apply wp_answer.
  eapply wp_mono; [by eapply wp_Event_Signal|]. cbn beta. intros _ k'. apply signaled_calm.
Qed.
Lemma wp_ClearEvent h t k : kernel_ok None k -> calling t k -> wp (ClearEvent h) (fun _ k' => kernel_ok None k' /\ calm k k') k.
Proof.
  intros Hk Hc. eapply wp_with_object; [exact Hc|done|]. intros o x ev Hx Ha. casts x. apply wp_answer.
  eapply wp_mono; [by eapply wp_Event_Clear|]. cbn beta. intros _ k'. apply acquired_kept.
Qed.
Lemma wp_ReleaseMutex h t k : kernel_ok None k -> calling t k -> wp (ReleaseMutex h) (fun _ k' => kernel_ok None k' /\ calm k k') k.
Proof.
  intros Hk Hc. eapply wp_with_object; [exact Hc|done|]. intros o x mx Hx Ha. casts x. wp_step. eapply wp_running_thread; [exact Hc|].
  eapply wp_mono; [by eapply wp_Mutex_Release|]. intros r k'. unfold mutex_released. destruct (negb _); [by intros [_ ->]|].
  destruct (_ <=? 0); [by intros [_ ->]|].
  intros [_ H]. destruct (lock_count mx =? 1); [by eapply signaled_calm|]. destruct H as [H ->].
  pose proof (acquired_mutex (hole := None) o k mx (mx <| lock_count ::= fun n => n - 1 |>) Hk Hx) as Ha. eapply acquired_kept, Ha; [by right|by left].
Qed.
Lemma wp_ReleaseSemaphore h n t k : kernel_ok None k -> calling t k -> wp (ReleaseSemaphore h n) (fun _ k' => kernel_ok None k' /\ calm k k') k.
Proof.
  intros Hk Hc. eapply wp_with_object; [exact Hc|done|]. intros o x sm Hx Ha. casts x. apply wp_answer.
  eapply wp_mono; [by eapply wp_Semaphore_Release|]. intros r k'. cbn beta. destruct (_ <? n); [by intros [_ ->]|]. intros [_ H]. by eapply signaled_calm.
Qed.
Lemma wp_ClearTimer h t k : kernel_ok None k -> calling t k -> wp (ClearTimer h) (fun _ k' => kernel_ok None k' /\ calm k k') k.
Proof.
  intros Hk Hc. eapply wp_with_object; [exact Hc|done|]. intros o x tm Hx Ha. casts x. apply wp_answer.
  eapply wp_mono; [by eapply wp_Timer_Clear|]. cbn beta. intros _ k'. apply acquired_kept.
Qed.
Lemma wp_SetTimer h initial interval t k : kernel_ok None k -> calling t k -> wp (SetTimer h initial interval) (fun _ k' => kernel_ok None k' /\ calm k k') k.
Proof.
  intros Hk Hc. unfold SetTimer. destruct (_ || _); [by wp_step|]. eapply wp_with_object; [exact Hc|done|]. intros o x tm Hx Ha. casts x.
  apply wp_answer. by eapply wp_Timer_Set.
Qed.
Lemma wp_CancelTimer h t k : kernel_ok None k -> calling t k -> wp (CancelTimer h) (fun _ k' => kernel_ok None k' /\ calm k k') k.
Proof.
  intros Hk Hc. eapply wp_with_object; [exact Hc|done|]. intros o x tm Hx Ha. casts x. apply wp_answer.
  eapply wp_mono; [by eapply wp_Timer_Cancel|]. cbn beta. intros _ k' [H _]. by apply same_kept.
Qed.

(** ** Handles *)

Lemma wp_DuplicateHandle h t k : kernel_ok None k -> calling t k -> wp (DuplicateHandle h) (fun _ k' => kernel_ok None k' /\ calm k k') k.
Proof.
  intros Hk Hc. unfold DuplicateHandle. wp_step. eapply wp_current; [exact Hc|]. intros p pr Hpr _. do 3 wp_step. destruct (calling_manager _ _ Hc) as (m & Hm & _).
  eapply wp_get_manager; [exact Hm|]. apply wp_answer. eapply wp_handle_op; [done|exact Hpr|]. intros tb. apply wp_Duplicate_valid.
Qed.
Lemma wp_CloseHandle h t k : kernel_ok None k -> calling t k -> wp (CloseHandle h) (fun _ k' => kernel_ok None k' /\ calm k k') k.
Proof.
  intros Hk Hc. unfold CloseHandle. wp_step. eapply wp_current; [exact Hc|]. intros p pr Hpr _. eapply wp_handle_op; [done|exact Hpr|]. intros tb. apply wp_Close_valid.
Qed.
Lemma wp_return_handle o k : kernel_ok None k -> (exists p, current_process k = Some p /\ is_process k p) ->
  wp (return_handle o) (fun _ k' => kernel_ok None k' /\ calm k k') k.
Proof.
  intros Hk (p & Hp & pr & Hpr). unfold return_handle, current. do 3 wp_step. eapply wp_deref; [exact Hp|]. wp_step.
  eapply wp_mono; [eapply wp_handle_op; [done|exact Hpr|]; intros tb; apply wp_Create_valid|]. cbn beta. intros r k' H. by wp_step.
Qed.

End Calls.

(** ** Calls that make objects *)

Section CallsMake.
Context {D IS : Type} {hooks : Hooks D IS} {Hhooks : HooksOk hooks}.
Implicit Types (k : KernelSystem D IS).

(** ** What stays of the cores *)

(** The same thread runs on every core, with the same registers. *)
Record same_cpu k k' : Prop := {
  same_process : current_process k' = current_process k;
  same_core : current_cpu k' = current_cpu k;
  same_cpus : (fun m => (cpu m, current_thread m)) <$> thread_managers k' = (fun m => (cpu m, current_thread m)) <$> thread_managers k;
}.
#[export] Instance same_cpu_preorder : PreOrder same_cpu.
Proof. split; [by split|]. intros k1 k2 k3 [H1 H2 H3] [K1 K2 K3]. split; congruence. Qed.
Abbreviation kept := (steady same_cpu).
Lemma kept_update {A} (cast : Object -> option A) wrap o f : kept (update_object cast wrap o f).
Proof. apply steady_bind; [exact _|apply steady_object; exact _|]. intros x. apply steady_modify. by split. Qed.
Lemma kept_queue_op {A} c (m : M (tql oid) A) : kept (queue_op c m).
Proof.
  intros k. unfold wlp, queue_op, manager_op. destruct (thread_managers k !! c) as [t|] eqn:Ht; [|done]. unfold zoom.
  destruct (m (ready_queue t)) as [[a q]|]; [|done]. split; [done|done|]. cbn. rewrite list_fmap_insert. apply list_insert_id.
  rewrite list_lookup_fmap, Ht. done.
Qed.
Hint Resolve kept_queue_op : steady.
Ltac kept := repeat first
  [ apply kept_update | apply steady_object; exact _ | steady_step | apply steady_modify; intros ?; by split
  | match goal with |- steady _ (match ?x with _ => _ end) => destruct x end ].
Lemma kept_best l best : kept (best_priority l best).
Proof. revert best. induction l; intros best; cbn [best_priority]; unfold get_mutex; kept. Qed.
Lemma kept_UpdatePriority t : kept (UpdatePriority t).
Proof. pose proof kept_best. unfold UpdatePriority, BoostPriority, requeue, update_thread, get_thread. kept. Qed.
Lemma kept_ShouldWait o t : kept (ShouldWait o t).
Proof. unfold ShouldWait, get_any. kept. Qed.
Hint Resolve kept_UpdatePriority kept_ShouldWait : steady.
Lemma kept_Acquire o t : kept (Acquire o t).
Proof.
  unfold Acquire, Mutex_Acquire, get_mutex, get_thread, get_any, PrepareReschedule, update_mutex, update_thread, update_semaphore, update_event, update_timer.
  cbv zeta. kept.
Qed.

(** ** Making objects *)

(** What a call needs to name an object and to give out its handle. *)
Record can_answer k : Prop := {
  answer_process : exists p, current_process k = Some p /\ is_process k p;
  answer_registers : exists m lr, manager_at (current_cpu k) m k /\ cpu_registers (cpu_context (cpu m)) !! 14%nat = Some lr;
}.
Lemma calling_answer t k : calling t k -> can_answer k.
Proof. by intros []. Qed.
Lemma calm_process k k' p : calm k k' -> is_process k p -> is_process k' p.
Proof.
  intros Hc (pr & Hp). pose proof (calm_kind _ _ Hc 11 p (object_kind _ _ _ Hp)) as (x & Hx & Hk)%kind_object. destruct x; try done. by eexists.
Qed.
Lemma answer_kept k k' : calm k k' -> same_cpu k k' -> can_answer k -> can_answer k'.
Proof.
  intros Hc [E1 E2 E3] [(p & Hp & Hpr) (m & lr & Hm & Hlr)]. split.
  - exists p. rewrite E1. split; [done|by eapply calm_process].
  - rewrite E2. assert (H : ((fun m => (cpu m, current_thread m)) <$> thread_managers k') !! current_cpu k = Some (cpu m, current_thread m))
      by (rewrite E3, list_lookup_fmap; unfold manager_at in Hm; by rewrite Hm).
    rewrite list_lookup_fmap in H. apply fmap_Some in H as (m' & Hm' & E). exists m', lr. split; [exact Hm'|]. injection E as <- _. done.
Qed.
Lemma wp_named pre k (Q : string -> KernelSystem D IS -> Prop) : can_answer k -> (forall s, Q s k) -> wp (named pre) Q k.
Proof.
  intros [_ (m & lr & Hm & Hlr)] HQ. unfold named, link_register. wp_step. do 3 wp_step. eapply wp_get_manager; [exact Hm|].
  eapply wp_deref; [exact Hlr|]. by wp_step.
Qed.
Lemma same_cpu_made o x k k' : made o x k k' -> same_cpu k k'.
Proof. intros [_ _ _ _ (H1 & H2 & H3)]. split; [done|done|by rewrite H3]. Qed.
Lemma made_object o x k k' : made o x k k' -> objects k' !! o = Some x.
Proof. intros [_ _ _ E _]. by rewrite E, lookup_insert_eq. Qed.
Lemma wp_give_handle o k k' : kernel_ok None k' -> calm k k' -> can_answer k' -> wp (return_handle o) (fun _ k2 => kernel_ok None k2 /\ calm k k2) k'.
Proof.
  intros H1 H2 [H3 _]. eapply wp_mono; [by apply wp_return_handle|]. cbn beta. intros _ k2 [? ?]. split; [done|by etrans].
Qed.

Lemma wp_CreateEvent reset t k : kernel_ok None k -> calling t k -> wp (CreateEvent reset) (fun _ k' => kernel_ok None k' /\ calm k k') k.
Proof.
  intros Hk Hc%calling_answer. unfold CreateEvent. wp_step. eapply wp_named; [done|]. intros name. wp_step.
  eapply wp_mono; [by apply wp_make_shared|]. cbn beta. intros o k1 H1. apply wp_give_handle; [apply H1|apply H1|].
  eapply answer_kept; [apply H1|by eapply same_cpu_made|done].
Qed.
Lemma wp_CreateAddressArbiter t k : kernel_ok None k -> calling t k -> wp CreateAddressArbiter (fun _ k' => kernel_ok None k' /\ calm k k') k.
Proof.
  intros Hk Hc%calling_answer. unfold CreateAddressArbiter. wp_step.
  eapply wp_mono; [by apply wp_make_shared|]. cbn beta. intros o k1 H1. apply wp_give_handle; [apply H1|apply H1|].
  eapply answer_kept; [apply H1|by eapply same_cpu_made|done].
Qed.
(** Timers have a number of their own, which only the timing knows. *)
Lemma same_timers k f : kernel_ok None k -> same_waits None k (k <| timer_manager ::= f |>).
Proof. intros Hk. apply kernel_ok_same; try done; [|apply Hk]. eapply sched_hole_eq; [|apply Hk]. by split. Qed.
Lemma wp_CreateTimer reset t k : kernel_ok None k -> calling t k -> wp (CreateTimer reset) (fun _ k' => kernel_ok None k' /\ calm k k') k.
Proof.
  intros Hk Hc%calling_answer. unfold CreateTimer. wp_step. eapply wp_named; [done|]. intros name. wp_step. unfold SyncObjects.CreateTimer. do 4 wp_step.
  match goal with |- wp _ _ ?k2 => set (k0 := k2) end. assert (H0 : same_waits None k k0) by (by apply same_timers).
  wp_step. eapply wp_mono; [apply wp_make_shared; [apply H0|done]|]. cbn beta. intros o k1 H1. do 3 wp_step.
  match goal with |- wp _ _ ?k3 => set (k2 := k3) end. assert (H2 : same_waits None k1 k2) by (apply same_timers, H1).
  assert (Hcalm : calm k k2) by (etrans; [by eapply same_waits_calm|]; etrans; [apply H1|by eapply same_waits_calm]).
  apply wp_give_handle; [apply H2|done|]. eapply answer_kept; [exact Hcalm| |done]. transitivity k1; [|by split]. transitivity k0; [by split|by eapply same_cpu_made].
Qed.
Lemma wp_CreateSemaphore initial maximum t k : kernel_ok None k -> calling t k -> wp (CreateSemaphore initial maximum) (fun _ k' => kernel_ok None k' /\ calm k k') k.
Proof.
  intros Hk Hc%calling_answer. unfold CreateSemaphore, SyncObjects.CreateSemaphore. wp_step. case_bool; [by do 2 wp_step|].
  wp_step. eapply wp_mono; [by apply wp_make_shared|]. cbn beta. intros o k1 H1. do 2 wp_step.
  assert (Ha : can_answer k1) by (eapply answer_kept; [apply H1|by eapply same_cpu_made|done]).
  eapply wp_named; [done|]. intros name. wp_step. pose proof (made_object _ _ _ _ H1) as Ho.
  eapply (wp_steady_and same_cpu); [apply kept_update|eapply (wp_acquire_update (hole := None) as_semaphore OSemaphore); [apply H1|exact Ho|done..]|].
  cbn beta. intros _ k2 H2 S2. assert (Hc2 : calm k1 k2) by (by eapply acquired_calm).
  apply wp_give_handle; [apply H2|etrans; [apply H1|done]|by eapply answer_kept].
Qed.
Lemma wp_CreateMutex initial t k : kernel_ok None k -> calling t k -> wp (CreateMutex initial) (fun _ k' => kernel_ok None k' /\ calm k k') k.
Proof.
  intros Hk Hc. pose proof (calling_answer _ _ Hc) as Ha. unfold CreateMutex, SyncObjects.CreateMutex. do 2 wp_step.
  eapply wp_mono; [by apply wp_make_shared|]. cbn beta. intros o k1 H1. wp_step.
  assert (Hlocked : wp (if negb (initial =? 0) then thread ← running_thread; Acquire o thread else mret tt) (fun _ k2 => (kernel_ok None k2 /\ calm k1 k2) /\ same_cpu k1 k2) k1).
  { destruct (negb _); [|by wp_step; split; [split; [apply H1|]|]].
    pose proof Hc as [_ (m & Hm & Hcur) _ (th & Hth & _)]. pose proof (made_current _ _ _ _ H1) as (_ & Ecpu & Eman).
    assert (Hrun : forall Q : oid -> KernelSystem D IS -> Prop, Q t k1 -> wp running_thread Q k1).
    { intros Q HQ. unfold running_thread, GetCurrentThread. do 4 wp_step. rewrite Ecpu. eapply wp_get_manager; [unfold manager_at; rewrite Eman; exact Hm|].
      wp_step. by eapply wp_deref. }
    wp_step. apply Hrun. pose proof (made_object _ _ _ _ H1) as Ho.
    eapply (wp_steady_and same_cpu); [apply kept_Acquire|apply (wp_acquire (hole := None) o t k1); [apply H1|eapply wait_object_waitable; [apply H1|exact Ho|done]| |]|].
    - unfold should_wait. by rewrite (W_lookup _ _ _ Ho).
    - pose proof (calm_kind _ _ (made_calm _ _ _ _ H1) 0 t (object_kind _ _ _ Hth)) as (x & Hx & Hkd). destruct x; try done. by eexists.
    - cbn beta. intros _ k2 (y & H2 & _) S2. split; [split; [apply H2|by eapply acquired_calm]|done]. }
  eapply wp_mono; [exact Hlocked|]. cbn beta. intros _ k2 [[Hk2 Hc2] S2]. wp_step.
  assert (Hcalm : calm k k2) by (etrans; [apply H1|done]).
  assert (Ha2 : can_answer k2) by (eapply answer_kept; [exact Hcalm|etrans; [by eapply same_cpu_made|done]|done]).
  wp_step. eapply wp_named; [done|]. intros name. wp_step.
  pose proof (calm_kind _ _ Hc2 1 o (object_kind _ _ _ (made_object _ _ _ _ H1))) as (x & Hx & Hkd)%kind_object. destruct x as [|mx| | | | | | | | | | | | |]; try done.
  eapply wp_update_any; [exact Hx|done|]. set (mx' := mx <| mutex_name := name |>).
  assert (H3 : acquired None o (erase (OMutex mx')) k2 (set_object o (OMutex mx') k2)) by (apply (acquired_mutex (hole := None) o k2 mx mx' Hk2 Hx); [by right|by left]).
  apply wp_give_handle; [apply H3|etrans; [exact Hcalm|by eapply acquired_calm]|]. eapply answer_kept; [by eapply acquired_calm|by split|done].
Qed.
End CallsMake.
