(* ===== verification/KernelSteps.v ===== *)
(** The kernel as a whole: whatever the running thread asks for, whatever timers run
    out and however the cores are rescheduled, the kernel stays valid and goes on
    (src/.../core/hle/kernel/). *)

From S2P Require Import Prelude ResultCode ResourceLimit HandleTable CoreTiming ThreadQueueList KernelState Thread Scheduler Reschedule WaitObject WaitInvariant Wakeup SyncObjects Release Process Ipc Sessions WaitSync ThreadLife MemoryRegion SvcMemory SvcObjects SvcThreads Suspend Resume StopThread Calls.

Section KernelSteps.
Context {D IS : Type} {hooks : Hooks D IS} {Hhooks : HooksOk hooks}.
Implicit Types (k : KernelSystem D IS).

(** ** Waiting *)

Definition wait_for_one_post (o t : oid) (ns : Z) k (r : result_code) k' : Prop :=
  if should_wait (W k) o t
  then r = RESULT_TIMEOUT /\ (if ns =? 0 then k' = k else suspended t [o] WaitSynchAny (Some (SVC_SyncCallback false)) k k')
  else r = RESULT_SUCCESS /\ exists y, acquired None o y k k' /\ W k' = take_at t (W k) o.
Lemma calling_in t k : calling t k -> exists th, thread_in (W k) t th.
Proof. intros [_ _ _ (th & Ht & _)]. destruct (thread_at_in _ _ _ Ht) as (th' & ? & _). by exists th'. Qed.
Lemma wp_wait_for_one o t ns k : kernel_ok None k -> calling t k -> waitable (W k) o -> wp (wait_for_one o t ns) (wait_for_one_post o t ns k) k.
Proof.
  intros Hk Hc Ho. unfold wait_for_one, wait_for_one_post. wp_step. eapply wp_mono; [by apply wp_ShouldWait|]. cbn beta. intros b k' [-> ->].
  destruct (should_wait (W k) o t) eqn:Hs.
  - destruct (ns =? 0); [by wp_step|]. destruct (calling_thread _ _ Hc) as (th & Ht & Hst). wp_step.
    eapply wp_mono; [by eapply wp_wait_one|]. cbn beta. intros _ k1 H1. by wp_step.
  - wp_step. eapply wp_mono; [apply (wp_acquire (hole := None)); [done|done|done|by eapply calling_in]|]. cbn beta. intros _ k1 H1. by wp_step.
Qed.
Lemma wp_first_available objs t i k : (forall o, o ∈ objs -> waitable (W k) o) ->
  wp (first_available i objs t) (fun r k' => k' = k /\
    match r with
    | None => forall o, o ∈ objs -> should_wait (W k) o t = true
    | Some (j, o) => exists pre post, objs = pre ++ o :: post /\ j = i + Z.of_nat (length pre) /\ should_wait (W k) o t = false /\
        forall u, u ∈ pre -> should_wait (W k) u t = true
    end) k.
Proof.
  revert i. induction objs as [|o objs IH]; intros i Hl; cbn [first_available]; [wp_step; split; [done|by intros o ?%not_elem_of_nil]|].
  wp_step. eapply wp_mono; [apply wp_ShouldWait, Hl; by left|]. cbn beta. intros b k' [-> ->]. destruct (should_wait (W k) o t) eqn:Hs.
  - eapply wp_mono; [apply IH; intros u Hu; apply Hl; by right|]. cbn beta. intros r k' [-> Hr]. split; [done|]. destruct r as [[j u]|].
    + destruct Hr as (pre & post & -> & -> & Hu & Hp). exists (o :: pre), post. split; [done|]. split; [cbn; lia|]. split; [done|].
      intros v [->|Hv]%elem_of_cons; [done|by apply Hp].
    + intros u [->|Hu]%elem_of_cons; [done|by apply Hr].
  - wp_step. split; [done|]. exists [], objs. split; [done|]. split; [cbn; lia|]. split; [done|]. by intros u ?%not_elem_of_nil.
Qed.
Definition wait_for_any_post (t : oid) (objs : list oid) (ns : Z) k (r : result_code * option Z) k' : Prop :=
  (exists pre o post y, objs = pre ++ o :: post /\ r = (RESULT_SUCCESS, Some (Z.of_nat (length pre))) /\ should_wait (W k) o t = false /\
     (forall u, u ∈ pre -> should_wait (W k) u t = true) /\ acquired None o y k k' /\ W k' = take_at t (W k) o) \/
  ((forall o, o ∈ objs -> should_wait (W k) o t = true) /\
     if ns =? 0 then r = (RESULT_TIMEOUT, None) /\ k' = k
     else r = (RESULT_TIMEOUT, Some (-1)) /\ suspended t objs WaitSynchAny (Some (SVC_SyncCallback true)) k k').
Lemma wp_wait_for_any objs t ns k : kernel_ok None k -> calling t k -> (forall o, o ∈ objs -> waitable (W k) o) ->
  wp (wait_for_any t objs ns) (wait_for_any_post t objs ns k) k.
Proof.
  intros Hk Hc Hl. unfold wait_for_any, wait_for_any_post. wp_step. eapply wp_mono; [by apply wp_first_available|]. cbn beta. intros r k' [-> Hr].
  destruct r as [[j o]|].
  - destruct Hr as (pre & post & -> & -> & Hs & Hp). wp_step.
    eapply wp_mono; [apply (wp_acquire (hole := None)); [done|apply Hl; apply elem_of_app; right; by left|done|by eapply calling_in]|].
    cbn beta. intros _ k1 (y & H1 & HW). wp_step. left. by exists pre, o, post, y.
  - destruct (ns =? 0) eqn:E; [wp_step; right; by split|]. destruct (calling_thread _ _ Hc) as (th & Ht & Hst). wp_step.
    eapply wp_mono; [by eapply (wp_suspend t th objs false)|]. cbn beta. intros _ k1 H1. wp_step. right. by split.
Qed.
Definition wait_for_all_post (t : oid) (objs : list oid) (ns : Z) k (r : result_code * option Z) k' : Prop :=
  ((forall o, o ∈ objs -> should_wait (W k) o t = false) /\ r = (RESULT_SUCCESS, None) /\ kernel_ok None k' /\ calm k k' /\ W k' = foldl (take_at t) (W k) objs) \/
  ((exists o, o ∈ objs /\ should_wait (W k) o t = true) /\
     if ns =? 0 then r = (RESULT_TIMEOUT, None) /\ k' = k
     else r = (RESULT_TIMEOUT, Some (-1)) /\ suspended t objs WaitSynchAll (Some (SVC_SyncCallback false)) k k').
Lemma some_should_wait w t (objs : list oid) : ~ (forall o, o ∈ objs -> should_wait w o t = false) -> exists o, o ∈ objs /\ should_wait w o t = true.
Proof.
  intros Hn. destruct (decide (Exists (fun o => should_wait w o t = true) objs)) as [He%Exists_exists|He]; [done|].
  apply Forall_Exists_neg in He. rewrite Forall_forall in He. destruct Hn. intros o Ho. specialize (He o Ho). by apply not_true_is_false.
Qed.
Lemma wp_wait_for_all objs t ns k : kernel_ok None k -> calling t k -> NoDup objs -> (forall o, o ∈ objs -> waitable (W k) o) ->
  wp (wait_for_all t objs ns) (wait_for_all_post t objs ns k) k.
Proof.
  intros Hk Hc Hnd Hl. unfold wait_for_all, wait_for_all_post. wp_step. eapply wp_mono; [by apply wp_none_should_wait|]. cbn beta. intros b k' [-> Hb].
  destruct b.
  - assert (Hall : forall o, o ∈ objs -> should_wait (W k) o t = false) by (by apply Hb). wp_step.
    eapply wp_mono; [apply (wp_acquire_all (hole := None)); [done|done|by auto|by eapply calling_in]|]. cbn beta. intros _ k1 (H1 & H2 & H3 & _). wp_step. left. by split_and!.
  - assert (He : exists o, o ∈ objs /\ should_wait (W k) o t = true) by (apply some_should_wait; intros H%Hb; done).
    destruct (ns =? 0) eqn:E; [wp_step; right; by split|]. destruct (calling_thread _ _ Hc) as (th & Ht & Hst). wp_step.
    eapply wp_mono; [by eapply (wp_suspend t th objs true)|]. cbn beta. intros _ k1 H1. wp_step. right. by split.
Qed.
Lemma wp_WaitSynchronization1 h ns t k : kernel_ok None k -> calling t k -> wp (WaitSynchronization1 h ns) (fun _ k' => kernel_ok None k') k.
Proof.
  intros Hk Hc. unfold WaitSynchronization1. wp_step. eapply wp_get_handle; [exact Hc|by wp_step|]. intros o x a Hx Ha. wp_step.
  eapply wp_running_thread; [exact Hc|]. unfold as_wait_object in Ha. destruct (IsWaitable x) eqn:Hw; [|done].
  eapply wp_mono; [apply wp_wait_for_one; [done|done|by eapply wait_object_waitable]|]. cbn beta. unfold wait_for_one_post. intros r k'.
  destruct (should_wait _ _ _); [destruct (ns =? 0); [by intros [_ ->]|intros [_ H]; apply H]|]. intros (_ & y & H & _). apply H.
Qed.

(** ** Sleeping, priorities and the end *)

Lemma wp_HaveReadyThreads c m k (Q : bool -> KernelSystem D IS -> Prop) : sched_ok k -> manager_at c m k -> (forall b, Q b k) -> wp (HaveReadyThreads c) Q k.
Proof.
  intros Hk Hm HQ. unfold HaveReadyThreads. wp_step. eapply wp_get_manager; [exact Hm|].
  destruct (manager_queue _ _ _ _ (sched_managers _ _ Hk c _ (mv_manager _ _ _ Hm))) as [[l Hwf] _ _ _].
  unfold get_first. rewrite (get_first_loop_scan _ _ _ l); [by wp_step|apply Hwf|by apply wf_length].
Qed.
(** The caller sleeps; its timer will wake it up. *)
Definition asleep (t : oid) (st : ThreadStatus) k k' : Prop :=
  kernel_ok None k' /\ waiters k' = waiters k /\ exists th, thread_at t th k' /\ status th = st.
Lemma wp_SleepThread ns t k : kernel_ok None k -> calling t k -> wp (SleepThread ns) (fun _ k' => (k' = k /\ ns = 0) \/ asleep t WaitSleep k k') k.
Proof.
  intros Hk Hc. pose proof Hc as [_ (m & Hm & Hcur) _ (th & Ht & Hst)]. unfold SleepThread. do 2 wp_step. cbv zeta.
  assert (Hr : forall Q : bool -> KernelSystem D IS -> Prop, (forall b, (ns =? 0) = true \/ b = true -> Q b k) -> wp (if ns =? 0 then HaveReadyThreads (current_cpu k) else mret true) Q k).
  { intros Q HQ. destruct (ns =? 0) eqn:E; [eapply wp_HaveReadyThreads; [apply Hk|exact Hm|intros b; apply HQ; by left]|wp_step; apply HQ; by right]. }
  wp_step. apply Hr. intros b Hb. destruct b; cbn [negb]; [|wp_step; left; split; [done|destruct Hb as [Hb%Z.eqb_eq|Hb]; [done|done]]].
  unfold WaitCurrentThread_Sleep, GetCurrentThread. wp_step. wp_step. wp_step. eapply wp_get_manager; [exact Hm|]. wp_step. wp_step. eapply wp_deref; [exact Hcur|].
  eapply wp_update_thread; [exact Ht|]. set (th1 := th <| status := WaitSleep |>). set (k1 := set_thread t th1 k).
  assert (Hk1 : kernel_ok None k1).
  { eapply kernel_set_thread; [done|exact Ht| |done|by rewrite Hst|done| |by apply mutexes_of_same].
    - eapply sched_set_thread; [apply Hk|exact Ht|done|by rewrite Hst|done|done].
    - pose proof (callback_at _ _ _ _ Hk Ht) as [G1 G2]. split; cbn; [|by intros [?|?]]. by rewrite G2 by auto. }
  wp_step. unfold running_thread, GetCurrentThread. do 4 wp_step. eapply wp_get_manager; [exact Hm|]. wp_step. eapply wp_deref; [exact Hcur|].
  wp_step. eapply wp_mono; [eapply wp_WakeAfterDelay; [exact Hk1|apply thread_at_set; by left]|]. cbn beta. intros _ k2 S2. unfold PrepareReschedule. wp_step.
  right. assert (S3 : same_waits None k1 (k2 <| reschedule_pending := true |>)) by (eapply same_waits_trans; [exact S2|apply same_waits_reschedule, S2]).
  split; [apply S3|]. split; [by rewrite (same_waiters _ _ S3)|].
  assert (Ht1 : W k1 !! t = Some (erase (OThread th1))) by (apply (W_lookup k1 t (OThread th1)), thread_at_set; by left).
  rewrite <- (same_W _ _ S3) in Ht1. destruct (frozen_at _ _ _ Ht1) as (th2 & Ht2 & F). exists th2. split; [exact Ht2|apply F].
Qed.

Lemma wp_change_priority t p th k : kernel_ok None k -> thread_at t th k -> prio_ok p -> wp (change_priority t p) (fun r k' => r = RESULT_SUCCESS /\ same_waits None k k') k.
Proof.
  intros Hk Ht Hp. unfold change_priority. wp_step. eapply wp_SetPriority; [apply Hk|exact Ht|done|]. cbv zeta. intros q Hs.
  set (th1 := th <| nominal_priority := p |> <| current_priority := p |>) in *. set (k1 := set_thread t th1 _) in *.
  assert (S1 : same_waits None k k1).
  { apply (same_base_same (hole := None)); [done|]. eapply same_base_thread; [by eapply kernel_base|exact Ht|done|by apply mutexes_of_same|exact Hs]. }
  assert (Ht1 : thread_at t th1 k1) by (apply thread_at_set; by left).
  wp_step. eapply wp_mono; [eapply wp_UpdatePriority; [apply S1|exact Ht1]|]. cbn beta. intros _ k2 S2.
  destruct (same_waits_at _ _ _ _ S2 Ht1) as (th2 & Ht2). wp_step. eapply wp_get_thread; [exact Ht2|]. wp_step.
  eapply wp_mono; [apply (wp_for_each (fun k' => same_waits None k2 k')); [apply same_waits_refl, S2|]|].
  - intros m k' Hm Hk'. destruct (pending_mutex _ (kernel_held _ (same_ok _ _ S2)) t th2 m Ht2 Hm) as (mx & Hmx).
    assert (has_kind 1 (W k') m) as (x & Hx & Hkd)%kind_object by (rewrite (same_W _ _ Hk'); exact (object_kind _ _ _ Hmx)). destruct x; try done.
    eapply wp_mono; [eapply wp_Mutex_UpdatePriority; [apply Hk'|exact Hx]|]. cbn beta. intros _ k'' H''. by eapply same_waits_trans.
  - cbn beta. intros _ k3 S3. unfold PrepareReschedule. do 2 wp_step. wp_step. split; [done|]. eapply same_waits_trans; [exact S1|]. eapply same_waits_trans; [exact S2|].
    eapply same_waits_trans; [exact S3|]. apply same_waits_reschedule, S3.
Qed.
Lemma wp_ExitThread t th k : kernel_ok None k -> calling t k -> thread_at t th k -> tls_allocated k th ->
  wp ExitThread (fun _ k' => exists k1, stopped t th k k1 /\ kernel_ok None k' /\ W k' = W k1 /\ waiters k' = waiters k1) k.
Proof.
  intros Hk Hc Ht Htls. pose proof Hc as [_ (m & Hm & Hcur) _ (th' & Ht' & Hst)]. assert (th' = th) as -> by (by eapply thread_at_fun).
  assert (Hself : t ∉ waiters k t).
  { intros Hin. destruct (waiter_ok _ _ (kernel_waits _ Hk) t t Hin) as (u & Hu & Hs & _); [done|]. pose proof (W_lookup _ _ _ Ht) as Hw.
    unfold thread_in in Hu. rewrite Hu in Hw. injection Hw as ->. cbn in Hs. by rewrite Hst in Hs. }
  assert (Hcore : core_id th = current_cpu k).
  { destruct (manager_current _ _ _ _ (sched_managers _ _ (kernel_sched _ Hk) _ _ (mv_manager _ _ _ Hm)) t Hcur) as (v & Hv & Hvc).
    rewrite (tv_thread _ _ _ Ht) in Hv. by injection Hv as <-. }
  unfold ExitThread, ExitCurrentThread, GetCurrentThread. do 3 wp_step. wp_step. wp_step. eapply wp_get_manager; [exact Hm|]. wp_step. wp_step.
  eapply wp_deref; [exact Hcur|]. wp_step. eapply wp_mono; [by eapply wp_Stop|]. cbn beta. intros _ k1 H1.
  pose proof (stopped_thread _ _ _ _ H1) as (th1 & Ht1 & _ & _ & _ & Ec). pose proof (kernel_sched _ (stopped_ok _ _ _ _ H1)) as Hs1.
  destruct (sched_thread _ _ _ _ Hs1 Ht1) as (m1 & Hm1 & _). rewrite Ec, Hcore in Hm1.
  eapply wp_manager_op; [exact Hm1|]. wp_step. unfold PrepareReschedule. wp_step. match goal with |- ex (fun _ => _ /\ kernel_ok None ?k3 /\ _) => set (k2 := k3) end.
  assert (S2 : same_waits None k1 k2).
  { apply kernel_ok_same; [apply H1| |done|done|apply (stopped_ok _ _ _ _ H1)]. eapply sched_hole_eq; [|exact Hs1].
    transitivity (set_manager (current_cpu k) (m1 <| thread_list ::= filter (fun u => u <> t) |>) k1); [by eapply sched_eq_manager|by split]. }
  exists k1. split; [done|]. split; [apply S2|]. split; [apply S2|apply S2].
Qed.

(** ** The steps *)

Lemma wp_SetThreadPriority h p t k : kernel_ok None k -> calling t k -> 0 <= p -> (forall c, is_Some (resource_limits k !! category_index c)) ->
  wp (SetThreadPriority h p) (fun _ k' => kernel_ok None k') k.
Proof.
  intros Hk Hc Hp Hl. unfold SetThreadPriority. case_bool; [by wp_step|]. eapply wp_with_object; [exact Hc|done|]. intros o x th Hx Ha. casts x.
  wp_step. eapply wp_current; [exact Hc|]. intros process pr Hpr _. unfold max_priority_value, limit_of. wp_step. wp_step. eapply wp_get_object; [exact Hpr|done|].
  wp_step. wp_step. wp_step. destruct (Hl (resource_limit pr)) as [l Hlim]. eapply wp_deref; [exact Hlim|]. wp_step. case_bool; [by wp_step|].
  eapply wp_mono; [eapply wp_change_priority; [done|exact Hx|unfold prio_ok; lia]|]. cbn beta. intros _ k' [_ Hs]. apply Hs.
Qed.
(** What the running thread may ask for, and what the emulator does between. *)
Inductive kernel_op :=
  | CallSignalEvent (h : Handle) | CallClearEvent (h : Handle) | CallReleaseMutex (h : Handle) | CallReleaseSemaphore (h : Handle) (count : Z)
  | CallSetTimer (h : Handle) (initial interval : Z) | CallCancelTimer (h : Handle) | CallClearTimer (h : Handle)
  | CallDuplicateHandle (h : Handle) | CallCloseHandle (h : Handle)
  | CallCreateEvent (reset : Z) | CallCreateTimer (reset : Z) | CallCreateMutex (locked : Z) | CallCreateSemaphore (initial maximum : Z) | CallCreateAddressArbiter
  | CallWaitSynchronization1 (h : Handle) (ns : Z) | WaitForObjects (objs : list oid) (all : bool) (ns : Z) | CallSleepThread (ns : Z)
  | CallSetThreadPriority (h : Handle) (p : Z) | CallExitThread
  | RunReschedule (core : nat) | RunThreadTimer (core : nat) (id late : Z) | RunTimer (id late : Z).
Definition ignore {A} (m : M (KernelSystem D IS) A) : M (KernelSystem D IS) unit := _ ← m; mret tt.
Definition run (o : kernel_op) : M (KernelSystem D IS) unit :=
  match o with
  | CallSignalEvent h => ignore (SignalEvent h)
  | CallClearEvent h => ignore (ClearEvent h)
  | CallReleaseMutex h => ignore (ReleaseMutex h)
  | CallReleaseSemaphore h n => ignore (ReleaseSemaphore h n)
  | CallSetTimer h i j => ignore (SetTimer h i j)
  | CallCancelTimer h => ignore (CancelTimer h)
  | CallClearTimer h => ignore (ClearTimer h)
  | CallDuplicateHandle h => ignore (DuplicateHandle h)
  | CallCloseHandle h => ignore (CloseHandle h)
  | CallCreateEvent r => ignore (CreateEvent r)
  | CallCreateTimer r => ignore (CreateTimer r)
  | CallCreateMutex l => ignore (CreateMutex l)
  | CallCreateSemaphore i m => ignore (CreateSemaphore i m)
  | CallCreateAddressArbiter => ignore CreateAddressArbiter
  | CallWaitSynchronization1 h ns => ignore (WaitSynchronization1 h ns)
  | WaitForObjects objs all ns => thread ← running_thread; ignore (if all then wait_for_all thread objs ns else wait_for_any thread objs ns)
  | CallSleepThread ns => SleepThread ns
  | CallSetThreadPriority h p => ignore (SetThreadPriority h p)
  | CallExitThread => ExitThread
  | RunReschedule core => Reschedule core
  | RunThreadTimer core id late => ThreadWakeupCallback core id late
  | RunTimer id late => TimerCallback id late
  end.
(** When a step can happen: calls are made by a running thread; timers run out for
    threads and timers that exist. *)
Definition enabled (o : kernel_op) k : Prop :=
  match o with
  | RunReschedule core => exists m, manager_at core m k
  | RunThreadTimer core id _ => exists m t th, manager_at core m k /\ wakeup_callback_table m !! id = Some t /\ thread_at t th k /\ timeout_ok k th
  | RunTimer id _ => exists o tm, timer_callback_table (timer_manager k) !! id = Some o /\ objects k !! o = Some (OTimer tm)
  | WaitForObjects objs all _ => (exists t, calling t k) /\ (all = true -> NoDup objs) /\
      forall o, o ∈ objs -> exists x, objects k !! o = Some x /\ IsWaitable x = true
  | CallSetThreadPriority _ p => (exists t, calling t k) /\ 0 <= p /\ forall c, is_Some (resource_limits k !! category_index c)
  | CallExitThread => exists t th, calling t k /\ thread_at t th k /\ tls_allocated k th
  | _ => exists t, calling t k
  end.
Lemma wp_ignore {A} (m : M (KernelSystem D IS) A) k : wp m (fun _ k' => kernel_ok None k') k -> wp (ignore m) (fun _ k' => kernel_ok None k') k.
Proof. intros Hm. unfold ignore. wp_step. eapply wp_mono; [exact Hm|]. cbn beta. intros a k' H. by wp_step. Qed.
Lemma wp_ignore_calm {A} (m : M (KernelSystem D IS) A) k : wp m (fun _ k' => kernel_ok None k' /\ calm k k') k -> wp (ignore m) (fun _ k' => kernel_ok None k') k.
Proof. intros Hm. apply wp_ignore. eapply wp_mono; [exact Hm|]. by intros a k' [? _]. Qed.

Lemma wp_wait_for_objects objs all ns t k : kernel_ok None k -> calling t k -> (all = true -> NoDup objs) -> (forall o, o ∈ objs -> waitable (W k) o) ->
  wp (if all then wait_for_all t objs ns else wait_for_any t objs ns) (fun _ k' => kernel_ok None k') k.
Proof.
  intros Hk Hc Hnd Hl. destruct all.
  - eapply wp_mono; [by apply wp_wait_for_all; auto|]. intros r k' [(_ & _ & H & _)|(_ & H)]; [done|]. destruct (ns =? 0); [by destruct H as [_ ->]|apply H].
  - eapply wp_mono; [by apply wp_wait_for_any|]. intros r k' [(pre & o & post & y & _ & _ & _ & _ & H & _)|(_ & H)]; [apply H|].
    destruct (ns =? 0); [by destruct H as [_ ->]|apply H].
Qed.
Lemma wp_ThreadWakeupCallback core id late m t th k : kernel_ok None k -> manager_at core m k -> wakeup_callback_table m !! id = Some t -> thread_at t th k ->
  timeout_ok k th -> wp (ThreadWakeupCallback core id late) (fun _ k' => timed_out t th k k') k.
Proof.
  intros Hk Hm Hid Ht Hto. unfold ThreadWakeupCallback. wp_step. eapply wp_get_manager; [exact Hm|]. wp_step. eapply wp_deref; [exact Hid|]. by apply wp_wake_by_timeout.
Qed.
Tactic Notation "calls" uconstr(lemma) := intros [? ?]; apply wp_ignore_calm; by eapply lemma.
Lemma wp_run o k : kernel_ok None k -> enabled o k -> wp (run o) (fun _ k' => kernel_ok None k') k.
Proof.
  intros Hk. destruct o; cbn [run enabled].
  - calls wp_SignalEvent.
  - calls wp_ClearEvent.
  - calls wp_ReleaseMutex.
  - calls wp_ReleaseSemaphore.
  - calls wp_SetTimer.
  - calls wp_CancelTimer.
  - calls wp_ClearTimer.
  - calls wp_DuplicateHandle.
  - calls wp_CloseHandle.
  - calls wp_CreateEvent.
  - calls wp_CreateTimer.
  - calls wp_CreateMutex.
  - calls wp_CreateSemaphore.
  - calls wp_CreateAddressArbiter.
  - intros [t Hc]. apply wp_ignore. by eapply wp_WaitSynchronization1.
  - intros ([t Hc] & Hnd & Hl). wp_step. eapply wp_running_thread; [exact Hc|]. apply wp_ignore, wp_wait_for_objects; [done|done|done|].
    intros o Ho. destruct (Hl o Ho) as (x & Hx & Hw). by eapply wait_object_waitable.
  - intros [t Hc]. eapply wp_mono; [by eapply wp_SleepThread|]. intros _ k' [[-> _]|[H _]]; done.
  - intros ([t Hc] & Hp & Hlim). apply wp_ignore. by eapply wp_SetThreadPriority.
  - intros (t & th & Hc & Ht & Htls). eapply wp_mono; [by eapply wp_ExitThread|]. by intros _ k' (k1 & _ & H & _).
  - intros [m Hm]. eapply wp_mono; [by apply wp_kernel_Reschedule|]. by intros _ k' [[H _] _].
  - intros (m & t & th & Hm & Hid & Ht & Hto). eapply wp_mono; [by eapply wp_ThreadWakeupCallback|]. by intros _ k' [H _].
  - intros (o & tm & Hid & Ho). unfold TimerCallback. do 2 wp_step. wp_step. eapply wp_deref; [exact Hid|].
    eapply wp_mono; [by eapply (wp_Timer_Signal (hole := None))|]. by intros _ k' [H _].
Qed.
(** The states the steps lead to. *)
Inductive leads_to : KernelSystem D IS -> KernelSystem D IS -> Prop :=
  | leads_here k : leads_to k k
  | leads_on o k1 k2 k3 : enabled o k1 -> run o k1 = Ret (tt, k2) -> leads_to k2 k3 -> leads_to k1 k3.
End KernelSteps.

