(* ===== verification/SyncSpecs.v ===== *)
(** What the operations on the objects threads wait for promise: releasing, waiting,
    time-outs and the end of a thread, on every branch
    (src/.../core/hle/kernel/{mutex,semaphore,thread,svc}.cpp). *)

From S2P Require Import Prelude ResultCode HandleTable CoreTiming ThreadQueueList KernelState Thread Scheduler Reschedule WaitObject WaitInvariant Wakeup SyncObjects Release Process Ipc Sessions WaitSync ThreadLife MemoryRegion SvcMemory SvcObjects SvcThreads Suspend Resume StopThread Calls KernelSteps.




(** Waiting for one object, by the running thread: an object that is available is
    acquired at once; otherwise the call answers that the time is over, after nothing
    at all when the delay is zero, and otherwise with the thread on the list of the
    object, and of no other. *)
Theorem wait_for_one_spec {D IS} (hooks : Hooks D IS) (Hhooks : HooksOk hooks) o t ns (k : KernelSystem D IS) :
  kernel_ok None k -> calling t k -> waitable (W k) o ->
  wp (wait_for_one o t ns) (fun r k' =>
    if should_wait (W k) o t
    then r = RESULT_TIMEOUT /\ (if ns =? 0 then k' = k else suspended t [o] WaitSynchAny (Some (SVC_SyncCallback false)) k k')
    else r = RESULT_SUCCESS /\ exists y, acquired None o y k k' /\ W k' = take_at t (W k) o) k.
Proof. intros Hk Hc Ho. by apply wp_wait_for_one. Qed.

(** C10: waiting for any of several objects: the first that is available is acquired, and
    only that one, and its index is the output; when none is, the thread joins the
    lists of all of them, or the call ends at once if the delay is zero. *)
Theorem wait_for_any_spec {D IS} (hooks : Hooks D IS) (Hhooks : HooksOk hooks) objs t ns (k : KernelSystem D IS) :
  kernel_ok None k -> calling t k -> (forall o, o ∈ objs -> waitable (W k) o) ->
  wp (wait_for_any t objs ns) (fun r k' =>
    (exists pre o post y, objs = pre ++ o :: post /\ r = (RESULT_SUCCESS, Some (Z.of_nat (length pre))) /\ should_wait (W k) o t = false /\
       (forall u, u ∈ pre -> should_wait (W k) u t = true) /\ acquired None o y k k' /\ W k' = take_at t (W k) o) \/
    ((forall o, o ∈ objs -> should_wait (W k) o t = true) /\
       if ns =? 0 then r = (RESULT_TIMEOUT, None) /\ k' = k
       else r = (RESULT_TIMEOUT, Some (-1)) /\ suspended t objs WaitSynchAny (Some (SVC_SyncCallback true)) k k')) k.
Proof. intros Hk Hc Ho. by apply wp_wait_for_any. Qed.

(** C28: waiting for all of several different objects: they are acquired, all of them and
    in order, when every one is available, and none of them otherwise. *)
Theorem wait_for_all_spec {D IS} (hooks : Hooks D IS) (Hhooks : HooksOk hooks) objs t ns (k : KernelSystem D IS) :
  kernel_ok None k -> calling t k -> NoDup objs -> (forall o, o ∈ objs -> waitable (W k) o) ->
  wp (wait_for_all t objs ns) (fun r k' =>
    ((forall o, o ∈ objs -> should_wait (W k) o t = false) /\ r = (RESULT_SUCCESS, None) /\ kernel_ok None k' /\ calm k k' /\ W k' = foldl (take_at t) (W k) objs) \/
    ((exists o, o ∈ objs /\ should_wait (W k) o t = true) /\
       if ns =? 0 then r = (RESULT_TIMEOUT, None) /\ k' = k
       else r = (RESULT_TIMEOUT, Some (-1)) /\ suspended t objs WaitSynchAll (Some (SVC_SyncCallback false)) k k')) k.
Proof. intros Hk Hc Hnd Ho. by apply wp_wait_for_all. Qed.

(** A thread whose time is over is ready afterwards, on no list, whatever it waited
    for; one that was woken up before stays as it is. *)
Theorem wake_by_timeout_spec {D IS} (hooks : Hooks D IS) (Hhooks : HooksOk hooks) t th (k : KernelSystem D IS) :
  kernel_ok None k -> thread_at t th k -> timeout_ok k th ->
  wp (wake_by_timeout t) (fun _ k' => kernel_ok None k' /\ calm k k' /\
    (waiting (status th) = true -> is_ready (W k') t /\ forall o, t ∉ waiters k' o)) k.
Proof.
  intros Hk Ht Hto. eapply wp_mono; [by apply wp_wake_by_timeout|]. cbn beta. intros _ k' (H1 & H2 & H3). split; [done|]. split; [done|].
  intros Hw. destruct (H3 Hw) as [_ _ R (th' & Ht' & Hst & _)]. split; [|exact R].
  destruct (thread_at_in _ _ _ Ht') as (th2 & Hth2 & E). exists th2. split; [done|]. cbn in E. injection E as ->. done.
Qed.


(** ** Witnesses *)

Lemma demo_calling : calling 10 demo_kernel.
Proof.
  split.
  - exists 1. split; [done|]. by exists demo_process.
  - by exists demo_manager.
  - by exists demo_manager, 0.
  - by exists (demo_thread Running 50 true).
Qed.
(** The small kernel with another object. *)
Definition demo_with (x : Object) : KernelSystem unit unit :=
  match make_shared x demo_kernel with Ret (_, k) => k | Crash _ => demo_kernel end.
Lemma demo_with_ok x : fresh_object x -> kernel_ok None (demo_with x).
Proof.
  intros Hx. pose proof (wp_make_shared x demo_kernel demo_kernel_waits Hx) as H. exact (made_ok _ _ _ _ H).
Qed.
Definition demo_mutex : Mutex := mkMutex 0 0 "mutex" None.
Definition demo_semaphore : Semaphore := mkSemaphore 3 1 "semaphore".
Lemma wait_for_one_spec_witness : exists k', wait_for_one 20 10 5 demo_kernel = Ret (RESULT_SUCCESS, k') /\ kernel_ok None k'.
Proof.
  destruct (wp_inv _ _ _ (wait_for_one_spec demo_hooks demo_hooks_ok 20 10 5 demo_kernel demo_kernel_waits demo_calling demo_event_waitable)) as (r & k' & He & Hr).
  exists k'. change (should_wait (W demo_kernel) 20 10) with false in Hr. destruct Hr as (-> & y & Hy & _). split; [exact He|apply Hy].
Defined.
Lemma demo_objs o : o ∈ [20] -> waitable (W demo_kernel) o.
Proof. intros ->%list_elem_of_singleton. exact demo_event_waitable. Qed.
Lemma wait_for_any_spec_witness : exists k', wait_for_any 10 [20] 5 demo_kernel = Ret ((RESULT_SUCCESS, Some 0), k') /\ kernel_ok None k'.
Proof.
  destruct (wp_inv _ _ _ (wait_for_any_spec demo_hooks demo_hooks_ok [20] 10 5 demo_kernel demo_kernel_waits demo_calling demo_objs)) as (r & k' & He & Hr).
  exists k'. destruct Hr as [(pre & o & post & y & Heq & -> & _ & _ & Ha & _)|(Hn & _)].
  - destruct pre as [|? [|? pre]]; [|done..]. split; [exact He|apply Ha].
  - specialize (Hn 20 ltac:(by left)). done.
Defined.
Lemma wait_for_all_spec_witness : exists k', wait_for_all 10 [20] 5 demo_kernel = Ret ((RESULT_SUCCESS, None), k') /\ kernel_ok None k'.
Proof.
  destruct (wp_inv _ _ _ (wait_for_all_spec demo_hooks demo_hooks_ok [20] 10 5 demo_kernel demo_kernel_waits demo_calling (NoDup_singleton 20) demo_objs)) as (r & k' & He & Hr).
  exists k'. destruct Hr as [(_ & -> & Hk & _)|((o & Ho & Hs) & _)]; [by split|].
  apply list_elem_of_singleton in Ho as ->. done.
Defined.
Lemma wake_by_timeout_spec_witness : exists k', wake_by_timeout 13 demo_kernel = Ret (tt, k') /\ is_ready (W k') 13 /\ 13 ∉ waiters k' 20.
Proof.
  destruct (wp_inv _ _ _ (wake_by_timeout_spec demo_hooks demo_hooks_ok 13 ((demo_thread WaitSynchAny 40 true) <| wait_objects := [20] |> <| wakeup_callback := Some (SVC_SyncCallback true) |>)
    demo_kernel demo_kernel_waits eq_refl I)) as ([] & k' & He & _ & _ & Hr).
  exists k'. split; [exact He|]. destruct (Hr eq_refl) as [H1 H2]. split; [exact H1|apply H2].
Defined.
Lemma demo_tls st p can : tls_allocated demo_kernel (demo_thread st p can).
Proof. intros o [= <-]. exists demo_process, (replicate 8 true). split; [done|]. split; [done|]. apply Nat.ltb_lt. reflexivity. Qed.
