(* ===== verification/HleIpc.v ===== *)
(** Requests to services the emulator implements (src/.../core/hle/kernel/hle_ipc.{h,cpp}
    and the first part of server_session.cpp): the context of a request, how it is
    filled from the command buffer of a client and written back to it, and a client
    that sleeps until its request is done. *)

From S2P Require Import Prelude ResultCode ThreadQueueList HandleTable MemoryMap ResourceLimit IntervalSet MemoryRegion Memory MemoryAccess VmManager CoreTiming KernelState Thread WaitObject SyncObjects ThreadLife Process Ipc Sessions.

(** ** State outside the kernel

    Contexts and services are objects of the host; the part [X] of its state is
    reached through the state of the devices. *)
Class Holds (D X : Type) := { held : D -> X; hold : X -> D -> D }.
Class HoldsLaws (D X : Type) `{Holds D X} : Prop := {
  held_hold x d : held (hold x d) = x;
  hold_held d : hold (held d) d = d;
}.
#[export] Instance holds_fst A B : Holds (A * B) A := {| held := fst; hold x d := (x, d.2) |}.
#[export] Instance holds_fst_laws A B : HoldsLaws (A * B) A.
Proof. by split; [|intros []]. Qed.
#[export] Instance holds_snd A B X `{Holds B X} : Holds (A * B) X := {| held d := held d.2; hold x d := (d.1, hold x d.2) |}.
#[export] Instance holds_snd_laws A B X `{HoldsLaws B X} : HoldsLaws (A * B) X.
Proof. split; [intros x [a b]; exact (held_hold x b)|intros [a b]; unfold hold, held; cbn; f_equal; exact (hold_held b)]. Qed.

(** ** Contexts *)

Definition MAX_STATIC_BUFFERS : Z := 16.
Definition MappedBufferPermissions_W : Z := 2.
(** [Kernel::MappedBuffer] *)
Record HleMappedBuffer := mkHleMappedBuffer { buffer_id : Z; buffer_address : VAddr; buffer_process : oid; buffer_size_of : Z; buffer_perms : Z }.
Definition new_mapped_buffer (process : oid) (descriptor : Z) (address : VAddr) (id : Z) : HleMappedBuffer :=
  mkHleMappedBuffer id address process (mapped_buffer_desc_size descriptor) (mapped_buffer_perms descriptor).
Definition GenerateDescriptor (b : HleMappedBuffer) : Z := MappedBufferDesc (buffer_size_of b) (buffer_perms b).

Record HLERequestContext := mkHLERequestContext {
  cmd_buf : list Z;
  ctx_session : oid;
  ctx_thread : oid;
  request_handles : list (option oid);
  static_buffers : list (list Z);
  request_mapped_buffers : list HleMappedBuffer;
}.
#[export] Instance eta_HLERequestContext : Eta HLERequestContext := fun c =>
  mkHLERequestContext (cmd_buf c) (ctx_session c) (ctx_thread c) (request_handles c) (static_buffers c) (request_mapped_buffers c).

(** [HLERequestContext::ThreadCallback] *)
Record ThreadCallback := mkThreadCallback { callback_context : Z; service_callback : option Z }.
(** [SessionRequestHandler::SessionInfo]; the data of a session is known by its address. *)
Record SessionInfo := mkSessionInfo { info_session : oid; info_data : Z }.

(** The contexts and callbacks that exist, by address, and the connected sessions of
    every handler; [scratch] is what the memory of a new context holds. *)
Record Requests := mkRequests {
  contexts_table : gmap Z HLERequestContext;
  thread_callbacks : gmap Z ThreadCallback;
  connected_sessions : gmap Z (list SessionInfo);
  next_request : Z;
  scratch : list Z;
}.
#[export] Instance eta_Requests : Eta Requests := fun r =>
  mkRequests (contexts_table r) (thread_callbacks r) (connected_sessions r) (next_request r) (scratch r).

Section Context_.
Abbreviation M := (M HLERequestContext).
Implicit Types (c : HLERequestContext).

(** The constructor: only the header is initialised. *)
Definition new_HLERequestContext (session thread : oid) (scratch : list Z) : HLERequestContext :=
  mkHLERequestContext (<[0%nat := 0]> (resize (Z.to_nat COMMAND_BUFFER_LENGTH) 0 scratch)) session thread [] (replicate (Z.to_nat MAX_STATIC_BUFFERS) []) [].

Definition GetIncomingHandle (id_from_cmdbuf : Z) : M (option oid) :=
  c ← get;
  ASSERT (id_from_cmdbuf <? Z.of_nat (length (request_handles c)));;
  deref (request_handles c !! Z.to_nat id_from_cmdbuf).
Definition AddOutgoingHandle (object : option oid) : M Z :=
  modify (fun c => c <| request_handles ::= fun l => l ++ [object] |>);;
  c ← get;
  mret (u32 (Z.of_nat (length (request_handles c)) - 1)).
Definition ClearIncomingObjects : M unit := modify (fun c => c <| request_handles := [] |>).
Definition GetStaticBuffer (buffer_id : Z) : M (list Z) := c ← get; deref (static_buffers c !! Z.to_nat buffer_id).
Definition AddStaticBuffer (buffer_id : Z) (data : list Z) : M unit :=
  c ← get;
  _ ← deref (static_buffers c !! Z.to_nat buffer_id);
  modify (fun c => c <| static_buffers ::= <[Z.to_nat buffer_id := data]> |>).
Definition GetMappedBuffer (id_from_cmdbuf : Z) : M HleMappedBuffer :=
  c ← get;
  ASSERT (id_from_cmdbuf <? Z.of_nat (length (request_mapped_buffers c)));;
  deref (request_mapped_buffers c !! Z.to_nat id_from_cmdbuf).

(** The array of the context, and arrays of the caller *)
Definition array_get {S} (l : list Z) (i : nat) : Prelude.M S Z := deref (l !! i).
Definition array_set {S} (l : list Z) (i : nat) (v : Z) : Prelude.M S (list Z) :=
  if bool_decide (i < length l)%nat then mret (<[i := v]> l) else crash UndefinedBehaviour.
Definition cmd_get (i : nat) : M Z := c ← get; array_get (cmd_buf c) i.
Definition cmd_set (i : nat) (v : Z) : M unit := c ← get; l ← array_set (cmd_buf c) i v; modify (fun c => c <| cmd_buf := l |>).
(** [std::copy_n] between arrays *)
Definition copy_n {S} (n : nat) (src dst : list Z) : Prelude.M S (list Z) :=
  if bool_decide (n <= length src)%nat && bool_decide (n <= length dst)%nat then mret (firstn n src ++ skipn n dst) else crash UndefinedBehaviour.
End Context_.

(** What services do: handling a request in a context, resuming a client that slept,
    and making the data of a session. *)
Class ServiceHandlers (D IS : Type) := {
  run_handler : forall (handler context : Z), M (KernelSystem D IS) unit;
  run_callback : forall (callback : Z) (thread : oid) (context : Z) (reason : ThreadWakeupReason), M (KernelSystem D IS) unit;
  MakeSessionData : forall (handler : Z), M (KernelSystem D IS) Z;
}.

Section HleIpc.
Context `{Host} {D IS : Type} `{Devices D} {ops : IntervalSetOps IS} {hooks : Hooks D IS} `{Holds D Requests}.
Abbreviation M := (M (KernelSystem D IS)).
Implicit Types (src_cmdbuf dst_cmdbuf : list Z).

Definition host_op {X A} `{Holds D X} (m : Prelude.M X A) : M A :=
  memory_op (zoom devices (fun d s => s <| devices := d |>) (zoom held hold m)).
Definition ctx_op {A} (c : Z) (m : Prelude.M HLERequestContext A) : M A :=
  host_op (fun r : Requests =>
    match contexts_table r !! c with
    | None => Crash UndefinedBehaviour
    | Some x => match m x with Ret (a, x') => Ret (a, r <| contexts_table ::= <[c := x']> |>) | Crash f => Crash f end
    end).
Definition make_context (session thread : oid) : M Z :=
  host_op (fun r : Requests => Ret (next_request r,
    r <| contexts_table ::= <[next_request r := new_HLERequestContext session thread (scratch r)]> |> <| next_request ::= fun n => n + 1 |>)).
Definition make_callback (c : Z) (callback : option Z) : M Z :=
  host_op (fun r : Requests => Ret (next_request r,
    r <| thread_callbacks ::= <[next_request r := mkThreadCallback c callback]> |> <| next_request ::= fun n => n + 1 |>)).

(** ** Mapped buffers *)

(** [MappedBuffer::Read], [MappedBuffer::Write] *)
Definition MappedBuffer_Read (b : HleMappedBuffer) (offset size : Z) : M (list Z) :=
  ASSERT (negb (Z.land (buffer_perms b) MappedBufferPermissions_R =? 0));;
  ASSERT (u64 (offset + size) <=? buffer_size_of b);;
  pt ← page_table_of (buffer_process b);
  memory_op (ReadBlock pt (u32 (buffer_address b + u32 offset)) size).
Definition MappedBuffer_Write (b : HleMappedBuffer) (src : list Z) (offset size : Z) : M unit :=
  ASSERT (negb (Z.land (buffer_perms b) MappedBufferPermissions_W =? 0));;
  ASSERT (u64 (offset + size) <=? buffer_size_of b);;
  pt ← page_table_of (buffer_process b);
  memory_op (WriteBlock pt (u32 (buffer_address b + u32 offset)) (host_buffer src) size).

(** ** Requests *)

(** The handles of a descriptor become numbers of objects. *)
Definition incoming_handle (src_process : oid) (descriptor handle : Z) : M (option oid) :=
  if handle =? 0 then mret None
  else
    object ← GetGeneric src_process handle;
    ASSERT (negb (bool_decide (object = None)));;
    (if descriptor =? MoveHandle_value then _ ← handle_op src_process (Close handle); mret tt else mret tt);;
    mret object.
Fixpoint incoming_handles (num_handles : nat) (c : Z) (src_process : oid) (descriptor : Z) (i : nat) src_cmdbuf : M unit :=
  match num_handles with
  | O => mret tt
  | S n =>
      handle ← array_get src_cmdbuf i;
      object ← incoming_handle src_process descriptor handle;
      ctx_op c (id ← AddOutgoingHandle object; cmd_set i id);;
      incoming_handles n c src_process descriptor (S i) src_cmdbuf
  end.
(** The copy of a static buffer *)
Definition incoming_static (c : Z) (src_process : oid) (descriptor : Z) (i : nat) src_cmdbuf : M unit :=
  source_address ← array_get src_cmdbuf i;
  pt ← page_table_of src_process;
  data ← memory_op (ReadBlock pt source_address (static_buffer_size descriptor));
  ctx_op c (AddStaticBuffer (static_buffer_id descriptor) data;; cmd_set i source_address).
Definition incoming_mapped (c : Z) (src_process : oid) (descriptor : Z) (i : nat) src_cmdbuf : M unit :=
  address ← array_get src_cmdbuf i;
  ctx_op c (x ← get;
    let next_id := u32 (Z.of_nat (length (request_mapped_buffers x))) in
    modify (fun x => x <| request_mapped_buffers ::= fun l => l ++ [new_mapped_buffer src_process descriptor address next_id] |>);;
    cmd_set i next_id).
Fixpoint populate_loop (fuel : nat) (c : Z) (src_process : oid) (command_size i : nat) src_cmdbuf : M unit :=
  if bool_decide (command_size <= i)%nat then mret tt
  else
    match fuel with
    | O => crash OutOfFuel
    | S fuel' =>
        descriptor ← array_get src_cmdbuf i;
        ctx_op c (cmd_set i descriptor);;
        match GetDescriptorType descriptor with
        | CopyHandle | MoveHandle =>
            let num_handles := Z.to_nat (HandleNumberFromDesc descriptor) in
            ASSERT (bool_decide (S i + num_handles <= command_size)%nat);;
            incoming_handles num_handles c src_process descriptor (S i) src_cmdbuf;;
            populate_loop fuel' c src_process command_size (S i + num_handles) src_cmdbuf
        | CallingPid =>
            p ← get_process src_process;
            ctx_op c (cmd_set (S i) (process_id p));;
            populate_loop fuel' c src_process command_size (S (S i)) src_cmdbuf
        | StaticBuffer =>
            incoming_static c src_process descriptor (S i) src_cmdbuf;;
            populate_loop fuel' c src_process command_size (S (S i)) src_cmdbuf
        | MappedBuffer =>
            incoming_mapped c src_process descriptor (S i) src_cmdbuf;;
            populate_loop fuel' c src_process command_size (S (S i)) src_cmdbuf
        | PXIBuffer | UnknownDescriptor => populate_loop fuel' c src_process command_size (S i) src_cmdbuf (* only logged *)
        end
    end.
Definition untranslated_size (header : Z) : nat := Z.to_nat (1 + normal_params_size header).
Definition command_size (header : Z) : nat := Z.to_nat (1 + normal_params_size header + translate_params_size header).
Definition PopulateFromIncomingCommandBuffer (c : Z) src_cmdbuf (src_process : oid) : M result_code :=
  header ← array_get src_cmdbuf 0;
  ASSERT (Z.of_nat (command_size header) <=? COMMAND_BUFFER_LENGTH);;
  ctx_op c (x ← get; l ← copy_n (untranslated_size header) src_cmdbuf (cmd_buf x); modify (fun x => x <| cmd_buf := l |>));;
  populate_loop (command_size header) c src_process (command_size header) (untranslated_size header) src_cmdbuf;;
  mret RESULT_SUCCESS.

(** ** Replies *)

(** The numbers of objects become handles. *)
Definition outgoing_handle (dst_process : oid) (object : option oid) : M Z :=
  match object with
  | None => mret 0
  | Some o => r ← handle_op dst_process (Create o); Unwrap r
  end.
Fixpoint outgoing_handles (num_handles : nat) (c : Z) (dst_process : oid) (i : nat) dst_cmdbuf : M (list Z) :=
  match num_handles with
  | O => mret dst_cmdbuf
  | S n =>
      object ← ctx_op c (id ← cmd_get i; GetIncomingHandle id);
      handle ← outgoing_handle dst_process object;
      dst_cmdbuf ← array_set dst_cmdbuf i handle;
      outgoing_handles n c dst_process (S i) dst_cmdbuf
  end.
Definition outgoing_static (c : Z) (dst_process : oid) (descriptor : Z) (i : nat) dst_cmdbuf : M (list Z) :=
  data ← ctx_op c (GetStaticBuffer (static_buffer_id descriptor));
  let static_buffer_offset := Z.to_nat (COMMAND_BUFFER_LENGTH + 2 * static_buffer_id descriptor) in
  target_descriptor ← array_get dst_cmdbuf static_buffer_offset;
  target_address ← array_get dst_cmdbuf (S static_buffer_offset);
  ASSERT (Z.of_nat (length data) <=? static_buffer_size target_descriptor);;
  pt ← page_table_of dst_process;
  memory_op (WriteBlock pt target_address (host_buffer data) (Z.of_nat (length data)));;
  array_set dst_cmdbuf i target_address.
Definition outgoing_mapped (c : Z) (i : nat) dst_cmdbuf : M (list Z) :=
  b ← ctx_op c (id ← cmd_get i; x ← get; deref (request_mapped_buffers x !! Z.to_nat id));
  array_set dst_cmdbuf i (buffer_address b).
Fixpoint write_loop (fuel : nat) (c : Z) (dst_process : oid) (command_size i : nat) dst_cmdbuf : M (list Z) :=
  if bool_decide (command_size <= i)%nat then mret dst_cmdbuf
  else
    match fuel with
    | O => crash OutOfFuel
    | S fuel' =>
        descriptor ← ctx_op c (cmd_get i);
        dst_cmdbuf ← array_set dst_cmdbuf i descriptor;
        match GetDescriptorType descriptor with
        | CopyHandle | MoveHandle =>
            let num_handles := Z.to_nat (HandleNumberFromDesc descriptor) in
            ASSERT (bool_decide (S i + num_handles <= command_size)%nat);;
            dst_cmdbuf ← outgoing_handles num_handles c dst_process (S i) dst_cmdbuf;
            write_loop fuel' c dst_process command_size (S i + num_handles) dst_cmdbuf
        | StaticBuffer =>
            dst_cmdbuf ← outgoing_static c dst_process descriptor (S i) dst_cmdbuf;
            write_loop fuel' c dst_process command_size (S (S i)) dst_cmdbuf
        | MappedBuffer =>
            dst_cmdbuf ← outgoing_mapped c (S i) dst_cmdbuf;
            write_loop fuel' c dst_process command_size (S (S i)) dst_cmdbuf
        | CallingPid | PXIBuffer | UnknownDescriptor => write_loop fuel' c dst_process command_size (S i) dst_cmdbuf (* only logged *)
        end
    end.
Definition WriteToOutgoingCommandBuffer (c : Z) dst_cmdbuf (dst_process : oid) : M (result_code * list Z) :=
  header ← ctx_op c (cmd_get 0);
  ASSERT (Z.of_nat (command_size header) <=? COMMAND_BUFFER_LENGTH);;
  dst_cmdbuf ← ctx_op c (x ← get; copy_n (untranslated_size header) (cmd_buf x) dst_cmdbuf);
  dst_cmdbuf ← write_loop (command_size header) c dst_process (command_size header) (untranslated_size header) dst_cmdbuf;
  mret (RESULT_SUCCESS, dst_cmdbuf).

(** ** Clients that sleep *)

(** [HLERequestContext::SleepClientThread]; the kernel keeps the address of the callback. *)
Definition SleepClientThread (c : Z) (reason : string) (timeout : Z) (callback : option Z) : M oid :=
  thread ← ctx_op c (x ← get; mret (ctx_thread x));
  cb ← make_callback c callback;
  update_thread thread (fun th => th <| wakeup_callback := Some (OtherCallback cb) |>);;
  event ← CreateEvent OneShot ("HLE Pause Event: " ++ reason);
  update_thread thread (fun th => th <| status := WaitHleEvent |>);;
  update_thread thread (fun th => th <| wait_objects := [event] |>);;
  AddWaitingThread event thread;;
  (if 0 <? timeout then WakeAfterDelay thread timeout else mret tt);;
  mret event.

(** The command buffer with the descriptors of the static buffers, in the memory of
    a thread *)
Definition command_words : Z := COMMAND_BUFFER_LENGTH + 2 * MAX_STATIC_BUFFERS.
Definition read_command (process thread : oid) : M (list Z) :=
  pt ← page_table_of process;
  a ← GetCommandBufferAddress thread;
  b ← memory_op (ReadBlock pt a (command_words * 4));
  mret (words_of (Z.to_nat command_words) b).
Definition write_command (process thread : oid) (l : list Z) : M unit :=
  pt ← page_table_of process;
  a ← GetCommandBufferAddress thread;
  memory_op (WriteBlock pt a (host_buffer (bytes_of l)) (command_words * 4)).

Context {handlers : ServiceHandlers D IS}.

(** [HLERequestContext::ThreadCallback::WakeUp] *)
Definition ThreadCallback_WakeUp (id : Z) (reason : ThreadWakeupReason) (thread : oid) (object : option oid) : M unit :=
  th ← get_thread thread;
  ASSERT (bool_decide (status th = WaitHleEvent));;
  cb ← host_op (fun r : Requests => match thread_callbacks r !! id with Some cb => Ret (cb, r) | None => Crash UndefinedBehaviour end);
  match service_callback cb with Some f => run_callback f thread (callback_context cb) reason | None => mret tt end;;
  th ← get_thread thread;
  ASSERT (negb (bool_decide (owner_process th = None)));;
  process ← deref (owner_process th);
  cmd_buff ← read_command process thread;
  r ← WriteToOutgoingCommandBuffer (callback_context cb) cmd_buff process;
  write_command process thread r.2.

(** [ServerSession::HandleSyncRequest], the part for sessions with a handler *)
Definition handle_request (handler : Z) (this thread : oid) : M unit :=
  th ← get_thread thread;
  current_process ← deref (owner_process th);
  cmd_buf ← read_command current_process thread;
  c ← make_context this thread;
  _ ← PopulateFromIncomingCommandBuffer c cmd_buf current_process;
  run_handler handler c;;
  th ← get_thread thread;
  ASSERT (bool_decide (status th = Running) || bool_decide (status th = WaitHleEvent));;
  if bool_decide (status th = Running) then
    r ← WriteToOutgoingCommandBuffer c cmd_buf current_process;
    write_command current_process thread r.2
  else mret tt.

(** [SessionRequestHandler::ClientConnected], [ClientDisconnected] *)
Definition ClientConnected (handler : Z) (server_session : oid) : M unit :=
  update_server_session server_session (fun s => s <| session_handler := Some handler |>);;
  data ← MakeSessionData handler;
  host_op (modify (fun r : Requests =>
    r <| connected_sessions ::= fun m => <[handler := default [] (m !! handler) ++ [mkSessionInfo server_session data]]> m |>)).
Definition ClientDisconnected (handler : Z) (server_session : oid) : M unit :=
  update_server_session server_session (fun s => s <| session_handler := None |>);;
  host_op (modify (fun r : Requests =>
    r <| connected_sessions ::= fun m => <[handler := filter (fun i => info_session i <> server_session) (default [] (m !! handler))]> m |>)).

(** The services of the kernel's sessions *)
#[export] Instance hle_services : Services D IS := {|
  handle_sync_request := handle_request;
  client_connected := ClientConnected;
  client_disconnected := ClientDisconnected;
|}.
End HleIpc.
