(* ===== verification/IpcHelpers.v ===== *)
(** Writing and reading the parameters of a request
    (src/.../core/hle/ipc_helpers.h): [RequestBuilder] and [RequestParser], and that a
    parser reads what a builder wrote. *)

From S2P Require Import Prelude ResultCode ThreadQueueList HandleTable MemoryMap ResourceLimit IntervalSet MemoryRegion Memory MemoryAccess VmManager CoreTiming KernelState Thread WaitObject SyncObjects ThreadLife Process Ipc IpcSpec Sessions HleIpc.

(** A helper runs on the context of its request, at a word of the command buffer;
    [ValidateHeader] is empty in a release build. *)
Record RequestHelper := mkRequestHelper { context : HLERequestContext; index : nat; header : Z }.
#[export] Instance eta_RequestHelper : Eta RequestHelper := fun h => mkRequestHelper (context h) (index h) (header h).

Abbreviation MR := (M RequestHelper).
Definition in_context {A} (m : M HLERequestContext A) : MR A := zoom context (fun c h => h <| context := c |>) m.
Definition TotalSize (h : RequestHelper) : Z := 1 + normal_params_size (header h) + translate_params_size (header h).
Definition advance (n : nat) : MR unit := modify (fun h => h <| index ::= fun i => (i + n)%nat |>).

(** [memcpy] into and out of the array of words *)
Definition overwrite (pos : nat) (new old : list Z) : list Z := firstn pos old ++ new ++ skipn (pos + length new) old.
Definition memcpy_to (i : nat) (bytes : list Z) : M HLERequestContext unit :=
  c ← get;
  if bool_decide (4 * i + length bytes <= 4 * length (cmd_buf c))%nat
  then modify (fun c => c <| cmd_buf ::= fun l => words_of (length l) (overwrite (4 * i) bytes (bytes_of l)) |>)
  else crash UndefinedBehaviour.
Definition memcpy_from (i size : nat) : M HLERequestContext (list Z) :=
  c ← get;
  if bool_decide (4 * i + size <= 4 * length (cmd_buf c))%nat
  then mret (firstn size (skipn (4 * i) (bytes_of (cmd_buf c))))
  else crash UndefinedBehaviour.
Definition words_for (size : nat) : nat := (size + 3) / 4.

Definition Skip (size_in_words : nat) (set_to_null : bool) : MR unit :=
  h ← get;
  (if set_to_null then in_context (memcpy_to (index h) (replicate (4 * size_in_words) 0)) else mret tt);;
  advance size_in_words.

(** ** [RequestBuilder] *)

Definition RequestBuilder (command_header : Z) : MR unit :=
  modify (fun h => h <| index := 1%nat |> <| header := command_header |>);;
  in_context (ClearIncomingObjects;; cmd_set 0 command_header).
Definition Push (value : Z) : MR unit :=
  h ← get; in_context (cmd_set (index h) value);; advance 1.
Definition Push_s32 (value : Z) : MR unit := Push (u32 value).
Definition PushRaw (value : list Z) : MR unit :=
  h ← get; in_context (memcpy_to (index h) value);; advance (words_for (length value)).
Definition Push_u8 (value : Z) : MR unit := PushRaw (le_encode 1 value).
Definition Push_u16 (value : Z) : MR unit := PushRaw (le_encode 2 value).
Definition Push_u64 (value : Z) : MR unit := Push (u32 value);; Push (u32 (Z.shiftr value 32)).
Definition Push_bool (value : bool) : MR unit := Push_u8 (if value then 1 else 0).
(** The handles of objects; the arguments are evaluated from the left. *)
Definition PushHLEHandles (desc : Z -> Z) (handles : list Z) : MR unit :=
  Push (desc (Z.of_nat (length handles)));; for_each handles Push.
Fixpoint add_outgoing (pointers : list (option oid)) : M HLERequestContext (list Z) :=
  match pointers with
  | [] => mret []
  | o :: rest => id ← AddOutgoingHandle o; ids ← add_outgoing rest; mret (id :: ids)
  end.
Definition PushCopyObjects (pointers : list (option oid)) : MR unit :=
  ids ← in_context (add_outgoing pointers); PushHLEHandles CopyHandleDesc ids.
Definition PushMoveObjects (pointers : list (option oid)) : MR unit :=
  ids ← in_context (add_outgoing pointers); PushHLEHandles MoveHandleDesc ids.
Definition PushStaticBuffer (buffer : list Z) (buffer_id : Z) : MR unit :=
  ASSERT (buffer_id <? MAX_STATIC_BUFFERS);;
  Push (StaticBufferDesc (Z.of_nat (length buffer)) buffer_id);;
  Push 0xDEADC0DE;;
  in_context (AddStaticBuffer buffer_id buffer).
Definition PushMappedBuffer (b : HleMappedBuffer) : MR unit :=
  Push (GenerateDescriptor b);; Push (buffer_id b).

(** ** [RequestParser] *)

Definition RequestParser (desired_header : Z) : MR unit := modify (fun h => h <| index := 1%nat |> <| header := desired_header |>).
Definition MakeBuilder (normal_params_size translate_params_size : Z) : MR unit :=
  h ← get; RequestBuilder (MakeHeader (command_id (header h)) normal_params_size translate_params_size).
Definition Pop : MR Z :=
  h ← get; v ← in_context (cmd_get (index h)); advance 1;; mret v.
Definition PopRaw (size : nat) : MR (list Z) :=
  h ← get; v ← in_context (memcpy_from (index h) size); advance (words_for size);; mret v.
Definition Pop_u8 : MR Z := v ← PopRaw 1; mret (le_decode v).
Definition Pop_u16 : MR Z := v ← PopRaw 2; mret (le_decode v).
Definition Pop_s32 : MR Z := v ← PopRaw 4; mret (s32 (le_decode v)).
Definition Pop_u64 : MR Z := lsw ← Pop; msw ← Pop; mret (Z.lor (u64 (Z.shiftl msw 32)) lsw).
Definition Pop_bool : MR bool := v ← Pop_u8; mret (negb (v =? 0)).
Fixpoint pop_many (n : nat) : MR (list Z) :=
  match n with O => mret [] | S n' => v ← Pop; l ← pop_many n'; mret (v :: l) end.
Definition PopHLEHandles (n : nat) : MR (list Z) :=
  handle_descriptor ← Pop;
  ASSERT (IsHandleDescriptor handle_descriptor);;
  ASSERT (Z.of_nat n =? HandleNumberFromDesc handle_descriptor);;
  pop_many n.
Fixpoint incoming_objects (handles : list Z) : M HLERequestContext (list (option oid)) :=
  match handles with
  | [] => mret []
  | h :: rest => o ← GetIncomingHandle h; l ← incoming_objects rest; mret (o :: l)
  end.
Definition PopGenericObjects (n : nat) : MR (list (option oid)) :=
  handles ← PopHLEHandles n; in_context (incoming_objects handles).
Definition PopPID : MR Z :=
  d ← Pop; ASSERT (d =? CallingPid_value);; Pop.
Definition PopStaticBuffer : MR (list Z) :=
  sbuffer_descriptor ← Pop;
  _ ← Pop;
  in_context (GetStaticBuffer (u8 (static_buffer_id sbuffer_descriptor))).
Definition PopMappedBuffer : MR HleMappedBuffer :=
  mapped_buffer_descriptor ← Pop;
  ASSERT (match GetDescriptorType mapped_buffer_descriptor with MappedBuffer => true | _ => false end);;
  id ← Pop;
  in_context (GetMappedBuffer id).
