(* ===== verification/HelperSpec.v ===== *)
(** A parser reads from a request what a builder wrote into it
    (src/.../core/hle/ipc_helpers.h), whatever is pushed: integers, structures, objects
    and buffers, in any order. *)

From S2P Require Import Prelude ResultCode ThreadQueueList HandleTable MemoryMap ResourceLimit IntervalSet MemoryRegion Memory MemoryAccess VmManager CoreTiming KernelState Thread WaitObject SyncObjects ThreadLife Process Ipc IpcSpec Sessions HleIpc IpcHelpers.

(** ** Words and bytes *)

Definition is_byte (z : Z) : Prop := 0 <= z < 256.
Lemma le_encode_bytes n z : Forall is_byte (le_encode n z).
Proof. revert z. induction n as [|n IH]; intros z; cbn; constructor; [unfold is_byte; Z.to_euclidean_division_equations; lia|apply IH]. Qed.
Lemma le_encode_decode l : Forall is_byte l -> le_encode (length l) (le_decode l) = l.
Proof.
  induction 1 as [|x l Hx _ IH]; [done|]. cbn [length le_encode le_decode]. unfold is_byte in Hx.
  f_equal; [Z.to_euclidean_division_equations; lia|]. replace ((x + 256 * le_decode l) / 256) with (le_decode l); [done|]. Z.to_euclidean_division_equations; lia.
Qed.
Lemma le_decode_range l : Forall is_byte l -> 0 <= le_decode l < 256 ^ Z.of_nat (length l).
Proof.
  induction 1 as [|x l Hx _ IH]; [done|]. cbn [length le_decode]. unfold is_byte in Hx. rewrite Nat2Z.inj_succ, Z.pow_succ_r by lia. lia.
Qed.
Lemma le_decode_u32 l : Forall is_byte l -> length l = 4%nat -> is_u32 (le_decode l).
Proof. intros Hl E. pose proof (le_decode_range l Hl) as H. rewrite E in H. exact H. Qed.

Lemma bytes_of_cons w l : bytes_of (w :: l) = le_encode 4 w ++ bytes_of l.
Proof. done. Qed.
Lemma length_bytes_of l : length (bytes_of l) = (4 * length l)%nat.
Proof. induction l as [|w l IH]; [done|]. rewrite bytes_of_cons, length_app, length_le_encode, IH. cbn [length]. lia. Qed.
Lemma bytes_of_bytes l : Forall is_byte (bytes_of l).
Proof. induction l as [|w l IH]; [constructor|]. rewrite bytes_of_cons. apply Forall_app. split; [apply le_encode_bytes|done]. Qed.
Lemma take_bytes_of n l : bytes_of (firstn n l) = firstn (4 * n) (bytes_of l).
Proof.
  revert l. induction n as [|n IH]; intros [|w l]; try done. rewrite firstn_cons, !bytes_of_cons, IH.
  replace (4 * S n)%nat with (length (le_encode 4 w) + 4 * n)%nat by (rewrite length_le_encode; lia). by rewrite firstn_app_2.
Qed.
Lemma length_words_of n b : length (words_of n b) = n.
Proof. revert b. induction n as [|n IH]; intros b; cbn [words_of length]; [done|by rewrite IH]. Qed.
Lemma words_of_u32 n b : Forall is_byte b -> (4 * n <= length b)%nat -> Forall is_u32 (words_of n b).
Proof.
  revert b. induction n as [|n IH]; intros b Hb Hn; cbn [words_of]; constructor.
  - apply le_decode_u32; [by apply Forall_take|rewrite length_take; lia].
  - apply IH; [by apply Forall_drop|rewrite length_drop; lia].
Qed.
Lemma words_bytes l : Forall is_u32 l -> words_of (length l) (bytes_of l) = l.
Proof.
  induction 1 as [|w l Hw _ IH]; [done|]. rewrite bytes_of_cons. cbn [length words_of].
  rewrite take_app_length', drop_app_length' by done. by rewrite IH, le_decode_encode.
Qed.
Lemma bytes_words n b : Forall is_byte b -> length b = (4 * n)%nat -> bytes_of (words_of n b) = b.
Proof.
  revert b. induction n as [|n IH]; intros b Hb Hn; cbn [words_of]; [by destruct b|]. rewrite bytes_of_cons, IH; [|by apply Forall_drop|rewrite length_drop; lia].
  assert (E : length (firstn 4 b) = 4%nat) by (rewrite length_take; lia).
  rewrite <- E at 1. rewrite le_encode_decode by (by apply Forall_take). apply take_drop.
Qed.
Lemma take_words_of k n b : (k <= n)%nat -> firstn k (words_of n b) = words_of k (firstn (4 * k) b).
Proof.
  revert n b. induction k as [|k IH]; intros [|n] b Hk; try (done || lia). cbn [words_of]. rewrite firstn_cons, IH by lia.
  replace (4 * S k)%nat with (4 + 4 * k)%nat by lia. f_equal.
  - by rewrite take_take, Nat.min_l by lia.
  - by rewrite skipn_firstn_comm, Nat.add_comm, Nat.add_sub.
Qed.

Lemma length_overwrite pos new old : (pos + length new <= length old)%nat -> length (overwrite pos new old) = length old.
Proof. intros H. unfold overwrite. rewrite !length_app, length_take, length_drop. lia. Qed.
Lemma overwrite_bytes pos new old : Forall is_byte new -> Forall is_byte old -> Forall is_byte (overwrite pos new old).
Proof. intros Hn Ho. unfold overwrite. repeat apply Forall_app_2; [by apply Forall_take|done|by apply Forall_drop]. Qed.
Lemma overwrite_at pos new old : (pos + length new <= length old)%nat -> firstn (length new) (skipn pos (overwrite pos new old)) = new.
Proof.
  intros H. unfold overwrite. assert (E : length (firstn pos old) = pos) by (rewrite length_take; lia).
  rewrite <- E at 1. by rewrite drop_app_length, take_app_length.
Qed.
Lemma overwrite_before k pos new old : (k <= pos)%nat -> (pos <= length old)%nat -> firstn k (overwrite pos new old) = firstn k old.
Proof. intros H1 H2. unfold overwrite. rewrite take_app_le by (rewrite length_take; lia). by rewrite take_take, Nat.min_l. Qed.

(** ** Parameters *)

Inductive Param :=
  | PU32 (v : Z) | PS32 (v : Z) | PU8 (v : Z) | PU16 (v : Z) | PU64 (v : Z) | PBool (b : bool) | PRaw (bytes : list Z)
  | PObjects (copy : bool) (pointers : list (option oid)) | PStatic (data : list Z) (id : Z) | PMapped (b : HleMappedBuffer).

Definition push (p : Param) : MR unit :=
  match p with
  | PU32 v => Push v
  | PS32 v => Push_s32 v
  | PU8 v => Push_u8 v
  | PU16 v => Push_u16 v
  | PU64 v => Push_u64 v
  | PBool b => Push_bool b
  | PRaw bytes => PushRaw bytes
  | PObjects true l => PushCopyObjects l
  | PObjects false l => PushMoveObjects l
  | PStatic data id => PushStaticBuffer data id
  | PMapped b => PushMappedBuffer b
  end.
(** Popping a parameter of the type of [p] *)
Definition pop_like (p : Param) : MR Param :=
  match p with
  | PU32 _ => v ← Pop; mret (PU32 v)
  | PS32 _ => v ← Pop_s32; mret (PS32 v)
  | PU8 _ => v ← Pop_u8; mret (PU8 v)
  | PU16 _ => v ← Pop_u16; mret (PU16 v)
  | PU64 _ => v ← Pop_u64; mret (PU64 v)
  | PBool _ => b ← Pop_bool; mret (PBool b)
  | PRaw bytes => l ← PopRaw (length bytes); mret (PRaw l)
  | PObjects copy l => l ← PopGenericObjects (length l); mret (PObjects copy l)
  | PStatic _ id => data ← PopStaticBuffer; mret (PStatic data id)
  | PMapped _ => b ← PopMappedBuffer; mret (PMapped b)
  end.
Fixpoint pop_all (ps : list Param) : MR (list Param) :=
  match ps with [] => mret [] | p :: rest => x ← pop_like p; l ← pop_all rest; mret (x :: l) end.

(** The words a parameter takes, and the static buffer it uses *)
Definition words_of_param (p : Param) : nat :=
  match p with
  | PU32 _ | PS32 _ | PU8 _ | PU16 _ | PBool _ => 1
  | PU64 _ | PStatic _ _ | PMapped _ => 2
  | PRaw bytes => words_for (length bytes)
  | PObjects _ l => S (length l)
  end.
Definition static_of (p : Param) : list Z := match p with PStatic _ id => [id] | _ => [] end.
(** The values that have the type of the parameter *)
Definition param_ok (buffers : list HleMappedBuffer) (p : Param) : Prop :=
  match p with
  | PU32 v => is_u32 v
  | PS32 v => is_s32 v
  | PU8 v => is_byte v
  | PU16 v => is_u16 v
  | PU64 v => is_u64 v
  | PBool _ => True
  | PRaw bytes => Forall is_byte bytes
  | PObjects _ l => (1 <= length l <= 64)%nat
  | PStatic data id => Z.of_nat (length data) < 2 ^ 18 /\ 0 <= id < 16
  | PMapped b => is_u32 (buffer_id b) /\ buffers !! Z.to_nat (buffer_id b) = Some b
  end.

(** ** What a context holds *)

Definition raw_at (bytes : list Z) (i : nat) (words : list Z) : Prop :=
  (4 * i + length bytes <= 4 * length words)%nat /\ firstn (length bytes) (skipn (4 * i) (bytes_of words)) = bytes.
Definition holds (p : Param) (i : nat) (c : HLERequestContext) : Prop :=
  match p with
  | PU32 v => cmd_buf c !! i = Some v
  | PS32 v => cmd_buf c !! i = Some (u32 v)
  | PU8 v => raw_at (le_encode 1 v) i (cmd_buf c)
  | PU16 v => raw_at (le_encode 2 v) i (cmd_buf c)
  | PU64 v => cmd_buf c !! i = Some (u32 v) /\ cmd_buf c !! S i = Some (u32 (Z.shiftr v 32))
  | PBool b => raw_at (le_encode 1 (if b then 1 else 0)) i (cmd_buf c)
  | PRaw bytes => raw_at bytes i (cmd_buf c)
  | PObjects copy l => cmd_buf c !! i = Some ((if copy then CopyHandleDesc else MoveHandleDesc) (Z.of_nat (length l))) /\
      exists first, forall j o, l !! j = Some o -> cmd_buf c !! (S i + j)%nat = Some (Z.of_nat (first + j)) /\ request_handles c !! (first + j)%nat = Some o
  | PStatic data id => cmd_buf c !! i = Some (StaticBufferDesc (Z.of_nat (length data)) id) /\ is_Some (cmd_buf c !! S i) /\
      static_buffers c !! Z.to_nat id = Some data
  | PMapped b => cmd_buf c !! i = Some (GenerateDescriptor b) /\ cmd_buf c !! S i = Some (buffer_id b) /\
      request_mapped_buffers c !! Z.to_nat (buffer_id b) = Some b
  end.
(** The first [n] words and everything they can refer to are kept, but for the static
    buffers [ids]. *)
Record keeps (n : nat) (ids : list Z) (c c' : HLERequestContext) : Prop := {
  keeps_length : length (cmd_buf c') = length (cmd_buf c);
  keeps_words : firstn n (cmd_buf c') = firstn n (cmd_buf c);
  keeps_u32 : Forall is_u32 (cmd_buf c) -> Forall is_u32 (cmd_buf c');
  keeps_handles j o : request_handles c !! j = Some o -> request_handles c' !! j = Some o;
  keeps_static_length : length (static_buffers c') = length (static_buffers c);
  keeps_static id : 0 <= id -> id ∉ ids -> static_buffers c' !! Z.to_nat id = static_buffers c !! Z.to_nat id;
  keeps_mapped : request_mapped_buffers c' = request_mapped_buffers c;
}.
Lemma keeps_refl n c : keeps n [] c c.
Proof. by split. Qed.
Lemma keeps_trans n m ids ids' c1 c2 c3 : keeps n ids c1 c2 -> keeps m ids' c2 c3 -> (n <= m)%nat -> keeps n (ids ++ ids') c1 c3.
Proof.
  intros [A1 A2 A3 A4 A5 A6 A7] [B1 B2 B3 B4 B5 B6 B7] Hle. split; try congruence.
  - assert (E : forall l : list Z, firstn n l = firstn n (firstn m l)) by (intros l; by rewrite take_take, Nat.min_l). by rewrite (E (cmd_buf c3)), B2, <- E.
  - auto.
  - auto.
  - intros id H0 Hid. rewrite elem_of_app in Hid. rewrite B6, A6 by tauto. done.
Qed.
Lemma keeps_lookup n ids c c' i : keeps n ids c c' -> (i < n)%nat -> cmd_buf c' !! i = cmd_buf c !! i.
Proof. intros K Hi. rewrite <- (lookup_take_lt (cmd_buf c') n), <- (lookup_take_lt (cmd_buf c) n), (keeps_words _ _ _ _ K) by done. done. Qed.
Lemma raw_at_take bytes i n l l' : (4 * i + length bytes <= 4 * n)%nat -> length l' = length l -> firstn n l' = firstn n l -> raw_at bytes i l -> raw_at bytes i l'.
Proof.
  intros Hn Hlen E [H1 H2]. split; [by rewrite Hlen|].
  assert (G : forall w, firstn (length bytes) (skipn (4 * i) (bytes_of w)) = firstn (length bytes) (skipn (4 * i) (bytes_of (firstn n w)))).
  { intros w. rewrite take_bytes_of, skipn_firstn_comm, take_take, Nat.min_l by lia. done. }
  rewrite G, E, <- G. exact H2.
Qed.
Lemma words_for_le n : (n <= 4 * words_for n)%nat.
Proof. unfold words_for. pose proof (Nat.div_mod_eq (n + 3) 4). pose proof (Nat.mod_upper_bound (n + 3) 4). lia. Qed.
Lemma holds_keeps p i n ids c c' : holds p i c -> keeps n ids c c' -> (i + words_of_param p <= n)%nat -> (forall id, id ∈ static_of p -> 0 <= id /\ id ∉ ids) -> holds p i c'.
Proof.
  intros Hp K Hn Hs.
  assert (Hraw : forall bytes, (words_for (length bytes) <= words_of_param p)%nat -> raw_at bytes i (cmd_buf c) -> raw_at bytes i (cmd_buf c')).
  { intros bytes Hb. pose proof (words_for_le (length bytes)). eapply raw_at_take; [|apply K|apply K]. lia. }
  destruct p; cbn in Hp, Hn |- *; try (by apply Hraw); try (by rewrite (keeps_lookup _ _ _ _ _ K) by lia).
  - by rewrite !(keeps_lookup _ _ _ _ _ K) by lia.
  - destruct Hp as (H1 & first & H2). rewrite (keeps_lookup _ _ _ _ _ K) by lia. split; [done|]. exists first. intros j o Hj.
    pose proof (lookup_lt_Some _ _ _ Hj) as Hlt. destruct (H2 j o Hj) as [G1 G2].
    rewrite (keeps_lookup _ _ _ _ (S (i + j)) K) by lia. split; [exact G1|]. by apply (keeps_handles _ _ _ _ K).
  - destruct (Hs id) as [H0 Hid]; [by left|]. rewrite !(keeps_lookup _ _ _ _ _ K) by lia. by rewrite (keeps_static _ _ _ _ K).
  - rewrite !(keeps_lookup _ _ _ _ _ K) by lia. by rewrite (keeps_mapped _ _ _ _ K).
Qed.

(** ** Pushing *)

(** The helper went [n] words forward and changed nothing but words. *)
Record stepped (n : nat) (h h' : RequestHelper) : Prop := {
  stepped_header : header h' = header h;
  stepped_index : index h' = (index h + n)%nat;
  stepped_keeps : keeps (index h) [] (context h) (context h');
  stepped_handles : request_handles (context h') = request_handles (context h);
  stepped_static : static_buffers (context h') = static_buffers (context h);
}.
Lemma stepped_trans n m h1 h2 h3 : stepped n h1 h2 -> stepped m h2 h3 -> stepped (n + m) h1 h3.
Proof.
  intros [A1 A2 A3 A4 A5] [B1 B2 B3 B4 B5]. split; try congruence; [lia|]. apply (keeps_trans (index h1) (index h2) [] []  _ (context h2)); [done|done|lia].
Qed.
Lemma wp_in_context {A} (m : M HLERequestContext A) (Q : A -> RequestHelper -> Prop) h :
  wp m (fun a c => Q a (h <| context := c |>)) (context h) -> wp (in_context m) Q h.
Proof. unfold wp, in_context, zoom. by destruct (m (context h)) as [[a c]|]. Qed.
Lemma wp_cmd_set i v c (Q : unit -> HLERequestContext -> Prop) : (i < length (cmd_buf c))%nat -> Q tt (c <| cmd_buf := <[i := v]> (cmd_buf c) |>) -> wp (cmd_set i v) Q c.
Proof. intros Hi HQ. unfold cmd_set, array_set. do 2 wp_step. rewrite bool_decide_eq_true_2 by done. by repeat wp_step. Qed.
Lemma keeps_set i v c : is_u32 v -> (i < length (cmd_buf c))%nat -> keeps i [] c (c <| cmd_buf := <[i := v]> (cmd_buf c) |>).
Proof.
  intros Hv Hi. split; try done; cbn; [apply length_insert|by rewrite take_insert_ge| |done..].
  intros Hu. by apply Forall_insert.
Qed.
Lemma wp_Push v h : is_u32 v -> (index h < length (cmd_buf (context h)))%nat ->
  wp (Push v) (fun _ h' => stepped 1 h h' /\ cmd_buf (context h') !! index h = Some v) h.
Proof.
  intros Hv Hi. unfold Push. do 2 wp_step. wp_step. apply wp_in_context, wp_cmd_set; [done|]. unfold advance. wp_step. split; [|cbn; by rewrite list_lookup_insert_eq].
  split; try done. by apply keeps_set.
Qed.
Lemma wp_PushRaw bytes h : Forall is_byte bytes -> (index h + words_for (length bytes) <= length (cmd_buf (context h)))%nat -> Forall is_u32 (cmd_buf (context h)) ->
  wp (PushRaw bytes) (fun _ h' => stepped (words_for (length bytes)) h h' /\ raw_at bytes (index h) (cmd_buf (context h'))) h.
Proof.
  intros Hb Hi Hu. unfold PushRaw. do 2 wp_step. wp_step. apply wp_in_context. unfold memcpy_to. pose proof (words_for_le (length bytes)) as Hw.
  set (l := cmd_buf (context h)) in *. pose proof (length_bytes_of l) as Hbl.
  assert (Hroom : (4 * index h + length bytes <= length (bytes_of l))%nat) by lia.
  do 2 wp_step. rewrite bool_decide_eq_true_2 by (fold l; lia). wp_step. unfold advance. wp_step.
  assert (Ho : length (overwrite (4 * index h) bytes (bytes_of l)) = (4 * length l)%nat) by (by rewrite length_overwrite).
  assert (Hob : Forall is_byte (overwrite (4 * index h) bytes (bytes_of l))) by (apply overwrite_bytes; [done|apply bytes_of_bytes]).
  split; [split; try done; split; cbn -[Nat.mul overwrite words_of bytes_of firstn]; try done|].
  - apply length_words_of.
  - fold l. rewrite take_words_of, overwrite_before, <- take_bytes_of by lia. rewrite <- (words_bytes (firstn (index h) l)) at 2 by (by apply Forall_take).
    f_equal. rewrite length_take. lia.
  - intros _. fold l. apply words_of_u32; [done|lia].
  - cbn. fold l. split; [rewrite length_words_of; lia|]. rewrite bytes_words by done. by apply overwrite_at.
Qed.

(** *** Descriptors are words *)

Lemma u32_bits z : 0 <= z -> (forall i, 32 <= i -> Z.testbit z i = false) -> is_u32 z.
Proof.
  intros Hz Hb. split; [done|]. change 4294967296 with (2 ^ 32). destruct (Z.eq_dec z 0) as [->|]; [done|]. apply Z.log2_lt_pow2; [lia|].
  apply Z.lt_nge. intros Hle. specialize (Hb (Z.log2 z) Hle). by rewrite Z.bit_log2 in Hb by lia.
Qed.
Lemma u32_lor a b : is_u32 a -> is_u32 b -> is_u32 (Z.lor a b).
Proof.
  intros [Ha Ha'] [Hb Hb']. apply u32_bits; [by apply Z.lor_nonneg|]. intros i Hi. rewrite Z.lor_spec.
  assert (E : forall z, 0 <= z < 4294967296 -> Z.testbit z i = false).
  { intros z Hz. destruct (Z.eq_dec z 0) as [->|]; [apply Z.bits_0|]. apply Z.bits_above_log2; [lia|].
    assert (Z.log2 z < 32) by (apply Z.log2_lt_pow2; lia). lia. }
  by rewrite !E.
Qed.
Lemma FormatValue_u32 p b v : 0 <= p -> 0 < b -> p + b <= 32 -> is_u32 (FormatValue p b v).
Proof.
  intros. apply u32_bits.
  - unfold FormatValue. apply Z.land_nonneg. left. apply u32_range.
  - intros i Hi. rewrite FormatValue_testbit by lia. destruct (Z.ltb_spec i (p + b)); [lia|]. by rewrite ?andb_false_r.
Qed.
Lemma StaticBufferDesc_u32 size id : is_u32 (StaticBufferDesc size id).
Proof. repeat apply u32_lor; apply FormatValue_u32; lia. Qed.
Lemma MappedBufferDesc_u32 size perms : is_u32 (MappedBufferDesc size perms).
Proof. repeat apply u32_lor; apply FormatValue_u32; lia. Qed.
Lemma handle_desc_u32 (copy : bool) n : is_u32 ((if copy then CopyHandleDesc else MoveHandleDesc) n).
Proof. destruct copy; apply u32_lor; try apply u32_range; done. Qed.

(** *** Objects *)

Lemma wp_add_outgoing l c : Z.of_nat (length (request_handles c) + length l) < 2 ^ 32 ->
  wp (add_outgoing l) (fun ids c' => ids = Z.of_nat <$> seq (length (request_handles c)) (length l) /\
    c' = c <| request_handles := request_handles c ++ l |>) c.
Proof.
  revert c. induction l as [|o l IH]; intros c Hc; cbn [add_outgoing length seq].
  { wp_step. split; [done|]. rewrite app_nil_r. by destruct c. }
  cbn [length] in Hc. wp_step. unfold AddOutgoingHandle. repeat wp_step. set (c1 := c <| request_handles ::= _ |>).
  assert (E : length (request_handles c1) = S (length (request_handles c))) by (cbn; rewrite length_app; cbn; lia).
  eapply wp_mono; [apply IH; rewrite E; lia|]. cbn beta. intros ids c' [-> ->]. wp_step. rewrite E. split.
  - cbn [fmap list_fmap]. f_equal. rewrite u32_small; unfold is_u32; lia.
  - cbn. by rewrite <- app_assoc.
Qed.
Lemma wp_push_many l h : Forall is_u32 l -> (index h + length l <= length (cmd_buf (context h)))%nat ->
  wp (for_each l Push) (fun _ h' => stepped (length l) h h' /\ forall j v, l !! j = Some v -> cmd_buf (context h') !! (index h + j)%nat = Some v) h.
Proof.
  revert h. induction l as [|v l IH]; intros h Hl Hi; cbn [for_each length] in *.
  { wp_step. split; [|done]. split; [done|lia|apply keeps_refl|done|done]. }
  apply Forall_cons in Hl as [Hv Hl]. wp_step. eapply wp_mono; [apply wp_Push; [done|lia]|]. cbn beta. intros _ h1 [H1 G1].
  pose proof (stepped_index _ _ _ H1) as E1. pose proof (keeps_length _ _ _ _ (stepped_keeps _ _ _ H1)) as L1.
  eapply wp_mono; [apply IH; [done|]|]; [rewrite E1, L1; lia|]. cbn beta. intros _ h2 [H2 G2]. split.
  - by apply (stepped_trans 1 (length l) h h1 h2).
  - intros [|j] w Hj; cbn in Hj.
    + injection Hj as ->. rewrite Nat.add_0_r. rewrite (keeps_lookup _ _ _ _ _ (stepped_keeps _ _ _ H2)) by lia. exact G1.
    + rewrite <- (G2 j w Hj). f_equal. lia.
Qed.
Lemma wp_PushObjects (copy : bool) l h : (index h + S (length l) <= length (cmd_buf (context h)))%nat ->
  Z.of_nat (length (request_handles (context h)) + length l) < 2 ^ 32 ->
  wp (if copy then PushCopyObjects l else PushMoveObjects l) (fun _ h' =>
    index h' = (index h + S (length l))%nat /\ header h' = header h /\ keeps (index h) [] (context h) (context h') /\
    holds (PObjects copy l) (index h) (context h') /\ length (request_handles (context h')) = (length (request_handles (context h)) + length l)%nat) h.
Proof.
  intros Hi Hn. set (n := length (request_handles (context h))) in *.
  assert (G : wp (ids ← in_context (add_outgoing l); PushHLEHandles (if copy then CopyHandleDesc else MoveHandleDesc) ids) (fun _ h' =>
    index h' = (index h + S (length l))%nat /\ header h' = header h /\ keeps (index h) [] (context h) (context h') /\
    holds (PObjects copy l) (index h) (context h') /\ length (request_handles (context h')) = (n + length l)%nat) h); [|by destruct copy].
  wp_step. apply wp_in_context. eapply wp_mono; [by apply wp_add_outgoing|]. cbn beta. intros ids c1 [-> ->]. fold n. set (ids := Z.of_nat <$> seq n (length l)).
  set (h1 := h <| context := _ |>). assert (Lids : length ids = length l) by (unfold ids; by rewrite length_fmap, length_seq).
  assert (K1 : keeps (index h) [] (context h) (context h1)).
  { split; try done. intros j o Hj. cbn. by apply lookup_app_l_Some. }
  unfold PushHLEHandles. wp_step. eapply wp_mono; [apply wp_Push; [apply handle_desc_u32|cbn; lia]|]. cbn beta. intros _ h2 [H2 G2].
  pose proof (stepped_index _ _ _ H2) as E2. pose proof (stepped_keeps _ _ _ H2) as K2. pose proof (keeps_length _ _ _ _ K2) as L2.
  change (index h1) with (index h) in E2, G2, K2. change (cmd_buf (context h1)) with (cmd_buf (context h)) in L2.
  eapply wp_mono; [apply wp_push_many; [|rewrite E2, L2, Lids; lia]|].
  { unfold ids. apply Forall_fmap, Forall_forall. intros x Hx. apply elem_of_seq in Hx. unfold is_u32. cbn. lia. }
  cbn beta. intros _ h3 [H3 G3]. pose proof (stepped_index _ _ _ H3) as E3. pose proof (stepped_keeps _ _ _ H3) as K3.
  rewrite Lids in *. rewrite (stepped_handles _ _ _ H3), (stepped_handles _ _ _ H2).
  split; [lia|]. split; [by rewrite (stepped_header _ _ _ H3), (stepped_header _ _ _ H2)|]. split.
  { eapply (keeps_trans _ (index h) [] []); [exact K1| |done]. eapply (keeps_trans _ (index h2) [] []); [exact K2|exact K3|lia]. }
  split; [|cbn; by rewrite length_app].
  cbn. split; [rewrite (keeps_lookup _ _ _ _ _ K3) by lia; rewrite G2; by destruct copy|].
  exists n. intros j o Hj. pose proof (lookup_lt_Some _ _ _ Hj) as Hlt. split.
  - rewrite <- (G3 j (Z.of_nat (n + j))); [f_equal; lia|]. unfold ids. by rewrite list_lookup_fmap, lookup_seq_lt by done.
  - rewrite (stepped_handles _ _ _ H3), (stepped_handles _ _ _ H2). cbn. rewrite lookup_app_r by (unfold n; lia). unfold n. by rewrite Nat.add_comm, Nat.add_sub.
Qed.

(** *** Every parameter *)

(** What a builder can go on from: the words left are enough. *)
Definition room (ps : list Param) (h : RequestHelper) : Prop :=
  (index h + sum_list (words_of_param <$> ps) <= length (cmd_buf (context h)))%nat /\ Forall is_u32 (cmd_buf (context h)) /\
  length (static_buffers (context h)) = 16%nat /\ (length (request_handles (context h)) <= index h)%nat /\ Z.of_nat (length (cmd_buf (context h))) < 2 ^ 32.
Record pushed (p : Param) (h h' : RequestHelper) : Prop := {
  pushed_header : header h' = header h;
  pushed_index : index h' = (index h + words_of_param p)%nat;
  pushed_keeps : keeps (index h) (static_of p) (context h) (context h');
  pushed_holds : holds p (index h) (context h');
  pushed_handles : (length (request_handles (context h')) <= length (request_handles (context h)) + words_of_param p)%nat;
}.
Lemma pushed_stepped p n h h' : stepped n h h' -> static_of p = [] -> words_of_param p = n -> holds p (index h) (context h') -> pushed p h h'.
Proof. intros [H1 H2 H3 H4 H5] Hs Hw Hh. split; [done|by rewrite Hw|by rewrite Hs|done|rewrite H4; lia]. Qed.
Lemma wp_push_two v w h : is_u32 v -> is_u32 w -> (index h + 2 <= length (cmd_buf (context h)))%nat ->
  wp (Push v;; Push w) (fun _ h' => stepped 2 h h' /\ cmd_buf (context h') !! index h = Some v /\ cmd_buf (context h') !! S (index h) = Some w) h.
Proof.
  intros Hv Hw Hi. wp_step. eapply wp_mono; [apply wp_Push; [done|lia]|]. cbn beta. intros _ h1 [H1 G1].
  pose proof (stepped_index _ _ _ H1) as E1. pose proof (keeps_length _ _ _ _ (stepped_keeps _ _ _ H1)) as L1.
  eapply wp_mono; [apply wp_Push; [done|lia]|]. cbn beta. intros _ h2 [H2 G2]. split; [by apply (stepped_trans 1 1 h h1 h2)|].
  rewrite (keeps_lookup _ _ _ _ _ (stepped_keeps _ _ _ H2)) by lia. split; [done|]. rewrite <- G2. f_equal. lia.
Qed.
Lemma wp_push p h : param_ok (request_mapped_buffers (context h)) p -> room [p] h -> wp (push p) (fun _ h' => pushed p h h') h.
Proof.
  intros Hp (Hi & Hu & Hs & Hh & Hl). change (index h + (words_of_param p + 0) <= length (cmd_buf (context h)))%nat in Hi.
  assert (Hraw : forall bytes, Forall is_byte bytes -> words_of_param p = words_for (length bytes) -> static_of p = [] ->
    (forall c, raw_at bytes (index h) (cmd_buf c) -> holds p (index h) c) -> wp (PushRaw bytes) (fun _ h' => pushed p h h') h).
  { intros bytes Hb Hw Hst Hc. eapply wp_mono; [apply wp_PushRaw; [done|lia|done]|]. cbn beta. intros _ h' [H1 H2]. eapply pushed_stepped; [exact H1|done|done|by apply Hc]. }
  destruct p; cbn [param_ok words_of_param] in Hp, Hi; cbn [push].
  - eapply wp_mono; [apply wp_Push; [done|lia]|]. intros _ h' [H1 H2]. by eapply pushed_stepped.
  - eapply wp_mono; [apply wp_Push; [apply u32_range|lia]|]. intros _ h' [H1 H2]. by eapply pushed_stepped.
  - by apply (Hraw (le_encode 1 v)); [apply le_encode_bytes|..].
  - by apply (Hraw (le_encode 2 v)); [apply le_encode_bytes|..].
  - eapply wp_mono; [apply wp_push_two; [apply u32_range..|lia]|]. intros _ h' [H1 H2]. by eapply pushed_stepped.
  - by apply (Hraw (le_encode 1 (if b then 1 else 0))); [apply le_encode_bytes|..].
  - by apply Hraw.
  - pose proof (wp_PushObjects copy pointers h ltac:(lia) ltac:(lia)) as G. destruct copy.
    all: eapply wp_mono; [exact G|]; cbn beta; intros _ h' (G1 & G2 & G3 & G4 & G5); split; [done|exact G1|exact G3|exact G4|cbn; lia].
  - destruct Hp as [Hd Hid]. unfold PushStaticBuffer, MAX_STATIC_BUFFERS. rewrite (proj2 (Z.ltb_lt id 16)) by lia. wp_step. apply wp_assert; [done|].
    wp_step. eapply wp_mono; [apply wp_Push; [apply StaticBufferDesc_u32|lia]|]. cbn beta. intros _ h1 [H1 G1].
    pose proof (stepped_index _ _ _ H1) as E1. pose proof (keeps_length _ _ _ _ (stepped_keeps _ _ _ H1)) as L1.
    wp_step. eapply wp_mono; [apply wp_Push; [done|lia]|]. cbn beta. intros _ h2 [H2 G2].
    pose proof (stepped_trans _ _ _ _ _ H1 H2) as [S1 S2 S3 S4 S5].
    assert (Hlt : (Z.to_nat id < length (static_buffers (context h2)))%nat) by (rewrite S5, Hs; lia).
    destruct (lookup_lt_is_Some_2 _ _ Hlt) as [old Hold]. apply wp_in_context. unfold AddStaticBuffer. do 2 wp_step. wp_step.
    eapply wp_deref; [exact Hold|]. wp_step. split; cbn -[Nat.add]; [done|done| | |rewrite S4; lia].
    + destruct S3 as [K1 K2 K3 K4 K5 K6 K7]. split; try done; cbn; [by rewrite length_insert|].
      intros id' H0 Hne. rewrite list_lookup_insert_ne; [apply K6; [done|apply not_elem_of_nil]|]. intros E. apply Hne. apply list_elem_of_singleton. lia.
    + rewrite (keeps_lookup _ _ _ _ _ (stepped_keeps _ _ _ H2)) by lia. split; [exact G1|]. split; [exists 0xDEADC0DE; rewrite <- G2; f_equal; lia|].
      by apply list_lookup_insert_eq.
  - eapply wp_mono; [apply wp_push_two; [apply MappedBufferDesc_u32|apply Hp|lia]|]. cbn beta. intros _ h' (H1 & G1 & G2). eapply pushed_stepped; [exact H1|done|done|].
    cbn. rewrite (keeps_mapped _ _ _ _ (stepped_keeps _ _ _ H1)). split; [done|]. split; [done|apply Hp].
Qed.

(** ** Popping *)

Lemma wp_cmd_get i v c (Q : Z -> HLERequestContext -> Prop) : cmd_buf c !! i = Some v -> Q v c -> wp (cmd_get i) Q c.
Proof. intros Hv HQ. unfold cmd_get, array_get. do 2 wp_step. by eapply wp_deref. Qed.
(** The helper after it read [n] words *)
Definition stepped_over (n : nat) (h : RequestHelper) : RequestHelper := h <| index ::= fun i => (i + n)%nat |>.
Lemma wp_Pop v h (Q : Z -> RequestHelper -> Prop) : cmd_buf (context h) !! index h = Some v -> Q v (stepped_over 1 h) -> wp Pop Q h.
Proof.
  intros Hv HQ. unfold Pop. do 2 wp_step. wp_step. apply wp_in_context. eapply wp_cmd_get; [exact Hv|]. unfold advance. do 2 wp_step. wp_step. by destruct h.
Qed.
Lemma wp_PopRaw bytes h (Q : list Z -> RequestHelper -> Prop) : raw_at bytes (index h) (cmd_buf (context h)) -> Q bytes (stepped_over (words_for (length bytes)) h) ->
  wp (PopRaw (length bytes)) Q h.
Proof.
  intros [Hl He] HQ. unfold PopRaw. do 2 wp_step. wp_step. apply wp_in_context. unfold memcpy_from. do 2 wp_step. rewrite bool_decide_eq_true_2 by done.
  wp_step. rewrite He. unfold advance. do 2 wp_step. wp_step. by destruct h.
Qed.
Lemma wp_pop_many l h (Q : list Z -> RequestHelper -> Prop) : (forall j v, l !! j = Some v -> cmd_buf (context h) !! (index h + j)%nat = Some v) ->
  Q l (stepped_over (length l) h) -> wp (pop_many (length l)) Q h.
Proof.
  revert h Q. induction l as [|v l IH]; intros h Q Hl HQ; cbn [length pop_many] in *.
  { wp_step. unfold stepped_over, set_field in HQ. rewrite Nat.add_0_r in HQ. by destruct h. }
  wp_step. eapply wp_Pop; [specialize (Hl 0%nat v eq_refl); by rewrite Nat.add_0_r in Hl|]. wp_step. apply IH.
  - intros j w Hj. specialize (Hl (S j) w Hj). cbn. by rewrite <- Nat.add_assoc.
  - wp_step. unfold stepped_over, set_field in *. cbn in *. by rewrite <- Nat.add_assoc.
Qed.
Lemma wp_incoming_objects first l c : (forall j o, l !! j = Some o -> request_handles c !! (first + j)%nat = Some o) ->
  wp (incoming_objects (Z.of_nat <$> seq first (length l))) (fun r c' => r = l /\ c' = c) c.
Proof.
  revert first. induction l as [|o l IH]; intros first Hl; cbn [length seq fmap list_fmap incoming_objects]; [by wp_step|].
  pose proof (Hl 0%nat o eq_refl) as Ho. rewrite Nat.add_0_r in Ho. pose proof (lookup_lt_Some _ _ _ Ho) as Hlt.
  wp_step. unfold GetIncomingHandle. do 2 wp_step. rewrite (proj2 (Z.ltb_lt _ _)) by lia. wp_step. apply wp_assert; [done|]. rewrite Nat2Z.id. eapply wp_deref; [exact Ho|].
  wp_step. eapply wp_mono; [apply IH|].
  - intros j p Hj. rewrite <- (Hl (S j) p Hj). f_equal. lia.
  - cbn beta. intros r c' [-> ->]. by wp_step.
Qed.

Lemma handle_desc_number (copy : bool) n : 1 <= n <= 64 -> let d := (if copy then CopyHandleDesc else MoveHandleDesc) n in
  IsHandleDescriptor d = true /\ HandleNumberFromDesc d = n.
Proof.
  intros Hn d. pose proof (handle_descs n Hn) as Hd. unfold handle_desc_ok in Hd. apply andb_true_iff in Hd as [[H1%Z.eqb_eq H2%Z.eqb_eq]%andb_true_iff H3].
  split; [|by unfold d; destruct copy]. assert (E : match GetDescriptorType d with CopyHandle | MoveHandle => True | _ => False end).
  { unfold d. destruct copy; destruct (GetDescriptorType (MoveHandleDesc n)); try done; by destruct (GetDescriptorType (CopyHandleDesc n)). }
  unfold GetDescriptorType in E. destruct (IsHandleDescriptor d); [done|]. by repeat case_match.
Qed.
Lemma static_desc_id size id : 0 <= id < 16 -> u8 (static_buffer_id (StaticBufferDesc size id)) = id.
Proof.
  intros Hid. assert (static_buffer_id (StaticBufferDesc size id) = id) as ->; [|unfold u8; rewrite Z.mod_small; lia].
  unfold static_buffer_id, StaticBufferDesc. solve_field.
Qed.
Lemma word_raw i w l : l !! i = Some w -> raw_at (le_encode 4 w) i l.
Proof.
  intros Hi. pose proof (lookup_lt_Some _ _ _ Hi) as Hlt. split; [rewrite length_le_encode; lia|]. rewrite length_le_encode.
  rewrite <- (take_drop_middle l i w Hi) at 1. unfold bytes_of. rewrite fmap_app, concat_app, fmap_cons. fold (bytes_of (firstn i l)).
  cbn [concat]. rewrite drop_app_length' by (rewrite length_bytes_of, length_take; lia). by rewrite take_app_length' by (by rewrite length_le_encode).
Qed.
Lemma lor_halves v : is_u64 v -> Z.lor (u64 (Z.shiftl (u32 (Z.shiftr v 32)) 32)) (u32 v) = v.
Proof.
  intros Hv. unfold u64, u32. change 18446744073709551616 with (2 ^ 64). change 4294967296 with (2 ^ 32). unfold is_u64 in Hv.
  apply Z.bits_inj'. intros i Hi. rewrite Z.lor_spec.
  assert (Hhigh : 64 <= i -> Z.testbit v i = false).
  { intros H. destruct (Z.eq_dec v 0) as [->|]; [apply Z.bits_0|]. apply Z.bits_above_log2; [lia|]. assert (Z.log2 v < 64) by (apply Z.log2_lt_pow2; lia). lia. }
  destruct (Z.lt_ge_cases i 64); [rewrite (Z.mod_pow2_bits_low _ 64) by lia|rewrite (Z.mod_pow2_bits_high _ 64), Z.mod_pow2_bits_high, Hhigh by lia; done].
  rewrite Z.shiftl_spec by lia. destruct (Z.lt_ge_cases i 32).
  - rewrite (Z.mod_pow2_bits_low v) by lia. rewrite Z.testbit_neg_r by lia. done.
  - rewrite Z.mod_pow2_bits_low by lia. rewrite Z.shiftr_spec by lia. rewrite (Z.mod_pow2_bits_high v) by lia. rewrite orb_false_r. f_equal. lia.
Qed.

Lemma wp_pop p h : holds p (index h) (context h) -> param_ok (request_mapped_buffers (context h)) p ->
  wp (pop_like p) (fun r h' => r = p /\ h' = stepped_over (words_of_param p) h) h.
Proof.
  intros Hh Hp. destruct p; cbn [holds param_ok] in Hh, Hp; cbn [pop_like].
  - wp_step. eapply wp_Pop; [exact Hh|]. by wp_step.
  - wp_step. unfold Pop_s32. wp_step. apply word_raw in Hh. change 4%nat with (length (le_encode 4 (u32 v))). apply wp_PopRaw; [exact Hh|].
    wp_step. wp_step. rewrite le_decode_encode by apply u32_range. split; [|done]. f_equal. word.
  - wp_step. unfold Pop_u8. wp_step. change 1%nat with (length (le_encode 1 v)). apply wp_PopRaw; [exact Hh|]. do 2 wp_step.
    rewrite le_decode_encode; [done|]. unfold is_byte in Hp. cbn. lia.
  - wp_step. unfold Pop_u16. wp_step. change 2%nat with (length (le_encode 2 v)). apply wp_PopRaw; [exact Hh|]. do 2 wp_step.
    rewrite le_decode_encode; [done|]. unfold is_u16 in Hp. cbn. lia.
  - destruct Hh as [H1 H2]. wp_step. unfold Pop_u64. wp_step. eapply wp_Pop; [exact H1|]. wp_step. eapply wp_Pop; [|do 2 wp_step; split].
    + cbn. rewrite <- H2. f_equal. lia.
    + by rewrite lor_halves.
    + unfold stepped_over, set_field. cbn. by rewrite <- Nat.add_assoc.
  - wp_step. unfold Pop_bool, Pop_u8. do 2 wp_step. change 1%nat with (length (le_encode 1 (if b then 1 else 0))). apply wp_PopRaw; [exact Hh|]. do 2 wp_step. wp_step.
    by destruct b.
  - wp_step. eapply wp_PopRaw; [exact Hh|]. by wp_step.
  - destruct Hh as (Hd & first & Hl). destruct (handle_desc_number copy (Z.of_nat (length pointers)) ltac:(lia)) as [E1 E2].
    wp_step. unfold PopGenericObjects, PopHLEHandles. do 2 wp_step. eapply wp_Pop; [exact Hd|]. wp_step. apply wp_assert; [exact E1|].
    wp_step. apply wp_assert; [by rewrite E2, Z.eqb_refl|]. set (ids := Z.of_nat <$> seq first (length pointers)).
    assert (Lids : length ids = length pointers) by (unfold ids; by rewrite length_fmap, length_seq). rewrite <- Lids. apply wp_pop_many.
    { intros j v Hj. pose proof (lookup_lt_Some _ _ _ Hj) as Hlt. rewrite Lids in Hlt. destruct (lookup_lt_is_Some_2 pointers j Hlt) as [o Ho].
      unfold ids in Hj. rewrite list_lookup_fmap, lookup_seq_lt in Hj by done. injection Hj as <-. destruct (Hl j o Ho) as [G _]. rewrite <- G. cbn. f_equal. lia. }
    apply wp_in_context. eapply wp_mono; [apply wp_incoming_objects; intros j o Hj; by apply Hl|]. cbn beta. intros r c [-> ->]. wp_step.
    split; [done|]. rewrite Lids. unfold stepped_over, set_field. cbn. f_equal. lia.
  - destruct Hh as (Hd & [v Hv] & Hs). wp_step. unfold PopStaticBuffer. wp_step. eapply wp_Pop; [exact Hd|]. wp_step. eapply wp_Pop.
    { cbn. rewrite <- Hv. f_equal. lia. }
    apply wp_in_context. rewrite static_desc_id by apply Hp. unfold GetStaticBuffer. do 2 wp_step. eapply wp_deref; [exact Hs|]. wp_step. split; [done|].
    unfold stepped_over, set_field. cbn. f_equal. lia.
  - destruct Hh as (Hd & Hi & Hb). wp_step. unfold PopMappedBuffer. wp_step. eapply wp_Pop; [exact Hd|]. unfold GenerateDescriptor. rewrite mapped_type.
    wp_step. apply wp_assert; [done|]. wp_step. eapply wp_Pop; [cbn; rewrite <- Hi; f_equal; lia|].
    apply wp_in_context. unfold GetMappedBuffer. do 2 wp_step. pose proof (lookup_lt_Some _ _ _ Hb) as Hlt. destruct Hp as [Hu _]. unfold is_u32 in Hu.
    rewrite (proj2 (Z.ltb_lt _ _)) by (cbn; lia). wp_step. apply wp_assert; [done|]. eapply wp_deref; [exact Hb|]. wp_step. split; [done|].
    unfold stepped_over, set_field. cbn. f_equal. lia.
Qed.

(** ** Messages *)

Fixpoint all_hold (ps : list Param) (i : nat) (c : HLERequestContext) : Prop :=
  match ps with [] => True | p :: rest => holds p i c /\ all_hold rest (i + words_of_param p) c end.
Lemma room_cons p ps h h' : room (p :: ps) h -> pushed p h h' -> room ps h' /\ request_mapped_buffers (context h') = request_mapped_buffers (context h).
Proof.
  intros (H1 & H2 & H3 & H4 & H5) [P1 P2 [K1 K2 K3 K4 K5 K6 K7] P4 P5].
  change (sum_list (words_of_param <$> p :: ps)) with (words_of_param p + sum_list (words_of_param <$> ps))%nat in H1.
  split; [|done]. unfold room. rewrite K1, P2, K5. split_and!; [lia|auto|done|lia|done].
Qed.
Lemma wp_push_all ps h : Forall (param_ok (request_mapped_buffers (context h))) ps -> NoDup (ps ≫= static_of) -> room ps h ->
  wp (for_each ps push) (fun _ h' => keeps (index h) (ps ≫= static_of) (context h) (context h') /\ all_hold ps (index h) (context h')) h.
Proof.
  revert h. induction ps as [|p ps IH]; intros h Hp Hnd Hr; cbn [for_each all_hold]; [wp_step; split; [apply keeps_refl|done]|].
  apply Forall_cons in Hp as [Hp Hps]. change ((p :: ps) ≫= static_of) with (static_of p ++ (ps ≫= static_of)) in *. apply NoDup_app in Hnd as (_ & Hdis & Hnd).
  wp_step. eapply wp_mono; [apply wp_push; [done|]|].
  { destruct Hr as (H1 & Hr). split; [|done]. change (sum_list (words_of_param <$> p :: ps)) with (words_of_param p + sum_list (words_of_param <$> ps))%nat in H1.
    change (sum_list (words_of_param <$> [p])) with (words_of_param p + 0)%nat. lia. }
  cbn beta. intros _ h1 H1. destruct (room_cons _ _ _ _ Hr H1) as [Hr1 Hm1]. pose proof (pushed_index _ _ _ H1) as E1.
  eapply wp_mono; [apply IH; [by rewrite Hm1|done|done]|]. cbn beta. intros _ h2 [K2 A2]. split.
  - eapply keeps_trans; [apply H1|exact K2|lia].
  - rewrite <- E1. split; [|exact A2]. eapply holds_keeps; [apply H1|exact K2|lia|]. intros id Hid. split; [|by apply Hdis].
    destruct p; cbn in Hid; try (by apply not_elem_of_nil in Hid). apply list_elem_of_singleton in Hid as ->. apply Hp.
Qed.
Lemma wp_pop_params ps h : Forall (param_ok (request_mapped_buffers (context h))) ps -> all_hold ps (index h) (context h) ->
  wp (pop_all ps) (fun r h' => r = ps /\ context h' = context h /\ index h' = (index h + sum_list (words_of_param <$> ps))%nat) h.
Proof.
  revert h. induction ps as [|p ps IH]; intros h Hp Hh; cbn [pop_all]; [wp_step; split_and!; [done|done|cbn; lia]|].
  apply Forall_cons in Hp as [Hp Hps]. destruct Hh as [Hh Hall]. wp_step. eapply wp_mono; [by apply wp_pop|]. cbn beta. intros x h1 [-> ->].
  wp_step. eapply wp_mono; [by apply IH|]. cbn beta. intros l h2 (-> & E1 & E2). wp_step. split_and!; [done|done|]. rewrite E2.
  change (sum_list (words_of_param <$> p :: ps)) with (words_of_param p + sum_list (words_of_param <$> ps))%nat. cbn [stepped_over set_field index]. cbn. lia.
Qed.

(** C39: a parser reads from a command buffer, in order, the parameters that a builder
    wrote there: integers of every width, structures of bytes, groups of objects,
    static buffers with different numbers and the mapped buffers of the request, as
    long as they fit in the 64 words, whatever the words held before. *)
Theorem parameters_roundtrip (header : Z) (ps : list Param) (h : RequestHelper) :
  is_u32 header -> length (cmd_buf (context h)) = 64%nat -> Forall is_u32 (cmd_buf (context h)) -> length (static_buffers (context h)) = 16%nat ->
  Forall (param_ok (request_mapped_buffers (context h))) ps -> NoDup (ps ≫= static_of) -> (1 + sum_list (words_of_param <$> ps) <= 64)%nat ->
  wp (RequestBuilder header;; for_each ps push;; RequestParser header;; pop_all ps)
    (fun r h' => r = ps /\ cmd_buf (context h') !! 0%nat = Some header /\ index h' = (1 + sum_list (words_of_param <$> ps))%nat) h.
Proof.
  intros Hh Hlen Hu Hst Hp Hnd Hsum. unfold RequestBuilder. wp_step. wp_step. wp_step. apply wp_in_context. unfold ClearIncomingObjects. wp_step. wp_step.
  apply wp_cmd_set; [cbn; lia|]. set (h1 := set_field context _ _).
  wp_step. eapply wp_mono; [apply wp_push_all; [exact Hp|exact Hnd|]|].
  { unfold room. split_and!; cbn; rewrite ?length_insert; try lia. by apply Forall_insert. }
  cbn beta. intros _ h2 [K2 A2]. unfold RequestParser. wp_step. wp_step.
  eapply wp_mono; [apply wp_pop_params; [by cbn; rewrite (keeps_mapped _ _ _ _ K2)|exact A2]|]. cbn beta. intros r h3 (-> & E1 & E2).
  split; [done|]. split; [|exact E2]. rewrite E1. cbn. rewrite (keeps_lookup _ _ _ _ 0 K2) by (cbn; lia). cbn. by rewrite list_lookup_insert_eq by lia.
Qed.

Definition demo_request : RequestHelper := mkRequestHelper (new_HLERequestContext 1 2 []) 1 0.
Definition demo_params : list Param := [PU32 7; PS32 (-1); PU8 200; PU64 (2 ^ 40 + 5); PRaw [1; 2; 3; 4; 5]; PObjects false [Some 30; None]; PStatic [9; 8] 3; PBool true].
Lemma parameters_roundtrip_witness : wp (RequestBuilder 0x10000;; for_each demo_params push;; RequestParser 0x10000;; pop_all demo_params) (fun r _ => r = demo_params) demo_request.
Proof.
  eapply wp_mono; [apply (parameters_roundtrip 0x10000 demo_params demo_request)|].
  - done.
  - reflexivity.
  - repeat (constructor; [done|]). constructor.
  - reflexivity.
  - unfold demo_params. repeat apply Forall_cons_2; cbn [param_ok]; unfold is_u32, is_s32, is_u64; try ((split; [done|lia]) || lia || done).
    all: repeat (constructor; try (unfold is_byte; lia)); try done.
  - apply NoDup_singleton.
  - cbn. unfold words_for. cbn. lia.
  - by intros r h' [-> _].
Defined.
