(* ===== verification/ServiceManager.v ===== *)
(** Services and how clients find them (src/.../core/hle/service/service.{h,cpp},
    sm/sm.{h,cpp} and sm/srv.{h,cpp}): the dispatch of requests to the functions of a
    service, the table of registered services, and the service "srv:" itself. *)

From S2P Require Import Prelude ResultCode ThreadQueueList HandleTable MemoryMap ResourceLimit IntervalSet MemoryRegion Memory MemoryAccess VmManager CoreTiming KernelState Thread WaitObject SyncObjects ThreadLife Process Ipc Sessions HleIpc IpcHelpers.

(** ** Results *)

Definition ERR_SERVICE_NOT_REGISTERED : result_code := ResultCode 1 ErrorModule.SRV ErrorSummary.WouldBlock ErrorLevel.Temporary.
Definition ERR_INVALID_NAME_SIZE : result_code := ResultCode 5 ErrorModule.SRV ErrorSummary.WrongArgument ErrorLevel.Permanent.
Definition ERR_NAME_CONTAINS_NUL : result_code := ResultCode 7 ErrorModule.SRV ErrorSummary.WrongArgument ErrorLevel.Permanent.
Definition ERR_ALREADY_REGISTERED : result_code :=
  ResultCode ErrorDescription.AlreadyExists ErrorModule.OS ErrorSummary.WrongArgument ErrorLevel.Permanent.

(** ** State *)

(** [ServiceManager]; the inverse map is only for the recorder. *)
Record ServiceManager := mkServiceManager { registered_services : gmap string oid; srv_interface : option Z }.
#[export] Instance eta_ServiceManager : Eta ServiceManager := fun s => mkServiceManager (registered_services s) (srv_interface s).
(** [SRV], with the callbacks it made for clients that sleep: the name each waits for *)
Record SRV := mkSRV {
  notification_semaphore : option oid;
  get_service_handle_delayed_map : gmap string oid;
  srv_callbacks : gmap Z string;
  next_callback : Z;
}.
#[export] Instance eta_SRV : Eta SRV := fun s =>
  mkSRV (notification_semaphore s) (get_service_handle_delayed_map s) (srv_callbacks s) (next_callback s).

Section ServiceManager.
Context {D IS : Type} {hooks : Hooks D IS} {services : Services D IS} `{Holds D Requests} `{Holds D ServiceManager} `{Holds D SRV}.
Abbreviation M := (M (KernelSystem D IS)).

(** ** [ServiceManager] *)

Definition ValidateServiceName (name : string) : result_code :=
  if bool_decide (String.length name = 0%nat) || bool_decide (8 < String.length name)%nat then ERR_INVALID_NAME_SIZE
  else if bool_decide (Ascii.zero ∈ String.list_ascii_of_string name) then ERR_NAME_CONTAINS_NUL
  else RESULT_SUCCESS.
Definition RegisterService (name : string) (max_sessions : Z) : M (ResultVal oid) :=
  if IsError (ValidateServiceName name) then mret (Failure (ValidateServiceName name))
  else
    s ← host_op (get (S := ServiceManager));
    match registered_services s !! name with
    | Some _ => mret (Failure ERR_ALREADY_REGISTERED)
    | None =>
        p ← CreatePortPair max_sessions name;
        host_op (modify (fun s : ServiceManager => s <| registered_services ::= <[name := p.2]> |>));;
        mret (Success p.1)
    end.
Definition GetServicePort (name : string) : M (ResultVal oid) :=
  if IsError (ValidateServiceName name) then mret (Failure (ValidateServiceName name))
  else
    s ← host_op (get (S := ServiceManager));
    mret (match registered_services s !! name with Some p => Success p | None => Failure ERR_SERVICE_NOT_REGISTERED end).
Definition ConnectToService (name : string) : M (ResultVal oid) :=
  r ← GetServicePort name;
  match r with Failure e => mret (Failure e) | Success client_port => Connect client_port end.

(** ** [ServiceFrameworkBase] *)

(** A function of a service; [None] is one without an implementation. *)
Definition Handler : Type := option (Z -> M unit).
Definition Handlers : Type := gmap Z Handler.
(** [RegisterHandlersBase]: a header that is there already is left. *)
Definition RegisterHandlers (functions : list (Z * Handler)) (handlers : Handlers) : Handlers :=
  foldl (fun m f => match m !! f.1 with Some _ => m | None => <[f.1 := f.2]> m end) handlers functions.
Definition SetHleHandler (port : oid) (handler : Z) : M unit := update_server_port port (fun p => p <| port_handler := Some handler |>).
Definition InstallAsService (service_name : string) (max_sessions handler : Z) : M unit :=
  r ← RegisterService service_name max_sessions;
  port ← Unwrap r;
  SetHleHandler port handler.
Definition InstallAsNamedPort (service_name : string) (max_sessions handler : Z) : M unit :=
  p ← CreatePortPair max_sessions service_name;
  SetHleHandler p.1 handler;;
  AddNamedPort service_name p.2.
(** [BitField::Assign] *)
Definition Assign (position bits storage value : Z) : Z :=
  Z.lor (Z.land storage (Z.lxor (BitField_mask position bits) 0xFFFFFFFF)) (FormatValue position bits value).
Definition ReportUnimplementedFunction (c : Z) : M unit :=
  ctx_op c (header ← cmd_get 0; cmd_set 0 (Assign 0 6 (Assign 6 6 header 1) 0);; cmd_set 1 0).
(** [HandleSyncRequest] *)
Definition dispatch (handlers : Handlers) (c : Z) : M unit :=
  header_code ← ctx_op c (cmd_get 0);
  match handlers !! header_code with
  | Some (Some f) => f c
  | _ => ReportUnimplementedFunction c
  end.

(** ** [SRV] *)

(** A helper on the context of a request *)
Definition helper_op {A} (c : Z) (m : MR A) : M A :=
  ctx_op c (fun x => match m (mkRequestHelper x 1 0) with Ret (a, h) => Ret (a, context h) | Crash f => Crash f end).
Definition string_of_bytes (l : list Z) : string := String.string_of_list_ascii ((fun b => Ascii.ascii_of_N (Z.to_N b)) <$> l).
Definition MAX_PENDING_NOTIFICATIONS : Z := 16.
Definition kMaxPortSize : Z := 8.
(** A reply that holds a result, and one with an object too *)
Definition reply_code (code : result_code) : MR unit := MakeBuilder 1 0;; Push code.
Definition reply_object (code : result_code) (o : oid) : MR unit := MakeBuilder 1 2;; Push code;; PushMoveObjects [Some o].

Definition RegisterClient (c : Z) : M unit :=
  helper_op c (
    RequestParser (MakeHeader 0x1 0 2);;
    pid_descriptor ← Pop;
    if negb (pid_descriptor =? CallingPidDesc) then reply_code ERR_INVALID_BUFFER_DESCRIPTOR
    else _ ← Pop; reply_code RESULT_SUCCESS).
Definition EnableNotification (c : Z) : M unit :=
  r ← CreateSemaphore 0 MAX_PENDING_NOTIFICATIONS "SRV:Notification";
  s ← Unwrap r;
  host_op (modify (fun v : SRV => v <| notification_semaphore := Some s |>));;
  helper_op c (RequestParser (MakeHeader 0x2 0 0);; MakeBuilder 1 2;; Push RESULT_SUCCESS;; PushCopyObjects [Some s]).

(** [SRV::ThreadCallback] *)
Definition make_srv_callback (name : string) : M Z :=
  host_op (fun v : SRV => Ret (next_callback v, v <| srv_callbacks ::= <[next_callback v := name]> |> <| next_callback ::= fun n => n + 1 |>)).
Definition SRV_ThreadCallback_WakeUp (name : string) (c : Z) : M unit :=
  client_port ← GetServicePort name;
  port ← Unwrap client_port;
  session ← Connect port;
  match session with
  | Success s => helper_op c (RequestBuilder (MakeHeader 0x5 1 2);; Push RESULT_SUCCESS;; PushMoveObjects [Some s])
  | Failure e =>
      if e =? ERR_MAX_CONNECTIONS_REACHED then crash AssertFailed
      else helper_op c (RequestBuilder (MakeHeader 0x5 1 0);; Push e)
  end.

(** What the client asked for *)
Definition parse_get_service_handle : MR (list Z * Z * Z) :=
  RequestParser (MakeHeader 0x5 4 0);;
  name_buf ← PopRaw 8; name_len ← Pop; flags ← Pop; mret (name_buf, name_len, flags).
Definition reply_get_service_handle (c : Z) (m : MR unit) : M unit := helper_op c (RequestParser (MakeHeader 0x5 4 0);; m).
Definition delay_client (name : string) (c : Z) : M unit :=
  get_handle ← make_srv_callback name;
  event ← SleepClientThread c "GetServiceHandle" (-1) (Some get_handle);
  host_op (modify (fun v : SRV => v <| get_service_handle_delayed_map ::= <[name := event]> |>)).
Definition GetServiceHandle (c : Z) : M unit :=
  r ← helper_op c parse_get_service_handle;
  let '(name_buf, name_len, flags) := r in
  let wait_until_available := Z.land flags 1 =? 0 in
  if kMaxPortSize <? name_len then reply_get_service_handle c (reply_code ERR_INVALID_NAME_SIZE)
  else
    let name := string_of_bytes (firstn (Z.to_nat name_len) name_buf) in
    client_port ← GetServicePort name;
    match client_port with
    | Failure e =>
        if wait_until_available && (e =? ERR_SERVICE_NOT_REGISTERED) then delay_client name c
        else reply_get_service_handle c (reply_code e)
    | Success port =>
        session ← Connect port;
        match session with
        | Success s => reply_get_service_handle c (reply_object RESULT_SUCCESS s)
        | Failure e =>
            if (e =? ERR_MAX_CONNECTIONS_REACHED) && wait_until_available then mret tt (* only logged *)
            else reply_get_service_handle c (reply_code e)
        end
    end.
Definition Subscribe (c : Z) : M unit :=
  helper_op c (RequestParser (MakeHeader 0x9 1 0);; _ ← Pop; reply_code RESULT_SUCCESS).
Definition Unsubscribe (c : Z) : M unit :=
  helper_op c (RequestParser (MakeHeader 0xA 1 0);; _ ← Pop; reply_code RESULT_SUCCESS).
(** [Core::System::RequestShutdown] sets a flag of the system. *)
Context (RequestShutdown : M unit).
Definition PublishToSubscriber (c : Z) : M unit :=
  notification_id ← helper_op c (RequestParser (MakeHeader 0xC 2 0);; i ← Pop; _ ← Pop_u8; mret i);
  (if notification_id =? 0x203 then RequestShutdown else mret tt);;
  helper_op c (RequestParser (MakeHeader 0xC 2 0);; reply_code RESULT_SUCCESS).

(** Signaling the client that waits for the name *)
Definition resume_delayed (name : string) : M unit :=
  v ← host_op (get (S := SRV));
  match get_service_handle_delayed_map v !! name with
  | Some event =>
      Event_Signal event;;
      host_op (modify (fun v : SRV => v <| get_service_handle_delayed_map ::= delete name |>))
  | None => mret tt
  end.
Definition SRV_RegisterService (c : Z) : M unit :=
  r ← helper_op c (RequestParser (MakeHeader 0x3 4 0);;
    name_buf ← PopRaw 8; name_len ← Pop; max_sessions ← Pop; mret (name_buf, name_len, max_sessions));
  let '(name_buf, name_len, max_sessions) := r in
  let name := string_of_bytes (firstn (Z.to_nat (Z.min name_len 8)) name_buf) in
  port ← RegisterService name max_sessions;
  match port with
  | Failure e => helper_op c (RequestParser (MakeHeader 0x3 4 0);; reply_code e)
  | Success p =>
      resume_delayed name;;
      helper_op c (RequestParser (MakeHeader 0x3 4 0);; reply_object RESULT_SUCCESS p)
  end.

(** The functions of the service *)
Definition srv_functions : list (Z * Handler) := [
  (MakeHeader 0x0001 0 2, Some RegisterClient);
  (MakeHeader 0x0002 0 0, Some EnableNotification);
  (MakeHeader 0x0003 4 0, Some SRV_RegisterService);
  (MakeHeader 0x0004 3 0, None);
  (MakeHeader 0x0005 4 0, Some GetServiceHandle);
  (MakeHeader 0x0006 3 2, None);
  (MakeHeader 0x0007 3 0, None);
  (MakeHeader 0x0008 4 0, None);
  (MakeHeader 0x0009 1 0, Some Subscribe);
  (MakeHeader 0x000A 1 0, Some Unsubscribe);
  (MakeHeader 0x000B 0 0, None);
  (MakeHeader 0x000C 2 0, Some PublishToSubscriber);
  (MakeHeader 0x000D 1 0, None);
  (MakeHeader 0x000E 3 0, None)].
Definition srv_handlers : Handlers := RegisterHandlers srv_functions ∅.
(** [ServiceManager::InstallInterfaces]; the service is the handler [srv]. *)
Definition InstallInterfaces (srv : Z) : M unit :=
  s ← host_op (get (S := ServiceManager));
  ASSERT (bool_decide (srv_interface s = None));;
  InstallAsNamedPort "srv:" 4 srv;;
  host_op (modify (fun s : ServiceManager => s <| srv_interface := Some srv |>)).
End ServiceManager.
