(* ===== verification/HleSpec.v ===== *)
(** Requests of services: a client that is put to sleep, and that is woken up when its
    request is done; the objects that go in and out of a request; and the clients that
    wait for a service that is not there yet
    (src/.../core/hle/kernel/hle_ipc.cpp, core/hle/service/sm/). *)

From S2P Require Import Prelude ResultCode HandleTable IntervalSet CoreTiming ThreadQueueList Memory KernelState Thread Scheduler Reschedule WaitObject WaitInvariant Wakeup SyncObjects Release Process Ipc Sessions WaitSync ThreadLife Suspend Resume Calls HleIpc IpcHelpers ServiceManager.

Section HostState.
Context {D IS : Type} {X : Type} `{HoldsLaws D X}.
Implicit Types (k : KernelSystem D IS) (x : X).

(** The part of the host's state, and the kernel with another one *)
Definition host k : X := held (devices (memory k)).
Definition set_host x k : KernelSystem D IS := k <| memory ::= fun s => s <| devices ::= hold x |> |>.
Lemma host_set_host x k : host (set_host x k) = x.
Proof. apply held_hold. Qed.
Lemma wp_host_op {A} (m : M X A) (Q : A -> KernelSystem D IS -> Prop) k : wp m (fun a x => Q a (set_host x k)) (host k) -> wp (host_op m) Q k.
Proof. unfold wp, host_op, memory_op, zoom, host. by destruct (m (held (devices (memory k)))) as [[a x]|]. Qed.
Lemma same_set_host x k : kernel_ok None k -> same_waits None k (set_host x k).
Proof. intros Hk. apply kernel_ok_same; try done; [|apply Hk]. eapply sched_hole_eq; [|apply Hk]. by split. Qed.
End HostState.

Section HleSpec.
Context {D IS : Type} {hooks : Hooks D IS} {Hhooks : HooksOk hooks} `{Hlaws : HoldsLaws D Requests}.
Implicit Types (k : KernelSystem D IS) (c : HLERequestContext).

(** ** Contexts *)

Definition context_at (i : Z) c k : Prop := contexts_table (host (X := Requests) k) !! i = Some c.
Lemma wp_ctx_op {A} i c (m : M HLERequestContext A) (Q : A -> KernelSystem D IS -> Prop) k : context_at i c k ->
  wp m (fun a c' => Q a (set_host ((host k) <| contexts_table ::= <[i := c']> |>) k)) c -> wp (ctx_op i m) Q k.
Proof.
  intros Hc Hm. unfold ctx_op. apply wp_host_op. unfold context_at in Hc. unfold wp in *. rewrite Hc. by destruct (m c) as [[a c']|].
Qed.

(** ** A client that sleeps *)

(** An object that is made after a change of a thread could as well be made before. *)
Lemma wp_make_later {A} t th f x (rest : oid -> M (KernelSystem D IS) A) (Q : A -> KernelSystem D IS -> Prop) k : thread_at t th k -> next_oid k <> t ->
  wp (o ← make_shared x; update_thread t f;; rest o) Q k -> wp (update_thread t f;; o ← make_shared x; rest o) Q k.
Proof.
  intros Ht Hne Hw. apply wp_bind. eapply wp_update_thread; [exact Ht|]. unfold make_shared, GenerateObjectID in *.
  unfold update_thread, update_object, get_object, wp, mbind, M_bind, mret, M_ret, get, modify in *. unfold set_thread, set_field in *. cbn in Hw |- *.
  rewrite lookup_insert_ne in Hw by done. unfold thread_at in Ht. rewrite Ht in Hw. cbn in Hw. by rewrite insert_insert_ne in Hw.
Qed.
Lemma set_thread_twice t a b k : set_thread t b (set_thread t a k) = set_thread t b k.
Proof. unfold set_thread, set_field. cbn. by rewrite insert_insert_eq. Qed.
Lemma wp_update_set_thread t a f (Q : unit -> KernelSystem D IS -> Prop) k : Q tt (set_thread t (f a) k) -> wp (update_thread t f) Q (set_thread t a k).
Proof.
  intros HQ. eapply wp_update_thread; [apply thread_at_set; by left|]. by rewrite set_thread_twice.
Qed.

(** An event of its own was made, and the client waits for it. *)
Record asleep (t e : oid) (id : Z) k k' : Prop := {
  asleep_fresh : objects k !! e = None;
  asleep_event : exists name, objects k' !! e = Some (OEvent (mkEventObject OneShot false name));
  asleep_calm : exists k1, kernel_ok None k1 /\ calm k k1 /\ suspended t [e] WaitHleEvent (Some (OtherCallback id)) k1 k';
  asleep_waiters : waiters k' e = [t];
}.
Lemma fresh_unlisted k e : kernel_ok None k -> objects k !! e = None -> waiters k e = [].
Proof.
  intros Hk He. destruct (waiters k e) as [|t l] eqn:E; [done|]. destruct (waiter_in _ _ (kernel_waits _ Hk) e t) as ((y & Hy & _) & _); [rewrite E; by left|].
  unfold W in Hy. by rewrite lookup_fmap, He in Hy.
Qed.
Lemma wp_SleepClientThread i c reason timeout cb t th k : kernel_ok None k -> context_at i c k -> ctx_thread c = t -> thread_at t th k -> status th = Running ->
  wp (SleepClientThread i reason timeout cb) (fun e k' => exists id, kernel_ok None k' /\ asleep t e id k k') k.
Proof.
  intros Hk Hc Hct Ht Hrun. unfold SleepClientThread. wp_step. eapply wp_ctx_op; [exact Hc|]. do 2 wp_step. wp_step. rewrite Hct.
  wp_step. unfold make_callback. apply wp_host_op. unfold wp at 1. set (id := next_request _). match goal with |- wp _ _ ?s => set (k1 := s) end.
  assert (S1 : same_waits None k k1) by (eapply same_waits_trans; [by apply same_set_host|apply same_set_host; by apply same_set_host]).
  pose proof (same_ok _ _ S1) as Hk1. assert (Ht1 : thread_at t th k1) by exact Ht.
  assert (Hne : next_oid k1 <> t) by (intros E; pose proof (sched_fresh _ _ (kernel_sched _ Hk1) t) as F; assert (G : Some (OThread th) = None) by (etrans; [symmetry; exact Ht1|apply F; lia]); done).
  set (ev := OEvent (mkEventObject OneShot false ("HLE Pause Event: " ++ reason)%string)). eapply wp_make_later; [exact Ht1|exact Hne|].
  pose proof (wp_make_shared ev k1 Hk1 I) as Hmk. apply wp_inv in Hmk as (e & k2 & Heq & M2). wp_step. eapply wp_intro; [exact Heq|].
  assert (L2 : waiters k2 = waiters k1 /\ e = next_oid k1) by (unfold make_shared, GenerateObjectID in Heq; cbn in Heq; by injection Heq as <- <-).
  destruct L2 as [L2 Ee]. destruct M2 as [Hk2 C2 F2 O2 _].
  assert (Ht2 : thread_at t th k2) by (unfold thread_at; rewrite O2, lookup_insert_ne by congruence; exact Ht1).
  assert (We : waitable (W k2) e) by (eapply object_waitable; [rewrite O2; apply lookup_insert_eq|done|done]).
  wp_step. eapply wp_update_thread; [exact Ht2|]. wp_step. apply wp_update_set_thread. wp_step. apply wp_update_set_thread.
  set (th1 := set_field wait_objects _ _).
  assert (Hadd : forall (Q : unit -> KernelSystem D IS -> Prop) k0, wp (add_waiting t [e]) Q k0 -> wp (AddWaitingThread e t) Q k0).
  { intros Q k0 H1%wp_unbind. eapply wp_mono; [exact H1|]. by intros [] k' H2. }
  wp_step. apply Hadd. eapply wp_enter_lists; [exact Hk2|exact Ht2|by intros o ->%list_elem_of_singleton| |].
  { split; [|cbn; eapply held_ok_insert; [apply Hk2|exact Ht2|]; exists th; split; [done|by apply mutexes_of_same]].
    eapply (sched_set_thread k2 t th th1); [apply Hk2|done|done|by rewrite Hrun|done|done]. }
  intros k3 th3 (B3 & W3 & L3) Ht3 He3. rewrite W_set_thread in W3.
  assert (Hwo : wait_objects th = []) by (eapply (idle_at None); [exact Hk2|done|exact Ht2|by rewrite Hrun]).
  assert (Hs3 : suspended t [e] WaitHleEvent (Some (OtherCallback id)) k2 k3).
  { injection He3. intros. split; [split; [apply B3| |apply B3]| |exact L3|].
    - rewrite W3. eapply (waits_ok_blocked (W k2) (waiters k2) (waiters k3) t _ _ [e]); [apply Hk2|exact (W_lookup _ _ _ Ht2)|exact Hwo|done|done|done| |by intros o ->%list_elem_of_singleton|exact L3].
      split; cbn; [done|by intros [|]].
    - exists th3. split; [exact Ht3|]. by split_and!.
    - intros u Hu. by rewrite W3, lookup_insert_ne. }
  assert (Hend : forall k4, same_waits None k3 k4 -> kernel_ok None k4 /\ asleep t e id k k4).
  { intros k4 S4. pose proof (suspended_same _ _ _ _ _ _ _ Hs3 S4) as Hs4. split; [apply Hs4|].
    assert (Fe : waiters k1 e = []) by (apply fresh_unlisted; [done|]; rewrite <- F2; done).
    assert (He : e <> t) by congruence. split.
    - exact F2.
    - exists ("HLE Pause Event: " ++ reason)%string. assert (G : W k4 !! e = Some ev) by (rewrite (suspended_rest _ _ _ _ _ _ Hs4 e He); apply (W_lookup k2 e ev); rewrite O2; apply lookup_insert_eq).
      apply W_lookup_inv in G as (x & Hx & E). destruct x; try done. cbn in E. by rewrite Hx, <- E.
    - exists k2. split; [done|]. split; [|exact Hs4]. etrans; [by apply (same_waits_calm _ _ S1)|exact C2].
    - rewrite (suspended_lists _ _ _ _ _ _ Hs4 e), bool_decide_eq_true_2 by (by left). by rewrite L2, Fe. }
  wp_step. destruct (0 <? timeout).
  - eapply wp_mono; [eapply wp_WakeAfterDelay; [apply Hs3|exact Ht3]|]. cbn beta. intros _ k4 S4. wp_step. exists id. by apply Hend.
  - do 2 wp_step. exists id. apply Hend. apply same_waits_refl, Hs3.
Qed.
(** Signaling the event makes the client ready again. *)
Lemma wp_signal_asleep t e id k k' : kernel_ok None k' -> asleep t e id k k' -> wp (Event_Signal e) (fun _ k2 => kernel_ok None k2 /\ is_ready (W k2) t) k'.
Proof.
  intros Hk' [_ (name & He) (k1 & _ & _ & Hs) Hw]. eapply wp_mono; [by eapply (wp_Event_Signal (hole := None))|]. cbn beta. intros _ k2 Hsig.
  split; [apply Hsig|]. destruct (suspended_thread _ _ _ _ _ _ Hs) as (th & Hth & Hst & _). destruct (thread_at_in _ _ _ Hth) as (th' & Hth' & Eth). cbn in Eth. injection Eth as ->.
  assert (Hne : t <> e) by (intros ->; unfold thread_at in Hth; congruence).
  destruct (signaled_wakes (hole := None) _ _ _ _ t Hsig) as (u & Hu & _ & Hr).
  - rewrite Hw. by left.
  - split; [unfold should_wait; by rewrite lookup_insert_eq|]. intros th2 Hth2. unfold thread_in in *. rewrite lookup_insert_ne in Hth2 by done.
    rewrite Hth' in Hth2. injection Hth2 as <-. cbn. congruence.
  - rewrite Hw in Hu. apply list_elem_of_singleton in Hu as ->. exact Hr.
Qed.
End HleSpec.


Lemma released_ready {D IS} t (k k' : KernelSystem D IS) : released None t k k' -> is_ready (W k') t.
Proof.
  intros [_ _ _ (th & Ht & Hst & _)]. destruct (thread_at_in _ _ _ Ht) as (th2 & Hth2 & E). exists th2. split; [done|]. cbn in E. by injection E as ->.
Qed.

(** ** Witness *)

(** A kernel with other devices *)
Definition with_devices {D D' IS} (d : D') (k : KernelSystem D IS) : KernelSystem D' IS :=
  mkKernelSystem (objects k) (wait_bases k) (next_oid k) (thread_managers k) (timer_manager k) (timing k)
    (mkMemorySystem (contents (memory k)) (page_tables (memory k)) (current_page_table (memory k)) (cache_marker (memory k)) (page_table_list (memory k))
      (renderer (memory k)) (plugin_fb_addr (memory k)) (rasterizer_log (memory k)) d) (memory_changed k)
    (memory_regions k) (resource_limits k) (current_cpu k) (current_process k) (stored_processes k) (process_list k)
    (named_ports k) (next_process_id k) (next_thread_id k) (next_object_id k) (reschedule_pending k).
Lemma with_devices_ok {D D' IS} (d : D') (k : KernelSystem D IS) : kernel_ok None k -> kernel_ok None (with_devices d k).
Proof. intros [[] [] []]. split; [split; assumption|split; assumption|split; assumption]. Qed.
Definition demo_requests : Requests := mkRequests {[ 0 := new_HLERequestContext 30 10 [] ]} ∅ ∅ 1 [].
#[local] Instance holds_itself : Holds Requests Requests := {| held d := d; hold x _ := x |}.
#[local] Instance holds_itself_laws : HoldsLaws Requests Requests.
Proof. by split. Qed.
#[local] Instance request_hooks : Hooks Requests unit := {|
  WaitObject.ReceiveIPCRequest _ _ := mret RESULT_SUCCESS;
  wake_service _ _ _ _ := mret tt;
  notify _ := mret tt;
|}.
Lemma request_hooks_ok : HooksOk request_hooks.
Proof. split; intros; by apply wp_ret. Qed.
