(* ===== verification/LdrRo.v ===== *)
(** The service that loads modules (src/.../core/hle/service/ldr_ro/ldr_ro.{h,cpp}): a client
    has a static module, and modules that are mapped from buffers, linked and registered. *)

From S2P Require Import Prelude ResultCode ThreadQueueList HandleTable MemoryMap ResourceLimit IntervalSet MemoryRegion Memory MemoryAccess VmManager CoreTiming KernelState Thread WaitObject SyncObjects ThreadLife Process Ipc Sessions HleIpc IpcHelpers ServiceManager Cro.

(** ** Results *)

Definition ErrorSummary_Internal : Z := 11.
Definition ERROR_ALREADY_INITIALIZED : result_code := ResultCode 1017 ErrorModule_RO ErrorSummary_Internal ErrorLevel.Permanent.
Definition ERROR_NOT_INITIALIZED : result_code := ResultCode 1016 ErrorModule_RO ErrorSummary_Internal ErrorLevel.Permanent.
Definition ERROR_MISALIGNED_ADDRESS : result_code := ResultCode ErrorDescription.MisalignedAddress ErrorModule_RO ErrorSummary.WrongArgument ErrorLevel.Permanent.
Definition ERROR_MISALIGNED_SIZE : result_code := ResultCode ErrorDescription.MisalignedSize ErrorModule_RO ErrorSummary.WrongArgument ErrorLevel.Permanent.
Definition ERROR_ILLEGAL_ADDRESS : result_code := ResultCode 15 ErrorModule_RO ErrorSummary_Internal ErrorLevel.Usage.
Definition ERROR_INVALID_MEMORY_STATE : result_code := ResultCode 8 ErrorModule_RO ErrorSummary.InvalidState ErrorLevel.Permanent.
Definition ERROR_NOT_LOADED : result_code := ResultCode 13 ErrorModule_RO ErrorSummary.InvalidState ErrorLevel.Permanent.
Definition ERROR_NOT_ZERO : result_code := ResultCode 29 ErrorModule_RO ErrorSummary_Internal ErrorLevel.Usage.

(** ** State *)

(** [ClientSlot], the data of a session, by its address *)
Record ClientSlot := mkClientSlot { loaded_crs : VAddr }.
Record ClientSlots := mkClientSlots { client_slots : gmap Z ClientSlot }.
Definition new_ClientSlot : ClientSlot := mkClientSlot 0.

Section RO.
Context `{Host} {D IS : Type} `{Devices D} {ops : IntervalSetOps IS} {hooks : Hooks D IS} `{Holds D Requests} `{Holds D ClientSlots}.
Abbreviation M := (M (KernelSystem D IS)).
(** [Core::System::InvalidateCacheRange] tells every processor; the handler that is [this];
    the number of steps the loops over modules get *)
Context (InvalidateCacheRange : Z -> Z -> M unit) (this : Z) (fuel : nat).

(** [GetSessionData] *)
Definition GetSessionData (c : Z) : M Z :=
  session ← ctx_op c (gets ctx_session);
  r ← host_op (get (S := Requests));
  match list_find (fun i => info_session i = session) (default [] (connected_sessions r !! this)) with
  | Some (_, info) => mret (info_data info)
  | None => crash AssertFailed
  end.
Definition get_slot (slot : Z) : M ClientSlot := s ← host_op (get (S := ClientSlots)); deref (client_slots s !! slot).
Definition set_slot (slot : Z) (crs : VAddr) : M unit :=
  host_op (modify (fun s : ClientSlots => mkClientSlots (<[slot := mkClientSlot crs]> (client_slots s)))).
(** [PopObject<Process>]: a null pointer for anything else than a process *)
Definition PopProcess : MR (option oid) := l ← PopGenericObjects 1; deref (l !! 0%nat).
Definition as_process_object (o : option oid) : M (option oid) :=
  match o with
  | None => mret None
  | Some o => k ← get; mret (match objects k !! o ≫= as_process with Some _ => Some o | None => None end)
  end.

(** The memory of the process, as [CROHelper] uses it *)
Definition kernel_memory (pt : Z) : ProcessMemory (KernelSystem D IS) := {|
  read8 a := KernelState.memory_op (Read8 a);
  read32 a := KernelState.memory_op (Read32 a);
  write32 a v := KernelState.memory_op (Write32 a v);
  read_block a n := KernelState.memory_op (ReadBlock pt a n);
  write_block a l := KernelState.memory_op (WriteBlock pt a (host_buffer l) (Z.of_nat (length l)));
  read_cstring a n := KernelState.memory_op (ReadCString a (Z.to_nat n));
  invalidate_cache_range := InvalidateCacheRange;
|}.

(** [VerifyBufferState]: the areas from the one that has the address on *)
Fixpoint verify_areas (areas : vma_map_t) (last : Z) : bool :=
  match areas with
  | [] => false
  | v :: areas =>
      if negb (permissions v =? Perm.ReadWrite) || negb (bool_decide (meminfo_state v = MemoryState.Private)) then false
      else if last <=? u32 (VmManager.base v + VmManager.size v) then true
      else verify_areas areas last
  end.
Definition buffer_state (buffer_ptr : VAddr) (size : Z) : Prelude.M (VmState D) bool :=
  vma ← FindVMA buffer_ptr;
  m ← map_of;
  mret (match vma with
    | None => false
    | Some b => verify_areas (base.filter (fun v => b <= VmManager.base v) m) (u32 (buffer_ptr + size))
    end).
Definition VerifyBufferState (process : oid) (buffer_ptr : VAddr) (size : Z) : M bool := vm_op process (buffer_state buffer_ptr size).

(** *** The checks that the functions share *)

Definition misaligned (x : Z) : bool := negb (Z.land x CITRA_PAGE_MASK =? 0).
(** The buffer, and the place it is mapped to; the result of a function holds its code. *)
Definition check_buffer {A} (refuse : result_code -> A) (process : option oid) (buffer_ptr address : VAddr) (size : Z) (k : oid -> M A) : M A :=
  if size <? CRO_HEADER_SIZE then mret (refuse ERROR_BUFFER_TOO_SMALL)
  else if misaligned buffer_ptr then mret (refuse ERROR_MISALIGNED_ADDRESS)
  else if misaligned address then mret (refuse ERROR_MISALIGNED_ADDRESS)
  else if misaligned size then mret (refuse ERROR_MISALIGNED_SIZE)
  else
    process ← deref process;
    valid ← VerifyBufferState process buffer_ptr size;
    if negb valid then mret (refuse ERROR_INVALID_MEMORY_STATE)
    else if (address <? PROCESS_IMAGE_VADDR) || (PROCESS_IMAGE_VADDR_END <? u32 (address + size)) then mret (refuse ERROR_ILLEGAL_ADDRESS)
    else k process.
(** The static module of the client *)
Definition if_initialized {A} (slot : Z) (refuse : result_code -> A) (k : VAddr -> M A) : M A :=
  s ← get_slot slot;
  if loaded_crs s =? 0 then mret (refuse ERROR_NOT_INITIALIZED) else k (loaded_crs s).

(** *** What the functions do with their parameters; [slot] is that of the session *)

Definition run_Initialize (slot : Z) (crs_buffer_ptr : VAddr) (crs_size : Z) (crs_address : VAddr) (process : option oid) : M result_code :=
  s ← get_slot slot;
  if negb (loaded_crs s =? 0) then mret ERROR_ALREADY_INITIALIZED
  else
    check_buffer id process crs_buffer_ptr crs_address crs_size (fun process =>
      CASCADE_CODE Map process crs_address crs_buffer_ptr crs_size Perm.Read true;
      pt ← page_table_of process;
      let memory := kernel_memory pt in
      InitCRS crs_address;;
      CASCADE_CODE Rebase fuel crs_address 0 crs_size 0 0 0 0 true;
      set_slot slot crs_address;;
      mret RESULT_SUCCESS).

(** A module that could not be loaded is unmapped. *)
Definition give_up_module (process : oid) (cro_address cro_buffer_ptr : VAddr) (cro_size : Z) (result : result_code) : M (result_code * Z) :=
  _ ← Unmap process cro_address cro_buffer_ptr cro_size Perm.ReadWrite true; mret (result, 0).
Definition run_LoadCRO (slot : Z) (link_on_load_bug_fix : bool) (cro_buffer_ptr cro_address : VAddr) (cro_size : Z) (data_segment_address : VAddr) (zero data_segment_size : Z)
    (bss_segment_address : VAddr) (bss_segment_size : Z) (auto_link : bool) (fix_level : Z) (crr_address : VAddr) (process : option oid) : M (result_code * Z) :=
  let refuse (c : result_code) : result_code * Z := (c, 0) in
  if_initialized slot refuse (fun crs =>
    check_buffer refuse process cro_buffer_ptr cro_address cro_size (fun process =>
      if negb (zero =? 0) then mret (refuse ERROR_NOT_ZERO)
      else
        result ← Map process cro_address cro_buffer_ptr cro_size Perm.Read true;
        if IsError result then mret (refuse result)
        else
          pt ← page_table_of process;
          let memory := kernel_memory pt in
          let failed := give_up_module process cro_address cro_buffer_ptr cro_size in
          result ← VerifyHash cro_size crr_address;
          if IsError result then failed result
          else
            result ← Rebase fuel cro_address crs cro_size data_segment_address data_segment_size bss_segment_address bss_segment_size false;
            if IsError result then failed result
            else
              result ← Link fuel cro_address crs link_on_load_bug_fix;
              if IsError result then failed result
              else
                Register cro_address crs auto_link;;
                fix_size ← Fix cro_address fix_level;
                result ← (if negb (fix_size =? cro_size)
                  then Unmap process (u32 (cro_address + fix_size)) (u32 (cro_buffer_ptr + fix_size)) (u32 (cro_size - fix_size)) Perm.ReadWrite true
                  else mret RESULT_SUCCESS);
                if IsError result then failed result
                else
                  exe ← GetExecutablePages cro_address;
                  result ← (if negb (exe.1 =? 0) then vm_op process (ReprotectRange exe.1 exe.2 Perm.ReadExecute) else mret RESULT_SUCCESS);
                  if IsError result then failed result
                  else
                    InvalidateCacheRange cro_address cro_size;;
                    _ ← ModuleName cro_address; (* only logged *)
                    mret (RESULT_SUCCESS, fix_size))).

(** The functions on a loaded module; [CROHelper] is made before the checks. *)
Definition on_module (slot : Z) (cro_address : VAddr) (process : option oid) (k : VAddr -> oid -> ProcessMemory (KernelSystem D IS) -> M result_code) : M result_code :=
  process ← deref process;
  pt ← page_table_of process;
  let memory := kernel_memory pt in
  if_initialized slot id (fun crs =>
    if misaligned cro_address then mret ERROR_MISALIGNED_ADDRESS
    else
      loaded ← IsLoaded cro_address;
      if negb loaded then mret ERROR_NOT_LOADED
      else _ ← ModuleName cro_address; (* only logged *) k crs process memory).
Definition run_UnloadCRO (slot : Z) (cro_address : VAddr) (zero : Z) (cro_buffer_ptr : VAddr) (process : option oid) : M result_code :=
  on_module slot cro_address process (fun crs process memory =>
    fixed_size ← GetFixedSize cro_address;
    Unregister cro_address crs;;
    CASCADE_CODE Unlink fuel cro_address crs;
    fixed ← IsFixed cro_address;
    CASCADE_CODE (if negb fixed then ClearRelocations cro_address else mret RESULT_SUCCESS);
    Unrebase cro_address false;;
    result ← Unmap process cro_address cro_buffer_ptr fixed_size Perm.ReadWrite true;
    InvalidateCacheRange cro_address fixed_size;;
    mret result).
Definition run_LinkCRO (slot : Z) (cro_address : VAddr) (process : option oid) : M result_code :=
  on_module slot cro_address process (fun crs process memory => Link fuel cro_address crs false).
Definition run_UnlinkCRO (slot : Z) (cro_address : VAddr) (process : option oid) : M result_code :=
  on_module slot cro_address process (fun crs process memory => Unlink fuel cro_address crs).
Definition run_Shutdown (slot : Z) (crs_buffer_ptr : VAddr) (process : option oid) : M result_code :=
  if_initialized slot id (fun crs =>
    process ← deref process;
    pt ← page_table_of process;
    let memory := kernel_memory pt in
    Unrebase crs true;;
    file_size ← GetFileSize crs;
    result ← Unmap process crs crs_buffer_ptr file_size Perm.ReadWrite true;
    set_slot slot 0;;
    mret result).

(** *** The functions of the service *)

(** The parameters are read, the function is run, and its result is the reply. *)
Definition answer {P R} (c header : Z) (parse : MR P) (body : Z -> P -> option oid -> M R) (reply : R -> MR unit) : M unit :=
  r ← helper_op c (RequestParser header;; p ← parse; o ← PopProcess; mret (p, o));
  process ← as_process_object r.2;
  slot ← GetSessionData c;
  v ← body slot r.1 process;
  helper_op c (RequestParser header;; reply v).
Definition reply_code (code : result_code) : MR unit := MakeBuilder 1 0;; Push code.
Definition Initialize (c : Z) : M unit :=
  answer c (MakeHeader 0x1 3 2) (b ← Pop; n ← Pop; a ← Pop; mret (b, n, a))
    (fun slot '(crs_buffer_ptr, crs_size, crs_address) => run_Initialize slot crs_buffer_ptr crs_size crs_address) reply_code.
Definition LoadCRR (c : Z) : M unit :=
  helper_op c (RequestParser (MakeHeader 0x2 2 2);; _ ← Pop; _ ← Pop; _ ← PopProcess; reply_code RESULT_SUCCESS).
Definition UnloadCRR (c : Z) : M unit :=
  helper_op c (RequestParser (MakeHeader 0x3 1 2);; _ ← Pop; _ ← PopProcess; reply_code RESULT_SUCCESS).
Definition LoadCRO (link_on_load_bug_fix : bool) (c : Z) : M unit :=
  answer c (MakeHeader (if link_on_load_bug_fix then 0x9 else 0x4) 11 2)
    (b ← Pop; a ← Pop; n ← Pop; da ← Pop; z ← Pop; ds ← Pop; ba ← Pop; bs ← Pop; auto ← Pop_bool; level ← Pop; crr ← Pop; mret (b, a, n, da, z, ds, ba, bs, auto, level, crr))
    (fun slot '(cro_buffer_ptr, cro_address, cro_size, data_segment_address, zero, data_segment_size, bss_segment_address, bss_segment_size, auto_link, fix_level, crr_address) =>
       run_LoadCRO slot link_on_load_bug_fix cro_buffer_ptr cro_address cro_size data_segment_address zero data_segment_size bss_segment_address bss_segment_size auto_link fix_level crr_address)
    (fun '(code, fix_size) => MakeBuilder 2 0;; Push code;; Push fix_size).
Definition UnloadCRO (c : Z) : M unit :=
  answer c (MakeHeader 0x5 3 2) (a ← Pop; z ← Pop; b ← Pop; mret (a, z, b))
    (fun slot '(cro_address, zero, cro_buffer_ptr) => run_UnloadCRO slot cro_address zero cro_buffer_ptr) reply_code.
Definition LinkCRO (c : Z) : M unit := answer c (MakeHeader 0x6 1 2) Pop run_LinkCRO reply_code.
Definition UnlinkCRO (c : Z) : M unit := answer c (MakeHeader 0x7 1 2) Pop run_UnlinkCRO reply_code.
Definition Shutdown (c : Z) : M unit := answer c (MakeHeader 0x8 1 2) Pop run_Shutdown reply_code.
Definition ro_functions : list (Z * Handler) := [
  (MakeHeader 0x0001 3 2, Some Initialize);
  (MakeHeader 0x0002 2 2, Some LoadCRR);
  (MakeHeader 0x0003 1 2, Some UnloadCRR);
  (MakeHeader 0x0004 11 2, Some (LoadCRO false));
  (MakeHeader 0x0005 3 2, Some UnloadCRO);
  (MakeHeader 0x0006 1 2, Some LinkCRO);
  (MakeHeader 0x0007 1 2, Some UnlinkCRO);
  (MakeHeader 0x0008 1 2, Some Shutdown);
  (MakeHeader 0x0009 11 2, Some (LoadCRO true))].

(** ** Theorems *)

Lemma filter_none {A} (P : A -> Prop) `{forall x, Decision (P x)} (l : list A) : (forall x, x ∈ l -> ~ P x) -> base.filter P l = [].
Proof. induction l as [|x l IH]; intros Hl; [done|]. rewrite filter_cons_False by (apply Hl; left). apply IH. intros y Hy. apply Hl. by right. Qed.
(** The memory can be read and written, and belongs to the process alone. *)
Definition private_rw (m : vma_map_t) (x : VAddr) : Prop := exists c, view m x = Some c /\ c_perms c = Perm.ReadWrite /\ c_state c = MemoryState.Private.
Lemma verify_areas_spec m1 areas last : forall p, chain 0 m1 p -> chain p areas MAX_ADDRESS -> p < last ->
  verify_areas areas last = true <-> last <= MAX_ADDRESS /\ forall x, p <= x < last -> private_rw (m1 ++ areas) x.
Proof.
  revert m1. induction areas as [|v areas IH]; intros m1 p H1' H2' Hp.
  - cbn in *. split; [done|]. lia.
  - pose proof H2' as (Hb & Hsz & H3'). cbn [verify_areas].
    assert (Hc : chain 0 (m1 ++ v :: areas) MAX_ADDRESS) by (apply chain_app; eauto). pose proof (chain_le _ _ _ H3') as Hle. pose proof (chain_le _ _ _ H1') as Hle0.
    assert (Hview : forall x, p <= x < p + VmManager.size v -> view (m1 ++ v :: areas) x = Some (cell_of v x)) by (intros x Hx; apply (view_mid _ _ _ _ _ _ Hc); lia).
    rewrite MAX_ADDRESS_u32 by lia. rewrite Hb in *.
    destruct (Z.eqb_spec (permissions v) Perm.ReadWrite) as [Hperm|Hperm]; cbn [negb orb].
    2:{ split; [done|]. intros [_ Hall]. destruct (Hall p) as (c & Hv & Hp1 & _); [lia|]. rewrite Hview in Hv by lia. injection Hv as <-. done. }
    destruct (decide (meminfo_state v = MemoryState.Private)) as [Hst|Hst].
    2:{ rewrite bool_decide_false by done. cbn [negb]. split; [done|]. intros [_ Hall]. destruct (Hall p) as (c & Hv & _ & Hp1); [lia|]. rewrite Hview in Hv by lia. injection Hv as <-. done. }
    rewrite bool_decide_true by done. cbn [negb]. destruct (Z.leb_spec last (p + VmManager.size v)).
    + split; [|done]. intros _. split; [lia|]. intros x Hx. exists (cell_of v x). split; [apply Hview; lia|done].
    + rewrite (IH (m1 ++ [v]) (p + VmManager.size v)); [|apply chain_app; exists p; split; [done|]; by cbn|done|done]. rewrite <- app_assoc. cbn [app].
      split; intros [Hl Hall]; (split; [done|]); intros x Hx; [|apply Hall; lia].
      destruct (decide (x < p + VmManager.size v)); [|apply Hall; lia]. exists (cell_of v x). split; [apply Hview; lia|done].
Qed.
End RO.

#[local] Existing Instance demo_devices.
(** The end of a buffer is computed in 32 bits: almost 4 GB from the last private page on are accepted. *)
Lemma huge_buffer_accepted : match buffer_state 0x103000 0xFFFFF000 demo_vm with Ret (r, _) => r = true | Crash _ => False end.
Proof. vm_compute. reflexivity. Qed.
