(* ===== verification/ArmSupp.v ===== *)
(** Arithmetic of the emulated processor (src/.../core/arm/skyeye_common/armsupp.{h,cpp}):
    fields of words, addition with carry, overflow and saturation, and their agreement
    with the integers. *)

From S2P Require Import Prelude.

(** ** Words *)

Definition s8 (z : Z) : Z := (z + 128) mod 256 - 128.
Definition s16 (z : Z) : Z := (z + 32768) mod 65536 - 32768.
(** [~z] *)
Definition not32 (z : Z) : Z := Z.lxor z 0xFFFFFFFF.
(** [BITS(s, a, b)] of a [u32], a [u64] and an [s64]; [BIT(s, n)] *)
Definition BITS (s a b : Z) : Z := Z.shiftr (u32 (Z.shiftl s (31 - b))) (31 - b + a).
Definition BITS_u64 (s a b : Z) : Z := Z.shiftr (u64 (Z.shiftl s (63 - b))) (63 - b + a).
Definition BITS_s64 (s a b : Z) : Z := Z.shiftr (s64 (Z.shiftl s (63 - b))) (63 - b + a).
Definition BIT (s n : Z) : Z := Z.land (Z.shiftr s n) 1.
Definition POS (i : Z) : Z := Z.shiftr (not32 i) 31.
Definition NEG (i : Z) : Z := Z.shiftr i 31.
(** A value as a condition *)
Definition truth (z : Z) : bool := negb (z =? 0).

(** ** armsupp.cpp *)

Definition ARMul_UnsignedAbsoluteDifference (left right : Z) : Z :=
  if right <? left then u8 (left - right) else u8 (right - left).
(** The result, and whether a carry and a signed overflow occurred *)
Definition AddWithCarry (left right carry_in : Z) : Z * bool * bool :=
  let unsigned_sum := u64 (left + right + carry_in) in
  let signed_sum := s64 (s32 left + s32 right + carry_in) in
  let result := Z.land unsigned_sum 0xFFFFFFFF in
  (result, negb (result =? unsigned_sum), negb (s32 result =? signed_sum)).
Definition AddOverflow (a b result : Z) : bool :=
  (truth (NEG a) && truth (NEG b) && truth (POS result)) || (truth (POS a) && truth (POS b) && truth (NEG result)).
Definition SubOverflow (a b result : Z) : bool :=
  (truth (NEG a) && truth (POS b) && truth (POS result)) || (truth (POS a) && truth (NEG b) && truth (NEG result)).
Definition ARMul_AddOverflowQ (a b : Z) : bool :=
  let result := u32 (a + b) in
  truth (Z.land (Z.lxor result a) 0x80000000) && (Z.land (Z.lxor a b) 0x80000000 =? 0).

Definition ARMul_SignedSaturatedAdd8 (left right : Z) : Z :=
  let result := u8 (left + right) in
  if truth (Z.land (Z.lxor result left) 0x80) && (Z.land (Z.lxor left right) 0x80 =? 0) then
    if truth (Z.land left 0x80) then 0x80 else 0x7F
  else result.
Definition ARMul_SignedSaturatedSub8 (left right : Z) : Z :=
  let result := u8 (left - right) in
  if truth (Z.land (Z.lxor result left) 0x80) && truth (Z.land (Z.lxor left right) 0x80) then
    if truth (Z.land left 0x80) then 0x80 else 0x7F
  else result.
Definition ARMul_SignedSaturatedAdd16 (left right : Z) : Z :=
  let result := u16 (left + right) in
  if truth (Z.land (Z.lxor result left) 0x8000) && (Z.land (Z.lxor left right) 0x8000 =? 0) then
    if truth (Z.land left 0x8000) then 0x8000 else 0x7FFF
  else result.
Definition ARMul_SignedSaturatedSub16 (left right : Z) : Z :=
  let result := u16 (left - right) in
  if truth (Z.land (Z.lxor result left) 0x8000) && truth (Z.land (Z.lxor left right) 0x8000) then
    if truth (Z.land left 0x8000) then 0x8000 else 0x7FFF
  else result.
Definition ARMul_UnsignedSaturatedAdd8 (left right : Z) : Z :=
  let result := u8 (left + right) in if result <? left then 0xFF else result.
Definition ARMul_UnsignedSaturatedAdd16 (left right : Z) : Z :=
  let result := u16 (left + right) in if result <? left then 0xFFFF else result.
Definition ARMul_UnsignedSaturatedSub8 (left right : Z) : Z := if left <=? right then 0 else u8 (left - right).
Definition ARMul_UnsignedSaturatedSub16 (left right : Z) : Z := if left <=? right then 0 else u16 (left - right).

(** [(1 << shift) - 1]; for 31 the subtraction overflows an [int], and its value is the
    one of two's complement. *)
Definition saturation_max (shift : Z) : Z := u32 (s32 (Z.shiftl 1 shift) - 1).
(** The result and [*saturation_occurred] *)
Definition ARMul_SignedSatQ (value shift : Z) : Z * bool :=
  let max := saturation_max shift in
  let top := Z.shiftr value shift in
  if 0 <? top then (max, true)
  else if top <? -1 then (not32 max, true)
  else (u32 value, false).
Definition ARMul_UnsignedSatQ (value shift : Z) : Z * bool :=
  let max := saturation_max shift in
  if value <? 0 then (0, true)
  else if max <? u32 value then (max, true)
  else (u32 value, false).

(** ** Lemmas on words *)

Definition is_u8 (z : Z) : Prop := 0 <= z < 256.

Lemma BIT_testbit s n : 0 <= n -> BIT s n = Z.b2z (Z.testbit s n).
Proof. intros Hn. unfold BIT. change 1 with (Z.ones 1). rewrite Z.land_ones by lia. rewrite Z.shiftr_div_pow2 by done. by rewrite Z.testbit_spec' by done. Qed.
Lemma truth_BIT s n : 0 <= n -> truth (BIT s n) = Z.testbit s n.
Proof. intros Hn. rewrite BIT_testbit by done. by destruct (Z.testbit s n). Qed.
Lemma BIT_range s n : 0 <= n -> 0 <= BIT s n <= 1.
Proof. intros Hn. rewrite BIT_testbit by done. destruct (Z.testbit s n); cbn; lia. Qed.
(** The highest bit of a word of [n + 1] bits *)
Lemma top_bit n a : 0 <= n -> 0 <= a < 2 ^ (n + 1) -> Z.testbit a n = (2 ^ n <=? a).
Proof.
  intros Hn Ha. rewrite Z.pow_add_r in Ha by lia. pose proof (Z.pow_pos_nonneg 2 n ltac:(lia) Hn).
  apply eq_true_iff_eq. rewrite Z.leb_le, Z.testbit_true by done.
  assert (E : a / 2 ^ n = if 2 ^ n <=? a then 1 else 0).
  { case_bool; [symmetry; apply Z.div_unique with (a - 2 ^ n); lia|apply Z.div_small; lia]. }
  rewrite E. case_bool; split; intros; (done || lia).
Qed.
Lemma land_pow2 a n : 0 <= n -> Z.land a (2 ^ n) = if Z.testbit a n then 2 ^ n else 0.
Proof.
  intros Hn. apply Z.bits_inj'. intros i Hi. rewrite Z.land_spec, Z.pow2_bits_eqb by done. destruct (Z.eqb_spec n i) as [->|Hne].
  - rewrite andb_true_r. destruct (Z.testbit a i) eqn:E; [by rewrite Z.pow2_bits_true|by rewrite Z.bits_0].
  - rewrite andb_false_r. destruct (Z.testbit a n); [by rewrite Z.pow2_bits_false|by rewrite Z.bits_0].
Qed.
Lemma sign_bit n a : 0 <= n -> 0 <= a < 2 ^ (n + 1) -> truth (Z.land a (2 ^ n)) = (2 ^ n <=? a).
Proof.
  intros Hn Ha. rewrite land_pow2 by done. rewrite top_bit by done. pose proof (Z.pow_pos_nonneg 2 n ltac:(lia) Hn).
  case_bool; unfold truth; case_bool; (done || lia).
Qed.
Lemma lxor_range n a b : 0 <= n -> 0 <= a < 2 ^ n -> 0 <= b < 2 ^ n -> 0 <= Z.lxor a b < 2 ^ n.
Proof.
  intros Hn Ha Hb. split; [apply Z.lxor_nonneg; lia|]. apply Z.bounded_iff_bits_nonneg; [done|apply Z.lxor_nonneg; lia|].
  intros l Hl. rewrite Z.lxor_spec. by rewrite (proj1 (Z.bounded_iff_bits_nonneg n a Hn ltac:(lia))), (proj1 (Z.bounded_iff_bits_nonneg n b Hn ltac:(lia))) by lia.
Qed.
Lemma signs_differ n a b : 0 <= n -> 0 <= a < 2 ^ (n + 1) -> 0 <= b < 2 ^ (n + 1) ->
  truth (Z.land (Z.lxor a b) (2 ^ n)) = xorb (2 ^ n <=? a) (2 ^ n <=? b).
Proof.
  intros Hn Ha Hb. rewrite sign_bit by (done || apply lxor_range; lia). rewrite <- top_bit by (done || apply lxor_range; lia).
  rewrite Z.lxor_spec. by rewrite !top_bit by done.
Qed.
Lemma lor_disjoint a b n : 0 <= n -> 0 <= b < 2 ^ n -> a mod 2 ^ n = 0 -> Z.lor a b = a + b.
Proof.
  intros Hn Hb Ha. assert (E : Z.land a b = 0).
  { apply Z.bits_inj'. intros i Hi. rewrite Z.land_spec, Z.bits_0. destruct (Z.lt_ge_cases i n) as [Hlt|Hge].
    - pose proof (Z.mod_pow2_bits_low a n i Hlt) as El. rewrite Ha, Z.bits_0 in El. by rewrite <- El.
    - rewrite (proj1 (Z.bounded_iff_bits_nonneg n b Hn ltac:(lia)) ltac:(lia) i) by lia. apply andb_false_r. }
  rewrite <- Z.lxor_lor by done. symmetry. by apply Z.add_nocarry_lxor.
Qed.
Lemma not32_sub a : is_u32 a -> not32 a = 0xFFFFFFFF - a.
Proof.
  intros Ha. unfold not32. enough (a + Z.lxor a 0xFFFFFFFF = 0xFFFFFFFF) by lia. rewrite Z.add_nocarry_lxor.
  - by rewrite <- Z.lxor_assoc, Z.lxor_nilpotent, Z.lxor_0_l.
  - apply Z.bits_inj'. intros i Hi. rewrite Z.land_spec, Z.lxor_spec, Z.bits_0. destruct (Z.testbit a i) eqn:E; [|done].
    assert (Hlt : i < 32). { destruct (Z.lt_ge_cases i 32); [done|]. unfold is_u32 in Ha. rewrite (proj1 (Z.bounded_iff_bits_nonneg 32 a ltac:(lia) ltac:(lia))) in E by lia. done. }
    change 0xFFFFFFFF with (Z.ones 32). by rewrite Z.ones_spec_low by lia.
Qed.
Lemma not32_range a : is_u32 a -> is_u32 (not32 a).
Proof. intros Ha. rewrite not32_sub by done. unfold is_u32 in *. lia. Qed.
Lemma land_word a : Z.land a 0xFFFFFFFF = u32 a.
Proof. change 0xFFFFFFFF with (Z.ones 32). by rewrite Z.land_ones by lia. Qed.
Lemma NEG_spec a : is_u32 a -> truth (NEG a) = (2 ^ 31 <=? a).
Proof.
  intros Ha. unfold NEG. rewrite Z.shiftr_div_pow2 by lia. unfold is_u32 in Ha.
  assert (E : a / 2 ^ 31 = if 2 ^ 31 <=? a then 1 else 0).
  { case_bool; [symmetry; apply Z.div_unique with (a - 2 ^ 31); lia|apply Z.div_small; lia]. }
  rewrite E. by case_bool.
Qed.
Lemma POS_spec a : is_u32 a -> truth (POS a) = (a <? 2 ^ 31).
Proof.
  intros Ha. change (POS a) with (NEG (not32 a)). rewrite NEG_spec by (by apply not32_range). rewrite not32_sub by done.
  apply eq_true_iff_eq. rewrite Z.leb_le, Z.ltb_lt. lia.
Qed.
(** A field is a range of the bits. *)
Lemma field_div (w s a b : Z) : 0 <= a <= b -> b < w -> Z.shiftr (Z.shiftl s (w - 1 - b) mod 2 ^ w) (w - 1 - b + a) = (s mod 2 ^ (b + 1)) / 2 ^ a.
Proof.
  intros Ha Hb. rewrite Z.shiftr_div_pow2, Z.shiftl_mul_pow2 by lia.
  replace (2 ^ w) with (2 ^ (b + 1) * 2 ^ (w - 1 - b)) by (rewrite <- Z.pow_add_r by lia; f_equal; lia).
  rewrite Z.mul_mod_distr_r by (apply Z.pow_nonzero; lia). rewrite (Z.pow_add_r 2 (w - 1 - b) a) by lia. rewrite <- Z.div_div by lia.
  by rewrite Z.div_mul by (apply Z.pow_nonzero; lia).
Qed.
Lemma BITS_div s a b : 0 <= a <= b -> b < 32 -> BITS s a b = (s mod 2 ^ (b + 1)) / 2 ^ a.
Proof. intros Ha Hb. apply (field_div 32); lia. Qed.
Lemma BITS_range s a b : 0 <= a <= b -> b < 32 -> 0 <= BITS s a b < 2 ^ (b - a + 1).
Proof.
  intros Ha Hb. rewrite BITS_div by done. pose proof (Z.mod_pos_bound s (2 ^ (b + 1)) ltac:(lia)).
  split; [apply Z.div_pos; lia|]. apply Z.div_lt_upper_bound; [lia|]. rewrite <- Z.pow_add_r by lia.
  replace (a + (b - a + 1)) with (b + 1) by lia. lia.
Qed.
Lemma s32_u32 z : is_u32 z -> s32 z = if z <? 2 ^ 31 then z else z - 2 ^ 32.
Proof. intros Hz. case_bool; word. Qed.

(** ** Addition *)

Definition clamp (lo hi v : Z) : Z := Z.max lo (Z.min hi v).
Definition is_bit (z : Z) : Prop := z = 0 \/ z = 1.

Lemma AddWithCarry_eq l r c : is_u32 l -> is_u32 r -> is_bit c ->
  AddWithCarry l r c = (u32 (l + r + c), 2 ^ 32 <=? l + r + c, negb ((- 2 ^ 31 <=? s32 l + s32 r + c) && (s32 l + s32 r + c <? 2 ^ 31))).
Proof.
  intros Hl Hr Hc. unfold AddWithCarry. rewrite land_word. assert (Hsum : 0 <= l + r + c < 2 ^ 33) by (unfold is_u32, is_bit in *; lia).
  assert (E1 : u64 (l + r + c) = l + r + c) by (apply u64_small; unfold is_u64; lia). rewrite E1.
  assert (E2 : s64 (s32 l + s32 r + c) = s32 l + s32 r + c) by (apply s64_small; word). rewrite E2.
  f_equal; [f_equal|].
  - apply eq_true_iff_eq. rewrite negb_true_iff, Z.eqb_neq, Z.leb_le. unfold u32. Z.to_euclidean_division_equations; lia.
  - f_equal. apply eq_true_iff_eq. rewrite Z.eqb_eq, in_range_spec. word.
Qed.
Lemma AddOverflow_eq a b : is_u32 a -> is_u32 b ->
  AddOverflow a b (u32 (a + b)) = negb ((- 2 ^ 31 <=? s32 a + s32 b) && (s32 a + s32 b <? 2 ^ 31)).
Proof.
  intros Ha Hb. unfold AddOverflow. rewrite !NEG_spec, !POS_spec by (done || apply u32_range). rewrite !s32_u32 by done.
  unfold is_u32, u32 in *. repeat case_bool; cbn; Z.to_euclidean_division_equations; lia.
Qed.
Lemma SubOverflow_eq a b : is_u32 a -> is_u32 b ->
  SubOverflow a b (u32 (a - b)) = negb ((- 2 ^ 31 <=? s32 a - s32 b) && (s32 a - s32 b <? 2 ^ 31)).
Proof.
  intros Ha Hb. unfold SubOverflow. rewrite !NEG_spec, !POS_spec by (done || apply u32_range). rewrite !s32_u32 by done.
  unfold is_u32, u32 in *. repeat case_bool; cbn; Z.to_euclidean_division_equations; lia.
Qed.
Lemma AddOverflowQ_eq a b : is_u32 a -> is_u32 b ->
  ARMul_AddOverflowQ a b = negb ((- 2 ^ 31 <=? s32 a + s32 b) && (s32 a + s32 b <? 2 ^ 31)).
Proof.
  intros Ha Hb. unfold ARMul_AddOverflowQ. change 0x80000000 with (2 ^ 31). pose proof (u32_range (a + b)) as Hs.
  rewrite signs_differ by (unfold is_u32 in *; lia). fold (truth (Z.land (Z.lxor a b) (2 ^ 31))).
  replace (Z.land (Z.lxor a b) (2 ^ 31) =? 0) with (negb (truth (Z.land (Z.lxor a b) (2 ^ 31)))) by (unfold truth; by rewrite negb_involutive).
  rewrite signs_differ by (unfold is_u32 in *; lia). rewrite !s32_u32 by done.
  unfold is_u32, u32 in *. repeat case_bool; cbn; Z.to_euclidean_division_equations; lia.
Qed.

(** ** Saturation *)

(** The tests of the sign of a byte and of a half word *)
Lemma sign8 a : is_u8 a -> (Z.land a 128 =? 0) = (a <? 128).
Proof. intros Ha. pose proof (sign_bit 7 a ltac:(lia) ltac:(unfold is_u8 in Ha; lia)) as H. unfold truth in H. change (2 ^ 7) with 128 in H. rewrite Z.ltb_antisym. by rewrite <- H, negb_involutive. Qed.
Lemma signs8 a b : is_u8 a -> is_u8 b -> (Z.land (Z.lxor a b) 128 =? 0) = negb (xorb (128 <=? a) (128 <=? b)).
Proof. intros Ha Hb. pose proof (signs_differ 7 a b ltac:(lia) ltac:(unfold is_u8 in *; lia) ltac:(unfold is_u8 in *; lia)) as H. unfold truth in H. change (2 ^ 7) with 128 in H. by rewrite <- H, negb_involutive. Qed.
Lemma sign16 a : is_u16 a -> (Z.land a 32768 =? 0) = (a <? 32768).
Proof. intros Ha. pose proof (sign_bit 15 a ltac:(lia) ltac:(unfold is_u16 in Ha; lia)) as H. unfold truth in H. change (2 ^ 15) with 32768 in H. rewrite Z.ltb_antisym. by rewrite <- H, negb_involutive. Qed.
Lemma signs16 a b : is_u16 a -> is_u16 b -> (Z.land (Z.lxor a b) 32768 =? 0) = negb (xorb (32768 <=? a) (32768 <=? b)).
Proof. intros Ha Hb. pose proof (signs_differ 15 a b ltac:(lia) ltac:(unfold is_u16 in *; lia) ltac:(unfold is_u16 in *; lia)) as H. unfold truth in H. change (2 ^ 15) with 32768 in H. by rewrite <- H, negb_involutive. Qed.
Lemma u8_range z : is_u8 (u8 z).
Proof. unfold is_u8, u8. apply Z.mod_pos_bound. lia. Qed.
Lemma u8_cases z : -256 <= z < 512 -> u8 z = z + 256 /\ z < 0 \/ u8 z = z /\ 0 <= z < 256 \/ u8 z = z - 256 /\ 256 <= z.
Proof. unfold u8. Z.to_euclidean_division_equations; lia. Qed.
Lemma u16_cases z : -65536 <= z < 131072 -> u16 z = z + 65536 /\ z < 0 \/ u16 z = z /\ 0 <= z < 65536 \/ u16 z = z - 65536 /\ 65536 <= z.
Proof. unfold u16. Z.to_euclidean_division_equations; lia. Qed.
Lemma s8_cases z : is_u8 z -> s8 z = z /\ z < 128 \/ s8 z = z - 256 /\ 128 <= z.
Proof. unfold s8, is_u8. Z.to_euclidean_division_equations; lia. Qed.
Lemma s16_cases z : is_u16 z -> s16 z = z /\ z < 32768 \/ s16 z = z - 65536 /\ 32768 <= z.
Proof. unfold s16, is_u16. Z.to_euclidean_division_equations; lia. Qed.
(** [saturate n_cases] splits on the wrapped values of the goal and on its tests. *)
Ltac wrap_cases cases :=
  repeat match goal with
  | |- context [u8 ?z] => lazymatch cases with 8 => destruct (u8_cases z) as [[-> ?]|[[-> ?]|[-> ?]]]; [lia|..] end
  | |- context [u16 ?z] => lazymatch cases with 16 => destruct (u16_cases z) as [[-> ?]|[[-> ?]|[-> ?]]]; [lia|..] end
  end.
Ltac saturate8 l r Hl Hr :=
  unfold truth, clamp; rewrite !signs8, ?sign8 by (done || apply u8_range); unfold is_u8 in *;
  destruct (s8_cases l Hl) as [[-> ?]|[-> ?]], (s8_cases r Hr) as [[-> ?]|[-> ?]]; wrap_cases 8; repeat case_bool; cbn [xorb andb negb]; lia.
Ltac saturate16 l r Hl Hr :=
  unfold truth, clamp; rewrite !signs16, ?sign16 by (done || apply u16_range); unfold is_u16 in *;
  destruct (s16_cases l Hl) as [[-> ?]|[-> ?]], (s16_cases r Hr) as [[-> ?]|[-> ?]]; wrap_cases 16; repeat case_bool; cbn [xorb andb negb]; lia.
Lemma SignedSaturatedAdd8_eq l r : is_u8 l -> is_u8 r -> ARMul_SignedSaturatedAdd8 l r = u8 (clamp (-128) 127 (s8 l + s8 r)).
Proof. intros Hl Hr. unfold ARMul_SignedSaturatedAdd8. saturate8 l r Hl Hr. Qed.
Lemma SignedSaturatedSub8_eq l r : is_u8 l -> is_u8 r -> ARMul_SignedSaturatedSub8 l r = u8 (clamp (-128) 127 (s8 l - s8 r)).
Proof. intros Hl Hr. unfold ARMul_SignedSaturatedSub8. saturate8 l r Hl Hr. Qed.
Lemma SignedSaturatedAdd16_eq l r : is_u16 l -> is_u16 r -> ARMul_SignedSaturatedAdd16 l r = u16 (clamp (-32768) 32767 (s16 l + s16 r)).
Proof. intros Hl Hr. unfold ARMul_SignedSaturatedAdd16. saturate16 l r Hl Hr. Qed.
Lemma SignedSaturatedSub16_eq l r : is_u16 l -> is_u16 r -> ARMul_SignedSaturatedSub16 l r = u16 (clamp (-32768) 32767 (s16 l - s16 r)).
Proof. intros Hl Hr. unfold ARMul_SignedSaturatedSub16. saturate16 l r Hl Hr. Qed.
Lemma UnsignedSaturatedAdd8_eq l r : is_u8 l -> is_u8 r -> ARMul_UnsignedSaturatedAdd8 l r = clamp 0 255 (l + r).
Proof. unfold ARMul_UnsignedSaturatedAdd8, clamp, u8, is_u8. intros. case_bool; Z.to_euclidean_division_equations; lia. Qed.
Lemma UnsignedSaturatedAdd16_eq l r : is_u16 l -> is_u16 r -> ARMul_UnsignedSaturatedAdd16 l r = clamp 0 65535 (l + r).
Proof. unfold ARMul_UnsignedSaturatedAdd16, clamp, u16, is_u16. intros. case_bool; Z.to_euclidean_division_equations; lia. Qed.
Lemma UnsignedSaturatedSub8_eq l r : is_u8 l -> is_u8 r -> ARMul_UnsignedSaturatedSub8 l r = clamp 0 255 (l - r).
Proof. unfold ARMul_UnsignedSaturatedSub8, clamp, u8, is_u8. intros. case_bool; Z.to_euclidean_division_equations; lia. Qed.
Lemma UnsignedSaturatedSub16_eq l r : is_u16 l -> is_u16 r -> ARMul_UnsignedSaturatedSub16 l r = clamp 0 65535 (l - r).
Proof. unfold ARMul_UnsignedSaturatedSub16, clamp, u16, is_u16. intros. case_bool; Z.to_euclidean_division_equations; lia. Qed.
Lemma UnsignedAbsoluteDifference_eq l r : is_u8 l -> is_u8 r -> ARMul_UnsignedAbsoluteDifference l r = Z.abs (l - r).
Proof. unfold ARMul_UnsignedAbsoluteDifference, u8, is_u8. intros. case_bool; Z.to_euclidean_division_equations; lia. Qed.

Lemma saturation_max_eq n : 0 <= n < 32 -> saturation_max n = 2 ^ n - 1.
Proof.
  intros Hn. unfold saturation_max. rewrite Z.shiftl_1_l. destruct (Z.eq_dec n 31) as [->|Hne]; [done|].
  assert (0 < 2 ^ n <= 2 ^ 30) by (split; [apply Z.pow_pos_nonneg; lia|apply Z.pow_le_mono_r; lia]).
  rewrite s32_small by (unfold is_s32; lia). apply u32_small. unfold is_u32. lia.
Qed.
Lemma SignedSatQ_eq v n : is_s32 v -> 0 <= n < 32 ->
  ARMul_SignedSatQ v n = (u32 (clamp (- 2 ^ n) (2 ^ n - 1) v), negb ((- 2 ^ n <=? v) && (v <? 2 ^ n))).
Proof.
  intros Hv Hn. unfold ARMul_SignedSatQ. rewrite saturation_max_eq by done. rewrite Z.shiftr_div_pow2 by lia.
  assert (Hp : 0 < 2 ^ n <= 2 ^ 31) by (split; [apply Z.pow_pos_nonneg; lia|apply Z.pow_le_mono_r; lia]).
  assert (Hm : is_u32 (2 ^ n - 1)) by (unfold is_u32; lia). rewrite not32_sub by done. generalize dependent (2 ^ n). intros p Hp Hm.
  pose proof (Z.div_mod v p ltac:(lia)). pose proof (Z.mod_pos_bound v p ltac:(lia)). unfold clamp, is_s32, u32 in *.
  destruct (Z.ltb_spec 0 (v / p)); [|destruct (Z.ltb_spec (v / p) (-1))].
  - assert (p <= v) by nia. rewrite (in_range_false (- p) p v) by lia. f_equal. rewrite Z.max_r, Z.min_l by lia. symmetry. apply Z.mod_small. lia.
  - assert (v < - p) by nia. rewrite (in_range_false (- p) p v) by lia. f_equal. rewrite Z.max_l by lia.
    apply Z.mod_unique with (-1); lia.
  - assert (- p <= v < p) by nia. rewrite (in_range_true (- p) p v) by lia. f_equal. f_equal. lia.
Qed.
Lemma UnsignedSatQ_eq v n : is_s32 v -> 0 <= n < 32 ->
  ARMul_UnsignedSatQ v n = (clamp 0 (2 ^ n - 1) v, negb ((0 <=? v) && (v <? 2 ^ n))).
Proof.
  intros Hv Hn. unfold ARMul_UnsignedSatQ. rewrite saturation_max_eq by done.
  assert (Hp : 0 < 2 ^ n <= 2 ^ 31) by (split; [apply Z.pow_pos_nonneg; lia|apply Z.pow_le_mono_r; lia]).
  unfold clamp, is_s32 in *. destruct (Z.ltb_spec v 0).
  - rewrite in_range_false by lia. f_equal. lia.
  - rewrite u32_small by (unfold is_u32; lia). destruct (Z.ltb_spec (2 ^ n - 1) v).
    + rewrite in_range_false by lia. f_equal. lia.
    + rewrite in_range_true by lia. f_equal. lia.
Qed.

(** ** Properties *)

(** Every saturating operation of the processor gives the integer result cut to the
    range of its type, and the saturation flag tells exactly when it was cut. *)
Theorem saturation_clamps (l r h k v n : Z) : is_u8 l -> is_u8 r -> is_u16 h -> is_u16 k -> is_s32 v -> 0 <= n < 32 ->
  ARMul_SignedSaturatedAdd8 l r = u8 (clamp (-128) 127 (s8 l + s8 r)) /\
  ARMul_SignedSaturatedSub8 l r = u8 (clamp (-128) 127 (s8 l - s8 r)) /\
  ARMul_SignedSaturatedAdd16 h k = u16 (clamp (-32768) 32767 (s16 h + s16 k)) /\
  ARMul_SignedSaturatedSub16 h k = u16 (clamp (-32768) 32767 (s16 h - s16 k)) /\
  ARMul_UnsignedSaturatedAdd8 l r = clamp 0 255 (l + r) /\
  ARMul_UnsignedSaturatedSub8 l r = clamp 0 255 (l - r) /\
  ARMul_UnsignedSaturatedAdd16 h k = clamp 0 65535 (h + k) /\
  ARMul_UnsignedSaturatedSub16 h k = clamp 0 65535 (h - k) /\
  ARMul_SignedSatQ v n = (u32 (clamp (- 2 ^ n) (2 ^ n - 1) v), negb ((- 2 ^ n <=? v) && (v <? 2 ^ n))) /\
  ARMul_UnsignedSatQ v n = (clamp 0 (2 ^ n - 1) v, negb ((0 <=? v) && (v <? 2 ^ n))).
Proof.
  intros. split_and!;
    auto using SignedSaturatedAdd8_eq, SignedSaturatedSub8_eq, SignedSaturatedAdd16_eq, SignedSaturatedSub16_eq, UnsignedSaturatedAdd8_eq,
      UnsignedSaturatedSub8_eq, UnsignedSaturatedAdd16_eq, UnsignedSaturatedSub16_eq, SignedSatQ_eq, UnsignedSatQ_eq.
Qed.
Lemma saturation_clamps_witness : ARMul_SignedSatQ 300 7 = (127, true).
Proof.
  destruct (saturation_clamps 200 100 40000 30000 300 7) as (_ & _ & _ & _ & _ & _ & _ & _ & H & _).
  1-6: unfold is_u8, is_u16, is_s32; lia.
  rewrite H. reflexivity.
Defined.
