(* ===== verification/ArmState.v ===== *)
(** The state of the emulated processor (src/.../core/arm/skyeye_common/
    {arm_regformat.h,armstate.h,armstate.cpp}): registers and their banks, modes, the
    registers of coprocessor 15 and the exclusive monitor. *)

From S2P Require Import Prelude ArmSupp.

(** ** armstate.h *)

Definition USER32MODE : Z := 16.
Definition FIQ32MODE : Z := 17.
Definition IRQ32MODE : Z := 18.
Definition SVC32MODE : Z := 19.
Definition ABORT32MODE : Z := 23.
Definition UNDEF32MODE : Z := 27.
Definition SYSTEM32MODE : Z := 31.

Definition USERBANK : nat := 0.
Definition FIQBANK : nat := 1.
Definition IRQBANK : nat := 2.
Definition SVCBANK : nat := 3.
Definition ABORTBANK : nat := 4.
Definition UNDEFBANK : nat := 5.
Definition SYSTEMBANK : nat := 7.

Definition INTBITS : Z := 0x1C0.

(** ** arm_regformat.h: coprocessor 15 *)

Definition CP15_MAIN_ID : nat := 0.
Definition CP15_CACHE_TYPE : nat := 1.
Definition CP15_TLB_TYPE : nat := 3.
Definition CP15_CPU_ID : nat := 4.
Definition CP15_PROCESSOR_FEATURE_0 : nat := 5.
Definition CP15_PROCESSOR_FEATURE_1 : nat := 6.
Definition CP15_DEBUG_FEATURE_0 : nat := 7.
Definition CP15_MEMORY_MODEL_FEATURE_0 : nat := 9.
Definition CP15_MEMORY_MODEL_FEATURE_1 : nat := 10.
Definition CP15_MEMORY_MODEL_FEATURE_2 : nat := 11.
Definition CP15_MEMORY_MODEL_FEATURE_3 : nat := 12.
Definition CP15_ISA_FEATURE_0 : nat := 13.
Definition CP15_ISA_FEATURE_1 : nat := 14.
Definition CP15_ISA_FEATURE_2 : nat := 15.
Definition CP15_ISA_FEATURE_3 : nat := 16.
Definition CP15_ISA_FEATURE_4 : nat := 17.
Definition CP15_CONTROL : nat := 18.
Definition CP15_AUXILIARY_CONTROL : nat := 19.
Definition CP15_COPROCESSOR_ACCESS_CONTROL : nat := 20.
Definition CP15_TRANSLATION_BASE_TABLE_0 : nat := 21.
Definition CP15_TRANSLATION_BASE_TABLE_1 : nat := 22.
Definition CP15_TRANSLATION_BASE_CONTROL : nat := 23.
Definition CP15_DOMAIN_ACCESS_CONTROL : nat := 24.
Definition CP15_FAULT_STATUS : nat := 26.
Definition CP15_INSTR_FAULT_STATUS : nat := 27.
Definition CP15_FAULT_ADDRESS : nat := 28.
Definition CP15_WFAR : nat := 29.
Definition CP15_WAIT_FOR_INTERRUPT : nat := 31.
Definition CP15_PHYS_ADDRESS : nat := 32.
Definition CP15_INVALIDATE_INSTR_CACHE : nat := 33.
Definition CP15_INVALIDATE_INSTR_CACHE_USING_MVA : nat := 34.
Definition CP15_INVALIDATE_INSTR_CACHE_USING_INDEX : nat := 35.
Definition CP15_FLUSH_PREFETCH_BUFFER : nat := 36.
Definition CP15_FLUSH_BRANCH_TARGET_CACHE : nat := 37.
Definition CP15_FLUSH_BRANCH_TARGET_CACHE_ENTRY : nat := 38.
Definition CP15_INVALIDATE_DATA_CACHE : nat := 39.
Definition CP15_INVALIDATE_DATA_CACHE_LINE_USING_MVA : nat := 40.
Definition CP15_INVALIDATE_DATA_CACHE_LINE_USING_INDEX : nat := 41.
Definition CP15_INVALIDATE_DATA_AND_INSTR_CACHE : nat := 42.
Definition CP15_CLEAN_DATA_CACHE : nat := 43.
Definition CP15_CLEAN_DATA_CACHE_LINE_USING_MVA : nat := 44.
Definition CP15_CLEAN_DATA_CACHE_LINE_USING_INDEX : nat := 45.
Definition CP15_DATA_SYNC_BARRIER : nat := 46.
Definition CP15_DATA_MEMORY_BARRIER : nat := 47.
Definition CP15_CLEAN_AND_INVALIDATE_DATA_CACHE : nat := 48.
Definition CP15_CLEAN_AND_INVALIDATE_DATA_CACHE_LINE_USING_MVA : nat := 49.
Definition CP15_CLEAN_AND_INVALIDATE_DATA_CACHE_LINE_USING_INDEX : nat := 50.
Definition CP15_INVALIDATE_ITLB : nat := 51.
Definition CP15_INVALIDATE_ITLB_SINGLE_ENTRY : nat := 52.
Definition CP15_INVALIDATE_ITLB_ENTRY_ON_ASID_MATCH : nat := 53.
Definition CP15_INVALIDATE_ITLB_ENTRY_ON_MVA : nat := 54.
Definition CP15_INVALIDATE_DTLB : nat := 55.
Definition CP15_INVALIDATE_DTLB_SINGLE_ENTRY : nat := 56.
Definition CP15_INVALIDATE_DTLB_ENTRY_ON_ASID_MATCH : nat := 57.
Definition CP15_INVALIDATE_DTLB_ENTRY_ON_MVA : nat := 58.
Definition CP15_INVALIDATE_UTLB : nat := 59.
Definition CP15_INVALIDATE_UTLB_SINGLE_ENTRY : nat := 60.
Definition CP15_INVALIDATE_UTLB_ENTRY_ON_ASID_MATCH : nat := 61.
Definition CP15_INVALIDATE_UTLB_ENTRY_ON_MVA : nat := 62.
Definition CP15_DATA_CACHE_LOCKDOWN : nat := 63.
Definition CP15_TLB_LOCKDOWN : nat := 64.
Definition CP15_PRIMARY_REGION_REMAP : nat := 65.
Definition CP15_NORMAL_REGION_REMAP : nat := 66.
Definition CP15_PID : nat := 67.
Definition CP15_CONTEXT_ID : nat := 68.
Definition CP15_THREAD_UPRW : nat := 69.
Definition CP15_THREAD_URO : nat := 70.
Definition CP15_THREAD_PRW : nat := 71.
Definition CP15_PERFORMANCE_MONITOR_CONTROL : nat := 72.
Definition CP15_CYCLE_COUNTER : nat := 73.
Definition CP15_COUNT_0 : nat := 74.
Definition CP15_COUNT_1 : nat := 75.
Definition CP15_READ_MAIN_TLB_LOCKDOWN_ENTRY : nat := 76.
Definition CP15_WRITE_MAIN_TLB_LOCKDOWN_ENTRY : nat := 77.
Definition CP15_MAIN_TLB_LOCKDOWN_VIRT_ADDRESS : nat := 78.
Definition CP15_MAIN_TLB_LOCKDOWN_PHYS_ADDRESS : nat := 79.
Definition CP15_MAIN_TLB_LOCKDOWN_ATTRIBUTE : nat := 80.
Definition CP15_TLB_DEBUG_CONTROL : nat := 81.
Definition CP15_REGISTER_COUNT : nat := 84.

(** ** [ARMul_State]

    The memory is beside the processor in the machine ([ArmTrans]); signals and fields that
    the interpreter does not read, and the breakpoints of the debugger, are left out. *)

Record ARMul_State := mkARMul_State {
  Reg : list Z;
  Reg_usr : list Z;
  Reg_svc : list Z;
  Reg_abort : list Z;
  Reg_undef : list Z;
  Reg_irq : list Z;
  Reg_firq : list Z;
  Spsr : list Z;
  CP15 : list Z;
  VFP : list Z;
  ExtReg : list Z;
  Cpsr : Z;
  Spsr_copy : Z;
  Mode : Z;
  Bank : nat;
  NFlag : Z;
  ZFlag : Z;
  CFlag : Z;
  VFlag : Z;
  shifter_carry_out : Z;
  TFlag : Z;
  NumInstrsToExecute : Z;
  NirqSig : Z;
  instruction_cache : gmap Z Z;
  exclusive_tag : Z;
  exclusive_state : bool;
}.
#[export] Instance eta_ARMul_State : Eta ARMul_State := fun s =>
  mkARMul_State (Reg s) (Reg_usr s) (Reg_svc s) (Reg_abort s) (Reg_undef s) (Reg_irq s) (Reg_firq s) (Spsr s) (CP15 s) (VFP s) (ExtReg s)
    (Cpsr s) (Spsr_copy s) (Mode s) (Bank s) (NFlag s) (ZFlag s) (CFlag s) (VFlag s) (shifter_carry_out s) (TFlag s)
    (NumInstrsToExecute s) (NirqSig s) (instruction_cache s) (exclusive_tag s) (exclusive_state s).
Implicit Types (s : ARMul_State).

(** An element of an array, at an index that is a constant of the code *)
Definition at_ (l : list Z) (i : nat) : Z := nth i l 0.

Definition InBigEndianMode s : bool := truth (Z.land (Cpsr s) (Z.shiftl 1 9)).
Definition InAPrivilegedMode s : bool := negb (Mode s =? USER32MODE).
Definition CurrentModeHasSPSR s : bool := negb (Mode s =? SYSTEM32MODE) && InAPrivilegedMode s.
Definition GetInstructionSize s : Z := if truth (TFlag s) then 2 else 4.

(** ** Exclusive accesses *)

Definition RESERVATION_GRANULE_MASK : Z := 0xFFFFFFF8.
Definition IsExclusiveMemoryAccess (address : Z) s : bool := exclusive_state s && (exclusive_tag s =? Z.land address RESERVATION_GRANULE_MASK).
Definition SetExclusiveMemoryAddress (address : Z) s : ARMul_State := s <| exclusive_tag := Z.land address RESERVATION_GRANULE_MASK |> <| exclusive_state := true |>.
Definition UnsetExclusiveMemoryAddress s : ARMul_State := s <| exclusive_tag := 0xFFFFFFFF |> <| exclusive_state := false |>.

(** ** Modes *)

(** The registers of the mode that is left *)
Definition save_bank s : ARMul_State :=
  let r13_r14 := [at_ (Reg s) 13; at_ (Reg s) 14] in
  let m := Mode s in
  if (m =? SYSTEM32MODE) || (m =? USER32MODE) then s <| Reg_usr := r13_r14 |>
  else if m =? IRQ32MODE then s <| Reg_irq := r13_r14 |> <| Spsr ::= <[IRQBANK := Spsr_copy s]> |>
  else if m =? SVC32MODE then s <| Reg_svc := r13_r14 |> <| Spsr ::= <[SVCBANK := Spsr_copy s]> |>
  else if m =? ABORT32MODE then s <| Reg_abort := r13_r14 |> <| Spsr ::= <[ABORTBANK := Spsr_copy s]> |>
  else if m =? UNDEF32MODE then s <| Reg_undef := r13_r14 |> <| Spsr ::= <[UNDEFBANK := Spsr_copy s]> |>
  else if m =? FIQ32MODE then s <| Reg_firq := firstn 7 (skipn 8 (Reg s)) |> <| Spsr ::= <[FIQBANK := Spsr_copy s]> |>
  else s.
(** The registers of the new mode *)
Definition load_r13_r14 (bank : list Z) s : ARMul_State := s <| Reg ::= fun l => <[14%nat := at_ bank 1]> (<[13%nat := at_ bank 0]> l) |>.
Definition load_spsr (b : nat) s : ARMul_State := s <| Spsr_copy := at_ (Spsr s) b |> <| Bank := b |>.
Definition load_bank (new_mode : Z) s : ARMul_State :=
  if new_mode =? USER32MODE then load_r13_r14 (Reg_usr s) s <| Bank := USERBANK |>
  else if new_mode =? IRQ32MODE then load_spsr IRQBANK (load_r13_r14 (Reg_irq s) s)
  else if new_mode =? SVC32MODE then load_spsr SVCBANK (load_r13_r14 (Reg_svc s) s)
  else if new_mode =? ABORT32MODE then load_spsr ABORTBANK (load_r13_r14 (Reg_abort s) s)
  else if new_mode =? UNDEF32MODE then load_spsr UNDEFBANK (load_r13_r14 (Reg_undef s) s)
  else if new_mode =? FIQ32MODE then load_spsr FIQBANK (s <| Reg ::= fun l => firstn 8 l ++ Reg_firq s ++ skipn 15 l |>)
  else if new_mode =? SYSTEM32MODE then load_r13_r14 (Reg_usr s) s <| Bank := SYSTEMBANK |>
  else s.
Definition ChangePrivilegeMode (new_mode : Z) s : ARMul_State :=
  if Mode s =? new_mode then s
  else if new_mode =? Z.of_nat USERBANK then s
  else
    let s := load_bank new_mode (save_bank s) in
    s <| Cpsr := Z.lor (Z.land (Cpsr s) (not32 (Mode s))) new_mode |> <| Mode := new_mode |>.

(** ** Reset *)

(** The system registers of the floating-point unit (arm_regformat.h), and VFPInit of vfp.cpp *)
Definition VFP_FPSID : nat := 0.
Definition VFP_FPSCR : nat := 1.
Definition VFP_FPEXC : nat := 2.
Definition VFP_FPINST : nat := 3.
Definition VFP_FPINST2 : nat := 4.
Definition VFP_MVFR0 : nat := 5.
Definition VFP_MVFR1 : nat := 6.
Definition VFPInit : list Z :=
  [Z.lor (Z.shiftl 0x41 24) (Z.lor (Z.shiftl 0 23) (Z.lor (Z.shiftl 0x1 16) (Z.lor (Z.shiftl 0x20 8) (Z.lor (Z.shiftl 0xB 4) 0x4))));
   0; 0; 0xEE000A00; 0; 0x11111111; 0].
Definition set_cp15 (r : nat) (value : Z) s : ARMul_State := s <| CP15 ::= <[r := value]> |>.
Definition ResetMPCoreCP15Registers s : ARMul_State :=
  foldl (fun s p => set_cp15 p.1 p.2 s) s [
    (CP15_MAIN_ID, 0x410FB024); (CP15_TLB_TYPE, 0x00000800); (CP15_PROCESSOR_FEATURE_0, 0x00000111); (CP15_PROCESSOR_FEATURE_1, 0x00000001);
    (CP15_DEBUG_FEATURE_0, 0x00000002); (CP15_MEMORY_MODEL_FEATURE_0, 0x01100103); (CP15_MEMORY_MODEL_FEATURE_1, 0x10020302);
    (CP15_MEMORY_MODEL_FEATURE_2, 0x01222000); (CP15_MEMORY_MODEL_FEATURE_3, 0x00000000); (CP15_ISA_FEATURE_0, 0x00100011);
    (CP15_ISA_FEATURE_1, 0x12002111); (CP15_ISA_FEATURE_2, 0x11221011); (CP15_ISA_FEATURE_3, 0x01102131); (CP15_ISA_FEATURE_4, 0x00000141);
    (CP15_CONTROL, 0x00054078); (CP15_AUXILIARY_CONTROL, 0x0000000F); (CP15_COPROCESSOR_ACCESS_CONTROL, 0x00000000);
    (CP15_TRANSLATION_BASE_TABLE_0, 0x00000000); (CP15_TRANSLATION_BASE_TABLE_1, 0x00000000); (CP15_TRANSLATION_BASE_CONTROL, 0x00000000);
    (CP15_DOMAIN_ACCESS_CONTROL, 0x00000000); (CP15_PHYS_ADDRESS, 0x00000000); (CP15_DATA_CACHE_LOCKDOWN, 0xFFFFFFF0);
    (CP15_TLB_LOCKDOWN, 0x00000000); (CP15_PRIMARY_REGION_REMAP, 0x00098AA4); (CP15_NORMAL_REGION_REMAP, 0x44E048E0);
    (CP15_PID, 0x00000000); (CP15_CONTEXT_ID, 0x00000000); (CP15_THREAD_UPRW, 0x00000000); (CP15_THREAD_URO, 0x00000000);
    (CP15_THREAD_PRW, 0x00000000); (CP15_PERFORMANCE_MONITOR_CONTROL, 0x00000000); (CP15_MAIN_TLB_LOCKDOWN_VIRT_ADDRESS, 0x00000000);
    (CP15_MAIN_TLB_LOCKDOWN_PHYS_ADDRESS, 0x00000000); (CP15_MAIN_TLB_LOCKDOWN_ATTRIBUTE, 0x00000000); (CP15_TLB_DEBUG_CONTROL, 0x00000000)].
(** [VFPInit] fills the system registers of the floating-point unit. *)
Definition Reset s : ARMul_State :=
  ResetMPCoreCP15Registers (s <| VFP := VFPInit |>
    <| Reg ::= fun l => <[15%nat := 0]> (<[13%nat := 0x10000000]> l) |>
    <| Cpsr := Z.lor INTBITS SVC32MODE |> <| Mode := SVC32MODE |> <| Bank := SVCBANK |>) <| NirqSig := 1 |>.
(** The members before the constructor runs; those without an initialiser are [undefined]. *)
Definition fresh_state (undefined : Z) : ARMul_State :=
  mkARMul_State (replicate 16 0) (replicate 2 0) (replicate 2 0) (replicate 2 0) (replicate 2 0) (replicate 2 0) (replicate 7 0) (replicate 7 0)
    (replicate CP15_REGISTER_COUNT 0) (replicate 7 0) (replicate 64 0) undefined undefined undefined 0
    undefined undefined undefined undefined undefined undefined undefined undefined ∅ undefined (truth undefined).
Definition new_ARMul_State (undefined : Z) (initial_mode : Z) : ARMul_State :=
  ChangePrivilegeMode initial_mode (Reset (fresh_state undefined)).

(** ** Coprocessor 15 *)

(** The registers by CRn, opcode 1 ([None]: it is not tested), CRm and opcode 2, in the
    order of the tests *)
Definition cp15_pattern : Type := Z * option Z * Z * Z * nat.
Definition cp15_matches (crn opcode_1 crm opcode_2 : Z) (p : cp15_pattern) : bool :=
  let '(n, o1, m, o2, _) := p in
  (crn =? n) && match o1 with Some o => opcode_1 =? o | None => true end && (crm =? m) && (opcode_2 =? o2).
Definition cp15_find (l : list cp15_pattern) (crn opcode_1 crm opcode_2 : Z) : option nat :=
  snd <$> find (cp15_matches crn opcode_1 crm opcode_2) l.
Definition unprivileged_reads : list cp15_pattern := [(13, Some 0, 0, 2, CP15_THREAD_UPRW); (13, Some 0, 0, 3, CP15_THREAD_URO)].
Definition privileged_reads : list cp15_pattern := [
  (0, Some 0, 0, 0, CP15_MAIN_ID); (0, Some 0, 0, 1, CP15_CACHE_TYPE); (0, Some 0, 0, 3, CP15_TLB_TYPE); (0, Some 0, 0, 5, CP15_CPU_ID);
  (0, Some 0, 1, 0, CP15_PROCESSOR_FEATURE_0); (0, Some 0, 1, 1, CP15_PROCESSOR_FEATURE_1); (0, Some 0, 1, 2, CP15_DEBUG_FEATURE_0);
  (0, Some 0, 1, 4, CP15_MEMORY_MODEL_FEATURE_0); (0, Some 0, 1, 5, CP15_MEMORY_MODEL_FEATURE_1);
  (0, Some 0, 1, 6, CP15_MEMORY_MODEL_FEATURE_2); (0, Some 0, 1, 7, CP15_MEMORY_MODEL_FEATURE_3);
  (0, Some 0, 2, 0, CP15_ISA_FEATURE_0); (0, Some 0, 2, 1, CP15_ISA_FEATURE_1); (0, Some 0, 2, 2, CP15_ISA_FEATURE_2);
  (0, Some 0, 2, 3, CP15_ISA_FEATURE_3); (0, Some 0, 2, 4, CP15_ISA_FEATURE_4);
  (1, Some 0, 0, 0, CP15_CONTROL); (1, Some 0, 0, 1, CP15_AUXILIARY_CONTROL); (1, Some 0, 0, 2, CP15_COPROCESSOR_ACCESS_CONTROL);
  (2, Some 0, 0, 0, CP15_TRANSLATION_BASE_TABLE_0); (2, Some 0, 0, 1, CP15_TRANSLATION_BASE_TABLE_1); (2, Some 0, 0, 2, CP15_TRANSLATION_BASE_CONTROL);
  (3, Some 0, 0, 0, CP15_DOMAIN_ACCESS_CONTROL); (5, Some 0, 0, 0, CP15_FAULT_STATUS); (5, Some 0, 0, 1, CP15_INSTR_FAULT_STATUS);
  (6, Some 0, 0, 0, CP15_FAULT_ADDRESS); (6, Some 0, 0, 1, CP15_WFAR); (7, Some 0, 4, 0, CP15_PHYS_ADDRESS);
  (9, Some 0, 0, 0, CP15_DATA_CACHE_LOCKDOWN); (10, Some 0, 0, 0, CP15_TLB_LOCKDOWN);
  (10, Some 0, 2, 0, CP15_PRIMARY_REGION_REMAP); (10, Some 0, 2, 1, CP15_NORMAL_REGION_REMAP);
  (13, None, 0, 0, CP15_PID); (13, None, 0, 1, CP15_CONTEXT_ID); (13, None, 0, 4, CP15_THREAD_PRW);
  (15, Some 0, 12, 0, CP15_PERFORMANCE_MONITOR_CONTROL); (15, Some 0, 12, 1, CP15_CYCLE_COUNTER); (15, Some 0, 12, 2, CP15_COUNT_0); (15, Some 0, 12, 3, CP15_COUNT_1);
  (15, Some 5, 5, 2, CP15_MAIN_TLB_LOCKDOWN_VIRT_ADDRESS); (15, Some 5, 6, 2, CP15_MAIN_TLB_LOCKDOWN_PHYS_ADDRESS); (15, Some 5, 7, 2, CP15_MAIN_TLB_LOCKDOWN_ATTRIBUTE);
  (15, Some 7, 1, 0, CP15_TLB_DEBUG_CONTROL)].
Definition ReadCP15Register (crn opcode_1 crm opcode_2 : Z) s : Z :=
  match cp15_find unprivileged_reads crn opcode_1 crm opcode_2 with
  | Some r => at_ (CP15 s) r
  | None =>
      if InAPrivilegedMode s then
        match cp15_find privileged_reads crn opcode_1 crm opcode_2 with
        | Some r => at_ (CP15 s) r
        | None => 0
        end
      else 0
  end.
Definition privileged_writes : list cp15_pattern := [
  (1, Some 0, 0, 0, CP15_CONTROL); (1, Some 0, 0, 1, CP15_AUXILIARY_CONTROL); (1, Some 0, 0, 2, CP15_COPROCESSOR_ACCESS_CONTROL);
  (2, Some 0, 0, 0, CP15_TRANSLATION_BASE_TABLE_0); (2, Some 0, 0, 1, CP15_TRANSLATION_BASE_TABLE_1); (2, Some 0, 0, 2, CP15_TRANSLATION_BASE_CONTROL);
  (3, Some 0, 0, 0, CP15_DOMAIN_ACCESS_CONTROL); (5, Some 0, 0, 0, CP15_FAULT_STATUS); (5, Some 0, 0, 1, CP15_INSTR_FAULT_STATUS);
  (6, Some 0, 0, 0, CP15_FAULT_ADDRESS); (6, Some 0, 0, 1, CP15_WFAR); (7, Some 0, 0, 4, CP15_WAIT_FOR_INTERRUPT);
  (7, Some 0, 5, 0, CP15_INVALIDATE_INSTR_CACHE); (7, Some 0, 5, 1, CP15_INVALIDATE_INSTR_CACHE_USING_MVA);
  (7, Some 0, 5, 2, CP15_INVALIDATE_INSTR_CACHE_USING_INDEX); (7, Some 0, 5, 6, CP15_FLUSH_BRANCH_TARGET_CACHE); (7, Some 0, 5, 7, CP15_FLUSH_BRANCH_TARGET_CACHE_ENTRY);
  (7, Some 0, 6, 0, CP15_INVALIDATE_DATA_CACHE); (7, Some 0, 6, 1, CP15_INVALIDATE_DATA_CACHE_LINE_USING_MVA); (7, Some 0, 6, 2, CP15_INVALIDATE_DATA_CACHE_LINE_USING_INDEX);
  (7, Some 0, 7, 0, CP15_INVALIDATE_DATA_AND_INSTR_CACHE);
  (7, Some 0, 10, 0, CP15_CLEAN_DATA_CACHE); (7, Some 0, 10, 1, CP15_CLEAN_DATA_CACHE_LINE_USING_MVA); (7, Some 0, 10, 2, CP15_CLEAN_DATA_CACHE_LINE_USING_INDEX);
  (7, Some 0, 14, 0, CP15_CLEAN_AND_INVALIDATE_DATA_CACHE); (7, Some 0, 14, 1, CP15_CLEAN_AND_INVALIDATE_DATA_CACHE_LINE_USING_MVA);
  (7, Some 0, 14, 2, CP15_CLEAN_AND_INVALIDATE_DATA_CACHE_LINE_USING_INDEX);
  (8, Some 0, 5, 0, CP15_INVALIDATE_ITLB); (8, Some 0, 5, 1, CP15_INVALIDATE_ITLB_SINGLE_ENTRY); (8, Some 0, 5, 2, CP15_INVALIDATE_ITLB_ENTRY_ON_ASID_MATCH);
  (8, Some 0, 5, 3, CP15_INVALIDATE_ITLB_ENTRY_ON_MVA);
  (8, Some 0, 6, 0, CP15_INVALIDATE_DTLB); (8, Some 0, 6, 1, CP15_INVALIDATE_DTLB_SINGLE_ENTRY); (8, Some 0, 6, 2, CP15_INVALIDATE_DTLB_ENTRY_ON_ASID_MATCH);
  (8, Some 0, 6, 3, CP15_INVALIDATE_DTLB_ENTRY_ON_MVA);
  (8, Some 0, 7, 0, CP15_INVALIDATE_UTLB); (8, Some 0, 7, 1, CP15_INVALIDATE_UTLB_SINGLE_ENTRY); (8, Some 0, 7, 2, CP15_INVALIDATE_UTLB_ENTRY_ON_ASID_MATCH);
  (8, Some 0, 7, 3, CP15_INVALIDATE_UTLB_ENTRY_ON_MVA);
  (9, Some 0, 0, 0, CP15_DATA_CACHE_LOCKDOWN); (10, Some 0, 0, 0, CP15_TLB_LOCKDOWN);
  (10, Some 0, 2, 0, CP15_PRIMARY_REGION_REMAP); (10, Some 0, 2, 1, CP15_NORMAL_REGION_REMAP);
  (13, Some 0, 0, 0, CP15_PID); (13, Some 0, 0, 1, CP15_CONTEXT_ID); (13, Some 0, 0, 3, CP15_THREAD_URO); (13, Some 0, 0, 4, CP15_THREAD_PRW);
  (15, Some 0, 12, 0, CP15_PERFORMANCE_MONITOR_CONTROL); (15, Some 0, 12, 1, CP15_CYCLE_COUNTER); (15, Some 0, 12, 2, CP15_COUNT_0); (15, Some 0, 12, 3, CP15_COUNT_1);
  (15, Some 5, 4, 2, CP15_READ_MAIN_TLB_LOCKDOWN_ENTRY); (15, Some 5, 4, 4, CP15_WRITE_MAIN_TLB_LOCKDOWN_ENTRY);
  (15, Some 5, 5, 2, CP15_MAIN_TLB_LOCKDOWN_VIRT_ADDRESS); (15, Some 5, 6, 2, CP15_MAIN_TLB_LOCKDOWN_PHYS_ADDRESS); (15, Some 5, 7, 2, CP15_MAIN_TLB_LOCKDOWN_ATTRIBUTE);
  (15, Some 7, 1, 0, CP15_TLB_DEBUG_CONTROL)].
Definition unprivileged_writes : list cp15_pattern := [
  (7, Some 0, 5, 4, CP15_FLUSH_PREFETCH_BUFFER); (7, Some 0, 10, 4, CP15_DATA_SYNC_BARRIER); (7, Some 0, 10, 5, CP15_DATA_MEMORY_BARRIER);
  (13, Some 0, 0, 2, CP15_THREAD_UPRW)].
Definition write_found (l : list cp15_pattern) (value crn opcode_1 crm opcode_2 : Z) s : ARMul_State :=
  match cp15_find l crn opcode_1 crm opcode_2 with Some r => set_cp15 r value s | None => s end.
Definition WriteCP15Register (value crn opcode_1 crm opcode_2 : Z) s : ARMul_State :=
  let s := if InAPrivilegedMode s then write_found privileged_writes value crn opcode_1 crm opcode_2 s else s in
  write_found unprivileged_writes value crn opcode_1 crm opcode_2 s.
