(* ===== verification/ArmOperands.v ===== *)
(** Operands of the instructions of the interpreter (src/.../core/arm/dyncom/
    arm_dyncom_run.h and the first part of arm_dyncom_interpreter.cpp): reading registers,
    conditions, shifter operands and addresses. *)

From S2P Require Import Prelude ArmSupp ArmState.

#[local] Abbreviation M := (Prelude.M ARMul_State).

(** ** Registers

    An index beyond the array is undefined behaviour. *)

Definition cpu_Reg (i : Z) : M Z := s ← get; deref (Reg s !! Z.to_nat i).
Definition set_Reg (i v : Z) : M unit :=
  s ← get;
  _ ← deref (Reg s !! Z.to_nat i);
  modify (fun s => s <| Reg ::= <[Z.to_nat i := u32 v]> |>).

(** arm_dyncom_run.h *)
Definition CHECK_READ_REG15_WA (Rn : Z) : M Z :=
  s ← get;
  if Rn =? 15 then mret (u32 (Z.land (at_ (Reg s) 15) (not32 3) + GetInstructionSize s * 2)) else cpu_Reg Rn.
Definition CHECK_READ_REG15 (Rn : Z) : M Z :=
  s ← get;
  if Rn =? 15 then mret (u32 (Z.land (at_ (Reg s) 15) (not32 1) + GetInstructionSize s * 2)) else cpu_Reg Rn.

(** ** Conditions *)

Definition EQ : Z := 0.
Definition NE : Z := 1.
Definition CS : Z := 2.
Definition CC : Z := 3.
Definition MI : Z := 4.
Definition PL : Z := 5.
Definition VS : Z := 6.
Definition VC : Z := 7.
Definition HI : Z := 8.
Definition LS : Z := 9.
Definition GE : Z := 10.
Definition LT : Z := 11.
Definition GT : Z := 12.
Definition LE : Z := 13.
Definition AL : Z := 14.
Definition NV : Z := 15.

Definition CondPassed (s : ARMul_State) (cond : Z) : bool :=
  let n_flag := truth (NFlag s) in
  let z_flag := truth (ZFlag s) in
  let c_flag := truth (CFlag s) in
  let v_flag := truth (VFlag s) in
  if cond =? EQ then z_flag
  else if cond =? NE then negb z_flag
  else if cond =? CS then c_flag
  else if cond =? CC then negb c_flag
  else if cond =? MI then n_flag
  else if cond =? PL then negb n_flag
  else if cond =? VS then v_flag
  else if cond =? VC then negb v_flag
  else if cond =? HI then c_flag && negb z_flag
  else if cond =? LS then negb c_flag || z_flag
  else if cond =? GE then Bool.eqb n_flag v_flag
  else if cond =? LT then negb (Bool.eqb n_flag v_flag)
  else if cond =? GT then negb z_flag && Bool.eqb n_flag v_flag
  else if cond =? LE then z_flag || negb (Bool.eqb n_flag v_flag)
  else (cond =? AL) || (cond =? NV).

(** ** Shifter operands *)

(** [ROTATE_RIGHT_32(n, i)], [i < 32]. For [i = 0] the code shifts by the width of the
    word, which C++ leaves undefined; the instructions of the hosts take the distance
    modulo 32, and compilers read the expression as a rotation. *)
Definition ROTATE_RIGHT_32 (n i : Z) : Z := Z.lor (u32 (Z.shiftl n ((32 - i) mod 32))) (Z.shiftr n i).

Definition set_shifter_carry_out (c : Z) : M unit := modify (fun s => s <| shifter_carry_out := c |>).
(** [cpu->shifter_carry_out = cpu->CFlag] *)
Definition keep_carry : M unit := modify (fun s => s <| shifter_carry_out := CFlag s |>).
Definition RM_of (sht_oper : Z) : Z := BITS sht_oper 0 3.
Definition RS_of (sht_oper : Z) : Z := BITS sht_oper 8 11.

Definition DataProcessingOperandsImmediate (sht_oper : Z) : M Z :=
  let immed_8 := BITS sht_oper 0 7 in
  let rotate_imm := BITS sht_oper 8 11 in
  let shifter_operand := ROTATE_RIGHT_32 immed_8 (rotate_imm * 2) in
  (if rotate_imm =? 0 then keep_carry else set_shifter_carry_out (BIT shifter_operand 31)) ;;
  mret shifter_operand.
Definition DataProcessingOperandsRegister (sht_oper : Z) : M Z :=
  rm ← CHECK_READ_REG15 (RM_of sht_oper);
  keep_carry ;;
  mret rm.
Definition DataProcessingOperandsLogicalShiftLeftByImmediate (sht_oper : Z) : M Z :=
  let shift_imm := BITS sht_oper 7 11 in
  rm ← CHECK_READ_REG15 (RM_of sht_oper);
  if shift_imm =? 0 then keep_carry ;; mret rm
  else set_shifter_carry_out (BIT rm (32 - shift_imm)) ;; mret (u32 (Z.shiftl rm shift_imm)).
Definition DataProcessingOperandsLogicalShiftLeftByRegister (sht_oper : Z) : M Z :=
  rm ← CHECK_READ_REG15 (RM_of sht_oper);
  rs ← CHECK_READ_REG15 (RS_of sht_oper);
  let n := BITS rs 0 7 in
  if n =? 0 then keep_carry ;; mret rm
  else if n <? 32 then set_shifter_carry_out (BIT rm (32 - n)) ;; mret (u32 (Z.shiftl rm n))
  else if n =? 32 then set_shifter_carry_out (BIT rm 0) ;; mret 0
  else set_shifter_carry_out 0 ;; mret 0.
Definition DataProcessingOperandsLogicalShiftRightByImmediate (sht_oper : Z) : M Z :=
  rm ← CHECK_READ_REG15 (RM_of sht_oper);
  let shift_imm := BITS sht_oper 7 11 in
  if shift_imm =? 0 then set_shifter_carry_out (BIT rm 31) ;; mret 0
  else set_shifter_carry_out (BIT rm (shift_imm - 1)) ;; mret (Z.shiftr rm shift_imm).
Definition DataProcessingOperandsLogicalShiftRightByRegister (sht_oper : Z) : M Z :=
  rs ← CHECK_READ_REG15 (RS_of sht_oper);
  rm ← CHECK_READ_REG15 (RM_of sht_oper);
  let n := BITS rs 0 7 in
  if n =? 0 then keep_carry ;; mret rm
  else if n <? 32 then set_shifter_carry_out (BIT rm (n - 1)) ;; mret (Z.shiftr rm n)
  else if n =? 32 then set_shifter_carry_out (BIT rm 31) ;; mret 0
  else set_shifter_carry_out 0 ;; mret 0.
Definition DataProcessingOperandsArithmeticShiftRightByImmediate (sht_oper : Z) : M Z :=
  rm ← CHECK_READ_REG15 (RM_of sht_oper);
  let shift_imm := BITS sht_oper 7 11 in
  if shift_imm =? 0 then
    set_shifter_carry_out (BIT rm 31) ;; mret (if BIT rm 31 =? 0 then 0 else 0xFFFFFFFF)
  else set_shifter_carry_out (BIT rm (shift_imm - 1)) ;; mret (u32 (Z.shiftr (s32 rm) shift_imm)).
Definition DataProcessingOperandsArithmeticShiftRightByRegister (sht_oper : Z) : M Z :=
  rs ← CHECK_READ_REG15 (RS_of sht_oper);
  rm ← CHECK_READ_REG15 (RM_of sht_oper);
  let n := BITS rs 0 7 in
  if n =? 0 then keep_carry ;; mret rm
  else if n <? 32 then set_shifter_carry_out (BIT rm (n - 1)) ;; mret (u32 (Z.shiftr (s32 rm) n))
  else set_shifter_carry_out (BIT rm 31) ;; mret (if BIT rm 31 =? 0 then 0 else 0xffffffff).
Definition DataProcessingOperandsRotateRightByImmediate (sht_oper : Z) : M Z :=
  rm ← CHECK_READ_REG15 (RM_of sht_oper);
  let shift_imm := BITS sht_oper 7 11 in
  if shift_imm =? 0 then
    s ← get;
    set_shifter_carry_out (BIT rm 0) ;; mret (Z.lor (u32 (Z.shiftl (CFlag s) 31)) (Z.shiftr rm 1))
  else set_shifter_carry_out (BIT rm (shift_imm - 1)) ;; mret (ROTATE_RIGHT_32 rm shift_imm).
Definition DataProcessingOperandsRotateRightByRegister (sht_oper : Z) : M Z :=
  rm ← CHECK_READ_REG15 (RM_of sht_oper);
  rs ← CHECK_READ_REG15 (RS_of sht_oper);
  if BITS rs 0 7 =? 0 then keep_carry ;; mret rm
  else if BITS rs 0 4 =? 0 then set_shifter_carry_out (BIT rm 31) ;; mret rm
  else set_shifter_carry_out (BIT rm (BITS rs 0 4 - 1)) ;; mret (ROTATE_RIGHT_32 rm (BITS rs 0 4)).

(** A pointer to one of the functions, and the call of it *)
Inductive shtop_fp_t :=
  | Immediate | Register
  | LogicalShiftLeftByImmediate | LogicalShiftLeftByRegister
  | LogicalShiftRightByImmediate | LogicalShiftRightByRegister
  | ArithmeticShiftRightByImmediate | ArithmeticShiftRightByRegister
  | RotateRightByImmediate | RotateRightByRegister.
Definition shtop_call (f : shtop_fp_t) : Z -> M Z :=
  match f with
  | Immediate => DataProcessingOperandsImmediate
  | Register => DataProcessingOperandsRegister
  | LogicalShiftLeftByImmediate => DataProcessingOperandsLogicalShiftLeftByImmediate
  | LogicalShiftLeftByRegister => DataProcessingOperandsLogicalShiftLeftByRegister
  | LogicalShiftRightByImmediate => DataProcessingOperandsLogicalShiftRightByImmediate
  | LogicalShiftRightByRegister => DataProcessingOperandsLogicalShiftRightByRegister
  | ArithmeticShiftRightByImmediate => DataProcessingOperandsArithmeticShiftRightByImmediate
  | ArithmeticShiftRightByRegister => DataProcessingOperandsArithmeticShiftRightByRegister
  | RotateRightByImmediate => DataProcessingOperandsRotateRightByImmediate
  | RotateRightByRegister => DataProcessingOperandsRotateRightByRegister
  end.
Definition GetShifterOp (inst : Z) : option shtop_fp_t :=
  if truth (BIT inst 25) then Some Immediate
  else if BITS inst 4 11 =? 0 then Some Register
  else if BITS inst 4 6 =? 0 then Some LogicalShiftLeftByImmediate
  else if BITS inst 4 7 =? 1 then Some LogicalShiftLeftByRegister
  else if BITS inst 4 6 =? 2 then Some LogicalShiftRightByImmediate
  else if BITS inst 4 7 =? 3 then Some LogicalShiftRightByRegister
  else if BITS inst 4 6 =? 4 then Some ArithmeticShiftRightByImmediate
  else if BITS inst 4 7 =? 5 then Some ArithmeticShiftRightByRegister
  else if BITS inst 4 6 =? 6 then Some RotateRightByImmediate
  else if BITS inst 4 7 =? 7 then Some RotateRightByRegister
  else None.
(** [SHIFTER_OPERAND] *)
Definition SHIFTER_OPERAND (shtop_func : option shtop_fp_t) (shifter_operand : Z) : M Z :=
  f ← deref shtop_func;
  shtop_call f shifter_operand.

(** ** Addresses

    Each function gives the address ([virt_addr]) and changes the base register where the
    mode does. *)

(** [U_BIT], and the sum or difference it selects *)
Definition up_down (inst base offset : Z) : Z := if truth (BIT inst 23) then u32 (base + offset) else u32 (base - offset).
Definition OFFSET_12 (inst : Z) : Z := BITS inst 0 11.
Definition offset_8 (inst : Z) : Z := Z.lor (Z.shiftl (BITS inst 8 11) 4) (BITS inst 0 3).
(** [if (CondPassed(cpu, BITS(inst, 28, 31)))] *)
Definition if_passed (inst : Z) (m : M unit) : M unit := s ← get; if CondPassed s (BITS inst 28 31) then m else mret tt.
(** [cpu->Reg[Rn] += x] or [-= x], as the U bit says *)
Definition move_base (inst Rn x : Z) : M unit := r ← cpu_Reg Rn; set_Reg Rn (up_down inst r x).

Definition LnSWoUBImmediateOffset (inst : Z) : M Z :=
  let Rn := BITS inst 16 19 in
  rn ← CHECK_READ_REG15_WA Rn;
  mret (up_down inst rn (OFFSET_12 inst)).
Definition LnSWoUBRegisterOffset (inst : Z) : M Z :=
  let Rn := BITS inst 16 19 in
  let Rm := BITS inst 0 3 in
  rn ← CHECK_READ_REG15_WA Rn;
  rm ← CHECK_READ_REG15_WA Rm;
  mret (up_down inst rn rm).
Definition LnSWoUBImmediatePostIndexed (inst : Z) : M Z :=
  let Rn := BITS inst 16 19 in
  addr ← CHECK_READ_REG15_WA Rn;
  move_base inst Rn (OFFSET_12 inst) ;;
  mret addr.
Definition LnSWoUBImmediatePreIndexed (inst : Z) : M Z :=
  let Rn := BITS inst 16 19 in
  rn ← CHECK_READ_REG15_WA Rn;
  let addr := up_down inst rn (OFFSET_12 inst) in
  if_passed inst (set_Reg Rn addr) ;;
  mret addr.
Definition MLnSRegisterPreIndexed (inst : Z) : M Z :=
  let Rn := BITS inst 16 19 in
  let Rm := BITS inst 0 3 in
  rn ← CHECK_READ_REG15_WA Rn;
  rm ← CHECK_READ_REG15_WA Rm;
  let addr := up_down inst rn rm in
  if_passed inst (set_Reg Rn addr) ;;
  mret addr.
Definition LnSWoUBRegisterPreIndexed (inst : Z) : M Z :=
  let Rn := BITS inst 16 19 in
  let Rm := BITS inst 0 3 in
  rn ← CHECK_READ_REG15_WA Rn;
  rm ← CHECK_READ_REG15_WA Rm;
  let addr := up_down inst rn rm in
  if_passed inst (set_Reg Rn addr) ;;
  mret addr.
(** The [switch] on the shift of a scaled index *)
Definition scaled_index (inst rm : Z) (s : ARMul_State) : Z :=
  let shift := BITS inst 5 6 in
  let shift_imm := BITS inst 7 11 in
  if shift =? 0 then u32 (Z.shiftl rm shift_imm)
  else if shift =? 1 then if shift_imm =? 0 then 0 else Z.shiftr rm shift_imm
  else if shift =? 2 then
    if shift_imm =? 0 then if BIT rm 31 =? 1 then 0xFFFFFFFF else 0
    else u32 (Z.shiftr (s32 rm) shift_imm)
  else if shift_imm =? 0 then Z.lor (u32 (Z.shiftl (CFlag s) 31)) (Z.shiftr rm 1)
  else ROTATE_RIGHT_32 rm shift_imm.
Definition LnSWoUBScaledRegisterPreIndexed (inst : Z) : M Z :=
  let Rn := BITS inst 16 19 in
  let Rm := BITS inst 0 3 in
  rm ← CHECK_READ_REG15_WA Rm;
  rn ← CHECK_READ_REG15_WA Rn;
  index ← gets (scaled_index inst rm);
  let addr := up_down inst rn index in
  if_passed inst (set_Reg Rn addr) ;;
  mret addr.
Definition LnSWoUBScaledRegisterPostIndexed (inst : Z) : M Z :=
  let Rn := BITS inst 16 19 in
  let Rm := BITS inst 0 3 in
  addr ← CHECK_READ_REG15_WA Rn;
  rm ← CHECK_READ_REG15_WA Rm;
  index ← gets (scaled_index inst rm);
  if_passed inst (move_base inst Rn index) ;;
  mret addr.
Definition LnSWoUBRegisterPostIndexed (inst : Z) : M Z :=
  let Rn := BITS inst 16 19 in
  let Rm := BITS inst 0 3 in
  rm ← CHECK_READ_REG15_WA Rm;
  addr ← CHECK_READ_REG15_WA Rn;
  if_passed inst (move_base inst Rn rm) ;;
  mret addr.
Definition MLnSImmediateOffset (inst : Z) : M Z :=
  let Rn := BITS inst 16 19 in
  rn ← CHECK_READ_REG15_WA Rn;
  mret (up_down inst rn (offset_8 inst)).
Definition MLnSRegisterOffset (inst : Z) : M Z :=
  let Rn := BITS inst 16 19 in
  let Rm := BITS inst 0 3 in
  rn ← CHECK_READ_REG15_WA Rn;
  rm ← CHECK_READ_REG15_WA Rm;
  mret (up_down inst rn rm).
Definition MLnSImmediatePreIndexed (inst : Z) : M Z :=
  let Rn := BITS inst 16 19 in
  rn ← CHECK_READ_REG15_WA Rn;
  let addr := up_down inst rn (offset_8 inst) in
  if_passed inst (set_Reg Rn addr) ;;
  mret addr.
Definition MLnSImmediatePostIndexed (inst : Z) : M Z :=
  let Rn := BITS inst 16 19 in
  rn ← CHECK_READ_REG15_WA Rn;
  if_passed inst (set_Reg Rn (up_down inst rn (offset_8 inst))) ;;
  mret rn.
Definition MLnSRegisterPostIndexed (inst : Z) : M Z :=
  let Rn := BITS inst 16 19 in
  let Rm := BITS inst 0 3 in
  rm ← CHECK_READ_REG15_WA Rm;
  addr ← CHECK_READ_REG15_WA Rn;
  if_passed inst (move_base inst Rn rm) ;;
  mret addr.

(** The number of registers of the list: [while (i) { if (i & 1) count++; i = i >> 1; }];
    [i] has sixteen bits. *)
Fixpoint count_registers (fuel : nat) (i count : Z) : Z :=
  match fuel with
  | O => count
  | S fuel =>
      if truth i then count_registers fuel (Z.shiftr i 1) (if truth (Z.land i 1) then count + 1 else count) else count
  end.
Definition register_count (inst : Z) : Z := count_registers 17 (BITS inst 0 15) 0.
(** [if (CondPassed(cpu, BITS(inst, 28, 31)) && BIT(inst, 21))] *)
Definition write_back (inst by_ : Z) : M unit :=
  let Rn := BITS inst 16 19 in
  if_passed inst (if truth (BIT inst 21) then r ← cpu_Reg Rn; set_Reg Rn (r + by_) else mret tt).
Definition LdnStMDecrementBefore (inst : Z) : M Z :=
  let count := register_count inst in
  rn ← CHECK_READ_REG15_WA (BITS inst 16 19);
  write_back inst (- (count * 4)) ;;
  mret (u32 (rn - count * 4)).
Definition LdnStMIncrementBefore (inst : Z) : M Z :=
  let count := register_count inst in
  rn ← CHECK_READ_REG15_WA (BITS inst 16 19);
  write_back inst (count * 4) ;;
  mret (u32 (rn + 4)).
Definition LdnStMIncrementAfter (inst : Z) : M Z :=
  let count := register_count inst in
  rn ← CHECK_READ_REG15_WA (BITS inst 16 19);
  write_back inst (count * 4) ;;
  mret rn.
Definition LdnStMDecrementAfter (inst : Z) : M Z :=
  let count := register_count inst in
  rn ← CHECK_READ_REG15_WA (BITS inst 16 19);
  write_back inst (- (count * 4)) ;;
  mret (u32 (rn - count * 4 + 4)).
Definition LnSWoUBScaledRegisterOffset (inst : Z) : M Z :=
  let Rn := BITS inst 16 19 in
  let Rm := BITS inst 0 3 in
  rm ← CHECK_READ_REG15_WA Rm;
  rn ← CHECK_READ_REG15_WA Rn;
  index ← gets (scaled_index inst rm);
  mret (up_down inst rn index).

Inductive get_addr_fp_t :=
  | LnSWoUB_ImmediateOffset | LnSWoUB_RegisterOffset | LnSWoUB_ScaledRegisterOffset
  | LnSWoUB_ImmediatePreIndexed | LnSWoUB_RegisterPreIndexed | LnSWoUB_ScaledRegisterPreIndexed
  | LnSWoUB_ImmediatePostIndexed | LnSWoUB_RegisterPostIndexed | LnSWoUB_ScaledRegisterPostIndexed
  | MLnS_ImmediateOffset | MLnS_RegisterOffset | MLnS_ImmediatePreIndexed | MLnS_RegisterPreIndexed
  | MLnS_ImmediatePostIndexed | MLnS_RegisterPostIndexed
  | LdnStM_IncrementAfter | LdnStM_IncrementBefore | LdnStM_DecrementAfter | LdnStM_DecrementBefore.
Definition get_addr_call (f : get_addr_fp_t) : Z -> M Z :=
  match f with
  | LnSWoUB_ImmediateOffset => LnSWoUBImmediateOffset
  | LnSWoUB_RegisterOffset => LnSWoUBRegisterOffset
  | LnSWoUB_ScaledRegisterOffset => LnSWoUBScaledRegisterOffset
  | LnSWoUB_ImmediatePreIndexed => LnSWoUBImmediatePreIndexed
  | LnSWoUB_RegisterPreIndexed => LnSWoUBRegisterPreIndexed
  | LnSWoUB_ScaledRegisterPreIndexed => LnSWoUBScaledRegisterPreIndexed
  | LnSWoUB_ImmediatePostIndexed => LnSWoUBImmediatePostIndexed
  | LnSWoUB_RegisterPostIndexed => LnSWoUBRegisterPostIndexed
  | LnSWoUB_ScaledRegisterPostIndexed => LnSWoUBScaledRegisterPostIndexed
  | MLnS_ImmediateOffset => MLnSImmediateOffset
  | MLnS_RegisterOffset => MLnSRegisterOffset
  | MLnS_ImmediatePreIndexed => MLnSImmediatePreIndexed
  | MLnS_RegisterPreIndexed => MLnSRegisterPreIndexed
  | MLnS_ImmediatePostIndexed => MLnSImmediatePostIndexed
  | MLnS_RegisterPostIndexed => MLnSRegisterPostIndexed
  | LdnStM_IncrementAfter => LdnStMIncrementAfter
  | LdnStM_IncrementBefore => LdnStMIncrementBefore
  | LdnStM_DecrementAfter => LdnStMDecrementAfter
  | LdnStM_DecrementBefore => LdnStMDecrementBefore
  end.
Definition GetAddressingOp (inst : Z) : option get_addr_fp_t :=
  let misc := (BIT inst 7 =? 1) && (BIT inst 4 =? 1) in
  if (BITS inst 24 27 =? 5) && (BIT inst 21 =? 0) then Some LnSWoUB_ImmediateOffset
  else if (BITS inst 24 27 =? 7) && (BIT inst 21 =? 0) && (BITS inst 4 11 =? 0) then Some LnSWoUB_RegisterOffset
  else if (BITS inst 24 27 =? 7) && (BIT inst 21 =? 0) && (BIT inst 4 =? 0) then Some LnSWoUB_ScaledRegisterOffset
  else if (BITS inst 24 27 =? 5) && (BIT inst 21 =? 1) then Some LnSWoUB_ImmediatePreIndexed
  else if (BITS inst 24 27 =? 7) && (BIT inst 21 =? 1) && (BITS inst 4 11 =? 0) then Some LnSWoUB_RegisterPreIndexed
  else if (BITS inst 24 27 =? 7) && (BIT inst 21 =? 1) && (BIT inst 4 =? 0) then Some LnSWoUB_ScaledRegisterPreIndexed
  else if (BITS inst 24 27 =? 4) && (BIT inst 21 =? 0) then Some LnSWoUB_ImmediatePostIndexed
  else if (BITS inst 24 27 =? 6) && (BIT inst 21 =? 0) && (BITS inst 4 11 =? 0) then Some LnSWoUB_RegisterPostIndexed
  else if (BITS inst 24 27 =? 6) && (BIT inst 21 =? 0) && (BIT inst 4 =? 0) then Some LnSWoUB_ScaledRegisterPostIndexed
  else if (BITS inst 24 27 =? 1) && (BITS inst 21 22 =? 2) && misc then Some MLnS_ImmediateOffset
  else if (BITS inst 24 27 =? 1) && (BITS inst 21 22 =? 0) && misc then Some MLnS_RegisterOffset
  else if (BITS inst 24 27 =? 1) && (BITS inst 21 22 =? 3) && misc then Some MLnS_ImmediatePreIndexed
  else if (BITS inst 24 27 =? 1) && (BITS inst 21 22 =? 1) && misc then Some MLnS_RegisterPreIndexed
  else if (BITS inst 24 27 =? 0) && (BITS inst 21 22 =? 2) && misc then Some MLnS_ImmediatePostIndexed
  else if (BITS inst 24 27 =? 0) && (BITS inst 21 22 =? 0) && misc then Some MLnS_RegisterPostIndexed
  else if BITS inst 23 27 =? 0x11 then Some LdnStM_IncrementAfter
  else if BITS inst 23 27 =? 0x13 then Some LdnStM_IncrementBefore
  else if BITS inst 23 27 =? 0x10 then Some LdnStM_DecrementAfter
  else if BITS inst 23 27 =? 0x12 then Some LdnStM_DecrementBefore
  else None.
Definition GetAddressingOpLoadStoreT (inst : Z) : option get_addr_fp_t :=
  if BITS inst 25 27 =? 2 then Some LnSWoUB_ImmediatePostIndexed
  else if BITS inst 25 27 =? 3 then Some LnSWoUB_ScaledRegisterPostIndexed
  else None.
(** [inst_cream->get_addr(cpu, inst, addr)] *)
Definition get_addr (f : option get_addr_fp_t) (inst : Z) : M Z := g ← deref f; get_addr_call g inst.

Definition clz (x : Z) : Z :=
  if x =? 0 then 32
  else
    let '(n, x) := if Z.shiftr x 16 =? 0 then (1 + 16, u32 (Z.shiftl x 16)) else (1, x) in
    let '(n, x) := if Z.shiftr x 24 =? 0 then (n + 8, u32 (Z.shiftl x 8)) else (n, x) in
    let '(n, x) := if Z.shiftr x 28 =? 0 then (n + 4, u32 (Z.shiftl x 4)) else (n, x) in
    let '(n, x) := if Z.shiftr x 30 =? 0 then (n + 2, u32 (Z.shiftl x 2)) else (n, x) in
    n - Z.shiftr x 31.
