(* ===== verification/ArmDecode.v ===== *)
(** The decoder (src/.../core/arm/dyncom/arm_dyncom_dec.cpp): the table of encodings, and
    the search of an instruction in it. *)

From S2P Require Import Prelude ArmSupp.

Definition INVALID : Z := 0.
Definition ARMALL : Z := 1.
Definition ARMV4 : Z := 2.
Definition ARMV4T : Z := 3.
Definition ARMV5T : Z := 4.
Definition ARMV5TE : Z := 5.
Definition ARMV5TEJ : Z := 6.
Definition ARMV6 : Z := 7.
Definition ARM1176JZF_S : Z := 8.
Definition ARMVFP2 : Z := 9.
Definition ARMVFP3 : Z := 10.
Definition ARMV6K : Z := 11.

(** [content] is an array of 21 numbers; those that are not given are 0. *)
Record InstructionSetEncodingItem := item { name : string; attribute_value : nat; version : Z; content : list Z }.

Definition arm_instruction : list InstructionSetEncodingItem := [
  item "vmla" 5 ARMVFP2 [23; 27; 28; 20; 21; 0; 9; 11; 5; 6; 6; 0; 4; 4; 0];
  item "vmls" 5 ARMVFP2 [23; 27; 28; 20; 21; 0; 9; 11; 5; 6; 6; 1; 4; 4; 0];
  item "vnmla" 5 ARMVFP2 [23; 27; 28; 20; 21; 1; 9; 11; 5; 6; 6; 1; 4; 4; 0];
  item "vnmls" 5 ARMVFP2 [23; 27; 28; 20; 21; 1; 9; 11; 5; 6; 6; 0; 4; 4; 0];
  item "vnmul" 5 ARMVFP2 [23; 27; 28; 20; 21; 2; 9; 11; 5; 6; 6; 1; 4; 4; 0];
  item "vmul" 5 ARMVFP2 [23; 27; 28; 20; 21; 2; 9; 11; 5; 6; 6; 0; 4; 4; 0];
  item "vadd" 5 ARMVFP2 [23; 27; 28; 20; 21; 3; 9; 11; 5; 6; 6; 0; 4; 4; 0];
  item "vsub" 5 ARMVFP2 [23; 27; 28; 20; 21; 3; 9; 11; 5; 6; 6; 1; 4; 4; 0];
  item "vdiv" 5 ARMVFP2 [23; 27; 29; 20; 21; 0; 9; 11; 5; 6; 6; 0; 4; 4; 0];
  item "vmov(i)" 4 ARMVFP3 [23; 27; 29; 20; 21; 3; 9; 11; 5; 4; 7; 0];
  item "vmov(r)" 5 ARMVFP3 [23; 27; 29; 16; 21; 0x30; 9; 11; 5; 6; 7; 1; 4; 4; 0];
  item "vabs" 5 ARMVFP2 [23; 27; 29; 16; 21; 0x30; 9; 11; 5; 6; 7; 3; 4; 4; 0];
  item "vneg" 5 ARMVFP2 [23; 27; 29; 17; 21; 24; 9; 11; 5; 6; 7; 1; 4; 4; 0];
  item "vsqrt" 5 ARMVFP2 [23; 27; 29; 16; 21; 0x31; 9; 11; 5; 6; 7; 3; 4; 4; 0];
  item "vcmp" 5 ARMVFP2 [23; 27; 29; 16; 21; 0x34; 9; 11; 5; 6; 6; 1; 4; 4; 0];
  item "vcmp2" 5 ARMVFP2 [23; 27; 29; 16; 21; 0x35; 9; 11; 5; 0; 6; 0x40];
  item "vcvt(bds)" 5 ARMVFP2 [23; 27; 29; 16; 21; 0x37; 9; 11; 5; 6; 7; 3; 4; 4; 0];
  item "vcvt(bff)" 6 ARMVFP3 [23; 27; 29; 19; 21; 7; 17; 17; 1; 9; 11; 5; 6; 6; 1];
  item "vcvt(bfi)" 5 ARMVFP2 [23; 27; 29; 19; 21; 7; 9; 11; 5; 6; 6; 1; 4; 4; 0];
  item "vmovbrs" 3 ARMVFP2 [21; 27; 0x70; 8; 11; 10; 0; 6; 16];
  item "vmsr" 2 ARMVFP2 [20; 27; 0xee; 0; 11; 0xa10];
  item "vmovbrc" 4 ARMVFP2 [23; 27; 28; 20; 20; 0; 8; 11; 11; 0; 4; 16];
  item "vmrs" 2 ARMVFP2 [20; 27; 0xef; 0; 11; 0xa10];
  item "vmovbcr" 4 ARMVFP2 [24; 27; 14; 20; 20; 1; 8; 11; 11; 0; 4; 16];
  item "vmovbrrss" 3 ARMVFP2 [21; 27; 0x62; 8; 11; 10; 4; 4; 1];
  item "vmovbrrd" 3 ARMVFP2 [21; 27; 0x62; 6; 11; 0x2c; 4; 4; 1];
  item "vstr" 3 ARMVFP2 [24; 27; 13; 20; 21; 0; 9; 11; 5];
  item "vpush" 3 ARMVFP2 [23; 27; 26; 16; 21; 0x2d; 9; 11; 5];
  item "vstm" 3 ARMVFP2 [25; 27; 6; 20; 20; 0; 9; 11; 5];
  item "vpop" 3 ARMVFP2 [23; 27; 25; 16; 21; 0x3d; 9; 11; 5];
  item "vldr" 3 ARMVFP2 [24; 27; 13; 20; 21; 1; 9; 11; 5];
  item "vldm" 3 ARMVFP2 [25; 27; 6; 20; 20; 1; 9; 11; 5];
  item "srs" 4 6 [25; 31; 0x7c; 22; 22; 1; 16; 20; 13; 8; 11; 5];
  item "rfe" 4 6 [25; 31; 0x7c; 22; 22; 0; 20; 20; 1; 8; 11; 10];
  item "bkpt" 2 3 [20; 27; 18; 4; 7; 7];
  item "blx" 1 3 [25; 31; 0x7d];
  item "cps" 3 6 [20; 31; 0xf10; 16; 16; 0; 5; 5; 0];
  item "pld" 4 4 [26; 31; 0x3d; 24; 24; 1; 20; 22; 5; 12; 15; 15];
  item "setend" 2 6 [16; 31; 0xf101; 4; 7; 0];
  item "clrex" 1 6 [0; 31; 0xf57ff01f];
  item "rev16" 2 6 [16; 27; 0x6bf; 4; 11; 0xfb];
  item "usad8" 3 6 [20; 27; 0x78; 12; 15; 15; 4; 7; 1];
  item "sxtb" 2 6 [16; 27; 0x6af; 4; 7; 7];
  item "uxtb" 2 6 [16; 27; 0x6ef; 4; 7; 7];
  item "sxth" 2 6 [16; 27; 0x6bf; 4; 7; 7];
  item "sxtb16" 2 6 [16; 27; 0x68f; 4; 7; 7];
  item "uxth" 2 6 [16; 27; 0x6ff; 4; 7; 7];
  item "uxtb16" 2 6 [16; 27; 0x6cf; 4; 7; 7];
  item "cpy" 2 6 [20; 27; 26; 4; 11; 0];
  item "uxtab" 2 6 [20; 27; 0x6e; 4; 9; 7];
  item "ssub8" 2 6 [20; 27; 0x61; 4; 7; 15];
  item "shsub8" 2 6 [20; 27; 0x63; 4; 7; 15];
  item "ssubaddx" 2 6 [20; 27; 0x61; 4; 7; 5];
  item "strex" 2 6 [20; 27; 24; 4; 7; 9];
  item "strexb" 2 7 [20; 27; 28; 4; 7; 9];
  item "swp" 2 0 [20; 27; 16; 4; 7; 9];
  item "swpb" 2 0 [20; 27; 20; 4; 7; 9];
  item "ssub16" 2 6 [20; 27; 0x61; 4; 7; 7];
  item "ssat16" 2 6 [20; 27; 0x6a; 4; 7; 3];
  item "shsubaddx" 2 6 [20; 27; 0x63; 4; 7; 5];
  item "qsubaddx" 2 6 [20; 27; 0x62; 4; 7; 5];
  item "shaddsubx" 2 6 [20; 27; 0x63; 4; 7; 3];
  item "shadd8" 2 6 [20; 27; 0x63; 4; 7; 9];
  item "shadd16" 2 6 [20; 27; 0x63; 4; 7; 1];
  item "sel" 2 6 [20; 27; 0x68; 4; 7; 11];
  item "saddsubx" 2 6 [20; 27; 0x61; 4; 7; 3];
  item "sadd8" 2 6 [20; 27; 0x61; 4; 7; 9];
  item "sadd16" 2 6 [20; 27; 0x61; 4; 7; 1];
  item "shsub16" 2 6 [20; 27; 0x63; 4; 7; 7];
  item "umaal" 2 6 [20; 27; 4; 4; 7; 9];
  item "uxtab16" 2 6 [20; 27; 0x6c; 4; 7; 7];
  item "usubaddx" 2 6 [20; 27; 0x65; 4; 7; 5];
  item "usub8" 2 6 [20; 27; 0x65; 4; 7; 15];
  item "usub16" 2 6 [20; 27; 0x65; 4; 7; 7];
  item "usat16" 2 6 [20; 27; 0x6e; 4; 7; 3];
  item "usada8" 2 6 [20; 27; 0x78; 4; 7; 1];
  item "uqsubaddx" 2 6 [20; 27; 0x66; 4; 7; 5];
  item "uqsub8" 2 6 [20; 27; 0x66; 4; 7; 15];
  item "uqsub16" 2 6 [20; 27; 0x66; 4; 7; 7];
  item "uqaddsubx" 2 6 [20; 27; 0x66; 4; 7; 3];
  item "uqadd8" 2 6 [20; 27; 0x66; 4; 7; 9];
  item "uqadd16" 2 6 [20; 27; 0x66; 4; 7; 1];
  item "sxtab" 2 6 [20; 27; 0x6a; 4; 7; 7];
  item "uhsubaddx" 2 6 [20; 27; 0x67; 4; 7; 5];
  item "uhsub8" 2 6 [20; 27; 0x67; 4; 7; 15];
  item "uhsub16" 2 6 [20; 27; 0x67; 4; 7; 7];
  item "uhaddsubx" 2 6 [20; 27; 0x67; 4; 7; 3];
  item "uhadd8" 2 6 [20; 27; 0x67; 4; 7; 9];
  item "uhadd16" 2 6 [20; 27; 0x67; 4; 7; 1];
  item "uaddsubx" 2 6 [20; 27; 0x65; 4; 7; 3];
  item "uadd8" 2 6 [20; 27; 0x65; 4; 7; 9];
  item "uadd16" 2 6 [20; 27; 0x65; 4; 7; 1];
  item "sxtah" 2 6 [20; 27; 0x6b; 4; 7; 7];
  item "sxtab16" 2 6 [20; 27; 0x68; 4; 7; 7];
  item "qadd8" 2 6 [20; 27; 0x62; 4; 7; 9];
  item "bxj" 2 5 [20; 27; 18; 4; 7; 2];
  item "clz" 2 3 [20; 27; 22; 4; 7; 1];
  item "uxtah" 2 6 [20; 27; 0x6f; 4; 7; 7];
  item "bx" 2 2 [20; 27; 18; 4; 7; 1];
  item "rev" 2 6 [20; 27; 0x6b; 4; 7; 3];
  item "blx" 2 3 [20; 27; 18; 4; 7; 3];
  item "revsh" 2 6 [20; 27; 0x6f; 4; 7; 11];
  item "qadd" 2 4 [20; 27; 16; 4; 7; 5];
  item "qadd16" 2 6 [20; 27; 0x62; 4; 7; 1];
  item "qaddsubx" 2 6 [20; 27; 0x62; 4; 7; 3];
  item "ldrex" 2 0 [20; 27; 25; 4; 7; 9];
  item "qdadd" 2 4 [20; 27; 20; 4; 7; 5];
  item "qdsub" 2 4 [20; 27; 22; 4; 7; 5];
  item "qsub" 2 4 [20; 27; 18; 4; 7; 5];
  item "ldrexb" 2 7 [20; 27; 29; 4; 7; 9];
  item "qsub8" 2 6 [20; 27; 0x62; 4; 7; 15];
  item "qsub16" 2 6 [20; 27; 0x62; 4; 7; 7];
  item "smuad" 4 6 [20; 27; 0x70; 12; 15; 15; 6; 7; 0; 4; 4; 1];
  item "smmul" 4 6 [20; 27; 0x75; 12; 15; 15; 6; 7; 0; 4; 4; 1];
  item "smusd" 4 6 [20; 27; 0x70; 12; 15; 15; 6; 7; 1; 4; 4; 1];
  item "smlsd" 3 6 [20; 27; 0x70; 6; 7; 1; 4; 4; 1];
  item "smlsld" 3 6 [20; 27; 0x74; 6; 7; 1; 4; 4; 1];
  item "smmla" 3 6 [20; 27; 0x75; 6; 7; 0; 4; 4; 1];
  item "smmls" 3 6 [20; 27; 0x75; 6; 7; 3; 4; 4; 1];
  item "smlald" 3 6 [20; 27; 0x74; 6; 7; 0; 4; 4; 1];
  item "smlad" 3 6 [20; 27; 0x70; 6; 7; 0; 4; 4; 1];
  item "smlaw" 3 4 [20; 27; 18; 7; 7; 1; 4; 5; 0];
  item "smulw" 3 4 [20; 27; 18; 7; 7; 1; 4; 5; 2];
  item "pkhtb" 2 6 [20; 27; 0x68; 4; 6; 5];
  item "pkhbt" 2 6 [20; 27; 0x68; 4; 6; 1];
  item "smul" 3 4 [20; 27; 22; 7; 7; 1; 4; 4; 0];
  item "smlalxy" 3 4 [20; 27; 20; 7; 7; 1; 4; 4; 0];
  item "smla" 3 4 [20; 27; 16; 7; 7; 1; 4; 4; 0];
  item "mcrr" 1 6 [20; 27; 0xc4];
  item "mrrc" 1 6 [20; 27; 0xc5];
  item "cmp" 2 0 [26; 27; 0; 20; 24; 21];
  item "tst" 2 0 [26; 27; 0; 20; 24; 17];
  item "teq" 2 0 [26; 27; 0; 20; 24; 19];
  item "cmn" 2 0 [26; 27; 0; 20; 24; 23];
  item "smull" 2 0 [21; 27; 6; 4; 7; 9];
  item "umull" 2 0 [21; 27; 4; 4; 7; 9];
  item "umlal" 2 0 [21; 27; 5; 4; 7; 9];
  item "smlal" 2 0 [21; 27; 7; 4; 7; 9];
  item "mul" 2 0 [21; 27; 0; 4; 7; 9];
  item "mla" 2 0 [21; 27; 1; 4; 7; 9];
  item "ssat" 2 6 [21; 27; 0x35; 4; 5; 1];
  item "usat" 2 6 [21; 27; 0x37; 4; 5; 1];
  item "mrs" 4 0 [23; 27; 2; 20; 21; 0; 16; 19; 15; 0; 11; 0];
  item "msr" 3 0 [23; 27; 2; 20; 21; 2; 4; 7; 0];
  item "and" 2 0 [26; 27; 0; 21; 24; 0];
  item "bic" 2 0 [26; 27; 0; 21; 24; 14];
  item "ldm" 3 0 [25; 27; 4; 20; 22; 5; 15; 15; 0];
  item "eor" 2 0 [26; 27; 0; 21; 24; 1];
  item "add" 2 0 [26; 27; 0; 21; 24; 4];
  item "rsb" 2 0 [26; 27; 0; 21; 24; 3];
  item "rsc" 2 0 [26; 27; 0; 21; 24; 7];
  item "sbc" 2 0 [26; 27; 0; 21; 24; 6];
  item "adc" 2 0 [26; 27; 0; 21; 24; 5];
  item "sub" 2 0 [26; 27; 0; 21; 24; 2];
  item "orr" 2 0 [26; 27; 0; 21; 24; 12];
  item "mvn" 2 0 [26; 27; 0; 21; 24; 15];
  item "mov" 2 0 [26; 27; 0; 21; 24; 13];
  item "stm" 2 0 [25; 27; 4; 20; 22; 4];
  item "ldm" 4 0 [25; 27; 4; 22; 22; 1; 20; 20; 1; 15; 15; 1];
  item "ldrsh" 3 2 [25; 27; 0; 20; 20; 1; 4; 7; 15];
  item "stm" 3 0 [25; 27; 4; 22; 22; 0; 20; 20; 0];
  item "ldm" 3 0 [25; 27; 4; 22; 22; 0; 20; 20; 1];
  item "ldrsb" 3 2 [25; 27; 0; 20; 20; 1; 4; 7; 13];
  item "strd" 3 4 [25; 27; 0; 20; 20; 0; 4; 7; 15];
  item "ldrh" 3 0 [25; 27; 0; 20; 20; 1; 4; 7; 11];
  item "strh" 3 0 [25; 27; 0; 20; 20; 0; 4; 7; 11];
  item "ldrd" 3 4 [25; 27; 0; 20; 20; 0; 4; 7; 13];
  item "strt" 3 0 [26; 27; 1; 24; 24; 0; 20; 22; 2];
  item "strbt" 3 0 [26; 27; 1; 24; 24; 0; 20; 22; 6];
  item "ldrbt" 3 0 [26; 27; 1; 24; 24; 0; 20; 22; 7];
  item "ldrt" 3 0 [26; 27; 1; 24; 24; 0; 20; 22; 3];
  item "mrc" 3 6 [24; 27; 14; 20; 20; 1; 4; 4; 1];
  item "mcr" 3 0 [24; 27; 14; 20; 20; 0; 4; 4; 1];
  item "msr" 3 0 [23; 27; 6; 20; 21; 2; 22; 22; 1];
  item "msr" 4 0 [23; 27; 6; 20; 21; 2; 22; 22; 0; 16; 19; 4];
  item "msr" 5 0 [23; 27; 6; 20; 21; 2; 22; 22; 0; 19; 19; 1; 16; 17; 0];
  item "msr" 4 0 [23; 27; 6; 20; 21; 2; 22; 22; 0; 16; 17; 1];
  item "msr" 4 0 [23; 27; 6; 20; 21; 2; 22; 22; 0; 17; 17; 1];
  item "ldrb" 3 0 [26; 27; 1; 22; 22; 1; 20; 20; 1];
  item "strb" 3 0 [26; 27; 1; 22; 22; 1; 20; 20; 0];
  item "ldr" 4 0 [28; 31; 14; 26; 27; 1; 22; 22; 0; 20; 20; 1];
  item "ldrcond" 3 0 [26; 27; 1; 22; 22; 0; 20; 20; 1];
  item "str" 3 0 [26; 27; 1; 22; 22; 0; 20; 20; 0];
  item "cdp" 2 0 [24; 27; 14; 4; 4; 0];
  item "stc" 2 0 [25; 27; 6; 20; 20; 0];
  item "ldc" 2 0 [25; 27; 6; 20; 20; 1];
  item "ldrexd" 2 ARMV6K [20; 27; 27; 4; 7; 9];
  item "strexd" 2 ARMV6K [20; 27; 26; 4; 7; 9];
  item "ldrexh" 2 ARMV6K [20; 27; 31; 4; 7; 9];
  item "strexh" 2 ARMV6K [20; 27; 30; 4; 7; 9];
  item "nop" 5 ARMV6K [23; 27; 6; 22; 22; 0; 20; 21; 2; 16; 19; 0; 0; 7; 0];
  item "yield" 5 ARMV6K [23; 27; 6; 22; 22; 0; 20; 21; 2; 16; 19; 0; 0; 7; 1];
  item "wfe" 5 ARMV6K [23; 27; 6; 22; 22; 0; 20; 21; 2; 16; 19; 0; 0; 7; 2];
  item "wfi" 5 ARMV6K [23; 27; 6; 22; 22; 0; 20; 21; 2; 16; 19; 0; 0; 7; 3];
  item "sev" 5 ARMV6K [23; 27; 6; 22; 22; 0; 20; 21; 2; 16; 19; 0; 0; 7; 4];
  item "swi" 1 0 [24; 27; 15];
  item "bbl" 1 0 [25; 27; 5]].

Definition arm_exclusion_code : list InstructionSetEncodingItem := [
  item "vmla" 0 ARMVFP2 [0];
  item "vmls" 0 ARMVFP2 [0];
  item "vnmla" 0 ARMVFP2 [0];
  item "vnmls" 0 ARMVFP2 [0];
  item "vnmul" 0 ARMVFP2 [0];
  item "vmul" 0 ARMVFP2 [0];
  item "vadd" 0 ARMVFP2 [0];
  item "vsub" 0 ARMVFP2 [0];
  item "vdiv" 0 ARMVFP2 [0];
  item "vmov(i)" 0 ARMVFP3 [0];
  item "vmov(r)" 0 ARMVFP3 [0];
  item "vabs" 0 ARMVFP2 [0];
  item "vneg" 0 ARMVFP2 [0];
  item "vsqrt" 0 ARMVFP2 [0];
  item "vcmp" 0 ARMVFP2 [0];
  item "vcmp2" 0 ARMVFP2 [0];
  item "vcvt(bff)" 0 ARMVFP3 [4; 4; 1];
  item "vcvt(bds)" 0 ARMVFP2 [0];
  item "vcvt(bfi)" 0 ARMVFP2 [0];
  item "vmovbrs" 0 ARMVFP2 [0];
  item "vmsr" 0 ARMVFP2 [0];
  item "vmovbrc" 0 ARMVFP2 [0];
  item "vmrs" 0 ARMVFP2 [0];
  item "vmovbcr" 0 ARMVFP2 [0];
  item "vmovbrrss" 0 ARMVFP2 [0];
  item "vmovbrrd" 0 ARMVFP2 [0];
  item "vstr" 0 ARMVFP2 [0];
  item "vpush" 0 ARMVFP2 [0];
  item "vstm" 0 ARMVFP2 [0];
  item "vpop" 0 ARMVFP2 [0];
  item "vldr" 0 ARMVFP2 [0];
  item "vldm" 0 ARMVFP2 [0];
  item "srs" 0 6 [0];
  item "rfe" 0 6 [0];
  item "bkpt" 0 3 [0];
  item "blx" 0 3 [0];
  item "cps" 0 6 [0];
  item "pld" 0 4 [0];
  item "setend" 0 6 [0];
  item "clrex" 0 6 [0];
  item "rev16" 0 6 [0];
  item "usad8" 0 6 [0];
  item "sxtb" 0 6 [0];
  item "uxtb" 0 6 [0];
  item "sxth" 0 6 [0];
  item "sxtb16" 0 6 [0];
  item "uxth" 0 6 [0];
  item "uxtb16" 0 6 [0];
  item "cpy" 0 6 [0];
  item "uxtab" 0 6 [0];
  item "ssub8" 0 6 [0];
  item "shsub8" 0 6 [0];
  item "ssubaddx" 0 6 [0];
  item "strex" 0 6 [0];
  item "strexb" 0 7 [0];
  item "swp" 0 0 [0];
  item "swpb" 0 0 [0];
  item "ssub16" 0 6 [0];
  item "ssat16" 0 6 [0];
  item "shsubaddx" 0 6 [0];
  item "qsubaddx" 0 6 [0];
  item "shaddsubx" 0 6 [0];
  item "shadd8" 0 6 [0];
  item "shadd16" 0 6 [0];
  item "sel" 0 6 [0];
  item "saddsubx" 0 6 [0];
  item "sadd8" 0 6 [0];
  item "sadd16" 0 6 [0];
  item "shsub16" 0 6 [0];
  item "umaal" 0 6 [0];
  item "uxtab16" 0 6 [0];
  item "usubaddx" 0 6 [0];
  item "usub8" 0 6 [0];
  item "usub16" 0 6 [0];
  item "usat16" 0 6 [0];
  item "usada8" 0 6 [0];
  item "uqsubaddx" 0 6 [0];
  item "uqsub8" 0 6 [0];
  item "uqsub16" 0 6 [0];
  item "uqaddsubx" 0 6 [0];
  item "uqadd8" 0 6 [0];
  item "uqadd16" 0 6 [0];
  item "sxtab" 0 6 [0];
  item "uhsubaddx" 0 6 [0];
  item "uhsub8" 0 6 [0];
  item "uhsub16" 0 6 [0];
  item "uhaddsubx" 0 6 [0];
  item "uhadd8" 0 6 [0];
  item "uhadd16" 0 6 [0];
  item "uaddsubx" 0 6 [0];
  item "uadd8" 0 6 [0];
  item "uadd16" 0 6 [0];
  item "sxtah" 0 6 [0];
  item "sxtab16" 0 6 [0];
  item "qadd8" 0 6 [0];
  item "bxj" 0 5 [0];
  item "clz" 0 3 [0];
  item "uxtah" 0 6 [0];
  item "bx" 0 2 [0];
  item "rev" 0 6 [0];
  item "blx" 0 3 [0];
  item "revsh" 0 6 [0];
  item "qadd" 0 4 [0];
  item "qadd16" 0 6 [0];
  item "qaddsubx" 0 6 [0];
  item "ldrex" 0 0 [0];
  item "qdadd" 0 4 [0];
  item "qdsub" 0 4 [0];
  item "qsub" 0 4 [0];
  item "ldrexb" 0 7 [0];
  item "qsub8" 0 6 [0];
  item "qsub16" 0 6 [0];
  item "smuad" 0 6 [0];
  item "smmul" 0 6 [0];
  item "smusd" 0 6 [0];
  item "smlsd" 0 6 [0];
  item "smlsld" 0 6 [0];
  item "smmla" 0 6 [0];
  item "smmls" 0 6 [0];
  item "smlald" 0 6 [0];
  item "smlad" 0 6 [0];
  item "smlaw" 0 4 [0];
  item "smulw" 0 4 [0];
  item "pkhtb" 0 6 [0];
  item "pkhbt" 0 6 [0];
  item "smul" 0 4 [0];
  item "smlal" 0 4 [0];
  item "smla" 0 4 [0];
  item "mcrr" 0 6 [0];
  item "mrrc" 0 6 [0];
  item "cmp" 3 0 [4; 4; 1; 7; 7; 1; 25; 25; 0];
  item "tst" 3 0 [4; 4; 1; 7; 7; 1; 25; 25; 0];
  item "teq" 3 0 [4; 4; 1; 7; 7; 1; 25; 25; 0];
  item "cmn" 3 0 [4; 4; 1; 7; 7; 1; 25; 25; 0];
  item "smull" 0 0 [0];
  item "umull" 0 0 [0];
  item "umlal" 0 0 [0];
  item "smlal" 0 0 [0];
  item "mul" 0 0 [0];
  item "mla" 0 0 [0];
  item "ssat" 0 6 [0];
  item "usat" 0 6 [0];
  item "mrs" 0 0 [0];
  item "msr" 0 0 [0];
  item "and" 3 0 [4; 4; 1; 7; 7; 1; 25; 25; 0];
  item "bic" 3 0 [4; 4; 1; 7; 7; 1; 25; 25; 0];
  item "ldm" 0 0 [0];
  item "eor" 3 0 [4; 4; 1; 7; 7; 1; 25; 25; 0];
  item "add" 3 0 [4; 4; 1; 7; 7; 1; 25; 25; 0];
  item "rsb" 3 0 [4; 4; 1; 7; 7; 1; 25; 25; 0];
  item "rsc" 3 0 [4; 4; 1; 7; 7; 1; 25; 25; 0];
  item "sbc" 3 0 [4; 4; 1; 7; 7; 1; 25; 25; 0];
  item "adc" 3 0 [4; 4; 1; 7; 7; 1; 25; 25; 0];
  item "sub" 3 0 [4; 4; 1; 7; 7; 1; 25; 25; 0];
  item "orr" 3 0 [4; 4; 1; 7; 7; 1; 25; 25; 0];
  item "mvn" 3 0 [4; 4; 1; 7; 7; 1; 25; 25; 0];
  item "mov" 3 0 [4; 4; 1; 7; 7; 1; 25; 25; 0];
  item "stm" 0 0 [0];
  item "ldm" 0 0 [0];
  item "ldrsh" 0 2 [0];
  item "stm" 0 0 [0];
  item "ldm" 0 0 [0];
  item "ldrsb" 0 2 [0];
  item "strd" 0 4 [0];
  item "ldrh" 0 0 [0];
  item "strh" 0 0 [0];
  item "ldrd" 0 4 [0];
  item "strt" 0 0 [0];
  item "strbt" 0 0 [0];
  item "ldrbt" 0 0 [0];
  item "ldrt" 0 0 [0];
  item "mrc" 0 6 [0];
  item "mcr" 0 0 [0];
  item "msr" 0 0 [0];
  item "msr" 0 0 [0];
  item "msr" 0 0 [0];
  item "msr" 0 0 [0];
  item "msr" 0 0 [0];
  item "ldrb" 0 0 [0];
  item "strb" 0 0 [0];
  item "ldr" 0 0 [0];
  item "ldrcond" 1 0 [28; 31; 14];
  item "str" 0 0 [0];
  item "cdp" 0 0 [0];
  item "stc" 0 0 [0];
  item "ldc" 0 0 [0];
  item "ldrexd" 0 ARMV6K [0];
  item "strexd" 0 ARMV6K [0];
  item "ldrexh" 0 ARMV6K [0];
  item "strexh" 0 ARMV6K [0];
  item "nop" 0 ARMV6K [0];
  item "yield" 0 ARMV6K [0];
  item "wfe" 0 ARMV6K [0];
  item "wfi" 0 ARMV6K [0];
  item "sev" 0 ARMV6K [0];
  item "swi" 0 0 [0];
  item "bbl" 0 0 [0];
  item "bl_1_thumb" 0 INVALID [0];
  item "bl_2_thumb" 0 INVALID [0];
  item "blx_1_thumb" 0 INVALID [0];
  item "invalid" 0 INVALID [0]].

(** [while (n) { ...; base += 3; n--; }] of the table: whether all [n] conditions hold *)
Fixpoint conditions_hold (instr : Z) (n : nat) (content : list Z) : bool :=
  match n with
  | O => true
  | S n =>
      let lo := nth 0 content 0 in
      let hi := nth 1 content 0 in
      let value := nth 2 content 0 in
      (if (hi =? 31) && (lo =? 0) then instr =? value else BITS instr lo hi =? value) &&
      conditions_hold instr n (skipn 3 content)
  end.
(** The same loop over the exclusions *)
Fixpoint exclusions_hold (instr : Z) (n : nat) (content : list Z) : bool :=
  match n with
  | O => true
  | S n =>
      (BITS instr (nth 0 content 0) (nth 1 content 0) =? nth 2 content 0) && exclusions_hold instr n (skipn 3 content)
  end.
Definition decodes (instr : Z) (i exclusion : InstructionSetEncodingItem) : bool :=
  negb (version i =? ARMVFP3) && conditions_hold instr (attribute_value i) (content i) &&
  negb (negb (attribute_value exclusion =? 0)%nat && exclusions_hold instr (attribute_value exclusion) (content exclusion)).
(** The loop over the table, from the index [i] *)
Fixpoint decode_from (instr : Z) (i : Z) (l exclusions : list InstructionSetEncodingItem) : option Z :=
  match l, exclusions with
  | x :: l, e :: exclusions => if decodes instr x e then Some i else decode_from instr (i + 1) l exclusions
  | _, _ => None
  end.
(** [None] is [FAILURE], which leaves the index of the caller alone. *)
Definition DecodeARMInstruction (instr : Z) : option Z := decode_from instr 0 arm_instruction arm_exclusion_code.
