(* ===== verification/ArmThumb.v ===== *)
(** Instructions of 16 bits (src/.../core/arm/dyncom/arm_dyncom_thumb.h and
    arm_dyncom_thumb.cpp): each but the branches becomes an instruction of 32 bits. *)

From S2P Require Import Prelude ArmSupp.

Inductive ThumbDecodeStatus := UNDEFINED | DECODED | BRANCH | UNINITIALIZED.
#[export] Instance ThumbDecodeStatus_eq_dec : EqDecision ThumbDecodeStatus.
Proof. solve_decision. Defined.

Definition GetThumbInstruction (instr address : Z) : Z :=
  if truth (Z.land address 0x3) then Z.shiftr instr 16 else Z.land instr 0xFFFF.

(** [a | b] and the field of [x] under the mask [m], moved left or right *)
Local Infix ".|" := Z.lor (at level 50, left associativity).
Definition field_l (x m n : Z) : Z := Z.shiftl (Z.land x m) n.
Definition field_r (x m n : Z) : Z := Z.shiftr (Z.land x m) n.

(** The formats, by the five highest bits *)
Definition thumb_shift (t : Z) : Z :=
  0xE1B00000 .| field_r t 0x1800 (11 - 5) .| field_l t 0x07C0 (7 - 6) .| field_r t 0x0038 3 .| field_l t 0x0007 12.
Definition thumb_add_sub (t : Z) : Z :=
  nth (Z.to_nat (field_r t 0x0600 9)) [0xE0900000; 0xE0500000; 0xE2900000; 0xE2500000] 0
  .| field_r t 0x01C0 6 .| field_l t 0x0038 (16 - 3) .| field_l t 0x0007 (12 - 0).
Definition thumb_imm8 (t : Z) : Z :=
  nth (Z.to_nat (field_r t 0x1800 11)) [0xE3B00000; 0xE3500000; 0xE2900000; 0xE2500000] 0
  .| field_r t 0x00FF 0 .| field_l t 0x0700 (16 - 8) .| field_l t 0x0700 (12 - 8).
Inductive otype := t_norm | t_shift | t_neg | t_mul.
Definition thumb_alu_subset : list (Z * otype) := [
  (0xE0100000, t_norm); (0xE0300000, t_norm); (0xE1B00010, t_shift); (0xE1B00030, t_shift);
  (0xE1B00050, t_shift); (0xE0B00000, t_norm); (0xE0D00000, t_norm); (0xE1B00070, t_shift);
  (0xE1100000, t_norm); (0xE2700000, t_neg); (0xE1500000, t_norm); (0xE1700000, t_norm);
  (0xE1900000, t_norm); (0xE0100090, t_mul); (0xE1D00000, t_norm); (0xE1F00000, t_norm)].
Definition thumb_alu (t : Z) : Z :=
  let '(opcode, type) := nth (Z.to_nat (field_r t 0x03C0 6)) thumb_alu_subset (0, t_norm) in
  match type with
  | t_norm => opcode .| (field_l t 0x0007 16 .| field_l t 0x0007 12 .| field_r t 0x0038 3)
  | t_shift => opcode .| (field_l t 0x0007 12 .| field_r t 0x0007 0 .| field_l t 0x0038 (8 - 3))
  | t_neg => opcode .| (field_l t 0x0007 12 .| field_l t 0x0038 (16 - 3))
  | t_mul => opcode .| (field_l t 0x0007 16 .| field_l t 0x0007 8 .| field_r t 0x0038 3)
  end.
Definition thumb_high_registers (t : Z) : Z :=
  let Rd := if truth (Z.land t (Z.shiftl 1 7)) then field_r t 0x0007 0 + 8 else field_r t 0x0007 0 in
  let Rs := field_r t 0x0078 3 in
  let op := field_r t 0x03C0 6 in
  if op <=? 3 then 0xE0800000 .| Z.shiftl Rd 16 .| Z.shiftl Rd 12 .| Z.shiftl Rs 0
  else if op <=? 7 then 0xE1500000 .| Z.shiftl Rd 16 .| Z.shiftl Rs 0
  else if op <=? 11 then 0xE1A00000 .| Z.shiftl Rd 12 .| Z.shiftl Rs 0
  else if op <=? 13 then 0xE12FFF10 .| field_r t 0x0078 3
  else 0xE1200030 .| Z.shiftl Rs 0.
Definition thumb_ldr_pc (t : Z) : Z := 0xE59F0000 .| field_l t 0x0700 (12 - 8) .| field_l t 0x00FF (2 - 0).
Definition thumb_ldst_reg (t : Z) : Z :=
  nth (Z.to_nat (field_r t 0xE00 9))
    [0xE7800000; 0xE18000B0; 0xE7C00000; 0xE19000D0; 0xE7900000; 0xE19000B0; 0xE7D00000; 0xE19000F0] 0
  .| field_l t 0x0007 (12 - 0) .| field_l t 0x0038 (16 - 3) .| field_r t 0x01C0 6.
Definition thumb_ldst_imm5 (t : Z) : Z :=
  nth (Z.to_nat (field_r t 0x1800 11)) [0xE5800000; 0xE5900000; 0xE5C00000; 0xE5D00000] 0
  .| field_l t 0x0007 (12 - 0) .| field_l t 0x0038 (16 - 3)
  .| field_r t 0x07C0 (6 - (if truth (Z.land t (Z.shiftl 1 12)) then 0 else 2)).
Definition thumb_ldst_half (t : Z) : Z :=
  (if truth (Z.land t (Z.shiftl 1 11)) then 0xE1D000B0 else 0xE1C000B0)
  .| field_l t 0x0007 (12 - 0) .| field_l t 0x0038 (16 - 3) .| field_r t 0x01C0 (6 - 1) .| field_r t 0x0600 (9 - 8).
Definition thumb_ldst_sp (t : Z) : Z :=
  (if truth (Z.land t (Z.shiftl 1 11)) then 0xE59D0000 else 0xE58D0000)
  .| field_l t 0x0700 (12 - 8) .| field_l t 0x00FF 2.
Definition thumb_add_pc_sp (t : Z) : Z :=
  (if Z.land t (Z.shiftl 1 11) =? 0 then 0xE28F0F00 else 0xE28D0F00) .| field_l t 0x0700 (12 - 8) .| Z.land t 0x00FF.
(** Formats 22 and 23; [None] is undefined. *)
Definition thumb_misc (t : Z) : option Z :=
  let sub := Z.land t 0x0F00 in
  if sub =? 0x0000 then
    Some ((if truth (Z.land t (Z.shiftl 1 7)) then 0xE24DDF00 else 0xE28DDF00) .| Z.land t 0x007F)
  else if sub =? 0x0e00 then Some (0xEF000000 .| BITS t 0 3 .| Z.shiftl (BITS t 4 7) 8)
  else if sub =? 0x0200 then
    Some (nth (Z.to_nat (BITS t 6 7)) [0xE6BF0070; 0xE6AF0070; 0xE6FF0070; 0xE6EF0070] 0
          .| Z.shiftl (BITS t 0 2) 12 .| BITS t 3 5)
  else if sub =? 0x600 then
    Some (if BIT t 5 =? 0 then 0xF1010000 .| Z.shiftl (BIT t 3) 9
          else 0xF1080000 .| Z.shiftl (BIT t 0) 6 .| Z.shiftl (BIT t 1) 7 .| Z.shiftl (BIT t 2) 8 .| Z.shiftl (BIT t 4) 18)
  else if sub =? 0x0a00 then
    let subset_index := BITS t 6 7 in
    if subset_index =? 2 then None
    else Some (nth (Z.to_nat subset_index) [0xE6BF0F30; 0xE6BF0FB0; 0; 0xE6FF0FB0] 0 .| Z.shiftl (BITS t 0 2) 12 .| BITS t 3 5)
  else
    Some (nth (Z.to_nat (Z.lor (field_r t (Z.shiftl 1 11) 10) (field_r t (Z.shiftl 1 8) 8)))
            [0xE92D0000; 0xE92D4000; 0xE8BD0000; 0xE8BD8000] 0 .| Z.land t 0x00FF).
Definition thumb_multiple (t : Z) : Z :=
  let rn := BITS t 8 10 in
  if truth (Z.land t (Z.shiftl 1 11)) then
    (if Z.land t (Z.shiftl 1 rn) =? 0 then 0xE8900000 .| Z.shiftl 1 21 else 0xE8900000) .| Z.shiftl rn 16 .| Z.land t 0x00FF
  else 0xE8A00000 .| Z.shiftl (BITS t 8 10) 16 .| Z.land t 0x00FF.
Definition thumb_swi (t : Z) : Z :=
  if Z.land t 0x00FF =? 0x18 then 0xEF000000 .| field_l t 0x00FF 16
  else if Z.land t 0x00FF =? 0xFE then 0xEF000000 .| 0x180000
  else 0xEF000000 .| Z.land t 0x00FF.

(** The status, [*ainstr] and [*inst_size] *)
Definition TranslateThumbInstruction (addr instr : Z) : ThumbDecodeStatus * Z * Z :=
  let t := GetThumbInstruction instr addr in
  let format := field_r t 0xF800 11 in
  let other := 0xDEADC0DE in
  let decoded ainstr := (UNINITIALIZED, ainstr, 2) in
  if format <=? 2 then decoded (thumb_shift t)
  else if format =? 3 then decoded (thumb_add_sub t)
  else if format <=? 7 then decoded (thumb_imm8 t)
  else if format =? 8 then decoded (if Z.land t (Z.shiftl 1 10) =? 0 then thumb_alu t else thumb_high_registers t)
  else if format =? 9 then decoded (thumb_ldr_pc t)
  else if format <=? 11 then decoded (thumb_ldst_reg t)
  else if format <=? 15 then decoded (thumb_ldst_imm5 t)
  else if format <=? 17 then decoded (thumb_ldst_half t)
  else if format <=? 19 then decoded (thumb_ldst_sp t)
  else if format <=? 21 then decoded (thumb_add_pc_sp t)
  else if format <=? 23 then
    match thumb_misc t with Some ainstr => decoded ainstr | None => (UNDEFINED, other, 2) end
  else if format <=? 25 then decoded (thumb_multiple t)
  else if format <=? 27 then
    if Z.land t 0x0F00 =? 0x0F00 then decoded (thumb_swi t)
    else if negb (Z.land t 0x0F00 =? 0x0E00) then (BRANCH, other, 2)
    else (UNDEFINED, other, 2)
  else if format =? 28 then (BRANCH, other, 2)
  else if format =? 29 then if truth (Z.land t 0x1) then (UNDEFINED, other, 2) else (BRANCH, other, 2)
  else (BRANCH, other, 2).
