(* ===== verification/ArmTrans.v ===== *)
(** Translated instructions (src/.../core/arm/dyncom/arm_dyncom_trans.h and
    arm_dyncom_trans.cpp): what an instruction becomes in the translation cache, and the
    function for each kind of instruction. The layout of the structures is the one of hosts
    with pointers of 64 bits. *)

From S2P Require Import Prelude ArmSupp ArmState ArmOperands.

Inductive TransExtData :=
  | COND | NON_BRANCH | DIRECT_BRANCH | INDIRECT_BRANCH | CALL | RET | END_OF_PAGE | THUMB | SINGLE_STEP.
#[export] Instance TransExtData_eq_dec : EqDecision TransExtData.
Proof. solve_decision. Defined.

(** ** Sizes of the structures *)

Definition sizeof_arm_inst : Z := 12.
Definition sizeof_generic_arm_inst : Z := 20.
Definition sizeof_adc_inst : Z := 32.
Definition sizeof_add_inst : Z := 32.
Definition sizeof_orr_inst : Z := 32.
Definition sizeof_and_inst : Z := 32.
Definition sizeof_eor_inst : Z := 32.
Definition sizeof_bbl_inst : Z := 16.
Definition sizeof_bx_inst : Z := 4.
Definition sizeof_blx_inst : Z := 8.
Definition sizeof_clz_inst : Z := 8.
Definition sizeof_cps_inst : Z := 28.
Definition sizeof_clrex_inst : Z := 1.
Definition sizeof_cpy_inst : Z := 8.
Definition sizeof_bic_inst : Z := 32.
Definition sizeof_sub_inst : Z := 32.
Definition sizeof_tst_inst : Z := 32.
Definition sizeof_cmn_inst : Z := 24.
Definition sizeof_teq_inst : Z := 24.
Definition sizeof_stm_inst : Z := 4.
Definition sizeof_bkpt_inst : Z := 4.
Definition sizeof_stc_inst : Z := 1.
Definition sizeof_ldc_inst : Z := 1.
Definition sizeof_swi_inst : Z := 4.
Definition sizeof_cmp_inst : Z := 24.
Definition sizeof_mov_inst : Z := 24.
Definition sizeof_mvn_inst : Z := 24.
Definition sizeof_rev_inst : Z := 16.
Definition sizeof_rsb_inst : Z := 32.
Definition sizeof_rsc_inst : Z := 32.
Definition sizeof_sbc_inst : Z := 32.
Definition sizeof_mul_inst : Z := 16.
Definition sizeof_smul_inst : Z := 20.
Definition sizeof_umull_inst : Z := 20.
Definition sizeof_smlad_inst : Z := 28.
Definition sizeof_smla_inst : Z := 24.
Definition sizeof_smlalxy_inst : Z := 24.
Definition sizeof_ssat_inst : Z := 20.
Definition sizeof_umaal_inst : Z := 16.
Definition sizeof_umlal_inst : Z := 20.
Definition sizeof_smlal_inst : Z := 20.
Definition sizeof_smlald_inst : Z := 28.
Definition sizeof_mla_inst : Z := 20.
Definition sizeof_mrc_inst : Z := 28.
Definition sizeof_mcr_inst : Z := 28.
Definition sizeof_mcrr_inst : Z := 20.
Definition sizeof_mrs_inst : Z := 8.
Definition sizeof_msr_inst : Z := 12.
Definition sizeof_pld_inst : Z := 1.
Definition sizeof_sxtb_inst : Z := 12.
Definition sizeof_sxtab_inst : Z := 16.
Definition sizeof_sxtah_inst : Z := 16.
Definition sizeof_sxth_inst : Z := 12.
Definition sizeof_uxtab_inst : Z := 16.
Definition sizeof_uxtah_inst : Z := 16.
Definition sizeof_uxth_inst : Z := 12.
Definition sizeof_cdp_inst : Z := 28.
Definition sizeof_uxtb_inst : Z := 12.
Definition sizeof_swp_inst : Z := 12.
Definition sizeof_setend_inst : Z := 4.
Definition sizeof_b_2_thumb : Z := 4.
Definition sizeof_b_cond_thumb : Z := 8.
Definition sizeof_bl_1_thumb : Z := 4.
Definition sizeof_bl_2_thumb : Z := 4.
Definition sizeof_blx_1_thumb : Z := 8.
Definition sizeof_pkh_inst : Z := 16.
Definition sizeof_ldst_inst : Z := 16.
(** vfpinstr.cpp *)
Definition sizeof_vmla_inst : Z := 8.
Definition sizeof_vmls_inst : Z := 8.
Definition sizeof_vnmla_inst : Z := 8.
Definition sizeof_vnmls_inst : Z := 8.
Definition sizeof_vnmul_inst : Z := 8.
Definition sizeof_vmul_inst : Z := 8.
Definition sizeof_vadd_inst : Z := 8.
Definition sizeof_vsub_inst : Z := 8.
Definition sizeof_vdiv_inst : Z := 8.
Definition sizeof_vabs_inst : Z := 8.
Definition sizeof_vneg_inst : Z := 8.
Definition sizeof_vsqrt_inst : Z := 8.
Definition sizeof_vcmp_inst : Z := 8.
Definition sizeof_vcmp2_inst : Z := 8.
Definition sizeof_vcvtbds_inst : Z := 8.
Definition sizeof_vcvtbff_inst : Z := 8.
Definition sizeof_vcvtbfi_inst : Z := 8.
Definition sizeof_vmovi_inst : Z := 12.
Definition sizeof_vmovr_inst : Z := 12.
Definition sizeof_vmovbrs_inst : Z := 12.
Definition sizeof_vmsr_inst : Z := 8.
Definition sizeof_vmovbrc_inst : Z := 16.
Definition sizeof_vmrs_inst : Z := 8.
Definition sizeof_vmovbcr_inst : Z := 16.
Definition sizeof_vmovbrrss_inst : Z := 16.
Definition sizeof_vmovbrrd_inst : Z := 16.
Definition sizeof_vstr_inst : Z := 20.
Definition sizeof_vpush_inst : Z := 16.
Definition sizeof_vstm_inst : Z := 28.
Definition sizeof_vpop_inst : Z := 16.
Definition sizeof_vldr_inst : Z := 20.
Definition sizeof_vldm_inst : Z := 28.

(** ** Instructions

    [component] holds one of the structures; a handler that reads it as another is
    undefined behaviour. The instructions of the floating-point unit that compute have
    structures with the same members, from [vmla_inst] to [vcvtbfi_inst]: [vfp_op_inst]. *)

Inductive component_t :=
  | no_component
  | generic_arm_inst (Ra Rm Rn Rd op1 op2 : Z)
  | adc_inst (I_ S_ Rn Rd shifter_operand : Z) (shtop_func : option shtop_fp_t)
  | add_inst (I_ S_ Rn Rd shifter_operand : Z) (shtop_func : option shtop_fp_t)
  | orr_inst (I_ S_ Rn Rd shifter_operand : Z) (shtop_func : option shtop_fp_t)
  | and_inst (I_ S_ Rn Rd shifter_operand : Z) (shtop_func : option shtop_fp_t)
  | eor_inst (I_ S_ Rn Rd shifter_operand : Z) (shtop_func : option shtop_fp_t)
  | bbl_inst (L signed_immed_24 next_addr jmp_addr : Z)
  | bx_inst (Rm : Z)
  | blx_inst (val inst_ : Z)
  | clz_inst (Rm Rd : Z)
  | cps_inst (imod0 imod1 mmod A I_ F mode : Z)
  | clrex_inst
  | cpy_inst (Rm Rd : Z)
  | bic_inst (I_ S_ Rn Rd shifter_operand : Z) (shtop_func : option shtop_fp_t)
  | sub_inst (I_ S_ Rn Rd shifter_operand : Z) (shtop_func : option shtop_fp_t)
  | tst_inst (I_ S_ Rn Rd shifter_operand : Z) (shtop_func : option shtop_fp_t)
  | cmn_inst (I_ Rn shifter_operand : Z) (shtop_func : option shtop_fp_t)
  | teq_inst (I_ Rn shifter_operand : Z) (shtop_func : option shtop_fp_t)
  | stm_inst (inst_ : Z)
  | bkpt_inst (imm : Z)
  | stc_inst
  | ldc_inst
  | swi_inst (num : Z)
  | cmp_inst (I_ Rn shifter_operand : Z) (shtop_func : option shtop_fp_t)
  | mov_inst (I_ S_ Rd shifter_operand : Z) (shtop_func : option shtop_fp_t)
  | mvn_inst (I_ S_ Rd shifter_operand : Z) (shtop_func : option shtop_fp_t)
  | rev_inst (Rd Rm op1 op2 : Z)
  | rsb_inst (I_ S_ Rn Rd shifter_operand : Z) (shtop_func : option shtop_fp_t)
  | rsc_inst (I_ S_ Rn Rd shifter_operand : Z) (shtop_func : option shtop_fp_t)
  | sbc_inst (I_ S_ Rn Rd shifter_operand : Z) (shtop_func : option shtop_fp_t)
  | mul_inst (S_ Rd Rs Rm : Z)
  | smul_inst (Rd Rs Rm x y : Z)
  | umull_inst (S_ RdHi RdLo Rs Rm : Z)
  | smlad_inst (m Rm Rd Ra Rn op1 op2 : Z)
  | smla_inst (x y Rm Rd Rs Rn : Z)
  | smlalxy_inst (x y RdLo RdHi Rm Rn : Z)
  | ssat_inst (Rn Rd imm5 sat_imm shift_type : Z)
  | umaal_inst (Rn Rm RdHi RdLo : Z)
  | umlal_inst (S_ Rm Rs RdHi RdLo : Z)
  | smlal_inst (S_ Rm Rs RdHi RdLo : Z)
  | smlald_inst (RdLo RdHi Rm Rn swap op1 op2 : Z)
  | mla_inst (S_ Rn Rd Rs Rm : Z)
  | mrc_inst (opcode_1 opcode_2 cp_num crn crm Rd inst_ : Z)
  | mcr_inst (opcode_1 opcode_2 cp_num crn crm Rd inst_ : Z)
  | mcrr_inst (opcode_1 cp_num crm rt rt2 : Z)
  | mrs_inst (R Rd : Z)
  | msr_inst (field_mask R inst_ : Z)
  | pld_inst
  | sxtb_inst (Rd Rm rotate : Z)
  | sxtab_inst (Rd Rn Rm rotate : Z)
  | sxtah_inst (Rd Rn Rm rotate : Z)
  | sxth_inst (Rd Rm rotate : Z)
  | uxtab_inst (Rn Rd rotate Rm : Z)
  | uxtah_inst (Rn Rd rotate Rm : Z)
  | uxth_inst (Rd Rm rotate : Z)
  | cdp_inst (opcode_1 CRn CRd cp_num opcode_2 CRm inst_ : Z)
  | uxtb_inst (Rd Rm rotate : Z)
  | swp_inst (Rn Rd Rm : Z)
  | setend_inst (set_bigend : Z)
  | b_2_thumb (imm : Z)
  | b_cond_thumb (imm cond_ : Z)
  | bl_1_thumb (imm : Z)
  | bl_2_thumb (imm : Z)
  | blx_1_thumb (imm instr : Z)
  | pkh_inst (Rm Rn Rd imm : Z)
  | ldst_inst (inst_ : Z) (get_addr_ : option get_addr_fp_t)
  | vfp_op_inst (instr dp_operation : Z)
  | vmovi_inst (single d imm : Z)
  | vmovr_inst (single d m : Z)
  | vmovbrs_inst (to_arm t n : Z)
  | vmsr_inst (reg Rt : Z)
  | vmovbrc_inst (esize index d t : Z)
  | vmrs_inst (reg Rt : Z)
  | vmovbcr_inst (esize index d t : Z)
  | vmovbrrss_inst (to_arm t t2 m : Z)
  | vmovbrrd_inst (to_arm t t2 m : Z)
  | vstr_inst (single n d imm32 add : Z)
  | vpush_inst (single d imm32 regs : Z)
  | vstm_inst (single add wback d n imm32 regs : Z)
  | vpop_inst (single d imm32 regs : Z)
  | vldr_inst (single n d imm32 add : Z)
  | vldm_inst (single add wback d n imm32 regs : Z).

Record arm_inst := mk_arm_inst { idx : Z; cond : Z; br : TransExtData; component : component_t }.
#[export] Instance eta_arm_inst : Eta arm_inst := fun i => mk_arm_inst (idx i) (cond i) (br i) (component i).

(** ** The translation cache: instructions at their offsets in the buffer *)

Record TransCache := mkTransCache { trans_cache_buf : gmap Z arm_inst; trans_cache_buf_top : Z }.
#[export] Instance eta_TransCache : Eta TransCache := fun t => mkTransCache (trans_cache_buf t) (trans_cache_buf_top t).

Definition TRANS_CACHE_SIZE : Z := 64 * 1024 * 2000.

#[local] Abbreviation M := (Prelude.M TransCache).

(** The bytes given out are free: what was translated there before is gone. *)
Definition AllocBuffer (size : Z) : M Z :=
  t ← get;
  let start := trans_cache_buf_top t in
  modify (fun t => t <| trans_cache_buf_top := start + size |>
                     <| trans_cache_buf ::= filter (fun p => p.1 < start \/ start + size <= p.1) |>) ;;
  ASSERT (start + size <=? TRANS_CACHE_SIZE) ;;
  mret start.
(** [AllocBuffer(sizeof(arm_inst) + size)], and the assignments to the members *)
Definition new_inst (size : Z) (i : arm_inst) : M Z :=
  start ← AllocBuffer (sizeof_arm_inst + size);
  modify (fun t => t <| trans_cache_buf ::= <[start := i]> |>) ;;
  mret start.

(** What the model leaves open: the value of a member that is not assigned *)
Class Translator := { indeterminate : Z }.

Section Translate.
Context `{Translator}.

Definition InterpreterTranslate_adc (inst index : Z) : M Z :=
  new_inst sizeof_adc_inst (mk_arm_inst index (BITS inst 28 31) (if BITS inst 12 15 =? 15 then INDIRECT_BRANCH else NON_BRANCH)
    (adc_inst (BIT inst 25) (BIT inst 20) (BITS inst 16 19) (BITS inst 12 15) (BITS inst 0 11) (GetShifterOp inst))).
Definition InterpreterTranslate_add (inst index : Z) : M Z :=
  new_inst sizeof_add_inst (mk_arm_inst index (BITS inst 28 31) (if BITS inst 12 15 =? 15 then INDIRECT_BRANCH else NON_BRANCH)
    (add_inst (BIT inst 25) (BIT inst 20) (BITS inst 16 19) (BITS inst 12 15) (BITS inst 0 11) (GetShifterOp inst))).
Definition InterpreterTranslate_and (inst index : Z) : M Z :=
  new_inst sizeof_and_inst (mk_arm_inst index (BITS inst 28 31) (if BITS inst 12 15 =? 15 then INDIRECT_BRANCH else NON_BRANCH)
    (and_inst (BIT inst 25) (BIT inst 20) (BITS inst 16 19) (BITS inst 12 15) (BITS inst 0 11) (GetShifterOp inst))).
Definition InterpreterTranslate_bbl (inst index : Z) : M Z :=
  new_inst sizeof_bbl_inst (mk_arm_inst index (BITS inst 28 31) (if truth (BIT inst 24) then CALL else DIRECT_BRANCH)
    (bbl_inst (BIT inst 24) (s32 (u32 (if truth (BIT inst 23) then Z.shiftl (Z.lor 0xff000000 (Z.land inst 0xffffff)) 2 else Z.shiftl (Z.land inst 0x7fffff) 2))) indeterminate indeterminate)).
Definition InterpreterTranslate_bic (inst index : Z) : M Z :=
  new_inst sizeof_bic_inst (mk_arm_inst index (BITS inst 28 31) (if BITS inst 12 15 =? 15 then INDIRECT_BRANCH else NON_BRANCH)
    (bic_inst (BIT inst 25) (BIT inst 20) (BITS inst 16 19) (BITS inst 12 15) (BITS inst 0 11) (GetShifterOp inst))).
Definition InterpreterTranslate_bkpt (inst index : Z) : M Z :=
  new_inst sizeof_bkpt_inst (mk_arm_inst index (BITS inst 28 31) NON_BRANCH
    (bkpt_inst (Z.lor (Z.shiftl (BITS inst 8 19) 4) (BITS inst 0 3)))).
Definition InterpreterTranslate_blx (inst index : Z) : M Z :=
  new_inst sizeof_blx_inst (mk_arm_inst index (BITS inst 28 31) INDIRECT_BRANCH
    (blx_inst (if (BITS inst 20 27 =? 0x12) && (BITS inst 4 7 =? 0x3) then BITS inst 0 3 else BITS inst 0 23) inst)).
Definition InterpreterTranslate_bx (inst index : Z) : M Z :=
  new_inst sizeof_bx_inst (mk_arm_inst index (BITS inst 28 31) INDIRECT_BRANCH
    (bx_inst (BITS inst 0 3))).
Definition InterpreterTranslate_bxj (inst index : Z) : M Z := InterpreterTranslate_bx inst index.
Definition InterpreterTranslate_cdp (inst index : Z) : M Z :=
  new_inst sizeof_cdp_inst (mk_arm_inst index (BITS inst 28 31) NON_BRANCH
    (cdp_inst (BITS inst 20 23) (BITS inst 16 19) (BITS inst 12 15) (BITS inst 8 11) (BITS inst 5 7) (BITS inst 0 3) inst)).
Definition InterpreterTranslate_clrex (inst index : Z) : M Z :=
  new_inst sizeof_clrex_inst (mk_arm_inst index (BITS inst 28 31) NON_BRANCH
    clrex_inst).
Definition InterpreterTranslate_clz (inst index : Z) : M Z :=
  new_inst sizeof_clz_inst (mk_arm_inst index (BITS inst 28 31) NON_BRANCH
    (clz_inst (BITS inst 0 3) (BITS inst 12 15))).
Definition InterpreterTranslate_cmn (inst index : Z) : M Z :=
  new_inst sizeof_cmn_inst (mk_arm_inst index (BITS inst 28 31) NON_BRANCH
    (cmn_inst (BIT inst 25) (BITS inst 16 19) (BITS inst 0 11) (GetShifterOp inst))).
Definition InterpreterTranslate_cmp (inst index : Z) : M Z :=
  new_inst sizeof_cmp_inst (mk_arm_inst index (BITS inst 28 31) NON_BRANCH
    (cmp_inst (BIT inst 25) (BITS inst 16 19) (BITS inst 0 11) (GetShifterOp inst))).
Definition InterpreterTranslate_cps (inst index : Z) : M Z :=
  new_inst sizeof_cps_inst (mk_arm_inst index (BITS inst 28 31) NON_BRANCH
    (cps_inst (BIT inst 18) (BIT inst 19) (BIT inst 17) (BIT inst 8) (BIT inst 7) (BIT inst 6) (BITS inst 0 4))).
Definition InterpreterTranslate_cpy (inst index : Z) : M Z :=
  new_inst sizeof_mov_inst (mk_arm_inst index (BITS inst 28 31) (if BITS inst 12 15 =? 15 then INDIRECT_BRANCH else NON_BRANCH)
    (mov_inst (BIT inst 25) (BIT inst 20) (BITS inst 12 15) (BITS inst 0 11) (GetShifterOp inst))).
Definition InterpreterTranslate_eor (inst index : Z) : M Z :=
  new_inst sizeof_eor_inst (mk_arm_inst index (BITS inst 28 31) (if BITS inst 12 15 =? 15 then INDIRECT_BRANCH else NON_BRANCH)
    (eor_inst (BIT inst 25) (BIT inst 20) (BITS inst 16 19) (BITS inst 12 15) (BITS inst 0 11) (GetShifterOp inst))).
Definition InterpreterTranslate_ldc (inst index : Z) : M Z :=
  new_inst sizeof_ldc_inst (mk_arm_inst index (BITS inst 28 31) NON_BRANCH
    ldc_inst).
Definition InterpreterTranslate_ldm (inst index : Z) : M Z :=
  new_inst sizeof_ldst_inst (mk_arm_inst index (BITS inst 28 31) (if truth (BIT inst 15) then INDIRECT_BRANCH else NON_BRANCH)
    (ldst_inst inst (GetAddressingOp inst))).
Definition InterpreterTranslate_sxth (inst index : Z) : M Z :=
  new_inst sizeof_sxtb_inst (mk_arm_inst index (BITS inst 28 31) NON_BRANCH
    (sxtb_inst (BITS inst 12 15) (BITS inst 0 3) (BITS inst 10 11))).
Definition InterpreterTranslate_ldr (inst index : Z) : M Z :=
  new_inst sizeof_ldst_inst (mk_arm_inst index (BITS inst 28 31) (if BITS inst 12 15 =? 15 then INDIRECT_BRANCH else NON_BRANCH)
    (ldst_inst inst (GetAddressingOp inst))).
Definition InterpreterTranslate_ldrcond (inst index : Z) : M Z :=
  new_inst sizeof_ldst_inst (mk_arm_inst index (BITS inst 28 31) (if BITS inst 12 15 =? 15 then INDIRECT_BRANCH else NON_BRANCH)
    (ldst_inst inst (GetAddressingOp inst))).
Definition InterpreterTranslate_uxth (inst index : Z) : M Z :=
  new_inst sizeof_uxth_inst (mk_arm_inst index (BITS inst 28 31) NON_BRANCH
    (uxth_inst (BITS inst 12 15) (BITS inst 0 3) (BITS inst 10 11))).
Definition InterpreterTranslate_uxtah (inst index : Z) : M Z :=
  new_inst sizeof_uxtah_inst (mk_arm_inst index (BITS inst 28 31) NON_BRANCH
    (uxtah_inst (BITS inst 16 19) (BITS inst 12 15) (BITS inst 10 11) (BITS inst 0 3))).
Definition InterpreterTranslate_ldrb (inst index : Z) : M Z :=
  new_inst sizeof_ldst_inst (mk_arm_inst index (BITS inst 28 31) NON_BRANCH
    (ldst_inst inst (GetAddressingOp inst))).
Definition InterpreterTranslate_ldrbt (inst index : Z) : M Z :=
  new_inst sizeof_ldst_inst (mk_arm_inst index (BITS inst 28 31) NON_BRANCH
    (ldst_inst inst (GetAddressingOpLoadStoreT inst))).
Definition InterpreterTranslate_ldrd (inst index : Z) : M Z :=
  new_inst sizeof_ldst_inst (mk_arm_inst index (BITS inst 28 31) NON_BRANCH
    (ldst_inst inst (GetAddressingOp inst))).
Definition InterpreterTranslate_ldrex (inst index : Z) : M Z :=
  new_inst sizeof_generic_arm_inst (mk_arm_inst index (BITS inst 28 31) (if BITS inst 12 15 =? 15 then INDIRECT_BRANCH else NON_BRANCH)
    (generic_arm_inst indeterminate indeterminate (BITS inst 16 19) (BITS inst 12 15) indeterminate indeterminate)).
Definition InterpreterTranslate_ldrexb (inst index : Z) : M Z := InterpreterTranslate_ldrex inst index.
Definition InterpreterTranslate_ldrexh (inst index : Z) : M Z := InterpreterTranslate_ldrex inst index.
Definition InterpreterTranslate_ldrexd (inst index : Z) : M Z := InterpreterTranslate_ldrex inst index.
Definition InterpreterTranslate_ldrh (inst index : Z) : M Z :=
  new_inst sizeof_ldst_inst (mk_arm_inst index (BITS inst 28 31) NON_BRANCH
    (ldst_inst inst (GetAddressingOp inst))).
Definition InterpreterTranslate_ldrsb (inst index : Z) : M Z :=
  new_inst sizeof_ldst_inst (mk_arm_inst index (BITS inst 28 31) NON_BRANCH
    (ldst_inst inst (GetAddressingOp inst))).
Definition InterpreterTranslate_ldrsh (inst index : Z) : M Z :=
  new_inst sizeof_ldst_inst (mk_arm_inst index (BITS inst 28 31) NON_BRANCH
    (ldst_inst inst (GetAddressingOp inst))).
Definition InterpreterTranslate_ldrt (inst index : Z) : M Z :=
  new_inst sizeof_ldst_inst (mk_arm_inst index (BITS inst 28 31) (if BITS inst 12 15 =? 15 then INDIRECT_BRANCH else NON_BRANCH)
    (ldst_inst inst (GetAddressingOpLoadStoreT inst))).
Definition InterpreterTranslate_mcr (inst index : Z) : M Z :=
  new_inst sizeof_mcr_inst (mk_arm_inst index (BITS inst 28 31) NON_BRANCH
    (mcr_inst (BITS inst 21 23) (BITS inst 5 7) (BITS inst 8 11) (BITS inst 16 19) (BITS inst 0 3) (BITS inst 12 15) inst)).
Definition InterpreterTranslate_mcrr (inst index : Z) : M Z :=
  new_inst sizeof_mcrr_inst (mk_arm_inst index (BITS inst 28 31) NON_BRANCH
    (mcrr_inst (BITS inst 4 7) (BITS inst 8 11) (BITS inst 0 3) (BITS inst 12 15) (BITS inst 16 19))).
Definition InterpreterTranslate_mla (inst index : Z) : M Z :=
  new_inst sizeof_mla_inst (mk_arm_inst index (BITS inst 28 31) NON_BRANCH
    (mla_inst (BIT inst 20) (BITS inst 12 15) (BITS inst 16 19) (BITS inst 8 11) (BITS inst 0 3))).
Definition InterpreterTranslate_mov (inst index : Z) : M Z :=
  new_inst sizeof_mov_inst (mk_arm_inst index (BITS inst 28 31) (if BITS inst 12 15 =? 15 then INDIRECT_BRANCH else NON_BRANCH)
    (mov_inst (BIT inst 25) (BIT inst 20) (BITS inst 12 15) (BITS inst 0 11) (GetShifterOp inst))).
Definition InterpreterTranslate_mrc (inst index : Z) : M Z :=
  new_inst sizeof_mrc_inst (mk_arm_inst index (BITS inst 28 31) NON_BRANCH
    (mrc_inst (BITS inst 21 23) (BITS inst 5 7) (BITS inst 8 11) (BITS inst 16 19) (BITS inst 0 3) (BITS inst 12 15) inst)).
Definition InterpreterTranslate_mrrc (inst index : Z) : M Z := InterpreterTranslate_mcrr inst index.
Definition InterpreterTranslate_mrs (inst index : Z) : M Z :=
  new_inst sizeof_mrs_inst (mk_arm_inst index (BITS inst 28 31) NON_BRANCH
    (mrs_inst (BIT inst 22) (BITS inst 12 15))).
Definition InterpreterTranslate_msr (inst index : Z) : M Z :=
  new_inst sizeof_msr_inst (mk_arm_inst index (BITS inst 28 31) NON_BRANCH
    (msr_inst (BITS inst 16 19) (BIT inst 22) inst)).
Definition InterpreterTranslate_mul (inst index : Z) : M Z :=
  new_inst sizeof_mul_inst (mk_arm_inst index (BITS inst 28 31) NON_BRANCH
    (mul_inst (BIT inst 20) (BITS inst 16 19) (BITS inst 8 11) (BITS inst 0 3))).
Definition InterpreterTranslate_mvn (inst index : Z) : M Z :=
  new_inst sizeof_mvn_inst (mk_arm_inst index (BITS inst 28 31) (if BITS inst 12 15 =? 15 then INDIRECT_BRANCH else NON_BRANCH)
    (mvn_inst (BIT inst 25) (BIT inst 20) (BITS inst 12 15) (BITS inst 0 11) (GetShifterOp inst))).
Definition InterpreterTranslate_orr (inst index : Z) : M Z :=
  new_inst sizeof_orr_inst (mk_arm_inst index (BITS inst 28 31) (if BITS inst 12 15 =? 15 then INDIRECT_BRANCH else NON_BRANCH)
    (orr_inst (BIT inst 25) (BIT inst 20) (BITS inst 16 19) (BITS inst 12 15) (BITS inst 0 11) (GetShifterOp inst))).
Definition InterpreterTranslate_nop (inst index : Z) : M Z :=
  new_inst 0 (mk_arm_inst index (BITS inst 28 31) NON_BRANCH
    no_component).
Definition InterpreterTranslate_pkhbt (inst index : Z) : M Z :=
  new_inst sizeof_pkh_inst (mk_arm_inst index (BITS inst 28 31) NON_BRANCH
    (pkh_inst (BITS inst 0 3) (BITS inst 16 19) (BITS inst 12 15) (BITS inst 7 11))).
Definition InterpreterTranslate_pkhtb (inst index : Z) : M Z := InterpreterTranslate_pkhbt inst index.
Definition InterpreterTranslate_pld (inst index : Z) : M Z :=
  new_inst sizeof_pld_inst (mk_arm_inst index (BITS inst 28 31) NON_BRANCH
    pld_inst).
Definition InterpreterTranslate_qadd (inst index : Z) : M Z :=
  new_inst sizeof_generic_arm_inst (mk_arm_inst index (BITS inst 28 31) NON_BRANCH
    (generic_arm_inst indeterminate (BITS inst 0 3) (BITS inst 16 19) (BITS inst 12 15) (BITS inst 21 22) indeterminate)).
Definition InterpreterTranslate_qdadd (inst index : Z) : M Z := InterpreterTranslate_qadd inst index.
Definition InterpreterTranslate_qdsub (inst index : Z) : M Z := InterpreterTranslate_qadd inst index.
Definition InterpreterTranslate_qsub (inst index : Z) : M Z := InterpreterTranslate_qadd inst index.
Definition InterpreterTranslate_qadd8 (inst index : Z) : M Z :=
  new_inst sizeof_generic_arm_inst (mk_arm_inst index (BITS inst 28 31) NON_BRANCH
    (generic_arm_inst indeterminate (BITS inst 0 3) (BITS inst 16 19) (BITS inst 12 15) (BITS inst 20 21) (BITS inst 5 7))).
Definition InterpreterTranslate_qadd16 (inst index : Z) : M Z := InterpreterTranslate_qadd8 inst index.
Definition InterpreterTranslate_qaddsubx (inst index : Z) : M Z := InterpreterTranslate_qadd8 inst index.
Definition InterpreterTranslate_qsub8 (inst index : Z) : M Z := InterpreterTranslate_qadd8 inst index.
Definition InterpreterTranslate_qsub16 (inst index : Z) : M Z := InterpreterTranslate_qadd8 inst index.
Definition InterpreterTranslate_qsubaddx (inst index : Z) : M Z := InterpreterTranslate_qadd8 inst index.
Definition InterpreterTranslate_rev (inst index : Z) : M Z :=
  new_inst sizeof_rev_inst (mk_arm_inst index (BITS inst 28 31) NON_BRANCH
    (rev_inst (BITS inst 12 15) (BITS inst 0 3) (BITS inst 20 22) (BITS inst 5 7))).
Definition InterpreterTranslate_rev16 (inst index : Z) : M Z := InterpreterTranslate_rev inst index.
Definition InterpreterTranslate_revsh (inst index : Z) : M Z := InterpreterTranslate_rev inst index.
Definition InterpreterTranslate_rfe (inst index : Z) : M Z :=
  new_inst sizeof_ldst_inst (mk_arm_inst index AL INDIRECT_BRANCH
    (ldst_inst inst (GetAddressingOp inst))).
Definition InterpreterTranslate_rsb (inst index : Z) : M Z :=
  new_inst sizeof_rsb_inst (mk_arm_inst index (BITS inst 28 31) (if BITS inst 12 15 =? 15 then INDIRECT_BRANCH else NON_BRANCH)
    (rsb_inst (BIT inst 25) (BIT inst 20) (BITS inst 16 19) (BITS inst 12 15) (BITS inst 0 11) (GetShifterOp inst))).
Definition InterpreterTranslate_rsc (inst index : Z) : M Z :=
  new_inst sizeof_rsc_inst (mk_arm_inst index (BITS inst 28 31) (if BITS inst 12 15 =? 15 then INDIRECT_BRANCH else NON_BRANCH)
    (rsc_inst (BIT inst 25) (BIT inst 20) (BITS inst 16 19) (BITS inst 12 15) (BITS inst 0 11) (GetShifterOp inst))).
Definition InterpreterTranslate_sadd8 (inst index : Z) : M Z :=
  new_inst sizeof_generic_arm_inst (mk_arm_inst index (BITS inst 28 31) NON_BRANCH
    (generic_arm_inst indeterminate (BITS inst 0 3) (BITS inst 16 19) (BITS inst 12 15) (BITS inst 20 21) (BITS inst 5 7))).
Definition InterpreterTranslate_sadd16 (inst index : Z) : M Z := InterpreterTranslate_sadd8 inst index.
Definition InterpreterTranslate_saddsubx (inst index : Z) : M Z := InterpreterTranslate_sadd8 inst index.
Definition InterpreterTranslate_ssub8 (inst index : Z) : M Z := InterpreterTranslate_sadd8 inst index.
Definition InterpreterTranslate_ssub16 (inst index : Z) : M Z := InterpreterTranslate_sadd8 inst index.
Definition InterpreterTranslate_ssubaddx (inst index : Z) : M Z := InterpreterTranslate_sadd8 inst index.
Definition InterpreterTranslate_sbc (inst index : Z) : M Z :=
  new_inst sizeof_sbc_inst (mk_arm_inst index (BITS inst 28 31) (if BITS inst 12 15 =? 15 then INDIRECT_BRANCH else NON_BRANCH)
    (sbc_inst (BIT inst 25) (BIT inst 20) (BITS inst 16 19) (BITS inst 12 15) (BITS inst 0 11) (GetShifterOp inst))).
Definition InterpreterTranslate_sel (inst index : Z) : M Z :=
  new_inst sizeof_generic_arm_inst (mk_arm_inst index (BITS inst 28 31) NON_BRANCH
    (generic_arm_inst indeterminate (BITS inst 0 3) (BITS inst 16 19) (BITS inst 12 15) (BITS inst 20 22) (BITS inst 5 7))).
Definition InterpreterTranslate_setend (inst index : Z) : M Z :=
  new_inst sizeof_setend_inst (mk_arm_inst index AL NON_BRANCH
    (setend_inst (BIT inst 9))).
Definition InterpreterTranslate_sev (inst index : Z) : M Z :=
  new_inst 0 (mk_arm_inst index (BITS inst 28 31) NON_BRANCH
    no_component).
Definition InterpreterTranslate_shadd8 (inst index : Z) : M Z :=
  new_inst sizeof_generic_arm_inst (mk_arm_inst index (BITS inst 28 31) NON_BRANCH
    (generic_arm_inst indeterminate (BITS inst 0 3) (BITS inst 16 19) (BITS inst 12 15) (BITS inst 20 21) (BITS inst 5 7))).
Definition InterpreterTranslate_shadd16 (inst index : Z) : M Z := InterpreterTranslate_shadd8 inst index.
Definition InterpreterTranslate_shaddsubx (inst index : Z) : M Z := InterpreterTranslate_shadd8 inst index.
Definition InterpreterTranslate_shsub8 (inst index : Z) : M Z := InterpreterTranslate_shadd8 inst index.
Definition InterpreterTranslate_shsub16 (inst index : Z) : M Z := InterpreterTranslate_shadd8 inst index.
Definition InterpreterTranslate_shsubaddx (inst index : Z) : M Z := InterpreterTranslate_shadd8 inst index.
Definition InterpreterTranslate_smla (inst index : Z) : M Z :=
  new_inst sizeof_smla_inst (mk_arm_inst index (BITS inst 28 31) NON_BRANCH
    (smla_inst (BIT inst 5) (BIT inst 6) (BITS inst 0 3) (BITS inst 16 19) (BITS inst 8 11) (BITS inst 12 15))).
Definition InterpreterTranslate_smlad (inst index : Z) : M Z :=
  new_inst sizeof_smlad_inst (mk_arm_inst index (BITS inst 28 31) NON_BRANCH
    (smlad_inst (BIT inst 5) (BITS inst 8 11) (BITS inst 16 19) (BITS inst 12 15) (BITS inst 0 3) (BITS inst 20 22) (BITS inst 5 7))).
Definition InterpreterTranslate_smuad (inst index : Z) : M Z := InterpreterTranslate_smlad inst index.
Definition InterpreterTranslate_smusd (inst index : Z) : M Z := InterpreterTranslate_smlad inst index.
Definition InterpreterTranslate_smlsd (inst index : Z) : M Z := InterpreterTranslate_smlad inst index.
Definition InterpreterTranslate_smlal (inst index : Z) : M Z :=
  new_inst sizeof_umlal_inst (mk_arm_inst index (BITS inst 28 31) NON_BRANCH
    (umlal_inst (BIT inst 20) (BITS inst 0 3) (BITS inst 8 11) (BITS inst 16 19) (BITS inst 12 15))).
Definition InterpreterTranslate_smlalxy (inst index : Z) : M Z :=
  new_inst sizeof_smlalxy_inst (mk_arm_inst index (BITS inst 28 31) NON_BRANCH
    (smlalxy_inst (BIT inst 5) (BIT inst 6) (BITS inst 12 15) (BITS inst 16 19) (BITS inst 8 11) (BITS inst 0 4))).
Definition InterpreterTranslate_smlaw (inst index : Z) : M Z :=
  new_inst sizeof_smlad_inst (mk_arm_inst index (BITS inst 28 31) NON_BRANCH
    (smlad_inst (BIT inst 6) (BITS inst 8 11) (BITS inst 16 19) (BITS inst 12 15) (BITS inst 0 3) indeterminate indeterminate)).
Definition InterpreterTranslate_smlald (inst index : Z) : M Z :=
  new_inst sizeof_smlald_inst (mk_arm_inst index (BITS inst 28 31) NON_BRANCH
    (smlald_inst (BITS inst 12 15) (BITS inst 16 19) (BITS inst 8 11) (BITS inst 0 3) (BIT inst 5) (BITS inst 20 22) (BITS inst 5 7))).
Definition InterpreterTranslate_smlsld (inst index : Z) : M Z := InterpreterTranslate_smlald inst index.
Definition InterpreterTranslate_smmla (inst index : Z) : M Z :=
  new_inst sizeof_smlad_inst (mk_arm_inst index (BITS inst 28 31) NON_BRANCH
    (smlad_inst (BIT inst 5) (BITS inst 8 11) (BITS inst 16 19) (BITS inst 12 15) (BITS inst 0 3) (BITS inst 20 22) (BITS inst 5 7))).
Definition InterpreterTranslate_smmls (inst index : Z) : M Z := InterpreterTranslate_smmla inst index.
Definition InterpreterTranslate_smmul (inst index : Z) : M Z := InterpreterTranslate_smmla inst index.
Definition InterpreterTranslate_smul (inst index : Z) : M Z :=
  new_inst sizeof_smul_inst (mk_arm_inst index (BITS inst 28 31) NON_BRANCH
    (smul_inst (BITS inst 16 19) (BITS inst 8 11) (BITS inst 0 3) (BIT inst 5) (BIT inst 6))).
Definition InterpreterTranslate_smull (inst index : Z) : M Z :=
  new_inst sizeof_umull_inst (mk_arm_inst index (BITS inst 28 31) NON_BRANCH
    (umull_inst (BIT inst 20) (BITS inst 16 19) (BITS inst 12 15) (BITS inst 8 11) (BITS inst 0 3))).
Definition InterpreterTranslate_smulw (inst index : Z) : M Z :=
  new_inst sizeof_smlad_inst (mk_arm_inst index (BITS inst 28 31) NON_BRANCH
    (smlad_inst (BIT inst 6) (BITS inst 8 11) (BITS inst 16 19) indeterminate (BITS inst 0 3) indeterminate indeterminate)).
Definition InterpreterTranslate_srs (inst index : Z) : M Z :=
  new_inst sizeof_ldst_inst (mk_arm_inst index AL NON_BRANCH
    (ldst_inst inst (GetAddressingOp inst))).
Definition InterpreterTranslate_ssat (inst index : Z) : M Z :=
  new_inst sizeof_ssat_inst (mk_arm_inst index (BITS inst 28 31) NON_BRANCH
    (ssat_inst (BITS inst 0 3) (BITS inst 12 15) (BITS inst 7 11) (BITS inst 16 20) (BIT inst 6))).
Definition InterpreterTranslate_ssat16 (inst index : Z) : M Z :=
  new_inst sizeof_ssat_inst (mk_arm_inst index (BITS inst 28 31) NON_BRANCH
    (ssat_inst (BITS inst 0 3) (BITS inst 12 15) indeterminate (BITS inst 16 19) indeterminate)).
Definition InterpreterTranslate_stc (inst index : Z) : M Z :=
  new_inst sizeof_stc_inst (mk_arm_inst index (BITS inst 28 31) NON_BRANCH
    stc_inst).
Definition InterpreterTranslate_stm (inst index : Z) : M Z :=
  new_inst sizeof_ldst_inst (mk_arm_inst index (BITS inst 28 31) NON_BRANCH
    (ldst_inst inst (GetAddressingOp inst))).
Definition InterpreterTranslate_sxtb (inst index : Z) : M Z :=
  new_inst sizeof_sxtb_inst (mk_arm_inst index (BITS inst 28 31) NON_BRANCH
    (sxtb_inst (BITS inst 12 15) (BITS inst 0 3) (BITS inst 10 11))).
Definition InterpreterTranslate_str (inst index : Z) : M Z :=
  new_inst sizeof_ldst_inst (mk_arm_inst index (BITS inst 28 31) NON_BRANCH
    (ldst_inst inst (GetAddressingOp inst))).
Definition InterpreterTranslate_uxtb (inst index : Z) : M Z :=
  new_inst sizeof_uxth_inst (mk_arm_inst index (BITS inst 28 31) NON_BRANCH
    (uxth_inst (BITS inst 12 15) (BITS inst 0 3) (BITS inst 10 11))).
Definition InterpreterTranslate_uxtab (inst index : Z) : M Z :=
  new_inst sizeof_uxtab_inst (mk_arm_inst index (BITS inst 28 31) NON_BRANCH
    (uxtab_inst (BITS inst 16 19) (BITS inst 12 15) (BITS inst 10 11) (BITS inst 0 3))).
Definition InterpreterTranslate_strb (inst index : Z) : M Z :=
  new_inst sizeof_ldst_inst (mk_arm_inst index (BITS inst 28 31) NON_BRANCH
    (ldst_inst inst (GetAddressingOp inst))).
Definition InterpreterTranslate_strbt (inst index : Z) : M Z :=
  new_inst sizeof_ldst_inst (mk_arm_inst index (BITS inst 28 31) NON_BRANCH
    (ldst_inst inst (GetAddressingOpLoadStoreT inst))).
Definition InterpreterTranslate_strd (inst index : Z) : M Z :=
  new_inst sizeof_ldst_inst (mk_arm_inst index (BITS inst 28 31) NON_BRANCH
    (ldst_inst inst (GetAddressingOp inst))).
Definition InterpreterTranslate_strex (inst index : Z) : M Z :=
  new_inst sizeof_generic_arm_inst (mk_arm_inst index (BITS inst 28 31) NON_BRANCH
    (generic_arm_inst indeterminate (BITS inst 0 3) (BITS inst 16 19) (BITS inst 12 15) indeterminate indeterminate)).
Definition InterpreterTranslate_strexb (inst index : Z) : M Z := InterpreterTranslate_strex inst index.
Definition InterpreterTranslate_strexh (inst index : Z) : M Z := InterpreterTranslate_strex inst index.
Definition InterpreterTranslate_strexd (inst index : Z) : M Z := InterpreterTranslate_strex inst index.
Definition InterpreterTranslate_strh (inst index : Z) : M Z :=
  new_inst sizeof_ldst_inst (mk_arm_inst index (BITS inst 28 31) NON_BRANCH
    (ldst_inst inst (GetAddressingOp inst))).
Definition InterpreterTranslate_strt (inst index : Z) : M Z :=
  new_inst sizeof_ldst_inst (mk_arm_inst index (BITS inst 28 31) NON_BRANCH
    (ldst_inst inst (GetAddressingOpLoadStoreT inst))).
Definition InterpreterTranslate_sub (inst index : Z) : M Z :=
  new_inst sizeof_sub_inst (mk_arm_inst index (BITS inst 28 31) (if BITS inst 12 15 =? 15 then INDIRECT_BRANCH else NON_BRANCH)
    (sub_inst (BIT inst 25) (BIT inst 20) (BITS inst 16 19) (BITS inst 12 15) (BITS inst 0 11) (GetShifterOp inst))).
Definition InterpreterTranslate_swi (inst index : Z) : M Z :=
  new_inst sizeof_swi_inst (mk_arm_inst index (BITS inst 28 31) NON_BRANCH
    (swi_inst (BITS inst 0 23))).
Definition InterpreterTranslate_swp (inst index : Z) : M Z :=
  new_inst sizeof_swp_inst (mk_arm_inst index (BITS inst 28 31) NON_BRANCH
    (swp_inst (BITS inst 16 19) (BITS inst 12 15) (BITS inst 0 3))).
Definition InterpreterTranslate_swpb (inst index : Z) : M Z :=
  new_inst sizeof_swp_inst (mk_arm_inst index (BITS inst 28 31) NON_BRANCH
    (swp_inst (BITS inst 16 19) (BITS inst 12 15) (BITS inst 0 3))).
Definition InterpreterTranslate_sxtab (inst index : Z) : M Z :=
  new_inst sizeof_sxtab_inst (mk_arm_inst index (BITS inst 28 31) NON_BRANCH
    (sxtab_inst (BITS inst 12 15) (BITS inst 16 19) (BITS inst 0 3) (BITS inst 10 11))).
Definition InterpreterTranslate_sxtab16 (inst index : Z) : M Z :=
  new_inst sizeof_sxtab_inst (mk_arm_inst index (BITS inst 28 31) NON_BRANCH
    (sxtab_inst (BITS inst 12 15) (BITS inst 16 19) (BITS inst 0 3) (BITS inst 10 11))).
Definition InterpreterTranslate_sxtb16 (inst index : Z) : M Z := InterpreterTranslate_sxtab16 inst index.
Definition InterpreterTranslate_sxtah (inst index : Z) : M Z :=
  new_inst sizeof_sxtah_inst (mk_arm_inst index (BITS inst 28 31) NON_BRANCH
    (sxtah_inst (BITS inst 12 15) (BITS inst 16 19) (BITS inst 0 3) (BITS inst 10 11))).
Definition InterpreterTranslate_teq (inst index : Z) : M Z :=
  new_inst sizeof_teq_inst (mk_arm_inst index (BITS inst 28 31) NON_BRANCH
    (teq_inst (BIT inst 25) (BITS inst 16 19) (BITS inst 0 11) (GetShifterOp inst))).
Definition InterpreterTranslate_tst (inst index : Z) : M Z :=
  new_inst sizeof_tst_inst (mk_arm_inst index (BITS inst 28 31) NON_BRANCH
    (tst_inst (BIT inst 25) (BIT inst 20) (BITS inst 16 19) (BITS inst 12 15) (BITS inst 0 11) (GetShifterOp inst))).
Definition InterpreterTranslate_uadd8 (inst index : Z) : M Z :=
  new_inst sizeof_generic_arm_inst (mk_arm_inst index (BITS inst 28 31) NON_BRANCH
    (generic_arm_inst indeterminate (BITS inst 0 3) (BITS inst 16 19) (BITS inst 12 15) (BITS inst 20 21) (BITS inst 5 7))).
Definition InterpreterTranslate_uadd16 (inst index : Z) : M Z := InterpreterTranslate_uadd8 inst index.
Definition InterpreterTranslate_uaddsubx (inst index : Z) : M Z := InterpreterTranslate_uadd8 inst index.
Definition InterpreterTranslate_usub8 (inst index : Z) : M Z := InterpreterTranslate_uadd8 inst index.
Definition InterpreterTranslate_usub16 (inst index : Z) : M Z := InterpreterTranslate_uadd8 inst index.
Definition InterpreterTranslate_usubaddx (inst index : Z) : M Z := InterpreterTranslate_uadd8 inst index.
Definition InterpreterTranslate_uhadd8 (inst index : Z) : M Z :=
  new_inst sizeof_generic_arm_inst (mk_arm_inst index (BITS inst 28 31) NON_BRANCH
    (generic_arm_inst indeterminate (BITS inst 0 3) (BITS inst 16 19) (BITS inst 12 15) (BITS inst 20 21) (BITS inst 5 7))).
Definition InterpreterTranslate_uhadd16 (inst index : Z) : M Z := InterpreterTranslate_uhadd8 inst index.
Definition InterpreterTranslate_uhaddsubx (inst index : Z) : M Z := InterpreterTranslate_uhadd8 inst index.
Definition InterpreterTranslate_uhsub8 (inst index : Z) : M Z := InterpreterTranslate_uhadd8 inst index.
Definition InterpreterTranslate_uhsub16 (inst index : Z) : M Z := InterpreterTranslate_uhadd8 inst index.
Definition InterpreterTranslate_uhsubaddx (inst index : Z) : M Z := InterpreterTranslate_uhadd8 inst index.
Definition InterpreterTranslate_umaal (inst index : Z) : M Z :=
  new_inst sizeof_umaal_inst (mk_arm_inst index (BITS inst 28 31) NON_BRANCH
    (umaal_inst (BITS inst 0 3) (BITS inst 8 11) (BITS inst 16 19) (BITS inst 12 15))).
Definition InterpreterTranslate_umlal (inst index : Z) : M Z :=
  new_inst sizeof_umlal_inst (mk_arm_inst index (BITS inst 28 31) NON_BRANCH
    (umlal_inst (BIT inst 20) (BITS inst 0 3) (BITS inst 8 11) (BITS inst 16 19) (BITS inst 12 15))).
Definition InterpreterTranslate_umull (inst index : Z) : M Z :=
  new_inst sizeof_umull_inst (mk_arm_inst index (BITS inst 28 31) NON_BRANCH
    (umull_inst (BIT inst 20) (BITS inst 16 19) (BITS inst 12 15) (BITS inst 8 11) (BITS inst 0 3))).
Definition InterpreterTranslate_b_2_thumb (inst index : Z) : M Z :=
  new_inst sizeof_b_2_thumb (mk_arm_inst index indeterminate DIRECT_BRANCH
    (b_2_thumb (Z.lor (Z.shiftl (Z.land inst 0x3FF) 1) (if truth (Z.land inst (Z.shiftl 1 10)) then 0xFFFFF800 else 0)))).
Definition InterpreterTranslate_b_cond_thumb (inst index : Z) : M Z :=
  new_inst sizeof_b_cond_thumb (mk_arm_inst index indeterminate DIRECT_BRANCH
    (b_cond_thumb (Z.lor (Z.shiftl (Z.land inst 0x7F) 1) (if truth (Z.land inst (Z.shiftl 1 7)) then 0xFFFFFF00 else 0)) (Z.land (Z.shiftr inst 8) 0xf))).
Definition InterpreterTranslate_bl_1_thumb (inst index : Z) : M Z :=
  new_inst sizeof_bl_1_thumb (mk_arm_inst index indeterminate NON_BRANCH
    (bl_1_thumb (Z.lor (Z.shiftl (Z.land inst 0x07FF) 12) (if truth (Z.land inst (Z.shiftl 1 10)) then 0xFF800000 else 0)))).
Definition InterpreterTranslate_bl_2_thumb (inst index : Z) : M Z :=
  new_inst sizeof_bl_2_thumb (mk_arm_inst index indeterminate DIRECT_BRANCH
    (bl_2_thumb (Z.shiftl (Z.land inst 0x07FF) 1))).
Definition InterpreterTranslate_blx_1_thumb (inst index : Z) : M Z :=
  new_inst sizeof_blx_1_thumb (mk_arm_inst index indeterminate DIRECT_BRANCH
    (blx_1_thumb (Z.shiftl (Z.land inst 0x07FF) 1) inst)).
Definition InterpreterTranslate_uqadd8 (inst index : Z) : M Z :=
  new_inst sizeof_generic_arm_inst (mk_arm_inst index (BITS inst 28 31) NON_BRANCH
    (generic_arm_inst indeterminate (BITS inst 0 3) (BITS inst 16 19) (BITS inst 12 15) (BITS inst 20 21) (BITS inst 5 7))).
Definition InterpreterTranslate_uqadd16 (inst index : Z) : M Z := InterpreterTranslate_uqadd8 inst index.
Definition InterpreterTranslate_uqaddsubx (inst index : Z) : M Z := InterpreterTranslate_uqadd8 inst index.
Definition InterpreterTranslate_uqsub8 (inst index : Z) : M Z := InterpreterTranslate_uqadd8 inst index.
Definition InterpreterTranslate_uqsub16 (inst index : Z) : M Z := InterpreterTranslate_uqadd8 inst index.
Definition InterpreterTranslate_uqsubaddx (inst index : Z) : M Z := InterpreterTranslate_uqadd8 inst index.
Definition InterpreterTranslate_usada8 (inst index : Z) : M Z :=
  new_inst sizeof_generic_arm_inst (mk_arm_inst index (BITS inst 28 31) NON_BRANCH
    (generic_arm_inst (BITS inst 12 15) (BITS inst 8 11) (BITS inst 0 3) (BITS inst 16 19) (BITS inst 20 24) (BITS inst 5 7))).
Definition InterpreterTranslate_usad8 (inst index : Z) : M Z := InterpreterTranslate_usada8 inst index.
Definition InterpreterTranslate_usat (inst index : Z) : M Z := InterpreterTranslate_ssat inst index.
Definition InterpreterTranslate_usat16 (inst index : Z) : M Z := InterpreterTranslate_ssat16 inst index.
Definition InterpreterTranslate_uxtab16 (inst index : Z) : M Z :=
  new_inst sizeof_uxtab_inst (mk_arm_inst index (BITS inst 28 31) NON_BRANCH
    (uxtab_inst (BITS inst 16 19) (BITS inst 12 15) (BITS inst 10 11) (BITS inst 0 3))).
Definition InterpreterTranslate_uxtb16 (inst index : Z) : M Z := InterpreterTranslate_uxtab16 inst index.
Definition InterpreterTranslate_wfe (inst index : Z) : M Z :=
  new_inst 0 (mk_arm_inst index (BITS inst 28 31) NON_BRANCH
    no_component).
Definition InterpreterTranslate_wfi (inst index : Z) : M Z :=
  new_inst 0 (mk_arm_inst index (BITS inst 28 31) NON_BRANCH
    no_component).
Definition InterpreterTranslate_yield (inst index : Z) : M Z :=
  new_inst 0 (mk_arm_inst index (BITS inst 28 31) NON_BRANCH
    no_component).
(** *** The floating-point unit (vfpinstr.cpp) *)

Definition InterpreterTranslate_vmla (inst index : Z) : M Z :=
  new_inst sizeof_vmla_inst (mk_arm_inst index (BITS inst 28 31) NON_BRANCH (vfp_op_inst inst (BIT inst 8))).
Definition InterpreterTranslate_vmls (inst index : Z) : M Z :=
  new_inst sizeof_vmls_inst (mk_arm_inst index (BITS inst 28 31) NON_BRANCH (vfp_op_inst inst (BIT inst 8))).
Definition InterpreterTranslate_vnmla (inst index : Z) : M Z :=
  new_inst sizeof_vnmla_inst (mk_arm_inst index (BITS inst 28 31) NON_BRANCH (vfp_op_inst inst (BIT inst 8))).
Definition InterpreterTranslate_vnmls (inst index : Z) : M Z :=
  new_inst sizeof_vnmls_inst (mk_arm_inst index (BITS inst 28 31) NON_BRANCH (vfp_op_inst inst (BIT inst 8))).
Definition InterpreterTranslate_vnmul (inst index : Z) : M Z :=
  new_inst sizeof_vnmul_inst (mk_arm_inst index (BITS inst 28 31) NON_BRANCH (vfp_op_inst inst (BIT inst 8))).
Definition InterpreterTranslate_vmul (inst index : Z) : M Z :=
  new_inst sizeof_vmul_inst (mk_arm_inst index (BITS inst 28 31) NON_BRANCH (vfp_op_inst inst (BIT inst 8))).
Definition InterpreterTranslate_vadd (inst index : Z) : M Z :=
  new_inst sizeof_vadd_inst (mk_arm_inst index (BITS inst 28 31) NON_BRANCH (vfp_op_inst inst (BIT inst 8))).
Definition InterpreterTranslate_vsub (inst index : Z) : M Z :=
  new_inst sizeof_vsub_inst (mk_arm_inst index (BITS inst 28 31) NON_BRANCH (vfp_op_inst inst (BIT inst 8))).
Definition InterpreterTranslate_vdiv (inst index : Z) : M Z :=
  new_inst sizeof_vdiv_inst (mk_arm_inst index (BITS inst 28 31) NON_BRANCH (vfp_op_inst inst (BIT inst 8))).
Definition InterpreterTranslate_vabs (inst index : Z) : M Z :=
  new_inst sizeof_vabs_inst (mk_arm_inst index (BITS inst 28 31) NON_BRANCH (vfp_op_inst inst (BIT inst 8))).
Definition InterpreterTranslate_vneg (inst index : Z) : M Z :=
  new_inst sizeof_vneg_inst (mk_arm_inst index (BITS inst 28 31) NON_BRANCH (vfp_op_inst inst (BIT inst 8))).
Definition InterpreterTranslate_vsqrt (inst index : Z) : M Z :=
  new_inst sizeof_vsqrt_inst (mk_arm_inst index (BITS inst 28 31) NON_BRANCH (vfp_op_inst inst (BIT inst 8))).
Definition InterpreterTranslate_vcmp (inst index : Z) : M Z :=
  new_inst sizeof_vcmp_inst (mk_arm_inst index (BITS inst 28 31) NON_BRANCH (vfp_op_inst inst (BIT inst 8))).
Definition InterpreterTranslate_vcmp2 (inst index : Z) : M Z :=
  new_inst sizeof_vcmp2_inst (mk_arm_inst index (BITS inst 28 31) NON_BRANCH (vfp_op_inst inst (BIT inst 8))).
Definition InterpreterTranslate_vcvtbds (inst index : Z) : M Z :=
  new_inst sizeof_vcvtbds_inst (mk_arm_inst index (BITS inst 28 31) NON_BRANCH (vfp_op_inst inst (BIT inst 8))).
Definition InterpreterTranslate_vcvtbff (inst index : Z) : M Z :=
  new_inst sizeof_vcvtbff_inst (mk_arm_inst index (BITS inst 28 31) NON_BRANCH (vfp_op_inst inst (BIT inst 8))).
Definition InterpreterTranslate_vcvtbfi (inst index : Z) : M Z :=
  new_inst sizeof_vcvtbfi_inst (mk_arm_inst index (BITS inst 28 31) NON_BRANCH (vfp_op_inst inst (BIT inst 8))).
(** The number of a register: a single-precision one, or a double-precision one *)
Definition vfp_register (single high low : Z) : Z := if truth single then Z.lor (Z.shiftl high 1) low else Z.lor high (Z.shiftl low 4).
Definition vfp_d (inst single : Z) : Z := vfp_register single (BITS inst 12 15) (BIT inst 22).
Definition vfp_m (inst single : Z) : Z := vfp_register single (BITS inst 0 3) (BIT inst 5).
Definition is_single (inst : Z) : Z := Z.b2z (BIT inst 8 =? 0).
Definition vmov_immediate (single imm8 : Z) : Z :=
  let ones k := if truth (BIT imm8 6) then k else 0 in
  if truth single then
    u32 (Z.lor (Z.lor (Z.lor (Z.shiftl (BIT imm8 7) 31) (Z.shiftl (Z.b2z (BIT imm8 6 =? 0)) 30)) (Z.shiftl (ones 0x1f) 25)) (Z.shiftl (BITS imm8 0 5) 19))
  else
    u32 (Z.lor (Z.lor (Z.lor (Z.shiftl (BIT imm8 7) 31) (Z.shiftl (Z.b2z (BIT imm8 6 =? 0)) 30)) (Z.shiftl (ones 0xff) 22)) (Z.shiftl (BITS imm8 0 5) 16)).
Definition vfp_regs (inst single : Z) : Z := if truth single then BITS inst 0 7 else BITS inst 1 7.
Definition InterpreterTranslate_vmovi (inst index : Z) : M Z :=
  new_inst sizeof_vmovi_inst (mk_arm_inst index (BITS inst 28 31) NON_BRANCH (vmovi_inst (is_single inst) (vfp_d inst (is_single inst)) (vmov_immediate (is_single inst) (Z.lor (Z.shiftl (BITS inst 16 19) 4) (BITS inst 0 3))))).
Definition InterpreterTranslate_vmovr (inst index : Z) : M Z :=
  new_inst sizeof_vmovr_inst (mk_arm_inst index (BITS inst 28 31) NON_BRANCH (vmovr_inst (is_single inst) (vfp_d inst (is_single inst)) (vfp_m inst (is_single inst)))).
Definition InterpreterTranslate_vmovbrs (inst index : Z) : M Z :=
  new_inst sizeof_vmovbrs_inst (mk_arm_inst index (BITS inst 28 31) NON_BRANCH (vmovbrs_inst (Z.b2z (BIT inst 20 =? 1)) (BITS inst 12 15) (Z.lor (BIT inst 7) (Z.shiftl (BITS inst 16 19) 1)))).
Definition InterpreterTranslate_vmsr (inst index : Z) : M Z :=
  new_inst sizeof_vmsr_inst (mk_arm_inst index (BITS inst 28 31) NON_BRANCH (vmsr_inst (BITS inst 16 19) (BITS inst 12 15))).
Definition InterpreterTranslate_vmovbrc (inst index : Z) : M Z :=
  new_inst sizeof_vmovbrc_inst (mk_arm_inst index (BITS inst 28 31) NON_BRANCH (vmovbrc_inst 32 (BIT inst 21) (Z.lor (BITS inst 16 19) (Z.shiftl (BIT inst 7) 4)) (BITS inst 12 15))).
Definition InterpreterTranslate_vmrs (inst index : Z) : M Z :=
  new_inst sizeof_vmrs_inst (mk_arm_inst index (BITS inst 28 31) NON_BRANCH (vmrs_inst (BITS inst 16 19) (BITS inst 12 15))).
Definition InterpreterTranslate_vmovbcr (inst index : Z) : M Z :=
  new_inst sizeof_vmovbcr_inst (mk_arm_inst index (BITS inst 28 31) NON_BRANCH (vmovbcr_inst 32 (BIT inst 21) (Z.lor (BITS inst 16 19) (Z.shiftl (BIT inst 7) 4)) (BITS inst 12 15))).
Definition InterpreterTranslate_vmovbrrss (inst index : Z) : M Z :=
  new_inst sizeof_vmovbrrss_inst (mk_arm_inst index (BITS inst 28 31) NON_BRANCH (vmovbrrss_inst (Z.b2z (BIT inst 20 =? 1)) (BITS inst 12 15) (BITS inst 16 19) (Z.lor (Z.shiftl (BITS inst 0 3) 1) (BIT inst 5)))).
Definition InterpreterTranslate_vmovbrrd (inst index : Z) : M Z :=
  new_inst sizeof_vmovbrrd_inst (mk_arm_inst index (BITS inst 28 31) NON_BRANCH (vmovbrrd_inst (Z.b2z (BIT inst 20 =? 1)) (BITS inst 12 15) (BITS inst 16 19) (Z.lor (Z.shiftl (BIT inst 5) 4) (BITS inst 0 3)))).
Definition InterpreterTranslate_vstr (inst index : Z) : M Z :=
  new_inst sizeof_vstr_inst (mk_arm_inst index (BITS inst 28 31) NON_BRANCH (vstr_inst (is_single inst) (BITS inst 16 19) (vfp_d inst (is_single inst)) (Z.shiftl (BITS inst 0 7) 2) (BIT inst 23))).
Definition InterpreterTranslate_vpush (inst index : Z) : M Z :=
  new_inst sizeof_vpush_inst (mk_arm_inst index (BITS inst 28 31) NON_BRANCH (vpush_inst (is_single inst) (vfp_d inst (is_single inst)) (Z.shiftl (BITS inst 0 7) 2) (vfp_regs inst (is_single inst)))).
Definition InterpreterTranslate_vstm (inst index : Z) : M Z :=
  new_inst sizeof_vstm_inst (mk_arm_inst index (BITS inst 28 31) NON_BRANCH (vstm_inst (is_single inst) (BIT inst 23) (BIT inst 21) (vfp_d inst (is_single inst)) (BITS inst 16 19) (Z.shiftl (BITS inst 0 7) 2) (vfp_regs inst (is_single inst)))).
Definition InterpreterTranslate_vpop (inst index : Z) : M Z :=
  new_inst sizeof_vpop_inst (mk_arm_inst index (BITS inst 28 31) NON_BRANCH (vpop_inst (is_single inst) (vfp_d inst (is_single inst)) (Z.shiftl (BITS inst 0 7) 2) (vfp_regs inst (is_single inst)))).
Definition InterpreterTranslate_vldr (inst index : Z) : M Z :=
  new_inst sizeof_vldr_inst (mk_arm_inst index (BITS inst 28 31) NON_BRANCH (vldr_inst (is_single inst) (BITS inst 16 19) (vfp_d inst (is_single inst)) (Z.shiftl (BITS inst 0 7) 2) (BIT inst 23))).
Definition InterpreterTranslate_vldm (inst index : Z) : M Z :=
  new_inst sizeof_vldm_inst (mk_arm_inst index (BITS inst 28 31) NON_BRANCH (vldm_inst (is_single inst) (BIT inst 23) (BIT inst 21) (vfp_d inst (is_single inst)) (BITS inst 16 19) (Z.shiftl (BITS inst 0 7) 2) (vfp_regs inst (is_single inst)))).

(** ** The table, by the index of the decoder *)

Definition arm_instruction_trans : list (Z -> Z -> M Z) :=
  [
    InterpreterTranslate_vmla; InterpreterTranslate_vmls; InterpreterTranslate_vnmla; InterpreterTranslate_vnmls; InterpreterTranslate_vnmul;
    InterpreterTranslate_vmul; InterpreterTranslate_vadd; InterpreterTranslate_vsub; InterpreterTranslate_vdiv; InterpreterTranslate_vmovi;
    InterpreterTranslate_vmovr; InterpreterTranslate_vabs; InterpreterTranslate_vneg; InterpreterTranslate_vsqrt; InterpreterTranslate_vcmp;
    InterpreterTranslate_vcmp2; InterpreterTranslate_vcvtbds; InterpreterTranslate_vcvtbff; InterpreterTranslate_vcvtbfi;
    InterpreterTranslate_vmovbrs; InterpreterTranslate_vmsr; InterpreterTranslate_vmovbrc; InterpreterTranslate_vmrs; InterpreterTranslate_vmovbcr;
    InterpreterTranslate_vmovbrrss; InterpreterTranslate_vmovbrrd; InterpreterTranslate_vstr; InterpreterTranslate_vpush; InterpreterTranslate_vstm;
    InterpreterTranslate_vpop; InterpreterTranslate_vldr; InterpreterTranslate_vldm;
    InterpreterTranslate_srs; InterpreterTranslate_rfe; InterpreterTranslate_bkpt; InterpreterTranslate_blx; InterpreterTranslate_cps;
    InterpreterTranslate_pld; InterpreterTranslate_setend; InterpreterTranslate_clrex; InterpreterTranslate_rev16; InterpreterTranslate_usad8;
    InterpreterTranslate_sxtb; InterpreterTranslate_uxtb; InterpreterTranslate_sxth; InterpreterTranslate_sxtb16; InterpreterTranslate_uxth;
    InterpreterTranslate_uxtb16; InterpreterTranslate_cpy; InterpreterTranslate_uxtab; InterpreterTranslate_ssub8; InterpreterTranslate_shsub8;
    InterpreterTranslate_ssubaddx; InterpreterTranslate_strex; InterpreterTranslate_strexb; InterpreterTranslate_swp; InterpreterTranslate_swpb;
    InterpreterTranslate_ssub16; InterpreterTranslate_ssat16; InterpreterTranslate_shsubaddx; InterpreterTranslate_qsubaddx;
    InterpreterTranslate_shaddsubx; InterpreterTranslate_shadd8; InterpreterTranslate_shadd16; InterpreterTranslate_sel;
    InterpreterTranslate_saddsubx; InterpreterTranslate_sadd8; InterpreterTranslate_sadd16; InterpreterTranslate_shsub16; InterpreterTranslate_umaal;
    InterpreterTranslate_uxtab16; InterpreterTranslate_usubaddx; InterpreterTranslate_usub8; InterpreterTranslate_usub16; InterpreterTranslate_usat16;
    InterpreterTranslate_usada8; InterpreterTranslate_uqsubaddx; InterpreterTranslate_uqsub8; InterpreterTranslate_uqsub16;
    InterpreterTranslate_uqaddsubx; InterpreterTranslate_uqadd8; InterpreterTranslate_uqadd16; InterpreterTranslate_sxtab;
    InterpreterTranslate_uhsubaddx; InterpreterTranslate_uhsub8; InterpreterTranslate_uhsub16; InterpreterTranslate_uhaddsubx;
    InterpreterTranslate_uhadd8; InterpreterTranslate_uhadd16; InterpreterTranslate_uaddsubx; InterpreterTranslate_uadd8; InterpreterTranslate_uadd16;
    InterpreterTranslate_sxtah; InterpreterTranslate_sxtab16; InterpreterTranslate_qadd8; InterpreterTranslate_bxj; InterpreterTranslate_clz;
    InterpreterTranslate_uxtah; InterpreterTranslate_bx; InterpreterTranslate_rev; InterpreterTranslate_blx; InterpreterTranslate_revsh;
    InterpreterTranslate_qadd; InterpreterTranslate_qadd16; InterpreterTranslate_qaddsubx; InterpreterTranslate_ldrex; InterpreterTranslate_qdadd;
    InterpreterTranslate_qdsub; InterpreterTranslate_qsub; InterpreterTranslate_ldrexb; InterpreterTranslate_qsub8; InterpreterTranslate_qsub16;
    InterpreterTranslate_smuad; InterpreterTranslate_smmul; InterpreterTranslate_smusd; InterpreterTranslate_smlsd; InterpreterTranslate_smlsld;
    InterpreterTranslate_smmla; InterpreterTranslate_smmls; InterpreterTranslate_smlald; InterpreterTranslate_smlad; InterpreterTranslate_smlaw;
    InterpreterTranslate_smulw; InterpreterTranslate_pkhtb; InterpreterTranslate_pkhbt; InterpreterTranslate_smul; InterpreterTranslate_smlalxy;
    InterpreterTranslate_smla; InterpreterTranslate_mcrr; InterpreterTranslate_mrrc; InterpreterTranslate_cmp; InterpreterTranslate_tst;
    InterpreterTranslate_teq; InterpreterTranslate_cmn; InterpreterTranslate_smull; InterpreterTranslate_umull; InterpreterTranslate_umlal;
    InterpreterTranslate_smlal; InterpreterTranslate_mul; InterpreterTranslate_mla; InterpreterTranslate_ssat; InterpreterTranslate_usat;
    InterpreterTranslate_mrs; InterpreterTranslate_msr; InterpreterTranslate_and; InterpreterTranslate_bic; InterpreterTranslate_ldm;
    InterpreterTranslate_eor; InterpreterTranslate_add; InterpreterTranslate_rsb; InterpreterTranslate_rsc; InterpreterTranslate_sbc;
    InterpreterTranslate_adc; InterpreterTranslate_sub; InterpreterTranslate_orr; InterpreterTranslate_mvn; InterpreterTranslate_mov;
    InterpreterTranslate_stm; InterpreterTranslate_ldm; InterpreterTranslate_ldrsh; InterpreterTranslate_stm; InterpreterTranslate_ldm;
    InterpreterTranslate_ldrsb; InterpreterTranslate_strd; InterpreterTranslate_ldrh; InterpreterTranslate_strh; InterpreterTranslate_ldrd;
    InterpreterTranslate_strt; InterpreterTranslate_strbt; InterpreterTranslate_ldrbt; InterpreterTranslate_ldrt; InterpreterTranslate_mrc;
    InterpreterTranslate_mcr; InterpreterTranslate_msr; InterpreterTranslate_msr; InterpreterTranslate_msr; InterpreterTranslate_msr;
    InterpreterTranslate_msr; InterpreterTranslate_ldrb; InterpreterTranslate_strb; InterpreterTranslate_ldr; InterpreterTranslate_ldrcond;
    InterpreterTranslate_str; InterpreterTranslate_cdp; InterpreterTranslate_stc; InterpreterTranslate_ldc; InterpreterTranslate_ldrexd;
    InterpreterTranslate_strexd; InterpreterTranslate_ldrexh; InterpreterTranslate_strexh; InterpreterTranslate_nop; InterpreterTranslate_yield;
    InterpreterTranslate_wfe; InterpreterTranslate_wfi; InterpreterTranslate_sev; InterpreterTranslate_swi; InterpreterTranslate_bbl;
    InterpreterTranslate_b_2_thumb; InterpreterTranslate_b_cond_thumb; InterpreterTranslate_bl_1_thumb; InterpreterTranslate_bl_2_thumb;
    InterpreterTranslate_blx_1_thumb].
Definition arm_instruction_trans_len : Z := Z.of_nat (length arm_instruction_trans).
End Translate.

(** * Running the instructions

    What the handlers of instructions share (src/.../core/arm/dyncom/
    arm_dyncom_interpreter.cpp, the macros of [InterpreterMainLoop]): conditional execution,
    flags, and where a handler goes next. *)

#[local] Abbreviation MS := (Prelude.M ARMul_State).

(** How a handler ends: [INC_PC(l); FETCH_INST; GOTO_NEXT_INST], [goto DISPATCH], or
    [return num_instrs] *)
Inductive next := FETCH_NEXT (l : Z) | GOTO_DISPATCH | RETURN.

(** Reading [inst_base->component] as a structure *)
Notation "'let!' p ':=' x 'in' b" := (match x with p => b | _ => crash UndefinedBehaviour end)
  (at level 10, p pattern at level 100, x at level 100, b at level 200).

(** [if (inst_base->cond == ConditionCode::AL || CondPassed(cpu, inst_base->cond))] *)
Definition passes (inst_base : arm_inst) (s : ARMul_State) : bool := (cond inst_base =? AL) || CondPassed s (cond inst_base).

(** [cpu->Reg[15] += cpu->GetInstructionSize()] *)
Definition add_pc : MS unit := s ← get; r ← cpu_Reg 15; set_Reg 15 (r + GetInstructionSize s).
(** The end of most handlers *)
Definition advance (l : Z) : MS next := add_pc ;; mret (FETCH_NEXT l).
(** A handler of [body], under the condition of the instruction; a body that does not go
    elsewhere is followed by the end. *)
Definition conditional (inst_base : arm_inst) (l : Z) (body : MS (option next)) : MS next :=
  s ← get;
  r ← (if passes inst_base s then body else mret None);
  match r with Some n => mret n | None => advance l end.
(** A body that goes nowhere else *)
Definition simply (body : MS unit) : MS (option next) := body ;; mret None.

(** ** Flags *)

Definition UPDATE_NFLAG (dst : Z) : MS unit := modify (fun s => s <| NFlag := if truth (BIT dst 31) then 1 else 0 |>).
Definition UPDATE_ZFLAG (dst : Z) : MS unit := modify (fun s => s <| ZFlag := if truth dst then 0 else 1 |>).
Definition UPDATE_CFLAG_WITH_SC : MS unit := modify (fun s => s <| CFlag := shifter_carry_out s |>).
Definition set_CV (carry overflow : bool) : MS unit := modify (fun s => s <| CFlag := Z.b2z carry |> <| VFlag := Z.b2z overflow |>).
Definition SAVE_NZCVT (s : ARMul_State) : ARMul_State :=
  s <| Cpsr := Z.lor (Z.lor (Z.lor (Z.lor (Z.lor (Z.land (Cpsr s) 0x0fffffdf) (u32 (Z.shiftl (NFlag s) 31))) (u32 (Z.shiftl (ZFlag s) 30)))
                 (u32 (Z.shiftl (CFlag s) 29))) (u32 (Z.shiftl (VFlag s) 28))) (u32 (Z.shiftl (TFlag s) 5)) |>.
Definition LOAD_NZCVT (s : ARMul_State) : ARMul_State :=
  s <| NFlag := Z.shiftr (Cpsr s) 31 |> <| ZFlag := Z.land (Z.shiftr (Cpsr s) 30) 1 |> <| CFlag := Z.land (Z.shiftr (Cpsr s) 29) 1 |>
    <| VFlag := Z.land (Z.shiftr (Cpsr s) 28) 1 |> <| TFlag := Z.land (Z.shiftr (Cpsr s) 5) 1 |>.

(** [cpu->Cpsr |= (1 << n)] and [cpu->Cpsr &= ~(1 << n)] *)
Definition set_cpsr_bit (n : Z) (b : bool) : MS unit :=
  modify (fun s => s <| Cpsr := if b then Z.lor (Cpsr s) (Z.shiftl 1 n) else Z.land (Cpsr s) (not32 (Z.shiftl 1 n)) |>).
(** [if (c) cpu->Cpsr |= (1 << 27)] *)
Definition saturate_if (c : bool) : MS unit := if c then set_cpsr_bit 27 true else mret tt.

(** [if (cpu->CurrentModeHasSPSR()) { cpu->Cpsr = cpu->Spsr_copy; ...; LOAD_NZCVT; }] *)
Definition restore_cpsr : MS unit :=
  modify (fun s => if CurrentModeHasSPSR s then LOAD_NZCVT (ChangePrivilegeMode (Z.land (Spsr_copy s) 0x1F) (s <| Cpsr := Spsr_copy s |>)) else s).

(** [RN], and [if (inst_cream->Rn == 15) rn_val += 2 * cpu->GetInstructionSize()] *)
Definition rn_val (Rn : Z) : MS Z :=
  s ← get;
  rn ← cpu_Reg Rn;
  mret (if Rn =? 15 then u32 (rn + 2 * GetInstructionSize s) else rn).
