(* ===== verification/ArmData.v ===== *)
(** Data processing (src/.../core/arm/dyncom/arm_dyncom_interpreter.cpp, the handlers of
    [InterpreterMainLoop]): arithmetic and logic on a shifter operand, comparisons, moves,
    counting of zeros, extension, reversal and selection of bytes. *)

From S2P Require Import Prelude ArmSupp ArmState ArmOperands ArmTrans.

#[local] Abbreviation M := (Prelude.M ARMul_State).

(** The end of the body: the flags, where the S bit asks for them, and the branch if the
    destination is the program counter *)
Definition data_result (S_ Rd : Z) (update_flags : M unit) : M (option next) :=
  (if truth S_ && (Rd =? 15) then restore_cpsr else if truth S_ then update_flags else mret tt) ;;
  mret (if Rd =? 15 then Some GOTO_DISPATCH else None).
Definition arithmetic_flags (Rd : Z) (carry overflow : bool) : M unit :=
  rd ← cpu_Reg Rd;
  UPDATE_NFLAG rd ;; UPDATE_ZFLAG rd ;; set_CV carry overflow.
Definition logic_flags (Rd : Z) : M unit :=
  rd ← cpu_Reg Rd;
  UPDATE_NFLAG rd ;; UPDATE_ZFLAG rd ;; UPDATE_CFLAG_WITH_SC.
(** [RD = AddWithCarry(left, right, carry_in, &carry, &overflow)], and the end *)
Definition add_into (S_ Rd left right carry_in : Z) : M (option next) :=
  let '(result, carry, overflow) := AddWithCarry left right carry_in in
  set_Reg Rd result ;;
  data_result S_ Rd (arithmetic_flags Rd carry overflow).

Definition ADC_INST (inst_base : arm_inst) : M next :=
  conditional inst_base sizeof_adc_inst (
    let! adc_inst I_ S_ Rn Rd shifter_operand shtop_func := component inst_base in
    rn_val ← rn_val Rn;
    so ← SHIFTER_OPERAND shtop_func shifter_operand;
    s ← get;
    add_into S_ Rd rn_val so (CFlag s)).
Definition ADD_INST (inst_base : arm_inst) : M next :=
  conditional inst_base sizeof_add_inst (
    let! add_inst I_ S_ Rn Rd shifter_operand shtop_func := component inst_base in
    rn_val ← CHECK_READ_REG15_WA Rn;
    so ← SHIFTER_OPERAND shtop_func shifter_operand;
    add_into S_ Rd rn_val so 0).
Definition SUB_INST (inst_base : arm_inst) : M next :=
  conditional inst_base sizeof_sub_inst (
    let! sub_inst I_ S_ Rn Rd shifter_operand shtop_func := component inst_base in
    rn_val ← CHECK_READ_REG15_WA Rn;
    so ← SHIFTER_OPERAND shtop_func shifter_operand;
    add_into S_ Rd rn_val (not32 so) 1).
Definition SBC_INST (inst_base : arm_inst) : M next :=
  conditional inst_base sizeof_sbc_inst (
    let! sbc_inst I_ S_ Rn Rd shifter_operand shtop_func := component inst_base in
    rn_val ← rn_val Rn;
    so ← SHIFTER_OPERAND shtop_func shifter_operand;
    s ← get;
    add_into S_ Rd rn_val (not32 so) (CFlag s)).
Definition RSB_INST (inst_base : arm_inst) : M next :=
  conditional inst_base sizeof_rsb_inst (
    let! rsb_inst I_ S_ Rn Rd shifter_operand shtop_func := component inst_base in
    rn_val ← rn_val Rn;
    so ← SHIFTER_OPERAND shtop_func shifter_operand;
    add_into S_ Rd (not32 rn_val) so 1).
Definition RSC_INST (inst_base : arm_inst) : M next :=
  conditional inst_base sizeof_rsc_inst (
    let! rsc_inst I_ S_ Rn Rd shifter_operand shtop_func := component inst_base in
    rn_val ← rn_val Rn;
    so ← SHIFTER_OPERAND shtop_func shifter_operand;
    s ← get;
    add_into S_ Rd (not32 rn_val) so (CFlag s)).
Definition AND_INST (inst_base : arm_inst) : M next :=
  conditional inst_base sizeof_and_inst (
    let! and_inst I_ S_ Rn Rd shifter_operand shtop_func := component inst_base in
    lop ← rn_val Rn;
    rop ← SHIFTER_OPERAND shtop_func shifter_operand;
    set_Reg Rd (Z.land lop rop) ;;
    data_result S_ Rd (logic_flags Rd)).
Definition BIC_INST (inst_base : arm_inst) : M next :=
  conditional inst_base sizeof_bic_inst (
    let! bic_inst I_ S_ Rn Rd shifter_operand shtop_func := component inst_base in
    lop ← rn_val Rn;
    rop ← SHIFTER_OPERAND shtop_func shifter_operand;
    set_Reg Rd (Z.land lop (not32 rop)) ;;
    data_result S_ Rd (logic_flags Rd)).
Definition EOR_INST (inst_base : arm_inst) : M next :=
  conditional inst_base sizeof_eor_inst (
    let! eor_inst I_ S_ Rn Rd shifter_operand shtop_func := component inst_base in
    lop ← rn_val Rn;
    rop ← SHIFTER_OPERAND shtop_func shifter_operand;
    set_Reg Rd (Z.lxor lop rop) ;;
    data_result S_ Rd (logic_flags Rd)).
Definition ORR_INST (inst_base : arm_inst) : M next :=
  conditional inst_base sizeof_orr_inst (
    let! orr_inst I_ S_ Rn Rd shifter_operand shtop_func := component inst_base in
    lop ← rn_val Rn;
    rop ← SHIFTER_OPERAND shtop_func shifter_operand;
    set_Reg Rd (Z.lor lop rop) ;;
    data_result S_ Rd (logic_flags Rd)).
Definition MOV_INST (inst_base : arm_inst) : M next :=
  conditional inst_base sizeof_mov_inst (
    let! mov_inst I_ S_ Rd shifter_operand shtop_func := component inst_base in
    so ← SHIFTER_OPERAND shtop_func shifter_operand;
    set_Reg Rd so ;;
    data_result S_ Rd (logic_flags Rd)).
Definition MVN_INST (inst_base : arm_inst) : M next :=
  conditional inst_base sizeof_mvn_inst (
    let! mvn_inst I_ S_ Rd shifter_operand shtop_func := component inst_base in
    so ← SHIFTER_OPERAND shtop_func shifter_operand;
    set_Reg Rd (not32 so) ;;
    data_result S_ Rd (logic_flags Rd)).
Definition CPY_INST (inst_base : arm_inst) : M next :=
  conditional inst_base sizeof_mov_inst (
    let! mov_inst I_ S_ Rd shifter_operand shtop_func := component inst_base in
    so ← SHIFTER_OPERAND shtop_func shifter_operand;
    set_Reg Rd so ;;
    mret (if Rd =? 15 then Some GOTO_DISPATCH else None)).

(** Comparisons *)
Definition compare (left right carry_in : Z) : M unit :=
  let '(result, carry, overflow) := AddWithCarry left right carry_in in
  UPDATE_NFLAG result ;; UPDATE_ZFLAG result ;; set_CV carry overflow.
Definition test (result : Z) : M unit := UPDATE_NFLAG result ;; UPDATE_ZFLAG result ;; UPDATE_CFLAG_WITH_SC.
Definition CMN_INST (inst_base : arm_inst) : M next :=
  conditional inst_base sizeof_cmn_inst (
    let! cmn_inst I_ Rn shifter_operand shtop_func := component inst_base in
    rn_val ← rn_val Rn;
    so ← SHIFTER_OPERAND shtop_func shifter_operand;
    simply (compare rn_val so 0)).
Definition CMP_INST (inst_base : arm_inst) : M next :=
  conditional inst_base sizeof_cmp_inst (
    let! cmp_inst I_ Rn shifter_operand shtop_func := component inst_base in
    rn_val ← rn_val Rn;
    so ← SHIFTER_OPERAND shtop_func shifter_operand;
    simply (compare rn_val (not32 so) 1)).
Definition TEQ_INST (inst_base : arm_inst) : M next :=
  conditional inst_base sizeof_teq_inst (
    let! teq_inst I_ Rn shifter_operand shtop_func := component inst_base in
    lop ← rn_val Rn;
    rop ← SHIFTER_OPERAND shtop_func shifter_operand;
    simply (test (Z.lxor lop rop))).
Definition TST_INST (inst_base : arm_inst) : M next :=
  conditional inst_base sizeof_tst_inst (
    let! tst_inst I_ S_ Rn Rd shifter_operand shtop_func := component inst_base in
    lop ← rn_val Rn;
    rop ← SHIFTER_OPERAND shtop_func shifter_operand;
    simply (test (Z.land lop rop))).

(** ** Registers without a shifter operand *)

(** [RD = f(RM)] and [RD = f(RN, RM)] *)
Definition unary (Rd Rm : Z) (f : Z -> Z) : M (option next) := simply (rm ← cpu_Reg Rm; set_Reg Rd (f rm)).
Definition binary (Rd Rn Rm : Z) (f : Z -> Z -> Z) : M (option next) :=
  simply (rn ← cpu_Reg Rn; rm ← cpu_Reg Rm; set_Reg Rd (f rn rm)).

Definition CLZ_INST (inst_base : arm_inst) : M next :=
  conditional inst_base sizeof_clz_inst (
    let! clz_inst Rm Rd := component inst_base in
    unary Rd Rm clz).

(** Extension of a rotated register. [UXTB_INST] reads as a [uxtb_inst] what was written as
    a [uxth_inst], [SXTH_INST] as a [sxth_inst] what was written as a [sxtb_inst]: the
    members are the same. *)
Definition SXTH_INST (inst_base : arm_inst) : M next :=
  conditional inst_base sizeof_sxth_inst (
    let! sxtb_inst Rd Rm rotate := component inst_base in
    unary Rd Rm (fun rm =>
      let operand2 := ROTATE_RIGHT_32 rm (8 * rotate) in
      if truth (BIT operand2 15) then Z.lor operand2 0xffff0000 else Z.land operand2 0xffff)).
Definition SXTB_INST (inst_base : arm_inst) : M next :=
  conditional inst_base sizeof_sxtb_inst (
    let! sxtb_inst Rd Rm rotate := component inst_base in
    unary Rd Rm (fun rm =>
      let operand2 := ROTATE_RIGHT_32 rm (8 * rotate) in
      if truth (BIT operand2 7) then Z.lor operand2 0xffffff00 else Z.land operand2 0xff)).
Definition UXTH_INST (inst_base : arm_inst) : M next :=
  conditional inst_base sizeof_uxth_inst (
    let! uxth_inst Rd Rm rotate := component inst_base in
    unary Rd Rm (fun rm => Z.land (ROTATE_RIGHT_32 rm (8 * rotate)) 0xffff)).
Definition UXTB_INST (inst_base : arm_inst) : M next :=
  conditional inst_base sizeof_uxtb_inst (
    let! uxth_inst Rd Rm rotate := component inst_base in
    unary Rd Rm (fun rm => Z.land (ROTATE_RIGHT_32 rm (8 * rotate)) 0xff)).
Definition UXTAH_INST (inst_base : arm_inst) : M next :=
  conditional inst_base sizeof_uxtah_inst (
    let! uxtah_inst Rn Rd rotate Rm := component inst_base in
    binary Rd Rn Rm (fun rn rm => rn + Z.land (ROTATE_RIGHT_32 rm (8 * rotate)) 0xffff)).
Definition UXTAB_INST (inst_base : arm_inst) : M next :=
  conditional inst_base sizeof_uxtab_inst (
    let! uxtab_inst Rn Rd rotate Rm := component inst_base in
    binary Rd Rn Rm (fun rn rm => rn + Z.land (ROTATE_RIGHT_32 rm (8 * rotate)) 0xff)).
Definition SXTAB_INST (inst_base : arm_inst) : M next :=
  conditional inst_base sizeof_uxtab_inst (
    let! sxtab_inst Rd Rn Rm rotate := component inst_base in
    binary Rd Rn Rm (fun rn rm =>
      let operand2 := Z.land (ROTATE_RIGHT_32 rm (8 * rotate)) 0xff in
      rn + (if truth (Z.land 0x80 operand2) then Z.lor 0xFFFFFF00 operand2 else operand2))).
Definition SXTAH_INST (inst_base : arm_inst) : M next :=
  conditional inst_base sizeof_sxtah_inst (
    let! sxtah_inst Rd Rn Rm rotate := component inst_base in
    binary Rd Rn Rm (fun rn rm =>
      let operand2 := Z.land (ROTATE_RIGHT_32 rm (8 * rotate)) 0xffff in
      rn + (if truth (Z.land 0x8000 operand2) then Z.lor 0xFFFF0000 operand2 else operand2))).
(** [(u32)(s8)x] *)
Definition sign_extend_8 (x : Z) : Z := u32 (s8 x).
(** [SXTAB16_INST] and [SXTB16_INST] *)
Definition SXTAB16_INST (inst_base : arm_inst) : M next :=
  conditional inst_base sizeof_sxtab_inst (
    let! sxtab_inst Rd Rn Rm rotate := component inst_base in
    let rotation := u8 (rotate * 8) in
    binary Rd Rn Rm (fun rn_val rm_val =>
      let rm_val := if truth rotation then Z.lor (u32 (Z.shiftl rm_val (32 - rotation))) (Z.shiftr rm_val rotation) else rm_val in
      if Rn =? 15 then
        let lo := sign_extend_8 rm_val in
        let hi := sign_extend_8 (Z.shiftr rm_val 16) in
        Z.lor (Z.land lo 0xFFFF) (u32 (Z.shiftl hi 16))
      else
        let lo := u32 (rn_val + sign_extend_8 (Z.land rm_val 0xFF)) in
        let hi := u32 (Z.shiftr rn_val 16 + sign_extend_8 (Z.land (Z.shiftr rm_val 16) 0xFF)) in
        Z.lor (Z.land lo 0xFFFF) (u32 (Z.shiftl hi 16)))).
(** [UXTAB16_INST] and [UXTB16_INST] *)
Definition UXTAB16_INST (inst_base : arm_inst) : M next :=
  conditional inst_base sizeof_uxtab_inst (
    let! uxtab_inst Rn Rd rotate Rm := component inst_base in
    binary Rd Rn Rm (fun rn_val rm_val =>
      let rotated_rm := ROTATE_RIGHT_32 rm_val (rotate * 8) in
      if u8 Rn =? 15 then Z.land rotated_rm 0x00FF00FF
      else
        let lo_rotated := Z.land rotated_rm 0xFF in
        let lo_result := u16 (Z.land rn_val 0xFFFF + lo_rotated) in
        let hi_rotated := Z.land (Z.shiftr rotated_rm 16) 0xFF in
        let hi_result := u16 (Z.shiftr rn_val 16 + hi_rotated) in
        Z.lor (Z.shiftl hi_result 16) (Z.land lo_result 0xFFFF))).

(** Bytes in another order: [REV_INST], [REV16_INST] and [REVSH_INST] *)
Definition REV_INST (inst_base : arm_inst) : M next :=
  conditional inst_base sizeof_rev_inst (
    let! rev_inst Rd Rm op1 op2 := component inst_base in
    if (u8 op1 =? 0x03) && (u8 op2 =? 0x01) then
      unary Rd Rm (fun rm =>
        Z.lor (Z.lor (Z.lor (Z.shiftl (Z.land rm 0xFF) 24) (Z.shiftl (Z.land (Z.shiftr rm 8) 0xFF) 16)) (Z.shiftl (Z.land (Z.shiftr rm 16) 0xFF) 8))
          (Z.land (Z.shiftr rm 24) 0xFF))
    else if (u8 op1 =? 0x03) && (u8 op2 =? 0x05) then
      unary Rd Rm (fun rm =>
        Z.lor (Z.lor (Z.lor (Z.shiftl (Z.land rm 0xFF) 8) (Z.shiftr (Z.land rm 0xFF00) 8)) (u32 (Z.shiftl (Z.land rm 0xFF0000) 8)))
          (Z.shiftr (Z.land rm 0xFF000000) 8))
    else if (u8 op1 =? 0x07) && (u8 op2 =? 0x05) then
      unary Rd Rm (fun rm =>
        let rd := Z.lor (Z.shiftl (Z.land rm 0xFF) 8) (Z.shiftr (Z.land rm 0xFF00) 8) in
        if truth (Z.land rd 0x8000) then Z.lor rd 0xffff0000 else rd)
    else mret None).
(** Bytes of one register or the other, by the GE bits *)
Definition SEL_INST (inst_base : arm_inst) : M next :=
  conditional inst_base sizeof_generic_arm_inst (
    let! generic_arm_inst Ra Rm Rn Rd op1 op2 := component inst_base in
    s ← get;
    let ge n := truth (Z.land (Cpsr s) (Z.shiftl 1 n)) in
    binary Rd Rn Rm (fun from to =>
      let byte n mask := Z.land (if ge n then from else to) mask in
      Z.lor (Z.lor (Z.lor (byte 16 0xff) (byte 17 0x0000ff00)) (byte 18 0x00ff0000)) (byte 19 0xff000000))).
(** Halves of two registers *)
Definition PKHBT_INST (inst_base : arm_inst) : M next :=
  conditional inst_base sizeof_pkh_inst (
    let! pkh_inst Rm Rn Rd imm := component inst_base in
    binary Rd Rn Rm (fun rn rm => Z.lor (Z.land rn 0xFFFF) (Z.land (u32 (Z.shiftl rm imm)) 0xFFFF0000))).
Definition PKHTB_INST (inst_base : arm_inst) : M next :=
  conditional inst_base sizeof_pkh_inst (
    let! pkh_inst Rm Rn Rd imm := component inst_base in
    let shift_imm := if truth imm then imm else 31 in
    binary Rd Rn Rm (fun rn rm => Z.lor (Z.land (Z.shiftr (s32 rm) shift_imm) 0xFFFF) (Z.land rn 0xFFFF0000))).
