(* ===== verification/ArmMedia.v ===== *)
(** Multiplication, saturation and parallel arithmetic (src/.../core/arm/dyncom/
    arm_dyncom_interpreter.cpp, the handlers of [InterpreterMainLoop]). *)

From S2P Require Import Prelude ArmSupp ArmState ArmOperands ArmTrans ArmData.

#[local] Abbreviation M := (Prelude.M ARMul_State).

(** ** Halves and bytes *)

Definition lo_half (x : Z) : Z := Z.land x 0xFFFF.
Definition hi_half (x : Z) : Z := Z.land (Z.shiftr x 16) 0xFFFF.
Definition byte_at (n x : Z) : Z := Z.land (Z.shiftr x (8 * n)) 0xFF.
(** [(lo & 0xFFFF) | ((hi & 0xFFFF) << 16)] *)
Definition halves (lo hi : Z) : Z := Z.lor (Z.land lo 0xFFFF) (Z.shiftl (Z.land hi 0xFFFF) 16).
Definition bytes4 (b0 b1 b2 b3 : Z) : Z :=
  Z.lor (Z.lor (Z.lor (Z.land b0 0xFF) (Z.shiftl (Z.land b1 0xFF) 8)) (Z.shiftl (Z.land b2 0xFF) 16)) (Z.shiftl (Z.land b3 0xFF) 24).
Definition bytes2 (b0 b1 : Z) : Z := Z.lor b0 (Z.shiftl b1 8).

(** ** Multiplication *)

(** [RDLO = lo; RDHI = hi] and the other order *)
Definition set_lo_hi (RdLo RdHi lo hi : Z) : M unit := set_Reg RdLo lo ;; set_Reg RdHi hi.
Definition set_hi_lo (RdLo RdHi lo hi : Z) : M unit := set_Reg RdHi hi ;; set_Reg RdLo lo.
(** [if (inst_cream->S) ...] of a product of 32 and of 64 bits *)
Definition product_flags (S_ Rd : Z) : M unit :=
  if truth S_ then rd ← cpu_Reg Rd; UPDATE_NFLAG rd ;; UPDATE_ZFLAG rd else mret tt.
Definition long_flags (S_ RdLo RdHi : Z) : M unit :=
  if truth S_ then
    hi ← cpu_Reg RdHi;
    lo ← cpu_Reg RdLo;
    modify (fun s => s <| NFlag := BIT hi 31 |> <| ZFlag := Z.b2z ((hi =? 0) && (lo =? 0)) |>)
  else mret tt.

Definition MUL_INST (inst_base : arm_inst) : M next :=
  conditional inst_base sizeof_mul_inst (
    let! mul_inst S_ Rd Rs Rm := component inst_base in
    rm ← cpu_Reg Rm;
    rs ← cpu_Reg Rs;
    set_Reg Rd (Z.land (u64 (rm * rs)) 0xffffffff) ;;
    simply (product_flags S_ Rd)).
Definition MLA_INST (inst_base : arm_inst) : M next :=
  conditional inst_base sizeof_mla_inst (
    let! mla_inst S_ Rn Rd Rs Rm := component inst_base in
    rm ← cpu_Reg Rm;
    rs ← cpu_Reg Rs;
    rn ← cpu_Reg Rn;
    set_Reg Rd (Z.land (u64 (rm * rs + rn)) 0xffffffff) ;;
    simply (product_flags S_ Rd)).
Definition UMULL_INST (inst_base : arm_inst) : M next :=
  conditional inst_base sizeof_umull_inst (
    let! umull_inst S_ RdHi RdLo Rs Rm := component inst_base in
    rm ← cpu_Reg Rm;
    rs ← cpu_Reg Rs;
    let rst := u64 (rm * rs) in
    set_hi_lo RdLo RdHi (BITS_u64 rst 0 31) (BITS_u64 rst 32 63) ;;
    simply (long_flags S_ RdLo RdHi)).
Definition UMLAL_INST (inst_base : arm_inst) : M next :=
  conditional inst_base sizeof_umlal_inst (
    let! umlal_inst S_ Rm Rs RdHi RdLo := component inst_base in
    rm ← cpu_Reg Rm;
    rs ← cpu_Reg Rs;
    hi ← cpu_Reg RdHi;
    lo ← cpu_Reg RdLo;
    let rst := u64 (u64 (rm * rs) + u64 (u64 (Z.shiftl hi 32) + lo)) in
    set_lo_hi RdLo RdHi (BITS_u64 rst 0 31) (BITS_u64 rst 32 63) ;;
    simply (long_flags S_ RdLo RdHi)).
Definition UMAAL_INST (inst_base : arm_inst) : M next :=
  conditional inst_base sizeof_umaal_inst (
    let! umaal_inst Rn Rm RdHi RdLo := component inst_base in
    rm ← cpu_Reg Rm;
    rn ← cpu_Reg Rn;
    rd_lo ← cpu_Reg RdLo;
    rd_hi ← cpu_Reg RdHi;
    let result := u64 (rm * rn + rd_lo + rd_hi) in
    simply (set_lo_hi RdLo RdHi (Z.land result 0xFFFFFFFF) (Z.land (Z.shiftr result 32) 0xFFFFFFFF))).
(** [if (BIT(r, 31)) r |= 0xffffffff00000000LL] *)
Definition extend_64 (r : Z) : Z := if truth (BIT r 31) then s64 (Z.lor r 0xffffffff00000000) else r.
Definition SMULL_INST (inst_base : arm_inst) : M next :=
  conditional inst_base sizeof_umull_inst (
    let! umull_inst S_ RdHi RdLo Rs Rm := component inst_base in
    rm ← cpu_Reg Rm;
    rs ← cpu_Reg Rs;
    let rst := s64 (extend_64 rm * extend_64 rs) in
    set_hi_lo RdLo RdHi (BITS_s64 rst 0 31) (BITS_s64 rst 32 63) ;;
    simply (long_flags S_ RdLo RdHi)).
Definition SMLAL_INST (inst_base : arm_inst) : M next :=
  conditional inst_base sizeof_umlal_inst (
    let! umlal_inst S_ Rm Rs RdHi RdLo := component inst_base in
    rm ← cpu_Reg Rm;
    rs ← cpu_Reg Rs;
    rdhi32 ← cpu_Reg RdHi;
    lo ← cpu_Reg RdLo;
    let hilo := s64 (s64 (Z.shiftl rdhi32 32) + lo) in
    let rst := s64 (s64 (extend_64 rm * extend_64 rs) + hilo) in
    set_lo_hi RdLo RdHi (BITS_s64 rst 0 31) (BITS_s64 rst 32 63) ;;
    simply (long_flags S_ RdLo RdHi)).

(** The half of a register an operand is, extended by its sign *)
Definition half_operand (high v : Z) : Z :=
  if high =? 0 then if truth (BIT v 15) then Z.lor (BITS v 0 15) 0xffff0000 else BITS v 0 15
  else if truth (BIT v 31) then Z.lor (BITS v 16 31) 0xffff0000 else BITS v 16 31.
Definition SMUL_INST (inst_base : arm_inst) : M next :=
  conditional inst_base sizeof_smul_inst (
    let! smul_inst Rd Rs Rm x y := component inst_base in
    rm ← cpu_Reg Rm;
    rs ← cpu_Reg Rs;
    simply (set_Reg Rd (u32 (half_operand x rm * half_operand y rs)))).
Definition SMLA_INST (inst_base : arm_inst) : M next :=
  conditional inst_base sizeof_smla_inst (
    let! smla_inst x y Rm Rd Rs Rn := component inst_base in
    rm ← cpu_Reg Rm;
    rs ← cpu_Reg Rs;
    rn ← cpu_Reg Rn;
    let product := u32 (s32 (half_operand x rm) * s32 (half_operand y rs)) in
    let result := u32 (product + rn) in
    saturate_if (AddOverflow product rn result) ;;
    simply (set_Reg Rd result)).
Definition exchange_halves (v : Z) : Z := Z.lor (Z.shiftl (Z.land v 0xFFFF) 16) (Z.shiftr v 16).
(** [SMLAD_INST], [SMLSD_INST], [SMUAD_INST] and [SMUSD_INST] *)
Definition SMLAD_INST (inst_base : arm_inst) : M next :=
  conditional inst_base sizeof_smlad_inst (
    let! smlad_inst m Rm Rd Ra Rn op1 op2 := component inst_base in
    rm ← cpu_Reg Rm;
    rn ← cpu_Reg Rn;
    let rm := if truth m then exchange_halves rm else rm in
    let product1 := u32 (s16 (lo_half rn) * s16 (lo_half rm)) in
    let product2 := u32 (s16 (hi_half rn) * s16 (hi_half rm)) in
    let add := BIT (u8 op2) 1 =? 0 in
    let sum := if add then u32 (product1 + product2) else u32 (product1 - product2) in
    rd_val ← (if negb (Ra =? 15) then
                ra ← cpu_Reg Ra;
                saturate_if (ARMul_AddOverflowQ sum ra) ;;
                mret (u32 (sum + ra))
              else mret sum);
    set_Reg Rd rd_val ;;
    simply (if add then saturate_if (ARMul_AddOverflowQ product1 product2) else mret tt)).
Definition SMLALXY_INST (inst_base : arm_inst) : M next :=
  conditional inst_base sizeof_smlalxy_inst (
    let! smlalxy_inst x y RdLo RdHi Rm Rn := component inst_base in
    rn ← cpu_Reg Rn;
    rm ← cpu_Reg Rm;
    hi ← cpu_Reg RdHi;
    lo ← cpu_Reg RdLo;
    let operand sel v :=
      let v := Z.land (if negb (sel =? 0) then Z.shiftr v 16 else v) 0xFFFF in
      if truth (Z.land v 0x8000) then u64 (v - 65536) else v in
    let dest := u64 (Z.lor (u64 (Z.shiftl hi 32)) lo + operand x rn * operand y rm) in
    simply (set_lo_hi RdLo RdHi (Z.land dest 0xFFFFFFFF) (Z.land (Z.shiftr dest 32) 0xFFFFFFFF))).
Definition SMLAW_INST (inst_base : arm_inst) : M next :=
  conditional inst_base sizeof_smlad_inst (
    let! smlad_inst m Rm Rd Ra Rn op1 op2 := component inst_base in
    rm_val ← cpu_Reg Rm;
    rn_val ← cpu_Reg Rn;
    ra_val ← cpu_Reg Ra;
    let operand2 := s16 (if m =? 1 then hi_half rm_val else lo_half rm_val) in
    let result := s64 (s32 rn_val * operand2 + Z.shiftl (s32 ra_val) 16) in
    set_Reg Rd (BITS_s64 result 16 47) ;;
    rd ← cpu_Reg Rd;
    simply (saturate_if (negb (Z.shiftr result 16 =? s32 rd)))).
Definition SMULW_INST (inst_base : arm_inst) : M next :=
  conditional inst_base sizeof_smlad_inst (
    let! smlad_inst m Rm Rd Ra Rn op1 op2 := component inst_base in
    rm ← cpu_Reg Rm;
    rn ← cpu_Reg Rn;
    let result := s64 (s16 (if m =? 1 then hi_half rm else lo_half rm) * s32 rn) in
    simply (set_Reg Rd (BITS_s64 result 16 47))).
(** [SMLALD_INST] and [SMLSLD_INST]; the sum of the products may overflow an [int], which
    gives the value of two's complement. *)
Definition SMLALD_INST (inst_base : arm_inst) : M next :=
  conditional inst_base sizeof_smlald_inst (
    let! smlald_inst RdLo RdHi Rm Rn swap op1 op2 := component inst_base in
    rdlo_val ← cpu_Reg RdLo;
    rdhi_val ← cpu_Reg RdHi;
    rn_val ← cpu_Reg Rn;
    rm_val ← cpu_Reg Rm;
    let rm_val := if swap =? 1 then exchange_halves rm_val else rm_val in
    let product1 := s16 (lo_half rn_val) * s16 (lo_half rm_val) in
    let product2 := s16 (hi_half rn_val) * s16 (hi_half rm_val) in
    let products := if BIT op2 1 =? 0 then s32 (product1 + product2) else s32 (product1 - product2) in
    let result := s64 (products + Z.lor rdlo_val (s64 (Z.shiftl rdhi_val 32))) in
    simply (set_lo_hi RdLo RdHi (Z.land result 0xFFFFFFFF) (Z.land (Z.shiftr result 32) 0xFFFFFFFF))).
(** [SMMLA_INST], [SMMLS_INST] and [SMMUL_INST] *)
Definition SMMLA_INST (inst_base : arm_inst) : M next :=
  conditional inst_base sizeof_smlad_inst (
    let! smlad_inst m Rm Rd Ra Rn op1 op2 := component inst_base in
    rm_val ← cpu_Reg Rm;
    rn_val ← cpu_Reg Rn;
    let product := s64 (s32 rn_val * s32 rm_val) in
    result ← (if negb (Ra =? 15) then
                ra_val ← cpu_Reg Ra;
                let ra := s64 (Z.shiftl ra_val 32) in
                mret (if BIT op2 1 =? 0 then s64 (product + ra) else s64 (ra - product))
              else mret product);
    let result := if m =? 1 then s64 (result + 0x80000000) else result in
    simply (set_Reg Rd (Z.land (Z.shiftr result 32) 0xFFFFFFFF))).

(** ** Saturation *)

(** [if (overflow) { r = POS(r) ? 0x80000000 : 0x7FFFFFFF; cpu->Cpsr |= (1 << 27); }] *)
Definition saturated (overflow : bool) (r : Z) : M Z :=
  saturate_if overflow ;;
  mret (if overflow then if truth (POS r) then 0x80000000 else 0x7FFFFFFF else r).
Definition saturating_add (a b : Z) : M Z := let r := u32 (a + b) in saturated (AddOverflow a b r) r.
Definition saturating_sub (a b : Z) : M Z := let r := u32 (a - b) in saturated (SubOverflow a b r) r.
(** [QADD_INST], [QDADD_INST], [QDSUB_INST] and [QSUB_INST] *)
Definition QADD_INST (inst_base : arm_inst) : M next :=
  conditional inst_base sizeof_generic_arm_inst (
    let! generic_arm_inst Ra Rm Rn Rd op1 op2 := component inst_base in
    rm_val ← cpu_Reg Rm;
    rn_val ← cpu_Reg Rn;
    result ← (if op1 =? 0x00 then saturating_add rm_val rn_val
              else if op1 =? 0x01 then saturating_sub rm_val rn_val
              else if op1 =? 0x02 then mul ← saturating_add rn_val rn_val; saturating_add rm_val mul
              else if op1 =? 0x03 then mul ← saturating_add rn_val rn_val; saturating_sub rm_val mul
              else mret 0);
    simply (set_Reg Rd result)).
(** The shifted operand of [SSAT_INST] and [USAT_INST] *)
Definition sat_operand (shift_type imm5 rn : Z) : Z :=
  let shift_amount := if (shift_type =? 1) && (imm5 =? 0) then 31 else imm5 in
  if shift_type =? 0 then u32 (Z.shiftl rn shift_amount)
  else if shift_type =? 1 then u32 (Z.shiftr (s32 rn) shift_amount)
  else rn.
Definition SSAT_INST (inst_base : arm_inst) : M next :=
  conditional inst_base sizeof_ssat_inst (
    let! ssat_inst Rn Rd imm5 sat_imm shift_type := component inst_base in
    rn ← cpu_Reg Rn;
    let '(value, saturated) := ARMul_SignedSatQ (s32 (sat_operand shift_type imm5 rn)) sat_imm in
    saturate_if saturated ;;
    simply (set_Reg Rd value)).
Definition USAT_INST (inst_base : arm_inst) : M next :=
  conditional inst_base sizeof_ssat_inst (
    let! ssat_inst Rn Rd imm5 sat_imm shift_type := component inst_base in
    rn ← cpu_Reg Rn;
    let '(value, saturated) := ARMul_UnsignedSatQ (s32 (sat_operand shift_type imm5 rn)) sat_imm in
    saturate_if saturated ;;
    simply (set_Reg Rd value)).
Definition saturate_halves (sat : Z -> Z -> Z * bool) (Rd Rn saturate_to : Z) : M (option next) :=
  rn ← cpu_Reg Rn;
  let '(lo, sat1) := sat (s16 rn) saturate_to in
  let '(hi, sat2) := sat (Z.shiftr (s32 rn) 16) saturate_to in
  set_Reg Rd (Z.lor (Z.land lo 0xFFFF) (u32 (Z.shiftl hi 16))) ;;
  simply (saturate_if (sat1 || sat2)).
Definition SSAT16_INST (inst_base : arm_inst) : M next :=
  conditional inst_base sizeof_ssat_inst (
    let! ssat_inst Rn Rd imm5 sat_imm shift_type := component inst_base in
    saturate_halves ARMul_SignedSatQ Rd Rn (u8 sat_imm)).
Definition USAT16_INST (inst_base : arm_inst) : M next :=
  conditional inst_base sizeof_ssat_inst (
    let! ssat_inst Rn Rd imm5 sat_imm shift_type := component inst_base in
    saturate_halves ARMul_UnsignedSatQ Rd Rn (u8 sat_imm)).

(** ** Parallel arithmetic *)

(** The result of [QADD16], [QASX], [QSAX], [QSUB16], [QADD8] and [QSUB8] *)
Definition saturated_parallel (op2 rn rm : Z) : Z :=
  let on8 f x y := bytes2 (f (Z.land x 0xFF) (Z.land y 0xFF)) (f (Z.shiftr x 8) (Z.shiftr y 8)) in
  let rn_lo := lo_half rn in let rn_hi := hi_half rn in
  let rm_lo := lo_half rm in let rm_hi := hi_half rm in
  if op2 =? 0x00 then halves (ARMul_SignedSaturatedAdd16 rn_lo rm_lo) (ARMul_SignedSaturatedAdd16 rn_hi rm_hi)
  else if op2 =? 0x01 then halves (ARMul_SignedSaturatedSub16 rn_lo rm_hi) (ARMul_SignedSaturatedAdd16 rn_hi rm_lo)
  else if op2 =? 0x02 then halves (ARMul_SignedSaturatedAdd16 rn_lo rm_hi) (ARMul_SignedSaturatedSub16 rn_hi rm_lo)
  else if op2 =? 0x03 then halves (ARMul_SignedSaturatedSub16 rn_lo rm_lo) (ARMul_SignedSaturatedSub16 rn_hi rm_hi)
  else if op2 =? 0x04 then halves (on8 ARMul_SignedSaturatedAdd8 rn_lo rm_lo) (on8 ARMul_SignedSaturatedAdd8 rn_hi rm_hi)
  else if op2 =? 0x07 then halves (on8 ARMul_SignedSaturatedSub8 rn_lo rm_lo) (on8 ARMul_SignedSaturatedSub8 rn_hi rm_hi)
  else 0.
(** [QADD8_INST], [QADD16_INST], [QADDSUBX_INST], [QSUB8_INST], [QSUB16_INST], [QSUBADDX_INST] *)
Definition QADD8_INST (inst_base : arm_inst) : M next :=
  conditional inst_base sizeof_generic_arm_inst (
    let! generic_arm_inst Ra Rm Rn Rd op1 op2 := component inst_base in
    binary Rd Rn Rm (saturated_parallel (u8 op2))).
(** The result of [UQADD16], [UQASX], [UQSAX], [UQSUB16], [UQADD8] and [UQSUB8] *)
Definition unsigned_saturated_parallel (op2 rn rm : Z) : Z :=
  let on8 f n := f (u8 (Z.shiftr rn n)) (u8 (Z.shiftr rm n)) in
  let join lo_val hi_val := Z.lor (Z.land lo_val 0xFFFF) (Z.shiftl hi_val 16) in
  let rn_lo := lo_half rn in let rn_hi := hi_half rn in
  let rm_lo := lo_half rm in let rm_hi := hi_half rm in
  if op2 =? 0x00 then join (ARMul_UnsignedSaturatedAdd16 rn_lo rm_lo) (ARMul_UnsignedSaturatedAdd16 rn_hi rm_hi)
  else if op2 =? 0x01 then join (ARMul_UnsignedSaturatedSub16 rn_lo rm_hi) (ARMul_UnsignedSaturatedAdd16 rn_hi rm_lo)
  else if op2 =? 0x02 then join (ARMul_UnsignedSaturatedAdd16 rn_lo rm_hi) (ARMul_UnsignedSaturatedSub16 rn_hi rm_lo)
  else if op2 =? 0x03 then join (ARMul_UnsignedSaturatedSub16 rn_lo rm_lo) (ARMul_UnsignedSaturatedSub16 rn_hi rm_hi)
  else
    let f := if op2 =? 0x04 then ARMul_UnsignedSaturatedAdd8 else ARMul_UnsignedSaturatedSub8 in
    join (bytes2 (on8 f 0) (on8 f 8)) (bytes2 (on8 f 16) (on8 f 24)).
(** [UQADD8_INST], [UQADD16_INST], [UQADDSUBX_INST], [UQSUB8_INST], [UQSUB16_INST], [UQSUBADDX_INST] *)
Definition UQADD8_INST (inst_base : arm_inst) : M next :=
  conditional inst_base sizeof_generic_arm_inst (
    let! generic_arm_inst Ra Rm Rn Rd op1 op2 := component inst_base in
    binary Rd Rn Rm (unsigned_saturated_parallel (u8 op2))).

(** The GE bits from bit 16 on; of halves, two bits each *)
Definition set_ge (b0 b1 b2 b3 : bool) : M unit :=
  set_cpsr_bit 16 b0 ;; set_cpsr_bit 17 b1 ;; set_cpsr_bit 18 b2 ;; set_cpsr_bit 19 b3.
Definition set_ge_halves (lo hi : bool) : M unit := set_ge lo lo hi hi.

(** [SADD8_INST], [SSUB8_INST], [SADD16_INST], [SADDSUBX_INST], [SSUBADDX_INST], [SSUB16_INST] *)
Definition SADD8_INST (inst_base : arm_inst) : M next :=
  conditional inst_base sizeof_generic_arm_inst (
    let! generic_arm_inst Ra Rm Rn Rd op1 op2 := component inst_base in
    rn ← cpu_Reg Rn;
    rm ← cpu_Reg Rm;
    let rn_lo := s16 (lo_half rn) in let rn_hi := s16 (hi_half rn) in
    let rm_lo := s16 (lo_half rm) in let rm_hi := s16 (hi_half rm) in
    let on_halves lo_result hi_result :=
      set_Reg Rd (halves lo_result hi_result) ;;
      simply (set_ge_halves (0 <=? lo_result) (0 <=? hi_result)) in
    let on_bytes (f : Z -> Z -> Z) :=
      let v n := f (s8 (byte_at n rn)) (s8 (byte_at n rm)) in
      set_Reg Rd (bytes4 (v 0) (v 1) (v 2) (v 3)) ;;
      simply (set_ge (0 <=? v 0) (0 <=? v 1) (0 <=? v 2) (0 <=? v 3)) in
    if op2 =? 0x00 then on_halves (rn_lo + rm_lo) (rn_hi + rm_hi)
    else if op2 =? 0x01 then on_halves (rn_lo - rm_hi) (rn_hi + rm_lo)
    else if op2 =? 0x02 then on_halves (rn_lo + rm_hi) (rn_hi - rm_lo)
    else if op2 =? 0x03 then on_halves (rn_lo - rm_lo) (rn_hi - rm_hi)
    else if op2 =? 0x04 then on_bytes Z.add
    else if op2 =? 0x07 then on_bytes Z.sub
    else mret None).

(** [SHADD8_INST], [SHADD16_INST], [SHADDSUBX_INST], [SHSUB8_INST], [SHSUB16_INST], [SHSUBADDX_INST] *)
Definition SHADD8_INST (inst_base : arm_inst) : M next :=
  conditional inst_base sizeof_generic_arm_inst (
    let! generic_arm_inst Ra Rm Rn Rd op1 op2 := component inst_base in
    rm ← cpu_Reg Rm;
    rn ← cpu_Reg Rn;
    let rn_lo := s16 (lo_half rn) in let rn_hi := s16 (hi_half rn) in
    let rm_lo := s16 (lo_half rm) in let rm_hi := s16 (hi_half rm) in
    let on_halves lo hi := simply (set_Reg Rd (halves (Z.shiftr lo 1) (Z.shiftr hi 1))) in
    let on_bytes (f : Z -> Z -> Z) :=
      let v n := Z.shiftr (f (s8 (byte_at n rn)) (s8 (byte_at n rm))) 1 in
      simply (set_Reg Rd (bytes4 (v 0) (v 1) (v 2) (v 3))) in
    if op2 =? 0x00 then on_halves (rn_lo + rm_lo) (rn_hi + rm_hi)
    else if op2 =? 0x01 then on_halves (rn_lo - rm_hi) (rn_hi + rm_lo)
    else if op2 =? 0x02 then on_halves (rn_lo + rm_hi) (rn_hi - rm_lo)
    else if op2 =? 0x03 then on_halves (rn_lo - rm_lo) (rn_hi - rm_hi)
    else if op2 =? 0x04 then on_bytes Z.add
    else if op2 =? 0x07 then on_bytes Z.sub
    else mret None).

(** [UADD8_INST], [UADD16_INST], [UADDSUBX_INST], [USUB8_INST], [USUB16_INST], [USUBADDX_INST] *)
Definition UADD8_INST (inst_base : arm_inst) : M next :=
  conditional inst_base sizeof_generic_arm_inst (
    let! generic_arm_inst Ra Rm Rn Rd op1 op2 := component inst_base in
    rm ← cpu_Reg Rm;
    rn ← cpu_Reg Rn;
    let rn_lo := lo_half rn in let rn_hi := hi_half rn in
    let rm_lo := lo_half rm in let rm_hi := hi_half rm in
    let on_halves (lo_result hi_result : Z) (lo_ge hi_ge : bool) :=
      set_ge_halves lo_ge hi_ge ;;
      simply (set_Reg Rd (halves lo_result hi_result)) in
    let carries (x : Z) := truth (Z.land x 0xFFFF0000) in
    let on_bytes (f : Z -> Z -> Z) (ge : Z -> bool) :=
      let v n := f (byte_at n rn) (byte_at n rm) in
      set_ge (ge (v 0)) (ge (v 1)) (ge (v 2)) (ge (v 3)) ;;
      simply (set_Reg Rd (halves (bytes2 (Z.land (v 0) 0xFF) (Z.land (v 1) 0xFF)) (bytes2 (Z.land (v 2) 0xFF) (Z.land (v 3) 0xFF)))) in
    if op2 =? 0x00 then
      let lo := rn_lo + rm_lo in let hi := rn_hi + rm_hi in on_halves lo hi (carries lo) (carries hi)
    else if op2 =? 0x01 then
      let lo := rn_lo - rm_hi in let hi := rn_hi + rm_lo in on_halves lo hi (0 <=? lo) (0x10000 <=? hi)
    else if op2 =? 0x02 then
      let lo := rn_lo + rm_hi in let hi := rn_hi - rm_lo in on_halves lo hi (0x10000 <=? lo) (0 <=? hi)
    else if op2 =? 0x03 then
      let lo := rn_lo - rm_lo in let hi := rn_hi - rm_hi in on_halves lo hi (negb (carries lo)) (negb (carries hi))
    else if op2 =? 0x04 then on_bytes Z.add (fun sum => 0x100 <=? sum)
    else if op2 =? 0x07 then on_bytes Z.sub (fun diff => 0 <=? diff)
    else simply (set_Reg Rd 0)).

(** [UHADD8_INST], [UHADD16_INST], [UHADDSUBX_INST], [UHSUBADDX_INST], [UHSUB8_INST], [UHSUB16_INST] *)
Definition UHADD8_INST (inst_base : arm_inst) : M next :=
  conditional inst_base sizeof_generic_arm_inst (
    let! generic_arm_inst Ra Rm Rn Rd op1 op2 := component inst_base in
    rm ← cpu_Reg Rm;
    rn ← cpu_Reg Rn;
    let rn_lo := lo_half rn in let rn_hi := hi_half rn in
    let rm_lo := lo_half rm in let rm_hi := hi_half rm in
    let on_halves lo_val hi_val := simply (set_Reg Rd (halves (Z.shiftr (u32 lo_val) 1) (Z.shiftr (u32 hi_val) 1))) in
    let on_bytes (f : Z -> Z -> Z) :=
      let v n := Z.shiftr (u32 (f (byte_at n rn) (byte_at n rm))) 1 in
      simply (set_Reg Rd (bytes4 (v 0) (v 1) (v 2) (v 3))) in
    if op2 =? 0x00 then on_halves (rn_lo + rm_lo) (rn_hi + rm_hi)
    else if op2 =? 0x01 then on_halves (rn_lo - rm_hi) (rn_hi + rm_lo)
    else if op2 =? 0x02 then on_halves (rn_lo + rm_hi) (rn_hi - rm_lo)
    else if op2 =? 0x03 then on_halves (rn_lo - rm_lo) (rn_hi - rm_hi)
    else if op2 =? 0x04 then on_bytes Z.add
    else if op2 =? 0x07 then on_bytes Z.sub
    else mret None).

(** [USAD8_INST] and [USADA8_INST] *)
Definition USADA8_INST (inst_base : arm_inst) : M next :=
  conditional inst_base sizeof_generic_arm_inst (
    let! generic_arm_inst Ra Rm Rn Rd op1 op2 := component inst_base in
    rm ← cpu_Reg Rm;
    rn ← cpu_Reg Rn;
    let diff n := ARMul_UnsignedAbsoluteDifference (byte_at n rn) (byte_at n rm) in
    let finalDif := diff 0 + diff 1 + diff 2 + diff 3 in
    finalDif ← (if negb (u8 Ra =? 15) then ra ← cpu_Reg (u8 Ra); mret (u32 (finalDif + ra)) else mret finalDif);
    simply (set_Reg Rd finalDif)).
