(* ===== verification/ArmSystem.v ===== *)
(** Branches, status registers, coprocessor 15 and instructions without effect
    (src/.../core/arm/dyncom/arm_dyncom_interpreter.cpp, the handlers of
    [InterpreterMainLoop]). *)

From S2P Require Import Prelude ArmSupp ArmState ArmOperands ArmTrans ArmData.

#[local] Abbreviation M := (Prelude.M ARMul_State).

(** ** Branches *)

Definition set_TFlag (t : Z) : M unit := modify (fun s => s <| TFlag := t |>).
(** The end of a branch that is not taken *)
Definition advance_dispatch : M next := add_pc ;; mret GOTO_DISPATCH.
Definition branch (inst_base : arm_inst) (body : M unit) : M next :=
  s ← get;
  if passes inst_base s then body ;; mret GOTO_DISPATCH else advance_dispatch.

Definition LINK_RTN_ADDR : M unit := pc ← cpu_Reg 15; set_Reg 14 (pc + 4).
Definition SET_PC (signed_immed_24 : Z) : M unit := pc ← cpu_Reg 15; set_Reg 15 (pc + 8 + signed_immed_24).
Definition BBL_INST (inst_base : arm_inst) : M next :=
  branch inst_base (
    let! bbl_inst L signed_immed_24 next_addr jmp_addr := component inst_base in
    (if truth L then LINK_RTN_ADDR else mret tt) ;;
    SET_PC signed_immed_24).
Definition BLX_INST (inst_base : arm_inst) : M next :=
  branch inst_base (
    let! blx_inst val inst := component inst_base in
    s ← get;
    pc ← cpu_Reg 15;
    if (BITS inst 20 27 =? 0x12) && (BITS inst 4 7 =? 0x3) then
      jump_address ← cpu_Reg val;
      let link := u32 (pc + GetInstructionSize s) in
      set_Reg 14 (if truth (TFlag s) then Z.lor link 0x1 else link) ;;
      set_Reg 15 (Z.land jump_address 0xfffffffe) ;;
      set_TFlag (Z.land jump_address 0x1)
    else
      set_Reg 14 (pc + GetInstructionSize s) ;;
      set_TFlag 0x1 ;;
      let signed_int := if truth (Z.land val 0x800000) then Z.lor 0x3F000000 val else val in
      let signed_int := s32 (Z.shiftl signed_int 2) in
      set_Reg 15 (pc + 8 + signed_int + Z.shiftl (BIT inst 24) 1)).
(** [BX_INST] and [BXJ_INST] *)
Definition BX_INST (inst_base : arm_inst) : M next :=
  branch inst_base (
    let! bx_inst Rm := component inst_base in
    address ← rn_val Rm;
    set_TFlag (Z.land address 1) ;;
    set_Reg 15 (Z.land address 0xfffffffe)).
Definition B_2_THUMB (inst_base : arm_inst) : M next :=
  let! b_2_thumb imm := component inst_base in
  pc ← cpu_Reg 15;
  set_Reg 15 (pc + 4 + imm) ;;
  mret GOTO_DISPATCH.
Definition B_COND_THUMB (inst_base : arm_inst) : M next :=
  let! b_cond_thumb imm cond := component inst_base in
  s ← get;
  pc ← cpu_Reg 15;
  set_Reg 15 (if CondPassed s cond then pc + 4 + imm else pc + 2) ;;
  mret GOTO_DISPATCH.
Definition BL_1_THUMB (inst_base : arm_inst) : M next :=
  let! bl_1_thumb imm := component inst_base in
  pc ← cpu_Reg 15;
  set_Reg 14 (pc + 4 + imm) ;;
  advance sizeof_bl_1_thumb.
Definition BL_2_THUMB (inst_base : arm_inst) : M next :=
  let! bl_2_thumb imm := component inst_base in
  pc ← cpu_Reg 15;
  lr ← cpu_Reg 14;
  set_Reg 15 (lr + imm) ;;
  set_Reg 14 (Z.lor (u32 (pc + 2)) 1) ;;
  mret GOTO_DISPATCH.
Definition BLX_1_THUMB (inst_base : arm_inst) : M next :=
  let! blx_1_thumb imm instr := component inst_base in
  tmp ← cpu_Reg 15;
  lr ← cpu_Reg 14;
  set_Reg 15 (Z.land (u32 (lr + imm)) 0xFFFFFFFC) ;;
  set_Reg 14 (Z.lor (u32 (tmp + 2)) 1) ;;
  set_TFlag 0 ;;
  mret GOTO_DISPATCH.

(** ** Status registers *)

Definition set_Cpsr (f : ARMul_State -> Z) : M unit := modify (fun s => s <| Cpsr := f s |>).
Definition CPS_INST (inst_base : arm_inst) : M next :=
  let! cps_inst imod0 imod1 mmod A I_ F mode := component inst_base in
  s ← get;
  (if InAPrivilegedMode s then
     (if truth imod1 then
        let bit (flag n v : Z) := if truth flag then Z.shiftl v n else 0 in
        let aif_val := Z.lor (Z.lor (bit A 8 imod0) (bit I_ 7 imod0)) (bit F 6 imod0) in
        let aif_mask := not32 (Z.lor (Z.lor (bit A 8 1) (bit I_ 7 1)) (bit F 6 1)) in
        set_Cpsr (fun s => Z.lor (Z.land (Cpsr s) aif_mask) aif_val)
      else mret tt) ;;
     (if truth mmod then
        set_Cpsr (fun s => Z.lor (Z.land (Cpsr s) 0xffffffe0) mode) ;;
        modify (ChangePrivilegeMode mode)
      else mret tt)
   else mret tt) ;;
  advance sizeof_cps_inst.
Definition MRS_INST (inst_base : arm_inst) : M next :=
  conditional inst_base sizeof_mrs_inst (
    let! mrs_inst R Rd := component inst_base in
    if truth R then s ← get; simply (set_Reg Rd (Spsr_copy s))
    else
      modify SAVE_NZCVT ;;
      s ← get;
      simply (set_Reg Rd (Cpsr s))).
Definition UserMask : Z := 0xf80f0200.
Definition PrivMask : Z := 0x000001df.
Definition StateMask : Z := 0x01000020.
(** The operand of MSR, and the bytes its fields select *)
Definition msr_operand (inst : Z) : M Z :=
  if truth (BIT inst 25) then mret (ROTATE_RIGHT_32 (BITS inst 0 7) (BITS inst 8 11 * 2)) else cpu_Reg (BITS inst 0 3).
Definition msr_byte_mask (inst : Z) : Z :=
  Z.lor (Z.lor (Z.lor (if truth (BIT inst 16) then 0xff else 0) (if truth (BIT inst 17) then 0xff00 else 0)) (if truth (BIT inst 18) then 0xff0000 else 0))
    (if truth (BIT inst 19) then 0xff000000 else 0).
Definition MSR_INST (inst_base : arm_inst) : M next :=
  conditional inst_base sizeof_msr_inst (
    let! msr_inst field_mask R inst := component inst_base in
    operand ← msr_operand inst;
    s ← get;
    let byte_mask := msr_byte_mask inst in
    if negb (truth R) then
      let mask :=
        if InAPrivilegedMode s then if truth (Z.land operand StateMask) then 0 else Z.land byte_mask (Z.lor UserMask PrivMask)
        else Z.land byte_mask UserMask in
      modify SAVE_NZCVT ;;
      set_Cpsr (fun s => Z.lor (Z.land (Cpsr s) (not32 mask)) (Z.land operand mask)) ;;
      modify (fun s => ChangePrivilegeMode (Z.land (Cpsr s) 0x1F) s) ;;
      simply (modify LOAD_NZCVT)
    else if CurrentModeHasSPSR s then
      let mask := Z.land byte_mask (Z.lor (Z.lor UserMask PrivMask) StateMask) in
      simply (modify (fun s => s <| Spsr_copy := Z.lor (Z.land (Spsr_copy s) (not32 mask)) (Z.land operand mask) |>))
    else mret None).
Definition SETEND_INST (inst_base : arm_inst) : M next :=
  let! setend_inst set_bigend := component inst_base in
  set_cpsr_bit 9 (set_bigend =? 1) ;;
  advance sizeof_setend_inst.

(** ** Coprocessors *)

Definition MCR_INST (inst_base : arm_inst) : M next :=
  conditional inst_base sizeof_mcr_inst (
    let! mcr_inst opcode_1 opcode_2 cp_num crn crm Rd inst := component inst_base in
    if Rd =? 15 then mret None
    else if cp_num =? 15 then
      rd ← cpu_Reg Rd;
      simply (modify (WriteCP15Register rd crn opcode_1 crm opcode_2))
    else mret None).
Definition MRC_INST (inst_base : arm_inst) : M next :=
  conditional inst_base sizeof_mrc_inst (
    let! mrc_inst opcode_1 opcode_2 cp_num crn crm Rd inst := component inst_base in
    if cp_num =? 15 then
      value ← gets (ReadCP15Register crn opcode_1 crm opcode_2);
      if Rd =? 15 then
        set_Cpsr (fun s => Z.lor (Z.land (Cpsr s) (not32 0xF0000000)) (Z.land value 0xF0000000)) ;;
        simply (modify LOAD_NZCVT)
      else simply (set_Reg Rd value)
    else mret None).
(** [MCRR_INST] and [MRRC_INST] *)
Definition MCRR_INST (inst_base : arm_inst) : M next := conditional inst_base sizeof_mcrr_inst (mret None).
Definition CDP_INST (inst_base : arm_inst) : M next :=
  conditional inst_base sizeof_cdp_inst (
    modify (fun s => s <| NumInstrsToExecute := 0 |>) ;;
    mret (Some RETURN)).
Definition LDC_INST (inst_base : arm_inst) : M next := advance sizeof_ldc_inst.
Definition STC_INST (inst_base : arm_inst) : M next := advance sizeof_stc_inst.

(** ** Instructions without effect *)

Definition BKPT_INST (inst_base : arm_inst) : M next := conditional inst_base sizeof_bkpt_inst (mret None).
Definition CLREX_INST (inst_base : arm_inst) : M next := modify UnsetExclusiveMemoryAddress ;; advance sizeof_clrex_inst.
Definition PLD_INST (inst_base : arm_inst) : M next := advance sizeof_pld_inst.
Definition NOP_INST (inst_base : arm_inst) : M next := advance 0.
(** [SEV_INST], [WFE_INST], [WFI_INST] and [YIELD_INST] *)
Definition SEV_INST (inst_base : arm_inst) : M next := conditional inst_base 0 (mret None).
