(* ===== verification/ArmMachine.v ===== *)
(** The processor with its memory: loads, stores, exclusive accesses and calls of the
    kernel (src/.../core/arm/skyeye_common/armstate.cpp, [ReadMemory8] to [WriteMemory64],
    and the handlers of src/.../core/arm/dyncom/arm_dyncom_interpreter.cpp). *)

From S2P Require Import Prelude MemoryMap Memory MemoryAccess ArmSupp ArmState ArmOperands ArmTrans.

(** [num_instrs] is the local variable of [InterpreterMainLoop]; [world] is the rest of the
    system, which calls of the kernel change. *)
Record Machine (D W : Type) := mkMachine {
  cpu : ARMul_State; memory : MemorySystem D; trans_cache : TransCache; num_instrs : Z; world : W }.
Arguments mkMachine {D W}. Arguments cpu {D W}. Arguments memory {D W}. Arguments trans_cache {D W}.
Arguments num_instrs {D W}. Arguments world {D W}.
#[export] Instance eta_Machine D W : Eta (Machine D W) := fun m => mkMachine (cpu m) (memory m) (trans_cache m) (num_instrs m) (world m).

(** What the interpreter calls outside: [SVCContext::CallSVC], which may change anything
    but the local variable, and the timer of the running core *)
Class Kernel (D W : Type) := {
  CallSVC : Z -> ARMul_State * MemorySystem D * TransCache * W -> outcome (ARMul_State * MemorySystem D * TransCache * W);
  AddTicks : Z -> W -> W;
  GetDowncount : W -> Z;
}.

Section Machine.
Context {D W : Type} `{Host} `{Devices D} `{Kernel D W}.
Abbreviation M := (Prelude.M (Machine D W)).
Implicit Types (m : Machine D W).

Definition on_cpu {A} (f : Prelude.M ARMul_State A) : M A := zoom cpu (fun s m => m <| cpu := s |>) f.
Definition on_memory {A} (f : Prelude.M (MemorySystem D) A) : M A := zoom memory (fun s m => m <| memory := s |>) f.
Definition on_cache {A} (f : Prelude.M TransCache A) : M A := zoom trans_cache (fun s m => m <| trans_cache := s |>) f.

(** ** Accesses

    [Common::swap16] and its like reverse the bytes. *)

Definition swap (n : nat) (data : Z) : Z := le_decode (rev (le_encode n data)).
Definition ReadMemory (n : nat) (address : Z) : M Z :=
  data ← on_memory (Read n address);
  s ← gets cpu;
  mret (if InBigEndianMode s then swap n data else data).
Definition WriteMemory (n : nat) (address data : Z) : M unit :=
  s ← gets cpu;
  on_memory (Write n address (if InBigEndianMode s then swap n data else data)).
Definition ReadMemory8 (address : Z) : M Z := on_memory (Read8 address).
Definition ReadMemory16 : Z -> M Z := ReadMemory 2.
Definition ReadMemory32 : Z -> M Z := ReadMemory 4.
Definition ReadMemory64 : Z -> M Z := ReadMemory 8.
Definition WriteMemory8 (address data : Z) : M unit := on_memory (Write8 address (u8 data)).
Definition WriteMemory16 (address data : Z) : M unit := WriteMemory 2 address (u16 data).
Definition WriteMemory32 (address data : Z) : M unit := WriteMemory 4 address (u32 data).
Definition WriteMemory64 (address data : Z) : M unit := WriteMemory 8 address (u64 data).

(** ** Handlers *)

Definition reg (i : Z) : M Z := on_cpu (cpu_Reg i).
Definition set_reg (i v : Z) : M unit := on_cpu (set_Reg i v).
Definition change (f : ARMul_State -> ARMul_State) : M unit := on_cpu (modify f).
Definition m_advance (l : Z) : M next := on_cpu (advance l).
Definition m_conditional (inst_base : arm_inst) (l : Z) (body : M (option next)) : M next :=
  s ← gets cpu;
  r ← (if passes inst_base s then body else mret None);
  match r with Some n => mret n | None => m_advance l end.
Definition m_simply (body : M unit) : M (option next) := body ;; mret None.

(** A single load or store: the body gets the instruction and the address. *)
Definition ldst (inst_base : arm_inst) (body : Z -> Z -> M unit) : M next :=
  m_conditional inst_base sizeof_ldst_inst (
    let! ldst_inst inst get_addr_ := component inst_base in
    addr ← on_cpu (get_addr get_addr_ inst);
    m_simply (body inst addr)).
Definition dest (inst : Z) : Z := BITS inst 12 15.

(** *** Loads *)

(** The body of LDR: whether the program counter was loaded *)
Definition load_word (inst : Z) (get_addr_ : option get_addr_fp_t) : M (option next) :=
  addr ← on_cpu (get_addr get_addr_ inst);
  value ← ReadMemory32 addr;
  set_reg (dest inst) value ;;
  if dest inst =? 15 then
    change (fun s => s <| TFlag := Z.land value 0x1 |>) ;;
    pc ← reg 15;
    set_reg 15 (Z.land pc 0xFFFFFFFE) ;;
    mret (Some GOTO_DISPATCH)
  else mret None.
Definition LDR_INST (inst_base : arm_inst) : M next :=
  let! ldst_inst inst get_addr_ := component inst_base in
  r ← load_word inst get_addr_;
  match r with Some n => mret n | None => m_advance sizeof_ldst_inst end.
Definition LDRCOND_INST (inst_base : arm_inst) : M next :=
  s ← gets cpu;
  r ← (if CondPassed s (cond inst_base) then
         let! ldst_inst inst get_addr_ := component inst_base in load_word inst get_addr_
       else mret None);
  match r with Some n => mret n | None => m_advance sizeof_ldst_inst end.
Definition LDRB_INST (inst_base : arm_inst) : M next :=
  ldst inst_base (fun inst addr => value ← ReadMemory8 addr; set_reg (dest inst) value).
Definition LDRH_INST (inst_base : arm_inst) : M next :=
  ldst inst_base (fun inst addr => value ← ReadMemory16 addr; set_reg (dest inst) value).
Definition LDRSB_INST (inst_base : arm_inst) : M next :=
  ldst inst_base (fun inst addr =>
    value ← ReadMemory8 addr;
    set_reg (dest inst) (if truth (BIT value 7) then Z.lor value 0xffffff00 else value)).
Definition LDRSH_INST (inst_base : arm_inst) : M next :=
  ldst inst_base (fun inst addr =>
    value ← ReadMemory16 addr;
    set_reg (dest inst) (if truth (BIT value 15) then Z.lor value 0xffff0000 else value)).
(** An access as user code makes it *)
Definition as_user {A} (access : M A) : M A :=
  s ← gets cpu;
  change (ChangePrivilegeMode USER32MODE) ;;
  r ← access;
  change (ChangePrivilegeMode (Mode s)) ;;
  mret r.
Definition LDRBT_INST (inst_base : arm_inst) : M next :=
  ldst inst_base (fun inst addr => value ← as_user (ReadMemory8 addr); set_reg (dest inst) value).
Definition LDRT_INST (inst_base : arm_inst) : M next :=
  ldst inst_base (fun inst addr => value ← as_user (ReadMemory32 addr); set_reg (dest inst) value).
(** [cpu->Reg[15] += 4] where others add the size of an instruction *)
Definition LDRD_INST (inst_base : arm_inst) : M next :=
  s ← gets cpu;
  (if passes inst_base s then
     let! ldst_inst inst get_addr_ := component inst_base in
     addr ← on_cpu (get_addr get_addr_ inst);
     lo ← ReadMemory32 addr;
     set_reg (dest inst) lo ;;
     hi ← ReadMemory32 (u32 (addr + 4));
     set_reg (dest inst + 1) hi
   else mret tt) ;;
  pc ← reg 15;
  set_reg 15 (pc + 4) ;;
  mret (FETCH_NEXT sizeof_ldst_inst).

(** [for (i : l) if (BIT(inst, i)) { f(i, addr); addr += 4; }], which gives the last [addr] *)
Fixpoint each_register (inst : Z) (f : Z -> Z -> M unit) (l : list Z) (addr : Z) : M Z :=
  match l with
  | [] => mret addr
  | i :: l => if truth (BIT inst i) then f i addr ;; each_register inst f l (u32 (addr + 4)) else each_register inst f l addr
  end.
Definition load_register (i addr : Z) : M unit := value ← ReadMemory32 addr; set_reg i value.
(** [cpu->Reg_usr[i - 13]], or the register of user mode where it is in use *)
Definition load_user_register (i addr : Z) : M unit :=
  value ← ReadMemory32 addr;
  s ← gets cpu;
  if Mode s =? USER32MODE then set_reg i value else change (fun s => s <| Reg_usr ::= <[Z.to_nat (i - 13) := u32 value]> |>).
Definition load_pc (addr : Z) : M unit :=
  ret ← ReadMemory32 addr;
  change (fun s => s <| TFlag := Z.land ret 0x1 |>) ;;
  set_reg 15 (Z.land ret 0xFFFFFFFE).
Definition LDM_INST (inst_base : arm_inst) : M next :=
  m_conditional inst_base sizeof_ldst_inst (
    let! ldst_inst inst get_addr_ := component inst_base in
    addr ← on_cpu (get_addr get_addr_ inst);
    let s_bit := truth (BIT inst 22) in
    let pc_bit := truth (BIT inst 15) in
    (if s_bit && negb pc_bit then
       addr ← each_register inst load_register (seqZ 0 13) addr;
       _ ← each_register inst load_user_register [13; 14] addr;
       mret tt
     else if negb s_bit then
       _ ← each_register inst (fun i => if i =? 15 then load_pc else load_register i) (seqZ 0 16) addr;
       mret tt
     else
       addr ← each_register inst load_register (seqZ 0 15) addr;
       on_cpu restore_cpsr ;;
       load_register 15 addr) ;;
    mret (if pc_bit then Some GOTO_DISPATCH else None)).

(** *** Stores *)

(** The register to store, where the program counter reads two instructions ahead *)
Definition stored (i : Z) : M Z := on_cpu (rn_val i).
Definition STR_INST (inst_base : arm_inst) : M next :=
  ldst inst_base (fun inst addr => value ← stored (dest inst); WriteMemory32 addr value).
Definition STRB_INST (inst_base : arm_inst) : M next :=
  ldst inst_base (fun inst addr => value ← reg (dest inst); WriteMemory8 addr (Z.land value 0xff)).
Definition STRH_INST (inst_base : arm_inst) : M next :=
  ldst inst_base (fun inst addr => value ← reg (dest inst); WriteMemory16 addr (Z.land value 0xffff)).
Definition STRBT_INST (inst_base : arm_inst) : M next :=
  ldst inst_base (fun inst addr => value ← reg (dest inst); as_user (WriteMemory8 addr (Z.land value 0xff))).
Definition STRT_INST (inst_base : arm_inst) : M next :=
  ldst inst_base (fun inst addr => value ← stored (dest inst); as_user (WriteMemory32 addr value)).
Definition STRD_INST (inst_base : arm_inst) : M next :=
  ldst inst_base (fun inst addr =>
    lo ← reg (dest inst);
    WriteMemory32 addr lo ;;
    hi ← reg (dest inst + 1);
    WriteMemory32 (u32 (addr + 4)) hi).
Definition store_register (i addr : Z) : M unit := value ← reg i; WriteMemory32 addr value.
Definition store_user_register (i addr : Z) : M unit :=
  s ← gets cpu;
  if Mode s =? USER32MODE then store_register i addr else WriteMemory32 addr (at_ (Reg_usr s) (Z.to_nat (i - 13))).
Definition store_pc (inst addr : Z) : M unit :=
  if truth (BIT inst 15) then pc ← reg 15; WriteMemory32 addr (pc + 8) else mret tt.
Definition STM_INST (inst_base : arm_inst) : M next :=
  m_conditional inst_base sizeof_ldst_inst (
    let! ldst_inst inst get_addr_ := component inst_base in
    let Rn := BITS inst 16 19 in
    old_RN ← reg Rn;
    addr ← on_cpu (get_addr get_addr_ inst);
    m_simply (
      if BIT inst 22 =? 1 then
        addr ← each_register inst store_register (seqZ 0 13) addr;
        addr ← each_register inst store_user_register [13; 14] addr;
        store_pc inst addr
      else
        addr ← each_register inst (fun i addr => if i =? Rn then WriteMemory32 addr old_RN else store_register i addr) (seqZ 0 15) addr;
        store_pc inst addr)).

(** *** Exclusive accesses and exchanges *)

Definition load_exclusive (inst_base : arm_inst) (read : Z -> Z -> M unit) : M next :=
  m_conditional inst_base sizeof_generic_arm_inst (
    let! generic_arm_inst Ra Rm Rn Rd op1 op2 := component inst_base in
    read_addr ← reg Rn;
    change (SetExclusiveMemoryAddress read_addr) ;;
    m_simply (read Rd read_addr)).
Definition LDREX_INST (inst_base : arm_inst) : M next :=
  load_exclusive inst_base (fun Rd addr => v ← ReadMemory32 addr; set_reg Rd v).
Definition LDREXB_INST (inst_base : arm_inst) : M next :=
  load_exclusive inst_base (fun Rd addr => v ← ReadMemory8 addr; set_reg Rd v).
Definition LDREXH_INST (inst_base : arm_inst) : M next :=
  load_exclusive inst_base (fun Rd addr => v ← ReadMemory16 addr; set_reg Rd v).
Definition LDREXD_INST (inst_base : arm_inst) : M next :=
  load_exclusive inst_base (fun Rd addr =>
    v ← ReadMemory32 addr;
    set_reg Rd v ;;
    v ← ReadMemory32 (u32 (addr + 4));
    set_reg (Rd + 1) v).
Definition store_exclusive (inst_base : arm_inst) (write : Z -> Z -> M unit) : M next :=
  m_conditional inst_base sizeof_generic_arm_inst (
    let! generic_arm_inst Ra Rm Rn Rd op1 op2 := component inst_base in
    write_addr ← reg Rn;
    s ← gets cpu;
    m_simply (
      if IsExclusiveMemoryAccess write_addr s then
        change UnsetExclusiveMemoryAddress ;;
        write Rm write_addr ;;
        set_reg Rd 0
      else set_reg Rd 1)).
Definition STREX_INST (inst_base : arm_inst) : M next :=
  store_exclusive inst_base (fun Rm addr => v ← reg Rm; WriteMemory32 addr v).
Definition STREXB_INST (inst_base : arm_inst) : M next :=
  store_exclusive inst_base (fun Rm addr => v ← reg Rm; WriteMemory8 addr v).
Definition STREXH_INST (inst_base : arm_inst) : M next :=
  store_exclusive inst_base (fun Rm addr => v ← reg Rm; WriteMemory16 addr v).
Definition STREXD_INST (inst_base : arm_inst) : M next :=
  store_exclusive inst_base (fun Rm addr =>
    rt ← reg Rm;
    rt2 ← reg (Rm + 1);
    s ← gets cpu;
    WriteMemory64 addr (if InBigEndianMode s then Z.lor (Z.shiftl rt 32) rt2 else Z.lor (Z.shiftl rt2 32) rt)).
Definition SWP_INST (inst_base : arm_inst) : M next :=
  m_conditional inst_base sizeof_swp_inst (
    let! swp_inst Rn Rd Rm := component inst_base in
    addr ← reg Rn;
    value ← ReadMemory32 addr;
    rm ← reg Rm;
    WriteMemory32 addr rm ;;
    m_simply (set_reg Rd value)).
Definition SWPB_INST (inst_base : arm_inst) : M next :=
  m_conditional inst_base sizeof_swp_inst (
    let! swp_inst Rn Rd Rm := component inst_base in
    addr ← reg Rn;
    value ← ReadMemory8 addr;
    rm ← reg Rm;
    WriteMemory8 addr (Z.land rm 0xFF) ;;
    m_simply (set_reg Rd value)).

(** *** Exceptions *)

Definition RFE_INST (inst_base : arm_inst) : M next :=
  let! ldst_inst inst get_addr_ := component inst_base in
  address ← on_cpu (get_addr get_addr_ inst);
  v ← ReadMemory32 address;
  change (fun s => s <| Cpsr := u32 v |>) ;;
  v ← ReadMemory32 (u32 (address + 4));
  set_reg 15 v ;;
  mret GOTO_DISPATCH.
Definition SRS_INST (inst_base : arm_inst) : M next :=
  let! ldst_inst inst get_addr_ := component inst_base in
  address ← on_cpu (get_addr get_addr_ inst);
  lr ← reg 14;
  WriteMemory32 address lr ;;
  s ← gets cpu;
  WriteMemory32 (u32 (address + 4)) (Spsr_copy s) ;;
  m_advance sizeof_ldst_inst.
Definition call_kernel (num : Z) : M unit := fun m =>
  match CallSVC num (cpu m, memory m, trans_cache m, world m) with
  | Ret (c, mem, t, w) => Ret (tt, mkMachine c mem t (num_instrs m) w)
  | Crash f => Crash f
  end.
Definition SWI_INST (inst_base : arm_inst) : M next :=
  m_conditional inst_base sizeof_swi_inst (
    let! swi_inst num := component inst_base in
    m ← get;
    let n := num_instrs m in
    modify (fun m => m <| world ::= AddTicks n |>) ;;
    change (fun s => s <| NumInstrsToExecute ::= fun t => if t <=? n then 0 else t - n |>) ;;
    modify (fun m => m <| num_instrs := 0 |>) ;;
    call_kernel (Z.land num 0xFFFF) ;;
    m_simply (change UnsetExclusiveMemoryAddress)).
End Machine.
