(* ===== verification/VfpHelper.v ===== *)
(** Floating-point numbers as the emulator computes with them: registers, the status word,
    128-bit arithmetic, unpacked numbers (src/.../core/arm/skyeye_common/vfp/vfp_helper.h,
    vfp.cpp, asm_vfp.h). *)

From S2P Require Import Prelude ArmSupp ArmState.

#[local] Abbreviation M := (Prelude.M ARMul_State).

(** ** The status word FPSCR *)

Definition FPSCR_NFLAG : Z := Z.shiftl 1 31.
Definition FPSCR_ZFLAG : Z := Z.shiftl 1 30.
Definition FPSCR_CFLAG : Z := Z.shiftl 1 29.
Definition FPSCR_VFLAG : Z := Z.shiftl 1 28.
Definition FPSCR_DEFAULT_NAN : Z := Z.shiftl 1 25.
Definition FPSCR_FLUSH_TO_ZERO : Z := Z.shiftl 1 24.
Definition FPSCR_RMODE_MASK : Z := Z.shiftl 3 22.
Definition FPSCR_STRIDE_MASK : Z := Z.shiftl 3 20.
Definition FPSCR_LENGTH_MASK : Z := Z.shiftl 7 16.
Definition FPSCR_IDC : Z := Z.shiftl 1 7.
Definition FPSCR_IXC : Z := Z.shiftl 1 4.
Definition FPSCR_UFC : Z := Z.shiftl 1 3.
Definition FPSCR_OFC : Z := Z.shiftl 1 2.
Definition FPSCR_DZC : Z := Z.shiftl 1 1.
Definition FPSCR_IOC : Z := Z.shiftl 1 0.
Definition FPSCR_LENGTH_BIT : Z := 16.
Definition FPSCR_ROUND_NEAREST : Z := Z.shiftl 0 22.
Definition FPSCR_ROUND_PLUSINF : Z := Z.shiftl 1 22.
Definition FPSCR_ROUND_MINUSINF : Z := Z.shiftl 2 22.
Definition FPSCR_ROUND_TOZERO : Z := Z.shiftl 3 22.

(** A flag of the operations that is not one of the status word, and the value that
    [vfp_raise_exceptions] takes for an operation nobody handled *)
Definition VFP_NAN_FLAG : Z := 0x100.
Definition VFP_EXCEPTION_ERROR : Z := Z.land (u32 (-1)) (not32 VFP_NAN_FLAG).

(** ** Registers *)

(** [state->ExtReg[n]] *)
Definition ext_reg (n : Z) : M Z := s ← get; deref (ExtReg s !! Z.to_nat n).
Definition set_ext_reg (n v : Z) : M unit :=
  s ← get;
  _ ← deref (ExtReg s !! Z.to_nat n);
  modify (fun s => s <| ExtReg ::= <[Z.to_nat n := u32 v]> |>).
Definition vfp_get_float (reg : Z) : M Z := v ← ext_reg reg; mret (s32 v).
Definition vfp_put_float (val reg : Z) : M unit := set_ext_reg reg val.
Definition vfp_get_double (reg : Z) : M Z :=
  hi ← ext_reg (reg * 2 + 1);
  lo ← ext_reg (reg * 2);
  mret (Z.lor (Z.shiftl hi 32) lo).
Definition vfp_put_double (val reg : Z) : M unit :=
  set_ext_reg (reg * 2) (Z.land val 0xffffffff) ;;
  set_ext_reg (reg * 2 + 1) (Z.shiftr val 32).

(** [state->VFP[r] = v] *)
Definition set_vfp (r : nat) (v : Z) (s : ARMul_State) : ARMul_State := s <| VFP ::= <[r := v]> |>.
(** [Crash()] ends the program. *)
Definition vfp_raise_exceptions (exceptions inst fpscr : Z) : M unit :=
  if exceptions =? VFP_EXCEPTION_ERROR then crash AssertFailed
  else
    let flags := Z.lor (Z.lor FPSCR_NFLAG FPSCR_ZFLAG) (Z.lor FPSCR_CFLAG FPSCR_VFLAG) in
    let fpscr := if truth (Z.land exceptions flags) then Z.land fpscr (not32 flags) else fpscr in
    modify (set_vfp VFP_FPSCR (Z.lor fpscr exceptions)).

(** ** Shifts and products *)

Definition vfp_shiftright32jamming (val shift : Z) : Z :=
  if truth shift then
    if shift <? 32 then Z.lor (Z.shiftr val shift) (if truth (u32 (Z.shiftl val (32 - shift))) then 1 else 0)
    else if truth val then 1 else 0
  else val.
Definition vfp_shiftright64jamming (val shift : Z) : Z :=
  if truth shift then
    if shift <? 64 then Z.lor (Z.shiftr val shift) (if truth (u64 (Z.shiftl val (64 - shift))) then 1 else 0)
    else if truth val then 1 else 0
  else val.
Definition vfp_hi64to32jamming (val : Z) : Z :=
  let highval := Z.shiftr val 32 in
  let lowval := Z.land val 0xffffffff in
  if 1 <=? lowval then Z.lor highval 1 else highval.

(** 128-bit numbers: the high and the low half *)
Definition add128 (nh nl mh ml : Z) : Z * Z :=
  let resl := u64 (nl + ml) in
  let resh := u64 (nh + mh) in
  (if resl <? nl then u64 (resh + 1) else resh, resl).
Definition sub128 (nh nl mh ml : Z) : Z * Z :=
  let resl := u64 (nl - ml) in
  let resh := u64 (nh - mh) in
  (if nl <? resl then u64 (resh - 1) else resh, resl).
Definition mul64to128 (n m : Z) : Z * Z :=
  let nl := u32 n in
  let ml := u32 m in
  let rl := u64 (nl * ml) in
  let nh := u32 (Z.shiftr n 32) in
  let rma := u64 (nh * ml) in
  let mh := u32 (Z.shiftr m 32) in
  let rmb := u64 (nl * mh) in
  let rma := u64 (rma + rmb) in
  let rh := u64 (nh * mh) in
  let rh := u64 (rh + (u64 (Z.shiftl (if rma <? rmb then 1 else 0) 32) + Z.shiftr rma 32)) in
  let rma := u64 (Z.shiftl rma 32) in
  let rl := u64 (rl + rma) in
  (u64 (rh + (if rl <? rma then 1 else 0)), rl).
Definition shift64left (n : Z) : Z * Z := (Z.shiftr n 63, u64 (Z.shiftl n 1)).
Definition vfp_hi64multiply64 (n m : Z) : Z :=
  let '(rh, rl) := mul64to128 n m in Z.lor rh (if truth rl then 1 else 0).

(** The first loop of [vfp_estimate_div128to64] *)
Fixpoint estimate_loop (fuel : nat) (z remh reml mh ml : Z) : M (Z * Z * Z) :=
  match fuel with
  | O => crash OutOfFuel
  | S fuel =>
      if s64 remh <? 0 then
        let '(remh, reml) := add128 remh reml mh ml in
        estimate_loop fuel (u64 (z - 0x100000000)) remh reml mh ml
      else mret (z, remh, reml)
  end.
Definition vfp_estimate_div128to64 (nh nl m : Z) : M Z :=
  if m <=? nh then mret (u64 (-1))
  else
    let mh := Z.shiftr m 32 in
    let z := if u64 (Z.shiftl mh 32) <=? nh then 0xffffffff00000000 else u64 (Z.shiftl (nh / mh) 32) in
    let '(termh, terml) := mul64to128 m z in
    let '(remh, reml) := sub128 nh nl termh terml in
    let ml := u64 (Z.shiftl m 32) in
    '(z, remh, reml) ← estimate_loop 5 z remh reml mh ml;
    let remh := Z.lor (u64 (Z.shiftl remh 32)) (Z.shiftr reml 32) in
    mret (if u64 (Z.shiftl mh 32) <=? remh then Z.lor z 0xffffffff else Z.lor z (remh / mh)).

(** The position of the highest bit, from 1; 0 when there is none *)
Definition fls (x : Z) : Z :=
  if x =? 0 then 0
  else
    let '(x, r) := (x, 32) in
    let '(x, r) := if Z.land x 0xffff0000 =? 0 then (u32 (Z.shiftl x 16), r - 16) else (x, r) in
    let '(x, r) := if Z.land x 0xff000000 =? 0 then (u32 (Z.shiftl x 8), r - 8) else (x, r) in
    let '(x, r) := if Z.land x 0xf0000000 =? 0 then (u32 (Z.shiftl x 4), r - 4) else (x, r) in
    let '(x, r) := if Z.land x 0xc0000000 =? 0 then (u32 (Z.shiftl x 2), r - 2) else (x, r) in
    let '(x, r) := if Z.land x 0x80000000 =? 0 then (u32 (Z.shiftl x 1), r - 1) else (x, r) in
    r.

(** ** Unpacked numbers

    [struct vfp_single] and [struct vfp_double]: [s16 exponent], [u16 sign] and
    [significand], a [u32] or a [u64]. *)

Record vfp_number := mk_number { exponent : Z; sign : Z; significand : Z }.
#[export] Instance eta_number : Eta vfp_number := fun v => mk_number (exponent v) (sign v) (significand v).
Definition vfp_single : Type := vfp_number.
Definition vfp_double : Type := vfp_number.
Definition vfp_sign_negate (sign : Z) : Z := Z.lxor sign 0x8000.

Definition VFP_NUMBER : Z := Z.shiftl 1 0.
Definition VFP_ZERO : Z := Z.shiftl 1 1.
Definition VFP_DENORMAL : Z := Z.shiftl 1 2.
Definition VFP_INFINITY : Z := Z.shiftl 1 3.
Definition VFP_NAN : Z := Z.shiftl 1 4.
Definition VFP_NAN_SIGNAL : Z := Z.shiftl 1 5.
Definition VFP_QNAN : Z := VFP_NAN.
Definition VFP_SNAN : Z := Z.lor VFP_NAN VFP_NAN_SIGNAL.

(** *** Single precision *)

Definition VFP_SINGLE_MANTISSA_BITS : Z := 23.
Definition VFP_SINGLE_EXPONENT_BITS : Z := 8.
Definition VFP_SINGLE_LOW_BITS : Z := 32 - VFP_SINGLE_MANTISSA_BITS - 2.
Definition VFP_SINGLE_LOW_BITS_MASK : Z := Z.shiftl 1 VFP_SINGLE_LOW_BITS - 1.
Definition VFP_SINGLE_SIGNIFICAND_QNAN : Z := Z.shiftl 1 (VFP_SINGLE_MANTISSA_BITS - 1 + VFP_SINGLE_LOW_BITS).
Definition vfp_single_packed_sign (v : Z) : Z := Z.land v 0x80000000.
Definition vfp_single_packed_negate (v : Z) : Z := Z.lxor (u32 v) 0x80000000.
Definition vfp_single_packed_abs (v : Z) : Z := Z.land v (not32 0x80000000).
Definition vfp_single_packed_exponent (v : Z) : Z :=
  Z.land (Z.shiftr v VFP_SINGLE_MANTISSA_BITS) (Z.shiftl 1 VFP_SINGLE_EXPONENT_BITS - 1).
Definition vfp_single_packed_mantissa (v : Z) : Z := Z.land v (Z.shiftl 1 VFP_SINGLE_MANTISSA_BITS - 1).

Definition vfp_single_type (s : vfp_single) : Z :=
  if exponent s =? 255 then
    if significand s =? 0 then VFP_INFINITY
    else if truth (Z.land (significand s) VFP_SINGLE_SIGNIFICAND_QNAN) then VFP_QNAN
    else VFP_SNAN
  else if exponent s =? 0 then
    if significand s =? 0 then Z.lor VFP_NUMBER VFP_ZERO else Z.lor VFP_NUMBER VFP_DENORMAL
  else VFP_NUMBER.
(** The number and the exceptions *)
Definition vfp_single_unpack (val fpscr : Z) : vfp_single * Z :=
  let sign := Z.shiftr (vfp_single_packed_sign val) 16 in
  let exponent := vfp_single_packed_exponent val in
  let significand := Z.shiftr (u32 (Z.shiftl (u32 val) (32 - VFP_SINGLE_MANTISSA_BITS))) 2 in
  let significand := if truth exponent && negb (exponent =? 255) then Z.lor significand 0x40000000 else significand in
  let s := mk_number exponent sign significand in
  if truth (Z.land fpscr FPSCR_FLUSH_TO_ZERO) && truth (Z.land (vfp_single_type s) VFP_DENORMAL) then (mk_number 0 0 0, FPSCR_IDC)
  else (s, 0).
Definition vfp_single_pack (s : vfp_single) : Z :=
  s32 (Z.shiftl (sign s) 16 + Z.shiftl (exponent s) VFP_SINGLE_MANTISSA_BITS + Z.shiftr (significand s) VFP_SINGLE_LOW_BITS).

(** *** Double precision *)

Definition VFP_DOUBLE_MANTISSA_BITS : Z := 52.
Definition VFP_DOUBLE_EXPONENT_BITS : Z := 11.
Definition VFP_DOUBLE_LOW_BITS : Z := 64 - VFP_DOUBLE_MANTISSA_BITS - 2.
Definition VFP_DOUBLE_LOW_BITS_MASK : Z := Z.shiftl 1 VFP_DOUBLE_LOW_BITS - 1.
Definition VFP_DOUBLE_SIGNIFICAND_QNAN : Z := Z.shiftl 1 (VFP_DOUBLE_MANTISSA_BITS - 1 + VFP_DOUBLE_LOW_BITS).
Definition vfp_double_packed_sign (v : Z) : Z := Z.land v (Z.shiftl 1 63).
Definition vfp_double_packed_negate (v : Z) : Z := Z.lxor (u64 v) (Z.shiftl 1 63).
Definition vfp_double_packed_abs (v : Z) : Z := Z.land v (Z.shiftl 1 63 - 1).
Definition vfp_double_packed_exponent (v : Z) : Z :=
  Z.land (Z.shiftr v VFP_DOUBLE_MANTISSA_BITS) (Z.shiftl 1 VFP_DOUBLE_EXPONENT_BITS - 1).
Definition vfp_double_packed_mantissa (v : Z) : Z := Z.land v (Z.shiftl 1 VFP_DOUBLE_MANTISSA_BITS - 1).

Definition vfp_double_type (s : vfp_double) : Z :=
  if exponent s =? 2047 then
    if significand s =? 0 then VFP_INFINITY
    else if truth (Z.land (significand s) VFP_DOUBLE_SIGNIFICAND_QNAN) then VFP_QNAN
    else VFP_SNAN
  else if exponent s =? 0 then
    if significand s =? 0 then Z.lor VFP_NUMBER VFP_ZERO else Z.lor VFP_NUMBER VFP_DENORMAL
  else VFP_NUMBER.
Definition vfp_double_unpack (val fpscr : Z) : vfp_double * Z :=
  let sign := Z.shiftr (vfp_double_packed_sign val) 48 in
  let exponent := vfp_double_packed_exponent val in
  let significand := Z.shiftr (u64 (Z.shiftl (u64 val) (64 - VFP_DOUBLE_MANTISSA_BITS))) 2 in
  let significand := if truth exponent && negb (exponent =? 2047) then Z.lor significand (Z.shiftl 1 62) else significand in
  let s := mk_number exponent sign significand in
  if truth (Z.land fpscr FPSCR_FLUSH_TO_ZERO) && truth (Z.land (vfp_double_type s) VFP_DENORMAL) then (mk_number 0 0 0, FPSCR_IDC)
  else (s, 0).
Definition vfp_double_pack (s : vfp_double) : Z :=
  s64 (Z.shiftl (sign s) 48 + Z.shiftl (exponent s) VFP_DOUBLE_MANTISSA_BITS + Z.shiftr (significand s) VFP_DOUBLE_LOW_BITS).

(** ** Instructions *)

Definition FOP_MASK : Z := 0x00b00040.
Definition FOP_EXT : Z := 0x00b00040.
Definition FOP_TO_IDX (inst : Z) : Z := Z.lor (Z.shiftr (Z.land inst 0x00b00000) 20) (Z.shiftr (Z.land inst (Z.shiftl 1 6)) 4).
Definition FEXT_TO_IDX (inst : Z) : Z := Z.lor (Z.shiftr (Z.land inst 0x000f0000) 15) (Z.shiftr (Z.land inst (Z.shiftl 1 7)) 7).
Definition vfp_get_sd (inst : Z) : Z := Z.lor (Z.shiftr (Z.land inst 0x0000f000) 11) (Z.shiftr (Z.land inst (Z.shiftl 1 22)) 22).
Definition vfp_get_dd (inst : Z) : Z := Z.lor (Z.shiftr (Z.land inst 0x0000f000) 12) (Z.shiftr (Z.land inst (Z.shiftl 1 22)) 18).
Definition vfp_get_sm (inst : Z) : Z := Z.lor (Z.shiftl (Z.land inst 0x0000000f) 1) (Z.shiftr (Z.land inst (Z.shiftl 1 5)) 5).
Definition vfp_get_dm (inst : Z) : Z := Z.lor (Z.land inst 0x0000000f) (Z.shiftr (Z.land inst (Z.shiftl 1 5)) 1).
Definition vfp_get_sn (inst : Z) : Z := Z.lor (Z.shiftr (Z.land inst 0x000f0000) 15) (Z.shiftr (Z.land inst (Z.shiftl 1 7)) 7).
Definition vfp_get_dn (inst : Z) : Z := Z.lor (Z.shiftr (Z.land inst 0x000f0000) 16) (Z.shiftr (Z.land inst (Z.shiftl 1 7)) 3).

Definition OP_SCALAR : Z := Z.shiftl 1 0.
Definition OP_SD : Z := Z.shiftl 1 1.
Definition OP_DD : Z := Z.shiftl 1 1.
Definition OP_SM : Z := Z.shiftl 1 2.
(** An operation: destination, first operand, second operand (a value or a register),
    status word *)
Record op := mk_op { fn : option (Z -> Z -> Z -> Z -> M Z); flags : Z }.
Definition no_op : op := mk_op None 0.
Definition NEG_MULTIPLY : Z := Z.shiftl 1 0.
Definition NEG_SUBTRACT : Z := Z.shiftl 1 1.
