(* ===== verification/VfpPack.v ===== *)
(** Normalising, rounding and packing the results of operations
    (src/.../core/arm/skyeye_common/vfp/vfpsingle.cpp and vfpdouble.cpp). *)

From S2P Require Import Prelude ArmSupp ArmState VfpHelper.

#[local] Abbreviation M := (Prelude.M ARMul_State).
Implicit Types (vs vd : vfp_number).

(** ** Single precision *)

Definition vfp_single_normalise_denormal vs : vfp_single :=
  let bits := 31 - fls (significand vs) in
  if truth bits then vs <| exponent := s16 (exponent vs - (bits - 1)) |> <| significand := u32 (Z.shiftl (significand vs) bits) |> else vs.

(** [vfp_single_normaliseround] up to the label [pack]: the number and the exceptions *)
Definition single_rounded vs (fpscr exceptions : Z) : vfp_single * Z :=
  if (exponent vs =? 255) && ((significand vs =? 0) || truth exceptions) then (vs, exceptions)
  else if significand vs =? 0 then (vs <| exponent := 0 |>, exceptions)
  else
    (* normalise *)
    let shift := 32 - fls (significand vs) in
    let '(exponent_, significand_) :=
      if (shift <? 32) && truth shift then (exponent vs - shift, u32 (Z.shiftl (significand vs) shift)) else (exponent vs, significand vs) in
    let vs := vs <| exponent := s16 exponent_ |> <| significand := significand_ |> in
    (* tiny number? *)
    let underflow := exponent_ <? 0 in
    let '(exponent_, significand_, vs, underflow, exceptions) :=
      if underflow then
        let significand_ := vfp_shiftright32jamming significand_ (- exponent_) in
        let vs := vs <| exponent := 0 |> <| significand := significand_ |> in
        let underflow := truth (Z.land significand_ (Z.shiftl 1 (VFP_SINGLE_LOW_BITS + 1) - 1)) in
        if truth (Z.land (vfp_single_type vs) VFP_DENORMAL) && truth (Z.land fpscr FPSCR_FLUSH_TO_ZERO) then
          (0, 0, vs <| sign := 0 |> <| significand := 0 |>, false, Z.lor exceptions FPSCR_UFC)
        else (0, significand_, vs, underflow, exceptions)
      else (exponent_, significand_, vs, underflow, exceptions) in
    (* select rounding increment *)
    let rmode := Z.land fpscr FPSCR_RMODE_MASK in
    let incr :=
      if rmode =? FPSCR_ROUND_NEAREST then
        if Z.land significand_ (Z.shiftl 1 (VFP_SINGLE_LOW_BITS + 1)) =? 0 then Z.shiftl 1 VFP_SINGLE_LOW_BITS - 1 else Z.shiftl 1 VFP_SINGLE_LOW_BITS
      else if rmode =? FPSCR_ROUND_TOZERO then 0
      else if xorb (rmode =? FPSCR_ROUND_PLUSINF) (truth (sign vs)) then Z.shiftl 1 (VFP_SINGLE_LOW_BITS + 1) - 1
      else 0 in
    (* is our rounding going to overflow? *)
    let '(exponent_, significand_, incr) :=
      if u32 (significand_ + incr) <? significand_ then (exponent_ + 1, Z.lor (Z.shiftr significand_ 1) (Z.land significand_ 1), Z.shiftr incr 1)
      else (exponent_, significand_, incr) in
    let exceptions := if truth (Z.land significand_ (Z.shiftl 1 (VFP_SINGLE_LOW_BITS + 1) - 1)) then Z.lor exceptions FPSCR_IXC else exceptions in
    let significand_ := u32 (significand_ + incr) in
    (* infinity? *)
    if 254 <=? exponent_ then
      let exceptions := Z.lor exceptions (Z.lor FPSCR_OFC FPSCR_IXC) in
      if incr =? 0 then (vs <| exponent := 253 |> <| significand := 0x7fffffff |>, exceptions)
      else (vs <| exponent := 255 |> <| significand := 0 |>, exceptions)
    else
      let exponent_ := if Z.shiftr significand_ (VFP_SINGLE_LOW_BITS + 1) =? 0 then 0 else exponent_ in
      let underflow := if truth exponent_ || (0x80000000 <? significand_) then false else underflow in
      let exceptions := if underflow then Z.lor exceptions FPSCR_UFC else exceptions in
      (vs <| exponent := s16 exponent_ |> <| significand := Z.shiftr significand_ 1 |>, exceptions).
Definition vfp_single_normaliseround (sd : Z) vs (fpscr exceptions : Z) : M Z :=
  let '(vs, exceptions) := single_rounded vs fpscr exceptions in
  vfp_put_float (vfp_single_pack vs) sd ;;
  mret exceptions.

(** ** Double precision *)

Definition vfp_double_normalise_denormal vd : vfp_double :=
  let bits := 31 - fls (u32 (Z.shiftr (significand vd) 32)) in
  let bits := if bits =? 31 then 63 - fls (u32 (significand vd)) else bits in
  if truth bits then vd <| exponent := s16 (exponent vd - (bits - 1)) |> <| significand := u64 (Z.shiftl (significand vd) bits) |> else vd.

(** [vfp_double_normaliseround] up to the label [pack]: the number and the exceptions *)
Definition double_rounded vd (fpscr exceptions : Z) : vfp_double * Z :=
  if (exponent vd =? 2047) && ((significand vd =? 0) || truth exceptions) then (vd, exceptions)
  else if significand vd =? 0 then (vd <| exponent := 0 |>, exceptions)
  else
    (* normalise *)
    let shift := 32 - fls (u32 (Z.shiftr (significand vd) 32)) in
    let shift := if shift =? 32 then 64 - fls (u32 (significand vd)) else shift in
    let '(exponent_, significand_) :=
      if truth shift then (exponent vd - shift, u64 (Z.shiftl (significand vd) shift)) else (exponent vd, significand vd) in
    let vd := vd <| exponent := s16 exponent_ |> <| significand := significand_ |> in
    (* tiny number? *)
    let underflow := exponent_ <? 0 in
    let '(exponent_, significand_, vd, underflow, exceptions) :=
      if underflow then
        let significand_ := vfp_shiftright64jamming significand_ (- exponent_) in
        let vd := vd <| exponent := 0 |> <| significand := significand_ |> in
        let underflow := truth (Z.land significand_ (Z.shiftl 1 (VFP_DOUBLE_LOW_BITS + 1) - 1)) in
        if truth (Z.land (vfp_double_type vd) VFP_DENORMAL) && truth (Z.land fpscr FPSCR_FLUSH_TO_ZERO) then
          (0, 0, vd <| sign := 0 |> <| significand := 0 |>, false, Z.lor exceptions FPSCR_UFC)
        else (0, significand_, vd, underflow, exceptions)
      else (exponent_, significand_, vd, underflow, exceptions) in
    (* select rounding increment *)
    let rmode := Z.land fpscr FPSCR_RMODE_MASK in
    let incr :=
      if rmode =? FPSCR_ROUND_NEAREST then
        if Z.land significand_ (Z.shiftl 1 (VFP_DOUBLE_LOW_BITS + 1)) =? 0 then Z.shiftl 1 VFP_DOUBLE_LOW_BITS - 1 else Z.shiftl 1 VFP_DOUBLE_LOW_BITS
      else if rmode =? FPSCR_ROUND_TOZERO then 0
      else if xorb (rmode =? FPSCR_ROUND_PLUSINF) (truth (sign vd)) then Z.shiftl 1 (VFP_DOUBLE_LOW_BITS + 1) - 1
      else 0 in
    (* is our rounding going to overflow? *)
    let '(exponent_, significand_, incr) :=
      if u64 (significand_ + incr) <? significand_ then (exponent_ + 1, Z.lor (Z.shiftr significand_ 1) (Z.land significand_ 1), Z.shiftr incr 1)
      else (exponent_, significand_, incr) in
    let exceptions := if truth (Z.land significand_ (Z.shiftl 1 (VFP_DOUBLE_LOW_BITS + 1) - 1)) then Z.lor exceptions FPSCR_IXC else exceptions in
    let significand_ := u64 (significand_ + incr) in
    (* infinity? *)
    if 2046 <=? exponent_ then
      let exceptions := Z.lor exceptions (Z.lor FPSCR_OFC FPSCR_IXC) in
      if incr =? 0 then (vd <| exponent := 2045 |> <| significand := 0x7fffffffffffffff |>, exceptions)
      else (vd <| exponent := 2047 |> <| significand := 0 |>, exceptions)
    else
      let exponent_ := if Z.shiftr significand_ (VFP_DOUBLE_LOW_BITS + 1) =? 0 then 0 else exponent_ in
      let underflow := if truth exponent_ || (0x8000000000000000 <? significand_) then false else underflow in
      let exceptions := if underflow then Z.lor exceptions FPSCR_UFC else exceptions in
      (vd <| exponent := s16 exponent_ |> <| significand := Z.shiftr significand_ 1 |>, exceptions).
Definition vfp_double_normaliseround (dd : Z) vd (fpscr exceptions : Z) : M Z :=
  let '(vd, exceptions) := double_rounded vd fpscr exceptions in
  vfp_put_double (u64 (vfp_double_pack vd)) dd ;;
  mret exceptions.

(** * Bits of significands

    The arithmetic of vfp_helper.h: shifts that keep a sticky bit, the position of the highest
    bit, and 128-bit numbers. *)

(** ** Shifts with a sticky bit *)

(** [v / 2^n], with the lowest bit set where a bit was lost *)
Definition jam (v n : Z) : Z := if v mod 2 ^ n =? 0 then v / 2 ^ n else Z.lor (v / 2 ^ n) 1.

Lemma lor_1 x : Z.lor x 1 = 2 * (x / 2) + 1.
Proof.
  apply Z.bits_inj'. intros i Hi. rewrite Z.lor_spec. destruct (Z.eq_dec i 0) as [->|Hn].
  - change (Z.testbit 1 0) with true. by rewrite orb_true_r, Z.testbit_odd_0.
  - replace i with (Z.succ (i - 1)) by lia. rewrite Z.testbit_odd_succ by lia.
    change (x / 2) with (x / 2 ^ 1). rewrite Z.div_pow2_bits by lia. replace (Z.succ (i - 1)) with (i - 1 + 1) by lia.
    change 1 with (2 ^ 0) at 3. rewrite Z.pow2_bits_false by lia. apply orb_false_r.
Qed.
Lemma jam_cases v n : 0 <= n -> (v mod 2 ^ n = 0 /\ jam v n = v / 2 ^ n) \/ (0 < v mod 2 ^ n /\ jam v n = 2 * (v / 2 ^ n / 2) + 1).
Proof.
  intros Hn. unfold jam. pose proof (Z.mod_pos_bound v (2 ^ n) ltac:(lia)). case_bool; [by left|]. right. split; [lia|apply lor_1].
Qed.
Lemma div_lt_iff v P k : 0 < P -> v / P < k <-> v < k * P.
Proof.
  intros HP. split; intros H; [|apply Z.div_lt_upper_bound; lia]. pose proof (Z.div_mod v P ltac:(lia)). pose proof (Z.mod_pos_bound v P HP).
  assert (P * (v / P) <= P * (k - 1)) by (apply Z.mul_le_mono_nonneg_l; lia). lia.
Qed.
(** The shifted number is on the same side of every even number as the exact quotient. *)
Lemma jam_lt v n c : 0 <= n -> jam v n < 2 * c <-> v < 2 * c * 2 ^ n.
Proof.
  intros Hn. pose proof (Z.pow_pos_nonneg 2 n ltac:(lia) Hn) as Hp. rewrite <- (div_lt_iff v (2 ^ n)) by done.
  destruct (jam_cases v n Hn) as [[Hm ->]|[Hm ->]]; [lia|]. generalize (v / 2 ^ n). intros q. Z.to_euclidean_division_equations. lia.
Qed.
Lemma lt_jam v n c : 0 <= n -> 2 * c < jam v n <-> 2 * c * 2 ^ n < v.
Proof.
  intros Hn. pose proof (Z.pow_pos_nonneg 2 n ltac:(lia) Hn) as Hp. pose proof (div_lt_iff v (2 ^ n) (2 * c) Hp) as Hl.
  pose proof (div_lt_iff v (2 ^ n) (2 * c + 1) Hp) as Hl'. pose proof (Z.div_mod v (2 ^ n) ltac:(lia)) as Hd.
  destruct (jam_cases v n Hn) as [[Hm ->]|[Hm ->]].
  - rewrite Hm, Z.add_0_r in Hd. clear Hl Hl' Hm. set (q := v / 2 ^ n) in *. clearbody q. subst v. rewrite (Z.mul_comm (2 ^ n)). by apply Z.mul_lt_mono_pos_r.
  - assert (Hq : 2 * c < 2 * (v / 2 ^ n / 2) + 1 <-> 2 * c <= v / 2 ^ n) by (generalize (v / 2 ^ n); intros q; Z.to_euclidean_division_equations; lia).
    rewrite Hq. assert (v <> 2 * c * 2 ^ n) by (intros ->; rewrite Z.mod_mul in Hm by lia; lia).
    rewrite <- Z.nlt_ge, Hl. lia.
Qed.
Lemma jam_0 v : jam v 0 = v.
Proof. unfold jam. by rewrite Z.mod_1_r, Z.div_1_r. Qed.
Lemma jam_nonneg v n : 0 <= n -> 0 <= v -> 0 <= jam v n.
Proof.
  intros Hn Hv. pose proof (Z.pow_pos_nonneg 2 n ltac:(lia) Hn). pose proof (Z.div_pos v (2 ^ n) Hv ltac:(lia)) as Hq.
  pose proof (Z.div_pos _ 2 Hq ltac:(lia)). destruct (jam_cases v n Hn) as [[_ ->]|[_ ->]]; lia.
Qed.
Lemma jam_far v n w : 0 <= v < 2 ^ w -> 0 <= w <= n -> jam v n = if v =? 0 then 0 else 1.
Proof.
  intros Hv Hn. pose proof (Z.pow_le_mono_r 2 w n ltac:(lia) ltac:(lia)). unfold jam. rewrite Z.mod_small, Z.div_small by lia. by destruct (v =? 0).
Qed.
(** The bits that are lost, moved to the top *)
Lemma lost_bits v n w : 0 <= n <= w -> truth ((v * 2 ^ (w - n)) mod 2 ^ w) = negb (v mod 2 ^ n =? 0).
Proof.
  intros Hn. replace (2 ^ w) with (2 ^ n * 2 ^ (w - n)) by (rewrite <- Z.pow_add_r by lia; f_equal; lia).
  pose proof (Z.pow_pos_nonneg 2 (w - n) ltac:(lia) ltac:(lia)). pose proof (Z.pow_pos_nonneg 2 n ltac:(lia) ltac:(lia)).
  rewrite Z.mul_mod_distr_r by lia. unfold truth. f_equal. repeat case_bool; (done || nia).
Qed.
Lemma shiftright_jam val n w : 0 <= n < w -> Z.lor (Z.shiftr val n) (if truth ((Z.shiftl val (w - n)) mod 2 ^ w) then 1 else 0) = jam val n.
Proof.
  intros Hn. rewrite Z.shiftl_mul_pow2, Z.shiftr_div_pow2, lost_bits by lia. unfold jam. destruct (val mod 2 ^ n =? 0); [apply Z.lor_0_r|done].
Qed.
Lemma shiftright32_jam val n : is_u32 val -> 0 <= n -> vfp_shiftright32jamming val n = jam val n.
Proof.
  intros Hv Hn. unfold vfp_shiftright32jamming. unfold truth at 1. destruct (Z.eqb_spec n 0) as [->|Hz]; cbn [negb].
  - by rewrite jam_0.
  - case_bool; [by apply (shiftright_jam val n 32)|]. rewrite (jam_far val n 32) by (unfold is_u32 in Hv; lia). unfold truth. by destruct (val =? 0).
Qed.
Lemma shiftright64_jam val n : is_u64 val -> 0 <= n -> vfp_shiftright64jamming val n = jam val n.
Proof.
  intros Hv Hn. unfold vfp_shiftright64jamming. unfold truth at 1. destruct (Z.eqb_spec n 0) as [->|Hz]; cbn [negb].
  - by rewrite jam_0.
  - case_bool; [by apply (shiftright_jam val n 64)|]. rewrite (jam_far val n 64) by (unfold is_u64 in Hv; lia). unfold truth. by destruct (val =? 0).
Qed.
Lemma hi64to32_jam val : vfp_hi64to32jamming val = jam val 32.
Proof.
  unfold vfp_hi64to32jamming, jam. rewrite Z.shiftr_div_pow2 by lia. change 0xffffffff with (Z.ones 32). rewrite Z.land_ones by lia.
  pose proof (Z.mod_pos_bound val (2 ^ 32) ltac:(lia)). repeat case_bool; (done || lia).
Qed.

(** ** The highest bit *)

Lemma land_top x k : 0 <= x < 2 ^ 32 -> 0 <= k <= 32 -> (Z.land x (Z.shiftl (Z.ones k) (32 - k)) =? 0) = (x <? 2 ^ (32 - k)).
Proof.
  intros Hx Hk. assert (E : Z.land x (Z.shiftl (Z.ones k) (32 - k)) = x / 2 ^ (32 - k) * 2 ^ (32 - k)).
  { rewrite <- Z.shiftl_mul_pow2, <- Z.shiftr_div_pow2 by lia. apply Z.bits_inj'. intros i Hi. rewrite Z.land_spec, !Z.shiftl_spec by lia.
    destruct (Z.lt_ge_cases i (32 - k)); [by rewrite !(Z.testbit_neg_r _ (i - (32 - k))), andb_false_r by lia|].
    rewrite Z.shiftr_spec by lia. replace (i - (32 - k) + (32 - k)) with i by lia. destruct (Z.lt_ge_cases i 32).
    - rewrite Z.ones_spec_low by lia. apply andb_true_r.
    - rewrite (proj1 (Z.bounded_iff_bits_nonneg 32 x ltac:(lia) ltac:(lia))) by lia. done. }
  rewrite E. pose proof (Z.pow_pos_nonneg 2 (32 - k) ltac:(lia) ltac:(lia)) as Hp. pose proof (div_lt_iff x _ 1 Hp). pose proof (Z.div_pos x _ ltac:(lia) Hp).
  repeat case_bool; (done || nia).
Qed.
(** One step: the number is moved up by [k] when its top [k] bits are clear. *)
Lemma fls_step x k r : 2 ^ (32 - 2 * k) <= x < 2 ^ 32 -> 0 < k <= 16 ->
  exists y r', (if Z.land x (Z.shiftl (Z.ones k) (32 - k)) =? 0 then (u32 (Z.shiftl x k), r - k) else (x, r)) = (y, r') /\
    2 ^ (32 - k) <= y < 2 ^ 32 /\ r' <= r /\ y = x * 2 ^ (r - r').
Proof.
  intros Hx Hk. pose proof (Z.pow_pos_nonneg 2 (32 - 2 * k) ltac:(lia) ltac:(lia)). rewrite land_top by lia. case_bool.
  - assert (Hb : 2 ^ (32 - k) <= x * 2 ^ k < 2 ^ 32).
    { assert (E1 : 2 ^ (32 - k) = 2 ^ (32 - 2 * k) * 2 ^ k) by (rewrite <- Z.pow_add_r by lia; f_equal; lia).
      assert (E2 : 2 ^ 32 = 2 ^ (32 - k) * 2 ^ k) by (rewrite <- Z.pow_add_r by lia; f_equal; lia).
      split; [rewrite E1; apply Z.mul_le_mono_nonneg_r; lia|]. rewrite E2. apply Z.mul_lt_mono_pos_r; lia. }
    exists (x * 2 ^ k), (r - k). rewrite Z.shiftl_mul_pow2 by lia. unfold u32. rewrite Z.mod_small by lia.
    split_and!; [done|lia|lia|lia|]. by replace (r - (r - k)) with k by lia.
  - exists x, r. split_and!; [done|lia|lia|lia|]. by rewrite Z.sub_diag, Z.mul_1_r.
Qed.
Lemma fls_spec x : 0 < x < 2 ^ 32 -> 1 <= fls x <= 32 /\ 2 ^ 31 <= x * 2 ^ (32 - fls x) < 2 ^ 32.
Proof.
  intros Hx. unfold fls. rewrite (proj2 (Z.eqb_neq x 0)) by lia.
  change 0xffff0000 with (Z.shiftl (Z.ones 16) (32 - 16)). change 0xff000000 with (Z.shiftl (Z.ones 8) (32 - 8)).
  change 0xf0000000 with (Z.shiftl (Z.ones 4) (32 - 4)). change 0xc0000000 with (Z.shiftl (Z.ones 2) (32 - 2)).
  change 0x80000000 with (Z.shiftl (Z.ones 1) (32 - 1)).
  destruct (fls_step x 16 32) as (x1 & r1 & -> & B1 & L1 & E1); [lia..|].
  destruct (fls_step x1 8 r1) as (x2 & r2 & -> & B2 & L2 & E2); [lia..|].
  destruct (fls_step x2 4 r2) as (x3 & r3 & -> & B3 & L3 & E3); [lia..|].
  destruct (fls_step x3 2 r3) as (x4 & r4 & -> & B4 & L4 & E4); [lia..|].
  destruct (fls_step x4 1 r4) as (x5 & r5 & -> & B5 & L5 & E5); [lia..|].
  assert (E : x5 = x * 2 ^ (32 - r5)).
  { rewrite E5, E4, E3, E2, E1, <- !Z.mul_assoc, <- !Z.pow_add_r by lia. do 2 f_equal. lia. }
  rewrite <- E. split; [|lia]. split; [|lia]. destruct (Z.lt_ge_cases r5 1); [|lia]. exfalso.
  pose proof (Z.pow_le_mono_r 2 32 (32 - r5) ltac:(lia) ltac:(lia)). assert (1 * 2 ^ (32 - r5) <= x * 2 ^ (32 - r5)) by (apply Z.mul_le_mono_nonneg_r; lia). lia.
Qed.
(** The two ways the code uses it: the shift that makes a significand normal *)
Lemma norm_shift32 x : is_u32 x -> x <> 0 -> 0 <= 32 - fls x < 32 /\ 2 ^ 31 <= x * 2 ^ (32 - fls x) < 2 ^ 32.
Proof. intros Hx Hn. unfold is_u32 in Hx. destruct (fls_spec x ltac:(lia)) as [Hr Hb]. split; [lia|exact Hb]. Qed.
Lemma norm_shift64 x : is_u64 x -> x <> 0 ->
  let shift := 32 - fls (u32 (Z.shiftr x 32)) in
  let shift := if shift =? 32 then 64 - fls (u32 x) else shift in
  0 <= shift < 64 /\ 2 ^ 63 <= x * 2 ^ shift < 2 ^ 64.
Proof.
  intros Hx Hn. unfold is_u64 in Hx. cbv zeta. rewrite Z.shiftr_div_pow2 by lia.
  assert (Hq : 0 <= x / 2 ^ 32 < 2 ^ 32) by (split; [apply Z.div_pos; lia|apply Z.div_lt_upper_bound; lia]).
  pose proof (Z.div_mod x (2 ^ 32) ltac:(lia)) as Hd. pose proof (Z.mod_pos_bound x (2 ^ 32) ltac:(lia)).
  unfold u32. change 4294967296 with (2 ^ 32). rewrite (Z.mod_small (x / 2 ^ 32)) by lia. destruct (Z.eq_dec (x / 2 ^ 32) 0) as [Ez|Ez].
  - rewrite Ez in *. change (32 - fls 0 =? 32) with true. cbv iota. rewrite Z.mod_small by lia.
    destruct (fls_spec x ltac:(lia)) as [Hr Hb]. split; [lia|].
    replace (64 - fls x) with (32 - fls x + 32) by lia. rewrite Z.pow_add_r by lia. lia.
  - pose proof (fls_spec (x / 2 ^ 32) ltac:(lia)) as [Hr Hb]. rewrite (proj2 (Z.eqb_neq _ 32)) by lia. split; [lia|].
    assert (Hk : 0 <= 32 - fls (x / 2 ^ 32) <= 32) by lia. set (k := 32 - fls (x / 2 ^ 32)) in *. clearbody k. set (h := x / 2 ^ 32) in *. clearbody h.
    pose proof (Z.pow_pos_nonneg 2 k ltac:(lia) ltac:(lia)) as Hp.
    assert (E : 2 ^ 32 = 2 ^ (32 - k) * 2 ^ k) by (rewrite <- Z.pow_add_r by lia; f_equal; lia).
    assert (h < 2 ^ (32 - k)) by (apply (Z.mul_lt_mono_pos_r (2 ^ k)); lia).
    assert (x * 2 ^ k < 2 ^ 32 * 2 ^ (32 - k) * 2 ^ k) by (apply Z.mul_lt_mono_pos_r; nia).
    assert (2 ^ 32 * h * 2 ^ k <= x * 2 ^ k) by (apply Z.mul_le_mono_nonneg_r; lia).
    rewrite <- Z.mul_assoc, <- E in *. lia.
Qed.

(** ** 128-bit numbers *)

Definition value128 (p : Z * Z) : Z := fst p * 2 ^ 64 + snd p.
Definition is_128 (p : Z * Z) (v : Z) : Prop := is_u64 (fst p) /\ is_u64 (snd p) /\ value128 p = v.
Lemma add128_spec nh nl mh ml : is_u64 nh -> is_u64 nl -> is_u64 mh -> is_u64 ml ->
  is_128 (add128 nh nl mh ml) ((value128 (nh, nl) + value128 (mh, ml)) mod 2 ^ 128).
Proof.
  intros H1' H2' H3' H4'. unfold add128, is_128, value128. cbn [fst snd]. case_bool; unfold u64, is_u64 in *; split_and!.
  all: Z.to_euclidean_division_equations; lia.
Qed.
Lemma sub128_spec nh nl mh ml : is_u64 nh -> is_u64 nl -> is_u64 mh -> is_u64 ml ->
  is_128 (sub128 nh nl mh ml) ((value128 (nh, nl) - value128 (mh, ml)) mod 2 ^ 128).
Proof.
  intros H1' H2' H3' H4'. unfold sub128, is_128, value128. cbn [fst snd]. case_bool; unfold u64, is_u64 in *; split_and!.
  all: Z.to_euclidean_division_equations; lia.
Qed.
Lemma product_bound a b : 0 <= a < 2 ^ 32 -> 0 <= b < 2 ^ 32 -> 0 <= a * b <= (2 ^ 32 - 1) * (2 ^ 32 - 1).
Proof. intros Ha Hb. split; [lia|]. apply Z.mul_le_mono_nonneg; lia. Qed.
Lemma mul64to128_spec n m : is_u64 n -> is_u64 m -> is_128 (mul64to128 n m) (n * m).
Proof.
  intros Hn Hm. unfold mul64to128. rewrite !Z.shiftr_div_pow2 by lia. unfold is_u64 in Hn, Hm.
  assert (exists nh nl, n = 2 ^ 32 * nh + nl /\ n / 2 ^ 32 = nh /\ u32 n = nl /\ 0 <= nl < 2 ^ 32 /\ 0 <= nh < 2 ^ 32) as (nh & nl & En & -> & -> & Hnl & Hnh).
  { exists (n / 2 ^ 32), (n mod 2 ^ 32). unfold u32. Z.to_euclidean_division_equations. lia. }
  assert (exists mh ml, m = 2 ^ 32 * mh + ml /\ m / 2 ^ 32 = mh /\ u32 m = ml /\ 0 <= ml < 2 ^ 32 /\ 0 <= mh < 2 ^ 32) as (mh & ml & Em & -> & -> & Hml & Hmh).
  { exists (m / 2 ^ 32), (m mod 2 ^ 32). unfold u32. Z.to_euclidean_division_equations. lia. }
  rewrite (u32_small nh), (u32_small mh) by (unfold is_u32; lia).
  replace (n * m) with (nh * mh * 2 ^ 64 + (nh * ml + nl * mh) * 2 ^ 32 + nl * ml) by (subst; ring).
  pose proof (product_bound nl ml Hnl Hml). pose proof (product_bound nh ml Hnh Hml). pose proof (product_bound nl mh Hnl Hmh). pose proof (product_bound nh mh Hnh Hmh).
  assert (Htop : nh * mh * 2 ^ 64 + (nh * ml + nl * mh) * 2 ^ 32 + nl * ml < 2 ^ 128).
  { replace (nh * mh * 2 ^ 64 + (nh * ml + nl * mh) * 2 ^ 32 + nl * ml) with (n * m) by (subst; ring).
    change (2 ^ 128) with (18446744073709551616 * 18446744073709551616). apply Z.mul_lt_mono_nonneg; lia. }
  generalize dependent (nl * ml). generalize dependent (nh * ml). generalize dependent (nl * mh). generalize dependent (nh * mh).
  clear. intros hh Hhh lh Hlh hl Hhl ll Hll Htop. rewrite (u64_small ll), (u64_small hl), (u64_small lh), (u64_small hh) by (unfold is_u64; lia).
  set (S := u64 (hl + lh)). assert (HS : (S <? lh) = (2 ^ 64 <=? hl + lh)) by (subst S; unfold u64; repeat case_bool; Z.to_euclidean_division_equations; lia).
  rewrite HS. assert (ES : S = hl + lh - (if 2 ^ 64 <=? hl + lh then 2 ^ 64 else 0)) by (subst S; unfold u64; case_bool; Z.to_euclidean_division_equations; lia).
  clearbody S. clear HS. set (T := u64 (Z.shiftl S 32)). rewrite !Z.shiftl_mul_pow2 in * by lia.
  assert (ET : T = 2 ^ 32 * (S mod 2 ^ 32)) by (subst T; rewrite Z.shiftl_mul_pow2 by lia; unfold u64; Z.to_euclidean_division_equations; lia). clearbody T.
  unfold is_128, value128. cbn [fst snd].
  assert (HL : (u64 (ll + T) <? T) = (2 ^ 64 <=? ll + T)).
  { unfold u64. repeat case_bool; Z.to_euclidean_division_equations; lia. }
  rewrite HL. clear HL. unfold u64, is_u64. case_bool; case_bool; split_and!; Z.to_euclidean_division_equations; lia.
Qed.
