(* ===== verification/VfpSingle.v ===== *)
(** Operations on single-precision numbers
    (src/.../core/arm/skyeye_common/vfp/vfpsingle.cpp). *)

From S2P Require Import Prelude ArmSupp ArmState VfpHelper VfpPack.

#[local] Abbreviation M := (Prelude.M ARMul_State).
Implicit Types (vs vsd vsn vsm vsp : vfp_single).

Definition vfp_single_default_qnan : vfp_single := mk_number 255 0 VFP_SINGLE_SIGNIFICAND_QNAN.

(** The operand that is a NaN, made quiet, and the exceptions; [None] is the null pointer. *)
Definition vfp_propagate_nan vsn (vsm : option vfp_single) (fpscr : Z) : M (vfp_single * Z) :=
  let tn := vfp_single_type vsn in
  let tm := match vsm with Some vsm => vfp_single_type vsm | None => 0 end in
  nan ← (
    if truth (Z.land fpscr FPSCR_DEFAULT_NAN) then mret vfp_single_default_qnan
    else
      nan ← (if (tn =? VFP_SNAN) || (negb (tm =? VFP_SNAN) && (tn =? VFP_QNAN)) then mret vsn else deref vsm);
      mret (nan <| significand ::= fun x => Z.lor x VFP_SINGLE_SIGNIFICAND_QNAN |>));
  mret (nan, if (tn =? VFP_SNAN) || (tm =? VFP_SNAN) then FPSCR_IOC else VFP_NAN_FLAG).

(** ** Extended operations: destination, first operand (not used), second operand, status *)

Definition vfp_single_fabs (sd unused m fpscr : Z) : M Z := vfp_put_float (vfp_single_packed_abs m) sd ;; mret 0.
Definition vfp_single_fcpy (sd unused m fpscr : Z) : M Z := vfp_put_float m sd ;; mret 0.
Definition vfp_single_fneg (sd unused m fpscr : Z) : M Z := vfp_put_float (vfp_single_packed_negate m) sd ;; mret 0.

Definition sqrt_oddadjust : list Z := [
  0x0004; 0x0022; 0x005d; 0x00b1; 0x011d; 0x019f; 0x0236; 0x02e0;
  0x039c; 0x0468; 0x0545; 0x0631; 0x072b; 0x0832; 0x0946; 0x0a67].
Definition sqrt_evenadjust : list Z := [
  0x0a2d; 0x08af; 0x075a; 0x0629; 0x051a; 0x0429; 0x0356; 0x029e;
  0x0200; 0x0179; 0x0109; 0x00af; 0x0068; 0x0034; 0x0012; 0x0002].
(** A division by zero is undefined behaviour. *)
Definition divide (a b : Z) : M Z := if b =? 0 then crash UndefinedBehaviour else mret (a / b).
(** The final estimate *)
Definition sqrt_step (a z : Z) : M Z :=
  v ← divide (u64 (Z.shiftl a 31)) z;
  mret (u32 (v + Z.shiftr z 1)).
Definition vfp_estimate_sqrt_significand (exponent significand : Z) : M Z :=
  let a := u32 (Z.shiftl significand 1) in
  let index := Z.to_nat (Z.land (Z.shiftr a 27) 15) in
  if truth (Z.land exponent 1) then
    let z := u32 (0x4000 + Z.shiftr a 17 - at_ sqrt_oddadjust index) in
    q ← divide a z;
    let z := u32 (Z.shiftl q 14 + Z.shiftl z 15) in
    sqrt_step (Z.shiftr a 1) z
  else
    let z := u32 (0x8000 + Z.shiftr a 17 - at_ sqrt_evenadjust index) in
    q ← divide a z;
    let z := u32 (q + z) in
    let z := if 0x20000 <=? z then 0xffff8000 else u32 (Z.shiftl z 15) in
    if z <=? a then mret (u32 (Z.shiftr (s32 a) 1)) else sqrt_step a z.
(** [while (rem < 0)] *)
Fixpoint single_sqrt_loop (fuel : nat) (significand rem : Z) : M (Z * Z) :=
  match fuel with
  | O => crash OutOfFuel
  | S fuel =>
      if rem <? 0 then
        let significand := u32 (significand - 1) in
        single_sqrt_loop fuel significand (s64 (rem + Z.lor (u64 (Z.shiftl significand 1)) 1))
      else mret (significand, rem)
  end.
(** The root of a positive proper number, before rounding *)
Definition single_square_root vsm : M vfp_single :=
  e ← vfp_estimate_sqrt_significand (exponent vsm) (significand vsm);
  let vsd := mk_number (s16 (Z.shiftr (exponent vsm - 127) 1 + 127)) 0 (u32 (e + 2)) in
  if Z.land (significand vsd) VFP_SINGLE_LOW_BITS_MASK <=? 5 then
    if significand vsd <? 2 then mret (vsd <| significand := 0xffffffff |>)
    else
      let significand_m := u32 (Z.shiftl (significand vsm) (if Z.land (exponent vsm) 1 =? 0 then 1 else 0)) in
      let term := u64 (significand vsd * significand vsd) in
      let rem := s64 (u64 (Z.shiftl significand_m 32) - term) in
      '(sig, rem) ← single_sqrt_loop 8 (significand vsd) rem;
      mret (vsd <| significand := Z.lor sig (if truth rem then 1 else 0) |>)
  else mret vsd.
Definition vfp_single_fsqrt (sd unused m fpscr : Z) : M Z :=
  let '(vsm, exceptions) := vfp_single_unpack m fpscr in
  let tm := vfp_single_type vsm in
  let copy vsp ret := vfp_put_float (vfp_single_pack vsp) sd ;; mret ret in
  let sqrt_copy := copy vsm 0 in
  let sqrt_invalid := copy vfp_single_default_qnan FPSCR_IOC in
  if truth (Z.land tm (Z.lor VFP_NAN VFP_INFINITY)) then
    if truth (Z.land tm VFP_NAN) then '(vsp, ret) ← vfp_propagate_nan vsm None fpscr; copy vsp ret
    else if sign vsm =? 0 then sqrt_copy
    else sqrt_invalid
  else if truth (Z.land tm VFP_ZERO) then sqrt_copy
  else
    let vsm := if truth (Z.land tm VFP_DENORMAL) then vfp_single_normalise_denormal vsm else vsm in
    if truth (sign vsm) then sqrt_invalid
    else
      vsd ← single_square_root vsm;
      r ← vfp_single_normaliseround sd (vsd <| significand ::= fun x => vfp_shiftright32jamming x 1 |>) fpscr 0;
      mret (Z.lor exceptions r).

(** Equal := ZC, less than := N, greater than := C, unordered := CV *)
Definition single_is_nan (v : Z) : bool := (vfp_single_packed_exponent v =? 255) && truth (vfp_single_packed_mantissa v).
Definition nan_flags (signal_on_qnan : bool) (v : Z) : Z :=
  if single_is_nan v then
    Z.lor (Z.lor FPSCR_CFLAG FPSCR_VFLAG)
      (if signal_on_qnan || (Z.land (vfp_single_packed_mantissa v) (Z.shiftl 1 (VFP_SINGLE_MANTISSA_BITS - 1)) =? 0) then FPSCR_IOC else 0)
  else 0.
Definition single_compared (d m : Z) (signal_on_qnan : bool) : Z :=
  let ret := Z.lor (nan_flags signal_on_qnan m) (nan_flags signal_on_qnan d) in
  if ret =? 0 then
    if (d =? m) || (vfp_single_packed_abs (Z.lor d m) =? 0) then Z.lor FPSCR_ZFLAG FPSCR_CFLAG
    else if truth (vfp_single_packed_sign (Z.lxor d m)) then if truth (vfp_single_packed_sign d) then FPSCR_NFLAG else FPSCR_CFLAG
    else if xorb (truth (vfp_single_packed_sign d)) (d <? m) then FPSCR_NFLAG
    else if xorb (truth (vfp_single_packed_sign d)) (m <? d) then FPSCR_CFLAG
    else 0
  else ret.
Definition vfp_compare (sd : Z) (signal_on_qnan : bool) (m fpscr : Z) : M Z :=
  d ← vfp_get_float sd;
  mret (single_compared d m signal_on_qnan).
Definition vfp_single_fcmp (sd unused m fpscr : Z) : M Z := vfp_compare sd false m fpscr.
Definition vfp_single_fcmpe (sd unused m fpscr : Z) : M Z := vfp_compare sd true m fpscr.
Definition vfp_single_fcmpz (sd unused m fpscr : Z) : M Z := vfp_compare sd false 0 fpscr.
Definition vfp_single_fcmpez (sd unused m fpscr : Z) : M Z := vfp_compare sd true 0 fpscr.

(** ** Conversions *)

Definition vfp_single_fcvtd (dd unused m fpscr : Z) : M Z :=
  let '(vsm, exceptions) := vfp_single_unpack m fpscr in
  let tm := vfp_single_type vsm in
  let exceptions := if tm =? VFP_SNAN then Z.lor exceptions FPSCR_IOC else exceptions in
  let vsm := if truth (Z.land tm VFP_DENORMAL) then vfp_single_normalise_denormal vsm else vsm in
  let significand_ := Z.shiftl (significand vsm) 32 in
  if truth (Z.land tm (Z.lor VFP_INFINITY VFP_NAN)) then
    let significand_ := if tm =? VFP_QNAN then Z.lor significand_ VFP_DOUBLE_SIGNIFICAND_QNAN else significand_ in
    vfp_put_double (u64 (vfp_double_pack (mk_number 2047 (sign vsm) significand_))) dd ;;
    mret exceptions
  else
    let exponent_ := if truth (Z.land tm VFP_ZERO) then 0 else s16 (exponent vsm + (1023 - 127)) in
    vfp_double_normaliseround dd (mk_number exponent_ (sign vsm) significand_) fpscr exceptions.
Definition vfp_single_fuito (sd unused m fpscr : Z) : M Z :=
  vfp_single_normaliseround sd (mk_number (127 + 31 - 1) 0 (u32 m)) fpscr 0.
Definition vfp_single_fsito (sd unused m fpscr : Z) : M Z :=
  let sign_ := Z.shiftr (Z.land m 0x80000000) 16 in
  vfp_single_normaliseround sd (mk_number (127 + 31 - 1) sign_ (u32 (if truth sign_ then - m else m))) fpscr 0.

(** The increment of a conversion to an integer, as a fraction of [2^32] *)
Definition fraction_incr (rmode sign_ d : Z) : Z :=
  if rmode =? FPSCR_ROUND_NEAREST then if Z.land d 1 =? 0 then 0x80000000 - 1 else 0x80000000
  else if rmode =? FPSCR_ROUND_TOZERO then 0
  else if xorb (rmode =? FPSCR_ROUND_PLUSINF) (truth sign_) then 0xFFFFFFFF
  else 0.
(** The integer and the exceptions *)
Definition single_to_unsigned (vsm : vfp_single) (fpscr exceptions : Z) : Z * Z :=
  let rmode := Z.land fpscr FPSCR_RMODE_MASK in
  let tm := vfp_single_type vsm in
  let exceptions := if truth (Z.land tm VFP_DENORMAL) then Z.lor exceptions FPSCR_IDC else exceptions in
  let vsm := if truth (Z.land tm VFP_NAN) then vsm <| sign := 1 |> else vsm in
  let negative := truth (sign vsm) in
  if 127 + 32 <=? exponent vsm then (if negative then 0 else 0xffffffff, Z.lor exceptions FPSCR_IOC)
  else if 127 <=? exponent vsm then
    let shift := 127 + 31 - exponent vsm in
    let d := Z.shiftr (u32 (Z.shiftl (significand vsm) 1)) shift in
    let rem := if 0 <? shift then u32 (Z.shiftl (u32 (Z.shiftl (significand vsm) 1)) (32 - shift)) else 0 in
    let incr := fraction_incr rmode (sign vsm) d in
    let '(d, exceptions) :=
      if u32 (rem + incr) <? rem then if d <? 0xffffffff then (d + 1, exceptions) else (d, Z.lor exceptions FPSCR_IOC) else (d, exceptions) in
    if truth d && negative then (0, Z.lor exceptions FPSCR_IOC)
    else (d, if truth rem then Z.lor exceptions FPSCR_IXC else exceptions)
  else if truth (Z.lor (exponent vsm) (significand vsm)) then
    let invalid_or_inexact := Z.lor exceptions (if negative then FPSCR_IOC else FPSCR_IXC) in
    if rmode =? FPSCR_ROUND_NEAREST then
      if 126 <=? exponent vsm then (if negative then 0 else 1, invalid_or_inexact) else (0, Z.lor exceptions FPSCR_IXC)
    else if (rmode =? FPSCR_ROUND_PLUSINF) && negb negative then (1, Z.lor exceptions FPSCR_IXC)
    else if rmode =? FPSCR_ROUND_MINUSINF then (0, invalid_or_inexact)
    else (0, Z.lor exceptions FPSCR_IXC)
  else (0, exceptions).
Definition vfp_single_ftoui (sd unused m fpscr : Z) : M Z :=
  let '(vsm, exceptions) := vfp_single_unpack m fpscr in
  let '(d, exceptions) := single_to_unsigned vsm fpscr exceptions in
  vfp_put_float d sd ;;
  mret exceptions.
Definition toward_zero (fpscr : Z) : Z := Z.lor (Z.land fpscr (not32 FPSCR_RMODE_MASK)) FPSCR_ROUND_TOZERO.
Definition vfp_single_ftouiz (sd unused m fpscr : Z) : M Z := vfp_single_ftoui sd unused m (toward_zero fpscr).
Definition single_to_signed (vsm : vfp_single) (fpscr exceptions : Z) : Z * Z :=
  let rmode := Z.land fpscr FPSCR_RMODE_MASK in
  let tm := vfp_single_type vsm in
  let exceptions := if truth (Z.land tm VFP_DENORMAL) then Z.lor exceptions FPSCR_IDC else exceptions in
  let negative := truth (sign vsm) in
  if truth (Z.land tm VFP_NAN) then (0, Z.lor exceptions FPSCR_IOC)
  else if 127 + 31 <=? exponent vsm then (if negative then not32 0x7fffffff else 0x7fffffff, Z.lor exceptions FPSCR_IOC)
  else if 127 <=? exponent vsm then
    let shift := 127 + 31 - exponent vsm in
    let d := Z.shiftr (u32 (Z.shiftl (significand vsm) 1)) shift in
    let rem := u32 (Z.shiftl (u32 (Z.shiftl (significand vsm) 1)) (32 - shift)) in
    let incr := fraction_incr rmode (sign vsm) d in
    let d := if (u32 (rem + incr) <? rem) && (d <? 0xffffffff) then d + 1 else d in
    let largest := 0x7fffffff + (if negative then 1 else 0) in
    let '(d, exceptions) :=
      if largest <? d then (largest, Z.lor exceptions FPSCR_IOC)
      else (d, if truth rem then Z.lor exceptions FPSCR_IXC else exceptions) in
    (if negative then u32 (not32 d + 1) else d, exceptions)
  else if truth (Z.lor (exponent vsm) (significand vsm)) then
    let exceptions := Z.lor exceptions FPSCR_IXC in
    (if rmode =? FPSCR_ROUND_NEAREST then if 126 <=? exponent vsm then if negative then 0xffffffff else 1 else 0
     else if (rmode =? FPSCR_ROUND_PLUSINF) && negb negative then 1
     else if (rmode =? FPSCR_ROUND_MINUSINF) && negative then 0xffffffff
     else 0, exceptions)
  else (0, exceptions).
Definition vfp_single_ftosi (sd unused m fpscr : Z) : M Z :=
  let '(vsm, exceptions) := vfp_single_unpack m fpscr in
  let '(d, exceptions) := single_to_signed vsm fpscr exceptions in
  vfp_put_float (s32 d) sd ;;
  mret exceptions.
Definition vfp_single_ftosiz (sd unused m fpscr : Z) : M Z := vfp_single_ftosi sd unused m (toward_zero fpscr).

Module SingleExt.
Definition fops_ext : list op := [
  mk_op (Some vfp_single_fcpy) 0; mk_op (Some vfp_single_fabs) 0; mk_op (Some vfp_single_fneg) 0; mk_op (Some vfp_single_fsqrt) 0;
  no_op; no_op; no_op; no_op;
  mk_op (Some vfp_single_fcmp) OP_SCALAR; mk_op (Some vfp_single_fcmpe) OP_SCALAR;
  mk_op (Some vfp_single_fcmpz) OP_SCALAR; mk_op (Some vfp_single_fcmpez) OP_SCALAR;
  no_op; no_op; no_op; mk_op (Some vfp_single_fcvtd) (Z.lor OP_SCALAR OP_DD);
  mk_op (Some vfp_single_fuito) OP_SCALAR; mk_op (Some vfp_single_fsito) OP_SCALAR; no_op; no_op;
  no_op; no_op; no_op; no_op;
  mk_op (Some vfp_single_ftoui) OP_SCALAR; mk_op (Some vfp_single_ftouiz) OP_SCALAR;
  mk_op (Some vfp_single_ftosi) OP_SCALAR; mk_op (Some vfp_single_ftosiz) OP_SCALAR].
End SingleExt.

(** ** Standard operations *)

Definition vfp_single_fadd_nonnumber vsn vsm (fpscr : Z) : M (vfp_single * Z) :=
  let tn := vfp_single_type vsn in
  let tm := vfp_single_type vsm in
  if truth (Z.land (Z.land tn tm) VFP_INFINITY) then
    if truth (Z.lxor (sign vsn) (sign vsm)) then mret (vfp_single_default_qnan, FPSCR_IOC) else mret (vsn, 0)
  else if truth (Z.land tn VFP_INFINITY) && truth (Z.land tm VFP_NUMBER) then mret (vsn, 0)
  else vfp_propagate_nan vsn (Some vsm) fpscr.
(** The sum of two proper numbers, the first with the larger exponent *)
Definition single_sum vsn vsm (fpscr : Z) : vfp_single :=
  let exp_diff := u32 (exponent vsn - exponent vsm) in
  let m_sig := vfp_shiftright32jamming (significand vsm) exp_diff in
  if truth (Z.lxor (sign vsn) (sign vsm)) then
    let m_sig := u32 (significand vsn - m_sig) in
    if s32 m_sig <? 0 then vsn <| sign := vfp_sign_negate (sign vsn) |> <| significand := u32 (not32 m_sig + 1) |>
    else if m_sig =? 0 then vsn <| sign := if Z.land fpscr FPSCR_RMODE_MASK =? FPSCR_ROUND_MINUSINF then 0x8000 else 0 |> <| significand := m_sig |>
    else vsn <| significand := m_sig |>
  else vsn <| significand := u32 (significand vsn + m_sig) |>.
Definition vfp_single_add vsn vsm (fpscr : Z) : M (vfp_single * Z) :=
  let '(vsn, vsm) := if exponent vsn <? exponent vsm then (vsm, vsn) else (vsn, vsm) in
  if exponent vsn =? 255 then vfp_single_fadd_nonnumber vsn vsm fpscr
  else mret (single_sum vsn vsm fpscr, 0).
Definition vfp_single_multiply vsn vsm (fpscr : Z) : M (vfp_single * Z) :=
  let '(vsn, vsm) := if exponent vsn <? exponent vsm then (vsm, vsn) else (vsn, vsm) in
  let sign_ := Z.lxor (sign vsn) (sign vsm) in
  if exponent vsn =? 255 then
    if truth (significand vsn) || ((exponent vsm =? 255) && truth (significand vsm)) then vfp_propagate_nan vsn (Some vsm) fpscr
    else if u32 (Z.lor (exponent vsm) (significand vsm)) =? 0 then mret (vfp_single_default_qnan, FPSCR_IOC)
    else mret (mk_number (exponent vsn) sign_ 0, 0)
  else if u32 (Z.lor (exponent vsm) (significand vsm)) =? 0 then mret (mk_number 0 sign_ 0, 0)
  else
    mret (mk_number (s16 (exponent vsn + exponent vsm - 127 + 2)) sign_ (vfp_hi64to32jamming (u64 (significand vsn * significand vsm))), 0).

(** Unpacked, and normalised when it is a denormal *)
Definition single_operand (v fpscr : Z) : vfp_single * Z :=
  let '(vs, exceptions) := vfp_single_unpack v fpscr in
  (if (exponent vs =? 0) && truth (significand vs) then vfp_single_normalise_denormal vs else vs, exceptions).
Definition negate_if (b : bool) vs : vfp_single := if b then vs <| sign ::= vfp_sign_negate |> else vs.

Definition vfp_single_multiply_accumulate (sd sn m fpscr negate : Z) : M Z :=
  v ← vfp_get_float sn;
  let '(vsn, e1) := single_operand v fpscr in
  let '(vsm, e2) := single_operand m fpscr in
  '(vsp, e3) ← vfp_single_multiply vsn vsm fpscr;
  let vsp := negate_if (truth (Z.land negate NEG_MULTIPLY)) vsp in
  v ← vfp_get_float sd;
  let '(vsn, e4) := single_operand v fpscr in
  let vsn := negate_if (truth (Z.land negate NEG_SUBTRACT)) vsn in
  '(vsd, e5) ← vfp_single_add vsn vsp fpscr;
  vfp_single_normaliseround sd vsd fpscr (Z.lor (Z.lor (Z.lor (Z.lor e1 e2) e3) e4) e5).
Definition vfp_single_fmac (sd sn m fpscr : Z) : M Z := vfp_single_multiply_accumulate sd sn m fpscr 0.
Definition vfp_single_fnmac (sd sn m fpscr : Z) : M Z := vfp_single_multiply_accumulate sd sn m fpscr NEG_MULTIPLY.
Definition vfp_single_fmsc (sd sn m fpscr : Z) : M Z := vfp_single_multiply_accumulate sd sn m fpscr NEG_SUBTRACT.
Definition vfp_single_fnmsc (sd sn m fpscr : Z) : M Z := vfp_single_multiply_accumulate sd sn m fpscr (Z.lor NEG_SUBTRACT NEG_MULTIPLY).
Definition vfp_single_fmul (sd sn m fpscr : Z) : M Z :=
  n ← vfp_get_float sn;
  let '(vsn, e1) := single_operand n fpscr in
  let '(vsm, e2) := single_operand m fpscr in
  '(vsd, e3) ← vfp_single_multiply vsn vsm fpscr;
  vfp_single_normaliseround sd vsd fpscr (Z.lor (Z.lor e1 e2) e3).
Definition vfp_single_fnmul (sd sn m fpscr : Z) : M Z :=
  n ← vfp_get_float sn;
  let '(vsn, e1) := single_operand n fpscr in
  let '(vsm, e2) := single_operand m fpscr in
  '(vsd, e3) ← vfp_single_multiply vsn vsm fpscr;
  vfp_single_normaliseround sd (negate_if true vsd) fpscr (Z.lor (Z.lor e1 e2) e3).
Definition vfp_single_fadd (sd sn m fpscr : Z) : M Z :=
  n ← vfp_get_float sn;
  let '(vsn, e1) := single_operand n fpscr in
  let '(vsm, e2) := single_operand m fpscr in
  '(vsd, e3) ← vfp_single_add vsn vsm fpscr;
  vfp_single_normaliseround sd vsd fpscr (Z.lor (Z.lor e1 e2) e3).
Definition vfp_single_fsub (sd sn m fpscr : Z) : M Z :=
  let '(vsm, exceptions) := vfp_single_unpack m fpscr in
  let m := if truth (Z.land exceptions FPSCR_IDC) then vfp_single_pack vsm else m in
  let m := if m =? 0x7FC00000 then m else s32 (vfp_single_packed_negate m) in
  e ← vfp_single_fadd sd sn m fpscr;
  mret (Z.lor e exceptions).
(** The quotient of two proper numbers, before rounding *)
Definition single_quotient (sign_ : Z) vsn vsm : vfp_single :=
  let exponent_ := s16 (exponent vsn - exponent vsm + 127 - 1) in
  let significand_m := u32 (Z.shiftl (significand vsm) 1) in
  let '(significand_n, exponent_) :=
    if significand_m <=? u32 (2 * significand vsn) then (Z.shiftr (significand vsn) 1, s16 (exponent_ + 1)) else (significand vsn, exponent_) in
  let q := u32 (Z.shiftl significand_n 32 / significand_m) in
  let q := if Z.land q 0x3f =? 0 then Z.lor q (if u64 (significand_m * q) =? Z.shiftl significand_n 32 then 0 else 1) else q in
  mk_number exponent_ sign_ q.
Definition vfp_single_fdiv (sd sn m fpscr : Z) : M Z :=
  n ← vfp_get_float sn;
  let '(vsn, e1) := vfp_single_unpack n fpscr in
  let '(vsm, e2) := vfp_single_unpack m fpscr in
  let exceptions := Z.lor e1 e2 in
  let sign_ := Z.lxor (sign vsn) (sign vsm) in
  let tn := vfp_single_type vsn in
  let tm := vfp_single_type vsm in
  let pack vsd exceptions := vfp_put_float (vfp_single_pack vsd) sd ;; mret exceptions in
  if truth (Z.land tn VFP_NAN) then '(vsd, e) ← vfp_propagate_nan vsn (Some vsm) fpscr; pack vsd (Z.lor exceptions e)
  else if truth (Z.land tm VFP_NAN) then '(vsd, e) ← vfp_propagate_nan vsm (Some vsn) fpscr; pack vsd (Z.lor exceptions e)
  else if truth (Z.land (Z.land tm tn) (Z.lor VFP_INFINITY VFP_ZERO)) then pack vfp_single_default_qnan FPSCR_IOC
  else if truth (Z.land tn VFP_INFINITY) then pack (mk_number 255 sign_ 0) exceptions
  else if truth (Z.land tm VFP_ZERO) then pack (mk_number 255 sign_ 0) (Z.lor exceptions FPSCR_DZC)
  else if truth (Z.land tm VFP_INFINITY) || truth (Z.land tn VFP_ZERO) then pack (mk_number 0 sign_ 0) exceptions
  else
    let vsn := if truth (Z.land tn VFP_DENORMAL) then vfp_single_normalise_denormal vsn else vsn in
    let vsm := if truth (Z.land tm VFP_DENORMAL) then vfp_single_normalise_denormal vsm else vsm in
    vfp_single_normaliseround sd (single_quotient sign_ vsn vsm) fpscr 0.

(** ** The instructions *)

Module SingleOps.
Definition fops : list op := [
  mk_op (Some vfp_single_fmac) 0; mk_op (Some vfp_single_fmsc) 0; mk_op (Some vfp_single_fmul) 0;
  mk_op (Some vfp_single_fadd) 0; mk_op (Some vfp_single_fnmac) 0; mk_op (Some vfp_single_fnmsc) 0;
  mk_op (Some vfp_single_fnmul) 0; mk_op (Some vfp_single_fsub) 0; mk_op (Some vfp_single_fdiv) 0].
Definition FREG_BANK (x : Z) : Z := Z.land x 0x18.
Definition FREG_IDX (x : Z) : Z := Z.land x 7.
(** The next register of a vector, in its bank *)
Definition next_register (vecstride x : Z) : Z := FREG_BANK x + Z.land (FREG_IDX x + vecstride) 7.
(** [for (vecitr = 0; vecitr <= veclen; vecitr += 1 << FPSCR_LENGTH_BIT)], with [n] turns *)
Fixpoint vector (f : Z -> Z -> Z -> Z -> M Z) (fpscr vecstride : Z) (n : nat) (dest sn sm exceptions : Z) : M Z :=
  match n with
  | O => mret exceptions
  | S n =>
      m ← vfp_get_float sm;
      except ← f dest sn m fpscr;
      vector f fpscr vecstride n (next_register vecstride dest) (next_register vecstride sn)
        (if FREG_BANK sm =? 0 then sm else next_register vecstride sm) (Z.lor exceptions (Z.land except (not32 VFP_NAN_FLAG)))
  end.
End SingleOps.
Definition vfp_single_cpdo (inst fpscr : Z) : M Z :=
  let op := Z.land inst FOP_MASK in
  let sn := vfp_get_sn inst in
  let sm := vfp_get_sm inst in
  let vecstride := 1 + (if Z.land fpscr FPSCR_STRIDE_MASK =? FPSCR_STRIDE_MASK then 1 else 0) in
  fop ← deref (if op =? FOP_EXT then SingleExt.fops_ext !! Z.to_nat (FEXT_TO_IDX inst) else SingleOps.fops !! Z.to_nat (FOP_TO_IDX op));
  let dest := if truth (Z.land (flags fop) OP_DD) then vfp_get_dd inst else vfp_get_sd inst in
  let veclen := if truth (Z.land (flags fop) OP_SCALAR) || (SingleOps.FREG_BANK dest =? 0) then 0 else Z.land fpscr FPSCR_LENGTH_MASK in
  match fn fop with
  | None => crash AssertFailed
  | Some f => SingleOps.vector f fpscr vecstride (S (Z.to_nat (Z.shiftr veclen FPSCR_LENGTH_BIT))) dest sn sm 0
  end.
