(* ===== verification/VfpDouble.v ===== *)
(** Operations on double-precision numbers
    (src/.../core/arm/skyeye_common/vfp/vfpdouble.cpp). *)

From S2P Require Import Prelude ArmSupp ArmState VfpHelper VfpPack VfpSingle.

#[local] Abbreviation M := (Prelude.M ARMul_State).
Implicit Types (vd vdd vdn vdm vdp : vfp_double).

Definition vfp_double_default_qnan : vfp_double := mk_number 2047 0 VFP_DOUBLE_SIGNIFICAND_QNAN.

Module Double.

(** The operand that is a NaN, made quiet, and the exceptions; [None] is the null pointer. *)
Definition vfp_propagate_nan vdn (vdm : option vfp_double) (fpscr : Z) : M (vfp_double * Z) :=
  let tn := vfp_double_type vdn in
  let tm := match vdm with Some vdm => vfp_double_type vdm | None => 0 end in
  nan ← (
    if truth (Z.land fpscr FPSCR_DEFAULT_NAN) then mret vfp_double_default_qnan
    else
      nan ← (if (tn =? VFP_SNAN) || (negb (tm =? VFP_SNAN) && (tn =? VFP_QNAN)) then mret vdn else deref vdm);
      mret (nan <| significand ::= fun x => Z.lor x VFP_DOUBLE_SIGNIFICAND_QNAN |>));
  mret (nan, if (tn =? VFP_SNAN) || (tm =? VFP_SNAN) then FPSCR_IOC else VFP_NAN_FLAG).
End Double.

(** ** Extended operations: destination, first operand (not used), second operand, status;
    operands are registers. *)

Definition vfp_double_fabs (dd unused dm fpscr : Z) : M Z :=
  m ← vfp_get_double dm; vfp_put_double (vfp_double_packed_abs m) dd ;; mret 0.
Definition vfp_double_fcpy (dd unused dm fpscr : Z) : M Z := m ← vfp_get_double dm; vfp_put_double m dd ;; mret 0.
Definition vfp_double_fneg (dd unused dm fpscr : Z) : M Z :=
  m ← vfp_get_double dm; vfp_put_double (vfp_double_packed_negate m) dd ;; mret 0.

(** [while ((s64)remh < 0)] *)
Fixpoint double_sqrt_loop (fuel : nat) (significand remh reml : Z) : M (Z * Z * Z) :=
  match fuel with
  | O => crash OutOfFuel
  | S fuel =>
      if s64 remh <? 0 then
        let significand := u64 (significand - 1) in
        let '(termh, terml) := shift64left significand in
        let terml := Z.lor terml 1 in
        let '(remh, reml) := add128 remh reml termh terml in
        double_sqrt_loop fuel significand remh reml
      else mret (significand, remh, reml)
  end.
(** The root of a positive proper number, before rounding *)
Definition double_square_root vdm : M vfp_double :=
  e ← vfp_estimate_sqrt_significand (exponent vdm) (u32 (Z.shiftr (significand vdm) 32));
  let significand_d := u64 (Z.shiftl e 31) in
  let significand_m := Z.shiftr (significand vdm) (1 + Z.land (exponent vdm) 1) in
  e ← vfp_estimate_div128to64 significand_m 0 significand_d;
  let vdd := mk_number (s16 (Z.shiftr (exponent vdm - 1023) 1 + 1023)) 0 (u64 (significand_d + u64 (2 + e))) in
  if Z.land (significand vdd) VFP_DOUBLE_LOW_BITS_MASK <=? 5 then
    if significand vdd <? 2 then mret (vdd <| significand := u64 (-1) |>)
    else
      let significand_m := u64 (Z.shiftl significand_m 2) in
      let '(termh, terml) := mul64to128 (significand vdd) (significand vdd) in
      let '(remh, reml) := sub128 significand_m 0 termh terml in
      '(sig, remh, reml) ← double_sqrt_loop 32 (significand vdd) remh reml;
      mret (vdd <| significand := Z.lor sig (if truth (Z.lor remh reml) then 1 else 0) |>)
  else mret vdd.
Definition vfp_double_fsqrt (dd unused dm fpscr : Z) : M Z :=
  m ← vfp_get_double dm;
  let '(vdm, exceptions) := vfp_double_unpack (s64 m) fpscr in
  let tm := vfp_double_type vdm in
  let copy vdp ret := vfp_put_double (u64 (vfp_double_pack vdp)) dd ;; mret ret in
  let sqrt_copy := copy vdm 0 in
  let sqrt_invalid := copy vfp_double_default_qnan FPSCR_IOC in
  if truth (Z.land tm (Z.lor VFP_NAN VFP_INFINITY)) then
    if truth (Z.land tm VFP_NAN) then '(vdp, ret) ← Double.vfp_propagate_nan vdm None fpscr; copy vdp ret
    else if sign vdm =? 0 then sqrt_copy
    else sqrt_invalid
  else if truth (Z.land tm VFP_ZERO) then sqrt_copy
  else
    let vdm := if truth (Z.land tm VFP_DENORMAL) then vfp_double_normalise_denormal vdm else vdm in
    if truth (sign vdm) then sqrt_invalid
    else
      vdd ← double_square_root vdm;
      r ← vfp_double_normaliseround dd (vdd <| significand ::= fun x => vfp_shiftright64jamming x 1 |>) fpscr 0;
      mret (Z.lor exceptions r).

(** Equal := ZC, less than := N, greater than := C, unordered := CV *)
Definition double_is_nan (v : Z) : bool := (vfp_double_packed_exponent v =? 2047) && truth (vfp_double_packed_mantissa v).
Definition double_nan_flags (signal_on_qnan : bool) (v : Z) : Z :=
  if double_is_nan v then
    Z.lor (Z.lor FPSCR_CFLAG FPSCR_VFLAG)
      (if signal_on_qnan || (Z.land (vfp_double_packed_mantissa v) (Z.shiftl 1 (VFP_DOUBLE_MANTISSA_BITS - 1)) =? 0) then FPSCR_IOC else 0)
  else 0.
Definition double_compared (d m : Z) (signal_on_qnan : bool) : Z :=
  let ret := Z.lor (double_nan_flags signal_on_qnan m) (double_nan_flags signal_on_qnan d) in
  if ret =? 0 then
    if (d =? m) || (vfp_double_packed_abs (Z.lor d m) =? 0) then Z.lor FPSCR_ZFLAG FPSCR_CFLAG
    else if truth (vfp_double_packed_sign (Z.lxor d m)) then if truth (vfp_double_packed_sign d) then FPSCR_NFLAG else FPSCR_CFLAG
    else if xorb (truth (vfp_double_packed_sign d)) (d <? m) then FPSCR_NFLAG
    else if xorb (truth (vfp_double_packed_sign d)) (m <? d) then FPSCR_CFLAG
    else 0
  else ret.
Module DoubleCompare.
Definition vfp_compare (dd : Z) (signal_on_qnan : bool) (m fpscr : Z) : M Z :=
  d ← vfp_get_double dd;
  mret (double_compared (s64 d) m signal_on_qnan).
End DoubleCompare.
Definition vfp_double_fcmp (dd unused dm fpscr : Z) : M Z := m ← vfp_get_double dm; DoubleCompare.vfp_compare dd false (s64 m) fpscr.
Definition vfp_double_fcmpe (dd unused dm fpscr : Z) : M Z := m ← vfp_get_double dm; DoubleCompare.vfp_compare dd true (s64 m) fpscr.
Definition vfp_double_fcmpz (dd unused dm fpscr : Z) : M Z := DoubleCompare.vfp_compare dd false 0 fpscr.
Definition vfp_double_fcmpez (dd unused dm fpscr : Z) : M Z := DoubleCompare.vfp_compare dd true 0 fpscr.

(** ** Conversions *)

Definition vfp_double_fcvts (sd unused dm fpscr : Z) : M Z :=
  m ← vfp_get_double dm;
  let '(vdm, exceptions) := vfp_double_unpack (s64 m) fpscr in
  let tm := vfp_double_type vdm in
  let exceptions := if tm =? VFP_SNAN then FPSCR_IOC else exceptions in
  let vdm := if truth (Z.land tm VFP_DENORMAL) then vfp_double_normalise_denormal vdm else vdm in
  let significand_ := vfp_hi64to32jamming (significand vdm) in
  if truth (Z.land tm (Z.lor VFP_INFINITY VFP_NAN)) then
    let significand_ := if tm =? VFP_QNAN then Z.lor significand_ VFP_SINGLE_SIGNIFICAND_QNAN else significand_ in
    vfp_put_float (vfp_single_pack (mk_number 255 (sign vdm) significand_)) sd ;;
    mret exceptions
  else
    let exponent_ := if truth (Z.land tm VFP_ZERO) then 0 else s16 (exponent vdm - (1023 - 127)) in
    vfp_single_normaliseround sd (mk_number exponent_ (sign vdm) significand_) fpscr exceptions.
Definition vfp_double_fuito (dd unused dm fpscr : Z) : M Z :=
  m ← vfp_get_float dm;
  vfp_double_normaliseround dd (mk_number (1023 + 63 - 1) 0 (u32 m)) fpscr 0.
Definition vfp_double_fsito (dd unused dm fpscr : Z) : M Z :=
  m ← vfp_get_float dm;
  let m := u32 m in
  let sign_ := Z.shiftr (Z.land m 0x80000000) 16 in
  vfp_double_normaliseround dd (mk_number (1023 + 63 - 1) sign_ (if truth sign_ then u32 (not32 m + 1) else m)) fpscr 0.

(** The increment of a conversion to an integer, as a fraction of [2^64] *)
Definition double_fraction_incr (rmode sign_ d : Z) : Z :=
  if rmode =? FPSCR_ROUND_NEAREST then if Z.land d 1 =? 0 then 0x8000000000000000 - 1 else 0x8000000000000000
  else if rmode =? FPSCR_ROUND_TOZERO then 0
  else if xorb (rmode =? FPSCR_ROUND_PLUSINF) (truth sign_) then 0xFFFFFFFFFFFFFFFF
  else 0.
Definition double_to_unsigned vdm (fpscr exceptions : Z) : Z * Z :=
  let rmode := Z.land fpscr FPSCR_RMODE_MASK in
  let tm := vfp_double_type vdm in
  let exceptions := if truth (Z.land tm VFP_DENORMAL) then Z.lor exceptions FPSCR_IDC else exceptions in
  let vdm := if truth (Z.land tm VFP_NAN) then vdm <| sign := 1 |> else vdm in
  let negative := truth (sign vdm) in
  if 1023 + 32 <=? exponent vdm then (if negative then 0 else 0xffffffff, FPSCR_IOC)
  else if 1023 <=? exponent vdm then
    let shift := 1023 + 63 - exponent vdm in
    let d := u32 (Z.shiftr (u64 (Z.shiftl (significand vdm) 1)) shift) in
    let rem := u64 (Z.shiftl (significand vdm) (65 - shift)) in
    let incr := double_fraction_incr rmode (sign vdm) d in
    let '(d, exceptions) :=
      if u64 (rem + incr) <? rem then if d <? 0xffffffff then (d + 1, exceptions) else (d, Z.lor exceptions FPSCR_IOC) else (d, exceptions) in
    if truth d && negative then (0, Z.lor exceptions FPSCR_IOC)
    else (d, if truth rem then Z.lor exceptions FPSCR_IXC else exceptions)
  else if truth (Z.lor (exponent vdm) (significand vdm)) then
    let invalid_or_inexact := Z.lor exceptions (if negative then FPSCR_IOC else FPSCR_IXC) in
    if rmode =? FPSCR_ROUND_NEAREST then
      if 1022 <=? exponent vdm then (if negative then 0 else 1, invalid_or_inexact) else (0, Z.lor exceptions FPSCR_IXC)
    else if (rmode =? FPSCR_ROUND_PLUSINF) && negb negative then (1, Z.lor exceptions FPSCR_IXC)
    else if rmode =? FPSCR_ROUND_MINUSINF then (0, invalid_or_inexact)
    else (0, Z.lor exceptions FPSCR_IXC)
  else (0, exceptions).
Definition vfp_double_ftoui (sd unused dm fpscr : Z) : M Z :=
  m ← vfp_get_double dm;
  let '(vdm, exceptions) := vfp_double_unpack (s64 m) fpscr in
  let '(d, exceptions) := double_to_unsigned vdm fpscr exceptions in
  vfp_put_float d sd ;;
  mret exceptions.
Definition vfp_double_ftouiz (sd unused dm fpscr : Z) : M Z := vfp_double_ftoui sd unused dm (toward_zero fpscr).
Definition double_to_signed vdm (fpscr exceptions : Z) : Z * Z :=
  let rmode := Z.land fpscr FPSCR_RMODE_MASK in
  let tm := vfp_double_type vdm in
  let exceptions := if truth (Z.land tm VFP_DENORMAL) then Z.lor exceptions FPSCR_IDC else exceptions in
  let negative := truth (sign vdm) in
  if truth (Z.land tm VFP_NAN) then (0, Z.lor exceptions FPSCR_IOC)
  else if 1023 + 31 <=? exponent vdm then (if negative then not32 0x7fffffff else 0x7fffffff, Z.lor exceptions FPSCR_IOC)
  else if 1023 <=? exponent vdm then
    let shift := 1023 + 63 - exponent vdm in
    let d := u32 (Z.shiftr (u64 (Z.shiftl (significand vdm) 1)) shift) in
    let rem := u64 (Z.shiftl (significand vdm) (65 - shift)) in
    let incr := double_fraction_incr rmode (sign vdm) d in
    let d := if (u64 (rem + incr) <? rem) && (d <? 0xffffffff) then d + 1 else d in
    let largest := 0x7fffffff + (if negative then 1 else 0) in
    let '(d, exceptions) :=
      if largest <? d then (largest, Z.lor exceptions FPSCR_IOC)
      else (d, if truth rem then Z.lor exceptions FPSCR_IXC else exceptions) in
    (if negative then u32 (not32 d + 1) else d, exceptions)
  else if truth (Z.lor (exponent vdm) (significand vdm)) then
    let exceptions := Z.lor exceptions FPSCR_IXC in
    (if rmode =? FPSCR_ROUND_NEAREST then if 1022 <=? exponent vdm then if negative then 0xffffffff else 1 else 0
     else if (rmode =? FPSCR_ROUND_PLUSINF) && negb negative then 1
     else if (rmode =? FPSCR_ROUND_MINUSINF) && negative then 0xffffffff
     else 0, exceptions)
  else (0, exceptions).
Definition vfp_double_ftosi (sd unused dm fpscr : Z) : M Z :=
  m ← vfp_get_double dm;
  let '(vdm, exceptions) := vfp_double_unpack (s64 m) fpscr in
  let '(d, exceptions) := double_to_signed vdm fpscr exceptions in
  vfp_put_float (s32 d) sd ;;
  mret exceptions.
Definition vfp_double_ftosiz (sd unused dm fpscr : Z) : M Z := vfp_double_ftosi sd unused dm (toward_zero fpscr).

Module DoubleExt.
Definition fops_ext : list op := [
  mk_op (Some vfp_double_fcpy) 0; mk_op (Some vfp_double_fabs) 0; mk_op (Some vfp_double_fneg) 0; mk_op (Some vfp_double_fsqrt) 0;
  no_op; no_op; no_op; no_op;
  mk_op (Some vfp_double_fcmp) OP_SCALAR; mk_op (Some vfp_double_fcmpe) OP_SCALAR;
  mk_op (Some vfp_double_fcmpz) OP_SCALAR; mk_op (Some vfp_double_fcmpez) OP_SCALAR;
  no_op; no_op; no_op; mk_op (Some vfp_double_fcvts) (Z.lor OP_SCALAR OP_DD);
  mk_op (Some vfp_double_fuito) (Z.lor OP_SCALAR OP_SM); mk_op (Some vfp_double_fsito) (Z.lor OP_SCALAR OP_SM); no_op; no_op;
  no_op; no_op; no_op; no_op;
  mk_op (Some vfp_double_ftoui) (Z.lor OP_SCALAR OP_SD); mk_op (Some vfp_double_ftouiz) (Z.lor OP_SCALAR OP_SD);
  mk_op (Some vfp_double_ftosi) (Z.lor OP_SCALAR OP_SD); mk_op (Some vfp_double_ftosiz) (Z.lor OP_SCALAR OP_SD)].
End DoubleExt.

(** ** Standard operations *)

Definition vfp_double_fadd_nonnumber vdn vdm (fpscr : Z) : M (vfp_double * Z) :=
  let tn := vfp_double_type vdn in
  let tm := vfp_double_type vdm in
  if truth (Z.land (Z.land tn tm) VFP_INFINITY) then
    if truth (Z.lxor (sign vdn) (sign vdm)) then mret (vfp_double_default_qnan, FPSCR_IOC) else mret (vdn, 0)
  else if truth (Z.land tn VFP_INFINITY) && truth (Z.land tm VFP_NUMBER) then mret (vdn, 0)
  else Double.vfp_propagate_nan vdn (Some vdm) fpscr.
(** The sum of two proper numbers, the first with the larger exponent *)
Definition double_sum vdn vdm (fpscr : Z) : vfp_double :=
  let exp_diff := u32 (exponent vdn - exponent vdm) in
  let m_sig := vfp_shiftright64jamming (significand vdm) exp_diff in
  if truth (Z.lxor (sign vdn) (sign vdm)) then
    let m_sig := u64 (significand vdn - m_sig) in
    if s64 m_sig <? 0 then vdn <| sign := vfp_sign_negate (sign vdn) |> <| significand := u64 (- m_sig) |>
    else if m_sig =? 0 then vdn <| sign := if Z.land fpscr FPSCR_RMODE_MASK =? FPSCR_ROUND_MINUSINF then 0x8000 else 0 |> <| significand := m_sig |>
    else vdn <| significand := m_sig |>
  else vdn <| significand := u64 (m_sig + significand vdn) |>.
Definition vfp_double_add vdn vdm (fpscr : Z) : M (vfp_double * Z) :=
  let '(vdn, vdm) := if exponent vdn <? exponent vdm then (vdm, vdn) else (vdn, vdm) in
  if exponent vdn =? 2047 then vfp_double_fadd_nonnumber vdn vdm fpscr
  else mret (double_sum vdn vdm fpscr, 0).
Definition vfp_double_multiply vdn vdm (fpscr : Z) : M (vfp_double * Z) :=
  let '(vdn, vdm) := if exponent vdn <? exponent vdm then (vdm, vdn) else (vdn, vdm) in
  let sign_ := Z.lxor (sign vdn) (sign vdm) in
  if exponent vdn =? 2047 then
    if truth (significand vdn) || ((exponent vdm =? 2047) && truth (significand vdm)) then Double.vfp_propagate_nan vdn (Some vdm) fpscr
    else if u64 (Z.lor (exponent vdm) (significand vdm)) =? 0 then mret (vfp_double_default_qnan, FPSCR_IOC)
    else mret (mk_number (exponent vdn) sign_ 0, 0)
  else if u64 (Z.lor (exponent vdm) (significand vdm)) =? 0 then mret (mk_number 0 sign_ 0, 0)
  else mret (mk_number (s16 (exponent vdn + exponent vdm - 1023 + 2)) sign_ (vfp_hi64multiply64 (significand vdn) (significand vdm)), 0).

(** Unpacked, and normalised when it is a denormal *)
Definition double_operand (v fpscr : Z) : vfp_double * Z :=
  let '(vd, exceptions) := vfp_double_unpack (s64 v) fpscr in
  (if (exponent vd =? 0) && truth (significand vd) then vfp_double_normalise_denormal vd else vd, exceptions).

Definition vfp_double_multiply_accumulate (dd dn dm fpscr negate : Z) : M Z :=
  n ← vfp_get_double dn;
  let '(vdn, e1) := double_operand n fpscr in
  m ← vfp_get_double dm;
  let '(vdm, e2) := double_operand m fpscr in
  '(vdp, e3) ← vfp_double_multiply vdn vdm fpscr;
  let vdp := negate_if (truth (Z.land negate NEG_MULTIPLY)) vdp in
  d ← vfp_get_double dd;
  let '(vdn, e4) := double_operand d fpscr in
  let vdn := negate_if (truth (Z.land negate NEG_SUBTRACT)) vdn in
  '(vdd, e5) ← vfp_double_add vdn vdp fpscr;
  vfp_double_normaliseround dd vdd fpscr (Z.lor (Z.lor (Z.lor (Z.lor e1 e2) e3) e4) e5).
Definition vfp_double_fmac (dd dn dm fpscr : Z) : M Z := vfp_double_multiply_accumulate dd dn dm fpscr 0.
Definition vfp_double_fnmac (dd dn dm fpscr : Z) : M Z := vfp_double_multiply_accumulate dd dn dm fpscr NEG_MULTIPLY.
Definition vfp_double_fmsc (dd dn dm fpscr : Z) : M Z := vfp_double_multiply_accumulate dd dn dm fpscr NEG_SUBTRACT.
Definition vfp_double_fnmsc (dd dn dm fpscr : Z) : M Z := vfp_double_multiply_accumulate dd dn dm fpscr (Z.lor NEG_SUBTRACT NEG_MULTIPLY).
(** An operation of two operands *)
Definition double_binary (f : vfp_double -> vfp_double -> Z -> M (vfp_double * Z)) (dd dn dm fpscr : Z) : M Z :=
  n ← vfp_get_double dn;
  let '(vdn, e1) := double_operand n fpscr in
  m ← vfp_get_double dm;
  let '(vdm, e2) := double_operand m fpscr in
  '(vdd, e3) ← f vdn vdm fpscr;
  vfp_double_normaliseround dd vdd fpscr (Z.lor (Z.lor e1 e2) e3).
Definition vfp_double_fmul : Z -> Z -> Z -> Z -> M Z := double_binary vfp_double_multiply.
Definition vfp_double_fnmul : Z -> Z -> Z -> Z -> M Z :=
  double_binary (fun vdn vdm fpscr => '(vdd, e) ← vfp_double_multiply vdn vdm fpscr; mret (negate_if true vdd, e)).
Definition vfp_double_fadd : Z -> Z -> Z -> Z -> M Z := double_binary vfp_double_add.
Definition vfp_double_fsub : Z -> Z -> Z -> Z -> M Z :=
  double_binary (fun vdn vdm fpscr => vfp_double_add vdn (negate_if true vdm) fpscr).

(** [while ((s64)remh < 0)] *)
Fixpoint double_quotient_loop (fuel : nat) (significand remh reml significand_m : Z) : M (Z * Z) :=
  match fuel with
  | O => crash OutOfFuel
  | S fuel =>
      if s64 remh <? 0 then
        let '(remh, reml) := add128 remh reml 0 significand_m in
        double_quotient_loop fuel (u64 (significand - 1)) remh reml significand_m
      else mret (significand, reml)
  end.
(** The quotient of two significands *)
Definition quotient_digits (significand_n significand_m : Z) : M Z :=
  q ← vfp_estimate_div128to64 significand_n 0 significand_m;
  if Z.land q 0x1ff <=? 2 then
    let '(termh, terml) := mul64to128 significand_m q in
    let '(remh, reml) := sub128 significand_n 0 termh terml in
    '(q, reml) ← double_quotient_loop 4 q remh reml significand_m;
    mret (Z.lor q (if truth reml then 1 else 0))
  else mret q.
(** The quotient of two proper numbers, before rounding *)
Definition double_quotient (sign_ : Z) vdn vdm : M vfp_double :=
  let exponent_ := s16 (exponent vdn - exponent vdm + 1023 - 1) in
  let significand_m := u64 (Z.shiftl (significand vdm) 1) in
  let '(significand_n, exponent_) :=
    if significand_m <=? u64 (2 * significand vdn) then (Z.shiftr (significand vdn) 1, s16 (exponent_ + 1)) else (significand vdn, exponent_) in
  q ← quotient_digits significand_n significand_m;
  mret (mk_number exponent_ sign_ q).
Definition vfp_double_fdiv (dd dn dm fpscr : Z) : M Z :=
  n ← vfp_get_double dn;
  let '(vdn, e1) := vfp_double_unpack (s64 n) fpscr in
  m ← vfp_get_double dm;
  let '(vdm, e2) := vfp_double_unpack (s64 m) fpscr in
  let exceptions := Z.lor e1 e2 in
  let sign_ := Z.lxor (sign vdn) (sign vdm) in
  let tn := vfp_double_type vdn in
  let tm := vfp_double_type vdm in
  let pack vdd exceptions := vfp_put_double (u64 (vfp_double_pack vdd)) dd ;; mret exceptions in
  if truth (Z.land tn VFP_NAN) then '(vdd, e) ← Double.vfp_propagate_nan vdn (Some vdm) fpscr; pack vdd (Z.lor exceptions e)
  else if truth (Z.land tm VFP_NAN) then '(vdd, e) ← Double.vfp_propagate_nan vdm (Some vdn) fpscr; pack vdd (Z.lor exceptions e)
  else if truth (Z.land (Z.land tm tn) (Z.lor VFP_INFINITY VFP_ZERO)) then pack vfp_double_default_qnan FPSCR_IOC
  else if truth (Z.land tn VFP_INFINITY) then pack (mk_number 2047 sign_ 0) exceptions
  else if truth (Z.land tm VFP_ZERO) then pack (mk_number 2047 sign_ 0) (Z.lor exceptions FPSCR_DZC)
  else if truth (Z.land tm VFP_INFINITY) || truth (Z.land tn VFP_ZERO) then pack (mk_number 0 sign_ 0) exceptions
  else
    let vdn := if truth (Z.land tn VFP_DENORMAL) then vfp_double_normalise_denormal vdn else vdn in
    let vdm := if truth (Z.land tm VFP_DENORMAL) then vfp_double_normalise_denormal vdm else vdm in
    vdd ← double_quotient sign_ vdn vdm;
    vfp_double_normaliseround dd vdd fpscr 0.

(** ** The instructions *)

Module DoubleOps.
Definition fops : list op := [
  mk_op (Some vfp_double_fmac) 0; mk_op (Some vfp_double_fmsc) 0; mk_op (Some vfp_double_fmul) 0;
  mk_op (Some vfp_double_fadd) 0; mk_op (Some vfp_double_fnmac) 0; mk_op (Some vfp_double_fnmsc) 0;
  mk_op (Some vfp_double_fnmul) 0; mk_op (Some vfp_double_fsub) 0; mk_op (Some vfp_double_fdiv) 0].
Definition FREG_BANK (x : Z) : Z := Z.land x 0x0c.
Definition FREG_IDX (x : Z) : Z := Z.land x 3.
(** The next register of a vector, in its bank *)
Definition next_register (vecstride x : Z) : Z := FREG_BANK x + Z.land (FREG_IDX x + vecstride) 3.
(** [for (vecitr = 0; vecitr <= veclen; vecitr += 1 << FPSCR_LENGTH_BIT)], with [n] turns *)
Fixpoint vector (f : Z -> Z -> Z -> Z -> M Z) (fpscr vecstride : Z) (n : nat) (dest dn dm exceptions : Z) : M Z :=
  match n with
  | O => mret exceptions
  | S n =>
      except ← f dest dn dm fpscr;
      vector f fpscr vecstride n (next_register vecstride dest) (next_register vecstride dn)
        (if FREG_BANK dm =? 0 then dm else next_register vecstride dm) (Z.lor exceptions (Z.land except (not32 VFP_NAN_FLAG)))
  end.
End DoubleOps.
Definition vfp_double_cpdo (inst fpscr : Z) : M Z :=
  let op := Z.land inst FOP_MASK in
  let dn := vfp_get_dn inst in
  let vecstride := 1 + (if Z.land fpscr FPSCR_STRIDE_MASK =? FPSCR_STRIDE_MASK then 1 else 0) in
  fop ← deref (if op =? FOP_EXT then DoubleExt.fops_ext !! Z.to_nat (FEXT_TO_IDX inst) else DoubleOps.fops !! Z.to_nat (FOP_TO_IDX op));
  let dest := if truth (Z.land (flags fop) OP_SD) then vfp_get_sd inst else vfp_get_dd inst in
  let dm := if truth (Z.land (flags fop) OP_SM) then vfp_get_sm inst else vfp_get_dm inst in
  let veclen := if truth (Z.land (flags fop) OP_SCALAR) || (DoubleOps.FREG_BANK dest =? 0) then 0 else Z.land fpscr FPSCR_LENGTH_MASK in
  match fn fop with
  | None => mret (u32 (-1))
  | Some f => DoubleOps.vector f fpscr vecstride (S (Z.to_nat (Z.shiftr veclen FPSCR_LENGTH_BIT))) dest dn dm 0
  end.
