(* ===== verification/VfpInstr.v ===== *)
(** The instructions of the floating-point unit (src/.../core/arm/skyeye_common/vfp/
    vfpinstr.cpp, and the moves of vfp.cpp). [CHECK_VFP_ENABLED] is empty. *)

From S2P Require Import Prelude MemoryMap Memory MemoryAccess ArmSupp ArmState ArmOperands ArmTrans ArmMachine VfpHelper VfpSingle VfpDouble.

(** ** On the processor *)

Section Processor.
Abbreviation M := (Prelude.M ARMul_State).

Definition fpscr_of (s : ARMul_State) : Z := at_ (VFP s) VFP_FPSCR.

(** *** Computations: all of them are handled in the same way. *)

Definition vfp_op (l : Z) (inst_base : arm_inst) : M next :=
  conditional inst_base l (
    let! vfp_op_inst instr dp_operation := component inst_base in
    s ← get;
    ret ← (if truth dp_operation then vfp_double_cpdo instr (fpscr_of s) else vfp_single_cpdo instr (fpscr_of s));
    s ← get;
    simply (vfp_raise_exceptions ret instr (fpscr_of s))).
Definition VMLA_INST : arm_inst -> M next := vfp_op sizeof_vmla_inst.
Definition VMLS_INST : arm_inst -> M next := vfp_op sizeof_vmls_inst.
Definition VNMLA_INST : arm_inst -> M next := vfp_op sizeof_vnmla_inst.
Definition VNMLS_INST : arm_inst -> M next := vfp_op sizeof_vnmls_inst.
Definition VNMUL_INST : arm_inst -> M next := vfp_op sizeof_vnmul_inst.
Definition VMUL_INST : arm_inst -> M next := vfp_op sizeof_vmul_inst.
Definition VADD_INST : arm_inst -> M next := vfp_op sizeof_vadd_inst.
Definition VSUB_INST : arm_inst -> M next := vfp_op sizeof_vsub_inst.
Definition VDIV_INST : arm_inst -> M next := vfp_op sizeof_vdiv_inst.
Definition VABS_INST : arm_inst -> M next := vfp_op sizeof_vabs_inst.
Definition VNEG_INST : arm_inst -> M next := vfp_op sizeof_vneg_inst.
Definition VSQRT_INST : arm_inst -> M next := vfp_op sizeof_vsqrt_inst.
Definition VCMP_INST : arm_inst -> M next := vfp_op sizeof_vcmp_inst.
Definition VCMP2_INST : arm_inst -> M next := vfp_op sizeof_vcmp2_inst.
Definition VCVTBDS_INST : arm_inst -> M next := vfp_op sizeof_vcvtbds_inst.
Definition VCVTBFF_INST : arm_inst -> M next := vfp_op sizeof_vcvtbff_inst.
Definition VCVTBFI_INST : arm_inst -> M next := vfp_op sizeof_vcvtbfi_inst.

(** *** Moves *)

Definition VMOVI (single d imm : Z) : M unit :=
  if truth single then set_ext_reg d imm
  else set_ext_reg (d * 2 + 1) imm ;; set_ext_reg (d * 2) 0.
Definition VMOVI_INST (inst_base : arm_inst) : M next :=
  conditional inst_base sizeof_vmovi_inst (
    let! vmovi_inst single d imm := component inst_base in simply (VMOVI single d imm)).
Definition VMOVR (single d m : Z) : M unit :=
  if truth single then v ← ext_reg m; set_ext_reg d v
  else
    v ← ext_reg (m * 2 + 1);
    set_ext_reg (d * 2 + 1) v ;;
    v ← ext_reg (m * 2);
    set_ext_reg (d * 2) v.
Definition VMOVR_INST (inst_base : arm_inst) : M next :=
  conditional inst_base sizeof_vmovr_inst (
    let! vmovr_inst single d m := component inst_base in simply (VMOVR single d m)).
(** The pointers are to the registers [t] and [t2] of the processor. *)
Definition VMOVBRS (to_arm t n : Z) : M unit :=
  if truth to_arm then v ← ext_reg n; set_Reg t v
  else v ← cpu_Reg t; set_ext_reg n v.
Definition VMOVBRS_INST (inst_base : arm_inst) : M next :=
  conditional inst_base sizeof_vmovbrs_inst (
    let! vmovbrs_inst to_arm t n := component inst_base in simply (VMOVBRS to_arm t n)).
Definition VMSR_INST (inst_base : arm_inst) : M next :=
  conditional inst_base sizeof_vmsr_inst (
    let! vmsr_inst reg rt := component inst_base in
    v ← cpu_Reg rt;
    s ← get;
    simply (
      if reg =? 1 then modify (set_vfp VFP_FPSCR v)
      else if InAPrivilegedMode s then
        if reg =? 8 then modify (set_vfp VFP_FPEXC v)
        else if reg =? 9 then modify (set_vfp VFP_FPINST v)
        else if reg =? 10 then modify (set_vfp VFP_FPINST2 v)
        else mret tt
      else mret tt)).
Definition VMOVBRC_INST (inst_base : arm_inst) : M next :=
  conditional inst_base sizeof_vmovbrc_inst (
    let! vmovbrc_inst esize index d t := component inst_base in
    v ← cpu_Reg t;
    simply (set_ext_reg (2 * d + index) v)).
Definition VMRS_INST (inst_base : arm_inst) : M next :=
  conditional inst_base sizeof_vmrs_inst (
    let! vmrs_inst reg rt := component inst_base in
    s ← get;
    let system r := at_ (VFP s) r in
    simply (
      if reg =? 1 then
        if negb (rt =? 15) then set_Reg rt (system VFP_FPSCR)
        else
          let flag n := Z.land (Z.shiftr (system VFP_FPSCR) n) 1 in
          modify (fun s => s <| NFlag := flag 31 |> <| ZFlag := flag 30 |> <| CFlag := flag 29 |> <| VFlag := flag 28 |>)
      else if reg =? 0 then set_Reg rt (system VFP_FPSID)
      else if reg =? 6 then set_Reg rt (system VFP_MVFR1)
      else if reg =? 7 then set_Reg rt (system VFP_MVFR0)
      else if InAPrivilegedMode s then
        if reg =? 8 then set_Reg rt (system VFP_FPEXC)
        else if reg =? 9 then set_Reg rt (system VFP_FPINST)
        else if reg =? 10 then set_Reg rt (system VFP_FPINST2)
        else mret tt
      else mret tt)).
Definition VMOVBCR_INST (inst_base : arm_inst) : M next :=
  conditional inst_base sizeof_vmovbcr_inst (
    let! vmovbcr_inst esize index d t := component inst_base in
    v ← ext_reg (2 * d + index);
    simply (set_Reg t v)).
Definition VMOVBRRSS (to_arm t t2 n : Z) : M unit :=
  if truth to_arm then
    v ← ext_reg (n + 0); set_Reg t v ;;
    v ← ext_reg (n + 1); set_Reg t2 v
  else
    v ← cpu_Reg t; set_ext_reg (n + 0) v ;;
    v ← cpu_Reg t2; set_ext_reg (n + 1) v.
Definition VMOVBRRSS_INST (inst_base : arm_inst) : M next :=
  conditional inst_base sizeof_vmovbrrss_inst (
    let! vmovbrrss_inst to_arm t t2 m := component inst_base in simply (VMOVBRRSS to_arm t t2 m)).
Definition VMOVBRRD (to_arm t t2 n : Z) : M unit :=
  if truth to_arm then
    v ← ext_reg (n * 2 + 1); set_Reg t2 v ;;
    v ← ext_reg (n * 2); set_Reg t v
  else
    v ← cpu_Reg t2; set_ext_reg (n * 2 + 1) v ;;
    v ← cpu_Reg t; set_ext_reg (n * 2) v.
Definition VMOVBRRD_INST (inst_base : arm_inst) : M next :=
  conditional inst_base sizeof_vmovbrrd_inst (
    let! vmovbrrd_inst to_arm t t2 m := component inst_base in simply (VMOVBRRD to_arm t t2 m)).
End Processor.

(** ** Loads and stores *)

Section Machine.
Context {D W : Type} `{Host} `{Devices D} `{Kernel D W}.
Abbreviation M := (Prelude.M (Machine D W)).

Definition ext (n : Z) : M Z := on_cpu (ext_reg n).
Definition set_ext (n v : Z) : M unit := on_cpu (set_ext_reg n v).
(** A register of one word, or of two in the order of the endianness *)
Definition store_ext (single d addr : Z) : M unit :=
  if truth single then v ← ext d; WriteMemory32 addr v
  else
    word1 ← ext (d * 2 + 0);
    word2 ← ext (d * 2 + 1);
    s ← gets cpu;
    if InBigEndianMode s then WriteMemory32 addr word2 ;; WriteMemory32 (u32 (addr + 4)) word1
    else WriteMemory32 addr word1 ;; WriteMemory32 (u32 (addr + 4)) word2.
Definition load_ext (single d addr : Z) : M unit :=
  if truth single then v ← ReadMemory32 addr; set_ext d v
  else
    word1 ← ReadMemory32 addr;
    word2 ← ReadMemory32 (u32 (addr + 4));
    s ← gets cpu;
    if InBigEndianMode s then set_ext (d * 2 + 0) word2 ;; set_ext (d * 2 + 1) word1
    else set_ext (d * 2 + 0) word1 ;; set_ext (d * 2 + 1) word2.
(** [for (i = 0; i < regs; i++)] with [n] registers left, from register [d] *)
Fixpoint each_ext (access : Z -> Z -> Z -> M unit) (single : Z) (n : nat) (d addr : Z) : M unit :=
  match n with
  | O => mret tt
  | S n => access single d addr ;; each_ext access single n (d + 1) (u32 (addr + (if truth single then 4 else 8)))
  end.

(** The base register, where the program counter is read two instructions ahead *)
Definition vldr_base (n : Z) : M Z := r ← reg n; mret (if n =? 15 then u32 (Z.land r 0xFFFFFFFC + 8) else r).
Definition VSTR_INST (inst_base : arm_inst) : M next :=
  m_conditional inst_base sizeof_vstr_inst (
    let! vstr_inst single n d imm32 add := component inst_base in
    base ← vldr_base n;
    m_simply (store_ext single d (u32 (if truth add then base + imm32 else base - imm32)))).
Definition VLDR_INST (inst_base : arm_inst) : M next :=
  m_conditional inst_base sizeof_vldr_inst (
    let! vldr_inst single n d imm32 add := component inst_base in
    base ← vldr_base n;
    m_simply (load_ext single d (u32 (if truth add then base + imm32 else base - imm32)))).
Definition VPUSH_INST (inst_base : arm_inst) : M next :=
  m_conditional inst_base sizeof_vpush_inst (
    let! vpush_inst single d imm32 regs := component inst_base in
    sp ← reg 13;
    each_ext store_ext single (Z.to_nat regs) d (u32 (sp - imm32)) ;;
    sp ← reg 13;
    m_simply (set_reg 13 (sp - imm32))).
Definition VPOP_INST (inst_base : arm_inst) : M next :=
  m_conditional inst_base sizeof_vpop_inst (
    let! vpop_inst single d imm32 regs := component inst_base in
    sp ← reg 13;
    each_ext load_ext single (Z.to_nat regs) d sp ;;
    sp ← reg 13;
    m_simply (set_reg 13 (sp + imm32))).
(** The accesses of VSTM and VLDM, and the write back *)
Definition vfp_multiple (access : Z -> Z -> Z -> M unit) (single add wback d n imm32 regs : Z) : M unit :=
  address ← reg n;
  let address := if n =? 15 then u32 (address + 8) else address in
  let address := if add =? 0 then u32 (address - imm32) else address in
  each_ext access single (Z.to_nat regs) d address ;;
  if truth wback then r ← reg n; set_reg n (if truth add then r + imm32 else r - imm32) else mret tt.
(** The program counter moves by 4, in whatever state. *)
Definition VSTM_INST (inst_base : arm_inst) : M next :=
  s ← gets cpu;
  (if passes inst_base s then
     let! vstm_inst single add wback d n imm32 regs := component inst_base in
     vfp_multiple store_ext single add wback d n imm32 regs
   else mret tt) ;;
  pc ← reg 15;
  set_reg 15 (pc + 4) ;;
  mret (FETCH_NEXT sizeof_vstm_inst).
Definition VLDM_INST (inst_base : arm_inst) : M next :=
  m_conditional inst_base sizeof_vldm_inst (
    let! vldm_inst single add wback d n imm32 regs := component inst_base in
    m_simply (vfp_multiple load_ext single add wback d n imm32 regs)).
End Machine.
