(* ===== verification/VfpDivide.v ===== *)
(** Division of 128 bits by 64 ([vfp_estimate_div128to64]): the estimate is never too small and
    at most a few units too large, and its loops end. *)

From S2P Require Import Prelude ArmSupp ArmState VfpHelper VfpPack VfpSingle VfpDouble.

(** ** Signed 128-bit remainders *)

(** Two words that hold a signed number *)
Definition holds (h l rem : Z) : Prop := is_128 (h, l) (rem mod 2 ^ 128) /\ - 2 ^ 127 <= rem < 2 ^ 127.
Lemma holds_sign h l rem : holds h l rem -> (s64 h <? 0) = (rem <? 0).
Proof.
  intros [(Hh & Hl & Hv) Hr]. unfold value128, is_u64 in *. cbn [fst snd] in *. unfold s64.
  repeat case_bool; try done; exfalso; Z.to_euclidean_division_equations; lia.
Qed.
Lemma holds_pos h l rem : holds h l rem -> 0 <= rem -> h = rem / 2 ^ 64 /\ l = rem mod 2 ^ 64.
Proof.
  intros [(Hh & Hl & Hv) Hr] Hp. unfold value128, is_u64 in *. cbn [fst snd] in *. rewrite Z.mod_small in Hv by lia.
  split; Z.to_euclidean_division_equations; lia.
Qed.
Lemma holds_add h l rem ah al a : holds h l rem -> is_128 (ah, al) a -> - 2 ^ 127 <= rem + a < 2 ^ 127 ->
  exists h' l', add128 h l ah al = (h', l') /\ holds h' l' (rem + a).
Proof.
  intros [(Hh & Hl & Hv) Hr] (Hah & Hal & Ha) Hs. cbn [fst snd] in *. pose proof (add128_spec h l ah al Hh Hl Hah Hal) as H.
  destruct (add128 h l ah al) as [h' l']. exists h', l'. split; [done|]. split; [|done]. rewrite Hv, Ha, Zplus_mod_idemp_l in H. exact H.
Qed.
Lemma holds_sub h l rem ah al a : holds h l rem -> is_128 (ah, al) a -> - 2 ^ 127 <= rem - a < 2 ^ 127 ->
  exists h' l', sub128 h l ah al = (h', l') /\ holds h' l' (rem - a).
Proof.
  intros [(Hh & Hl & Hv) Hr] (Hah & Hal & Ha) Hs. cbn [fst snd] in *. pose proof (sub128_spec h l ah al Hh Hl Hah Hal) as H.
  destruct (sub128 h l ah al) as [h' l']. exists h', l'. split; [done|]. split; [|done]. rewrite Hv, Ha, Zminus_mod_idemp_l in H. exact H.
Qed.
Lemma holds_words n : 0 <= n < 2 ^ 63 -> holds n 0 (n * 2 ^ 64).
Proof.
  intros Hn. split; [|lia]. unfold is_128, value128, is_u64. cbn [fst snd]. rewrite Z.mod_small by lia. lia.
Qed.
Lemma u64_sub z a b : u64 (u64 (z - a) - b) = u64 (z - (a + b)).
Proof. unfold u64. rewrite Zminus_mod_idemp_l. f_equal. lia. Qed.

Section Estimate.
Context (nh m K : Z).
Hypothesis Hnh : 0 <= nh < m.
Hypothesis Hm : is_u64 m.
Hypothesis HK : 2 ^ 64 <= K * m.
Hypothesis HK4 : 0 < K <= 4.

(** A digit in base [2^32]: the quotient by the high half, and what it is worth *)
Definition digit (n : Z) : Z := if m / 2 ^ 32 * 2 ^ 32 <=? n then 2 ^ 32 - 1 else n / (m / 2 ^ 32).
Lemma high_half : 0 <= m / 2 ^ 32 < 2 ^ 32 /\ m / 2 ^ 32 * 2 ^ 32 <= m < (m / 2 ^ 32 + 1) * 2 ^ 32 /\ 0 < m / 2 ^ 32.
Proof using Hm HK HK4 Hnh. unfold is_u64 in Hm. assert (2 ^ 62 <= m) by nia. Z.to_euclidean_division_equations. lia. Qed.
Lemma digit_spec n : 0 <= n < m ->
  0 <= digit n < 2 ^ 32 /\ n * 2 ^ 32 < (digit n + 1) * m /\ digit n * m <= n * 2 ^ 32 + K * m.
Proof using Hm HK HK4 Hnh.
  intros Hn. destruct high_half as (Hh & Hb & Hp). unfold digit. set (mh := m / 2 ^ 32) in *. clearbody mh.
  assert (exists q, (if mh * 2 ^ 32 <=? n then 2 ^ 32 - 1 else n / mh) = q /\ 0 <= q < 2 ^ 32 /\ q * mh <= n /\ n * 2 ^ 32 < (q + 1) * m) as (q & -> & Hq0 & Hq1 & Hq2).
  { destruct (Z.leb_spec (mh * 2 ^ 32) n).
    - exists (2 ^ 32 - 1). split_and!; [done|lia|lia|nia|nia].
    - exists (n / mh). pose proof (Z.div_mod n mh ltac:(lia)) as Hd. pose proof (Z.mod_pos_bound n mh Hp).
      split_and!; [done|apply Z.div_pos; lia|apply Z.div_lt_upper_bound; lia|lia|].
      assert (n < (n / mh + 1) * mh) by lia. assert (n * 2 ^ 32 < (n / mh + 1) * mh * 2 ^ 32) by lia.
      assert (0 <= n / mh) by (apply Z.div_pos; lia). nia. }
  split_and!; [lia..|]. assert (q * m <= q * ((mh + 1) * 2 ^ 32)) by nia. nia.
Qed.

(** The loop: the remainder is raised by the divisor until it is not negative. *)
Lemma divisor_words : is_128 (m / 2 ^ 32, u64 (Z.shiftl m 32)) (m * 2 ^ 32).
Proof using Hm HK HK4 Hnh.
  unfold is_u64 in Hm. unfold is_128, value128, is_u64, u64. cbn [fst snd]. rewrite Z.shiftl_mul_pow2 by lia. split_and!; Z.to_euclidean_division_equations; lia.
Qed.
Lemma estimate_loop_spec fuel z h l rem (s : ARMul_State) :
  is_u64 z -> holds h l rem -> 0 <= rem + Z.of_nat fuel * (m * 2 ^ 32) -> rem < m * 2 ^ 32 ->
  exists j h' l', 0 <= j <= Z.of_nat fuel /\ estimate_loop (S fuel) z h l (m / 2 ^ 32) (u64 (Z.shiftl m 32)) s = Ret ((u64 (z - j * 2 ^ 32), h', l'), s) /\
    holds h' l' (rem + j * (m * 2 ^ 32)) /\ 0 <= rem + j * (m * 2 ^ 32) < m * 2 ^ 32.
Proof using Hm HK HK4 Hnh.
  revert z h l rem. induction fuel as [|fuel IH]; intros z h l rem Hz Hr Hf Hlt.
  all: remember (S _) as n eqn:En; cbn [estimate_loop]; subst n; cbn [estimate_loop]; rewrite (holds_sign _ _ _ Hr); destruct (Z.ltb_spec rem 0) as [Hneg|Hpos].
  1: lia.
  1, 3: exists 0, h, l; rewrite Z.mul_0_l, Z.sub_0_r, Z.add_0_r, (u64_small z) by done; split_and!; (done || lia).
  assert (Hm1 : 0 <= m < 2 ^ 64) by exact Hm. destruct (holds_add _ _ _ _ _ _ Hr divisor_words) as (h1 & l1 & Ea & Hr1); [destruct Hr; lia|].
  rewrite Ea. destruct (IH (u64 (z - 0x100000000)) h1 l1 (rem + m * 2 ^ 32)) as (j & h' & l' & Hj & El & Hr' & Hb).
  { apply Z.mod_pos_bound. lia. }
  { done. }
  { lia. }
  { lia. }
  exists (j + 1), h', l'. replace (rem + (j + 1) * (m * 2 ^ 32)) with (rem + m * 2 ^ 32 + j * (m * 2 ^ 32)) by ring.
  split_and!; [lia|lia| |done|lia|lia]. etrans; [exact El|]. rewrite u64_sub. do 5 f_equal. lia.
Qed.

(** The estimate is at least the quotient and exceeds it by at most [K]. *)
Lemma digit_code n : 0 <= n < m ->
  (if u64 (Z.shiftl (Z.shiftr m 32) 32) <=? n then 2 ^ 32 - 1 else n / Z.shiftr m 32) = digit n.
Proof using Hm HK HK4 Hnh.
  intros Hn. unfold is_u64 in Hm. unfold digit. rewrite Z.shiftl_mul_pow2, Z.shiftr_div_pow2 by lia. destruct high_half as (Hh & Hb & Hp).
  by rewrite u64_small by (unfold is_u64; lia).
Qed.
Lemma lor_digit q d : 0 <= d < 2 ^ 32 -> Z.lor (q * 2 ^ 32) d = q * 2 ^ 32 + d.
Proof using.
  intros Hd. apply (lor_disjoint _ _ 32); [lia|done|apply Z.mod_mul; lia].
Qed.
Lemma estimate_spec (s : ARMul_State) : nh < 2 ^ 63 ->
  exists z, vfp_estimate_div128to64 nh 0 m s = Ret (z, s) /\ is_u64 z /\ nh * 2 ^ 64 < (z + 1) * m /\ z * m <= nh * 2 ^ 64 + K * m.
Proof using Hm HK HK4 Hnh.
  intros Hs. unfold vfp_estimate_div128to64. rewrite (proj2 (Z.leb_gt m nh)) by lia.
  destruct (digit_spec nh Hnh) as (Hd1 & Hd2 & Hd3). pose proof (digit_code nh Hnh) as Ed. destruct high_half as (Hh & Hb & Hp).
  assert (Ez : (if u64 (Z.shiftl (Z.shiftr m 32) 32) <=? nh then 0xffffffff00000000 else u64 (Z.shiftl (nh / Z.shiftr m 32) 32)) = digit nh * 2 ^ 32).
  { rewrite <- Ed. case_bool; [done|]. rewrite Z.shiftl_mul_pow2 by lia. apply u64_small. unfold is_u64. lia. }
  rewrite Ez. set (q := digit nh) in *. clearbody q. clear Ez Ed. assert (Hz : is_u64 (q * 2 ^ 32)) by (unfold is_u64; lia).
  pose proof (mul64to128_spec m (q * 2 ^ 32) Hm Hz) as Ht. destruct (mul64to128 m (q * 2 ^ 32)) as [th tl].
  unfold is_u64 in Hm.
  assert (Hrem : - (K * (m * 2 ^ 32)) <= nh * 2 ^ 64 - m * (q * 2 ^ 32) < m * 2 ^ 32) by lia.
  assert (Hk : K * (m * 2 ^ 32) <= 4 * (m * 2 ^ 32)) by (apply Z.mul_le_mono_nonneg_r; lia).
  destruct (holds_sub nh 0 (nh * 2 ^ 64) th tl _ (holds_words nh ltac:(lia)) Ht) as (h & l & Es & Hr); [lia|]. rewrite Es.
  destruct (estimate_loop_spec 4 (q * 2 ^ 32) h l _ s Hz Hr) as (j & h' & l' & Hj & El & Hr' & Hb'); [lia..|].
  unfold mbind, M_bind. rewrite (Z.shiftr_div_pow2 m) by lia. rewrite El. clear El Es Hr Hrem Ht.
  set (rem := nh * 2 ^ 64 - m * (q * 2 ^ 32) + j * (m * 2 ^ 32)) in *.
  set (R := nh * 2 ^ 32 - (q - j) * m). assert (Erem : rem = R * 2 ^ 32) by (subst rem R; ring). clearbody rem. subst rem.
  assert (HR : 0 <= R < m) by lia. destruct (holds_pos _ _ _ Hr' ltac:(lia)) as [-> ->].
  assert (Elor : Z.lor (u64 (Z.shiftl (R * 2 ^ 32 / 2 ^ 64) 32)) (Z.shiftr ((R * 2 ^ 32) mod 2 ^ 64) 32) = R).
  { rewrite Z.shiftl_mul_pow2, Z.shiftr_div_pow2 by lia.
    replace (R * 2 ^ 32 / 2 ^ 64) with (R / 2 ^ 32) by (Z.to_euclidean_division_equations; lia).
    replace ((R * 2 ^ 32) mod 2 ^ 64 / 2 ^ 32) with (R mod 2 ^ 32) by (Z.to_euclidean_division_equations; lia).
    rewrite u64_small by (unfold is_u64; Z.to_euclidean_division_equations; lia).
    rewrite lor_digit by (apply Z.mod_pos_bound; lia). Z.to_euclidean_division_equations; lia. }
  rewrite Elor. destruct (digit_spec R HR) as (He1 & He2 & He3). pose proof (digit_code R HR) as Ee. rewrite Z.shiftr_div_pow2 in Ee by lia.
  assert (Hqj : 0 <= q - j).
  { apply Z.nlt_ge. intros Hn. assert ((q - j) * m <= - 1 * m) by (apply Z.mul_le_mono_nonneg_r; lia). lia. }
  rewrite (u64_small (q * 2 ^ 32 - j * 2 ^ 32)) by (unfold is_u64; lia). replace (q * 2 ^ 32 - j * 2 ^ 32) with ((q - j) * 2 ^ 32) by ring.
  exists ((q - j) * 2 ^ 32 + digit R). split_and!.
  - unfold mret, M_ret. do 2 f_equal. rewrite <- (lor_digit (q - j)) by done. rewrite <- Ee. by case_bool.
  - unfold is_u64. lia.
  - subst R. lia.
  - subst R. lia.
Qed.
End Estimate.

(** ** Quotients of significands *)

(** The quotient [x], where it is not exact, and [n / m] are on the same side of every
    multiple of [2^t]. *)
Definition approximates (t x n m : Z) : Prop := forall c,
  (x < c * 2 ^ t <-> n < c * 2 ^ t * m) /\ (c * 2 ^ t < x <-> c * 2 ^ t * m < n).
Lemma approximates_floor t q n m : 0 < t -> 0 < m -> q * m <= n < (q + 1) * m ->
  approximates t (Z.lor q (if n - q * m =? 0 then 0 else 1)) n m.
Proof.
  intros Ht Hm Hq c. assert (E : 2 ^ t = 2 * 2 ^ (t - 1)) by (rewrite <- Z.pow_succ_r by lia; f_equal; lia). rewrite E.
  set (e := c * (2 * 2 ^ (t - 1))). assert (He : exists k, e = 2 * k) by (exists (c * 2 ^ (t - 1)); subst e; ring). destruct He as [k Hk]. clearbody e. subst e. clear E.
  case_bool.
  - rewrite Z.lor_0_r. assert (n = q * m) as -> by lia. split; [apply Z.mul_lt_mono_pos_r, Hm|apply Z.mul_lt_mono_pos_r, Hm].
  - rewrite lor_1. assert (2 * (q / 2) <= q <= 2 * (q / 2) + 1) by (Z.to_euclidean_division_equations; lia).
    split; split; intros Hc; nia.
Qed.
Lemma approximates_above t q n m k : 0 <= t -> 0 < m -> q * m <= n + k * m -> n < (q + 1) * m -> 0 <= k < q mod 2 ^ t -> approximates t q n m.
Proof.
  intros Ht Hm Hq1 Hq2 Hk c. pose proof (Z.pow_pos_nonneg 2 t ltac:(lia) Ht) as Hp. pose proof (Z.div_mod q (2 ^ t) ltac:(lia)) as Hd. pose proof (Z.mod_pos_bound q _ Hp) as Hb.
  set (T := 2 ^ t) in *. set (r := q mod T) in *. set (h := q / T) in *. clearbody T r h.
  destruct (Z.lt_ge_cases h c) as [Hc|Hc].
  - assert (T * (h + 1) <= T * c) by (apply Z.mul_le_mono_nonneg_l; lia). assert ((q + 1) * m <= c * T * m) by (apply Z.mul_le_mono_nonneg_r; lia). lia.
  - assert (T * c <= T * h) by (apply Z.mul_le_mono_nonneg_l; lia). assert ((c * T + k + 1) * m <= q * m) by (apply Z.mul_le_mono_nonneg_r; lia). lia.
Qed.

Section DoubleQuotient.
Context (n m : Z).
Hypothesis Hn : 0 <= n < m.
Hypothesis Hm : 2 ^ 63 <= m < 2 ^ 64.
Hypothesis Hn63 : n < 2 ^ 63.

Lemma double_quotient_loop_spec fuel q h l rem (s : ARMul_State) :
  is_u64 q -> holds h l rem -> 0 <= rem + Z.of_nat fuel * m -> rem < m ->
  exists j, 0 <= j <= Z.of_nat fuel /\ double_quotient_loop (S fuel) q h l m s = Ret ((u64 (q - j), rem + j * m), s) /\ 0 <= rem + j * m < m.
Proof using Hn Hm.
  revert q h l rem. induction fuel as [|fuel IH]; intros q h l rem Hq Hr Hf Hlt.
  all: remember (S _) as k eqn:Ek; cbn [double_quotient_loop]; subst k; cbn [double_quotient_loop]; rewrite (holds_sign _ _ _ Hr); destruct (Z.ltb_spec rem 0) as [Hneg|Hpos].
  1: lia.
  1, 3: exists 0; rewrite Z.mul_0_l, Z.sub_0_r, Z.add_0_r, (u64_small q) by done; destruct (holds_pos _ _ _ Hr Hpos) as [-> ->]; rewrite (Z.mod_small rem) by lia; split_and!; (done || lia).
  assert (Hd : is_128 (0, m) m) by (unfold is_128, value128, is_u64; cbn [fst snd]; lia).
  destruct (holds_add _ _ _ _ _ _ Hr Hd) as (h1 & l1 & Ea & Hr1); [destruct Hr; lia|].
  rewrite Ea. destruct (IH (u64 (q - 1)) h1 l1 (rem + m)) as (j & Hj & El & Hb); [apply Z.mod_pos_bound; lia|done|lia|lia|].
  exists (j + 1). replace (rem + (j + 1) * m) with (rem + m + j * m) by ring. split_and!; [lia|lia| |lia|lia].
  etrans; [exact El|]. rewrite u64_sub. do 4 f_equal. lia.
Qed.
(** The quotient of two significands, before rounding: an estimate whose last nine bits are
    far from a tie, or the exact quotient with a sticky bit *)
Lemma double_digits (s : ARMul_State) : exists q, quotient_digits n m s = Ret (q, s) /\
  is_u64 q /\ approximates 9 q (n * 2 ^ 64) m /\ n * 2 ^ 64 < (q + 1) * m /\ q * m <= n * 2 ^ 64 + 2 * m.
Proof using Hn Hm Hn63.
  unfold quotient_digits.
  destruct (estimate_spec n m 2 ltac:(lia) ltac:(unfold is_u64; lia) ltac:(lia) ltac:(lia) s Hn63) as (q & Eq & Hq & Hlo & Hhi).
  unfold mbind at 1, M_bind at 1. rewrite Eq. change 0x1ff with (Z.ones 9). rewrite Z.land_ones by lia. case_bool.
  - pose proof (mul64to128_spec m q ltac:(unfold is_u64; lia) Hq) as Ht. destruct (mul64to128 m q) as [th tl].
    destruct (holds_sub n 0 (n * 2 ^ 64) th tl _ (holds_words n ltac:(lia)) Ht) as (h & l & Es & Hr); [lia|]. rewrite Es.
    destruct (double_quotient_loop_spec 3 q h l _ s Hq Hr) as (j & Hj & El & Hb); [lia..|]. unfold mbind, M_bind. rewrite El.
    set (q' := q - j). assert (Hrem : n * 2 ^ 64 - m * q + j * m = n * 2 ^ 64 - q' * m) by (subst q'; ring). rewrite Hrem in *.
    assert (Hq' : 0 <= q') by nia. unfold is_u64 in Hq. rewrite u64_small by (unfold is_u64; lia).
    unfold truth. pose proof (approximates_floor 9 q' (n * 2 ^ 64) m ltac:(lia) ltac:(lia) ltac:(lia)) as Ha.
    exists (Z.lor q' (if n * 2 ^ 64 - q' * m =? 0 then 0 else 1)). split; [by case_bool|]. revert Ha. case_bool; intros Ha.
    + rewrite Z.lor_0_r in *. unfold is_u64. split_and!; [lia..|done|lia|lia].
    + pose proof (lor_1 q') as E1. assert (q' <= Z.lor q' 1 <= q' + 1) by (rewrite E1; Z.to_euclidean_division_equations; lia).
      assert (Z.lor q' 1 < 2 ^ 64) by (rewrite E1; Z.to_euclidean_division_equations; lia). unfold is_u64. split_and!; [lia..|done|nia|nia].
  - exists q. split_and!; [done|apply Hq..| |done|done]. apply (approximates_above 9 q (n * 2 ^ 64) m 2); lia.
Qed.
End DoubleQuotient.

(** The digits of the quotient of two normal significands: the larger is halved. *)
Lemma double_quotient_digits sign_ vdn vdm (s : ARMul_State) :
  2 ^ 62 <= significand vdn < 2 ^ 63 -> 2 ^ 62 <= significand vdm < 2 ^ 63 -> significand vdn mod 2 = 0 ->
  exists q k, double_quotient sign_ vdn vdm s = Ret (mk_number (if k =? 1 then s16 (s16 (exponent vdn - exponent vdm + 1023 - 1) + 1) else s16 (exponent vdn - exponent vdm + 1023 - 1)) sign_ q, s) /\
    (k = 0 \/ k = 1) /\ 2 ^ 62 <= q < 2 ^ 64 /\ approximates 9 q (significand vdn * 2 ^ (64 - k)) (significand vdm * 2).
Proof.
  intros Hn Hm Heven. unfold double_quotient. rewrite Z.shiftl_mul_pow2 by lia. change (2 ^ 1) with 2. rewrite (u64_small (significand vdm * 2)), (u64_small (2 * significand vdn)) by (unfold is_u64; lia).
  destruct (Z.leb_spec (significand vdm * 2) (2 * significand vdn)).
  - rewrite Z.shiftr_div_pow2 by lia. change (2 ^ 1) with 2. assert (E : significand vdn * 2 ^ 63 = significand vdn / 2 * 2 ^ 64) by (Z.to_euclidean_division_equations; lia).
    destruct (double_digits (significand vdn / 2) (significand vdm * 2)) with (s := s) as (q & Eq & Hq & Ha & Hlo & Hhi); [Z.to_euclidean_division_equations; lia..|].
    exists q, 1. unfold mbind, M_bind. rewrite Eq. split; [done|]. split; [by right|]. change (64 - 1) with 63. rewrite E. split; [|done]. unfold is_u64 in Hq. split; [|lia].
    apply Z.nlt_ge. intros Hlt. assert ((q + 1) * (significand vdm * 2) <= 2 ^ 62 * (significand vdm * 2)) by (apply Z.mul_le_mono_nonneg_r; lia). lia.
  - destruct (double_digits (significand vdn) (significand vdm * 2)) with (s := s) as (q & Eq & Hq & Ha & Hlo & Hhi); [lia..|].
    exists q, 0. unfold mbind, M_bind. rewrite Eq. split; [done|]. split; [by left|]. change (64 - 0) with 64. split; [|done]. unfold is_u64 in Hq. split; [|lia].
    apply Z.nlt_ge. intros Hlt. assert ((q + 1) * (significand vdm * 2) <= 2 ^ 62 * (significand vdm * 2)) by (apply Z.mul_le_mono_nonneg_r; lia). lia.
Qed.
