(* ===== verification/VfpSqrt.v ===== *)
(** The square root of significands: the estimate of [vfp_estimate_sqrt_significand] is the
    root up to one unit, and the loops that adjust it end. *)

From S2P Require Import Prelude ArmSupp ArmState VfpHelper VfpPack VfpSingle VfpDouble VfpDivide.

(** ** Newton's iteration, from [g] for the root of [U] *)

Lemma newton_below g U e : 0 < g -> 0 <= e -> U + g * g <= 2 * g * e -> U <= e * e.
Proof.
  intros Hg He H. apply Z.nlt_ge. intros Hlt.
  assert (2 * g * e * (2 * g * e) < 4 * U * (g * g)).
  { replace (2 * g * e * (2 * g * e)) with (4 * (g * g) * (e * e)) by ring. replace (4 * U * (g * g)) with (4 * (g * g) * U) by ring.
    apply Z.mul_lt_mono_pos_l; [|done]. pose proof (Z.mul_pos_pos g g Hg Hg). lia. }
  assert (0 <= (U - g * g) * (U - g * g)) by apply Z.square_nonneg. assert (0 <= U + g * g) by (pose proof (Z.square_nonneg e); pose proof (Z.square_nonneg g); lia).
  assert ((U + g * g) * (U + g * g) <= 2 * g * e * (2 * g * e)) by (apply Z.mul_le_mono_nonneg; lia). lia.
Qed.
Lemma newton_above g U e t k : 0 < g -> 0 <= k <= g -> 0 <= t <= e -> 2 * g * e <= U + g * g ->
  (g - k) * (g - k) <= U <= (g + k) * (g + k) -> k * k <= 2 * g * t -> (e - t) * (e - t) <= U.
Proof.
  intros Hg Hk Ht H Hb Hkt. apply Z.nlt_ge. intros Hlt. remember (e - t) as u eqn:Eu. assert (e = u + t) as -> by lia. clear Eu.
  assert (k * k < (g - u) * (g - u)) by nia. destruct (Z.lt_ge_cases u (g - k)) as [Hu|Hu].
  - assert (u * u < (g - k) * (g - k)); [|lia]. apply Z.square_lt_mono_nonneg; lia.
  - assert (g + k < u) by (apply Z.nle_gt; intros Hle; assert (- k <= g - u <= k) by lia; nia). nia.
Qed.

(** ** The tables *)

(** The first approximation is within 210 of the root. *)
Ltac segments i := 
  assert (i = 0 \/ i = 1 \/ i = 2 \/ i = 3 \/ i = 4 \/ i = 5 \/ i = 6 \/ i = 7 \/ i = 8 \/ i = 9 \/ i = 10 \/ i = 11 \/ i = 12 \/ i = 13 \/ i = 14 \/ i = 15) as Hcases by lia;
  repeat (destruct Hcases as [->|Hcases]); [..|subst i].
Ltac table_entry :=
  match goal with |- context [at_ ?l (Z.to_nat ?i)] => let t := constr:(at_ l (Z.to_nat i)) in let v := eval vm_compute in t in replace t with v by (vm_compute; reflexivity) end.
Section Tables.
Context (a : Z).
Hypothesis Ha : 2 ^ 31 <= a < 2 ^ 32.
Let h := a / 2 ^ 17.
Let i := a / 2 ^ 27 - 16.
Lemma table_index : Z.land (Z.shiftr a 27) 15 = i /\ 0 <= i <= 15 /\ 1024 * (i + 16) <= h <= 1024 * (i + 16) + 1023 /\ h * 2 ^ 17 <= a < (h + 1) * 2 ^ 17.
Proof using Ha.
  subst h i. rewrite Z.shiftr_div_pow2 by lia. change 15 with (Z.ones 4) at 1. rewrite Z.land_ones by lia. Z.to_euclidean_division_equations. lia.
Qed.
Lemma odd_start : let z := 0x4000 + h - at_ sqrt_oddadjust (Z.to_nat i) in
  2 ^ 15 - 128 <= z < 2 ^ 16 /\ (4 * z - 600) * (4 * z - 600) <= 8 * a <= (4 * z + 600) * (4 * z + 600).
Proof using Ha.
  destruct table_index as (_ & Hi & Hh & Hah). clearbody h i. cbv zeta. remember (h - 1024 * (i + 16)) as x eqn:Ex. assert (h = 1024 * (i + 16) + x) as -> by lia. clear Ex.
  assert (0 <= x <= 1023) by lia. assert (0 <= x * x <= 1023 * x) by nia. segments i; table_entry; lia.
Qed.
Lemma even_start : let z := 0x8000 + h - at_ sqrt_evenadjust (Z.to_nat i) in
  46000 <= z < 2 ^ 16 /\ (2 * z - 420) * (2 * z - 420) <= 4 * a <= (2 * z + 420) * (2 * z + 420).
Proof using Ha.
  destruct table_index as (_ & Hi & Hh & Hah). clearbody h i. cbv zeta. remember (h - 1024 * (i + 16)) as x eqn:Ex. assert (h = 1024 * (i + 16) + x) as -> by lia. clear Ex.
  assert (0 <= x <= 1023) by lia. assert (0 <= x * x <= 1023 * x) by nia. segments i; table_entry; lia.
Qed.
End Tables.

(** One step: the mean of [g] and [U / g], rounded down *)
Lemma newton_step g U k t q : 0 < g -> 0 <= k <= g -> (g - k) * (g - k) <= U <= (g + k) * (g + k) -> k * k <= 2 * g * t -> 0 <= t <= q ->
  2 * g * q <= U + g * g < 2 * g * (q + 1) -> (q - t) * (q - t) <= U <= (q + 1) * (q + 1).
Proof.
  intros Hg Hk Hb Hkt Ht Hq. split; [apply (newton_above g U q t k); (done || lia)|]. apply (newton_below g); lia.
Qed.
Lemma newton_least g U q c : 0 < g -> c * c <= U -> U + g * g < 2 * g * (q + 1) -> c <= q.
Proof. intros Hg Hc Hq. pose proof (Z.square_nonneg (g - c)). apply Z.lt_succ_r, (Z.mul_lt_mono_pos_l (2 * g)); lia. Qed.
(** The mean, as the code computes it *)
Lemma mean_floor U g : 0 < g -> 2 * g * (U / g) <= 2 * U < 2 * g * (U / g) + 2 * g.
Proof. intros Hg. pose proof (Z.div_mod U g ltac:(lia)). pose proof (Z.mod_pos_bound U g Hg). lia. Qed.

Section Estimate.
Context (significand : Z) (s : ARMul_State).
Hypothesis Hs : 2 ^ 30 <= significand < 2 ^ 31.
(** What is asked of the estimate of the root of [T] *)
Definition root_estimate (T e : Z) : Prop := 2 ^ 31 <= e < 2 ^ 32 /\ (e - 1) * (e - 1) <= T <= (e + 1) * (e + 1).
Lemma root_estimate_step T g k e : 2 ^ 62 <= T <= 2 ^ 64 - 2 ^ 33 -> 2 ^ 30 <= g -> 0 <= k <= g -> (g - k) * (g - k) <= T <= (g + k) * (g + k) -> k * k <= 2 * g ->
  2 * g * e <= T + g * g < 2 * g * (e + 1) -> root_estimate T e.
Proof using.
  intros HT Hg Hk Hb Hkt He. assert (H1 : 2 ^ 31 <= e) by (apply (newton_least g T); lia).
  destruct (newton_step g T k 1 e ltac:(lia) ltac:(lia) Hb ltac:(lia) ltac:(lia) He) as [H2 H3]. split; [|lia]. split; [done|]. apply Z.nle_gt. intros Hle.
  assert ((2 ^ 32 - 1) * (2 ^ 32 - 1) <= (e - 1) * (e - 1)) by (apply Z.square_le_mono_nonneg; lia). lia.
Qed.
Lemma sqrt_step_spec a z k : 2 ^ 62 <= a * 2 ^ 32 <= 2 ^ 64 - 2 ^ 33 -> 2 ^ 30 <= z < 2 ^ 32 -> z mod 2 = 0 -> 0 <= k <= z ->
  (z - k) * (z - k) <= a * 2 ^ 32 <= (z + k) * (z + k) -> k * k <= 2 * z ->
  exists e, sqrt_step a z s = Ret (e, s) /\ root_estimate (a * 2 ^ 32) e.
Proof using.
  intros Ha Hz Heven Hk Hb Hkk. unfold sqrt_step, divide. rewrite (proj2 (Z.eqb_neq z 0)) by lia. rewrite Z.shiftl_mul_pow2, Z.shiftr_div_pow2 by lia.
  rewrite u64_small by (unfold is_u64; lia). pose proof (mean_floor (a * 2 ^ 31) z ltac:(lia)) as Hm. change (2 ^ 1) with 2. pose proof (Z.div_mod z 2 ltac:(lia)) as Hd.
  assert (Hr : root_estimate (a * 2 ^ 32) (a * 2 ^ 31 / z + z / 2)).
  { apply (root_estimate_step _ z k); [done|lia|done|done|done|]. set (v := a * 2 ^ 31 / z) in *. set (y := z / 2) in *. clearbody v y. assert (z = 2 * y) as -> by lia. lia. }
  exists (a * 2 ^ 31 / z + z / 2). split; [|done]. unfold mbind, M_bind, mret, M_ret. rewrite u32_small; [done|]. destruct Hr. unfold is_u32. lia.
Qed.
Lemma doubled : u32 (Z.shiftl significand 1) = significand * 2.
Proof using Hs. rewrite Z.shiftl_mul_pow2 by lia. apply u32_small. unfold is_u32. lia. Qed.
Lemma doubled_bounds : 2 ^ 31 <= significand * 2 < 2 ^ 32.
Proof using Hs. lia. Qed.
Lemma estimate_odd exponent : Z.land exponent 1 = 1 ->
  exists e, vfp_estimate_sqrt_significand exponent significand s = Ret (e, s) /\ root_estimate (significand * 2 ^ 32) e.
Proof using Hs.
  intros Ho. unfold vfp_estimate_sqrt_significand. rewrite doubled, Ho. destruct (table_index _ doubled_bounds) as (Ei & _ & _ & _). rewrite Ei.
  rewrite (Z.shiftr_div_pow2 (significand * 2) 17) by lia. destruct (odd_start _ doubled_bounds) as [Hz Hb]. set (z := 0x4000 + _ - _) in *. clearbody z. clear Ei.
  rewrite (u32_small z) by (unfold is_u32; lia). change (truth 1) with true. cbv iota. unfold divide at 1. rewrite (proj2 (Z.eqb_neq z 0)) by lia.
  unfold mbind at 1, M_bind at 1, mret at 1, M_ret at 1.
  pose proof (mean_floor (significand * 2) z ltac:(lia)) as Hm. set (q := significand * 2 / z) in *. clearbody q.
  assert (Hq : 0 <= q) by nia.
  destruct (newton_step (4 * z) (8 * (significand * 2)) 600 2 (q + 2 * z)) as [H1 H2]; [lia|lia|lia|lia|lia|lia|].
  assert (Hy : 2 ^ 16 <= q + 2 * z <= 200000) by nia. rewrite !Z.shiftl_mul_pow2 by lia.
  rewrite (Z.shiftr_div_pow2 _ 1) by lia. change (2 ^ 1) with 2. rewrite Z.div_mul by done.
  replace (u32 (q * 2 ^ 14 + z * 2 ^ 15)) with ((q + 2 * z) * 2 ^ 14) by (rewrite u32_small by (unfold is_u32; lia); lia).
  set (y := q + 2 * z) in *. clearbody y. apply (sqrt_step_spec significand (y * 2 ^ 14) (2 ^ 15)); [lia|lia| |lia|lia|lia].
  replace (y * 2 ^ 14) with (y * 2 ^ 13 * 2) by lia. by apply Z.mod_mul.
Qed.
Lemma estimate_even exponent : Z.land exponent 1 = 0 ->
  exists e, vfp_estimate_sqrt_significand exponent significand s = Ret (e, s) /\ root_estimate (significand * 2 ^ 33) e.
Proof using Hs.
  intros Ho. unfold vfp_estimate_sqrt_significand. rewrite doubled, Ho. destruct (table_index _ doubled_bounds) as (Ei & _ & _ & _). rewrite Ei.
  rewrite (Z.shiftr_div_pow2 (significand * 2) 17) by lia. destruct (even_start _ doubled_bounds) as [Hz Hb]. set (z := 0x8000 + _ - _) in *. clearbody z. clear Ei.
  rewrite (u32_small z) by (unfold is_u32; lia). change (truth 0) with false. cbv iota. unfold divide at 1. rewrite (proj2 (Z.eqb_neq z 0)) by lia.
  unfold mbind at 1, M_bind at 1, mret at 1, M_ret at 1.
  pose proof (mean_floor (significand * 2) z ltac:(lia)) as Hm. set (q := significand * 2 / z) in *. clearbody q.
  assert (Hq : 0 <= q) by nia.
  destruct (newton_step (2 * z) (4 * (significand * 2)) 420 1 (q + z)) as [H1 H2]; [lia|lia|lia|lia|lia|lia|].
  assert (Hy : 90000 <= q + z <= 140000) by nia. rewrite (u32_small (q + z)) by (unfold is_u32; lia).
  replace (significand * 2 ^ 33) with (significand * 2 * 2 ^ 32) by lia. set (y := q + z) in *. clearbody y. pose proof doubled_bounds as Ha.
  remember (significand * 2) as a eqn:Ea. clear Hm Hq Hb Hz Ho q z.
  assert (exists z, (if 0x20000 <=? y then 0xffff8000 else u32 (Z.shiftl y 15)) = z /\ 2 ^ 31 <= z < 2 ^ 32 /\ z mod 2 = 0 /\ (z - 2 ^ 15) * (z - 2 ^ 15) <= a * 2 ^ 32 <= (z + 2 ^ 15) * (z + 2 ^ 15)) as (z & -> & Hz & He & Hb).
  { case_bool.
    - exists 0xffff8000. split_and!; [done|lia|lia|done| |lia]. assert ((2 ^ 17 - 1) * (2 ^ 17 - 1) <= (y - 1) * (y - 1)) by (apply Z.square_le_mono_nonneg; lia). lia.
    - exists (y * 2 ^ 15). rewrite Z.shiftl_mul_pow2, u32_small by (unfold is_u32; lia). split_and!; [done|lia|lia| |lia|lia].
      replace (y * 2 ^ 15) with (y * 2 ^ 14 * 2) by lia. by apply Z.mod_mul. }
  clear H1 H2 Hy y. case_bool.
  - exists (a / 2 + 2 ^ 31). split.
    + unfold mret, M_ret. do 2 f_equal. rewrite s32_u32 by (unfold is_u32; lia). rewrite (proj2 (Z.ltb_ge a _)) by lia. rewrite Z.shiftr_div_pow2 by lia. unfold u32. Z.to_euclidean_division_equations; lia.
    + assert (a * 2 ^ 32 <= (a + 2 ^ 15) * (a + 2 ^ 15)) by nia. assert (2 ^ 32 - 2 ^ 17 < a) by nia.
      apply (root_estimate_step _ (2 ^ 32) (2 ^ 16)); [lia|lia|lia|lia|lia|]. pose proof (Z.div_mod a 2 ltac:(lia)). pose proof (Z.mod_pos_bound a 2 ltac:(lia)). lia.
  - apply (sqrt_step_spec a z (2 ^ 15)); lia.
Qed.
End Estimate.

(** ** The loops *)

(** [r] is the integer square root of [T], with a sticky bit for the rest. *)
Definition floor_root (T r : Z) : Prop := 0 <= r /\ r * r <= T < (r + 1) * (r + 1).

Lemma single_sqrt_loop_spec fuel x T (s : ARMul_State) : Z.of_nat fuel <= x < 2 ^ 32 -> (x - Z.of_nat fuel) * (x - Z.of_nat fuel) <= T < (x + 1) * (x + 1) -> Z.of_nat fuel <= 16 ->
  exists r, single_sqrt_loop (S fuel) x (T - x * x) s = Ret ((r, T - r * r), s) /\ floor_root T r /\ r <= x.
Proof.
  revert x. induction fuel as [|fuel IH]; intros x Hx HT Hf.
  all: remember (S _) as k eqn:Ek; cbn [single_sqrt_loop]; subst k; cbn [single_sqrt_loop]; destruct (Z.ltb_spec (T - x * x) 0) as [Hneg|Hpos].
  1: lia.
  1, 3: exists x; split; [done|]; unfold floor_root; lia.
  rewrite (u32_small (x - 1)) by (unfold is_u32; lia). rewrite Z.shiftl_mul_pow2, (u64_small ((x - 1) * 2 ^ 1)) by (unfold is_u64; lia).
  rewrite lor_1. replace ((x - 1) * 2 ^ 1 / 2) with (x - 1) by (change (2 ^ 1) with 2; by rewrite Z.div_mul).
  rewrite s64_small by (unfold is_s64; nia). replace (T - x * x + (2 * (x - 1) + 1)) with (T - (x - 1) * (x - 1)) by ring.
  destruct (IH (x - 1)) as (r & E & Hr & Hle); [lia| |lia|].
  { split; [|lia]. replace (x - 1 - Z.of_nat fuel) with (x - Z.of_nat (S fuel)) by lia. lia. }
  exists r. split_and!; [exact E|done|lia].
Qed.
Lemma shift64left_spec x : is_u64 x -> is_128 (let '(h, l) := shift64left x in (h, Z.lor l 1)) (2 * x + 1).
Proof.
  intros Hx. unfold shift64left, is_128, value128, is_u64 in *. cbn [fst snd]. rewrite lor_1, Z.shiftr_div_pow2, Z.shiftl_mul_pow2 by lia. unfold u64.
  split_and!; Z.to_euclidean_division_equations; lia.
Qed.
Lemma double_sqrt_loop_spec fuel x T h l (s : ARMul_State) : Z.of_nat fuel <= x < 2 ^ 64 -> (x - Z.of_nat fuel) * (x - Z.of_nat fuel) <= T < (x + 1) * (x + 1) -> Z.of_nat fuel <= 32 ->
  holds h l (T - x * x) -> exists r h' l', double_sqrt_loop (S fuel) x h l s = Ret ((r, h', l'), s) /\ floor_root T r /\ r <= x /\ holds h' l' (T - r * r).
Proof.
  revert x h l. induction fuel as [|fuel IH]; intros x h l Hx HT Hf Hh.
  all: remember (S _) as k eqn:Ek; cbn [double_sqrt_loop]; subst k; cbn [double_sqrt_loop]; rewrite (holds_sign _ _ _ Hh); destruct (Z.ltb_spec (T - x * x) 0) as [Hneg|Hpos].
  1: lia.
  1, 3: exists x, h, l; split; [done|]; unfold floor_root; split_and!; (done || lia).
  rewrite (u64_small (x - 1)) by (unfold is_u64; lia). pose proof (shift64left_spec (x - 1) ltac:(unfold is_u64; lia)) as Ht. destruct (shift64left (x - 1)) as [th tl].
  destruct (holds_add _ _ _ _ _ _ Hh Ht) as (h1 & l1 & Ea & Hr1); [nia|]. rewrite Ea.
  replace (T - x * x + (2 * (x - 1) + 1)) with (T - (x - 1) * (x - 1)) in Hr1 by ring.
  destruct (IH (x - 1) h1 l1) as (r & h' & l' & E & Hr & Hle & Hh'); [lia| |lia|done|].
  { split; [|lia]. replace (x - 1 - Z.of_nat fuel) with (x - Z.of_nat (S fuel)) by lia. lia. }
  exists r, h', l'. split_and!; [exact E|done|lia|done].
Qed.

(** ** Roots of significands *)

(** [x], where it is not exact, and the root of [T] are on the same side of every multiple
    of [2^t]. *)
Definition root_approximates (t x T : Z) : Prop := forall c, 0 <= c ->
  (x < c * 2 ^ t <-> T < c * 2 ^ t * (c * 2 ^ t)) /\ (c * 2 ^ t < x <-> c * 2 ^ t * (c * 2 ^ t) < T).
Lemma square_lt_iff a b : 0 <= a -> 0 <= b -> a < b <-> a * a < b * b.
Proof. intros Ha Hb. split; intros H; [by apply Z.square_lt_mono_nonneg|by apply Z.square_lt_simpl_nonneg]. Qed.
Lemma root_approximates_floor t r T : 0 < t -> floor_root T r -> root_approximates t (Z.lor r (if truth (T - r * r) then 1 else 0)) T.
Proof.
  intros Ht [Hr0 Hr] c Hc. assert (E : 2 ^ t = 2 * 2 ^ (t - 1)) by (rewrite <- Z.pow_succ_r by lia; f_equal; lia). rewrite E.
  pose proof (Z.pow_pos_nonneg 2 (t - 1) ltac:(lia) ltac:(lia)).
  assert (He : exists k, c * (2 * 2 ^ (t - 1)) = 2 * k /\ 0 <= k) by (exists (c * 2 ^ (t - 1)); split; [ring|nia]). destruct He as (k & -> & Hk). clear E.
  unfold truth. destruct (Z.eqb_spec (T - r * r) 0) as [E0|E0]; cbn [negb].
  - rewrite Z.lor_0_r. assert (T = r * r) as -> by lia. split; apply square_lt_iff; lia.
  - rewrite lor_1. assert (2 * (r / 2) <= r <= 2 * (r / 2) + 1) by (Z.to_euclidean_division_equations; lia). split; split; intros Hlt.
    + assert ((r + 1) * (r + 1) <= 2 * k * (2 * k)) by (apply Z.square_le_mono_nonneg; lia). lia.
    + assert (r < 2 * k) by (apply square_lt_iff; lia). lia.
    + assert (2 * k * (2 * k) <= r * r) by (apply Z.square_le_mono_nonneg; lia). lia.
    + assert (2 * k < r + 1) by (apply square_lt_iff; lia). lia.
Qed.
Lemma root_approximates_above t x T k : 0 <= t -> 0 <= k < x mod 2 ^ t -> 0 <= x -> (x - k) * (x - k) <= T -> T < (x + 1) * (x + 1) -> k <= x -> root_approximates t x T.
Proof.
  intros Ht Hk Hx Hlo Hhi Hkx c Hc. pose proof (Z.pow_pos_nonneg 2 t ltac:(lia) Ht) as Hp. pose proof (Z.div_mod x (2 ^ t) ltac:(lia)) as Hd. pose proof (Z.mod_pos_bound x _ Hp) as Hb.
  set (P := 2 ^ t) in *. set (r := x mod P) in *. set (h := x / P) in *. clearbody P r h.
  destruct (Z.lt_ge_cases h c) as [Hc'|Hc'].
  - assert (x + 1 <= c * P) by nia. assert ((x + 1) * (x + 1) <= c * P * (c * P)) by (apply Z.square_le_mono_nonneg; lia). lia.
  - assert (c * P < x - k) by nia. assert (0 <= c * P) by nia. assert (c * P * (c * P) < (x - k) * (x - k)) by (apply Z.square_lt_mono_nonneg; lia). lia.
Qed.

Section SingleRoot.
Context (exponent_ significand_ : Z) (s : ARMul_State).
Hypothesis Hs : 2 ^ 30 <= significand_ < 2 ^ 31.
(** The significand moved by the lowest bit of the exponent *)
Definition single_radicand : Z := significand_ * 2 ^ (33 - Z.land exponent_ 1).
Lemma land_1 z : Z.land z 1 = 0 \/ Z.land z 1 = 1.
Proof using. pose proof (Z.land_ones z 1 ltac:(lia)) as E. change (Z.ones 1) with 1 in E. rewrite E. pose proof (Z.mod_pos_bound z (2 ^ 1) ltac:(lia)). lia. Qed.
Lemma estimate_sqrt_spec : exists e, vfp_estimate_sqrt_significand exponent_ significand_ s = Ret (e, s) /\ root_estimate single_radicand e.
Proof using Hs.
  unfold single_radicand. destruct (land_1 exponent_) as [E|E]; rewrite E.
  - by apply estimate_even.
  - by apply estimate_odd.
Qed.
Lemma single_root vsm : exponent vsm = exponent_ -> significand vsm = significand_ ->
  exists x, single_square_root vsm s = Ret (mk_number (s16 (Z.shiftr (exponent_ - 127) 1 + 127)) 0 x, s) /\ 2 ^ 31 <= x < 2 ^ 32 /\ root_approximates 7 x single_radicand.
Proof using Hs.
  intros E1 E2. unfold single_square_root. rewrite E1, E2. clear E1 E2.
  destruct estimate_sqrt_spec as (e & Ee & He & Hlo & Hhi). unfold mbind at 1, M_bind at 1. rewrite Ee. clear Ee. cbv zeta. cbn [significand].
  assert (ET : exists m, u32 (Z.shiftl significand_ (if Z.land exponent_ 1 =? 0 then 1 else 0)) = m /\ m * 2 ^ 32 = single_radicand /\ 2 ^ 30 <= m < 2 ^ 32).
  { unfold single_radicand. destruct (land_1 exponent_) as [E|E]; rewrite E; rewrite Z.shiftl_mul_pow2 by done; eexists; (split; [done|]); cbn [Z.eqb Z.sub]; (rewrite u32_small by (unfold is_u32; lia)); lia. }
  destruct ET as (m & Em & ET & Hm). rewrite Em. rewrite <- ET in *. clear Em ET.
  change VFP_SINGLE_LOW_BITS_MASK with (Z.ones 7). rewrite Z.land_ones by lia. destruct (Z.lt_ge_cases (e + 2) (2 ^ 32)) as [Hw|Hw].
  - rewrite (u32_small (e + 2)) by (unfold is_u32; lia). rewrite (proj2 (Z.ltb_ge (e + 2) 2)) by lia. destruct (Z.leb_spec ((e + 2) mod 2 ^ 7) 5).
    + rewrite Z.shiftl_mul_pow2, (u64_small (m * 2 ^ 32)), (u64_small ((e + 2) * (e + 2))) by (unfold is_u64; nia).
      rewrite s64_small by (unfold is_s64; nia). destruct (single_sqrt_loop_spec 7 (e + 2) (m * 2 ^ 32) s) as (r & El & Hr & Hrx); [lia|nia|lia|].
      unfold mbind, M_bind. rewrite El. clear El. eexists. split; [reflexivity|]. split; [|apply root_approximates_floor; [lia|done]].
      destruct Hr as [Hr0 Hr]. assert (2 ^ 31 <= r).
      { apply Z.nlt_ge. intros Hlt. assert ((r + 1) * (r + 1) <= 2 ^ 31 * 2 ^ 31) by (apply Z.mul_le_mono_nonneg; lia). lia. }
      destruct (truth _); [rewrite lor_1|rewrite Z.lor_0_r]; Z.to_euclidean_division_equations; lia.
    + exists (e + 2). split; [done|]. split; [lia|]. apply (root_approximates_above _ _ _ 3); try lia. 
  - assert (Ew : u32 (e + 2) = e + 2 - 2 ^ 32) by (unfold u32; Z.to_euclidean_division_equations; lia). rewrite Ew, Z.mod_small by lia.
    rewrite (proj2 (Z.leb_le _ 5)), (proj2 (Z.ltb_lt _ 2)) by lia. exists 0xffffffff. split; [done|]. split; [lia|].
    apply (root_approximates_above _ _ _ 2); [lia|split; [lia|done]|lia| |lia|lia]. assert ((2 ^ 32 - 3) * (2 ^ 32 - 3) <= (e - 1) * (e - 1)) by (apply Z.square_le_mono_nonneg; lia). lia.
Qed.
End SingleRoot.

Section DoubleRoot.
Context (exponent_ significand_ : Z) (s : ARMul_State).
Hypothesis Hs : 2 ^ 62 <= significand_ <= 2 ^ 63 - 2 ^ 10.
Hypothesis Hlow : significand_ mod 2 ^ 10 = 0.
(** The radicand, divided by [2^64] *)
Definition double_radicand : Z := significand_ * 2 ^ (1 - Z.land exponent_ 1).
Lemma radicand_bounds : 2 ^ 62 <= double_radicand <= 2 ^ 64 - 2 ^ 11 /\ double_radicand = 4 * (significand_ / 2 ^ (1 + Z.land exponent_ 1)).
Proof using Hs Hlow. unfold double_radicand. destruct (land_1 exponent_) as [E|E]; rewrite E; cbn [Z.add Z.sub]; change (1 + 0) with 1; change (1 + 1) with 2; Z.to_euclidean_division_equations; lia. Qed.
Lemma radicand_estimate e : root_estimate (significand_ / 2 ^ 32 * 2 ^ (33 - Z.land exponent_ 1)) e ->
  2 ^ 31 <= e < 2 ^ 32 /\ (e - 1) * (e - 1) <= double_radicand <= (e + 4) * (e + 4).
Proof using Hs Hlow.
  intros (He & Hlo & Hhi). split; [done|]. unfold double_radicand. pose proof (Z.div_mod significand_ (2 ^ 32) ltac:(lia)) as Hd. pose proof (Z.mod_pos_bound significand_ (2 ^ 32) ltac:(lia)).
  destruct (land_1 exponent_) as [E|E]; rewrite E in *; change (33 - 0) with 33 in *; change (33 - 1) with 32 in *; change (1 - 0) with 1; change (1 - 1) with 0; lia.
Qed.
(** The first approximation, from the estimate [e] of the root and the estimate [z] of the quotient *)
Section Approximation.
Context (e z : Z).
Hypothesis He : 2 ^ 31 <= e < 2 ^ 32.
Hypothesis Hr : (e - 1) * (e - 1) <= double_radicand <= (e + 4) * (e + 4).
Hypothesis Hz1 : double_radicand * 2 ^ 31 < (z + 1) * e.
Hypothesis Hz2 : z * e <= double_radicand * 2 ^ 31 + 4 * e.
Let x : Z := e * 2 ^ 31 + (2 + z).
Lemma approximation_above : double_radicand * 2 ^ 64 < (x - 1) * (x - 1).
Proof using Hs Hlow He Hz1.
  clear Hr Hz2. destruct radicand_bounds as [Hb _]. set (R := double_radicand) in *. clearbody R. set (N := 2 ^ 31) in *. assert (HN : 2 ^ 64 = 4 * (N * N)) by (subst N; lia). assert (HNp : 0 < N) by (subst N; lia). clearbody N. rewrite HN. clear HN.
  assert (H1 : N * (e * e + R) < (x - 1) * e) by (subst x; lia). clearbody x.
  assert (H2 : N * (e * e + R) * (N * (e * e + R)) < (x - 1) * e * ((x - 1) * e)) by (apply Z.mul_lt_mono_nonneg; nia).
  assert (H3 : 4 * (e * e) * R <= (e * e + R) * (e * e + R)) by (pose proof (Z.square_nonneg (e * e - R)); lia).
  apply (Z.mul_lt_mono_pos_r (e * e)); [nia|].
  replace (N * (e * e + R) * (N * (e * e + R))) with (N * N * ((e * e + R) * (e * e + R))) in H2 by ring.
  assert (N * N * (4 * (e * e) * R) <= N * N * ((e * e + R) * (e * e + R))) by (apply Z.mul_le_mono_nonneg_l; nia). lia.
Qed.
Lemma approximation_below : (x - 22) * (x - 22) <= double_radicand * 2 ^ 64 /\ 31 <= x < 2 ^ 64.
Proof using Hs Hlow He Hr Hz1 Hz2.
  destruct radicand_bounds as [Hb _]. set (R := double_radicand) in *. clearbody R. assert (Hz : 0 <= z) by nia. assert (Hx : 2 ^ 62 <= x) by (subst x; lia).
  assert (H : (x - 6 - 16) * (x - 6 - 16) <= R * 2 ^ 64).
  { apply (newton_above (2 * e * 2 ^ 31) (R * 2 ^ 64) (x - 6) 16 (8 * 2 ^ 31)); subst x; lia. }
  replace (x - 6 - 16) with (x - 22) in H by lia. split_and!; [done|lia|]. clearbody x. apply Z.nle_gt. intros Hle.
  assert ((2 ^ 64 - 2 ^ 10) * (2 ^ 64 - 2 ^ 10) <= (x - 22) * (x - 22)) by (apply Z.square_le_mono_nonneg; lia). lia.
Qed.
End Approximation.
Lemma double_root vdm : exponent vdm = exponent_ -> significand vdm = significand_ ->
  exists x, double_square_root vdm s = Ret (mk_number (s16 (Z.shiftr (exponent_ - 1023) 1 + 1023)) 0 x, s) /\ is_u64 x.
Proof using Hs Hlow.
  intros E1 E2. unfold double_square_root. rewrite E1, E2. clear E1 E2.
  assert (Etop : u32 (Z.shiftr significand_ 32) = significand_ / 2 ^ 32 /\ 2 ^ 30 <= significand_ / 2 ^ 32 < 2 ^ 31).
  { rewrite Z.shiftr_div_pow2 by lia. assert (2 ^ 30 <= significand_ / 2 ^ 32 < 2 ^ 31) by (Z.to_euclidean_division_equations; lia). split; [|done]. apply u32_small. unfold is_u32. lia. }
  destruct Etop as [-> Htop]. destruct (estimate_sqrt_spec exponent_ (significand_ / 2 ^ 32) s Htop) as (e & Ee & He%radicand_estimate). destruct He as [He Hr].
  destruct radicand_bounds as [Hb Em]. unfold mbind at 1, M_bind at 1. rewrite Ee. clear Ee. cbv zeta. cbn [significand].
  rewrite (Z.shiftr_div_pow2 significand_) by (destruct (land_1 exponent_); lia). set (m := significand_ / 2 ^ (1 + Z.land exponent_ 1)) in *. clearbody m.
  rewrite Z.shiftl_mul_pow2, (u64_small (e * 2 ^ 31)) by (unfold is_u64; lia).
  destruct (estimate_spec m (e * 2 ^ 31) 4 ltac:(lia) ltac:(unfold is_u64; lia) ltac:(lia) ltac:(lia) s ltac:(lia)) as (z & Ez & Hz & Hz1 & Hz2).
  unfold mbind at 1, M_bind at 1. rewrite Ez. clear Ez. rewrite Em in Hb, Hr.
  assert (Hd1 : double_radicand * 2 ^ 31 < (z + 1) * e) by lia. assert (Hd2 : z * e <= double_radicand * 2 ^ 31 + 4 * e) by lia. rewrite <- Em in Hr.
  pose proof (approximation_above e z He Hd1) as Ha. destruct (approximation_below e z He Hr Hd1 Hd2) as [Hbelow Hx].
  assert (Ex : u64 (e * 2 ^ 31 + u64 (2 + z)) = e * 2 ^ 31 + (2 + z)) by (unfold is_u64 in Hz; rewrite (u64_small (2 + z)), u64_small by (unfold is_u64; lia); done).
  rewrite Ex. clear Ex. set (x := e * 2 ^ 31 + (2 + z)) in *. clearbody x. clear Hz1 Hz2 Hd1 Hd2 Hz Hr z.
  destruct (_ <=? 5); [|exists x; split; [done|unfold is_u64; lia]]. rewrite (proj2 (Z.ltb_ge x 2)) by lia.
  rewrite Z.shiftl_mul_pow2, (u64_small (m * 2 ^ 2)) by (unfold is_u64; lia).
  pose proof (mul64to128_spec x x ltac:(unfold is_u64; lia) ltac:(unfold is_u64; lia)) as (Hth & Htl & Ht). destruct (mul64to128 x x) as [th tl].
  pose proof (sub128_spec (m * 2 ^ 2) 0 th tl ltac:(unfold is_u64; lia) ltac:(unfold is_u64; lia) Hth Htl) as Hsub. destruct (sub128 _ _ _ _) as [rh rl].
  rewrite Ht in Hsub. assert (Hh : holds rh rl (double_radicand * 2 ^ 64 - x * x)).
  { unfold value128 in Hsub at 1. cbn [fst snd] in Hsub. rewrite Em in *. split; [|lia]. replace (4 * m * 2 ^ 64) with (m * 2 ^ 2 * 2 ^ 64 + 0) by lia. exact Hsub. }
  destruct (double_sqrt_loop_spec 31 x (double_radicand * 2 ^ 64) rh rl s) as (r & h' & l' & El & Hfl & Hrx & _); [lia| |lia|done|].
  { split; [|nia]. assert ((x - Z.of_nat 31) * (x - Z.of_nat 31) <= (x - 22) * (x - 22)) by (apply Z.square_le_mono_nonneg; lia). lia. }
  unfold mbind, M_bind. rewrite El. clear El. eexists. split; [reflexivity|]. destruct Hfl as [Hr0 _]. unfold is_u64 in *.
  destruct (truth _); [rewrite lor_1|rewrite Z.lor_0_r]; Z.to_euclidean_division_equations; lia.
Qed.
End DoubleRoot.
