(* ===== verification/VfpNumber.v ===== *)
(** Numbers in their two formats: the fields of a word, the value of a word, and what
    unpacking and normalising a denormal give. *)

From S2P Require Import Prelude ArmSupp ArmState VfpHelper VfpPack.

(** ** Formats *)

Record format := mk_format { mantissa_bits : Z; exponent_bits : Z }.
Definition binary32 : format := mk_format 23 8.
Definition binary64 : format := mk_format 52 11.
(** The bits of a significand below those of the word, and the position of its highest bit *)
Definition low_bits (f : format) : Z := exponent_bits f - 1.
Definition high_bit (f : format) : Z := mantissa_bits f + exponent_bits f - 1.
(** The exponent of infinities and NaNs *)
Definition special (f : format) : Z := 2 ^ exponent_bits f - 1.

(** The fields of a word *)
Definition field_sign (f : format) (v : Z) : bool := Z.testbit v (mantissa_bits f + exponent_bits f).
Definition field_exponent (f : format) (v : Z) : Z := v / 2 ^ mantissa_bits f mod 2 ^ exponent_bits f.
Definition field_mantissa (f : format) (v : Z) : Z := v mod 2 ^ mantissa_bits f.
(** The word without its sign *)
Definition field_magnitude (f : format) (v : Z) : Z := v mod 2 ^ (mantissa_bits f + exponent_bits f).

(** The value of a magnitude, in units of the smallest denormal *)
Definition magnitude_value (f : format) (d : Z) : Z :=
  let m := d mod 2 ^ mantissa_bits f in
  let e := d / 2 ^ mantissa_bits f in
  if e =? 0 then m else (2 ^ mantissa_bits f + m) * 2 ^ (e - 1).

(** What unpacking gives, but for flushing *)
Definition unpacked (f : format) (v : Z) : vfp_number :=
  let e := field_exponent f v in
  mk_number e (if field_sign f v then 2 ^ 15 else 0)
    (field_mantissa f v * 2 ^ low_bits f + (if (e =? 0) || (e =? special f) then 0 else 2 ^ high_bit f)).
(** Denormals that count as zero *)
Definition flushed (f : format) (v fpscr : Z) : bool :=
  Z.testbit fpscr 24 && (field_exponent f v =? 0) && negb (field_mantissa f v =? 0).

Lemma land_mask_div v n k : 0 <= n -> 0 <= k -> Z.land (Z.shiftr v n) (Z.shiftl 1 k - 1) = v / 2 ^ n mod 2 ^ k.
Proof.
  intros Hn Hk. rewrite Z.shiftr_div_pow2, Z.shiftl_mul_pow2, Z.mul_1_l by done. rewrite <- Z.land_ones by done. f_equal. rewrite Z.ones_equiv. lia.
Qed.
Lemma land_mask v k : 0 <= k -> Z.land v (Z.shiftl 1 k - 1) = v mod 2 ^ k.
Proof. intros Hk. rewrite <- (Z.shiftr_0_r v) at 1. rewrite land_mask_div by lia. by rewrite Z.div_1_r. Qed.
Lemma single_exponent v : vfp_single_packed_exponent v = field_exponent binary32 v.
Proof. by apply (land_mask_div v 23 8). Qed.
Lemma double_exponent v : vfp_double_packed_exponent v = field_exponent binary64 v.
Proof. by apply (land_mask_div v 52 11). Qed.
Lemma single_mantissa v : vfp_single_packed_mantissa v = field_mantissa binary32 v.
Proof. by apply (land_mask v 23). Qed.
Lemma double_mantissa v : vfp_double_packed_mantissa v = field_mantissa binary64 v.
Proof. by apply (land_mask v 52). Qed.
Lemma packed_sign v n k : 0 <= k <= n -> Z.shiftr (Z.land v (2 ^ n)) k = if Z.testbit v n then 2 ^ (n - k) else 0.
Proof.
  intros Hk. rewrite land_pow2 by lia. destruct (Z.testbit v n); [|apply Z.shiftr_0_l]. rewrite Z.shiftr_div_pow2 by lia.
  symmetry. apply Z.pow_sub_r; lia.
Qed.
Lemma mod_mod_pow v k w : 0 <= k <= w -> (v mod 2 ^ w) mod 2 ^ k = v mod 2 ^ k.
Proof.
  intros Hk. pose proof (Z.pow_pos_nonneg 2 k ltac:(lia) ltac:(lia)). pose proof (Z.pow_pos_nonneg 2 w ltac:(lia) ltac:(lia)).
  rewrite (Z.div_mod v (2 ^ w)) at 2 by lia. replace (2 ^ w * (v / 2 ^ w)) with (2 ^ (w - k) * (v / 2 ^ w) * 2 ^ k).
  - rewrite Z.add_comm. symmetry. apply Z.mod_add. lia.
  - replace (2 ^ w) with (2 ^ (w - k) * 2 ^ k) by (rewrite <- Z.pow_add_r by lia; f_equal; lia). ring.
Qed.
(** The mantissa, moved to its place *)
Lemma moved_mantissa v w m : 2 <= w - m -> 0 <= m -> Z.shiftr (Z.shiftl (v mod 2 ^ w) (w - m) mod 2 ^ w) 2 = v mod 2 ^ m * 2 ^ (w - m - 2).
Proof.
  intros Hw Hm. rewrite Z.shiftl_mul_pow2, Z.shiftr_div_pow2 by lia.
  assert (E : 2 ^ w = 2 ^ m * 2 ^ (w - m)) by (rewrite <- Z.pow_add_r by lia; f_equal; lia).
  pose proof (Z.pow_pos_nonneg 2 m ltac:(lia) Hm). pose proof (Z.pow_pos_nonneg 2 (w - m) ltac:(lia) ltac:(lia)).
  rewrite E at 2. rewrite Z.mul_mod_distr_r by lia. rewrite mod_mod_pow by lia.
  replace (2 ^ (w - m)) with (2 ^ (w - m - 2) * 2 ^ 2) by (rewrite <- Z.pow_add_r by lia; f_equal; lia).
  rewrite Z.mul_assoc. by apply Z.div_mul.
Qed.
Lemma field_exponent_range f v : 0 <= exponent_bits f -> 0 <= field_exponent f v < 2 ^ exponent_bits f.
Proof. intros H. apply Z.mod_pos_bound. by apply Z.pow_pos_nonneg. Qed.
Lemma field_mantissa_range f v : 0 <= mantissa_bits f -> 0 <= field_mantissa f v < 2 ^ mantissa_bits f.
Proof. intros H. apply Z.mod_pos_bound. by apply Z.pow_pos_nonneg. Qed.

(** By the exponent: of a zero or a denormal, of an infinity or a NaN, of another number *)
Ltac by_exponent e last E0 b :=
  let H1 := fresh in let H2 := fresh in let H3 := fresh in
  assert (e = 0 \/ e = last \/ (truth e = true /\ (e =? 0) = false /\ (e =? last) = false)) as [->|[->|(H1 & H2 & H3)]]
    by (unfold truth; destruct (Z.eqb_spec e 0), (Z.eqb_spec e last); auto);
  [cbn -[Z.pow Z.mul]; rewrite E0, Z.add_0_r; clear E0; destruct b, (_ =? 0); done
  |cbn -[Z.pow Z.mul]; rewrite E0, Z.add_0_r; clear E0; destruct b, (_ =? 0); repeat case_match; done
  |rewrite H1, H2, H3; cbn -[Z.pow Z.mul]; destruct b; [by rewrite andb_false_r|done]].
Lemma vfp_single_unpack_spec v fpscr :
  vfp_single_unpack v fpscr = if flushed binary32 v fpscr then (mk_number 0 0 0, FPSCR_IDC) else (unpacked binary32 v, 0).
Proof.
  unfold vfp_single_unpack. rewrite single_exponent. unfold vfp_single_packed_sign. change (0x80000000) with (2 ^ 31). rewrite packed_sign by lia.
  assert (Em : Z.shiftr (u32 (Z.shiftl (u32 v) (32 - VFP_SINGLE_MANTISSA_BITS))) 2 = field_mantissa binary32 v * 2 ^ 7)
    by exact (moved_mantissa v 32 23 ltac:(lia) ltac:(lia)).
  rewrite !Em. clear Em.
  pose proof (field_mantissa_range binary32 v ltac:(done)) as Hm. pose proof (field_exponent_range binary32 v ltac:(done)) as He.
  unfold flushed, unpacked. change (field_sign binary32 v) with (Z.testbit v 31). change (mantissa_bits binary32) with 23 in *. change (exponent_bits binary32) with 8 in *.
  set (e := field_exponent binary32 v) in *. set (m := field_mantissa binary32 v) in *. clearbody e m.
  change FPSCR_FLUSH_TO_ZERO with (2 ^ 24). rewrite (land_pow2 fpscr 24) by lia. change (high_bit binary32) with 30.
  change (low_bits binary32) with 7. change (special binary32) with 255. change (31 - 16) with 15. unfold vfp_single_type. cbn [exponent sign significand].
  assert (El : Z.lor (m * 2 ^ 7) (0x40000000) = m * 2 ^ 7 + 2 ^ 30).
  { change (0x40000000) with (2 ^ 30). rewrite Z.lor_comm, (lor_disjoint _ _ 30), Z.add_comm; [done|lia|lia|done]. }
  rewrite El. clear El. assert (E0 : (m * 2 ^ 7 =? 0) = (m =? 0)) by (repeat case_bool; (done || lia)).
  generalize (Z.testbit v 31), (Z.testbit fpscr 24). intros sv b. by_exponent e 255 E0 b.
Qed.
Lemma vfp_double_unpack_spec v fpscr :
  vfp_double_unpack v fpscr = if flushed binary64 v fpscr then (mk_number 0 0 0, FPSCR_IDC) else (unpacked binary64 v, 0).
Proof.
  unfold vfp_double_unpack. rewrite double_exponent. unfold vfp_double_packed_sign. change (Z.shiftl 1 63) with (2 ^ 63). rewrite packed_sign by lia.
  assert (Em : Z.shiftr (u64 (Z.shiftl (u64 v) (64 - VFP_DOUBLE_MANTISSA_BITS))) 2 = field_mantissa binary64 v * 2 ^ 10)
    by exact (moved_mantissa v 64 52 ltac:(lia) ltac:(lia)).
  rewrite !Em. clear Em.
  pose proof (field_mantissa_range binary64 v ltac:(done)) as Hm. pose proof (field_exponent_range binary64 v ltac:(done)) as He.
  unfold flushed, unpacked. change (field_sign binary64 v) with (Z.testbit v 63). change (mantissa_bits binary64) with 52 in *. change (exponent_bits binary64) with 11 in *.
  set (e := field_exponent binary64 v) in *. set (m := field_mantissa binary64 v) in *. clearbody e m.
  change FPSCR_FLUSH_TO_ZERO with (2 ^ 24). rewrite (land_pow2 fpscr 24) by lia. change (high_bit binary64) with 62.
  change (low_bits binary64) with 10. change (special binary64) with 2047. change (63 - 48) with 15. unfold vfp_double_type. cbn [exponent sign significand].
  assert (El : Z.lor (m * 2 ^ 10) (Z.shiftl 1 62) = m * 2 ^ 10 + 2 ^ 62).
  { change (Z.shiftl 1 62) with (2 ^ 62). rewrite Z.lor_comm, (lor_disjoint _ _ 62), Z.add_comm; [done|lia|lia|done]. }
  rewrite El. clear El. assert (E0 : (m * 2 ^ 10 =? 0) = (m =? 0)) by (repeat case_bool; (done || lia)).
  generalize (Z.testbit v 63), (Z.testbit fpscr 24). intros sv b. by_exponent e 2047 E0 b.
Qed.

(** ** Kinds of numbers *)

Definition type_of (f : format) (v : Z) : Z :=
  let e := field_exponent f v in
  let m := field_mantissa f v in
  if e =? special f then if m =? 0 then VFP_INFINITY else if Z.testbit m (mantissa_bits f - 1) then VFP_QNAN else VFP_SNAN
  else if e =? 0 then if m =? 0 then Z.lor VFP_NUMBER VFP_ZERO else Z.lor VFP_NUMBER VFP_DENORMAL
  else VFP_NUMBER.
(** Numbers that are not zero *)
Definition is_proper (f : format) (v : Z) : bool := negb (field_exponent f v =? special f) && negb ((field_exponent f v =? 0) && (field_mantissa f v =? 0)).
Lemma quiet_bit m k n : 0 <= k -> 0 <= n -> truth (Z.land (m * 2 ^ k) (2 ^ (n + k))) = Z.testbit m n.
Proof.
  intros Hk Hn. rewrite land_pow2 by lia. rewrite Z.mul_pow2_bits by lia. replace (n + k - k) with n by lia.
  destruct (Z.testbit m n); [|done]. unfold truth. rewrite (proj2 (Z.eqb_neq _ 0)); [done|]. lia.
Qed.
Lemma vfp_single_type_spec v : vfp_single_type (unpacked binary32 v) = type_of binary32 v.
Proof.
  pose proof (field_mantissa_range binary32 v ltac:(done)) as Hm. unfold vfp_single_type, type_of, unpacked. cbn [exponent sign significand].
  change (special binary32) with 255. change (low_bits binary32) with 7. change (mantissa_bits binary32 - 1) with 22.
  rewrite <- (quiet_bit _ 7 22) by lia. set (m := field_mantissa binary32 v) in *. assert (E0 : (m * 2 ^ 7 =? 0) = (m =? 0)) by (repeat case_bool; (done || lia)).
  destruct (field_exponent binary32 v =? 255); [|destruct (field_exponent binary32 v =? 0)].
  - rewrite orb_true_r. cbv iota. by rewrite Z.add_0_r, E0.
  - cbn [orb]. cbv iota. by rewrite Z.add_0_r, E0.
  - done.
Qed.
Lemma vfp_double_type_spec v : vfp_double_type (unpacked binary64 v) = type_of binary64 v.
Proof.
  pose proof (field_mantissa_range binary64 v ltac:(done)) as Hm. unfold vfp_double_type, type_of, unpacked. cbn [exponent sign significand].
  change (special binary64) with 2047. change (low_bits binary64) with 10. change (mantissa_bits binary64 - 1) with 51.
  rewrite <- (quiet_bit _ 10 51) by lia. set (m := field_mantissa binary64 v) in *. assert (E0 : (m * 2 ^ 10 =? 0) = (m =? 0)) by (repeat case_bool; (done || lia)).
  destruct (field_exponent binary64 v =? 2047); [|destruct (field_exponent binary64 v =? 0)].
  - rewrite orb_true_r. cbv iota. by rewrite Z.add_0_r, E0.
  - cbn [orb]. cbv iota. by rewrite Z.add_0_r, E0.
  - done.
Qed.
(** The tests of the operations *)
Lemma type_tests f v :
  truth (Z.land (type_of f v) (Z.lor VFP_NAN VFP_INFINITY)) = (field_exponent f v =? special f) /\
  truth (Z.land (type_of f v) VFP_ZERO) = negb (field_exponent f v =? special f) && (field_exponent f v =? 0) && (field_mantissa f v =? 0) /\
  truth (Z.land (type_of f v) VFP_DENORMAL) = negb (field_exponent f v =? special f) && (field_exponent f v =? 0) && negb (field_mantissa f v =? 0).
Proof.
  unfold type_of. destruct (_ =? special f); [destruct (_ =? 0); [|destruct (Z.testbit _ _)]; done|]. destruct (field_exponent f v =? 0); [|done].
  by destruct (field_mantissa f v =? 0).
Qed.

(** ** Proper numbers

    A number between the smallest and the largest: its significand is normal, and its value, in
    units of the smallest denormal, is its significand times a power of two. The exponents are
    all moved up by [offset], since they may be negative. *)

Definition offset : Z := 5000.
Record proper (f : format) (n : vfp_number) (x : Z) : Prop := {
  proper_top : 2 ^ high_bit f <= significand n < 2 ^ (high_bit f + 1);
  proper_low : significand n mod 2 ^ low_bits f = 0;
  proper_exponent : 1 - mantissa_bits f <= exponent n < special f;
  proper_value : x * 2 ^ (low_bits f + 1 + offset) = significand n * 2 ^ (exponent n + offset);
}.
Definition value_of (f : format) (v : Z) : Z := magnitude_value f (field_magnitude f v).
Lemma value_of_fields f v : 0 <= mantissa_bits f -> 0 <= exponent_bits f ->
  value_of f v = if field_exponent f v =? 0 then field_mantissa f v else (2 ^ mantissa_bits f + field_mantissa f v) * 2 ^ (field_exponent f v - 1).
Proof.
  intros Hm He. unfold value_of, magnitude_value, field_magnitude. pose proof (Z.pow_pos_nonneg 2 (mantissa_bits f) ltac:(lia) Hm). pose proof (Z.pow_pos_nonneg 2 (exponent_bits f) ltac:(lia) He).
  rewrite mod_mod_pow by lia. assert (E : v mod 2 ^ (mantissa_bits f + exponent_bits f) / 2 ^ mantissa_bits f = field_exponent f v); [|by rewrite E].
  rewrite Z.pow_add_r, Z.rem_mul_r by lia. symmetry. apply Z.div_unique with (v mod 2 ^ mantissa_bits f); [left; by apply Z.mod_pos_bound|apply Z.add_comm].
Qed.
Definition sane (f : format) : Prop := 1 <= mantissa_bits f <= 60 /\ 2 <= exponent_bits f <= 11.
Lemma sane32 : sane binary32.
Proof. unfold sane. cbn. lia. Qed.
Lemma sane64 : sane binary64.
Proof. unfold sane. cbn. lia. Qed.
Lemma unpacked_proper f v : sane f -> field_exponent f v <> 0 -> field_exponent f v <> special f -> proper f (unpacked f v) (value_of f v).
Proof.
  intros [Hp Hq] He0 Hes. rewrite value_of_fields by lia. unfold unpacked. rewrite (proj2 (Z.eqb_neq _ _) He0), (proj2 (Z.eqb_neq _ _) Hes). cbn [orb].
  pose proof (field_mantissa_range f v ltac:(lia)) as Hm. pose proof (field_exponent_range f v ltac:(lia)) as He. unfold special in Hes.
  set (e := field_exponent f v) in *. set (m := field_mantissa f v) in *. clearbody e m. unfold low_bits, high_bit, special in *.
  destruct f as [p q]. cbn [mantissa_bits exponent_bits] in *.
  assert (El : 2 ^ (p + q - 1) = 2 ^ p * 2 ^ (q - 1)) by (rewrite <- Z.pow_add_r by lia; f_equal; lia). pose proof (Z.pow_pos_nonneg 2 (q - 1) ltac:(lia) ltac:(lia)).
  pose proof (Z.pow_pos_nonneg 2 p ltac:(lia) ltac:(lia)).
  split; unfold low_bits, high_bit, special; cbn [exponent significand mantissa_bits exponent_bits].
  - rewrite Z.pow_add_r by lia. rewrite El. change (2 ^ 1) with 2. nia.
  - rewrite El. rewrite <- Z.mul_add_distr_r. apply Z.mod_mul. lia.
  - lia.
  - rewrite El, <- Z.mul_add_distr_r, <- !Z.mul_assoc, <- !Z.pow_add_r by (unfold offset; lia). rewrite (Z.add_comm m). do 2 f_equal. lia.
Qed.
Lemma denormal_proper f m bits s : sane f -> 0 < m < 2 ^ mantissa_bits f -> 1 <= bits -> 2 ^ high_bit f <= m * 2 ^ low_bits f * 2 ^ bits < 2 ^ (high_bit f + 1) ->
  proper f (mk_number (1 - bits) s (m * 2 ^ low_bits f * 2 ^ bits)) m.
Proof.
  intros [Hp Hq] Hm Hb Ht. pose proof (Z.pow_pos_nonneg 2 bits ltac:(lia) ltac:(lia)). assert (Hl : 0 < low_bits f) by (unfold low_bits; lia).
  pose proof (Z.pow_pos_nonneg 2 (low_bits f) ltac:(lia) ltac:(lia)).
  assert (Hbits : bits <= mantissa_bits f).
  { assert (2 ^ (low_bits f + bits) < 2 ^ (high_bit f + 1)) as Hlt%Z.pow_lt_mono_r_iff by (rewrite Z.pow_add_r by lia; nia || lia); unfold high_bit, low_bits in *; lia. }
  split; cbn [exponent significand]; [done| | |].
  - rewrite <- Z.mul_assoc, (Z.mul_comm (2 ^ low_bits f)), Z.mul_assoc. apply Z.mod_mul. lia.
  - unfold special. pose proof (Z.pow_le_mono_r 2 2 (exponent_bits f) ltac:(lia) ltac:(lia)). lia.
  - rewrite <- !Z.mul_assoc, <- !Z.pow_add_r by (unfold offset; lia). do 2 f_equal. lia.
Qed.
Lemma half_bounds x k n : 1 <= k -> 2 ^ n <= x * 2 ^ k < 2 * 2 ^ n -> 2 ^ n <= 2 * (x * 2 ^ (k - 1)) < 2 * 2 ^ n.
Proof. intros Hk H. replace k with (k - 1 + 1) in H by lia. rewrite Z.pow_add_r in H by lia. lia. Qed.
Lemma truth_nonzero z : z <> 0 -> truth z = true.
Proof. intros H. unfold truth. by rewrite (proj2 (Z.eqb_neq z 0)). Qed.
Lemma single_normalise_proper v s : 0 < v < 2 ^ 23 ->
  exists n, vfp_single_normalise_denormal (mk_number 0 s (v * 2 ^ 7)) = n /\ proper binary32 n v /\ sign n = s /\ exponent n <= 0.
Proof.
  intros Hv. unfold vfp_single_normalise_denormal. cbn [exponent sign significand]. destruct (norm_shift32 (v * 2 ^ 7)) as [Hr Hb]; [unfold is_u32; lia|lia|].
  set (r := fls (v * 2 ^ 7)) in *. clearbody r. assert (Hr1 : r < 31).
  { apply Z.nle_gt. intros Hle. assert (2 ^ (32 - r) <= 2 ^ 1) by (apply Z.pow_le_mono_r; lia). assert (v * 2 ^ 7 * 2 ^ (32 - r) <= v * 2 ^ 7 * 2) by (apply Z.mul_le_mono_nonneg_l; lia). lia. }
  rewrite truth_nonzero by lia. eexists. split; [done|].
  pose proof (half_bounds (v * 2 ^ 7) (32 - r) 31 ltac:(lia) Hb) as Hh. replace (32 - r - 1) with (31 - r) in Hh by lia. assert (Hb' : 2 ^ 30 <= v * 2 ^ 7 * 2 ^ (31 - r) < 2 ^ 31) by lia.
  pose proof (denormal_proper binary32 v (31 - r) s sane32 Hv ltac:(lia) Hb') as Hp.
  rewrite Z.shiftl_mul_pow2, u32_small by (unfold is_u32; lia). pose proof (proper_exponent _ _ _ Hp) as He. cbn in He.
  replace (s16 (0 - (31 - r - 1))) with (1 - (31 - r)) by (unfold s16; Z.to_euclidean_division_equations; lia).
  split_and!; [exact Hp|done|cbn; lia].
Qed.
Lemma double_normalise_proper v s : 0 < v < 2 ^ 52 ->
  exists n, vfp_double_normalise_denormal (mk_number 0 s (v * 2 ^ 10)) = n /\ proper binary64 n v /\ sign n = s /\ exponent n <= 0.
Proof.
  intros Hv. unfold vfp_double_normalise_denormal. cbn [exponent sign significand]. destruct (norm_shift64 (v * 2 ^ 10)) as [Hr Hb]; [unfold is_u64; lia|lia|].
  set (h := fls (u32 (Z.shiftr (v * 2 ^ 10) 32))) in *. set (l := fls (u32 (v * 2 ^ 10))) in *. clearbody h l.
  assert (Ebits : (if 31 - h =? 31 then 63 - l else 31 - h) = (if 32 - h =? 32 then 64 - l else 32 - h) - 1) by (repeat case_bool; lia).
  rewrite Ebits. clear Ebits. set (r := if 32 - h =? 32 then 64 - l else 32 - h) in *. clearbody r. assert (Hr1 : 2 <= r).
  { apply Z.nlt_ge. intros Hle. assert (2 ^ r <= 2 ^ 1) by (apply Z.pow_le_mono_r; lia). assert (v * 2 ^ 10 * 2 ^ r <= v * 2 ^ 10 * 2) by (apply Z.mul_le_mono_nonneg_l; lia). lia. }
  rewrite truth_nonzero by lia. eexists. split; [done|].
  pose proof (half_bounds (v * 2 ^ 10) r 63 ltac:(lia) Hb) as Hh. assert (Hb' : 2 ^ 62 <= v * 2 ^ 10 * 2 ^ (r - 1) < 2 ^ 63) by lia.
  pose proof (denormal_proper binary64 v (r - 1) s sane64 Hv ltac:(lia) Hb') as Hp.
  rewrite Z.shiftl_mul_pow2, u64_small by (unfold is_u64; lia). pose proof (proper_exponent _ _ _ Hp) as He. cbn in He.
  replace (s16 (0 - (r - 1 - 1))) with (1 - (r - 1)) by (unfold s16; Z.to_euclidean_division_equations; lia).
  split_and!; [exact Hp|done|cbn; lia].
Qed.
(** A proper number, normalised *)
Lemma single_proper v (b : bool) : is_proper binary32 v = true -> b = truth (Z.land (vfp_single_type (unpacked binary32 v)) VFP_DENORMAL) ->
  exists n, (if b then vfp_single_normalise_denormal (unpacked binary32 v) else unpacked binary32 v) = n /\ proper binary32 n (value_of binary32 v) /\ sign n = sign (unpacked binary32 v).
Proof.
  intros Hp ->. rewrite vfp_single_type_spec. destruct (type_tests binary32 v) as (_ & _ & ->). unfold is_proper in Hp.
  pose proof (field_mantissa_range binary32 v ltac:(done)) as Hm.
  destruct (Z.eqb_spec (field_exponent binary32 v) (special binary32)) as [|Hs]; [done|]. destruct (Z.eqb_spec (field_exponent binary32 v) 0) as [E0|E0].
  - destruct (Z.eqb_spec (field_mantissa binary32 v) 0) as [|Hn]; [done|]. cbn in Hm.
    rewrite value_of_fields, E0 by done. unfold unpacked. rewrite E0. cbn [negb andb Z.eqb orb sign]. rewrite Z.add_0_r.
    edestruct (single_normalise_proper (field_mantissa binary32 v)) as (n & En & Hn' & Hsn & _); [lia|]. exists n. split_and!; [exact En|done|done].
  - eexists. split_and!; [done| |done]. by apply (unpacked_proper _ _ sane32).
Qed.
Lemma double_proper v (b : bool) : is_proper binary64 v = true -> b = truth (Z.land (vfp_double_type (unpacked binary64 v)) VFP_DENORMAL) ->
  exists n, (if b then vfp_double_normalise_denormal (unpacked binary64 v) else unpacked binary64 v) = n /\ proper binary64 n (value_of binary64 v) /\ sign n = sign (unpacked binary64 v).
Proof.
  intros Hp ->. rewrite vfp_double_type_spec. destruct (type_tests binary64 v) as (_ & _ & ->). unfold is_proper in Hp.
  pose proof (field_mantissa_range binary64 v ltac:(done)) as Hm.
  destruct (Z.eqb_spec (field_exponent binary64 v) (special binary64)) as [|Hs]; [done|]. destruct (Z.eqb_spec (field_exponent binary64 v) 0) as [E0|E0].
  - destruct (Z.eqb_spec (field_mantissa binary64 v) 0) as [|Hn]; [done|]. cbn in Hm.
    rewrite value_of_fields, E0 by done. unfold unpacked. rewrite E0. cbn [negb andb Z.eqb orb sign]. rewrite Z.add_0_r.
    edestruct (double_normalise_proper (field_mantissa binary64 v)) as (n & En & Hn' & Hsn & _); [lia|]. exists n. split_and!; [exact En|done|done].
  - eexists. split_and!; [done| |done]. by apply (unpacked_proper _ _ sane64).
Qed.
