(* ===== verification/VfpRound.v ===== *)
(** Rounding, as IEEE 754 has it: an exact result is known by how it compares with every
    number; it lies between two consecutive numbers of the format, and the rounding mode
    chooses one of them. *)

From S2P Require Import Prelude ArmSupp VfpHelper VfpNumber ArmState VfpPack VfpDivide VfpSqrt.

(** ** Specification *)

(** Exact results, in units of half the smallest denormal: how they compare with each integer *)
Definition exact_result : Type := Z -> comparison.
(** The rounding of a magnitude: in the modes towards an infinity it depends on the sign. *)
Inductive rounding := ToNearest | ToZero | AwayFromZero.
Definition rounding_of (fpscr : Z) (negative : bool) : rounding :=
  let rmode := Z.land fpscr FPSCR_RMODE_MASK in
  if rmode =? FPSCR_ROUND_NEAREST then ToNearest
  else if rmode =? FPSCR_ROUND_TOZERO then ToZero
  else if xorb (rmode =? FPSCR_ROUND_PLUSINF) negative then AwayFromZero
  else ToZero.
(** [d] is the rounded result, if the exponents had no upper bound: [d0] and [d0 + 1] are the
    neighbours of the exact one; at their midpoint the one with an even mantissa is chosen. *)
Definition rounds (f : format) (r : rounding) (x : exact_result) (d : Z) : Prop := exists d0,
  0 <= d0 /\ x (2 * magnitude_value f d0) <> Lt /\ x (2 * magnitude_value f (d0 + 1)) = Lt /\
  d = match r with
      | ToZero => d0
      | AwayFromZero => if bool_decide (x (2 * magnitude_value f d0) = Eq) then d0 else d0 + 1
      | ToNearest =>
          match x (magnitude_value f d0 + magnitude_value f (d0 + 1)) with
          | Lt => d0
          | Gt => d0 + 1
          | Eq => if Z.even d0 then d0 else d0 + 1
          end
      end.
(** Beyond the largest number, the result is infinity, or the largest number when magnitudes
    are rounded down. *)
Definition infinity (f : format) : Z := special f * 2 ^ mantissa_bits f.
Definition overflows (f : format) (d : Z) : bool := infinity f <=? d.
Definition in_range (f : format) (r : rounding) (d : Z) : Z :=
  if overflows f d then match r with ToZero => infinity f - 1 | _ => infinity f end else d.
(** The exceptions: of an overflow, of a result that is not exact, of an underflow (which is
    raised only with the one before) *)
Definition inexact (f : format) (x : exact_result) (d : Z) : bool := match x (2 * magnitude_value f d) with Eq => false | _ => true end.
Definition raised (overflow lost underflow : bool) : Z :=
  (if overflow then FPSCR_OFC else 0) + (if overflow || lost then FPSCR_IXC else 0) + (if underflow then FPSCR_UFC else 0).
(** The result and the exceptions are those of the exact result [x]. *)
Definition correctly_rounded (f : format) (r : rounding) (x : exact_result) (magnitude exceptions : Z) : Prop :=
  exists d underflow, rounds f r x d /\ magnitude = in_range f r d /\ exceptions = raised (overflows f d) (inexact f x d) underflow /\
    (underflow = true -> inexact f x d = true).

(** ** Consecutive numbers *)

Lemma magnitude_value_at f e m : 0 <= mantissa_bits f -> 0 <= e -> 0 <= m <= 2 ^ (mantissa_bits f + 1) -> e = 0 \/ 2 ^ mantissa_bits f <= m ->
  magnitude_value f (e * 2 ^ mantissa_bits f + m) = m * 2 ^ e.
Proof.
  intros Hp He Hm Hn. unfold magnitude_value. rewrite Z.pow_add_r in Hm by lia. set (P := 2 ^ mantissa_bits f) in *.
  assert (HP : 0 < P) by (subst P; lia). clearbody P. change (2 ^ 1) with 2 in Hm.
  assert (Hdiv : forall k r, 0 <= r < P -> (k * P + r) / P = k /\ (k * P + r) mod P = r).
  { intros k r Hr. split; [symmetry; apply Z.div_unique with r; lia|symmetry; apply Z.mod_unique with k; lia]. }
  destruct (Z.eq_dec m (P * 2)) as [->|Hm2]; [|destruct (Z.lt_ge_cases m P) as [Hlt|Hge]].
  - replace (e * P + P * 2) with ((e + 2) * P + 0) by ring. destruct (Hdiv (e + 2) 0 ltac:(lia)) as [-> ->].
    rewrite (proj2 (Z.eqb_neq _ 0)) by lia. rewrite Z.add_0_r. replace (e + 2 - 1) with (1 + e) by lia. rewrite Z.pow_add_r by lia. change (2 ^ 1) with 2. ring.
  - destruct Hn as [->|?]; [|lia]. destruct (Hdiv 0 m ltac:(lia)) as [-> ->]. cbn. lia.
  - replace (e * P + m) with ((e + 1) * P + (m - P)) by ring. destruct (Hdiv (e + 1) (m - P) ltac:(lia)) as [-> ->].
    rewrite (proj2 (Z.eqb_neq _ 0)) by lia. replace (e + 1 - 1) with e by lia. f_equal. lia.
Qed.

(** ** The algorithm *)

(** What is added to the bits that are dropped *)
Definition increment (f : format) (r : rounding) (s : Z) : Z :=
  match r with
  | ToNearest => if Z.testbit s (exponent_bits f) then 2 ^ (exponent_bits f - 1) else 2 ^ (exponent_bits f - 1) - 1
  | ToZero => 0
  | AwayFromZero => 2 ^ exponent_bits f - 1
  end.
(** The magnitude of the significand [s], normal or with the exponent 0 *)
Definition rounded_up (f : format) (r : rounding) (e s : Z) : Z :=
  e * 2 ^ mantissa_bits f + (s + increment f r s) / 2 ^ exponent_bits f.
(** Significands of tiny numbers are denormalised first. *)
Definition denormalised (e s : Z) : Z * Z := if e <? 0 then (0, jam s (- e)) else (e, s).
Definition rounded_magnitude (f : format) (r : rounding) (e s : Z) : Z := let '(e, s) := denormalised e s in in_range f r (rounded_up f r e s).
(** Whether bits of the significand are dropped *)
Definition drops (f : format) (s : Z) : bool := negb (s mod 2 ^ exponent_bits f =? 0).
Definition rounded_exceptions (f : format) (r : rounding) (e s : Z) (underflow : bool) : Z :=
  let '(e, s) := denormalised e s in raised (overflows f (rounded_up f r e s)) (drops f s) underflow.
(** The width of a significand is one more. *)
Definition last_bit (f : format) : Z := mantissa_bits f + exponent_bits f.

(** The significand [s] with the exponent [e] is on the same side as the exact result of
    every number and every midpoint. *)
Definition same_side (f : format) (e s : Z) (x : exact_result) : Prop := forall j, 0 <= j -> x (j * 2 ^ e) = (s ?= j * 2 ^ (exponent_bits f - 1)).

Lemma compare_shift a b c : (a + b ?= a + c) = (b ?= c).
Proof. destruct (Z.compare_spec (a + b) (a + c)), (Z.compare_spec b c); (done || lia). Qed.
Lemma even_shifted e p m : 1 <= p -> Z.even (e * 2 ^ p + m) = Z.even m.
Proof. intros Hp. rewrite Z.even_add, Z.even_mul, Z.even_pow by lia. change (Z.even 2) with true. rewrite orb_true_r. by destruct (Z.even m). Qed.
Lemma increment_spec f r m t : 1 <= exponent_bits f -> 0 <= t < 2 ^ exponent_bits f ->
  (m * 2 ^ exponent_bits f + t + increment f r (m * 2 ^ exponent_bits f + t)) / 2 ^ exponent_bits f = m +
  match r with
  | ToZero => 0
  | AwayFromZero => if t =? 0 then 0 else 1
  | ToNearest => match t ?= 2 ^ (exponent_bits f - 1) with Lt => 0 | Gt => 1 | Eq => if Z.even m then 0 else 1 end
  end.
Proof.
  intros Hq Ht. unfold increment. set (Q := exponent_bits f) in *. assert (HQ2 : 2 ^ Q = 2 * 2 ^ (Q - 1)) by (rewrite <- Z.pow_succ_r by lia; f_equal; lia).
  rewrite Z.testbit_odd, Z.shiftr_div_pow2 by lia. rewrite Z.div_add_l, (Z.div_small t), Z.add_0_r by lia. rewrite <- Z.negb_even.
  set (H := 2 ^ (Q - 1)) in *. clearbody H. rewrite HQ2 in *. clear HQ2. rewrite <- Z.add_assoc, Z.div_add_l by lia. f_equal. symmetry.
  assert (Hdiv : forall y k, k * (2 * H) <= y < (k + 1) * (2 * H) -> k = y / (2 * H)) by (intros y k Hy; apply Z.div_unique with (y - k * (2 * H)); lia).
  destruct r; cbv iota; [|apply Hdiv; lia|destruct (Z.eqb_spec t 0); apply Hdiv; lia].
  destruct (Z.compare_spec t H); destruct (Z.even m); cbn [negb]; apply Hdiv; lia.
Qed.
Lemma rounded_up_rounds f r e s x : sane f -> 0 <= e -> 0 <= s < 2 ^ (last_bit f + 1) -> e = 0 \/ 2 ^ last_bit f <= s ->
  same_side f e s x -> rounds f r x (rounded_up f r e s) /\ inexact f x (rounded_up f r e s) = drops f s.
Proof.
  intros [Hp Hq] He Hs Hn Hx. unfold last_bit, rounded_up, rounds in *.
  assert (HQ2 : 2 ^ exponent_bits f = 2 * 2 ^ (exponent_bits f - 1)) by (rewrite <- Z.pow_succ_r by lia; f_equal; lia).
  assert (Hb : 2 ^ (mantissa_bits f + exponent_bits f) = 2 ^ mantissa_bits f * 2 ^ exponent_bits f) by (apply Z.pow_add_r; lia).
  assert (Hb1 : 2 ^ (mantissa_bits f + exponent_bits f + 1) = 2 ^ (mantissa_bits f + 1) * 2 ^ exponent_bits f) by (rewrite <- Z.pow_add_r by lia; f_equal; lia).
  pose proof (Z.div_mod s (2 ^ exponent_bits f) ltac:(lia)) as Hd. pose proof (Z.mod_pos_bound s (2 ^ exponent_bits f) ltac:(lia)) as Hr.
  pose proof (increment_spec f r (s / 2 ^ exponent_bits f) (s mod 2 ^ exponent_bits f) ltac:(lia) Hr) as Hi.
  rewrite (Z.mul_comm (s / _)), <- Hd in Hi. rewrite Hi. clear Hi. set (m := s / 2 ^ exponent_bits f) in *. set (t := s mod 2 ^ exponent_bits f) in *. clearbody m t.
  assert (Hm : 0 <= m < 2 ^ (mantissa_bits f + 1)) by (rewrite Hb1 in Hs; nia). assert (Hm' : e = 0 \/ 2 ^ mantissa_bits f <= m) by (destruct Hn; [by left|right; rewrite Hb in *; nia]).
  pose proof (Z.pow_pos_nonneg 2 e ltac:(lia) He) as HE. pose proof (Z.pow_pos_nonneg 2 (mantissa_bits f) ltac:(lia) ltac:(lia)) as HP.
  assert (Hx0 : x (2 * magnitude_value f (e * 2 ^ mantissa_bits f + m)) = (t ?= 0) /\ x (2 * magnitude_value f (e * 2 ^ mantissa_bits f + m + 1)) = (t ?= 2 ^ exponent_bits f) /\
    x (magnitude_value f (e * 2 ^ mantissa_bits f + m) + magnitude_value f (e * 2 ^ mantissa_bits f + m + 1)) = (t ?= 2 ^ (exponent_bits f - 1))).
  { rewrite <- Z.add_assoc. rewrite (magnitude_value_at f e m), (magnitude_value_at f e (m + 1)) by lia.
    replace (2 * (m * 2 ^ e)) with (2 * m * 2 ^ e) by ring. replace (2 * ((m + 1) * 2 ^ e)) with ((2 * m + 2) * 2 ^ e) by ring.
    replace (m * 2 ^ e + (m + 1) * 2 ^ e) with ((2 * m + 1) * 2 ^ e) by ring. rewrite !Hx by lia. rewrite HQ2 in *. set (H := 2 ^ (exponent_bits f - 1)) in *. clearbody H.
    rewrite Hd. replace (2 * m * H) with (2 * H * m + 0) by ring. replace ((2 * m + 2) * H) with (2 * H * m + 2 * H) by ring. replace ((2 * m + 1) * H) with (2 * H * m + H) by ring.
    by rewrite !compare_shift. }
  destruct Hx0 as (X0 & X1 & X2). unfold drops. replace (s mod 2 ^ exponent_bits f) with t by (rewrite Hd, Z.mul_comm, Z.add_comm, Z.mod_add, Z.mod_small by lia; done).
  split.
  - exists (e * 2 ^ mantissa_bits f + m). rewrite X0, X1, X2. rewrite even_shifted by lia. split; [nia|]. split; [rewrite Z.compare_lt_iff; lia|]. split; [apply Z.compare_lt_iff; lia|].
    destruct r; cbv iota; [|lia|].
    + destruct (t ?= 2 ^ (exponent_bits f - 1)); [destruct (Z.even m)| |]; lia.
    + rewrite (bool_decide_ext _ _ (Z.compare_eq_iff t 0)). case_bool_decide; case_bool; lia.
  - match goal with |- inexact f x (_ + (m + ?k)) = _ => assert ((k = 0 \/ k = 1) /\ (t = 0 -> k = 0)) as [Hk H0] end.
    { destruct r; cbv iota; [|auto|destruct (Z.eqb_spec t 0); auto; lia]. split.
      - destruct (t ?= 2 ^ (exponent_bits f - 1)); [destruct (Z.even m)| |]; auto.
      - intros ->. by rewrite (proj2 (Z.compare_lt_iff 0 (2 ^ (exponent_bits f - 1)))) by lia. }
    rewrite Z.add_assoc. unfold inexact. destruct Hk as [Ek|Ek]; rewrite Ek in *.
    + rewrite Z.add_0_r, X0. by destruct (Z.compare_spec t 0), (Z.eqb_spec t 0); try lia.
    + rewrite X1, (proj2 (Z.compare_lt_iff t _)) by lia. destruct (Z.eqb_spec t 0) as [Et|]; [by specialize (H0 Et)|done].
Qed.

(** ** From exact results to significands *)

(** [s], with the exponent [e] of any sign, is on the same side as [x] of what is a number or a
    midpoint for this exponent. *)
Definition sees (f : format) (e s : Z) (x : exact_result) : Prop :=
  forall j, 0 <= j -> x (j * 2 ^ Z.max e 0) = (s ?= j * 2 ^ (exponent_bits f - 1 + Z.max (- e) 0)).
Lemma jam_compare v n c : 0 <= n -> (jam v n ?= 2 * c) = (v ?= 2 * c * 2 ^ n).
Proof.
  intros Hn. pose proof (jam_lt v n c Hn) as H1. pose proof (lt_jam v n c Hn) as H2.
  destruct (Z.compare_spec (jam v n) (2 * c)), (Z.compare_spec v (2 * c * 2 ^ n)); (done || lia).
Qed.
Lemma jam_upper v n b : 0 <= n -> 0 <= b -> v < 2 * b -> jam v n < 2 * b.
Proof. intros Hn Hb Hv. apply jam_lt; [done|]. pose proof (Z.pow_pos_nonneg 2 n ltac:(lia) Hn). nia. Qed.
Lemma denormalised_same_side f e s x : sane f -> sees f e s x -> let '(e', s') := denormalised e s in same_side f e' s' x.
Proof.
  intros [Hp Hq] Hs. unfold denormalised. case_bool; intros j Hj.
  - rewrite Z.mul_1_r. specialize (Hs j Hj). rewrite Z.max_r, Z.max_l, Z.mul_1_r in Hs by lia. rewrite Hs.
    assert (E : j * 2 ^ (exponent_bits f - 1) = 2 * (j * 2 ^ (exponent_bits f - 2))).
    { replace (exponent_bits f - 1) with (Z.succ (exponent_bits f - 2)) by lia. rewrite Z.pow_succ_r by lia. ring. }
    rewrite E, jam_compare, <- E by lia. by rewrite Z.pow_add_r, Z.mul_assoc by lia.
  - specialize (Hs j Hj). rewrite Z.max_l, Z.max_r, Z.add_0_r in Hs by lia. exact Hs.
Qed.
Lemma rounded_magnitude_correct f r e s x u : sane f -> 2 ^ last_bit f <= s < 2 ^ (last_bit f + 1) -> sees f e s x ->
  (u = true -> drops f (snd (denormalised e s)) = true) -> correctly_rounded f r x (rounded_magnitude f r e s) (rounded_exceptions f r e s u).
Proof.
  intros Hf Hb Hs Hu. pose proof (denormalised_same_side f e s x Hf Hs) as Hd. unfold rounded_magnitude, rounded_exceptions, denormalised in *. pose proof Hf as [Hp Hq].
  assert (E : 2 ^ (last_bit f + 1) = 2 * 2 ^ last_bit f) by (apply Z.pow_succ_r; unfold last_bit; lia).
  pose proof (Z.pow_pos_nonneg 2 (last_bit f) ltac:(lia) ltac:(unfold last_bit; lia)).
  destruct (Z.ltb_spec e 0).
  - destruct (rounded_up_rounds f r 0 (jam s (- e)) x Hf) as [Hr Hi]; [lia| |by left|exact Hd|].
    + rewrite E in *. split; [apply jam_nonneg; lia|apply jam_upper; lia].
    + eexists _, u. rewrite Hi. split_and!; [exact Hr|done|done|exact Hu].
  - destruct (rounded_up_rounds f r e s x Hf) as [Hr Hi]; [lia|lia|lia|exact Hd|]. eexists _, u. rewrite Hi. split_and!; [exact Hr|done|done|exact Hu].
Qed.

(** The result of an operation is a significand that need not be normal: where [c] is a
    multiple of [2^g] in its units, it is on the same side of [c] as the exact result. *)
Definition approx (f : format) (g e s : Z) (x : exact_result) : Prop :=
  forall c j, 0 <= j -> c * 2 ^ (exponent_bits f - 1 + offset) = j * 2 ^ (g + e + offset) -> x c = (s ?= j * 2 ^ g).
Lemma compare_mul_r a b k : 0 < k -> (a * k ?= b * k) = (a ?= b).
Proof. intros Hk. destruct (Z.compare_spec (a * k) (b * k)), (Z.compare_spec a b); (done || nia). Qed.
Lemma approx_sees f g e s x k : sane f -> 0 <= g -> 0 <= k -> g + k <= exponent_bits f - 1 -> - offset <= e - k <= offset -> approx f g e s x -> sees f (e - k) (s * 2 ^ k) x.
Proof.
  intros [Hp Hq] Hg Hk Hgk He Ha j Hj. unfold offset in *. pose proof (Z.pow_pos_nonneg 2 k ltac:(lia) Hk).
  set (h := exponent_bits f - 1 + Z.max (- (e - k)) 0 - k - g). assert (0 <= h) by (subst h; lia).
  rewrite (Ha _ (j * 2 ^ h)).
  - rewrite <- (compare_mul_r _ _ (2 ^ k)) by done. rewrite <- !Z.mul_assoc, <- !Z.pow_add_r by lia. do 2 f_equal. f_equal. subst h. lia.
  - apply Z.mul_nonneg_nonneg; lia.
  - rewrite <- !Z.mul_assoc, <- !Z.pow_add_r by (unfold offset; lia). do 2 f_equal. subst h. unfold offset. lia.
Qed.
(** An exact significand *)
Definition exact (f : format) (e s : Z) (x : exact_result) : Prop :=
  forall c, x c = (s * 2 ^ (e + offset) ?= c * 2 ^ (exponent_bits f - 1 + offset)).
Lemma exact_sees f e s x k : sane f -> 0 <= k -> - offset <= e - k <= offset -> - offset <= e <= offset -> exact f e s x -> sees f (e - k) (s * 2 ^ k) x.
Proof.
  intros [Hp Hq] Hk He He' Ha j Hj. unfold offset in *. rewrite Ha. unfold offset.
  set (h := e - k + 5000 - Z.max (e - k) 0 - Z.max (- (e - k)) 0).
  rewrite <- (compare_mul_r (s * 2 ^ k) _ (2 ^ (e - k + 5000 + Z.max (- (e - k)) 0 - Z.max (- (e - k)) 0))) by (apply Z.pow_pos_nonneg; lia).
  rewrite <- !Z.mul_assoc, <- !Z.pow_add_r by lia. do 2 f_equal; f_equal; lia.
Qed.

(** ** The code

    [vfp_single_normaliseround] and [vfp_double_normaliseround] round as [rounded_magnitude]
    says: the last bits of a normal significand, denormals, overflow. *)

(** ** The increment *)

Lemma land_low s k : 0 <= k -> Z.land s (Z.shiftl 1 k) = if Z.testbit s k then 2 ^ k else 0.
Proof. intros Hk. rewrite Z.shiftl_mul_pow2, Z.mul_1_l by done. by apply land_pow2. Qed.
Lemma single_increment fpscr b s :
  (if Z.land fpscr FPSCR_RMODE_MASK =? FPSCR_ROUND_NEAREST then
     if Z.land s (Z.shiftl 1 (VFP_SINGLE_LOW_BITS + 1)) =? 0 then Z.shiftl 1 VFP_SINGLE_LOW_BITS - 1 else Z.shiftl 1 VFP_SINGLE_LOW_BITS
   else if Z.land fpscr FPSCR_RMODE_MASK =? FPSCR_ROUND_TOZERO then 0
   else if xorb (Z.land fpscr FPSCR_RMODE_MASK =? FPSCR_ROUND_PLUSINF) b then Z.shiftl 1 (VFP_SINGLE_LOW_BITS + 1) - 1
   else 0) = increment binary32 (rounding_of fpscr b) s.
Proof.
  unfold rounding_of. destruct (_ =? FPSCR_ROUND_NEAREST); [|by destruct (_ =? FPSCR_ROUND_TOZERO); [|destruct (xorb _ _)]].
  unfold increment. change (VFP_SINGLE_LOW_BITS + 1) with 8. rewrite land_low by done. change (exponent_bits binary32) with 8. by destruct (Z.testbit s 8).
Qed.
Lemma double_increment fpscr b s :
  (if Z.land fpscr FPSCR_RMODE_MASK =? FPSCR_ROUND_NEAREST then
     if Z.land s (Z.shiftl 1 (VFP_DOUBLE_LOW_BITS + 1)) =? 0 then Z.shiftl 1 VFP_DOUBLE_LOW_BITS - 1 else Z.shiftl 1 VFP_DOUBLE_LOW_BITS
   else if Z.land fpscr FPSCR_RMODE_MASK =? FPSCR_ROUND_TOZERO then 0
   else if xorb (Z.land fpscr FPSCR_RMODE_MASK =? FPSCR_ROUND_PLUSINF) b then Z.shiftl 1 (VFP_DOUBLE_LOW_BITS + 1) - 1
   else 0) = increment binary64 (rounding_of fpscr b) s.
Proof.
  unfold rounding_of. destruct (_ =? FPSCR_ROUND_NEAREST); [|by destruct (_ =? FPSCR_ROUND_TOZERO); [|destruct (xorb _ _)]].
  unfold increment. change (VFP_DOUBLE_LOW_BITS + 1) with 11. rewrite land_low by done. change (exponent_bits binary64) with 11. by destruct (Z.testbit s 11).
Qed.
Lemma increment_values f r s : exists i, increment f r s = i /\ match r with
  | ToZero => i = 0 | AwayFromZero => i = 2 ^ exponent_bits f - 1
  | ToNearest => i = 2 ^ (exponent_bits f - 1) \/ i = 2 ^ (exponent_bits f - 1) - 1 end.
Proof. eexists. split; [done|]. unfold increment. destruct r; [destruct (Z.testbit s (exponent_bits f)); auto|done|done]. Qed.

(** ** Overflow of the significand and of the exponent *)

(** [q], [p]: the widths of the fields, [w]: of a significand, [last]: the largest exponent of
    a number but one *)
Ltac finish_rounding f q p w last small is_u r e s Hs Hn :=
  let i := fresh "i" in let Hi := fresh "Hi" in let Hc := fresh "Hc" in let Hu := fresh "Hu" in let Hr := fresh "Hr" in let Hj := fresh "Hj" in let E := fresh "E" in let t := fresh "t" in let Eo := fresh "Eo" in
  cbv zeta; unfold rounded_up, drops, in_range, overflows; destruct (increment_values f r s) as (i & -> & Hi);
  change (exponent_bits f) with q in *; change (mantissa_bits f) with p; let inf := eval vm_compute in (infinity f) in change (infinity f) with inf;
  assert (0 <= i <= 2 ^ q - 1) by (destruct r; lia); change (2 ^ q - 1) with (Z.ones q); destruct (Z.lt_ge_cases (s + i) (2 ^ w)) as [Hc|Hc];
  [rewrite small by (unfold is_u; lia); rewrite (proj2 (Z.ltb_ge (s + i) s)) by lia; eexists _, _, _; split; [done|]; split; [lia|];
   rewrite small by (unfold is_u; lia);
   match goal with |- ?a = ?b /\ _ => assert (Eo : a = b) by (destruct (Z.leb_spec last e); symmetry; [apply Z.leb_le|apply Z.leb_gt]; Z.to_euclidean_division_equations; lia) end;
   split; [exact Eo|]; split; [by rewrite Z.land_ones by lia|]; rewrite <- Eo; destruct (Z.leb_spec last e);
   [destruct r; [destruct (Z.eqb_spec i 0); lia|subst; done|subst; done]
   |destruct (Z.eqb_spec ((s + i) / 2 ^ q) 0); Z.to_euclidean_division_equations; lia]
  |match goal with |- context [?W (s + i) <? s] => assert (Hu : W (s + i) = s + i - 2 ^ w) by (unfold W; Z.to_euclidean_division_equations; lia) end; rewrite Hu; rewrite (proj2 (Z.ltb_lt _ s)) by lia;
   assert (Hr : r <> ToZero) by (intros ->; lia);
   eexists _, _, _; split; [done|]; split; [lia|]; change (Z.land s 1) with (Z.land s (Z.ones 1)); rewrite !Z.land_ones, !Z.shiftr_div_pow2 by lia; change (2 ^ 1) with 2;
   assert (Hj : 2 ^ (w - 1) <= Z.lor (s / 2) (s mod 2) + i / 2 < 2 ^ (w - 1) + 2 ^ (q - 1) /\ Z.lor (s / 2) (s mod 2) mod 2 ^ q <> 0)
     by (pose proof (Z.mod_pos_bound s 2 ltac:(lia)); assert (s mod 2 = 0 \/ s mod 2 = 1) as [E|E] by lia; rewrite E; [rewrite Z.lor_0_r|rewrite lor_1]; destruct r; try done; destruct_or?; subst i; Z.to_euclidean_division_equations; lia);
   destruct Hj as [Hj Hlow]; rewrite small by (unfold is_u; lia);
   assert (E : (s + i) / 2 ^ q = 2 ^ (p + 1)) by (Z.to_euclidean_division_equations; lia); rewrite E;
   match goal with |- ?a = ?b /\ _ => assert (Eo : a = b) by (destruct (Z.leb_spec last (e + 1)); symmetry; [apply Z.leb_le|apply Z.leb_gt]; lia) end;
   split; [exact Eo|]; split; [unfold truth; rewrite (proj2 (Z.eqb_neq _ 0) Hlow), (proj2 (Z.eqb_neq (s mod 2 ^ q) 0)) by (Z.to_euclidean_division_equations; lia); done|];
   set (t := Z.lor (s / 2) (s mod 2) + i / 2) in *; clearbody t;
   rewrite <- Eo; destruct (Z.leb_spec last (e + 1));
   [rewrite (proj2 (Z.eqb_neq (i / 2) 0)) by (destruct r; Z.to_euclidean_division_equations; lia); by destruct r
   |rewrite (proj2 (Z.eqb_neq (t / 2 ^ q) 0)) by (Z.to_euclidean_division_equations; lia); Z.to_euclidean_division_equations; lia]].
Lemma single_finish r e s : 0 <= e -> 0 <= s < 2 ^ 32 -> e = 0 \/ 2 ^ 31 <= s ->
  let i := increment binary32 r s in
  exists e' s' i', (if u32 (s + i) <? s then (e + 1, Z.lor (Z.shiftr s 1) (Z.land s 1), Z.shiftr i 1) else (e, s, i)) = (e', s', i') /\ 0 <= e' /\
    (254 <=? e') = overflows binary32 (rounded_up binary32 r e s) /\ truth (Z.land s' (2 ^ exponent_bits binary32 - 1)) = drops binary32 s /\
    (if 254 <=? e' then if i' =? 0 then 253 * 2 ^ 23 + 0x7fffffff / 2 ^ 7 else 255 * 2 ^ 23
     else (if u32 (s' + i') / 2 ^ 8 =? 0 then 0 else e') * 2 ^ 23 + u32 (s' + i') / 2 / 2 ^ 7) = in_range binary32 r (rounded_up binary32 r e s).
Proof. intros He Hs Hn. finish_rounding binary32 8 23 32 254 u32_small is_u32 r e s Hs Hn. Qed.
Lemma double_finish r e s : 0 <= e -> 0 <= s < 2 ^ 64 -> e = 0 \/ 2 ^ 63 <= s ->
  let i := increment binary64 r s in
  exists e' s' i', (if u64 (s + i) <? s then (e + 1, Z.lor (Z.shiftr s 1) (Z.land s 1), Z.shiftr i 1) else (e, s, i)) = (e', s', i') /\ 0 <= e' /\
    (2046 <=? e') = overflows binary64 (rounded_up binary64 r e s) /\ truth (Z.land s' (2 ^ exponent_bits binary64 - 1)) = drops binary64 s /\
    (if 2046 <=? e' then if i' =? 0 then 2045 * 2 ^ 52 + 0x7fffffffffffffff / 2 ^ 10 else 2047 * 2 ^ 52
     else (if u64 (s' + i') / 2 ^ 11 =? 0 then 0 else e') * 2 ^ 52 + u64 (s' + i') / 2 / 2 ^ 10) = in_range binary64 r (rounded_up binary64 r e s).
Proof. intros He Hs Hn. finish_rounding binary64 11 52 64 2046 u64_small is_u64 r e s Hs Hn. Qed.

(** ** The whole *)

Lemma s16_small z : - 32768 <= z < 32768 -> s16 z = z.
Proof. intros H. unfold s16. Z.to_euclidean_division_equations; lia. Qed.
Lemma low_bits_drop f s : 0 <= exponent_bits f -> truth (Z.land s (2 ^ exponent_bits f - 1)) = drops f s.
Proof. intros Hq. replace (2 ^ exponent_bits f - 1) with (Z.ones (exponent_bits f)) by (rewrite Z.ones_equiv; lia). by rewrite Z.land_ones. Qed.
(** The exceptions as the code collects them *)
Lemma raised_in_range (c d : bool) : (if c then Z.lor (if d then Z.lor 0 FPSCR_IXC else 0) FPSCR_UFC else if d then Z.lor 0 FPSCR_IXC else 0) = raised false d c.
Proof. by destruct c, d. Qed.
Lemma raised_overflow (d : bool) : Z.lor (if d then Z.lor 0 FPSCR_IXC else 0) (Z.lor FPSCR_OFC FPSCR_IXC) = raised true d false.
Proof. by destruct d. Qed.
(** From the lemma of the last step, [finish], to the packed word and the exceptions *)
Ltac pack_finished f low finish :=
  let e' := fresh "e" in let s' := fresh "s" in let i' := fresh "i" in let He := fresh in let Eo := fresh in let Ed := fresh in
  let E := fresh in let F := fresh in
  destruct finish as (e' & s' & i' & E & He & Eo & Ed & F); [lia..|]; rewrite <- F; rewrite E; clear E F; rewrite <- Eo; clear Eo;
  change (Z.shiftl 1 (low + 1) - 1) with (2 ^ exponent_bits f - 1) in *; rewrite Ed; rewrite ?(low_bits_drop f) by done;
  match goal with |- context [?last <=? e'] => destruct (Z.leb_spec last e') end; [exists false; destruct (i' =? 0)|eexists];
  (split; [done|]; split; [done|]; split;
   [unfold vfp_single_pack, vfp_double_pack; cbn -[Z.mul Z.pow Z.land Z.lor Z.shiftl Z.shiftr Z.leb]; f_equal; rewrite ?Z.shiftl_mul_pow2, ?Z.shiftr_div_pow2 by done;
    rewrite ?s16_small by (try case_match; lia); rewrite ?Z.div_0_l, ?Z.add_0_r by done; first [done | symmetry; apply Z.add_assoc]
   |split; [first [apply raised_overflow | apply raised_in_range]|first [done | let H := fresh in intros H; revert H; match goal with |- (if ?b then _ else _) = true -> _ => by destruct b end]]]).
Lemma single_rounded_spec vs fpscr : 0 < significand vs < 2 ^ 32 -> Z.testbit fpscr 24 = false ->
  exists k under, 0 <= k < 32 /\ 2 ^ 31 <= significand vs * 2 ^ k < 2 ^ 32 /\
  let r := rounding_of fpscr (truth (sign vs)) in let e := exponent vs - k in let s := significand vs * 2 ^ k in
  vfp_single_pack (fst (single_rounded vs fpscr 0)) = s32 (sign vs * 2 ^ 16 + rounded_magnitude binary32 r e s) /\
  snd (single_rounded vs fpscr 0) = rounded_exceptions binary32 r e s under /\ (under = true -> drops binary32 (snd (denormalised e s)) = true).
Proof.
  intros Hs Hfz. destruct (norm_shift32 (significand vs)) as [Hk Hb]; [unfold is_u32; lia|lia|]. unfold single_rounded. rewrite andb_comm, (proj2 (Z.eqb_neq (significand vs) 0)) by lia.
  set (k := 32 - fls (significand vs)) in *. exists k. clearbody k.
  assert (E1 : (if (k <? 32) && truth k then (exponent vs - k, u32 (Z.shiftl (significand vs) k)) else (exponent vs, significand vs)) = (exponent vs - k, significand vs * 2 ^ k)).
  { rewrite (proj2 (Z.ltb_lt k 32)) by lia. unfold truth. destruct (Z.eqb_spec k 0) as [->|]; cbn [andb negb]; [by rewrite Z.sub_0_r, Z.mul_1_r|]. rewrite Z.shiftl_mul_pow2, u32_small by (unfold is_u32; lia). done. }
  rewrite E1. clear E1. set (e := exponent vs - k) in *. set (s := significand vs * 2 ^ k) in *. clearbody e s.
  assert (Efz : truth (Z.land fpscr FPSCR_FLUSH_TO_ZERO) = false) by (change FPSCR_FLUSH_TO_ZERO with (2 ^ 24); by rewrite land_pow2, Hfz by lia).
  unfold rounded_magnitude, rounded_exceptions, denormalised. rewrite Efz, andb_false_r. clear Efz Hfz Hs. change (truth 0) with false. cbn [orb andb]. cbv iota.
  destruct (Z.ltb_spec e 0); cbn -[Z.mul Z.pow Z.land Z.lor Z.shiftl Z.shiftr Z.leb rounded_up in_range increment overflows raised drops].
  - rewrite shiftright32_jam by (unfold is_u32; lia). pose proof (jam_nonneg s (- e) ltac:(lia) ltac:(lia)). pose proof (jam_upper s (- e) (2 ^ 31) ltac:(lia) ltac:(lia) ltac:(lia)).
    rewrite single_increment. pack_finished binary32 VFP_SINGLE_LOW_BITS (single_finish (rounding_of fpscr (truth (sign vs))) 0 (jam s (- e))).
  - rewrite single_increment. pack_finished binary32 VFP_SINGLE_LOW_BITS (single_finish (rounding_of fpscr (truth (sign vs))) e s).
Qed.
Lemma double_rounded_spec vd fpscr : 0 < significand vd < 2 ^ 64 -> Z.testbit fpscr 24 = false ->
  exists k under, 0 <= k < 64 /\ 2 ^ 63 <= significand vd * 2 ^ k < 2 ^ 64 /\
  let r := rounding_of fpscr (truth (sign vd)) in let e := exponent vd - k in let s := significand vd * 2 ^ k in
  vfp_double_pack (fst (double_rounded vd fpscr 0)) = s64 (sign vd * 2 ^ 48 + rounded_magnitude binary64 r e s) /\
  snd (double_rounded vd fpscr 0) = rounded_exceptions binary64 r e s under /\ (under = true -> drops binary64 (snd (denormalised e s)) = true).
Proof.
  intros Hs Hfz. destruct (norm_shift64 (significand vd)) as [Hk Hb]; [unfold is_u64; lia|lia|]. unfold double_rounded. rewrite andb_comm, (proj2 (Z.eqb_neq (significand vd) 0)) by lia.
  set (k := if 32 - fls (u32 (Z.shiftr (significand vd) 32)) =? 32 then 64 - fls (u32 (significand vd)) else 32 - fls (u32 (Z.shiftr (significand vd) 32))) in *. exists k. clearbody k.
  assert (E1 : (if truth k then (exponent vd - k, u64 (Z.shiftl (significand vd) k)) else (exponent vd, significand vd)) = (exponent vd - k, significand vd * 2 ^ k)).
  { unfold truth. destruct (Z.eqb_spec k 0) as [->|]; cbn [andb negb]; [by rewrite Z.sub_0_r, Z.mul_1_r|]. rewrite Z.shiftl_mul_pow2, u64_small by (unfold is_u64; lia). done. }
  rewrite E1. clear E1. set (e := exponent vd - k) in *. set (s := significand vd * 2 ^ k) in *. clearbody e s.
  assert (Efz : truth (Z.land fpscr FPSCR_FLUSH_TO_ZERO) = false) by (change FPSCR_FLUSH_TO_ZERO with (2 ^ 24); by rewrite land_pow2, Hfz by lia).
  unfold rounded_magnitude, rounded_exceptions, denormalised. rewrite Efz, andb_false_r. clear Efz Hfz Hs. change (truth 0) with false. cbn [orb andb]. cbv iota.
  destruct (Z.ltb_spec e 0); cbn -[Z.mul Z.pow Z.land Z.lor Z.shiftl Z.shiftr Z.leb rounded_up in_range increment overflows raised drops].
  - rewrite shiftright64_jam by (unfold is_u64; lia). pose proof (jam_nonneg s (- e) ltac:(lia) ltac:(lia)). pose proof (jam_upper s (- e) (2 ^ 63) ltac:(lia) ltac:(lia) ltac:(lia)).
    rewrite double_increment. pack_finished binary64 VFP_DOUBLE_LOW_BITS (double_finish (rounding_of fpscr (truth (sign vd))) 0 (jam s (- e))).
  - rewrite double_increment. pack_finished binary64 VFP_DOUBLE_LOW_BITS (double_finish (rounding_of fpscr (truth (sign vd))) e s).
Qed.

(** * Sums, products, quotients and roots of significands

    The exact results of the operations, and what the code computes of them: products, sums,
    quotients and roots of significands with the bits beyond a sticky one lost. *)

(** A number or a zero, and its value *)
Definition represents (f : format) (n : vfp_number) (x : Z) : Prop := proper f n x \/ (exponent n = 0 /\ significand n = 0 /\ x = 0).

(** ** Exact results

    In half-units of the smallest denormal; values are in units. *)

Definition bias (f : format) : Z := 2 ^ (exponent_bits f - 1) - 1.
Definition product_of (f : format) (a b : Z) : exact_result := fun c => a * b ?= c * 2 ^ (bias f + mantissa_bits f - 2).
Definition sum_of (a b : Z) : exact_result := fun c => 2 * Z.abs (a + b) ?= c.
Definition quotient_of (f : format) (a b : Z) : exact_result := fun c => a * 2 ^ (bias f + mantissa_bits f) ?= c * b.
Definition root_of (f : format) (a : Z) : exact_result := fun c => a * 2 ^ (bias f + mantissa_bits f + 1) ?= c * c.

(** [a = b], from [a * 2^k = b * 2^k] *)
Lemma scaled_compare a b a' b' k k' : 0 <= k -> 0 <= k' -> a * 2 ^ k = a' * 2 ^ k' -> b * 2 ^ k = b' * 2 ^ k' -> (a ?= b) = (a' ?= b').
Proof. intros Hk Hk' Ha Hb. rewrite <- (compare_mul_r a b (2 ^ k)), Ha, Hb by lia. apply compare_mul_r. lia. Qed.
(** Products of a factor and a power of two *)
Lemma scaled_mul a b i j : 0 <= i -> 0 <= j -> a * 2 ^ i * (b * 2 ^ j) = a * b * 2 ^ (i + j).
Proof. intros Hi Hj. rewrite Z.pow_add_r by lia. ring. Qed.
Lemma scaled_again a i j : 0 <= i -> 0 <= j -> a * 2 ^ i * 2 ^ j = a * 2 ^ (i + j).
Proof. intros Hi Hj. rewrite Z.pow_add_r by lia. ring. Qed.
Lemma scaled_eq a b i j : a = b -> i = j -> a * 2 ^ i = b * 2 ^ j.
Proof. by intros -> ->. Qed.
Lemma scaled_two a i : 0 <= i -> 2 * a * 2 ^ i = a * 2 ^ (i + 1).
Proof. intros Hi. rewrite Z.pow_add_r by lia. change (2 ^ 1) with 2. ring. Qed.
Lemma two_scaled a b i : 0 <= i -> a * 2 ^ i * (b * 2) = a * b * 2 ^ (i + 1).
Proof. intros Hi. rewrite Z.pow_add_r by lia. change (2 ^ 1) with 2. ring. Qed.
Ltac scaled := rewrite ?two_scaled, ?scaled_mul, ?scaled_two, ?scaled_again by lia; apply scaled_eq; [ring|lia].
Lemma bounds_of f : sane f -> 1 <= bias f <= 1023 /\ 3 <= special f <= 2047.
Proof.
  intros [Hp Hq]. unfold bias, special. pose proof (Z.pow_le_mono_r 2 (exponent_bits f - 1) 10 ltac:(lia) ltac:(lia)). pose proof (Z.pow_le_mono_r 2 (exponent_bits f) 11 ltac:(lia) ltac:(lia)).
  pose proof (Z.pow_le_mono_r 2 2 (exponent_bits f) ltac:(lia) ltac:(lia)). pose proof (Z.pow_le_mono_r 2 1 (exponent_bits f - 1) ltac:(lia) ltac:(lia)). lia.
Qed.
(** The widths and exponents of a format and two numbers as variables with bounds *)
Ltac widths f p q b :=
  let H := fresh in
  match goal with Hf : sane f |- _ => pose proof (bounds_of f Hf) as H; let H' := fresh in pose proof Hf as H'; destruct H' end; unfold low_bits, offset in *;
  set (b := bias f) in *; clearbody b; set (p := mantissa_bits f) in *; set (q := exponent_bits f) in *; clearbody p q.

Lemma product_approx f n m x y : sane f -> proper f n x -> proper f m y ->
  approx f 1 (exponent n + exponent m - bias f + 2) (jam (significand n * significand m) (mantissa_bits f + exponent_bits f + 1)) (product_of f x y).
Proof.
  intros Hf [_ _ He1 Hv1] [_ _ He2 Hv2] c j Hj Hc. unfold product_of. widths f p q b. change (2 ^ 1) with 2. rewrite (Z.mul_comm j 2), jam_compare by lia.
  apply scaled_compare with (2 * (q - 1 + 1 + 5000)) (exponent n + exponent m + 10000); [lia..| |].
  - transitivity (x * 2 ^ (q - 1 + 1 + 5000) * (y * 2 ^ (q - 1 + 1 + 5000))); [scaled|]. rewrite Hv1, Hv2. scaled.
  - transitivity (c * 2 ^ (q - 1 + 5000) * 2 ^ (b + p + q + 4999)); [scaled|]. rewrite Hc. scaled.
Qed.
Lemma quotient_approx f n m x y k t r : sane f -> proper f n x -> proper f m y -> 0 <= t -> 0 <= k <= 1 ->
  approximates t r (significand n * 2 ^ (mantissa_bits f + exponent_bits f + 1 - k)) (significand m * 2) ->
  approx f t (exponent n - exponent m + bias f - 1 + k) r (quotient_of f x y).
Proof.
  intros Hf [_ _ He1 Hv1] [_ _ He2 Hv2] Ht Hk Ha c j Hj Hc. unfold quotient_of. destruct (Ha j) as [Hlt Hgt].
  assert (E : (r ?= j * 2 ^ t) = (significand n * 2 ^ (mantissa_bits f + exponent_bits f + 1 - k) ?= j * 2 ^ t * (significand m * 2))).
  { destruct (Z.compare_spec r (j * 2 ^ t)), (Z.compare_spec (significand n * 2 ^ (mantissa_bits f + exponent_bits f + 1 - k)) (j * 2 ^ t * (significand m * 2))); (done || lia). }
  rewrite E. clear E Ha Hlt Hgt. widths f p q b.
  apply scaled_compare with (2 * (q - 1 + 5000) + 1) (exponent n + b - 2 + k + 10000); [lia..| |].
  - transitivity (x * 2 ^ (q - 1 + 1 + 5000) * 2 ^ (b + p + q - 1 + 5000)); [scaled|]. rewrite Hv1. scaled.
  - transitivity (c * 2 ^ (q - 1 + 5000) * (y * 2 ^ (q - 1 + 1 + 5000))); [scaled|]. rewrite Hc, Hv2. scaled.
Qed.
Lemma root_approx f n x h d t r : sane f -> proper f n x -> exponent n - bias f = 2 * h + d -> 0 <= d <= 1 -> 2 <= t <= 20 ->
  root_approximates t r (significand n * 2 ^ (mantissa_bits f + exponent_bits f + 1 + d)) ->
  approx f (t - 1) (h + bias f) (jam r 1) (root_of f x).
Proof.
  intros Hf [_ _ He Hv] Hh Hd Ht Ha c j Hj Hc. unfold root_of. destruct (Ha j Hj) as [Hlt Hgt].
  assert (E : (jam r 1 ?= j * 2 ^ (t - 1)) = (significand n * 2 ^ (mantissa_bits f + exponent_bits f + 1 + d) ?= j * 2 ^ t * (j * 2 ^ t))).
  { replace (j * 2 ^ (t - 1)) with (2 * (j * 2 ^ (t - 2))) by (replace (t - 1) with (t - 2 + 1) by lia; rewrite Z.pow_add_r by lia; ring). rewrite jam_compare by lia.
    replace (2 * (j * 2 ^ (t - 2)) * 2 ^ 1) with (j * 2 ^ t) by (replace t with (t - 2 + 1 + 1) at 1 by lia; rewrite !Z.pow_add_r by lia; ring).
    destruct (Z.compare_spec r (j * 2 ^ t)), (Z.compare_spec (significand n * 2 ^ (mantissa_bits f + exponent_bits f + 1 + d)) (j * 2 ^ t * (j * 2 ^ t))); (done || lia). }
  rewrite E. clear E Ha Hlt Hgt. widths f p q b.
  apply scaled_compare with (2 * (q - 1 + 5000)) (2 * (h + b - 1 + 5000)); [lia..| |].
  - transitivity (x * 2 ^ (q - 1 + 1 + 5000) * 2 ^ (b + p + q - 1 + 5000)); [scaled|]. rewrite Hv. scaled.
  - transitivity (c * 2 ^ (q - 1 + 5000) * (c * 2 ^ (q - 1 + 5000))); [scaled|]. rewrite Hc. scaled.
Qed.

(** ** Sums *)

(** The second significand, moved to the exponent of the first *)
Definition moved (n m : vfp_number) : Z := jam (significand m) (exponent n - exponent m).
Lemma represents_exponent f n x : sane f -> represents f n x -> 1 - mantissa_bits f <= exponent n < special f.
Proof. intros Hf [[_ _ He _]|(-> & _ & _)]; [done|]. pose proof (bounds_of f Hf). destruct Hf. lia. Qed.
Lemma represents_value f n x : sane f -> represents f n x -> x * 2 ^ (low_bits f + 1 + offset) = significand n * 2 ^ (exponent n + offset).
Proof. intros Hf [[_ _ _ Hv]|(_ & -> & ->)]; [done|lia]. Qed.
Lemma represents_bound f n x : sane f -> represents f n x -> 0 <= significand n < 2 ^ (high_bit f + 1).
Proof. intros [] [[Hb _ _ _]|(_ & -> & _)]; unfold high_bit in *; lia. Qed.
(** Either no bit is lost, or the first is much larger than the second. *)
Lemma moved_cases f n m x y : sane f -> represents f n x -> represents f m y -> exponent m <= exponent n ->
  significand m = moved n m * 2 ^ (exponent n - exponent m) \/
  (2 ^ high_bit f <= significand n /\ significand n mod 2 = 0 /\ exponent_bits f <= exponent n - exponent m).
Proof.
  intros Hf Hn Hm Hle. destruct (Z.eq_dec (significand m mod 2 ^ (exponent n - exponent m)) 0) as [E|E].
  - left. unfold moved, jam. rewrite E. cbn [Z.eqb]. pose proof (Z.div_mod (significand m) (2 ^ (exponent n - exponent m)) ltac:(lia)). lia.
  - right. pose proof Hf as [Hp Hq]. unfold low_bits, high_bit in *.
    assert (exponent_bits f <= exponent n - exponent m) as Hdiff.
    { apply Z.nlt_ge. intros Hlt. apply E. destruct Hm as [[_ Hl _ _]|(_ & -> & _)]; [|by rewrite Z.mod_0_l by lia].
      rewrite <- (mod_mod_pow (significand m) _ (low_bits f)), Hl by (unfold low_bits; lia). apply Z.mod_0_l. lia. }
    destruct Hn as [[Hb Hl _ _]|(En & Es & _)].
    + split; [apply Hb|]. split; [|done]. change 2 with (2 ^ 1). rewrite <- (mod_mod_pow _ 1 (low_bits f)), Hl by (unfold low_bits; lia). done.
    + exfalso. destruct Hm as [[Hb Hl He Hv]|(_ & Em & _)]; [|rewrite Em, Z.mod_0_l in E by lia; done].
      apply E. rewrite En. replace (0 - exponent m) with (- exponent m) by lia. unfold low_bits, offset in *.
      assert (significand m = y * 2 ^ exponent_bits f * 2 ^ (- exponent m)) as ->; [|apply Z.mod_mul; lia].
      apply (Z.mul_reg_r _ _ (2 ^ (exponent m + 5000))); [apply Z.pow_nonzero; lia|]. rewrite <- Hv. scaled.
Qed.
(** The sum with the second, moved, or the difference *)
Definition plus (sub : bool) (a b : Z) : Z := if sub then a - b else a + b.
Lemma scaled_sgn a b i j : 0 <= i -> 0 <= j -> a * 2 ^ i = b * 2 ^ j -> Z.sgn a = Z.sgn b.
Proof.
  intros Hi Hj E. apply (f_equal Z.sgn) in E. rewrite !Z.sgn_mul, !(Z.sgn_pos (2 ^ _)), !Z.mul_1_r in E by (apply Z.pow_pos_nonneg; lia). done.
Qed.
Lemma scaled_abs a b i j : 0 <= i -> 0 <= j -> a * 2 ^ i = b * 2 ^ j -> Z.abs a * 2 ^ i = Z.abs b * 2 ^ j.
Proof. intros Hi Hj E. apply (f_equal Z.abs) in E. by rewrite !Z.abs_mul, !(Z.abs_eq (2 ^ _)) in E by (apply Z.pow_nonneg; lia). Qed.
Lemma minus_compare a b c : (a - b ?= c) = CompOpp (b ?= a - c).
Proof. destruct (Z.compare_spec (a - b) c), (Z.compare_spec b (a - c)); (done || lia). Qed.
Lemma plus_compare a b c : (a + b ?= c) = (b ?= c - a).
Proof. destruct (Z.compare_spec (a + b) c), (Z.compare_spec b (c - a)); (done || lia). Qed.
Section Sum.
Context (f : format) (n m : vfp_number) (x y : Z) (sub : bool).
Hypothesis (Hf : sane f) (Hn : represents f n x) (Hm : represents f m y) (Hle : exponent m <= exponent n).
Lemma moved_bound : 0 <= moved n m < 2 ^ (high_bit f + 1).
Proof using Hf Hm Hle.
  pose proof (represents_bound f m y Hf Hm). unfold moved. split; [apply jam_nonneg; lia|]. destruct Hf. unfold high_bit in *.
  replace (mantissa_bits f + exponent_bits f - 1 + 1) with (Z.succ (mantissa_bits f + exponent_bits f - 1)) in * by lia. rewrite Z.pow_succ_r in * by lia. apply jam_upper; lia.
Qed.
Lemma sum_exact z : z = plus sub (significand n) (moved n m) -> significand m = moved n m * 2 ^ (exponent n - exponent m) ->
  exact f (exponent n) (Z.abs z) (fun c => 2 * Z.abs (plus sub x y) ?= c) /\ Z.sgn z = Z.sgn (plus sub x y).
Proof using Hf Hn Hm Hle.
  intros Ez E. pose proof (represents_value f n x Hf Hn) as Vn. pose proof (represents_value f m y Hf Hm) as Vm.
  pose proof (represents_exponent f n x Hf Hn). pose proof (represents_exponent f m y Hf Hm). unfold exact. widths f p q b.
  assert (V : plus sub x y * 2 ^ (q - 1 + 1 + 5000) = z * 2 ^ (exponent n + 5000)).
  { rewrite E, scaled_again in Vm by lia. replace (exponent n - exponent m + (exponent m + 5000)) with (exponent n + 5000) in Vm by lia.
    subst z. unfold plus. destruct sub; [rewrite !Z.mul_sub_distr_r|rewrite !Z.mul_add_distr_r]; by rewrite Vn, Vm. }
  split; [|symmetry; eapply scaled_sgn; [..|exact V]; lia]. apply scaled_abs in V; [|lia..]. intros c. rewrite <- V.
  rewrite <- (compare_mul_r (2 * _) c (2 ^ (q - 1 + 5000))), scaled_two by lia. do 3 f_equal. lia.
Qed.
Lemma sum_far z : z = plus sub (significand n) (moved n m) -> 4 <= exponent_bits f ->
  2 ^ high_bit f <= significand n -> significand n mod 2 = 0 -> exponent_bits f <= exponent n - exponent m ->
  approx f 1 (exponent n) z (fun c => 2 * Z.abs (plus sub x y) ?= c) /\ 2 ^ (high_bit f - 1) <= z /\ 0 < plus sub x y.
Proof using Hf Hn Hm Hle.
  intros Ez Hq4 Hb H2 Hd. pose proof (represents_value f n x Hf Hn) as Vn. pose proof (represents_value f m y Hf Hm) as Vm. pose proof moved_bound as Bj.
  pose proof (represents_exponent f n x Hf Hn). pose proof (represents_exponent f m y Hf Hm). pose proof (represents_bound f m y Hf Hm) as Bm. unfold approx, high_bit in *. widths f p q b.
  assert (V : plus sub x y * 2 ^ (q - 1 + 1 + 5000) = plus sub (significand n * 2 ^ (exponent n - exponent m)) (significand m) * 2 ^ (exponent m + 5000)).
  { unfold plus. destruct sub; [rewrite !Z.mul_sub_distr_r|rewrite !Z.mul_add_distr_r]; rewrite Vn, Vm, scaled_again by lia; replace (exponent n - exponent m + (exponent m + 5000)) with (exponent n + 5000) by lia; done. }
  assert (Hsmall : moved n m < 2 ^ (p + q - 1 - 1)).
  { unfold moved. replace (p + q - 1 - 1) with (Z.succ (p + q - 3)) by lia. rewrite Z.pow_succ_r by lia. rewrite jam_lt by lia.
    rewrite <- Z.pow_succ_r, <- Z.pow_add_r by lia. eapply Z.lt_le_trans; [apply Bm|]. apply Z.pow_le_mono_r; lia. }
  assert (E1 : 2 ^ (p + q - 1) = 2 * 2 ^ (p + q - 1 - 1)) by (rewrite <- Z.pow_succ_r by lia; f_equal; lia).
  assert (Hpos : 0 < plus sub (significand n * 2 ^ (exponent n - exponent m)) (significand m)).
  { assert (significand m < significand n * 2 ^ (exponent n - exponent m)); [|destruct sub; unfold plus; lia].
    eapply Z.lt_le_trans; [apply Bm|]. replace (p + q - 1 + 1) with (p + q - 1 + 1) by lia. rewrite Z.pow_add_r by lia.
    apply Z.mul_le_mono_nonneg; [lia|done|lia|]. apply Z.pow_le_mono_r; lia. }
  assert (Hv : 0 < plus sub x y) by (apply (Z.mul_lt_mono_pos_r (2 ^ (q - 1 + 1 + 5000))); [apply Z.pow_pos_nonneg; lia|]; rewrite V, Z.mul_0_l; apply Z.mul_pos_pos; [done|apply Z.pow_pos_nonneg; lia]).
  split; [|split; [subst z; unfold plus; destruct sub; lia|done]]. intros c j Hj Hc. rewrite Z.abs_eq by lia.
  transitivity (plus sub (significand n * 2 ^ (exponent n - exponent m)) (significand m) ?= 2 * j * 2 ^ (exponent n - exponent m)).
  - apply scaled_compare with (q - 1 + 5000) (exponent m + 5000); [lia..| |].
    + rewrite <- V. rewrite scaled_two by lia. scaled.
    + rewrite Hc. scaled.
  - subst z. change (2 ^ 1) with 2. pose proof (jam_compare (significand m) (exponent n - exponent m)) as Hj'. fold (moved n m) in Hj'.
    assert (Ek : significand n = 2 * (significand n / 2)) by (Z.to_euclidean_division_equations; lia). set (k := significand n / 2) in *. clearbody k. rewrite Ek.
    set (P := 2 ^ (exponent n - exponent m)) in *. unfold plus. destruct sub.
    + rewrite !minus_compare. f_equal.
      replace (2 * k - j * 2) with (2 * (k - j)) by ring. rewrite Hj' by lia. f_equal. ring.
    + rewrite !plus_compare. replace (j * 2 - 2 * k) with (2 * (j - k)) by ring. rewrite Hj' by lia. f_equal. ring.
Qed.
End Sum.
