(* ===== verification/VfpCorrect.v ===== *)
(** The arithmetic of the floating-point unit is correctly rounded: what the instructions write
    for finite operands is the exact result, rounded to the format. *)

From S2P Require Import Prelude ArmSupp ArmState VfpHelper VfpPack VfpSingle VfpDouble VfpDivide VfpSqrt VfpNumber VfpRound.

(** ** Words *)

Definition sign_of (negative : bool) : Z := if negative then 2 ^ 15 else 0.
Definition word (f : format) (negative : bool) (d : Z) : Z := (if negative then 2 ^ (mantissa_bits f + exponent_bits f) else 0) + d.
(** [w] is the exact result [x], with its sign, rounded, and [exceptions] are those of rounding. *)
Definition rounds_to (f : format) (fpscr : Z) (negative : bool) (x : exact_result) (w exceptions : Z) : Prop :=
  exists d, correctly_rounded f (rounding_of fpscr negative) x d exceptions /\ w = word f negative d.
(** The words that the two functions write *)
Definition single_word (vs : vfp_number) (fpscr exceptions : Z) : Z := u32 (vfp_single_pack (fst (single_rounded vs fpscr exceptions))).
Definition double_word (vd : vfp_number) (fpscr exceptions : Z) : Z := u64 (vfp_double_pack (fst (double_rounded vd fpscr exceptions))).

Lemma truth_sign b : truth (sign_of b) = b.
Proof. by destruct b. Qed.
Lemma negate_sign b : vfp_sign_negate (sign_of b) = sign_of (negb b).
Proof. by destruct b. Qed.
Lemma xor_sign a b : Z.lxor (sign_of a) (sign_of b) = sign_of (xorb a b).
Proof. by destruct a, b. Qed.

Lemma rounded_magnitude_range f r e s : sane f -> 0 <= s -> 0 <= rounded_magnitude f r e s <= infinity f.
Proof.
  intros Hf Hs. pose proof (bounds_of f Hf). destruct Hf as [Hp Hq]. pose proof (Z.pow_pos_nonneg 2 (mantissa_bits f) ltac:(lia) ltac:(lia)).
  assert (Hup : forall e s, 0 <= e -> 0 <= s -> 0 <= rounded_up f r e s).
  { clear e s Hs. intros e s He Hs. unfold rounded_up. destruct (increment_values f r s) as (i & -> & Hi). pose proof (Z.pow_pos_nonneg 2 (exponent_bits f - 1) ltac:(lia) ltac:(lia)).
    pose proof (Z.pow_pos_nonneg 2 (exponent_bits f) ltac:(lia) ltac:(lia)). assert (0 <= i) by (destruct r; lia). pose proof (Z.div_pos (s + i) (2 ^ exponent_bits f) ltac:(lia) ltac:(lia)). nia. }
  assert (Hin : forall d, 0 <= d -> 0 <= in_range f r d <= infinity f).
  { intros d Hd. unfold in_range, overflows. assert (0 < infinity f) by (unfold infinity; apply Z.mul_pos_pos; lia). destruct (Z.leb_spec (infinity f) d); [destruct r|]; lia. }
  unfold rounded_magnitude, denormalised. destruct (Z.ltb_spec e 0); apply Hin, Hup; [lia|by apply jam_nonneg; lia|lia|done].
Qed.

Lemma single_word_spec vs fpscr negative : sign vs = sign_of negative -> 0 < significand vs < 2 ^ 32 -> Z.testbit fpscr 24 = false ->
  exists k under, 0 <= k < 32 /\ 2 ^ 31 <= significand vs * 2 ^ k < 2 ^ 32 /\
  let r := rounding_of fpscr negative in let e := exponent vs - k in let s := significand vs * 2 ^ k in
  single_word vs fpscr 0 = word binary32 negative (rounded_magnitude binary32 r e s) /\
  snd (single_rounded vs fpscr 0) = rounded_exceptions binary32 r e s under /\ (under = true -> drops binary32 (snd (denormalised e s)) = true).
Proof.
  intros Hsign Hs Hfz. destruct (single_rounded_spec vs fpscr Hs Hfz) as (k & under & Hk & Hb & E & Hx & Hu). cbv zeta in *. rewrite Hsign, truth_sign in *. exists k, under. split_and!; [lia..| |exact Hx|exact Hu].
  unfold single_word. rewrite E. pose proof (rounded_magnitude_range binary32 (rounding_of fpscr negative) (exponent vs - k) (significand vs * 2 ^ k) sane32 ltac:(lia)) as Hr.
  change (infinity binary32) with 2139095040 in Hr. set (d := rounded_magnitude _ _ _ _) in *. clearbody d.
  unfold word, sign_of. change (mantissa_bits binary32 + exponent_bits binary32) with 31. destruct negative; unfold u32, s32; Z.to_euclidean_division_equations; lia.
Qed.
Lemma double_word_spec vd fpscr negative : sign vd = sign_of negative -> 0 < significand vd < 2 ^ 64 -> Z.testbit fpscr 24 = false ->
  exists k under, 0 <= k < 64 /\ 2 ^ 63 <= significand vd * 2 ^ k < 2 ^ 64 /\
  let r := rounding_of fpscr negative in let e := exponent vd - k in let s := significand vd * 2 ^ k in
  double_word vd fpscr 0 = word binary64 negative (rounded_magnitude binary64 r e s) /\
  snd (double_rounded vd fpscr 0) = rounded_exceptions binary64 r e s under /\ (under = true -> drops binary64 (snd (denormalised e s)) = true).
Proof.
  intros Hsign Hs Hfz. destruct (double_rounded_spec vd fpscr Hs Hfz) as (k & under & Hk & Hb & E & Hx & Hu). cbv zeta in *. rewrite Hsign, truth_sign in *. exists k, under. split_and!; [lia..| |exact Hx|exact Hu].
  unfold double_word. rewrite E. pose proof (rounded_magnitude_range binary64 (rounding_of fpscr negative) (exponent vd - k) (significand vd * 2 ^ k) sane64 ltac:(lia)) as Hr.
  change (infinity binary64) with 9218868437227405312 in Hr. set (d := rounded_magnitude _ _ _ _) in *. clearbody d.
  unfold word, sign_of. change (mantissa_bits binary64 + exponent_bits binary64) with 63. destruct negative; unfold u64, s64; Z.to_euclidean_division_equations; lia.
Qed.

(** ** From significands to words *)

(** The significand and the exponent of a result, good enough to be rounded *)
Definition good (f : format) (e s : Z) (x : exact_result) : Prop :=
  - 4900 <= e <= 4900 /\ 0 < s < 2 ^ (last_bit f + 1) /\
  (exact f e s x \/ exists g k, 0 <= g /\ approx f g e s x /\ g + k <= exponent_bits f - 1 /\ 2 ^ (last_bit f - k) <= s).
Lemma good_rounds f e s x r k u : sane f -> good f e s x -> 0 <= k < 64 -> 2 ^ last_bit f <= s * 2 ^ k < 2 ^ (last_bit f + 1) ->
  (u = true -> drops f (snd (denormalised (e - k) (s * 2 ^ k))) = true) ->
  correctly_rounded f r x (rounded_magnitude f r (e - k) (s * 2 ^ k)) (rounded_exceptions f r (e - k) (s * 2 ^ k) u).
Proof.
  intros Hf (He & Hs & Hx) Hk Hb Hu. apply rounded_magnitude_correct; [done..| |done]. destruct Hx as [Hx|(g & k' & Hg & Hx & Hgk & Hlo)].
  - apply exact_sees; (done || unfold offset; lia).
  - apply (approx_sees _ g); try (done || unfold offset; lia).
    assert (k <= k'); [|lia]. apply Z.nlt_ge. intros Hlt. destruct Hf as [Hp Hq]. unfold last_bit in *.
    assert (Hk' : 0 <= mantissa_bits f + exponent_bits f - k') by lia.
    assert (2 ^ (mantissa_bits f + exponent_bits f - k') * 2 ^ k <= s * 2 ^ k) by (apply Z.mul_le_mono_nonneg_r; lia).
    rewrite <- Z.pow_add_r in * by lia. pose proof (Z.pow_le_mono_r 2 (mantissa_bits f + exponent_bits f + 1) (mantissa_bits f + exponent_bits f - k' + k) ltac:(lia) ltac:(lia)). lia.
Qed.
Lemma zero_rounds f r x : sane f -> x 0 = Eq -> (forall c, 0 < c -> x c = Lt) -> correctly_rounded f r x 0 0.
Proof.
  intros Hf H0 Hlt. exists 0, false. pose proof (bounds_of f Hf). destruct Hf as [Hp Hq]. pose proof (Z.pow_pos_nonneg 2 (mantissa_bits f) ltac:(lia) ltac:(lia)).
  pose proof (magnitude_value_at f 0 1 ltac:(lia) ltac:(lia)) as E1. pose proof (magnitude_value_at f 0 0 ltac:(lia) ltac:(lia)) as E0.
  pose proof (Z.pow_pos_nonneg 2 (mantissa_bits f + 1) ltac:(lia) ltac:(lia)). rewrite Z.mul_0_l, Z.add_0_l in E0, E1. specialize (E0 ltac:(lia) ltac:(lia)). specialize (E1 ltac:(lia) ltac:(by left)).
  assert (Ho : overflows f 0 = false) by (apply Z.leb_gt; unfold infinity; apply Z.mul_pos_pos; lia).
  assert (Hi : inexact f x 0 = false) by (unfold inexact; rewrite E0; change (2 * (0 * 2 ^ 0)) with 0; by rewrite H0).
  split; [|by unfold in_range; rewrite Ho, Hi]. exists 0. rewrite Z.add_0_l. rewrite E0, E1. change (1 * 2 ^ 0) with 1. change (2 * (0 * 2 ^ 0)) with 0. change (0 * 2 ^ 0 + 1) with 1.
  rewrite H0, !Hlt by lia. split_and!; [done..|]. destruct r; [done|done|by rewrite bool_decide_true].
Qed.
(** What an operation computes before rounding *)
Definition computes (f : format) (vs : vfp_number) (x : exact_result) : Prop :=
  good f (exponent vs) (significand vs) x \/ (significand vs = 0 /\ exponent vs <> special f /\ x 0 = Eq /\ forall c, 0 < c -> x c = Lt).
Lemma single_computes vs fpscr negative x : Z.testbit fpscr 24 = false -> sign vs = sign_of negative -> computes binary32 vs x ->
  rounds_to binary32 fpscr negative x (single_word vs fpscr 0) (snd (single_rounded vs fpscr 0)).
Proof.
  intros Hfz Hsign [Hg|(Hs & He & H0 & Hlt)].
  - pose proof Hg as (_ & Hs & _). destruct (single_word_spec vs fpscr negative Hsign Hs Hfz) as (k & u & Hk & Hb & -> & -> & Hu).
    eexists. split; [|done]. apply good_rounds; [apply sane32|done|lia|done|done].
  - exists 0. unfold single_word, single_rounded. rewrite (proj2 (Z.eqb_neq _ 255) He), Hs. split; [by apply zero_rounds; [apply sane32|..]|].
    unfold vfp_single_pack. cbn -[Z.shiftl Z.shiftr s32 u32]. rewrite Hsign, Hs. by destruct negative.
Qed.
Lemma double_computes vd fpscr negative x : Z.testbit fpscr 24 = false -> sign vd = sign_of negative -> computes binary64 vd x ->
  rounds_to binary64 fpscr negative x (double_word vd fpscr 0) (snd (double_rounded vd fpscr 0)).
Proof.
  intros Hfz Hsign [Hg|(Hs & He & H0 & Hlt)].
  - pose proof Hg as (_ & Hs & _). destruct (double_word_spec vd fpscr negative Hsign Hs Hfz) as (k & u & Hk & Hb & -> & -> & Hu).
    eexists. split; [|done]. apply good_rounds; [apply sane64|done|lia|done|done].
  - exists 0. unfold double_word, double_rounded. rewrite (proj2 (Z.eqb_neq _ 2047) He), Hs. split; [by apply zero_rounds; [apply sane64|..]|].
    unfold vfp_double_pack. cbn -[Z.shiftl Z.shiftr s64 u64]. rewrite Hsign, Hs. by destruct negative.
Qed.

(** ** Operands *)

Definition finite (f : format) (v : Z) : Prop := field_exponent f v <> special f.
Lemma unpacked_zero f v : field_exponent f v = 0 -> field_mantissa f v = 0 -> unpacked f v = mk_number 0 (sign_of (field_sign f v)) 0.
Proof. intros He Hm. unfold unpacked. rewrite He, Hm. by destruct (field_sign f v). Qed.
Lemma value_zero f v : sane f -> field_exponent f v = 0 -> field_mantissa f v = 0 -> value_of f v = 0.
Proof. intros [] He Hm. by rewrite value_of_fields, He, Hm by lia. Qed.
Lemma unpacked_sign f v : sign (unpacked f v) = sign_of (field_sign f v).
Proof. done. Qed.
(** The condition for normalising, by the type or by the fields *)
Lemma denormal_test f v : 1 <= exponent_bits f -> (exponent (unpacked f v) =? 0) && truth (significand (unpacked f v)) = (field_exponent f v =? 0) && negb (field_mantissa f v =? 0).
Proof.
  intros Hq. unfold unpacked. cbn [exponent significand]. destruct (Z.eqb_spec (field_exponent f v) 0); [|done].
  cbn [orb andb]. rewrite Z.add_0_r. unfold truth. f_equal. pose proof (Z.pow_pos_nonneg 2 (low_bits f) ltac:(lia) ltac:(unfold low_bits; lia)). repeat case_bool; (done || nia).
Qed.
Lemma finite_cases f v : finite f v -> is_proper f v = true \/ (field_exponent f v = 0 /\ field_mantissa f v = 0).
Proof.
  unfold finite, is_proper. intros Hf. rewrite (proj2 (Z.eqb_neq _ _) Hf). destruct (Z.eqb_spec (field_exponent f v) 0), (Z.eqb_spec (field_mantissa f v) 0); auto.
Qed.
Lemma not_flushed f v fpscr : Z.testbit fpscr 24 = false -> flushed f v fpscr = false.
Proof. intros H. unfold flushed. by rewrite H. Qed.
Lemma denormal_type f v : finite f v -> truth (Z.land (type_of f v) VFP_DENORMAL) = (field_exponent f v =? 0) && negb (field_mantissa f v =? 0).
Proof. intros Hf. destruct (type_tests f v) as (_ & _ & ->). by rewrite (proj2 (Z.eqb_neq _ _) Hf). Qed.
Lemma single_operand_spec v fpscr : Z.testbit fpscr 24 = false -> finite binary32 v ->
  exists n, single_operand v fpscr = (n, 0) /\ represents binary32 n (value_of binary32 v) /\ sign n = sign_of (field_sign binary32 v).
Proof.
  intros Hfz Hf. unfold single_operand. rewrite vfp_single_unpack_spec, not_flushed by done. rewrite denormal_test by done.
  destruct (finite_cases _ _ Hf) as [Hp|[He Hm]].
  - destruct (single_proper v _ Hp eq_refl) as (n & En & Hn & Hs). rewrite vfp_single_type_spec, denormal_type in En by done.
    exists n. split; [by rewrite En|]. split; [by left|done].
  - eexists. split; [done|]. rewrite He, Hm, unpacked_zero by done. split; [right; by rewrite value_zero by (apply sane32 || done)|done].
Qed.
Lemma double_operand_spec v fpscr : Z.testbit fpscr 24 = false -> finite binary64 (s64 v) ->
  exists n, double_operand v fpscr = (n, 0) /\ represents binary64 n (value_of binary64 (s64 v)) /\ sign n = sign_of (field_sign binary64 (s64 v)).
Proof.
  intros Hfz Hf. unfold double_operand. rewrite vfp_double_unpack_spec, not_flushed by done. rewrite denormal_test by done.
  destruct (finite_cases _ _ Hf) as [Hp|[He Hm]].
  - destruct (double_proper (s64 v) _ Hp eq_refl) as (n & En & Hn & Hs). rewrite vfp_double_type_spec, denormal_type in En by done.
    exists n. split; [by rewrite En|]. split; [by left|done].
  - eexists. split; [done|]. rewrite He, Hm, unpacked_zero by done. split; [right; by rewrite value_zero by (apply sane64 || done)|done].
Qed.

(** ** Products *)

Lemma hi64multiply_jam n m : is_u64 n -> is_u64 m -> vfp_hi64multiply64 n m = jam (n * m) 64.
Proof.
  intros Hn Hm. unfold vfp_hi64multiply64. destruct (mul64to128_spec n m Hn Hm) as (Hh & Hl & Hv). destruct (mul64to128 n m) as [h l]. unfold value128, is_u64 in *. cbn [fst snd] in *.
  rewrite <- Hv. unfold jam. change 18446744073709551616 with (2 ^ 64) in Hl.
  assert ((h * 2 ^ 64 + l) / 2 ^ 64 = h /\ (h * 2 ^ 64 + l) mod 2 ^ 64 = l) as [-> ->] by (split; [symmetry; apply Z.div_unique with l; lia|symmetry; apply Z.mod_unique with h; lia]).
  unfold truth. destruct (l =? 0); [apply Z.lor_0_r|done].
Qed.

Lemma proper_product f n m x y sgn : sane f -> 5 <= exponent_bits f -> proper f n x -> proper f m y ->
  computes f (mk_number (exponent n + exponent m - bias f + 2) sgn (jam (significand n * significand m) (last_bit f + 1))) (product_of f x y).
Proof.
  intros Hf Hq5 Hn Hm. left. cbn [exponent significand]. pose proof (product_approx f n m x y Hf Hn Hm) as Ha. destruct Hn as [B1 _ E1 _], Hm as [B2 _ E2 _]. unfold good, last_bit, high_bit in *.
  split; [widths f p q b; lia|]. pose proof Hf as [Hp Hq]. set (w := mantissa_bits f + exponent_bits f) in *. assert (Ew : 2 ^ (w - 1 + 1) = 2 * 2 ^ (w - 1)) by (rewrite Z.pow_add_r by lia; lia).
  assert (Hlo : 2 ^ (w - 1) * 2 ^ (w - 1) <= significand n * significand m) by (apply Z.mul_le_mono_nonneg; lia).
  assert (Hhi : significand n * significand m < 2 ^ (w - 1 + 1) * 2 ^ (w - 1 + 1)) by (apply Z.mul_lt_mono_nonneg; lia).
  rewrite <- !Z.pow_add_r in * by lia. set (P := significand n * significand m) in *.
  assert (Ej : 2 ^ (w - 3) <= jam P (w + 1)).
  { replace (w - 3) with (Z.succ (w - 4)) by lia. rewrite Z.pow_succ_r by lia. apply Z.nlt_ge. rewrite jam_lt by lia. rewrite <- Z.pow_succ_r, <- Z.pow_add_r by lia.
    replace (Z.succ (w - 4) + (w + 1)) with (w - 1 + (w - 1)) by lia. lia. }
  pose proof (Z.pow_pos_nonneg 2 (w - 3) ltac:(lia) ltac:(lia)). split.
  - split; [lia|]. rewrite Z.pow_add_r by lia. rewrite Z.mul_comm. change (2 ^ 1) with 2. apply jam_lt; [lia|]. rewrite <- Z.pow_succ_r, <- Z.pow_add_r by lia.
    eapply Z.lt_le_trans; [exact Hhi|]. apply Z.pow_le_mono_r; lia.
  - right. exists 1, 3. split_and!; (done || lia).
Qed.

(** The exponent and the significand of a zero: the test of the code *)
Lemma zero_test f n x (W : Z -> Z) : sane f -> represents f n x -> (forall z, W z = z mod 2 ^ (last_bit f + 1)) ->
  (W (Z.lor (exponent n) (significand n)) =? 0) = (x =? 0).
Proof.
  intros Hf Hn HW. rewrite HW. destruct Hn as [[Hb _ He Hv]|(-> & -> & ->)]; [|by rewrite Z.mod_0_l by (apply Z.pow_nonzero; unfold last_bit; destruct Hf; lia)].
  pose proof Hf as [Hp Hq]. unfold high_bit, last_bit in *. rewrite (proj2 (Z.eqb_neq x 0)).
  - apply Z.eqb_neq. intros E. apply Z.mod_divide in E; [|apply Z.pow_nonzero; lia].
    assert (Ht : Z.testbit (Z.lor (exponent n) (significand n)) (mantissa_bits f + exponent_bits f - 1) = false).
    { destruct E as [k ->]. rewrite Z.mul_pow2_bits_low; [done|lia]. }
    rewrite Z.lor_spec in Ht. apply orb_false_iff in Ht as [_ Ht]. rewrite Z.testbit_odd, Z.shiftr_div_pow2 in Ht by lia.
    assert (E1 : significand n / 2 ^ (mantissa_bits f + exponent_bits f - 1) = 1).
    { symmetry. apply Z.div_unique with (significand n - 2 ^ (mantissa_bits f + exponent_bits f - 1)); rewrite Z.pow_add_r in Hb by lia; lia. }
    by rewrite E1 in Ht.
  - intros ->. assert (0 < significand n * 2 ^ (exponent n + offset)); [|lia]. pose proof (bounds_of f Hf). apply Z.mul_pos_pos; [pose proof (Z.pow_pos_nonneg 2 (mantissa_bits f + exponent_bits f - 1) ltac:(lia) ltac:(lia)); lia|].
    apply Z.pow_pos_nonneg; unfold offset; lia.
Qed.
Lemma represents_zero f n : sane f -> represents f n 0 -> significand n = 0 /\ exponent n = 0.
Proof.
  intros Hf [[Hb _ He Hv]|(He & Hs & _)]; [|done]. exfalso. pose proof Hf as [Hp Hq]. unfold high_bit in *.
  assert (0 < significand n * 2 ^ (exponent n + offset)); [|lia]. apply Z.mul_pos_pos; [pose proof (Z.pow_pos_nonneg 2 (mantissa_bits f + exponent_bits f - 1) ltac:(lia) ltac:(lia)); lia|].
  apply Z.pow_pos_nonneg; unfold offset; lia.
Qed.
Lemma represents_proper f n x : x <> 0 -> represents f n x -> proper f n x.
Proof. by intros Hx [|(_ & _ & ->)]. Qed.
Lemma zero_product f x y sgn : sane f -> x = 0 \/ y = 0 -> computes f (mk_number 0 sgn 0) (product_of f x y).
Proof.
  intros Hf Hxy. right. cbn [exponent significand]. pose proof (bounds_of f Hf). split; [done|]. split; [lia|]. unfold product_of. assert (x * y = 0) as -> by (destruct Hxy; subst; ring).
  destruct Hf as [Hp Hq]. pose proof (Z.pow_pos_nonneg 2 (bias f + mantissa_bits f - 2) ltac:(lia) ltac:(lia)). split; [done|]. intros c Hc. apply Z.compare_lt_iff. nia.
Qed.
Lemma product_comm f x y : product_of f x y = product_of f y x.
Proof. unfold product_of. by rewrite (Z.mul_comm x y). Qed.
(** The significands of a product, one of them perhaps zero *)
Lemma any_product f n m x y sgn : sane f -> 5 <= exponent_bits f -> represents f n x -> represents f m y -> exponent m <= exponent n ->
  (x = 0 /\ y = 0 \/ y <> 0) ->
  computes f (mk_number (exponent n + exponent m - bias f + 2) sgn (jam (significand n * significand m) (last_bit f + 1))) (product_of f x y).
Proof.
  intros Hf Hq5 Hn Hm Hle Hy. destruct (Z.eq_dec x 0) as [->|Hx].
  - destruct (represents_zero f n Hf Hn) as [En0 En1]. pose proof (represents_exponent f m y Hf Hm). destruct (zero_product f 0 y sgn Hf ltac:(by left)) as [(_ & Hs & _)|(_ & _ & Hz)]; [cbn in Hs; lia|].
    right. cbn [exponent significand]. rewrite En0, En1, Z.mul_0_l. pose proof (bounds_of f Hf). split; [|split; [|exact Hz]].
    + unfold jam. destruct Hf. by rewrite Z.mod_0_l, Z.div_0_l by (apply Z.pow_nonzero; unfold last_bit; lia).
    + assert (2 <= bias f); [|lia]. unfold bias. pose proof (Z.pow_le_mono_r 2 2 (exponent_bits f - 1) ltac:(lia) ltac:(lia)). lia.
  - destruct Hy as [[]|Hy]; [done|]. apply proper_product; auto using represents_proper.
Qed.
(** The operand with the larger exponent comes first. *)
Lemma ordered_product f (vsn vsm : vfp_number) x y a b : represents f vsn x -> represents f vsm y -> sign vsn = sign_of a -> sign vsm = sign_of b ->
  exists n m x' y', (if exponent vsn <? exponent vsm then (vsm, vsn) else (vsn, vsm)) = (n, m) /\ represents f n x' /\ represents f m y' /\ exponent m <= exponent n /\
    Z.lxor (sign n) (sign m) = sign_of (xorb a b) /\ product_of f x y = product_of f x' y'.
Proof.
  intros Hn Hm Ha Hb. destruct (Z.ltb_spec (exponent vsn) (exponent vsm)); eexists _, _, _, _; (split; [done|]); rewrite Ha, Hb, xor_sign; split_and!; (done || lia || apply product_comm || idtac).
  by rewrite xorb_comm.
Qed.
Lemma single_multiply_spec vsn vsm x y a b fpscr s : represents binary32 vsn x -> represents binary32 vsm y -> sign vsn = sign_of a -> sign vsm = sign_of b ->
  exists vs, vfp_single_multiply vsn vsm fpscr s = Ret ((vs, 0), s) /\ sign vs = sign_of (xorb a b) /\ computes binary32 vs (product_of binary32 x y).
Proof.
  intros Hn Hm Ha Hb. unfold vfp_single_multiply, vfp_single. destruct (ordered_product binary32 vsn vsm x y a b Hn Hm Ha Hb) as (n & m & x' & y' & E & Hn' & Hm' & Hle & Es & Ep).
  rewrite E, Es, Ep. clear E Es Ep Hn Hm Ha Hb x y vsn vsm. pose proof (represents_exponent _ _ _ sane32 Hn') as En. pose proof (represents_exponent _ _ _ sane32 Hm') as Em.
  change (special binary32) with 255 in *. change (mantissa_bits binary32) with 23 in *. rewrite (proj2 (Z.eqb_neq (exponent n) 255)) by lia.
  pose proof (represents_bound _ _ _ sane32 Hn') as Bn. pose proof (represents_bound _ _ _ sane32 Hm') as Bm. change (high_bit binary32 + 1) with 31 in *.
  rewrite (zero_test binary32 m y' u32 sane32 Hm' ltac:(done)). destruct (Z.eqb_spec y' 0) as [->|Hy].
  - eexists. split; [done|]. split; [done|]. apply zero_product; [apply sane32|by right].
  - eexists. split; [done|]. split; [done|]. assert (0 <= significand n * significand m < 2 ^ 62).
    { split; [lia|]. change (2 ^ 62) with (2 ^ 31 * 2 ^ 31). apply Z.mul_lt_mono_nonneg; lia. }
    rewrite u64_small, hi64to32_jam, s16_small by (unfold is_u64; lia). apply (any_product binary32); [apply sane32|done|done|done|done|by right].
Qed.
Lemma double_multiply_spec vdn vdm x y a b fpscr s : represents binary64 vdn x -> represents binary64 vdm y -> sign vdn = sign_of a -> sign vdm = sign_of b ->
  exists vd, vfp_double_multiply vdn vdm fpscr s = Ret ((vd, 0), s) /\ sign vd = sign_of (xorb a b) /\ computes binary64 vd (product_of binary64 x y).
Proof.
  intros Hn Hm Ha Hb. unfold vfp_double_multiply, vfp_double. destruct (ordered_product binary64 vdn vdm x y a b Hn Hm Ha Hb) as (n & m & x' & y' & E & Hn' & Hm' & Hle & Es & Ep).
  rewrite E, Es, Ep. clear E Es Ep Hn Hm Ha Hb x y vdn vdm. pose proof (represents_exponent _ _ _ sane64 Hn') as En. pose proof (represents_exponent _ _ _ sane64 Hm') as Em.
  change (special binary64) with 2047 in *. change (mantissa_bits binary64) with 52 in *. rewrite (proj2 (Z.eqb_neq (exponent n) 2047)) by lia.
  pose proof (represents_bound _ _ _ sane64 Hn') as Bn. pose proof (represents_bound _ _ _ sane64 Hm') as Bm. change (high_bit binary64 + 1) with 63 in *.
  rewrite (zero_test binary64 m y' u64 sane64 Hm' ltac:(done)). destruct (Z.eqb_spec y' 0) as [->|Hy].
  - eexists. split; [done|]. split; [done|]. apply zero_product; [apply sane64|by right].
  - eexists. split; [done|]. split; [done|]. rewrite hi64multiply_jam, s16_small by (unfold is_u64; lia). apply (any_product binary64); [apply sane64|done|done|done|done|by right].
Qed.

(** ** Sums *)

Lemma plus_computes f n m x y sub sgn z : sane f -> 5 <= exponent_bits f -> represents f n x -> represents f m y -> exponent m <= exponent n ->
  z = plus sub (significand n) (moved n m) ->
  computes f (mk_number (exponent n) sgn (Z.abs z)) (fun c => 2 * Z.abs (plus sub x y) ?= c) /\ Z.sgn z = Z.sgn (plus sub x y) /\ - 2 ^ last_bit f < z < 2 ^ (last_bit f + 1).
Proof.
  intros Hf Hq5 Hn Hm Hle Ez. pose proof (represents_exponent f n x Hf Hn) as En. pose proof (bounds_of f Hf) as Hb. pose proof (represents_bound f n x Hf Hn) as Bn.
  pose proof (moved_bound f n m y Hf Hm Hle) as Bm. pose proof Hf as [Hp Hq].
  assert (Hz : - 2 ^ last_bit f < z < 2 ^ (last_bit f + 1)).
  { unfold high_bit, last_bit in *. assert (E : 2 ^ (mantissa_bits f + exponent_bits f + 1) = 2 * 2 ^ (mantissa_bits f + exponent_bits f)) by (rewrite (Z.pow_add_r 2 (_ + _) 1) by lia; lia). rewrite E. replace (mantissa_bits f + exponent_bits f - 1 + 1) with (mantissa_bits f + exponent_bits f) in * by lia. unfold plus in Ez. destruct sub; lia. }
  assert (Hpow : 2 ^ last_bit f <= 2 ^ (last_bit f + 1)) by (apply Z.pow_le_mono_r; unfold last_bit in *; lia).
  destruct (moved_cases f n m x y Hf Hn Hm Hle) as [E|(H1 & H2 & H3)].
  - destruct (sum_exact f n m x y sub Hf Hn Hm Hle z Ez E) as [He Hs]. split; [|done]. destruct (Z.eq_dec z 0) as [E0|E0].
    + right. cbn [exponent significand]. rewrite E0 in *. assert (plus sub x y = 0) as -> by (apply Z.sgn_null_iff; done). split; [done|]. split; [lia|]. split; [done|]. intros c Hc. by apply Z.compare_lt_iff.
    + left. cbn [exponent significand]. unfold good. split; [lia|]. split; [lia|by left].
  - destruct (sum_far f n m x y sub Hf Hn Hm Hle z Ez ltac:(lia) H1 H2 H3) as (Ha & Hlo & Hpos). unfold high_bit in Hlo.
    pose proof (Z.pow_pos_nonneg 2 (mantissa_bits f + exponent_bits f - 1 - 1) ltac:(lia) ltac:(lia)). split; [|split; [by rewrite !Z.sgn_pos by lia|done]].
    left. cbn [exponent significand]. unfold good. rewrite Z.abs_eq by lia. split; [lia|]. split; [lia|]. right. exists 1, 2. unfold last_bit. split_and!; [lia|exact Ha|lia|].
    by replace (mantissa_bits f + exponent_bits f - 2) with (mantissa_bits f + exponent_bits f - 1 - 1) by lia.
Qed.
(** The value of a number with its sign *)
Definition signed (negative : bool) (x : Z) : Z := if negative then - x else x.
(** The sign of a sum: a zero is negative if both numbers are, or if the rounding is towards
    minus infinity and one of them is. *)
Definition sum_negative (fpscr : Z) (a b : bool) (v : Z) : bool :=
  if v =? 0 then if xorb a b then Z.land fpscr FPSCR_RMODE_MASK =? FPSCR_ROUND_MINUSINF else a else v <? 0.
Lemma signed_sum a b x y : signed a x + signed b y = signed a (plus (xorb a b) x y).
Proof. destruct a, b; cbn; lia. Qed.
Lemma abs_signed a x : Z.abs (signed a x) = Z.abs x.
Proof. destruct a; cbn; lia. Qed.
Lemma sum_negative_spec fpscr a b z w : Z.sgn z = Z.sgn w -> sum_negative fpscr a b (signed a w) =
  match z ?= 0 with Lt => negb a | Eq => if xorb a b then Z.land fpscr FPSCR_RMODE_MASK =? FPSCR_ROUND_MINUSINF else a | Gt => a end.
Proof.
  intros Hs. unfold sum_negative. destruct (Z.compare_spec z 0) as [->|Hz|Hz].
  - symmetry in Hs. apply Z.sgn_null_iff in Hs as ->. by destruct a.
  - rewrite Z.sgn_neg in Hs by done. symmetry in Hs. apply Z.sgn_neg_iff in Hs. destruct a; cbn [signed negb]; repeat case_bool; (done || lia).
  - rewrite Z.sgn_pos in Hs by done. symmetry in Hs. apply Z.sgn_pos_iff in Hs. destruct a; cbn [signed]; repeat case_bool; (done || lia).
Qed.
Lemma sign_choice (b : bool) : (if b then 0x8000 else 0) = sign_of b.
Proof. done. Qed.
(** What remains to be seen in the code: [z], its absolute value and the sign *)
Lemma plus_result f n m x y a b fpscr : sane f -> 5 <= exponent_bits f -> represents f n x -> represents f m y -> exponent m <= exponent n ->
  let v := signed a x + signed b y in
  let z := plus (xorb a b) (significand n) (moved n m) in
  (forall sgn, computes f (mk_number (exponent n) sgn (Z.abs z)) (sum_of (signed a x) (signed b y))) /\
  sum_negative fpscr a b v = match z ?= 0 with Lt => negb a | Eq => if xorb a b then Z.land fpscr FPSCR_RMODE_MASK =? FPSCR_ROUND_MINUSINF else a | Gt => a end /\
  (if xorb a b then - 2 ^ last_bit f < z < 2 ^ last_bit f else 0 <= z < 2 ^ (last_bit f + 1)).
Proof.
  intros Hf Hq5 Hn Hm Hle v z. subst v. unfold sum_of. rewrite signed_sum, abs_signed. split; [intros sgn; by eapply plus_computes|].
  destruct (plus_computes f n m x y (xorb a b) 0 z Hf Hq5 Hn Hm Hle eq_refl) as (_ & Hs & Hz). split; [by apply sum_negative_spec|].
  pose proof (represents_bound f n x Hf Hn). pose proof (moved_bound f n m y Hf Hm Hle). unfold high_bit, last_bit in *. replace (mantissa_bits f + exponent_bits f - 1 + 1) with (mantissa_bits f + exponent_bits f) in * by lia.
  subst z. unfold plus in *. destruct (xorb a b); lia.
Qed.
Lemma single_sum_spec (vsn vsm : vfp_number) x y a b fpscr : represents binary32 vsn x -> represents binary32 vsm y -> sign vsn = sign_of a -> sign vsm = sign_of b -> exponent vsm <= exponent vsn ->
  exists vs, single_sum vsn vsm fpscr = vs /\ sign vs = sign_of (sum_negative fpscr a b (signed a x + signed b y)) /\ computes binary32 vs (sum_of (signed a x) (signed b y)).
Proof.
  intros Hn Hm Ha Hb Hle. destruct (plus_result binary32 vsn vsm x y a b fpscr sane32 ltac:(done) Hn Hm Hle) as (Hc & Hsign & Hz). rewrite Hsign. clear Hsign.
  pose proof (represents_exponent _ _ _ sane32 Hn) as En. pose proof (represents_exponent _ _ _ sane32 Hm) as Em. change (special binary32) with 255 in *. change (mantissa_bits binary32) with 23 in *.
  pose proof (represents_bound _ _ _ sane32 Hm) as Bm. change (high_bit binary32 + 1) with 31 in *. change (last_bit binary32) with 31 in Hz.
  unfold single_sum. rewrite (u32_small (exponent vsn - exponent vsm)), shiftright32_jam by (unfold is_u32; lia). fold (moved vsn vsm). rewrite Ha, Hb, xor_sign, truth_sign, negate_sign.
  revert Hc Hz. destruct (xorb a b); cbn [plus]; generalize (moved vsn vsm); intros m'.
  - set (z := significand vsn - m'). clearbody z. intros Hc Hz. assert (E32 : s32 (u32 z) = z) by (unfold s32, u32; Z.to_euclidean_division_equations; lia). rewrite E32.
    destruct (Z.compare_spec z 0) as [->|Hneg|Hpos].
    + cbn [Z.ltb Z.compare]. change (u32 0) with 0. cbn [Z.eqb]. rewrite sign_choice. eexists. split; [done|]. split; [done|apply Hc].
    + rewrite (proj2 (Z.ltb_lt z 0)), not32_sub by (done || apply u32_range). assert (E : u32 (0xFFFFFFFF - u32 z + 1) = Z.abs z) by (unfold u32; Z.to_euclidean_division_equations; lia). rewrite E.
      eexists. split; [done|]. split; [done|apply Hc].
    + rewrite (proj2 (Z.ltb_ge z 0)), u32_small, (proj2 (Z.eqb_neq z 0)) by (unfold is_u32; lia). eexists. split; [done|]. specialize (Hc (sign_of a)). rewrite Z.abs_eq in Hc by lia. split; [done|exact Hc].
  - set (z := significand vsn + m'). clearbody z. intros Hc Hz. rewrite u32_small by (unfold is_u32; lia). specialize (Hc (sign_of a)). rewrite Z.abs_eq in Hc by lia.
    eexists. split; [done|]. destruct (Z.compare_spec z 0); [..|lia|]; (split; [done|exact Hc]).
Qed.
Lemma double_sum_spec (vdn vdm : vfp_number) x y a b fpscr : represents binary64 vdn x -> represents binary64 vdm y -> sign vdn = sign_of a -> sign vdm = sign_of b -> exponent vdm <= exponent vdn ->
  exists vd, double_sum vdn vdm fpscr = vd /\ sign vd = sign_of (sum_negative fpscr a b (signed a x + signed b y)) /\ computes binary64 vd (sum_of (signed a x) (signed b y)).
Proof.
  intros Hn Hm Ha Hb Hle. destruct (plus_result binary64 vdn vdm x y a b fpscr sane64 ltac:(done) Hn Hm Hle) as (Hc & Hsign & Hz). rewrite Hsign. clear Hsign.
  pose proof (represents_exponent _ _ _ sane64 Hn) as En. pose proof (represents_exponent _ _ _ sane64 Hm) as Em. change (special binary64) with 2047 in *. change (mantissa_bits binary64) with 52 in *.
  pose proof (represents_bound _ _ _ sane64 Hm) as Bm. change (high_bit binary64 + 1) with 63 in *. change (last_bit binary64) with 63 in Hz.
  unfold double_sum. rewrite (u32_small (exponent vdn - exponent vdm)), shiftright64_jam by (unfold is_u32, is_u64; lia). fold (moved vdn vdm). rewrite Ha, Hb, xor_sign, truth_sign, negate_sign.
  revert Hc Hz. destruct (xorb a b); cbn [plus]; generalize (moved vdn vdm); intros m'.
  - set (z := significand vdn - m'). clearbody z. intros Hc Hz. assert (E64 : s64 (u64 z) = z) by (unfold s64, u64; Z.to_euclidean_division_equations; lia). rewrite E64.
    destruct (Z.compare_spec z 0) as [->|Hneg|Hpos].
    + cbn [Z.ltb Z.compare]. change (u64 0) with 0. cbn [Z.eqb]. rewrite sign_choice. eexists. split; [done|]. split; [done|apply Hc].
    + rewrite (proj2 (Z.ltb_lt z 0)) by done. assert (E : u64 (- u64 z) = Z.abs z) by (unfold u64; Z.to_euclidean_division_equations; lia). rewrite E.
      eexists. split; [done|]. split; [done|apply Hc].
    + rewrite (proj2 (Z.ltb_ge z 0)), u64_small, (proj2 (Z.eqb_neq z 0)) by (unfold is_u64; lia). eexists. split; [done|]. specialize (Hc (sign_of a)). rewrite Z.abs_eq in Hc by lia. split; [done|exact Hc].
  - rewrite (Z.add_comm m'). set (z := significand vdn + m'). clearbody z. intros Hc Hz. rewrite u64_small by (unfold is_u64; lia). specialize (Hc (sign_of a)). rewrite Z.abs_eq in Hc by lia.
    eexists. split; [done|]. destruct (Z.compare_spec z 0); [..|lia|]; (split; [done|exact Hc]).
Qed.
(** The sum, in either order *)
Lemma ordered_sum f (vsn vsm : vfp_number) x y a b fpscr : represents f vsn x -> represents f vsm y -> sign vsn = sign_of a -> sign vsm = sign_of b ->
  exists n m x' y' a' b', (if exponent vsn <? exponent vsm then (vsm, vsn) else (vsn, vsm)) = (n, m) /\ represents f n x' /\ represents f m y' /\ sign n = sign_of a' /\ sign m = sign_of b' /\ exponent m <= exponent n /\
    sum_negative fpscr a b (signed a x + signed b y) = sum_negative fpscr a' b' (signed a' x' + signed b' y') /\ sum_of (signed a x) (signed b y) = sum_of (signed a' x') (signed b' y').
Proof.
  intros Hn Hm Ha Hb. destruct (Z.ltb_spec (exponent vsn) (exponent vsm)); [exists vsm, vsn, y, x, b, a|exists vsn, vsm, x, y, a, b]; split_and!; try (done || lia).
  - rewrite (Z.add_comm (signed b y)). unfold sum_negative. by destruct (_ =? 0), a, b.
  - unfold sum_of. by rewrite (Z.add_comm (signed b y)).
Qed.
Lemma single_add_spec vsn vsm x y a b fpscr s : represents binary32 vsn x -> represents binary32 vsm y -> sign vsn = sign_of a -> sign vsm = sign_of b ->
  exists vs, vfp_single_add vsn vsm fpscr s = Ret ((vs, 0), s) /\ sign vs = sign_of (sum_negative fpscr a b (signed a x + signed b y)) /\ computes binary32 vs (sum_of (signed a x) (signed b y)).
Proof.
  intros Hn Hm Ha Hb. unfold vfp_single_add, vfp_single. destruct (ordered_sum binary32 vsn vsm x y a b fpscr Hn Hm Ha Hb) as (n & m & x' & y' & a' & b' & E & Hn' & Hm' & Ha' & Hb' & Hle & -> & ->).
  rewrite E. pose proof (represents_exponent _ _ _ sane32 Hn') as En. rewrite (proj2 (Z.eqb_neq (exponent n) 255)) by (change (special binary32) with 255 in En; lia).
  destruct (single_sum_spec n m x' y' a' b' fpscr Hn' Hm' Ha' Hb' Hle) as (vs & <- & Hs & Hc). by eexists.
Qed.
Lemma double_add_spec vdn vdm x y a b fpscr s : represents binary64 vdn x -> represents binary64 vdm y -> sign vdn = sign_of a -> sign vdm = sign_of b ->
  exists vd, vfp_double_add vdn vdm fpscr s = Ret ((vd, 0), s) /\ sign vd = sign_of (sum_negative fpscr a b (signed a x + signed b y)) /\ computes binary64 vd (sum_of (signed a x) (signed b y)).
Proof.
  intros Hn Hm Ha Hb. unfold vfp_double_add, vfp_double. destruct (ordered_sum binary64 vdn vdm x y a b fpscr Hn Hm Ha Hb) as (n & m & x' & y' & a' & b' & E & Hn' & Hm' & Ha' & Hb' & Hle & -> & ->).
  rewrite E. pose proof (represents_exponent _ _ _ sane64 Hn') as En. rewrite (proj2 (Z.eqb_neq (exponent n) 2047)) by (change (special binary64) with 2047 in En; lia).
  destruct (double_sum_spec n m x' y' a' b' fpscr Hn' Hm' Ha' Hb' Hle) as (vd & <- & Hs & Hc). by eexists.
Qed.

(** ** Quotients and roots

    Quotients and square roots before they are rounded: the digits that the code finds are on
    the same side of every number and midpoint as the exact result. *)

(** *** Quotients *)

Lemma even_significand f n x : 2 <= exponent_bits f -> proper f n x -> significand n mod 2 = 0.
Proof. intros Hq [_ Hl _ _]. change 2 with (2 ^ 1). rewrite <- (mod_mod_pow _ 1 (low_bits f)), Hl by (unfold low_bits; lia). done. Qed.
Lemma quotient_computes f n m x y k t sgn r : sane f -> proper f n x -> proper f m y -> 0 <= t -> 0 <= k <= 1 -> t + 1 <= exponent_bits f - 1 ->
  approximates t r (significand n * 2 ^ (mantissa_bits f + exponent_bits f + 1 - k)) (significand m * 2) -> 2 ^ high_bit f <= r < 2 ^ (last_bit f + 1) ->
  computes f (mk_number (exponent n - exponent m + bias f - 1 + k) sgn r) (quotient_of f x y).
Proof.
  intros Hf Hn Hm Ht Hk Htk Ha Hr. left. pose proof (quotient_approx f n m x y k t r Hf Hn Hm Ht Hk Ha) as Hx. destruct Hn as [_ _ En _], Hm as [_ _ Em _]. pose proof (bounds_of f Hf). pose proof Hf as [Hp Hq].
  unfold good, high_bit, last_bit in *. cbn [exponent significand]. pose proof (Z.pow_pos_nonneg 2 (mantissa_bits f + exponent_bits f - 1) ltac:(lia) ltac:(lia)).
  split; [lia|]. split; [lia|]. right. exists t, 1. split_and!; (done || lia).
Qed.
Lemma single_quotient_spec vsn vsm x y sgn : proper binary32 vsn x -> proper binary32 vsm y ->
  exists vs, single_quotient sgn vsn vsm = vs /\ sign vs = sgn /\ computes binary32 vs (quotient_of binary32 x y).
Proof.
  intros Hn Hm. pose proof (proper_top _ _ _ Hn) as Bn. pose proof (proper_top _ _ _ Hm) as Bm. pose proof (proper_exponent _ _ _ Hn) as En. pose proof (proper_exponent _ _ _ Hm) as Em. pose proof (even_significand binary32 _ _ ltac:(done) Hn) as H2.
  change (high_bit binary32) with 30 in *. change (mantissa_bits binary32) with 23 in *. change (special binary32) with 255 in *.
  unfold single_quotient. rewrite !(Z.shiftl_mul_pow2 _ 1) by lia. change (2 ^ 1) with 2. rewrite (u32_small (significand vsm * 2)), (u32_small (2 * significand vsn)) by (unfold is_u32; lia). rewrite !(s16_small (exponent vsn - exponent vsm + 127 - 1)) by lia. rewrite (s16_small (_ + 1)) by lia.
  assert (exists k nn, (if significand vsm * 2 <=? 2 * significand vsn then (Z.shiftr (significand vsn) 1, exponent vsn - exponent vsm + 127 - 1 + 1) else (significand vsn, exponent vsn - exponent vsm + 127 - 1)) = (nn, exponent vsn - exponent vsm + 127 - 1 + k) /\
    0 <= k <= 1 /\ significand vsn * 2 ^ (32 - k) = nn * 2 ^ 32 /\ 2 ^ 29 <= nn < significand vsm * 2 /\ significand vsm * 2 <= 4 * nn) as (k & nn & -> & Hk & Ek & Hnn & H4).
  { destruct (Z.leb_spec (significand vsm * 2) (2 * significand vsn)).
    - exists 1, (significand vsn / 2). rewrite Z.shiftr_div_pow2 by lia. change (2 ^ 1) with 2. split; [done|]. change (32 - 1) with 31. Z.to_euclidean_division_equations; lia.
    - exists 0, (significand vsn). rewrite Z.add_0_r, Z.sub_0_r. split; [done|lia]. }
  rewrite !(Z.shiftl_mul_pow2 nn) by lia. change (2 ^ 32) with 4294967296. set (mm := significand vsm * 2) in *.
  pose proof (Z.div_mod (nn * 4294967296) mm ltac:(lia)) as Hd. pose proof (Z.mod_pos_bound (nn * 4294967296) mm ltac:(lia)) as Hr. set (q := nn * 4294967296 / mm) in *. set (rem := (nn * 4294967296) mod mm) in *. clearbody q rem.
  assert (Hq : 2 ^ 30 <= q < 2 ^ 32) by nia. rewrite (u32_small q) by (unfold is_u32; lia).
  set (r := if Z.land q 63 =? 0 then _ else q).
  assert (Hr' : approximates 6 r (nn * 2 ^ 32) mm /\ 2 ^ 30 <= r < 2 ^ 32).
  { subst r. change 63 with (Z.ones 6). rewrite Z.land_ones by lia. pose proof (Z.mod_pos_bound q (2 ^ 6) ltac:(lia)). destruct (Z.eqb_spec (q mod 2 ^ 6) 0).
    - rewrite u64_small by (unfold is_u64; nia). pose proof (approximates_floor 6 q (nn * 4294967296) mm ltac:(lia) ltac:(lia) ltac:(lia)) as Ha.
      assert (E : (mm * q =? nn * 4294967296) = (nn * 4294967296 - q * mm =? 0)) by (repeat case_bool; (done || lia)). rewrite E. split; [done|].
      destruct (_ =? 0); [by rewrite Z.lor_0_r|]. rewrite lor_1. Z.to_euclidean_division_equations; lia.
    - split; [|done]. apply (approximates_above 6 q (nn * 4294967296) mm 0); lia. }
  eexists. split; [done|]. split; [done|]. destruct Hr' as [Ha Hb].
  replace (exponent vsn - exponent vsm + 127 - 1 + k) with (exponent vsn - exponent vsm + bias binary32 - 1 + k) by done.
  apply (quotient_computes binary32 vsn vsm x y k 6); [apply sane32|done|done|lia|lia|done| |exact Hb]. change (mantissa_bits binary32 + exponent_bits binary32 + 1 - k) with (32 - k). rewrite Ek. done.
Qed.
Lemma double_quotient_spec vdn vdm x y sgn s : proper binary64 vdn x -> proper binary64 vdm y ->
  exists vd, double_quotient sgn vdn vdm s = Ret (vd, s) /\ sign vd = sgn /\ computes binary64 vd (quotient_of binary64 x y).
Proof.
  intros Hn Hm. pose proof (proper_top _ _ _ Hn) as Bn. pose proof (proper_top _ _ _ Hm) as Bm. pose proof (proper_exponent _ _ _ Hn) as En. pose proof (proper_exponent _ _ _ Hm) as Em. pose proof (even_significand binary64 _ _ ltac:(done) Hn) as H2.
  change (high_bit binary64) with 62 in *. change (mantissa_bits binary64) with 52 in *. change (special binary64) with 2047 in *.
  destruct (double_quotient_digits sgn vdn vdm s Bn Bm H2) as (r & k & E & Hk & Hr & Ha). rewrite (s16_small (exponent vdn - exponent vdm + 1023 - 1)) in E by lia. rewrite (s16_small (_ + 1)) in E by lia.
  eexists. split; [exact E|]. split; [done|].
  assert (Ee : (if k =? 1 then exponent vdn - exponent vdm + 1023 - 1 + 1 else exponent vdn - exponent vdm + 1023 - 1) = exponent vdn - exponent vdm + bias binary64 - 1 + k) by (change (bias binary64) with 1023; destruct Hk as [-> | ->]; cbn [Z.eqb Pos.eqb]; lia).
  rewrite Ee. apply (quotient_computes binary64 vdn vdm x y k 9); [apply sane64|done|done|lia|lia|done|done|exact Hr].
Qed.

(** *** Roots *)

Lemma single_root_spec vsm x s : proper binary32 vsm x ->
  exists vs, single_square_root vsm s = Ret (vs, s) /\ sign vs = 0 /\ computes binary32 (vs <| significand ::= fun x => vfp_shiftright32jamming x 1 |>) (root_of binary32 x).
Proof.
  intros Hm. pose proof (proper_top _ _ _ Hm) as Bm. pose proof (proper_exponent _ _ _ Hm) as Em. change (high_bit binary32) with 30 in *. change (mantissa_bits binary32) with 23 in *. change (special binary32) with 255 in *.
  destruct (single_root (exponent vsm) (significand vsm) s Bm vsm eq_refl eq_refl) as (r & E & Hr & Ha).
  assert (Eh : exponent vsm - 127 = 2 * ((exponent vsm - 127) / 2) + (exponent vsm - 127) mod 2) by (apply Z.div_mod; lia). pose proof (Z.mod_pos_bound (exponent vsm - 127) 2 ltac:(lia)).
  rewrite Z.shiftr_div_pow2 in E by lia. change (2 ^ 1) with 2 in E. set (h := (exponent vsm - 127) / 2) in *. set (d := (exponent vsm - 127) mod 2) in *.
  rewrite s16_small in E by lia. eexists. split; [exact E|]. split; [done|].
  change ((mk_number (h + 127) 0 r) <| significand ::= fun x0 => vfp_shiftright32jamming x0 1 |>) with (mk_number (h + 127) 0 (vfp_shiftright32jamming r 1)). rewrite shiftright32_jam by (unfold is_u32; lia).
  left. cbn [exponent significand]. unfold good. split; [lia|]. change (last_bit binary32) with 31. split; [split|].
  - assert (2 * 2 ^ 29 <= jam r 1); [|lia]. apply Z.nlt_ge. rewrite jam_lt; lia.
  - assert (jam r 1 < 2 * 2 ^ 30); [|lia]. rewrite jam_lt; lia.
  - right. exists 6, 1. split; [done|]. split; [|split; [done|]].
    + apply (root_approx binary32 vsm x h d 7); [apply sane32|done|exact Eh|lia|lia|]. change (mantissa_bits binary32 + exponent_bits binary32 + 1 + d) with (32 + d).
      unfold single_radicand in Ha. assert (Ed : 33 - Z.land (exponent vsm) 1 = 32 + d); [|by rewrite <- Ed].
      change 1 with (Z.ones 1) at 1. rewrite Z.land_ones by lia. change (2 ^ 1) with 2. subst d. Z.to_euclidean_division_equations; lia.
    + assert (2 * 2 ^ 29 <= jam r 1); [|lia]. apply Z.nlt_ge. rewrite jam_lt; lia.
Qed.
