(* ===== verification/VfpOps.v ===== *)
(** The instructions of the floating-point unit on finite operands: what they write is the exact
    result, correctly rounded. *)

From S2P Require Import Prelude ArmSupp ArmState VfpHelper VfpPack VfpSingle VfpDouble VfpNumber VfpRound VfpCorrect.

#[local] Abbreviation M := (Prelude.M ARMul_State).
#[local] Arguments s32 : simpl never.
#[local] Arguments u32 : simpl never.

(** ** Words in registers *)

Definition single_at (s : ARMul_State) (r n : Z) : Prop := ExtReg s !! Z.to_nat r = Some n.
Definition put_single (r w : Z) (s : ARMul_State) : ARMul_State := s <| ExtReg ::= <[Z.to_nat r := w]> |>.
(** A double is in two registers, the lower half first. *)
Definition double_at (s : ARMul_State) (r n : Z) : Prop :=
  exists hi lo, single_at s (r * 2 + 1) hi /\ single_at s (r * 2) lo /\ is_u32 hi /\ is_u32 lo /\ n = hi * 2 ^ 32 + lo.
Definition put_double (r w : Z) (s : ARMul_State) : ARMul_State := put_single (r * 2 + 1) (w / 2 ^ 32) (put_single (r * 2) (w mod 2 ^ 32) s).

(** The instruction writes the exact result [x], with its sign, rounded, and returns the
    exceptions of rounding. *)
Definition gives_single (run : M Z) (s : ARMul_State) (sd fpscr : Z) (negative : bool) (x : exact_result) : Prop :=
  exists e w, run s = Ret (e, put_single sd w s) /\ rounds_to binary32 fpscr negative x w e.
Definition gives_double (run : M Z) (s : ARMul_State) (dd fpscr : Z) (negative : bool) (x : exact_result) : Prop :=
  exists e w, run s = Ret (e, put_double dd w s) /\ rounds_to binary64 fpscr negative x w e.
(** The number a word stands for, in units of the smallest denormal *)
Definition number (f : format) (v : Z) : Z := signed (field_sign f v) (value_of f v).

Lemma get_single s r n : single_at s r n -> vfp_get_float r s = Ret (s32 n, s).
Proof. intros H. unfold vfp_get_float, ext_reg, mbind, M_bind. cbn. by rewrite H. Qed.
Lemma set_single s r n v : single_at s r n -> set_ext_reg r v s = Ret (tt, put_single r (u32 v) s).
Proof. intros H. unfold set_ext_reg, mbind, M_bind. cbn. by rewrite H. Qed.
Lemma single_write s sd old vs fpscr exceptions : single_at s sd old ->
  vfp_single_normaliseround sd vs fpscr exceptions s = Ret (snd (single_rounded vs fpscr exceptions), put_single sd (single_word vs fpscr exceptions) s).
Proof.
  intros H. unfold vfp_single_normaliseround, single_word. destruct (single_rounded vs fpscr exceptions) as [n e]. unfold vfp_put_float, mbind, M_bind. by rewrite (set_single _ _ _ _ H).
Qed.
Lemma put_single_at s r r' n w : single_at s r n -> exists n', single_at (put_single r' w s) r n'.
Proof.
  intros H. unfold single_at, put_single in *. cbn. destruct (decide (Z.to_nat r' = Z.to_nat r)) as [->|Hne].
  - eexists. apply list_lookup_insert_eq. by eapply lookup_lt_Some.
  - exists n. by rewrite list_lookup_insert_ne.
Qed.
Lemma get_double s r n : double_at s r n -> vfp_get_double r s = Ret (n, s).
Proof.
  intros (hi & lo & Hh & Hl & Bh & Bl & ->). unfold vfp_get_double, ext_reg, mbind, M_bind. cbn. rewrite Hh. cbn. rewrite Hl. cbn. unfold mret, M_ret. do 2 f_equal.
  rewrite Z.shiftl_mul_pow2 by lia. apply (lor_disjoint _ _ 32); [lia|exact Bl|apply Z.mod_mul; lia].
Qed.
Lemma put_double_return s dd old v (e : Z) : double_at s dd old -> is_u64 v -> (vfp_put_double v dd ;; mret e) s = Ret (e, put_double dd v s).
Proof.
  intros (hi & lo & Hh & Hl & _) Hv. unfold vfp_put_double, mbind, M_bind.
  rewrite (set_single _ _ _ _ Hl). destruct (put_single_at s (dd * 2 + 1) (dd * 2) hi (u32 (Z.land v 0xffffffff)) Hh) as [n' Hn'].
  rewrite (set_single _ _ _ _ Hn'). unfold put_double, mret, M_ret. do 3 f_equal.
  - rewrite Z.shiftr_div_pow2 by lia. apply u32_small. unfold is_u32, is_u64 in *. Z.to_euclidean_division_equations; lia.
  - do 2 f_equal. change 0xffffffff with (Z.ones 32). rewrite Z.land_ones by lia. apply u32_small. unfold is_u32. apply Z.mod_pos_bound. lia.
Qed.
Lemma double_write s dd old vd fpscr exceptions : double_at s dd old ->
  vfp_double_normaliseround dd vd fpscr exceptions s = Ret (snd (double_rounded vd fpscr exceptions), put_double dd (double_word vd fpscr exceptions) s).
Proof.
  intros H. unfold vfp_double_normaliseround, double_word. destruct (double_rounded vd fpscr exceptions) as [n e]. apply (put_double_return _ _ _ _ _ H). unfold is_u64, u64. apply Z.mod_pos_bound. lia.
Qed.

(** ** Fields of words *)

Lemma same_fields f v v' : sane f -> v mod 2 ^ (last_bit f + 1) = v' mod 2 ^ (last_bit f + 1) ->
  field_exponent f v = field_exponent f v' /\ field_mantissa f v = field_mantissa f v' /\ field_sign f v = field_sign f v' /\ value_of f v = value_of f v'.
Proof.
  intros [Hp Hq] E. unfold last_bit in E.
  assert (Hm : forall k, 0 <= k <= mantissa_bits f + exponent_bits f + 1 -> v mod 2 ^ k = v' mod 2 ^ k).
  { intros k Hk. rewrite <- (mod_mod_pow v k (mantissa_bits f + exponent_bits f + 1)), E by lia. apply mod_mod_pow. lia. }
  assert (Hb : forall i, 0 <= i < mantissa_bits f + exponent_bits f + 1 -> Z.testbit v i = Z.testbit v' i).
  { intros i Hi. by rewrite <- (Z.mod_pow2_bits_low v (mantissa_bits f + exponent_bits f + 1) i), E, Z.mod_pow2_bits_low by lia. }
  split_and!.
  - unfold field_exponent. apply Z.bits_inj'. intros i Hi. destruct (Z.lt_ge_cases i (exponent_bits f)); [|by rewrite !Z.mod_pow2_bits_high by lia].
    rewrite !Z.mod_pow2_bits_low, !Z.div_pow2_bits by lia. apply Hb. lia.
  - unfold field_mantissa. apply Hm. lia.
  - unfold field_sign. apply Hb. lia.
  - unfold value_of, field_magnitude. by rewrite Hm by lia.
Qed.
Lemma s32_fields n : field_exponent binary32 (s32 n) = field_exponent binary32 n /\ field_mantissa binary32 (s32 n) = field_mantissa binary32 n /\
  field_sign binary32 (s32 n) = field_sign binary32 n /\ value_of binary32 (s32 n) = value_of binary32 n.
Proof. apply same_fields; [apply sane32|]. change (last_bit binary32 + 1) with 32. unfold s32. Z.to_euclidean_division_equations; lia. Qed.
Lemma s64_fields n : field_exponent binary64 (s64 n) = field_exponent binary64 n /\ field_mantissa binary64 (s64 n) = field_mantissa binary64 n /\
  field_sign binary64 (s64 n) = field_sign binary64 n /\ value_of binary64 (s64 n) = value_of binary64 n.
Proof. apply same_fields; [apply sane64|]. change (last_bit binary64 + 1) with 64. unfold s64. Z.to_euclidean_division_equations; lia. Qed.
Lemma double_operand_at v fpscr : Z.testbit fpscr 24 = false -> finite binary64 v ->
  exists n, double_operand v fpscr = (n, 0) /\ represents binary64 n (value_of binary64 v) /\ sign n = sign_of (field_sign binary64 v).
Proof. intros Hfz. destruct (s64_fields v) as (E1 & _ & <- & <-). unfold finite. rewrite <- E1. by apply double_operand_spec. Qed.
Lemma single_operand_at v fpscr : Z.testbit fpscr 24 = false -> finite binary32 v ->
  exists n, single_operand (s32 v) fpscr = (n, 0) /\ represents binary32 n (value_of binary32 v) /\ sign n = sign_of (field_sign binary32 v).
Proof. intros Hfz. destruct (s32_fields v) as (E1 & _ & <- & <-). unfold finite. rewrite <- E1. by apply single_operand_spec. Qed.
(** The opposite word *)
Lemma negated_fields f v : sane f -> field_exponent f (v + 2 ^ last_bit f) = field_exponent f v /\ field_sign f (v + 2 ^ last_bit f) = negb (field_sign f v) /\ value_of f (v + 2 ^ last_bit f) = value_of f v.
Proof.
  intros [Hp Hq]. unfold last_bit. split_and!.
  - unfold field_exponent. rewrite (Z.pow_add_r 2 (mantissa_bits f)) by lia. rewrite (Z.mul_comm (2 ^ mantissa_bits f)), Z.div_add by lia.
    rewrite <- (Z.mul_1_l (2 ^ exponent_bits f)) at 1. by rewrite Z.mod_add by lia.
  - unfold field_sign. set (k := mantissa_bits f + exponent_bits f). rewrite !Z.testbit_odd, !Z.shiftr_div_pow2 by lia. rewrite <- (Z.mul_1_l (2 ^ k)) at 1. rewrite Z.div_add by lia. by rewrite Z.odd_add, xorb_true_r.
  - unfold value_of, field_magnitude. rewrite <- (Z.mul_1_l (2 ^ (mantissa_bits f + exponent_bits f))) at 1. by rewrite Z.mod_add by lia.
Qed.
Lemma packed_negate_spec m : (vfp_single_packed_negate m) mod 2 ^ 32 = (m + 2 ^ 31) mod 2 ^ 32.
Proof.
  unfold vfp_single_packed_negate. change 0x80000000 with (2 ^ 31). assert (Hu : 0 <= u32 m < 2 ^ 32) by apply u32_range.
  assert (E : (m + 2 ^ 31) mod 2 ^ 32 = (u32 m + 2 ^ 31) mod 2 ^ 32) by (unfold u32; Z.to_euclidean_division_equations; lia). rewrite E. clear E. generalize dependent (u32 m). clear m. intros m Hm.
  destruct (Z.lt_ge_cases m (2 ^ 31)).
  - rewrite <- Z.add_nocarry_lxor; [done|]. rewrite land_pow2 by lia. assert (Z.testbit m 31 = false) as ->; [|done]. apply Z.bits_above_log2; [lia|]. destruct (Z.eq_dec m 0) as [->|]; [done|]. apply Z.log2_lt_pow2; lia.
  - assert (Hx : m = Z.lxor (m - 2 ^ 31) (2 ^ 31)).
    { rewrite <- Z.add_nocarry_lxor; [lia|]. rewrite land_pow2 by lia. assert (Z.testbit (m - 2 ^ 31) 31 = false) as ->; [|done]. apply Z.bits_above_log2; [lia|]. destruct (Z.eq_dec (m - 2 ^ 31) 0) as [->|]; [done|]. apply Z.log2_lt_pow2; lia. }
    rewrite Hx at 1. rewrite Z.lxor_assoc, Z.lxor_nilpotent, Z.lxor_0_r. Z.to_euclidean_division_equations; lia.
Qed.

(** ** The instructions *)

Lemma single_gives s sd old fpscr (vs : vfp_number) negative x (run : M Z) : single_at s sd old -> Z.testbit fpscr 24 = false ->
  sign vs = sign_of negative -> computes binary32 vs x -> run s = vfp_single_normaliseround sd vs fpscr 0 s -> gives_single run s sd fpscr negative x.
Proof. intros Hsd Hfz Hs Hc E. eexists _, _. split; [by rewrite E, (single_write _ _ old)|]. by apply single_computes. Qed.
Lemma double_gives s dd old fpscr (vd : vfp_number) negative x (run : M Z) : double_at s dd old -> Z.testbit fpscr 24 = false ->
  sign vd = sign_of negative -> computes binary64 vd x -> run s = vfp_double_normaliseround dd vd fpscr 0 s -> gives_double run s dd fpscr negative x.
Proof. intros Hsd Hfz Hs Hc E. eexists _, _. split; [by rewrite E, (double_write _ _ old)|]. by apply double_computes. Qed.

(** What the tests of divisions and roots see of finite numbers *)
Lemma finite_type f v : sane f -> finite f v ->
  (value_of f v = 0 /\ field_exponent f v = 0 /\ field_mantissa f v = 0 /\ type_of f v = Z.lor VFP_NUMBER VFP_ZERO) \/
  (0 < value_of f v /\ is_proper f v = true /\ (type_of f v = VFP_NUMBER \/ type_of f v = Z.lor VFP_NUMBER VFP_DENORMAL)).
Proof.
  intros Hf Hv. pose proof Hf as [Hp Hq]. unfold type_of, is_proper. unfold finite in Hv. rewrite (proj2 (Z.eqb_neq _ _) Hv). rewrite value_of_fields by lia. pose proof (field_mantissa_range f v ltac:(lia)). pose proof (field_exponent_range f v ltac:(lia)).
  destruct (Z.eqb_spec (field_exponent f v) 0) as [E0|E0].
  - destruct (Z.eqb_spec (field_mantissa f v) 0) as [Em|Em]; [by left|right]. split; [lia|]. split; [done|by right].
  - right. split; [|by auto]. apply Z.mul_pos_pos; [lia|]. apply Z.pow_pos_nonneg; lia.
Qed.
Lemma zero_quotient f y sgn : sane f -> 0 < y -> computes f (mk_number 0 sgn 0) (quotient_of f 0 y).
Proof. intros Hf Hy. right. cbn [exponent significand]. pose proof (bounds_of f Hf). split; [done|]. split; [lia|]. split; [done|]. intros c Hc. apply Z.compare_lt_iff. nia. Qed.
Lemma pack_zero_single fpscr b : u32 (vfp_single_pack (mk_number 0 (sign_of b) 0)) = single_word (mk_number 0 (sign_of b) 0) fpscr 0.
Proof. by destruct b. Qed.
Lemma pack_zero_double fpscr b : u64 (vfp_double_pack (mk_number 0 (sign_of b) 0)) = double_word (mk_number 0 (sign_of b) 0) fpscr 0.
Proof. by destruct b. Qed.
Lemma zero_root f sgn : sane f -> computes f (mk_number 0 sgn 0) (root_of f 0).
Proof. intros Hf. right. cbn [exponent significand]. pose proof (bounds_of f Hf). split; [done|]. split; [lia|]. split; [done|]. intros c Hc. apply Z.compare_lt_iff. nia. Qed.
Lemma put_return s sd old v (e : Z) : single_at s sd old -> (vfp_put_float v sd ;; mret e) s = Ret (e, put_single sd (u32 v) s).
Proof. intros H. unfold vfp_put_float, mbind, M_bind. by rewrite (set_single _ _ _ _ H). Qed.
Section Single.
Context (s : ARMul_State) (sd sn n m old fpscr : Z).
Hypothesis (Hsn : single_at s sn n) (Hsd : single_at s sd old) (Hfz : Z.testbit fpscr 24 = false) (Hn : finite binary32 n) (Hm : finite binary32 m).
Lemma fmul_gives : gives_single (vfp_single_fmul sd sn m fpscr) s sd fpscr (xorb (field_sign binary32 n) (field_sign binary32 m)) (product_of binary32 (value_of binary32 n) (value_of binary32 m)).
Proof using Hsn Hsd Hfz Hn Hm.
  destruct (single_operand_at n fpscr Hfz Hn) as (vn & En & Rn & Sn). destruct (single_operand_spec m fpscr Hfz Hm) as (vm & Em & Rm & Sm).
  destruct (single_multiply_spec vn vm _ _ _ _ fpscr s Rn Rm Sn Sm) as (vs & E & Hs & Hc). eapply single_gives; [done..|].
  unfold vfp_single_fmul, mbind, M_bind. rewrite (get_single _ _ _ Hsn), En, Em, E. done.
Qed.
Lemma fnmul_gives : gives_single (vfp_single_fnmul sd sn m fpscr) s sd fpscr (negb (xorb (field_sign binary32 n) (field_sign binary32 m))) (product_of binary32 (value_of binary32 n) (value_of binary32 m)).
Proof using Hsn Hsd Hfz Hn Hm.
  destruct (single_operand_at n fpscr Hfz Hn) as (vn & En & Rn & Sn). destruct (single_operand_spec m fpscr Hfz Hm) as (vm & Em & Rm & Sm).
  destruct (single_multiply_spec vn vm _ _ _ _ fpscr s Rn Rm Sn Sm) as (vs & E & Hs & Hc). eapply (single_gives _ _ _ _ (negate_if true vs)); [done..| | |].
  - cbn. by rewrite Hs, negate_sign.
  - exact Hc.
  - unfold vfp_single_fnmul, mbind, M_bind. rewrite (get_single _ _ _ Hsn), En, Em, E. done.
Qed.
Lemma fadd_gives : gives_single (vfp_single_fadd sd sn m fpscr) s sd fpscr
  (sum_negative fpscr (field_sign binary32 n) (field_sign binary32 m) (number binary32 n + number binary32 m)) (sum_of (number binary32 n) (number binary32 m)).
Proof using Hsn Hsd Hfz Hn Hm.
  destruct (single_operand_at n fpscr Hfz Hn) as (vn & En & Rn & Sn). destruct (single_operand_spec m fpscr Hfz Hm) as (vm & Em & Rm & Sm).
  destruct (single_add_spec vn vm _ _ _ _ fpscr s Rn Rm Sn Sm) as (vs & E & Hs & Hc). eapply single_gives; [done..|].
  unfold vfp_single_fadd, mbind, M_bind. rewrite (get_single _ _ _ Hsn), En, Em, E. done.
Qed.
End Single.
Section SingleMore.
Context (s : ARMul_State) (sd sn n m old fpscr : Z).
Hypothesis (Hsn : single_at s sn n) (Hsd : single_at s sd old) (Hfz : Z.testbit fpscr 24 = false) (Hn : finite binary32 n) (Hm : finite binary32 m).
Lemma fsub_gives : gives_single (vfp_single_fsub sd sn m fpscr) s sd fpscr
  (sum_negative fpscr (field_sign binary32 n) (negb (field_sign binary32 m)) (number binary32 n - number binary32 m)) (sum_of (number binary32 n) (- number binary32 m)).
Proof using Hsn Hsd Hfz Hn Hm.
  unfold gives_single, vfp_single_fsub. rewrite vfp_single_unpack_spec, not_flushed by done. change (truth (Z.land 0 FPSCR_IDC)) with false. cbv iota.
  assert (E0 : (m =? 0x7FC00000) = false) by (apply Z.eqb_neq; intros ->; by apply Hm). rewrite E0.
  destruct (s32_fields (vfp_single_packed_negate m)) as (E1 & _ & E2 & E3). destruct (same_fields binary32 (vfp_single_packed_negate m) (m + 2 ^ last_bit binary32) sane32 (packed_negate_spec m)) as (F1 & _ & F2 & F3).
  destruct (negated_fields binary32 m sane32) as (G1 & G2 & G3). rewrite F1, G1 in E1. rewrite F2, G2 in E2. rewrite F3, G3 in E3.
  destruct (fadd_gives s sd sn n (s32 (vfp_single_packed_negate m)) old fpscr Hsn Hsd Hfz Hn) as (e & w & E & Hw); [by unfold finite; rewrite E1|].
  unfold mbind, M_bind. rewrite E. rewrite (Z.lor_0_r e). eexists _, w. split; [done|]. assert (En : number binary32 (s32 (vfp_single_packed_negate m)) = - number binary32 m) by (unfold number; rewrite E2, E3; destruct (field_sign binary32 m); cbn; lia).
  rewrite En, E2 in Hw. exact Hw.
Qed.
Lemma fdiv_gives : value_of binary32 m <> 0 -> gives_single (vfp_single_fdiv sd sn m fpscr) s sd fpscr (xorb (field_sign binary32 n) (field_sign binary32 m)) (quotient_of binary32 (value_of binary32 n) (value_of binary32 m)).
Proof using Hsn Hsd Hfz Hn Hm.
  intros Hm0. destruct (s32_fields n) as (E1 & _ & E2 & E3). unfold finite in Hn. rewrite <- E1 in Hn. rewrite <- E2, <- E3. clear E1 E2 E3. set (n' := s32 n) in *.
  unfold gives_single, vfp_single_fdiv. unfold mbind at 1, M_bind at 1. rewrite (get_single _ _ _ Hsn). fold n'. clearbody n'. rewrite !vfp_single_unpack_spec, !not_flushed by done. cbv zeta. rewrite !vfp_single_type_spec, !unpacked_sign, xor_sign.
  destruct (finite_type binary32 m sane32 Hm) as [(Hz & _)|(Hmp & Pm & Tm)]; [done|].
  destruct (finite_type binary32 n' sane32 Hn) as [(Hz & _ & _ & Tn)|(Hnp & Pn & Tn)].
  - rewrite Hz. destruct Tm as [Tm|Tm]; rewrite Tn, Tm; (eexists _, _; split; [exact (put_return s sd old (vfp_single_pack (mk_number 0 (sign_of (xorb (field_sign binary32 n') (field_sign binary32 m))) 0)) _ Hsd)|]); rewrite (pack_zero_single fpscr); (apply single_computes; [done..|]); by apply zero_quotient; [apply sane32|].
  - destruct (single_proper n' (truth (Z.land (type_of binary32 n') VFP_DENORMAL)) Pn ltac:(by rewrite vfp_single_type_spec)) as (vn & En & Rn & Sn).
    destruct (single_proper m (truth (Z.land (type_of binary32 m) VFP_DENORMAL)) Pm ltac:(by rewrite vfp_single_type_spec)) as (vm & Em & Rm & Sm).
    rewrite En, Em. destruct (single_quotient_spec vn vm _ _ (sign_of (xorb (field_sign binary32 n') (field_sign binary32 m))) Rn Rm) as (vs & E & Hs & Hc). rewrite E.
    destruct Tm as [-> | ->], Tn as [-> | ->]; (eexists _, _; split; [exact (single_write _ _ _ _ _ _ Hsd)|by apply single_computes]).
Qed.
Lemma fsqrt_gives : field_sign binary32 m = false \/ value_of binary32 m = 0 ->
  gives_single (vfp_single_fsqrt sd sn m fpscr) s sd fpscr (field_sign binary32 m) (root_of binary32 (value_of binary32 m)).
Proof using Hsd Hfz Hm.
  intros Hpos. unfold gives_single, vfp_single_fsqrt. rewrite vfp_single_unpack_spec, not_flushed by done. cbv zeta. rewrite vfp_single_type_spec.
  destruct (finite_type binary32 m sane32 Hm) as [(Hz & F1 & F2 & Tm)|(Hmp & Pm & Tm)].
  - rewrite Hz, Tm. rewrite unpacked_zero by done. eexists _, _. split; [exact (put_return s sd old (vfp_single_pack (mk_number 0 (sign_of (field_sign binary32 m)) 0)) _ Hsd)|].
    rewrite (pack_zero_single fpscr). apply single_computes; [done..|]. by apply zero_root, sane32.
  - destruct Hpos as [Hpos|]; [|lia]. destruct (single_proper m (truth (Z.land (type_of binary32 m) VFP_DENORMAL)) Pm ltac:(by rewrite vfp_single_type_spec)) as (vm & Em & Rm & Sm).
    rewrite Em. rewrite unpacked_sign, Hpos in Sm. rewrite Sm. destruct (single_root_spec vm _ s Rm) as (vs & E & Hs & Hc).
    assert (truth (Z.land (type_of binary32 m) (Z.lor VFP_NAN VFP_INFINITY)) = false /\ truth (Z.land (type_of binary32 m) VFP_ZERO) = false) as [-> ->] by (by destruct Tm as [-> | ->]).
    change (truth (sign_of false)) with false. cbv iota. unfold mbind, M_bind. rewrite E, (single_write _ _ _ _ _ _ Hsd). eexists _, _. split; [done|]. rewrite Hpos. by apply single_computes.
Qed.
End SingleMore.
Lemma negated_represents f (n : vfp_number) x : represents f n x -> represents f (negate_if true n) x.
Proof. intros [[H1 H2 H3 H4]|H]; [left; by split|by right]. Qed.
Section Double.
Context (s : ARMul_State) (dd dn dm n m old fpscr : Z).
Hypothesis (Hdn : double_at s dn n) (Hdm : double_at s dm m) (Hdd : double_at s dd old) (Hfz : Z.testbit fpscr 24 = false) (Hn : finite binary64 n) (Hm : finite binary64 m).
Lemma double_binary_gives f negative x :
  (forall vn vm, represents binary64 vn (value_of binary64 n) -> represents binary64 vm (value_of binary64 m) -> sign vn = sign_of (field_sign binary64 n) -> sign vm = sign_of (field_sign binary64 m) ->
    exists vd, f vn vm fpscr s = Ret ((vd, 0), s) /\ sign vd = sign_of negative /\ computes binary64 vd x) ->
  gives_double (double_binary f dd dn dm fpscr) s dd fpscr negative x.
Proof using Hdn Hdm Hdd Hfz Hn Hm.
  intros Hf. destruct (double_operand_at n fpscr Hfz Hn) as (vn & En & Rn & Sn). destruct (double_operand_at m fpscr Hfz Hm) as (vm & Em & Rm & Sm).
  destruct (Hf vn vm Rn Rm Sn Sm) as (vd & E & Hs & Hc). eapply double_gives; [done..|]. unfold double_binary, mbind, M_bind. by rewrite (get_double _ _ _ Hdn), En, (get_double _ _ _ Hdm), Em, E.
Qed.
Lemma double_fmul_gives : gives_double (vfp_double_fmul dd dn dm fpscr) s dd fpscr (xorb (field_sign binary64 n) (field_sign binary64 m)) (product_of binary64 (value_of binary64 n) (value_of binary64 m)).
Proof using Hdn Hdm Hdd Hfz Hn Hm. apply double_binary_gives. intros. by apply double_multiply_spec. Qed.
Lemma double_fnmul_gives : gives_double (vfp_double_fnmul dd dn dm fpscr) s dd fpscr (negb (xorb (field_sign binary64 n) (field_sign binary64 m))) (product_of binary64 (value_of binary64 n) (value_of binary64 m)).
Proof using Hdn Hdm Hdd Hfz Hn Hm.
  apply double_binary_gives. intros vn vm Rn Rm Sn Sm. destruct (double_multiply_spec vn vm _ _ _ _ fpscr s Rn Rm Sn Sm) as (vd & E & Hs & Hc).
  exists (negate_if true vd). unfold mbind, M_bind. rewrite E. split; [done|]. split; [|exact Hc]. cbn. by rewrite Hs, negate_sign.
Qed.
Lemma double_fadd_gives : gives_double (vfp_double_fadd dd dn dm fpscr) s dd fpscr
  (sum_negative fpscr (field_sign binary64 n) (field_sign binary64 m) (number binary64 n + number binary64 m)) (sum_of (number binary64 n) (number binary64 m)).
Proof using Hdn Hdm Hdd Hfz Hn Hm. apply double_binary_gives. intros. by apply double_add_spec. Qed.
Lemma double_fsub_gives : gives_double (vfp_double_fsub dd dn dm fpscr) s dd fpscr
  (sum_negative fpscr (field_sign binary64 n) (negb (field_sign binary64 m)) (number binary64 n - number binary64 m)) (sum_of (number binary64 n) (- number binary64 m)).
Proof using Hdn Hdm Hdd Hfz Hn Hm.
  apply double_binary_gives. intros vn vm Rn Rm Sn Sm.
  assert (En : number binary64 m = - signed (negb (field_sign binary64 m)) (value_of binary64 m)) by (unfold number; destruct (field_sign binary64 m); cbn; lia).
  rewrite En, Z.opp_involutive, Z.sub_opp_r. apply double_add_spec; [done|by apply negated_represents|done|]. cbn. by rewrite Sm, negate_sign.
Qed.
Lemma double_fdiv_gives : value_of binary64 m <> 0 -> gives_double (vfp_double_fdiv dd dn dm fpscr) s dd fpscr (xorb (field_sign binary64 n) (field_sign binary64 m)) (quotient_of binary64 (value_of binary64 n) (value_of binary64 m)).
Proof using Hdn Hdm Hdd Hfz Hn Hm.
  unfold gives_double, vfp_double_fdiv. unfold mbind at 1, M_bind at 1. rewrite (get_double _ _ _ Hdn). rewrite (vfp_double_unpack_spec (s64 n)), not_flushed by done. unfold mbind at 1, M_bind at 1. rewrite (get_double _ _ _ Hdm). rewrite (vfp_double_unpack_spec (s64 m)), not_flushed by done.
  destruct (s64_fields n) as (E1 & _ & <- & <-). unfold finite in Hn. rewrite <- E1 in Hn. clear E1. set (n' := s64 n) in *. clearbody n'.
  destruct (s64_fields m) as (E1 & _ & <- & <-). unfold finite in Hm. rewrite <- E1 in Hm. clear E1. set (m' := s64 m) in *. clearbody m'. intros Hm0.
  cbv zeta. rewrite !vfp_double_type_spec, !unpacked_sign, xor_sign. destruct (finite_type binary64 m' sane64 Hm) as [(Hz & _)|(Hmp & Pm & Tm)]; [done|].
  destruct (finite_type binary64 n' sane64 Hn) as [(Hz & _ & _ & Tn)|(Hnp & Pn & Tn)].
  - rewrite Hz. destruct Tm as [Tm|Tm]; rewrite Tn, Tm; (eexists _, _; split; [exact (put_double_return s dd old (u64 (vfp_double_pack (mk_number 0 (sign_of (xorb (field_sign binary64 n') (field_sign binary64 m'))) 0))) _ Hdd ltac:(unfold is_u64, u64; apply Z.mod_pos_bound; lia))|]); rewrite (pack_zero_double fpscr); (apply double_computes; [done..|]); by apply zero_quotient; [apply sane64|].
  - destruct (double_proper n' (truth (Z.land (type_of binary64 n') VFP_DENORMAL)) Pn ltac:(by rewrite vfp_double_type_spec)) as (vn & En & Rn & Sn).
    destruct (double_proper m' (truth (Z.land (type_of binary64 m') VFP_DENORMAL)) Pm ltac:(by rewrite vfp_double_type_spec)) as (vm & Em & Rm & Sm).
    rewrite En, Em. destruct (double_quotient_spec vn vm _ _ (sign_of (xorb (field_sign binary64 n') (field_sign binary64 m'))) s Rn Rm) as (vd & E & Hs & Hc).
    assert (Hk : forall k : vfp_double -> M Z, (vd ← double_quotient (sign_of (xorb (field_sign binary64 n') (field_sign binary64 m'))) vn vm; k vd) s = k vd s) by (intros k; unfold mbind, M_bind; by rewrite E).
    destruct Tm as [-> | ->], Tn as [-> | ->]; (eexists _, _; split; [exact (eq_trans (Hk _) (double_write _ _ _ _ _ _ Hdd))|by apply double_computes]).
Qed.
End Double.

(** ** Correct rounding *)

(** C5: additions and subtractions of finite numbers, in both precisions and while denormals
    are not flushed, write the exact sum, rounded to the nearest number of the format (to the
    even one of two) or in the direction that the status word says; beyond the largest number
    the result is infinity or that number. A sum that is zero has the sign that IEEE 754 gives it. The exceptions say
    whether the result overflows and whether it is exact. *)
Theorem sums_correctly_rounded (s : ARMul_State) (fpscr : Z) : Z.testbit fpscr 24 = false ->
  (forall sd sn n m old, single_at s sn n -> single_at s sd old -> finite binary32 n -> finite binary32 m ->
    let a := field_sign binary32 n in let b := field_sign binary32 m in let x := number binary32 n in let y := number binary32 m in
    gives_single (vfp_single_fadd sd sn m fpscr) s sd fpscr (sum_negative fpscr a b (x + y)) (sum_of x y) /\
    gives_single (vfp_single_fsub sd sn m fpscr) s sd fpscr (sum_negative fpscr a (negb b) (x - y)) (sum_of x (- y))) /\
  (forall dd dn dm n m old, double_at s dn n -> double_at s dm m -> double_at s dd old -> finite binary64 n -> finite binary64 m ->
    let a := field_sign binary64 n in let b := field_sign binary64 m in let x := number binary64 n in let y := number binary64 m in
    gives_double (vfp_double_fadd dd dn dm fpscr) s dd fpscr (sum_negative fpscr a b (x + y)) (sum_of x y) /\
    gives_double (vfp_double_fsub dd dn dm fpscr) s dd fpscr (sum_negative fpscr a (negb b) (x - y)) (sum_of x (- y))).
Proof.
  intros Hfz. split.
  - intros sd sn n m old Hsn Hsd Hn Hm. split; [by eapply fadd_gives|by eapply fsub_gives].
  - intros dd dn dm n m old Hdn Hdm Hdd Hn Hm. split; [by eapply double_fadd_gives|by eapply double_fsub_gives].
Qed.

(** ** On a processor *)

(** 1, 3 and -0.1 in the registers S0 to S2, and as doubles in D2 to D4 *)
Definition demo_vfp : ARMul_State :=
  put_double 4 0xBFB999999999999A (put_double 3 0x4008000000000000 (put_double 2 0x3FF0000000000000
    (put_single 2 0xBDCCCCCD (put_single 1 0x40400000 (put_single 0 0x3F800000 (new_ARMul_State 0 USER32MODE)))))).
Ltac demo_register := lazymatch goal with
  | |- single_at _ _ _ => vm_compute; reflexivity
  | |- double_at _ _ ?n => exists (n / 2 ^ 32), (n mod 2 ^ 32); split_and!; vm_compute; (reflexivity || (split; congruence))
  | |- finite _ _ => vm_compute; congruence
  | |- _ => vm_compute; (reflexivity || congruence)
  end.
Lemma sums_correctly_rounded_witness : Z.testbit 0 24 = false /\
  gives_single (vfp_single_fadd 12 1 0xBDCCCCCD 0) demo_vfp 12 0 false (sum_of (number binary32 0x40400000) (number binary32 0xBDCCCCCD)) /\
  gives_double (vfp_double_fsub 7 3 4 0) demo_vfp 7 0 false (sum_of (number binary64 0x4008000000000000) (- number binary64 0xBFB999999999999A)).
Proof.
  split; [reflexivity|]. destruct (sums_correctly_rounded demo_vfp 0 eq_refl) as [H1 H2]. split.
  - refine (proj1 (H1 12 1 0x40400000 0xBDCCCCCD 0 _ _ _ _)); demo_register.
  - refine (proj2 (H2 7 3 4 0x4008000000000000 0xBFB999999999999A 0 _ _ _ _ _)); demo_register.
Defined.

(** The register after an instruction *)
Definition single_after_on (s : ARMul_State) (run : M Z) (r : nat) : option Z := match run s with Ret (_, s) => ExtReg s !! r | Crash _ => None end.
Example third : single_after_on demo_vfp (vfp_single_fdiv 12 0 0x40400000 FPSCR_ROUND_NEAREST) 12 = Some 0x3EAAAAAB /\ single_after_on demo_vfp (vfp_single_fdiv 12 0 0x40400000 FPSCR_ROUND_TOZERO) 12 = Some 0x3EAAAAAA.
Proof. split; vm_compute; reflexivity. Qed.

(** ** Where the code departs from IEEE 754 *)

(** The square root of a double is not always rounded correctly: its estimate can be up to
    eight units too large, and only estimates whose last bits are at most 5 are checked. The
    exact root of this number is below the midpoint, the result above it. *)
Example double_root_misrounded :
  let m := 0x40009616F1FFF4EF in let w := 0x3FF709CB1827EC79 in let s := put_double 6 m demo_vfp in
  (single_after_on s (vfp_double_fsqrt 7 0 6 FPSCR_ROUND_NEAREST) 15, single_after_on s (vfp_double_fsqrt 7 0 6 FPSCR_ROUND_NEAREST) 14) = (Some (w / 2 ^ 32), Some (w mod 2 ^ 32)) /\
  root_of binary64 (value_of binary64 m) (magnitude_value binary64 (w - 1) + magnitude_value binary64 w) = Lt.
Proof. split; vm_compute; reflexivity. Qed.
(** [0 + 2^63 * 2^63] is a NaN: the exponent of a product that is not normalised yet is taken
    for that of a NaN by the addition. The product alone is right. *)
Example accumulated_product_nan : let s := put_single 10 0x5F000000 demo_vfp in
  single_after_on s (vfp_single_fmac 12 10 0x5F000000 0) 12 = Some 0x7FE00000 /\ single_after_on s (vfp_single_fmul 12 10 0x5F000000 0) 12 = Some 0x7E800000.
Proof. split; vm_compute; reflexivity. Qed.
(** One half is rounded to the nearest integer as 1, not to the even one of the two. *)
Example half_to_one : single_after_on demo_vfp (vfp_single_ftosi 12 0 0x3F000000 FPSCR_ROUND_NEAREST) 12 = Some 1.
Proof. vm_compute. reflexivity. Qed.
(** A negative result that is flushed becomes the positive zero. *)
Example flushed_sign_lost : let s := put_single 10 0x80800000 demo_vfp in single_after_on s (vfp_single_fmul 12 10 0x3F000000 FPSCR_FLUSH_TO_ZERO) 12 = Some 0.
Proof. vm_compute. reflexivity. Qed.
(** A signalling NaN stays one when it is converted to a double. *)
Example signalling_nan_kept : (single_after_on demo_vfp (vfp_single_fcvtd 6 0 0x7F800001 0) 13, single_after_on demo_vfp (vfp_single_fcvtd 6 0 0x7F800001 0) 12) = (Some 0x7FF00000, Some 0x20000000).
Proof. vm_compute. reflexivity. Qed.
