(* ===== verification/ArmLoop.v ===== *)
(** The interpreter (src/.../core/arm/dyncom/arm_dyncom_interpreter.cpp and
    arm_dyncom.cpp): translation of instructions and blocks, the table of handlers, the main
    loop, and the interface of the processor to the emulator. *)

From S2P Require Import Prelude MemoryMap Memory MemoryAccess ArmSupp ArmState ArmOperands ArmDecode ArmThumb ArmTrans ArmData ArmMedia ArmSystem ArmMachine VfpHelper VfpInstr.


Section Loop.
Context {D W : Type} `{Host} `{Devices D} `{Kernel D W} `{Translator}.
Abbreviation M := (Prelude.M (Machine D W)).

(** ** Translation *)

Definition translate (index inst : Z) : Prelude.M TransCache Z :=
  f ← deref (arm_instruction_trans !! Z.to_nat index);
  f inst index.
(** The status, the instruction it becomes, its size, and the pointer to the translation
    of a branch *)
Definition DecodeThumbInstruction (inst addr : Z) : Prelude.M TransCache (ThumbDecodeStatus * Z * Z * option Z) :=
  let '(ret, arm_inst, inst_size) := TranslateThumbInstruction addr inst in
  match ret with
  | BRANCH =>
      let table_length := arm_instruction_trans_len in
      let tinstr := GetThumbInstruction inst addr in
      let branch (n : Z) := ptr ← translate (table_length - n) tinstr; mret (ret, arm_inst, inst_size, Some ptr) in
      let format := Z.shiftr (Z.land tinstr 0xF800) 11 in
      if (format =? 26) || (format =? 27) then
        if negb (Z.land tinstr 0x0F00 =? 0x0E00) && negb (Z.land tinstr 0x0F00 =? 0x0F00) then branch 4
        else mret (ret, arm_inst, inst_size, None)
      else if format =? 28 then branch 5
      else if (format =? 8) || (format =? 29) then branch 1
      else if format =? 30 then branch 3
      else if format =? 31 then branch 2
      else mret (UNDEFINED, arm_inst, inst_size, None)
  | _ => mret (ret, arm_inst, inst_size, None)
  end.
(** The size of the instruction and [inst_base]. An instruction that does not decode is
    looked up under an index that was never assigned. *)
Definition InterpreterTranslateInstruction (phys_addr : Z) : M (Z * option Z) :=
  inst ← on_memory (Read32 (Z.land phys_addr 0xFFFFFFFC));
  s ← gets cpu;
  '(inst, inst_size, branch) ← (
    if truth (TFlag s) then
      '(state, arm_inst, inst_size, ptr) ← on_cache (DecodeThumbInstruction inst phys_addr);
      if bool_decide (state = BRANCH) then mret (arm_inst, inst_size, Some ptr) else mret (arm_inst, inst_size, None)
    else mret (inst, 4, None));
  match branch with
  | Some ptr => mret (inst_size, ptr)
  | None =>
      idx ← deref (DecodeARMInstruction inst);
      inst_base ← on_cache (translate idx inst);
      mret (inst_size, Some inst_base)
  end.

(** [*inst_base] and [inst_base->br = b] *)
Definition inst_at (ptr : Z) : M arm_inst := m ← get; deref (trans_cache_buf (trans_cache m) !! ptr).
Definition set_br (ptr : Z) (b : TransExtData) : M unit :=
  i ← inst_at ptr;
  modify (fun m => m <| trans_cache ::= fun t => t <| trans_cache_buf ::= <[ptr := i <| br := b |>]> |> |>).
Definition cache_block (pc_start bb_start : Z) : M unit :=
  on_cpu (modify (fun s => s <| instruction_cache ::= <[pc_start := bb_start]> |>)).

(** The loop of [InterpreterTranslateBlock]; a page has room for 2048 instructions. *)
Fixpoint translate_loop (fuel : nat) (phys_addr : Z) : M unit :=
  match fuel with
  | O => crash OutOfFuel
  | S fuel =>
      '(inst_size, ptr) ← InterpreterTranslateInstruction phys_addr;
      inst_base ← deref ptr;
      let phys_addr := u32 (phys_addr + inst_size) in
      (if Z.land phys_addr 0xfff =? 0 then set_br inst_base END_OF_PAGE else mret tt) ;;
      i ← inst_at inst_base;
      if bool_decide (br i = NON_BRANCH) then translate_loop fuel phys_addr else mret tt
  end.
(** [bb_start] *)
Definition InterpreterTranslateBlock (addr : Z) : M Z :=
  m ← get;
  let bb_start := trans_cache_buf_top (trans_cache m) in
  pc_start ← reg 15;
  translate_loop 2049 addr ;;
  cache_block pc_start bb_start ;;
  mret bb_start.
Definition InterpreterTranslateSingle (addr : Z) : M Z :=
  m ← get;
  let bb_start := trans_cache_buf_top (trans_cache m) in
  pc_start ← reg 15;
  '(_, ptr) ← InterpreterTranslateInstruction addr;
  inst_base ← deref ptr;
  i ← inst_at inst_base;
  (if bool_decide (br i = NON_BRANCH) then set_br inst_base SINGLE_STEP else mret tt) ;;
  cache_block pc_start bb_start ;;
  mret bb_start.

(** ** The table of handlers *)

Definition InstLabel : list (arm_inst -> M next) :=
  [
    on_cpu ∘ VMLA_INST; on_cpu ∘ VMLS_INST; on_cpu ∘ VNMLA_INST; on_cpu ∘ VNMLS_INST; on_cpu ∘ VNMUL_INST; on_cpu ∘ VMUL_INST; on_cpu ∘ VADD_INST;
    on_cpu ∘ VSUB_INST; on_cpu ∘ VDIV_INST; on_cpu ∘ VMOVI_INST; on_cpu ∘ VMOVR_INST; on_cpu ∘ VABS_INST; on_cpu ∘ VNEG_INST; on_cpu ∘ VSQRT_INST;
    on_cpu ∘ VCMP_INST; on_cpu ∘ VCMP2_INST; on_cpu ∘ VCVTBDS_INST; on_cpu ∘ VCVTBFF_INST; on_cpu ∘ VCVTBFI_INST; on_cpu ∘ VMOVBRS_INST; on_cpu ∘
    VMSR_INST; on_cpu ∘ VMOVBRC_INST; on_cpu ∘ VMRS_INST; on_cpu ∘ VMOVBCR_INST; on_cpu ∘ VMOVBRRSS_INST; on_cpu ∘ VMOVBRRD_INST; VSTR_INST;
    VPUSH_INST; VSTM_INST; VPOP_INST; VLDR_INST; VLDM_INST;
    SRS_INST; RFE_INST; on_cpu ∘ BKPT_INST; on_cpu ∘ BLX_INST; on_cpu ∘ CPS_INST; on_cpu ∘ PLD_INST; on_cpu ∘ SETEND_INST; on_cpu ∘ CLREX_INST;
    on_cpu ∘ REV_INST; on_cpu ∘ USADA8_INST; on_cpu ∘ SXTB_INST; on_cpu ∘ UXTB_INST; on_cpu ∘ SXTH_INST; on_cpu ∘ SXTAB16_INST; on_cpu ∘ UXTH_INST;
    on_cpu ∘ UXTAB16_INST; on_cpu ∘ CPY_INST; on_cpu ∘ UXTAB_INST; on_cpu ∘ SADD8_INST; on_cpu ∘ SHADD8_INST; on_cpu ∘ SADD8_INST; STREX_INST;
    STREXB_INST; SWP_INST; SWPB_INST; on_cpu ∘ SADD8_INST; on_cpu ∘ SSAT16_INST; on_cpu ∘ SHADD8_INST; on_cpu ∘ QADD8_INST; on_cpu ∘ SHADD8_INST;
    on_cpu ∘ SHADD8_INST; on_cpu ∘ SHADD8_INST; on_cpu ∘ SEL_INST; on_cpu ∘ SADD8_INST; on_cpu ∘ SADD8_INST; on_cpu ∘ SADD8_INST;
    on_cpu ∘ SHADD8_INST; on_cpu ∘ UMAAL_INST; on_cpu ∘ UXTAB16_INST; on_cpu ∘ UADD8_INST; on_cpu ∘ UADD8_INST; on_cpu ∘ UADD8_INST;
    on_cpu ∘ USAT16_INST; on_cpu ∘ USADA8_INST; on_cpu ∘ UQADD8_INST; on_cpu ∘ UQADD8_INST; on_cpu ∘ UQADD8_INST; on_cpu ∘ UQADD8_INST;
    on_cpu ∘ UQADD8_INST; on_cpu ∘ UQADD8_INST; on_cpu ∘ SXTAB_INST; on_cpu ∘ UHADD8_INST; on_cpu ∘ UHADD8_INST; on_cpu ∘ UHADD8_INST;
    on_cpu ∘ UHADD8_INST; on_cpu ∘ UHADD8_INST; on_cpu ∘ UHADD8_INST; on_cpu ∘ UADD8_INST; on_cpu ∘ UADD8_INST; on_cpu ∘ UADD8_INST;
    on_cpu ∘ SXTAH_INST; on_cpu ∘ SXTAB16_INST; on_cpu ∘ QADD8_INST; on_cpu ∘ BX_INST; on_cpu ∘ CLZ_INST; on_cpu ∘ UXTAH_INST; on_cpu ∘ BX_INST;
    on_cpu ∘ REV_INST; on_cpu ∘ BLX_INST; on_cpu ∘ REV_INST; on_cpu ∘ QADD_INST; on_cpu ∘ QADD8_INST; on_cpu ∘ QADD8_INST; LDREX_INST;
    on_cpu ∘ QADD_INST; on_cpu ∘ QADD_INST; on_cpu ∘ QADD_INST; LDREXB_INST; on_cpu ∘ QADD8_INST; on_cpu ∘ QADD8_INST; on_cpu ∘ SMLAD_INST;
    on_cpu ∘ SMMLA_INST; on_cpu ∘ SMLAD_INST; on_cpu ∘ SMLAD_INST; on_cpu ∘ SMLALD_INST; on_cpu ∘ SMMLA_INST; on_cpu ∘ SMMLA_INST;
    on_cpu ∘ SMLALD_INST; on_cpu ∘ SMLAD_INST; on_cpu ∘ SMLAW_INST; on_cpu ∘ SMULW_INST; on_cpu ∘ PKHTB_INST; on_cpu ∘ PKHBT_INST; on_cpu ∘ SMUL_INST;
    on_cpu ∘ SMLALXY_INST; on_cpu ∘ SMLA_INST; on_cpu ∘ MCRR_INST; on_cpu ∘ MCRR_INST; on_cpu ∘ CMP_INST; on_cpu ∘ TST_INST; on_cpu ∘ TEQ_INST;
    on_cpu ∘ CMN_INST; on_cpu ∘ SMULL_INST; on_cpu ∘ UMULL_INST; on_cpu ∘ UMLAL_INST; on_cpu ∘ SMLAL_INST; on_cpu ∘ MUL_INST; on_cpu ∘ MLA_INST;
    on_cpu ∘ SSAT_INST; on_cpu ∘ USAT_INST; on_cpu ∘ MRS_INST; on_cpu ∘ MSR_INST; on_cpu ∘ AND_INST; on_cpu ∘ BIC_INST; LDM_INST; on_cpu ∘ EOR_INST;
    on_cpu ∘ ADD_INST; on_cpu ∘ RSB_INST; on_cpu ∘ RSC_INST; on_cpu ∘ SBC_INST; on_cpu ∘ ADC_INST; on_cpu ∘ SUB_INST; on_cpu ∘ ORR_INST;
    on_cpu ∘ MVN_INST; on_cpu ∘ MOV_INST; STM_INST; LDM_INST; LDRSH_INST; STM_INST; LDM_INST; LDRSB_INST; STRD_INST; LDRH_INST; STRH_INST; LDRD_INST;
    STRT_INST; STRBT_INST; LDRBT_INST; LDRT_INST; on_cpu ∘ MRC_INST; on_cpu ∘ MCR_INST; on_cpu ∘ MSR_INST; on_cpu ∘ MSR_INST; on_cpu ∘ MSR_INST;
    on_cpu ∘ MSR_INST; on_cpu ∘ MSR_INST; LDRB_INST; STRB_INST; LDR_INST; LDRCOND_INST; STR_INST; on_cpu ∘ CDP_INST; on_cpu ∘ STC_INST;
    on_cpu ∘ LDC_INST; LDREXD_INST; STREXD_INST; LDREXH_INST; STREXH_INST; on_cpu ∘ NOP_INST; on_cpu ∘ SEV_INST; on_cpu ∘ SEV_INST; on_cpu ∘ SEV_INST;
    on_cpu ∘ SEV_INST; SWI_INST; on_cpu ∘ BBL_INST; on_cpu ∘ B_2_THUMB; on_cpu ∘ B_COND_THUMB; on_cpu ∘ BL_1_THUMB; on_cpu ∘ BL_2_THUMB;
    on_cpu ∘ BLX_1_THUMB].

(** ** The main loop *)

(** [DISPATCH], and [GOTO_NEXT_INST] with [inst_base] at [ptr] *)
Inductive label := L_DISPATCH | L_INST (ptr : Z).

(** [END] *)
Definition finish : M Z :=
  on_cpu (modify (fun s => SAVE_NZCVT s <| NumInstrsToExecute := 0 |>)) ;;
  gets num_instrs.
(** [cpu->Cpsr &= ~(1 << 5); cpu->Cpsr |= cpu->TFlag << 5] *)
Definition show_TFlag (s : ARMul_State) : ARMul_State := s <| Cpsr := Z.lor (Z.land (Cpsr s) (not32 (Z.shiftl 1 5))) (u32 (Z.shiftl (TFlag s) 5)) |>.
(** [DISPATCH]: the offset of the block, or [None] to end *)
Definition dispatch : M (option Z) :=
  s ← gets cpu;
  if (NirqSig s =? 0) && (Z.land (Cpsr s) 0x80 =? 0) then mret None
  else
    pc ← reg 15;
    set_reg 15 (Z.land pc (if truth (TFlag s) then 0xfffffffe else 0xfffffffc)) ;;
    pc ← reg 15;
    match instruction_cache s !! pc with
    | Some ptr => mret (Some ptr)
    | None =>
        ptr ← (if negb (NumInstrsToExecute s =? 1) then InterpreterTranslateBlock pc else InterpreterTranslateSingle pc);
        mret (Some ptr)
    end.
(** The handler of the instruction at [ptr], and where it goes; [None] is [return]. *)
Definition execute (ptr : Z) : M (option label) :=
  i ← inst_at ptr;
  h ← deref (InstLabel !! Z.to_nat (idx i));
  n ← h i;
  match n with
  | GOTO_DISPATCH => mret (Some L_DISPATCH)
  | RETURN => mret None
  | FETCH_NEXT l =>
      i ← inst_at ptr;
      mret (Some (if bool_decide (br i = NON_BRANCH) then L_INST (ptr + sizeof_arm_inst + l) else L_DISPATCH))
  end.
(** From one label to the next, or to the end with the number of instructions *)
Definition loop_step (l : label) : M (label + Z) :=
  match l with
  | L_DISPATCH =>
      ptr ← dispatch;
      match ptr with
      | Some ptr => mret (inl (L_INST ptr))
      | None => n ← finish; mret (inr n)
      end
  | L_INST ptr =>
      on_cpu (modify show_TFlag) ;;
      m ← get;
      if NumInstrsToExecute (cpu m) <=? num_instrs m then n ← finish; mret (inr n)
      else
        modify (fun m => m <| num_instrs ::= fun n => u32 (n + 1) |>) ;;
        l ← execute ptr;
        match l with
        | Some l => mret (inl l)
        | None => n ← gets num_instrs; mret (inr n)
        end
  end.
Fixpoint main_loop (fuel : nat) (l : label) : M Z :=
  match fuel with
  | O => crash OutOfFuel
  | S fuel => r ← loop_step l; match r with inl l => main_loop fuel l | inr n => mret n end
  end.
Definition InterpreterMainLoop (fuel : nat) : M Z :=
  modify (fun m => m <| num_instrs := 0 |>) ;;
  on_cpu (modify LOAD_NZCVT) ;;
  main_loop fuel L_DISPATCH.

(** ** ARM_DynCom *)

Definition ExecuteInstructions (fuel : nat) (num_instructions : Z) : M unit :=
  on_cpu (modify (fun s => s <| NumInstrsToExecute := num_instructions |>)) ;;
  ticks_executed ← InterpreterMainLoop fuel;
  modify (fun m => m <| world ::= AddTicks ticks_executed |>).
Definition Run (fuel : nat) : M unit := m ← get; ExecuteInstructions fuel (Z.max (GetDowncount (world m)) 0).
Definition Step (fuel : nat) : M unit := ExecuteInstructions fuel 1.
Definition ClearInstructionCache : M unit :=
  on_cpu (modify (fun s => s <| instruction_cache := ∅ |>)) ;;
  on_cache (modify (fun t => t <| trans_cache_buf_top := 0 |>)).
Definition InvalidateCacheRange (start length : Z) : M unit := ClearInstructionCache.
Definition SetPageTable (page_table : Z) : M unit := ClearInstructionCache.
Definition SetPC (pc : Z) : M unit := set_reg 15 pc.
Definition GetPC : M Z := reg 15.
Definition GetReg (index : Z) : M Z := reg index.
Definition SetReg (index value : Z) : M unit := set_reg index value.
Definition GetVFPReg (index : nat) (m : Machine D W) : Z := at_ (ExtReg (cpu m)) index.
Definition SetVFPReg (index : nat) (value : Z) : M unit := on_cpu (modify (fun s => s <| ExtReg ::= <[index := value]> |>)).
Definition GetVFPSystemReg (reg : nat) (m : Machine D W) : Z := at_ (VFP (cpu m)) reg.
Definition SetVFPSystemReg (reg : nat) (value : Z) : M unit := on_cpu (modify (fun s => s <| VFP ::= <[reg := value]> |>)).
Definition GetCPSR (m : Machine D W) : Z := Cpsr (cpu m).
Definition SetCPSR (cpsr : Z) : M unit := on_cpu (modify (fun s => s <| Cpsr := cpsr |>)).
Definition GetCP15Register (reg : nat) (m : Machine D W) : Z := at_ (CP15 (cpu m)) reg.
Definition SetCP15Register (reg : nat) (value : Z) : M unit := on_cpu (modify (set_cp15 reg value)).
Definition PrepareReschedule : M unit := on_cpu (modify (fun s => s <| NumInstrsToExecute := 0 |>)).

(** The registers of a thread that does not run *)
Record DynComThreadContext := mkDynComThreadContext {
  cpu_registers : list Z; cpsr : Z; fpu_registers : list Z; fpscr : Z; fpexc : Z }.
Definition ResetContext : DynComThreadContext := mkDynComThreadContext (replicate 16 0) 0 (replicate 64 0) 0 0.
Definition SaveContext (s : ARMul_State) : DynComThreadContext :=
  mkDynComThreadContext (Reg s) (Cpsr s) (ExtReg s) (at_ (VFP s) VFP_FPSCR) (at_ (VFP s) VFP_FPEXC).
Definition LoadContext (ctx : DynComThreadContext) (s : ARMul_State) : ARMul_State :=
  s <| Reg := cpu_registers ctx |> <| Cpsr := cpsr ctx |> <| ExtReg := fpu_registers ctx |>
    <| VFP ::= fun l => <[VFP_FPEXC := fpexc ctx]> (<[VFP_FPSCR := fpscr ctx]> l) |>.
End Loop.
