(* ===== verification/ArmSteady.v ===== *)
(** What every handler of the interpreter keeps: a relation between the states before and
    after that holds of the single updates the handlers are made of holds of each handler,
    and none runs out of fuel. *)

From S2P Require Import Prelude ArmSupp ArmState ArmOperands ArmTrans ArmData ArmMedia ArmSystem VfpHelper VfpInstr.

(** ** Tame computations *)

(** A computation that returns relates the states by [R] and has a result in [P]; one that
    fails does not fail for want of fuel. *)
Section Tame.
Context {S : Type} (R : S -> S -> Prop) `{!PreOrder R}.
Definition tame {A} (P : A -> Prop) (m : Prelude.M S A) : Prop := forall s,
  match m s with Ret (a, s') => R s s' /\ P a | Crash f => f <> OutOfFuel end.

Lemma tame_bind {A B} (P : A -> Prop) (Q : B -> Prop) (m : Prelude.M S A) (k : A -> Prelude.M S B) :
  tame P m -> (forall a, P a -> tame Q (k a)) -> tame Q (m ≫= k).
Proof.
  intros Hm Hk s. unfold mbind, M_bind. specialize (Hm s). destruct (m s) as [[a s1]|f]; [|done].
  destruct Hm as [H1 Ha]. specialize (Hk a Ha s1). destruct (k a s1) as [[b s2]|f]; [|done].
  destruct Hk as [H2 Hb]. split; [by etrans|done].
Qed.
Lemma tame_seq {A B} (Q : B -> Prop) (m : Prelude.M S A) (k : A -> Prelude.M S B) :
  tame (fun _ => True) m -> (forall a, tame Q (k a)) -> tame Q (m ≫= k).
Proof. intros Hm Hk. eapply tame_bind; [exact Hm|]. auto. Qed.
Lemma tame_ret {A} (P : A -> Prop) a : P a -> tame P (mret a).
Proof. intros Ha s. change (R s s /\ P a). done. Qed.
Lemma tame_get : tame (fun _ => True) get.
Proof. intros s. change (R s s /\ True). done. Qed.
Lemma tame_gets {A} (f : S -> A) : tame (fun _ => True) (gets f).
Proof. intros s. change (R s s /\ True). done. Qed.
Lemma tame_deref {A} (o : option A) : tame (fun _ => True) (deref o).
Proof. intros s. destruct o; [|done]. change (R s s /\ True). done. Qed.
Lemma tame_assert b : tame (fun _ => True) (ASSERT b).
Proof. intros s. destruct b; [|done]. change (R s s /\ True). done. Qed.
Lemma tame_crash {A} (P : A -> Prop) f : f <> OutOfFuel -> tame P (crash f).
Proof. intros Hf s. exact Hf. Qed.
Lemma tame_modify f : (forall s, R s (f s)) -> tame (fun _ => True) (modify f).
Proof. intros H s. split; [apply H|done]. Qed.
Lemma tame_case {A} (P : A -> Prop) (b : bool) (m m' : Prelude.M S A) : tame P m -> tame P m' -> tame P (if b then m else m').
Proof. by destruct b. Qed.
Lemma tame_mono {A} (P Q : A -> Prop) (m : Prelude.M S A) : tame P m -> (forall a, P a -> Q a) -> tame Q m.
Proof. intros Hm H s. specialize (Hm s). destruct (m s) as [[a s']|]; [|done]. destruct Hm. auto. Qed.
Lemma tame_wlp {A} (P : A -> Prop) (m : Prelude.M S A) s : tame P m -> wlp m (fun a s' => R s s' /\ P a) s.
Proof. intros Hm. specialize (Hm s). unfold wlp. by destruct (m s) as [[a s']|]. Qed.
Lemma wlp_tame {A} (P : A -> Prop) (m : Prelude.M S A) s : tame P m -> wlp m (fun _ => R s) s.
Proof. intros Hm. eapply wlp_mono; [by apply tame_wlp|]. by intros ?? []. Qed.
End Tame.
Section Run.
Context {S : Type}.
Implicit Types s : S.
Lemma wlp_get (Q : S -> S -> Prop) s : Q s s -> wlp get Q s.
Proof. done. Qed.
Lemma wlp_gets {A} (f : S -> A) (Q : A -> S -> Prop) s : Q (f s) s -> wlp (gets f) Q s.
Proof. done. Qed.
Lemma wlp_modify (f : S -> S) (Q : unit -> S -> Prop) s : Q tt (f s) -> wlp (modify f) Q s.
Proof. done. Qed.
End Run.
(** One instruction of a goal of partial correctness *)
Ltac wlp_step :=
  lazymatch goal with
  | |- wlp get _ _ => apply wlp_get
  | |- wlp (gets _) _ _ => apply wlp_gets
  | |- wlp (modify _) _ _ => apply wlp_modify
  | _ => wp_step
  end; cbn beta iota.

(** One rule; known computations come from the database. *)
Create HintDb tame.
Ltac tame_step :=
  lazymatch goal with
  | |- tame _ _ (mret _) => apply tame_ret; [exact _|]
  | |- tame _ _ get => apply tame_get; exact _
  | |- tame _ _ (gets _) => apply tame_gets; exact _
  | |- tame _ _ (deref _) => apply tame_deref; exact _
  | |- tame _ _ (ASSERT _) => apply tame_assert; exact _
  | |- tame _ _ (crash _) => apply tame_crash; discriminate
  | |- tame _ _ (mbind _ _) => apply tame_seq; [exact _| |intros ?]
  | |- tame _ _ (match ?x with _ => _ end) => destruct x
  | |- tame _ _ (let x := _ in _) => cbv zeta
  | |- _ => solve [eauto 3 with tame]
  end.

(** ** The updates the handlers of the processor are made of *)

Class RegPrims (R : ARMul_State -> ARMul_State -> Prop) : Prop := {
  reg_order :: PreOrder R;
  reg_Reg s i v : R s (s <| Reg ::= <[i := u32 v]> |>);
  reg_ExtReg s i v : R s (s <| ExtReg ::= <[i := u32 v]> |>);
  reg_FPSCR s v : R s (set_vfp VFP_FPSCR v s);
}.
Class CpuPrims (R : ARMul_State -> ARMul_State -> Prop) : Prop := {
  prim_regs :: RegPrims R;
  prim_N s v : is_bit v -> R s (s <| NFlag := v |>);
  prim_Z s v : is_bit v -> R s (s <| ZFlag := v |>);
  prim_C s v : is_bit v -> R s (s <| CFlag := v |>);
  prim_V s v : is_bit v -> R s (s <| VFlag := v |>);
  prim_T s v : is_bit v -> R s (s <| TFlag := v |>);
  prim_carry_out s v : is_bit v -> R s (s <| shifter_carry_out := v |>);
  prim_C_from_shifter s : R s (s <| CFlag := shifter_carry_out s |>);
  prim_shifter_from_C s : R s (s <| shifter_carry_out := CFlag s |>);
  (** E, the GE bits and Q *)
  prim_cpsr_bit s n b : n ∈ [9; 16; 17; 18; 19; 27] ->
    R s (s <| Cpsr := if b : bool then Z.lor (Cpsr s) (Z.shiftl 1 n) else Z.land (Cpsr s) (not32 (Z.shiftl 1 n)) |>);
  prim_save s : R s (SAVE_NZCVT s);
  prim_restore s : R s (if CurrentModeHasSPSR s then LOAD_NZCVT (ChangePrivilegeMode (Z.land (Spsr_copy s) 0x1F) (s <| Cpsr := Spsr_copy s |>)) else s);
  prim_stop s : R s (s <| NumInstrsToExecute := 0 |>);
  prim_unset_exclusive s : R s (UnsetExclusiveMemoryAddress s);
  prim_set_exclusive s address : R s (SetExclusiveMemoryAddress address s);
  prim_write_cp15 s value crn opcode_1 crm opcode_2 : R s (WriteCP15Register value crn opcode_1 crm opcode_2 s);
  (** The instructions that depend on the mode *)
  prim_CPS i : tame R (fun n => n = FETCH_NEXT sizeof_cps_inst) (CPS_INST i);
  prim_MSR i : tame R (fun n => n = FETCH_NEXT sizeof_msr_inst) (MSR_INST i);
  prim_MRC i : tame R (fun n => n = FETCH_NEXT sizeof_mrc_inst) (MRC_INST i);
  prim_VMSR i : tame R (fun n => n = FETCH_NEXT sizeof_vmsr_inst) (VMSR_INST i);
}.

Lemma is_bit_BIT s n : is_bit (BIT s n).
Proof. unfold BIT. change 1 with (Z.ones 1). rewrite Z.land_ones by lia. unfold is_bit. pose proof (Z.mod_pos_bound (Z.shiftr s n) (2 ^ 1) ltac:(lia)). lia. Qed.
Lemma is_bit_land s : is_bit (Z.land s 1).
Proof. replace s with (Z.shiftr s 0) by apply Z.shiftr_0_r. apply is_bit_BIT. Qed.
Lemma is_bit_b2z b : is_bit (Z.b2z b).
Proof. destruct b; [right|left]; done. Qed.
Lemma is_bit_if (b : bool) : is_bit (if b then 1 else 0).
Proof. destruct b; [right|left]; done. Qed.
Lemma is_bit_if' (b : bool) : is_bit (if b then 0 else 1).
Proof. destruct b; [left|right]; done. Qed.
Lemma is_bit_0 : is_bit 0.
Proof. by left. Qed.
Lemma is_bit_1 : is_bit 1.
Proof. by right. Qed.
#[export] Hint Resolve is_bit_BIT is_bit_land is_bit_b2z is_bit_if is_bit_if' is_bit_0 is_bit_1 : tame.

(** Where a handler of an instruction of [l] bytes goes *)
Definition goes_on (l : Z) (n : next) : Prop := match n with FETCH_NEXT l' => l' = l | _ => True end.
Lemma goes_on_next l : goes_on l (FETCH_NEXT l).
Proof. done. Qed.
(** A body that goes elsewhere does not go to the next instruction. *)
Definition goes_off (r : option next) : Prop := match r with Some (FETCH_NEXT _) => False | _ => True end.
#[export] Hint Resolve goes_on_next : tame.
#[export] Hint Extern 1 (goes_off _) => exact Logic.I : tame.
#[export] Hint Extern 1 (goes_on _ _) => exact Logic.I : tame.

(** *** Registers, and how handlers end *)

Section Registers.
Context (R : ARMul_State -> ARMul_State -> Prop) `{!RegPrims R}.
Abbreviation tame_ m := (tame R (fun _ => True) m).
Abbreviation tame_body m := (tame R goes_off m).

Lemma cpu_Reg_tame i : tame_ (cpu_Reg i).
Proof. unfold cpu_Reg. repeat tame_step. Qed.
Lemma set_Reg_tame i v : tame_ (set_Reg i v).
Proof. unfold set_Reg. repeat tame_step. apply tame_modify. intros s. apply reg_Reg. Qed.
Local Hint Resolve cpu_Reg_tame set_Reg_tame : tame.
Lemma add_pc_tame : tame_ add_pc.
Proof. unfold add_pc. repeat tame_step. Qed.
Local Hint Resolve add_pc_tame : tame.
Lemma advance_tame l : tame R (fun n => n = FETCH_NEXT l) (advance l).
Proof. unfold advance. repeat tame_step. Qed.
Lemma advance_goes_on l : tame R (goes_on l) (advance l).
Proof. eapply tame_mono; [apply advance_tame|]. by intros n ->. Qed.
Local Hint Resolve advance_goes_on : tame.
Lemma conditional_tame i l body : tame_body body -> tame R (goes_on l) (conditional i l body).
Proof.
  intros Hb. unfold conditional. apply tame_seq; [exact _|apply tame_get; exact _|]. intros s.
  apply tame_bind with goes_off; [exact _| |].
  - apply tame_case; [done|]. apply tame_ret; [exact _|done].
  - intros [n|] Hn; [|apply advance_goes_on]. apply tame_ret; [exact _|]. by destruct n.
Qed.
Lemma simply_tame m : tame_ m -> tame_body (simply m).
Proof. intros Hm. unfold simply. apply tame_seq; [exact _|done|]. intros ?. apply tame_ret; [exact _|done]. Qed.
(** A body that goes nowhere else *)
Lemma conditional_next i l body : tame R (fun r => r = None) body -> tame R (fun n => n = FETCH_NEXT l) (conditional i l body).
Proof.
  intros Hb. unfold conditional. apply tame_seq; [exact _|apply tame_get; exact _|]. intros s.
  apply tame_bind with (fun r => r = None); [exact _| |intros ? ->; apply advance_tame].
  apply tame_case; [done|]. by apply tame_ret; [exact _|].
Qed.
Lemma simply_none m : tame_ m -> tame R (fun r => r = None) (simply m).
Proof. intros Hm. unfold simply. repeat tame_step. Qed.
End Registers.
#[export] Hint Extern 1 (RegPrims _) => exact _ : tame.
#[export] Hint Resolve cpu_Reg_tame set_Reg_tame add_pc_tame advance_tame advance_goes_on simply_tame simply_none : tame.

Section Cpu.
Context (R : ARMul_State -> ARMul_State -> Prop) `{!CpuPrims R}.
Abbreviation tame_ m := (tame R (fun _ => True) m).
Abbreviation tame_body m := (tame R goes_off m).

Lemma READ_REG15_tame i : tame_ (CHECK_READ_REG15 i) /\ tame_ (CHECK_READ_REG15_WA i) /\ tame_ (rn_val i).
Proof. unfold CHECK_READ_REG15, CHECK_READ_REG15_WA, rn_val. split_and!; repeat tame_step. Qed.
Lemma CHECK_READ_REG15_tame i : tame_ (CHECK_READ_REG15 i).
Proof. apply READ_REG15_tame. Qed.
Lemma CHECK_READ_REG15_WA_tame i : tame_ (CHECK_READ_REG15_WA i).
Proof. apply READ_REG15_tame. Qed.
Lemma rn_val_tame i : tame_ (rn_val i).
Proof. apply READ_REG15_tame. Qed.
Local Hint Resolve CHECK_READ_REG15_tame CHECK_READ_REG15_WA_tame rn_val_tame : tame.

Lemma carry_tame c : is_bit c -> tame_ (set_shifter_carry_out c).
Proof. intros Hc. apply tame_modify. intros s. by apply prim_carry_out. Qed.
Lemma keep_carry_tame : tame_ keep_carry.
Proof. apply tame_modify. intros s. apply prim_shifter_from_C. Qed.
Local Hint Resolve carry_tame keep_carry_tame : tame.
Lemma shtop_call_tame f so : tame_ (shtop_call f so).
Proof.
  destruct f; cbn [shtop_call]; unfold DataProcessingOperandsImmediate, DataProcessingOperandsRegister,
    DataProcessingOperandsLogicalShiftLeftByImmediate, DataProcessingOperandsLogicalShiftLeftByRegister,
    DataProcessingOperandsLogicalShiftRightByImmediate, DataProcessingOperandsLogicalShiftRightByRegister,
    DataProcessingOperandsArithmeticShiftRightByImmediate, DataProcessingOperandsArithmeticShiftRightByRegister,
    DataProcessingOperandsRotateRightByImmediate, DataProcessingOperandsRotateRightByRegister; repeat tame_step.
Qed.
Local Hint Resolve shtop_call_tame : tame.
Lemma SHIFTER_OPERAND_tame f so : tame_ (SHIFTER_OPERAND f so).
Proof. unfold SHIFTER_OPERAND. repeat tame_step. Qed.
Lemma if_passed_tame inst m : tame_ m -> tame_ (if_passed inst m).
Proof. intros Hm. unfold if_passed. repeat tame_step. Qed.
Lemma move_base_tame inst Rn x : tame_ (move_base inst Rn x).
Proof. unfold move_base. repeat tame_step. Qed.
Lemma write_back_tame inst x : tame_ (write_back inst x).
Proof. unfold write_back. apply if_passed_tame. repeat tame_step. Qed.
Local Hint Resolve if_passed_tame move_base_tame write_back_tame : tame.
Lemma get_addr_tame f inst : tame_ (get_addr f inst).
Proof.
  unfold get_addr. apply tame_seq; [exact _|apply tame_deref; exact _|]. intros g.
  destruct g; cbn [get_addr_call]; unfold LnSWoUBImmediateOffset, LnSWoUBRegisterOffset, LnSWoUBScaledRegisterOffset, LnSWoUBImmediatePreIndexed,
    LnSWoUBRegisterPreIndexed, LnSWoUBScaledRegisterPreIndexed, LnSWoUBImmediatePostIndexed, LnSWoUBRegisterPostIndexed, LnSWoUBScaledRegisterPostIndexed,
    MLnSImmediateOffset, MLnSRegisterOffset, MLnSImmediatePreIndexed, MLnSRegisterPreIndexed, MLnSImmediatePostIndexed, MLnSRegisterPostIndexed,
    LdnStMIncrementAfter, LdnStMIncrementBefore, LdnStMDecrementAfter, LdnStMDecrementBefore; repeat tame_step.
Qed.

Local Hint Resolve SHIFTER_OPERAND_tame : tame.
Lemma NZ_tame v : tame_ (UPDATE_NFLAG v) /\ tame_ (UPDATE_ZFLAG v).
Proof. split; apply tame_modify; intros s; [apply prim_N|apply prim_Z]; eauto with tame. Qed.
Lemma N_tame v : tame_ (UPDATE_NFLAG v).
Proof. apply NZ_tame. Qed.
Lemma Z_tame v : tame_ (UPDATE_ZFLAG v).
Proof. apply NZ_tame. Qed.
Lemma SC_tame : tame_ UPDATE_CFLAG_WITH_SC.
Proof. apply tame_modify. apply prim_C_from_shifter. Qed.
Lemma set_CV_tame c v : tame_ (set_CV c v).
Proof.
  apply tame_modify. intros s. etrans; [apply (prim_C s (Z.b2z c))|apply (prim_V _ (Z.b2z v))]; eauto with tame.
Qed.
Lemma set_cpsr_bit_tame n b : n ∈ [9; 16; 17; 18; 19; 27] -> tame_ (set_cpsr_bit n b).
Proof. intros Hn. apply tame_modify. intros s. by apply prim_cpsr_bit. Qed.
Lemma saturate_if_tame c : tame_ (saturate_if c).
Proof. unfold saturate_if. apply tame_case; [apply set_cpsr_bit_tame; set_solver|apply tame_ret; [exact _|done]]. Qed.
Lemma restore_cpsr_tame : tame_ restore_cpsr.
Proof. apply tame_modify. apply prim_restore. Qed.
Local Hint Resolve N_tame Z_tame SC_tame set_CV_tame saturate_if_tame restore_cpsr_tame : tame.

(** *** Data processing *)

Lemma arithmetic_flags_tame Rd c v : tame_ (arithmetic_flags Rd c v).
Proof. unfold arithmetic_flags. repeat tame_step. Qed.
Lemma logic_flags_tame Rd : tame_ (logic_flags Rd).
Proof. unfold logic_flags. repeat tame_step. Qed.
Lemma data_result_tame S_ Rd m : tame_ m -> tame_body (data_result S_ Rd m).
Proof. intros Hm. unfold data_result. repeat tame_step; try done. by destruct (_ =? _). Qed.
Local Hint Resolve arithmetic_flags_tame logic_flags_tame data_result_tame : tame.
Lemma add_into_tame S_ Rd l r c : tame_body (add_into S_ Rd l r c).
Proof. unfold add_into. repeat tame_step. Qed.
Lemma compare_tame l r c : tame_ (compare l r c).
Proof. unfold compare. repeat tame_step. Qed.
Lemma test_tame r : tame_ (test r).
Proof. unfold test. repeat tame_step. Qed.
Lemma unary_tame Rd Rm f : tame_body (unary Rd Rm f).
Proof. unfold unary. apply simply_tame; [exact _|]. repeat tame_step. Qed.
Lemma binary_tame Rd Rn Rm f : tame_body (binary Rd Rn Rm f).
Proof. unfold binary. apply simply_tame; [exact _|]. repeat tame_step. Qed.
Local Hint Resolve add_into_tame compare_tame test_tame unary_tame binary_tame : tame.
Lemma off_if (b : bool) : goes_off (if b then Some GOTO_DISPATCH else None).
Proof. by destruct b. Qed.
Local Hint Resolve off_if : tame.

Definition handlers_tame : list (Z * (arm_inst -> Prelude.M ARMul_State next)) -> Prop :=
  Forall (fun p => forall i, tame R (goes_on p.1) (p.2 i)).
Ltac each_handler :=
  unfold handlers_tame;
  lazymatch goal with
  | |- Forall _ (_ :: _) => apply Forall_cons; split; [intros i; cbn [fst snd]|each_handler]
  | |- Forall _ [] => exact (List.Forall_nil _)
  end.
Lemma data_tame : handlers_tame [
  (sizeof_adc_inst, ADC_INST); (sizeof_add_inst, ADD_INST); (sizeof_sub_inst, SUB_INST); (sizeof_sbc_inst, SBC_INST); (sizeof_rsb_inst, RSB_INST);
  (sizeof_rsc_inst, RSC_INST); (sizeof_and_inst, AND_INST); (sizeof_bic_inst, BIC_INST); (sizeof_eor_inst, EOR_INST); (sizeof_orr_inst, ORR_INST);
  (sizeof_mov_inst, MOV_INST); (sizeof_mvn_inst, MVN_INST); (sizeof_mov_inst, CPY_INST); (sizeof_cmn_inst, CMN_INST); (sizeof_cmp_inst, CMP_INST);
  (sizeof_teq_inst, TEQ_INST); (sizeof_tst_inst, TST_INST); (sizeof_clz_inst, CLZ_INST); (sizeof_sxth_inst, SXTH_INST); (sizeof_sxtb_inst, SXTB_INST);
  (sizeof_uxth_inst, UXTH_INST); (sizeof_uxtb_inst, UXTB_INST); (sizeof_uxtah_inst, UXTAH_INST); (sizeof_uxtab_inst, UXTAB_INST);
  (sizeof_uxtab_inst, SXTAB_INST); (sizeof_sxtah_inst, SXTAH_INST); (sizeof_sxtab_inst, SXTAB16_INST); (sizeof_uxtab_inst, UXTAB16_INST);
  (sizeof_rev_inst, REV_INST); (sizeof_generic_arm_inst, SEL_INST); (sizeof_pkh_inst, PKHBT_INST); (sizeof_pkh_inst, PKHTB_INST)].
Proof. each_handler; (apply conditional_tame; [exact _|]); repeat tame_step; eauto with tame; done. Qed.

(** *** Multiplication, saturation, parallel arithmetic *)

Lemma set_lo_hi_tame RdLo RdHi lo hi : tame_ (set_lo_hi RdLo RdHi lo hi).
Proof. unfold set_lo_hi. repeat tame_step. Qed.
Lemma set_hi_lo_tame RdLo RdHi lo hi : tame_ (set_hi_lo RdLo RdHi lo hi).
Proof. unfold set_hi_lo. repeat tame_step. Qed.
Lemma product_flags_tame S_ Rd : tame_ (product_flags S_ Rd).
Proof. unfold product_flags. repeat tame_step. Qed.
Lemma long_flags_tame S_ RdLo RdHi : tame_ (long_flags S_ RdLo RdHi).
Proof.
  unfold long_flags. repeat tame_step. apply tame_modify. intros s.
  etrans; [apply (prim_N s (BIT a 31))|apply (prim_Z _ (Z.b2z ((a =? 0) && (a0 =? 0))))]; eauto with tame.
Qed.
Lemma saturated_tame c r : tame_ (saturated c r).
Proof. unfold saturated. repeat tame_step. Qed.
Local Hint Resolve set_lo_hi_tame set_hi_lo_tame product_flags_tame long_flags_tame saturated_tame : tame.
Lemma saturating_add_tame a b : tame_ (saturating_add a b).
Proof. unfold saturating_add. apply saturated_tame. Qed.
Lemma saturating_sub_tame a b : tame_ (saturating_sub a b).
Proof. unfold saturating_sub. apply saturated_tame. Qed.
Local Hint Resolve saturating_add_tame saturating_sub_tame : tame.
Lemma saturate_halves_tame f Rd Rn n : tame_body (saturate_halves f Rd Rn n).
Proof. unfold saturate_halves. repeat tame_step. Qed.
Lemma set_ge_tame b0 b1 b2 b3 : tame_ (set_ge b0 b1 b2 b3).
Proof. unfold set_ge. repeat (apply tame_seq; [exact _| |intros _]); apply set_cpsr_bit_tame; set_solver. Qed.
Lemma set_ge_halves_tame lo hi : tame_ (set_ge_halves lo hi).
Proof. unfold set_ge_halves. apply set_ge_tame. Qed.
Local Hint Resolve saturate_halves_tame set_ge_tame set_ge_halves_tame : tame.
Lemma media_tame : handlers_tame [
  (sizeof_mul_inst, MUL_INST); (sizeof_mla_inst, MLA_INST); (sizeof_umull_inst, UMULL_INST); (sizeof_umlal_inst, UMLAL_INST);
  (sizeof_umaal_inst, UMAAL_INST); (sizeof_umull_inst, SMULL_INST); (sizeof_umlal_inst, SMLAL_INST); (sizeof_smul_inst, SMUL_INST);
  (sizeof_smla_inst, SMLA_INST); (sizeof_smlad_inst, SMLAD_INST); (sizeof_smlalxy_inst, SMLALXY_INST); (sizeof_smlad_inst, SMLAW_INST);
  (sizeof_smlad_inst, SMULW_INST); (sizeof_smlald_inst, SMLALD_INST); (sizeof_smlad_inst, SMMLA_INST); (sizeof_generic_arm_inst, QADD_INST);
  (sizeof_ssat_inst, SSAT_INST); (sizeof_ssat_inst, USAT_INST); (sizeof_ssat_inst, SSAT16_INST); (sizeof_ssat_inst, USAT16_INST);
  (sizeof_generic_arm_inst, QADD8_INST); (sizeof_generic_arm_inst, UQADD8_INST); (sizeof_generic_arm_inst, SADD8_INST);
  (sizeof_generic_arm_inst, SHADD8_INST); (sizeof_generic_arm_inst, UADD8_INST); (sizeof_generic_arm_inst, UHADD8_INST); (sizeof_generic_arm_inst, USADA8_INST)].
Proof. each_handler; (apply conditional_tame; [exact _|]); cbv zeta; repeat (tame_step || (apply simply_tame; [exact _|])); done. Qed.

(** *** Branches, status registers, coprocessors *)

Lemma set_TFlag_tame v : is_bit v -> tame_ (set_TFlag v).
Proof. intros Hv. apply tame_modify. intros s. by apply prim_T. Qed.
Lemma change_tame f : (forall s, R s (f s)) -> tame_ (modify f).
Proof. apply tame_modify. Qed.
Lemma LINK_SET_tame n : tame_ LINK_RTN_ADDR /\ tame_ (SET_PC n).
Proof. unfold LINK_RTN_ADDR, SET_PC. split; repeat tame_step. Qed.
Lemma LINK_tame : tame_ LINK_RTN_ADDR.
Proof. apply (LINK_SET_tame 0). Qed.
Lemma SET_PC_tame n : tame_ (SET_PC n).
Proof. apply LINK_SET_tame. Qed.
Local Hint Resolve set_TFlag_tame LINK_tame SET_PC_tame : tame.
Lemma branch_tame i l m : tame_ m -> tame R (goes_on l) (branch i m).
Proof. intros Hm. unfold branch, advance_dispatch. repeat tame_step; done. Qed.
Lemma branches_tame : handlers_tame [
  (sizeof_bbl_inst, BBL_INST); (sizeof_blx_inst, BLX_INST); (sizeof_bx_inst, BX_INST)].
Proof. each_handler; apply branch_tame; repeat tame_step; done. Qed.
Lemma thumb_branches_tame : handlers_tame [
  (sizeof_b_2_thumb, B_2_THUMB); (sizeof_b_cond_thumb, B_COND_THUMB); (sizeof_bl_1_thumb, BL_1_THUMB); (sizeof_bl_2_thumb, BL_2_THUMB);
  (sizeof_blx_1_thumb, BLX_1_THUMB)].
Proof. each_handler; unfold B_2_THUMB, B_COND_THUMB, BL_1_THUMB, BL_2_THUMB, BLX_1_THUMB; repeat tame_step; done. Qed.
Lemma status_tame : handlers_tame [
  (sizeof_cps_inst, CPS_INST); (sizeof_msr_inst, MSR_INST); (sizeof_mrc_inst, MRC_INST); (sizeof_setend_inst, SETEND_INST); (sizeof_ldc_inst, LDC_INST);
  (sizeof_stc_inst, STC_INST); (sizeof_clrex_inst, CLREX_INST); (sizeof_pld_inst, PLD_INST); (0, NOP_INST)].
Proof.
  each_handler.
  1-3: eapply tame_mono; [first [apply prim_CPS|apply prim_MSR|apply prim_MRC]|by intros n ->].
  all: unfold SETEND_INST, LDC_INST, STC_INST, CLREX_INST, PLD_INST, NOP_INST; repeat tame_step; try (apply set_cpsr_bit_tame; set_solver).
  apply tame_modify. apply prim_unset_exclusive.
Qed.
Lemma coprocessor_tame : handlers_tame [
  (sizeof_mrs_inst, MRS_INST); (sizeof_mcr_inst, MCR_INST); (sizeof_mcrr_inst, MCRR_INST); (sizeof_cdp_inst, CDP_INST); (sizeof_bkpt_inst, BKPT_INST);
  (0, SEV_INST)].
Proof.
  each_handler; (apply conditional_tame; [exact _|]); repeat (tame_step || (apply simply_tame; [exact _|])); try done.
  - apply tame_modify. apply prim_save.
  - apply tame_modify. intros s. apply prim_write_cp15.
  - apply tame_modify. apply prim_stop.
Qed.
End Cpu.

(** ** Relations that do not depend on the mode

    The instructions that depend on the mode keep a relation that holds of what they do in
    any mode. *)

Class FreePrims (R : ARMul_State -> ARMul_State -> Prop) : Prop := {
  free_regs :: RegPrims R;
  free_Cpsr s c : R s (s <| Cpsr := c |>);
  free_spsr s c : R s (s <| Spsr_copy := c |>);
  free_mode s m : R s (ChangePrivilegeMode m s);
  free_load s : R s (LOAD_NZCVT s);
  free_vfp s r v : R s (set_vfp r v s);
}.
Section Free.
Context (R : ARMul_State -> ARMul_State -> Prop) `{!FreePrims R}.
Lemma free_set_Cpsr f : tame R (fun _ => True) (set_Cpsr f).
Proof. apply tame_modify. intros s. apply free_Cpsr. Qed.
Lemma free_change_mode f : tame R (fun _ => True) (modify (fun s => ChangePrivilegeMode (f s) s)).
Proof. apply tame_modify. intros s. apply free_mode. Qed.
Lemma free_modify_mode m : tame R (fun _ => True) (modify (ChangePrivilegeMode m)).
Proof. apply tame_modify. intros s. apply free_mode. Qed.
Lemma free_load_flags : tame R (fun _ => True) (modify LOAD_NZCVT).
Proof. apply tame_modify. apply free_load. Qed.
Lemma free_save_flags : tame R (fun _ => True) (modify SAVE_NZCVT).
Proof. apply tame_modify. intros s. apply free_Cpsr. Qed.
Lemma free_set_spsr f : tame R (fun _ => True) (modify (fun s => s <| Spsr_copy := f s |>)).
Proof. apply tame_modify. intros s. apply free_spsr. Qed.
Local Hint Resolve free_set_Cpsr free_change_mode free_modify_mode free_load_flags free_save_flags free_set_spsr : tame.
Lemma CPS_free i : tame R (fun n => n = FETCH_NEXT sizeof_cps_inst) (CPS_INST i).
Proof. unfold CPS_INST. repeat tame_step. Qed.
Lemma MSR_free i : tame R (fun n => n = FETCH_NEXT sizeof_msr_inst) (MSR_INST i).
Proof. apply conditional_next; [exact _|]. unfold msr_operand. repeat (tame_step || (apply simply_none; [exact _|])). Qed.
Lemma MRC_free i : tame R (fun n => n = FETCH_NEXT sizeof_mrc_inst) (MRC_INST i).
Proof. apply conditional_next; [exact _|]. repeat (tame_step || (apply simply_none; [exact _|])). Qed.
Lemma free_set_vfp r v : tame R (fun _ => True) (modify (set_vfp r v)).
Proof. apply tame_modify. intros s. apply free_vfp. Qed.
Local Hint Resolve free_set_vfp : tame.
Lemma VMSR_free i : tame R (fun n => n = FETCH_NEXT sizeof_vmsr_inst) (VMSR_INST i).
Proof. apply conditional_next; [exact _|]. repeat (tame_step || (apply simply_none; [exact _|])). Qed.
Lemma free_restore s : R s (if CurrentModeHasSPSR s then LOAD_NZCVT (ChangePrivilegeMode (Z.land (Spsr_copy s) 0x1F) (s <| Cpsr := Spsr_copy s |>)) else s).
Proof. destruct (CurrentModeHasSPSR s); [|done]. etrans; [apply free_Cpsr|]. etrans; [apply free_mode|apply free_load]. Qed.
End Free.
(** The relation of everything: what holds without conditions *)
#[export] Instance free_everything : FreePrims (fun _ _ => True).
Proof. split; [split; [split; repeat intro; exact I|done..]|done..]. Qed.
