(* ===== verification/VfpKeeps.v ===== *)
(** What the instructions of the floating-point unit keep, by the rules of [ArmSteady]; the
    loops of divisions and square roots end. *)

From S2P Require Import Prelude ArmSupp ArmState ArmOperands ArmTrans VfpHelper VfpPack VfpSingle VfpDouble VfpInstr VfpDivide VfpSqrt VfpNumber ArmSteady.

Section Registers.
Context (R : ARMul_State -> ARMul_State -> Prop) `{!RegPrims R}.
Abbreviation tame_ m := (tame R (fun _ => True) m).

(** A computation that leaves the state alone *)
Lemma returns_tame {A} (P : A -> Prop) (m : Prelude.M ARMul_State A) : (forall s, exists a, m s = Ret (a, s) /\ P a) -> tame R P m.
Proof. intros Hm s. destruct (Hm s) as (a & -> & Ha). done. Qed.

Lemma ext_reg_tame n : tame_ (ext_reg n).
Proof. unfold ext_reg. repeat tame_step. Qed.
Lemma set_ext_reg_tame n v : tame_ (set_ext_reg n v).
Proof. unfold set_ext_reg. repeat tame_step. apply tame_modify. intros s. apply reg_ExtReg. Qed.
Local Hint Resolve ext_reg_tame set_ext_reg_tame : tame.
Lemma put_float_tame v n : tame_ (vfp_put_float v n).
Proof. unfold vfp_put_float. repeat tame_step. Qed.
Lemma put_double_tame v n : tame_ (vfp_put_double v n).
Proof. unfold vfp_put_double. repeat tame_step. Qed.
Lemma get_float_tame n : tame_ (vfp_get_float n).
Proof. unfold vfp_get_float. repeat tame_step. Qed.
Lemma get_double_tame n : tame_ (vfp_get_double n).
Proof. unfold vfp_get_double. repeat tame_step. Qed.
Local Hint Resolve put_float_tame put_double_tame get_float_tame get_double_tame : tame.
Lemma raise_tame e i f : tame_ (vfp_raise_exceptions e i f).
Proof. unfold vfp_raise_exceptions. repeat tame_step. apply tame_modify. intros s. apply reg_FPSCR. Qed.

(** ** Single precision *)

Lemma single_normaliseround_tame sd vs f e : tame_ (vfp_single_normaliseround sd vs f e).
Proof. unfold vfp_single_normaliseround. repeat tame_step. Qed.
Lemma double_normaliseround_tame sd vs f e : tame_ (vfp_double_normaliseround sd vs f e).
Proof. unfold vfp_double_normaliseround. repeat tame_step. Qed.
Lemma propagate_tame n m f : tame_ (vfp_propagate_nan n m f).
Proof. unfold vfp_propagate_nan. repeat tame_step. Qed.
Local Hint Resolve single_normaliseround_tame double_normaliseround_tame propagate_tame : tame.
Lemma single_add_tame n m f : tame_ (vfp_single_add n m f).
Proof. unfold vfp_single_add, vfp_single_fadd_nonnumber. repeat tame_step. Qed.
Lemma single_multiply_tame n m f : tame_ (vfp_single_multiply n m f).
Proof. unfold vfp_single_multiply. repeat tame_step. Qed.
Local Hint Resolve single_add_tame single_multiply_tame : tame.
Lemma single_accumulate_tame sd sn m f n : tame_ (vfp_single_multiply_accumulate sd sn m f n).
Proof. unfold vfp_single_multiply_accumulate. repeat tame_step. Qed.
Lemma single_fadd_tame sd sn m f : tame_ (vfp_single_fadd sd sn m f).
Proof. unfold vfp_single_fadd. repeat tame_step. Qed.
Lemma single_ftoui_tame sd sn m f : tame_ (vfp_single_ftoui sd sn m f).
Proof. unfold vfp_single_ftoui. repeat tame_step. Qed.
Lemma single_ftosi_tame sd sn m f : tame_ (vfp_single_ftosi sd sn m f).
Proof. unfold vfp_single_ftosi. repeat tame_step. Qed.
Local Hint Resolve single_accumulate_tame single_fadd_tame single_ftoui_tame single_ftosi_tame : tame.
(** The tests before the root leave positive proper numbers. *)
Lemma single_fsqrt_tame sd sn m f : tame_ (vfp_single_fsqrt sd sn m f).
Proof.
  unfold vfp_single_fsqrt. rewrite vfp_single_unpack_spec. destruct (flushed binary32 m f).
  - change (vfp_single_type (mk_number 0 0 0)) with (Z.lor VFP_NUMBER VFP_ZERO).
    change (truth (Z.land (Z.lor VFP_NUMBER VFP_ZERO) (Z.lor VFP_NAN VFP_INFINITY))) with false. change (truth (Z.land (Z.lor VFP_NUMBER VFP_ZERO) VFP_ZERO)) with true.
    cbv iota zeta. repeat tame_step.
  - pose proof (fun H => single_proper m _ H eq_refl) as Hp. rewrite vfp_single_type_spec in *. destruct (type_tests binary32 m) as (E1 & E2 & _). rewrite E1, E2. clear E1 E2.
    unfold is_proper in Hp. destruct (_ =? special _); [repeat tame_step|]. cbn [negb andb] in *.
    destruct ((_ =? 0) && _); [repeat tame_step|]. destruct (Hp eq_refl) as (n & En & Hn & _). clear Hp. cbv zeta. rewrite En. clear En.
    apply tame_case; [repeat tame_step|]. apply tame_seq; [exact _| |intros ?; repeat tame_step].
    apply returns_tame. intros s. destruct Hn as [Ht _ _ _]. destruct (single_root (exponent n) (significand n) s Ht n eq_refl eq_refl) as (x & E & _). eauto.
Qed.
Lemma single_fdiv_tame sd sn m f : tame_ (vfp_single_fdiv sd sn m f).
Proof. unfold vfp_single_fdiv. repeat tame_step. Qed.
Definition operation_tame (o : op) : Prop := match fn o with Some f => forall d n m fpscr, tame_ (f d n m fpscr) | None => True end.
Ltac each_operation :=
  unfold no_op; repeat (apply List.Forall_cons; [cbn [fn]; try exact Logic.I; intros d n m fpscr|]); try exact (List.Forall_nil _).
Lemma single_ext_tame : Forall operation_tame SingleExt.fops_ext.
Proof.
  unfold SingleExt.fops_ext, operation_tame.
  each_operation.
  all: first [apply single_fsqrt_tame|unfold vfp_single_fcpy, vfp_single_fabs, vfp_single_fneg, vfp_single_fcmp, vfp_single_fcmpe, vfp_single_fcmpz,
    vfp_single_fcmpez, vfp_compare, vfp_single_fcvtd, vfp_single_fuito, vfp_single_fsito, vfp_single_ftouiz, vfp_single_ftosiz; repeat tame_step].
Qed.
Lemma single_ops_tame : Forall operation_tame SingleOps.fops.
Proof.
  unfold SingleOps.fops, operation_tame.
  each_operation.
  all: first [apply single_fdiv_tame|unfold vfp_single_fmac, vfp_single_fmsc, vfp_single_fnmac, vfp_single_fnmsc, vfp_single_fmul, vfp_single_fnmul, vfp_single_fsub; repeat tame_step].
Qed.
Lemma single_vector_tame f fpscr st n d sn sm e : (forall d n m fpscr, tame_ (f d n m fpscr)) -> tame_ (SingleOps.vector f fpscr st n d sn sm e).
Proof. intros Hf. revert d sn sm e. induction n as [|n IH]; intros d sn sm e; cbn [SingleOps.vector]; repeat tame_step; done. Qed.
(** An operation of a table *)
Lemma deref_tame (l : list op) (k : nat) : Forall operation_tame l -> tame R operation_tame (deref (l !! k)).
Proof. intros Hl s. destruct (l !! k) as [o|] eqn:E; [|done]. split; [done|]. by apply (Forall_lookup_1 _ _ _ _ Hl E). Qed.
Lemma single_cpdo_tame inst fpscr : tame_ (vfp_single_cpdo inst fpscr).
Proof.
  unfold vfp_single_cpdo. cbv zeta. apply tame_bind with operation_tame; [exact _| |].
  - destruct (_ =? FOP_EXT); apply deref_tame; [apply single_ext_tame|apply single_ops_tame].
  - intros o Ho. unfold operation_tame in Ho. destruct (fn o); [by apply single_vector_tame|]. by apply tame_crash.
Qed.

(** ** Double precision *)

Lemma double_propagate_tame n m f : tame_ (Double.vfp_propagate_nan n m f).
Proof. unfold Double.vfp_propagate_nan. repeat tame_step. Qed.
Local Hint Resolve double_propagate_tame : tame.
Lemma double_add_tame n m f : tame_ (vfp_double_add n m f).
Proof. unfold vfp_double_add, vfp_double_fadd_nonnumber. repeat tame_step. Qed.
Lemma double_multiply_tame n m f : tame_ (vfp_double_multiply n m f).
Proof. unfold vfp_double_multiply. repeat tame_step. Qed.
Local Hint Resolve double_add_tame double_multiply_tame : tame.
Lemma double_accumulate_tame dd dn dm f n : tame_ (vfp_double_multiply_accumulate dd dn dm f n).
Proof. unfold vfp_double_multiply_accumulate. repeat tame_step. Qed.
Lemma double_binary_tame g dd dn dm f : (forall n m f, tame_ (g n m f)) -> tame_ (double_binary g dd dn dm f).
Proof. intros Hg. unfold double_binary. repeat tame_step. all: apply Hg. Qed.
Lemma double_ftoui_tame sd sn m f : tame_ (vfp_double_ftoui sd sn m f).
Proof. unfold vfp_double_ftoui. repeat tame_step. Qed.
Lemma double_ftosi_tame sd sn m f : tame_ (vfp_double_ftosi sd sn m f).
Proof. unfold vfp_double_ftosi. repeat tame_step. Qed.
Local Hint Resolve double_accumulate_tame double_binary_tame double_ftoui_tame double_ftosi_tame : tame.
Lemma proper_multiple n x k : proper binary64 n x -> 0 <= k <= 10 -> significand n mod 2 ^ k = 0.
Proof. intros [_ Hl _ _] Hk. rewrite <- (mod_mod_pow _ k 10) by lia. change (low_bits binary64) with 10 in Hl. by rewrite Hl. Qed.
Lemma double_fsqrt_tame dd un dm f : tame_ (vfp_double_fsqrt dd un dm f).
Proof.
  unfold vfp_double_fsqrt. apply tame_seq; [exact _|repeat tame_step|]. intros v. rewrite vfp_double_unpack_spec. generalize (s64 v). clear v. intros m. destruct (flushed binary64 m f).
  - change (vfp_double_type (mk_number 0 0 0)) with (Z.lor VFP_NUMBER VFP_ZERO).
    change (truth (Z.land (Z.lor VFP_NUMBER VFP_ZERO) (Z.lor VFP_NAN VFP_INFINITY))) with false. change (truth (Z.land (Z.lor VFP_NUMBER VFP_ZERO) VFP_ZERO)) with true.
    cbv iota zeta. repeat tame_step.
  - pose proof (fun H => double_proper m _ H eq_refl) as Hp. rewrite vfp_double_type_spec in *. destruct (type_tests binary64 m) as (E1 & E2 & _). rewrite E1, E2. clear E1 E2.
    unfold is_proper in Hp. destruct (_ =? special _); [repeat tame_step|]. cbn [negb andb] in *.
    destruct ((_ =? 0) && _); [repeat tame_step|]. destruct (Hp eq_refl) as (n & En & Hn & _). clear Hp. cbv zeta. rewrite En. clear En.
    apply tame_case; [repeat tame_step|]. apply tame_seq; [exact _| |intros ?; repeat tame_step].
    apply returns_tame. intros s. pose proof (proper_multiple n _ 10 Hn ltac:(lia)) as Hm. destruct Hn as [Ht _ _ _]. change (high_bit binary64) with 62 in Ht.
    assert (Hr : 2 ^ 62 <= significand n <= 2 ^ 63 - 2 ^ 10) by (Z.to_euclidean_division_equations; lia).
    destruct (double_root (exponent n) (significand n) s Hr Hm n eq_refl eq_refl) as (x & E & _). eauto.
Qed.
(** The tests before the quotient leave proper numbers. *)
Lemma double_operand_proper v f : let '(n, _) := vfp_double_unpack v f in
  truth (Z.land (vfp_double_type n) VFP_NAN) = false -> truth (Z.land (vfp_double_type n) VFP_INFINITY) = false -> truth (Z.land (vfp_double_type n) VFP_ZERO) = false ->
  exists x, proper binary64 (if truth (Z.land (vfp_double_type n) VFP_DENORMAL) then vfp_double_normalise_denormal n else n) x.
Proof.
  rewrite vfp_double_unpack_spec. destruct (flushed _ _ _); [done|]. intros H1 H2 H3. pose proof (fun H => double_proper v _ H eq_refl) as Hp.
  rewrite vfp_double_type_spec in *. unfold is_proper in Hp. unfold type_of in H1, H2, H3.
  destruct (field_exponent _ _ =? special _). { repeat case_match; done. }
  destruct (field_exponent _ _ =? 0). { destruct (field_mantissa _ _ =? 0); [done|]. destruct (Hp eq_refl) as (n & <- & Hn & _). eexists. exact Hn. }
  destruct (Hp eq_refl) as (n & <- & Hn & _). eexists. exact Hn.
Qed.
Lemma double_fdiv_tame dd dn dm f : tame_ (vfp_double_fdiv dd dn dm f).
Proof.
  unfold vfp_double_fdiv. apply tame_seq; [exact _|repeat tame_step|]. intros v. pose proof (double_operand_proper (s64 v) f) as Hn. destruct (vfp_double_unpack (s64 v) f) as [vdn e1].
  apply tame_seq; [exact _|repeat tame_step|]. intros w. pose proof (double_operand_proper (s64 w) f) as Hm. destruct (vfp_double_unpack (s64 w) f) as [vdm e2]. cbv zeta.
  destruct (truth (Z.land (vfp_double_type vdn) VFP_NAN)) eqn:N1; [repeat tame_step|]. destruct (truth (Z.land (vfp_double_type vdm) VFP_NAN)) eqn:N2; [repeat tame_step|].
  apply tame_case; [repeat tame_step|]. destruct (truth (Z.land (vfp_double_type vdn) VFP_INFINITY)) eqn:N3; [repeat tame_step|].
  destruct (truth (Z.land (vfp_double_type vdm) VFP_ZERO)) eqn:N4; [repeat tame_step|].
  destruct (truth (Z.land (vfp_double_type vdm) VFP_INFINITY)) eqn:N5; cbn [orb]; [repeat tame_step|]. cbn [orb].
  destruct (truth (Z.land (vfp_double_type vdn) VFP_ZERO)) eqn:N6; [repeat tame_step|].
  destruct (Hn eq_refl eq_refl eq_refl) as [x Hx]. destruct (Hm eq_refl eq_refl eq_refl) as [y Hy].
  apply tame_seq; [exact _| |intros q; repeat tame_step]. apply returns_tame. intros s.
  destruct (double_quotient_digits (Z.lxor (sign vdn) (sign vdm)) _ _ s (proper_top _ _ _ Hx) (proper_top _ _ _ Hy)) as (q & k & E & _); [exact (proper_multiple _ _ 1 Hx ltac:(lia))|].
  eexists. split; [exact E|done].
Qed.
Lemma double_ext_tame : Forall operation_tame DoubleExt.fops_ext.
Proof.
  unfold DoubleExt.fops_ext, operation_tame. each_operation.
  all: first [apply double_fsqrt_tame|unfold vfp_double_fcpy, vfp_double_fabs, vfp_double_fneg, vfp_double_fcmp, vfp_double_fcmpe, vfp_double_fcmpz,
    vfp_double_fcmpez, DoubleCompare.vfp_compare, vfp_double_fcvts, vfp_double_fuito, vfp_double_fsito, vfp_double_ftouiz, vfp_double_ftosiz; repeat tame_step].
Qed.
Lemma double_ops_tame : Forall operation_tame DoubleOps.fops.
Proof.
  unfold DoubleOps.fops, operation_tame. each_operation.
  all: first [apply double_fdiv_tame|unfold vfp_double_fmac, vfp_double_fmsc, vfp_double_fnmac, vfp_double_fnmsc; repeat tame_step; done
             |unfold vfp_double_fmul, vfp_double_fnmul, vfp_double_fadd, vfp_double_fsub; apply double_binary_tame; intros; repeat tame_step].
Qed.
Lemma double_vector_tame f fpscr st n d dn dm e : (forall d n m fpscr, tame_ (f d n m fpscr)) -> tame_ (DoubleOps.vector f fpscr st n d dn dm e).
Proof. intros Hf. revert d dn dm e. induction n as [|n IH]; intros d dn dm e; cbn [DoubleOps.vector]; repeat tame_step; done. Qed.
Lemma double_cpdo_tame inst fpscr : tame_ (vfp_double_cpdo inst fpscr).
Proof.
  unfold vfp_double_cpdo. cbv zeta. apply tame_bind with operation_tame; [exact _| |].
  - destruct (_ =? FOP_EXT); apply deref_tame; [apply double_ext_tame|apply double_ops_tame].
  - intros o Ho. unfold operation_tame in Ho. destruct (fn o); [by apply double_vector_tame|]. repeat tame_step.
Qed.
End Registers.
#[export] Hint Resolve ext_reg_tame set_ext_reg_tame raise_tame single_cpdo_tame double_cpdo_tame : tame.

(** ** The instructions on the processor *)

Section Cpu.
Context (R : ARMul_State -> ARMul_State -> Prop) `{!CpuPrims R}.
Lemma vfp_op_tame l i : tame R (goes_on l) (vfp_op l i).
Proof. apply conditional_tame; [exact _|]. cbv zeta. repeat (tame_step || (apply simply_tame; [exact _|])). Qed.
Local Hint Resolve vfp_op_tame : tame.
Lemma vfp_ops_tame : handlers_tame R [
  (sizeof_vmla_inst, VMLA_INST); (sizeof_vmls_inst, VMLS_INST); (sizeof_vnmla_inst, VNMLA_INST); (sizeof_vnmls_inst, VNMLS_INST);
  (sizeof_vnmul_inst, VNMUL_INST); (sizeof_vmul_inst, VMUL_INST); (sizeof_vadd_inst, VADD_INST); (sizeof_vsub_inst, VSUB_INST);
  (sizeof_vdiv_inst, VDIV_INST); (sizeof_vabs_inst, VABS_INST); (sizeof_vneg_inst, VNEG_INST); (sizeof_vsqrt_inst, VSQRT_INST);
  (sizeof_vcmp_inst, VCMP_INST); (sizeof_vcmp2_inst, VCMP2_INST); (sizeof_vcvtbds_inst, VCVTBDS_INST); (sizeof_vcvtbff_inst, VCVTBFF_INST);
  (sizeof_vcvtbfi_inst, VCVTBFI_INST)].
Proof. unfold handlers_tame. repeat (apply Forall_cons; split; [intros i; apply vfp_op_tame|]). exact (List.Forall_nil _). Qed.
(** [vmrs apsr_nzcv, fpscr] *)
Lemma vmrs_flags_tame (s : ARMul_State) : tame R (fun _ => True)
  (modify (fun s' => s' <| NFlag := Z.land (Z.shiftr (at_ (VFP s) VFP_FPSCR) 31) 1 |> <| ZFlag := Z.land (Z.shiftr (at_ (VFP s) VFP_FPSCR) 30) 1 |>
    <| CFlag := Z.land (Z.shiftr (at_ (VFP s) VFP_FPSCR) 29) 1 |> <| VFlag := Z.land (Z.shiftr (at_ (VFP s) VFP_FPSCR) 28) 1 |>)).
Proof.
  apply tame_modify. intros s'. etrans; [apply (prim_N s'), is_bit_land|]. etrans; [eapply prim_Z, is_bit_land|].
  etrans; [eapply prim_C, is_bit_land|]. eapply prim_V, is_bit_land.
Qed.
Local Hint Resolve vmrs_flags_tame : tame.
Lemma vfp_moves_tame : handlers_tame R [
  (sizeof_vmovi_inst, VMOVI_INST); (sizeof_vmovr_inst, VMOVR_INST); (sizeof_vmovbrs_inst, VMOVBRS_INST); (sizeof_vmsr_inst, VMSR_INST);
  (sizeof_vmovbrc_inst, VMOVBRC_INST); (sizeof_vmrs_inst, VMRS_INST); (sizeof_vmovbcr_inst, VMOVBCR_INST); (sizeof_vmovbrrss_inst, VMOVBRRSS_INST);
  (sizeof_vmovbrrd_inst, VMOVBRRD_INST)].
Proof.
  unfold handlers_tame. repeat (apply Forall_cons; split; [intros i; cbn [fst snd]|]); try exact (List.Forall_nil _).
  4: eapply tame_mono; [apply prim_VMSR|by intros n ->].
  all: (apply conditional_tame; [exact _|]); unfold VMOVI, VMOVR, VMOVBRS, VMOVBRRSS, VMOVBRRD; cbv zeta; repeat (tame_step || (apply simply_tame; [exact _|])).
Qed.
End Cpu.
