(* ===== verification/ArmKeeps.v ===== *)
(** What every instruction keeps, with the memory: the rules of [ArmSteady] for the whole
    machine, the table of handlers, and the sizes of translated instructions. *)

From S2P Require Import Prelude MemoryMap Memory MemoryAccess ArmSupp ArmState ArmOperands ArmDecode ArmThumb ArmTrans ArmData ArmMedia ArmSystem ArmMachine VfpHelper VfpInstr ArmLoop ArmSteady VfpKeeps.

(** ** Computations on a part of the state *)

Lemma tame_zoom {S T A} (RT : T -> T -> Prop) (RS : S -> S -> Prop) (g : S -> T) (p : T -> S -> S) (P : A -> Prop) (m : Prelude.M T A) :
  (forall s t, RT (g s) t -> RS s (p t s)) -> tame RT P m -> tame RS P (zoom g p m).
Proof.
  intros Hp Hm s. unfold zoom. specialize (Hm (g s)). destruct (m (g s)) as [[a t]|f]; [|done].
  destruct Hm as [H1 Ha]. split; [by apply Hp|done].
Qed.

(** Accesses to memory do not run out of fuel. *)
Section Memory.
Context `{Host} `{Devices D}.
Definition anything (s s' : MemorySystem D) : Prop := True.
#[export] Instance anything_order : PreOrder anything.
Proof. split; repeat intro; exact I. Qed.
Lemma anything_modify f : tame anything (fun _ => True) (modify f).
Proof. apply tame_modify. by intros. Qed.
Lemma device_tame {A} (f : D -> A * D) : tame anything (fun _ => True) (device f).
Proof. intros s. unfold device. by destruct (f (devices s)). Qed.
#[local] Hint Resolve anything_modify device_tame : tame.
Lemma CheckRegion_tame start endv mode rs re p : tame anything (fun _ => True) (CheckRegion start endv mode rs re p).
Proof. unfold CheckRegion, rasterizer_call. repeat tame_step. Qed.
#[local] Hint Resolve CheckRegion_tame : tame.
Lemma flush_tame a n mode : tame anything (fun _ => True) (RasterizerFlushVirtualRegion a n mode).
Proof. unfold RasterizerFlushVirtualRegion. repeat tame_step. Qed.
Lemma make_ref_tame b o : tame anything (fun _ => True) (make_ref b o).
Proof. unfold make_ref. repeat tame_step. Qed.
#[local] Hint Resolve flush_tame make_ref_tame : tame.
Lemma cached_pointer_tame a : tame anything (fun _ => True) (GetPointerForRasterizerCache a).
Proof. unfold GetPointerForRasterizerCache. repeat tame_step. Qed.
Lemma load_tame r o n : tame anything (fun _ => True) (load r o n).
Proof. unfold load. repeat tame_step. Qed.
Lemma store_tame r o l : tame anything (fun _ => True) (store r o l).
Proof. unfold store. repeat tame_step. Qed.
Lemma mmio_handler_tame t a : tame anything (fun _ => True) (GetMMIOHandler t a).
Proof. unfold GetMMIOHandler. repeat tame_step. Qed.
#[local] Hint Resolve cached_pointer_tame load_tame store_tame mmio_handler_tame : tame.
Lemma Read_tame n a : tame anything (fun _ => True) (Read n a).
Proof. unfold Read, current_table, get_table, GetFCRAMPointer, ReadMMIO. repeat tame_step. Qed.
Lemma Write_tame n a v : tame anything (fun _ => True) (Write n a v).
Proof. unfold Write, current_table, get_table, GetFCRAMPointer, WriteMMIO. repeat tame_step. Qed.
End Memory.
#[export] Hint Resolve Read_tame Write_tame : tame.

(** ** Sizes

    The structures of the table *)

Definition inst_sizes : list Z := [
    sizeof_vmla_inst; sizeof_vmls_inst; sizeof_vnmla_inst; sizeof_vnmls_inst; sizeof_vnmul_inst; sizeof_vmul_inst; sizeof_vadd_inst;
    sizeof_vsub_inst; sizeof_vdiv_inst; sizeof_vmovi_inst; sizeof_vmovr_inst; sizeof_vabs_inst; sizeof_vneg_inst; sizeof_vsqrt_inst;
    sizeof_vcmp_inst; sizeof_vcmp2_inst; sizeof_vcvtbds_inst; sizeof_vcvtbff_inst; sizeof_vcvtbfi_inst; sizeof_vmovbrs_inst; sizeof_vmsr_inst;
    sizeof_vmovbrc_inst; sizeof_vmrs_inst; sizeof_vmovbcr_inst; sizeof_vmovbrrss_inst; sizeof_vmovbrrd_inst; sizeof_vstr_inst; sizeof_vpush_inst;
    sizeof_vstm_inst; sizeof_vpop_inst; sizeof_vldr_inst; sizeof_vldm_inst;
    sizeof_ldst_inst; sizeof_ldst_inst; sizeof_bkpt_inst; sizeof_blx_inst; sizeof_cps_inst; sizeof_pld_inst; sizeof_setend_inst; sizeof_clrex_inst;
    sizeof_rev_inst; sizeof_generic_arm_inst; sizeof_sxtb_inst; sizeof_uxth_inst; sizeof_sxtb_inst; sizeof_sxtab_inst; sizeof_uxth_inst;
    sizeof_uxtab_inst; sizeof_mov_inst; sizeof_uxtab_inst; sizeof_generic_arm_inst; sizeof_generic_arm_inst; sizeof_generic_arm_inst;
    sizeof_generic_arm_inst; sizeof_generic_arm_inst; sizeof_swp_inst; sizeof_swp_inst; sizeof_generic_arm_inst; sizeof_ssat_inst;
    sizeof_generic_arm_inst; sizeof_generic_arm_inst; sizeof_generic_arm_inst; sizeof_generic_arm_inst; sizeof_generic_arm_inst;
    sizeof_generic_arm_inst; sizeof_generic_arm_inst; sizeof_generic_arm_inst; sizeof_generic_arm_inst; sizeof_generic_arm_inst; sizeof_umaal_inst;
    sizeof_uxtab_inst; sizeof_generic_arm_inst; sizeof_generic_arm_inst; sizeof_generic_arm_inst; sizeof_ssat_inst; sizeof_generic_arm_inst;
    sizeof_generic_arm_inst; sizeof_generic_arm_inst; sizeof_generic_arm_inst; sizeof_generic_arm_inst; sizeof_generic_arm_inst;
    sizeof_generic_arm_inst; sizeof_sxtab_inst; sizeof_generic_arm_inst; sizeof_generic_arm_inst; sizeof_generic_arm_inst; sizeof_generic_arm_inst;
    sizeof_generic_arm_inst; sizeof_generic_arm_inst; sizeof_generic_arm_inst; sizeof_generic_arm_inst; sizeof_generic_arm_inst; sizeof_sxtah_inst;
    sizeof_sxtab_inst; sizeof_generic_arm_inst; sizeof_bx_inst; sizeof_clz_inst; sizeof_uxtah_inst; sizeof_bx_inst; sizeof_rev_inst; sizeof_blx_inst;
    sizeof_rev_inst; sizeof_generic_arm_inst; sizeof_generic_arm_inst; sizeof_generic_arm_inst; sizeof_generic_arm_inst; sizeof_generic_arm_inst;
    sizeof_generic_arm_inst; sizeof_generic_arm_inst; sizeof_generic_arm_inst; sizeof_generic_arm_inst; sizeof_generic_arm_inst; sizeof_smlad_inst;
    sizeof_smlad_inst; sizeof_smlad_inst; sizeof_smlad_inst; sizeof_smlald_inst; sizeof_smlad_inst; sizeof_smlad_inst; sizeof_smlald_inst;
    sizeof_smlad_inst; sizeof_smlad_inst; sizeof_smlad_inst; sizeof_pkh_inst; sizeof_pkh_inst; sizeof_smul_inst; sizeof_smlalxy_inst;
    sizeof_smla_inst; sizeof_mcrr_inst; sizeof_mcrr_inst; sizeof_cmp_inst; sizeof_tst_inst; sizeof_teq_inst; sizeof_cmn_inst; sizeof_umull_inst;
    sizeof_umull_inst; sizeof_umlal_inst; sizeof_umlal_inst; sizeof_mul_inst; sizeof_mla_inst; sizeof_ssat_inst; sizeof_ssat_inst; sizeof_mrs_inst;
    sizeof_msr_inst; sizeof_and_inst; sizeof_bic_inst; sizeof_ldst_inst; sizeof_eor_inst; sizeof_add_inst; sizeof_rsb_inst; sizeof_rsc_inst;
    sizeof_sbc_inst; sizeof_adc_inst; sizeof_sub_inst; sizeof_orr_inst; sizeof_mvn_inst; sizeof_mov_inst; sizeof_ldst_inst; sizeof_ldst_inst;
    sizeof_ldst_inst; sizeof_ldst_inst; sizeof_ldst_inst; sizeof_ldst_inst; sizeof_ldst_inst; sizeof_ldst_inst; sizeof_ldst_inst; sizeof_ldst_inst;
    sizeof_ldst_inst; sizeof_ldst_inst; sizeof_ldst_inst; sizeof_ldst_inst; sizeof_mrc_inst; sizeof_mcr_inst; sizeof_msr_inst; sizeof_msr_inst;
    sizeof_msr_inst; sizeof_msr_inst; sizeof_msr_inst; sizeof_ldst_inst; sizeof_ldst_inst; sizeof_ldst_inst; sizeof_ldst_inst; sizeof_ldst_inst;
    sizeof_cdp_inst; sizeof_stc_inst; sizeof_ldc_inst; sizeof_generic_arm_inst; sizeof_generic_arm_inst; sizeof_generic_arm_inst;
    sizeof_generic_arm_inst; 0; 0; 0; 0; 0; sizeof_swi_inst; sizeof_bbl_inst; sizeof_b_2_thumb; sizeof_b_cond_thumb; sizeof_bl_1_thumb;
    sizeof_bl_2_thumb; sizeof_blx_1_thumb].

(** An instruction that is allocated at the top of the buffer, in [l] bytes *)
Section Sizes.
Context `{Translator}.
Definition allocates (l : Z) (f : Z -> Z -> Prelude.M TransCache Z) : Prop := forall inst index t,
  wlp (f inst index) (fun start t' => start = trans_cache_buf_top t /\ trans_cache_buf_top t' = start + sizeof_arm_inst + l /\
    (exists i, trans_cache_buf t' !! start = Some i /\ idx i = index) /\
    (forall p, p < start -> trans_cache_buf t' !! p = trans_cache_buf t !! p)) t.

Lemma new_inst_spec l a t : 0 <= l ->
  wlp (new_inst l a) (fun start t' => start = trans_cache_buf_top t /\ trans_cache_buf_top t' = start + sizeof_arm_inst + l /\
    trans_cache_buf t' !! start = Some a /\ (forall p, p < start -> trans_cache_buf t' !! p = trans_cache_buf t !! p)) t.
Proof.
  intros Hl. unfold wlp, new_inst, AllocBuffer, mbind, M_bind, get, modify, ASSERT. destruct (_ <=? _); [|done].
  cbn. split_and!; [done|lia|by rewrite lookup_insert_eq|].
  intros p Hp. rewrite lookup_insert_ne by lia. destruct (trans_cache_buf t !! p) eqn:E.
  - apply map_lookup_filter_Some. split; [done|]. cbn. by left.
  - apply map_lookup_filter_None. by left.
Qed.
Lemma new_inst_allocates l (f : Z -> Z -> arm_inst) : 0 <= l -> (forall inst index, idx (f inst index) = index) ->
  allocates l (fun inst index => new_inst l (f inst index)).
Proof.
  intros Hl Hf inst index t. eapply wlp_mono; [by apply new_inst_spec|]. cbn beta. intros start t' (H1 & H2 & H3 & H4).
  split_and!; [done..| |done]. exists (f inst index). by rewrite Hf.
Qed.
Lemma table_allocates : Forall2 allocates inst_sizes arm_instruction_trans.
Proof.
  unfold arm_instruction_trans, inst_sizes.
  repeat (apply List.Forall2_cons; [eapply new_inst_allocates; [done|by intros]|]). constructor.
Qed.
End Sizes.

(** ** Handlers of the machine *)

Section Machine.
Context {D W : Type} `{Host} `{Devices D} `{Kernel D W} `{Translator}.

(** [R] relates the states of the processor, [RM] those of the machine. *)
Class MachinePrims (R : ARMul_State -> ARMul_State -> Prop) (RM : Machine D W -> Machine D W -> Prop) : Prop := {
  mach_cpu :: CpuPrims R;
  mach_order :: PreOrder RM;
  mach_lift m s : R (cpu m) s -> RM m (m <| cpu := s |>);
  mach_memory m mem : RM m (m <| memory := mem |>);
  prim_usr s i v : Mode s <> USER32MODE -> R s (s <| Reg_usr ::= <[i := v]> |>);
  prim_as_user s : R s (ChangePrivilegeMode (Mode s) (ChangePrivilegeMode USER32MODE s));
}.
Context R RM `{!MachinePrims R RM}.
Abbreviation tame_ m := (tame RM (fun _ => True) m).
Abbreviation tame_body m := (tame RM goes_off m).

Lemma on_cpu_tame {A} (P : A -> Prop) (f : Prelude.M ARMul_State A) : tame R P f -> tame RM P (on_cpu f).
Proof. apply tame_zoom. intros m s. apply mach_lift. Qed.
Lemma on_memory_tame {A} (f : Prelude.M (MemorySystem D) A) : tame anything (fun _ => True) f -> tame_ (on_memory f).
Proof. apply tame_zoom. intros m s _. apply mach_memory. Qed.
Lemma ReadMemory_tame n a : tame_ (ReadMemory n a).
Proof. unfold ReadMemory. repeat tame_step. apply on_memory_tame, Read_tame. Qed.
Lemma WriteMemory_tame n a v : tame_ (WriteMemory n a v).
Proof. unfold WriteMemory. repeat tame_step. apply on_memory_tame, Write_tame. Qed.
Lemma ReadMemory8_tame a : tame_ (ReadMemory8 a).
Proof. apply on_memory_tame, Read_tame. Qed.
Lemma WriteMemory8_tame a v : tame_ (WriteMemory8 a v).
Proof. apply on_memory_tame, Write_tame. Qed.
Lemma reg_tame i : tame_ (reg i).
Proof. apply on_cpu_tame, cpu_Reg_tame. exact _. Qed.
Lemma set_reg_tame i v : tame_ (set_reg i v).
Proof. apply on_cpu_tame, set_Reg_tame. exact _. Qed.
Lemma stored_tame i : tame_ (stored i).
Proof. apply on_cpu_tame, rn_val_tame. exact _. Qed.
Lemma m_get_addr_tame f i : tame_ (on_cpu (get_addr f i)).
Proof. apply on_cpu_tame, get_addr_tame. exact _. Qed.
Lemma change_tame' f : (forall s, R s (f s)) -> tame_ (change f).
Proof. intros Hf. by apply on_cpu_tame, tame_modify. Qed.
Lemma change_T_tame v : tame_ (change (fun s => s <| TFlag := Z.land v 1 |>)).
Proof. apply change_tame'. intros s. apply prim_T, is_bit_land. Qed.
Lemma change_exclusive_tame a : tame_ (change (SetExclusiveMemoryAddress a)) /\ tame_ (change UnsetExclusiveMemoryAddress).
Proof. split; apply change_tame'; intros s; [apply prim_set_exclusive|apply prim_unset_exclusive]. Qed.
Lemma change_set_tame a : tame_ (change (SetExclusiveMemoryAddress a)).
Proof. apply change_exclusive_tame. Qed.
Lemma change_unset_tame : tame_ (change UnsetExclusiveMemoryAddress).
Proof. apply (change_exclusive_tame 0). Qed.
Lemma m_restore_tame : tame_ (on_cpu restore_cpsr).
Proof. apply on_cpu_tame, restore_cpsr_tame. exact _. Qed.
Local Hint Resolve ReadMemory_tame WriteMemory_tame ReadMemory8_tame WriteMemory8_tame reg_tame set_reg_tame stored_tame m_get_addr_tame
  change_T_tame change_set_tame change_unset_tame m_restore_tame : tame.
Lemma m_advance_tame l : tame RM (goes_on l) (m_advance l).
Proof. apply on_cpu_tame, advance_goes_on; exact _. Qed.
Lemma m_conditional_tame i l body : tame_body body -> tame RM (goes_on l) (m_conditional i l body).
Proof.
  intros Hb. unfold m_conditional. apply tame_seq; [exact _|apply tame_gets; exact _|]. intros s.
  apply tame_bind with goes_off; [exact _| |].
  - apply tame_case; [done|]. apply tame_ret; [exact _|done].
  - intros [n|] Hn; [|apply m_advance_tame]. apply tame_ret; [exact _|]. by destruct n.
Qed.
Lemma m_simply_tame m : tame_ m -> tame_body (m_simply m).
Proof. intros Hm. unfold m_simply. repeat tame_step. Qed.
Local Hint Resolve m_advance_tame m_simply_tame : tame.
Lemma ldst_tame i body : (forall inst addr, tame_ (body inst addr)) -> tame RM (goes_on sizeof_ldst_inst) (ldst i body).
Proof. intros Hb. unfold ldst. apply m_conditional_tame. repeat tame_step. Qed.
(** The accesses leave the processor alone. *)
Lemma as_user_tame {A} (access : Prelude.M (Machine D W) A) :
  (forall m, match access m with Ret (_, m') => exists mem, m' = m <| memory := mem |> | Crash f => f <> OutOfFuel end) -> tame_ (as_user access).
Proof.
  intros Ha m. unfold as_user, mbind, M_bind, gets, change, on_cpu, zoom, modify. cbn -[ChangePrivilegeMode].
  set (m1 := m <| cpu := _ |>). specialize (Ha m1). destruct (access m1) as [[a m2]|f]; [|done].
  destruct Ha as [mem ->]. cbn -[ChangePrivilegeMode]. split; [|done].
  etrans; [apply (mach_lift _ (ChangePrivilegeMode (Mode (cpu m)) (ChangePrivilegeMode USER32MODE (cpu m)))), prim_as_user|].
  exact (mach_memory (m <| cpu := ChangePrivilegeMode (Mode (cpu m)) (ChangePrivilegeMode USER32MODE (cpu m)) |>) mem).
Qed.
Lemma on_memory_only {A} (f : Prelude.M (MemorySystem D) A) (m : Machine D W) : tame anything (fun _ => True) f ->
  match on_memory f m with Ret (_, m') => exists mem, m' = m <| memory := mem |> | Crash f => f <> OutOfFuel end.
Proof. intros Hf. unfold on_memory, zoom. specialize (Hf (memory m)). destruct (f (memory m)) as [[a t]|]; [|done]. by exists t. Qed.
Lemma ReadMemory_only n a (m : Machine D W) :
  match ReadMemory n a m with Ret (_, m') => exists mem, m' = m <| memory := mem |> | Crash f => f <> OutOfFuel end.
Proof.
  unfold ReadMemory, mbind, M_bind. pose proof (on_memory_only (Read n a) m (Read_tame n a)) as Hm. by destruct (on_memory (Read n a) m) as [[v m']|].
Qed.
Lemma WriteMemory_only n a v (m : Machine D W) :
  match WriteMemory n a v m with Ret (_, m') => exists mem, m' = m <| memory := mem |> | Crash f => f <> OutOfFuel end.
Proof. unfold WriteMemory, mbind, M_bind, gets. apply on_memory_only, Write_tame. Qed.
Lemma user_read_tame n a : tame_ (as_user (ReadMemory n a)).
Proof. apply as_user_tame. apply ReadMemory_only. Qed.
Lemma user_write_tame n a v : tame_ (as_user (WriteMemory n a v)).
Proof. apply as_user_tame. apply WriteMemory_only. Qed.
Lemma user_read8_tame a : tame_ (as_user (ReadMemory8 a)).
Proof. apply as_user_tame. intros m. apply on_memory_only, Read_tame. Qed.
Lemma user_write8_tame a v : tame_ (as_user (WriteMemory8 a v)).
Proof. apply as_user_tame. intros m. apply on_memory_only, Write_tame. Qed.
Local Hint Resolve user_read_tame user_write_tame user_read8_tame user_write8_tame : tame.

Lemma each_register_tame inst f l addr : (forall i a, tame_ (f i a)) -> tame_ (each_register inst f l addr).
Proof. intros Hf. revert addr. induction l as [|i l IH]; intros addr; cbn [each_register]; repeat tame_step; done. Qed.
Lemma load_register_tame i a : tame_ (load_register i a).
Proof. unfold load_register. repeat tame_step. Qed.
Lemma load_user_register_tame i a : tame_ (load_user_register i a).
Proof.
  unfold load_user_register. apply tame_seq; [exact _|apply ReadMemory_tame|]. intros v m. unfold gets, mbind, M_bind.
  destruct (Z.eqb_spec (Mode (cpu m)) USER32MODE); [apply set_reg_tame|]. split; [|done]. by apply mach_lift, prim_usr.
Qed.
Lemma load_pc_tame a : tame_ (load_pc a).
Proof. unfold load_pc. repeat tame_step. Qed.
Lemma store_register_tame i a : tame_ (store_register i a).
Proof. unfold store_register. repeat tame_step. Qed.
Lemma store_user_register_tame i a : tame_ (store_user_register i a).
Proof. unfold store_user_register, store_register. repeat tame_step. Qed.
Lemma store_pc_tame i a : tame_ (store_pc i a).
Proof. unfold store_pc. repeat tame_step. Qed.
Local Hint Resolve load_register_tame load_user_register_tame load_pc_tame store_register_tame store_user_register_tame store_pc_tame : tame.
Lemma load_word_tame i f : tame_body (load_word i f).
Proof. unfold load_word. repeat tame_step. Qed.
Local Hint Resolve load_word_tame each_register_tame : tame.
Definition m_handlers_tame : list (Z * (arm_inst -> Prelude.M (Machine D W) next)) -> Prop :=
  Forall (fun p => forall i, tame RM (goes_on p.1) (p.2 i)).
Ltac each_m_handler :=
  unfold m_handlers_tame;
  lazymatch goal with
  | |- Forall _ (_ :: _) => apply Forall_cons; split; [intros i; cbn [fst snd]|each_m_handler]
  | |- Forall _ [] => exact (List.Forall_nil _)
  end.
Lemma single_tame : m_handlers_tame [
  (sizeof_ldst_inst, LDRB_INST); (sizeof_ldst_inst, LDRH_INST); (sizeof_ldst_inst, LDRSB_INST); (sizeof_ldst_inst, LDRSH_INST);
  (sizeof_ldst_inst, LDRBT_INST); (sizeof_ldst_inst, LDRT_INST); (sizeof_ldst_inst, STR_INST); (sizeof_ldst_inst, STRB_INST);
  (sizeof_ldst_inst, STRH_INST); (sizeof_ldst_inst, STRBT_INST); (sizeof_ldst_inst, STRT_INST); (sizeof_ldst_inst, STRD_INST)].
Proof. each_m_handler; apply ldst_tame; intros inst addr; cbv beta; repeat tame_step. Qed.
Lemma finish_tame l m : tame_body m -> tame RM (goes_on l) (r ← m; match r with Some n => mret n | None => m_advance l end).
Proof.
  intros Hm. apply tame_bind with goes_off; [exact _|done|]. intros [n|] Hn; [|apply m_advance_tame]. apply tame_ret; [exact _|]. by destruct n.
Qed.
Lemma word_tame : m_handlers_tame [(sizeof_ldst_inst, LDR_INST); (sizeof_ldst_inst, LDRCOND_INST)].
Proof.
  each_m_handler; unfold LDR_INST, LDRCOND_INST.
  - destruct (component i); try (apply tame_crash; discriminate). apply finish_tame, load_word_tame.
  - apply tame_seq; [exact _|apply tame_gets; exact _|]. intros s. apply finish_tame, tame_case; [|by apply tame_ret; [exact _|]].
    destruct (component i); try (apply tame_crash; discriminate). apply load_word_tame.
Qed.
Lemma double_tame : m_handlers_tame [(sizeof_ldst_inst, LDRD_INST); (sizeof_ldst_inst, SRS_INST)].
Proof. each_m_handler; unfold LDRD_INST, SRS_INST; repeat tame_step. Qed.
Lemma multiple_tame : m_handlers_tame [
  (sizeof_ldst_inst, LDM_INST); (sizeof_ldst_inst, STM_INST); (sizeof_swp_inst, SWP_INST); (sizeof_swp_inst, SWPB_INST)].
Proof.
  each_m_handler; apply m_conditional_tame; repeat (tame_step || apply m_simply_tame).
  all: try (apply each_register_tame; intros j x; cbv beta; try destruct (j =? 15); repeat tame_step).
  all: by destruct (truth _).
Qed.
Lemma load_exclusive_tame i f : (forall Rd a, tame_ (f Rd a)) -> tame RM (goes_on sizeof_generic_arm_inst) (load_exclusive i f).
Proof. intros Hf. unfold load_exclusive. apply m_conditional_tame. repeat tame_step. Qed.
Lemma store_exclusive_tame i f : (forall Rm a, tame_ (f Rm a)) -> tame RM (goes_on sizeof_generic_arm_inst) (store_exclusive i f).
Proof. intros Hf. unfold store_exclusive. apply m_conditional_tame. repeat (tame_step || apply m_simply_tame). Qed.
Lemma exclusive_tame : m_handlers_tame [
  (sizeof_generic_arm_inst, LDREX_INST); (sizeof_generic_arm_inst, LDREXB_INST); (sizeof_generic_arm_inst, LDREXH_INST);
  (sizeof_generic_arm_inst, LDREXD_INST); (sizeof_generic_arm_inst, STREX_INST); (sizeof_generic_arm_inst, STREXB_INST);
  (sizeof_generic_arm_inst, STREXH_INST); (sizeof_generic_arm_inst, STREXD_INST)].
Proof. each_m_handler; first [apply load_exclusive_tame|apply store_exclusive_tame]; intros Rd x; cbv beta; repeat tame_step. Qed.

(** Loads and stores of the floating-point unit *)
Lemma ext_tame n : tame_ (ext n).
Proof. apply on_cpu_tame, ext_reg_tame. exact _. Qed.
Lemma set_ext_tame n v : tame_ (set_ext n v).
Proof. apply on_cpu_tame, set_ext_reg_tame. exact _. Qed.
Local Hint Resolve ext_tame set_ext_tame : tame.
Lemma store_ext_tame a d addr : tame_ (store_ext a d addr).
Proof. unfold store_ext. repeat tame_step. Qed.
Lemma load_ext_tame a d addr : tame_ (load_ext a d addr).
Proof. unfold load_ext. repeat tame_step. Qed.
Lemma each_ext_tame f single n d addr : (forall a d addr, tame_ (f a d addr)) -> tame_ (each_ext f single n d addr).
Proof. intros Hf. revert d addr. induction n as [|n IH]; intros d addr; cbn [each_ext]; repeat tame_step; done. Qed.
Lemma vldr_base_tame n : tame_ (vldr_base n).
Proof. unfold vldr_base. repeat tame_step. Qed.
Local Hint Resolve store_ext_tame load_ext_tame each_ext_tame vldr_base_tame : tame.
Lemma vfp_multiple_tame f single add wback d n imm32 regs : (forall a d addr, tame_ (f a d addr)) -> tame_ (vfp_multiple f single add wback d n imm32 regs).
Proof. intros Hf. unfold vfp_multiple. cbv zeta. repeat tame_step. Qed.
Local Hint Resolve vfp_multiple_tame : tame.
Lemma vfp_memory_tame : m_handlers_tame [
  (sizeof_vstr_inst, VSTR_INST); (sizeof_vpush_inst, VPUSH_INST); (sizeof_vpop_inst, VPOP_INST); (sizeof_vldr_inst, VLDR_INST);
  (sizeof_vldm_inst, VLDM_INST); (sizeof_vstm_inst, VSTM_INST)].
Proof.
  each_m_handler.
  1-5: apply m_conditional_tame; repeat (tame_step || apply m_simply_tame).
  unfold VSTM_INST. repeat tame_step.
Qed.

(** All instructions but RFE (33) and SWI (195) *)
Ltac take_all Hs := repeat (apply Forall_cons in Hs as [? Hs]).
Lemma table_tame : Forall2 (fun p h => p.1 <> 33%nat -> p.1 <> 195%nat -> forall i, tame RM (goes_on p.2) (h i))
  (zip (seq 0 202) inst_sizes) InstLabel.
Proof.
  pose proof (data_tame R) as H1'. pose proof (media_tame R) as H2'. pose proof (branches_tame R) as H3'. pose proof (thumb_branches_tame R) as H4'.
  pose proof (status_tame R) as H5'. pose proof (coprocessor_tame R) as H6'. pose proof single_tame as H7'. pose proof word_tame as H8'. pose proof double_tame as H11'.
  pose proof multiple_tame as H9'. pose proof exclusive_tame as H10'. pose proof (vfp_ops_tame R) as H12'. pose proof (vfp_moves_tame R) as H13'. pose proof vfp_memory_tame as H14'.
  take_all H1'. take_all H2'. take_all H3'. take_all H4'. take_all H5'. take_all H6'. take_all H7'. take_all H8'. take_all H9'. take_all H10'. take_all H11'.
  take_all H12'. take_all H13'. take_all H14'.
  cbn [fst snd] in *. unfold InstLabel, inst_sizes. cbn [zip zip_with seq].
  repeat (apply List.Forall2_cons; [intros Hn1 Hn2 i; cbn [fst snd] in Hn1, Hn2 |- *;
    first [done|match goal with Ht : forall i, tame RM _ (?h i) |- tame _ _ (?h _) => apply Ht end|apply on_cpu_tame; match goal with Ht : forall i, tame R _ (?h i) |- tame _ _ (?h _) => apply Ht end]|]).
  constructor.
Qed.
End Machine.

(** The handler of an instruction that is neither RFE nor SWI keeps the relation, and goes
    to the next instruction by the size of its own. *)
Definition inst_size (index : Z) : Z := nth (Z.to_nat index) inst_sizes 0.
Definition RFE_INDEX : Z := 33.
Definition SWI_INDEX : Z := 195.
Section Table.
Context {D W : Type} `{Host} `{Devices D} `{Kernel D W} `{Translator}.
Lemma handler_tame R RM `{!MachinePrims R RM} (index : Z) (h : arm_inst -> Prelude.M (Machine D W) next) i :
  InstLabel !! Z.to_nat index = Some h -> 0 <= index -> index <> RFE_INDEX -> index <> SWI_INDEX -> tame RM (goes_on (inst_size index)) (h i).
Proof.
  intros Hh Hi Hn1 Hn2. pose proof (Forall2_lookup_r _ _ _ (Z.to_nat index) h (table_tame R RM) Hh) as ([k l] & Hz & Ht).
  apply lookup_zip_Some in Hz as [Hk Hl]. apply lookup_seq in Hk as [-> Hlt]. cbn [fst snd] in Ht.
  unfold inst_size. rewrite (nth_lookup_Some _ _ _ _ Hl). apply Ht; unfold RFE_INDEX, SWI_INDEX in *; lia.
Qed.
Lemma translated_size (index : Z) f inst t : arm_instruction_trans !! Z.to_nat index = Some f ->
  wlp (f inst index) (fun start t' => start = trans_cache_buf_top t /\ trans_cache_buf_top t' = start + sizeof_arm_inst + inst_size index /\
    (exists i, trans_cache_buf t' !! start = Some i /\ idx i = index) /\
    (forall p, p < start -> trans_cache_buf t' !! p = trans_cache_buf t !! p)) t.
Proof.
  intros Hf. pose proof (Forall2_lookup_r _ _ _ (Z.to_nat index) f table_allocates Hf) as (l & Hl & Ht).
  unfold inst_size. rewrite (nth_lookup_Some _ _ _ _ Hl). apply Ht.
Qed.
(** RFE and SWI, where the relation holds of what they do *)
Definition account (m : Machine D W) : Machine D W :=
  let n := num_instrs m in
  m <| world ::= AddTicks n |> <| cpu ::= fun s => s <| NumInstrsToExecute ::= fun t => if t <=? n then 0 else t - n |> |> <| num_instrs := 0 |>.
Class AllPrims (R : ARMul_State -> ARMul_State -> Prop) (RM : Machine D W -> Machine D W -> Prop) : Prop := {
  all_machine :: MachinePrims R RM;
  all_Cpsr s c : R s (s <| Cpsr := c |>);
  all_account m : RM m (account m);
  all_kernel n : tame RM (fun _ => True) (call_kernel n);
}.
Section All.
Context (R : ARMul_State -> ARMul_State -> Prop) (RM : Machine D W -> Machine D W -> Prop) `{!AllPrims R RM}.
Lemma RFE_tame l i : tame RM (goes_on l) (RFE_INST i).
Proof.
  unfold RFE_INST. destruct (component i); try (apply tame_crash; discriminate).
  apply tame_seq; [exact _|by apply (m_get_addr_tame R RM)|]. intros a. apply tame_seq; [exact _|by apply (ReadMemory_tame R RM)|]. intros v.
  apply tame_seq; [exact _|apply (change_tame' R RM); intros s; eapply all_Cpsr|]. intros _.
  apply tame_seq; [exact _|by apply (ReadMemory_tame R RM)|]. intros w. apply tame_seq; [exact _|by apply (set_reg_tame R RM)|]. intros _. by apply tame_ret; [exact _|].
Qed.
Lemma SWI_tame i : tame RM (goes_on sizeof_swi_inst) (SWI_INST i).
Proof.
  apply (m_conditional_tame R RM). destruct (component i); try (apply tame_crash; discriminate).
  change (tame RM goes_off ((fun m => Ret (tt, account m)) ≫= fun _ : unit =>
    call_kernel (Z.land num 0xFFFF) ≫= fun _ => m_simply (change UnsetExclusiveMemoryAddress))).
  apply tame_seq; [exact _| |].
  - intros m. split; [apply all_account|done].
  - intros _. apply tame_seq; [exact _|apply all_kernel|]. intros _. apply (m_simply_tame R RM), (change_unset_tame R RM). all: exact _.
Qed.
Lemma all_tame (index : Z) (h : arm_inst -> Prelude.M (Machine D W) next) i :
  InstLabel !! Z.to_nat index = Some h -> 0 <= index -> tame RM (goes_on (inst_size index)) (h i).
Proof.
  intros Hh Hi. destruct (decide (index = RFE_INDEX)) as [->|Hn1]; [injection Hh as <-; apply RFE_tame|].
  destruct (decide (index = SWI_INDEX)) as [->|Hn2]; [injection Hh as <-; apply SWI_tame|]. by apply (handler_tame R RM).
Qed.
End All.
(** The handler that [execute] calls, in the states where it is called *)
Lemma execute_keeps (RM : Machine D W -> Machine D W -> Prop) ptr m i h : PreOrder RM ->
  trans_cache_buf (trans_cache m) !! ptr = Some i -> InstLabel !! Z.to_nat (idx i) = Some h ->
  wlp (h i) (fun _ => RM m) m -> wlp (execute ptr) (fun _ => RM m) m.
Proof.
  intros Ho Hi Hh Hk. unfold execute, inst_at. do 6 wlp_step. simplify_eq. wlp_step.
  eapply wlp_mono; [done|]. cbn beta. intros [l| |] m' Hm'; repeat wlp_step; done.
Qed.
End Table.
