(* ===== verification/Cheats.v ===== *)
(** Cheat codes (src/.../core/cheats/gateway_cheat.cpp, cheats.cpp): a small language of
    conditions, loops and writes to memory, its files, and the engine that runs the cheats
    that are enabled. *)

From S2P Require Import Prelude MemoryMap Memory MemoryAccess ArmSupp ArmSteady ArmKeeps.
From Stdlib Require Import Ascii.

(** ** Text

    A [std::string] is a list of characters. *)

Abbreviation str := (list ascii).
Definition text (s : String.string) : str := String.list_ascii_of_string s.
Definition newline : ascii := "010".
Definition nul : ascii := "000".
Definition code (c : ascii) : Z := Z.of_N (N_of_ascii c).
(** [str.find_first_not_of(" \t\r\n")] and its like stop at these. *)
Definition is_blank (c : ascii) : bool := (code c =? 32) || (code c =? 9) || (code c =? 13) || (code c =? 10).
Fixpoint drop_while {A} (p : A -> bool) (l : list A) : list A :=
  match l with [] => [] | x :: l' => if p x then drop_while p l' else l end.
Definition StripSpaces (s : str) : str := rev (drop_while is_blank (rev (drop_while is_blank s))).
(** What [std::getline] reads, line by line, until the end of the file is reached *)
Fixpoint lines_of (s : str) : list str :=
  match s with
  | [] => [[]]
  | c :: s' =>
      if Ascii.eqb c newline then [] :: lines_of s'
      else match lines_of s' with l :: ls => (c :: l) :: ls | [] => [[c]] end
  end.
(** [SplitString(str, '\n')]: there is no line after the last newline. *)
Definition SplitString (s : str) : list str :=
  let ls := lines_of s in if bool_decide (last ls = Some []) then removelast ls else ls.

(** [strtol] with base 16: blanks, a sign, a prefix, and the digits up to the first other
    character; [None] when there is no digit *)
Definition is_space (c : ascii) : bool := (code c =? 32) || ((9 <=? code c) && (code c <=? 13)).
Definition hex_digit (c : ascii) : option Z :=
  let n := code c in
  if (48 <=? n) && (n <=? 57) then Some (n - 48)
  else if (97 <=? n) && (n <=? 102) then Some (n - 87)
  else if (65 <=? n) && (n <=? 70) then Some (n - 55)
  else None.
Fixpoint hex_digits (s : str) (acc : Z) : Z :=
  match s with
  | [] => acc
  | c :: s' => match hex_digit c with Some d => hex_digits s' (acc * 16 + d) | None => acc end
  end.
Definition hex_prefix (s : str) : str :=
  match s with
  | z :: x :: c :: s' => if (code z =? 48) && ((code x =? 120) || (code x =? 88)) && bool_decide (is_Some (hex_digit c)) then c :: s' else s
  | _ => s
  end.
Definition strtol (s : str) : option Z :=
  let s := drop_while is_space s in
  let '(negative, s) := match s with c :: s' => if code c =? 45 then (true, s') else if code c =? 43 then (false, s') else (false, s) | [] => (false, s) end in
  match hex_prefix s with
  | c :: s' => if bool_decide (is_Some (hex_digit c)) then Some (if negative then - hex_digits (c :: s') 0 else hex_digits (c :: s') 0) else None
  | [] => None
  end.
(** [std::stoi] throws when the number is not an [int]; eight digits always fit [unsigned long]. *)
Definition stoi (s : str) : option Z :=
  match strtol s with Some v => if (-2147483648 <=? v) && (v <? 2147483648) then Some v else None | None => None end.
Definition stoul (s : str) : option Z := u64 <$> strtol s.
Definition substr (pos n : nat) (s : str) : str := take n (drop pos s).

(** ** Lines of a cheat *)

(** [enum class CheatType]: the cast from [int] accepts every number. *)
Module CheatType.
Definition Null : Z := -1.
Definition Write32 : Z := 0x00.
Definition Write16 : Z := 0x01.
Definition Write8 : Z := 0x02.
Definition GreaterThan32 : Z := 0x03.
Definition LessThan32 : Z := 0x04.
Definition EqualTo32 : Z := 0x05.
Definition NotEqualTo32 : Z := 0x06.
Definition GreaterThan16WithMask : Z := 0x07.
Definition LessThan16WithMask : Z := 0x08.
Definition EqualTo16WithMask : Z := 0x09.
Definition NotEqualTo16WithMask : Z := 0x0A.
Definition LoadOffset : Z := 0x0B.
Definition Loop : Z := 0x0C.
Definition Terminator : Z := 0xD0.
Definition LoopExecuteVariant : Z := 0xD1.
Definition FullTerminator : Z := 0xD2.
Definition SetOffset : Z := 0xD3.
Definition AddValue : Z := 0xD4.
Definition SetValue : Z := 0xD5.
Definition IncrementiveWrite32 : Z := 0xD6.
Definition IncrementiveWrite16 : Z := 0xD7.
Definition IncrementiveWrite8 : Z := 0xD8.
Definition Load32 : Z := 0xD9.
Definition Load16 : Z := 0xDA.
Definition Load8 : Z := 0xDB.
Definition AddOffset : Z := 0xDC.
Definition Joker : Z := 0xDD.
Definition Patch : Z := 0xE.
End CheatType.

Record CheatLine := mkCheatLine { type : Z; address : Z; value : Z; first : Z; cheat_line : str; valid : bool }.
(** [CheatLine(line)]; the numbers of a line that is not valid are what the memory held. *)
Definition new_CheatLine (undefined : Z) (line : str) : CheatLine :=
  let invalid address value first := mkCheatLine CheatType.Null address value first line false in
  if negb (length line =? 17)%nat then invalid undefined undefined undefined
  else
    let type_temp := substr 0 1 line in
    let sub_type_temp := if bool_decide (type_temp = text "D") || bool_decide (type_temp = text "d") then substr 1 1 line else [] in
    match stoi (type_temp ++ sub_type_temp) with
    | None => invalid undefined undefined undefined
    | Some type =>
        match stoul (substr 0 8 line) with
        | None => invalid undefined undefined undefined
        | Some first =>
            let first := u32 first in
            let address := Z.land first 0x0FFFFFFF in
            match stoul (substr 9 8 line) with
            | None => invalid address undefined first
            | Some value => mkCheatLine type address (u32 value) first line true
            end
        end
    end.

(** ** Execution *)

Record State := mkState { reg : Z; offset : Z; if_flag : Z; loop_count : Z; loop_back_line : Z; current_line_nr : Z; loop_flag : bool }.
#[export] Instance eta_State : Eta State := fun s =>
  mkState (reg s) (offset s) (if_flag s) (loop_count s) (loop_back_line s) (current_line_nr s) (loop_flag s).
Definition new_State : State := mkState 0 0 0 0 0 0 false.

(** The rest of the system: the caches of the processors, the buttons, the timers *)
Class System (W : Type) := {
  InvalidateCacheRange : Z -> Z -> W -> W;
  pad_state : W -> Z;
  ScheduleEvent : Z -> W -> W;
}.
(** A cheat that is being executed: its local variables, the memory, the rest *)
Record Running (D W : Type) := mkRunning { locals : State; guest : MemorySystem D; system : W }.
Arguments mkRunning {D W}. Arguments locals {D W}. Arguments guest {D W}. Arguments system {D W}.
#[export] Instance eta_Running D W : Eta (Running D W) := fun r => mkRunning (locals r) (guest r) (system r).

Section Execute.
Context {D W : Type} `{Host} `{Devices D} `{System W}.
Abbreviation M := (Prelude.M (Running D W)).

Definition set_state (f : State -> State) : M unit := modify (fun r => r <| locals ::= f |>).
Definition read (n : nat) (addr : Z) : M Z := zoom guest (fun s r => r <| guest := s |>) (Read n addr).
Definition write (n : nat) (addr v : Z) : M unit := zoom guest (fun s r => r <| guest := s |>) (Write n addr v).
Definition invalidate (addr size : Z) : M unit := modify (fun r => r <| system ::= InvalidateCacheRange addr size |>).
(** [static_cast<T>], [sizeof(T) = n] *)
Definition cast (n : nat) (v : Z) : Z := v mod 2 ^ (8 * Z.of_nat n).

Definition WriteOp (n : nat) (line : CheatLine) : M unit :=
  r ← get;
  let addr := u32 (address line + offset (locals r)) in
  val ← read n addr;
  if negb (val =? cast n (value line)) then write n addr (cast n (value line)) ;; invalidate addr (Z.of_nat n) else mret tt.
Definition CompOp (n : nat) (line : CheatLine) (comp : Z -> bool) : M unit :=
  r ← get;
  val ← read n (u32 (address line + offset (locals r)));
  if negb (comp val) then set_state (fun s => s <| if_flag ::= fun f => u32 (f + 1) |>) else mret tt.
Definition LoadOffsetOp (line : CheatLine) : M unit :=
  r ← get;
  v ← read 4 (u32 (address line + offset (locals r)));
  set_state (fun s => s <| offset := v |>).
Definition LoopOp (line : CheatLine) (s : State) : State :=
  s <| loop_flag := loop_count s <? value line |> <| loop_count ::= fun c => u32 (c + 1) |> <| loop_back_line := current_line_nr s |>.
Definition TerminateOp (s : State) : State := if 0 <? if_flag s then s <| if_flag ::= fun f => f - 1 |> else s.
Definition LoopExecuteVariantOp (s : State) : State :=
  if loop_flag s then s <| current_line_nr := u64 (loop_back_line s - 1) |> else s <| loop_count := 0 |>.
Definition FullTerminateOp (s : State) : State :=
  if loop_flag s then s <| current_line_nr := u64 (loop_back_line s - 1) |>
  else s <| offset := 0 |> <| reg := 0 |> <| loop_count := 0 |> <| if_flag := 0 |> <| loop_flag := false |>.
Definition SetOffsetOp (line : CheatLine) (s : State) : State := s <| offset := value line |>.
Definition AddValueOp (line : CheatLine) (s : State) : State := s <| reg ::= fun v => u32 (v + value line) |>.
Definition SetValueOp (line : CheatLine) (s : State) : State := s <| reg := value line |>.
Definition IncrementiveWriteOp (n : nat) (line : CheatLine) : M unit :=
  r ← get;
  let addr := u32 (value line + offset (locals r)) in
  let v := cast n (reg (locals r)) in
  val ← read n addr;
  (if negb (val =? v) then write n addr v ;; invalidate addr (Z.of_nat n) else mret tt) ;;
  set_state (fun s => s <| offset ::= fun o => u32 (o + Z.of_nat n) |>).
Definition LoadOp (n : nat) (line : CheatLine) : M unit :=
  r ← get;
  v ← read n (u32 (value line + offset (locals r)));
  set_state (fun s => s <| reg := v |>).
Definition AddOffsetOp (line : CheatLine) (s : State) : State := s <| offset ::= fun o => u32 (o + value line) |>.
Definition JokerOp (line : CheatLine) : M unit :=
  r ← get;
  if negb (Z.land (pad_state (system r)) (value line) =? value line) then set_state (fun s => s <| if_flag ::= fun f => u32 (f + 1) |>) else mret tt.

(** [cheat_lines[state.current_line_nr]], one of its two words: a patch that is longer than the
    cheat reads past the end. *)
Definition patch_word (cheat_lines : list CheatLine) (first_ : bool) : M Z :=
  r ← get;
  line ← deref (cheat_lines !! Z.to_nat (current_line_nr (locals r)));
  mret (if first_ then first line else value line).
Definition next_line (s : State) : State := s <| current_line_nr ::= fun n => u64 (n + 1) |>.
(** [while (num_bytes >= 4)], [n] times; the end gives the address and which word is next. *)
Fixpoint patch_words (cheat_lines : list CheatLine) (n : nat) (num_bytes addr : Z) (first_ : bool) : M (Z * bool) :=
  match n with
  | O => mret (addr, first_)
  | S n =>
      tmp ← patch_word cheat_lines first_;
      (if negb first_ && (4 <? num_bytes) then set_state next_line else mret tt) ;;
      write 4 addr tmp ;;
      patch_words cheat_lines n (num_bytes - 4) (u32 (addr + 4)) (negb first_)
  end.
(** [while (num_bytes > 0)] *)
Fixpoint patch_bytes (cheat_lines : list CheatLine) (n : nat) (addr : Z) (first_ : bool) (bit_offset : Z) : M unit :=
  match n with
  | O => mret tt
  | S n =>
      tmp ← patch_word cheat_lines first_;
      write 1 addr (u8 (Z.shiftr tmp bit_offset)) ;;
      patch_bytes cheat_lines n (u32 (addr + 1)) first_ (bit_offset + 8)
  end.
Definition PatchOp (line : CheatLine) (cheat_lines : list CheatLine) : M unit :=
  r ← get;
  if 0 <? if_flag (locals r) then set_state (fun s => s <| current_line_nr ::= fun n => u64 (n + (value line + 7) / 8) |>)
  else
    let num_bytes := value line in
    let addr := u32 (address line + offset (locals r)) in
    invalidate addr num_bytes ;;
    (if 0 <? num_bytes then set_state next_line else mret tt) ;;
    '(addr, first_) ← patch_words cheat_lines (Z.to_nat (num_bytes / 4)) num_bytes addr true;
    patch_bytes cheat_lines (Z.to_nat (num_bytes mod 4)) addr first_ 0.

Definition is_condition (type : Z) : bool :=
  bool_decide (type ∈ [CheatType.GreaterThan32; CheatType.LessThan32; CheatType.EqualTo32; CheatType.NotEqualTo32;
    CheatType.GreaterThan16WithMask; CheatType.LessThan16WithMask; CheatType.EqualTo16WithMask; CheatType.NotEqualTo16WithMask; CheatType.Joker]).
(** The first switch: a line while a condition does not hold *)
Definition skip_line (cheat_lines : list CheatLine) (line : CheatLine) : M unit :=
  if is_condition (type line) then set_state (fun s => s <| if_flag ::= fun f => u32 (f + 1) |>)
  else if type line =? CheatType.Patch then PatchOp line cheat_lines
  else if type line =? CheatType.Terminator then set_state TerminateOp
  else if type line =? CheatType.FullTerminator then set_state FullTerminateOp
  else mret tt.
(** [static_cast<u16>(~line.value >> 16) & val] *)
Definition masked (line : CheatLine) (val : Z) : Z := Z.land (Z.shiftr (not32 (value line)) 16) val.
(** The second switch *)
Definition execute_line (cheat_lines : list CheatLine) (line : CheatLine) : M unit :=
  let t := type line in
  if t =? CheatType.Null then mret tt
  else if t =? CheatType.Write32 then WriteOp 4 line
  else if t =? CheatType.Write16 then WriteOp 2 line
  else if t =? CheatType.Write8 then WriteOp 1 line
  else if t =? CheatType.GreaterThan32 then CompOp 4 line (fun val => val <? value line)
  else if t =? CheatType.LessThan32 then CompOp 4 line (fun val => value line <? val)
  else if t =? CheatType.EqualTo32 then CompOp 4 line (fun val => value line =? val)
  else if t =? CheatType.NotEqualTo32 then CompOp 4 line (fun val => negb (value line =? val))
  else if t =? CheatType.GreaterThan16WithMask then CompOp 2 line (fun val => masked line val <? u16 (value line))
  else if t =? CheatType.LessThan16WithMask then CompOp 2 line (fun val => u16 (value line) <? masked line val)
  else if t =? CheatType.EqualTo16WithMask then CompOp 2 line (fun val => u16 (value line) =? masked line val)
  else if t =? CheatType.NotEqualTo16WithMask then CompOp 2 line (fun val => negb (u16 (value line) =? masked line val))
  else if t =? CheatType.LoadOffset then LoadOffsetOp line
  else if t =? CheatType.Loop then set_state (LoopOp line)
  else if t =? CheatType.Terminator then set_state TerminateOp
  else if t =? CheatType.LoopExecuteVariant then set_state LoopExecuteVariantOp
  else if t =? CheatType.FullTerminator then set_state FullTerminateOp
  else if t =? CheatType.SetOffset then set_state (SetOffsetOp line)
  else if t =? CheatType.AddValue then set_state (AddValueOp line)
  else if t =? CheatType.SetValue then set_state (SetValueOp line)
  else if t =? CheatType.IncrementiveWrite32 then IncrementiveWriteOp 4 line
  else if t =? CheatType.IncrementiveWrite16 then IncrementiveWriteOp 2 line
  else if t =? CheatType.IncrementiveWrite8 then IncrementiveWriteOp 1 line
  else if t =? CheatType.Load32 then LoadOp 4 line
  else if t =? CheatType.Load16 then LoadOp 2 line
  else if t =? CheatType.Load8 then LoadOp 1 line
  else if t =? CheatType.AddOffset then set_state (AddOffsetOp line)
  else if t =? CheatType.Joker then JokerOp line
  else if t =? CheatType.Patch then PatchOp line cheat_lines
  else mret tt.
Definition one_line (cheat_lines : list CheatLine) (line : CheatLine) : M unit :=
  r ← get;
  if 0 <? if_flag (locals r) then skip_line cheat_lines line else execute_line cheat_lines line.
(** The loop of [Execute] *)
Fixpoint execute_loop (fuel : nat) (cheat_lines : list CheatLine) : M unit :=
  match fuel with
  | O => crash OutOfFuel
  | S fuel =>
      r ← get;
      if current_line_nr (locals r) <? Z.of_nat (length cheat_lines) then
        line ← deref (cheat_lines !! Z.to_nat (current_line_nr (locals r)));
        one_line cheat_lines line ;;
        set_state next_line ;;
        execute_loop fuel cheat_lines
      else mret tt
  end.
(** [GatewayCheat::Execute] *)
Definition Execute (fuel : nat) (cheat_lines : list CheatLine) : Prelude.M (MemorySystem D * W) unit := fun '(m, w) =>
  match execute_loop fuel cheat_lines (mkRunning new_State m w) with
  | Ret (_, r) => Ret (tt, (guest r, system r))
  | Crash f => Crash f
  end.
End Execute.

(** ** Cheats and their files *)

(** [GatewayCheat] *)
Record GatewayCheat := mkGatewayCheat { enabled : bool; name : str; cheat_lines : list CheatLine; comments : str }.
#[export] Instance eta_GatewayCheat : Eta GatewayCheat := fun c => mkGatewayCheat (enabled c) (name c) (cheat_lines c) (comments c).
(** [GatewayCheat(name, cheat_lines, comments)] *)
Definition new_GatewayCheat (name : str) (cheat_lines : list CheatLine) (comments : str) : GatewayCheat :=
  mkGatewayCheat false name cheat_lines comments.
(** [GatewayCheat(name, code, comments)] *)
Definition GatewayCheat_of_code (undefined : Z) (name code comments : str) : GatewayCheat :=
  new_GatewayCheat name (new_CheatLine undefined <$> filter (fun line => line <> []) (SplitString code)) comments.
Definition SetEnabled (b : bool) (c : GatewayCheat) : GatewayCheat := c <| enabled := b |>.
Definition GetCode (c : GatewayCheat) : str := mjoin ((fun line => cheat_line line ++ [newline]) <$> cheat_lines c).
Definition EnabledText : str := text "*citra_enabled".
Definition star : ascii := "*".
Definition open_bracket : ascii := "[".
Definition ToString (c : GatewayCheat) : str :=
  (open_bracket :: name c) ++ text "]" ++ [newline] ++
  (if enabled c then EnabledText ++ [newline] else []) ++
  mjoin ((fun line => (star :: line) ++ [newline]) <$> SplitString (comments c)) ++
  GetCode c ++ [newline].

(** The local variables of [LoadFile] *)
Record Loading := mkLoading { cheats : list GatewayCheat; l_comments : str; l_lines : list CheatLine; l_name : str; l_enabled : bool }.
#[export] Instance eta_Loading : Eta Loading := fun l => mkLoading (cheats l) (l_comments l) (l_lines l) (l_name l) (l_enabled l).
Definition push_cheat (l : Loading) : Loading :=
  if bool_decide (l_lines l = []) then l
  else l <| cheats ::= fun cs => cs ++ [SetEnabled (l_enabled l) (new_GatewayCheat (l_name l) (l_lines l) (l_comments l))] |>.
(** One round of its loop; [std::remove] takes the zeros out. *)
Definition clean (line : str) : str := StripSpaces (filter (fun c => c <> nul) line).
Definition load_line (undefined : Z) (l : Loading) (line : str) : Loading :=
  let line := clean line in
  match line with
  | [] => l
  | c :: rest =>
      if Ascii.eqb c open_bracket && (2 <=? length line)%nat then
        let l := if bool_decide (l_lines l = []) then l else (push_cheat l) <| l_enabled := false |> in
        l <| l_name := removelast rest |> <| l_lines := [] |> <| l_comments := [] |>
      else if Ascii.eqb c star then
        if bool_decide (line = EnabledText) then l <| l_enabled := true |> else l <| l_comments ::= fun s => s ++ rest ++ [newline] |>
      else l <| l_lines ::= fun ls => ls ++ [new_CheatLine undefined line] |>
  end.
(** [GatewayCheat::LoadFile], on the contents of the file *)
Definition LoadFile (undefined : Z) (contents : str) : list GatewayCheat :=
  cheats (push_cheat (foldl (load_line undefined) (mkLoading [] [] [] [] false) (lines_of contents))).

(** ** The engine *)

(** [CheatEngine], and the cheats its shared pointers and those of its users point to *)
Record CheatEngine := mkCheatEngine { cheats_list : list positive; objects : gmap positive GatewayCheat }.
#[export] Instance eta_CheatEngine : Eta CheatEngine := fun e => mkCheatEngine (cheats_list e) (objects e).
Definition AddCheat (cheat : positive) (e : CheatEngine) : CheatEngine := e <| cheats_list ::= fun l => l ++ [cheat] |>.
Definition RemoveCheat (index : Z) (e : CheatEngine) : CheatEngine :=
  if (index <? 0) || (Z.of_nat (length (cheats_list e)) <=? index) then e
  else e <| cheats_list ::= fun l => take (Z.to_nat index) l ++ drop (S (Z.to_nat index)) l |>.
Definition UpdateCheat (index : Z) (new_cheat : positive) (e : CheatEngine) : CheatEngine :=
  if (index <? 0) || (Z.of_nat (length (cheats_list e)) <=? index) then e
  else e <| cheats_list ::= <[Z.to_nat index := new_cheat]> |>.
(** [cheat->SetEnabled(enabled)], through any of its pointers *)
Definition enable (cheat : positive) (b : bool) (e : CheatEngine) : CheatEngine := e <| objects ::= alter (SetEnabled b) cheat |>.
(** The text [SaveCheatFile] writes *)
Definition SaveCheatFile (e : CheatEngine) : option str :=
  mjoin <$> mapM (fun cheat => ToString <$> objects e !! cheat) (cheats_list e).
(** The cheats [LoadCheatFile] appends, made at new addresses *)
Fixpoint allocate (cs : list GatewayCheat) (e : CheatEngine) : CheatEngine :=
  match cs with
  | [] => e
  | c :: cs => let p := fresh (dom (objects e)) in allocate cs (AddCheat p (e <| objects ::= <[p := c]> |>))
  end.
Definition LoadCheatFile (undefined : Z) (contents : option str) (e : CheatEngine) : CheatEngine :=
  match contents with None => e | Some contents => allocate (LoadFile undefined contents) e end.

Section Engine.
Context {D W : Type} `{Host} `{Devices D} `{System W}.
Definition run_interval_ticks : Z := 50000000.
Definition run_cheat (fuel : nat) (e : CheatEngine) (cheat : positive) : Prelude.M (MemorySystem D * W) unit :=
  c ← deref (objects e !! cheat);
  if enabled c then Execute fuel (cheat_lines c) else mret tt.
(** [CheatEngine::Connect] *)
Definition Connect : Prelude.M (MemorySystem D * W) unit := modify (fun '(m, w) => (m, ScheduleEvent run_interval_ticks w)).
(** [CheatEngine::RunCallback] *)
Definition RunCallback (fuel : nat) (e : CheatEngine) (cycles_late : Z) : Prelude.M (MemorySystem D * W) unit :=
  for_each (cheats_list e) (run_cheat fuel e) ;;
  modify (fun '(m, w) => (m, ScheduleEvent (s64 (run_interval_ticks - cycles_late)) w)).
End Engine.

(** *** Examples *)

Definition line_of (s : String.string) : CheatLine := new_CheatLine 0 (text s).
Example line_loop : line_of "C0000000 00000005" = mkCheatLine CheatType.Loop 0 5 0xC0000000 (text "C0000000 00000005") true.
Proof. vm_compute. reflexivity. Qed.
Example line_subtype : type (line_of "DD000000 00000001") = CheatType.Joker /\ valid (line_of "DD000000 00000001") = true.
Proof. by vm_compute. Qed.
Example line_bad : type (line_of "X0000000 00000001") = CheatType.Null /\ valid (line_of "00000000 0000001") = false.
Proof. by vm_compute. Qed.
(** The mark of a cheat without lines goes to the next cheat. *)
Example mark_moves : map (fun c => (name c, enabled c)) (LoadFile 0 (mjoin (ToString <$>
    [mkGatewayCheat true (text "A") [] []; mkGatewayCheat false (text "B") [line_of "00000000 00000000"] []]))) = [(text "B", true)].
Proof. by vm_compute. Qed.
(** A comment that says what the mark says is read as the mark. *)
Example comment_is_mark : map (fun c => (enabled c, comments c)) (LoadFile 0 (ToString
    (mkGatewayCheat false (text "A") [line_of "00000000 00000000"] (text "citra_enabled")))) = [(true, [])].
Proof. by vm_compute. Qed.

(** ** Saving and loading *)

Lemma lines_of_line l rest : newline ∉ l -> lines_of (l ++ newline :: rest) = l :: lines_of rest.
Proof.
  induction l as [|c l IH]; intros Hl; simpl; [done|]. apply not_elem_of_cons in Hl as [Hc Hl].
  rewrite (proj2 (Ascii.eqb_neq c newline)) by congruence. by rewrite IH.
Qed.
(** A text of whole lines *)
Definition lines_text (ls : list str) : str := mjoin ((fun l => l ++ [newline]) <$> ls).
Lemma lines_text_app ls ls' : lines_text (ls ++ ls') = lines_text ls ++ lines_text ls'.
Proof. unfold lines_text. by rewrite fmap_app, join_app. Qed.
Lemma lines_of_text ls : Forall (fun l => newline ∉ l) ls -> lines_of (lines_text ls) = ls ++ [[]].
Proof.
  induction 1 as [|l ls Hl _ IH]; [done|]. change (lines_text (l :: ls)) with ((l ++ [newline]) ++ lines_text ls).
  rewrite <- app_assoc. simpl. by rewrite lines_of_line, IH.
Qed.
Lemma lines_of_no_newline s : Forall (fun l => newline ∉ l) (lines_of s).
Proof.
  induction s as [|c s IH]; simpl; [by repeat constructor; apply not_elem_of_nil|]. destruct (Ascii.eqb_spec c newline) as [->|Hc].
  - constructor; [apply not_elem_of_nil|done].
  - destruct IH as [|l ls Hl Hls]; constructor; [|by constructor| |done].
    + by apply not_elem_of_cons; split; [congruence|apply not_elem_of_nil].
    + by apply not_elem_of_cons; split; [congruence|].
Qed.
Lemma SplitString_no_newline s : Forall (fun l => newline ∉ l) (SplitString s).
Proof.
  unfold SplitString. case_bool_decide as Hl; [|apply lines_of_no_newline]. pose proof (lines_of_no_newline s) as H.
  destruct (lines_of s) as [|l ls] eqn:E using rev_ind; [by destruct s|]. rewrite removelast_last. by apply Forall_app in H as [H _].
Qed.

(** The lines of the text of a cheat *)
Definition text_lines (c : GatewayCheat) : list str :=
  [open_bracket :: name c ++ text "]"] ++ (if enabled c then [EnabledText] else []) ++
  (cons star <$> SplitString (comments c)) ++ (cheat_line <$> cheat_lines c) ++ [[]].
Lemma ToString_lines c : ToString c = lines_text (text_lines c).
Proof.
  unfold text_lines. rewrite !lines_text_app. unfold ToString, GetCode, lines_text. rewrite <- !list_fmap_compose.
  simpl. rewrite !app_nil_r, <- !app_assoc. simpl. do 3 f_equal. by destruct (enabled c); simpl; rewrite ?app_nil_r.
Qed.

(** What a file keeps: a line that starts and ends with a visible character *)
Definition plain (s : str) : Prop := (newline ∉ s) /\ (nul ∉ s).
Definition kept (s : str) : Prop := plain s /\ StripSpaces s = s.
Definition is_code (s : str) : Prop :=
  kept s /\ s <> [] /\ hd_error s <> Some star /\ (hd_error s = Some open_bracket -> (length s < 2)%nat).
Record savable (undefined : Z) (c : GatewayCheat) : Prop := {
  savable_lines : cheat_lines c <> [];
  savable_name : plain (name c);
  savable_code : Forall (fun l => l = new_CheatLine undefined (cheat_line l) /\ is_code (cheat_line l)) (cheat_lines c);
  savable_comments : comments c = lines_text (SplitString (comments c));
  savable_comment : Forall (fun l => kept (star :: l) /\ l <> text "citra_enabled") (SplitString (comments c));
}.
Lemma clean_kept s : kept s -> clean s = s.
Proof.
  intros [[_ Hz] Hs]. unfold clean. replace (filter (fun c => c <> nul) s) with s; [done|]. clear Hs.
  induction s as [|c s IH]; [done|]. apply not_elem_of_cons in Hz as [Hc Hz]. rewrite filter_cons_True by congruence. by rewrite <- IH.
Qed.

Lemma kept_nil : kept [].
Proof. repeat split; by apply not_elem_of_nil. Qed.
Lemma drop_while_visible s c : is_blank c = false -> drop_while is_blank (c :: s) = c :: s.
Proof. intros Hc. simpl. by rewrite Hc. Qed.
Lemma kept_between c s c' : plain (c :: s ++ [c']) -> is_blank c = false -> is_blank c' = false -> kept (c :: s ++ [c']).
Proof.
  intros Hp Hc Hc'. split; [done|]. unfold StripSpaces. rewrite drop_while_visible by done.
  assert (E : rev (c :: s ++ [c']) = c' :: rev s ++ [c]) by (simpl; by rewrite rev_app_distr). rewrite E, drop_while_visible by done.
  rewrite <- E. apply rev_involutive.
Qed.
Lemma header_kept c : plain (name c) -> kept (open_bracket :: name c ++ text "]").
Proof.
  intros [Hn Hz]. apply (kept_between open_bracket (name c) "]"%char); [|done..]. split.
  all: rewrite not_elem_of_cons, not_elem_of_app, list_elem_of_singleton; by repeat split.
Qed.
Lemma mark_kept : kept EnabledText.
Proof. split; [split|done]; refine (bool_decide_unpack _ _); by vm_compute. Qed.

Section Load.
Variable undefined : Z.
Abbreviation load_line := (load_line undefined).
Lemma load_header c l : plain (name c) -> load_line l (open_bracket :: name c ++ text "]") =
  mkLoading (cheats (push_cheat l)) [] [] (name c) (if bool_decide (l_lines l = []) then l_enabled l else false).
Proof.
  intros Hn. unfold load_line. rewrite clean_kept by by apply header_kept. rewrite Ascii.eqb_refl.
  rewrite (proj2 (Nat.leb_le 2 _)) by (simpl; rewrite length_app; simpl; lia). cbn [andb]. cbv zeta.
  unfold push_cheat. case_bool_decide as Hl.
  - destruct l. cbn in *. by rewrite removelast_last.
  - destruct l. cbn in *. rewrite removelast_last. cbn. by rewrite ?bool_decide_false by done.
Qed.
Lemma load_mark l : load_line l EnabledText = l <| l_enabled := true |>.
Proof. unfold load_line. rewrite clean_kept by apply mark_kept. done. Qed.
Lemma load_comment l s : kept (star :: s) -> s <> text "citra_enabled" ->
  load_line l (star :: s) = l <| l_comments ::= fun t => t ++ s ++ [newline] |>.
Proof.
  intros Hs Hm. unfold load_line. rewrite clean_kept by done. rewrite (bool_decide_false (star :: s = EnabledText)); [done|]. intros [= E]. by apply Hm.
Qed.
Lemma load_code l s : is_code s -> load_line l s = l <| l_lines ::= fun ls => ls ++ [new_CheatLine undefined s] |>.
Proof.
  intros (Hk & Hn & Hs & Hb). unfold load_line. rewrite clean_kept by done. destruct s as [|c s]; [done|]. cbn in Hs, Hb.
  destruct (Ascii.eqb_spec c star) as [->|_]; [done|]. destruct (Ascii.eqb_spec c open_bracket) as [->|_]; [|done].
  rewrite (proj2 (Nat.leb_gt 2 _)) by (by apply Hb). done.
Qed.
Lemma load_blank l : load_line l [] = l.
Proof. done. Qed.
Lemma load_comments ls l : Forall (fun s => kept (star :: s) /\ s <> text "citra_enabled") ls ->
  foldl load_line l (cons star <$> ls) = l <| l_comments ::= fun t => t ++ lines_text ls |>.
Proof.
  intros H. revert l. induction H as [|s ls [Hk Hm] _ IH]; intros l; simpl.
  - destruct l. unfold lines_text. unfold set_field. cbn. by rewrite app_nil_r.
  - rewrite load_comment by done. rewrite IH. destruct l. unfold lines_text. unfold set_field. cbn. by rewrite <- !app_assoc.
Qed.
Lemma load_codes ls l : Forall (fun s => s = new_CheatLine undefined (cheat_line s) /\ is_code (cheat_line s)) ls ->
  foldl load_line l (cheat_line <$> ls) = l <| l_lines ::= fun t => t ++ ls |>.
Proof.
  intros H. revert l. induction H as [|s ls [Hs Hc] _ IH]; intros l; simpl.
  - destruct l. unfold lines_text. unfold set_field. cbn. by rewrite app_nil_r.
  - rewrite load_code by done. rewrite IH, <- Hs. destruct l. unfold set_field. cbn. by rewrite <- app_assoc.
Qed.
(** Between two cheats *)
Definition at_cheat (l : Loading) : Prop := l_lines l = [] -> l_enabled l = false.
Lemma load_cheat c l : savable undefined c -> at_cheat l ->
  foldl load_line l (text_lines c) = mkLoading (cheats (push_cheat l)) (comments c) (cheat_lines c) (name c) (enabled c).
Proof.
  intros Hc Hl. unfold text_lines. rewrite !foldl_app. cbn [foldl]. rewrite load_header by apply Hc.
  replace (if bool_decide (l_lines l = []) then l_enabled l else false) with false by (case_bool_decide; [symmetry; auto|done]).
  rewrite load_blank. rewrite load_codes by apply Hc. rewrite load_comments by apply Hc. rewrite <- (savable_comments _ _ Hc).
  by destruct (enabled c); cbn [foldl]; rewrite ?load_mark.
Qed.
Lemma load_all cs : Forall (savable undefined) cs -> forall l, at_cheat l ->
  cheats (push_cheat (foldl load_line l (mjoin (text_lines <$> cs)))) = cheats (push_cheat l) ++ cs.
Proof.
  induction 1 as [|c cs Hc _ IH]; intros l Hl; [by rewrite app_nil_r|]. change (mjoin (text_lines <$> c :: cs)) with (text_lines c ++ mjoin (text_lines <$> cs)). rewrite foldl_app, load_cheat by done.
  pose proof (savable_lines _ _ Hc) as Hn. rewrite IH by (by intros ?). unfold push_cheat at 1. cbn. rewrite bool_decide_false by done. cbn.
  rewrite <- app_assoc. by destruct c.
Qed.
Lemma text_lines_plain c : savable undefined c -> Forall (fun l => newline ∉ l) (text_lines c).
Proof.
  intros Hc. unfold text_lines. rewrite !Forall_app, !Forall_singleton, !Forall_fmap. repeat split.
  - apply header_kept, Hc.
  - destruct (enabled c); [|constructor]. apply Forall_singleton, mark_kept.
  - eapply Forall_impl; [apply Hc|]. intros s [Hs _]. apply Hs.
  - eapply Forall_impl; [apply Hc|]. intros s [_ Hs]. apply Hs.
  - apply not_elem_of_nil.
Qed.
Lemma LoadFile_saved cs : Forall (savable undefined) cs -> LoadFile undefined (mjoin (ToString <$> cs)) = cs.
Proof.
  intros H. unfold LoadFile. replace (mjoin (ToString <$> cs)) with (lines_text (mjoin (text_lines <$> cs))).
  - rewrite lines_of_text.
    + rewrite foldl_app. cbn [foldl]. rewrite load_blank. by apply load_all.
    + induction H as [|c cs Hc _ IH]; [constructor|]. apply Forall_app. split; [by apply text_lines_plain|done].
  - clear H. induction cs as [|c cs IH]; [done|]. change (lines_text (text_lines c ++ mjoin (text_lines <$> cs)) = ToString c ++ mjoin (ToString <$> cs)).
    by rewrite lines_text_app, ToString_lines, IH.
Qed.
End Load.

(** The cheats an engine lists *)
Definition listed (e : CheatEngine) : option (list GatewayCheat) := mapM (fun cheat => objects e !! cheat) (cheats_list e).
Lemma listed_iff e cs : listed e = Some cs <-> Forall2 (fun cheat c => objects e !! cheat = Some c) (cheats_list e) cs.
Proof. apply mapM_Some. Qed.
Lemma listed_allocate cs e old : listed e = Some old -> listed (allocate cs e) = Some (old ++ cs).
Proof.
  revert e old. induction cs as [|c cs IH]; intros e old He; [by rewrite app_nil_r|]. rewrite cons_middle, app_assoc. apply IH.
  apply listed_iff. apply listed_iff in He. cbn. apply Forall2_app.
  - eapply Forall2_impl; [exact He|]. intros p c' Hp. cbn. rewrite lookup_insert_ne; [done|]. intros E.
    apply (is_fresh (A := positive) (dom (objects e) : gset positive)). rewrite E. apply elem_of_dom. by exists c'.
  - constructor; [|constructor]. cbn. by rewrite lookup_insert_eq.
Qed.
Lemma save_listed e cs : listed e = Some cs -> SaveCheatFile e = Some (mjoin (ToString <$> cs)).
Proof.
  intros He. apply listed_iff in He. unfold SaveCheatFile. replace (mapM _ _) with (Some (ToString <$> cs)); [done|]. symmetry.
  apply mapM_Some. apply Forall2_fmap_r. eapply Forall2_impl; [exact He|]. intros p c Hp. cbn. by rewrite Hp.
Qed.
Definition example_cheat : GatewayCheat :=
  mkGatewayCheat true (text "Max [gold]") [line_of "DD000000 00000001"; line_of "00300000 000F423F"; line_of "D0000000 00000000"]
    (lines_text [text "Press A"; []; text "while in a shop"]).
#[export] Instance plain_dec s : Decision (plain s).
Proof. unfold plain. apply _. Defined.
#[export] Instance kept_dec s : Decision (kept s).
Proof. unfold kept. apply _. Defined.
Lemma example_savable : savable 0 example_cheat.
Proof.
  split.
  - done.
  - refine (bool_decide_unpack _ _). by vm_compute.
  - repeat (constructor; [split; [reflexivity|split; [refine (bool_decide_unpack _ _); by vm_compute|done]]|]). constructor.
  - by vm_compute.
  - refine (bool_decide_unpack _ _). by vm_compute.
Defined.

(** ** Execution ends

    What an operation does to the variables that decide which line is next *)

(** Only [reg] and [offset] change. *)
Definition frame (s s' : State) : Prop := current_line_nr s' = current_line_nr s /\ loop_back_line s' = loop_back_line s /\
  loop_count s' = loop_count s /\ loop_flag s' = loop_flag s /\ if_flag s' = if_flag s.
(** The same, and another condition that does not hold may be open. *)
Definition opens (s s' : State) : Prop := current_line_nr s' = current_line_nr s /\ loop_back_line s' = loop_back_line s /\
  loop_count s' = loop_count s /\ loop_flag s' = loop_flag s /\ (is_u32 (if_flag s) -> is_u32 (if_flag s')).
(** The line moves on within the cheat of [n] lines. *)
Definition walks (n : Z) (s s' : State) : Prop := 0 <= current_line_nr s <= n ->
  current_line_nr s <= current_line_nr s' <= n /\ loop_back_line s' = loop_back_line s /\
  loop_count s' = loop_count s /\ loop_flag s' = loop_flag s /\ if_flag s' = if_flag s.
(** Relations of the local variables, on the state of a cheat that is being executed *)
Definition of_locals {D W} (R : State -> State -> Prop) (r r' : Running D W) : Prop := R (locals r) (locals r').
#[export] Instance of_locals_preorder {D W} R : PreOrder R -> PreOrder (of_locals (D := D) (W := W) R).
Proof. intros [Hr Ht]. split; [intros r; apply Hr|]. intros r1 r2 r3 H12 H23. by apply (Ht _ (locals r2)). Qed.
#[export] Instance frame_preorder : PreOrder frame.
Proof. split; [by intros s|]. intros s1 s2 s3 (A1 & A2 & A3 & A4 & A5) (B1 & B2 & B3 & B4 & B5). repeat split; congruence. Qed.
#[export] Instance opens_preorder : PreOrder opens.
Proof.
  split; [by intros s|]. intros s1 s2 s3 (A1 & A2 & A3 & A4 & A5) (B1 & B2 & B3 & B4 & B5). do 4 (split; [congruence|]). auto.
Qed.
#[export] Instance walks_preorder n : PreOrder (walks n).
Proof.
  split; [intros s Hs; repeat split; lia|]. intros s1 s2 s3 A B Hs. destruct (A Hs) as (P2 & A2 & A3 & A4 & A5).
  destruct (B ltac:(lia)) as (P3 & B2 & B3 & B4 & B5). repeat split; first [lia|congruence].
Qed.
Lemma frame_opens s s' : frame s s' -> opens s s'.
Proof. intros (A1 & A2 & A3 & A4 & A5). repeat split; try done. all: rewrite A5; unfold is_u32 in *; lia. Qed.
Lemma frame_walks n s s' : frame s s' -> walks n s s'.
Proof. intros (A1 & A2 & A3 & A4 & A5) Hs. repeat split; try done; lia. Qed.

Section Operations.
Context {D W : Type} `{Host} `{Devices D} `{System W}.
Implicit Types r : Running D W.
Abbreviation tame_by R m := (tame (of_locals (D := D) (W := W) R) (fun _ => True) m).

Lemma tame_weaken (R R' : State -> State -> Prop) {A} (m : Prelude.M (Running D W) A) : (forall s s', R s s' -> R' s s') -> tame_by R m -> tame_by R' m.
Proof. intros HR Hm r. specialize (Hm r). destruct (m r) as [[a r']|]; [|done]. split; [apply HR, Hm|done]. Qed.
Lemma read_tame R `{!Reflexive R} k a : tame_by R (read k a).
Proof. eapply (tame_zoom anything); [|apply Read_tame]. intros r t _. by unfold of_locals. Qed.
Lemma write_tame R `{!Reflexive R} k a v : tame_by R (write k a v).
Proof. eapply (tame_zoom anything); [|apply Write_tame]. intros r t _. by unfold of_locals. Qed.
Lemma invalidate_tame R `{!Reflexive R} a k : tame_by R (invalidate a k).
Proof. apply tame_modify. intros r. by unfold of_locals. Qed.
Lemma set_state_tame (R : State -> State -> Prop) f : (forall s, R s (f s)) -> tame_by R (set_state f).
Proof. intros Hf. apply tame_modify. intros r. apply Hf. Qed.
#[local] Hint Extern 1 (tame _ _ (read _ _)) => apply read_tame; exact _ : tame.
#[local] Hint Extern 1 (tame _ _ (write _ _ _)) => apply write_tame; exact _ : tame.
#[local] Hint Extern 1 (tame _ _ (invalidate _ _)) => apply invalidate_tame; exact _ : tame.
Lemma framed_state f : (forall s, frame s (f s)) -> tame_by frame (set_state f).
Proof. apply set_state_tame. Qed.
#[local] Hint Extern 1 (tame (of_locals frame) _ (set_state _)) => apply framed_state; by intros [] : tame.

Lemma WriteOp_frame k line : tame_by frame (WriteOp k line).
Proof. unfold WriteOp. repeat tame_step. Qed.
Lemma LoadOffsetOp_frame line : tame_by frame (LoadOffsetOp line).
Proof. unfold LoadOffsetOp. repeat tame_step. Qed.
Lemma IncrementiveWriteOp_frame k line : tame_by frame (IncrementiveWriteOp k line).
Proof. unfold IncrementiveWriteOp. repeat tame_step. Qed.
Lemma LoadOp_frame k line : tame_by frame (LoadOp k line).
Proof. unfold LoadOp. repeat tame_step. Qed.
Lemma open_if : tame_by opens (set_state (fun s => s <| if_flag ::= fun f => u32 (f + 1) |>)).
Proof. apply set_state_tame. intros s. do 4 (split; [done|]). intros _. apply (Z.mod_pos_bound _ 4294967296). lia. Qed.
#[local] Hint Resolve open_if : tame.
Lemma CompOp_opens k line comp : tame_by opens (CompOp k line comp).
Proof. unfold CompOp. repeat tame_step. Qed.
Lemma JokerOp_opens line : tame_by opens (JokerOp line).
Proof. unfold JokerOp. repeat tame_step. Qed.

(** A patch, line by line *)
Section Patch.
Variable lines : list CheatLine.
Abbreviation n := (Z.of_nat (length lines)).
Hypothesis Hn : n < 2 ^ 62.
Lemma next_line_walks (s : State) : 0 <= current_line_nr s < n -> walks n s (next_line s).
Proof. intros Hs _. unfold next_line, u64. cbn. rewrite Z.mod_small by lia. repeat split; lia. Qed.
(** After a word is read there is a line at the current number. *)
Lemma patch_word_walks (b c : bool) {A} (k' : Z -> Prelude.M (Running D W) A) :
  (forall v, tame_by (walks n) (k' v)) ->
  tame_by (walks n) (v ← patch_word lines b; (if c then set_state next_line else mret tt) ;; k' v).
Proof.
  intros Hk r. unfold patch_word, mbind, M_bind, get. destruct (lines !! Z.to_nat (current_line_nr (locals r))) as [l|] eqn:E; [|done].
  cbn. apply lookup_lt_Some in E. set (v := if b then _ else _). clearbody v. assert (Hw : walks n (locals r) (if c then next_line (locals r) else locals r)).
  { destruct c; [|done]. intros Hs. by apply next_line_walks; [lia|]. }
  assert (Hr : forall r1, locals r1 = (if c then next_line (locals r) else locals r) ->
    match k' v r1 with Ret (a, r') => of_locals (walks n) r r' /\ True | Crash f => f <> OutOfFuel end).
  { intros r1 E1. specialize (Hk v r1). destruct (k' v r1) as [[a r']|]; [|done]. split; [|done]. unfold of_locals in *.
    etrans; [exact Hw|]. rewrite <- E1. apply Hk. }
  destruct c; by apply Hr.
Qed.
Lemma patch_words_walks k : forall num_bytes addr b, tame_by (walks n) (patch_words lines k num_bytes addr b).
Proof.
  induction k as [|k IH]; intros num_bytes addr b; [by apply tame_ret; [exact _|]|]. apply (patch_word_walks b (negb b && (4 <? num_bytes))).
  intros v. repeat first [apply IH|tame_step].
Qed.
Lemma patch_bytes_walks k : forall addr b o, tame_by (walks n) (patch_bytes lines k addr b o).
Proof.
  induction k as [|k IH]; intros addr b o; [by apply tame_ret; [exact _|]|]. cbn [patch_bytes]. unfold patch_word. repeat first [apply IH|tame_step].
Qed.
(** What a patch does that is executed, from a line of the cheat *)
Lemma PatchOp_walks line r : if_flag (locals r) = 0 -> 0 <= current_line_nr (locals r) < n ->
  match PatchOp line lines r with Ret (_, r') => walks n (locals r) (locals r') | Crash f => f <> OutOfFuel end.
Proof.
  intros Hf Hr. unfold PatchOp. unfold mbind at 1, M_bind at 1, get. rewrite Hf. cbn [Z.ltb Z.compare]. cbv zeta.
  set (addr := u32 (address line + offset (locals r))). clearbody addr.
  set (r1 := r <| system ::= InvalidateCacheRange addr (value line) |>).
  change (invalidate addr (value line) ;; ?k) with (fun r => (fun _ => k) tt (r <| system ::= InvalidateCacheRange addr (value line) |>)). cbv beta. fold r1.
  assert (exists r2, (if 0 <? value line then set_state next_line else mret tt) r1 = Ret (tt, r2) /\ walks n (locals r) (locals r2)) as (r2 & E2 & H2).
  { destruct (0 <? value line); eexists; (split; [reflexivity|]); [by apply next_line_walks|by change (locals r1) with (locals r)]. }
  unfold mbind at 1, M_bind at 1. rewrite E2.
  assert (Ht : tame_by (walks n) ('(a, b) ← patch_words lines (Z.to_nat (value line / 4)) (value line) addr true; patch_bytes lines (Z.to_nat (value line mod 4)) a b 0)).
  { apply tame_seq; [exact _|apply patch_words_walks|]. intros [a b']. apply patch_bytes_walks. }
  specialize (Ht r2). destruct ((patch_words _ _ _ _ _ ≫= _) r2) as [[a r3]|]; [|done]. etrans; [exact H2|apply Ht].
Qed.

(** What a line does before the number of the line is counted up *)
Inductive moves (line : CheatLine) (s s' : State) : Prop :=
| moves_on : opens s s' -> (type line = CheatType.Loop -> if_flag s <> 0) ->
    (is_condition (type line) = false -> if_flag s' <= if_flag s) -> moves line s s'
| moves_patch : type line = CheatType.Patch -> current_line_nr s <= current_line_nr s' < 2 ^ 63 -> loop_back_line s' = loop_back_line s ->
    loop_count s' = loop_count s -> loop_flag s' = loop_flag s -> if_flag s' = if_flag s -> moves line s s'
| moves_loop : type line = CheatType.Loop -> if_flag s = 0 -> s' = LoopOp line s -> moves line s s'
| moves_back : type line = CheatType.LoopExecuteVariant /\ if_flag s = 0 \/ type line = CheatType.FullTerminator ->
    loop_flag s = true -> s' = s <| current_line_nr := u64 (loop_back_line s - 1) |> -> moves line s s'
| moves_out : type line <> CheatType.Loop -> current_line_nr s' = current_line_nr s -> loop_back_line s' = loop_back_line s ->
    loop_flag s = false -> loop_flag s' = false -> is_u32 (loop_count s') -> is_u32 (if_flag s') -> if_flag s' <= if_flag s -> moves line s s'.
Definition moving (line : CheatLine) (m : Prelude.M (Running D W) unit) (r : Running D W) : Prop :=
  match m r with Ret (_, r') => moves line (locals r) (locals r') | Crash f => f <> OutOfFuel end.
Lemma moving_frame line m r : (type line = CheatType.Loop -> if_flag (locals r) <> 0) -> tame_by frame m -> moving line m r.
Proof.
  intros Hl Hm. unfold moving. specialize (Hm r). destruct (m r) as [[a r']|]; [|done]. destruct Hm as [Hm _]. apply moves_on; [by apply frame_opens|done|].
  intros _. destruct Hm as (_ & _ & _ & _ & ->). lia.
Qed.
Lemma moving_opens line m r : is_condition (type line) = true -> tame_by opens m -> moving line m r.
Proof.
  intros Hl Hm. unfold moving. specialize (Hm r). destruct (m r) as [[a r']|]; [|done]. destruct Hm as [Hm _].
  apply moves_on; [done| |by rewrite Hl]. intros E. by rewrite E in Hl.
Qed.
Lemma moving_state line f r : moves line (locals r) (f (locals r)) -> moving line (set_state f) r.
Proof. done. Qed.
Lemma frame_stays line f r : (type line = CheatType.Loop -> if_flag (locals r) <> 0) -> (forall s, frame s (f s)) -> moving line (set_state f) r.
Proof. intros Hl Hf. apply moving_frame; [done|]. by apply framed_state. Qed.
Lemma moving_Terminate line r : type line = CheatType.Terminator -> is_u32 (if_flag (locals r)) -> moving line (set_state TerminateOp) r.
Proof.
  intros Ht Hu. apply moving_state. unfold TerminateOp. case_bool; apply moves_on; try (by rewrite Ht); try done.
  all: cbn; try lia. repeat split; try done; unfold is_u32 in *; cbn; lia.
Qed.
Lemma moving_FullTerminate line r : type line = CheatType.FullTerminator -> is_u32 (if_flag (locals r)) -> moving line (set_state FullTerminateOp) r.
Proof.
  intros Ht Hu. apply moving_state. unfold FullTerminateOp. destruct (loop_flag (locals r)) eqn:Hf.
  - apply moves_back; auto.
  - apply moves_out; rewrite ?Ht; try done; unfold is_u32 in *; cbn; lia.
Qed.
Lemma moving_LoopExecuteVariant line r : type line = CheatType.LoopExecuteVariant -> if_flag (locals r) = 0 -> moving line (set_state LoopExecuteVariantOp) r.
Proof.
  intros Ht Hu. apply moving_state. unfold LoopExecuteVariantOp. destruct (loop_flag (locals r)) eqn:Hf.
  - apply moves_back; auto.
  - apply moves_out; rewrite ?Ht; try done; unfold is_u32 in *; cbn; lia.
Qed.
Lemma moving_Patch line r : type line = CheatType.Patch -> is_u32 (value line) -> is_u32 (if_flag (locals r)) -> 0 <= current_line_nr (locals r) < n ->
  moving line (PatchOp line lines) r.
Proof.
  intros Ht Hv Hu Hr. unfold moving. destruct (decide (if_flag (locals r) = 0)) as [E|E].
  - pose proof (PatchOp_walks line r E Hr) as Hw. destruct (PatchOp line lines r) as [[a r']|]; [|done]. destruct (Hw ltac:(lia)) as (A1 & A2 & A3 & A4 & A5).
    apply moves_patch; try done. lia.
  - unfold PatchOp, mbind, M_bind, get. unfold is_u32 in *. rewrite (proj2 (Z.ltb_lt 0 _)) by lia. cbn. apply moves_patch; try done.
    cbn. unfold u64. assert (0 <= (value line + 7) / 8 < 2 ^ 30) by (split; [apply Z.div_pos; lia|apply Z.div_lt_upper_bound; lia]).
    rewrite Z.mod_small by lia. lia.
Qed.
Lemma skip_line_moving line r : is_u32 (value line) -> is_u32 (if_flag (locals r)) -> 0 <= current_line_nr (locals r) < n ->
  0 < if_flag (locals r) -> moving line (skip_line lines line) r.
Proof.
  intros Hv Hu Hr Hf. unfold skip_line. destruct (is_condition (type line)) eqn:Hc; [apply moving_opens; [done|apply open_if]|].
  case_bool; [by apply moving_Patch|]. case_bool; [by apply moving_Terminate|]. case_bool; [by apply moving_FullTerminate|].
  apply moving_frame; [lia|]. apply tame_ret; [exact _|done].
Qed.
#[local] Hint Resolve WriteOp_frame LoadOffsetOp_frame IncrementiveWriteOp_frame LoadOp_frame CompOp_opens JokerOp_opens : tame.
Lemma execute_line_moving line r : is_u32 (value line) -> is_u32 (if_flag (locals r)) -> 0 <= current_line_nr (locals r) < n ->
  if_flag (locals r) = 0 -> moving line (execute_line lines line) r.
Proof.
  intros Hv Hu Hr Hf. unfold execute_line. cbv zeta.
  repeat lazymatch goal with
  | |- moving _ (if ?a =? ?b then ?m else _) _ =>
      destruct (Z.eqb_spec a b) as [E|?];
      [lazymatch m with
       | set_state (LoopOp _) => apply moving_state; by apply moves_loop
       | set_state TerminateOp => by apply moving_Terminate
       | set_state LoopExecuteVariantOp => by apply moving_LoopExecuteVariant
       | set_state FullTerminateOp => by apply moving_FullTerminate
       | PatchOp _ _ => by apply moving_Patch
       | CompOp _ _ _ => apply moving_opens; [by rewrite E|eauto with tame]
       | JokerOp _ => apply moving_opens; [by rewrite E|eauto with tame]
       | mret _ => apply moving_frame; [by rewrite E|apply tame_ret; [exact _|done]]
       | _ => apply moving_frame; [by rewrite E|eauto with tame]
       end|]
  end.
  apply moving_frame; [done|]. apply tame_ret; [exact _|done].
Qed.
Lemma one_line_moving line r : is_u32 (value line) -> is_u32 (if_flag (locals r)) -> 0 <= current_line_nr (locals r) < n ->
  moving line (one_line lines line) r.
Proof.
  intros Hv Hu Hr. unfold moving, one_line, mbind, M_bind, get. case_bool.
  - by apply skip_line_moving.
  - apply execute_line_moving; try done. unfold is_u32 in *. lia.
Qed.
End Patch.
End Operations.

(** *** The measure

    The line of the last loop only moves on; while it stays, the loop counts up; between two
    rounds the lines are passed in order. *)
Section Measure.
Variable lines : list CheatLine.
Abbreviation n := (Z.of_nat (length lines)).
Definition at_start (s : State) : bool := current_line_nr s =? loop_back_line s.
Definition loops_left (s : State) : Z := n - loop_back_line s + Z.b2z (negb (loop_flag s) && at_start s).
Definition rounds_left (s : State) : Z := if loop_flag s then 2 * (2 ^ 32 - loop_count s) + Z.b2z (negb (at_start s)) else 0.
Definition lines_left (s : State) : Z := Z.max 0 (n - current_line_nr s).
Definition rank (s : State) : Z := (loops_left s * 2 ^ 34 + rounds_left s) * (n + 1) + lines_left s.

(** A jump back out of a condition that does not hold needs both kinds of lines. *)
Definition may_stick : bool :=
  existsb (fun l => type l =? CheatType.FullTerminator) lines && existsb (fun l => is_condition (type l)) lines.
Record running (s : State) : Prop := {
  running_line : 0 <= loop_back_line s <= current_line_nr s;
  running_back : loop_back_line s <= n;
  running_count : is_u32 (loop_count s);
  running_if : is_u32 (if_flag s);
  running_loop : loop_flag s = true -> exists l, lines !! Z.to_nat (loop_back_line s) = Some l /\ type l = CheatType.Loop;
  running_open : loop_flag s = true -> current_line_nr s = loop_back_line s -> if_flag s = 0;
  running_free : existsb (fun l => is_condition (type l)) lines = false -> if_flag s = 0;
}.
Hypothesis Hn : n < 2 ^ 62.
Hypothesis Hstick : may_stick = false.
Hypothesis Hvalues : Forall (fun l => is_u32 (value l)) lines.

Lemma rank_less s s' : running s -> running s' ->
  loops_left s' < loops_left s \/ loops_left s' = loops_left s /\ (rounds_left s' < rounds_left s \/
    rounds_left s' = rounds_left s /\ current_line_nr s < n /\ current_line_nr s < current_line_nr s') ->
  rank s' < rank s.
Proof.
  intros Hs Hs' Hless. destruct Hs, Hs'. unfold rank.
  assert (0 <= rounds_left s < 2 ^ 34) by (unfold rounds_left, is_u32 in *; destruct (loop_flag s), (at_start s); simpl; lia).
  assert (0 <= rounds_left s' < 2 ^ 34) by (unfold rounds_left, is_u32 in *; destruct (loop_flag s'), (at_start s'); simpl; lia).
  assert (0 <= lines_left s <= n) by (unfold lines_left; lia). assert (0 <= lines_left s' <= n) by (unfold lines_left; lia).
  destruct Hless as [Hl|(-> & [Hl|(-> & Hc)])]; [nia|nia|]. unfold lines_left. lia.
Qed.
Lemma line_there s : running s -> current_line_nr s < n -> exists l, lines !! Z.to_nat (current_line_nr s) = Some l /\ is_u32 (value l).
Proof.
  intros [] Hc. destruct (lookup_lt_is_Some_2 lines (Z.to_nat (current_line_nr s))) as [l Hl]; [lia|]. exists l. split; [done|].
  by eapply Forall_lookup_1 in Hvalues.
Qed.
Definition advances (s s' : State) : Prop := running s' /\ rank s' < rank s.
(** At the first line of a loop that is not over, that line is next. *)
Lemma at_loop s l : running s -> lines !! Z.to_nat (current_line_nr s) = Some l -> loop_flag s = true -> current_line_nr s = loop_back_line s ->
  type l = CheatType.Loop /\ if_flag s = 0.
Proof.
  intros Hs Hl Hf Hc. destruct (running_loop s Hs Hf) as (l' & Hl' & Ht). rewrite <- Hc, Hl in Hl'. injection Hl' as <-. split; [done|].
  by apply (running_open s Hs).
Qed.
(** A line that is no loop and leaves the loop as it is *)
Lemma advances_on s s' l : running s -> current_line_nr s < n -> lines !! Z.to_nat (current_line_nr s) = Some l ->
  (type l = CheatType.Loop -> if_flag s <> 0) -> current_line_nr s < current_line_nr s' -> loop_back_line s' = loop_back_line s ->
  loop_flag s' = loop_flag s -> (loop_flag s = true -> loop_count s' = loop_count s) -> is_u32 (loop_count s') -> is_u32 (if_flag s') ->
  (is_condition (type l) = false -> if_flag s' <= if_flag s) -> advances s s'.
Proof.
  intros Hs Hc Hl Hno Hp Hb Hf Hlc Hu Hi Hle. assert (Hst : at_start s' = false) by (destruct Hs; unfold at_start; apply Z.eqb_neq; lia).
  assert (Hs' : running s').
  { pose proof Hs as []. split; rewrite ?Hb; try done; try lia.
    - rewrite Hf. done.
    - intros Hno'. assert (is_condition (type l) = false).
      { apply not_true_is_false. intros E. rewrite (proj2 (existsb_exists _ lines)) in Hno'; [done|]. exists l. split; [|done]. apply list_elem_of_In. by eapply list_elem_of_lookup_2. }
      unfold is_u32 in *. specialize (running_free0 Hno'); specialize (Hle ltac:(done)). lia. }
  split; [done|]. apply rank_less; [done..|]. unfold loops_left, rounds_left. rewrite Hb, Hf, Hst. destruct (loop_flag s) eqn:Ef.
  - right. split; [simpl; lia|]. right. rewrite Hlc by done. destruct (at_start s) eqn:Es; [|simpl; lia]. apply Z.eqb_eq in Es.
    destruct (at_loop s l) as [Ht Hz]; try done. by apply Hno in Ht.
  - cbn [negb andb]. destruct (at_start s); simpl; lia.
Qed.
Lemma advances_loop s l : running s -> current_line_nr s < n -> lines !! Z.to_nat (current_line_nr s) = Some l -> is_u32 (value l) ->
  type l = CheatType.Loop -> if_flag s = 0 -> advances s (next_line (LoopOp l s)).
Proof.
  intros Hs Hc Hl Hv Ht Hi. set (s' := next_line (LoopOp l s)).
  assert (Hp : current_line_nr s' = current_line_nr s + 1) by (destruct Hs; cbn; apply Z.mod_small; lia).
  assert (Hb : loop_back_line s' = current_line_nr s) by done. assert (Hf : loop_flag s' = (loop_count s <? value l)) by done.
  assert (Hk : loop_count s' = u32 (loop_count s + 1)) by done. assert (Hi' : if_flag s' = 0) by done. clearbody s'.
  assert (Hst : at_start s' = false) by (unfold at_start; apply Z.eqb_neq; lia).
  assert (Hs' : running s').
  { pose proof Hs as []. split; rewrite ?Hb, ?Hi'; unfold is_u32 in *; try done; try lia.
    - rewrite Hk. apply Z.mod_pos_bound. lia.
    - intros _. by exists l. }
  split; [done|]. apply rank_less; [done..|]. unfold loops_left, rounds_left. rewrite Hb, Hf, Hst, Hk. cbn [negb]. rewrite andb_false_r.
  destruct (at_start s) eqn:Es.
  - apply Z.eqb_eq in Es. destruct (loop_flag s); [|simpl; lia]. right. split; [simpl; lia|]. left. pose proof (running_count s Hs) as Hu. unfold is_u32, u32 in *.
    case_bool; [|simpl; lia]. rewrite Z.mod_small by lia. simpl. lia.
  - apply Z.eqb_neq in Es. left. pose proof (running_line s Hs). destruct (loop_flag s); simpl; lia.
Qed.
Lemma advances_back s l : running s -> current_line_nr s < n -> lines !! Z.to_nat (current_line_nr s) = Some l ->
  type l = CheatType.LoopExecuteVariant /\ if_flag s = 0 \/ type l = CheatType.FullTerminator -> loop_flag s = true ->
  advances s (next_line (s <| current_line_nr := u64 (loop_back_line s - 1) |>)).
Proof.
  intros Hs Hc Hl Ht Hf. assert (Hi : if_flag s = 0).
  { destruct Ht as [[_ Hi]|Ht]; [done|]. apply (running_free s Hs). unfold may_stick in Hstick. apply andb_false_iff in Hstick as [E|E]; [|done].
    rewrite (proj2 (existsb_exists _ lines)) in E; [done|]. exists l. split; [|by apply Z.eqb_eq]. apply list_elem_of_In. by eapply list_elem_of_lookup_2. }
  assert (Es : at_start s = false).
  { apply Z.eqb_neq. intros E. destruct (at_loop s l) as [E' _]; try done. destruct Ht as [[Ht _]|Ht]; by rewrite Ht in E'. }
  set (s' := next_line _). assert (Hp : current_line_nr s' = loop_back_line s).
  { cbn. unfold u64. rewrite Zplus_mod_idemp_l. rewrite Z.sub_add. destruct Hs. apply Z.mod_small. lia. }
  assert (Hb : loop_back_line s' = loop_back_line s) by done. assert (Hf' : loop_flag s' = true) by done.
  assert (Hk : loop_count s' = loop_count s) by done. assert (Hi' : if_flag s' = 0) by done. clearbody s'.
  assert (Hst : at_start s' = true) by (apply Z.eqb_eq; lia).
  assert (Hs' : running s') by (pose proof Hs as []; split; rewrite ?Hb, ?Hi', ?Hk; try done; try lia; auto).
  split; [done|]. apply rank_less; [done..|]. right. unfold loops_left, rounds_left. rewrite Hb, Hf', Hf, Hst, Es, Hk. simpl. lia.
Qed.
Lemma moves_advance s s1 l : running s -> current_line_nr s < n -> lines !! Z.to_nat (current_line_nr s) = Some l -> moves l s s1 ->
  advances s (next_line s1).
Proof.
  intros Hs Hc Hl Hm. assert (Hv : is_u32 (value l)) by (by eapply Forall_lookup_1 in Hvalues).
  assert (Hnext : forall p, 0 <= p < 2 ^ 63 -> u64 (p + 1) = p + 1) by (intros p Hp; apply Z.mod_small; lia). pose proof Hs as [].
  destruct Hm as [(A1 & A2 & A3 & A4 & A5) Hno Hle|Ht Hp A2 A3 A4 A5|Ht Hi ->|Ht Hf ->|Ht A1 A2 Hf Hf' A3 A4 Hle].
  - eapply advances_on; try done; cbn; rewrite ?A1, ?A2, ?A3, ?A4; try done; [rewrite Hnext by lia; lia|by apply A5].
  - eapply advances_on; try done; cbn; rewrite ?A2, ?A3, ?A4, ?A5; try done; [by rewrite Ht|rewrite Hnext by lia; lia].
  - by eapply advances_loop.
  - by eapply advances_back.
  - eapply advances_on; try done; cbn; rewrite ?A1, ?A2, ?Hf, ?Hf'; try done. rewrite Hnext by lia. lia.
Qed.
End Measure.

Section Termination.
Context {D W : Type} `{Host} `{Devices D} `{System W}.
Implicit Types r : Running D W.
Lemma new_State_running lines : running lines new_State.
Proof. split; cbn; unfold is_u32; try done; lia. Qed.
Lemma execute_loop_fuelled lines : Z.of_nat (length lines) < 2 ^ 62 -> may_stick lines = false -> Forall (fun l => is_u32 (value l)) lines ->
  forall fuel r, running lines (locals r) -> rank lines (locals r) < Z.of_nat fuel -> execute_loop fuel lines r <> Crash OutOfFuel.
Proof.
  intros Hn Hm Hv. assert (Hpos : forall s, running lines s -> 0 <= rank lines s).
  { intros s []. unfold rank, loops_left, rounds_left, lines_left, is_u32 in *. apply Z.add_nonneg_nonneg; [|lia].
    apply Z.mul_nonneg_nonneg; [|lia]. destruct (loop_flag s), (at_start s); simpl; lia. }
  induction fuel as [|fuel IH]; intros r Hr Hf; [specialize (Hpos _ Hr); lia|]. cbn [execute_loop]. unfold mbind at 1, M_bind at 1, get.
  case_bool; [|done]. destruct (line_there lines Hv _ Hr) as (l & Hl & Hlv); [done|]. rewrite Hl. unfold deref, mret, M_ret, mbind at 1, M_bind at 1.
  pose proof (one_line_moving lines Hn l r Hlv (running_if _ _ Hr)) as Hmove. unfold moving in Hmove. unfold mbind at 1, M_bind at 1.
  destruct (one_line lines l r) as [[[] r1]|f].
  - destruct (moves_advance lines Hn Hm Hv (locals r) (locals r1) l) as [Hr1 Hk]; try done.
    + apply Hmove. destruct Hr. lia.
    + apply (IH (r1 <| locals ::= next_line |>)); [exact Hr1|]. change (rank lines (next_line (locals r1)) < Z.of_nat fuel). lia.
  - intros [= ->]. apply Hmove; [|done]. destruct Hr. lia.
Qed.
(** The number of lines that are executed at most: each loop goes round fewer than [2 ^ 32]
    times. *)
Definition enough_fuel (lines : list CheatLine) : nat := S (Z.to_nat (rank lines new_State)).
(** C31: a cheat comes to its end, whatever the game has in its memory, if it closes
    its loops with D1, or if it closes them with D2 and has no conditions: loops count up to
    their limit and never go back behind their first line, so that fewer than [2 ^ 34] rounds
    are left for each line, and the engine gets on with the next cheat. *)
Theorem Execute_ends (lines : list CheatLine) (m : MemorySystem D) (w : W) :
  Z.of_nat (length lines) < 2 ^ 62 -> Forall (fun l => is_u32 (value l)) lines -> may_stick lines = false ->
  Execute (enough_fuel lines) lines (m, w) <> Crash OutOfFuel.
Proof.
  intros Hn Hv Hm. unfold Execute. pose proof (execute_loop_fuelled lines Hn Hm Hv (enough_fuel lines) (mkRunning new_State m w) (new_State_running lines)) as He.
  destruct (execute_loop _ lines _) as [[[] r]|f]; [done|]. intros [= ->]. apply He; [|done]. unfold enough_fuel. cbn [locals]. lia.
Qed.
End Termination.

(** *** A cheat that does not end *)

Definition stuck_cheat : list CheatLine :=
  line_of <$> ["C0000000 00000005"; "D0000000 00000000"; "DD000000 00000001"; "D2000000 00000000"]%string.
Section Stuck.
Context {D W : Type} `{Host} `{Devices D} `{System W}.
Variables (m : MemorySystem D) (w : W).
Hypothesis Hkey : Z.land (pad_state w) 1 <> 1.
(** Back at the line of the loop with the condition still open *)
Definition stuck_state : State := mkState 0 0 1 1 0 0 true.
Lemma joker_closed s l : value l = 1 -> JokerOp l (mkRunning (D := D) s m w) = Ret (tt, mkRunning (s <| if_flag ::= fun f => u32 (f + 1) |>) m w).
Proof. intros Hl. unfold JokerOp, mbind, M_bind, get. cbn [system]. rewrite Hl, (proj2 (Z.eqb_neq _ _)) by done. done. Qed.
Lemma execute_next fuel lines s s' l : lines !! Z.to_nat (current_line_nr s) = Some l -> 0 <= current_line_nr s ->
  one_line lines l (mkRunning (D := D) s m w) = Ret (tt, mkRunning s' m w) ->
  execute_loop (S fuel) lines (mkRunning s m w) = execute_loop fuel lines (mkRunning (next_line s') m w).
Proof.
  intros Hl Hs Hone. cbn [execute_loop]. unfold mbind at 1, M_bind at 1, get. cbn [locals]. apply lookup_lt_Some in Hl as Hlt.
  rewrite (proj2 (Z.ltb_lt _ _)) by lia. rewrite Hl. unfold deref, mret, M_ret, mbind at 1, M_bind at 1. unfold mbind at 1, M_bind at 1. by rewrite Hone.
Qed.
(** The four lines, as long as there is fuel *)
Lemma stuck_lines fuel (k : nat) : (k <= 4)%nat -> exists s, execute_loop (k + fuel) stuck_cheat (mkRunning stuck_state m w) =
  execute_loop fuel stuck_cheat (mkRunning s m w) /\ (k = 4%nat -> s = stuck_state).
Proof.
  intros Hk. destruct k as [|[|[|[|[|k]]]]]; [..|lia]; cbn [Nat.add].
  - by eexists.
  - erewrite execute_next; [|reflexivity|done|by vm_compute]. by eexists.
  - do 2 (erewrite execute_next; [|reflexivity|done|by vm_compute]). by eexists.
  - do 2 (erewrite execute_next; [|reflexivity|done|by vm_compute]).
    erewrite execute_next; [|reflexivity|done|by apply (joker_closed _ (line_of "DD000000 00000001"))]. by eexists.
  - do 2 (erewrite execute_next; [|reflexivity|done|by vm_compute]).
    erewrite execute_next; [|reflexivity|done|by apply (joker_closed _ (line_of "DD000000 00000001"))].
    erewrite execute_next; [|reflexivity|done|by vm_compute]. eexists. by split.
Qed.
Lemma stuck fuel : execute_loop fuel stuck_cheat (mkRunning stuck_state m w) = Crash OutOfFuel.
Proof.
  induction fuel as [fuel IH] using lt_wf_ind. destruct (decide (fuel < 4)%nat) as [Hf|Hf].
  - destruct (stuck_lines 0 fuel ltac:(lia)) as (s & E & _). rewrite Nat.add_0_r in E. by rewrite E.
  - destruct (stuck_lines (fuel - 4) 4 ltac:(lia)) as (s & E & Hs). replace (4 + (fuel - 4))%nat with fuel in E by lia.
    rewrite E, Hs by done. apply IH. lia.
Qed.
End Stuck.

(** A loop that is closed by D2 inside of a condition that does not hold goes back to its
    first line with the condition still open: that line is skipped, the round is not counted,
    and the loop is never left; the emulator hangs in [RunCallback]. *)
Theorem full_terminator_hangs {D W} `{Host} `{Devices D} `{System W} (fuel : nat) (m : MemorySystem D) (w : W) :
  Z.land (pad_state w) 1 <> 1 -> Execute fuel stuck_cheat (m, w) = Crash OutOfFuel.
Proof.
  intros Hkey. unfold Execute. replace (execute_loop fuel stuck_cheat (mkRunning new_State m w)) with (Crash (A := unit * Running D W) OutOfFuel); [done|].
  destruct fuel as [|fuel]; [done|]. erewrite execute_next; [|reflexivity|done|by vm_compute].
  destruct fuel as [|fuel]; [done|]. erewrite execute_next; [|reflexivity|done|by vm_compute].
  destruct fuel as [|fuel]; [done|]. erewrite execute_next; [|reflexivity|done|by apply (joker_closed _ _ Hkey _ (line_of "DD000000 00000001"))].
  destruct fuel as [|fuel]; [done|]. erewrite execute_next; [|reflexivity|done|by vm_compute]. symmetry. by apply stuck.
Qed.

(** ** Patches *)

Section Copy.
Context {D W : Type} `{Host} `{Devices D} `{System W}.
Implicit Types r : Running D W.
(** The words of the lines from a line on, and a copy of their first bytes to memory *)
Definition words (ls : list CheatLine) : list Z := ls ≫= fun l => [first l; value l].
Fixpoint copy_words (k : nat) (data : list Z) (addr : Z) : Prelude.M (MemorySystem D) (Z * list Z) :=
  match k with
  | O => mret (addr, data)
  | S k => Write 4 addr (default 0 (head data)) ;; copy_words k (tail data) (u32 (addr + 4))
  end.
Fixpoint copy_bytes (k : nat) (word addr : Z) (i : Z) : Prelude.M (MemorySystem D) unit :=
  match k with
  | O => mret tt
  | S k => Write 1 addr (u8 (Z.shiftr word (8 * i))) ;; copy_bytes k word (u32 (addr + 1)) (i + 1)
  end.
Definition copy (num_bytes : Z) (data : list Z) (addr : Z) : Prelude.M (MemorySystem D) unit :=
  '(a, rest) ← copy_words (Z.to_nat (num_bytes / 4)) data addr;
  copy_bytes (Z.to_nat (num_bytes mod 4)) (default 0 (head rest)) a 0.

Variable lines : list CheatLine.
Abbreviation n := (Z.of_nat (length lines)).
Hypothesis Hn : n < 2 ^ 62.
(** [m] does to the memory what [f] does, and leaves the line [p]. *)
Definition copies {A} (m : Prelude.M (Running D W) A) (f : Prelude.M (MemorySystem D) A) (p : Z) r : Prop :=
  m r = match f (guest r) with Ret (a, g) => Ret (a, r <| guest := g |> <| locals ::= fun s => s <| current_line_nr := p |> |>) | Crash e => Crash e end.
Definition data_at (p : Z) (b : bool) : list Z := let ws := words (drop (Z.to_nat p) lines) in if b then ws else tail ws.
Lemma data_line p l : 0 <= p -> lines !! Z.to_nat p = Some l -> data_at p true = first l :: data_at p false /\ data_at p false = value l :: data_at (p + 1) true.
Proof.
  intros Hp Hl. unfold data_at. rewrite (drop_S _ _ _ Hl). replace (Z.to_nat (p + 1)) with (S (Z.to_nat p)) by lia. done.
Qed.
Lemma read_word b r l : lines !! Z.to_nat (current_line_nr (locals r)) = Some l -> 0 <= current_line_nr (locals r) ->
  patch_word lines b r = Ret (default 0 (head (data_at (current_line_nr (locals r)) b)), r).
Proof.
  intros Hl Hp. destruct (data_line _ _ Hp Hl) as [E1 E2]. unfold patch_word, mbind, M_bind, get. rewrite Hl. cbn. destruct b; by rewrite ?E1, ?E2.
Qed.
Definition moved (p : Z) (g : MemorySystem D) r : Running D W := r <| guest := g |> <| locals ::= fun s => s <| current_line_nr := p |> |>.
Lemma moved_moved p g q g' r : moved q g' (moved p g r) = moved q g' r.
Proof. by destruct r as [[] ? ?]. Qed.
Lemma copies_bind {A B} (m : Prelude.M (Running D W) A) (f : Prelude.M (MemorySystem D) A) (k : A -> Prelude.M (Running D W) B) h p q r :
  copies m f p r -> (forall a g, f (guest r) = Ret (a, g) -> copies (k a) (h a) q (moved p g r)) -> copies (m ≫= k) (f ≫= h) q r.
Proof.
  unfold copies, mbind, M_bind. intros -> Hk. destruct (f (guest r)) as [[a g]|]; [|done]. fold (moved p g r). rewrite (Hk a g) by done.
  change (guest (moved p g r)) with g. destruct (h a g) as [[b g']|]; [|done]. f_equal.
Qed.
Lemma copies_write k a v r : copies (write k a v) (Write k a v) (current_line_nr (locals r)) r.
Proof. unfold copies, write, zoom. destruct (Write k a v (guest r)) as [[? g]|]; [|done]. by destruct r as [[] ? ?]. Qed.
Lemma copies_ret {A} (a : A) r : copies (mret a) (mret a) (current_line_nr (locals r)) r.
Proof. by destruct r as [[] ? ?]. Qed.
(** Reading a word does nothing but give it. *)
Lemma copies_read {A} b r l (k : Z -> Prelude.M (Running D W) A) f p : lines !! Z.to_nat (current_line_nr (locals r)) = Some l -> 0 <= current_line_nr (locals r) ->
  copies (k (default 0 (head (data_at (current_line_nr (locals r)) b)))) f p r -> copies (v ← patch_word lines b; k v) f p r.
Proof. intros Hl Hp Hk. unfold copies, mbind at 1, M_bind at 1. by rewrite (read_word _ _ _ Hl Hp). Qed.
Lemma copies_bytes k : forall addr b i r l, lines !! Z.to_nat (current_line_nr (locals r)) = Some l -> 0 <= current_line_nr (locals r) ->
  copies (patch_bytes lines k addr b (8 * i)) (copy_bytes k (default 0 (head (data_at (current_line_nr (locals r)) b))) addr i) (current_line_nr (locals r)) r.
Proof.
  induction k as [|k IH]; intros addr b i r l Hl Hp; cbn [patch_bytes copy_bytes]; [apply copies_ret|].
  apply (copies_read b r l); [done..|]. eapply copies_bind; [apply copies_write|]. intros [] g _. replace (8 * i + 8) with (8 * (i + 1)) by lia.
  by apply (IH (u32 (addr + 1)) b (i + 1) (moved (current_line_nr (locals r)) g r) l).
Qed.
Lemma copies_assoc {A B C} (m : Prelude.M (Running D W) A) (k : A -> Prelude.M (Running D W) B) (h : B -> Prelude.M (Running D W) C) f p r :
  copies (m ≫= (fun a => k a ≫= h)) f p r -> copies ((m ≫= k) ≫= h) f p r.
Proof. unfold copies, mbind, M_bind. by destruct (m r) as [[a r']|]. Qed.
Lemma copies_next {A} (m : Prelude.M (Running D W) A) f p r : copies m f p (r <| locals ::= next_line |>) -> copies (set_state next_line ;; m) f p r.
Proof. done. Qed.
(** A word is written before what follows. *)
Lemma copies_word {A B} a v (m : Prelude.M (Running D W) A) (h : A -> Prelude.M (Running D W) B) {A'} f (h' : A' -> Prelude.M (MemorySystem D) B) p r :
  (forall g, copies (m ≫= h) (f ≫= h') p (moved (current_line_nr (locals r)) g r)) ->
  copies ((write 4 a v ;; m) ≫= h) ((Write 4 a v ;; f) ≫= h') p r.
Proof.
  intros Hk. assert (E : forall g, ((Write 4 a v ;; f) ≫= h') g = (Write 4 a v ;; (f ≫= h')) g) by (intros g; unfold mbind, M_bind; by destruct (Write 4 a v g) as [[]|]).
  unfold copies. rewrite E. apply copies_assoc. eapply copies_bind; [apply copies_write|]. auto.
Qed.
(** The lines that are passed while [num_bytes] bytes are copied, from the first or the second
    word of a line *)
Definition passed (num_bytes : Z) (b : bool) : Z := if b then (if num_bytes =? 0 then 0 else (num_bytes - 1) / 8) else (num_bytes + 3) / 8.
Lemma copies_rest k : forall num_bytes addr b r, num_bytes / 4 = Z.of_nat k -> 0 <= num_bytes -> 0 <= current_line_nr (locals r) ->
  (0 < num_bytes -> current_line_nr (locals r) + passed num_bytes b < n) ->
  copies ('(a, b) ← patch_words lines k num_bytes addr b; patch_bytes lines (Z.to_nat (num_bytes mod 4)) a b 0)
    ('(a, rest) ← copy_words k (data_at (current_line_nr (locals r)) b) addr; copy_bytes (Z.to_nat (num_bytes mod 4)) (default 0 (head rest)) a 0)
    (current_line_nr (locals r) + passed num_bytes b) r.
Proof.
  induction k as [|k IH]; intros num_bytes addr b r Hk Hnb Hp Hlt.
  - assert (E : passed num_bytes b = 0) by (unfold passed; destruct b; [case_bool|]; word). rewrite E, Z.add_0_r in *.
    destruct (decide (num_bytes = 0)) as [->|Hne]; [apply copies_ret|]. destruct (lookup_lt_is_Some_2 lines (Z.to_nat (current_line_nr (locals r)))) as [l Hl]; [lia|].
    by apply (copies_bytes (Z.to_nat (num_bytes mod 4)) addr b 0 r l).
  - assert (Hm : (num_bytes - 4) mod 4 = num_bytes mod 4) by word. assert (Hd : (num_bytes - 4) / 4 = Z.of_nat k) by word.
    assert (H4 : 4 <= num_bytes) by word. assert (Hpass : 0 <= passed num_bytes b) by (unfold passed; destruct b; [case_bool|]; word).
    destruct (lookup_lt_is_Some_2 lines (Z.to_nat (current_line_nr (locals r)))) as [l Hl]; [lia|].
    destruct (data_line _ _ Hp Hl) as [E1 E2]. set (p := current_line_nr (locals r)) in *.
    assert (Hnext : forall b' p' (r' : Running D W), current_line_nr (locals r') = p' -> 0 <= p' -> p' + passed (num_bytes - 4) b' = p + passed num_bytes b ->
      copies ('(a, b) ← patch_words lines k (num_bytes - 4) (u32 (addr + 4)) b'; patch_bytes lines (Z.to_nat (num_bytes mod 4)) a b 0)
        ('(a, rest) ← copy_words k (data_at p' b') (u32 (addr + 4)); copy_bytes (Z.to_nat (num_bytes mod 4)) (default 0 (head rest)) a 0)
        (p + passed num_bytes b) r').
    { intros b' p' r' Er Hp' E. rewrite <- Hm, <- E. subst p'. apply IH; lia. }
    clear IH. cbn [patch_words copy_words]. apply copies_assoc, (copies_read b r l); [done..|]. fold p. cbv beta. destruct b; cbn [negb andb].
    + rewrite E1. cbn [head tail default]. apply copies_word. intros g. apply (Hnext false p); [done..|]. unfold passed. case_bool; [lia|]. f_equal. f_equal. lia.
    + rewrite E2. cbn [head tail default]. case_bool.
      * apply copies_assoc, copies_next, copies_word. intros g. apply (Hnext true (p + 1)).
        -- assert (p + 1 < 2 ^ 64) by (specialize (Hlt ltac:(lia)); lia). by apply (Z.mod_small (p + 1)); lia.
        -- lia.
        -- unfold passed. case_bool; [lia|]. word.
      * assert (num_bytes = 4) as -> by lia. assert (k = 0)%nat as -> by (change (4 / 4) with 1 in Hk; lia).
        apply copies_assoc. apply (copies_word addr (value l)). intros g. change (p + passed 4 false) with (p + 0). rewrite Z.add_0_r. apply copies_ret.
Qed.
(** The patch code. Executed, it copies as many bytes as it says from the lines
    behind it to memory, the two words of each line in turn, to the address in the line plus
    the offset, after the instruction caches have been told; its last one to three bytes come from
    the word where it stopped. Skipped, because a condition does not hold, it changes nothing
    else. In both cases the next line is the same: the first one behind the data. *)
Theorem PatchOp_spec (line : CheatLine) (r : Running D W) :
  let s := locals r in let behind := current_line_nr s + (value line + 7) / 8 in
  0 <= current_line_nr s -> is_u32 (value line) -> is_u32 (if_flag s) -> behind < n ->
  PatchOp line lines r =
    if 0 <? if_flag s then Ret (tt, r <| locals ::= fun s => s <| current_line_nr := behind |> |>)
    else let addr := u32 (address line + offset s) in
      match copy (value line) (words (drop (S (Z.to_nat (current_line_nr s))) lines)) addr (guest r) with
      | Ret (_, g) => Ret (tt, mkRunning (s <| current_line_nr := behind |>) g (InvalidateCacheRange addr (value line) (system r)))
      | Crash e => Crash e
      end.
Proof.
  intros s behind Hp Hv Hu Hb. assert (0 <= (value line + 7) / 8) by word. assert (Hb' : current_line_nr s + (value line + 7) / 8 < 2 ^ 62) by (unfold behind in Hb; lia). unfold PatchOp. unfold mbind at 1, M_bind at 1, get. fold s. case_bool.
  - unfold set_state, modify. f_equal. f_equal. unfold set_field. f_equal. f_equal. unfold u64. by rewrite Z.mod_small by (fold s; lia).
  - cbv zeta. set (addr := u32 (address line + offset s)). clearbody addr.
    set (r1 := r <| system ::= InvalidateCacheRange addr (value line) |>).
    change (invalidate addr (value line) ;; ?k) with (fun r => (fun _ => k) tt (r <| system ::= InvalidateCacheRange addr (value line) |>)). cbv beta. fold r1.
    set (r2 := if 0 <? value line then r1 <| locals ::= next_line |> else r1).
    assert (E2 : (if 0 <? value line then set_state next_line else mret tt) r1 = Ret (tt, r2)) by (subst r2; by case_bool).
    unfold mbind at 1, M_bind at 1. rewrite E2.
    assert (Hp2 : current_line_nr (locals r2) = if 0 <? value line then current_line_nr s + 1 else current_line_nr s).
    { subst r2. case_bool; [|done]. apply (Z.mod_small (current_line_nr s + 1)). clear Hu. clearbody s. word. }
    destruct (decide (value line = 0)) as [Ev|Ev].
    + assert (behind = current_line_nr s) as -> by (unfold behind; rewrite Ev; apply Z.add_0_r). subst r2 r1. rewrite Ev. subst s. by destruct r as [[] ? ?].
    + rewrite (proj2 (Z.ltb_lt 0 _)) in Hp2 by word. assert (Hend : current_line_nr (locals r2) + passed (value line) true = behind).
      { rewrite Hp2. unfold passed, behind. case_bool; [done|]. clear Hu Hp2. clearbody s. word. }
      pose proof (copies_rest (Z.to_nat (value line / 4)) (value line) addr true r2 ltac:(word) ltac:(word) ltac:(lia) ltac:(lia)) as Hc.
      rewrite Hend in Hc. unfold copies in Hc. etrans; [exact Hc|]. rewrite Hp2. unfold data_at, copy. replace (Z.to_nat (current_line_nr s + 1)) with (S (Z.to_nat (current_line_nr s))) by lia.
      replace (guest r2) with (guest r) by (subst r2; by case_bool). destruct ((copy_words _ _ _ ≫= _) (guest r)) as [[[] g]|]; [|done]. subst r2. by case_bool.
Qed.
End Copy.

(** ** Loops *)

(** A line that only writes to memory, or changes [reg] or [offset] *)
Definition is_plain (t : Z) : bool :=
  negb (is_condition t || bool_decide (t ∈ [CheatType.Loop; CheatType.Terminator; CheatType.LoopExecuteVariant; CheatType.FullTerminator; CheatType.Patch])).
Section Loops.
Context {D W : Type} `{Host} `{Devices D} `{System W}.
Implicit Types r : Running D W.
(** The same registers, at line [p] of a loop *)
Definition placed (p count : Z) (flag : bool) r : Running D W :=
  r <| locals ::= fun s => mkState (reg s) (offset s) 0 count 0 p flag |>.
(** What does not look at the variables of the loop *)
Definition oblivious (m : Prelude.M (Running D W) unit) : Prop := forall p count flag r,
  m (placed p count flag r) = match m r with Ret (_, r') => Ret (tt, placed p count flag r') | Crash e => Crash e end.
Ltac oblivious := intros p count flag r; destruct r as [[] ? ?]; unfold WriteOp, LoadOffsetOp, IncrementiveWriteOp, LoadOp, set_state, read, write, invalidate, zoom, mbind, M_bind, get, modify, mret, M_ret; cbn;
  repeat first [reflexivity | match goal with
    | |- context [Read ?k ?a ?g] => destruct (Read k a g) as [[? ?]|]
    | |- context [Write ?k ?a ?v ?g] => destruct (Write k a v g) as [[? ?]|]
    | |- context [if negb ?b then _ else _] => destruct b
    end; cbn].
Lemma WriteOp_oblivious k l : oblivious (WriteOp k l).
Proof. oblivious. Qed.
Lemma LoadOffsetOp_oblivious l : oblivious (LoadOffsetOp l).
Proof. oblivious. Qed.
Lemma IncrementiveWriteOp_oblivious k l : oblivious (IncrementiveWriteOp k l).
Proof. oblivious. Qed.
Lemma LoadOp_oblivious k l : oblivious (LoadOp k l).
Proof. oblivious. Qed.
#[local] Hint Resolve WriteOp_oblivious LoadOffsetOp_oblivious IncrementiveWriteOp_oblivious LoadOp_oblivious : tame.
Lemma plain_oblivious lines l : is_plain (type l) = true -> oblivious (execute_line lines l).
Proof.
  intros Hl. unfold execute_line. cbv zeta.
  repeat lazymatch goal with
  | |- oblivious (if ?a =? ?b then _ else _) => destruct (Z.eqb_spec a b) as [E|?];
      [try (by rewrite E in Hl); first [by eauto with tame|by intros ? ? ? [[] ? ?]]|]
  end.
  by intros ? ? ? [[] ? ?].
Qed.

(** The lines of a block, once, and [k] times *)
Definition block (lines body : list CheatLine) : Prelude.M (Running D W) unit := for_each body (execute_line lines).
Fixpoint times (k : nat) (m : Prelude.M (Running D W) unit) : Prelude.M (Running D W) unit :=
  match k with O => mret tt | S k => m ;; times k m end.
Lemma placed_line lines p count flag r l f : lines !! p = Some l -> Z.of_nat (length lines) < 2 ^ 62 ->
  execute_loop (S f) lines (placed (Z.of_nat p) count flag r) =
    match execute_line lines l (placed (Z.of_nat p) count flag r) with
    | Ret (_, r') => execute_loop f lines (r' <| locals ::= next_line |>)
    | Crash e => Crash e
    end.
Proof.
  intros Hl Hn. cbn [execute_loop]. unfold mbind at 1, M_bind at 1, get. change (current_line_nr (locals (placed (Z.of_nat p) count flag r))) with (Z.of_nat p).
  apply lookup_lt_Some in Hl as Hlt. rewrite (proj2 (Z.ltb_lt _ _)) by lia. rewrite Nat2Z.id, Hl. unfold deref, mret, M_ret, mbind at 1, M_bind at 1. unfold mbind at 1, M_bind at 1.
  change (one_line lines l (placed (Z.of_nat p) count flag r)) with (execute_line lines l (placed (Z.of_nat p) count flag r)).
  by destruct (execute_line lines l _) as [[[] r']|].
Qed.
Lemma placed_next p count flag r : Z.of_nat p < 2 ^ 62 -> (placed (Z.of_nat p) count flag r) <| locals ::= next_line |> = placed (Z.of_nat (S p)) count flag r.
Proof.
  intros Hp. unfold placed, set_field, next_line, set_field, u64. cbn [locals current_line_nr]. rewrite Z.mod_small by lia. by rewrite Nat2Z.inj_succ.
Qed.
Lemma block_passes lines body : Forall (fun l => is_plain (type l) = true) body -> Z.of_nat (length lines) < 2 ^ 62 ->
  forall pre post count flag r fuel, lines = pre ++ body ++ post ->
  execute_loop (length body + fuel) lines (placed (Z.of_nat (length pre)) count flag r) =
    match block lines body r with
    | Ret (_, r') => execute_loop fuel lines (placed (Z.of_nat (length pre + length body)) count flag r')
    | Crash e => Crash e
    end.
Proof.
  intros Hbody Hn. induction Hbody as [|l body Hl _ IH]; intros pre post count flag r fuel E; [by rewrite Nat.add_0_r|].
  assert (Hlt : (length pre < length lines)%nat) by (rewrite E, !length_app; simpl; lia).
  assert (Hll : lines !! length pre = Some l) by (by rewrite E, lookup_app_r, Nat.sub_diag).
  cbn [length Nat.add]. rewrite (placed_line _ _ _ _ _ l) by done. rewrite plain_oblivious by done. unfold block. cbn [for_each]. unfold mbind, M_bind.
  destruct (execute_line lines l r) as [[[] r1]|]; [|done]. rewrite placed_next by lia.
  specialize (IH (pre ++ [l]) post count flag r1 fuel). rewrite length_app, Nat.add_1_r in IH. rewrite IH by by rewrite <- app_assoc.
  by rewrite Nat.add_succ_r.
Qed.
Lemma loop_line lines l r : type l = CheatType.Loop -> execute_line lines l r = set_state (LoopOp l) r.
Proof. intros Hl. unfold execute_line. by rewrite Hl. Qed.
Lemma end_line lines l r : type l = CheatType.LoopExecuteVariant -> execute_line lines l r = set_state LoopExecuteVariantOp r.
Proof. intros Hl. unfold execute_line. by rewrite Hl. Qed.
Lemma loop_over lines fuel count flag r : execute_loop (S fuel) lines (placed (Z.of_nat (length lines)) count flag r) = Ret (tt, placed (Z.of_nat (length lines)) count flag r).
Proof.
  cbn [execute_loop]. unfold mbind at 1, M_bind at 1, get. change (current_line_nr (locals (placed (Z.of_nat (length lines)) count flag r))) with (Z.of_nat (length lines)).
  by rewrite Z.ltb_irrefl.
Qed.
Section OneLoop.
Variables (l0 l1 : CheatLine) (body : list CheatLine).
Hypothesis Hl0 : type l0 = CheatType.Loop.
Hypothesis Hl1 : type l1 = CheatType.LoopExecuteVariant.
Hypothesis Hbody : Forall (fun l => is_plain (type l) = true) body.
Hypothesis Hvalue : is_u32 (value l0).
Abbreviation lines := (l0 :: body ++ [l1]).
Hypothesis Hn : Z.of_nat (length lines) < 2 ^ 62.
(** One round of the loop *)
Lemma one_round count flag r fuel : 0 <= count < 2 ^ 32 - 1 ->
  execute_loop (length body + 2 + fuel) lines (placed 0 count flag r) =
    match block lines body r with
    | Ret (_, r') => execute_loop fuel lines (if count <? value l0 then placed 0 (count + 1) true r' else placed (Z.of_nat (length lines)) 0 false r')
    | Crash e => Crash e
    end.
Proof.
  intros Hc. replace (length body + 2 + fuel)%nat with (S (length body + S fuel)) by lia. change 0 with (Z.of_nat 0) at 1.
  rewrite (placed_line _ _ _ _ _ l0) by done. rewrite (loop_line _ l0) by done. unfold set_state, modify.
  assert (E1 : ((placed (Z.of_nat 0) count flag r) <| locals ::= LoopOp l0 |>) <| locals ::= next_line |> = placed (Z.of_nat 1) (count + 1) (count <? value l0) r).
  { rewrite <- (placed_next 0) by done. unfold placed, LoopOp, set_field, u32. cbn [locals loop_count]. by rewrite Z.mod_small by lia. }
  rewrite E1, (block_passes lines body Hbody Hn [l0] [l1]) by done. destruct (block lines body r) as [[[] r1]|]; [|done]. cbn [length Nat.add].
  rewrite (placed_line _ _ _ _ _ l1); [|by rewrite lookup_cons, lookup_app_r, Nat.sub_diag|done]. rewrite (end_line _ l1) by done. unfold set_state, modify.
  case_bool.
  - f_equal.
  - change (length (l0 :: body ++ [l1])) with (S (length (body ++ [l1]))) in Hn |- *. rewrite length_app, Nat.add_1_r in Hn |- *.
    by rewrite <- (placed_next (S (length body))) by lia.
Qed.
End OneLoop.
End Loops.

(** ** Witnesses, on a memory of two pages and a system that counts invalidations *)

Section Demo.
#[local] Existing Instance demo_host.
#[local] Existing Instance demo_devices.
#[local] Instance demo_system : System Z := {| InvalidateCacheRange _ _ w := w + 1; pad_state _ := 0; ScheduleEvent _ w := w |}.
(** What the first bytes of the page are after a cheat *)
Definition demo_bytes (n : Z) (cheat : list String.string) : option (list Z) :=
  match Execute 100 (line_of <$> cheat) (demo_access, 0) with
  | Ret (_, (m, _)) => match ReadBlock 0 0x100000 n m with Ret (b, _) => Some b | Crash _ => None end
  | Crash _ => None
  end.
Example writes_once : demo_bytes 4 ["00100000 12345678"%string] = Some [0x78; 0x56; 0x34; 0x12].
Proof. by vm_compute. Qed.
Example loop_of_two : demo_bytes 4 ["D5000000 00000041"; "C0000000 00000002"; "D8000000 00100000"; "D4000000 00000001"; "D1000000 00000000"]%string =
  Some [0x41; 0x42; 0x43; 0].
Proof. by vm_compute. Qed.
Example patch_of_six : demo_bytes 8 ["E0100000 00000006"; "04030201 08070605"; "20100004 000000FF"]%string = Some [1; 2; 3; 4; 0xFF; 6; 0; 0].
Proof. by vm_compute. Qed.
Example condition_not_held : demo_bytes 4 ["50100000 00000001"; "20100000 00000007"; "E0100000 00000004"; "11111111 22222222"; "D0000000 00000000"; "20100001 00000009"]%string =
  Some [0; 9; 0; 0].
Proof. by vm_compute. Qed.
(** The data of a patch is longer than the cheat. *)
Example patch_behind_end : match Execute 100 [line_of "E0100000 00000004"] (demo_access, 0) with Crash e => bool_decide (e = UndefinedBehaviour) | Ret _ => false end = true.
Proof. by vm_compute. Qed.

Lemma Execute_ends_witness : let cheat := line_of <$> ["C0000000 FFFFFFFF"; "50100000 00000000"; "D4000000 00000001"; "D0000000 00000000"; "D1000000 00000000"]%string in
  Execute (enough_fuel cheat) cheat (demo_access, 0) <> Crash OutOfFuel.
Proof.
  apply (Execute_ends (line_of <$> ["C0000000 FFFFFFFF"; "50100000 00000000"; "D4000000 00000001"; "D0000000 00000000"; "D1000000 00000000"]%string) demo_access 0).
  - by vm_compute.
  - repeat (constructor; [by vm_compute|]). constructor.
  - by vm_compute.
Defined.
Lemma PatchOp_spec_witness : let lines := line_of <$> ["E0100000 00000006"; "04030201 08070605"; "20100004 000000FF"]%string in
  PatchOp (line_of "E0100000 00000006") lines (mkRunning new_State demo_access 0) =
    match copy 6 [0x04030201; 0x08070605; 0x20100004; 0xFF] 0x100000 demo_access with
    | Ret (_, g) => Ret (tt, mkRunning (new_State <| current_line_nr := 1 |>) g 1)
    | Crash e => Crash e
    end.
Proof.
  refine (PatchOp_spec (line_of <$> ["E0100000 00000006"; "04030201 08070605"; "20100004 000000FF"]%string) _ (line_of "E0100000 00000006") (mkRunning new_State demo_access 0) _ _ _ _);
    by vm_compute.
Defined.
End Demo.
