(* ===== verification/ArmDemo.v ===== *)
(** A processor with a page of memory and a kernel that records its calls: the machine the
    witnesses of the interpreter run on. *)

From S2P Require Import Prelude MemoryMap Memory MemoryAccess ArmSupp ArmState ArmOperands ArmDecode ArmThumb ArmTrans ArmMachine ArmLoop.
#[local] Existing Instance demo_host.
#[local] Existing Instance demo_devices.

Definition demo_translator : Translator := {| indeterminate := 0 |}.
Definition demo_kernel : Kernel unit (list Z) := {|
  CallSVC n := fun '(c, m, t, w) => Ret (c, m, t, n :: w); AddTicks n w := w; GetDowncount w := 100 |}.
#[local] Existing Instance demo_translator.
#[local] Existing Instance demo_kernel.

(** The page of the address 0x100000, in FCRAM, with a program in it *)
Definition demo_table : PageTable := set_pointer 0x100 (Some (FcramMem, 0x5000)) (set_attribute 0x100 MemoryPage new_PageTable).
Definition demo_memory (program : list Z) : MemorySystem unit :=
  mkMemorySystem (fun b i => if bool_decide (b = FcramMem) then default 0 (program !! Z.to_nat (i - 0x5000)) else 0)
    {[ 0 := demo_table ]} (Some 0) ∅ [0] true 0 [] tt.
Definition demo_cpu : ARMul_State := (new_ARMul_State 0 USER32MODE) <| Reg ::= <[15%nat := 0x100000]> |>.
Definition demo_machine (program : list Z) : Machine unit (list Z) :=
  mkMachine demo_cpu (demo_memory program) (mkTransCache ∅ 0) 0 [].
(** A program of ARM instructions, run for [n] instructions *)
Definition demo_run (fuel : nat) (n : Z) (program : list Z) : option (Machine unit (list Z)) :=
  match ExecuteInstructions fuel n (demo_machine (program ≫= le_encode 4)) with Ret (_, m) => Some m | Crash _ => None end.
