(* ===== verification/ArmUser.v ===== *)
(** User mode: what no instruction of a program can change. *)

From S2P Require Import Prelude ArmSupp ArmState ArmOperands ArmDecode ArmTrans ArmData ArmMedia ArmSystem ArmMachine VfpHelper VfpInstr ArmLoop ArmSteady ArmKeeps ArmDemo MemoryMap Memory MemoryAccess.

(** ** Bits of the status register *)

Lemma land_not32 m k : 0 <= k < 2 ^ 32 -> Z.land m k = 0 -> Z.land (not32 m) k = k.
Proof.
  intros Hk Hm. apply Z.bits_inj'. intros i Hi. pose proof (f_equal (fun z => Z.testbit z i) Hm) as E.
  cbv beta in E. rewrite Z.land_spec, Z.bits_0 in E. unfold not32. rewrite Z.land_spec, Z.lxor_spec. destruct (Z.testbit k i) eqn:Ek; [|by rewrite andb_false_r].
  rewrite andb_true_r in E. rewrite E. change 0xFFFFFFFF with (Z.ones 32). rewrite Z.ones_spec_low; [done|].
  destruct (Z.lt_ge_cases i 32); [lia|]. rewrite (proj1 (Z.bounded_iff_bits_nonneg 32 k ltac:(lia) ltac:(lia))) in Ek by lia. done.
Qed.
(** Bits [k], where those of [m] are set from [v] *)
Lemma other_bits c v m k : 0 <= k < 2 ^ 32 -> Z.land m k = 0 -> Z.land (Z.lor (Z.land c (not32 m)) (Z.land v m)) k = Z.land c k.
Proof.
  intros Hk Hm. rewrite Z.land_lor_distr_l, <- !Z.land_assoc. rewrite Hm, land_not32 by done. by rewrite Z.land_0_r, Z.lor_0_r.
Qed.
Lemma lor_other a b k : Z.land b k = 0 -> Z.land (Z.lor a b) k = Z.land a k.
Proof. intros Hb. by rewrite Z.land_lor_distr_l, Hb, Z.lor_0_r. Qed.
Lemma land_other a b k : Z.land b k = k -> Z.land (Z.land a b) k = Z.land a k.
Proof. intros Hb. by rewrite <- Z.land_assoc, Hb. Qed.
(** A shifted flag has no low bit. *)
Lemma shifted_low f n k : 0 <= n -> 0 <= k < 2 ^ n -> n < 32 -> Z.land (u32 (Z.shiftl f n)) k = 0.
Proof.
  intros Hn Hk Hn32. apply Z.bits_inj'. intros i Hi. rewrite Z.land_spec, Z.bits_0. unfold u32. change 4294967296 with (2 ^ 32).
  destruct (Z.lt_ge_cases i n).
  - rewrite Z.mod_pow2_bits_low by lia. by rewrite Z.shiftl_spec_low by lia.
  - rewrite (proj1 (Z.bounded_iff_bits_nonneg n k Hn ltac:(lia)) ltac:(lia) i) by lia. by rewrite andb_false_r.
Qed.

(** ** User mode *)

Definition user (s : ARMul_State) : Prop := Mode s = USER32MODE /\ Z.land (Cpsr s) 0x1F = USER32MODE /\ is_bit (TFlag s).
(** The registers of other modes, and the mode and interrupt bits of the status register *)
Definition privileged (s : ARMul_State) :=
  (Reg_usr s, Reg_svc s, Reg_abort s, Reg_undef s, Reg_irq s, Reg_firq s, Spsr s, Spsr_copy s, Mode s, Bank s, Z.land (Cpsr s) 0x1DF).
(** The registers of coprocessor 15 that user mode may write *)
Definition user_cp15 : list nat := [CP15_FLUSH_PREFETCH_BUFFER; CP15_DATA_SYNC_BARRIER; CP15_DATA_MEMORY_BARRIER; CP15_THREAD_UPRW].
Definition same_privileged (s s' : ARMul_State) : Prop :=
  privileged s' = privileged s /\ (forall r, r ∉ user_cp15 -> CP15 s' !! r = CP15 s !! r) /\
  (forall r, r <> VFP_FPSCR -> VFP s' !! r = VFP s !! r).
Definition isolated (s s' : ARMul_State) : Prop := user s -> user s' /\ same_privileged s s'.
#[export] Instance same_privileged_order : PreOrder same_privileged.
Proof.
  split; [done|]. intros s1 s2 s3 (H1 & K1 & L1) (H2 & K2 & L2). split_and!; [by rewrite H2| |]; intros r Hr; [by rewrite K2, K1|by rewrite L2, L1].
Qed.
Lemma user_privileged s s' : user s -> same_privileged s s' -> is_bit (TFlag s') -> user s'.
Proof.
  intros (Hm & Hc & _) [Hp _] Ht. injection Hp as _ _ _ _ _ _ _ _ Em _ Ec. split_and!; [congruence| |done].
  change 0x1F with (Z.land 0x1DF 0x1F). by rewrite Z.land_assoc, Ec, <- Z.land_assoc.
Qed.
Lemma isolated_intro s s' : (user s -> same_privileged s s' /\ is_bit (TFlag s')) -> isolated s s'.
Proof. intros H Hu. destruct (H Hu) as [Hs Ht]. split; [by eapply user_privileged|done]. Qed.
#[export] Instance isolated_order : PreOrder isolated.
Proof.
  split; [by intros s Hu; split|]. intros s1 s2 s3 H1 H2 Hu. destruct (H1 Hu) as [Hu2 K1]. destruct (H2 Hu2) as [Hu3 K2]. split; [done|by etrans].
Qed.
(** Updates that leave all of it alone, but for the status register *)
Lemma isolated_cpsr s s' : (privileged s').1 = (privileged s).1 -> CP15 s' = CP15 s -> VFP s' = VFP s -> (is_bit (TFlag s) -> is_bit (TFlag s')) ->
  (is_bit (TFlag s) -> Z.land (Cpsr s') 0x1DF = Z.land (Cpsr s) 0x1DF) -> isolated s s'.
Proof.
  intros Hp H15 Hv Ht Hc. apply isolated_intro. intros (_ & _ & Hb). split; [|by apply Ht]. split; [|by rewrite H15, Hv].
  rewrite (surjective_pairing (privileged s')), (surjective_pairing (privileged s)), Hp. f_equal. by apply Hc.
Qed.
Lemma user_ChangePrivilegeMode s s' : user s -> Mode s' = Mode s -> Z.land (Cpsr s') 0x1F = Z.land (Cpsr s) 0x1F ->
  ChangePrivilegeMode (Z.land (Cpsr s') 0x1F) s' = s'.
Proof. intros (Hm & Hc & _) Em Ec. unfold ChangePrivilegeMode. rewrite Em, Ec, Hm, Hc. done. Qed.
Lemma ChangePrivilegeMode_same m s : Mode s = m -> ChangePrivilegeMode m s = s.
Proof. intros <-. unfold ChangePrivilegeMode. by rewrite Z.eqb_refl. Qed.
Lemma user_no_spsr s : user s -> CurrentModeHasSPSR s = false.
Proof. intros (Hm & _). unfold CurrentModeHasSPSR, InAPrivilegedMode. by rewrite Hm. Qed.
Lemma user_unprivileged s : user s -> InAPrivilegedMode s = false.
Proof. intros (Hm & _). unfold InAPrivilegedMode. by rewrite Hm. Qed.

Lemma SAVE_low s : is_bit (TFlag s) -> Z.land (Cpsr (SAVE_NZCVT s)) 0x1DF = Z.land (Cpsr s) 0x1DF.
Proof.
  intros Ht. unfold SAVE_NZCVT. cbn -[Z.land Z.lor Z.shiftl u32]. rewrite !lor_other; [by apply land_other|apply shifted_low; lia..|].
  by destruct Ht as [-> | ->].
Qed.
Lemma msr_user_bits c v inst : Z.land (Z.lor (Z.land c (not32 (Z.land (msr_byte_mask inst) UserMask))) (Z.land v (Z.land (msr_byte_mask inst) UserMask))) 0x1DF = Z.land c 0x1DF.
Proof. apply other_bits; [lia|]. rewrite <- Z.land_assoc. change (Z.land UserMask 0x1DF) with 0. apply Z.land_0_r. Qed.
(** The operations on the status register that are visible in user mode *)
Definition reload (c : ARMul_State -> Z) (s : ARMul_State) : ARMul_State :=
  let s := s <| Cpsr := c s |> in LOAD_NZCVT (ChangePrivilegeMode (Z.land (Cpsr s) 0x1F) s).
Lemma isolated_LOAD s : isolated s (LOAD_NZCVT s).
Proof. apply isolated_cpsr; try done. intros _. apply is_bit_land. Qed.
Lemma isolated_SAVE s : isolated s (SAVE_NZCVT s).
Proof. apply isolated_cpsr; try done. apply SAVE_low. Qed.
Lemma isolated_set_Cpsr c s : (user s -> Z.land c 0x1DF = Z.land (Cpsr s) 0x1DF) -> isolated s (s <| Cpsr := c |>).
Proof. intros Hc Hu. revert Hu. apply isolated_intro. intros Hu. split; [|apply Hu]. split; [|done]. unfold privileged. cbn -[Z.land]. by rewrite Hc. Qed.
Lemma isolated_cpsr_bit s n b : n ∈ [9; 16; 17; 18; 19; 27] ->
  isolated s (s <| Cpsr := if b : bool then Z.lor (Cpsr s) (Z.shiftl 1 n) else Z.land (Cpsr s) (not32 (Z.shiftl 1 n)) |>).
Proof.
  intros Hn. apply isolated_set_Cpsr. intros _. set_unfold.
  repeat destruct Hn as [-> | Hn]; try done; (destruct b; [by apply lor_other|by apply land_other]).
Qed.
Lemma cp15_found l crn o1 crm o2 r : cp15_find l crn o1 crm o2 = Some r -> r ∈ (snd <$> l).
Proof.
  unfold cp15_find. intros (p & Hp & ->)%fmap_Some. apply list_elem_of_fmap. exists p. split; [done|].
  apply find_some in Hp as [Hin _]. by apply list_elem_of_In.
Qed.
Lemma isolated_WriteCP15 s v crn o1 crm o2 : isolated s (WriteCP15Register v crn o1 crm o2 s).
Proof.
  apply isolated_intro. intros Hu. unfold WriteCP15Register. rewrite user_unprivileged by done. unfold write_found.
  destruct (cp15_find _ _ _ _ _) as [r|] eqn:Er; [|by split; [|apply Hu]]. apply cp15_found in Er. split; [|apply Hu].
  split_and!; [done| |done]. intros r' Hr'. unfold set_cp15. cbn. apply list_lookup_insert_ne. intros ->. by apply Hr'.
Qed.

(** ** Every instruction *)

Lemma isolated_tame {A} (P : A -> Prop) (m : Prelude.M ARMul_State A) :
  tame (fun _ _ => True) P m -> (forall s, user s -> wlp m (fun _ => isolated s) s) -> tame isolated P m.
Proof.
  intros Hm Hu s. specialize (Hm s). specialize (Hu s). unfold wlp in Hu. destruct (m s) as [[a s']|]; [|done].
  split; [|apply Hm]. intros Hs. by apply Hu.
Qed.
Lemma isolated_Reg s f : isolated s (s <| Reg ::= f |>).
Proof. by apply isolated_cpsr. Qed.
#[export] Instance isolated_regs : RegPrims isolated.
Proof.
  split; [exact _|intros s i v; apply isolated_Reg|intros s i v; by apply isolated_cpsr|].
  intros s v. apply isolated_intro. intros Hu. split; [|apply Hu]. split_and!; [done|done|]. intros r Hr. unfold set_vfp. cbn. by apply list_lookup_insert_ne.
Qed.
Lemma isolated_mode s : isolated s (ChangePrivilegeMode (Z.land (Cpsr s) 0x1F) s).
Proof. intros Hu. by rewrite (user_ChangePrivilegeMode s s). Qed.
Lemma isolated_CPS i : tame isolated (fun n => n = FETCH_NEXT sizeof_cps_inst) (CPS_INST i).
Proof.
  apply isolated_tame; [apply CPS_free; exact _|]. intros s Hu. unfold CPS_INST. destruct (component i); try done.
  do 2 wlp_step. rewrite user_unprivileged by done. apply (wlp_tame isolated (fun n => n = FETCH_NEXT sizeof_cps_inst)).
  repeat tame_step.
Qed.
Lemma isolated_MRC i : tame isolated (fun n => n = FETCH_NEXT sizeof_mrc_inst) (MRC_INST i).
Proof.
  apply conditional_next; [exact _|]. repeat (tame_step || (apply simply_none; [exact _|])).
  - apply tame_modify. intros s. apply isolated_set_Cpsr. intros _. by apply other_bits.
  - apply tame_modify. apply isolated_LOAD.
Qed.
Lemma isolated_MSR i : tame isolated (fun n => n = FETCH_NEXT sizeof_msr_inst) (MSR_INST i).
Proof.
  apply conditional_next; [exact _|]. destruct (component i) as [] eqn:Ei; try (apply tame_crash; discriminate).
  apply tame_seq; [exact _|unfold msr_operand; repeat tame_step|]. intros v. apply isolated_tame.
  { repeat (tame_step || (apply simply_none; [exact _|])). all: apply tame_modify; by intros. }
  intros s Hu. do 2 wlp_step. rewrite user_unprivileged, user_no_spsr by done.
  destruct (negb (truth R)); [|by apply wlp_ret]. unfold simply, set_Cpsr. repeat wlp_step.
  etrans; [|apply isolated_LOAD]. etrans; [|apply isolated_mode]. etrans; [apply isolated_SAVE|]. apply isolated_set_Cpsr. intros _. apply msr_user_bits.
Qed.
Lemma isolated_VMSR i : tame isolated (fun n => n = FETCH_NEXT sizeof_vmsr_inst) (VMSR_INST i).
Proof.
  apply conditional_next; [exact _|]. destruct (component i) as [] eqn:Ei; try (apply tame_crash; discriminate).
  apply tame_seq; [exact _|repeat tame_step|]. intros v. apply isolated_tame.
  { repeat (tame_step || (apply simply_none; [exact _|])). all: apply tame_modify; by intros. }
  intros s Hu. do 2 wlp_step. rewrite user_unprivileged by done. destruct (_ =? 1); unfold simply; repeat wlp_step; [|done]. apply reg_FPSCR.
Qed.
#[export] Instance isolated_prims : CpuPrims isolated.
Proof.
  split; try exact _; try (intros; by apply isolated_cpsr).
  - apply isolated_cpsr_bit.
  - apply isolated_SAVE.
  - intros s Hu. by rewrite user_no_spsr by done.
  - intros. apply isolated_WriteCP15.
  - apply isolated_CPS.
  - apply isolated_MSR.
  - apply isolated_MRC.
  - apply isolated_VMSR.
Qed.

Section User.
Context {D W : Type} `{Host} `{Devices D} `{Kernel D W} `{Translator}.
Definition m_isolated (m m' : Machine D W) : Prop := isolated (cpu m) (cpu m').
#[export] Instance isolated_machine : MachinePrims isolated m_isolated.
Proof.
  split; try exact _; try done.
  - split; [by intros m|]. intros m1 m2 m3 K1 K2. unfold m_isolated in *. by etrans.
  - intros s i v Hm (Hu & _). done.
  - intros s Hu. pose proof Hu as (Hm & _). by rewrite Hm, !ChangePrivilegeMode_same by (done || by rewrite ChangePrivilegeMode_same).
Qed.
End User.

(** ** Properties *)

(** C3: in user mode no instruction but RFE and SWI changes the mode, the interrupt
    bits, the registers and saved status of another mode, a register of coprocessor 15
    beyond the four that programs may write, or a system register of the floating-point unit
    other than FPSCR, and the processor stays in user mode. *)
Theorem user_mode_isolated {D W : Type} `{Host} `{Devices D} `{Kernel D W} `{Translator} (m : Machine D W) (ptr : Z) (i : arm_inst) :
  trans_cache_buf (trans_cache m) !! ptr = Some i -> 0 <= idx i < 202 -> idx i <> RFE_INDEX -> idx i <> SWI_INDEX -> user (cpu m) ->
  wlp (execute ptr) (fun _ m' => user (cpu m') /\ same_privileged (cpu m) (cpu m')) m.
Proof.
  intros Hi Hr Hn1 Hn2 Hu. assert (Hh : is_Some (InstLabel !! Z.to_nat (idx i))).
  { apply lookup_lt_is_Some. unfold InstLabel. cbn [length]. lia. }
  destruct Hh as [h Hh]. eapply wlp_mono; [eapply (execute_keeps m_isolated); [split; repeat intro; try done; by eapply isolated_order|done|exact Hh|]|].
  - eapply wlp_tame. apply (handler_tame isolated m_isolated (idx i)); [done|lia|done|done].
  - cbn beta. intros _ m' Hm. by apply Hm.
Qed.
Section Demo.
#[local] Existing Instance demo_host.
#[local] Existing Instance demo_devices.
#[local] Existing Instance demo_translator.
#[local] Existing Instance demo_kernel.
(** MSR CPSR_fsxc, #0xD3, translated but not run *)
Definition demo_msr : Machine unit (list Z) := default (demo_machine []) (demo_run 10 1 [0xE32FF0D3; 0xEAFFFFFE]).
Lemma user_mode_isolated_witness :
  user (cpu demo_msr) /\ wlp (execute 0) (fun _ m' => user (cpu m') /\ same_privileged (cpu demo_msr) (cpu m')) demo_msr.
Proof.
  assert (Hu : user (cpu demo_msr)) by (split_and!; [vm_compute; reflexivity..|left; vm_compute; reflexivity]).
  split; [exact Hu|].
  eapply (user_mode_isolated demo_msr 0); [vm_compute; reflexivity|split; vm_compute; congruence|vm_compute; congruence|vm_compute; congruence|exact Hu].
Defined.
(** RFE loads the status register in any mode, and the next MSR takes the mode from it: a
    program in user mode reaches the supervisor's. *)
Example rfe_leaves_user_mode : user (cpu (demo_machine [])) /\
  option_map (fun m => Mode (cpu m))
    (demo_run 40 4 [0xE3A00601; 0xE2800020; 0xF8900A00; 0xE328F000; 0xEAFFFFFE; 0; 0; 0; 0x1D3; 0x10000C]) = Some SVC32MODE.
Proof. split; [split_and!; [vm_compute; reflexivity..|left; vm_compute; reflexivity]|vm_compute; reflexivity]. Qed.
End Demo.
