(* ===== verification/ArmCode.v ===== *)
(** The translated code: every block is a chain of instructions in the buffer, and the main
    loop follows no pointer out of it. *)

From S2P Require Import Prelude MemoryMap Memory MemoryAccess ArmSupp ArmState ArmOperands ArmDecode ArmThumb ArmTrans ArmData ArmMedia ArmSystem ArmMachine ArmLoop ArmSteady ArmKeeps ArmDemo.

Lemma wlp_zoom {S T A} (g : S -> T) (p : T -> S -> S) (f : Prelude.M T A) (Q : A -> S -> Prop) s :
  wlp f (fun a t => Q a (p t s)) (g s) -> wlp (zoom g p f) Q s.
Proof. unfold wlp, zoom. by destruct (f (g s)) as [[a t]|]. Qed.
Lemma wlp_true {S A} (m : Prelude.M S A) s : wlp m (fun _ _ => True) s.
Proof. unfold wlp. by destruct (m s) as [[a t]|]. Qed.

(** ** Blocks *)

Section Blocks.
Context `{Translator}.
Definition size_of (i : arm_inst) : Z := sizeof_arm_inst + inst_size (idx i).
Lemma inst_size_nonneg index : 0 <= inst_size index.
Proof.
  assert (Hall : Forall (Z.le 0) inst_sizes) by (repeat constructor; done). unfold inst_size. rewrite nth_lookup.
  destruct (inst_sizes !! _) eqn:E; [|done]. cbn. rewrite Forall_forall in Hall. apply Hall. by eapply list_elem_of_lookup_2.
Qed.
Lemma size_of_pos i : 0 < size_of i.
Proof.
  unfold size_of, sizeof_arm_inst. pose proof (inst_size_nonneg (idx i)). lia.
Qed.

(** A block at [p], below [limit]: instructions after each other up to a branch *)
Inductive block (buf : gmap Z arm_inst) (limit : Z) : Z -> Prop :=
  | block_last p i : buf !! p = Some i -> 0 <= idx i < arm_instruction_trans_len -> p + size_of i <= limit -> br i <> NON_BRANCH -> block buf limit p
  | block_next p i : buf !! p = Some i -> 0 <= idx i < arm_instruction_trans_len -> p + size_of i <= limit -> br i = NON_BRANCH ->
      block buf limit (p + size_of i) -> block buf limit p.
Lemma block_first buf limit p : block buf limit p ->
  exists i, buf !! p = Some i /\ 0 <= idx i < arm_instruction_trans_len /\ p + size_of i <= limit /\ (br i = NON_BRANCH -> block buf limit (p + size_of i)).
Proof. intros [q i Hi Hv Hl Hb|q i Hi Hv Hl Hb Hn]; exists i; done. Qed.
(** Code that is written above it does not touch it. *)
Lemma block_mono buf buf' limit limit' p : block buf limit p -> (forall q, q < limit -> buf' !! q = buf !! q) -> limit <= limit' -> block buf' limit' p.
Proof.
  intros Hb Heq Hle. induction Hb as [p i Hi Hv Hl Hb|p i Hi Hv Hl Hb Hn IH]; pose proof (size_of_pos i).
  - apply block_last with i; [by rewrite Heq by lia|done|lia|done].
  - apply block_next with i; [by rewrite Heq by lia|done|lia|done|done].
Qed.

(** *** Translation makes blocks *)

(** One instruction is added at the top. *)
Definition adds (t : TransCache) (start : Z) (t' : TransCache) : Prop :=
  start = trans_cache_buf_top t /\
  exists i, trans_cache_buf t' !! start = Some i /\ 0 <= idx i < arm_instruction_trans_len /\ trans_cache_buf_top t' = start + size_of i /\
    (forall p, p < start -> trans_cache_buf t' !! p = trans_cache_buf t !! p).
Lemma translate_adds index inst t : 0 <= index -> wlp (translate index inst) (fun start t' => adds t start t') t.
Proof.
  intros Hi. unfold translate. wlp_step. wlp_step. pose proof (lookup_lt_Some _ _ _ ltac:(eassumption)) as Hlt.
  assert (Hlen : 0 <= index < arm_instruction_trans_len) by (unfold arm_instruction_trans_len; lia).
  unfold adds, size_of. eapply wlp_mono; [by eapply translated_size|]. cbn beta. intros start t' (-> & -> & (i & Hi' & <-) & Hold). split; [done|].
  exists i. split_and!; (done || lia).
Qed.
End Blocks.

Section Translation.
Context {D W : Type} `{Host} `{Devices D} `{Kernel D W} `{Translator}.
Implicit Types (m : Machine D W).
Lemma thumb_size addr inst : (TranslateThumbInstruction addr inst).2 = 2.
Proof.
  unfold TranslateThumbInstruction. cbv zeta.
  repeat match goal with |- (if ?b then _ else _).2 = _ => destruct b | |- (match ?o with _ => _ end).2 = _ => destruct o end; done.
Qed.
(** A branch is translated, or the pointer is missing; other instructions are not translated yet. *)
Lemma DecodeThumb_adds inst addr t :
  wlp (DecodeThumbInstruction inst addr) (fun r t' => r.1.2 = 2 /\
    match r with
    | (BRANCH, _, _, Some ptr) => adds t ptr t'
    | (BRANCH, _, _, None) => True
    | _ => t' = t
    end) t.
Proof.
  pose proof (thumb_size addr inst) as Hsize. unfold DecodeThumbInstruction. destruct (TranslateThumbInstruction addr inst) as [[ret a] n]. cbn [snd] in Hsize. subst n.
  destruct ret; try (by apply wlp_ret). cbv zeta.
  assert (Hbranch : forall n k, 0 <= arm_instruction_trans_len - n ->
    wlp (ptr ← translate (arm_instruction_trans_len - n) k; mret (BRANCH, a, 2, Some ptr)) (fun r t' => r.1.2 = 2 /\
      match r with (BRANCH, _, _, Some ptr) => adds t ptr t' | (BRANCH, _, _, None) => True | _ => t' = t end) t).
  { intros n k Hn. apply wlp_bind. eapply wlp_mono; [by apply translate_adds|]. cbn beta. intros start t' Ha. by apply wlp_ret. }
  repeat match goal with |- wlp (if ?b then _ else _) _ _ => destruct b end; try (by apply wlp_ret); by apply Hbranch.
Qed.
Lemma decode_nonneg instr k : DecodeARMInstruction instr = Some k -> 0 <= k.
Proof.
  unfold DecodeARMInstruction. assert (Hf : forall l e i, decode_from instr i l e = Some k -> i <= k); [|apply Hf].
  induction l as [|x l IH]; intros [|e es] i; cbn [decode_from]; try done. destruct (decodes instr x e); [intros [= <-]; lia|].
  intros Hk. apply IH in Hk. lia.
Qed.
(** The instruction at the pointer, if there is one, is new. *)
Definition adds_one (size : Z) m (r : Z * option Z) (m' : Machine D W) : Prop :=
  r.1 = size /\ cpu m' = cpu m /\ num_instrs m' = num_instrs m /\ match r.2 with Some ptr => adds (trans_cache m) ptr (trans_cache m') | None => True end.
Lemma decoded_adds inst (size : Z) m :
  wlp (idx ← deref (DecodeARMInstruction inst); inst_base ← on_cache (translate idx inst); mret (size, Some inst_base))
    (fun r m' => r.1 = size /\ cpu m' = cpu m /\ num_instrs m' = num_instrs m /\ match r.2 with Some ptr => adds (trans_cache m) ptr (trans_cache m') | None => True end) m.
Proof.
  wlp_step. apply wlp_deref. intros index Hi. apply wlp_bind, wlp_zoom. eapply wlp_mono; [by apply translate_adds, decode_nonneg with inst|].
  cbn beta. intros start t' Ha. by apply wlp_ret.
Qed.
Lemma instruction_adds phys_addr m :
  wlp (InterpreterTranslateInstruction phys_addr) (adds_one (GetInstructionSize (cpu m)) m) m.
Proof.
  unfold InterpreterTranslateInstruction. wlp_step. apply wlp_zoom. eapply wlp_mono; [apply wlp_true|]. cbn beta. intros inst mem _.
  do 2 wlp_step. unfold GetInstructionSize. cbn [cpu]. apply wlp_bind.
  destruct (truth (TFlag _)).
  - apply wlp_bind, wlp_zoom. eapply wlp_mono; [apply DecodeThumb_adds|].
    intros [[[ret a] n] ptr] t' [Hn Ht]. cbn [fst snd] in Hn. subst n. case_bool_decide as Hr.
    + subst ret. apply wlp_ret. cbn beta iota. apply wlp_ret. by destruct ptr.
    + apply wlp_ret. cbn beta iota. assert (t' = trans_cache m) as -> by (by destruct ret). apply (decoded_adds _ 2).
  - apply wlp_ret. cbn beta iota. apply (decoded_adds inst 4).
Qed.

(** The state after the translation of a block *)
Definition new_block m (m' : Machine D W) : Prop :=
  let t := trans_cache m in let t' := trans_cache m' in
  block (trans_cache_buf t') (trans_cache_buf_top t') (trans_cache_buf_top t) /\
  (forall p, p < trans_cache_buf_top t -> trans_cache_buf t' !! p = trans_cache_buf t !! p) /\
  trans_cache_buf_top t <= trans_cache_buf_top t' /\ cpu m' = cpu m /\ num_instrs m' = num_instrs m.
Definition with_br (ptr : Z) (b : TransExtData) (i : arm_inst) m : Machine D W :=
  m <| trans_cache ::= fun t => t <| trans_cache_buf ::= <[ptr := i <| br := b |>]> |> |>.
Lemma wlp_set_br ptr b (Q : unit -> Machine D W -> Prop) m :
  (forall i, trans_cache_buf (trans_cache m) !! ptr = Some i -> Q tt (with_br ptr b i m)) -> wlp (set_br ptr b) Q m.
Proof. intros HQ. unfold set_br, inst_at. do 4 wlp_step. by apply HQ. Qed.
(** A block of one instruction *)
Lemma new_last size n m m' ptr i b : adds_one size m (n, Some ptr) m' -> trans_cache_buf (trans_cache m') !! ptr = Some i -> b <> NON_BRANCH ->
  new_block m (with_br ptr b i m').
Proof.
  intros (_ & Hc & Hn & -> & j & Hj & Hv & Htop & Hold) Hi Hb. simplify_eq. cbn [snd] in *. pose proof (size_of_pos j).
  unfold new_block, with_br. cbn. split_and!; [|intros p Hp|lia|done|done].
  - apply (block_last _ _ _ (j <| br := b |>)); [apply lookup_insert_eq|done| |done]. change (size_of (j <| br := b |>)) with (size_of j). lia.
  - rewrite lookup_insert_ne by lia. by apply Hold.
Qed.
Lemma with_br_same ptr i m : trans_cache_buf (trans_cache m) !! ptr = Some i -> with_br ptr (br i) i m = m.
Proof.
  intros Hi. unfold with_br. destruct m as [c mem [buf top] n w], i. cbn in *. unfold set_field. cbn. by rewrite insert_id.
Qed.
Lemma wlp_inst_at ptr (Q : arm_inst -> Machine D W -> Prop) m :
  (forall i, trans_cache_buf (trans_cache m) !! ptr = Some i -> Q i m) -> wlp (inst_at ptr) Q m.
Proof. intros HQ. unfold inst_at. do 3 wlp_step. by apply HQ. Qed.
(** An instruction and then a block *)
Lemma new_next size n m m1 m' ptr i : adds_one size m (n, Some ptr) m1 -> trans_cache_buf (trans_cache m1) !! ptr = Some i -> br i = NON_BRANCH ->
  new_block m1 m' -> new_block m m'.
Proof.
  intros (_ & Hc & Hn & -> & j & Hj & Hv & Htop & Hold) Hi Hb (Hblock & Hold' & Htop' & Hc' & Hn'). simplify_eq. cbn [snd] in *. pose proof (size_of_pos j).
  split_and!; [|intros p Hp; rewrite Hold' by lia; by apply Hold|lia|congruence|congruence].
  apply block_next with j; [by rewrite Hold' by lia|done|lia|done|by rewrite <- Htop].
Qed.
Lemma loop_block fuel addr m : wlp (translate_loop fuel addr) (fun _ => new_block m) m.
Proof.
  revert addr m. induction fuel as [|fuel IH]; intros addr m; [done|]. cbn [translate_loop]. wlp_step.
  eapply wlp_mono; [apply instruction_adds|]. intros [n ptr] m1 H1'. cbn beta iota. wlp_step. apply wlp_deref. intros start ->.
  cbv zeta. destruct (Z.land (u32 (addr + n)) 0xfff =? 0).
  - wlp_step. apply wlp_set_br. intros i Hi. wlp_step. apply wlp_inst_at. intros i' Hi'.
    cbn in Hi'. rewrite lookup_insert_eq in Hi'. injection Hi' as <-. apply wlp_ret. by eapply (new_last _ _ m m1).
  - do 2 wlp_step. wlp_step. apply wlp_inst_at. intros i Hi. case_bool_decide as Hb.
    + eapply wlp_mono; [apply IH|]. cbn beta. intros _ m'. by eapply new_next.
    + apply wlp_ret. rewrite <- (with_br_same start i m1) by done. by eapply (new_last _ _ m m1).
Qed.
End Translation.

(** ** What runs keeps the code *)

(** The code is kept, or the cache is cleared: nothing is overwritten before the next translation. *)
Definition code_kept_of (c c' : ARMul_State) (t t' : TransCache) : Prop :=
  trans_cache_buf t' = trans_cache_buf t /\
  (trans_cache_buf_top t' = trans_cache_buf_top t /\ instruction_cache c' = instruction_cache c \/ instruction_cache c' = ∅).
Section Kept.
Context {D W : Type} `{Host} `{Devices D} `{Kernel D W} `{Translator}.
Implicit Types (m : Machine D W).
Definition code_kept m m' : Prop := code_kept_of (cpu m) (cpu m') (trans_cache m) (trans_cache m').
(** What the kernel promises *)
Class KeepsCode : Prop := {
  svc_returns n x : CallSVC n x <> Crash OutOfFuel;
  svc_code n c mem t w c' mem' t' w' : CallSVC n (c, mem, t, w) = Ret (c', mem', t', w') -> code_kept_of c c' t t';
}.
#[export] Instance code_kept_order : PreOrder code_kept.
Proof.
  split; [intros m; split; auto|]. intros m1 m2 m3 [B1 C1] [B2 C2]. split; [congruence|].
  destruct C2 as [[-> ->]|C2]; [|by right]. done.
Qed.
Definition same_code (s s' : ARMul_State) : Prop := instruction_cache s' = instruction_cache s.
Lemma same_code_mode mode s : instruction_cache (ChangePrivilegeMode mode s) = instruction_cache s.
Proof.
  unfold ChangePrivilegeMode, load_bank, save_bank, load_spsr, load_r13_r14.
  repeat match goal with |- context [if ?b then _ else _] => destruct b end; done.
Qed.
Lemma same_code_cp15 s v crn o1 crm o2 : instruction_cache (WriteCP15Register v crn o1 crm o2 s) = instruction_cache s.
Proof.
  assert (Hw : forall l s, instruction_cache (write_found l v crn o1 crm o2 s) = instruction_cache s).
  { intros l s'. unfold write_found. by destruct (cp15_find l crn o1 crm o2). }
  unfold WriteCP15Register. rewrite Hw. destruct (InAPrivilegedMode s); [apply Hw|reflexivity].
Qed.
Instance same_code_regs : RegPrims same_code.
Proof. split; [|done..]. split; [done|]. intros s1 s2 s3 K1 K2. unfold same_code in *. congruence. Qed.
Instance same_code_free : FreePrims same_code.
Proof. split; try exact _; try done. intros s mode. apply same_code_mode. Qed.
Instance same_code_prims : CpuPrims same_code.
Proof.
  split; try exact _; try done.
  - intros s. by apply (free_restore same_code).
  - intros. apply same_code_cp15.
  - intros. by apply CPS_free, _.
  - intros. by apply MSR_free, _.
  - intros. by apply MRC_free, _.
  - intros. by apply VMSR_free, _.
Qed.
#[export] Instance code_kept_prims `{!KeepsCode} : AllPrims same_code code_kept.
Proof.
  split; [split|..]; try exact _; try done.
  - intros m s Hs. split; [done|left]. by split.
  - intros m mem. split; [done|by left].
  - intros s. unfold same_code. by rewrite !same_code_mode.
  - intros m. split; [done|by left].
  - intros n m. unfold call_kernel. pose proof (svc_returns n (cpu m, memory m, trans_cache m, world m)) as Hr.
    destruct (CallSVC n (cpu m, memory m, trans_cache m, world m)) as [[[[c mem] t] w]|f] eqn:E; [|congruence].
    split; [|done]. by apply svc_code in E.
Qed.
End Kept.

(** ** The main loop *)

Section Loop.
Context {D W : Type} `{Host} `{Devices D} `{Kernel D W} `{Translator} `{!KeepsCode}.
Implicit Types (m : Machine D W).

(** Every block of the instruction cache is in the buffer, below its top. *)
Definition cache_ok m : Prop := forall pc ptr,
  instruction_cache (cpu m) !! pc = Some ptr -> block (trans_cache_buf (trans_cache m)) (trans_cache_buf_top (trans_cache m)) ptr.
Definition loop_ok (l : label) m : Prop :=
  cache_ok m /\ match l with L_DISPATCH => True | L_INST ptr => exists limit, block (trans_cache_buf (trans_cache m)) limit ptr end.
Lemma cache_ok_kept m m' : code_kept m m' -> cache_ok m -> cache_ok m'.
Proof. intros [Hb [[Ht Hc]|Hc]] Hok pc ptr; rewrite Hc; [rewrite Hb, Ht; apply Hok|by rewrite lookup_empty]. Qed.

(** A block is cached once it is complete. *)
Lemma wlp_cache_block pc start m0 m : new_block m0 m -> cache_ok m0 -> start = trans_cache_buf_top (trans_cache m0) ->
  wlp (cache_block pc start;; mret start) (fun ptr m' => cache_ok m' /\ block (trans_cache_buf (trans_cache m')) (trans_cache_buf_top (trans_cache m')) ptr) m.
Proof.
  intros (Hb & Hold & Htop & Hc & _) Hok ->. wlp_step. unfold cache_block. apply wlp_zoom, wlp_modify. cbn beta. apply wlp_ret.
  assert (Hm : forall ptr, block (trans_cache_buf (trans_cache m0)) (trans_cache_buf_top (trans_cache m0)) ptr ->
    block (trans_cache_buf (trans_cache m)) (trans_cache_buf_top (trans_cache m)) ptr) by (intros ptr Hp; by eapply block_mono).
  split; [|done]. intros pc' ptr. cbn. rewrite Hc. destruct (decide (pc' = pc)) as [->|Hne].
  - rewrite lookup_insert_eq. by intros [= <-].
  - rewrite lookup_insert_ne by done. intros Hp. by eapply Hm, Hok.
Qed.
Lemma block_translated addr m : cache_ok m ->
  wlp (InterpreterTranslateBlock addr) (fun ptr m' => cache_ok m' /\ block (trans_cache_buf (trans_cache m')) (trans_cache_buf_top (trans_cache m')) ptr) m.
Proof.
  intros Hok. unfold InterpreterTranslateBlock, reg. do 3 wlp_step. apply wlp_zoom. unfold cpu_Reg. do 2 wlp_step. apply wlp_deref. intros pc _.
  wlp_step. eapply wlp_mono; [apply loop_block|]. cbn beta. intros _ m' Hb. eapply wlp_cache_block; [exact Hb|done|done].
Qed.
Lemma single_translated addr m : cache_ok m ->
  wlp (InterpreterTranslateSingle addr) (fun ptr m' => cache_ok m' /\ block (trans_cache_buf (trans_cache m')) (trans_cache_buf_top (trans_cache m')) ptr) m.
Proof.
  intros Hok. unfold InterpreterTranslateSingle, reg. do 3 wlp_step. apply wlp_zoom. unfold cpu_Reg. do 2 wlp_step. apply wlp_deref. intros pc _.
  wlp_step. eapply wlp_mono; [apply instruction_adds|]. intros [n ptr] m1 Ha. cbn beta iota. wlp_step. apply wlp_deref. intros start ->.
  wlp_step. apply wlp_inst_at. intros i Hi. wlp_step. case_bool_decide as Hb.
  - apply wlp_set_br. intros i' Hi'. eapply wlp_cache_block; [|exact Hok|done]. by eapply (new_last _ _ m m1).
  - wlp_step. eapply wlp_cache_block; [|exact Hok|done]. rewrite <- (with_br_same start i m1) by done. by eapply (new_last _ _ m m1).
Qed.
Lemma dispatch_ok m : cache_ok m -> wlp dispatch (fun o m' => match o with Some ptr => loop_ok (L_INST ptr) m' | None => loop_ok L_DISPATCH m' end) m.
Proof.
  intros Hok. unfold dispatch. wlp_step. wlp_step. destruct (_ && _); [by apply wlp_ret|].
  unfold reg, set_reg. wlp_step. apply wlp_zoom. unfold cpu_Reg. do 2 wlp_step. apply wlp_deref. intros pc _.
  wlp_step. apply wlp_zoom. unfold set_Reg. do 3 wlp_step. apply wlp_deref. intros pc' _. wlp_step. cbn beta.
  set (m1 := m <| cpu := _ |>). assert (Hok1 : cache_ok m1) by exact Hok.
  wlp_step. apply wlp_zoom. do 2 wlp_step. apply wlp_deref. intros pc1 _. change (m1 <| cpu := cpu m1 |>) with m1.
  destruct (instruction_cache (cpu m) !! pc1) as [ptr|] eqn:Ep.
  - apply wlp_ret. split; [done|]. exists (trans_cache_buf_top (trans_cache m1)). by eapply Hok1.
  - wlp_step. destruct (negb _).
    + eapply wlp_mono; [by apply block_translated|]. cbn beta. intros ptr m2 [H1' H2']. apply wlp_ret. split; [done|by eexists].
    + eapply wlp_mono; [by apply single_translated|]. cbn beta. intros ptr m2 [H1' H2']. apply wlp_ret. split; [done|by eexists].
Qed.
Lemma handlers_of_block index : 0 <= index < arm_instruction_trans_len -> is_Some (InstLabel (D := D) (W := W) !! Z.to_nat index).
Proof. intros Hi. apply lookup_lt_is_Some. change (Z.to_nat index < 202)%nat. change arm_instruction_trans_len with 202 in Hi. lia. Qed.
Lemma execute_ok ptr m : loop_ok (L_INST ptr) m ->
  wlp (execute ptr) (fun o m' => match o with Some l => loop_ok l m' | None => True end) m.
Proof.
  intros [Hok [limit Hb]]. pose proof (block_first _ _ _ Hb) as (i & Hi & Hv & _ & Hnext). unfold execute.
  wlp_step. apply wlp_inst_at. intros i' Hi'. rewrite Hi in Hi'. injection Hi' as <-. wlp_step. apply wlp_deref. intros h Hh. wlp_step.
  eapply wlp_mono; [apply (tame_wlp code_kept), (all_tame same_code code_kept (idx i) h i Hh); lia|].
  cbn beta. intros [l| |] m' [Hk Hl]; [|by apply wlp_ret; split; [eapply cache_ok_kept|]|by apply wlp_ret].
  wlp_step. apply wlp_inst_at. pose proof (proj1 Hk) as Hbuf. rewrite Hbuf. intros i2 Hi2. rewrite Hi in Hi2. injection Hi2 as <-. apply wlp_ret.
  split; [by eapply cache_ok_kept|]. cbn [goes_on] in Hl. subst l. case_bool_decide as Hn; [|done]. exists limit. rewrite Hbuf.
  rewrite <- Z.add_assoc. by apply Hnext.
Qed.
Lemma loop_step_ok l m : loop_ok l m -> wlp (loop_step l) (fun r m' => match r with inl l => loop_ok l m' | inr _ => True end) m.
Proof.
  intros Hok. unfold loop_step. destruct l as [|ptr].
  - wlp_step. eapply wlp_mono; [apply dispatch_ok, Hok|]. cbn beta. intros [ptr|] m' Hm'; [by apply wlp_ret|].
    wlp_step. eapply wlp_mono; [apply wlp_true|]. cbn beta. intros n m2 _. by apply wlp_ret.
  - wlp_step. apply wlp_zoom, wlp_modify. cbn beta. do 2 wlp_step. destruct (_ <=? _).
    { wlp_step. eapply wlp_mono; [apply wlp_true|]. cbn beta. intros n m2 _. by apply wlp_ret. }
    do 3 wlp_step. eapply wlp_mono; [apply execute_ok; exact Hok|]. cbn beta. intros [l|] m2 H2'; [by apply wlp_ret|].
    wlp_step. wlp_step. by apply wlp_ret.
Qed.
(** The states the main loop goes through *)
Inductive loop_reach : label * Machine D W -> label * Machine D W -> Prop :=
  | reach_refl x : loop_reach x x
  | reach_step x l m l' m' : loop_reach x (l, m) -> loop_step l m = Ret (inl l', m') -> loop_reach x (l', m').
Lemma reach_ok x y : loop_reach x y -> loop_ok x.1 x.2 -> loop_ok y.1 y.2.
Proof.
  intros Hr Hx. induction Hr as [|x l m l' m' Hr IH Hs]; [done|]. pose proof (loop_step_ok l m (IH Hx)) as Hok. unfold wlp in Hok. by rewrite Hs in Hok.
Qed.
Fixpoint steps (n : nat) (x : label * Machine D W) : option (label * Machine D W) :=
  match n with
  | O => Some x
  | S n => y ← steps n x; match loop_step y.1 y.2 with Ret (inl l, m) => Some (l, m) | _ => None end
  end.
Lemma steps_reach n x y : steps n x = Some y -> loop_reach x y.
Proof.
  revert y. induction n as [|n IH]; intros y; cbn [steps]; [intros [= <-]; constructor|].
  intros ([l m] & Hx & Hy)%bind_Some. cbn [fst snd] in Hy. destruct (loop_step l m) as [[[l'|] m']|] eqn:E; [|done..].
  injection Hy as <-. eapply reach_step; [by apply IH|done].
Qed.
End Loop.

(** ** Properties *)

(** C2: started with an empty instruction cache (or any complete one), the main loop
    only comes to pointers of translated instructions whose handler exists: a handler moves
    on by the size its translation allocated, a block ends in a branch before the end of the
    buffer, and clearing the cache in a call of the kernel leaves the running block whole. *)
Theorem code_pointers_valid {D W : Type} `{Host} `{Devices D} `{Kernel D W} `{Translator} `{!KeepsCode}
  (m0 m : Machine D W) (ptr : Z) :
  cache_ok m0 -> loop_reach (L_DISPATCH, m0) (L_INST ptr, m) ->
  exists i, trans_cache_buf (trans_cache m) !! ptr = Some i /\ is_Some (InstLabel (D := D) (W := W) !! Z.to_nat (idx i)).
Proof.
  intros Hok Hr. destruct (reach_ok _ _ Hr) as [_ [limit Hb]]; [by split|]. cbn [fst snd] in Hb.
  destruct (block_first _ _ _ Hb) as (i & Hi & Hv & _). exists i. split; [done|by apply handlers_of_block].
Qed.
Section Demo.
#[local] Existing Instance demo_host.
#[local] Existing Instance demo_devices.
#[local] Existing Instance demo_translator.
#[local] Existing Instance demo_kernel.
#[local] Instance demo_keeps : KeepsCode (D := unit) (W := list Z).
Proof.
  split; [by intros n [[[c m] t] w]|].
  intros n c mem t w c' mem' t' w' E. injection E as <- <- <- <-. split; [done|by left].
Qed.
(** Three instructions, with a call of the kernel in between *)
Definition demo_code : Machine unit (list Z) :=
  (demo_machine ([0xE3A00005; 0xEF000032; 0xE2801003; 0xEAFFFFFE] ≫= le_encode 4)) <| cpu ::= set_field NumInstrsToExecute (fun _ => 100) |>.
Definition demo_ptr (o : option (label * Machine unit (list Z))) : option Z := match o with Some (L_INST p, _) => Some p | _ => None end.
Lemma code_pointers_valid_witness : exists m i, trans_cache_buf (trans_cache m) !! 52 = Some i /\
  is_Some (InstLabel (D := unit) (W := list Z) !! Z.to_nat (idx i)) /\ steps 3 (L_DISPATCH, demo_code) = Some (L_INST 52, m).
Proof.
  assert (E : demo_ptr (steps 3 (L_DISPATCH, demo_code)) = Some 52) by (vm_compute; reflexivity).
  destruct (steps 3 (L_DISPATCH, demo_code)) as [[[|p] m]|] eqn:Hs; [discriminate E| |discriminate E]. injection E as ->.
  apply steps_reach in Hs as Hr. assert (Hok : cache_ok demo_code) by (intros pc ptr Hp; discriminate Hp).
  destruct (code_pointers_valid demo_code m 52 Hok Hr) as (i & Hi & Hh). exists m, i. split; [exact Hi|split; [exact Hh|reflexivity]].
Defined.
End Demo.
