(* ===== verification/ArmBudget.v ===== *)
(** The main loop ends: its budget of instructions is never raised, and a block is translated
    within its page. *)

From S2P Require Import Prelude MemoryMap Memory MemoryAccess ArmSupp ArmState ArmOperands ArmDecode ArmThumb ArmTrans ArmData ArmMedia ArmSystem ArmMachine ArmLoop ArmSteady ArmKeeps ArmDemo ArmCode.

(** ** Translation ends *)

(** A computation that does not run out of fuel *)
Abbreviation fuelled m := (tame (fun _ _ => True) (fun _ => True) m).
#[export] Instance true_order S : PreOrder (fun _ _ : S => True).
Proof. split; repeat intro; exact I. Qed.
Lemma fuelled_tame {S A} (R : S -> S -> Prop) (P : A -> Prop) (m : Prelude.M S A) : tame R P m -> fuelled m.
Proof. intros Hm s. specialize (Hm s). destruct (m s) as [[a s']|]; [done|exact Hm]. Qed.
Lemma fuelled_zoom {S T A} (g : S -> T) (p : T -> S -> S) (f : Prelude.M T A) : fuelled f -> fuelled (zoom g p f).
Proof. by apply tame_zoom. Qed.
Lemma fuelled_modify {S} (f : S -> S) : fuelled (modify f).
Proof. by apply tame_modify. Qed.
#[local] Hint Resolve fuelled_modify : tame.

Section Translation.
Context `{Translator}.
Lemma new_inst_fuelled l i : fuelled (new_inst l i).
Proof. unfold new_inst, AllocBuffer. repeat tame_step. Qed.
Lemma translate_fuelled index inst : fuelled (translate index inst).
Proof.
  unfold translate. intros t. unfold mbind, M_bind, deref. destruct (arm_instruction_trans !! _) as [f|] eqn:Ef; [|done].
  revert t. change (fuelled (f inst index)).
  assert (Hall : Forall (fun f : Z -> Z -> Prelude.M TransCache Z => forall inst index, fuelled (f inst index)) arm_instruction_trans).
  { unfold arm_instruction_trans. repeat (apply List.Forall_cons; [intros ? ?; apply new_inst_fuelled|]). apply List.Forall_nil. }
  rewrite Forall_forall in Hall. apply Hall. by eapply list_elem_of_lookup_2.
Qed.
Lemma DecodeThumb_fuelled inst addr : fuelled (DecodeThumbInstruction inst addr).
Proof.
  unfold DecodeThumbInstruction. destruct (TranslateThumbInstruction addr inst) as [[ret a] n]. pose proof translate_fuelled.
  destruct ret; [apply tame_ret; [exact _|done]..| |apply tame_ret; [exact _|done]]. cbv zeta.
  repeat match goal with |- tame _ _ (if ?b then _ else _) => destruct b end; repeat tame_step; done.
Qed.
End Translation.
#[export] Hint Resolve translate_fuelled DecodeThumb_fuelled : tame.

Section Blocks.
Context {D W : Type} `{Host} `{Devices D} `{Kernel D W} `{Translator}.
Implicit Types (m : Machine D W).
Lemma instruction_fuelled addr : fuelled (InterpreterTranslateInstruction (D := D) (W := W) addr).
Proof.
  unfold InterpreterTranslateInstruction. apply tame_seq; [exact _|apply fuelled_zoom; eapply fuelled_tame, Read_tame|]. intros inst.
  apply tame_seq; [exact _|apply tame_gets; exact _|]. intros s. apply tame_seq; [exact _| |].
  - apply tame_case; [|by apply tame_ret; [exact _|]]. apply tame_seq; [exact _|apply fuelled_zoom, DecodeThumb_fuelled|].
    intros [[[ret a] n] ptr]. apply tame_case; by apply tame_ret; [exact _|].
  - intros [[inst' n] [ptr|]]; [by apply tame_ret; [exact _|]|]. apply tame_seq; [exact _|apply tame_deref; exact _|]. intros index.
    apply tame_seq; [exact _|apply fuelled_zoom, translate_fuelled|]. intros ptr. by apply tame_ret; [exact _|].
Qed.
Lemma inst_at_fuelled ptr : fuelled (inst_at (D := D) (W := W) ptr).
Proof. unfold inst_at. repeat tame_step. Qed.
Lemma set_br_fuelled ptr b : fuelled (set_br (D := D) (W := W) ptr b).
Proof. unfold set_br, inst_at. repeat tame_step. Qed.
(** What is left of the page of [addr] *)
Definition page_left (addr : Z) : Z := 4096 - addr mod 4096.
Lemma page_left_next addr n : (n = 2 \/ n = 4) -> addr mod n = 0 -> u32 (addr + n) mod n = 0 /\
  (Z.land (u32 (addr + n)) 0xfff = 0 \/ page_left (u32 (addr + n)) = page_left addr - n).
Proof.
  intros Hn Ha. unfold page_left. change 0xfff with (Z.ones 12). rewrite Z.land_ones by lia. change (2 ^ 12) with 4096.
  unfold u32. destruct Hn as [-> | ->]; split; Z.to_euclidean_division_equations; lia.
Qed.
Definition outcome_fuelled {A} (o : outcome A) : Prop := match o with Crash OutOfFuel => False | _ => True end.
(** A sequence, from a state *)
Lemma fuelled_seq {S A B} (m : Prelude.M S A) (k : A -> Prelude.M S B) s :
  outcome_fuelled (m s) -> wlp m (fun a s' => outcome_fuelled (k a s')) s -> outcome_fuelled ((m ≫= k) s).
Proof. intros Hm Hk. unfold mbind, M_bind. unfold wlp in Hk. destruct (m s) as [[a s']|[]]; done. Qed.
Lemma fuelled_at {S A} (m : Prelude.M S A) s : fuelled m -> outcome_fuelled (m s).
Proof. intros Hm. specialize (Hm s). destruct (m s) as [[a s']|[]]; done. Qed.
Lemma translate_loop_fuelled fuel addr m : addr mod GetInstructionSize (cpu m) = 0 ->
  page_left addr <= GetInstructionSize (cpu m) * Z.of_nat fuel -> outcome_fuelled (translate_loop fuel addr m).
Proof.
  assert (Hsize : GetInstructionSize (cpu m) = 2 \/ GetInstructionSize (cpu m) = 4) by (unfold GetInstructionSize; destruct (truth _); auto).
  revert Hsize. remember (cpu m) as c eqn:Hc. revert addr m Hc. induction fuel as [|fuel IH]; intros addr m Hc Hsize Ha Hleft.
  { unfold page_left in Hleft. pose proof (Z.mod_pos_bound addr 4096 ltac:(lia)). lia. }
  cbn [translate_loop]. apply fuelled_seq; [apply fuelled_at, instruction_fuelled|].
  eapply wlp_mono; [apply instruction_adds|]. intros [n ptr] m1 (Hn & Hc1 & _). cbn [fst] in Hn. rewrite <- Hc in *. subst n. cbn beta iota.
  destruct (page_left_next addr _ Hsize Ha) as [Ha' Hnext].
  apply fuelled_seq; [apply fuelled_at, tame_deref; exact _|]. apply wlp_deref. intros start _. cbv zeta.
  apply fuelled_seq; [apply fuelled_at; destruct (_ =? 0); [apply set_br_fuelled|by apply tame_ret; [exact _|]]|].
  destruct (Z.eqb_spec (Z.land (u32 (addr + GetInstructionSize c)) 0xfff) 0) as [Hend|Hend].
  - apply wlp_set_br. intros i Hi. apply fuelled_seq; [apply fuelled_at, inst_at_fuelled|]. apply wlp_inst_at. intros i'. cbn.
    rewrite lookup_insert_eq. by intros [= <-].
  - wlp_step. apply fuelled_seq; [apply fuelled_at, inst_at_fuelled|]. apply wlp_inst_at. intros i _. case_bool_decide; [|done].
    destruct Hnext as [Hnext|Hnext]; [done|]. apply IH; (done || lia).
Qed.
Lemma cpu_same m : m <| cpu := cpu m |> = m.
Proof. by destruct m. Qed.
Lemma TranslateBlock_fuelled addr m : addr mod GetInstructionSize (cpu m) = 0 -> outcome_fuelled (InterpreterTranslateBlock addr m).
Proof.
  intros Ha. unfold InterpreterTranslateBlock. apply fuelled_seq; [done|]. apply wlp_get. cbv zeta.
  apply fuelled_seq; [apply fuelled_at, fuelled_zoom; unfold cpu_Reg; repeat tame_step|].
  unfold reg. apply wlp_zoom. unfold cpu_Reg. do 2 wlp_step. apply wlp_deref. intros pc _. rewrite cpu_same.
  apply fuelled_seq.
  - apply translate_loop_fuelled; [done|]. unfold page_left, GetInstructionSize. pose proof (Z.mod_pos_bound addr 4096 ltac:(lia)).
    destruct (truth _); lia.
  - eapply wlp_mono; [apply wlp_true|]. cbn beta. intros _ m' _. apply fuelled_at. unfold cache_block. repeat tame_step. apply fuelled_zoom, fuelled_modify.
Qed.
Lemma TranslateSingle_fuelled addr : fuelled (InterpreterTranslateSingle (D := D) (W := W) addr).
Proof.
  unfold InterpreterTranslateSingle. pose proof instruction_fuelled. pose proof inst_at_fuelled. pose proof set_br_fuelled.
  repeat tame_step; try done; unfold cache_block, reg; apply fuelled_zoom; unfold cpu_Reg; repeat tame_step.
Qed.
End Blocks.

(** ** The budget *)

Definition lowers (s s' : ARMul_State) : Prop := 0 <= NumInstrsToExecute s -> 0 <= NumInstrsToExecute s' <= NumInstrsToExecute s.
Lemma lowers_same s s' : NumInstrsToExecute s' = NumInstrsToExecute s -> lowers s s'.
Proof. unfold lowers. lia. Qed.
#[export] Instance lowers_order : PreOrder lowers.
Proof. split; [intros s; by apply lowers_same|]. unfold lowers. intros s1 s2 s3 K1 K2 K3. specialize (K1 K3). lia. Qed.
Lemma budget_mode mode s : NumInstrsToExecute (ChangePrivilegeMode mode s) = NumInstrsToExecute s.
Proof.
  unfold ChangePrivilegeMode, load_bank, save_bank, load_spsr, load_r13_r14.
  repeat match goal with |- context [if ?b then _ else _] => destruct b end; done.
Qed.
Lemma budget_cp15 s v crn o1 crm o2 : NumInstrsToExecute (WriteCP15Register v crn o1 crm o2 s) = NumInstrsToExecute s.
Proof.
  assert (Hw : forall l s, NumInstrsToExecute (write_found l v crn o1 crm o2 s) = NumInstrsToExecute s).
  { intros l s'. unfold write_found. by destruct (cp15_find l crn o1 crm o2). }
  unfold WriteCP15Register. rewrite Hw. destruct (InAPrivilegedMode s); [apply Hw|reflexivity].
Qed.
Instance lowers_regs : RegPrims lowers.
Proof. split; [exact _|..]; intros; by apply lowers_same. Qed.
Instance lowers_free : FreePrims lowers.
Proof. split; try exact _; intros; apply lowers_same; try done. apply budget_mode. Qed.
Instance lowers_prims : CpuPrims lowers.
Proof.
  split; try exact _; try (intros; by apply lowers_same).
  - intros s. by apply (free_restore lowers).
  - intros s Hs. cbn. lia.
  - intros. apply lowers_same, budget_cp15.
  - intros. by apply CPS_free, _.
  - intros. by apply MSR_free, _.
  - intros. by apply MRC_free, _.
  - intros. by apply VMSR_free, _.
Qed.

Section Budget.
Context {D W : Type} `{Host} `{Devices D} `{Kernel D W} `{Translator}.
Implicit Types (m : Machine D W).
(** The instructions that are left *)
Definition left_ m : Z := Z.max 0 (NumInstrsToExecute (cpu m) - num_instrs m).
Definition spends m m' : Prop :=
  0 <= NumInstrsToExecute (cpu m) -> 0 <= num_instrs m ->
  0 <= NumInstrsToExecute (cpu m') <= NumInstrsToExecute (cpu m) /\ 0 <= num_instrs m' <= num_instrs m /\ left_ m' <= left_ m.
#[export] Instance spends_order : PreOrder spends.
Proof. split; unfold spends; [intros m; lia|]. intros m1 m2 m3 K1 K2 K3 K4. specialize (K1 K3 K4). specialize (K2 ltac:(lia) ltac:(lia)). lia. Qed.
(** What the kernel promises: PrepareReschedule is all that the
    kernel does to the budget. *)
Class KeepsBudget : Prop := {
  budget_returns n x : CallSVC n x <> Crash OutOfFuel;
  budget_svc n c mem t w c' mem' t' w' : CallSVC n (c, mem, t, w) = Ret (c', mem', t', w') -> lowers c c';
}.
Lemma spends_cpu m s : lowers (cpu m) s -> spends m (m <| cpu := s |>).
Proof. unfold spends, left_, lowers. intros Hs Hn1 Hn2. cbn. specialize (Hs Hn1). lia. Qed.
#[export] Instance spends_prims `{!KeepsBudget} : AllPrims lowers spends.
Proof.
  split; [split|..]; try exact _; try done; try (intros; by apply lowers_same).
  - apply spends_cpu.
  - intros s. apply lowers_same. by rewrite !budget_mode.
  - intros m Hn1 Hn2. unfold left_, account. cbn. destruct (Z.leb_spec (NumInstrsToExecute (cpu m)) (num_instrs m)); lia.
  - intros n m. unfold call_kernel. pose proof (budget_returns n (cpu m, memory m, trans_cache m, world m)) as Hr.
    destruct (CallSVC n (cpu m, memory m, trans_cache m, world m)) as [[[[c mem] t] w]|f] eqn:E; [|congruence].
    split; [|done]. apply budget_svc in E. intros Hn1 Hn2. specialize (E Hn1). unfold left_. unfold lowers in E. cbn in *. lia.
Qed.

(** *** The main loop *)

Definition same_budget m m' : Prop := NumInstrsToExecute (cpu m') = NumInstrsToExecute (cpu m) /\ num_instrs m' = num_instrs m.
Lemma new_block_budget m m' : new_block m m' -> same_budget m m'.
Proof. intros (_ & _ & _ & Hc & Hn). split; [by rewrite Hc|done]. Qed.
Lemma translate_budget addr m : wlp (InterpreterTranslateBlock addr) (fun _ => same_budget m) m.
Proof.
  unfold InterpreterTranslateBlock, reg. do 3 wlp_step. apply wlp_zoom. unfold cpu_Reg. do 2 wlp_step. apply wlp_deref. intros pc _. rewrite cpu_same.
  wlp_step. eapply wlp_mono; [apply loop_block|]. cbn beta. intros _ m' Hb%new_block_budget. wlp_step. unfold cache_block. apply wlp_zoom, wlp_modify.
  cbn beta. by apply wlp_ret.
Qed.
Lemma single_budget addr m : wlp (InterpreterTranslateSingle addr) (fun _ => same_budget m) m.
Proof.
  unfold InterpreterTranslateSingle, reg. do 3 wlp_step. apply wlp_zoom. unfold cpu_Reg. do 2 wlp_step. apply wlp_deref. intros pc _. rewrite cpu_same.
  wlp_step. eapply wlp_mono; [apply instruction_adds|]. intros [n ptr] m1 (_ & Hc & Hn & _). cbn beta iota. wlp_step. apply wlp_deref. intros start _.
  wlp_step. apply wlp_inst_at. intros i Hi. wlp_step. eapply (wlp_mono _ (fun _ m2 => same_budget m m2)).
  - case_bool_decide; [apply wlp_set_br; intros i' _|wlp_step]; split; cbn; by rewrite ?Hc, ?Hn.
  - cbn beta. intros _ m2 Hm2. wlp_step. unfold cache_block. apply wlp_zoom, wlp_modify. cbn beta. by apply wlp_ret.
Qed.
Lemma reg_fuelled i : fuelled (reg (D := D) (W := W) i).
Proof. apply fuelled_zoom. unfold cpu_Reg. repeat tame_step. Qed.
Lemma set_reg_fuelled i v : fuelled (set_reg (D := D) (W := W) i v).
Proof. apply fuelled_zoom. unfold set_Reg. repeat tame_step. Qed.
Lemma aligned_pc (b : bool) pc : u32 (Z.land pc (if b then 0xfffffffe else 0xfffffffc)) mod (if b then 2 else 4) = 0.
Proof.
  assert (Ha : forall z n, 0 <= n -> Z.land (Z.land pc z) (Z.ones n) = Z.land pc (Z.land z (Z.ones n))) by (intros; by rewrite Z.land_assoc).
  assert (Hm : forall z n, 0 < n <= 32 -> u32 z mod 2 ^ n = z mod 2 ^ n).
  { intros z n Hn. unfold u32. change 4294967296 with (2 ^ 32). replace (2 ^ 32) with (2 ^ n * 2 ^ (32 - n)) by (rewrite <- Z.pow_add_r by lia; f_equal; lia).
    rewrite Z.rem_mul_r, (Z.mul_comm (2 ^ n)), Z.mod_add by lia. apply Z.mod_mod. lia. }
  destruct b.
  - rewrite (Hm _ 1), <- Z.land_ones, Ha by lia. apply Z.land_0_r.
  - rewrite (Hm _ 2), <- Z.land_ones, Ha by lia. apply Z.land_0_r.
Qed.
(** [ends]: partial correctness, and the fuel is enough. *)
Definition ends {S A} (f : Prelude.M S A) (Q : A -> S -> Prop) (s : S) : Prop := outcome_fuelled (f s) /\ wlp f Q s.
Lemma ends_bind {S A B} (f : Prelude.M S A) (k : A -> Prelude.M S B) Q s : ends f (fun a => ends (k a) Q) s -> ends (f ≫= k) Q s.
Proof.
  intros [Hf Hk]. split; [apply fuelled_seq; [done|]; eapply wlp_mono; [exact Hk|]; by intros a s' []|].
  apply wlp_bind. eapply wlp_mono; [exact Hk|]. by intros a s' [].
Qed.
Lemma ends_fuelled {S A} (f : Prelude.M S A) Q s : fuelled f -> wlp f Q s -> ends f Q s.
Proof. split; [by apply fuelled_at|done]. Qed.
Lemma ends_ret {S A} (a : A) (Q : A -> S -> Prop) s : Q a s -> ends (mret a) Q s.
Proof. intros HQ. split; [done|by apply wlp_ret]. Qed.
Lemma ends_mono {S A} (f : Prelude.M S A) (P Q : A -> S -> Prop) s : ends f P s -> (forall a s', P a s' -> Q a s') -> ends f Q s.
Proof. intros [Hf Hp] HQ. split; [done|by eapply wlp_mono]. Qed.
Lemma ends_reg (Q : Z -> Machine D W -> Prop) m : (forall pc, Reg (cpu m) !! 15%nat = Some pc -> Q pc m) -> ends (reg 15) Q m.
Proof.
  intros HQ. apply ends_fuelled; [apply reg_fuelled|]. apply wlp_zoom. unfold cpu_Reg. do 2 wlp_step. apply wlp_deref. intros pc Hpc.
  rewrite cpu_same. by apply HQ.
Qed.
Lemma ends_set_reg v (Q : unit -> Machine D W -> Prop) m : Q tt (m <| cpu ::= fun s => s <| Reg ::= <[15%nat := u32 v]> |> |>) -> ends (set_reg 15 v) Q m.
Proof.
  intros HQ. apply ends_fuelled; [apply set_reg_fuelled|]. apply wlp_zoom. unfold set_Reg. do 2 wlp_step. wlp_step. apply wlp_deref. intros r Hr. by wlp_step.
Qed.
Lemma dispatch_budget m : ends dispatch (fun _ => same_budget m) m.
Proof.
  unfold dispatch. apply ends_bind, ends_fuelled; [apply tame_gets; exact _|apply wlp_gets]. destruct (_ && _); [by apply ends_ret|].
  apply ends_bind, ends_reg. intros pc0 _. apply ends_bind, ends_set_reg. apply ends_bind, ends_reg. intros pc Hpc.
  set (m1 := m <| cpu ::= _ |>) in *. assert (Hm1 : same_budget m m1) by done.
  assert (Ha : pc mod GetInstructionSize (cpu m1) = 0).
  { cbn in Hpc. rewrite list_lookup_insert_Some in Hpc. destruct Hpc as [(_ & <- & _)|[? _]]; [|done].
    unfold GetInstructionSize. change (TFlag (cpu m1)) with (TFlag (cpu m)). apply aligned_pc. }
  destruct (instruction_cache (cpu m) !! pc) as [ptr|]; [by apply ends_ret|].
  apply ends_bind. eapply (ends_mono _ (fun _ => same_budget m1)).
  - destruct (negb _); split; try apply translate_budget; try apply single_budget; [by apply TranslateBlock_fuelled|apply fuelled_at, TranslateSingle_fuelled].
  - intros ptr m2 [E1 E2]. apply ends_ret. destruct Hm1. split; congruence.
Qed.

Context `{!KeepsBudget}.
Lemma execute_spends ptr : tame spends (fun _ => True) (execute ptr).
Proof.
  unfold execute. apply tame_seq; [exact _|unfold inst_at; repeat tame_step|]. intros i. apply tame_bind with (fun h => forall i, tame spends (fun _ => True) (h i)).
  - exact _.
  - intros m. unfold deref. destruct (InstLabel !! Z.to_nat (idx i)) as [h|] eqn:Eh; [|done]. change (spends m m /\ forall i, tame spends (fun _ => True) (h i)).
    split; [done|]. intros j. eapply tame_mono; [apply (all_tame lowers spends (Z.of_nat (Z.to_nat (idx i)))); [by rewrite Nat2Z.id|lia]|done].
  - intros h Hh. apply tame_seq; [exact _|apply Hh|]. intros [l| |]; [|by apply tame_ret; [exact _|]..]. unfold inst_at. repeat tame_step.
Qed.
(** The steps from a label to the end *)
Definition steps_left (l : label) m : nat := Z.to_nat (2 * left_ m) + match l with L_DISPATCH => 2 | L_INST _ => 1 end.
Definition budget_ok m : Prop := 0 <= NumInstrsToExecute (cpu m) < 2 ^ 32 /\ 0 <= num_instrs m.
Lemma finish_ends (n : Z) m : 0 <= num_instrs m <= n -> ends finish (fun k m' => 0 <= k <= n) m.
Proof. intros Hn. split; [done|]. unfold finish. wlp_step. apply wlp_zoom, wlp_modify. cbn beta. by apply wlp_gets. Qed.
Lemma loop_step_budget l m n : budget_ok m -> NumInstrsToExecute (cpu m) <= n -> num_instrs m <= n ->
  ends (loop_step l) (fun r m' => match r with
    | inl l' => budget_ok m' /\ NumInstrsToExecute (cpu m') <= n /\ num_instrs m' <= n /\ (steps_left l' m' < steps_left l m)%nat
    | inr k => 0 <= k <= n end) m.
Proof.
  intros [Hb Hn0] HN Hn. unfold loop_step. destruct l as [|ptr].
  - apply ends_bind. eapply ends_mono; [apply dispatch_budget|]. cbn beta. intros [ptr|] m' [E1 E2].
    + apply ends_ret. unfold budget_ok, steps_left, left_. rewrite E1, E2. split_and!; lia.
    + apply ends_bind. eapply ends_mono; [apply (finish_ends n); lia|]. cbn beta. intros k m2 Hk. by apply ends_ret.
  - apply ends_bind, ends_fuelled; [apply fuelled_zoom, fuelled_modify|]. apply wlp_zoom, wlp_modify. cbn beta.
    apply ends_bind, ends_fuelled; [apply tame_get; exact _|]. apply wlp_get. cbn.
    destruct (Z.leb_spec (NumInstrsToExecute (cpu m)) (num_instrs m)) as [Hle|Hlt].
    { apply ends_bind. eapply ends_mono; [apply (finish_ends n); cbn; lia|]. cbn beta. intros k m2 Hk. by apply ends_ret. }
    apply ends_bind, ends_fuelled; [apply fuelled_modify|]. apply wlp_modify. cbn beta.
    set (m1 := set_field num_instrs _ _). assert (E1 : num_instrs m1 = num_instrs m + 1) by (apply u32_small; word).
    assert (E2 : NumInstrsToExecute (cpu m1) = NumInstrsToExecute (cpu m)) by done.
    apply ends_bind. eapply (ends_mono _ (fun _ => spends m1)).
    { split; [by eapply fuelled_at, fuelled_tame, execute_spends|by eapply wlp_tame, execute_spends]. }
    intros o m2 Hs. destruct (Hs ltac:(lia) ltac:(lia)) as (HN2 & Hn2 & Hl2). destruct o as [l|].
    + apply ends_ret. assert (left_ m1 = left_ m - 1 /\ 0 < left_ m) by (unfold left_; lia). unfold budget_ok, steps_left.
      split_and!; try lia. assert (0 <= left_ m2) by (unfold left_; lia). destruct l; lia.
    + apply ends_bind, ends_fuelled; [apply tame_gets; exact _|]. apply wlp_gets. apply ends_ret. lia.
Qed.
Lemma main_loop_budget fuel l m n : budget_ok m -> NumInstrsToExecute (cpu m) <= n -> num_instrs m <= n -> (steps_left l m <= fuel)%nat ->
  ends (main_loop fuel l) (fun k _ => 0 <= k <= n) m.
Proof.
  revert l m. induction fuel as [|fuel IH]; intros l m Hb HN Hn Hf.
  - unfold steps_left in Hf. destruct l; lia.
  - cbn [main_loop]. apply ends_bind. eapply ends_mono; [by apply (loop_step_budget l m n)|]. intros [l'|k] m'; [|intros Hk; by apply ends_ret].
    intros (Hb' & HN' & Hn' & Hlt). apply IH; (done || lia).
Qed.
End Budget.

(** ** Properties *)

Section Demo.
#[local] Existing Instance demo_host.
#[local] Existing Instance demo_devices.
#[local] Existing Instance demo_translator.
#[local] Existing Instance demo_kernel.
#[local] Instance demo_budget : KeepsBudget (D := unit) (W := list Z).
Proof.
  split; [by intros n [[[c m] t] w]|].
  intros n c mem t w c' mem' t' w' E. injection E as <- <- <- <-. by apply lowers_same.
Qed.
End Demo.
