(* ===== verification/ArmShift.v ===== *)
(** Shifter operands against integer arithmetic: every addressing mode of data processing
    gives the shifted value and the carry of a reference shift. *)

From S2P Require Import Prelude ArmSupp ArmState ArmOperands ArmTrans ArmSteady ArmDemo ArmMachine.

(** ** The reference

    The value and the carry of a shift by [n > 0], for any [n] *)

Inductive shift_kind := LSL | LSR | ASR | ROR.
Definition shift_value (k : shift_kind) (v n : Z) : Z :=
  match k with
  | LSL => v * 2 ^ n mod 2 ^ 32
  | LSR => v / 2 ^ n
  | ASR => s32 v / 2 ^ n mod 2 ^ 32
  | ROR => (v / 2 ^ (n mod 32) + v * 2 ^ (32 - n mod 32)) mod 2 ^ 32
  end.
(** The last bit that leaves the word *)
Definition shift_carry (k : shift_kind) (v n : Z) : Z :=
  match k with
  | LSL => v * 2 ^ n / 2 ^ 32 mod 2
  | LSR => v / 2 ^ (n - 1) mod 2
  | ASR => s32 v / 2 ^ (n - 1) mod 2
  | ROR => v / 2 ^ ((n - 1) mod 32) mod 2
  end.
(** A shift by no distance keeps the carry. *)
Definition shift (k : shift_kind) (v n c : Z) : Z * Z := if n =? 0 then (v, c) else (shift_value k v n, shift_carry k v n).
(** The rotation through the carry *)
Definition RRX (v c : Z) : Z * Z := (c * 2 ^ 31 + v / 2, v mod 2).

(** ** Bits *)

Lemma BIT_div v n : 0 <= n -> BIT v n = v / 2 ^ n mod 2.
Proof. intros Hn. unfold BIT. change 1 with (Z.ones 1). rewrite Z.land_ones by lia. by rewrite Z.shiftr_div_pow2. Qed.
Lemma BIT_31 v : is_u32 v -> BIT v 31 = if v <? 2 ^ 31 then 0 else 1.
Proof. intros Hv. rewrite BIT_div by lia. case_bool; word. Qed.
Lemma pow_split n m : 0 <= n <= m -> 2 ^ m = 2 ^ n * 2 ^ (m - n).
Proof. intros Hn. rewrite <- Z.pow_add_r by lia. f_equal. lia. Qed.
(** Words that share no bits *)
Lemma ROTATE_eq v n : is_u32 v -> 0 <= n < 32 -> ROTATE_RIGHT_32 v n = shift_value ROR v n.
Proof.
  intros Hv Hn. unfold ROTATE_RIGHT_32, shift_value. rewrite Z.shiftl_mul_pow2 by (apply Z.mod_pos_bound; lia).
  rewrite Z.shiftr_div_pow2, (Z.mod_small n) by lia. destruct (Z.eq_dec n 0) as [->|Hn0].
  { change ((32 - 0) mod 32) with 0. change (32 - 0) with 32. change (2 ^ 0) with 1. rewrite Z.div_1_r, Z.mul_1_r.
    rewrite u32_small by done. rewrite Z.lor_diag. rewrite Z.mod_add by (intros E; discriminate E). symmetry. by apply Z.mod_small. }
  rewrite (Z.mod_small (32 - n)) by lia. unfold u32. change 4294967296 with (2 ^ 32).
  assert (Hlow : 0 <= v / 2 ^ n < 2 ^ (32 - n)).
  { split; [apply Z.div_pos; unfold is_u32 in Hv; lia|]. apply Z.div_lt_upper_bound; [lia|]. rewrite <- Z.pow_add_r by lia.
    replace (n + (32 - n)) with 32 by lia. exact (proj2 Hv). }
  rewrite (lor_disjoint _ _ (32 - n)) by (try done; try lia;
    rewrite (pow_split (32 - n) 32) by lia; rewrite Z.mul_comm, Z.mul_mod_distr_l by (apply Z.pow_nonzero; lia); rewrite Z.mul_comm; apply Z.mod_mul; apply Z.pow_nonzero; lia).
  rewrite Z.add_comm, <- (Z.add_mod_idemp_r (v / 2 ^ n)) by lia. symmetry. apply Z.mod_small.
  rewrite (pow_split (32 - n) 32) by lia. rewrite (Z.mul_comm v), Z.mul_mod_distr_l by (apply Z.pow_nonzero; lia).
  assert (0 <= v mod 2 ^ (32 - (32 - n)) < 2 ^ (32 - (32 - n))) by (apply Z.mod_pos_bound; lia). nia.
Qed.
Lemma ROR_none v : is_u32 v -> (v / 2 ^ 0 + v * 2 ^ (32 - 0)) mod 2 ^ 32 = v.
Proof.
  intros Hv. change (32 - 0) with 32. change (2 ^ 0) with 1. rewrite Z.div_1_r, Z.mod_add by (intros E; discriminate E). by apply Z.mod_small.
Qed.
Lemma ROR_carry v n : is_u32 v -> 0 < n < 32 -> BIT (shift_value ROR v n) 31 = shift_carry ROR v n.
Proof.
  intros Hv Hn. rewrite <- ROTATE_eq by lia || done. unfold ROTATE_RIGHT_32, shift_carry. rewrite (Z.mod_small (n - 1)), (Z.mod_small (32 - n)) by lia.
  rewrite <- BIT_div by lia. rewrite !BIT_testbit by lia. f_equal. rewrite Z.lor_spec. unfold u32. change 4294967296 with (2 ^ 32).
  rewrite Z.mod_pow2_bits_low, Z.shiftl_spec, Z.shiftr_spec by lia. replace (31 - (32 - n)) with (n - 1) by lia.
  rewrite (proj1 (Z.bounded_iff_bits_nonneg 32 v ltac:(lia) ltac:(unfold is_u32 in Hv; lia)) ltac:(exact (proj2 Hv)) (31 + n)) by lia.
  apply orb_false_r.
Qed.
Lemma s32_div v n : is_u32 v -> 32 <= n -> s32 v / 2 ^ n = if v <? 2 ^ 31 then 0 else -1.
Proof.
  intros Hv Hn. rewrite s32_u32 by done. assert (Hp : 2 ^ 32 <= 2 ^ n) by (apply Z.pow_le_mono_r; lia). unfold is_u32 in Hv. case_bool.
  - apply Z.div_small. lia.
  - symmetry. apply Z.div_unique with (v - 2 ^ 32 + 2 ^ n); lia.
Qed.
(** The last bit that leaves, in the word *)
Lemma LSL_carry v n : is_u32 v -> 0 < n -> shift_carry LSL v n = if n <=? 32 then BIT v (32 - n) else 0.
Proof.
  intros Hv Hn. unfold shift_carry. case_bool.
  - rewrite BIT_div by lia. f_equal. rewrite (pow_split n 32) by lia. rewrite <- Z.div_div by lia. rewrite Z.div_mul by lia. done.
  - rewrite (pow_split 32 n) by lia. replace (v * (2 ^ 32 * 2 ^ (n - 32))) with (v * 2 ^ (n - 32) * 2 ^ 32) by ring. rewrite Z.div_mul by lia.
    replace (2 ^ (n - 32)) with (2 * 2 ^ (n - 33)) by (rewrite <- Z.pow_succ_r by lia; f_equal; lia).
    replace (v * (2 * 2 ^ (n - 33))) with (v * 2 ^ (n - 33) * 2) by ring. apply Z.mod_mul. lia.
Qed.
Lemma LSL_far v n : 32 <= n -> shift_value LSL v n = 0.
Proof. intros Hn. unfold shift_value. rewrite (pow_split 32 n) by lia. replace (v * (2 ^ 32 * 2 ^ (n - 32))) with (v * 2 ^ (n - 32) * 2 ^ 32) by ring. apply Z.mod_mul. lia. Qed.
Lemma div_far v n : is_u32 v -> 32 <= n -> v / 2 ^ n = 0.
Proof. intros Hv Hn. apply Z.div_small. assert (2 ^ 32 <= 2 ^ n) by (apply Z.pow_le_mono_r; lia). unfold is_u32 in Hv. lia. Qed.
Lemma ASR_bit v n : is_u32 v -> 0 <= n < 32 -> s32 v / 2 ^ n mod 2 = BIT v n.
Proof.
  intros Hv Hn. rewrite BIT_div by lia. rewrite s32_u32 by done. case_bool; [done|].
  replace (v - 2 ^ 32) with (v + - 2 ^ (32 - n) * 2 ^ n) by (rewrite (pow_split n 32) by lia; ring). rewrite Z.div_add by (apply Z.pow_nonzero; lia).
  replace (2 ^ (32 - n)) with (2 * 2 ^ (31 - n)) by (rewrite <- Z.pow_succ_r by lia; f_equal; lia).
  replace (v / 2 ^ n + - (2 * 2 ^ (31 - n))) with (v / 2 ^ n + - 2 ^ (31 - n) * 2) by ring. apply Z.mod_add. lia.
Qed.
Lemma ASR_far v n : is_u32 v -> 32 <= n ->
  shift_value ASR v n = (if BIT v 31 =? 0 then 0 else 0xFFFFFFFF) /\ shift_carry ASR v n = BIT v 31.
Proof.
  intros Hv Hn. rewrite BIT_31 by done. unfold shift_value, shift_carry. rewrite s32_div by done. split; [by case_bool|].
  destruct (Z.eq_dec n 32) as [->|Hne]; [|rewrite s32_div by (done || lia); by case_bool].
  rewrite ASR_bit by (done || lia). apply BIT_31, Hv.
Qed.
Lemma LSR_carry v n : is_u32 v -> 0 < n -> shift_carry LSR v n = if n <=? 32 then BIT v (n - 1) else 0.
Proof. intros Hv Hn. unfold shift_carry. case_bool; [by rewrite BIT_div by lia|]. by rewrite div_far by (done || lia). Qed.

(** ** The addressing modes *)

(** The value and the carry that a mode means: [rm] and [rs] are the registers it names, [c] the carry. *)
Definition shifter_reference (f : shtop_fp_t) (sht_oper rm rs c : Z) : Z * Z :=
  let imm := BITS sht_oper 7 11 in
  let imm32 := if imm =? 0 then 32 else imm in
  let n := BITS rs 0 7 in
  match f with
  | Immediate => shift ROR (BITS sht_oper 0 7) (BITS sht_oper 8 11 * 2) c
  | Register => (rm, c)
  | LogicalShiftLeftByImmediate => shift LSL rm imm c
  | LogicalShiftLeftByRegister => shift LSL rm n c
  | LogicalShiftRightByImmediate => shift LSR rm imm32 c
  | LogicalShiftRightByRegister => shift LSR rm n c
  | ArithmeticShiftRightByImmediate => shift ASR rm imm32 c
  | ArithmeticShiftRightByRegister => shift ASR rm n c
  | RotateRightByImmediate => if imm =? 0 then RRX rm c else shift ROR rm imm c
  | RotateRightByRegister => shift ROR rm n c
  end.
Lemma field_bounds so rs : 0 <= BITS so 7 11 < 32 /\ 0 <= BITS rs 0 7 < 256 /\ 0 <= BITS rs 0 4 < 32 /\ 0 <= BITS so 8 11 < 16 /\ is_u32 (BITS so 0 7).
Proof.
  pose proof (BITS_range so 7 11 ltac:(lia) ltac:(lia)). pose proof (BITS_range rs 0 7 ltac:(lia) ltac:(lia)). pose proof (BITS_range rs 0 4 ltac:(lia) ltac:(lia)).
  pose proof (BITS_range so 8 11 ltac:(lia) ltac:(lia)). pose proof (BITS_range so 0 7 ltac:(lia) ltac:(lia)). unfold is_u32. lia.
Qed.
Lemma low_bits rs : BITS rs 0 4 = BITS rs 0 7 mod 32.
Proof. rewrite !BITS_div by lia. change (2 ^ 0) with 1. rewrite !Z.div_1_r. change (2 ^ (4 + 1)) with 32. change (2 ^ (7 + 1)) with 256. Z.to_euclidean_division_equations; lia. Qed.
Lemma bind_read {A B} (f : Prelude.M ARMul_State A) (k : A -> Prelude.M ARMul_State B) s a : f s = Ret (a, s) -> (f ≫= k) s = k a s.
Proof. intros Hf. unfold mbind, M_bind. by rewrite Hf. Qed.
(** [gives s o p]: the outcome is the value, and the state with the carry. *)
Definition gives (s : ARMul_State) (o : outcome (Z * ARMul_State)) (p : Z * Z) : Prop := o = Ret (p.1, s <| shifter_carry_out := p.2 |>).
Lemma gives_set s c v p : p = (v, c) -> gives s ((set_shifter_carry_out c;; mret v) s) p.
Proof. by intros ->. Qed.
Lemma gives_keep s v p : p = (v, CFlag s) -> gives s ((keep_carry;; mret v) s) p.
Proof. by intros ->. Qed.

Section Modes.
Context (s : ARMul_State) (so rm rs : Z).
Hypothesis Hrm : CHECK_READ_REG15 (RM_of so) s = Ret (rm, s).
Hypothesis Hrs : CHECK_READ_REG15 (RS_of so) s = Ret (rs, s).
Hypothesis Hword : is_u32 rm.
Abbreviation reference f := (shifter_reference f so rm rs (CFlag s)).

Ltac bounds := pose proof (field_bounds so rs) as (?Himm & ?Hn & ?Hn5 & ?Hrot & ?Himm8).
(** The carry and the value are kept, or set *)
Ltac operand := first [apply gives_keep|apply gives_set]; unfold shift.

Lemma immediate_reference : gives s (DataProcessingOperandsImmediate so s) (reference Immediate).
Proof.
  bounds. unfold DataProcessingOperandsImmediate. cbn [shifter_reference]. rewrite ROTATE_eq by (done || lia). destruct (Z.eqb_spec (BITS so 8 11) 0) as [E|E].
  - operand. rewrite E. change (0 * 2) with 0. change (0 =? 0) with true. cbv iota. f_equal. symmetry. by apply ROR_none.
  - operand. rewrite (proj2 (Z.eqb_neq _ 0)) by lia. f_equal. symmetry. apply ROR_carry; (done || lia).
Qed.
Lemma LSL_immediate_reference : gives s (DataProcessingOperandsLogicalShiftLeftByImmediate so s) (reference LogicalShiftLeftByImmediate).
Proof.
  bounds. unfold DataProcessingOperandsLogicalShiftLeftByImmediate. cbv zeta. rewrite (bind_read _ _ _ _ Hrm). cbn [shifter_reference]. set (imm := BITS so 7 11) in *.
  destruct (Z.eqb_spec imm 0) as [E|E]; operand.
  - by rewrite E.
  - rewrite (proj2 (Z.eqb_neq _ _)) by done. rewrite LSL_carry, (proj2 (Z.leb_le _ _)) by (done || lia). unfold shift_value. by rewrite Z.shiftl_mul_pow2 by lia.
Qed.
Lemma LSL_register_reference : gives s (DataProcessingOperandsLogicalShiftLeftByRegister so s) (reference LogicalShiftLeftByRegister).
Proof.
  bounds. unfold DataProcessingOperandsLogicalShiftLeftByRegister. rewrite (bind_read _ _ _ _ Hrm), (bind_read _ _ _ _ Hrs). cbn [shifter_reference]. set (n := BITS rs 0 7) in *. cbv zeta.
  destruct (Z.eqb_spec n 0) as [E|E]; [operand; by rewrite E|].
  assert (Hs : shift LSL rm n (CFlag s) = (shift_value LSL rm n, if n <=? 32 then BIT rm (32 - n) else 0)).
  { unfold shift. rewrite (proj2 (Z.eqb_neq _ _)) by done. by rewrite LSL_carry by (done || lia). }
  rewrite Hs. destruct (Z.ltb_spec n 32); [|destruct (Z.eqb_spec n 32) as [E32|]]; operand; case_bool; try lia; f_equal; try (apply LSL_far; lia).
  - unfold shift_value. by rewrite Z.shiftl_mul_pow2 by lia.
  - by rewrite E32.
Qed.
Lemma LSR_immediate_reference : gives s (DataProcessingOperandsLogicalShiftRightByImmediate so s) (reference LogicalShiftRightByImmediate).
Proof.
  bounds. unfold DataProcessingOperandsLogicalShiftRightByImmediate. rewrite (bind_read _ _ _ _ Hrm). cbn [shifter_reference]. set (imm := BITS so 7 11) in *. cbv zeta.
  destruct (Z.eqb_spec imm 0) as [E|E]; operand.
  - cbn [Z.eqb]. rewrite LSR_carry by (done || lia). f_equal. by apply div_far.
  - rewrite (proj2 (Z.eqb_neq _ _)) by done. rewrite LSR_carry, (proj2 (Z.leb_le _ _)) by (done || lia). unfold shift_value. by rewrite Z.shiftr_div_pow2 by lia.
Qed.
Lemma LSR_register_reference : gives s (DataProcessingOperandsLogicalShiftRightByRegister so s) (reference LogicalShiftRightByRegister).
Proof.
  bounds. unfold DataProcessingOperandsLogicalShiftRightByRegister. rewrite (bind_read _ _ _ _ Hrs), (bind_read _ _ _ _ Hrm). cbn [shifter_reference]. set (n := BITS rs 0 7) in *. cbv zeta.
  destruct (Z.eqb_spec n 0) as [E|E]; [operand; by rewrite E|].
  assert (Hs : shift LSR rm n (CFlag s) = (rm / 2 ^ n, if n <=? 32 then BIT rm (n - 1) else 0)).
  { unfold shift. rewrite (proj2 (Z.eqb_neq _ _)) by done. by rewrite LSR_carry by (done || lia). }
  rewrite Hs. destruct (Z.ltb_spec n 32); [|destruct (Z.eqb_spec n 32) as [E32|]]; operand; case_bool; try lia; f_equal; try (apply div_far; (done || lia)).
  - by rewrite Z.shiftr_div_pow2 by lia.
  - by rewrite E32.
Qed.
Lemma ASR_immediate_reference : gives s (DataProcessingOperandsArithmeticShiftRightByImmediate so s) (reference ArithmeticShiftRightByImmediate).
Proof.
  bounds. unfold DataProcessingOperandsArithmeticShiftRightByImmediate. rewrite (bind_read _ _ _ _ Hrm). cbn [shifter_reference]. set (imm := BITS so 7 11) in *. cbv zeta.
  destruct (Z.eqb_spec imm 0) as [E|E]; operand.
  - cbn [Z.eqb]. destruct (ASR_far rm 32 Hword ltac:(lia)) as [-> ->]. done.
  - rewrite (proj2 (Z.eqb_neq _ _)) by done. unfold shift_value, shift_carry. rewrite ASR_bit by (done || lia). by rewrite Z.shiftr_div_pow2 by lia.
Qed.
Lemma ASR_register_reference : gives s (DataProcessingOperandsArithmeticShiftRightByRegister so s) (reference ArithmeticShiftRightByRegister).
Proof.
  bounds. unfold DataProcessingOperandsArithmeticShiftRightByRegister. rewrite (bind_read _ _ _ _ Hrs), (bind_read _ _ _ _ Hrm). cbn [shifter_reference]. set (n := BITS rs 0 7) in *. cbv zeta.
  destruct (Z.eqb_spec n 0) as [E|E]; [operand; by rewrite E|]. destruct (Z.ltb_spec n 32); operand; rewrite (proj2 (Z.eqb_neq _ _)) by done.
  - unfold shift_value, shift_carry. rewrite ASR_bit by (done || lia). by rewrite Z.shiftr_div_pow2 by lia.
  - destruct (ASR_far rm n Hword ltac:(lia)) as [-> ->]. done.
Qed.
Lemma ROR_immediate_reference : is_bit (CFlag s) -> gives s (DataProcessingOperandsRotateRightByImmediate so s) (reference RotateRightByImmediate).
Proof.
  intros Hc. bounds. unfold DataProcessingOperandsRotateRightByImmediate. rewrite (bind_read _ _ _ _ Hrm). cbn [shifter_reference]. set (imm := BITS so 7 11) in *. cbv zeta.
  destruct (Z.eqb_spec imm 0) as [E|E].
  - rewrite (bind_read get _ _ s) by done. operand. unfold RRX. rewrite BIT_div by lia. change (2 ^ 0) with 1. rewrite Z.div_1_r. f_equal.
    rewrite Z.shiftr_div_pow2, Z.shiftl_mul_pow2 by lia. change (2 ^ 1) with 2. unfold is_u32 in Hword.
    rewrite (lor_disjoint _ _ 31); [f_equal; symmetry; apply u32_small|lia| |].
    + unfold is_u32. destruct Hc as [-> | ->]; lia.
    + split; [apply Z.div_pos; lia|apply Z.div_lt_upper_bound; lia].
    + by destruct Hc as [-> | ->].
  - operand. rewrite (proj2 (Z.eqb_neq _ _)) by done. rewrite ROTATE_eq by (done || lia). f_equal. unfold shift_carry. rewrite (Z.mod_small (imm - 1)) by lia. symmetry. apply BIT_div. lia.
Qed.
Lemma ROR_register_reference : gives s (DataProcessingOperandsRotateRightByRegister so s) (reference RotateRightByRegister).
Proof.
  bounds. unfold DataProcessingOperandsRotateRightByRegister. rewrite (bind_read _ _ _ _ Hrm), (bind_read _ _ _ _ Hrs). cbn [shifter_reference]. rewrite low_bits in *. set (n := BITS rs 0 7) in *.
  destruct (Z.eqb_spec n 0) as [E|E]; [operand; by rewrite E|].
  destruct (Z.eqb_spec (n mod 32) 0) as [Em|Em]; operand; rewrite (proj2 (Z.eqb_neq n _)) by done; unfold shift_carry; rewrite <- BIT_div by (apply Z.mod_pos_bound; lia).
  - f_equal; [|f_equal; Z.to_euclidean_division_equations; lia]. unfold shift_value. rewrite Em.
    by apply ROR_none.
  - rewrite ROTATE_eq by (done || lia). f_equal.
    + unfold shift_value. by rewrite Z.mod_mod by lia.
    + f_equal. Z.to_euclidean_division_equations; lia.
Qed.
End Modes.

(** ** Properties *)

(** C22: every shifter operand agrees with integer arithmetic: the ten addressing modes
    give the value of a shift or rotation by the encoded distance (0 meaning 32, none, or a
    rotation through the carry, by the mode; up to 255 by register), and the carry is the
    last bit that left the word, or the carry before where nothing was shifted. *)
Theorem shifter_operand_reference (f : shtop_fp_t) (so rm rs : Z) (s : ARMul_State) :
  CHECK_READ_REG15 (RM_of so) s = Ret (rm, s) -> CHECK_READ_REG15 (RS_of so) s = Ret (rs, s) -> is_u32 rm -> is_bit (CFlag s) ->
  SHIFTER_OPERAND (Some f) so s =
    let '(value, carry) := shifter_reference f so rm rs (CFlag s) in Ret (value, s <| shifter_carry_out := carry |>).
Proof.
  intros Hrm Hrs Hw Hc. change (shtop_call f so s = let '(value, carry) := shifter_reference f so rm rs (CFlag s) in Ret (value, s <| shifter_carry_out := carry |>)).
  rewrite (surjective_pairing (shifter_reference _ _ _ _ _)). cbv iota beta. fold (gives s (shtop_call f so s) (shifter_reference f so rm rs (CFlag s))).
  destruct f; cbn [shtop_call].
  - by apply immediate_reference.
  - unfold DataProcessingOperandsRegister. rewrite (bind_read _ _ _ _ Hrm). by apply gives_keep.
  - by apply LSL_immediate_reference.
  - by apply LSL_register_reference.
  - by apply LSR_immediate_reference.
  - by apply LSR_register_reference.
  - by apply ASR_immediate_reference.
  - by apply ASR_register_reference.
  - by apply ROR_immediate_reference.
  - by apply ROR_register_reference.
Qed.
(** r1, ASR r2 with r1 = 0x80000010 and r2 = 4 *)
Definition demo_shift : ARMul_State := demo_cpu <| Reg ::= fun l => <[1%nat := 0x80000010]> (<[2%nat := 4]> l) |>.
Lemma shifter_operand_reference_witness :
  SHIFTER_OPERAND (Some ArithmeticShiftRightByRegister) 0x251 demo_shift = Ret (0xF8000001, demo_shift <| shifter_carry_out := 0 |>).
Proof.
  rewrite (shifter_operand_reference ArithmeticShiftRightByRegister 0x251 0x80000010 4 demo_shift);
    [vm_compute; reflexivity|vm_compute; reflexivity|vm_compute; reflexivity|unfold is_u32; lia|left; vm_compute; reflexivity].
Defined.
