(* ===== verification/ArmFlags.v ===== *)
(** Flags: what a comparison leaves for the conditions, addition of 64 bits in two steps,
    and the count of leading zeros. *)

From S2P Require Import Prelude ArmSupp ArmState ArmOperands ArmTrans ArmData ArmSteady ArmShift ArmDemo ArmMachine ArmMedia.

(** ** Conditions *)

(** The conditions as comparisons of the operands, as unsigned and as signed words *)
Definition compares (s : ARMul_State) (l r : Z) : Prop :=
  CondPassed s EQ = (l =? r) /\ CondPassed s NE = negb (l =? r) /\
  CondPassed s CS = (r <=? l) /\ CondPassed s CC = (l <? r) /\ CondPassed s HI = (r <? l) /\ CondPassed s LS = (l <=? r) /\
  CondPassed s GE = (s32 r <=? s32 l) /\ CondPassed s LT = (s32 l <? s32 r) /\ CondPassed s GT = (s32 r <? s32 l) /\ CondPassed s LE = (s32 l <=? s32 r) /\
  CondPassed s MI = (2 ^ 31 <=? u32 (l - r)) /\ CondPassed s PL = (u32 (l - r) <? 2 ^ 31) /\
  CondPassed s VS = negb ((- 2 ^ 31 <=? s32 l - s32 r) && (s32 l - s32 r <? 2 ^ 31)) /\ CondPassed s VC = negb (CondPassed s VS) /\ CondPassed s AL = true.
Lemma truth_if (b : bool) : truth (if b then 1 else 0) = b.
Proof. by destruct b. Qed.
Lemma truth_if' (b : bool) : truth (if b then 0 else 1) = negb b.
Proof. by destruct b. Qed.
Lemma truth_b2z b : truth (Z.b2z b) = b.
Proof. by destruct b. Qed.
Lemma truth_BIT_31 v : is_u32 v -> truth (BIT v 31) = (2 ^ 31 <=? v).
Proof. intros Hv. rewrite BIT_31 by done. rewrite Z.leb_antisym. by destruct (v <? 2 ^ 31). Qed.
(** Subtraction as the processor does it *)
Lemma AddWithCarry_sub l r : is_u32 l -> is_u32 r ->
  AddWithCarry l (not32 r) 1 = (u32 (l - r), r <=? l, negb ((- 2 ^ 31 <=? s32 l - s32 r) && (s32 l - s32 r <? 2 ^ 31))).
Proof.
  intros Hl Hr. rewrite AddWithCarry_eq by (try apply not32_range; done || by right). rewrite not32_sub by done.
  assert (E1 : u32 (l + (0xFFFFFFFF - r) + 1) = u32 (l - r)) by word.
  assert (E2 : s32 (0xFFFFFFFF - r) = -1 - s32 r) by (rewrite !s32_u32 by word; repeat case_bool; word).
  rewrite E1, E2. f_equal; [f_equal; unfold is_u32 in *; repeat case_bool; lia|]. f_equal. f_equal; [f_equal; lia|f_equal; lia].
Qed.
Definition cmp_flags (l r : Z) (s : ARMul_State) : ARMul_State :=
  let '(result, carry, overflow) := AddWithCarry l (not32 r) 1 in
  s <| NFlag := if truth (BIT result 31) then 1 else 0 |> <| ZFlag := if truth result then 0 else 1 |> <| CFlag := Z.b2z carry |> <| VFlag := Z.b2z overflow |>.
Lemma compare_sub l r s : compare l (not32 r) 1 s = Ret (tt, cmp_flags l r s).
Proof. unfold compare, cmp_flags. by destruct (AddWithCarry _ _ _) as [[? ?] ?]. Qed.
Lemma cmp_flags_compares l r s : is_u32 l -> is_u32 r -> compares (cmp_flags l r s) l r.
Proof.
  intros Hl Hr. unfold cmp_flags. rewrite AddWithCarry_sub by done. pose proof (u32_range (l - r)) as Hd.
  assert (Ez : truth (u32 (l - r)) = negb (l =? r)) by (unfold truth; f_equal; apply eq_true_iff_eq; rewrite !Z.eqb_eq; word).
  unfold compares, CondPassed. cbn -[u32 s32 BIT Z.pow truth]. rewrite !truth_if, !truth_if', !truth_b2z, Ez, truth_BIT_31, negb_involutive by done.
  rewrite !s32_u32 by done. unfold u32, is_u32 in *. clear Ez Hd.
  split_and!; repeat case_bool; cbn [negb andb orb Bool.eqb]; try reflexivity; exfalso; Z.to_euclidean_division_equations; lia.
Qed.
Lemma compares_same s s' l r : NFlag s' = NFlag s -> ZFlag s' = ZFlag s -> CFlag s' = CFlag s -> VFlag s' = VFlag s -> compares s l r -> compares s' l r.
Proof.
  intros E1 E2 E3 E4. assert (E : CondPassed s' = CondPassed s) by (unfold CondPassed; by rewrite E1, E2, E3, E4). unfold compares. by rewrite E.
Qed.
(** Running handlers: with sixteen registers nothing is out of range. *)
Lemma wp_cpu_Reg i v (Q : Z -> ARMul_State -> Prop) s : Reg s !! Z.to_nat i = Some v -> Q v s -> wp (cpu_Reg i) Q s.
Proof. intros Hv HQ. unfold wp, cpu_Reg, mbind, M_bind, get, deref. rewrite Hv. exact HQ. Qed.
Lemma wp_set_Reg i v (Q : unit -> ARMul_State -> Prop) s : (Z.to_nat i < length (Reg s))%nat -> Q tt (s <| Reg ::= <[Z.to_nat i := u32 v]> |>) -> wp (set_Reg i v) Q s.
Proof.
  intros [old Ho]%lookup_lt_is_Some_2 HQ. unfold wp, set_Reg, mbind, M_bind, get, deref, modify. rewrite Ho. exact HQ.
Qed.
Lemma advance_wp l (Q : next -> ARMul_State -> Prop) s : length (Reg s) = 16%nat ->
  (forall pc, Q (FETCH_NEXT l) (s <| Reg ::= <[15%nat := pc]> |>)) -> wp (advance l) Q s.
Proof.
  intros Hlen HQ. unfold advance, add_pc. apply wp_bind, wp_bind, wp_get. destruct (lookup_lt_is_Some_2 (Reg s) 15 ltac:(lia)) as [pc Hpc].
  apply wp_bind. apply (wp_cpu_Reg 15 pc); [done|]. apply wp_set_Reg; [change (15 < length (Reg s))%nat; lia|]. apply wp_ret, HQ.
Qed.
Lemma conditional_wp i l body (Q : next -> ARMul_State -> Prop) s : passes i s = true ->
  wp body (fun r s1 => match r with None => wp (advance l) Q s1 | Some n => Q n s1 end) s -> wp (conditional i l body) Q s.
Proof.
  intros Hp Hb. unfold conditional. apply wp_bind, wp_get. rewrite Hp. apply wp_bind. eapply wp_mono; [exact Hb|]. cbn beta. intros [n|] s1 H1; [by apply wp_ret|done].
Qed.
Lemma wp_returns {A} (m : Prelude.M ARMul_State A) a s s1 (Q : A -> ARMul_State -> Prop) : m s = Ret (a, s1) -> Q a s1 -> wp m Q s.
Proof. intros Hm HQ. unfold wp. by rewrite Hm. Qed.

(** ** Leading zeros *)

(** One step: where the top [k] bits are clear they are shifted out and counted. *)
Lemma clz_step (n x k : Z) : 0 < x < 2 ^ 32 -> 0 < k < 32 ->
  let '(n', x') := if Z.shiftr x (32 - k) =? 0 then (n + k, u32 (Z.shiftl x k)) else (n, x) in
  n' - Z.log2 x' = n - Z.log2 x /\ 0 < x' < 2 ^ 32 /\ (2 ^ (32 - 2 * k) <= x -> 2 * k <= 32 -> 2 ^ (32 - k) <= x').
Proof.
  intros Hx Hk. rewrite Z.shiftr_div_pow2, Z.shiftl_mul_pow2 by lia. pose proof (Z.pow_pos_nonneg 2 k ltac:(lia) ltac:(lia)).
  pose proof (Z.pow_pos_nonneg 2 (32 - k) ltac:(lia) ltac:(lia)). pose proof (pow_split k 32 ltac:(lia)) as Ep.
  destruct (Z.eqb_spec (x / 2 ^ (32 - k)) 0) as [E|E].
  - apply Z.div_small_iff in E; [|lia]. assert (Hlt : x < 2 ^ (32 - k)) by lia. rewrite u32_small by (unfold is_u32; nia).
    split_and!; [rewrite Z.log2_mul_pow2 by lia; lia|nia|nia|]. intros Hl Hk2. pose proof (pow_split k (32 - k) ltac:(lia)) as Ep2.
    replace (32 - k - k) with (32 - 2 * k) in Ep2 by lia. nia.
  - split_and!; [lia|lia|lia|]. intros _ _. destruct (Z.lt_ge_cases x (2 ^ (32 - k))) as [Hlt|]; [|done]. exfalso. apply E. apply Z.div_small. lia.
Qed.
Lemma clz_log2 x : is_u32 x -> clz x = if x =? 0 then 32 else 31 - Z.log2 x.
Proof.
  intros Hx. unfold clz. destruct (Z.eqb_spec x 0) as [|Hx0]; [done|]. assert (H0 : 0 < x < 2 ^ 32) by (unfold is_u32 in Hx; lia).
  pose proof (clz_step 1 x 16 H0 ltac:(lia)) as H1. change (32 - 16) with 16 in H1. destruct (if Z.shiftr x 16 =? 0 then _ else _) as [n1 x1]. destruct H1 as (E1 & B1 & L1).
  specialize (L1 ltac:(change (2 ^ (32 - 2 * 16)) with 1; lia) ltac:(lia)).
  pose proof (clz_step n1 x1 8 B1 ltac:(lia)) as H2. change (32 - 8) with 24 in H2. destruct (if Z.shiftr x1 24 =? 0 then _ else _) as [n2 x2]. destruct H2 as (E2 & B2 & L2).
  specialize (L2 L1 ltac:(lia)).
  pose proof (clz_step n2 x2 4 B2 ltac:(lia)) as H3. change (32 - 4) with 28 in H3. destruct (if Z.shiftr x2 28 =? 0 then _ else _) as [n3 x3]. destruct H3 as (E3 & B3 & L3).
  specialize (L3 L2 ltac:(lia)).
  pose proof (clz_step n3 x3 2 B3 ltac:(lia)) as H4. change (32 - 2) with 30 in H4. destruct (if Z.shiftr x3 30 =? 0 then _ else _) as [n4 x4]. destruct H4 as (E4 & B4 & L4).
  specialize (L4 L3 ltac:(lia)). rewrite Z.shiftr_div_pow2 by lia.
  assert (Hl : Z.log2 x4 = 30 + x4 / 2 ^ 31).
  { destruct (Z.lt_ge_cases x4 (2 ^ 31)).
    - rewrite Z.div_small by lia. apply Z.log2_unique; lia.
    - replace (x4 / 2 ^ 31) with 1 by (apply Z.div_unique with (x4 - 2 ^ 31); lia). apply Z.log2_unique; lia. }
  lia.
Qed.

(** ** Properties *)

(** After CMP the fourteen conditions mean what they are called: equality, the four
    unsigned and the four signed comparisons of the operands, the sign and the signed
    overflow of their difference. *)
Theorem CMP_conditions (i : arm_inst) (s s1 : ARMul_State) (I_ Rn so l r : Z) (f : shtop_fp_t) :
  component i = cmp_inst I_ Rn so (Some f) -> passes i s = true -> rn_val Rn s = Ret (l, s) -> SHIFTER_OPERAND (Some f) so s = Ret (r, s1) ->
  is_u32 l -> is_u32 r -> length (Reg s1) = 16%nat -> wp (CMP_INST i) (fun _ s' => compares s' l r) s.
Proof.
  intros Hi Hp Hl Hr Hlw Hrw Hlen. apply conditional_wp; [done|]. rewrite Hi. apply wp_bind, (wp_returns _ l s s); [done|]. apply wp_bind, (wp_returns _ r s s1); [done|].
  unfold simply. apply wp_bind, (wp_returns _ tt s1 (cmp_flags l r s1)); [apply compare_sub|]. apply wp_ret.
  apply advance_wp; [unfold cmp_flags; by destruct (AddWithCarry _ _ _) as [[? ?] ?]|]. intros pc. by apply (compares_same (cmp_flags l r s1)), cmp_flags_compares.
Qed.
(** CMP r1, r2 with r1 = -1 and r2 = 1: less as signed words, higher as unsigned ones *)
Definition demo_cmp : ARMul_State := demo_cpu <| Reg ::= fun l => <[1%nat := 0xFFFFFFFF]> (<[2%nat := 1]> l) |>.
Definition cmp_r1_r2 : arm_inst := mk_arm_inst 130 AL NON_BRANCH (cmp_inst 0 1 0x002 (Some Register)).
Lemma CMP_conditions_witness : wp (CMP_INST cmp_r1_r2) (fun _ s' => CondPassed s' LT = true /\ CondPassed s' HI = true) demo_cmp.
Proof.
  eapply wp_mono; [apply (CMP_conditions cmp_r1_r2 demo_cmp (demo_cmp <| shifter_carry_out := 0 |>) 0 1 0x002 0xFFFFFFFF 1 Register);
    [reflexivity|reflexivity|vm_compute; reflexivity|vm_compute; reflexivity|unfold is_u32; lia|unfold is_u32; lia|vm_compute; reflexivity]|].
  intros n s' (_ & _ & _ & _ & Hhi & _ & _ & Hlt & _). split; [rewrite Hlt; reflexivity|rewrite Hhi; reflexivity].
Defined.

(** CLZ puts the number of zeros above the highest set bit in the destination. *)
Theorem CLZ_counts (i : arm_inst) (s : ARMul_State) (Rm Rd rm : Z) :
  component i = clz_inst Rm Rd -> passes i s = true -> 0 <= Rd < 15 -> length (Reg s) = 16%nat -> Reg s !! Z.to_nat Rm = Some rm -> is_u32 rm ->
  wp (CLZ_INST i) (fun _ s' => Reg s' !! Z.to_nat Rd = Some (if rm =? 0 then 32 else 31 - Z.log2 rm)) s.
Proof.
  intros Hi Hp Hd Hlen Hm Hw. apply conditional_wp; [done|]. rewrite Hi. unfold unary, simply. apply wp_bind, wp_bind, (wp_cpu_Reg _ rm); [done|].
  apply wp_set_Reg; [lia|]. apply wp_ret, advance_wp; [cbn; by rewrite length_insert|]. intros pc. cbn -[clz u32].
  rewrite list_lookup_insert_ne, list_lookup_insert_eq by lia. f_equal. rewrite clz_log2 by done. apply u32_small.
  destruct (Z.eqb_spec rm 0); [done|]. unfold is_u32 in *. pose proof (Z.log2_nonneg rm). assert (Z.log2 rm < 32) by (apply Z.log2_lt_pow2; lia). lia.
Qed.
Lemma CLZ_counts_witness :
  wp (CLZ_INST (mk_arm_inst 0 AL NON_BRANCH (clz_inst 2 3))) (fun _ s' => Reg s' !! 3%nat = Some 15) (demo_cpu <| Reg ::= <[2%nat := 0x00012345]> |>).
Proof.
  apply (CLZ_counts (mk_arm_inst 0 AL NON_BRANCH (clz_inst 2 3)) (demo_cpu <| Reg ::= <[2%nat := 0x00012345]> |>) 2 3 0x00012345);
    [reflexivity|reflexivity|lia|vm_compute; reflexivity|vm_compute; reflexivity|unfold is_u32; lia].
Defined.

(** * Long multiplications

    Multiplications of 64 bits against the integers. *)

(** ** Halves of a double word *)

Lemma land_ones_32 v : Z.land v 0xffffffff = v mod 2 ^ 32.
Proof. apply land_word. Qed.
Lemma BITS_u64_lo v : u32 (BITS_u64 v 0 31) = v mod 2 ^ 32.
Proof.
  unfold BITS_u64. change (63 - 31) with 32. change (32 + 0) with 32. rewrite Z.shiftr_div_pow2, Z.shiftl_mul_pow2 by lia.
  unfold u64, u32. change 18446744073709551616 with (2 ^ 32 * 2 ^ 32). rewrite Z.mul_mod_distr_r by lia. rewrite Z.div_mul by lia. apply Z.mod_mod. lia.
Qed.
Lemma BITS_u64_hi v : u32 (BITS_u64 v 32 63) = v / 2 ^ 32 mod 2 ^ 32.
Proof.
  unfold BITS_u64. change (63 - 63) with 0. change (0 + 32) with 32. rewrite Z.shiftl_0_r, Z.shiftr_div_pow2 by lia. unfold u64, u32.
  change 4294967296 with (2 ^ 32). change 18446744073709551616 with (2 ^ 32 * 2 ^ 32). rewrite Z.rem_mul_r by lia.
  rewrite (Z.mul_comm (2 ^ 32) (_ mod _)), Z.div_add by lia. rewrite (Z.div_small (v mod 2 ^ 32)) by (apply Z.mod_pos_bound; lia). rewrite Z.add_0_l. apply Z.mod_mod. lia.
Qed.
(** Congruent double words have the same halves. *)
Lemma halves_mod v w : v mod 2 ^ 64 = w mod 2 ^ 64 -> v mod 2 ^ 32 = w mod 2 ^ 32 /\ v / 2 ^ 32 mod 2 ^ 32 = w / 2 ^ 32 mod 2 ^ 32.
Proof.
  intros E. change (2 ^ 64) with (2 ^ 32 * 2 ^ 32) in E. rewrite !Z.rem_mul_r in E by lia.
  pose proof (Z.mod_pos_bound v (2 ^ 32) ltac:(lia)). pose proof (Z.mod_pos_bound w (2 ^ 32) ltac:(lia)). lia.
Qed.
Lemma u64_mod v : u64 v mod 2 ^ 64 = v mod 2 ^ 64.
Proof. unfold u64. apply Z.mod_mod. lia. Qed.
Lemma s64_mod v : s64 v mod 2 ^ 64 = v mod 2 ^ 64.
Proof. unfold s64. change 18446744073709551616 with (2 ^ 64). rewrite Zminus_mod_idemp_l. f_equal. lia. Qed.
Lemma BITS_s64_lo v : u32 (BITS_s64 v 0 31) = v mod 2 ^ 32.
Proof.
  unfold BITS_s64. change (63 - 31) with 32. change (32 + 0) with 32. rewrite Z.shiftr_div_pow2, Z.shiftl_mul_pow2 by lia. change (u32 ?x) with (x mod 2 ^ 32).
  rewrite (proj2 (halves_mod _ _ (s64_mod (v * 2 ^ 32)))). by rewrite Z.div_mul by lia.
Qed.
Lemma BITS_s64_hi v : u32 (BITS_s64 v 32 63) = v / 2 ^ 32 mod 2 ^ 32.
Proof.
  unfold BITS_s64. change (63 - 63) with 0. change (0 + 32) with 32. rewrite Z.shiftl_0_r, Z.shiftr_div_pow2 by lia. change (u32 ?x) with (x mod 2 ^ 32).
  exact (proj2 (halves_mod _ _ (s64_mod v))).
Qed.
Lemma extend_64_signed r : is_u32 r -> extend_64 r = s32 r.
Proof.
  intros Hr. unfold extend_64. rewrite truth_BIT_31, s32_u32 by done. rewrite Z.leb_antisym. case_bool; [done|]. cbn [negb].
  rewrite Z.lor_comm, (lor_disjoint _ _ 32) by (done || lia). unfold is_u32 in Hr. unfold s64.
  Z.to_euclidean_division_equations; lia.
Qed.
Lemma shiftl_32 v : Z.shiftl v 32 = v * 2 ^ 32.
Proof. by rewrite Z.shiftl_mul_pow2 by lia. Qed.

(** ** Running a long multiplication *)

(** The result in a pair of registers, and its sign and whether it is zero in the flags *)
Definition long_result (S_ RdLo RdHi P : Z) (s : ARMul_State) : Prop :=
  Reg s !! Z.to_nat RdLo = Some (P mod 2 ^ 32) /\ Reg s !! Z.to_nat RdHi = Some (P / 2 ^ 32 mod 2 ^ 32) /\
  (truth S_ = true -> NFlag s = P mod 2 ^ 64 / 2 ^ 63 /\ ZFlag s = Z.b2z (P mod 2 ^ 64 =? 0)).
Lemma double_word P : P mod 2 ^ 64 = P mod 2 ^ 32 + 2 ^ 32 * (P / 2 ^ 32 mod 2 ^ 32).
Proof. change (2 ^ 64) with (2 ^ 32 * 2 ^ 32). by rewrite Z.rem_mul_r by lia. Qed.
Section Long.
Context (s : ARMul_State) (RdLo RdHi : Z).
Hypothesis Hlen : length (Reg s) = 16%nat.
Hypothesis Hlo : 0 <= RdLo < 15.
Hypothesis Hhi : 0 <= RdHi < 15.
Hypothesis Hne : RdLo <> RdHi.
Definition written (a b : Z) : list Z := <[Z.to_nat RdHi := b]> (<[Z.to_nat RdLo := a]> (Reg s)).
Lemma written_lookup a b : written a b !! Z.to_nat RdLo = Some a /\ written a b !! Z.to_nat RdHi = Some b /\ length (written a b) = 16%nat.
Proof.
  unfold written. rewrite !length_insert. split_and!; [|by rewrite list_lookup_insert_eq by (rewrite length_insert; lia)|done].
  by rewrite list_lookup_insert_ne, list_lookup_insert_eq by lia.
Qed.
Lemma set_lo_hi_wp lo hi (Q : unit -> ARMul_State -> Prop) : Q tt (s <| Reg := written (u32 lo) (u32 hi) |>) -> wp (set_lo_hi RdLo RdHi lo hi) Q s.
Proof. intros HQ. unfold set_lo_hi. apply wp_bind, wp_set_Reg; [lia|]. apply wp_set_Reg; [cbn; rewrite length_insert; lia|]. exact HQ. Qed.
Lemma set_hi_lo_wp lo hi (Q : unit -> ARMul_State -> Prop) : Q tt (s <| Reg := written (u32 lo) (u32 hi) |>) -> wp (set_hi_lo RdLo RdHi lo hi) Q s.
Proof.
  intros HQ. unfold set_hi_lo. apply wp_bind, wp_set_Reg; [lia|]. apply wp_set_Reg; [cbn; rewrite length_insert; lia|].
  unfold written in HQ. rewrite list_insert_insert_ne in HQ by lia. exact HQ.
Qed.
Lemma long_flags_wp S_ P l :
  wp (simply (long_flags S_ RdLo RdHi)) (fun r s1 => match r with None => wp (advance l) (fun _ => long_result S_ RdLo RdHi P) s1 | Some _ => False end)
    (s <| Reg := written (P mod 2 ^ 32) (P / 2 ^ 32 mod 2 ^ 32) |>).
Proof.
  destruct (written_lookup (P mod 2 ^ 32) (P / 2 ^ 32 mod 2 ^ 32)) as (El & Eh & Ew). unfold simply, long_flags.
  assert (Hend : forall s1, Reg s1 = written (P mod 2 ^ 32) (P / 2 ^ 32 mod 2 ^ 32) ->
    (truth S_ = true -> NFlag s1 = P mod 2 ^ 64 / 2 ^ 63 /\ ZFlag s1 = Z.b2z (P mod 2 ^ 64 =? 0)) -> wp (advance l) (fun _ => long_result S_ RdLo RdHi P) s1).
  { intros s1 E Hf. apply advance_wp; [by rewrite E|]. intros pc. unfold long_result. cbn. rewrite E, !list_lookup_insert_ne by lia. by split_and!. }
  apply wp_bind. destruct (truth S_) eqn:ES; [|apply wp_ret, wp_ret, Hend; done].
  apply wp_bind. eapply wp_cpu_Reg; [exact Eh|]. apply wp_bind. eapply wp_cpu_Reg; [exact El|]. apply wp_modify, wp_ret, Hend; [done|]. intros _. cbn.
  rewrite BIT_div by lia. rewrite double_word. pose proof (Z.mod_pos_bound P (2 ^ 32) ltac:(lia)) as Hl. pose proof (Z.mod_pos_bound (P / 2 ^ 32) (2 ^ 32) ltac:(lia)) as Hh.
  set (h := P / 2 ^ 32 mod 2 ^ 32) in *. set (k := P mod 2 ^ 32) in *. change (2 ^ 63) with (2 ^ 31 * 2 ^ 32). split.
  - Z.to_euclidean_division_equations; lia.
  - f_equal. repeat case_bool; cbn [andb]; lia.
Qed.
End Long.

(** ** Properties *)

Lemma long_result_mod S_ RdLo RdHi P P' s : P mod 2 ^ 64 = P' mod 2 ^ 64 -> long_result S_ RdLo RdHi P s -> long_result S_ RdLo RdHi P' s.
Proof. intros E. unfold long_result. destruct (halves_mod _ _ E) as [-> ->]. by rewrite E. Qed.
Lemma long_run s RdLo RdHi S_ P P' l : length (Reg s) = 16%nat -> 0 <= RdLo < 15 -> 0 <= RdHi < 15 -> RdLo <> RdHi -> P mod 2 ^ 64 = P' mod 2 ^ 64 ->
  wp (simply (long_flags S_ RdLo RdHi))
    (fun r s1 => match r with None => wp (advance l) (fun _ => long_result S_ RdLo RdHi P') s1 | Some _ => long_result S_ RdLo RdHi P' s1 end)
    (s <| Reg := written s RdLo RdHi (P mod 2 ^ 32) (P / 2 ^ 32 mod 2 ^ 32) |>).
Proof.
  intros Hlen Hlo Hhi Hne E. eapply wp_mono; [by apply (long_flags_wp s RdLo RdHi Hlen Hlo Hhi Hne S_ P l)|]. cbn beta.
  intros [n|] s1 Hw; [done|]. eapply wp_mono; [exact Hw|]. cbn beta. intros _ s2. by apply long_result_mod.
Qed.
Lemma sum_mod a a' b b' : a mod 2 ^ 64 = a' mod 2 ^ 64 -> b mod 2 ^ 64 = b' mod 2 ^ 64 -> (a + b) mod 2 ^ 64 = (a' + b') mod 2 ^ 64.
Proof. intros E1 E2. rewrite (Z.add_mod a), (Z.add_mod a') by lia. by rewrite E1, E2. Qed.
(** C25: the multiplications of 64 bits give the product of the integers: UMULL and SMULL
    the exact unsigned and signed product, UMLAL and SMLAL its sum with the pair of
    registers modulo 2^64, UMAAL the product with two words added, which always fits; the
    S bit sets N and Z from all 64 bits. *)
Theorem long_multiplications (s : ARMul_State) (index S_ Rm Rs RdLo RdHi rm rs lo hi : Z) (br : TransExtData) :
  length (Reg s) = 16%nat -> 0 <= RdLo < 15 -> 0 <= RdHi < 15 -> RdLo <> RdHi ->
  Reg s !! Z.to_nat Rm = Some rm -> Reg s !! Z.to_nat Rs = Some rs -> Reg s !! Z.to_nat RdLo = Some lo -> Reg s !! Z.to_nat RdHi = Some hi ->
  is_u32 rm -> is_u32 rs -> is_u32 lo -> is_u32 hi ->
  let inst := mk_arm_inst index AL br in
  wp (UMULL_INST (inst (umull_inst S_ RdHi RdLo Rs Rm))) (fun _ => long_result S_ RdLo RdHi (rm * rs)) s /\
  wp (SMULL_INST (inst (umull_inst S_ RdHi RdLo Rs Rm))) (fun _ => long_result S_ RdLo RdHi (s32 rm * s32 rs)) s /\
  wp (UMLAL_INST (inst (umlal_inst S_ Rm Rs RdHi RdLo))) (fun _ => long_result S_ RdLo RdHi (rm * rs + (hi * 2 ^ 32 + lo))) s /\
  wp (SMLAL_INST (inst (umlal_inst S_ Rm Rs RdHi RdLo))) (fun _ => long_result S_ RdLo RdHi (s32 rm * s32 rs + (hi * 2 ^ 32 + lo))) s /\
  wp (UMAAL_INST (inst (umaal_inst Rs Rm RdHi RdLo))) (fun _ => long_result 0 RdLo RdHi (rm * rs + lo + hi)) s /\
  rm * rs + lo + hi < 2 ^ 64.
Proof.
  intros Hlen Hlo Hhi Hne Em Es El Eh Wm Ws Wl Wh inst.
  assert (Hread : forall i v (Q : Z -> ARMul_State -> Prop), Reg s !! Z.to_nat i = Some v -> Q v s -> wp (cpu_Reg i) Q s) by (intros; by eapply wp_cpu_Reg).
  split_and!.
  - apply conditional_wp; [done|]. apply wp_bind, (Hread _ rm _ Em), wp_bind, (Hread _ rs _ Es), wp_bind, set_hi_lo_wp; try done.
    rewrite BITS_u64_lo, BITS_u64_hi. apply long_run; try done. apply u64_mod.
  - apply conditional_wp; [done|]. apply wp_bind, (Hread _ rm _ Em), wp_bind, (Hread _ rs _ Es), wp_bind, set_hi_lo_wp; try done.
    rewrite BITS_s64_lo, BITS_s64_hi. apply long_run; try done. rewrite !extend_64_signed by done. apply s64_mod.
  - apply conditional_wp; [done|]. apply wp_bind, (Hread _ rm _ Em), wp_bind, (Hread _ rs _ Es), wp_bind, (Hread _ hi _ Eh), wp_bind, (Hread _ lo _ El), wp_bind, set_lo_hi_wp; try done.
    rewrite BITS_u64_lo, BITS_u64_hi. apply long_run; try done. rewrite u64_mod, shiftl_32. apply sum_mod; [apply u64_mod|]. rewrite u64_mod. apply sum_mod; [apply u64_mod|done].
  - apply conditional_wp; [done|]. apply wp_bind, (Hread _ rm _ Em), wp_bind, (Hread _ rs _ Es), wp_bind, (Hread _ hi _ Eh), wp_bind, (Hread _ lo _ El), wp_bind, set_lo_hi_wp; try done.
    rewrite BITS_s64_lo, BITS_s64_hi. apply long_run; try done. rewrite !extend_64_signed by done. rewrite s64_mod, shiftl_32.
    apply sum_mod; [apply s64_mod|]. rewrite s64_mod. apply sum_mod; [apply s64_mod|done].
  - apply conditional_wp; [done|]. apply wp_bind, (Hread _ rm _ Em), wp_bind, (Hread _ rs _ Es), wp_bind, (Hread _ lo _ El), wp_bind, (Hread _ hi _ Eh).
    unfold simply. apply wp_bind, set_lo_hi_wp; try done. apply wp_ret.
    set (P := rm * rs + lo + hi). rewrite !land_ones_32, Z.shiftr_div_pow2 by lia. unfold u32. change 4294967296 with (2 ^ 32). rewrite !Z.mod_mod by lia.
    destruct (halves_mod _ _ (u64_mod P)) as [-> ->].
    pose proof (long_run s RdLo RdHi 0 P P sizeof_umaal_inst Hlen Hlo Hhi Hne eq_refl) as Hw. unfold simply, long_flags in Hw. cbn [truth] in Hw.
    change (truth 0) with false in Hw. cbv iota in Hw. exact Hw.
  - unfold is_u32 in *. nia.
Qed.
(** SMLAL of -2 * 3 onto 5 *)
Definition demo_long : ARMul_State := demo_cpu <| Reg ::= fun l => <[1%nat := 0xFFFFFFFE]> (<[2%nat := 3]> (<[3%nat := 5]> (<[4%nat := 0]> l))) |>.
Lemma long_multiplications_witness :
  wp (SMLAL_INST (mk_arm_inst 0 AL NON_BRANCH (umlal_inst 1 1 2 4 3))) (fun _ s' => Reg s' !! 3%nat = Some 0xFFFFFFFF /\ Reg s' !! 4%nat = Some 0xFFFFFFFF /\ NFlag s' = 1) demo_long.
Proof.
  destruct (long_multiplications demo_long 0 1 1 2 3 4 0xFFFFFFFE 3 5 0 NON_BRANCH) as (_ & _ & _ & Hw & _);
    [vm_compute; reflexivity|lia|lia|lia|vm_compute; reflexivity|vm_compute; reflexivity|vm_compute; reflexivity|vm_compute; reflexivity|unfold is_u32; lia..|].
  eapply wp_mono; [exact Hw|]. cbn beta. intros _ s' (H1 & H2 & H3). split; [exact H1|split; [exact H2|apply H3; reflexivity]].
Defined.
