(* ===== verification/ArmModes.v ===== *)
(** Modes: the banked registers as a map from banks to their registers, and switching modes
    as a change of the current bank alone. *)

From S2P Require Import Prelude ArmSupp ArmState ArmOperands ArmUser ArmDemo ArmMachine MemoryMap Memory MemoryAccess ArmTrans ArmSteady ArmKeeps ArmCode ArmShift ArmFlags ArmLoop.

(** ** The abstract register file *)

(** A bank has r13, r14 and, but for user mode, a saved status register. *)
Inductive bank := BankUser | BankIrq | BankSvc | BankAbort | BankUndef.
#[export] Instance bank_eq_dec : EqDecision bank.
Proof. solve_decision. Defined.
(** The bank of a mode; fast interrupts have registers of their own kind. *)
Definition bank_of (mode : Z) : option bank :=
  if (mode =? USER32MODE) || (mode =? SYSTEM32MODE) then Some BankUser
  else if mode =? IRQ32MODE then Some BankIrq
  else if mode =? SVC32MODE then Some BankSvc
  else if mode =? ABORT32MODE then Some BankAbort
  else if mode =? UNDEF32MODE then Some BankUndef
  else None.
Definition stored_bank (b : bank) (s : ARMul_State) : list Z :=
  match b with BankUser => Reg_usr s | BankIrq => Reg_irq s | BankSvc => Reg_svc s | BankAbort => Reg_abort s | BankUndef => Reg_undef s end.
Definition spsr_index (b : bank) : nat :=
  match b with BankUser => USERBANK | BankIrq => IRQBANK | BankSvc => SVCBANK | BankAbort => ABORTBANK | BankUndef => UNDEFBANK end.
(** r13 and r14 of a bank: the registers in use, or those that are stored *)
Definition banked (b : bank) (s : ARMul_State) : Z * Z :=
  if bool_decide (bank_of (Mode s) = Some b) then (at_ (Reg s) 13, at_ (Reg s) 14) else (at_ (stored_bank b s) 0, at_ (stored_bank b s) 1).
Definition banked_spsr (b : bank) (s : ARMul_State) : Z :=
  if bool_decide (bank_of (Mode s) = Some b) then Spsr_copy s else at_ (Spsr s) (spsr_index b).
(** The abstract register file: the registers that all modes share, and the banks *)
Record register_file := mkRegisters { shared : list Z; pc : Z; banks : bank -> Z * Z; spsrs : bank -> option Z }.
Definition registers (s : ARMul_State) : register_file :=
  mkRegisters (take 13 (Reg s)) (at_ (Reg s) 15) (fun b => banked b s) (fun b => if decide (b = BankUser) then None else Some (banked_spsr b s)).
Definition same_registers (f f' : register_file) : Prop :=
  shared f' = shared f /\ pc f' = pc f /\ (forall b, banks f' b = banks f b) /\ (forall b, spsrs f' b = spsrs f b).
Definition banks_ok (s : ARMul_State) : Prop :=
  length (Reg s) = 16%nat /\ length (Spsr s) = 7%nat /\ is_Some (bank_of (Mode s)).

Lemma bank_of_cases mode b : bank_of mode = Some b ->
  (mode = USER32MODE \/ mode = SYSTEM32MODE) /\ b = BankUser \/ mode = IRQ32MODE /\ b = BankIrq \/ mode = SVC32MODE /\ b = BankSvc \/
  mode = ABORT32MODE /\ b = BankAbort \/ mode = UNDEF32MODE /\ b = BankUndef.
Proof. unfold bank_of. repeat (case_bool; cbn [orb]); intros [= <-]; subst; auto 10. Qed.
Lemma at_insert (l : list Z) i j v : (i < length l)%nat -> at_ (<[i := v]> l) j = if decide (i = j) then v else at_ l j.
Proof.
  intros Hi. unfold at_. rewrite !nth_lookup. destruct (decide (i = j)) as [->|Hne]; [by rewrite list_lookup_insert_eq|by rewrite list_lookup_insert_ne].
Qed.
(** The registers of all sixteen entries *)
Lemma sixteen (l : list Z) : length l = 16%nat ->
  exists r0 r1 r2 r3 r4 r5 r6 r7 r8 r9 r10 r11 r12 r13 r14 r15, l = [r0; r1; r2; r3; r4; r5; r6; r7; r8; r9; r10; r11; r12; r13; r14; r15].
Proof. intros Hl. do 16 (destruct l as [|? l]; [discriminate Hl|]). destruct l; [|discriminate Hl]. repeat eexists. Qed.
Lemma seven (l : list Z) : length l = 7%nat -> exists a b c d e f g, l = [a; b; c; d; e; f; g].
Proof. intros Hl. do 7 (destruct l as [|? l]; [discriminate Hl|]). destruct l; [|discriminate Hl]. repeat eexists. Qed.
Lemma ChangePrivilegeMode_registers mode s : banks_ok s -> is_Some (bank_of mode) ->
  same_registers (registers s) (registers (ChangePrivilegeMode mode s)) /\ Mode (ChangePrivilegeMode mode s) = mode /\ banks_ok (ChangePrivilegeMode mode s).
Proof.
  intros (Hr & Hs & [b Hb]) [b' Hb'].
  destruct (sixteen _ Hr) as (r0 & r1 & r2 & r3 & r4 & r5 & r6 & r7 & r8 & r9 & r10 & r11 & r12 & r13 & r14 & r15 & Er).
  destruct (seven _ Hs) as (s0 & s1 & s2 & s3 & s4 & s5 & s6 & Es).
  destruct s as [R Ru Rs Ra Rd Ri Rf sp c15 v x cpsr spc m bk fn fz fc fv so t ni nq ic et es]. cbn in Hr, Hs, Hb, Er, Es. subst R sp.
  unfold same_registers, banks_ok.
  destruct (bank_of_cases _ _ Hb) as [[[-> | ->] ->]|[[-> ->]|[[-> ->]|[[-> ->]|[-> ->]]]]];
  destruct (bank_of_cases _ _ Hb') as [[[-> | ->] ->]|[[-> ->]|[[-> ->]|[[-> ->]|[-> ->]]]]].
  all: cbn; split_and!; try done; try (by eexists); intros []; done.
Qed.

(** ** Properties *)

Lemma mode_bits c m n k : Z.land c k = m -> Z.land n k = n -> Z.land m (not32 m) = 0 -> Z.land (Z.lor (Z.land c (not32 m)) n) k = n.
Proof.
  intros Hc Hn Hm. rewrite Z.land_lor_distr_l, Hn. rewrite <- Z.land_assoc, (Z.land_comm (not32 m)), Z.land_assoc, Hc, Hm. by rewrite Z.lor_0_l.
Qed.
Lemma save_bank_cpsr s : Cpsr (save_bank s) = Cpsr s /\ Mode (save_bank s) = Mode s.
Proof. unfold save_bank. repeat match goal with |- context [if ?c then _ else _] => destruct c end; done. Qed.
Lemma load_bank_cpsr mode s : Cpsr (load_bank mode s) = Cpsr s /\ Mode (load_bank mode s) = Mode s.
Proof. unfold load_bank. repeat match goal with |- context [if ?c then _ else _] => destruct c end; done. Qed.
(** C23: switching between the modes without fast interrupts refines a change of the
    current mode over a map of banks: no register of any bank and no saved status register
    changes its value, the registers in use become those of the new mode, and the mode bits
    of the status register follow. *)
Theorem mode_switch_refines (s : ARMul_State) (mode : Z) (b : bank) :
  banks_ok s -> bank_of mode = Some b ->
  let s' := ChangePrivilegeMode mode s in
  same_registers (registers s) (registers s') /\ Mode s' = mode /\ banks_ok s' /\
  (at_ (Reg s') 13, at_ (Reg s') 14) = banks (registers s) b /\ (b <> BankUser -> spsrs (registers s) b = Some (Spsr_copy s')) /\
  (Z.land (Cpsr s) 0x1F = Mode s -> Z.land (Cpsr s') 0x1F = mode).
Proof.
  intros Hok Hb. cbv zeta. destruct (ChangePrivilegeMode_registers mode s Hok ltac:(by eexists)) as (Hsame & Hm & Hok').
  destruct Hsame as (H1 & H2 & H3 & H4). split_and!; try done.
  - rewrite <- H3. cbn. unfold banked. by rewrite Hm, Hb, bool_decide_true.
  - intros Hu. rewrite <- H4. cbn. rewrite decide_False by done. unfold banked_spsr. by rewrite Hm, Hb, bool_decide_true.
  - intros Hc. assert (Ec : Cpsr (ChangePrivilegeMode mode s) = if Mode s =? mode then Cpsr s else Z.lor (Z.land (Cpsr s) (not32 (Mode s))) mode).
    { unfold ChangePrivilegeMode. destruct (Z.eqb_spec (Mode s) mode); [done|]. rewrite (proj2 (Z.eqb_neq mode _)).
      - cbn -[save_bank load_bank]. destruct (load_bank_cpsr mode (save_bank s)) as [-> ->]. by destruct (save_bank_cpsr s) as [-> ->].
      - destruct (bank_of_cases _ _ Hb) as [[[-> | ->] _]|[[-> _]|[[-> _]|[[-> _]|[-> _]]]]]; done. }
    rewrite Ec. case_bool; [congruence|]. destruct Hok as (_ & _ & [b0 Hb0]).
    apply mode_bits; [done| |];
      [destruct (bank_of_cases _ _ Hb) as [[[-> | ->] _]|[[-> _]|[[-> _]|[[-> _]|[-> _]]]]]|
       destruct (bank_of_cases _ _ Hb0) as [[[-> | ->] _]|[[-> _]|[[-> _]|[[-> _]|[-> _]]]]]]; done.
Qed.
Lemma mode_switch_refines_witness :
  let s := demo_cpu <| Reg ::= <[13%nat := 77]> |> in let s' := ChangePrivilegeMode SVC32MODE s in
  same_registers (registers s) (registers s') /\ banks (registers s') BankUser = (77, 0) /\ at_ (Reg s') 13 = 0x10000000.
Proof.
  cbv zeta. set (s := demo_cpu <| Reg ::= _ |>).
  assert (Hok : banks_ok s) by (split_and!; [vm_compute; reflexivity..|eexists; vm_compute; reflexivity]).
  destruct (mode_switch_refines s SVC32MODE BankSvc Hok eq_refl) as (Hs & _ & _ & H13 & _). split; [exact Hs|].
  destruct Hs as (_ & _ & Hb & _). rewrite Hb. split; [vm_compute; reflexivity|]. apply (f_equal fst) in H13. cbn [fst] in H13. rewrite H13. vm_compute. reflexivity.
Defined.
(** Fast interrupts have their own r8 to r12, which are loaded over those of the mode that is
    left: coming back they are lost. *)
Example fiq_loses_registers : let s := demo_cpu <| Reg ::= <[8%nat := 77]> |> in
  at_ (Reg (ChangePrivilegeMode USER32MODE (ChangePrivilegeMode FIQ32MODE s))) 8 = 0.
Proof. vm_compute. reflexivity. Qed.

(** * Exclusive accesses

    The exclusive monitor: a store is done where the reservation of the last load covers its
    address, once, and leaves the memory alone elsewhere. *)

Lemma wp_zoom {S T A} (g : S -> T) (p : T -> S -> S) (f : Prelude.M T A) (Q : A -> S -> Prop) s :
  wp f (fun a t => Q a (p t s)) (g s) -> wp (zoom g p f) Q s.
Proof. unfold wp, zoom. by destruct (f (g s)) as [[a t]|]. Qed.

Section Exclusive.
Context {D W : Type} `{Host} `{Devices D} `{Kernel D W}.
Implicit Types (m : Machine D W).

Definition reservation (s : ARMul_State) : option Z := if exclusive_state s then Some (exclusive_tag s) else None.
Lemma IsExclusive_reservation a s : IsExclusiveMemoryAccess a s = bool_decide (reservation s = Some (Z.land a RESERVATION_GRANULE_MASK)).
Proof. unfold IsExclusiveMemoryAccess, reservation. destruct (exclusive_state s); cbn [andb]; [|done]. case_bool; symmetry; case_bool_decide; congruence. Qed.

(** Handlers of the machine, run *)
Lemma m_advance_wp l (Q : next -> Machine D W -> Prop) m : length (Reg (cpu m)) = 16%nat ->
  (forall pc, Q (FETCH_NEXT l) (m <| cpu ::= set_field Reg (<[15%nat := pc]>) |>)) -> wp (m_advance l) Q m.
Proof. intros Hlen HQ. apply wp_zoom, advance_wp; [done|]. exact HQ. Qed.
Lemma m_conditional_wp i l body (Q : next -> Machine D W -> Prop) m : passes i (cpu m) = true ->
  wp body (fun r m1 => match r with None => wp (m_advance l) Q m1 | Some n => Q n m1 end) m -> wp (m_conditional i l body) Q m.
Proof.
  intros Hp Hb. unfold m_conditional. apply wp_bind, wp_gets. rewrite Hp. apply wp_bind. eapply wp_mono; [exact Hb|]. cbn beta.
  intros [n|] m1 H1'; [by apply wp_ret|done].
Qed.
Lemma reg_wp i v (Q : Z -> Machine D W -> Prop) m : Reg (cpu m) !! Z.to_nat i = Some v -> Q v (m <| cpu := cpu m |>) -> wp (reg i) Q m.
Proof. intros Hv HQ. apply wp_zoom. by eapply wp_cpu_Reg. Qed.
Lemma set_reg_wp i v (Q : unit -> Machine D W -> Prop) m : (Z.to_nat i < length (Reg (cpu m)))%nat ->
  Q tt (m <| cpu ::= set_field Reg (<[Z.to_nat i := u32 v]>) |>) -> wp (set_reg i v) Q m.
Proof. intros Hi HQ. apply wp_zoom. by apply wp_set_Reg. Qed.
Lemma change_wp f (Q : unit -> Machine D W -> Prop) m : Q tt (m <| cpu := f (cpu m) |>) -> wp (change f) Q m.
Proof. intros HQ. by apply wp_zoom. Qed.
Lemma WriteMemory_wp n a v mem' (Q : unit -> Machine D W -> Prop) m :
  Write n a (if InBigEndianMode (cpu m) then swap n v else v) (memory m) = Ret (tt, mem') -> Q tt (m <| memory := mem' |>) -> wp (WriteMemory n a v) Q m.
Proof. intros Hw HQ. unfold WriteMemory. apply wp_bind, wp_gets, wp_zoom. unfold wp. by rewrite Hw. Qed.
Lemma ReadMemory_wp n a v mem' (Q : Z -> Machine D W -> Prop) m :
  Read n a (memory m) = Ret (v, mem') -> Q (if InBigEndianMode (cpu m) then swap n v else v) (m <| memory := mem' |>) -> wp (ReadMemory n a) Q m.
Proof. intros Hr HQ. unfold ReadMemory. apply wp_bind, wp_zoom. unfold wp at 1. rewrite Hr. by apply wp_bind, wp_gets, wp_ret. Qed.
End Exclusive.

(** ** Properties *)

(** C24: LDREX reserves the granule of its address; STREX writes the register to memory
    and gives 0 exactly where the reservation covers the granule of its address, and uses
    it up; elsewhere it gives 1 and changes neither the memory nor the reservation. *)
Theorem exclusive_accesses {D W : Type} `{Host} `{Devices D} `{Kernel D W} (m : Machine D W) (index Ra Rm Rn Rd op1 op2 base v : Z) (br : TransExtData) :
  length (Reg (cpu m)) = 16%nat -> 0 <= Rd < 15 -> Reg (cpu m) !! Z.to_nat Rn = Some base -> Reg (cpu m) !! Z.to_nat Rm = Some v ->
  let i := mk_arm_inst index AL br (generic_arm_inst Ra Rm Rn Rd op1 op2) in
  let granule := Z.land base RESERVATION_GRANULE_MASK in
  let data := if InBigEndianMode (cpu m) then swap 4 (u32 v) else u32 v in
  (forall loaded mem', Read 4 base (memory m) = Ret (loaded, mem') ->
    wp (LDREX_INST i) (fun _ m' => memory m' = mem' /\ reservation (cpu m') = Some granule /\
      Reg (cpu m') !! Z.to_nat Rd = Some (u32 (if InBigEndianMode (cpu m) then swap 4 loaded else loaded))) m) /\
  (reservation (cpu m) <> Some granule ->
    wp (STREX_INST i) (fun _ m' => memory m' = memory m /\ reservation (cpu m') = reservation (cpu m) /\ Reg (cpu m') !! Z.to_nat Rd = Some 1) m) /\
  (reservation (cpu m) = Some granule -> forall mem', Write 4 base data (memory m) = Ret (tt, mem') ->
    wp (STREX_INST i) (fun _ m' => memory m' = mem' /\ reservation (cpu m') = None /\ Reg (cpu m') !! Z.to_nat Rd = Some 0) m).
Proof.
  intros Hlen Hd Hn Hm i granule data. split_and!.
  - intros loaded mem' Hr. apply m_conditional_wp; [done|]. cbn. apply wp_bind, (reg_wp _ base); [done|]. apply wp_bind, change_wp.
    unfold m_simply. apply wp_bind, wp_bind, (ReadMemory_wp 4 base loaded mem'); [done|]. apply set_reg_wp; [cbn; lia|]. apply wp_ret, m_advance_wp.
    + cbn. by rewrite length_insert.
    + intros pc. cbn. split_and!; [done|done|]. rewrite list_lookup_insert_ne, list_lookup_insert_eq by lia. done.
  - intros Hres. apply m_conditional_wp; [done|]. cbn. apply wp_bind, (reg_wp _ base); [done|]. apply wp_bind, wp_gets. cbn.
    rewrite IsExclusive_reservation, bool_decide_false by done. unfold m_simply. apply wp_bind, set_reg_wp; [cbn; lia|]. apply wp_ret, m_advance_wp.
    + cbn. by rewrite length_insert.
    + intros pc. cbn. split_and!; [done|done|]. rewrite list_lookup_insert_ne, list_lookup_insert_eq by lia. done.
  - intros Hres mem' Hw. apply m_conditional_wp; [done|]. cbn. apply wp_bind, (reg_wp _ base); [done|]. apply wp_bind, wp_gets. cbn.
    rewrite IsExclusive_reservation, bool_decide_true by done. unfold m_simply. apply wp_bind, wp_bind, change_wp, wp_bind, wp_bind.
    apply (reg_wp _ v); [done|]. apply (WriteMemory_wp 4 base (u32 v) mem'); [exact Hw|]. apply set_reg_wp; [cbn; lia|]. apply wp_ret, m_advance_wp.
    + cbn. by rewrite length_insert.
    + intros pc. cbn. split_and!; [done|done|]. rewrite list_lookup_insert_ne, list_lookup_insert_eq by lia. done.
Qed.
Section Demo.
#[local] Existing Instance demo_host.
#[local] Existing Instance demo_devices.
#[local] Existing Instance demo_kernel.
(** r1 = 0x100010; STREX r3, r2, [r1] without a reservation *)
Definition demo_strex : Machine unit (list Z) :=
  (demo_machine []) <| cpu := demo_cpu <| Reg ::= fun l => <[1%nat := 0x100010]> (<[2%nat := 7]> l) |> <| exclusive_state := false |> |>.
Lemma exclusive_accesses_witness :
  wp (STREX_INST (mk_arm_inst 53 AL NON_BRANCH (generic_arm_inst 0 2 1 3 0 0)))
    (fun _ m' => memory m' = memory demo_strex /\ reservation (cpu m') = None /\ Reg (cpu m') !! 3%nat = Some 1) demo_strex.
Proof.
  destruct (exclusive_accesses demo_strex 53 0 2 1 3 0 0 0x100010 7 NON_BRANCH) as (_ & Hfail & _);
    [vm_compute; reflexivity|lia|vm_compute; reflexivity|vm_compute; reflexivity|].
  apply Hfail. vm_compute. discriminate.
Defined.
End Demo.
